(* ===== verification/_CoqProject ===== *)
-Q . S2P
Prelude.v
DiskLayout.v
Storage.v
Text.v
Clock.v
UserLayout.v
FrameAlloc.v
Vmm.v
VmmMem.v
VmmInv.v
VmmMap.v
VmmOps.v
VmmAccess.v
VmmProtect.v
VmmSpaces.v
VmmBoot.v
UserMem.v
Pipe.v
FdTable.v
FdInv.v
FdWake.v
Mmap.v
MmapOps.v
Paths.v
Security.v
BlockCache.v
CoolImage.v
CoolMem.v
CoolFile.v
CoolContent.v
CoolFs.v
CoolDir.v
CoolTree.v
CoolMount.v
CoolQuery.v
CoolSafe.v
Vfs.v
VfsAccess.v
VfsOps.v
Elf.v
ElfLoad.v
ElfStack.v
ElfImage.v
VmmRun.v
VmmClaims.v
VmmCases.v
VmmFindings.v
Shmem.v
ShmemMap.v
ShmemCases.v
Accounts.v
AccountsInv.v
AccountsDb.v
AccountsOps.v
AccountsRun.v
AccountsLogin.v
AccountsVfs.v
Process.v
MemoryPressure.v
ProcessInv.v
ProcessRun.v
ProcessLife.v
ProcessWait.v
ProcessCases.v
ProcessFds.v
Futex.v
Threads.v
Pthread.v
Once.v
PthreadCases.v
System.v
SystemCases.v
