(* ===== verification/Prelude.v ===== *)
(** * Verification of the coolOS kernel

    coolOS is an operating system kernel in Rust (src/src/) with a user library
    (src/userspace/libcool/).  This development is a shallow embedding of its
    storage stack, its file systems' common layer, its accounts, its file
    descriptors, its tasks and scheduler, its memory management and program
    loading, and its futexes with the thread library above them: every definition that models code is a Rocq function
    with the name of the Rust function, and the theorems are about these
    functions.

    ** The program and the files of the development

    Bytes travel from a block device up to a descriptor of a user task:

    - DiskLayout.v models src/src/disk_layout.rs: MBR and GPT partition tables,
      their checksums, alignment.
    - Storage.v models src/src/storage.rs: the block device names, the dispatch
      to the drivers, the scan for the root disk and the window through which
      the file system sees it.  The drivers are the class [BlockDriver] with
      the documented laws of a disk; [RamDisk] is an instance.
    - Text.v models the number parsing and printing of src/src/security.rs with
      the string functions they use; Clock.v models the conversion of
      milliseconds to ticks of src/src/interrupts.rs; Paths.v models the path
      functions of src/src/vfs.rs and src/src/coolfs.rs; Security.v models
      credentials, capabilities, mode bits and the access decisions of
      src/src/security.rs.
    - BlockCache.v models [BlockCache] of src/src/coolfs.rs over an abstract
      store ([ReliableStore] for a device that works, and theorems without that
      assumption for one that fails).
    - CoolImage.v models [Superblock], [Inode] and the methods of [Image];
      CoolFs.v models directories, path resolution, formatting, mounting and
      the public operations of src/src/coolfs.rs.  CoolMem.v, CoolFile.v,
      CoolContent.v, CoolDir.v, CoolTree.v, CoolMount.v, CoolQuery.v and
      CoolSafe.v prove CoolFS correct in layers, see below.
    - Vfs.v models the operations on paths of src/src/vfs.rs, checked and
      unchecked, over CoolFS and over FAT32, which is an interface; VfsAccess.v
      and VfsOps.v prove what they do and what they allow.
    - Accounts.v models the users, sessions, login throttling and first boot of
      src/src/security.rs.  Its files are the class [KernelFs]; AccountsInv.v,
      AccountsDb.v, AccountsOps.v, AccountsRun.v and AccountsLogin.v prove it
      correct against the laws [KernelFsSpec], and AccountsVfs.v shows that the
      modelled file system satisfies them, and the system at work on concrete
      runs, one of which goes wrong ([recovery_reset_unchecked]).
    - Pipe.v models [Pipe] and pipe_read of src/src/vfs.rs with the waiter
      lists of src/src/evented.rs; FdTable.v models [VfsState], the descriptor
      tables of all tasks and every operation on them.  FdInv.v and FdWake.v
      prove them correct.

    Memory and programs:

    - FrameAlloc.v models the frame allocator of src/src/memory.rs; UserLayout.v
      the layout of user space of src/src/vmm.rs; Vmm.v the rest of
      src/src/vmm.rs.  The record [Vmm] holds the physical memory, byte by byte,
      page tables included, the frame allocator, the frames recorded for each
      address space, the boot table and CR3.  [Mapper::map_to] of the x86_64
      crate is the class [Mapper] with its documented behaviour [MapperSpec].
      VmmMem.v says what an entry, a walk and the access checks mean; VmmInv.v
      states the invariant [vmm_ok]; VmmMap.v, VmmOps.v, VmmAccess.v,
      VmmProtect.v, VmmSpaces.v and VmmBoot.v prove what the operations do.
    - UserMem.v models src/src/syscall/user_memory.rs, with the accesses that the
      kernel itself makes ([kernel_access], which a page table can fault but not
      refuse); Mmap.v models the memory
      calls of src/src/syscall/core.rs, with the file contents of FdTable.v, and
      MmapOps.v proves what they do.
    - Elf.v models src/src/elf.rs, with the image read through Vfs.v; ElfLoad.v,
      ElfStack.v and ElfImage.v prove segments, the initial stack and the whole
      load correct.
    - VmmRun.v composes all of it to the transition system [vstep]; VmmClaims.v
      holds its properties; VmmCases.v is a small machine on which they are seen
      at work, with an instance of [Mapper]; VmmFindings.v holds inputs on which
      the code falls short.

    - Shmem.v models shared memory of src/src/vfs.rs, its regions, references and
      quotas; ShmemMap.v proves what creating and mapping do to memory;
      ShmemCases.v holds runs on that machine, two of which go wrong.

    Tasks run over all this:

    - Process.v models src/src/scheduler.rs and [Signal] of
      src/src/process_model.rs: the record [Kernel] holds the task table, the
      descriptor state of FdTable.v, the futex table, the child waiters, the
      registers of the CPU that the scheduler loads, the words of the context
      blocks it builds, and the page tables freed so far.  MemoryPressure.v models
      the admission of allocations of src/src/memory_pressure.rs, which ends a
      program when the heap runs short; the heap's numbers are arguments.  ProcessInv.v states
      task by task what each operation does; ProcessRun.v composes them to the
      transition system [krun]; ProcessLife.v, ProcessWait.v and ProcessFds.v
      prove its properties; ProcessCases.v holds concrete runs.
    - Futex.v models src/src/futex.rs and the futex calls of
      src/src/syscall/core.rs.  Threads.v is the interleaving of the threads of
      one process over shared words and that table; Pthread.v and Once.v are the
      mutex, condition variable and one-time initialisation of
      src/userspace/libcool/src/thread.rs as programs of it; PthreadCases.v
      holds concrete runs.
    - System.v puts the scheduler and the memory together: the transition system
      [mstep], in which the page tables that the scheduler loads and frees are
      those of Vmm.v; SystemCases.v runs it on the small machine.

    This file, Prelude.v, holds what the components share: machine integers,
    byte strings as lists of [Z], slices, the state and error monad [ST] with
    its notations, the tactics and the generic lemmas.

    ** How the code is modelled

    Integers are [Z] with the wrap-around of their width written out where the
    code can reach it (the kernel is built in release mode, so arithmetic
    wraps); [checked_add], [saturating_sub] and the like are definitions of
    this file.  Byte slices and strings are [list Z].  [Result] is [result],
    [Option] is [option], and code that mutates state or can fail is in the
    monad [ST S E A := S -> result E A * S]; on failure the state keeps the
    changes made before.  Loops are structural on the list or range they go
    over, or on fuel that is computed from the data and proved sufficient:
    [copy_fuel] for the block copy loops (one iteration per block touched and
    the first two), the length of the input for the directory parser, the
    number of inodes for [vfs_delete_recursive] (a tree is no deeper), the
    number of tasks for [find_ready], a page more than its bytes fill for the
    check of a user range ([range_fuel]).  The search for a free uid takes its fuel
    as an argument: one round is enough, unless an account has the largest uid,
    when no number of rounds is.  Every theorem says that the operation returns
    and what it returns.

    Locks are not modelled: the code of a component runs under its lock with
    interrupts off, so an operation is one transition; system calls run with
    interrupts off throughout.  Where an operation releases its lock in between
    and its caller can be interrupted ([kill_task] called by the desktop, which
    checks the target first and ends it later) the second part is a transition of
    its own ([KKillLate]).  A system call that blocks is its part before and its part after
    the wait.  In Threads.v every atomic memory operation of user code and every
    system call is one transition, and they interleave freely.

    ** What the theorems show

    CoolFS.  The cache and the volume below it are seen as one flat memory
    ([view], [repr] in CoolMem.v).  Over it, CoolFile.v specifies inodes, the
    bitmap and block allocation, CoolContent.v file contents with the
    invariant [fs_wf] (each data block is marked used exactly when one inode
    owns it), CoolDir.v directories with the invariant [fs_ok], and CoolTree.v
    the abstract contract: a partial map from paths to nodes, [Tree], with
    [create_spec], [write_spec], [delete_spec], [rename_spec], [update_spec]
    and [read_spec], which fix both the result, errors included, and the new
    tree, and [volume_ok], that every inode in use has exactly one path.
    CoolMount.v proves that the public operations refine the contract on every
    mounted volume, that mounting formats a blank volume, and that flushing and
    mounting again restores the tree; CoolQuery.v proves listing and statistics,
    CoolSafe.v the replacement of a file: nothing but the file and the temporary
    file beside it changes, and [left_over] says what becomes of the latter.

    The virtual file system.  VfsAccess.v: every operation's effect is a
    sequence of single changes, each of which the permission bits of that moment
    allow ([auth_step]: a node created, removed, renamed, written, given a mode or
    an owner), so what nobody may write stays as it is.  VfsOps.v: recursive deletion ends and deletes what it
    should, moving loses nothing, reading returns what is there.

    Accounts.  An invariant over all sequences of operations and restarts, who
    can change what (with the reset of the recovery console, which asks for no
    authority, as the exception it is), what survives a restart, what a session
    may do, and how many passwords [login] compares ([change_password] has no limit).

    Descriptors.  [inv] of FdInv.v says that all reference counts are exact;
    it is an invariant of the transition system [steps] of all operations of
    all tasks.  FdWake.v draws the consequences: end of file and broken pipe
    are reported exactly when the other end is closed everywhere, a modified
    file is committed exactly when its last descriptor goes, and no wake-up of
    a blocked reader is lost.  The guards [enabled] are what the callers
    guarantee, but for one, which a program can break: a spawn names each
    descriptor of the child once ([inherit_fds_duplicate_leaks]).

    Tasks.  [scheduler_invariant]: the CPU always runs in the context of the
    running task.  [address_spaces_exact]: page tables are neither leaked nor
    freed in use.  [ready_task_runs]: the schedule is fair.
    [waitpid_no_lost_wakeup], [exit_is_final], [process_control_authorised],
    [new_task_starts]: waiting, ending, controlling and starting of tasks.
    [descriptors_follow_tasks]: the descriptor layer under the scheduler
    behaves as it does alone.  Some of them have conditions on the run, each with
    a run in ProcessCases.v that shows that it is needed: [exec] by a task that
    alone uses its address space, a kill by the desktop that finds its target
    alive ([space_safe]), no system call of a task that has exited.  Opening a
    file and making a pipe can end another user's program to reclaim memory
    ([pipe_ends_other_process]).  The guards [kenabled] are what the callers and
    the page table allocator guarantee; over the modelled memory
    ([task_isolation]) the second is proved, and the running task sees the memory
    of its own address space.

    Memory.  [vmm_ok] says where every frame is: free, root, table or page of
    one address space, held by the kernel, lost, or the boot table; that the
    tables of a space form a tree in which a frame is pointed to once, unless the
    kernel shares it; and that nothing but the two user entries of a root lets
    user code through.  It holds after every sequence of loads, system calls,
    stores, frees and switches from boot, with the kernel's own frames allocated,
    filled, shared and released in between.  From it follow isolation
    ([address_space_isolation]), [write_xor_execute], what loads and the memory
    calls do to what programs read ([load_image_correct], [load_image_failure],
    [sys_mmap_correct], [sys_mprotect_correct], [sys_mmap_file_correct],
    [user_store_correct], [free_address_space_correct]) and that the check the
    kernel makes of a user range keeps its own accesses from faulting and lets
    them reach exactly what the program could access ([user_slice_exact]).  Two assumptions on
    programs are needed, because elf.rs does not check them: segments lie in the
    user entries ([lower_half_segments_shared]) and the arguments fit with their
    padding ([build_initial_stack_underflow]).  Frames that user code may still
    map are not released in [vstep].  Creating and mapping shared memory are steps of
    it ([shmem_shared]); releasing is not, because the code frees the frames of a
    region when the last task that refers to it ends, even if an address space still
    maps them ([shmem_freed_while_mapped]).  What is exact is the counting
    ([shmem_references_exact]).

    Threads.  Mutual exclusion and no lost wake-up of the mutex, no lost
    notification of the condition variable, and exactly one initialisation, in
    every interleaving, as long as no other process waits at the same virtual
    address; [futex_address_clash] shows that this is needed.

    The others.  Round trips for partition tables, device names, modes and
    numbers; canonical form and composition of path normalisation; the access
    decisions as a closed form; the pipe as a bounded queue.

    ** Not modelled

    The drivers below [BlockDriver] and everything that is registers, assembly
    or pixels; the FAT32 driver behind its interface; the heap, which is an
    external allocator; the dispatch of system calls, which only hands arguments
    on; the network stack, packages, the desktop and the programs.  The
    translation buffer of the CPU is not modelled: an access walks the tables as
    they are (the code flushes each entry it changes).  Log lines, status texts, counters for
    display and the observers that are told about changed files are not modelled,
    except that the notifications themselves are logged in the model of CoolFS. *)
From Stdlib Require Export ZArith Lia Ascii String.
From stdpp Require Export base numbers option list list_numbers strings.

Local Open Scope Z_scope.

(** ** Results, and state with errors

    Rust's [Result<A, E>] is [result E A]; [Option<A>]-returning methods that
    also mutate their receiver are [ST S unit A].  A failing call keeps the
    state changes made before the failure, as Rust's [?] does. *)
Inductive result (E A : Type) : Type :=
| Ok (a : A)
| Err (e : E).
Arguments Ok {E A} a.
Arguments Err {E A} e.

Definition ST (S E A : Type) : Type := S → result E A * S.

Definition ret {S E A} (a : A) : ST S E A := λ s, (Ok a, s).
Definition throw {S E A} (e : E) : ST S E A := λ s, (Err e, s).
Definition bind {S E A B} (m : ST S E A) (k : A → ST S E B) : ST S E B :=
  λ s, match m s with
       | (Ok a, s') => k a s'
       | (Err e, s') => (Err e, s')
       end.

Declare Scope st_scope.
Delimit Scope st_scope with st.
Notation "'let!' x ':=' m 'in' k" := (bind m (λ x, k))
  (at level 10, x pattern, m at level 100, k at level 200,
   format "'[v' 'let!'  x  ':='  m  'in' '/' k ']'") : st_scope.
Notation "m ';;!' k" := (bind m (λ _, k))
  (at level 100, right associativity) : st_scope.

(** [Result::map_err], [Option::ok_or] and [Result::ok] *)
Definition map_err {S E E' A} (f : E → E') (m : ST S E A) : ST S E' A :=
  λ s, match m s with
       | (Ok a, s') => (Ok a, s')
       | (Err e, s') => (Err (f e), s')
       end.
Definition ok_or {S A} {E' : Type} (e : E') (m : ST S unit A) : ST S E' A := map_err (λ _, e) m.
Definition ok {S E A} (m : ST S E A) : ST S unit A := map_err (λ _, tt) m.

(** Run [m] and hand its result to the caller instead of propagating it. *)
Definition attempt {S E E' A} (m : ST S E A) : ST S E' (result E A) :=
  λ s, let (r, s') := m s in (Ok r, s').

Definition lift_result {S E A} (r : result E A) : ST S E A := λ s, (r, s).
Definition of_option {E A} (e : E) (o : option A) : result E A :=
  match o with Some a => Ok a | None => Err e end.
Definition lift_option {S E A} (e : E) (o : option A) : ST S E A :=
  lift_result (of_option e o).
Definition result_option {E A} (r : result E A) : option A :=
  match r with Ok a => Some a | Err _ => None end.
Definition is_ok {E A} (r : result E A) : bool :=
  match r with Ok _ => true | Err _ => false end.

(** [for x in l { f(x)?; }] *)
Fixpoint for_each {S E A} (f : A → ST S E unit) (l : list A) : ST S E unit :=
  match l with
  | [] => ret tt
  | x :: l => bind (f x) (λ _, for_each f l)
  end.

(** ** Bytes, slices and integers *)
Abbreviation bytes := (list Z) (only parsing).

Definition len {A} (l : list A) : Z := Z.of_nat (length l).

(** The bytes of a string literal. *)
Definition str (s : string) : bytes :=
  map (λ a, Z.of_N (N_of_ascii a)) (list_ascii_of_string s).

Arguments str s%_string_scope.

Definition is_byte (b : Z) : Prop := 0 ≤ b < 256.

Lemma str_is_byte s : Forall is_byte (str s).
Proof.
  apply Forall_forall. intros z Hz. apply list_elem_of_In, in_map_iff in Hz as (a & <- & _). unfold is_byte.
  pose proof (N_ascii_bounded a). lia.
Qed.

(** [l[i]], [l[a..a+n]] and [l[a..].copy_from_slice(new)] for in-range arguments. *)
Definition nthZ (l : bytes) (i : Z) : Z := nth (Z.to_nat i) l 0.
Definition slice {A} (l : list A) (a n : Z) : list A :=
  take (Z.to_nat n) (drop (Z.to_nat a) l).
Definition splice {A} (l : list A) (a : Z) (new : list A) : list A :=
  take (Z.to_nat a) l ++ new ++ drop (Z.to_nat a + length new) l.
Definition zeros (n : Z) : bytes := replicate (Z.to_nat n) 0.

(** The values of a [u32]. *)
Definition u32 (v : Z) : Prop := 0 ≤ v < 2 ^ 32.

(** Checked and saturating arithmetic on [w]-bit unsigned integers. *)
Definition checked_add (w a b : Z) : option Z :=
  if a + b <? 2 ^ w then Some (a + b) else None.
Definition checked_sub (a b : Z) : option Z :=
  if b <=? a then Some (a - b) else None.
Definition checked_mul (w a b : Z) : option Z :=
  if a * b <? 2 ^ w then Some (a * b) else None.
Definition saturating_add (w a b : Z) : Z := Z.min (a + b) (2 ^ w - 1).
Definition saturating_sub (a b : Z) : Z := Z.max (a - b) 0.
Definition saturating_mul (w a b : Z) : Z := Z.min (a * b) (2 ^ w - 1).
Definition wrapping_add (w a b : Z) : Z := (a + b) mod 2 ^ w.

(** Little-endian encoding ([to_le_bytes], [from_le_bytes]). *)
Fixpoint le_bytes (n : nat) (v : Z) : bytes :=
  match n with
  | O => []
  | S n => v mod 256 :: le_bytes n (v / 256)
  end.
Fixpoint le_val (bs : bytes) : Z :=
  match bs with
  | [] => 0
  | b :: bs => b + 256 * le_val bs
  end.

Definition read_le (n : Z) (l : bytes) (off : Z) : option Z :=
  if off + n <=? len l then Some (le_val (slice l off n)) else None.

(** ASCII case folding ([eq_ignore_ascii_case], [to_ascii_uppercase]). *)
Definition ascii_lower (b : Z) : Z := if (65 <=? b) && (b <=? 90) then b + 32 else b.
Definition ascii_upper (b : Z) : Z := if (97 <=? b) && (b <=? 122) then b - 32 else b.
Definition bytes_eqb (a b : bytes) : bool := bool_decide (a = b).
Definition eq_ignore_ascii_case (a b : bytes) : bool :=
  bytes_eqb (map ascii_lower a) (map ascii_lower b).
(** A name without its case. *)
Definition fold_name (name : bytes) : bytes := map ascii_lower name.
Fixpoint starts_with (p l : bytes) : bool :=
  match p, l with
  | [], _ => true
  | a :: p, b :: l => (a =? b) && starts_with p l
  | _ :: _, [] => false
  end.
Definition strip_prefix (p l : bytes) : option bytes :=
  if starts_with p l then Some (drop (length p) l) else None.

(** Index of the first element that satisfies [p] ([Iterator::position]). *)
Fixpoint position {A} (p : A → bool) (l : list A) : option nat :=
  match l with
  | [] => None
  | x :: l => if p x then Some O else S <$> position p l
  end.

(** ** Automation *)
Create HintDb cool.
Create Rewrite HintDb buflen.

Ltac case_if :=
  match goal with
  | |- context [if ?b then _ else _] => destruct b eqn:?
  | H : context [if ?b then _ else _] |- _ => destruct b eqn:?
  end.

Tactic Notation "case_if" "as" ident(E) :=
  match goal with |- context [if ?b then _ else _] => destruct b eqn:E end.

Ltac zbool :=
  repeat match goal with
  | H : (_ && _)%bool = true |- _ => apply andb_true_iff in H as [? ?]
  | H : (_ || _)%bool = false |- _ => apply orb_false_iff in H as [? ?]
  | H : negb _ = true |- _ => apply negb_true_iff in H
  | H : negb _ = false |- _ => apply negb_false_iff in H
  | H : (_ <? _) = true |- _ => apply Z.ltb_lt in H
  | H : (_ <? _) = false |- _ => apply Z.ltb_ge in H
  | H : (_ <=? _) = true |- _ => apply Z.leb_le in H
  | H : (_ <=? _) = false |- _ => apply Z.leb_gt in H
  | H : (_ =? _) = true |- _ => apply Z.eqb_eq in H
  | H : (_ =? _) = false |- _ => apply Z.eqb_neq in H
  end.

(** ** Shared lemmas *)
Lemma bind_inv {S E A B} (m : ST S E A) (k : A → ST S E B) s r s' :
  bind m k s = (r, s') →
  (∃ a s1, m s = (Ok a, s1) ∧ k a s1 = (r, s')) ∨ (∃ e, r = Err e ∧ m s = (Err e, s')).
Proof. unfold bind. destruct (m s) as [[a|e] s1]; [by eauto|]. intros [= <- <-]. eauto. Qed.

Lemma len_nonneg {A} (l : list A) : 0 ≤ len l.
Proof. unfold len. lia. Qed.

Lemma len_app {A} (l k : list A) : len (l ++ k) = len l + len k.
Proof. unfold len. rewrite length_app. lia. Qed.

Lemma len_zeros n : 0 ≤ n → len (zeros n) = n.
Proof. unfold len, zeros. rewrite length_replicate. lia. Qed.

Lemma length_le_bytes n v : length (le_bytes n v) = n.
Proof. revert v. induction n; intros v; simpl; auto. Qed.

Lemma le_val_le_bytes n v : 0 ≤ v < 256 ^ Z.of_nat n → le_val (le_bytes n v) = v.
Proof.
  revert v. induction n as [|n IH]; intros v Hv.
  - simpl in *. lia.
  - cbn [le_bytes le_val]. rewrite Nat2Z.inj_succ, Z.pow_succ_r in Hv by lia.
    pose proof (Z.div_mod v 256). rewrite IH; [lia|]. split; [apply Z.div_pos; lia|].
    apply Z.div_lt_upper_bound; lia.
Qed.

Lemma le_bytes_is_byte n v : Forall is_byte (le_bytes n v).
Proof.
  revert v. induction n; intros v; constructor; auto.
  unfold is_byte. apply Z.mod_pos_bound. lia.
Qed.

Lemma le_val_bound bs : Forall is_byte bs → 0 ≤ le_val bs < 256 ^ len bs.
Proof.
  unfold is_byte, len. induction 1 as [|b bs Hb _ IH]; [simpl; lia|].
  cbn [le_val length]. rewrite Nat2Z.inj_succ, Z.pow_succ_r by lia. lia.
Qed.

Lemma nthZ_app_l l k i : 0 ≤ i < len l → nthZ (l ++ k) i = nthZ l i.
Proof. unfold nthZ, len. intros. apply app_nth1. lia. Qed.

Lemma nthZ_app_r l k i : len l ≤ i → nthZ (l ++ k) i = nthZ k (i - len l).
Proof. unfold nthZ, len. intros. rewrite app_nth2 by lia. f_equal. lia. Qed.

Lemma nthZ_default l i : len l ≤ i → nthZ l i = 0.
Proof. unfold nthZ, len. intros. apply nth_overflow. lia. Qed.

Lemma nthZ_zeros n i : nthZ (zeros n) i = 0.
Proof.
  unfold nthZ, zeros. rewrite nth_lookup.
  destruct (replicate _ _ !! _) eqn:Hx; [|done].
  by apply lookup_replicate in Hx as [-> _].
Qed.

Lemma nthZ_is_byte l i : Forall is_byte l → is_byte (nthZ l i).
Proof.
  intros H. unfold nthZ. destruct (nth_in_or_default (Z.to_nat i) l 0) as [Hin| ->].
  - rewrite Forall_forall in H. apply H. by apply list_elem_of_In.
  - unfold is_byte. lia.
Qed.

Lemma nthZ_ext l k : len l = len k → (∀ i, 0 ≤ i < len l → nthZ l i = nthZ k i) → l = k.
Proof.
  unfold len, nthZ. intros Hl Hn. apply (nth_ext l k 0 0); [lia|].
  intros i Hi. specialize (Hn (Z.of_nat i)). rewrite Nat2Z.id in Hn. apply Hn. lia.
Qed.

Lemma len_slice {A} (l : list A) a n : 0 ≤ a → 0 ≤ n → a + n ≤ len l → len (slice l a n) = n.
Proof. unfold len, slice. intros. rewrite length_take, length_drop. lia. Qed.

Lemma nthZ_slice l a n i :
  0 ≤ a → 0 ≤ i < n → nthZ (slice l a n) i = nthZ l (a + i).
Proof.
  unfold nthZ, slice. intros Ha Hi.
  rewrite !nth_lookup, lookup_take_lt, lookup_drop by lia.
  do 2 f_equal. lia.
Qed.

Lemma len_splice {A} (l : list A) a new :
  0 ≤ a → a + len new ≤ len l → len (splice l a new) = len l.
Proof.
  unfold len, splice. intros. rewrite !length_app, length_take, length_drop. lia.
Qed.

Lemma nthZ_splice l a new i :
  0 ≤ a → a + len new ≤ len l → 0 ≤ i →
  nthZ (splice l a new) i =
    if (a <=? i) && (i <? a + len new) then nthZ new (i - a) else nthZ l i.
Proof.
  intros Ha Hl Hi. unfold splice.
  assert (Ht : len (take (Z.to_nat a) l) = a)
    by (unfold len in *; rewrite length_take; lia).
  destruct (Z.leb_spec a i); simpl.
  - rewrite nthZ_app_r by lia. rewrite Ht. destruct (Z.ltb_spec i (a + len new)).
    + apply nthZ_app_l. lia.
    + rewrite nthZ_app_r by lia. unfold nthZ.
      rewrite !nth_lookup, lookup_drop. do 2 f_equal. unfold len in *. lia.
  - rewrite nthZ_app_l by lia. unfold nthZ.
    rewrite !nth_lookup, lookup_take_lt by lia. done.
Qed.

Lemma nthZ_splice_ne l a new i :
  0 ≤ a → a + len new ≤ len l → 0 ≤ i → i < a ∨ a + len new ≤ i →
  nthZ (splice l a new) i = nthZ l i.
Proof.
  intros. rewrite nthZ_splice by lia.
  destruct (Z.leb_spec a i), (Z.ltb_spec i (a + len new)); simpl; lia || done.
Qed.

Lemma splice_is_byte l a new :
  Forall is_byte l → Forall is_byte new → Forall is_byte (splice l a new).
Proof. intros. unfold splice. auto using Forall_app_2, Forall_take, Forall_drop. Qed.

Lemma zeros_is_byte n : Forall is_byte (zeros n).
Proof. apply Forall_replicate. unfold is_byte. lia. Qed.

Lemma slice_is_byte l a n : Forall is_byte l → Forall is_byte (slice l a n).
Proof. intros. unfold slice. auto using Forall_take, Forall_drop. Qed.

#[export] Hint Resolve len_nonneg le_bytes_is_byte splice_is_byte zeros_is_byte
  slice_is_byte nthZ_is_byte : cool.

Lemma bytes_eqb_eq a b : bytes_eqb a b = true ↔ a = b.
Proof. unfold bytes_eqb. apply bool_decide_eq_true. Qed.

Lemma eq_ignore_fold a b : eq_ignore_ascii_case a b = true ↔ fold_name a = fold_name b.
Proof. apply bytes_eqb_eq. Qed.

Lemma alter_as_insert {A} (f : A → A) (l : list A) i x :
  l !! i = Some x → alter f i l = <[i:=f x]> l.
Proof.
  intros Hi. rewrite list_insert_alter. apply list_alter_ext; [|done].
  intros y. by rewrite Hi; intros [= ->].
Qed.

Lemma NoDup_insert_fresh {A} (l : list A) i x : NoDup l → x ∉ l → NoDup (<[i:=x]> l).
Proof.
  revert i. induction l as [|y l IH]; intros i Hnd Hn; [done|].
  apply NoDup_cons in Hnd as [Hy Hnd]. apply not_elem_of_cons in Hn as [Hne Hn].
  destruct i as [|i]; simpl; apply NoDup_cons; split; [done|done| |by apply IH].
  intros [j Hj]%list_elem_of_lookup.
  apply list_lookup_insert_Some in Hj as [(_ & <- & _)|(_ & Hj)]; [done|].
  by apply Hy, list_elem_of_lookup_2 with j.
Qed.

Lemma position_Some {A} (p : A → bool) l i :
  position p l = Some i →
  ∃ x, l !! i = Some x ∧ p x = true ∧ ∀ j y, (j < i)%nat → l !! j = Some y → p y = false.
Proof.
  revert i. induction l as [|x l IH]; intros i; simpl; [done|].
  destruct (p x) eqn:Hp.
  - intros [= <-]. exists x. split_and!; [done..|]. intros; lia.
  - destruct (position p l) as [k|] eqn:Hk; simpl; [|done]. intros [= <-].
    destruct (IH k eq_refl) as (y & Hy & Hpy & Hlt). exists y. split_and!; [done..|].
    intros [|j] z Hj Hz; simpl in *; [congruence|]. eapply Hlt; [|done]. lia.
Qed.

Lemma position_None {A} (p : A → bool) l :
  position p l = None ↔ ∀ x, x ∈ l → p x = false.
Proof.
  induction l as [|x l IH]; simpl.
  - split; [|done]. intros _ x Hx. by apply not_elem_of_nil in Hx.
  - destruct (p x) eqn:Hp.
    + split; [done|]. intros H. specialize (H x). rewrite Hp in H.
      discriminate H. apply list_elem_of_here.
    + destruct (position p l); simpl.
      * split; [done|]. intros H. destruct IH as [_ IH]. discriminate IH.
        intros y Hy. apply H. by apply list_elem_of_further.
      * split; [|done]. intros _ y Hy. apply elem_of_cons in Hy as [->|Hy]; [done|].
        by apply IH.
Qed.

Lemma slice_splice_eq (l : bytes) a new n :
  n = len new → 0 ≤ a → a + len new ≤ len l → slice (splice l a new) a n = new.
Proof.
  intros -> Ha Hl. assert (Hs : len (slice (splice l a new) a (len new)) = len new)
    by (apply len_slice; rewrite ?len_splice; auto with cool).
  apply nthZ_ext; [done|]. rewrite Hs. intros i Hi.
  rewrite nthZ_slice, nthZ_splice by lia.
  rewrite (proj2 (Z.leb_le _ _)), (proj2 (Z.ltb_lt _ _)) by lia. simpl. f_equal. lia.
Qed.

Lemma slice_splice_ne (l : bytes) a new b n :
  0 ≤ a → a + len new ≤ len l → 0 ≤ b → 0 ≤ n → b + n ≤ len l →
  b + n ≤ a ∨ a + len new ≤ b → slice (splice l a new) b n = slice l b n.
Proof.
  intros Ha Hl Hb Hn Hbn Hd. apply nthZ_ext; rewrite !len_slice; rewrite ?len_splice; auto.
  intros i Hi. rewrite !nthZ_slice, nthZ_splice by lia.
  destruct (Z.leb_spec a (b + i)), (Z.ltb_spec (b + i) (a + len new)); simpl; lia || done.
Qed.

Lemma len_le_bytes n v : len (le_bytes n v) = Z.of_nat n.
Proof. unfold len. by rewrite length_le_bytes. Qed.

(** The same facts for a buffer of known length [N], so that a chain of writes
    to one buffer is handled in one pass. *)
Lemma buf_len N (l : bytes) a new :
  len l = N → 0 ≤ a → a + len new ≤ N → len (splice l a new) = N.
Proof. intros <- ??. by apply len_splice. Qed.

Lemma buf_slice_eq N (l : bytes) a new n :
  len l = N → n = len new → 0 ≤ a → a + len new ≤ N → slice (splice l a new) a n = new.
Proof. intros <- -> ??. by apply slice_splice_eq. Qed.

Lemma buf_slice_ne N (l : bytes) a new b n :
  len l = N → 0 ≤ a → a + len new ≤ N → 0 ≤ b → 0 ≤ n → b + n ≤ N →
  b + n ≤ a ∨ a + len new ≤ b → slice (splice l a new) b n = slice l b n.
Proof. intros <- ??????. by apply slice_splice_ne. Qed.

Lemma buf_nth_ne N (l : bytes) a new i :
  len l = N → 0 ≤ a → a + len new ≤ N → 0 ≤ i → i < a ∨ a + len new ≤ i →
  nthZ (splice l a new) i = nthZ l i.
Proof. intros <- ????. by apply nthZ_splice_ne. Qed.

Lemma len_cons {A} (x : A) l : len (x :: l) = 1 + len l.
Proof. unfold len. simpl. lia. Qed.

Lemma len_nil {A} : len (@nil A) = 0.
Proof. done. Qed.

(** Rewrite database of buffer lengths. *)
#[export] Hint Rewrite len_le_bytes @len_cons @len_nil : buflen.
#[export] Hint Rewrite len_zeros using lia : buflen.

Ltac len_simpl := autorewrite with buflen; lia.
Ltac len_tac :=
  repeat (apply buf_len; [|len_simpl|len_simpl]); first [assumption | len_simpl].

(** Read back what a chain of splices wrote into a buffer of length [N]. *)
Ltac slice_tac N :=
  repeat first
    [ rewrite (buf_slice_eq N) by len_tac
    | rewrite (buf_slice_ne N) by len_tac ].

#[global] Arguments splice : simpl never.
#[global] Arguments slice : simpl never.
#[global] Arguments zeros : simpl never.
#[global] Arguments nthZ : simpl never.
#[global] Arguments len : simpl never.
#[global] Arguments le_bytes : simpl never.
#[global] Arguments le_val : simpl never.

(** ** Sums over lists *)
Definition lsum {A} (h : A → Z) (l : list A) : Z := foldr (λ x a, h x + a) 0 l.

Lemma lsum_app {A} (h : A → Z) l k : lsum h (l ++ k) = lsum h l + lsum h k.
Proof. induction l as [|x l IH]; simpl; [done|]. rewrite IH. lia. Qed.

Lemma lsum_insert {A} (h : A → Z) l i x y :
  l !! i = Some x → lsum h (<[i:=y]> l) = lsum h l - h x + h y.
Proof.
  revert i. induction l as [|z l IH]; intros [|i]; simpl; [done|done|intros [= ->]; lia|].
  intros Hi. rewrite IH by done. lia.
Qed.

Lemma lsum_zero {A} (h : A → Z) l : (∀ x, x ∈ l → h x = 0) → lsum h l = 0.
Proof.
  induction l as [|x l IH]; intros Hl; simpl; [done|]. rewrite IH, Hl; [done|by left|].
  intros y Hy. apply Hl. by right.
Qed.

Lemma lsum_nonneg {A} (h : A → Z) l : (∀ x, 0 ≤ h x) → 0 ≤ lsum h l.
Proof. intros Hh. induction l as [|x l IH]; simpl; [done|]. specialize (Hh x). lia. Qed.

Lemma lsum_ge {A} (h : A → Z) l i x : (∀ x, 0 ≤ h x) → l !! i = Some x → h x ≤ lsum h l.
Proof.
  intros Hh Hi. apply take_drop_middle in Hi as <-. rewrite lsum_app. simpl.
  pose proof (lsum_nonneg h (take i l) Hh). pose proof (lsum_nonneg h (drop (S i) l) Hh). lia.
Qed.

Lemma lsum_ext {A} (h h' : A → Z) l : (∀ x, x ∈ l → h x = h' x) → lsum h l = lsum h' l.
Proof.
  induction l as [|x l IH]; intros E; simpl; [done|]. rewrite IH, E; [done|by left|]. intros y Hy. apply E. by right.
Qed.
