(* ===== verification/DiskLayout.v ===== *)
(** * On-disk partition tables (src/src/disk_layout.rs)

    MBR and GPT parsing and writing, the CRC of GPT headers and the alignment
    helpers of the installer.  A sector is a list of 512 bytes; the [&mut]
    writers return the updated sector. *)
From S2P Require Import Prelude.

Local Open Scope Z_scope.

Definition SECTOR_SIZE : Z := 512.
Definition BOOTLOADER_STAGE2_PARTITION_TYPE : Z := 0x20.
Definition BOOT_FAT32_PARTITION_TYPE : Z := 0x0c.
Definition COOLFS_PARTITION_TYPE : Z := 0xc0.
Definition GPT_ENTRY_SIZE : Z := 128.
Definition GPT_ENTRY_COUNT : Z := 128.
Definition GPT_PRIMARY_HEADER_LBA : Z := 1.
Definition MBR_PARTITION_TABLE_OFFSET : Z := 446.
Definition MBR_PARTITION_ENTRY_SIZE : Z := 16.
Definition MBR_SIGNATURE_OFFSET : Z := 510.
Definition MBR_SIGNATURE : bytes := [0x55; 0xaa].
Definition COOLFS_MAGIC : bytes := str "COOLFS1" ++ [0].
Definition GPT_SIGNATURE : bytes := str "EFI PART".
Definition GPT_HEADER_SIZE : Z := 92.
Definition COOLFS_GPT_PARTITION_GUID : bytes :=
  [0xf0; 0xc6; 0xc7; 0xb9; 0x2e; 0x9d; 0x6a; 0x4f; 0x9a; 0x3d; 0x43; 0x4f; 0x4f; 0x4c; 0x46; 0x53].

Record MbrPartition := { boot : Z; sys : Z; starting_lba : Z; sectors : Z }.
Record GptHeader := { entries_lba : Z; entry_count : Z; entry_size : Z }.
Record GptPartition := { type_guid : bytes; gpt_starting_lba : Z; ending_lba : Z }.

Definition MbrPartition_empty : MbrPartition :=
  {| boot := 0; sys := 0; starting_lba := 0; sectors := 0 |}.

Definition is_unused (p : MbrPartition) : bool := (sys p =? 0) || (sectors p =? 0).

Definition MbrPartition_end_lba (p : MbrPartition) : option Z :=
  if is_unused p then Some 0 else checked_add 32 (starting_lba p) (sectors p).

Definition read_u32 (b : bytes) (off : Z) : option Z := read_le 4 b off.
Definition read_u64 (b : bytes) (off : Z) : option Z := read_le 8 b off.
Definition write_u64 (b : bytes) (off v : Z) : option bytes :=
  if len b <? off + 8 then None else Some (splice b off (le_bytes 8 v)).
Definition u32_try_from (v : Z) : option Z := if v <? 2 ^ 32 then Some v else None.

Definition has_mbr_signature (sector : bytes) : bool :=
  bytes_eqb (slice sector MBR_SIGNATURE_OFFSET 2) MBR_SIGNATURE.

Definition has_coolfs_magic (sector : bytes) : bool :=
  bytes_eqb (slice sector 0 8) COOLFS_MAGIC.

(** One step of the loop of [parse_mbr]. *)
Definition parse_mbr_entry (sector : bytes) (idx : Z) : option MbrPartition :=
  let off := MBR_PARTITION_TABLE_OFFSET + idx * MBR_PARTITION_ENTRY_SIZE in
  s ← read_u32 sector (off + 8);
  n ← read_u32 sector (off + 12);
  Some {| boot := nthZ sector off; sys := nthZ sector (off + 4); starting_lba := s; sectors := n |}.

Definition parse_mbr (sector : bytes) : option (list MbrPartition) :=
  if has_mbr_signature sector then mapM (parse_mbr_entry sector) [0; 1; 2; 3] else None.

Definition has_protective_mbr (sector : bytes) : bool :=
  match parse_mbr sector with
  | None => false
  | Some ps => existsb (λ p, (sys p =? 0xee) && (starting_lba p =? 1)) ps
  end.

Definition parse_gpt_header (sector : bytes) (disk_sectors : Z) : option GptHeader :=
  if negb (bytes_eqb (slice sector 0 8) GPT_SIGNATURE) then None else
  header_size ← read_u32 sector 12;
  if negb ((GPT_HEADER_SIZE <=? header_size) && (header_size <=? SECTOR_SIZE)) then None else
  current_lba ← read_u64 sector 24 ≫= u32_try_from;
  backup_lba ← read_u64 sector 32 ≫= u32_try_from;
  first_usable_lba ← read_u64 sector 40 ≫= u32_try_from;
  last_usable_lba ← read_u64 sector 48 ≫= u32_try_from;
  e_lba ← read_u64 sector 72 ≫= u32_try_from;
  e_count ← read_u32 sector 80;
  e_size ← read_u32 sector 84;
  if negb (e_size =? GPT_ENTRY_SIZE) || (e_count =? 0) then None else
  if (disk_sectors <=? current_lba) || (disk_sectors <=? backup_lba) then None else
  if (last_usable_lba <? first_usable_lba) || (disk_sectors <=? last_usable_lba) then None else
  Some {| entries_lba := e_lba; entry_count := e_count; entry_size := e_size |}.

Definition parse_gpt_partition_entry (entry : bytes) : option GptPartition :=
  if len entry <? GPT_ENTRY_SIZE then None else
  let guid := slice entry 0 16 in
  if forallb (λ b, b =? 0) guid then None else
  s ← read_u64 entry 32 ≫= u32_try_from;
  e ← read_u64 entry 40 ≫= u32_try_from;
  if (s =? 0) || (e <? s) then None else
  Some {| type_guid := guid; gpt_starting_lba := s; ending_lba := e |}.

Definition write_partition_entry (sector : bytes) (index boot sys starting_lba sectors : Z)
    : option bytes :=
  if 4 <=? index then None else
  let off := MBR_PARTITION_TABLE_OFFSET + index * MBR_PARTITION_ENTRY_SIZE in
  let sector := splice sector off [boot] in
  let sector := splice sector (off + 1) (zeros 3) in
  let sector := splice sector (off + 4) [sys] in
  let sector := splice sector (off + 5) (zeros 3) in
  let sector := splice sector (off + 8) (le_bytes 4 starting_lba) in
  let sector := splice sector (off + 12) (le_bytes 4 sectors) in
  Some (splice sector MBR_SIGNATURE_OFFSET MBR_SIGNATURE).

Definition write_protective_mbr (sector : bytes) (total_sectors : Z) : bytes :=
  let sector := zeros SECTOR_SIZE in
  let protective_sectors := saturating_sub total_sectors 1 in
  let off := MBR_PARTITION_TABLE_OFFSET in
  let sector := splice sector (off + 4) [0xee] in
  let sector := splice sector (off + 8) (le_bytes 4 1) in
  let sector := splice sector (off + 12) (le_bytes 4 protective_sectors) in
  splice sector MBR_SIGNATURE_OFFSET MBR_SIGNATURE.

(** The UTF-16 label loop of [write_gpt_partition_entry]. *)
Fixpoint write_gpt_name (entry : bytes) (idx : Z) (name : bytes) : bytes :=
  match name with
  | [] => entry
  | byte :: name =>
      let name_off := 56 + idx * 2 in
      write_gpt_name (splice (splice entry name_off [byte]) (name_off + 1) [0]) (idx + 1) name
  end.

Definition write_gpt_partition_entry (entries : bytes) (index : Z)
    (type_guid unique_guid : bytes) (starting_lba sectors : Z) (name : bytes) : option bytes :=
  if sectors =? 0 then None else
  off ← checked_mul 64 index GPT_ENTRY_SIZE;
  if len entries <? off + GPT_ENTRY_SIZE then None else
  last ← checked_sub sectors 1;
  ending_lba ← checked_add 32 starting_lba last;
  let entry := zeros GPT_ENTRY_SIZE in
  let entry := splice entry 0 type_guid in
  let entry := splice entry 16 unique_guid in
  entry ← write_u64 entry 32 starting_lba;
  entry ← write_u64 entry 40 ending_lba;
  let entry := write_gpt_name entry 0 (take 36 name) in
  Some (splice entries off entry).

(** [crc32]: the reflected CRC-32 of polynomial 0xedb88320, bit by bit. *)
Definition crc32_bit (crc : Z) : Z :=
  let mask := (0 - Z.land crc 1) mod 2 ^ 32 in
  Z.lxor (Z.shiftr crc 1) (Z.land 0xedb88320 mask).
Definition crc32_byte (crc byte : Z) : Z := Nat.iter 8 crc32_bit (Z.lxor crc byte).
Definition crc32 (b : bytes) : Z := 0xffffffff - foldl crc32_byte 0xffffffff b.

Definition write_gpt_header (sector : bytes)
    (current_lba backup_lba first_usable_lba last_usable_lba entries_lba entry_count entries_crc : Z)
    (disk_guid : bytes) : option bytes :=
  let sector := zeros SECTOR_SIZE in
  let sector := splice sector 0 GPT_SIGNATURE in
  let sector := splice sector 8 (le_bytes 4 0x00010000) in
  let sector := splice sector 12 (le_bytes 4 GPT_HEADER_SIZE) in
  sector ← write_u64 sector 24 current_lba;
  sector ← write_u64 sector 32 backup_lba;
  sector ← write_u64 sector 40 first_usable_lba;
  sector ← write_u64 sector 48 last_usable_lba;
  let sector := splice sector 56 disk_guid in
  sector ← write_u64 sector 72 entries_lba;
  let sector := splice sector 80 (le_bytes 4 entry_count) in
  let sector := splice sector 84 (le_bytes 4 GPT_ENTRY_SIZE) in
  let sector := splice sector 88 (le_bytes 4 entries_crc) in
  let header_crc := crc32 (slice sector 0 GPT_HEADER_SIZE) in
  Some (splice sector 16 (le_bytes 4 header_crc)).

Definition find_partition (ps : list MbrPartition) (ty : Z) : option MbrPartition :=
  List.find (λ p, (sys p =? ty) && negb (is_unused p)) ps.

Definition GptPartition_sectors (p : GptPartition) : option Z :=
  d ← checked_sub (ending_lba p) (gpt_starting_lba p);
  checked_add 32 d 1.

Definition GptPartition_end_lba (p : GptPartition) : option Z := checked_add 32 (ending_lba p) 1.

Fixpoint boot_area_loop (end_ : Z) (ps : list MbrPartition) : option Z :=
  match ps with
  | [] => Some end_
  | p :: ps =>
      if (sys p =? BOOTLOADER_STAGE2_PARTITION_TYPE) || (sys p =? BOOT_FAT32_PARTITION_TYPE)
      then e ← MbrPartition_end_lba p; boot_area_loop (Z.max end_ e) ps
      else boot_area_loop end_ ps
  end.
Definition boot_area_end_lba (ps : list MbrPartition) : option Z := boot_area_loop 1 ps.

Definition align_up_lba (lba alignment : Z) : option Z :=
  if alignment =? 0 then Some lba else
  add ← checked_sub alignment 1;
  rounded ← checked_add 32 lba add;
  Some (rounded / alignment * alignment).

Example crc32_check : crc32 (str "123456789") = 0xcbf43926.
Proof. vm_compute. reflexivity. Qed.

(** ** Theorems *)

Lemma len_MBR_SIGNATURE : len MBR_SIGNATURE = 2.
Proof. done. Qed.
Lemma len_GPT_SIGNATURE : len GPT_SIGNATURE = 8.
Proof. done. Qed.
#[export] Hint Rewrite len_MBR_SIGNATURE len_GPT_SIGNATURE : buflen.

Lemma read_le_splice n (l : bytes) off v :
  0 ≤ off → off + Z.of_nat n ≤ len l → 0 ≤ v < 256 ^ Z.of_nat n →
  read_le (Z.of_nat n) (splice l off (le_bytes n v)) off = Some v.
Proof.
  intros Ho Hl Hv. unfold read_le. rewrite len_splice by (rewrite ?len_le_bytes; lia).
  rewrite (proj2 (Z.leb_le _ _)) by lia.
  rewrite slice_splice_eq by (rewrite ?len_le_bytes; lia). by rewrite le_val_le_bytes.
Qed.

Lemma read_le_slice n l off : off + n ≤ len l → read_le n l off = Some (le_val (slice l off n)).
Proof. intros. unfold read_le. by rewrite (proj2 (Z.leb_le _ _)) by lia. Qed.

Lemma read_le_ext n l l' off :
  len l = len l' → slice l off n = slice l' off n → read_le n l off = read_le n l' off.
Proof. unfold read_le. intros -> ->. done. Qed.

Lemma nthZ_as_slice l i : 0 ≤ i < len l → nthZ l i = nthZ (slice l i 1) 0.
Proof. intros. rewrite nthZ_slice by lia. f_equal. lia. Qed.

(** A partition entry only depends on its own sixteen bytes. *)
Lemma parse_mbr_entry_ext l l' j :
  len l = 512 → len l' = 512 → 0 ≤ j < 4 →
  (∀ i, 446 + j * 16 ≤ i < 446 + j * 16 + 16 → nthZ l i = nthZ l' i) →
  parse_mbr_entry l j = parse_mbr_entry l' j.
Proof.
  intros Hl Hl' Hj He. unfold parse_mbr_entry, read_u32, MBR_PARTITION_TABLE_OFFSET, MBR_PARTITION_ENTRY_SIZE.
  rewrite (He (446 + j * 16)), (He (446 + j * 16 + 4)) by lia.
  assert (Hs : ∀ o, 0 ≤ o ≤ 12 → slice l (446 + j * 16 + o) 4 = slice l' (446 + j * 16 + o) 4).
  { intros o Ho. apply nthZ_ext; rewrite !len_slice by lia; [done|].
    intros i Hi. rewrite !nthZ_slice by lia. apply He. lia. }
  by rewrite !(read_le_ext 4 l l') by (first [congruence | apply Hs; lia]).
Qed.

Lemma parse_mbr_Some sector :
  len sector = 512 → has_mbr_signature sector = true →
  ∃ ps, parse_mbr sector = Some ps ∧ length ps = 4%nat ∧
        ∀ j, 0 ≤ j < 4 → ps !! Z.to_nat j = parse_mbr_entry sector j.
Proof.
  intros Hl Hs. unfold parse_mbr. rewrite Hs.
  assert (Hsome : ∀ j, 0 ≤ j < 4 → is_Some (parse_mbr_entry sector j)).
  { intros j Hj. unfold parse_mbr_entry, read_u32, MBR_PARTITION_TABLE_OFFSET, MBR_PARTITION_ENTRY_SIZE.
    rewrite !read_le_slice by lia. simpl. eauto. }
  destruct (Hsome 0), (Hsome 1), (Hsome 2), (Hsome 3); try lia.
  simpl. rewrite H, H0, H1, H2. simpl. eexists. split_and!; [done..|].
  intros j Hj. assert (j = 0 ∨ j = 1 ∨ j = 2 ∨ j = 3) as [->|[->|[->| ->]]] by lia;
    symmetry; assumption.
Qed.

(** Writing MBR partition entry [index] and parsing the sector back yields a
    table in which exactly that entry is the written one and, when the sector
    already held a table, every other entry is untouched. *)
Theorem mbr_write_parse sector index b s lba n :
  len sector = 512 → 0 ≤ index < 4 → 0 ≤ lba < 2 ^ 32 → 0 ≤ n < 2 ^ 32 →
  ∃ sector' ps', write_partition_entry sector index b s lba n = Some sector' ∧
    len sector' = 512 ∧ parse_mbr sector' = Some ps' ∧
    ps' !! Z.to_nat index = Some {| boot := b; sys := s; starting_lba := lba; sectors := n |} ∧
    ∀ ps, parse_mbr sector = Some ps →
      ps' = <[Z.to_nat index := {| boot := b; sys := s; starting_lba := lba; sectors := n |}]> ps.
Proof.
  intros Hl Hi Hlba Hn.
  unfold write_partition_entry, MBR_PARTITION_TABLE_OFFSET, MBR_PARTITION_ENTRY_SIZE,
    MBR_SIGNATURE_OFFSET.
  rewrite (proj2 (Z.leb_gt _ _)) by lia. cbv zeta.
  remember (splice _ 510 _) as sector' eqn:E.
  assert (Hl' : len sector' = 512) by (subst sector'; len_tac).
  assert (Hsig : has_mbr_signature sector' = true).
  { unfold has_mbr_signature, MBR_SIGNATURE_OFFSET. apply bytes_eqb_eq.
    subst sector'. by slice_tac 512. }
  assert (Hnew : parse_mbr_entry sector' index =
      Some {| boot := b; sys := s; starting_lba := lba; sectors := n |}).
  { unfold parse_mbr_entry, read_u32, MBR_PARTITION_TABLE_OFFSET, MBR_PARTITION_ENTRY_SIZE.
    rewrite !read_le_slice by lia. rewrite !(nthZ_as_slice sector') by lia.
    subst sector'. slice_tac 512. cbn [mbind option_bind].
    by rewrite !le_val_le_bytes by lia. }
  assert (Hold : ∀ j, 0 ≤ j < 4 → j ≠ index →
      parse_mbr_entry sector' j = parse_mbr_entry sector j).
  { intros j Hj Hne. apply parse_mbr_entry_ext; [done..|]. intros i Hij. subst sector'.
    repeat rewrite (buf_nth_ne 512) by len_tac. done. }
  destruct (parse_mbr_Some sector' Hl' Hsig) as (ps' & Hps' & Hlen' & Hlk').
  exists sector', ps'. split_and!; [done..| |]; [by rewrite Hlk' by lia|].
  intros ps Hps. assert (Hsig0 : has_mbr_signature sector = true).
  { unfold parse_mbr in Hps. by destruct (has_mbr_signature sector). }
  destruct (parse_mbr_Some sector Hl Hsig0) as (ps0 & Hps0 & Hlen0 & Hlk0).
  simplify_eq. apply list_eq_same_length with 4%nat; [by rewrite ?length_insert..|].
  intros i x y Hi4 Hx Hy. replace i with (Z.to_nat (Z.of_nat i)) in Hx, Hy by lia.
  rewrite Hlk' in Hx by lia. destruct (decide (i = Z.to_nat index)) as [->|Hne].
  - rewrite Z2Nat.id in Hx, Hy by lia. rewrite list_lookup_insert_eq in Hy by lia. congruence.
  - rewrite list_lookup_insert_ne, Hlk0 in Hy by lia. rewrite Hold in Hx by lia. congruence.
Qed.

Lemma mbr_write_parse_witness :
  ∃ sector' ps', write_partition_entry (zeros 512) 1 0x80 0x7f 2048 4096 = Some sector' ∧
    len sector' = 512 ∧ parse_mbr sector' = Some ps' ∧
    ps' !! Z.to_nat 1 = Some {| boot := 0x80; sys := 0x7f; starting_lba := 2048; sectors := 4096 |} ∧
    ∀ ps, parse_mbr (zeros 512) = Some ps →
      ps' = <[Z.to_nat 1 := {| boot := 0x80; sys := 0x7f; starting_lba := 2048; sectors := 4096 |}]> ps.
Proof. apply (mbr_write_parse (zeros 512) 1 0x80 0x7f 2048 4096); [reflexivity|lia..]. Defined.

(** A freshly written protective MBR is recognised as one. *)
Lemma protective_mbr_recognised sector total :
  has_protective_mbr (write_protective_mbr sector total) = true.
Proof.
  unfold write_protective_mbr, MBR_PARTITION_TABLE_OFFSET, MBR_SIGNATURE_OFFSET, SECTOR_SIZE.
  remember (splice _ 510 _) as m eqn:E.
  assert (Hl : len m = 512) by (subst m; len_tac).
  assert (Hsig : has_mbr_signature m = true).
  { apply bytes_eqb_eq. subst m. unfold MBR_SIGNATURE_OFFSET. by slice_tac 512. }
  destruct (parse_mbr_Some m Hl Hsig) as (ps & Hps & Hlen & Hlk).
  unfold has_protective_mbr. rewrite Hps. apply existsb_exists.
  specialize (Hlk 0 ltac:(lia)).
  unfold parse_mbr_entry, read_u32, MBR_PARTITION_TABLE_OFFSET, MBR_PARTITION_ENTRY_SIZE in Hlk.
  rewrite !read_le_slice in Hlk by lia. cbn [mbind option_bind] in Hlk.
  eexists. split; [apply list_elem_of_In; by eapply list_elem_of_lookup_2|].
  cbn [sys starting_lba]. rewrite (nthZ_as_slice m) by lia. subst m. by slice_tac 512.
Qed.

Lemma write_gpt_name_slices name entry idx :
  len entry = 128 → 0 ≤ idx → idx + len name ≤ 36 →
  len (write_gpt_name entry idx name) = 128 ∧
  ∀ a n, 0 ≤ a → 0 ≤ n → a + n ≤ 56 →
    slice (write_gpt_name entry idx name) a n = slice entry a n.
Proof.
  revert entry idx. induction name as [|c name IH]; intros entry idx Hl Hi Hn; [done|].
  cbn [write_gpt_name]. assert (len (c :: name) = 1 + len name) by (unfold len; simpl; lia).
  pose proof (len_nonneg name).
  destruct (IH (splice (splice entry (56 + idx * 2) [c]) (56 + idx * 2 + 1) [0]) (idx + 1))
    as [Hl' Hs']; [len_tac|lia|lia|].
  split; [done|]. intros a n Ha Hna Hb. rewrite Hs' by lia. by slice_tac 128.
Qed.

Lemma write_u64_Some N b off v :
  len b = N → off + 8 ≤ N → write_u64 b off v = Some (splice b off (le_bytes 8 v)).
Proof. intros <- ?. unfold write_u64. by rewrite (proj2 (Z.ltb_ge _ _)) by lia. Qed.

Lemma read_u64_u32 N b off v :
  len b = N → off + 8 ≤ N → slice b off 8 = le_bytes 8 v → 0 ≤ v < 2 ^ 32 →
  read_u64 b off ≫= u32_try_from = Some v.
Proof.
  intros Hl Ho Hs Hv. unfold read_u64. rewrite read_le_slice, Hs by lia. simpl.
  rewrite le_val_le_bytes by lia. unfold u32_try_from.
  by rewrite (proj2 (Z.ltb_lt _ _)) by lia.
Qed.

Lemma read_u32_slice N b off v :
  len b = N → off + 4 ≤ N → slice b off 4 = le_bytes 4 v → 0 ≤ v < 2 ^ 32 →
  read_u32 b off = Some v.
Proof.
  intros Hl Ho Hs Hv. unfold read_u32. rewrite read_le_slice, Hs by lia.
  by rewrite le_val_le_bytes by lia.
Qed.

(** A GPT partition entry that the installer writes into an entry array parses
    back to the same type GUID and extent, and [sectors()] recovers the size. *)
Theorem gpt_entry_roundtrip entries index guid uniq lba n name :
  0 ≤ index → index * 128 + 128 ≤ len entries → len entries < 2 ^ 32 →
  len guid = 16 → len uniq = 16 → forallb (λ b, b =? 0) guid = false →
  0 < lba → 0 < n → lba + n ≤ 2 ^ 32 →
  ∃ entries', write_gpt_partition_entry entries index guid uniq lba n name = Some entries' ∧
    len entries' = len entries ∧
    (let p := {| type_guid := guid; gpt_starting_lba := lba; ending_lba := lba + n - 1 |} in
     parse_gpt_partition_entry (slice entries' (index * 128) 128) = Some p ∧
     (n < 2 ^ 32 → GptPartition_sectors p = Some n)) ∧
    ∀ j, 0 ≤ j → j ≠ index → j * 128 + 128 ≤ len entries →
      slice entries' (j * 128) 128 = slice entries (j * 128) 128.
Proof.
  intros Hi Hfit Hbig Hg Hu Hnz Hlba Hn Hext.
  unfold write_gpt_partition_entry, checked_mul, checked_sub, checked_add, GPT_ENTRY_SIZE.
  rewrite (proj2 (Z.eqb_neq n 0)), (proj2 (Z.ltb_lt (index * 128) _)) by lia. simpl.
  rewrite (proj2 (Z.ltb_ge (len entries) _)), (proj2 (Z.leb_le 1 n)) by lia. simpl.
  rewrite (proj2 (Z.ltb_lt (lba + (n - 1)) _)) by lia. simpl.
  rewrite !(write_u64_Some 128) by len_tac. cbn [mbind option_bind].
  rewrite !(write_u64_Some 128) by len_tac. cbn [mbind option_bind].
  remember (splice _ 40 _) as e0 eqn:E0. assert (Hl0 : len e0 = 128) by (subst e0; len_tac).
  assert (Hnm : len (take 36 name) ≤ 36) by (unfold len; rewrite length_take; lia).
  destruct (write_gpt_name_slices (take 36 name) e0 0) as [Hl1 Hs1]; [done|lia|lia|].
  remember (write_gpt_name _ _ _) as e1 eqn:E1.
  eexists. split; [done|]. split; [apply len_splice; lia|]. split.
  - rewrite slice_splice_eq by lia. split.
    + assert (Hguid : slice e1 0 16 = guid) by (rewrite Hs1 by lia; subst e0; by slice_tac 128).
      unfold parse_gpt_partition_entry, GPT_ENTRY_SIZE. rewrite Hl1, Hguid, Hnz. simpl.
      rewrite (read_u64_u32 128 e1 32 lba) by
        (first [lia | rewrite Hs1 by lia; subst e0; by slice_tac 128]). simpl.
      rewrite (read_u64_u32 128 e1 40 (lba + (n - 1))) by
        (first [lia | rewrite Hs1 by lia; subst e0; by slice_tac 128]). simpl.
      rewrite (proj2 (Z.eqb_neq lba 0)), (proj2 (Z.ltb_ge (lba + (n - 1)) lba)) by lia.
      simpl. by replace (lba + (n - 1)) with (lba + n - 1) by lia.
    + intros Hn32. unfold GptPartition_sectors, checked_sub, checked_add. simpl.
      rewrite (proj2 (Z.leb_le lba _)) by lia. simpl.
      rewrite (proj2 (Z.ltb_lt _ (2 ^ 32))) by lia. f_equal. lia.
  - intros j Hj Hne Hjf. apply slice_splice_ne; lia.
Qed.

Lemma gpt_entry_roundtrip_witness :
  ∃ entries', write_gpt_partition_entry (zeros 512) 2 (replicate 16 7) (replicate 16 9) 2048 8192 (str "root") = Some entries' ∧
    len entries' = len (zeros 512) ∧
    (let p := {| type_guid := replicate 16 7; gpt_starting_lba := 2048; ending_lba := 2048 + 8192 - 1 |} in
     parse_gpt_partition_entry (slice entries' (2 * 128) 128) = Some p ∧
     (8192 < 2 ^ 32 → GptPartition_sectors p = Some 8192)) ∧
    ∀ j, 0 ≤ j → j ≠ 2 → j * 128 + 128 ≤ len (zeros 512) →
      slice entries' (j * 128) 128 = slice (zeros 512) (j * 128) 128.
Proof.
  apply (gpt_entry_roundtrip (zeros 512) 2 (replicate 16 7) (replicate 16 9) 2048 8192 (str "root"));
    try reflexivity; try lia; vm_compute; congruence.
Defined.

(** The GPT header written by the installer is accepted by the parser of the
    root-disk scan on any disk that contains its LBAs, with the same geometry. *)
Theorem gpt_header_roundtrip sector cur bak first last elba ecount ecrc guid disk :
  len guid = 16 → 0 ≤ cur < disk → 0 ≤ bak < disk → 0 ≤ first ≤ last → last < disk →
  disk ≤ 2 ^ 32 → 0 ≤ elba < 2 ^ 32 → 0 < ecount < 2 ^ 32 →
  ∃ h, write_gpt_header sector cur bak first last elba ecount ecrc guid = Some h ∧
    len h = 512 ∧
    parse_gpt_header h disk =
      Some {| entries_lba := elba; entry_count := ecount; entry_size := 128 |}.
Proof.
  intros Hg Hc Hb Hf Hla Hd He Hn. unfold write_gpt_header, SECTOR_SIZE, GPT_HEADER_SIZE, GPT_ENTRY_SIZE.
  do 5 (rewrite (write_u64_Some 512) by len_tac; cbn [mbind option_bind]).
  remember (splice _ 88 _) as s0 eqn:E0. assert (Hl0 : len s0 = 512) by (subst s0; len_tac).
  eexists. split; [done|]. split; [len_tac|]. remember (splice s0 16 _) as h eqn:E.
  assert (Hl : len h = 512) by (subst h; len_tac).
  assert (Hk : ∀ a n, 0 ≤ a → 0 ≤ n → a + n ≤ 16 ∨ 20 ≤ a → a + n ≤ 512 → slice h a n = slice s0 a n).
  { intros. subst h. by rewrite (buf_slice_ne 512) by (first [done | len_simpl]). }
  unfold parse_gpt_header, GPT_HEADER_SIZE, SECTOR_SIZE, GPT_ENTRY_SIZE.
  assert (Hsig : slice h 0 8 = GPT_SIGNATURE) by (rewrite Hk by lia; subst s0; by slice_tac 512).
  rewrite Hsig, (proj2 (bytes_eqb_eq _ _)) by done. cbn [negb].
  rewrite (read_u32_slice 512 h 12 92) by (first [lia | rewrite Hk by lia; subst s0; by slice_tac 512]).
  cbn [mbind option_bind negb Z.leb Z.compare Pos.compare Pos.compare_cont andb].
  rewrite (read_u64_u32 512 h 24 cur), (read_u64_u32 512 h 32 bak), (read_u64_u32 512 h 40 first),
    (read_u64_u32 512 h 48 last), (read_u64_u32 512 h 72 elba)
    by (first [lia | rewrite Hk by lia; subst s0; by slice_tac 512]).
  rewrite (read_u32_slice 512 h 80 ecount), (read_u32_slice 512 h 84 128)
    by (first [lia | rewrite Hk by lia; subst s0; by slice_tac 512]).
  cbn [mbind option_bind].
  rewrite (proj2 (Z.eqb_neq ecount 0)), (proj2 (Z.leb_gt disk cur)), (proj2 (Z.leb_gt disk bak)),
    (proj2 (Z.ltb_ge last first)), (proj2 (Z.leb_gt disk last)) by lia. done.
Qed.

Lemma gpt_header_roundtrip_witness :
  ∃ h, write_gpt_header (zeros 512) 1 65535 34 65502 2 128 0xcafe (replicate 16 9) = Some h ∧
    len h = 512 ∧
    parse_gpt_header h 65536 = Some {| entries_lba := 2; entry_count := 128; entry_size := 128 |}.
Proof. apply (gpt_header_roundtrip (zeros 512) 1 65535 34 65502 2 128 0xcafe (replicate 16 9) 65536); try reflexivity; lia. Defined.

(** [align_up_lba] returns the least multiple of the alignment that is not below
    the address, and fails exactly when rounding overflows 32 bits. *)
Theorem align_up_lba_spec lba al :
  0 ≤ lba < 2 ^ 32 → 0 < al < 2 ^ 32 →
  match align_up_lba lba al with
  | Some r => r mod al = 0 ∧ lba ≤ r < lba + al ∧ r < 2 ^ 32
  | None => 2 ^ 32 ≤ lba + (al - 1)
  end.
Proof.
  intros Hl Ha. unfold align_up_lba, checked_sub, checked_add.
  rewrite (proj2 (Z.eqb_neq al 0)), (proj2 (Z.leb_le 1 al)) by lia. simpl.
  destruct (Z.ltb_spec (lba + (al - 1)) (2 ^ 32)); simpl; [|done].
  rewrite Z_mod_mult. pose proof (Z.div_mod (lba + (al - 1)) al).
  pose proof (Z.mod_pos_bound (lba + (al - 1)) al). split_and!; lia.
Qed.

Lemma align_up_lba_spec_witness :
  match align_up_lba 2049 2048 with
  | Some r => r mod 2048 = 0 ∧ 2049 ≤ r < 2049 + 2048 ∧ r < 2 ^ 32
  | None => 2 ^ 32 ≤ 2049 + (2048 - 1)
  end.
Proof. apply (align_up_lba_spec 2049 2048); lia. Defined.

Lemma boot_area_loop_spec ps end_ e :
  boot_area_loop end_ ps = Some e →
  end_ ≤ e ∧ ∀ p, p ∈ ps →
    sys p = BOOTLOADER_STAGE2_PARTITION_TYPE ∨ sys p = BOOT_FAT32_PARTITION_TYPE →
    is_unused p = false → starting_lba p + sectors p ≤ e.
Proof.
  revert end_. induction ps as [|p ps IH]; simpl; intros end_ Hb.
  - simplify_eq. split; [lia|]. intros p Hp. by apply not_elem_of_nil in Hp.
  - destruct (_ || _) eqn:Hty.
    + unfold MbrPartition_end_lba in Hb. destruct (is_unused p) eqn:Hu; simpl in Hb.
      * apply IH in Hb as [? Hb]. split; [lia|].
        intros q [->|Hq]%elem_of_cons Hs Hqu; [congruence|eauto].
      * unfold checked_add in Hb. case_if; simpl in Hb; [|done].
        apply IH in Hb as [? Hb]. split; [lia|].
        intros q [->|Hq]%elem_of_cons Hs Hqu; [lia|eauto].
    + apply IH in Hb as [? Hb]. split; [lia|].
      intros q [->|Hq]%elem_of_cons Hs Hqu; [|eauto]. zbool. lia.
Qed.

