(* ===== verification/Storage.v ===== *)
(** * Block devices and the root disk (src/src/storage.rs)

    The device names, the dispatch of sector I/O to the four driver families,
    the scan that finds the CoolFS root region and the windowed
    [read_sector]/[write_sector] every CoolFS block goes through.

    The drivers themselves (ata, ahci, nvme, usb) talk to hardware.  They are
    the class [BlockDriver]; what the kernel relies on is [BlockDriverLaws]:
    reads return the contents, a successful write changes one sector, a failed
    one at most that sector.  [RamDisk] is an instance with a fault schedule. *)
From stdpp Require Import gmap.
From S2P Require Import Prelude DiskLayout.

Local Open Scope Z_scope.
Set Warnings "-clear-no-such-hyp".

Inductive IdeDevice := Ide0Master | Ide0Slave | Ide1Master | Ide1Slave.

Inductive BlockDevice :=
| Ide (ide : IdeDevice)
| Sata0 | Sata1 | Sata2 | Sata3 | Sata4 | Sata5 | Sata6 | Sata7
| Nvme0n1 | Nvme1n1 | Nvme2n1 | Nvme3n1
| Usb0 | Usb1 | Usb2 | Usb3 | Usb4 | Usb5 | Usb6 | Usb7.

#[export] Instance IdeDevice_eq_dec : EqDecision IdeDevice.
Proof. solve_decision. Defined.
#[export] Instance BlockDevice_eq_dec : EqDecision BlockDevice.
Proof. solve_decision. Defined.

Record BlockDeviceInfo := { info_device : BlockDevice; present : bool; info_sectors : Z }.

Inductive RootDiskLayout := RawCoolFs | MbrCoolFs | GptCoolFs.

Record RootDisk := { device : BlockDevice; base_lba : Z; root_sectors : Z; layout : RootDiskLayout }.

Definition IdeDevice_name (d : IdeDevice) : bytes :=
  match d with
  | Ide0Master => str "ide0-master"
  | Ide0Slave => str "ide0-slave"
  | Ide1Master => str "ide1-master"
  | Ide1Slave => str "ide1-slave"
  end.

Definition IdeDevice_parse (name : bytes) : option IdeDevice :=
  if bytes_eqb name (str "ide0-master") then Some Ide0Master else
  if bytes_eqb name (str "ide0-slave") then Some Ide0Slave else
  if bytes_eqb name (str "ide1-master") then Some Ide1Master else
  if bytes_eqb name (str "ide1-slave") then Some Ide1Slave else None.

Definition BlockDevice_name (d : BlockDevice) : bytes :=
  match d with
  | Ide ide => IdeDevice_name ide
  | Sata0 => str "sata0" | Sata1 => str "sata1" | Sata2 => str "sata2" | Sata3 => str "sata3"
  | Sata4 => str "sata4" | Sata5 => str "sata5" | Sata6 => str "sata6" | Sata7 => str "sata7"
  | Nvme0n1 => str "nvme0n1" | Nvme1n1 => str "nvme1n1"
  | Nvme2n1 => str "nvme2n1" | Nvme3n1 => str "nvme3n1"
  | Usb0 => str "usb0" | Usb1 => str "usb1" | Usb2 => str "usb2" | Usb3 => str "usb3"
  | Usb4 => str "usb4" | Usb5 => str "usb5" | Usb6 => str "usb6" | Usb7 => str "usb7"
  end.

Definition BlockDevice_parse (name : bytes) : option BlockDevice :=
  match IdeDevice_parse name with
  | Some ide => Some (Ide ide)
  | None =>
      List.find (λ d, bytes_eqb name (BlockDevice_name d))
        [Sata0; Sata1; Sata2; Sata3; Sata4; Sata5; Sata6; Sata7;
         Nvme0n1; Nvme1n1; Nvme2n1; Nvme3n1;
         Usb0; Usb1; Usb2; Usb3; Usb4; Usb5; Usb6; Usb7]
  end.

Definition sata_port (d : BlockDevice) : option Z :=
  match d with
  | Sata0 => Some 0 | Sata1 => Some 1 | Sata2 => Some 2 | Sata3 => Some 3
  | Sata4 => Some 4 | Sata5 => Some 5 | Sata6 => Some 6 | Sata7 => Some 7
  | _ => None
  end.

Definition nvme_index (d : BlockDevice) : option Z :=
  match d with
  | Nvme0n1 => Some 0 | Nvme1n1 => Some 1 | Nvme2n1 => Some 2 | Nvme3n1 => Some 3
  | _ => None
  end.

Definition usb_index (d : BlockDevice) : option Z :=
  match d with
  | Usb0 => Some 0 | Usb1 => Some 1 | Usb2 => Some 2 | Usb3 => Some 3
  | Usb4 => Some 4 | Usb5 => Some 5 | Usb6 => Some 6 | Usb7 => Some 7
  | _ => None
  end.

Definition bus_label (d : BlockDevice) : bytes :=
  match d with
  | Ide _ => str "ide"
  | Sata0 | Sata1 | Sata2 | Sata3 | Sata4 | Sata5 | Sata6 | Sata7 => str "sata"
  | Nvme0n1 | Nvme1n1 | Nvme2n1 | Nvme3n1 => str "nvme"
  | _ => str "usb"
  end.

Definition is_physical_install_target (d : BlockDevice) : bool :=
  bool_decide (is_Some (sata_port d)) || bool_decide (is_Some (nvme_index d)).

Definition RootDiskLayout_name (l : RootDiskLayout) : bytes :=
  match l with
  | RawCoolFs => str "raw-coolfs" | MbrCoolFs => str "mbr-coolfs" | GptCoolFs => str "gpt-coolfs"
  end.

(** ** The drivers, as an interface *)
Record DriverOps (D dev : Type) := {
  op_info : dev → D → BlockDeviceInfo;
  op_read : dev → Z → D → option bytes * D;
  op_write : dev → Z → bytes → D → bool * D;
  op_flush : dev → D → bool * D;
}.
Arguments op_info {D dev} _ _ _.
Arguments op_read {D dev} _ _ _ _.
Arguments op_write {D dev} _ _ _ _ _.
Arguments op_flush {D dev} _ _ _.

Class BlockDriver (D : Type) := {
  ata : DriverOps D IdeDevice;
  ahci : DriverOps D BlockDevice;
  nvme : DriverOps D BlockDevice;
  usb : DriverOps D BlockDevice;
  ahci_devices : D → list BlockDevice;
  nvme_devices : D → list BlockDevice;
  usb_storage_devices : D → list BlockDevice;
}.

Section dispatch.
Context {D : Type} `{BlockDriver D}.

Definition device_info (dev : BlockDevice) (d : D) : BlockDeviceInfo :=
  match dev with
  | Ide ide => op_info ata ide d
  | Sata0 | Sata1 | Sata2 | Sata3 | Sata4 | Sata5 | Sata6 | Sata7 => op_info ahci dev d
  | Nvme0n1 | Nvme1n1 | Nvme2n1 | Nvme3n1 => op_info nvme dev d
  | _ => op_info usb dev d
  end.

Definition read_sector_from (dev : BlockDevice) (lba : Z) (d : D) : option bytes * D :=
  match dev with
  | Ide ide => op_read ata ide lba d
  | Sata0 | Sata1 | Sata2 | Sata3 | Sata4 | Sata5 | Sata6 | Sata7 => op_read ahci dev lba d
  | Nvme0n1 | Nvme1n1 | Nvme2n1 | Nvme3n1 => op_read nvme dev lba d
  | _ => op_read usb dev lba d
  end.

Definition write_sector_to (dev : BlockDevice) (lba : Z) (buf : bytes) (d : D) : bool * D :=
  match dev with
  | Ide ide => op_write ata ide lba buf d
  | Sata0 | Sata1 | Sata2 | Sata3 | Sata4 | Sata5 | Sata6 | Sata7 => op_write ahci dev lba buf d
  | Nvme0n1 | Nvme1n1 | Nvme2n1 | Nvme3n1 => op_write nvme dev lba buf d
  | _ => op_write usb dev lba buf d
  end.

Definition flush_device (dev : BlockDevice) (d : D) : bool * D :=
  match dev with
  | Ide ide => op_flush ata ide d
  | Sata0 | Sata1 | Sata2 | Sata3 | Sata4 | Sata5 | Sata6 | Sata7 => op_flush ahci dev d
  | Nvme0n1 | Nvme1n1 | Nvme2n1 | Nvme3n1 => op_flush nvme dev d
  | _ => op_flush usb dev d
  end.

Definition all_devices (d : D) : list BlockDevice :=
  [Ide Ide0Master; Ide Ide0Slave; Ide Ide1Master; Ide Ide1Slave]
    ++ ahci_devices d ++ nvme_devices d ++ usb_storage_devices d.

Definition root_priority_devices (d : D) : list BlockDevice :=
  [Ide Ide0Slave; Ide Ide0Master] ++ usb_storage_devices d ++ nvme_devices d ++ ahci_devices d
    ++ [Ide Ide1Master; Ide Ide1Slave].

(** The entry loop of [find_gpt_partition]: [idx] runs over the first [n] entries. *)
Fixpoint gpt_entry_loop (dev : BlockDevice) (header : GptHeader) (per_sector : Z)
    (guid : bytes) (idx : Z) (n : nat) (d : D) : option GptPartition * D :=
  match n with
  | O => (None, d)
  | S n =>
      match checked_add 32 (entries_lba header) (idx / per_sector) with
      | None => (None, d)
      | Some sector_lba =>
          let offset := (idx mod per_sector) * entry_size header in
          match read_sector_from dev sector_lba d with
          | (None, d) => (None, d)
          | (Some sector, d) =>
              match parse_gpt_partition_entry (slice sector offset (entry_size header)) with
              | None => gpt_entry_loop dev header per_sector guid (idx + 1) n d
              | Some p =>
                  if bytes_eqb (type_guid p) guid then (Some p, d)
                  else gpt_entry_loop dev header per_sector guid (idx + 1) n d
              end
          end
      end
  end.

Definition find_gpt_partition (dev : BlockDevice) (disk_sectors : Z) (guid : bytes) (d : D)
    : option GptPartition * D :=
  match read_sector_from dev 0 d with
  | (None, d) => (None, d)
  | (Some mbr, d) =>
      if negb (has_protective_mbr mbr) then (None, d) else
      match read_sector_from dev GPT_PRIMARY_HEADER_LBA d with
      | (None, d) => (None, d)
      | (Some header_sector, d) =>
          match parse_gpt_header header_sector disk_sectors with
          | None => (None, d)
          | Some header =>
              let max_entries := Z.min (entry_count header) GPT_ENTRY_COUNT in
              let entries_per_sector := Z.max (SECTOR_SIZE / entry_size header) 1 in
              gpt_entry_loop dev header entries_per_sector guid 0 (Z.to_nat max_entries) d
          end
      end
  end.

(** [read_sector_from(..) && has_coolfs_magic(..)] *)
Definition probe_magic (dev : BlockDevice) (lba : Z) (d : D) : bool * D :=
  match read_sector_from dev lba d with
  | (Some first, d) => (has_coolfs_magic first, d)
  | (None, d) => (false, d)
  end.

(** The three passes of [detect_root_disk]. *)
Fixpoint detect_raw (devs : list BlockDevice) (d : D) : option RootDisk * D :=
  match devs with
  | [] => (None, d)
  | dev :: devs =>
      let info := device_info dev d in
      if negb (present info) then detect_raw devs d else
      match probe_magic dev 0 d with
      | (true, d) => (Some {| device := dev; base_lba := 0; root_sectors := info_sectors info;
                              layout := RawCoolFs |}, d)
      | (false, d) => detect_raw devs d
      end
  end.

Fixpoint detect_mbr (devs : list BlockDevice) (d : D) : option RootDisk * D :=
  match devs with
  | [] => (None, d)
  | dev :: devs =>
      let info := device_info dev d in
      if negb (present info) then detect_mbr devs d else
      match read_sector_from dev 0 d with
      | (None, d) => detect_mbr devs d
      | (Some mbr, d) =>
          match (ps ← parse_mbr mbr;
                 p ← find_partition ps COOLFS_PARTITION_TYPE;
                 end_lba ← MbrPartition_end_lba p;
                 Some (p, end_lba)) with
          | None => detect_mbr devs d
          | Some (p, end_lba) =>
              if (info_sectors info <=? starting_lba p) || (info_sectors info <? end_lba)
              then detect_mbr devs d else
              match probe_magic dev (starting_lba p) d with
              | (true, d) => (Some {| device := dev; base_lba := starting_lba p;
                                      root_sectors := sectors p; layout := MbrCoolFs |}, d)
              | (false, d) => detect_mbr devs d
              end
          end
      end
  end.

Fixpoint detect_gpt (devs : list BlockDevice) (d : D) : option RootDisk * D :=
  match devs with
  | [] => (None, d)
  | dev :: devs =>
      let info := device_info dev d in
      if negb (present info) then detect_gpt devs d else
      match find_gpt_partition dev (info_sectors info) COOLFS_GPT_PARTITION_GUID d with
      | (None, d) => detect_gpt devs d
      | (Some p, d) =>
          match (n ← GptPartition_sectors p; e ← GptPartition_end_lba p; Some (n, e)) with
          | None => detect_gpt devs d
          | Some (n, end_lba) =>
              if (info_sectors info <=? gpt_starting_lba p) || (info_sectors info <? end_lba)
              then detect_gpt devs d else
              match probe_magic dev (gpt_starting_lba p) d with
              | (true, d) => (Some {| device := dev; base_lba := gpt_starting_lba p;
                                      root_sectors := n; layout := GptCoolFs |}, d)
              | (false, d) => detect_gpt devs d
              end
          end
      end
  end.

Definition detect_root_disk (d : D) : option RootDisk * D :=
  match detect_raw (root_priority_devices d) d with
  | (Some r, d) => (Some r, d)
  | (None, d) =>
      match detect_mbr (root_priority_devices d) d with
      | (Some r, d) => (Some r, d)
      | (None, d) => detect_gpt (root_priority_devices d) d
      end
  end.

(** The storage state: the [ROOT_DISK] slot and the hardware. *)
Record Storage := { ROOT_DISK : option RootDisk; hw : D }.

Definition root_disk (s : Storage) : option RootDisk * Storage :=
  match ROOT_DISK s with
  | Some r => (Some r, s)
  | None =>
      let (r, d) := detect_root_disk (hw s) in
      (r, {| ROOT_DISK := r; hw := d |})
  end.

Definition read_sector (lba : Z) (s : Storage) : option bytes * Storage :=
  match root_disk s with
  | (None, s) => (None, s)
  | (Some root, s) =>
      if root_sectors root <=? lba then (None, s) else
      match checked_add 32 (base_lba root) lba with
      | None => (None, s)
      | Some abs_lba =>
          let (r, d) := read_sector_from (device root) abs_lba (hw s) in
          (r, {| ROOT_DISK := ROOT_DISK s; hw := d |})
      end
  end.

Definition write_sector (lba : Z) (buf : bytes) (s : Storage) : bool * Storage :=
  match root_disk s with
  | (None, s) => (false, s)
  | (Some root, s) =>
      if root_sectors root <=? lba then (false, s) else
      match checked_add 32 (base_lba root) lba with
      | None => (false, s)
      | Some abs_lba =>
          match write_sector_to (device root) abs_lba buf (hw s) with
          | (false, d) => (false, {| ROOT_DISK := ROOT_DISK s; hw := d |})
          | (true, d) =>
              let (ok, d) := flush_device (device root) d in
              (ok, {| ROOT_DISK := ROOT_DISK s; hw := d |})
          end
      end
  end.

End dispatch.
Arguments Storage D : clear implicits.

(** ** What the kernel relies on from a driver *)
Class DiskContents (D : Type) := contents : BlockDevice → Z → D → bytes.

Class BlockDriverLaws (D : Type) `{BlockDriver D, DiskContents D} : Prop := {
  read_law dev lba d r d' :
    read_sector_from dev lba d = (r, d') →
    (∀ dev' lba', contents dev' lba' d' = contents dev' lba' d) ∧
    (∀ b, r = Some b → b = contents dev lba d ∧ len b = SECTOR_SIZE ∧ Forall is_byte b) ∧
    (∀ dev', device_info dev' d' = device_info dev' d);
  write_law dev lba buf d ok d' :
    write_sector_to dev lba buf d = (ok, d') →
    (∀ dev' lba', (dev', lba') ≠ (dev, lba) → contents dev' lba' d' = contents dev' lba' d) ∧
    (ok = true → contents dev lba d' = buf);
  flush_law dev d ok d' :
    flush_device dev d = (ok, d') →
    ∀ dev' lba', contents dev' lba' d' = contents dev' lba' d;
}.

(** ** The interface CoolFS uses: a window of sectors

    [sread]/[swrite] are [read_sector]/[write_sector]; [scontents] is the window,
    [sinv] what must hold of the store for the laws to apply.  [sgood] describes
    stores on which I/O to the first [swindow] sectors does not fail. *)
Class SectorStore (S : Type) := {
  sread : Z → S → option bytes * S;
  swrite : Z → bytes → S → bool * S;
}.

Class SectorStoreLaws (S : Type) `{SectorStore S} := {
  scontents : S → Z → bytes;
  sinv : S → Prop;
  sread_law lba s r s' :
    sinv s → 0 ≤ lba → sread lba s = (r, s') →
    sinv s' ∧ (∀ l, 0 ≤ l → scontents s' l = scontents s l) ∧
    (∀ b, r = Some b → b = scontents s lba ∧ len b = SECTOR_SIZE ∧ Forall is_byte b);
  swrite_law lba buf s k s' :
    sinv s → 0 ≤ lba → swrite lba buf s = (k, s') →
    sinv s' ∧ (∀ l, 0 ≤ l → l ≠ lba → scontents s' l = scontents s l) ∧
    (k = true → scontents s' lba = buf);
}.

Class ReliableStore (S : Type) `{SectorStoreLaws S} := {
  swindow : Z;
  sgood : S → Prop;
  sgood_inv s : sgood s → sinv s;
  sread_good lba s :
    sgood s → 0 ≤ lba < swindow → ∃ b s', sread lba s = (Some b, s') ∧ sgood s';
  swrite_good lba buf s :
    sgood s → 0 ≤ lba < swindow → len buf = SECTOR_SIZE → Forall is_byte buf →
    ∃ s', swrite lba buf s = (true, s') ∧ sgood s';
}.

#[export] Instance Storage_store D `{BlockDriver D} : SectorStore (Storage D) :=
  {| sread := read_sector; swrite := write_sector |}.

Section window.
Context {D : Type} `{BlockDriverLaws D}.

(** The root region has been found and lies below 2^32 sectors. *)
Definition window_inv (s : Storage D) : Prop :=
  match ROOT_DISK s with
  | Some r => 0 ≤ base_lba r ∧ base_lba r + root_sectors r ≤ 2 ^ 32
  | None => False
  end.

Definition window (s : Storage D) (lba : Z) : bytes :=
  match ROOT_DISK s with
  | Some r => contents (device r) (base_lba r + lba) (hw s)
  | None => []
  end.

Lemma read_sector_window lba s r s' :
  window_inv s → 0 ≤ lba → read_sector lba s = (r, s') →
  ROOT_DISK s' = ROOT_DISK s ∧
  (∀ dev l, contents dev l (hw s') = contents dev l (hw s)) ∧
  (∀ b, r = Some b → b = window s lba ∧ len b = SECTOR_SIZE ∧ Forall is_byte b).
Proof.
  unfold window_inv, read_sector, root_disk, window. intros Hw Hl.
  destruct (ROOT_DISK s) as [root|] eqn:Hr; [|done]. unfold checked_add.
  destruct (Z.leb_spec (root_sectors root) lba); [intros; simplify_eq; naive_solver|].
  rewrite (proj2 (Z.ltb_lt (base_lba root + lba) _)) by lia.
  destruct (read_sector_from _ _ _) as [o d] eqn:Hread. intros; simplify_eq. simpl.
  apply read_law in Hread as (Hc & Hb & _). naive_solver.
Qed.

Lemma write_sector_window lba buf s k s' :
  window_inv s → 0 ≤ lba → write_sector lba buf s = (k, s') →
  ROOT_DISK s' = ROOT_DISK s ∧
  (∀ dev l, contents dev l (hw s') ≠ contents dev l (hw s) →
     ∃ r, ROOT_DISK s = Some r ∧ dev = device r ∧ l = base_lba r + lba ∧ lba < root_sectors r) ∧
  (k = true → window s' lba = buf).
Proof.
  unfold window_inv, write_sector, root_disk, window. intros Hw Hl.
  destruct (ROOT_DISK s) as [root|] eqn:Hr; [|done]. unfold checked_add.
  destruct (Z.leb_spec (root_sectors root) lba); [intros; simplify_eq; naive_solver|].
  rewrite (proj2 (Z.ltb_lt (base_lba root + lba) _)) by lia.
  destruct (write_sector_to _ _ _ _) as [o d] eqn:Hwr. apply write_law in Hwr as [Hc Hb].
  assert (Hout : ∀ dev l, contents dev l d ≠ contents dev l (hw s) →
    dev = device root ∧ l = base_lba root + lba).
  { intros dev l Hne. destruct (decide ((dev, l) = (device root, base_lba root + lba)));
      [by simplify_eq|]. by rewrite Hc in Hne. }
  destruct o.
  - destruct (flush_device _ _) as [k' d'] eqn:Hf. pose proof (flush_law _ _ _ _ Hf) as Hf'.
    intros; simplify_eq. simpl. split_and!; [done| |].
    + intros dev l Hne. rewrite Hf' in Hne. naive_solver.
    + rewrite Hr, Hf'. auto.
  - intros; simplify_eq. simpl. naive_solver.
Qed.

#[export] Instance Storage_laws : SectorStoreLaws (Storage D).
Proof.
  refine {| scontents := window; sinv := window_inv |}.
  - intros lba s r s' Hi Hl Hr. destruct (read_sector_window _ _ _ _ Hi Hl Hr) as (He & Hc & Hb).
    unfold window_inv, window in *. rewrite He. split_and!; [done| |done].
    intros l _. destruct (ROOT_DISK s); auto.
  - intros lba buf s k s' Hi Hl Hr.
    destruct (write_sector_window _ _ _ _ _ Hi Hl Hr) as (He & Hc & Hb).
    split_and!; [unfold window_inv in *; by rewrite He| |done].
    intros l Hl0 Hne. unfold window. rewrite He. destruct (ROOT_DISK s) as [r|] eqn:HR; [|done].
    destruct (decide (contents (device r) (base_lba r + l) (hw s') =
      contents (device r) (base_lba r + l) (hw s))) as [|Hd]; [done|].
    apply Hc in Hd as (? & ? & ? & ? & ?). simplify_eq. lia.
Defined.

(** Reading leaves the disk as it was: same contents, same geometry. *)
Definition same_disk (d d' : D) : Prop :=
  (∀ dev lba, contents dev lba d' = contents dev lba d) ∧
  (∀ dev, device_info dev d' = device_info dev d).

#[export] Instance same_disk_preorder : PreOrder same_disk.
Proof.
  split; [by split|]. intros a b c [Ha Hb] [Hc Hd].
  split; intros; [by rewrite Hc|by rewrite Hd].
Qed.

Lemma read_same dev lba d r d' :
  read_sector_from dev lba d = (r, d') →
  same_disk d d' ∧ ∀ b, r = Some b → b = contents dev lba d.
Proof. intros Hr. apply read_law in Hr as (? & Hb & ?). split; [by split|]. naive_solver. Qed.

Lemma probe_magic_same dev lba d b d' :
  probe_magic dev lba d = (b, d') →
  same_disk d d' ∧ (b = true → has_coolfs_magic (contents dev lba d) = true).
Proof.
  unfold probe_magic. destruct (read_sector_from dev lba d) as [[s|] e] eqn:Hr;
    apply read_same in Hr as [Hs Hc]; intros; simplify_eq; split; auto; [|done].
  by rewrite <- (Hc s).
Qed.

Lemma gpt_entry_loop_same dev h per g n idx d r d' :
  gpt_entry_loop dev h per g idx n d = (r, d') → same_disk d d'.
Proof.
  revert idx d. induction n as [|n IH]; intros idx d; simpl; [intros; by simplify_eq|].
  destruct (checked_add _ _ _); [|intros; by simplify_eq].
  destruct (read_sector_from _ _ _) as [[s|] e] eqn:Hr; apply read_same in Hr as [Hs _];
    [|intros; by simplify_eq].
  destruct (parse_gpt_partition_entry _) as [p|]; [case_if|]; intros Hl;
    first [by simplify_eq | etrans; [done|by eapply IH]].
Qed.

Lemma find_gpt_partition_same dev n g d r d' :
  find_gpt_partition dev n g d = (r, d') → same_disk d d'.
Proof.
  unfold find_gpt_partition.
  destruct (read_sector_from _ 0 _) as [[s|] e] eqn:Hr; apply read_same in Hr as [Hs _];
    [|intros; by simplify_eq].
  case_if; [intros; by simplify_eq|].
  destruct (read_sector_from _ _ e) as [[s'|] e'] eqn:Hr; apply read_same in Hr as [Hs' _];
    [|intros; simplify_eq; by etrans].
  destruct (parse_gpt_header _ _); [|intros; simplify_eq; by etrans].
  intros Hl%gpt_entry_loop_same. etrans; [done|]. by etrans.
Qed.

(** What a root candidate promises about the disk it was found on. *)
Definition root_ok (d : D) (r : RootDisk) : Prop :=
  present (device_info (device r) d) = true ∧
  base_lba r + root_sectors r ≤ info_sectors (device_info (device r) d) ∧
  has_coolfs_magic (contents (device r) (base_lba r) d) = true.

Lemma root_ok_same d d' r : same_disk d d' → root_ok d' r → root_ok d r.
Proof. intros [Hc Hi]. unfold root_ok. by rewrite Hi, Hc. Qed.

Lemma detect_raw_ok devs d r d' :
  detect_raw devs d = (r, d') → same_disk d d' ∧ ∀ x, r = Some x → root_ok d x.
Proof.
  revert d. induction devs as [|dev devs IH]; intros d; simpl; [intros; by simplify_eq|].
  case_if; [apply IH|]. destruct (probe_magic dev 0 d) as [[] e] eqn:Hp;
    apply probe_magic_same in Hp as [Hs Hm].
  - intros; simplify_eq. split; [done|]. intros; simplify_eq. zbool.
    split_and!; simpl; [done|lia|auto].
  - intros Hd. apply IH in Hd as [Hs' Hx]. split; [by etrans|]. eauto using root_ok_same.
Qed.

Lemma detect_mbr_ok devs d r d' :
  detect_mbr devs d = (r, d') → same_disk d d' ∧ ∀ x, r = Some x → root_ok d x.
Proof.
  revert d. induction devs as [|dev devs IH]; intros d; simpl; [intros; by simplify_eq|].
  case_if; [apply IH|]. destruct (read_sector_from dev 0 d) as [[m|] e] eqn:Hr;
    apply read_same in Hr as [Hs _].
  2:{ intros Hd. apply IH in Hd as [Hs' Hx]. split; [by etrans|]. eauto using root_ok_same. }
  destruct (parse_mbr m ≫= _) as [[p el]|] eqn:Hpm.
  2:{ intros Hd. apply IH in Hd as [Hs' Hx]. split; [by etrans|]. eauto using root_ok_same. }
  case_if.
  { intros Hd. apply IH in Hd as [Hs' Hx]. split; [by etrans|]. eauto using root_ok_same. }
  destruct (probe_magic dev (starting_lba p) e) as [[] e'] eqn:Hp;
    apply probe_magic_same in Hp as [Hs1 Hm].
  - intros; simplify_eq. split; [by etrans|]. intros; simplify_eq. zbool.
    apply root_ok_same with e; [done|]. destruct Hs as [Hc Hi].
    apply bind_Some in Hpm as (ps & _ & (q & Hq & (e2 & He & ?)%bind_Some)%bind_Some). simplify_eq.
    apply find_some in Hq as [_ Hq]. zbool. unfold MbrPartition_end_lba in He.
    assert (Hu : is_unused p = false) by done. rewrite Hu in He. unfold checked_add in He. case_if; [|done]. simplify_eq.
    split_and!; simpl; rewrite ?Hi; [done|lia|auto].
  - intros Hd. apply IH in Hd as [Hs' Hx]. split; [do 2 (etrans; [done|]); done|].
    intros x Hxx. apply (root_ok_same d e'); [by etrans|auto].
Qed.

Lemma detect_gpt_ok devs d r d' :
  detect_gpt devs d = (r, d') → same_disk d d' ∧ ∀ x, r = Some x → root_ok d x.
Proof.
  revert d. induction devs as [|dev devs IH]; intros d; simpl; [intros; by simplify_eq|].
  case_if; [apply IH|].
  destruct (find_gpt_partition _ _ _ d) as [[p|] e] eqn:Hr; apply find_gpt_partition_same in Hr as Hs.
  2:{ intros Hd. apply IH in Hd as [Hs' Hx]. split; [by etrans|]. eauto using root_ok_same. }
  destruct (GptPartition_sectors p ≫= _) as [[n el]|] eqn:Hpm.
  2:{ intros Hd. apply IH in Hd as [Hs' Hx]. split; [by etrans|]. eauto using root_ok_same. }
  case_if.
  { intros Hd. apply IH in Hd as [Hs' Hx]. split; [by etrans|]. eauto using root_ok_same. }
  destruct (probe_magic dev (gpt_starting_lba p) e) as [[] e'] eqn:Hp;
    apply probe_magic_same in Hp as [Hs1 Hm].
  - intros; simplify_eq. split; [by etrans|]. intros; simplify_eq. zbool.
    apply root_ok_same with e; [done|]. destruct Hs as [Hc Hi].
    apply bind_Some in Hpm as (k & Hk & (e2 & He & ?)%bind_Some). simplify_eq.
    unfold GptPartition_sectors, GptPartition_end_lba, checked_sub, checked_add in *.
    repeat (case_if; simpl in *; simplify_eq).
    split_and!; simpl; rewrite ?Hi; [done|lia|auto].
  - intros Hd. apply IH in Hd as [Hs' Hx]. split; [do 2 (etrans; [done|]); done|].
    intros x Hxx. apply (root_ok_same d e'); [by etrans|auto].
Qed.

(** The root scan is sound: whatever layout it reports, the region it selects is
    on a present device, lies inside that device and starts with the CoolFS magic;
    and the scan itself changes nothing on disk. *)
Theorem detect_root_disk_sound d r d' :
  detect_root_disk d = (r, d') →
  same_disk d d' ∧
  ∀ x, r = Some x →
    present (device_info (device x) d) = true ∧
    base_lba x + root_sectors x ≤ info_sectors (device_info (device x) d) ∧
    has_coolfs_magic (contents (device x) (base_lba x) d) = true.
Proof.
  unfold detect_root_disk.
  destruct (detect_raw _ d) as [[x|] e] eqn:Hd; apply detect_raw_ok in Hd as [Hs1 Hx1];
    [intros; simplify_eq; split; [done|]; apply Hx1|].
  destruct (detect_mbr _ e) as [[x|] e'] eqn:Hd; apply detect_mbr_ok in Hd as [Hs2 Hx2];
    [intros; simplify_eq; split; [by etrans|]; intros y Hy; by apply (root_ok_same d e), Hx2|].
  intros [Hs3 Hx3]%detect_gpt_ok. split; [do 2 (etrans; [done|]); done|].
  intros y Hy. apply (root_ok_same d e'), Hx3; [by etrans|done].
Qed.

(** Writes through the root window never leave it: after [write_sector] (successful
    or not) every sector of every device other than the addressed sector of the root
    partition is unchanged, and a successful write is what the window then holds. *)
Theorem write_sector_confined lba buf s k s' :
  window_inv s → 0 ≤ lba → write_sector lba buf s = (k, s') →
  (∀ dev l, contents dev l (hw s') ≠ contents dev l (hw s) →
     ∃ r, ROOT_DISK s = Some r ∧ dev = device r ∧
          base_lba r ≤ l < base_lba r + root_sectors r ∧ l = base_lba r + lba) ∧
  (k = true → window s' lba = buf).
Proof.
  intros Hi Hl Hw. destruct (write_sector_window _ _ _ _ _ Hi Hl Hw) as (_ & Hc & Hk).
  split; [|done]. intros dev l Hne. apply Hc in Hne as (r & Hr & -> & -> & Hlt).
  exists r. split_and!; [done|done|lia|lia|done].
Qed.
End window.

(** ** A RAM disk with a fault schedule

    One present device.  Every access consumes one entry of [rd_faults]; a
    faulty read fails and a faulty write destroys the sector it addresses. *)
Module RamDisk.

Record ramdisk := {
  rd_device : BlockDevice;
  rd_sectors : Z;
  rd_data : gmap Z bytes;
  rd_faults : list bool;
}.

Definition sector_at (lba : Z) (d : ramdisk) : bytes := default (zeros 512) (rd_data d !! lba).

Definition valid_sector (b : bytes) : bool :=
  (len b =? 512) && forallb (λ x, (0 <=? x) && (x <? 256)) b.

Definition in_range (dev : BlockDevice) (lba : Z) (d : ramdisk) : bool :=
  bool_decide (dev = rd_device d) && (0 <=? lba) && (lba <? rd_sectors d).

Definition next_fault (d : ramdisk) : bool * ramdisk :=
  match rd_faults d with
  | [] => (false, d)
  | f :: fs => (f, {| rd_device := rd_device d; rd_sectors := rd_sectors d;
                      rd_data := rd_data d; rd_faults := fs |})
  end.

Definition store (lba : Z) (b : bytes) (d : ramdisk) : ramdisk :=
  {| rd_device := rd_device d; rd_sectors := rd_sectors d;
     rd_data := <[lba := b]> (rd_data d); rd_faults := rd_faults d |}.

Definition ram_info (dev : BlockDevice) (d : ramdisk) : BlockDeviceInfo :=
  {| info_device := dev; present := bool_decide (dev = rd_device d); info_sectors := rd_sectors d |}.

Definition ram_read (dev : BlockDevice) (lba : Z) (d : ramdisk) : option bytes * ramdisk :=
  if negb (in_range dev lba d) then (None, d) else
  match next_fault d with
  | (true, d) => (None, d)
  | (false, d) => (if valid_sector (sector_at lba d) then Some (sector_at lba d) else None, d)
  end.

Definition ram_write (dev : BlockDevice) (lba : Z) (b : bytes) (d : ramdisk) : bool * ramdisk :=
  if negb (in_range dev lba d) then (false, d) else
  match next_fault d with
  | (true, d) => (false, store lba (zeros 512) d)
  | (false, d) => (true, store lba b d)
  end.

Definition ram_ops : DriverOps ramdisk BlockDevice :=
  {| op_info := ram_info; op_read := ram_read; op_write := ram_write; op_flush _ d := (true, d) |}.

#[export] Instance ram_driver : BlockDriver ramdisk := {|
  ata := {| op_info ide := ram_info (Ide ide); op_read ide := ram_read (Ide ide);
            op_write ide := ram_write (Ide ide); op_flush _ d := (true, d) |};
  ahci := ram_ops; nvme := ram_ops; usb := ram_ops;
  ahci_devices d := if bool_decide (is_Some (sata_port (rd_device d))) then [rd_device d] else [];
  nvme_devices d := if bool_decide (is_Some (nvme_index (rd_device d))) then [rd_device d] else [];
  usb_storage_devices d := if bool_decide (is_Some (usb_index (rd_device d))) then [rd_device d] else [];
|}.

#[export] Instance ram_contents : DiskContents ramdisk :=
  λ dev lba d, if bool_decide (dev = rd_device d) then sector_at lba d else [].

Lemma ram_read_from dev lba d : read_sector_from dev lba d = ram_read dev lba d.
Proof. by destruct dev. Qed.
Lemma ram_write_to dev lba b d : write_sector_to dev lba b d = ram_write dev lba b d.
Proof. by destruct dev. Qed.
Lemma ram_device_info dev d : device_info dev d = ram_info dev d.
Proof. by destruct dev. Qed.
Lemma ram_flush dev (d : ramdisk) : flush_device dev d = (true, d).
Proof. by destruct dev. Qed.

Lemma valid_sector_spec b : valid_sector b = true → len b = 512 ∧ Forall is_byte b.
Proof.
  unfold valid_sector. intros [Hl Hb]%andb_true_iff. split; [lia|].
  rewrite forallb_forall in Hb. apply Forall_forall. intros x Hx%list_elem_of_In.
  apply Hb in Hx. unfold is_byte. lia.
Qed.

Lemma next_fault_same d f d' :
  next_fault d = (f, d') →
  rd_device d' = rd_device d ∧ rd_sectors d' = rd_sectors d ∧ rd_data d' = rd_data d.
Proof. unfold next_fault. destruct (rd_faults d); intros; by simplify_eq. Qed.

#[export] Instance ram_laws : BlockDriverLaws ramdisk.
Proof.
  split.
  - intros dev lba d r d'. rewrite ram_read_from. unfold ram_read, contents, ram_contents, sector_at.
    setoid_rewrite ram_device_info. unfold ram_info.
    destruct (in_range dev lba d) eqn:Hr; simpl; [|intros; by simplify_eq].
    destruct (next_fault d) as [[] e] eqn:Hf; apply next_fault_same in Hf as (H1 & H2 & H3);
      intros; simplify_eq; rewrite H1, H2, H3; split_and!; try done.
    intros b Hb. destruct (valid_sector _) eqn:Hv in Hb; [|done]. simplify_eq.
    unfold in_range in Hr. rewrite !andb_true_iff in Hr. destruct Hr as [[Hr _] _].
    apply bool_decide_eq_true in Hr. rewrite bool_decide_true by congruence.
    split; [done|]. by apply valid_sector_spec.
  - intros dev lba b d k d'. rewrite ram_write_to. unfold ram_write, contents, ram_contents, sector_at.
    destruct (in_range dev lba d) eqn:Hr; simpl; [|intros; by simplify_eq].
    unfold in_range in Hr. rewrite !andb_true_iff in Hr. destruct Hr as [[Hr _] _].
    apply bool_decide_eq_true in Hr.
    destruct (next_fault d) as [[] e] eqn:Hf; apply next_fault_same in Hf as (H1 & H2 & H3);
      intros; simplify_eq; simpl; rewrite H1, H3; (split; [|intros; try done]).
    + intros dev' lba' Hne. case_bool_decide; [|done]. rewrite lookup_insert_ne; [done|congruence].
    + intros dev' lba' Hne. case_bool_decide; [|done]. rewrite lookup_insert_ne; [done|congruence].
    + rewrite bool_decide_true by done. by rewrite lookup_insert_eq.
  - intros dev d k d'. rewrite ram_flush. by intros; simplify_eq.
Qed.

(** A fault-free RAM disk whose root region starts at sector 0 and covers [n]
    sectors never fails inside the window. *)
Definition ram_good (n : Z) (s : Storage ramdisk) : Prop :=
  ∃ l, ROOT_DISK s = Some {| device := rd_device (hw s); base_lba := 0;
                             root_sectors := rd_sectors (hw s); layout := l |} ∧
  n ≤ rd_sectors (hw s) ≤ 2 ^ 32 ∧ rd_faults (hw s) = [] ∧
  ∀ lba b, rd_data (hw s) !! lba = Some b → len b = 512 ∧ Forall is_byte b.

Lemma ram_good_sector n s lba : ram_good n s → valid_sector (sector_at lba (hw s)) = true.
Proof.
  intros (l & _ & _ & _ & Hv). unfold valid_sector, sector_at.
  assert (Hb : len (default (zeros 512) (rd_data (hw s) !! lba)) = 512 ∧
    Forall is_byte (default (zeros 512) (rd_data (hw s) !! lba))).
  { destruct (rd_data (hw s) !! lba) eqn:Hl; simpl; [by eapply Hv|].
    split; [by apply len_zeros|apply zeros_is_byte]. }
  destruct Hb as [-> Hb]. apply forallb_forall. intros x Hx%list_elem_of_In.
  rewrite Forall_forall in Hb. apply Hb in Hx. unfold is_byte in Hx. lia.
Qed.

Lemma in_range_true s lba : 0 ≤ lba < rd_sectors s → in_range (rd_device s) lba s = true.
Proof. intros. unfold in_range. rewrite bool_decide_true by done. simpl. lia. Qed.

Definition WINDOW : Z := 12288.

#[export] Instance ram_reliable : ReliableStore (Storage ramdisk).
Proof.
  refine {| swindow := WINDOW; sgood := ram_good WINDOW |}.
  - intros s (l & Hr & Hn & _). unfold sinv; simpl. unfold window_inv. rewrite Hr. simpl. lia.
  - intros lba s Hg Hl. pose proof (ram_good_sector _ _ lba Hg) as Hv.
    pose proof Hg as (l & Hr & Hn & Hf & Hd). exists (sector_at lba (hw s)).
    unfold sread; simpl. unfold read_sector, root_disk. rewrite Hr. simpl.
    rewrite (proj2 (Z.leb_gt _ _)) by lia. unfold checked_add. rewrite Z.add_0_l.
    rewrite (proj2 (Z.ltb_lt _ _)) by lia. rewrite ram_read_from. unfold ram_read.
    rewrite in_range_true by lia. simpl. unfold next_fault. rewrite Hf, Hv.
    eexists. split; [done|]. by destruct s.
  - intros lba buf s Hg Hl Hb1 Hb2. destruct Hg as (l & Hr & Hn & Hf & Hd).
    unfold swrite; simpl. unfold write_sector, root_disk. rewrite Hr. simpl.
    rewrite (proj2 (Z.leb_gt _ _)) by lia. unfold checked_add. rewrite Z.add_0_l.
    rewrite (proj2 (Z.ltb_lt _ _)) by lia. rewrite ram_write_to. unfold ram_write.
    rewrite in_range_true by lia. simpl. unfold next_fault. rewrite Hf. rewrite ram_flush.
    eexists. split; [done|]. exists l. simpl. split_and!; [done|lia|lia|done|].
    intros lba' b. rewrite lookup_insert. case_decide; [intros; simplify_eq; auto|apply Hd].
Defined.

(** A disk with a CoolFS volume at sector 0. *)
Definition raw_disk : ramdisk :=
  {| rd_device := Ide Ide0Master; rd_sectors := WINDOW;
     rd_data := {[ 0 := COOLFS_MAGIC ++ zeros 504 ]}; rd_faults := [] |}.

Lemma detect_root_disk_sound_witness :
  same_disk raw_disk (snd (detect_root_disk raw_disk)) ∧
  ∀ x, fst (detect_root_disk raw_disk) = Some x →
    present (device_info (device x) raw_disk) = true ∧
    base_lba x + root_sectors x ≤ info_sectors (device_info (device x) raw_disk) ∧
    has_coolfs_magic (contents (device x) (base_lba x) raw_disk) = true.
Proof. apply (detect_root_disk_sound raw_disk). apply surjective_pairing. Defined.

Definition raw_storage : Storage ramdisk := {| ROOT_DISK := fst (detect_root_disk raw_disk); hw := raw_disk |}.

Lemma write_sector_confined_witness :
  (∀ dev l, contents dev l (hw (snd (write_sector 5 (zeros 512) raw_storage))) ≠ contents dev l (hw raw_storage) →
     ∃ r, ROOT_DISK raw_storage = Some r ∧ dev = device r ∧
          base_lba r ≤ l < base_lba r + root_sectors r ∧ l = base_lba r + 5) ∧
  (fst (write_sector 5 (zeros 512) raw_storage) = true →
   window (snd (write_sector 5 (zeros 512) raw_storage)) 5 = zeros 512).
Proof.
  apply (write_sector_confined 5 (zeros 512) raw_storage); [|lia|apply surjective_pairing].
  vm_compute. split; congruence.
Defined.

End RamDisk.

(** Every block device name parses back to its device, and parsing accepts
    nothing but device names. *)
Theorem BlockDevice_parse_name d name :
  BlockDevice_parse (BlockDevice_name d) = Some d ∧
  (BlockDevice_parse name = Some d → name = BlockDevice_name d).
Proof.
  split; [destruct d; [destruct ide|..]; vm_compute; reflexivity|].
  unfold BlockDevice_parse. destruct (IdeDevice_parse name) as [ide|] eqn:Hi.
  - unfold IdeDevice_parse in Hi. intros ?. simplify_eq.
    repeat match type of Hi with context [bytes_eqb ?a ?b] =>
      let E := fresh "E" in
      destruct (bytes_eqb a b) eqn:E; [apply bytes_eqb_eq in E; injection Hi as <-; exact E|]
    end. done.
  - intros [_ Hn]%find_some. by apply bytes_eqb_eq in Hn.
Qed.
