(* ===== verification/Text.v ===== *)
(** * Text helpers of the Rust standard library and of src/src/security.rs

    The string functions several components use, on UTF-8 bytes: [str::split]
    at an ASCII delimiter, [str::trim], ASCII case conversion, and the decimal
    number parser and printer of the account database. *)
From S2P Require Import Prelude.

Local Open Scope Z_scope.

(** [str::split(d)] for an ASCII delimiter [d]. *)
Fixpoint split_on (d : Z) (p : bytes) : list bytes :=
  match p with
  | [] => [[]]
  | c :: p =>
      if c =? d then [] :: split_on d p else
      match split_on d p with
      | [] => [[c]]
      | part :: parts => (c :: part) :: parts
      end
  end.

(** ** [str::trim] *)
Definition ascii_white (c : Z) : bool := ((9 <=? c) && (c <=? 13)) || (c =? 32).

(** The UTF-8 encodings of the non-ASCII [White_Space] characters. *)
Definition white2 (a b : Z) : bool := (a =? 0xc2) && ((b =? 0x85) || (b =? 0xa0)).
Definition white3 (a b c : Z) : bool :=
  ((a =? 0xe1) && (b =? 0x9a) && (c =? 0x80)) ||
  ((a =? 0xe2) && (b =? 0x80) &&
     (((0x80 <=? c) && (c <=? 0x8a)) || (c =? 0xa8) || (c =? 0xa9) || (c =? 0xaf))) ||
  ((a =? 0xe2) && (b =? 0x81) && (c =? 0x9f)) ||
  ((a =? 0xe3) && (b =? 0x80) && (c =? 0x80)).

Definition strip_white (l : bytes) : option bytes :=
  match l with
  | [] => None
  | a :: l1 =>
      if ascii_white a then Some l1 else
      match l1 with
      | [] => None
      | b :: l2 =>
          if white2 a b then Some l2 else
          match l2 with
          | c :: l3 => if white3 a b c then Some l3 else None
          | [] => None
          end
      end
  end.

(** The same at the end of the text, on the reversed bytes. *)
Definition strip_white_rev (l : bytes) : option bytes :=
  match l with
  | [] => None
  | a :: l1 =>
      if ascii_white a then Some l1 else
      match l1 with
      | [] => None
      | b :: l2 =>
          if white2 b a then Some l2 else
          match l2 with
          | c :: l3 => if white3 c b a then Some l3 else None
          | [] => None
          end
      end
  end.

Fixpoint strip_all (strip : bytes → option bytes) (fuel : nat) (l : bytes) : bytes :=
  match fuel with
  | O => l
  | S fuel => match strip l with Some l' => strip_all strip fuel l' | None => l end
  end.

Definition trim_start (l : bytes) : bytes := strip_all strip_white (length l) l.
Definition trim_end (l : bytes) : bytes :=
  rev (strip_all strip_white_rev (length l) (rev l)).
Definition trim (l : bytes) : bytes := trim_end (trim_start l).

(** ** [core::str::from_utf8]: is the text well-formed UTF-8? *)
Definition cont (b : Z) : bool := (0x80 <=? b) && (b <=? 0xbf).
Definition between (lo hi b : Z) : bool := (lo <=? b) && (b <=? hi).

(** One character at the head of [l]: what is left after it. *)
Definition utf8_step (l : bytes) : option bytes :=
  match l with
  | [] => None
  | a :: l1 =>
      if a <? 0x80 then Some l1 else
      match l1 with
      | b :: l2 =>
          if between 0xc2 0xdf a && cont b then Some l2 else
          match l2 with
          | c :: l3 =>
              if cont c &&
                 (((a =? 0xe0) && between 0xa0 0xbf b) || (between 0xe1 0xec a && cont b) ||
                  ((a =? 0xed) && between 0x80 0x9f b) || (between 0xee 0xef a && cont b))
              then Some l3 else
              match l3 with
              | d :: l4 =>
                  if cont c && cont d &&
                     (((a =? 0xf0) && between 0x90 0xbf b) || (between 0xf1 0xf3 a && cont b) ||
                      ((a =? 0xf4) && between 0x80 0x8f b))
                  then Some l4 else None
              | [] => None
              end
          | [] => None
          end
      | [] => None
      end
  end.

Fixpoint utf8_loop (fuel : nat) (l : bytes) : bool :=
  match fuel with
  | O => bytes_eqb l []
  | S fuel =>
      match l with
      | [] => true
      | _ => match utf8_step l with Some l' => utf8_loop fuel l' | None => false end
      end
  end.

Definition utf8_valid (l : bytes) : bool := utf8_loop (length l) l.

Definition to_ascii_uppercase (l : bytes) : bytes := map ascii_upper l.

(** ** Decimal numbers *)
Definition is_ascii_digit (c : Z) : bool := (48 <=? c) && (c <=? 57).
Definition is_ascii_alphabetic (c : Z) : bool :=
  ((65 <=? c) && (c <=? 90)) || ((97 <=? c) && (c <=? 122)).
Definition is_ascii_alphanumeric (c : Z) : bool := is_ascii_alphabetic c || is_ascii_digit c.

Fixpoint parse_digits (out : Z) (l : bytes) : option Z :=
  match l with
  | [] => Some out
  | c :: l =>
      if negb (is_ascii_digit c) then None else
      m ← checked_mul 32 out 10;
      o ← checked_add 32 m (c - 48);
      parse_digits o l
  end.

Definition parse_u32 (input : bytes) : option Z :=
  match input with [] => None | _ => parse_digits 0 input end.

(** The digits of [value], most significant first; ten are enough for a [u32]. *)
Fixpoint digits (fuel : nat) (value : Z) (acc : bytes) : bytes :=
  match fuel with
  | O => acc
  | S fuel => if value =? 0 then acc else digits fuel (value / 10) (48 + value mod 10 :: acc)
  end.

Definition push_u32 (out : bytes) (value : Z) : bytes :=
  if value =? 0 then out ++ str "0" else out ++ digits 10 value [].

(** ** Lemmas *)
Lemma split_on_nonempty d p : split_on d p ≠ [].
Proof. destruct p as [|c p]; simpl; [done|]. case_if; [done|]. by destruct (split_on d p). Qed.

Lemma split_on_app d p q : split_on d (p ++ d :: q) = split_on d p ++ split_on d q.
Proof.
  induction p as [|c p IH]; simpl; [by rewrite Z.eqb_refl|]. rewrite IH.
  case_if; [done|]. destruct (split_on d p) eqn:E; [by apply split_on_nonempty in E|done].
Qed.

Lemma split_on_none d part : Forall (λ c, c ≠ d) part → split_on d part = [part].
Proof.
  induction 1 as [|c l Hc Hl IH]; simpl; [done|].
  rewrite (proj2 (Z.eqb_neq _ _) Hc), IH. done.
Qed.

(** Printable ASCII without the space is left alone by [trim]. *)
Definition visible (c : Z) : Prop := 33 ≤ c < 127.

Lemma visible_not_white c : visible c → ascii_white c = false.
Proof. unfold visible, ascii_white. intros. apply orb_false_iff. split; [apply andb_false_iff; right|]; lia. Qed.

Lemma strip_white_visible c l : visible c → strip_white (c :: l) = None.
Proof.
  intros Hc. simpl. rewrite visible_not_white by done. destruct l as [|b l]; [done|].
  unfold visible, white2, white3 in *. replace (c =? 0xc2) with false by lia. replace (c =? 0xe1) with false by lia.
  replace (c =? 0xe2) with false by lia. replace (c =? 0xe3) with false by lia. by destruct l.
Qed.

Lemma strip_white_rev_visible c l : visible c → strip_white_rev (c :: l) = None.
Proof.
  intros Hc. simpl. rewrite visible_not_white by done. destruct l as [|b l]; [done|].
  unfold visible, white2, white3 in *. replace (c =? 0x85) with false by lia. replace (c =? 0xa0) with false by lia.
  rewrite andb_false_r. destruct l as [|a l]; [done|].
  replace (c =? 0x80) with false by lia. replace (0x80 <=? c) with false by lia. replace (c =? 0xa8) with false by lia.
  replace (c =? 0xa9) with false by lia. replace (c =? 0xaf) with false by lia. replace (c =? 0x9f) with false by lia.
  by rewrite !andb_false_r.
Qed.

Lemma trim_visible c l d : visible c → visible d → trim (c :: l ++ [d]) = c :: l ++ [d].
Proof.
  intros Hc Hd. unfold trim, trim_start. cbn [length strip_all]. rewrite strip_white_visible by done.
  unfold trim_end. cbn [rev]. rewrite rev_app_distr. cbn [rev app length].
  rewrite length_app, Nat.add_1_r. cbn [strip_all]. rewrite strip_white_rev_visible by done.
  cbn [rev]. by rewrite rev_app_distr, rev_involutive.
Qed.

Lemma trim_visible_all l : Forall visible l → trim l = l.
Proof.
  intros Hl. destruct l as [|c l]; [done|]. apply Forall_cons in Hl as [Hc Hl].
  destruct l as [|d l _] using rev_ind.
  - unfold trim, trim_start. cbn [length strip_all]. rewrite strip_white_visible by done.
    unfold trim_end. cbn [rev app length strip_all]. by rewrite strip_white_rev_visible.
  - apply Forall_app in Hl as [_ Hd]. apply Forall_cons in Hd as [Hd _]. by apply trim_visible.
Qed.

Lemma Forall_strip_all (P : Z → Prop) strip fuel l :
  (∀ l l', strip l = Some l' → Forall P l → Forall P l') → Forall P l → Forall P (strip_all strip fuel l).
Proof.
  intros Hs. revert l. induction fuel as [|fuel IH]; intros l Hl; simpl; [done|].
  destruct (strip l) as [l'|] eqn:E; [|done]. apply IH. by apply (Hs l).
Qed.

Lemma Forall_trim (P : Z → Prop) l : Forall P l → Forall P (trim l).
Proof.
  intros Hl. unfold trim, trim_end. rewrite Forall_forall. intros x Hx. apply list_elem_of_In, in_rev, list_elem_of_In in Hx.
  revert x Hx. apply Forall_forall. apply Forall_strip_all.
  - intros k k'. unfold strip_white_rev. intros. repeat (case_match; simplify_eq); by repeat (match goal with H : Forall _ (_ :: _) |- _ => apply Forall_cons in H as [_ H] end).
  - rewrite Forall_forall. intros x Hx. apply list_elem_of_In, in_rev, list_elem_of_In in Hx. revert x Hx. apply Forall_forall.
    apply Forall_strip_all; [|done].
    intros k k'. unfold strip_white. intros. repeat (case_match; simplify_eq); by repeat (match goal with H : Forall _ (_ :: _) |- _ => apply Forall_cons in H as [_ H] end).
Qed.

Lemma digits_digit fuel v acc : Forall (λ c, 48 ≤ c ≤ 57) acc → Forall (λ c, 48 ≤ c ≤ 57) (digits fuel v acc).
Proof.
  revert v acc. induction fuel as [|fuel IH]; intros v acc Ha; simpl; [done|]. case_if; [done|].
  apply IH. constructor; [|done]. pose proof (Z.mod_pos_bound v 10). lia.
Qed.

Lemma push_u32_app out v : push_u32 out v = out ++ push_u32 [] v.
Proof. unfold push_u32. by case_if. Qed.

Lemma push_u32_digit v : Forall (λ c, 48 ≤ c ≤ 57) (push_u32 [] v).
Proof. unfold push_u32. case_if; [by repeat constructor|]. by apply digits_digit. Qed.

Lemma utf8_valid_ascii l : Forall (λ b, b < 0x80) l → utf8_valid l = true.
Proof.
  unfold utf8_valid. induction 1 as [|b l Hb Hl IH]; [done|]. cbn [length utf8_loop utf8_step].
  by rewrite (proj2 (Z.ltb_lt _ _) Hb).
Qed.

Lemma strip_all_stable strip fuel l :
  (∀ l l', strip l = Some l' → (length l' < length l)%nat) → (length l ≤ fuel)%nat →
  strip (strip_all strip fuel l) = None.
Proof.
  intros Hdec. revert l. induction fuel as [|fuel IH]; intros l Hl; simpl.
  - destruct l; [|simpl in *; lia]. destruct (strip []) eqn:E; [|done]. apply Hdec in E. simpl in E. lia.
  - destruct (strip l) eqn:E; [|done]. apply Hdec in E. apply IH. lia.
Qed.

Lemma strip_white_length l l' : strip_white l = Some l' → (length l' < length l)%nat.
Proof.
  unfold strip_white. intros.
  repeat (case_match; simplify_eq); simpl; lia.
Qed.

Lemma strip_white_rev_length l l' : strip_white_rev l = Some l' → (length l' < length l)%nat.
Proof.
  unfold strip_white_rev. intros.
  repeat (case_match; simplify_eq); simpl; lia.
Qed.

Lemma parse_digits_app out a b :
  parse_digits out (a ++ b) = parse_digits out a ≫= λ o, parse_digits o b.
Proof.
  revert out. induction a as [|c a IH]; intros out; simpl; [done|].
  case_if; [done|]. destruct (checked_mul _ _ _); simpl; [|done].
  destruct (checked_add _ _ _); simpl; [|done]. apply IH.
Qed.

Lemma digits_acc fuel v acc : digits fuel v acc = digits fuel v [] ++ acc.
Proof.
  revert v acc. induction fuel as [|fuel IH]; intros v acc; simpl; [done|].
  case_if; [done|]. rewrite IH, (IH _ [_]), <- app_assoc. done.
Qed.

Lemma parse_digits_digits fuel v :
  0 ≤ v < 10 ^ Z.of_nat fuel → v < 2 ^ 32 → parse_digits 0 (digits fuel v []) = Some v.
Proof.
  revert v. induction fuel as [|fuel IH]; intros v Hv Hmax.
  - simpl in *. f_equal. lia.
  - cbn [digits]. case_if as E; zbool; [by subst|].
    pose proof (Z.div_mod v 10 ltac:(lia)). pose proof (Z.mod_pos_bound v 10 ltac:(lia)).
    rewrite digits_acc, parse_digits_app, IH.
    + cbn [parse_digits mbind option_bind]. unfold is_ascii_digit.
      rewrite (proj2 (Z.leb_le 48 _)), (proj2 (Z.leb_le _ 57)) by lia. simpl negb. cbv iota.
      unfold checked_mul, checked_add. rewrite (proj2 (Z.ltb_lt _ _)) by lia. cbn [mbind option_bind].
      rewrite (proj2 (Z.ltb_lt _ _)) by lia. cbn [mbind option_bind parse_digits]. f_equal. lia.
    + rewrite Nat2Z.inj_succ, Z.pow_succ_r in Hv by lia. split; [|apply Z.div_lt_upper_bound]; lia.
    + lia.
Qed.

Lemma digits_nonempty fuel v : v ≠ 0 → digits (S fuel) v [] ≠ [].
Proof.
  intros Hv. cbn [digits]. rewrite (proj2 (Z.eqb_neq _ _) Hv), digits_acc.
  by destruct (digits fuel (v / 10) []).
Qed.

(** The decimal printer and parser of the account database agree: every
    [u32] is read back as it was printed, without overflow on the way. *)
Theorem parse_push_u32 v : 0 ≤ v < 2 ^ 32 → parse_u32 (push_u32 [] v) = Some v.
Proof.
  intros Hv. unfold push_u32. case_if as E; zbool; [by subst|]. 
  pose proof (digits_nonempty 9 v E) as Hn. pose proof (parse_digits_digits 10 v) as Hp.
  unfold parse_u32. rewrite app_nil_l. destruct (digits 10 v []); [done|]. apply Hp; lia.
Qed.

Lemma parse_push_u32_witness : parse_u32 (push_u32 [] 4294967295) = Some 4294967295.
Proof. apply (parse_push_u32 4294967295). lia. Defined.
