(* ===== verification/Clock.v ===== *)
(** * The clock (src/src/interrupts.rs)

    Time is a count of timer interrupts. *)
From S2P Require Import Prelude.

Local Open Scope Z_scope.

Definition TIMER_HZ : Z := 288.
(** [((TIMER_HZ * ms) + 999) / 1000] in 64-bit arithmetic *)
Definition ticks_for_millis (ms : Z) : Z := wrapping_add 64 ((TIMER_HZ * ms) mod 2 ^ 64) 999 / 1000.

(** The ticks last at least as long as the milliseconds, and by less than a tick
    longer, up to two million years. *)
Lemma ticks_for_millis_bounds ms : 0 ≤ ms → TIMER_HZ * ms + 999 < 2 ^ 64 →
  TIMER_HZ * ms ≤ 1000 * ticks_for_millis ms < TIMER_HZ * ms + 1000.
Proof.
  unfold ticks_for_millis, wrapping_add, TIMER_HZ. intros H0 H. rewrite (Z.mod_small (288 * ms)) by lia. rewrite Z.mod_small by lia.
  pose proof (Z.div_mod (288 * ms + 999) 1000 ltac:(lia)). pose proof (Z.mod_pos_bound (288 * ms + 999) 1000 ltac:(lia)). lia.
Qed.
