(* ===== verification/UserLayout.v ===== *)
(** * The layout of user address spaces (src/src/vmm.rs, src/src/syscall/user_memory.rs)

    Where program images, stacks, mappings and shared memory lie, and the checks
    of address ranges that need no page table. *)
From S2P Require Import Prelude.

Local Open Scope Z_scope.

Definition USER_STACK_TOP : Z := 0x7fff00100000.
Definition USER_STACK_SIZE : Z := 64 * 1024.
Definition USER_STACK_BOTTOM : Z := USER_STACK_TOP - USER_STACK_SIZE.
Definition USER_THREAD_STACK_BASE : Z := 0x7fff00200000.
Definition USER_THREAD_STACK_SLOT_SIZE : Z := 1024 * 1024.
Definition USER_THREAD_STACK_SLOTS : nat := 128.
Definition USER_TOP : Z := 0x800000000000.
Definition USER_IMAGE_BASE : Z := 0x7fff00000000.
Definition USER_MMAP_BASE : Z := 0x7fff10000000.
Definition USER_MMAP_TOP : Z := 0x7fff70000000.
Definition USER_SHMEM_BASE : Z := 0x400000000000.
Definition USER_SHMEM_SLOT_SIZE : Z := 64 * 1024 * 1024.

Definition pml4_index (addr : Z) : Z := Z.land (Z.shiftr addr 39) 0x1ff.
Definition USER_IMAGE_PML4_INDEX : Z := pml4_index USER_IMAGE_BASE.
Definition USER_SHMEM_PML4_INDEX : Z := pml4_index USER_SHMEM_BASE.

Definition user_thread_stack_range (slot : nat) : option (Z * Z) :=
  if (USER_THREAD_STACK_SLOTS <=? slot)%nat then None else
  checked_mul 64 (Z.of_nat slot) USER_THREAD_STACK_SLOT_SIZE ≫= λ off,
  checked_add 64 USER_THREAD_STACK_BASE off ≫= λ bottom,
  checked_add 64 bottom USER_STACK_SIZE ≫= λ top,
  if USER_MMAP_BASE <? top then None else Some (bottom, top).

Definition valid_user_mmap_range (addr len_aligned : Z) : bool :=
  if negb (Z.land addr 0xfff =? 0) || (len_aligned =? 0) || negb (Z.land len_aligned 0xfff =? 0) then false else
  match checked_add 64 addr len_aligned with
  | Some stop => (USER_MMAP_BASE <=? addr) && (stop <=? USER_MMAP_TOP)
  | None => false
  end.

Definition valid_user_address_range (ptr len max_len : Z) : bool :=
  if (ptr =? 0) || (len =? 0) || (max_len <? len) then false else
  match checked_add 64 ptr len with
  | Some stop => (stop <=? USER_TOP) && (ptr <? USER_TOP)
  | None => false
  end.
