(* ===== verification/FrameAlloc.v ===== *)
(** * Physical frames (src/src/memory.rs)

    The allocator of 4 KiB frames: the usable regions of the boot loader's memory
    map, used up front to back, and the frames given back since.  A frame is its
    physical start address. *)
From S2P Require Import Prelude.

Local Open Scope Z_scope.

Definition PAGE_SIZE : Z := 4096.
(** [PhysFrame::containing_address], [addr & !0xfff] *)
Definition page_down (a : Z) : Z := a - a mod PAGE_SIZE.

(** A region of the memory map, and whether its kind is [Usable]. *)
Record MemoryRegion := { r_start : Z; r_end : Z; r_usable : bool }.
Record FrameAlloc := { fa_regions : list MemoryRegion; fa_next : nat; fa_recycled : list Z }.

(** [(r.start..r.end).step_by(4096)] *)
Definition region_frames (r : MemoryRegion) : list Z :=
  map (λ k, page_down (r_start r + PAGE_SIZE * Z.of_nat k)) (seq 0 (Z.to_nat ((r_end r - r_start r + (PAGE_SIZE - 1)) / PAGE_SIZE))).
Definition usable_frames (a : FrameAlloc) : list Z := mjoin (map region_frames (List.filter r_usable (fa_regions a))).

Definition allocator_init (regions : list MemoryRegion) : FrameAlloc := {| fa_regions := regions; fa_next := 0; fa_recycled := [] |}.
Definition allocator_init_from (regions : list MemoryRegion) (start : nat) : FrameAlloc :=
  {| fa_regions := regions; fa_next := start; fa_recycled := [] |}.

Definition allocate_frame (a : FrameAlloc) : option Z * FrameAlloc :=
  match last (fa_recycled a) with
  | Some f => (Some f, {| fa_regions := fa_regions a; fa_next := fa_next a; fa_recycled := removelast (fa_recycled a) |})
  | None => (usable_frames a !! fa_next a, {| fa_regions := fa_regions a; fa_next := S (fa_next a); fa_recycled := fa_recycled a |})
  end.
Definition deallocate_frame (f : Z) (a : FrameAlloc) : FrameAlloc :=
  {| fa_regions := fa_regions a; fa_next := fa_next a; fa_recycled := fa_recycled a ++ [f] |}.

(** The search for a run: where the present one began, and how long it is. *)
Fixpoint find_run (count idx run_start : nat) (run_frame : Z) (run_len : nat) (last_addr : Z) (frames : list Z) : option (nat * Z) :=
  match frames with
  | [] => None
  | f :: frames =>
      let '(run_start, run_frame, run_len) :=
        if (run_len =? 0)%nat || negb (f =? last_addr + PAGE_SIZE) then (idx, f, 1%nat) else (run_start, run_frame, S run_len) in
      if (run_len =? count)%nat then Some ((run_start + count)%nat, run_frame)
      else find_run count (S idx) run_start run_frame run_len f frames
  end.
Definition allocate_contiguous (count : nat) (a : FrameAlloc) : option Z * FrameAlloc :=
  if (count =? 0)%nat then (None, a) else
  match find_run count (fa_next a) 0 0 0 0 (drop (fa_next a) (usable_frames a)) with
  | Some (next, f) => (Some f, {| fa_regions := fa_regions a; fa_next := next; fa_recycled := fa_recycled a |})
  | None => (None, a)
  end.

(** ** What the allocator can still give *)
Definition available (a : FrameAlloc) : list Z := fa_recycled a ++ drop (fa_next a) (usable_frames a).

Lemma last_removelast {A} (l : list A) x : last l = Some x → l = removelast l ++ [x].
Proof.
  destruct l as [|y l _] using rev_ind; [done|]. rewrite last_snoc. intros [= ->]. by rewrite removelast_last.
Qed.

(** A frame is taken from those available, or none is left. *)
Lemma allocate_frame_available a o a' : allocate_frame a = (o, a') →
  match o with Some f => available a ≡ₚ f :: available a' | None => available a = [] ∧ available a' = [] end.
Proof.
  unfold allocate_frame, available. destruct (last (fa_recycled a)) as [f|] eqn:El; intros [= <- <-]; cbn [fa_next fa_recycled].
  - rewrite (last_removelast _ _ El) at 1. rewrite <-app_assoc. change (usable_frames _) with (usable_frames a) at 2.
    simpl. by rewrite Permutation_middle.
  - apply last_None in El as ->. simpl. change (usable_frames {| fa_regions := _; fa_next := _; fa_recycled := _ |}) with (usable_frames a).
    destruct (usable_frames a !! fa_next a) as [f|] eqn:E; [by rewrite (drop_S _ _ _ E)|].
    apply lookup_ge_None in E. split; apply drop_ge; lia.
Qed.
Lemma deallocate_frame_available f a : available (deallocate_frame f a) ≡ₚ f :: available a.
Proof. unfold available, deallocate_frame. simpl. rewrite <-app_assoc. simpl. by rewrite Permutation_middle. Qed.

(** [frames] is what is left of [U] at [idx]; the run of [rl] frames ends there. *)
Definition run_at (U : list Z) (start idx rs : nat) (rf : Z) (rl : nat) (la : Z) : Prop :=
  rl = 0%nat ∨ (start ≤ rs ∧ rs + rl = idx)%nat ∧ la = rf + PAGE_SIZE * (Z.of_nat rl - 1) ∧
  ∀ j, (j < rl)%nat → U !! (rs + j)%nat = Some (rf + PAGE_SIZE * Z.of_nat j).

Lemma find_run_spec count U start frames : (0 < count)%nat → ∀ idx rs rf rl la next f,
  frames = drop idx U → (start ≤ idx)%nat → run_at U start idx rs rf rl la →
  find_run count idx rs rf rl la frames = Some (next, f) →
  ∃ i, (start ≤ i)%nat ∧ next = (i + count)%nat ∧ ∀ j, (j < count)%nat → U !! (i + j)%nat = Some (f + PAGE_SIZE * Z.of_nat j).
Proof.
  intros Hc. induction frames as [|x frames IH]; intros idx rs rf rl la next f Hf Hs Hr; cbn [find_run]; [done|].
  assert (Hx : U !! idx = Some x) by (rewrite <-(Nat.add_0_r idx), <-lookup_drop, <-Hf; done).
  assert (Hd : frames = drop (S idx) U) by (rewrite <-Nat.add_1_r, <-drop_drop, <-Hf; done).
  assert (Hnew : run_at U start (S idx) idx x 1 x).
  { right. split_and!; [lia|lia|lia|]. intros j Hj. replace j with 0%nat by lia. rewrite Nat.add_0_r, Hx. f_equal. lia. }
  destruct ((rl =? 0)%nat || negb (x =? la + PAGE_SIZE)) eqn:E.
  - destruct (Nat.eqb_spec 1 count) as [<-|]; [|eauto]. intros [= <- <-]. exists idx. split_and!; [lia|lia|].
    intros j Hj. replace j with 0%nat by lia. rewrite Nat.add_0_r, Hx. f_equal. lia.
  - apply orb_false_iff in E as [E1 E2]. zbool. apply Nat.eqb_neq in E1. destruct Hr as [?|([H1 H2] & Hla & Hj)]; [lia|].
    assert (Hrun : run_at U start (S idx) rs rf (S rl) x).
    { right. split_and!; [lia|lia|lia|]. intros j Hj'. destruct (decide (j = rl)) as [->|]; [|apply Hj; lia].
      rewrite H2, Hx. f_equal. lia. }
    destruct (Nat.eqb_spec (S rl) count) as [<-|]; [|eauto]. intros [= <- <-]. exists rs. split_and!; [lia|lia|].
    destruct Hrun as [?|(_ & _ & H)]; [lia|exact H].
Qed.

(** A contiguous run is taken from the frames available; what lies before it in
    the memory map is given up. *)
Lemma allocate_contiguous_available count a f a' : allocate_contiguous count a = (Some f, a') →
  ∃ skipped, available a ≡ₚ map (λ j, f + PAGE_SIZE * Z.of_nat j) (seq 0 count) ++ skipped ++ available a'.
Proof.
  unfold allocate_contiguous. destruct (Nat.eqb_spec count 0); [done|].
  destruct (find_run _ _ _ _ _ _ _) as [[next f']|] eqn:E; [|done]. intros [= <- <-].
  eapply find_run_spec in E as (i & Hi & -> & Hj); [|lia|done|done|by left].
  exists (take (i - fa_next a) (drop (fa_next a) (usable_frames a))). unfold available. cbn [fa_next fa_recycled].
  change (usable_frames {| fa_regions := _; fa_next := _; fa_recycled := _ |}) with (usable_frames a). set (U := usable_frames a) in *.
  assert (HU : drop (fa_next a) U = take (i - fa_next a) (drop (fa_next a) U) ++ map (λ j, f' + PAGE_SIZE * Z.of_nat j) (seq 0 count) ++ drop (i + count) U).
  { rewrite <-(take_drop (i - fa_next a) (drop (fa_next a) U)) at 1. f_equal. rewrite drop_drop.
    replace (fa_next a + (i - fa_next a))%nat with i by lia. rewrite <-(take_drop count (drop i U)) at 1. rewrite drop_drop. f_equal.
    apply list_eq. intros j. destruct (decide (j < count)%nat) as [H|H].
    - rewrite lookup_take_lt, lookup_drop, Hj by lia. by rewrite list_lookup_fmap, lookup_seq_lt by lia.
    - rewrite lookup_take_ge by lia. symmetry. apply lookup_ge_None. rewrite length_map, length_seq. lia. }
  rewrite HU at 1. rewrite !app_assoc. apply Permutation_app_tail. rewrite <-!app_assoc.
  rewrite (Permutation_app_comm (fa_recycled a)), <-app_assoc. rewrite Permutation_app_comm, <-!app_assoc.
  apply Permutation_app_head. by rewrite Permutation_app_comm.
Qed.
