(* ===== verification/Vmm.v ===== *)
(** * Address spaces (src/src/vmm.rs)

    Page tables in physical memory: a table is a frame read as 512 entries of 8
    bytes, in the format of the x86-64 architecture.  The state is that memory,
    the frame allocator, the record of which frames belong to which address
    space, and CR3.  [Mapper::map_to] of the x86_64 crate is the class [Mapper]
    with its documented behaviour [MapperSpec]; [walk_map_to] is an instance. *)
From stdpp Require Import functions.
From S2P Require Import Prelude UserLayout FrameAlloc.

Local Open Scope Z_scope.
Local Open Scope st_scope.

(** ** Physical memory *)
(** The 4096 bytes of each frame. *)
Abbreviation Mem := (Z → list Z) (only parsing).
(** [ptr::write_bytes(ptr, 0, 4096)] through the physical-memory map *)
Definition zero_frame (f : Z) (m : Mem) : Mem := <[f := zeros PAGE_SIZE]> m.
Definition store_byte (pa b : Z) (m : Mem) : Mem :=
  <[page_down pa := <[Z.to_nat (pa - page_down pa) := b]> (m (page_down pa))]> m.
Fixpoint store_bytes (pa : Z) (bs : bytes) (m : Mem) : Mem :=
  match bs with [] => m | b :: bs => store_bytes (pa + 1) bs (store_byte pa b m) end.
Definition load_byte (pa : Z) (m : Mem) : Z := nthZ (m (page_down pa)) (pa - page_down pa).

(** ** Page table entries *)
Definition PRESENT : Z := 1.
Definition WRITABLE : Z := 2.
Definition USER_ACCESSIBLE : Z := 4.
Definition HUGE_PAGE : Z := 128.
Definition NO_EXECUTE : Z := 2 ^ 63.
Definition ADDR_MASK : Z := 0x000ffffffffff000.
Definition contains (flags fl : Z) : bool := Z.land flags fl =? fl.
Definition e_addr (e : Z) : Z := Z.land e ADDR_MASK.
Definition e_flags (e : Z) : Z := Z.land e (2 ^ 64 - 1 - ADDR_MASK).
Definition set_flags (e flags : Z) : Z := Z.lor (e_addr e) flags.
Definition is_unused (e : Z) : bool := e =? 0.

(** [table_at(f)[i]] and the assignment to it *)
Definition entry (m : Mem) (f i : Z) : Z := le_val (slice (m f) (8 * i) 8).
Definition set_entry (f i e : Z) (m : Mem) : Mem := <[f := splice (m f) (8 * i) (le_bytes 8 e)]> m.

(** The index of [addr] in the table of a level, 4 for the root. *)
Definition pt_index (level : nat) (addr : Z) : Z := Z.land (Z.shiftr addr (12 + 9 * (Z.of_nat level - 1))) 0x1ff.

(** ** State *)
Record AddressSpaceFrames := { as_pml4 : Z; as_tables : list Z; as_leaves : list Z; as_file_backed : Z }.
Record VmmResourceStats := { vs_spaces : Z; vs_table_pages : Z; vs_leaf_pages : Z; vs_file_pages : Z }.
Record Vmm := { v_mem : Mem; v_alloc : option FrameAlloc; v_spaces : list AddressSpaceFrames; v_boot : Z; v_cr3 : Z }.

Definition set_mem (m : Mem) (v : Vmm) : Vmm :=
  {| v_mem := m; v_alloc := v_alloc v; v_spaces := v_spaces v; v_boot := v_boot v; v_cr3 := v_cr3 v |}.
Definition set_alloc (a : option FrameAlloc) (v : Vmm) : Vmm :=
  {| v_mem := v_mem v; v_alloc := a; v_spaces := v_spaces v; v_boot := v_boot v; v_cr3 := v_cr3 v |}.
Definition set_spaces (l : list AddressSpaceFrames) (v : Vmm) : Vmm :=
  {| v_mem := v_mem v; v_alloc := v_alloc v; v_spaces := l; v_boot := v_boot v; v_cr3 := v_cr3 v |}.
Definition set_cr3 (p : Z) (v : Vmm) : Vmm :=
  {| v_mem := v_mem v; v_alloc := v_alloc v; v_spaces := v_spaces v; v_boot := v_boot v; v_cr3 := p |}.

Definition MAX_USER_ADDRESS_SPACE_PAGES : Z := 16 * 1024 * 1024 / 4096.

(** ** Frames *)
Definition alloc_frame (v : Vmm) : option Z * Vmm :=
  match v_alloc v with
  | None => (None, v)
  | Some a => let (o, a) := allocate_frame a in (o, set_alloc (Some a) v)
  end.
Definition alloc_zeroed_frame (v : Vmm) : option Z * Vmm :=
  match alloc_frame v with
  | (Some f, v) => (Some f, set_mem (zero_frame f (v_mem v)) v)
  | (None, v) => (None, v)
  end.
Definition free_unmapped_frame (f : Z) (v : Vmm) : Vmm :=
  match v_alloc v with Some a => set_alloc (Some (deallocate_frame f a)) v | None => v end.
Definition alloc_contiguous_zeroed_frames (count : nat) (v : Vmm) : option Z * Vmm :=
  if (count =? 0)%nat then (None, v) else
  match v_alloc v with
  | None => (None, v)
  | Some a =>
      match allocate_contiguous count a with
      | (Some first, a) =>
          (Some first, set_mem (fold_left (λ m idx, zero_frame (first + Z.of_nat idx * 4096) m) (seq 0 count) (v_mem v)) (set_alloc (Some a) v))
      | (None, a) => (None, set_alloc (Some a) v)
      end
  end.

(** ** The mapper *)
(** [TrackingFrameAllocator], with the memory it zeroes. *)
Record Tracking := { tr_mem : Mem; tr_inner : FrameAlloc; tr_allocated : list Z }.
Definition tr_set_mem (m : Mem) (ts : Tracking) : Tracking :=
  {| tr_mem := m; tr_inner := tr_inner ts; tr_allocated := tr_allocated ts |}.
Definition tracking_allocate_frame (ts : Tracking) : option Z * Tracking :=
  match allocate_frame (tr_inner ts) with
  | (Some f, a) => (Some f, {| tr_mem := zero_frame f (tr_mem ts); tr_inner := a; tr_allocated := tr_allocated ts ++ [f] |})
  | (None, a) => (None, {| tr_mem := tr_mem ts; tr_inner := a; tr_allocated := tr_allocated ts |})
  end.

(** [OffsetPageTable::map_to] on the table at a frame. *)
Class Mapper := map_to : Z → Z → Z → Z → Tracking → option unit * Tracking.

(** One level: the entry of [t] at [i] leads to a table that exists, or to a
    new one.  Parent entries get the flags present, writable and user of the
    mapping. *)
Definition parent_flags (flags : Z) : Z := Z.land flags (Z.lor PRESENT (Z.lor WRITABLE USER_ACCESSIBLE)).
Inductive link (flags t i : Z) (ts : Tracking) : Z → Tracking → Prop :=
| link_existing : is_unused (entry (tr_mem ts) t i) = false → contains (entry (tr_mem ts) t i) HUGE_PAGE = false →
    link flags t i ts (e_addr (entry (tr_mem ts) t i))
      (tr_set_mem (set_entry t i (Z.lor (entry (tr_mem ts) t i) (parent_flags flags)) (tr_mem ts)) ts)
| link_new t' ts' : is_unused (entry (tr_mem ts) t i) = true → tracking_allocate_frame ts = (Some t', ts') →
    link flags t i ts t' (tr_set_mem (set_entry t i (Z.lor t' (parent_flags flags)) (tr_mem ts')) ts').
(** A walk stops at a huge page, or where no frame is left for a table. *)
Inductive stops (flags t i : Z) (ts : Tracking) : Tracking → Prop :=
| stop_huge e : is_unused (entry (tr_mem ts) t i) = false → contains (entry (tr_mem ts) t i) HUGE_PAGE = true →
    e = entry (tr_mem ts) t i ∨ e = Z.lor (entry (tr_mem ts) t i) (parent_flags flags) →
    stops flags t i ts (tr_set_mem (set_entry t i e (tr_mem ts)) ts)
| stop_frames ts' : is_unused (entry (tr_mem ts) t i) = true → tracking_allocate_frame ts = (None, ts') → stops flags t i ts ts'.
(** From the table [t] of a level down to the table of level 1. *)
Inductive descends (flags va : Z) : nat → Z → Tracking → option Z → Tracking → Prop :=
| desc_leaf t ts : descends flags va 1 t ts (Some t) ts
| desc_next level t ts t' ts1 o ts2 : link flags t (pt_index (S (S level)) va) ts t' ts1 → descends flags va (S level) t' ts1 o ts2 →
    descends flags va (S (S level)) t ts o ts2
| desc_stop level t ts ts' : stops flags t (pt_index (S (S level)) va) ts ts' → descends flags va (S (S level)) t ts None ts'.

(** What the crate documents of [map_to]: the mapping is created in the page of
    the address unless that page is mapped already, parent tables being
    allocated as needed; otherwise an error is returned. *)
Class MapperSpec `{Mapper} : Prop :=
  map_to_spec : ∀ pml4 va frame flags ts, ∃ o ts1, descends flags va 4 pml4 ts o ts1 ∧
    map_to pml4 va frame flags ts =
      match o with
      | None => (None, ts1)
      | Some t =>
          if is_unused (entry (tr_mem ts1) t (pt_index 1 va))
          then (Some tt, tr_set_mem (set_entry t (pt_index 1 va) (Z.lor frame flags) (tr_mem ts1)) ts1) else (None, ts1)
      end.

(** The crate's algorithm, level by level. *)
Fixpoint walk_map (level : nat) (t va frame flags : Z) (ts : Tracking) : option unit * Tracking :=
  let i := pt_index level va in
  let e := entry (tr_mem ts) t i in
  match level with
  | S (S _ as level') =>
      if is_unused e then
        match tracking_allocate_frame ts with
        | (None, ts) => (None, ts)
        | (Some t', ts) => walk_map level' t' va frame flags (tr_set_mem (set_entry t i (Z.lor t' (parent_flags flags)) (tr_mem ts)) ts)
        end
      else
        let ts := tr_set_mem (set_entry t i (Z.lor e (parent_flags flags)) (tr_mem ts)) ts in
        if contains e HUGE_PAGE then (None, ts) else walk_map level' (e_addr e) va frame flags ts
  | _ => if is_unused e then (Some tt, tr_set_mem (set_entry t i (Z.lor frame flags) (tr_mem ts)) ts) else (None, ts)
  end.
Definition walk_map_to : Mapper := λ pml4 va frame flags ts, walk_map 4 pml4 va frame flags ts.

(** ** Mapping *)
Definition is_space (pml4 : Z) (s : AddressSpaceFrames) : bool := as_pml4 s =? pml4.
Definition space_of (pml4 : Z) (l : list AddressSpaceFrames) : option AddressSpaceFrames := List.find (is_space pml4) l.
(** [iter_mut().find(..)] and a change of what it finds *)
Fixpoint update_space (pml4 : Z) (f : AddressSpaceFrames → AddressSpaceFrames) (l : list AddressSpaceFrames) : list AddressSpaceFrames :=
  match l with
  | [] => []
  | s :: l => if is_space pml4 s then f s :: l else s :: update_space pml4 f l
  end.
Definition record_table_frames (pml4 : Z) (frames : list Z) (v : Vmm) : Vmm :=
  if (length frames =? 0)%nat then v else
  set_spaces (update_space pml4 (λ s, {| as_pml4 := as_pml4 s; as_tables := as_tables s ++ frames; as_leaves := as_leaves s;
    as_file_backed := as_file_backed s |}) (v_spaces v)) v.
Definition record_leaf_frame (pml4 frame : Z) (v : Vmm) : Vmm :=
  set_spaces (update_space pml4 (λ s, {| as_pml4 := as_pml4 s; as_tables := as_tables s; as_leaves := as_leaves s ++ [frame];
    as_file_backed := as_file_backed s |}) (v_spaces v)) v.
Definition record_file_backed_page (pml4 : Z) (v : Vmm) : Vmm :=
  set_spaces (update_space pml4 (λ s, {| as_pml4 := as_pml4 s; as_tables := as_tables s; as_leaves := as_leaves s;
    as_file_backed := saturating_add 64 (as_file_backed s) 1 |}) (v_spaces v)) v.

(** Entries of the boot table, copied without the user bit. *)
Definition copy_kernel_entry (src dst : Z) (m : Mem) (i : Z) : Mem :=
  if (i =? USER_IMAGE_PML4_INDEX) || (i =? USER_SHMEM_PML4_INDEX) then m else
  let e := entry m src i in
  set_entry dst i (if is_unused e then e else set_flags e (Z.land (e_flags e) (Z.lnot USER_ACCESSIBLE))) m.
Definition new_process_pml4 (v : Vmm) : option Z * Vmm :=
  match alloc_zeroed_frame v with
  | (None, v) => (None, v)
  | (Some f, v) =>
      let v := set_mem (fold_left (copy_kernel_entry (page_down (v_boot v)) f) (seqZ 0 512) (v_mem v)) v in
      (Some f, set_spaces (v_spaces v ++ [{| as_pml4 := f; as_tables := []; as_leaves := []; as_file_backed := 0 |}]) v)
  end.

Definition owned_leaf_pages (pml4 : Z) (v : Vmm) : Z :=
  match space_of pml4 (v_spaces v) with Some s => len (as_leaves s) | None => 0 end.
Definition can_add_owned_pages (pml4 additional : Z) (v : Vmm) : bool :=
  saturating_add 64 (owned_leaf_pages pml4 v) additional <=? MAX_USER_ADDRESS_SPACE_PAGES.

Section Mapping.
Context `{Mapper}.

Definition map_page_in (pml4 va frame flags : Z) : ST Vmm bytes unit := λ v,
  match v_alloc v with
  | None => (Err (str "frame allocator not initialized"), v)
  | Some a =>
      let (r, ts) := map_to pml4 va frame flags {| tr_mem := v_mem v; tr_inner := a; tr_allocated := [] |} in
      let v := set_mem (tr_mem ts) (set_alloc (Some (tr_inner ts)) v) in
      match r with
      | None => (Err (str "map_to failed"), v)
      | Some _ => (Ok tt, record_table_frames pml4 (tr_allocated ts) v)
      end
  end.
Definition map_owned_frame_in (pml4 va frame flags : Z) : ST Vmm bytes unit := λ v,
  if negb (can_add_owned_pages pml4 1 v) then (Err (str "address space resource limit"), v) else
  (map_page_in pml4 va frame flags ;;! (λ v, (Ok tt, record_leaf_frame pml4 frame v))) v.
Definition map_file_frame_in (pml4 va frame flags : Z) : ST Vmm bytes unit :=
  map_owned_frame_in pml4 va frame flags ;;! (λ v, (Ok tt, record_file_backed_page pml4 v)).

(** One turn of the loop of [map_region]. *)
Definition map_fresh_page (pml4 va flags : Z) : ST Vmm bytes unit := λ v,
  match alloc_zeroed_frame v with
  | (None, v) => (Err (str "out of frames"), v)
  | (Some f, v) =>
      match map_owned_frame_in pml4 va f flags v with
      | (Err e, v) => (Err e, free_unmapped_frame f v)
      | (Ok _, v) => (Ok tt, v)
      end
  end.
(** The offsets [0], [4096], ... below [len]. *)
Definition page_offsets (len : Z) : list Z := map (λ k, PAGE_SIZE * Z.of_nat k) (seq 0 (Z.to_nat ((len + (PAGE_SIZE - 1)) / PAGE_SIZE))).
Definition map_region (pml4 va len flags : Z) : ST Vmm bytes unit := λ v,
  if negb (can_add_owned_pages pml4 (saturating_add 64 len 4095 / 4096) v) then (Err (str "address space resource limit"), v) else
  for_each (λ offset, map_fresh_page pml4 (va + offset) flags) (page_offsets len) v.
End Mapping.

(** ** Permissions *)
Definition entry_allows (flags : Z) (writable : bool) : bool :=
  contains flags PRESENT && contains flags USER_ACCESSIBLE && (negb writable || contains flags WRITABLE).

Definition user_page_accessible_in (pml4 va : Z) (writable : bool) (m : Mem) : bool :=
  let l4 := entry m pml4 (pt_index 4 va) in
  if negb (entry_allows (e_flags l4) writable) then false else
  let l3 := entry m (e_addr l4) (pt_index 3 va) in
  if negb (entry_allows (e_flags l3) writable) then false else
  if contains (e_flags l3) HUGE_PAGE then true else
  let l2 := entry m (e_addr l3) (pt_index 2 va) in
  if negb (entry_allows (e_flags l2) writable) then false else
  if contains (e_flags l2) HUGE_PAGE then true else
  entry_allows (e_flags (entry m (e_addr l2) (pt_index 1 va))) writable.

(** The loop over pages; [None]: more than [fuel] of them. *)
Fixpoint range_loop (fuel : nat) (pml4 page_addr last : Z) (writable : bool) (m : Mem) : option bool :=
  match fuel with
  | O => None
  | S fuel =>
      if negb (user_page_accessible_in pml4 page_addr writable m) then Some false else
      if page_down last <=? page_addr then Some true else
      range_loop fuel pml4 (saturating_add 64 page_addr 4096) last writable m
  end.
(** A page more than the bytes fill. *)
Definition range_fuel (len : Z) : nat := Z.to_nat (len / PAGE_SIZE + 2).
Definition user_range_accessible_in (pml4 ptr len : Z) (writable : bool) (m : Mem) : option bool :=
  if (ptr =? 0) || (len =? 0) then Some false else
  match checked_add 64 ptr (len - 1) with
  | None => Some false
  | Some last => if USER_TOP <=? last then Some false else range_loop (range_fuel len) pml4 (page_down ptr) last writable m
  end.
Definition user_range_accessible (ptr len : Z) (writable : bool) (v : Vmm) : option bool :=
  user_range_accessible_in (v_cr3 v) ptr len writable (v_mem v).

Definition protect_page_in (pml4 va flags : Z) : ST Vmm bytes unit := λ v,
  let m := v_mem v in
  let l4 := entry m pml4 (pt_index 4 va) in
  if negb (entry_allows (e_flags l4) false) then (Err (str "missing user p4 entry"), v) else
  let l3 := entry m (e_addr l4) (pt_index 3 va) in
  if negb (entry_allows (e_flags l3) false) || contains (e_flags l3) HUGE_PAGE then (Err (str "missing user p3 entry"), v) else
  let l2 := entry m (e_addr l3) (pt_index 2 va) in
  if negb (entry_allows (e_flags l2) false) || contains (e_flags l2) HUGE_PAGE then (Err (str "missing user p2 entry"), v) else
  let l1 := entry m (e_addr l2) (pt_index 1 va) in
  if negb (entry_allows (e_flags l1) false) then (Err (str "missing user p1 entry"), v) else
  (Ok tt, set_mem (set_entry (e_addr l2) (pt_index 1 va) (set_flags l1 flags) m) v).
Definition protect_region (pml4 va len flags : Z) : ST Vmm bytes unit := λ v,
  if negb (Z.land va 0xfff =? 0) || (len =? 0) || negb (Z.land len 0xfff =? 0) then (Err (str "protection range is not page aligned"), v) else
  match checked_add 64 va len with
  | None => (Err (str "range overflow"), v)
  | Some _ => for_each (λ offset, protect_page_in pml4 (va + offset) flags) (page_offsets len) v
  end.

(** ** Freeing and switching *)
Definition current_pml4 (v : Vmm) : Z := v_cr3 v.
(** [Vec::swap_remove] *)
Definition swap_remove {A} (i : nat) (l : list A) : list A :=
  match last l with Some x => take (length l - 1) (<[i := x]> l) | None => l end.
Definition free_address_space (pml4 : Z) (v : Vmm) : Vmm :=
  if pml4 =? current_pml4 v then v else
  match position (is_space pml4) (v_spaces v) with
  | None => v
  | Some i =>
      match v_spaces v !! i with
      | None => v
      | Some s =>
          let v := set_spaces (swap_remove i (v_spaces v)) v in
          let v := fold_left (λ v f, free_unmapped_frame f v) (as_leaves s) v in
          let v := fold_left (λ v f, free_unmapped_frame f v) (as_tables s) v in
          free_unmapped_frame (as_pml4 s) v
      end
  end.
Definition switch_to (pml4 : Z) (v : Vmm) : Vmm := set_cr3 pml4 v.
Definition switch_to_boot (v : Vmm) : Vmm := switch_to (page_down (v_boot v)) v.

Definition resource_stats (v : Vmm) : VmmResourceStats :=
  let add := saturating_add 64 in
  fold_left (λ r s, {| vs_spaces := vs_spaces r; vs_table_pages := add (vs_table_pages r) (len (as_tables s));
                       vs_leaf_pages := add (vs_leaf_pages r) (len (as_leaves s)); vs_file_pages := add (vs_file_pages r) (as_file_backed s) |})
    (v_spaces v) {| vs_spaces := len (v_spaces v); vs_table_pages := 0; vs_leaf_pages := 0; vs_file_pages := 0 |}.

(** ** The boot table *)
Fixpoint clear_user_accessible_recursive (level : nat) (t : Z) (m : Mem) : Mem :=
  match level with
  | O => m
  | S level' =>
      fold_left (λ m i,
        let e := entry m t i in
        if is_unused e || negb (contains (e_flags e) PRESENT) then m else
        let m := set_entry t i (set_flags e (Z.land (e_flags e) (Z.lnot USER_ACCESSIBLE))) m in
        if (level <=? 1)%nat || contains (e_flags e) HUGE_PAGE then m
        else clear_user_accessible_recursive level' (e_addr e) m) (seqZ 0 512) m
  end.
Definition harden_boot_mappings (v : Vmm) : Vmm :=
  set_mem (clear_user_accessible_recursive 4 (page_down (v_boot v)) (v_mem v)) v.
