(* ===== verification/VmmMem.v ===== *)
(** * Entries and translations

    Entries read back as written; their flags are bits.  [user_access] is the
    translation of a user access by the hardware; the check the kernel makes
    before it touches user memory agrees with it byte for byte. *)
From stdpp Require Import functions.
From S2P Require Import Prelude UserLayout FrameAlloc Vmm.

Local Open Scope Z_scope.

(** ** Frames and entries *)
Definition page_ok (b : bytes) : Prop := len b = PAGE_SIZE ∧ Forall is_byte b.
Definition index_ok (i : Z) : Prop := 0 ≤ i < 512.
Definition entry_ok (e : Z) : Prop := 0 ≤ e < 2 ^ 64.

Lemma zeros_page_ok : page_ok (zeros PAGE_SIZE).
Proof. split; [by apply len_zeros|apply zeros_is_byte]. Qed.
Lemma set_entry_page_ok m f i e g : (∀ h, page_ok (m h)) → index_ok i → page_ok (set_entry f i e m g).
Proof.
  intros Hm Hi. unfold set_entry. destruct (decide (g = f)) as [->|]; [rewrite fn_lookup_insert|by rewrite fn_lookup_insert_ne].
  destruct (Hm f) as [HL HB]. unfold page_ok, index_ok, PAGE_SIZE in *. split; [|auto with cool].
  rewrite len_splice; [done|lia|]. unfold len in *. rewrite length_le_bytes. lia.
Qed.
Lemma zero_frame_page_ok m f g : (∀ h, page_ok (m h)) → page_ok (zero_frame f m g).
Proof. intros Hm. unfold zero_frame. destruct (decide (g = f)) as [->|]; [rewrite fn_lookup_insert; apply zeros_page_ok|by rewrite fn_lookup_insert_ne]. Qed.

Lemma entry_bound m f i : page_ok (m f) → index_ok i → entry_ok (entry m f i).
Proof.
  intros [HL HB] Hi. unfold entry, entry_ok, index_ok, PAGE_SIZE in *.
  pose proof (le_val_bound (slice (m f) (8 * i) 8) (slice_is_byte _ _ _ HB)) as H. rewrite len_slice in H by lia. exact H.
Qed.

Lemma entry_set_eq m f i e : page_ok (m f) → index_ok i → entry_ok e → entry (set_entry f i e m) f i = e.
Proof.
  intros [HL _] Hi He. unfold entry, set_entry, index_ok, entry_ok, PAGE_SIZE in *. rewrite fn_lookup_insert.
  rewrite slice_splice_eq; [by apply le_val_le_bytes|unfold len; by rewrite length_le_bytes|lia|unfold len in *; rewrite length_le_bytes; lia].
Qed.
Lemma entry_set_ne m f i e g j : page_ok (m f) → index_ok i → index_ok j → (g, j) ≠ (f, i) → entry (set_entry f i e m) g j = entry m g j.
Proof.
  intros [HL _] Hi Hj Hne. unfold entry, set_entry, index_ok, PAGE_SIZE in *. destruct (decide (g = f)) as [->|]; [|by rewrite fn_lookup_insert_ne].
  rewrite fn_lookup_insert. assert (j ≠ i) by congruence. f_equal. apply slice_splice_ne; unfold len in *; rewrite ?length_le_bytes; lia.
Qed.
Lemma le_val_zeros n : le_val (replicate n 0) = 0.
Proof. induction n as [|n IH]; [done|]. change (0 + 256 * le_val (replicate n 0) = 0). by rewrite IH. Qed.
Lemma entry_zeroed m f i : entry (zero_frame f m) f i = 0.
Proof. unfold entry, zero_frame. rewrite fn_lookup_insert. unfold slice, zeros. rewrite drop_replicate, take_replicate. apply le_val_zeros. Qed.
Lemma entry_other m f g i : g ≠ f → entry (zero_frame f m) g i = entry m g i.
Proof. intros. unfold entry, zero_frame. by rewrite fn_lookup_insert_ne. Qed.
Lemma pt_index_ok level va : index_ok (pt_index level va).
Proof.
  unfold pt_index, index_ok. change 0x1ff with (Z.ones 9). rewrite Z.land_ones by lia. apply Z.mod_pos_bound. lia.
Qed.

(** ** Flags *)
Lemma contains_bit e k : 0 ≤ k → contains e (2 ^ k) = Z.testbit e k.
Proof.
  intros Hk. unfold contains. destruct (Z.testbit e k) eqn:E.
  - apply Z.eqb_eq, Z.bits_inj'. intros n Hn. rewrite Z.land_spec, Z.pow2_bits_eqb by done. destruct (Z.eqb_spec k n) as [->|]; [by rewrite E|by rewrite andb_false_r].
  - apply Z.eqb_neq. intros H%(f_equal (λ x, Z.testbit x k)). by rewrite Z.land_spec, Z.pow2_bits_true, E in H.
Qed.
Lemma flag_mask : 2 ^ 64 - 1 - ADDR_MASK = Z.ldiff (Z.ones 64) ADDR_MASK.
Proof. reflexivity. Qed.
Lemma e_flags_bit e k : 0 ≤ k < 64 → Z.testbit ADDR_MASK k = false → Z.testbit (e_flags e) k = Z.testbit e k.
Proof.
  intros Hk Ha. unfold e_flags. rewrite flag_mask, Z.land_spec, Z.ldiff_spec, Ha, Z.ones_spec_low by lia. by rewrite andb_true_r.
Qed.
Lemma entry_allows_bits e w : entry_allows (e_flags e) w = Z.testbit e 0 && Z.testbit e 2 && (negb w || Z.testbit e 1).
Proof.
  unfold entry_allows. change PRESENT with (2 ^ 0). change USER_ACCESSIBLE with (2 ^ 2). change WRITABLE with (2 ^ 1).
  rewrite !contains_bit by lia. by rewrite !e_flags_bit by done.
Qed.
Lemma huge_bit e : contains (e_flags e) HUGE_PAGE = Z.testbit e 7.
Proof. change HUGE_PAGE with (2 ^ 7). by rewrite contains_bit, e_flags_bit by done. Qed.
Lemma huge_bit' e : contains e HUGE_PAGE = Z.testbit e 7.
Proof. change HUGE_PAGE with (2 ^ 7). by rewrite contains_bit. Qed.

(** Frames have the bits of an address only; flags have none of them, say
    present, and ask for no huge page. *)
Definition frame_ok (f : Z) : Prop := Z.land f ADDR_MASK = f.
Definition flags_ok (fl : Z) : Prop := Z.land fl ADDR_MASK = 0 ∧ 0 ≤ fl < 2 ^ 64 ∧ Z.testbit fl 7 = false ∧ Z.testbit fl 0 = true.

Lemma frame_ok_bound f : frame_ok f → 0 ≤ f < 2 ^ 52.
Proof.
  unfold frame_ok. intros H. assert (E : f = Z.land f (Z.ones 52)).
  { rewrite <-H at 1. rewrite <-H at 2. rewrite <-Z.land_assoc. f_equal. }
  rewrite E, Z.land_ones by lia. apply Z.mod_pos_bound. lia.
Qed.
Lemma frame_ok_aligned f : frame_ok f → f mod PAGE_SIZE = 0.
Proof.
  unfold frame_ok. intros H. change PAGE_SIZE with (2 ^ 12). rewrite <-Z.land_ones, <-H, <-Z.land_assoc by lia. apply Z.land_0_r.
Qed.
Lemma lor_bound a b : 0 ≤ a < 2 ^ 64 → 0 ≤ b < 2 ^ 64 → 0 ≤ Z.lor a b < 2 ^ 64.
Proof.
  intros Ha Hb. assert (0 ≤ Z.lor a b) by (apply Z.lor_nonneg; lia). split; [done|].
  destruct (decide (Z.lor a b = 0)) as [->|]; [lia|]. apply Z.log2_lt_pow2; [lia|]. rewrite Z.log2_lor by lia.
  apply Z.max_lub_lt; (destruct (decide (0 < a)), (decide (0 < b)); try (apply Z.log2_lt_pow2; lia)); rewrite Z.log2_nonpos; lia.
Qed.
Lemma e_addr_ok e : frame_ok (e_addr e).
Proof. unfold frame_ok, e_addr. by rewrite <-Z.land_assoc, Z.land_diag. Qed.
Lemma e_addr_lor e fl : Z.land fl ADDR_MASK = 0 → e_addr (Z.lor e fl) = e_addr e.
Proof. intros H. unfold e_addr. by rewrite Z.land_lor_distr_l, H, Z.lor_0_r. Qed.
Lemma e_addr_frame f fl : frame_ok f → Z.land fl ADDR_MASK = 0 → e_addr (Z.lor f fl) = f.
Proof. intros Hf H. by rewrite e_addr_lor. Qed.
Lemma frame_bit f k : frame_ok f → Z.testbit ADDR_MASK k = false → Z.testbit f k = false.
Proof. unfold frame_ok. intros <- H. by rewrite Z.land_spec, H, andb_false_r. Qed.
Lemma lor_frame_bit f fl k : frame_ok f → Z.testbit ADDR_MASK k = false → Z.testbit (Z.lor f fl) k = Z.testbit fl k.
Proof. intros Hf Hk. by rewrite Z.lor_spec, (frame_bit f k Hf Hk). Qed.
Lemma e_flags_frame f fl : frame_ok f → Z.land fl ADDR_MASK = 0 → 0 ≤ fl < 2 ^ 64 → e_flags (Z.lor f fl) = fl.
Proof.
  intros Hf Hfl Hb. unfold e_flags. rewrite flag_mask. apply Z.bits_inj'. intros k Hk. rewrite Z.land_spec, Z.lor_spec, Z.ldiff_spec.
  pose proof (f_equal (λ x, Z.testbit x k) Hf) as Ef. pose proof (f_equal (λ x, Z.testbit x k) Hfl) as Efl. cbn beta in *. rewrite Z.land_spec in Ef, Efl. rewrite Z.bits_0 in Efl.
  destruct (decide (k < 64)).
  - rewrite Z.ones_spec_low by lia. destruct (Z.testbit f k), (Z.testbit fl k), (Z.testbit ADDR_MASK k); done.
  - rewrite Z.ones_spec_high by lia. rewrite andb_false_l, andb_false_r. symmetry. apply Z.bits_above_log2; [lia|].
    destruct (decide (fl = 0)) as [->|]; [simpl; lia|]. assert (Z.log2 fl < 64); [|lia]. apply Z.log2_lt_pow2; lia.
Qed.
Lemma parent_flags_bit fl k : 0 ≤ k → Z.testbit (parent_flags fl) k = Z.testbit fl k && (k <? 3).
Proof.
  intros Hk. unfold parent_flags. change (Z.lor PRESENT (Z.lor WRITABLE USER_ACCESSIBLE)) with (Z.ones 3). rewrite Z.land_spec. f_equal.
  destruct (Z.ltb_spec k 3); [by rewrite Z.ones_spec_low by lia|by rewrite Z.ones_spec_high by lia].
Qed.
Lemma parent_flags_ok fl : Z.land (parent_flags fl) ADDR_MASK = 0 ∧ 0 ≤ parent_flags fl < 2 ^ 64.
Proof.
  split.
  - unfold parent_flags. rewrite <-Z.land_assoc. change (Z.land (Z.lor PRESENT _) ADDR_MASK) with 0. apply Z.land_0_r.
  - unfold parent_flags. change (Z.lor PRESENT (Z.lor WRITABLE USER_ACCESSIBLE)) with (Z.ones 3). rewrite Z.land_ones by lia.
    pose proof (Z.mod_pos_bound fl (2 ^ 3) ltac:(lia)). lia.
Qed.

(** ** The hardware's translation of a user access *)
Definition permits (e : Z) (writable : bool) : bool := Z.testbit e 0 && Z.testbit e 2 && (negb writable || Z.testbit e 1).
(** The physical address of a byte, 1 GiB and 2 MiB pages included. *)
Definition user_access (pml4 va : Z) (writable : bool) (m : Mem) : option Z :=
  let l4 := entry m pml4 (pt_index 4 va) in
  if negb (permits l4 writable) then None else
  let l3 := entry m (e_addr l4) (pt_index 3 va) in
  if negb (permits l3 writable) then None else
  if Z.testbit l3 7 then Some (Z.land l3 0xfffffc0000000 + va mod 2 ^ 30) else
  let l2 := entry m (e_addr l3) (pt_index 2 va) in
  if negb (permits l2 writable) then None else
  if Z.testbit l2 7 then Some (Z.land l2 0xfffffffe00000 + va mod 2 ^ 21) else
  let l1 := entry m (e_addr l2) (pt_index 1 va) in
  if negb (permits l1 writable) then None else Some (e_addr l1 + va mod PAGE_SIZE).

Lemma accessible_access pml4 va w m : user_page_accessible_in pml4 va w m = true ↔ is_Some (user_access pml4 va w m).
Proof.
  unfold user_page_accessible_in, user_access. rewrite !entry_allows_bits, !huge_bit. unfold permits.
  assert (Hno : false = true ↔ is_Some (@None Z)) by (split; [done|by intros [? [=]]]).
  assert (Hyes : ∀ x : Z, true = true ↔ is_Some (Some x)) by (split; eauto).
  case_if; [apply Hno|]. case_if; [apply Hno|]. case_if; [apply Hyes|]. case_if; [apply Hno|]. case_if; [apply Hyes|].
  match goal with |- context [if negb ?b then _ else _] => destruct b end; [apply Hyes|apply Hno].
Qed.

Lemma pt_index_page level va : (1 ≤ level)%nat → pt_index level (page_down va) = pt_index level va.
Proof.
  intros Hl. unfold pt_index. f_equal. rewrite !Z.shiftr_div_pow2 by lia. rewrite Z.pow_add_r by lia.
  rewrite <-!Z.div_div by lia. f_equal. unfold page_down, PAGE_SIZE. change (2 ^ 12) with 4096.
  pose proof (Z.div_mod va 4096 ltac:(lia)). replace (va - va mod 4096) with (va / 4096 * 4096) by lia. apply Z.div_mul. lia.
Qed.
Lemma accessible_page pml4 va w m : user_page_accessible_in pml4 (page_down va) w m = user_page_accessible_in pml4 va w m.
Proof. unfold user_page_accessible_in. by rewrite !pt_index_page by lia. Qed.

Lemma page_down_bounds a : page_down a ≤ a < page_down a + PAGE_SIZE ∧ page_down a mod PAGE_SIZE = 0.
Proof.
  unfold page_down, PAGE_SIZE. pose proof (Z.mod_pos_bound a 4096 ltac:(lia)). split; [lia|].
  rewrite Zminus_mod, Z.mod_mod, Z.sub_diag by lia. done.
Qed.
(** A page address has no page between itself and the next one. *)
Lemma page_down_unique p a : p mod PAGE_SIZE = 0 → p ≤ a < p + PAGE_SIZE → page_down a = p.
Proof.
  unfold page_down, PAGE_SIZE. intros Hp Ha. pose proof (Z.div_mod p 4096 ltac:(lia)).
  rewrite (Z.mod_eq a 4096) by lia. replace (a / 4096) with (p / 4096); [lia|]. apply Z.div_unique with (a - p); lia.
Qed.

(** The pages that [page_offsets] names. *)
Lemma land_aligned a : Z.land a 0xfff = 0 ↔ a mod PAGE_SIZE = 0.
Proof. change 0xfff with (Z.ones 12). by rewrite Z.land_ones. Qed.
Lemma page_down_aligned a : a mod PAGE_SIZE = 0 → page_down a = a.
Proof. unfold page_down. lia. Qed.
Lemma elem_of_page_offsets n o : 0 ≤ n → o ∈ page_offsets n ↔ 0 ≤ o < n ∧ o mod PAGE_SIZE = 0.
Proof.
  intros Hn. unfold page_offsets, PAGE_SIZE. change (4096 - 1) with 4095. rewrite list_elem_of_fmap. setoid_rewrite elem_of_seq.
  pose proof (Z.div_mod (n + 4095) 4096 ltac:(lia)). pose proof (Z.mod_pos_bound (n + 4095) 4096 ltac:(lia)). split.
  - intros (k & -> & Hk). rewrite Z.mul_comm, Z_mod_mult. split; [|done]. lia.
  - intros [Ho Hm]. exists (Z.to_nat (o / 4096)). pose proof (Z.div_mod o 4096 ltac:(lia)). split; [lia|]. lia.
Qed.
Lemma page_offsets_nodup n : NoDup (page_offsets n).
Proof. unfold page_offsets, PAGE_SIZE. apply NoDup_fmap_2; [|apply NoDup_seq]. intros x y. lia. Qed.
Lemma page_in_offsets va n a : va mod PAGE_SIZE = 0 → 0 ≤ n → n mod PAGE_SIZE = 0 →
  page_down a ∈ map (λ o, va + o) (page_offsets n) ↔ va ≤ a < va + n.
Proof.
  intros Hva Hn Hnm. pose proof (page_down_bounds a) as [Hb Hm]. rewrite list_elem_of_fmap. setoid_rewrite elem_of_page_offsets; [|done]. unfold PAGE_SIZE in *. split.
  - intros (o & E & Ho & Hom). split; [lia|]. assert (o + 4096 ≤ n); [|lia]. clear -Ho Hom Hnm. Z.div_mod_to_equations. lia.
  - intros Ha. exists (page_down a - va). split; [lia|]. assert (Hx : (page_down a - va) mod 4096 = 0) by (rewrite Zminus_mod, Hm, Hva; done).
    split; [|done]. split; [|lia]. clear -Ha Hb Hva Hm. Z.div_mod_to_equations. lia.
Qed.

Lemma land_lnot_page a : Z.land a (Z.lnot 4095) = page_down a.
Proof.
  unfold page_down, PAGE_SIZE. change 4095 with (Z.ones 12). rewrite <-Z.ldiff_land, Z.ldiff_ones_r, Z.shiftl_mul_pow2, Z.shiftr_div_pow2 by lia.
  change (2 ^ 12) with 4096. rewrite (Z.mod_eq a 4096) by lia. lia.
Qed.

Lemma range_loop_exact m pml4 w last fuel : ∀ p, p mod PAGE_SIZE = 0 → 0 ≤ p ≤ last → last < USER_TOP → last - p < PAGE_SIZE * Z.of_nat fuel →
  ∃ b, range_loop fuel pml4 p last w m = Some b ∧ (b = true ↔ ∀ a, p ≤ a ≤ last → user_page_accessible_in pml4 a w m = true).
Proof.
  unfold USER_TOP. induction fuel as [|fuel IH]; intros p Hp Hpl Hl Hf; [lia|]. cbn [range_loop].
  destruct (user_page_accessible_in pml4 p w m) eqn:E; simpl.
  - assert (Hin : ∀ a, p ≤ a < p + PAGE_SIZE → user_page_accessible_in pml4 a w m = true).
    { intros a Ha. by rewrite <-accessible_page, (page_down_unique p a Hp Ha). }
    pose proof (page_down_bounds last) as [HB _]. destruct (Z.leb_spec (page_down last) p).
    + exists true. split; [done|]. split; [|done]. intros _ a Ha. apply Hin. lia.
    + assert (p + PAGE_SIZE ≤ last).
      { destruct (decide (p + PAGE_SIZE ≤ last)); [done|]. rewrite (page_down_unique p last) in * by (done || lia). lia. }
      unfold saturating_add. change 4096 with PAGE_SIZE. rewrite Z.min_l by (unfold PAGE_SIZE in *; lia).
      destruct (IH (p + PAGE_SIZE)) as (b & Hb & Hiff); [|lia|done|unfold PAGE_SIZE in *; lia|].
      { unfold PAGE_SIZE in *. rewrite <-Zplus_mod_idemp_r, Z.mod_same, Z.add_0_r by lia. done. }
      exists b. split; [done|]. rewrite Hiff. split; intros H' a Ha; [|apply H'; unfold PAGE_SIZE in *; lia].
      destruct (decide (a < p + PAGE_SIZE)); [apply Hin; lia|apply H'; lia].
  - exists false. split; [done|]. split; [done|]. intros H. rewrite H in E; [done|lia].
Qed.

(** The kernel's check ends on every pointer and length, and succeeds exactly when
    the range is not empty, begins above 0, ends within user space, and the hardware
    lets user code read (or write) every byte of it. *)
Lemma user_range_exact pml4 ptr n w m : 0 ≤ ptr < 2 ^ 64 → 0 ≤ n < 2 ^ 64 →
  ∃ b, user_range_accessible_in pml4 ptr n w m = Some b ∧
    (b = true ↔ 0 < ptr ∧ 0 < n ∧ ptr + n ≤ USER_TOP ∧ ∀ a, ptr ≤ a < ptr + n → is_Some (user_access pml4 a w m)).
Proof.
  intros Hp Hn. unfold user_range_accessible_in. destruct (Z.eqb_spec ptr 0); [exists false; split; [done|]; split; [done|lia]|].
  destruct (Z.eqb_spec n 0); simpl; [exists false; split; [done|]; split; [done|lia]|]. unfold checked_add.
  destruct (Z.ltb_spec (ptr + (n - 1)) (2 ^ 64)); [|exists false; split; [done|]; split; [done|unfold USER_TOP; lia]].
  destruct (Z.leb_spec USER_TOP (ptr + (n - 1))); [exists false; split; [done|]; split; [done|lia]|].
  pose proof (page_down_bounds ptr) as [HB HM]. pose proof (Z.mod_pos_bound ptr PAGE_SIZE ltac:(done)).
  destruct (range_loop_exact m pml4 w (ptr + (n - 1)) (range_fuel n) (page_down ptr)) as (b & Hb & Hiff); [done| |done| |].
  - split; [|lia]. unfold page_down. pose proof (Z.mod_le ptr PAGE_SIZE ltac:(lia) ltac:(done)). lia.
  - unfold range_fuel, PAGE_SIZE in *. rewrite Z2Nat.id by (pose proof (Z.div_pos n 4096); lia).
    pose proof (Z.div_mod n 4096 ltac:(lia)). pose proof (Z.mod_pos_bound n 4096 ltac:(lia)). lia.
  - exists b. split; [done|]. rewrite Hiff. split.
    + intros Ha. split_and!; [lia..|]. intros a Hr. apply accessible_access, Ha. lia.
    + intros (_ & _ & _ & Ha) a Hr. rewrite <-accessible_page. destruct (decide (ptr ≤ a)); [rewrite accessible_page; apply accessible_access, Ha; lia|].
      rewrite (page_down_unique (page_down ptr) a) by (done || lia). rewrite accessible_page. apply accessible_access, Ha. lia.
Qed.
