(* ===== verification/VmmInv.v ===== *)
(** * Ownership of frames and page tables

    [vmm_ok]: every frame the allocator manages is in one place only: available,
    owned by one address space as root, table or leaf, held by the kernel, or lost
    (a table that a failed mapping left behind).  Each address space's user part is
    a tree of its own tables whose leaves are its own frames, each mapped once, or
    frames the kernel holds; its other roots are closed to user code. *)
From stdpp Require Import gmap functions.
From S2P Require Import Prelude UserLayout FrameAlloc Vmm VmmMem.
Set Warnings "-clear-no-such-hyp".

Local Open Scope Z_scope.

Definition user_root (i : Z) : Prop := i = USER_IMAGE_PML4_INDEX ∨ i = USER_SHMEM_PML4_INDEX.
#[export] Instance user_root_dec i : Decision (user_root i) := or_dec _ _.

(** Images, stacks and mappings lie below the first of them. *)
Lemma image_root a : 0x7f8000000000 ≤ a < 0x800000000000 → user_root (pt_index 4 a) ∧ 0 ≤ a < 2 ^ 48.
Proof.
  intros Ha. split; [|lia]. left. unfold pt_index. rewrite Z.shiftr_div_pow2 by lia. change (2 ^ (12 + 9 * (Z.of_nat 4 - 1))) with 549755813888.
  replace (a / 549755813888) with 255; [by vm_compute|]. apply Z.div_unique with (a - 255 * 549755813888); lia.
Qed.

(** All frames there are, and a property of the flags of all leaf entries. *)
Record consts := { c_all : list Z; c_perm : Z → Prop }.
(** Which frames are page tables, of which address space and level; the tables
    lost, the frames held by the kernel, and what does not change. *)
Record ghost := { g_own : gmap Z (Z * nat); g_lost : list Z; g_held : list Z; g_env : consts }.
Definition g_all (g : ghost) : list Z := c_all (g_env g).
Definition g_perm (g : ghost) : Z → Prop := c_perm (g_env g).
Definition set_held (h : list Z) (g : ghost) : ghost := {| g_own := g_own g; g_lost := g_lost g; g_held := h; g_env := g_env g |}.
Definition holding (f : Z) (g : ghost) : ghost := set_held (f :: g_held g) g.

Definition space_frames (s : AddressSpaceFrames) : list Z := as_pml4 s :: as_tables s ++ as_leaves s.
Definition all_frames (v : Vmm) (g : ghost) : list Z :=
  from_option available [] (v_alloc v) ++ mjoin (map space_frames (v_spaces v)) ++ g_held g ++ g_lost g ++ [page_down (v_boot v)].

(** The entry [i] of the page table [t] leads to [f]; of a root, the user entries. *)
Definition points (own : gmap Z (Z * nat)) (m : Mem) (t i f : Z) : Prop :=
  (∃ p k, own !! t = Some (p, k) ∧ (k = 4%nat → user_root i)) ∧ index_ok i ∧ entry m t i ≠ 0 ∧ e_addr (entry m t i) = f.

Record vmm_ok (v : Vmm) (g : ghost) : Prop := {
  vo_init : is_Some (v_alloc v);
  vo_all : all_frames v g ≡ₚ g_all g;
  vo_nodup : NoDup (g_all g);
  vo_frames : Forall frame_ok (g_all g);
  vo_mem : ∀ f, page_ok (v_mem v f);
  vo_root : ∀ s, s ∈ v_spaces v → g_own g !! as_pml4 s = Some (as_pml4 s, 4%nat);
  vo_own : ∀ f p k, g_own g !! f = Some (p, k) → ∃ s, s ∈ v_spaces v ∧ as_pml4 s = p ∧
    ((f = p ∧ k = 4%nat) ∨ (f ∈ as_tables s ∨ f ∈ g_lost g) ∧ (1 ≤ k ≤ 3)%nat);
  vo_next : ∀ t p k i, g_own g !! t = Some (p, S (S k)) → index_ok i → (k = 2%nat → user_root i) → entry (v_mem v) t i ≠ 0 →
    g_own g !! e_addr (entry (v_mem v) t i) = Some (p, S k) ∧ Z.testbit (entry (v_mem v) t i) 7 = false;
  vo_leaf : ∀ t p i s, g_own g !! t = Some (p, 1%nat) → index_ok i → entry (v_mem v) t i ≠ 0 → s ∈ v_spaces v → as_pml4 s = p →
    e_addr (entry (v_mem v) t i) ∈ as_leaves s ∨ e_addr (entry (v_mem v) t i) ∈ g_held g;
  vo_perm : ∀ t p i, g_own g !! t = Some (p, 1%nat) → index_ok i → entry (v_mem v) t i ≠ 0 → g_perm g (e_flags (entry (v_mem v) t i));
  vo_tree : ∀ t i t' i' f, points (g_own g) (v_mem v) t i f → points (g_own g) (v_mem v) t' i' f → f ∉ g_held g → t = t' ∧ i = i';
  vo_kernel : ∀ s i, s ∈ v_spaces v → index_ok i → ¬ user_root i → Z.testbit (entry (v_mem v) (as_pml4 s) i) 2 = false }.

(** ** Where a frame is *)
Inductive place := Avail | Root (p : Z) | Table (p : Z) | Leaf (p : Z) | Held | Lost | Boot.
Definition space_places (s : AddressSpaceFrames) : list (Z * place) :=
  (as_pml4 s, Root (as_pml4 s)) :: map (λ f, (f, Table (as_pml4 s))) (as_tables s) ++ map (λ f, (f, Leaf (as_pml4 s))) (as_leaves s).
Definition places (v : Vmm) (g : ghost) : list (Z * place) :=
  map (λ f, (f, Avail)) (from_option available [] (v_alloc v)) ++ mjoin (map space_places (v_spaces v)) ++
  map (λ f, (f, Held)) (g_held g) ++ map (λ f, (f, Lost)) (g_lost g) ++ [(page_down (v_boot v), Boot)].
Definition is_at (v : Vmm) (g : ghost) (f : Z) (x : place) : Prop := (f, x) ∈ places v g.

Lemma map_fst_tag {A} (x : A) (l : list Z) : map fst (map (λ f, (f, x)) l) = l.
Proof. rewrite map_map. apply map_id. Qed.
Lemma mjoin_map_cons {A B} (h : A → list B) a l : mjoin (map h (a :: l)) = h a ++ mjoin (map h l).
Proof. done. Qed.
Lemma places_frames v g : map fst (places v g) = all_frames v g.
Proof.
  unfold places, all_frames. rewrite !map_app, !map_fst_tag. do 2 f_equal. induction (v_spaces v) as [|s l IH]; [done|].
  rewrite !mjoin_map_cons, map_app, IH. f_equal. unfold space_places, space_frames. cbn [map fst]. by rewrite map_app, !map_fst_tag.
Qed.

Lemma is_at_unique v g f x y : vmm_ok v g → is_at v g f x → is_at v g f y → x = y.
Proof.
  intros H. pose proof (vo_nodup _ _ H) as N. rewrite <-(vo_all _ _ H), <-places_frames in N. unfold is_at. revert N. generalize (places v g) as l.
  induction l as [|[f' x'] l IH]; [by intros _ ?%elem_of_nil|]. cbn [map fst]. intros [Hn N]%NoDup_cons.
  rewrite !elem_of_cons. intros [Hx|Hx] [Hy|Hy]; simplify_eq; [done|destruct Hn..|by apply IH]; apply list_elem_of_fmap; by eexists (_, _).
Qed.

Lemma elem_of_mjoin_map {A B} (h : A → list B) (l : list A) x : x ∈ mjoin (map h l) ↔ ∃ a, a ∈ l ∧ x ∈ h a.
Proof.
  rewrite list_elem_of_join. split.
  - intros (k & Hx & (a & -> & Ha)%list_elem_of_fmap). eauto.
  - intros (a & Ha & Hx). exists (h a). split; [done|]. apply list_elem_of_fmap. eauto.
Qed.
Lemma is_at_spec v g f x : is_at v g f x ↔
  match x with
  | Avail => f ∈ from_option available [] (v_alloc v)
  | Root p => ∃ s, s ∈ v_spaces v ∧ as_pml4 s = p ∧ f = p
  | Table p => ∃ s, s ∈ v_spaces v ∧ as_pml4 s = p ∧ f ∈ as_tables s
  | Leaf p => ∃ s, s ∈ v_spaces v ∧ as_pml4 s = p ∧ f ∈ as_leaves s
  | Held => f ∈ g_held g
  | Lost => f ∈ g_lost g
  | Boot => f = page_down (v_boot v)
  end.
Proof.
  unfold is_at, places. rewrite !elem_of_app, elem_of_mjoin_map. unfold space_places.
  setoid_rewrite elem_of_cons. setoid_rewrite elem_of_app. setoid_rewrite list_elem_of_fmap. rewrite elem_of_nil.
  destruct x; naive_solver.
Qed.

(** A page table belongs to its address space or is lost. *)
Lemma own_at v g f p k : vmm_ok v g → g_own g !! f = Some (p, k) → is_at v g f (Root p) ∨ is_at v g f (Table p) ∨ is_at v g f Lost.
Proof.
  intros H Hf. rewrite !is_at_spec. destruct (vo_own _ _ H f p k Hf) as (s & Hs & Hp & [[-> _]|[[?|?] _]]); eauto 6.
Qed.
Lemma own_apart v g f p k x : vmm_ok v g → g_own g !! f = Some (p, k) → is_at v g f x → x = Root p ∨ x = Table p ∨ x = Lost.
Proof. intros H Hf Hx. destruct (own_at _ _ _ _ _ H Hf) as [Hy|[Hy|Hy]]; pose proof (is_at_unique _ _ _ _ _ H Hx Hy); auto. Qed.

Lemma space_unique v g s s' : vmm_ok v g → s ∈ v_spaces v → s' ∈ v_spaces v → as_pml4 s = as_pml4 s' → s = s'.
Proof.
  intros H. pose proof (vo_nodup _ _ H) as N. rewrite <-(vo_all _ _ H) in N. unfold all_frames in N. apply NoDup_app in N as (_ & _ & N). apply NoDup_app in N as (N & _ & _).
  revert N. induction (v_spaces v) as [|x l IH]; [by intros _ ?%elem_of_nil|].
  rewrite mjoin_map_cons. intros (_ & Hd & N)%NoDup_app.
  assert (Hx : ∀ y, y ∈ l → as_pml4 x ≠ as_pml4 y).
  { intros y Hy E. apply (Hd (as_pml4 x)); [left|]. apply elem_of_mjoin_map. exists y. split; [done|]. rewrite E. left. }
  intros [->|Hs]%elem_of_cons [->|Hs']%elem_of_cons E; [done|by destruct (Hx _ Hs')|by destruct (Hx _ Hs)|by apply IH].
Qed.

(** ** Steps that move no page table *)
Lemma own_not_held v g f : vmm_ok v g → f ∈ g_held g ∨ f ∈ from_option available [] (v_alloc v) → g_own g !! f = None.
Proof.
  intros H Hf. destruct (g_own g !! f) as [[p k]|] eqn:E; [|done]. destruct Hf as [Hf|Hf].
  - destruct (own_apart v g f p k Held H E) as [?|[?|?]]; [by apply is_at_spec|done..].
  - destruct (own_apart v g f p k Avail H E) as [?|[?|?]]; [by apply is_at_spec|done..].
Qed.
(** What an entry leads to is a page table, or a leaf or a frame the kernel holds. *)
Lemma points_next v g t i f : vmm_ok v g → points (g_own g) (v_mem v) t i f → (∃ p, g_own g !! t = Some (p, 1%nat)) ∨ is_Some (g_own g !! f).
Proof.
  intros H ((p & k & Ht & Hr) & Hi & Hz & <-). destruct k as [|[|k]]; [|eauto|].
  - destruct (vo_own _ _ H t p 0%nat Ht) as (s & _ & _ & [[_ ?]|[_ ?]]); lia.
  - right. destruct (vo_next _ _ H t p k i Ht Hi) as [-> _]; [intros ->; by apply Hr|done|done].
Qed.
Lemma points_mem own m m' t i f : (∀ t x, own !! t = Some x → m' t = m t) → points own m' t i f → points own m t i f.
Proof. intros Hm ((p & k & Ht & Hr) & Hi & Hp). unfold points. unfold entry in *. rewrite (Hm _ _ Ht) in Hp. by split; [eauto|]. Qed.

(** No leaf entry leads to [f]. *)
Definition unmapped (f : Z) (m : Mem) (g : ghost) : Prop :=
  ∀ t p i, g_own g !! t = Some (p, 1%nat) → index_ok i → entry m t i ≠ 0 → e_addr (entry m t i) ≠ f.

(** The frames are the same up to order, and so are tables and spaces. *)
Lemma vmm_ok_frames v v' g g' : vmm_ok v g → all_frames v g ≡ₚ all_frames v' g' → is_Some (v_alloc v') →
  v_spaces v' = v_spaces v → g_own g' = g_own g → g_env g' = g_env g → (∀ f, f ∈ g_lost g → f ∈ g_lost g') →
  (∀ f, page_ok (v_mem v' f)) → (∀ f, is_Some (g_own g !! f) → v_mem v' f = v_mem v f) →
  (∀ f, f ∈ g_held g → f ∈ g_held g' ∨ unmapped f (v_mem v) g) → vmm_ok v' g'.
Proof.
  intros H HP Ha Hs Ho Hg Hl Hp Hm Hh. pose proof H as [I A N F M R O X L E T K].
  assert (He : ∀ t x i, g_own g !! t = Some x → entry (v_mem v') t i = entry (v_mem v) t i) by (intros t x i Ht; unfold entry; by rewrite Hm).
  split; unfold g_all, g_perm in *; rewrite ?Hs, ?Ho, ?Hg; try done.
  - by rewrite <-HP.
  - intros f p k (s & ? & ? & [?|[[?|?] ?]])%O; exists s; eauto 10.
  - intros t p k i Ht. rewrite (He _ _ _ Ht). by apply X.
  - intros t p i s Ht Hi. rewrite (He _ _ _ Ht). intros Hz Hin Hsp. destruct (L t p i s Ht Hi Hz Hin Hsp) as [?|Hx]; [by left|].
    destruct (Hh _ Hx) as [?|Hu]; [by right|]. by destruct (Hu t p i Ht Hi Hz).
  - intros t p i Ht Hi. rewrite (He _ _ _ Ht). by eapply E.
  - intros t i t' i' f P1 P2 Hf. eapply points_mem in P1, P2; [|by intros; apply Hm..]. eapply T; [done|done|]. intros Hold.
    destruct (Hh _ Hold) as [?|Hu]; [done|]. destruct (points_next _ _ _ _ _ H P1) as [[q Hq]|[x Hx]].
    + by destruct P1 as (_ & Hi & Hz & Ef); destruct (Hu t q i Hq Hi Hz).
    + by rewrite (own_not_held v g f H) in Hx by by left.
  - intros s i Hin. rewrite (He _ _ _ (R s Hin)). by apply K.
Qed.

(** The kernel, or a program through a page of its own, writes to a frame that is
    no page table. *)
Lemma vmm_ok_write v g m : vmm_ok v g → (∀ f, page_ok (m f)) → (∀ f, is_Some (g_own g !! f) → m f = v_mem v f) → vmm_ok (set_mem m v) g.
Proof. intros H Hp Hm. eapply (vmm_ok_frames v _ g); [done|done|apply H|done..|auto]. Qed.

Lemma leaf_known v g t p i : vmm_ok v g → g_own g !! t = Some (p, 1%nat) → index_ok i → entry (v_mem v) t i ≠ 0 →
  is_at v g (e_addr (entry (v_mem v) t i)) (Leaf p) ∨ is_at v g (e_addr (entry (v_mem v) t i)) Held.
Proof.
  intros H Ht Hi Hz. destruct (vo_own _ _ H t p _ Ht) as (s & Hs & Hp & _). rewrite !is_at_spec.
  destruct (vo_leaf _ _ H t p i s Ht Hi Hz Hs Hp); eauto.
Qed.
Lemma available_unmapped v g f : vmm_ok v g → f ∈ from_option available [] (v_alloc v) → unmapped f (v_mem v) g.
Proof.
  intros H Hf t p i Ht Hi Hz E. assert (Ha : is_at v g f Avail) by by apply is_at_spec.
  destruct (leaf_known _ _ _ _ _ H Ht Hi Hz) as [Hx|Hx]; rewrite E in Hx; by pose proof (is_at_unique _ _ _ _ _ H Ha Hx).
Qed.

Lemma alloc_frame_some v g f v' : vmm_ok v g → alloc_frame v = (Some f, v') →
  vmm_ok v' (holding f g) ∧ unmapped f (v_mem v') g ∧ f ∈ from_option available [] (v_alloc v) ∧
  v_mem v' = v_mem v ∧ v_spaces v' = v_spaces v ∧ v_boot v' = v_boot v ∧ v_cr3 v' = v_cr3 v.
Proof.
  intros H. unfold alloc_frame. destruct (v_alloc v) as [a|] eqn:Ea; [|done]. destruct (allocate_frame a) as [o a'] eqn:E. intros [= -> <-].
  pose proof (allocate_frame_available _ _ _ E) as HP. simpl in HP.
  assert (Hf : f ∈ from_option available [] (v_alloc v)) by (rewrite Ea; simpl; rewrite HP; left).
  split; [|split; [exact (available_unmapped v g f H Hf)|rewrite Ea in Hf; done]].
  eapply (vmm_ok_frames v _ g); [done| |simpl; eauto|done|done|done|done|apply H|done|by intros; left; right].
  unfold all_frames. simpl. rewrite Ea. simpl. rewrite HP. simpl. rewrite !Permutation_middle. done.
Qed.
Lemma alloc_frame_none v g v' : vmm_ok v g → alloc_frame v = (None, v') →
  vmm_ok v' g ∧ v_mem v' = v_mem v ∧ v_spaces v' = v_spaces v ∧ v_boot v' = v_boot v ∧ v_cr3 v' = v_cr3 v.
Proof.
  intros H. unfold alloc_frame. destruct (v_alloc v) as [a|] eqn:Ea; [|by intros [= <-]]. destruct (allocate_frame a) as [o a'] eqn:E. intros [= -> <-].
  pose proof (allocate_frame_available _ _ _ E) as [H1 H2]. split; [|done]. eapply (vmm_ok_frames v _ g); [done| |simpl; eauto|done|done|done|done|apply H|done|auto].
  unfold all_frames. simpl. by rewrite Ea, H2; simpl; rewrite H1.
Qed.

Lemma free_held v g f h : vmm_ok v g → g_held g ≡ₚ f :: h → unmapped f (v_mem v) g →
  vmm_ok (free_unmapped_frame f v) (set_held h g).
Proof.
  intros H Hh Hu. destruct (vo_init _ _ H) as [a Ea]. unfold free_unmapped_frame. rewrite Ea.
  eapply (vmm_ok_frames v _ g); [done| |simpl; eauto|done|done|done|done|apply H|done|].
  - unfold all_frames. simpl. rewrite Ea. simpl. rewrite deallocate_frame_available, Hh. simpl. by rewrite !Permutation_middle.
  - intros x Hx. rewrite Hh in Hx. apply elem_of_cons in Hx as [->|?]; [by right|by left].
Qed.

(** ** Steps that change a page table *)
Lemma own_level v g t p k : vmm_ok v g → g_own g !! t = Some (p, k) → (1 ≤ k ≤ 4)%nat ∧ (k = 4%nat → t = p) ∧ (k ≠ 4%nat → ∀ s, s ∈ v_spaces v → t ≠ as_pml4 s).
Proof.
  intros H Ht. destruct (vo_own _ _ H t p k Ht) as (s & Hs & Hp & [[-> ->]|[_ Hk]]); (split; [lia|]); split; try lia; try done.
  intros _ s' Hs' ->. rewrite (vo_root _ _ H s' Hs') in Ht. injection Ht as _ <-. lia.
Qed.

Lemma vmm_ok_set_entry v g t p k i e : vmm_ok v g → g_own g !! t = Some (p, k) → index_ok i → entry_ok e → (k = 4%nat → user_root i) →
  (e ≠ 0 → match k with
           | S (S k) => g_own g !! e_addr e = Some (p, S k) ∧ Z.testbit e 7 = false
           | _ => (∀ s, s ∈ v_spaces v → as_pml4 s = p → e_addr e ∈ as_leaves s ∨ e_addr e ∈ g_held g) ∧ g_perm g (e_flags e) end) →
  (e ≠ 0 → e_addr e ∉ g_held g → ∀ t' i', points (g_own g) (v_mem v) t' i' (e_addr e) → t' = t ∧ i' = i) →
  vmm_ok (set_mem (set_entry t i e (v_mem v)) v) g.
Proof.
  intros H Ht Hi He Hr Hn Hone. pose proof (own_level _ _ _ _ _ H Ht) as (_ & _ & Hnr). destruct H as [I A N F M R O X L E T K].
  assert (Hent : ∀ u j, index_ok j → entry (set_entry t i e (v_mem v)) u j = if decide ((u, j) = (t, i)) then e else entry (v_mem v) u j).
  { intros u j Hj. destruct (decide _) as [[= -> ->]|Hne]; [by apply entry_set_eq|by apply entry_set_ne]. }
  split; simpl; try done.
  - intros f. by apply set_entry_page_ok.
  - intros u q k' j Hu Hj Hroot. rewrite (Hent u j Hj). destruct (decide _) as [[= -> ->]|]; [|by apply X].
    intros Hz. rewrite Hu in Ht. injection Ht as <- <-. by apply Hn.
  - intros u q j s Hu Hj. rewrite (Hent u j Hj). destruct (decide _) as [[= -> ->]|]; [|by apply L].
    intros Hz. rewrite Hu in Ht. injection Ht as <- <-. by apply Hn.
  - intros u q j Hu Hj. rewrite (Hent u j Hj). destruct (decide _) as [[= -> ->]|]; [|by eapply E].
    intros Hz. rewrite Hu in Ht. injection Ht as <- <-. by apply Hn.
  - assert (Hpt : ∀ u j f, points (g_own g) (set_entry t i e (v_mem v)) u j f → ((u, j) = (t, i) ∧ e ≠ 0 ∧ f = e_addr e) ∨ points (g_own g) (v_mem v) u j f).
    { intros u j f (Hs & Hj & Hz & Ef). rewrite (Hent u j Hj) in Hz, Ef. destruct (decide _) as [[= -> ->]|]; [by left|by right]. }
    intros t1 i1 t2 i2 f [([= -> ->] & Hz & ->)|P1]%Hpt [([= -> ->] & Hz' & Ef)|P2]%Hpt Hf; [done| | |by eapply T].
    + by destruct (Hone Hz Hf _ _ P2).
    + subst f. by apply Hone.
  - intros s j Hs Hj Hnu. rewrite (Hent _ j Hj). destruct (decide _) as [Ed|]; [|by apply K]. exfalso. injection Ed as <- <-.
    rewrite (R s Hs) in Ht. injection Ht as <- <-. by apply Hnu, Hr.
Qed.

(** A frame that was available becomes an empty table, lost for the time being. *)
Lemma vmm_ok_new_table v g a a' f p k : vmm_ok v g → v_alloc v = Some a → allocate_frame a = (Some f, a') → (1 ≤ k ≤ 3)%nat →
  (∃ s, s ∈ v_spaces v ∧ as_pml4 s = p) →
  let v' := set_mem (zero_frame f (v_mem v)) (set_alloc (Some a') v) in
  let g' := {| g_own := <[f := (p, k)]> (g_own g); g_lost := f :: g_lost g; g_held := g_held g; g_env := g_env g |} in
  vmm_ok v' g' ∧ g_own g !! f = None ∧ (∀ j, entry (v_mem v') f j = 0) ∧ ∀ u j, ¬ points (g_own g') (v_mem v') u j f.
Proof.
  intros H Ea E Hk (s & Hs & Hsp) v' g'. pose proof (allocate_frame_available _ _ _ E) as HP. simpl in HP.
  assert (Hf : f ∈ from_option available [] (v_alloc v)) by (rewrite Ea; simpl; rewrite HP; left).
  assert (Hno : g_own g !! f = None) by (eapply own_not_held; [done|by right]). pose proof H as [I A N F M R O X L EP T K].
  assert (Hperm : all_frames v g ≡ₚ all_frames v' g').
  { unfold all_frames. subst v' g'. simpl. rewrite Ea. simpl. rewrite HP. simpl. by rewrite !Permutation_middle. }
  assert (Hold : ∀ u x, g_own g !! u = Some x → u ≠ f) by (intros u x Hu ->; congruence).
  assert (Hpt : ∀ u j x, points (g_own g') (v_mem v') u j x → points (g_own g) (v_mem v) u j x).
  { subst v' g'. simpl. intros u j x ((q & k' & Hq & Hr) & Hj & Hz & Ex). apply lookup_insert_Some in Hq as [[<- _]|[Hne Hq]]; [by rewrite entry_zeroed in Hz|].
    rewrite entry_other in Hz, Ex by done. split_and!; eauto. }
  split; [|split_and!; [done|intros j; apply entry_zeroed|]].
  2:{ intros u j Pt%Hpt. destruct (points_next _ _ _ _ _ H Pt) as [[q Hq]|[x Hx]]; [|congruence]. destruct Pt as (_ & Hj & Hz & Ex).
      by eapply (available_unmapped v g f H Hf u q j). }
  subst v' g'. split; simpl.
  - eauto.
  - unfold all_frames in *. simpl in *. by rewrite <-Hperm.
  - done.
  - done.
  - intros h. by apply zero_frame_page_ok.
  - intros s' Hs'. rewrite lookup_insert_ne; [by apply R|]. intros E'. pose proof (Hold _ _ (R s' Hs')). congruence.
  - intros u q k' [[<- [= <- <-]]|[Hne Hu]]%lookup_insert_Some.
    + exists s. split_and!; [done|done|right]. split; [right; left|lia].
    + destruct (O u q k' Hu) as (s' & ? & ? & [?|[[?|?] ?]]); exists s'; split_and!; try done; [by left|right; split; [by left|done]|].
      right. split; [right; by right|done].
  - intros u q k' j [[<- _]|[Hne Hu]]%lookup_insert_Some Hj; [by rewrite entry_zeroed|]. rewrite entry_other by done. intros Hr Hz.
    destruct (X u q k' j Hu Hj Hr Hz) as [Hx ?]. split; [|done]. rewrite lookup_insert_ne; [done|]. intros E'. pose proof (Hold _ _ Hx). congruence.
  - intros u q j s' [[<- _]|[Hne Hu]]%lookup_insert_Some Hj; [by rewrite entry_zeroed|]. rewrite entry_other by done. by apply L.
  - intros u q j [[<- _]|[Hne Hu]]%lookup_insert_Some Hj; [by rewrite entry_zeroed|]. rewrite entry_other by done. by eapply EP.
  - intros t1 i1 t2 i2 x P1%Hpt P2%Hpt. by eapply T.
  - intros s' j Hs'. rewrite entry_other by (by eapply Hold, R). by apply K.
Qed.
