(* ===== verification/VmmMap.v ===== *)
(** * Mapping pages

    A mapping keeps [vmm_ok], leads every walk of its page to the new frame, and
    only adds to the tables: [grows]. *)
From stdpp Require Import gmap functions.
From S2P Require Import Prelude UserLayout FrameAlloc Vmm VmmMem VmmInv.
Set Warnings "-clear-no-such-hyp".

Local Open Scope Z_scope.

(** ** What a mapping changes *)
(** An entry with more permissions. *)
Definition widened (e e' : Z) : Prop :=
  e_addr e' = e_addr e ∧ Z.testbit e' 7 = Z.testbit e 7 ∧ (∀ b, 0 ≤ b < 3 → Z.testbit e b = true → Z.testbit e' b = true) ∧ e' ≠ 0.
Lemma widened_refl e : e ≠ 0 → widened e e.
Proof. by repeat split. Qed.
Lemma widened_trans e1 e2 e3 : widened e1 e2 → widened e2 e3 → widened e1 e3.
Proof. intros (A1 & B1 & C1 & D1) (A2 & B2 & C2 & D2). split_and!; [congruence|congruence|auto|done]. Qed.
Lemma lor_zero_l a b : Z.lor a b = 0 → a = 0.
Proof. intros H. by apply Z.lor_eq_0_iff in H as [-> _]. Qed.
Lemma widened_parent e flags : e ≠ 0 → widened e (Z.lor e (parent_flags flags)).
Proof.
  intros He. split_and!.
  - apply e_addr_lor, parent_flags_ok.
  - rewrite Z.lor_spec, parent_flags_bit by lia. simpl. by rewrite andb_false_r, orb_false_r.
  - intros b _ Hb. by rewrite Z.lor_spec, Hb.
  - by intros ?%lor_zero_l.
Qed.

(** The tables of [p] get new tables, new entries and more permissions above the
    leaves; no other table changes. *)
Record grows (p : Z) (m : Mem) (own : gmap Z (Z * nat)) (m' : Mem) (own' : gmap Z (Z * nat)) : Prop := {
  gr_own : own ⊆ own';
  gr_new : ∀ f q k, own' !! f = Some (q, k) → own !! f = None → q = p;
  gr_leaf : ∀ t q i, own !! t = Some (q, 1%nat) → index_ok i → entry m t i ≠ 0 → entry m' t i = entry m t i;
  gr_upper : ∀ t q k i, own !! t = Some (q, S (S k)) → index_ok i → entry m t i ≠ 0 → widened (entry m t i) (entry m' t i);
  gr_other : ∀ t q k i, own !! t = Some (q, k) → q ≠ p → index_ok i → entry m' t i = entry m t i }.

Lemma grows_refl p m own : grows p m own m own.
Proof. split; try done; intros; congruence. Qed.
Lemma grows_trans p m1 o1 m2 o2 m3 o3 : grows p m1 o1 m2 o2 → grows p m2 o2 m3 o3 → grows p m1 o1 m3 o3.
Proof.
  intros [A1 N1 L1 U1 O1] [A2 N2 L2 U2 O2]. assert (Hup : ∀ t x, o1 !! t = Some x → o2 !! t = Some x) by (intros t x Hx; by eapply lookup_weaken).
  split.
  - by trans o2.
  - intros f q k H3 H1. destruct (o2 !! f) as [[q' k']|] eqn:H2; [|by eapply N2].
    pose proof (lookup_weaken _ _ _ _ H2 A2) as H. rewrite H in H3. injection H3 as <- <-. by eapply N1.
  - intros t q i Ht Hi Hz. pose proof (L1 _ _ _ Ht Hi Hz) as E. rewrite (L2 t q i); [done|by apply Hup|done|by rewrite E].
  - intros t q k i Ht Hi Hz. pose proof (U1 _ _ _ _ Ht Hi Hz) as W. eapply widened_trans; [done|]. eapply U2; [by apply Hup|done|apply W].
  - intros t q k i Ht Hq Hi. rewrite (O2 t q k i) by auto. by eapply O1.
Qed.

(** Where tables lead: as before, or to a new table. *)
Definition linked (m : Mem) (own : gmap Z (Z * nat)) (m' : Mem) (own' : gmap Z (Z * nat)) : Prop :=
  ∀ t q k i, own' !! t = Some (q, S (S k)) → index_ok i → entry m' t i ≠ 0 →
    (own !! t = Some (q, S (S k)) ∧ entry m t i ≠ 0) ∨ own !! e_addr (entry m' t i) = None.
Lemma linked_refl m own : linked m own m own.
Proof. intros t q k i Ht Hi Hz. by left. Qed.
Lemma linked_trans p m1 o1 m2 o2 m3 o3 : o1 ⊆ o2 → grows p m2 o2 m3 o3 → linked m1 o1 m2 o2 → linked m2 o2 m3 o3 → linked m1 o1 m3 o3.
Proof.
  intros Ho G L1 L2 t q k i Ht Hi Hz. destruct (L2 t q k i Ht Hi Hz) as [[Ht2 Hz2]|Hn].
  - destruct (L1 t q k i Ht2 Hi Hz2) as [?|Hn]; [by left|right]. destruct (gr_upper _ _ _ _ _ G t q k i Ht2 Hi Hz2) as [-> _]. done.
  - right. destruct (o1 !! _) as [x|] eqn:E; [|done]. by rewrite (lookup_weaken _ _ _ _ E Ho) in Hn.
Qed.

(** ** Paths through the tables *)
Definition leads (flags e t' : Z) : Prop :=
  e_addr e = t' ∧ Z.testbit e 7 = false ∧ (∀ b, 0 ≤ b < 3 → Z.testbit flags b = true → Z.testbit e b = true) ∧ e ≠ 0.
Inductive path (m : Mem) (flags va : Z) : nat → Z → Z → Prop :=
| path_leaf t : path m flags va 1 t t
| path_next level t t' t1 : leads flags (entry m t (pt_index (S (S level)) va)) t' → path m flags va (S level) t' t1 → path m flags va (S (S level)) t t1.

Lemma leads_widened flags e e' t : leads flags e t → widened e e' → leads flags e' t.
Proof. intros (A1 & B1 & C1 & D1) (A2 & B2 & C2 & D2). split_and!; [congruence|congruence|auto|done]. Qed.

Lemma path_own v g flags va level t t1 p : vmm_ok v g → path (v_mem v) flags va level t t1 → g_own g !! t = Some (p, level) →
  (level = 4%nat → user_root (pt_index 4 va)) → g_own g !! t1 = Some (p, 1%nat).
Proof.
  intros H. induction 1 as [|level t t' t1 (E & _ & _ & Hz) _ IH]; [done|]. intros Ht Hr.
  destruct (vo_next _ _ H t p level (pt_index (S (S level)) va) Ht (pt_index_ok _ _)) as [Hx _]; [intros ->; by apply Hr|done|]. rewrite E in Hx. apply IH; [done|].
  intros [= ->]. pose proof (own_level _ _ _ _ _ H Ht). lia.
Qed.
Lemma path_grows v g m' own' flags va level t t1 p : vmm_ok v g → path (v_mem v) flags va level t t1 → g_own g !! t = Some (p, level) →
  (level = 4%nat → user_root (pt_index 4 va)) → ∀ q, grows q (v_mem v) (g_own g) m' own' → path m' flags va level t t1.
Proof.
  intros H HP. induction HP as [|level t t' t1 HL _ IH]; intros Ht Hr q G; [constructor|]. pose proof HL as (E & _ & _ & Hz).
  destruct (vo_next _ _ H t p level (pt_index (S (S level)) va) Ht (pt_index_ok _ _)) as [Hx _]; [intros ->; by apply Hr|done|]. rewrite E in Hx.
  econstructor; [eapply leads_widened; [done|]; by eapply gr_upper; [|done|apply pt_index_ok|]|]. eapply IH; [done| |done].
  intros [= ->]. pose proof (own_level _ _ _ _ _ H Ht). lia.
Qed.

Lemma path_unique m flags flags' va level t t1 t2 : path m flags va level t t1 → path m flags' va level t t2 → t1 = t2.
Proof.
  intros HP. revert t2. induction HP as [|level t t' t1 HL _ IH]; intros t2 HQ; inversion HQ; subst; [done|].
  apply IH. destruct HL as [<- _]. match goal with X : leads _ _ _ |- _ => destruct X as [-> _] end. done.
Qed.

(** ** No two pages share a leaf entry *)
Lemma paths_apart v g fl fl' va va' level t t' p p' t1 : vmm_ok v g → path (v_mem v) fl va level t t1 → path (v_mem v) fl' va' level t' t1 →
  g_own g !! t = Some (p, level) → g_own g !! t' = Some (p', level) →
  (level = 4%nat → user_root (pt_index 4 va) ∧ user_root (pt_index 4 va')) →
  t = t' ∧ ∀ k, (2 ≤ k ≤ level)%nat → pt_index k va = pt_index k va'.
Proof.
  intros H HP. revert t'. induction HP as [t1|level t u t1 HL HP IH]; intros t' HQ Ht Ht' Hr; inversion HQ as [|? ? u' ? HL' HQ']; subst.
  - split; [done|lia].
  - destruct (vo_next _ _ H t p level (pt_index (S (S level)) va) Ht (pt_index_ok _ _)) as [Hu _]; [intros ->; by apply Hr|apply HL|].
    destruct (vo_next _ _ H t' p' level (pt_index (S (S level)) va') Ht' (pt_index_ok _ _)) as [Hu' _]; [intros ->; by apply Hr|apply HL'|].
    rewrite (proj1 HL) in Hu. rewrite (proj1 HL') in Hu'.
    destruct (IH u' HQ' Hu Hu') as [E Hk]; [intros [= ->]; pose proof (own_level _ _ _ _ _ H Ht); lia|]. subst u'.
    destruct (vo_tree _ _ H t (pt_index (S (S level)) va) t' (pt_index (S (S level)) va') u) as [-> E].
    + split_and!; [exists p, (S (S level)); split; [done|intros [= ->]; by apply Hr]|apply pt_index_ok|apply HL|apply HL].
    + split_and!; [exists p', (S (S level)); split; [done|intros [= ->]; by apply Hr]|apply pt_index_ok|apply HL'|apply HL'].
    + intros Hin. by rewrite (own_not_held v g u H) in Hu by by left.
    + split; [done|]. intros k Hk2. destruct (decide (k = S (S level))) as [->|]; [done|]. apply Hk. lia.
Qed.

(** The four indices determine the page of a user address. *)
Lemma indices_page a b : 0 ≤ a < 2 ^ 48 → 0 ≤ b < 2 ^ 48 → (∀ k, (1 ≤ k ≤ 4)%nat → pt_index k a = pt_index k b) → page_down a = page_down b.
Proof.
  intros Ha Hb Hk.
  assert (E1 : ∀ x, pt_index 1 x = (x / 4096) mod 512) by (intros x; unfold pt_index; change 0x1ff with (Z.ones 9); by rewrite Z.land_ones, Z.shiftr_div_pow2).
  assert (E2 : ∀ x, pt_index 2 x = (x / 4096 / 512) mod 512).
  { intros x. unfold pt_index. change 0x1ff with (Z.ones 9). by rewrite Z.land_ones, Z.shiftr_div_pow2, Z.div_div by lia. }
  assert (E3 : ∀ x, pt_index 3 x = (x / 4096 / 512 / 512) mod 512).
  { intros x. unfold pt_index. change 0x1ff with (Z.ones 9). by rewrite Z.land_ones, Z.shiftr_div_pow2, !Z.div_div by lia. }
  assert (E4 : ∀ x, pt_index 4 x = (x / 4096 / 512 / 512 / 512) mod 512).
  { intros x. unfold pt_index. change 0x1ff with (Z.ones 9). by rewrite Z.land_ones, Z.shiftr_div_pow2, !Z.div_div by lia. }
  pose proof (Hk 1%nat ltac:(lia)) as H1. pose proof (Hk 2%nat ltac:(lia)) as H2. pose proof (Hk 3%nat ltac:(lia)) as H3. pose proof (Hk 4%nat ltac:(lia)) as H4.
  rewrite !E1 in H1. rewrite !E2 in H2. rewrite !E3 in H3. rewrite !E4 in H4.
  assert (E : a / 4096 = b / 4096) by (clear -Ha Hb H1 H2 H3 H4; Z.div_mod_to_equations; lia).
  unfold page_down, PAGE_SIZE. rewrite (Z.mod_eq a 4096), (Z.mod_eq b 4096), E by lia. lia.
Qed.

(** ** Walking down *)
Definition tracked (v : Vmm) (ts : Tracking) : Vmm := set_mem (tr_mem ts) (set_alloc (Some (tr_inner ts)) v).
(** What a part of the walk does: [new] are the tables it added, lost until they
    are recorded. *)
Record extends (v : Vmm) (p : Z) (ts : Tracking) (g : ghost) (ts' : Tracking) (g' : ghost) : Prop := {
  ex_ok : vmm_ok (tracked v ts') g';
  ex_held : g_held g' = g_held g ∧ g_env g' = g_env g;
  ex_new : ∃ new, tr_allocated ts' = tr_allocated ts ++ new ∧ g_lost g' ≡ₚ new ++ g_lost g ∧
    ∀ f, f ∈ new → ∃ k, g_own g' !! f = Some (p, k) ∧ (1 ≤ k ≤ 3)%nat;
  ex_leaves : ∀ t q i, g_own g' !! t = Some (q, 1%nat) → index_ok i → entry (tr_mem ts') t i ≠ 0 →
    g_own g !! t = Some (q, 1%nat) ∧ entry (tr_mem ts) t i = entry (tr_mem ts') t i;
  ex_data : ∀ f, g_own g' !! f = None → tr_mem ts' f = tr_mem ts f;
  ex_grows : grows p (tr_mem ts) (g_own g) (tr_mem ts') (g_own g') }.

Lemma extends_refl v p ts g : vmm_ok (tracked v ts) g → extends v p ts g ts g.
Proof. intros H. split; [done|done| |done|done|apply grows_refl]. exists []. rewrite app_nil_r. split_and!; [done|done|by intros f ?%elem_of_nil]. Qed.
Lemma extends_trans v p ts1 g1 ts2 g2 ts3 g3 : extends v p ts1 g1 ts2 g2 → extends v p ts2 g2 ts3 g3 → extends v p ts1 g1 ts3 g3.
Proof.
  intros [A1 H1 (n1 & E1 & P1 & T1) L1 D1 G1] [A2 H2 (n2 & E2 & P2 & T2) L2 D2 G2]. split; [done|destruct H1, H2; split; congruence| | | |by eapply grows_trans].
  3:{ intros f H3. rewrite D2 by done. apply D1. destruct (g_own g2 !! f) eqn:E; [|done].
      by rewrite (lookup_weaken _ _ _ _ E (gr_own _ _ _ _ _ G2)) in H3. }
  2:{ intros t q i Ht Hi Hz. destruct (L2 t q i Ht Hi Hz) as [Ht2 E]. rewrite <-E. apply L1; [done|done|by rewrite E]. }
  exists (n1 ++ n2). split_and!; [by rewrite E2, E1, app_assoc|rewrite P2, P1, !app_assoc; apply Permutation_app_tail, Permutation_app_comm|].
  intros f [Hf|Hf]%elem_of_app; [|auto]. destruct (T1 f Hf) as (k & Hk & ?). exists k. split; [|done]. by eapply lookup_weaken, gr_own.
Qed.

Lemma entry_lor_ok e fl : entry_ok e → 0 ≤ fl < 2 ^ 64 → entry_ok (Z.lor e fl).
Proof. apply lor_bound. Qed.

(** Writing an entry above the leaves, where there was none or one that is widened. *)
Lemma extends_upper v p ts g t k i e : vmm_ok (tracked v ts) g → g_own g !! t = Some (p, S (S k)) → index_ok i → (k = 2%nat → user_root i) →
  entry_ok e → g_own g !! e_addr e = Some (p, S k) → Z.testbit e 7 = false →
  (entry (tr_mem ts) t i ≠ 0 → widened (entry (tr_mem ts) t i) e) →
  (∀ t' i', points (g_own g) (tr_mem ts) t' i' (e_addr e) → t' = t ∧ i' = i) →
  extends v p ts g (tr_set_mem (set_entry t i e (tr_mem ts)) ts) g.
Proof.
  intros H Ht Hi Hr He Ho Hh Hw Hone. assert (Hne : ∀ u j, index_ok j → (u, j) ≠ (t, i) → entry (set_entry t i e (tr_mem ts)) u j = entry (tr_mem ts) u j).
  { intros u j Hj Hne. apply entry_set_ne; [apply (vo_mem _ _ H)|done..]. }
  split; [|done| | | |].
  - apply (vmm_ok_set_entry (tracked v ts) g t p (S (S k)) i e H Ht Hi He); [|done|done]. intros [= ->]. by apply Hr.
  - exists []. cbn [tr_allocated tr_set_mem]. rewrite app_nil_r. split_and!; [done|done|by intros f ?%elem_of_nil].
  - cbn [tr_mem tr_set_mem]. intros u q j Hu Hj _. split; [done|]. rewrite Hne; [done|done|congruence].
  - intros f Hf. cbn [tr_mem tr_set_mem]. unfold set_entry. rewrite fn_lookup_insert_ne; [done|congruence].
  - split; cbn [tr_mem tr_set_mem].
    + done.
    + congruence.
    + intros u q j Hu Hj _. apply Hne; [done|congruence].
    + intros u q k' j Hu Hj Hz. destruct (decide ((u, j) = (t, i))) as [[= -> ->]|]; [|rewrite Hne by done; by apply widened_refl].
      rewrite entry_set_eq; [by apply Hw|apply (vo_mem _ _ H)|done..].
    + intros u q k' j Hu Hq Hj. apply Hne; [done|congruence].
Qed.

(** A new table, before it is linked. *)
Lemma extends_new v p ts g t' ts' k : vmm_ok (tracked v ts) g → tracking_allocate_frame ts = (Some t', ts') → (1 ≤ k ≤ 3)%nat →
  (∃ s, s ∈ v_spaces v ∧ as_pml4 s = p) →
  ∃ g', extends v p ts g ts' g' ∧ g_own g' = <[t' := (p, k)]> (g_own g) ∧ g_own g !! t' = None ∧
    (∀ t i, t ≠ t' → entry (tr_mem ts') t i = entry (tr_mem ts) t i) ∧ (∀ t i, ¬ points (g_own g') (tr_mem ts') t i t') ∧
    ∀ i, entry (tr_mem ts') t' i = 0.
Proof.
  intros H. unfold tracking_allocate_frame. destruct (allocate_frame (tr_inner ts)) as [[f|] a] eqn:E; [|done]. intros [= -> <-] Hk Hs.
  destruct (vmm_ok_new_table (tracked v ts) g (tr_inner ts) a t' p k H eq_refl E Hk Hs) as (H' & Hno & Hz & Hnp).
  exists {| g_own := <[t' := (p, k)]> (g_own g); g_lost := t' :: g_lost g; g_held := g_held g; g_env := g_env g |}.
  split_and!; [|done|done|intros t i Ht; by apply entry_other|exact Hnp|exact Hz].
  split; [exact H'|done| | | |].
  - exists [t']. split_and!; [done|done|]. intros f ->%list_elem_of_singleton. exists k. simpl. by rewrite lookup_insert_eq.
  - cbn [g_own tr_mem]. intros u q j [[<- _]|[Hne Hu]]%lookup_insert_Some Hj; [by rewrite entry_zeroed|]. by rewrite entry_other.
  - cbn [g_own tr_mem]. intros f [Hf Hne]%lookup_insert_None. unfold zero_frame. by rewrite fn_lookup_insert_ne.
  - split; cbn [g_own tr_mem].
    + by apply insert_subseteq.
    + intros f q k' [[<- [= <- <-]]|[_ Hx]]%lookup_insert_Some; congruence.
    + intros u q j Hu Hj _. apply entry_other. congruence.
    + intros u q k' j Hu Hj Hz'. rewrite entry_other by congruence. by apply widened_refl.
    + intros u q k' j Hu Hq Hj. apply entry_other. congruence.
Qed.

Lemma entry_ne_unused e : is_unused e = false ↔ e ≠ 0.
Proof. unfold is_unused. apply Z.eqb_neq. Qed.

Lemma frame_of_own v g f x : vmm_ok v g → g_own g !! f = Some x → frame_ok f.
Proof.
  destruct x as [p k]. intros H Hf. eapply Forall_forall; [apply (vo_frames _ _ H)|]. rewrite <-(vo_all _ _ H), <-places_frames. apply list_elem_of_fmap.
  destruct (own_at _ _ _ _ _ H Hf) as [?|[?|?]]; by eexists (_, _).
Qed.

Lemma extends_link v p ts g t k i flags t' ts' : vmm_ok (tracked v ts) g → g_own g !! t = Some (p, S (S k)) → index_ok i → (k = 2%nat → user_root i) →
  flags_ok flags → link flags t i ts t' ts' →
  ∃ g', extends v p ts g ts' g' ∧ g_own g' !! t' = Some (p, S k) ∧ leads flags (entry (tr_mem ts') t i) t' ∧
    linked (tr_mem ts) (g_own g) (tr_mem ts') (g_own g').
Proof.
  intros H Ht Hi Hr (_ & _ & _ & Fp). pose proof (own_level _ _ _ _ _ H Ht) as (Hlv & _ & _). pose proof (parent_flags_ok flags) as [Pa Pb].
  assert (Pbits : ∀ b, 0 ≤ b < 3 → Z.testbit flags b = true → Z.testbit (parent_flags flags) b = true).
  { intros b Hb Hf. rewrite parent_flags_bit by lia. rewrite Hf. apply Z.ltb_lt. lia. }
  intros [Hz%entry_ne_unused Hh|u ts1 Hz%Z.eqb_eq Ha].
  - rewrite huge_bit' in Hh. set (e := entry (tr_mem ts) t i) in *.
    destruct (vo_next _ _ H t p k i Ht Hi Hr Hz) as [Ho _]. change (v_mem (tracked v ts)) with (tr_mem ts) in Ho. fold e in Ho.
    pose proof (widened_parent e flags Hz) as W. destruct W as (W1 & W2 & W3 & W4).
    assert (Hok : entry_ok (Z.lor e (parent_flags flags))) by (apply entry_lor_ok; [by apply entry_bound; [apply (vo_mem _ _ H)|]|done]).
    exists g. split_and!; [|done| |].
    + apply (extends_upper v p ts g t k i _ H Ht Hi Hr Hok); [by rewrite W1|by rewrite W2|intros _; by apply widened_parent|].
      rewrite W1. intros u j P. eapply (vo_tree _ _ H); [exact P| |].
      * split_and!; [|done|done|done]. exists p, (S (S k)). split; [done|]. intros [= ->]. by apply Hr.
      * intros Hin. pose proof (own_not_held _ _ _ H (or_introl Hin)). cbn [v_mem tracked set_mem] in *. congruence.
    + cbn [tr_mem tr_set_mem]. rewrite entry_set_eq; [|apply (vo_mem _ _ H)|done..]. split_and!; [done|by rewrite W2| |done].
      intros b Hb Hf. by rewrite Z.lor_spec, (Pbits b Hb Hf), orb_true_r.
    + intros u q k' j Hu Hj. cbn [tr_mem tr_set_mem]. destruct (decide ((u, j) = (t, i))) as [[= -> ->]|Hne]; [by left|].
      rewrite entry_set_ne; [by left|apply (vo_mem _ _ H)|done..].
  - destruct (vo_own _ _ H t p _ Ht) as (s & Hs & Hsp & _).
    destruct (extends_new v p ts g u ts1 (S k) H Ha) as (g' & X & Ho' & Hno & Hsame & Hnp & Hzu); [lia|by exists s|].
    assert (Hu : g_own g' !! u = Some (p, S k)) by (rewrite Ho'; apply lookup_insert_eq).
    assert (Htu : t ≠ u) by congruence.
    assert (Ht' : g_own g' !! t = Some (p, S (S k))) by (by rewrite Ho', lookup_insert_ne).
    pose proof (frame_of_own _ _ _ _ (ex_ok _ _ _ _ _ _ X) Hu) as Hfu. pose proof (frame_ok_bound _ Hfu).
    assert (Hnz : Z.lor u (parent_flags flags) ≠ 0).
    { intros E%(f_equal (λ x, Z.testbit x 0)). rewrite lor_frame_bit, (Pbits 0) in E by done. done. }
    assert (Hok : entry_ok (Z.lor u (parent_flags flags))) by (apply entry_lor_ok; unfold entry_ok; lia).
    assert (Hea : e_addr (Z.lor u (parent_flags flags)) = u) by (by apply e_addr_frame).
    assert (Hb7 : Z.testbit (Z.lor u (parent_flags flags)) 7 = false).
    { rewrite lor_frame_bit, parent_flags_bit by (done || lia). apply andb_false_r. }
    exists g'. split_and!; [eapply extends_trans; [exact X|]|done| |].
    + apply (extends_upper v p ts1 g' t k i _ (ex_ok _ _ _ _ _ _ X) Ht' Hi Hr Hok); [by rewrite Hea|done|intros Hz'; by rewrite Hsame, Hz in Hz'|].
      rewrite Hea. intros u' j P. by destruct (Hnp u' j).
    + cbn [tr_mem tr_set_mem]. rewrite entry_set_eq; [|apply (vo_mem _ _ (ex_ok _ _ _ _ _ _ X))|done..]. split_and!; [done..| |done].
      intros b Hb Hf. by rewrite Z.lor_spec, (Pbits b Hb Hf), orb_true_r.
    + intros u' q k' j Hu' Hj. cbn [tr_mem tr_set_mem]. pose proof (vo_mem _ _ (ex_ok _ _ _ _ _ _ X)) as Hm.
      destruct (decide ((u', j) = (t, i))) as [[= -> ->]|Hne]; [rewrite entry_set_eq by (apply Hm || done); intros _; right; by rewrite Hea|].
      rewrite entry_set_ne by (apply Hm || done). intros Hz'. left. rewrite Ho' in Hu'.
      apply lookup_insert_Some in Hu' as [[<- _]|[Hn' Hu']]; [by destruct Hz'; apply Hzu|]. by rewrite Hsame in Hz'.
Qed.

Lemma extends_stop v p ts g t k i flags ts' : vmm_ok (tracked v ts) g → g_own g !! t = Some (p, S (S k)) → index_ok i → (k = 2%nat → user_root i) →
  stops flags t i ts ts' → extends v p ts g ts' g.
Proof.
  intros H Ht Hi Hr [e Hz%entry_ne_unused Hh _|ts1 _ Ha].
  - rewrite huge_bit' in Hh. destruct (vo_next _ _ H t p k i Ht Hi Hr Hz) as [_ Hx]. cbn [v_mem tracked set_mem] in Hx. congruence.
  - unfold tracking_allocate_frame in Ha. destruct (allocate_frame (tr_inner ts)) as [[f|] a] eqn:E; [done|]. injection Ha as <-.
    destruct (alloc_frame_none (tracked v ts) g (set_alloc (Some a) (tracked v ts)) H) as (H' & _); [unfold alloc_frame; simpl; by rewrite E|].
    split; [exact H'|done| |done|done|apply grows_refl]. exists []. rewrite app_nil_r. split_and!; [done|done|by intros f ?%elem_of_nil].
Qed.

Lemma extends_descend v p flags va level t ts o ts' g : flags_ok flags → vmm_ok (tracked v ts) g → g_own g !! t = Some (p, level) →
  (level = 4%nat → user_root (pt_index 4 va)) → descends flags va level t ts o ts' →
  ∃ g', extends v p ts g ts' g' ∧
    match o with Some t1 => g_own g' !! t1 = Some (p, 1%nat) ∧ path (tr_mem ts') flags va level t t1 | None => True end ∧
    linked (tr_mem ts) (g_own g) (tr_mem ts') (g_own g').
Proof.
  intros F H Ht Hr HD. revert g H Ht Hr. induction HD as [t ts|level t ts t' ts1 o ts2 HL HD IH|level t ts ts' HS]; intros g H Ht Hr.
  - exists g. split_and!; [by apply extends_refl|done|constructor|apply linked_refl].
  - assert (Hr' : level = 2%nat → user_root (pt_index (S (S level)) va)) by (intros ->; by apply Hr).
    destruct (extends_link v p ts g t level _ flags t' ts1 H Ht (pt_index_ok _ _) Hr' F HL) as (g1 & X1 & Ht' & HE & K1).
    pose proof (own_level _ _ _ _ _ H Ht) as (Hlv & _ & _).
    destruct (IH g1 (ex_ok _ _ _ _ _ _ X1) Ht') as (g2 & X2 & Ho & K2); [intros [= ->]; lia|].
    exists g2. split_and!; [by eapply extends_trans| |exact (linked_trans _ _ _ _ _ _ _ (gr_own _ _ _ _ _ (ex_grows _ _ _ _ _ _ X1)) (ex_grows _ _ _ _ _ _ X2) K1 K2)]. destruct o as [t1|]; [|done]. destruct Ho as [Ho HP]. split; [done|].
    econstructor; [|done]. eapply leads_widened; [done|]. eapply (gr_upper _ _ _ _ _ (ex_grows _ _ _ _ _ _ X2)); [|apply pt_index_ok|apply HE].
    by eapply lookup_weaken, (gr_own _ _ _ _ _ (ex_grows _ _ _ _ _ _ X1)).
  - exists g. assert (Hr' : level = 2%nat → user_root (pt_index (S (S level)) va)) by (intros ->; by apply Hr).
    split_and!; [by eapply (extends_stop v p ts g t level); [..|apply pt_index_ok| |]|done|]. destruct HS as [e Hz%entry_ne_unused Hh _|ts1 _ Ha].
    + rewrite huge_bit' in Hh. destruct (vo_next _ _ H t p level _ Ht (pt_index_ok _ _) Hr' Hz) as [_ Hx]. cbn [v_mem tracked set_mem] in Hx. congruence.
    + unfold tracking_allocate_frame in Ha. destruct (allocate_frame (tr_inner ts)) as [[f|] a]; [done|]. injection Ha as <-. apply linked_refl.
Qed.

(** ** [map_page_in] *)
(** The mapping of [va] to [frame] is in place. *)
Definition mapped (m : Mem) (p va frame flags : Z) : Prop :=
  ∃ t1, path m flags va 4 p t1 ∧ entry m t1 (pt_index 1 va) = Z.lor frame flags.

(** ** Recording frames *)
Lemma spaces_nodup v g : vmm_ok v g → NoDup (map as_pml4 (v_spaces v)).
Proof.
  intros H. pose proof (vo_nodup _ _ H) as N. rewrite <-(vo_all _ _ H) in N. unfold all_frames in N. apply NoDup_app in N as (_ & _ & N). apply NoDup_app in N as (N & _ & _).
  revert N. induction (v_spaces v) as [|x l IH]; [constructor|]. rewrite mjoin_map_cons. intros (_ & Hd & N)%NoDup_app. cbn [map]. apply NoDup_cons.
  split; [|by apply IH]. intros (y & E & Hy)%list_elem_of_fmap. apply (Hd (as_pml4 x)); [left|]. apply elem_of_mjoin_map. exists y. split; [done|]. rewrite E. left.
Qed.
Lemma update_space_map p h l : NoDup (map as_pml4 l) → update_space p h l = map (λ s, if is_space p s then h s else s) l.
Proof.
  induction l as [|s l IH]; [done|]. simpl. intros [Hn N]%NoDup_cons. destruct (is_space p s) eqn:Es; [|by rewrite IH].
  unfold is_space in Es. apply Z.eqb_eq in Es as <-. f_equal. rewrite <-(map_id l) at 1. apply map_ext_in. intros x Hx. unfold is_space. destruct (Z.eqb_spec (as_pml4 x) (as_pml4 s)) as [E|]; [|done].
  destruct Hn. apply list_elem_of_fmap. exists x. split; [done|by apply list_elem_of_In].
Qed.
Lemma respace_frames p h l extra s0 : NoDup (map as_pml4 l) → s0 ∈ l → as_pml4 s0 = p →
  (∀ s, as_pml4 s = p → space_frames (h s) ≡ₚ extra ++ space_frames s) →
  mjoin (map space_frames (update_space p h l)) ≡ₚ extra ++ mjoin (map space_frames l).
Proof.
  intros N Hin Hp Hh. induction l as [|s l IH]; [by apply elem_of_nil in Hin|]. cbn [map] in N. apply NoDup_cons in N as [Hn N]. cbn [update_space].
  destruct (is_space p s) eqn:E; unfold is_space in E; zbool; rewrite !mjoin_map_cons; [by rewrite (Hh s E), app_assoc|].
  apply elem_of_cons in Hin as [->|Hin]; [done|]. rewrite IH by done. by rewrite Permutation_app_swap_app.
Qed.

Lemma vmm_ok_respace v g g' p h : vmm_ok v g → (∀ s, as_pml4 (h s) = as_pml4 s) →
  let v' := set_spaces (update_space p h (v_spaces v)) v in
  all_frames v g ≡ₚ all_frames v' g' → g_own g' = g_own g → g_env g' = g_env g →
  (∀ f, f ∈ g_lost g → f ∈ g_lost g' ∨ ∃ s, s ∈ v_spaces v ∧ as_pml4 s = p ∧ f ∈ as_tables (h s) ∧ ∀ q k, g_own g !! f = Some (q, k) → q = p) →
  (∀ s f, s ∈ v_spaces v → as_pml4 s = p → (f ∈ as_tables s → f ∈ as_tables (h s)) ∧ (f ∈ as_leaves s → f ∈ as_leaves (h s))) →
  (∀ f, f ∈ g_held g → f ∈ g_held g' ∨ ∃ s, s ∈ v_spaces v ∧ as_pml4 s = p ∧ f ∈ as_leaves (h s) ∧
     ∃ t0 i0, g_own g !! t0 = Some (p, 1%nat) ∧ ∀ t i, points (g_own g) (v_mem v) t i f → t = t0 ∧ i = i0) →
  vmm_ok v' g'.
Proof.
  intros H Hh v' HP Ho Hg Hl Hs Hx. set (h' := λ s, if is_space p s then h s else s).
  assert (Hsp : v_spaces v' = map h' (v_spaces v)) by (apply update_space_map; by eapply spaces_nodup).
  assert (Hp' : ∀ s, as_pml4 (h' s) = as_pml4 s) by (intros s; unfold h'; case_match; auto).
  assert (Hin : ∀ s', s' ∈ v_spaces v' → ∃ s, s ∈ v_spaces v ∧ s' = h' s) by (rewrite Hsp; intros s' (s & -> & ?)%list_elem_of_fmap; eauto).
  assert (Hh' : ∀ s, as_pml4 s = p → h' s = h s) by (intros s Es; unfold h', is_space; by rewrite Es, Z.eqb_refl).
  assert (Hmono : ∀ s f, s ∈ v_spaces v → (f ∈ as_tables s → f ∈ as_tables (h' s)) ∧ (f ∈ as_leaves s → f ∈ as_leaves (h' s))).
  { intros s f Hi. unfold h', is_space. destruct (Z.eqb_spec (as_pml4 s) p); [by apply Hs|done]. }
  pose proof (space_unique v g) as HU. pose proof H as [I A N F M R O X L EP T K].
  split; unfold g_all, g_perm in *; rewrite ?Ho, ?Hg; try done.
  - by rewrite <-HP.
  - intros s' (s & Hi & ->)%Hin. rewrite Hp'. by apply R.
  - intros f q k Hf. destruct (O f q k Hf) as (s & Hi & Eq & Hk). destruct Hk as [Hk|[[Ht|Ht] Hk]].
    + exists (h' s). rewrite Hp', Hsp. split_and!; [by apply list_elem_of_fmap; eauto|done|by left].
    + exists (h' s). rewrite Hp', Hsp. split_and!; [by apply list_elem_of_fmap; eauto|done|]. right. split; [left; by apply Hmono|done].
    + destruct (Hl f Ht) as [?|(s1 & Hi1 & E1 & Ht1 & Hq)].
      * exists (h' s). rewrite Hp', Hsp. split_and!; [by apply list_elem_of_fmap; eauto|done|]. right. split; [by right|done].
      * rewrite (Hq q k Hf). exists (h' s1). rewrite Hp', Hsp. split_and!; [by apply list_elem_of_fmap; eauto|done|]. right.
        split; [left; by rewrite Hh'|done].
  - intros t q i s' Ht Hi Hz (s & Hi1 & ->)%Hin. rewrite Hp'. intros Eq. destruct (L t q i s Ht Hi Hz Hi1 Eq) as [Hy|Hy]; [left; by apply Hmono|].
    destruct (Hx _ Hy) as [?|(s1 & Hi2 & E1 & Hl1 & t0 & i0 & Ht0 & Hq)]; [by right|]. left.
    destruct (Hq t i) as [-> ->]; [split_and!; [exists q, 1%nat; split; [done|lia]|done..]|]. rewrite Ht in Ht0. injection Ht0 as ->.
    rewrite (HU s s1 H Hi1 Hi2) by congruence. by rewrite Hh'.
  - intros t i t' i' f P1 P2 Hf. destruct (decide (f ∈ g_held g)) as [Hfh|]; [|by eapply T].
    destruct (Hx f Hfh) as [?|(_ & _ & _ & _ & t0 & i0 & _ & Hq)]; [done|]. destruct (Hq _ _ P1), (Hq _ _ P2). split; congruence.
  - intros s' i (s & Hi1 & ->)%Hin. rewrite Hp'. by apply K.
Qed.

Lemma vmm_ok_record_tables v g p new lost : vmm_ok v g → g_lost g ≡ₚ new ++ lost → (∃ s, s ∈ v_spaces v ∧ as_pml4 s = p) →
  (∀ f, f ∈ new → ∃ k, g_own g !! f = Some (p, k)) →
  vmm_ok (record_table_frames p new v) {| g_own := g_own g; g_lost := lost; g_held := g_held g; g_env := g_env g |}.
Proof.
  intros H Hl (s & Hs & Hp) Hnew. unfold record_table_frames. destruct (Nat.eqb_spec (length new) 0) as [E|_].
  { destruct new; [|done]. eapply (vmm_ok_frames v _ g); [done| |apply H|done|done|done|intros f; by rewrite Hl|apply H|done|auto].
    unfold all_frames. simpl. by rewrite Hl. }
  set (h := λ s, {| as_pml4 := as_pml4 s; as_tables := as_tables s ++ new; as_leaves := as_leaves s; as_file_backed := as_file_backed s |}).
  apply (vmm_ok_respace v g _ p h H); [done| |done|done| | |by intros; left].
  - unfold all_frames. cbn [v_alloc v_spaces v_boot set_spaces g_held g_lost]. rewrite (respace_frames p h (v_spaces v) new s);
      [|by eapply spaces_nodup|done|done|].
    + rewrite Hl, <-!app_assoc. apply Permutation_app_head. rewrite (Permutation_app_swap_app (g_held g) new). apply Permutation_app_swap_app.
    + intros x _. unfold space_frames, h. simpl. rewrite <-app_assoc. rewrite (Permutation_app_swap_app (as_tables x)). by rewrite Permutation_middle.
  - intros f. rewrite Hl. intros [Hf|Hf]%elem_of_app; [right|by left]. exists s. split_and!; [done|done|simpl; apply elem_of_app; by right|].
    intros q k Hq. destruct (Hnew f Hf) as [k' Hk]. congruence.
  - intros s' f _ _. simpl. split; [|done]. intros ?. apply elem_of_app. by left.
Qed.
Lemma vmm_ok_record_leaf v g p f held : vmm_ok v g → g_held g ≡ₚ f :: held → (∃ s, s ∈ v_spaces v ∧ as_pml4 s = p) →
  (∃ t0 i0, g_own g !! t0 = Some (p, 1%nat) ∧ ∀ t i, points (g_own g) (v_mem v) t i f → t = t0 ∧ i = i0) →
  vmm_ok (record_leaf_frame p f v) (set_held held g).
Proof.
  intros H Hl (s & Hs & Hp) Hq. unfold record_leaf_frame.
  set (h := λ s, {| as_pml4 := as_pml4 s; as_tables := as_tables s; as_leaves := as_leaves s ++ [f]; as_file_backed := as_file_backed s |}).
  apply (vmm_ok_respace v g _ p h H); [done| |done|done|by intros; left| |].
  - unfold all_frames. cbn [v_alloc v_spaces v_boot set_spaces g_held g_lost]. rewrite (respace_frames p h (v_spaces v) [f] s);
      [|by eapply spaces_nodup|done|done|].
    + rewrite Hl. simpl. by rewrite !Permutation_middle.
    + intros x _. unfold space_frames, h. simpl. rewrite app_assoc. rewrite (Permutation_app_comm _ [f]). simpl. apply perm_swap.
  - intros s' x _ _. simpl. split; [done|]. intros ?. apply elem_of_app. by left.
  - intros x. rewrite Hl. intros [->|Hx]%elem_of_cons; [right|by left]. exists s. split_and!; [done|done|simpl; apply elem_of_app; right; by apply list_elem_of_singleton|].
    done.
Qed.

(** The roots and leaves recorded. *)
Definition leaves (v : Vmm) : list (Z * list Z) := map (λ s, (as_pml4 s, as_leaves s)) (v_spaces v).
Lemma leaves_record_tables p new v : leaves (record_table_frames p new v) = leaves v.
Proof.
  unfold record_table_frames, leaves. case_match; [done|]. simpl. induction (v_spaces v) as [|s l IH]; [done|]. simpl. case_match; [done|]. simpl. by rewrite IH.
Qed.
Lemma update_space_others p h l s : (∀ x, as_pml4 (h x) = as_pml4 x) → as_pml4 s ≠ p → s ∈ update_space p h l ↔ s ∈ l.
Proof.
  intros Hh Hs. induction l as [|x l IH]; [done|]. simpl. unfold is_space. destruct (Z.eqb_spec (as_pml4 x) p); rewrite !elem_of_cons; [|by rewrite IH].
  split; intros [->|?]; auto; exfalso; [apply Hs; by rewrite Hh|by apply Hs].
Qed.
Lemma record_table_others p new v s : as_pml4 s ≠ p → s ∈ v_spaces (record_table_frames p new v) ↔ s ∈ v_spaces v.
Proof. intros Hs. unfold record_table_frames. case_match; [done|]. simpl. by apply update_space_others. Qed.
Lemma live_leaves v v' p : leaves v' = leaves v → (∃ s, s ∈ v_spaces v ∧ as_pml4 s = p) → ∃ s, s ∈ v_spaces v' ∧ as_pml4 s = p.
Proof.
  intros E (s & Hs & Hp). assert (Hin : (as_pml4 s, as_leaves s) ∈ leaves v') by (rewrite E; apply list_elem_of_fmap; eauto).
  apply list_elem_of_fmap in Hin as (s' & [= Hx _] & Hs'). exists s'. split; [done|congruence].
Qed.

Record page_mapped (p va frame flags : Z) (ok : bool) (v : Vmm) (g : ghost) (v' : Vmm) (g' : ghost) : Prop := {
  pm_ok : vmm_ok v' g';
  pm_held : g_held g' = g_held g ∧ g_env g' = g_env g;
  pm_lost : ∃ new, g_lost g' ≡ₚ new ++ g_lost g ∧ (ok = true → new = []);
  pm_others : ∀ s, as_pml4 s ≠ p → s ∈ v_spaces v' ↔ s ∈ v_spaces v;
  pm_leaves : leaves v' = leaves v;
  pm_regs : v_boot v' = v_boot v ∧ v_cr3 v' = v_cr3 v;
  pm_data : ∀ f, g_own g' !! f = None → v_mem v' f = v_mem v f;
  pm_grows : grows p (v_mem v) (g_own g) (v_mem v') (g_own g');
  pm_entries : ∀ t q i, g_own g' !! t = Some (q, 1%nat) → index_ok i → entry (v_mem v') t i ≠ 0 →
    (g_own g !! t = Some (q, 1%nat) ∧ entry (v_mem v) t i = entry (v_mem v') t i) ∨
    (ok = true ∧ i = pt_index 1 va ∧ path (v_mem v') flags va 4 p t ∧ e_addr (entry (v_mem v') t i) = frame);
  pm_link : linked (v_mem v) (g_own g) (v_mem v') (g_own g');
  pm_mapped : ok = true → mapped (v_mem v') p va frame flags }.

Lemma page_mapped_unmapped p va frame flags ok v g v' g' f : page_mapped p va frame flags ok v g v' g' → (ok = true → f ≠ frame) →
  unmapped f (v_mem v) g → unmapped f (v_mem v') g'.
Proof.
  intros X Hf Hu t q i Ht Hi Hz. destruct (pm_entries _ _ _ _ _ _ _ _ _ X t q i Ht Hi Hz) as [[Ht' E]|(Hok & _ & _ & ->)].
  - rewrite <-E. eapply Hu; [done|done|by rewrite E].
  - intros ->. by apply Hf.
Qed.

(** ** What pages are present *)
(** The walk of [a] from the root [q] ends in a leaf entry. *)
Definition present (m : Mem) (q a : Z) : Prop := ∃ t, path m 0 a 4 q t ∧ entry m t (pt_index 1 a) ≠ 0.
Lemma path_weaken m fl va level t t1 : path m fl va level t t1 → path m 0 va level t t1.
Proof.
  induction 1 as [|level t t' t1 (A & B & _ & D) _ IH]; [constructor|]. econstructor; [|done]. split_and!; [done|done| |done]. intros b _. by rewrite Z.testbit_0_l.
Qed.
(** A path to an old table is an old path. *)
Lemma path_linked p q m own m' own' fl a level t t1 : grows p m own m' own' → linked m own m' own' →
  (∀ t q k i, own' !! t = Some (q, S (S k)) → index_ok i → (k = 2%nat → user_root i) → entry m' t i ≠ 0 → own' !! e_addr (entry m' t i) = Some (q, S k)) →
  path m' fl a level t t1 → own' !! t = Some (q, level) → (level = 4%nat → user_root (pt_index 4 a)) → (level ≤ 4)%nat → is_Some (own !! t1) →
  is_Some (own !! t) ∧ path m 0 a level t t1.
Proof.
  intros G K Hn HP. induction HP as [|level t t' t1 (A & B & _ & D) HP IH]; intros Ht Hr Hl H1; [split; [done|constructor]|].
  pose proof (Hn t q level (pt_index (S (S level)) a) Ht (pt_index_ok _ _)) as Ht'. rewrite A in Ht'.
  destruct IH as [Ho HP']; [apply Ht'; [intros ->; by apply Hr|done]|intros [= ->]; lia|lia|done|].
  destruct (K t q level (pt_index (S (S level)) a) Ht (pt_index_ok _ _) D) as [[Hot Hz]|Hnone]; [|rewrite A in Hnone; by destruct Ho; congruence].
  split; [eauto|]. destruct (gr_upper _ _ _ _ _ G t q level _ Hot (pt_index_ok _ _) Hz) as (W1 & W2 & _ & _).
  econstructor; [|done]. split_and!; [congruence|congruence| |done]. intros b _. by rewrite Z.testbit_0_l.
Qed.

Lemma page_mapped_present p va frame flags ok v g v' g' q a : page_mapped p va frame flags ok v g v' g' →
  g_own g' !! p = Some (p, 4%nat) → g_own g' !! q = Some (q, 4%nat) → user_root (pt_index 4 va) → user_root (pt_index 4 a) → 0 ≤ va < 2 ^ 48 → 0 ≤ a < 2 ^ 48 →
  present (v_mem v') q a → present (v_mem v) q a ∨ (ok = true ∧ q = p ∧ page_down a = page_down va).
Proof.
  intros X Hp Hq HRv HRa Hva Ha (t & HP & Hz). pose proof (pm_ok _ _ _ _ _ _ _ _ _ X) as H'.
  assert (Ht : g_own g' !! t = Some (q, 1%nat)) by (by eapply path_own).
  destruct (pm_entries _ _ _ _ _ _ _ _ _ X t q (pt_index 1 a) Ht (pt_index_ok _ _) Hz) as [[Hot E]|(Hok & Ei & HPv & _)].
  - left. exists t. split; [|by rewrite E]. eapply (path_linked p q _ _ _ _ _ a 4 q t (pm_grows _ _ _ _ _ _ _ _ _ X) (pm_link _ _ _ _ _ _ _ _ _ X));
      [|done|done|done|lia|by eauto]. intros u x k i Hu Hi Hr Hnz. by apply (vo_next _ _ H').
  - right. destruct (paths_apart v' g' _ _ a va 4 q p q p t H' HP HPv) as [-> Hk]; [done..|]. split_and!; [done|done|].
    apply indices_page; [done|done|]. intros k Hk4. destruct (decide (k = 1%nat)) as [->|]; [done|]. apply Hk. lia.
Qed.

Section Map.
Context {MP : Mapper} {MS : MapperSpec}.

Lemma tracked_start v a : v_alloc v = Some a → tracked v {| tr_mem := v_mem v; tr_inner := a; tr_allocated := [] |} = v.
Proof. intros Ha. destruct v; simpl in *. unfold tracked, set_mem, set_alloc. simpl. by rewrite Ha. Qed.

Lemma held_frame_ok v g f : vmm_ok v g → f ∈ g_held g → frame_ok f.
Proof.
  intros H Hf. eapply Forall_forall; [apply (vo_frames _ _ H)|]. rewrite <-(vo_all _ _ H). unfold all_frames. rewrite !elem_of_app. auto.
Qed.
Lemma leaf_entry_ok frame flags : frame_ok frame → flags_ok flags → entry_ok (Z.lor frame flags) ∧ Z.lor frame flags ≠ 0 ∧ e_addr (Z.lor frame flags) = frame.
Proof.
  intros Hf (F1 & F2 & F3 & F4). pose proof (frame_ok_bound _ Hf). split_and!.
  - apply entry_lor_ok; unfold entry_ok; lia.
  - intros E%(f_equal (λ x, Z.testbit x 0)). rewrite lor_frame_bit, F4 in E by done. done.
  - by apply e_addr_frame.
Qed.

Lemma map_page_in_ok p va frame flags v g r v' : vmm_ok v g → flags_ok flags → g_perm g flags → frame ∈ g_held g → (∃ s, s ∈ v_spaces v ∧ as_pml4 s = p) →
  user_root (pt_index 4 va) → map_page_in p va frame flags v = (r, v') →
  ∃ g', page_mapped p va frame flags (is_ok r) v g v' g'.
Proof.
  intros Hv F Fp Hf Hs Hr. destruct (vo_init _ _ Hv) as [a Ea]. unfold map_page_in. rewrite Ea.
  set (ts := {| tr_mem := v_mem v; tr_inner := a; tr_allocated := [] |}). pose proof (tracked_start v a Ea) as Et. fold ts in Et.
  destruct (map_to_spec p va frame flags ts) as (o & ts1 & HD & ->).
  assert (Hroot : g_own g !! p = Some (p, 4%nat)) by (destruct Hs as (s & Hs & <-); by apply (vo_root _ _ Hv)).
  destruct (extends_descend v p flags va 4 p ts o ts1 g F) as (g1 & X & Ho & K); [by rewrite Et|done|done|done|].
  assert (Hfail : ∀ v'', v'' = set_mem (tr_mem ts1) (set_alloc (Some (tr_inner ts1)) v) → page_mapped p va frame flags false v g v'' g1).
  { intros v'' ->. destruct X as [XA XH (new & _ & XP & _) XL XD XG]. split; try done; [by exists new|]. intros t q i Ht Hi Hz. left. by apply XL. }
  destruct o as [t1|]; [|intros [= <- <-]; exists g1; by apply Hfail].
  destruct (is_unused (entry (tr_mem ts1) t1 (pt_index 1 va))) eqn:Eu; [|intros [= <- <-]; exists g1; by apply Hfail].
  intros [= <- <-]. destruct Ho as [Ho HP]. destruct X as [XA XH (new & XN & XP & XO) XL XD XG]. simpl in XN.
  destruct (leaf_entry_ok frame flags) as (E1 & E2 & E3); [exact (held_frame_ok _ _ _ Hv Hf)|done|].
  set (m' := set_entry t1 (pt_index 1 va) (Z.lor frame flags) (tr_mem ts1)).
  assert (Hne : ∀ u j, index_ok j → (u, j) ≠ (t1, pt_index 1 va) → entry m' u j = entry (tr_mem ts1) u j).
  { intros u j Hj Hne. apply entry_set_ne; [apply (vo_mem _ _ XA)|apply pt_index_ok|done|done]. }
  assert (Heq : entry m' t1 (pt_index 1 va) = Z.lor frame flags) by (apply entry_set_eq; [apply (vo_mem _ _ XA)|apply pt_index_ok|done]).
  assert (Hz1 : entry (tr_mem ts1) t1 (pt_index 1 va) = 0) by (by apply Z.eqb_eq).
  assert (Hok : vmm_ok (set_mem m' (set_alloc (Some (tr_inner ts1)) v)) g1).
  { apply (vmm_ok_set_entry (tracked v ts1) g1 t1 p 1 _ _ XA Ho (pt_index_ok _ _) E1); [lia|intros _; split; [intros s' _ _; right|]|intros _ Hn; destruct Hn; by rewrite E3, (proj1 XH)].
    - by rewrite E3, (proj1 XH).
    - destruct F as (F1 & F2' & _). rewrite e_flags_frame; [|exact (held_frame_ok _ _ _ Hv Hf)|done..]. unfold g_perm. by rewrite (proj2 XH). }
  assert (G2 : grows p (tr_mem ts1) (g_own g1) m' (g_own g1)).
  { split; [done|congruence| | |].
    - intros u q j Hu Hj Hz. apply Hne; [done|]. intros [= -> ->]. done.
    - intros u q k j Hu Hj Hz. rewrite Hne; [by apply widened_refl|done|congruence].
    - intros u q k j Hu Hq Hj. apply Hne; [done|]. intros [= -> ->]. congruence. }
  assert (HP' : path m' flags va 4 p t1) by (by eapply (path_grows _ _ _ _ _ _ _ _ _ p XA HP); [by eapply lookup_weaken, gr_own|by intros _|]).
  exists {| g_own := g_own g1; g_lost := g_lost g; g_held := g_held g1; g_env := g_env g1 |}.
  assert (Hm : v_mem (record_table_frames p (tr_allocated ts1) (set_mem m' (set_alloc (Some (tr_inner ts1)) v))) = m')
    by (unfold record_table_frames; by case_match).
  split; cbn [g_own g_held g_lost]; rewrite ?Hm; try done.
  - rewrite XN. apply vmm_ok_record_tables; [exact Hok|done|done|]. intros f Hf'. destruct (XO f Hf') as (k & ? & _). eauto.
  - exists []. done.
  - intros s Hs'. etrans; [by apply record_table_others|done].
  - etrans; [apply leaves_record_tables|done].
  - unfold record_table_frames. by case_match.
  - intros f Hf'. change (v_mem v f) with (tr_mem ts f). rewrite <-XD by done. unfold m', set_entry. rewrite fn_lookup_insert_ne; [done|congruence].
  - eapply grows_trans; [exact XG|exact G2].
  - intros t q i Ht Hi Hz. destruct (decide ((t, i) = (t1, pt_index 1 va))) as [[= -> ->]|Hd].
    + right. rewrite Heq, E3. by split_and!.
    + left. rewrite (Hne t i Hi Hd) in Hz |- *. by apply XL.
  - intros t q k i Ht Hi. rewrite Hne; [by apply K|done|]. intros [= -> ->]. congruence.
  - intros _. by exists t1.
Qed.
End Map.
