(* ===== verification/VmmOps.v ===== *)
(** * The operations on address spaces

    What each operation of [Vmm] does to the frames, the tables, and the pages
    that were mapped before. *)
From stdpp Require Import gmap functions.
From S2P Require Import Prelude UserLayout FrameAlloc Vmm VmmMem VmmInv VmmMap.
Set Warnings "-clear-no-such-hyp".

Local Open Scope Z_scope.

(** Frames whose contents are not the tables': leaves, what the kernel holds, the
    boot table, and memory the allocator does not manage. *)
Definition kept (v : Vmm) (g : ghost) (f : Z) : Prop :=
  f ∈ g_held g ∨ (∃ s, s ∈ v_spaces v ∧ f ∈ as_leaves s) ∨ f = page_down (v_boot v) ∨ f ∉ g_all g.
Definition owns (p f : Z) (v : Vmm) : Prop := ∃ s, s ∈ v_spaces v ∧ as_pml4 s = p ∧ f ∈ as_leaves s.
Definition live (p : Z) (v : Vmm) : Prop := ∃ s, s ∈ v_spaces v ∧ as_pml4 s = p.

(** An operation on the address space [p]: what was mapped stays mapped, and what
    was kept keeps its contents. *)
Record progress (p : Z) (v : Vmm) (g : ghost) (v' : Vmm) (g' : ghost) : Prop := {
  pr_ok : vmm_ok v' g';
  pr_all : g_env g' = g_env g;
  pr_regs : v_boot v' = v_boot v ∧ v_cr3 v' = v_cr3 v;
  pr_grows : grows p (v_mem v) (g_own g) (v_mem v') (g_own g');
  pr_roots : map as_pml4 (v_spaces v') = map as_pml4 (v_spaces v);
  pr_lost : ∃ new, g_lost g' ≡ₚ new ++ g_lost g;
  pr_others : ∀ s, as_pml4 s ≠ p → s ∈ v_spaces v' ↔ s ∈ v_spaces v;
  pr_leaves : ∀ s, s ∈ v_spaces v → ∃ s', s' ∈ v_spaces v' ∧ as_pml4 s' = as_pml4 s ∧ ∀ f, f ∈ as_leaves s → f ∈ as_leaves s';
  pr_data : ∀ f, kept v g f → v_mem v' f = v_mem v f }.
Record after (p : Z) (v : Vmm) (g : ghost) (v' : Vmm) (g' : ghost) : Prop := {
  af_progress : progress p v g v' g';
  af_held : g_held g' ≡ₚ g_held g;
  af_unmapped : ∀ f, f ∈ g_held g → unmapped f (v_mem v) g → unmapped f (v_mem v') g' }.

Lemma progress_refl p v g : vmm_ok v g → progress p v g v g.
Proof. intros H. split; try done; [apply grows_refl|by exists []|]. intros s Hs. by exists s. Qed.
Lemma progress_trans p v1 g1 v2 g2 v3 g3 : progress p v1 g1 v2 g2 → progress p v2 g2 v3 g3 → (∀ f, f ∈ g_held g1 → f ∈ g_held g2) →
  progress p v1 g1 v3 g3.
Proof.
  intros [A1 L1 R1 G1 P1 (n1 & N1) O1 S1 D1] [A2 L2 R2 G2 P2 (n2 & N2) O2 S2 D2] Hh.
  split; [done|congruence|destruct R1, R2; split; congruence|by eapply grows_trans|congruence| | | |].
  - exists (n2 ++ n1). by rewrite N2, N1, app_assoc.
  - intros s Hs. by rewrite O2, O1.
  - intros s Hs. destruct (S1 s Hs) as (s2 & Hs2 & E2 & I2). destruct (S2 s2 Hs2) as (s3 & Hs3 & E3 & I3). exists s3. split_and!; [done|congruence|auto].
  - intros f Hf. rewrite D2; [by apply D1|]. unfold kept, g_all. rewrite (proj1 R1), L1. destruct Hf as [?|[(s & Hs & Hf)|?]]; [left; auto| |by right; right].
    destruct (S1 s Hs) as (s2 & Hs2 & _ & I2). right. left. eauto.
Qed.
Lemma after_refl p v g : vmm_ok v g → after p v g v g.
Proof. intros H. split; [by apply progress_refl|done|done]. Qed.
Lemma after_trans p v1 g1 v2 g2 v3 g3 : after p v1 g1 v2 g2 → after p v2 g2 v3 g3 → after p v1 g1 v3 g3.
Proof.
  intros [P1 H1 U1] [P2 H2 U2]. split; [|by rewrite H2|].
  - eapply progress_trans; [done|done|]. intros f. by rewrite H1.
  - intros f Hf Hu. apply U2; [by rewrite H1|]. by apply U1.
Qed.

Lemma live_roots v v' p : map as_pml4 (v_spaces v') = map as_pml4 (v_spaces v) → live p v → live p v'.
Proof.
  intros E (s & Hs & Hp). assert (Hin : p ∈ map as_pml4 (v_spaces v')) by (rewrite E; apply list_elem_of_fmap; eauto).
  apply list_elem_of_fmap in Hin as (s' & -> & Hs'). by exists s'.
Qed.
Lemma perm_env g g' flags : g_env g' = g_env g → g_perm g flags → g_perm g' flags.
Proof. unfold g_perm. by intros ->. Qed.
Lemma live_root v g p : vmm_ok v g → live p v → g_own g !! p = Some (p, 4%nat).
Proof. intros H (s & Hs & <-). by apply (vo_root _ _ H). Qed.

(** ** Pages added *)
(** Every page of [v'] was one of [v] or is one of the pages [N] of [p]. *)
Definition adds (p : Z) (N : list Z) (v v' : Vmm) : Prop :=
  ∀ q a, live q v → user_root (pt_index 4 a) → 0 ≤ a < 2 ^ 48 → present (v_mem v') q a → present (v_mem v) q a ∨ (q = p ∧ page_down a ∈ N).
Lemma adds_mono p N N' v v' : (∀ x, x ∈ N → x ∈ N') → adds p N v v' → adds p N' v v'.
Proof. intros Hs A q a Hq Hr Ha Hp. destruct (A q a Hq Hr Ha Hp) as [?|[? ?]]; [by left|right; auto]. Qed.
Lemma adds_trans p N N' v1 v2 v3 : map as_pml4 (v_spaces v2) = map as_pml4 (v_spaces v1) → adds p N v1 v2 → adds p N' v2 v3 → adds p (N ++ N') v1 v3.
Proof.
  intros E A B q a Hq Hr Ha Hp. rewrite elem_of_app. destruct (B q a (live_roots v1 v2 q E Hq) Hr Ha Hp) as [Hp2|[? ?]]; [|by auto].
  destruct (A q a Hq Hr Ha Hp2) as [?|[? ?]]; auto.
Qed.
Lemma adds_eq p v v' : v_mem v' = v_mem v → adds p [] v v'.
Proof. intros E q a _ _ _. rewrite E. by left. Qed.
Lemma adds_same p v g v' : vmm_ok v' g → map as_pml4 (v_spaces v') = map as_pml4 (v_spaces v) → (∀ t, is_Some (g_own g !! t) → v_mem v' t = v_mem v t) → adds p [] v v'.
Proof.
  intros H ER Hm q a Hq Hr Ha (t & HP & Hz). left.
  assert (He : ∀ t x i, g_own g !! t = Some x → entry (v_mem v') t i = entry (v_mem v) t i) by (intros u x i Hu; unfold entry; by rewrite Hm).
  assert (HK : ∀ level t0, path (v_mem v') 0 a level t0 t → (level ≤ 4)%nat → g_own g !! t0 = Some (q, level) → path (v_mem v) 0 a level t0 t ∧ is_Some (g_own g !! t)).
  { clear HP Hz. intros level t0 HP. induction HP as [|level t0 t' t1 HL HP IH]; intros Hl Ht0; [split; [constructor|eauto]|].
    pose proof HL as (A & _ & _ & D).
    destruct (vo_next _ _ H t0 q level (pt_index (S (S level)) a) Ht0 (pt_index_ok _ _)) as [Hn _]; [intros ->; done|done|]. rewrite A in Hn.
    destruct IH as [? ?]; [lia|done|]. rewrite (He _ _ _ Ht0) in HL. split; [by econstructor|done]. }
  destruct (HK 4%nat q HP ltac:(lia) (live_root _ _ _ H (live_roots _ _ _ ER Hq))) as [HP' [x Hx]]. exists t. split; [done|]. by rewrite <-(He _ _ _ Hx).
Qed.

Section Ops.
Context {MP : Mapper} {MS : MapperSpec}.

Lemma in_all v g f x : vmm_ok v g → is_at v g f x → f ∈ g_all g.
Proof. intros H Hx. rewrite <-(vo_all _ _ H), <-places_frames. apply list_elem_of_fmap. by exists (f, x). Qed.
Lemma own_not_kept v g f x : vmm_ok v g → g_own g !! f = Some x → ¬ kept v g f.
Proof.
  intros H Hx. destruct x as [p k]. intros [Hf|[(s & Hs & Hf)|[Hf|Hf]]].
  - by rewrite (own_not_held v g f H) in Hx by by left.
  - destruct (own_apart v g f p k (Leaf (as_pml4 s)) H Hx) as [?|[?|?]]; [|done..]. apply is_at_spec. eauto.
  - destruct (own_apart v g f p k Boot H Hx) as [?|[?|?]]; [by apply is_at_spec|done..].
  - apply Hf. destruct (own_at v g f p k H Hx) as [?|[?|?]]; by eapply in_all.
Qed.
Lemma kept_data p va frame flags ok v g v' g' f : vmm_ok v g → page_mapped p va frame flags ok v g v' g' → kept v g f → v_mem v' f = v_mem v f.
Proof.
  intros H X Hf. apply (pm_data _ _ _ _ _ _ _ _ _ X). destruct (g_own g' !! f) as [x|] eqn:E; [|done]. exfalso.
  eapply (own_not_kept v' g'); [apply X|done|]. unfold kept, g_all. destruct (pm_held _ _ _ _ _ _ _ _ _ X) as [-> ->]. rewrite (proj1 (pm_regs _ _ _ _ _ _ _ _ _ X)).
  destruct Hf as [?|[(s & Hs & Hf)|?]]; [by left| |by right; right]. right. left.
  assert (Hin : (as_pml4 s, as_leaves s) ∈ leaves v') by (rewrite (pm_leaves _ _ _ _ _ _ _ _ _ X); apply list_elem_of_fmap; eauto).
  apply list_elem_of_fmap in Hin as (s' & [= E1 E2] & Hs'). exists s'. by rewrite <-E2.
Qed.

Lemma roots_leaves v v' : leaves v' = leaves v → map as_pml4 (v_spaces v') = map as_pml4 (v_spaces v).
Proof. intros E%(f_equal (map fst)). unfold leaves in E. by rewrite !map_map in E. Qed.
Lemma record_leaf_roots p f v : map as_pml4 (v_spaces (record_leaf_frame p f v)) = map as_pml4 (v_spaces v).
Proof. unfold record_leaf_frame. simpl. induction (v_spaces v) as [|s l IH]; [done|]. simpl. destruct (is_space p s); simpl; by rewrite ?IH. Qed.
Lemma record_leaf_leaves p f v s : s ∈ v_spaces v → ∃ s', s' ∈ v_spaces (record_leaf_frame p f v) ∧ as_pml4 s' = as_pml4 s ∧ ∀ x, x ∈ as_leaves s → x ∈ as_leaves s'.
Proof.
  unfold record_leaf_frame. simpl. induction (v_spaces v) as [|s0 l IH]; [by intros ?%elem_of_nil|]. simpl. intros [->|Hs]%elem_of_cons.
  - destruct (is_space p s0); eexists; (split; [left|]); simpl; (split; [done|]); [|done]. intros x Hx. apply elem_of_app. by left.
  - destruct (is_space p s0); [exists s; split; [by right|done]|]. destruct (IH Hs) as (s' & ? & ?). exists s'. split; [by right|done].
Qed.

Lemma record_leaf_owns p f v : live p v → owns p f (record_leaf_frame p f v).
Proof.
  intros (s & Hs & Hp). unfold owns, record_leaf_frame. simpl. induction (v_spaces v) as [|s0 l IH]; [by apply elem_of_nil in Hs|]. simpl.
  unfold is_space. destruct (Z.eqb_spec (as_pml4 s0) p).
  - eexists. split; [left|]. simpl. split; [done|]. apply elem_of_app. right. by apply list_elem_of_singleton.
  - apply elem_of_cons in Hs as [->|Hs]; [done|]. destruct (IH Hs) as (s' & ? & ?). exists s'. split; [by right|done].
Qed.

Lemma page_mapped_progress p va frame flags ok v g v' g' : vmm_ok v g → page_mapped p va frame flags ok v g v' g' → progress p v g v' g'.
Proof.
  intros H X. pose proof X as [X1 [X2 X2'] (new & X3 & _) X3' X4 X5 X6 X7 X8 X9]. split; try done; [by apply roots_leaves|by exists new| |].
  - intros s Hin. assert (Hi : (as_pml4 s, as_leaves s) ∈ leaves v') by (rewrite X4; apply list_elem_of_fmap; eauto).
    apply list_elem_of_fmap in Hi as (s' & [= E1 E2] & Hs'). exists s'. rewrite <-E1, <-E2. done.
  - intros f Hk. by eapply (kept_data _ _ _ _ _ _ _ _ _ _ H X).
Qed.
Lemma page_mapped_adds p va frame flags ok v g v' g' : vmm_ok v g → page_mapped p va frame flags ok v g v' g' → live p v → user_root (pt_index 4 va) → 0 ≤ va < 2 ^ 48 →
  adds p (if ok then [page_down va] else []) v v'.
Proof.
  intros H X HL Hr Hva q a Hq HRa Ha Hp. pose proof (live_roots v v') as LR. pose proof (pr_roots _ _ _ _ _ (page_mapped_progress _ _ _ _ _ _ _ _ _ H X)) as ER.
  destruct (page_mapped_present _ _ _ _ _ _ _ _ _ q a X) as [?|(-> & -> & Ep)]; try done; [apply (live_root v'); [apply X|by apply LR]..|by left|].
  right. split; [done|]. rewrite Ep. left.
Qed.

Lemma map_owned_frame_in_ok p va frame flags v g held r v' : vmm_ok v g → flags_ok flags → g_perm g flags → g_held g ≡ₚ frame :: held → unmapped frame (v_mem v) g →
  live p v → user_root (pt_index 4 va) → 0 ≤ va < 2 ^ 48 → map_owned_frame_in p va frame flags v = (r, v') →
  ∃ g', progress p v g v' g' ∧ (is_ok r = true → g_lost g' ≡ₚ g_lost g) ∧ adds p (if is_ok r then [page_down va] else []) v v' ∧ (∀ f, f ≠ frame → unmapped f (v_mem v) g → unmapped f (v_mem v') g') ∧
    if is_ok r then g_held g' ≡ₚ held ∧ mapped (v_mem v') p va frame flags ∧ owns p frame v' else g_held g' ≡ₚ frame :: held ∧ unmapped frame (v_mem v') g'.
Proof.
  intros H F Fp Hh Hu Hs Hr Hva. unfold map_owned_frame_in. destruct (can_add_owned_pages p 1 v); simpl; [|intros [= <- <-]; exists g; split_and!; [by apply progress_refl|done|by apply adds_eq|done..]].
  destruct (map_page_in p va frame flags v) as [r1 v1] eqn:E. unfold bind. rewrite E.
  assert (Hf : frame ∈ g_held g) by (rewrite Hh; left).
  destruct (map_page_in_ok p va frame flags v g r1 v1 H F Fp Hf Hs Hr E) as (g1 & X).
  pose proof (page_mapped_progress _ _ _ _ _ _ _ _ _ H X) as HP. pose proof (page_mapped_adds _ _ _ _ _ _ _ _ _ H X Hs Hr Hva) as HA.
  destruct r1 as [[]|e]; simpl.
  - intros [= <- <-]. simpl. exists (set_held held g1).
    assert (Hok : vmm_ok (record_leaf_frame p frame v1) (set_held held g1)).
    { apply vmm_ok_record_leaf; [apply X|by rewrite (proj1 (pm_held _ _ _ _ _ _ _ _ _ X))|by eapply live_roots; [apply (pr_roots _ _ _ _ _ HP)|]|].
      destruct (pm_mapped _ _ _ _ _ _ _ _ _ X eq_refl) as (t1 & HP1 & _). pose proof (pm_ok _ _ _ _ _ _ _ _ _ X) as H1.
      exists t1, (pt_index 1 va). split; [eapply (path_own v1 g1); [done|done| |done]; eapply live_root; [done|]; by eapply live_roots; [apply (pr_roots _ _ _ _ _ HP)|]|].
      intros t i Pt. destruct (points_next v1 g1 t i frame H1 Pt) as [[q Hq]|[x Hx]].
      - destruct Pt as (_ & Hi & Hz & Ee). destruct (pm_entries _ _ _ _ _ _ _ _ _ X t q i Hq Hi Hz) as [[Ht' E']|(_ & -> & HP2 & _)]; [|by rewrite (path_unique _ _ _ _ _ _ _ _ HP2 HP1)].
        exfalso. eapply (Hu t q i); [done|done|by rewrite E'|by rewrite E'].
      - rewrite (own_not_held v1 g1 frame H1) in Hx; [done|]. left. by rewrite (proj1 (pm_held _ _ _ _ _ _ _ _ _ X)). }
    split_and!; [|destruct (pm_lost _ _ _ _ _ _ _ _ _ X) as (new & -> & Hnew); by rewrite Hnew|exact HA|intros f Hn Hx; exact (page_mapped_unmapped _ _ _ _ _ _ _ _ _ f X (λ _, Hn) Hx)|done|by apply (pm_mapped _ _ _ _ _ _ _ _ _ X)|apply record_leaf_owns; by eapply live_roots; [apply (pr_roots _ _ _ _ _ HP)|]].
    destruct HP as [Q1 Q2 Q3 Q4 Q5 Q5' Q5'' Q6 Q7]. split; try done; [by rewrite record_leaf_roots|intros s Hn; rewrite <-(Q5'' s Hn); by apply update_space_others|].
    intros s Hin. destruct (Q6 s Hin) as (s1 & Hs1 & E1 & I1). destruct (record_leaf_leaves p frame v1 s1 Hs1) as (s2 & Hs2 & E2 & I2).
    exists s2. split_and!; [done|congruence|auto].
  - intros [= <- <-]. simpl. exists g1. split_and!; [done|done|done| | |].
    + intros f Hn Hx. by eapply (page_mapped_unmapped _ _ _ _ _ _ _ _ _ f X).
    + by rewrite (proj1 (pm_held _ _ _ _ _ _ _ _ _ X)).
    + by eapply (page_mapped_unmapped _ _ _ _ _ _ _ _ _ frame X).
Qed.

(** ** A new page *)
(** The frame [f] has been taken and filled with [d]; nothing maps it yet. *)
Record taken (p : Z) (v : Vmm) (g : ghost) (f : Z) (d : bytes) (v1 : Vmm) : Prop := {
  tk_progress : progress p v g v1 (holding f g);
  tk_unmapped : ∀ x, x = f ∨ x ∈ g_held g ∧ unmapped x (v_mem v) g → unmapped x (v_mem v1) g;
  tk_mem : ∀ t, is_Some (g_own g !! t) → v_mem v1 t = v_mem v t;
  tk_data : v_mem v1 f = d;
  tk_new : ¬ kept v g f }.

Lemma available_not_kept v g f : vmm_ok v g → f ∈ from_option available [] (v_alloc v) → ¬ kept v g f.
Proof.
  intros H Hf. assert (Ha : is_at v g f Avail) by by apply is_at_spec. intros [Hk|[(s & Hs & Hk)|[Hk|Hk]]].
  - by pose proof (is_at_unique v g f Avail Held H Ha ltac:(by apply is_at_spec)).
  - by pose proof (is_at_unique v g f Avail (Leaf (as_pml4 s)) H Ha ltac:(apply is_at_spec; eauto)).
  - by pose proof (is_at_unique v g f Avail Boot H Ha ltac:(by apply is_at_spec)).
  - by apply Hk; eapply in_all.
Qed.

Lemma taken_fill p v g f d d' v1 : taken p v g f d v1 → page_ok d' → taken p v g f d' (set_mem (<[f := d']> (v_mem v1)) v1).
Proof.
  intros [[A1 A2 A3 A4 A5 A5' A5'' A6 A7] U MM D N] Hd.
  assert (Hno : g_own (holding f g) !! f = None) by (eapply own_not_held; [exact A1|left; left]).
  assert (He : ∀ t x i, g_own g !! t = Some x → entry (<[f := d']> (v_mem v1)) t i = entry (v_mem v1) t i).
  { intros t x i Ht. unfold entry. rewrite fn_lookup_insert_ne; [done|]. simpl in Hno. congruence. }
  split; [|intros x Hx t q i Ht Hi; rewrite (He _ _ _ Ht); intros Hz; exact (U x Hx t q i Ht Hi Hz)| |apply fn_lookup_insert|done].
  2:{ intros t Ht. simpl. rewrite fn_lookup_insert_ne; [by apply MM|]. intros <-. simpl in Hno. destruct Ht. congruence. }
  split; try done.
  - apply vmm_ok_write; [done| |].
    + intros h. destruct (decide (h = f)) as [->|]; [by rewrite fn_lookup_insert|]. rewrite fn_lookup_insert_ne by done. apply (vo_mem _ _ A1).
    + intros h [x Hx]. rewrite fn_lookup_insert_ne; [done|congruence].
  - destruct A4 as [G1 G2 G3 G4 G5]. split; try done; simpl in *.
    + intros t q i Ht Hi Hz. rewrite (He _ _ _ Ht). by eapply G3.
    + intros t q k i Ht Hi Hz. rewrite (He _ _ _ Ht). by eapply G4.
    + intros t q k i Ht Hq Hi. rewrite (He _ _ _ Ht). by eapply G5.
  - intros x Hx. simpl. rewrite fn_lookup_insert_ne; [by apply A7|]. by intros ->.
Qed.

Lemma alloc_zeroed_taken p v g f v1 : vmm_ok v g → alloc_zeroed_frame v = (Some f, v1) → taken p v g f (zeros PAGE_SIZE) v1.
Proof.
  intros H. unfold alloc_zeroed_frame. destruct (alloc_frame v) as [[x|] v0] eqn:E; [|done]. intros [= -> <-].
  destruct (alloc_frame_some v g f v0 H E) as (H0 & Hu & Hf & Em & Es & Eb & Ec).
  unfold zero_frame. apply taken_fill with (d := v_mem v f); [|apply zeros_page_ok].
  split; [|intros x [->|[_ Hx]]; [done|by rewrite Em]|intros t _; by rewrite Em|by rewrite Em|exact (available_not_kept v g f H Hf)].
  split; try done; rewrite ?Em, ?Es; try done; [apply grows_refl|by exists []|]. intros s Hs. by exists s.
Qed.
Lemma alloc_zeroed_none v g v1 : vmm_ok v g → alloc_zeroed_frame v = (None, v1) →
  vmm_ok v1 g ∧ v_mem v1 = v_mem v ∧ v_spaces v1 = v_spaces v ∧ v_boot v1 = v_boot v ∧ v_cr3 v1 = v_cr3 v.
Proof. intros H. unfold alloc_zeroed_frame. destruct (alloc_frame v) as [[x|] v0] eqn:E; [done|]. intros [= <-]. by apply alloc_frame_none. Qed.
Lemma same_after p v g v1 : vmm_ok v1 g → v_mem v1 = v_mem v ∧ v_spaces v1 = v_spaces v ∧ v_boot v1 = v_boot v ∧ v_cr3 v1 = v_cr3 v → after p v g v1 g.
Proof.
  intros H (E1 & E2 & E3 & E4). split; [|done|by rewrite E1]. split; try done; rewrite ?E1, ?E2; try done; [apply grows_refl|by exists []|]. intros s Hs. by exists s.
Qed.
Lemma alloc_none_after p v g v1 : vmm_ok v g → alloc_zeroed_frame v = (None, v1) → after p v g v1 g.
Proof. intros H E. destruct (alloc_zeroed_none v g v1 H E). by apply same_after. Qed.

(** The page at [va] of [p] shows the bytes [d] of the frame [f], which [p] owns. *)
Record placed (p va flags f : Z) (d : bytes) (v : Vmm) : Prop := { pl_mapped : mapped (v_mem v) p va f flags; pl_data : v_mem v f = d; pl_owns : owns p f v }.

Lemma taken_freed p v g f d v1 : taken p v g f d v1 → after p v g (free_unmapped_frame f v1) g.
Proof.
  intros [P U MM D N]. pose proof (pr_ok _ _ _ _ _ P) as H1.
  assert (Hf : vmm_ok (free_unmapped_frame f v1) g).
  { assert (E : set_held (g_held g) (holding f g) = g) by (by destruct g). rewrite <-E. apply free_held; [done|done|by apply U; left]. }
  unfold free_unmapped_frame in *. destruct (v_alloc v1) eqn:Ea; (split; [|done|intros x Hx Hu; apply U; by right]); destruct P as [P1 P2 P3 P4 P5 P5' P5'' P6 P7]; split; done.
Qed.

Lemma taken_map p v g va f flags d v1 r v2 : taken p v g f d v1 → flags_ok flags → g_perm g flags → live p v → user_root (pt_index 4 va) → 0 ≤ va < 2 ^ 48 →
  map_owned_frame_in p va f flags v1 = (r, v2) →
  ∃ g', (is_ok r = true → g_lost g' ≡ₚ g_lost g) ∧ adds p (if is_ok r then [page_down va] else []) v v2 ∧ if is_ok r then after p v g v2 g' ∧ placed p va flags f d v2 else after p v g (free_unmapped_frame f v2) g'.
Proof.
  intros [P U MM D N] F Fp HL HR Hva E. pose proof (pr_ok _ _ _ _ _ P) as H1.
  destruct (map_owned_frame_in_ok p va f flags v1 (holding f g) (g_held g) r v2 H1 F Fp) as (g' & P2 & L2 & A2 & U2 & X); [done|by apply U; left|by eapply live_roots; [apply (pr_roots _ _ _ _ _ P)|]|done|done|done|].
  assert (A3 : adds p (if is_ok r then [page_down va] else []) v v2).
  { apply (adds_trans p [] _ v v1 v2 (pr_roots _ _ _ _ _ P)); [|done].
    by apply (adds_same p v (holding f g) v1 H1 (pr_roots _ _ _ _ _ P)). }
  assert (P3 : progress p v g v2 g') by (eapply progress_trans; [exact P|exact P2|by intros x Hx; right]).
  assert (Hdf : v_mem v2 f = d) by (rewrite (pr_data _ _ _ _ _ P2); [done|left; left]).
  assert (Hu : ∀ x, x ∈ g_held g → unmapped x (v_mem v) g → unmapped x (v_mem v2) g').
  { intros x Hx Hxu. apply U2; [|apply U; by right]. intros ->. destruct N. by left. }
  destruct (is_ok r).
  - destruct X as (X1 & X2 & X3). by exists g'.
  - destruct X as [X1 X2]. pose proof (free_held v2 g' f (g_held g) (pr_ok _ _ _ _ _ P3) X1 X2) as H4. exists (set_held (g_held g) g'). split_and!; [done|done|].
    destruct P3 as [Q1 Q2 Q3 Q4 Q5 Q5' Q5'' Q6 Q7]. unfold free_unmapped_frame in *. destruct (v_alloc v2) eqn:Ea; (split; [|done|done]); split; done.
Qed.

Lemma mapped_progress p va flags f q v g v' g' : vmm_ok v g → live p v → user_root (pt_index 4 va) → progress q v g v' g' → flags_ok flags → frame_ok f →
  mapped (v_mem v) p va f flags → mapped (v_mem v') p va f flags.
Proof.
  intros H HL HR P F Hf (t1 & M1 & M2). pose proof (live_root v g p H HL) as Hroot. pose proof (pr_grows _ _ _ _ _ P) as G.
  exists t1. split; [by eapply (path_grows v g)|]. rewrite <-M2. eapply gr_leaf; [exact G|by eapply path_own|apply pt_index_ok|]. rewrite M2. by apply leaf_entry_ok.
Qed.
Lemma placed_progress p va flags f d q v g v' g' : vmm_ok v g → user_root (pt_index 4 va) → progress q v g v' g' → placed p va flags f d v → flags_ok flags →
  frame_ok f → placed p va flags f d v'.
Proof.
  intros H HR P [M D O] F Hf. pose proof P as [A1 A2 A3 A4 A5 _ _ A6 A7]. pose proof O as (s & Hs & Hp & Hl). split.
  - eapply mapped_progress; [exact H|by exists s|done|exact P|done..].
  - rewrite A7; [done|]. right. left. by exists s.
  - destruct (A6 s Hs) as (s' & ? & ? & ?). exists s'. split_and!; [done|congruence|auto].
Qed.

Lemma kept_progress q v g v' g' f : progress q v g v' g' → (∀ x, x ∈ g_held g → x ∈ g_held g') → kept v g f → kept v' g' f.
Proof.
  intros P Hh. unfold kept, g_all. rewrite (proj1 (pr_regs _ _ _ _ _ P)), (pr_all _ _ _ _ _ P). intros [?|[(s & Hs & Hf)|?]]; [left; auto| |by right; right].
  destruct (pr_leaves _ _ _ _ _ P s Hs) as (s' & ? & ? & ?). right. left. eauto.
Qed.
Lemma owns_frame_ok v g p f : vmm_ok v g → owns p f v → frame_ok f.
Proof.
  intros H (s & Hs & _ & Hf). eapply Forall_forall; [apply (vo_frames _ _ H)|]. rewrite <-(vo_all _ _ H). unfold all_frames. rewrite !elem_of_app, elem_of_mjoin_map.
  right. left. exists s. split; [done|]. unfold space_frames. right. apply elem_of_app. by right.
Qed.

Lemma map_fresh_page_ok p va flags v g r v' : vmm_ok v g → flags_ok flags → g_perm g flags → live p v → user_root (pt_index 4 va) → 0 ≤ va < 2 ^ 48 →
  map_fresh_page p va flags v = (r, v') →
  ∃ g', after p v g v' g' ∧ adds p [page_down va] v v' ∧ (is_ok r = true → ∃ f, ¬ kept v g f ∧ placed p va flags f (zeros PAGE_SIZE) v').
Proof.
  intros H F Fp HL HR Hva. unfold map_fresh_page. destruct (alloc_zeroed_frame v) as [[f|] v1] eqn:E.
  - pose proof (alloc_zeroed_taken p v g f v1 H E) as T. destruct (map_owned_frame_in p va f flags v1) as [r2 v2] eqn:E2.
    destruct (taken_map p v g va f flags _ v1 r2 v2 T F Fp HL HR Hva E2) as (g' & _ & A & X).
    destruct r2; intros [= <- <-]; exists g'; simpl in X, A.
    + destruct X. split_and!; [done|done|]. intros _. exists f. split; [apply T|done].
    + split_and!; [done| |done]. eapply adds_mono; [by intros x ?%elem_of_nil|]. unfold free_unmapped_frame. by destruct (v_alloc v2).
  - intros [= <- <-]. exists g. split_and!; [by eapply alloc_none_after| |done]. eapply adds_mono; [by intros x ?%elem_of_nil|].
    apply adds_eq. destruct (alloc_zeroed_none v g v1 H E) as (_ & ? & _). done.
Qed.

(** Pages for a list of addresses, each on a frame of its own. *)
Definition pages_placed (p flags : Z) (ds : list (Z * bytes)) (fs : list Z) (v : Vmm) : Prop := Forall2 (λ x f, placed p x.1 flags f x.2 v) ds fs.
Lemma pages_placed_progress p flags ds fs q v g v' g' : vmm_ok v g → flags_ok flags → Forall (λ x, user_root (pt_index 4 x.1)) ds → progress q v g v' g' →
  pages_placed p flags ds fs v → pages_placed p flags ds fs v'.
Proof.
  intros H F HR P. induction 1 as [|x f ds fs Hx _ IH]; [constructor|]. apply Forall_cons in HR as [HR1 HR2].
  constructor; [|by apply IH]. eapply placed_progress; [exact H|done|exact P|done|done|]. eapply owns_frame_ok; [exact H|apply Hx].
Qed.
Lemma placed_kept p va flags f d v g : placed p va flags f d v → kept v g f.
Proof. intros [_ _ (s & ? & _ & ?)]. right. left. eauto. Qed.

Lemma map_pages_ok p va flags offs : ∀ v g r v', vmm_ok v g → flags_ok flags → g_perm g flags → live p v → Forall (λ o, user_root (pt_index 4 (va + o)) ∧ 0 ≤ va + o < 2 ^ 48) offs →
  for_each (λ offset, map_fresh_page p (va + offset) flags) offs v = (r, v') →
  ∃ g', after p v g v' g' ∧ adds p (map (λ o, page_down (va + o)) offs) v v' ∧ (is_ok r = true → ∃ fs, NoDup fs ∧ (∀ f, f ∈ fs → ¬ kept v g f) ∧
    pages_placed p flags (map (λ o, (va + o, zeros PAGE_SIZE)) offs) fs v').
Proof.
  induction offs as [|o offs IH]; intros v g r v' H F Fp HL HR.
  - intros [= <- <-]. exists g. split_and!; [by apply after_refl|by apply adds_eq|]. intros _. exists []. split_and!; [constructor|by intros f ?%elem_of_nil|constructor].
  - cbn [for_each]. unfold bind. destruct (map_fresh_page p (va + o) flags v) as [[[]|e] v1] eqn:E; apply Forall_cons in HR as [[HR1 HB1] HR2];
      destruct (map_fresh_page_ok p (va + o) flags v g _ _ H F Fp HL HR1 HB1 E) as (g1 & A1 & D1 & X1).
    2:{ intros [= <- <-]. exists g1. split_and!; [done| |done]. eapply adds_mono; [|done]. intros x ->%list_elem_of_singleton. left. }
    destruct (X1 eq_refl) as (f & Hk & Hpl). intros E2. pose proof A1 as [P1 H1 _]. pose proof (pr_ok _ _ _ _ _ P1) as Hok.
    destruct (IH v1 g1 r v' Hok F (perm_env _ _ _ (pr_all _ _ _ _ _ P1) Fp) (live_roots v v1 p (pr_roots _ _ _ _ _ P1) HL) HR2 E2) as (g2 & A2 & D2 & X2). exists g2.
    split_and!; [by eapply after_trans|exact (adds_trans p [_] _ v v1 v' (pr_roots _ _ _ _ _ P1) D1 D2)|].
    intros Er. destruct (X2 Er) as (fs & N & Hfs & Hall). exists (f :: fs). split_and!.
    + constructor; [|done]. intros Hin. eapply Hfs; [done|]. by eapply placed_kept.
    + intros x [->|Hx]%elem_of_cons; [done|]. intros Hkx. eapply Hfs; [done|]. eapply kept_progress; [done| |done]. intros y. by rewrite H1.
    + constructor; [|done]. eapply placed_progress; [exact Hok|done|apply A2|exact Hpl|done|]. eapply owns_frame_ok; [exact Hok|apply Hpl].
Qed.
End Ops.

(** ** Writing to a page that is in place *)
Lemma owns_not_own v g p f : vmm_ok v g → owns p f v → g_own g !! f = None.
Proof.
  intros H (s & Hs & Hp & Hf). destruct (g_own g !! f) as [x|] eqn:E; [|done]. exfalso. eapply own_not_kept; [done|done|]. right. left. eauto.
Qed.
(** [m] is the memory of [v] but for the frame [f]. *)
Definition wrote (f : Z) (v : Vmm) (m : Mem) : Prop := page_ok (m f) ∧ ∀ h, h ≠ f → m h = v_mem v h.
Lemma wrote_page f v g m : vmm_ok v g → wrote f v m → ∀ h, page_ok (m h).
Proof. intros H [Hd Hm] h. destruct (decide (h = f)) as [->|]; [done|]. rewrite Hm by done. apply (vo_mem _ _ H). Qed.
Lemma wrote_own f p v g m : vmm_ok v g → owns p f v → wrote f v m → ∀ t, is_Some (g_own g !! t) → m t = v_mem v t.
Proof. intros H Ho [_ Hm] t [x Ht]. apply Hm. intros ->. by rewrite (owns_not_own _ _ _ _ H Ho) in Ht. Qed.
Lemma after_write p v g v1 g1 f m : after p v g v1 g1 → ¬ kept v g f → owns p f v1 → wrote f v1 m → after p v g (set_mem m v1) g1.
Proof.
  intros [[A1 A2 A3 A4 A5 A5' A5'' A6 A7] Hh Hu] Hk Ho Hw. pose proof (wrote_own _ _ _ _ _ A1 Ho Hw) as Hm.
  assert (He : ∀ t x i, g_own g1 !! t = Some x → entry m t i = entry (v_mem v1) t i) by (intros t x i Ht; unfold entry; by rewrite Hm).
  split; [split; try done|done|]; simpl.
  - apply vmm_ok_write; [done|by eapply wrote_page|done].
  - pose proof A4 as [G1 G2 G3 G4 G5]. split; try done.
    + intros t q i Ht Hi Hz. erewrite He by (by eapply lookup_weaken). by eapply G3.
    + intros t q k i Ht Hi Hz. erewrite He by (by eapply lookup_weaken). by eapply G4.
    + intros t q k i Ht Hq Hi. erewrite He by (by eapply lookup_weaken). by eapply G5.
  - intros x Hx. rewrite (proj2 Hw); [by apply A7|]. by intros ->.
  - intros x Hx Hxu t q i Ht Hi. rewrite (He _ _ _ Ht). by apply (Hu x Hx Hxu t q i).
Qed.
Lemma placed_write p va flags f d q f' v g m : vmm_ok v g → user_root (pt_index 4 va) → placed p va flags f d v → owns q f' v → wrote f' v m →
  placed p va flags f (if decide (f = f') then m f' else d) (set_mem m v).
Proof.
  intros H HR [(t & HP & HE) D O] Ho Hw. pose proof (wrote_own _ _ _ _ _ H Ho Hw) as Hm.
  assert (Hroot : g_own g !! p = Some (p, 4%nat)) by (apply (live_root v); [done|]; destruct O as (s & ? & ? & _); by exists s).
  assert (Ht : g_own g !! t = Some (p, 1%nat)) by (by eapply path_own).
  assert (He : ∀ t x i, g_own g !! t = Some x → entry m t i = entry (v_mem v) t i) by (intros u x i Hu; unfold entry; by rewrite Hm).
  split; simpl; [|destruct (decide (f = f')) as [->|]; [done|]; by rewrite (proj2 Hw)|done].
  exists t. split; [|by rewrite (He _ _ _ Ht)]. apply (path_grows v g _ (g_own g) _ _ _ _ _ p H HP Hroot (λ _, HR) p).
  split; [done|congruence|intros; by eapply He| |intros; by eapply He]. intros u x k i Hu _ Hz. rewrite (He _ _ _ Hu). by apply widened_refl.
Qed.
Lemma adds_write p N v v1 g1 q f m : vmm_ok v1 g1 → map as_pml4 (v_spaces v1) = map as_pml4 (v_spaces v) → owns q f v1 → wrote f v1 m → adds p N v v1 →
  adds p N v (set_mem m v1).
Proof.
  intros H ER Ho Hw A. pose proof (wrote_own _ _ _ _ _ H Ho Hw) as Hm. rewrite <-(app_nil_r N). apply (adds_trans p N [] v v1); [done|done|].
  apply (adds_same p v1 g1); [|done|done]. apply vmm_ok_write; [done|by eapply wrote_page|done].
Qed.

(** ** What user code sees of a page in place *)
Lemma pt_index_same level a va : (1 ≤ level)%nat → page_down a = page_down va → pt_index level a = pt_index level va.
Proof. intros Hl E. by rewrite <-(pt_index_page level a), E, pt_index_page by done. Qed.
Lemma leads_permits flags e t w : leads flags e t → Z.testbit flags 0 = true → Z.testbit flags 2 = true → (w = true → Z.testbit flags 1 = true) → permits e w = true.
Proof.
  intros (_ & _ & C & _) F0 F2 Fw. unfold permits. rewrite (C 0), (C 2) by (done || lia). destruct w; [|done]. rewrite (C 1); [done|lia|by apply Fw].
Qed.
Lemma mapped_access m p va f flags a w : mapped m p va f flags → frame_ok f → flags_ok flags → Z.testbit flags 2 = true →
  (w = true → Z.testbit flags 1 = true) → page_down a = page_down va → user_access p a w m = Some (f + a mod PAGE_SIZE).
Proof.
  intros (t1 & HP & HE) Hf (F1 & _ & _ & F4) F2 Fw Ea. inversion HP as [|? ? l3 ? L4 P3]; subst. inversion P3 as [|? ? l2 ? L3 P2]; subst.
  inversion P2 as [|? ? l1 ? L2 P1]; subst. inversion P1; subst. unfold user_access. rewrite !(pt_index_same _ a va) by (done || lia).
  rewrite (leads_permits _ _ _ w L4), (proj1 L4) by done. cbn [negb]. rewrite (leads_permits _ _ _ w L3), (proj1 L3), (proj1 (proj2 L3)) by done. cbn [negb].
  rewrite (leads_permits _ _ _ w L2), (proj1 L2), (proj1 (proj2 L2)) by done. cbn [negb]. rewrite HE, e_addr_frame by done.
  unfold permits. rewrite !lor_frame_bit, F4, F2 by done. destruct w; [|done]. by rewrite Fw.
Qed.
Lemma placed_access v g p va flags f d a w : vmm_ok v g → placed p va flags f d v → flags_ok flags → Z.testbit flags 2 = true →
  (w = true → Z.testbit flags 1 = true) → page_down a = page_down va →
  user_access p a w (v_mem v) = Some (f + a mod PAGE_SIZE) ∧ load_byte (f + a mod PAGE_SIZE) (v_mem v) = nthZ d (a mod PAGE_SIZE).
Proof.
  intros H [M D O] F F2 Fw Ea. pose proof (owns_frame_ok _ _ _ _ H O) as Hf. split; [by eapply mapped_access|].
  unfold load_byte. rewrite (page_down_unique f); [by rewrite D; f_equal; lia|by apply frame_ok_aligned|]. pose proof (Z.mod_pos_bound a PAGE_SIZE ltac:(done)). lia.
Qed.
