(* ===== verification/VmmAccess.v ===== *)
(** * What user code reaches

    Under [vmm_ok] a user access goes through the tables of its own address space
    to a frame that this space owns or the kernel shares, and no two pages of user
    space share a leaf entry.  So a write changes no page table, and a change of
    protection no other page. *)
From stdpp Require Import gmap functions.
From S2P Require Import Prelude UserLayout FrameAlloc Vmm VmmMem VmmInv VmmMap VmmOps.
Set Warnings "-clear-no-such-hyp".

Local Open Scope Z_scope.

(** ** Accesses as paths *)
(** The permissions an access needs at every level. *)
Definition needs (w : bool) : Z := if w then 7 else 5.
Lemma permits_needs e w : permits e w = true ↔ ∀ b, 0 ≤ b < 3 → Z.testbit (needs w) b = true → Z.testbit e b = true.
Proof.
  unfold permits. split.
  - rewrite !andb_true_iff, orb_true_iff. intros [[H0 H2] H1] b Hb Hn. assert (b = 0 ∨ b = 1 ∨ b = 2) as [-> | [-> | ->]] by lia; [done| |done].
    destruct w; [|done]. by destruct H1.
  - intros H. rewrite (H 0), (H 2) by (lia || by destruct w). destruct w; [|done]. by rewrite (H 1) by done.
Qed.
Lemma permits_nonzero e w : permits e w = true → e ≠ 0.
Proof. intros H ->. by destruct w. Qed.
Lemma permits_leads e w t : e_addr e = t → Z.testbit e 7 = false → permits e w = true → leads (needs w) e t.
Proof. intros E H7 HP. split_and!; [done|done|by apply permits_needs|by eapply permits_nonzero]. Qed.

(** A leaf entry that the walk of [va] reaches with the permissions of [w]. *)
Definition reaches (m : Mem) (p va : Z) (w : bool) (t : Z) : Prop := path m (needs w) va 4 p t ∧ permits (entry m t (pt_index 1 va)) w = true.

Lemma reaches_access m p va w t : reaches m p va w t → user_access p va w m = Some (e_addr (entry m t (pt_index 1 va)) + va mod PAGE_SIZE).
Proof.
  intros [HP HE]. inversion HP as [|? ? l3 ? L4 P3]; subst. inversion P3 as [|? ? l2 ? L3 P2]; subst.
  inversion P2 as [|? ? l1 ? L2 P1]; subst. inversion P1; subst. unfold user_access.
  assert (HL : ∀ e u, leads (needs w) e u → permits e w = true) by (intros e u (_ & _ & C & _); by apply permits_needs).
  rewrite (HL _ _ L4), (proj1 L4). cbn [negb]. rewrite (HL _ _ L3), (proj1 L3), (proj1 (proj2 L3)). cbn [negb].
  rewrite (HL _ _ L2), (proj1 L2), (proj1 (proj2 L2)). cbn [negb]. by rewrite HE.
Qed.

(** A table of a level, as seen from a walk. *)
Lemma permits_next v g t p k va w : vmm_ok v g → g_own g !! t = Some (p, S (S k)) → (k = 2%nat → user_root (pt_index 4 va)) →
  let e := entry (v_mem v) t (pt_index (S (S k)) va) in permits e w = true → leads (needs w) e (e_addr e) ∧ g_own g !! e_addr e = Some (p, S k).
Proof.
  intros H Ht Hr e HP. destruct (vo_next _ _ H t p k (pt_index (S (S k)) va) Ht (pt_index_ok _ _)) as [Ho H7].
  - intros ->. by apply Hr.
  - by eapply permits_nonzero.
  - split; [by apply permits_leads|done].
Qed.
Lemma access_reaches v g p va w pa : vmm_ok v g → live p v → user_access p va w (v_mem v) = Some pa →
  user_root (pt_index 4 va) ∧ ∃ t, reaches (v_mem v) p va w t ∧ g_own g !! t = Some (p, 1%nat) ∧ pa = e_addr (entry (v_mem v) t (pt_index 1 va)) + va mod PAGE_SIZE.
Proof.
  intros H HL. unfold user_access. destruct (permits (entry (v_mem v) p (pt_index 4 va)) w) eqn:E4; [|done]. cbn [negb].
  assert (HR : user_root (pt_index 4 va)).
  { destruct (decide (pt_index 4 va = USER_IMAGE_PML4_INDEX)); [by left|]. destruct (decide (pt_index 4 va = USER_SHMEM_PML4_INDEX)); [by right|]. exfalso.
    destruct HL as (s & Hs & <-). unfold permits in E4. rewrite (vo_kernel _ _ H s (pt_index 4 va) Hs (pt_index_ok _ _)), andb_false_r in E4; [done|]. by intros [?|?]. }
  destruct (permits_next v g p p 2 va w H (live_root _ _ _ H HL) (λ _, HR) E4) as [L4 O3]. cbn zeta in *.
  set (l4 := entry (v_mem v) p (pt_index 4 va)) in *. destruct (permits (entry (v_mem v) (e_addr l4) (pt_index 3 va)) w) eqn:E3; [|done]. cbn [negb].
  destruct (permits_next v g _ p 1 va w H O3 ltac:(done) E3) as [L3 O2]. cbn zeta in *. rewrite (proj1 (proj2 L3)).
  set (l3 := entry (v_mem v) (e_addr l4) (pt_index 3 va)) in *. destruct (permits (entry (v_mem v) (e_addr l3) (pt_index 2 va)) w) eqn:E2; [|done]. cbn [negb].
  destruct (permits_next v g _ p 0 va w H O2 ltac:(done) E2) as [L2 O1]. cbn zeta in *. rewrite (proj1 (proj2 L2)).
  set (l2 := entry (v_mem v) (e_addr l3) (pt_index 2 va)) in *. destruct (permits (entry (v_mem v) (e_addr l2) (pt_index 1 va)) w) eqn:E1; [|done]. cbn [negb].
  intros [= <-]. split; [done|]. exists (e_addr l2). split; [|done]. split; [|done].
  do 3 (econstructor; [eassumption|]). constructor.
Qed.

(** ** Isolation *)
(** A user access ends in a frame of its own address space, or one the kernel holds. *)
Lemma access_frame v g p va w pa : vmm_ok v g → live p v → user_access p va w (v_mem v) = Some pa →
  is_at v g (page_down pa) (Leaf p) ∨ is_at v g (page_down pa) Held.
Proof.
  intros H HL E. destruct (access_reaches v g p va w pa H HL E) as (HR & t & [HP HE] & Ho & ->).
  pose proof (Z.mod_pos_bound va PAGE_SIZE ltac:(done)). rewrite (page_down_unique (e_addr (entry (v_mem v) t (pt_index 1 va)))); [|apply frame_ok_aligned, e_addr_ok|lia].
  eapply leaf_known; [done|done|apply pt_index_ok|by eapply permits_nonzero].
Qed.

(** What could be accessed still can. *)
Lemma access_grows v g p va w pa q m' own' : vmm_ok v g → live p v → grows q (v_mem v) (g_own g) m' own' →
  user_access p va w (v_mem v) = Some pa → user_access p va w m' = Some pa.
Proof.
  intros H HL G E. destruct (access_reaches v g p va w pa H HL E) as (HR & t & [HP HE] & Ho & ->).
  assert (Hs : entry m' t (pt_index 1 va) = entry (v_mem v) t (pt_index 1 va)) by (eapply gr_leaf; [done|done|apply pt_index_ok|by eapply permits_nonzero]).
  rewrite (reaches_access m' p va w t), Hs; [done|]. split; [|by rewrite Hs]. eapply path_grows; [done|done|by eapply live_root|done|exact G].
Qed.
(** Memory that agrees on the tables gives the same accesses. *)
Lemma grows_same p m m' own : (∀ t, is_Some (own !! t) → m' t = m t) → grows p m own m' own.
Proof.
  intros Hm. assert (He : ∀ t x i, own !! t = Some x → entry m' t i = entry m t i) by (intros t x i Ht; unfold entry; by rewrite Hm).
  split; [done|congruence|intros; by eapply He| |intros; by eapply He]. intros t q k i Ht _ Hz. rewrite (He _ _ _ Ht). by apply widened_refl.
Qed.
Lemma access_same v g p va w m : vmm_ok v g → live p v → (∀ f, page_ok (m f)) → (∀ t, is_Some (g_own g !! t) → m t = v_mem v t) →
  user_access p va w m = user_access p va w (v_mem v).
Proof.
  intros H HL Hp Hm. apply option_eq. intros pa. split; intros E.
  - apply (access_grows (set_mem m v) g p va w pa p (v_mem v) (g_own g)); [by apply vmm_ok_write|done| |done]. apply grows_same. intros t Ht. symmetry. by apply Hm.
  - by eapply access_grows; [done|done|apply (grows_same p)|].
Qed.
