(* ===== verification/VmmProtect.v ===== *)
(** * Changing the protection of pages

    [protect_page_in] succeeds on the pages user code can read and changes their
    leaf entries only; [protect_region] does so page by page. *)
From stdpp Require Import gmap functions.
From S2P Require Import Prelude UserLayout FrameAlloc Vmm VmmMem VmmInv VmmMap VmmOps VmmAccess.
Set Warnings "-clear-no-such-hyp".

Local Open Scope Z_scope.

Lemma path_upper v g m' flags va level t t1 p : vmm_ok v g → path (v_mem v) flags va level t t1 → g_own g !! t = Some (p, level) →
  (level = 4%nat → user_root (pt_index 4 va)) →
  (∀ t q k i, g_own g !! t = Some (q, S (S k)) → index_ok i → entry m' t i = entry (v_mem v) t i) → path m' flags va level t t1.
Proof.
  intros H HP. induction HP as [|level t t' t1 HL _ IH]; intros Ht Hr He; [constructor|]. pose proof HL as (E & _ & _ & Hz).
  destruct (vo_next _ _ H t p level (pt_index (S (S level)) va) Ht (pt_index_ok _ _)) as [Hx _]; [intros ->; by apply Hr|done|]. rewrite E in Hx.
  econstructor; [by rewrite (He _ _ _ _ Ht (pt_index_ok _ _))|]. eapply IH; [done| |done].
  intros [= ->]. pose proof (own_level _ _ _ _ _ H Ht). lia.
Qed.

Lemma path_same_page m fl va a level t t1 : page_down va = page_down a → path m fl va level t t1 → path m fl a level t t1.
Proof. intros E. induction 1 as [|level t t' t1 HL _ IH]; [constructor|]. econstructor; [|done]. by rewrite (pt_index_same _ a va) by (done || lia). Qed.

Lemma huge_flags e w : contains (e_flags e) HUGE_PAGE = Z.testbit e 7 ∧ entry_allows (e_flags e) w = permits e w.
Proof. by rewrite huge_bit, entry_allows_bits. Qed.

(** The outcome of [protect_page_in]: an error exactly where user code cannot read. *)
Lemma protect_page_spec p va flags v g : vmm_ok v g → live p v →
  match user_access p va false (v_mem v) with
  | None => ∃ e, protect_page_in p va flags v = (Err e, v)
  | Some _ => ∃ t, reaches (v_mem v) p va false t ∧ g_own g !! t = Some (p, 1%nat) ∧ user_root (pt_index 4 va) ∧
      protect_page_in p va flags v = (Ok tt, set_mem (set_entry t (pt_index 1 va) (set_flags (entry (v_mem v) t (pt_index 1 va)) flags) (v_mem v)) v)
  end.
Proof.
  intros H HL. destruct (user_access p va false (v_mem v)) as [pa|] eqn:E.
  - destruct (access_reaches v g p va false pa H HL E) as (HR & t & Hre & Ho & _). exists t. split_and!; [done|done|done|].
    destruct Hre as [HP HE]. inversion HP as [|? ? l3 ? L4 P3]; subst. inversion P3 as [|? ? l2 ? L3 P2]; subst.
    inversion P2 as [|? ? l1 ? L2 P1]; subst. inversion P1; subst. unfold protect_page_in.
    rewrite !(proj1 (huge_flags _ false)), !(proj2 (huge_flags _ false)).
    assert (HL' : ∀ e u, leads (needs false) e u → permits e false = true) by (intros e u (_ & _ & C & _); by apply permits_needs).
    rewrite (HL' _ _ L4), (proj1 L4). cbn [negb]. rewrite (HL' _ _ L3), (proj1 L3), (proj1 (proj2 L3)). cbn [negb orb].
    rewrite (HL' _ _ L2), (proj1 L2), (proj1 (proj2 L2)). cbn [negb orb]. by rewrite HE.
  - unfold user_access in E. unfold protect_page_in. rewrite !(proj1 (huge_flags _ false)), !(proj2 (huge_flags _ false)).
    destruct (permits (entry _ p _) false); [|by eexists]. cbn [negb] in *. destruct (permits (entry _ _ (pt_index 3 va)) false); [|by eexists]. cbn [negb orb] in *.
    destruct (Z.testbit (entry _ _ (pt_index 3 va)) 7); [done|]. destruct (permits (entry _ _ (pt_index 2 va)) false); [|by eexists]. cbn [negb orb] in *.
    destruct (Z.testbit (entry _ _ (pt_index 2 va)) 7); [done|]. destruct (permits (entry _ _ (pt_index 1 va)) false); [done|by eexists].
Qed.

(** ** One page *)
(** [v'] is [v] with the pages [S] of [p] protected by [flags]. *)
Record protected (p flags : Z) (S : list Z) (v : Vmm) (g : ghost) (v' : Vmm) : Prop := {
  pt_ok : vmm_ok v' g;
  pt_rest : v' = set_mem (v_mem v') v;
  pt_data : ∀ f, g_own g !! f = None → v_mem v' f = v_mem v f;
  pt_other : ∀ q a w, live q v → 0 ≤ a < 2 ^ 48 → ¬ (q = p ∧ page_down a ∈ S) → user_access q a w (v_mem v') = user_access q a w (v_mem v);
  pt_in : ∀ a, 0 ≤ a < 2 ^ 48 → page_down a ∈ S → ∃ pa, user_access p a false (v_mem v) = Some pa ∧ user_access p a false (v_mem v') = Some pa ∧
    if Z.testbit flags 1 then user_access p a true (v_mem v) = Some pa → user_access p a true (v_mem v') = Some pa
    else user_access p a true (v_mem v') = None;
  pt_unmapped : ∀ f, unmapped f (v_mem v) g → unmapped f (v_mem v') g }.

Lemma set_flags_bit e flags b : Z.testbit ADDR_MASK b = false → Z.testbit (set_flags e flags) b = Z.testbit flags b.
Proof. intros Hb. unfold set_flags. apply lor_frame_bit; [apply e_addr_ok|done]. Qed.
Lemma permits_set_flags e flags w : flags_ok flags → Z.testbit flags 2 = true → permits (set_flags e flags) w = negb w || Z.testbit flags 1.
Proof. intros (_ & _ & _ & F0) F2. unfold permits. by rewrite !set_flags_bit, F0, F2. Qed.
Lemma e_addr_set_flags e flags : flags_ok flags → e_addr (set_flags e flags) = e_addr e.
Proof. intros (F & _). unfold set_flags. rewrite e_addr_lor by done. apply e_addr_ok. Qed.

Section Page.
Context (p va flags t : Z) (v : Vmm) (g : ghost).
Context (H : vmm_ok v g) (HL : live p v) (F : flags_ok flags) (F2 : Z.testbit flags 2 = true) (HR : user_root (pt_index 4 va)).
Context (Fp : g_perm g flags).
Context (Hre : reaches (v_mem v) p va false t) (Ho : g_own g !! t = Some (p, 1%nat)).
Let e : Z := set_flags (entry (v_mem v) t (pt_index 1 va)) flags.
Let m' : Mem := set_entry t (pt_index 1 va) e (v_mem v).

Lemma protect_entry u j : index_ok j → entry m' u j = if decide ((u, j) = (t, pt_index 1 va)) then e else entry (v_mem v) u j.
Proof.
  intros Hj. destruct (decide _) as [[= -> ->]|Hne]; [|apply entry_set_ne; [apply (vo_mem _ _ H)|apply pt_index_ok|done|done]].
  apply entry_set_eq; [apply (vo_mem _ _ H)|apply pt_index_ok|]. unfold e, set_flags. destruct F as (_ & FB & _).
  pose proof (frame_ok_bound _ (e_addr_ok (entry (v_mem v) t (pt_index 1 va)))). apply lor_bound; lia.
Qed.
Lemma protect_points : points (g_own g) (v_mem v) t (pt_index 1 va) (e_addr (entry (v_mem v) t (pt_index 1 va))).
Proof. split_and!; [exists p, 1%nat; by split|apply pt_index_ok| |done]. destruct Hre as [_ HE]. by eapply permits_nonzero. Qed.
Lemma protect_page_inv : vmm_ok (set_mem m' v) g.
Proof.
  assert (Ea : e_addr e = e_addr (entry (v_mem v) t (pt_index 1 va))) by (by apply e_addr_set_flags).
  destruct protect_points as (Hsl & _ & Hz & _). apply (vmm_ok_set_entry v g t p 1); [done|done|apply pt_index_ok| |done| |].
  - assert (Ee : entry m' t (pt_index 1 va) = e) by (rewrite protect_entry by apply pt_index_ok; by rewrite decide_True).
    rewrite <-Ee. apply entry_bound; [|apply pt_index_ok]. apply set_entry_page_ok; [apply (vo_mem _ _ H)|apply pt_index_ok].
  - intros _. split; [|unfold e, set_flags; destruct F as (F1 & F3 & _); rewrite e_flags_frame; [done|apply e_addr_ok|done..]].
    intros s Hs Hp. rewrite Ea. by apply (vo_leaf _ _ H t p (pt_index 1 va) s Ho (pt_index_ok _ _)).
  - intros _ Hn u j Pu. rewrite Ea in *. by eapply (vo_tree _ _ H); [exact Pu|exact protect_points|].
Qed.

Lemma protect_upper u q k i : g_own g !! u = Some (q, S (S k)) → index_ok i → entry m' u i = entry (v_mem v) u i.
Proof. intros Hu Hi. rewrite protect_entry by done. rewrite decide_False; [done|]. intros [= -> ->]. by rewrite Hu in Ho. Qed.
Lemma protect_apart fl q a u : path (v_mem v) fl a 4 q u → live q v → user_root (pt_index 4 a) → 0 ≤ a < 2 ^ 48 → 0 ≤ va < 2 ^ 48 →
  ¬ (q = p ∧ page_down a = page_down va) → (u, pt_index 1 a) ≠ (t, pt_index 1 va).
Proof.
  intros HP Hq Ha Hb Hva Hne [= -> E1]. apply Hne. destruct Hre as [HPt _].
  destruct (paths_apart v g _ _ a va 4 q p q p t H HP HPt) as [-> Hk]; [by apply (live_root v)|by apply (live_root v)|done|]. split; [done|].
  apply indices_page; [done|done|]. intros k Hk4. destruct (decide (k = 1%nat)) as [->|]; [done|]. apply Hk. lia.
Qed.

(** The page itself. *)
Lemma protect_same a : page_down a = page_down va → let pa := e_addr (entry (v_mem v) t (pt_index 1 va)) + a mod PAGE_SIZE in
  user_access p a false (v_mem v) = Some pa ∧
  (∀ w, negb w || Z.testbit flags 1 = true → path (v_mem v) (needs w) a 4 p t → user_access p a w m' = Some pa) ∧
  (Z.testbit flags 1 = false → user_access p a true m' = None).
Proof.
  intros Ea pa. pose proof (path_same_page _ _ _ _ _ _ _ (eq_sym Ea) (proj1 Hre)) as HP. assert (HRa : user_root (pt_index 4 a)) by (by rewrite (pt_index_same 4 a va) by (done || lia)).
  assert (Hroot : g_own g !! p = Some (p, 4%nat)) by (by apply (live_root v)).
  assert (Ee : entry m' t (pt_index 1 a) = e) by (rewrite (pt_index_same 1 a va) by (done || lia); rewrite protect_entry by apply pt_index_ok; by rewrite decide_True).
  assert (Hup : ∀ w, path (v_mem v) (needs w) a 4 p t → path m' (needs w) a 4 p t).
  { intros w Hw. eapply (path_upper v g m' _ a 4 p t p H Hw); [done|done|intros; by eapply protect_upper]. }
  split_and!.
  - unfold pa. rewrite <-(pt_index_same 1 a va) by (done || lia). apply reaches_access. split; [done|]. rewrite (pt_index_same 1 a va) by (done || lia). apply Hre.
  - intros w Hw HPw. rewrite (reaches_access m' p a w t), Ee; [unfold e; by rewrite e_addr_set_flags|]. split; [by apply Hup|]. rewrite Ee. unfold e. by rewrite permits_set_flags.
  - intros FW. destruct (user_access p a true m') as [pa'|] eqn:E; [|done]. exfalso.
    destruct (access_reaches (set_mem m' v) g p a true pa' protect_page_inv HL E) as (_ & u & [HPu HEu] & _ & _). cbn [v_mem set_mem] in *.
    rewrite (path_unique _ _ _ _ _ _ _ _ HPu (Hup false HP)), Ee in HEu. unfold e in HEu. by rewrite permits_set_flags, FW in HEu.
Qed.

Lemma protect_page_ok : 0 ≤ va < 2 ^ 48 → protected p flags [page_down va] v g (set_mem m' v).
Proof.
  intros Hva. pose proof protect_page_inv as H'. split; [done|done| | | |].
  - intros f Hf. simpl. unfold m', set_entry. rewrite fn_lookup_insert_ne; [done|congruence].
  - intros q a w Hq Ha Hne. assert (Hne' : ¬ (q = p ∧ page_down a = page_down va)) by (intros [-> E]; apply Hne; split; [done|rewrite E; left]).
    simpl. apply option_eq. intros pa. split; intros E.
    + destruct (access_reaches (set_mem m' v) g q a w pa H' Hq E) as (HRa & u & [HP HE] & Hu & ->). simpl in *.
      assert (HP' : path (v_mem v) (needs w) a 4 q u).
      { apply (path_upper (set_mem m' v) g (v_mem v) _ a 4 q u q H' HP); [by apply (live_root v)|done|]. intros x y k i Hx Hi. symmetry. by eapply protect_upper. }
      pose proof (protect_apart _ q a u HP' Hq HRa Ha Hva Hne') as Hd. rewrite protect_entry, decide_False in * by (done || apply pt_index_ok).
      by rewrite (reaches_access (v_mem v) q a w u).
    + destruct (access_reaches v g q a w pa H Hq E) as (HRa & u & [HP HE] & Hu & ->).
      assert (HP' : path m' (needs w) a 4 q u) by (by eapply (path_upper v g m' _ a 4 q u q H HP); [apply (live_root v)| |intros; by eapply protect_upper]).
      pose proof (protect_apart _ q a u HP Hq HRa Ha Hva Hne') as Hd.
      assert (Es : entry m' u (pt_index 1 a) = entry (v_mem v) u (pt_index 1 a)) by (rewrite protect_entry by apply pt_index_ok; by rewrite decide_False).
      rewrite (reaches_access m' q a w u), Es; [done|]. split; [done|by rewrite Es].
  - intros a Ha Ea%list_elem_of_singleton. destruct (protect_same a Ea) as (Hr & Hw & Ho').
    exists (e_addr (entry (v_mem v) t (pt_index 1 va)) + a mod PAGE_SIZE). split_and!; [exact Hr|apply (Hw false); [done|by apply (path_same_page _ _ va), Hre]|]. destruct (Z.testbit flags 1) eqn:EW.
    + intros E. destruct (access_reaches v g p a true _ H HL E) as (_ & u & [HP _] & _ & _). apply (Hw true); [done|].
      pose proof (path_same_page _ _ _ _ _ _ _ (eq_sym Ea) (proj1 Hre)) as HP2. by rewrite (path_unique _ _ _ _ _ _ _ _ HP2 HP).
    + by apply Ho'.
  - intros f U u q i Hu Hi. cbn [v_mem set_mem]. rewrite protect_entry by done. destruct (decide _) as [[= -> ->]|]; [|by apply (U u q i)].
    intros _. unfold e. rewrite e_addr_set_flags by done. apply (U t p (pt_index 1 va) Ho (pt_index_ok _ _)). by eapply permits_nonzero; apply Hre.
Qed.
End Page.

(** ** A region *)
Lemma protected_nil p flags v g : vmm_ok v g → protected p flags [] v g v.
Proof. intros H. split; [done|by destruct v|done|done| |done]. by intros a _ ?%elem_of_nil. Qed.
Lemma protected_live p flags S v g v' q : protected p flags S v g v' → live q v' ↔ live q v.
Proof. intros X. unfold live. by rewrite (pt_rest _ _ _ _ _ _ X). Qed.
Lemma protected_read p flags S v g v' q a : protected p flags S v g v' → live q v → 0 ≤ a < 2 ^ 48 → user_access q a false (v_mem v') = user_access q a false (v_mem v).
Proof.
  intros X Hq Ha. destruct (decide (q = p ∧ page_down a ∈ S)) as [[-> Hin]|Hn]; [|by apply X]. by destruct (pt_in _ _ _ _ _ _ X a Ha Hin) as (pa & -> & -> & _).
Qed.
Lemma protected_app p flags S1 S2 v g v1 v2 : live p v → (∀ x, x ∈ S1 → x ∉ S2) → protected p flags S1 v g v1 → protected p flags S2 v1 g v2 → protected p flags (S1 ++ S2) v g v2.
Proof.
  intros HL Hd X1 X2. pose proof (protected_live _ _ _ _ _ _ p X1) as HL1. split.
  - apply X2.
  - rewrite (pt_rest _ _ _ _ _ _ X2), (pt_rest _ _ _ _ _ _ X1). done.
  - intros f Hf. rewrite (pt_data _ _ _ _ _ _ X2), (pt_data _ _ _ _ _ _ X1); done.
  - intros q a w Hq Ha Hn. rewrite (pt_other _ _ _ _ _ _ X2), (pt_other _ _ _ _ _ _ X1); [done|done|done| |by eapply protected_live|done|].
    + intros [-> ?]. apply Hn. rewrite elem_of_app. auto.
    + intros [-> ?]. apply Hn. rewrite elem_of_app. auto.
  - intros a Ha [H1|H2]%elem_of_app.
    + destruct (pt_in _ _ _ _ _ _ X1 a Ha H1) as (pa & E1 & E2 & E3). assert (Hn : ¬ (p = p ∧ page_down a ∈ S2)) by (intros [_ ?]; by eapply Hd).
      exists pa. rewrite !(pt_other _ _ _ _ _ _ X2 p a) by (done || by apply HL1). done.
    + destruct (pt_in _ _ _ _ _ _ X2 a Ha H2) as (pa & E1 & E2 & E3). assert (Hn : ¬ (p = p ∧ page_down a ∈ S1)) by (intros [_ ?]; by eapply Hd).
      exists pa. rewrite !(pt_other _ _ _ _ _ _ X1 p a) in E1, E3 by done. done.
  - intros f U. by apply (pt_unmapped _ _ _ _ _ _ X2), (pt_unmapped _ _ _ _ _ _ X1).
Qed.

Lemma protect_pages_ok p va flags offs : flags_ok flags → Z.testbit flags 2 = true → ∀ v g, vmm_ok v g → g_perm g flags → live p v →
  NoDup offs → (∀ o, o ∈ offs → 0 ≤ va + o < 2 ^ 48 ∧ page_down (va + o) = va + o) →
  let r := for_each (λ offset, protect_page_in p (va + offset) flags) offs v in
  ∃ done, protected p flags (map (λ o, va + o) done) v g r.2 ∧
    if is_ok r.1 then done = offs else (∀ o, o ∈ done → o ∈ offs) ∧ ∃ o, o ∈ offs ∧ user_access p (va + o) false (v_mem v) = None.
Proof.
  intros F F2. induction offs as [|o offs IH]; intros v g H Fp HL N Ho.
  - exists []. split; [by apply protected_nil|done].
  - apply NoDup_cons in N as [Hn N]. destruct (Ho o ltac:(left)) as [Hb Hpd]. cbn zeta. cbn [for_each]. unfold bind.
    pose proof (protect_page_spec p (va + o) flags v g H HL) as Hsp. destruct (user_access p (va + o) false (v_mem v)) as [pa|] eqn:Ea.
    + destruct Hsp as (t & Hre & Ht & HR & ->). pose proof (protect_page_ok p (va + o) flags t v g H HL F F2 HR Fp Hre Ht Hb) as X. rewrite Hpd in X.
      set (v1 := set_mem _ v) in *. assert (HL1 : live p v1) by (by eapply protected_live).
      destruct (IH v1 g (pt_ok _ _ _ _ _ _ X) Fp HL1 N) as (dn & X2 & Hr); [intros x Hx; apply Ho; by right|]. cbn zeta in *.
      assert (Hsub : ∀ x, x ∈ dn → x ∈ offs) by (destruct (is_ok _); [by subst|apply Hr]).
      exists (o :: dn). cbn [map]. split.
      * eapply (protected_app p flags [va + o] (map (λ o, va + o) dn)); [done| |done|done]. intros x ->%list_elem_of_singleton (y & E & Hy)%list_elem_of_fmap.
        apply Hn. replace o with y by lia. by apply Hsub.
      * destruct (is_ok _); [by rewrite Hr|]. destruct Hr as [_ (x & Hx & Ex)]. split; [intros y [->|Hy]%elem_of_cons; [left|right; by apply Hsub]|].
        exists x. split; [by right|]. rewrite <-Ex. symmetry. apply (pt_other _ _ _ _ _ _ X); [done|by apply Ho; right|].
        rewrite (proj2 (Ho x ltac:(by right))). intros [_ E%list_elem_of_singleton]. apply Hn. by replace o with x by lia.
    + destruct Hsp as (e & ->). exists []. split; [by apply protected_nil|]. simpl. split; [by intros x ?%elem_of_nil|]. exists o. split; [left|done].
Qed.

(** [protect_region] changes the pages it names and nothing else.  It succeeds
    exactly when the range is page aligned and user code can read all of it; then
    every byte of the range stays readable at the same place, and is writable only
    if the new flags say so.  Whether it succeeds or not, no other page of any
    address space changes, and no byte of any page does. *)
Lemma protect_region_spec p va n flags v g r v' : vmm_ok v g → live p v → flags_ok flags → g_perm g flags → Z.testbit flags 2 = true →
  0 ≤ va → 0 ≤ n → va + n ≤ 2 ^ 48 → protect_region p va n flags v = (r, v') →
  vmm_ok v' g ∧ v' = set_mem (v_mem v') v ∧ (∀ f, g_own g !! f = None → v_mem v' f = v_mem v f) ∧ (∀ f, unmapped f (v_mem v) g → unmapped f (v_mem v') g) ∧
  (∀ q a, live q v → 0 ≤ a < 2 ^ 48 → user_access q a false (v_mem v') = user_access q a false (v_mem v)) ∧
  (∀ q a w, live q v → 0 ≤ a < 2 ^ 48 → ¬ (q = p ∧ va ≤ a < va + n) → user_access q a w (v_mem v') = user_access q a w (v_mem v)) ∧
  (is_ok r = true ↔ va mod PAGE_SIZE = 0 ∧ 0 < n ∧ n mod PAGE_SIZE = 0 ∧ ∀ a, va ≤ a < va + n → is_Some (user_access p a false (v_mem v))) ∧
  (is_ok r = true → ∀ a, va ≤ a < va + n → ∃ pa, user_access p a false (v_mem v) = Some pa ∧ user_access p a false (v_mem v') = Some pa ∧
    if Z.testbit flags 1 then user_access p a true (v_mem v) = Some pa → user_access p a true (v_mem v') = Some pa
    else user_access p a true (v_mem v') = None).
Proof.
  intros H HL F Fp F2 Hva Hn Hend. unfold protect_region.
  destruct (Z.eqb_spec (Z.land va 0xfff) 0) as [E1|E1]; simpl.
  2:{ intros [= <- <-]. split_and!; [done|by destruct v|done|done|done|done| |done]. split; [done|]. intros (Ha%land_aligned & _). done. }
  destruct (Z.eqb_spec n 0) as [->|Hn0]; simpl.
  { intros [= <- <-]. split_and!; [done|by destruct v|done|done|done|done| |done]. split; [done|]. intros (_ & ? & _). lia. }
  destruct (Z.eqb_spec (Z.land n 0xfff) 0) as [E2|E2]; simpl.
  2:{ intros [= <- <-]. split_and!; [done|by destruct v|done|done|done|done| |done]. split; [done|]. intros (_ & _ & Ha%land_aligned & _). done. }
  apply land_aligned in E1, E2. unfold checked_add. destruct (Z.ltb_spec (va + n) (2 ^ 64)); [|lia]. intros Er.
  assert (Ho : ∀ o, o ∈ page_offsets n → 0 ≤ va + o < 2 ^ 48 ∧ page_down (va + o) = va + o).
  { intros o [Hb Hm]%elem_of_page_offsets; [|done]. split; [lia|]. apply page_down_aligned. by rewrite Z.add_mod, E1, Hm by done. }
  destruct (protect_pages_ok p va flags (page_offsets n) F F2 v g H Fp HL (page_offsets_nodup n) Ho) as (dn & X & Hr). rewrite Er in X, Hr. cbn [fst snd] in X, Hr.
  assert (Hsub : ∀ o, o ∈ dn → o ∈ page_offsets n) by (destruct (is_ok r); [by subst|apply Hr]).
  split_and!; [apply X|apply X|apply X|apply X|intros q a Hq Ha; by eapply protected_read| | |].
  - intros q a w Hq Ha Hne. apply (pt_other _ _ _ _ _ _ X); [done|done|]. intros [-> Hin]. apply Hne. split; [done|].
    apply page_in_offsets; [done..|]. apply list_elem_of_fmap in Hin as (o & -> & Hin). apply list_elem_of_fmap. eauto.
  - split.
    + intros Eok. rewrite Eok in Hr. subst dn. split_and!; [done|lia|done|]. intros a Ha. destruct (pt_in _ _ _ _ _ _ X a) as (pa & E & _); [lia|by apply page_in_offsets|]. eauto.
    + intros (_ & _ & _ & Hacc). destruct (is_ok r); [done|]. destruct Hr as [_ (o & Hin & Ex)]. apply elem_of_page_offsets in Hin as [Hb _]; [|done].
      destruct (Hacc (va + o)) as [x Hx]; [lia|]. congruence.
  - intros Eok. rewrite Eok in Hr. subst dn. intros a Ha. apply (pt_in _ _ _ _ _ _ X); [lia|by apply page_in_offsets].
Qed.
