(* ===== verification/VmmSpaces.v ===== *)
(** * Creating and freeing address spaces

    A new root has no user access and the kernel's entries without the user bit;
    freeing a space gives back all its frames and touches no other space. *)
From stdpp Require Import gmap functions.
From S2P Require Import Prelude UserLayout FrameAlloc Vmm VmmMem VmmInv VmmMap VmmOps VmmAccess.
Set Warnings "-clear-no-such-hyp".

Local Open Scope Z_scope.

(** ** The entries of a new root *)
Definition kernel_entry (e : Z) : Z := if is_unused e then e else set_flags e (Z.land (e_flags e) (Z.lnot USER_ACCESSIBLE)).

Lemma user_bit_cleared e k : 0 ≤ k → Z.testbit (Z.land (e_flags e) (Z.lnot USER_ACCESSIBLE)) k = Z.testbit (e_flags e) k && negb (k =? 2).
Proof.
  intros Hk. rewrite Z.land_spec, Z.lnot_spec by lia. f_equal. f_equal. change USER_ACCESSIBLE with (2 ^ 2). rewrite Z.pow2_bits_eqb by lia. apply Z.eqb_sym.
Qed.
Lemma e_flags_bound e : 0 ≤ e_flags e < 2 ^ 64.
Proof.
  unfold e_flags. assert (Hn : 0 ≤ Z.land e (2 ^ 64 - 1 - ADDR_MASK)) by (apply Z.land_nonneg; right; unfold ADDR_MASK; lia). split; [done|].
  replace (Z.land e (2 ^ 64 - 1 - ADDR_MASK)) with (Z.land (Z.land e (2 ^ 64 - 1 - ADDR_MASK)) (Z.ones 64)).
  - rewrite Z.land_ones by lia. apply Z.mod_pos_bound. lia.
  - rewrite <-Z.land_assoc. by f_equal.
Qed.
Lemma cleared_flags e : let fl := Z.land (e_flags e) (Z.lnot USER_ACCESSIBLE) in Z.land fl ADDR_MASK = 0 ∧ 0 ≤ fl < 2 ^ 64.
Proof.
  pose proof (e_flags_bound e) as HB. split.
  - rewrite (Z.land_comm (e_flags e)), <-Z.land_assoc. unfold e_flags. rewrite <-(Z.land_assoc e). change (Z.land (2 ^ 64 - 1 - ADDR_MASK) ADDR_MASK) with 0.
    by rewrite !Z.land_0_r.
  - assert (Hn : 0 ≤ Z.land (e_flags e) (Z.lnot USER_ACCESSIBLE)) by (apply Z.land_nonneg; lia). split; [done|].
    assert (Z.land (e_flags e) (Z.lnot USER_ACCESSIBLE) ≤ e_flags e); [|lia]. rewrite <-Z.ldiff_land.
    pose proof (Z.ldiff_le USER_ACCESSIBLE (e_flags e)). apply Z.ldiff_le; [lia|]. rewrite Z.ldiff_land. apply Z.bits_inj'. intros k Hk.
    rewrite Z.land_spec, Z.lnot_spec, Z.ldiff_spec, Z.bits_0 by lia. destruct (Z.testbit (e_flags e) k), (Z.testbit USER_ACCESSIBLE k); done.
Qed.
Lemma kernel_entry_spec e : entry_ok e → entry_ok (kernel_entry e) ∧ Z.testbit (kernel_entry e) 2 = false ∧ e_addr (kernel_entry e) = e_addr e ∧
  ∀ k, 0 ≤ k < 64 → k ≠ 2 → Z.testbit (kernel_entry e) k = Z.testbit e k.
Proof.
  intros He. unfold kernel_entry, is_unused. destruct (Z.eqb_spec e 0) as [->|Hz]; [split_and!; done|].
  destruct (cleared_flags e) as [F1 F2]. pose proof (e_addr_ok e) as Hf. pose proof (frame_ok_bound _ Hf). unfold set_flags. split_and!.
  - apply lor_bound; lia.
  - rewrite lor_frame_bit, user_bit_cleared by done. by rewrite andb_false_r.
  - by rewrite e_addr_lor.
  - intros k Hk Hk2. rewrite Z.lor_spec, user_bit_cleared by lia. destruct (Z.eqb_spec k 2); [done|]. rewrite andb_true_r.
    unfold e_addr, e_flags. rewrite flag_mask, !Z.land_spec, Z.ldiff_spec, Z.ones_spec_low by lia. destruct (Z.testbit e k), (Z.testbit ADDR_MASK k); done.
Qed.

(** The loop fills the entries one by one. *)
Lemma copy_kernel_entries src dst idx : ∀ m, src ≠ dst → (∀ h, page_ok (m h)) → (∀ i, i ∈ idx → index_ok i) → NoDup idx →
  let m' := fold_left (copy_kernel_entry src dst) idx m in
  (∀ h, page_ok (m' h)) ∧ (∀ h, h ≠ dst → m' h = m h) ∧
  ∀ i, index_ok i → entry m' dst i = if decide (i ∈ idx ∧ ¬ user_root i) then kernel_entry (entry m src i) else entry m dst i.
Proof.
  induction idx as [|j idx IH]; intros m Hsd Hm Hi N m'; [split_and!; [done|done|]; intros i Hx; rewrite decide_False; [done|]; intros [?%elem_of_nil _]; done|].
  apply NoDup_cons in N as [Hn N]. assert (Hj : index_ok j) by (apply Hi; left). subst m'. cbn [fold_left]. set (m1 := copy_kernel_entry src dst m j).
  assert (HU : (j =? USER_IMAGE_PML4_INDEX) || (j =? USER_SHMEM_PML4_INDEX) = true ↔ user_root j) by (rewrite orb_true_iff, !Z.eqb_eq; done).
  assert (H1 : (∀ h, page_ok (m1 h)) ∧ (∀ h, h ≠ dst → m1 h = m h) ∧
    ∀ i, index_ok i → entry m1 dst i = if decide (i = j ∧ ¬ user_root j) then kernel_entry (entry m src j) else entry m dst i).
  { unfold m1, copy_kernel_entry. destruct (_ || _); [split_and!; [done|done|]; intros i Hx; rewrite decide_False; [done|]; intros [_ Hc]; by apply Hc, HU|].
    assert (Hnr : ¬ user_root j) by (intros ?%HU; done). fold (kernel_entry (entry m src j)). split_and!.
    - intros h. by apply set_entry_page_ok.
    - intros h Hh. unfold set_entry. by rewrite fn_lookup_insert_ne.
    - intros i Hx. destruct (decide _) as [[-> _]|Hd]; [|apply entry_set_ne; [done|done|done|naive_solver]]. apply entry_set_eq; [done|done|].
      apply kernel_entry_spec, entry_bound; done. }
  destruct H1 as (A1 & A2 & A3). destruct (IH m1 Hsd A1 ltac:(intros; apply Hi; by right) N) as (B1 & B2 & B3). cbn zeta in *. split_and!; [done|intros h Hh; by rewrite B2, A2|].
  intros i Hx. rewrite B3, A3 by done. assert (Es : entry m1 src i = entry m src i) by (unfold entry; by rewrite A2). rewrite Es.
  destruct (decide (i = j)) as [->|Hij].
  - rewrite (decide_False (P := j ∈ idx ∧ _)) by naive_solver. destruct (decide (j = j ∧ _)) as [[_ ?]|Hd]; [rewrite decide_True; [done|]; split; [left|done]|].
    rewrite decide_False; [done|]. intros [_ ?]. by apply Hd.
  - rewrite (decide_False (P := i = j ∧ _)) by naive_solver. apply decide_ext. rewrite elem_of_cons. naive_solver.
Qed.

(** ** A new root *)
Definition fresh_space (f : Z) : AddressSpaceFrames := {| as_pml4 := f; as_tables := []; as_leaves := []; as_file_backed := 0 |}.
Definition with_root (f : Z) (g : ghost) : ghost := {| g_own := <[f := (f, 4%nat)]> (g_own g); g_lost := g_lost g; g_held := g_held g; g_env := g_env g |}.

Lemma vmm_ok_new_root v g f : vmm_ok v (holding f g) → unmapped f (v_mem v) g → (∀ i, index_ok i → user_root i → entry (v_mem v) f i = 0) →
  (∀ i, index_ok i → ¬ user_root i → Z.testbit (entry (v_mem v) f i) 2 = false) →
  vmm_ok (set_spaces (v_spaces v ++ [fresh_space f]) v) (with_root f g).
Proof.
  intros H Hu Hz Hk. assert (Hno : g_own g !! f = None) by (apply (own_not_held v (holding f g)); [done|left; left]).
  pose proof H as [I A N F M R O X L EP T K]. simpl in *. assert (Hold : ∀ u x, g_own g !! u = Some x → u ≠ f) by (intros u x Hx ->; congruence).
  split; simpl; try done.
  - rewrite <-A. unfold all_frames. cbn [v_alloc v_spaces v_boot g_held g_lost set_spaces holding set_held]. rewrite map_app, join_app.
    change (mjoin (map space_frames [fresh_space f])) with [f]. cbn [app]. rewrite <-!app_assoc. apply Permutation_app_head, Permutation_app_head. done.
  - intros s [Hs| ->%list_elem_of_singleton]%elem_of_app; simpl; [|apply lookup_insert_eq].
    rewrite lookup_insert_ne; [by apply R|]. intros E. apply (Hold _ _ (R s Hs)). done.
  - intros u q k [[<- [= <- <-]]|[Hne Hq]]%lookup_insert_Some.
    + exists (fresh_space f). rewrite elem_of_app. split_and!; [right; by apply list_elem_of_singleton|done|by left].
    + destruct (O u q k Hq) as (s & Hs & Hp & Hc). exists s. rewrite elem_of_app. split_and!; [by left|done|done].
  - intros u q k i [[<- [= <- <-]]|[Hne Hq]]%lookup_insert_Some Hi Hr Hnz; [by rewrite Hz in Hnz by auto|].
    destruct (X u q k i Hq Hi Hr Hnz) as [Hx ?]. split; [|done]. rewrite lookup_insert_ne; [done|]. intros E. apply (Hold _ _ Hx). done.
  - intros u q i s [[<- [= <-]]|[Hne Hq]]%lookup_insert_Some Hi Hnz Hs Hp. destruct (O u q _ Hq) as (s0 & Hs0 & Hp0 & _).
    assert (Hs' : s ∈ v_spaces v).
    { apply elem_of_app in Hs as [?| ->%list_elem_of_singleton]; [done|]. simpl in Hp. subst. exfalso. apply (Hold _ _ (R s0 Hs0)). done. }
    destruct (L u q i s Hq Hi Hnz Hs' Hp) as [?|[Hf|?]%elem_of_cons]; [by left| |by right]. exfalso. by eapply Hu.
  - intros u q i [[<- [= <-]]|[Hne Hq]]%lookup_insert_Some. by eapply EP.
  - assert (Hpt : ∀ u i x, points (<[f:=(f, 4%nat)]> (g_own g)) (v_mem v) u i x → points (g_own g) (v_mem v) u i x ∧ x ≠ f).
    { intros u i x Pt. assert (Pt' : points (g_own g) (v_mem v) u i x).
      { destruct Pt as ((q & k & Hq & Hr) & Hi & Hnz & Ex). apply lookup_insert_Some in Hq as [[<- [= <- <-]]|[Hne Hq]]; [by rewrite Hz in Hnz by auto|].
        split_and!; eauto. }
      split; [done|]. intros ->. destruct (points_next v (holding f g) u i f H Pt') as [[q Hq]|[y Hy]]; [|simpl in *; congruence].
      destruct Pt' as (_ & Hi & Hnz & Ex). by eapply Hu. }
    intros t1 i1 t2 i2 x [P1 Hxf]%Hpt [P2 _]%Hpt Hx. eapply T; [done|done|]. by intros [?|?]%elem_of_cons.
  - intros s i [Hs| ->%list_elem_of_singleton]%elem_of_app Hi Hnr; [by apply K|by apply Hk].
Qed.

Lemma elem_of_seqZ_index i : index_ok i ↔ i ∈ seqZ 0 512.
Proof. rewrite elem_of_seqZ. done. Qed.

(** Accesses of a live root as tables and spaces grow elsewhere. *)
Lemma new_process_pml4_some v g f v' : vmm_ok v g → new_process_pml4 v = (Some f, v') →
  vmm_ok v' (with_root f g) ∧ v_spaces v' = v_spaces v ++ [fresh_space f] ∧ v_boot v' = v_boot v ∧ v_cr3 v' = v_cr3 v ∧
  ¬ kept v g f ∧ g_own g !! f = None ∧ (∀ h, h ≠ f → v_mem v' h = v_mem v h) ∧
  (∀ x, x ∈ g_held g → unmapped x (v_mem v) g → unmapped x (v_mem v') (with_root f g)) ∧
  ∀ i, index_ok i → entry (v_mem v') f i = if decide (user_root i) then 0 else kernel_entry (entry (v_mem v) (page_down (v_boot v)) i).
Proof.
  intros H. unfold new_process_pml4. destruct (alloc_zeroed_frame v) as [[x|] v1] eqn:E; [|by intros [? _]%pair_equal_spec].
  intros [E1 E2]%pair_equal_spec. injection E1 as ->. subst v'.
  pose proof (alloc_zeroed_taken 0 v g f v1 H E) as [P U MM D N]. pose proof (pr_ok _ _ _ _ _ P) as H1.
  assert (Es : v_spaces v1 = v_spaces v ∧ (∀ h, h ≠ f → v_mem v1 h = v_mem v h)).
  { unfold alloc_zeroed_frame in E. destruct (alloc_frame v) as [[y|] v0] eqn:E0; [|done]. injection E as -> <-.
    destruct (alloc_frame_some v g f v0 H E0) as (_ & _ & _ & Em & Es & _). simpl. split; [done|]. intros h Hh. unfold zero_frame. rewrite fn_lookup_insert_ne by done. by rewrite Em. }
  destruct Es as [Es Em]. pose proof (pr_regs _ _ _ _ _ P) as [Eb Ec]. set (b := page_down (v_boot v1)).
  assert (Hbf : b ≠ f) by (intros E'; apply N; right; right; left; by rewrite <-Eb, <-E').
  destruct (copy_kernel_entries b f (seqZ 0 512) (v_mem v1) Hbf (vo_mem _ _ H1)) as (C1 & C2 & C3); [by intros i ?%elem_of_seqZ_index|apply NoDup_seqZ|]. cbn zeta in *.
  set (m := fold_left (copy_kernel_entry b f) (seqZ 0 512) (v_mem v1)) in *.
  assert (Hent : ∀ i, index_ok i → entry m f i = if decide (user_root i) then 0 else kernel_entry (entry (v_mem v) (page_down (v_boot v)) i)).
  { intros i Hi. rewrite C3 by done. assert (Ez : entry (v_mem v1) f i = 0).
    { unfold entry. rewrite D. pose proof (entry_zeroed (v_mem v1) f i) as Hz. unfold entry, zero_frame in Hz. by rewrite fn_lookup_insert in Hz. }
    rewrite Ez. destruct (decide (user_root i)); [rewrite decide_False; [done|naive_solver]|]. rewrite decide_True by (split; [by apply elem_of_seqZ_index|done]).
    f_equal. unfold entry. rewrite Em by done. unfold b. by rewrite Eb. }
  assert (Hno : g_own g !! f = None) by (apply (own_not_held v1 (holding f g)); [done|left; left]).
  assert (Hown : ∀ h, is_Some (g_own g !! h) → m h = v_mem v1 h) by (intros h [y Hy]; apply C2; congruence).
  assert (Hun : ∀ x, unmapped x (v_mem v1) g → unmapped x m g).
  { intros x Hx u q i Hu Hi. unfold entry. rewrite Hown by eauto. exact (Hx u q i Hu Hi). }
  split_and!; simpl; [|by rewrite Es|done|done|done|done|intros h Hh; by rewrite C2, Em| |done].
  - apply (vmm_ok_new_root (set_mem m v1) g f); simpl.
    + apply vmm_ok_write; done.
    + apply Hun, U. by left.
    + intros i Hi Hr. rewrite Hent by done. by rewrite decide_True.
    + intros i Hi Hr. rewrite Hent by done. rewrite decide_False by done. apply kernel_entry_spec, entry_bound; [apply (vo_mem _ _ H)|done].
  - intros x Hx Hxu u q i Hq Hi. simpl in Hq. apply lookup_insert_Some in Hq as [[_ ?]|[_ Hq]]; [done|]. eapply Hun; [apply U; by right|done|done].
Qed.
Lemma new_process_pml4_none v g v' p : vmm_ok v g → new_process_pml4 v = (None, v') → after p v g v' g.
Proof.
  intros H. unfold new_process_pml4. destruct (alloc_zeroed_frame v) as [[x|] v1] eqn:E; [by intros [? _]%pair_equal_spec|].
  intros [= <-]. by apply alloc_none_after.
Qed.

(** ** Freeing *)
Lemma swap_remove_perm {A} (l : list A) i x : l !! i = Some x → l ≡ₚ x :: swap_remove i l.
Proof.
  intros Hi. unfold swap_remove. destruct l as [|z l' _] using rev_ind; [done|]. rewrite last_snoc. rewrite length_app. simpl.
  replace (length l' + 1 - 1)%nat with (length l') by lia. destruct (decide (i < length l')%nat) as [Hl|Hl].
  - rewrite lookup_app_l in Hi by done. rewrite insert_app_l by done. rewrite take_app_length' by (by rewrite length_insert).
    rewrite <-(take_drop_middle l' i x Hi) at 1. rewrite (insert_take_drop l' i z) by done. rewrite <-!app_assoc. simpl.
    rewrite <-Permutation_middle. constructor. apply Permutation_app_head. by rewrite Permutation_app_comm.
  - assert (i = length l') as -> by (apply lookup_lt_Some in Hi; rewrite length_app in Hi; simpl in Hi; lia).
    rewrite list_lookup_middle in Hi by done. injection Hi as ->. rewrite (insert_app_r l' [x] 0 x), Nat.add_0_r || rewrite list_insert_id by (by rewrite list_lookup_middle).
    rewrite take_app_length' by done. by rewrite Permutation_app_comm.
Qed.

Lemma mjoin_map_perm {A B} (h : A → list B) l l' : l ≡ₚ l' → mjoin (map h l) ≡ₚ mjoin (map h l').
Proof. induction 1; rewrite ?mjoin_map_cons; [done|by f_equiv|apply Permutation_app_swap_app|by etrans]. Qed.

Definition freed (fs : list Z) (v : Vmm) : Vmm := fold_left (λ v f, free_unmapped_frame f v) fs v.
Lemma freed_spec fs : ∀ v a, v_alloc v = Some a → ∃ a', freed fs v = set_alloc (Some a') v ∧ available a' ≡ₚ fs ++ available a.
Proof.
  induction fs as [|f fs IH]; intros v a Ha; [exists a; split; [destruct v; simpl in *; by subst|done]|].
  unfold freed. cbn [fold_left]. unfold free_unmapped_frame at 2. rewrite Ha. destruct (IH (set_alloc (Some (deallocate_frame f a)) v) _ eq_refl) as (a' & E & HP).
  exists a'. unfold freed in E. rewrite E. split; [done|]. rewrite HP, deallocate_frame_available. simpl. by rewrite Permutation_middle.
Qed.

Definition without (p : Z) (g : ghost) : ghost :=
  {| g_own := filter (λ x, x.2.1 ≠ p) (g_own g); g_lost := g_lost g; g_held := g_held g; g_env := g_env g |}.
Lemma without_own p g f q k : g_own (without p g) !! f = Some (q, k) ↔ g_own g !! f = Some (q, k) ∧ q ≠ p.
Proof. unfold without. simpl. by rewrite map_lookup_filter_Some. Qed.

Lemma vmm_ok_without v g s p l a a' : vmm_ok v g → v_spaces v ≡ₚ s :: l → as_pml4 s = p → v_alloc v = Some a →
  available a' ≡ₚ space_frames s ++ available a → vmm_ok (set_spaces l (set_alloc (Some a') v)) (without p g).
Proof.
  intros H Hl Hp Ha HP. assert (Hin : ∀ s', s' ∈ l → s' ∈ v_spaces v ∧ as_pml4 s' ≠ p).
  { intros s' Hs'. assert (s' ∈ v_spaces v) by (rewrite Hl; by right). split; [done|]. intros E.
    pose proof (spaces_nodup v g H) as Hn. assert (Hn' : NoDup (map as_pml4 (s :: l))) by (by rewrite <-(fmap_Permutation as_pml4 _ _ Hl)).
    cbn [map] in Hn'. apply NoDup_cons in Hn' as [Hn' _]. apply Hn'. apply list_elem_of_fmap. exists s'. split; [congruence|done]. }
  assert (Hout : ∀ s', s' ∈ v_spaces v → as_pml4 s' ≠ p → s' ∈ l) by (intros s'; rewrite Hl; intros [->|?]%elem_of_cons ?; done).
  pose proof H as [I A N F M R O X L EP T K]. split; simpl; try done.
  - rewrite <-A. unfold all_frames. cbn [v_alloc v_spaces v_boot g_held g_lost set_spaces set_alloc without]. rewrite Ha. simpl. rewrite HP.
    rewrite (Permutation_app_comm (space_frames s)), <-app_assoc. apply Permutation_app_head. rewrite app_assoc. apply Permutation_app_tail.
    change (space_frames s ++ mjoin (map space_frames l)) with (mjoin (map space_frames (s :: l))). by apply mjoin_map_perm.
  - intros s' [Hs' Hn]%Hin. apply without_own. by rewrite R.
  - intros f q k [Hf Hq]%without_own. destruct (O f q k Hf) as (s' & Hs' & Hp' & Hc). exists s'. split_and!; [apply Hout; congruence|done|done].
  - intros t q k i [Ht Hq]%without_own Hi Hr Hz. destruct (X t q k i Ht Hi Hr Hz) as [? ?]. split; [|done]. by apply without_own.
  - intros t q i s' [Ht Hq]%without_own Hi Hz [Hs' _]%Hin. by apply L.
  - intros t q i [Ht Hq]%without_own. by eapply EP.
  - intros t i t' i' f P1 P2. apply T; [destruct P1 as ((q & k & [Hq _]%without_own & Hr) & Hrest)|destruct P2 as ((q & k & [Hq _]%without_own & Hr) & Hrest)]; split; eauto.
  - intros s' i [Hs' _]%Hin. by apply K.
Qed.

Lemma free_address_space_ok v g p : vmm_ok v g → live p v → v_cr3 v ≠ p →
  ∃ s a', s ∈ v_spaces v ∧ as_pml4 s = p ∧ v_spaces v ≡ₚ s :: v_spaces (free_address_space p v) ∧
    free_address_space p v = set_spaces (v_spaces (free_address_space p v)) (set_alloc (Some a') v) ∧
    available a' ≡ₚ space_frames s ++ from_option available [] (v_alloc v) ∧ vmm_ok (free_address_space p v) (without p g).
Proof.
  intros H (s0 & Hs0 & Hp0) Hc. unfold free_address_space, current_pml4. destruct (Z.eqb_spec p (v_cr3 v)); [by destruct Hc|].
  destruct (position (is_space p) (v_spaces v)) as [i|] eqn:Ei.
  2:{ exfalso. pose proof (proj1 (position_None _ _) Ei s0 Hs0) as E. unfold is_space in E. zbool. done. }
  destruct (position_Some _ _ _ Ei) as (s & Es & Ep & _). unfold is_space in Ep. zbool. rewrite Es.
  destruct (vo_init _ _ H) as [a Ea]. set (v1 := set_spaces (swap_remove i (v_spaces v)) v).
  destruct (freed_spec (as_leaves s) v1 a Ea) as (a1 & E1 & P1). destruct (freed_spec (as_tables s) (set_alloc (Some a1) v1) a1 eq_refl) as (a2 & E2 & P2).
  destruct (freed_spec [as_pml4 s] (set_alloc (Some a2) v1) a2 eq_refl) as (a3 & E3 & P3).
  change (fold_left (λ v f, free_unmapped_frame f v) (as_leaves s) v1) with (freed (as_leaves s) v1). rewrite E1.
  change (fold_left (λ v f, free_unmapped_frame f v) (as_tables s) ?x) with (freed (as_tables s) x). rewrite E2. change (set_alloc (Some a2) (set_alloc (Some a1) v1)) with (set_alloc (Some a2) v1).
  change (free_unmapped_frame (as_pml4 s) ?x) with (freed [as_pml4 s] x). rewrite E3. change (set_alloc (Some a3) (set_alloc (Some a2) v1)) with (set_alloc (Some a3) v1).
  assert (HP : available a3 ≡ₚ space_frames s ++ available a) by (rewrite P3, P2, P1; unfold space_frames; simpl; by rewrite app_assoc).
  pose proof (swap_remove_perm _ _ _ Es) as Hl. exists s, a3. rewrite Ea. simpl.
  split_and!; [by eapply list_elem_of_lookup_2|done|done|done|done|]. by eapply vmm_ok_without.
Qed.
