(* ===== verification/VmmBoot.v ===== *)
(** * The boot table and the first state

    [harden_boot_mappings] takes every user bit out of the tables it reaches, and
    nothing else; the state it leaves is where [vmm_ok] begins. *)
From stdpp Require Import gmap functions.
From S2P Require Import Prelude UserLayout FrameAlloc Vmm VmmMem VmmInv VmmMap VmmOps VmmAccess VmmSpaces.
Set Warnings "-clear-no-such-hyp".

Local Open Scope Z_scope.

(** ** Clearing user bits *)
(** The tables are the same but for user bits, which are only cleared. *)
Definition demoted (m m' : Mem) : Prop :=
  (∀ h, page_ok (m' h)) ∧ ∀ t i k, index_ok i → 0 ≤ k < 64 →
    (k ≠ 2 → Z.testbit (entry m' t i) k = Z.testbit (entry m t i) k) ∧ (Z.testbit (entry m' t i) 2 = true → Z.testbit (entry m t i) 2 = true).

Lemma demoted_refl m : (∀ h, page_ok (m h)) → demoted m m.
Proof. by split. Qed.
Lemma demoted_trans m1 m2 m3 : demoted m1 m2 → demoted m2 m3 → demoted m1 m3.
Proof.
  intros [_ A] [P B]. split; [done|]. intros t i k Hi Hk. destruct (A t i k Hi Hk) as [A1 A2], (B t i k Hi Hk) as [B1 B2]. split; [|auto].
  intros Hk2. rewrite B1, A1; done.
Qed.
(** An entry through which no user access goes stays so. *)
Definition closed (e : Z) : Prop := Z.testbit e 0 = false ∨ Z.testbit e 2 = false.
Lemma closed_permits e w : closed e → permits e w = false.
Proof. unfold permits. by intros [->| ->]; rewrite ?andb_false_r. Qed.
Lemma demoted_closed m m' t i : demoted m m' → index_ok i → closed (entry m t i) → closed (entry m' t i).
Proof.
  intros [_ D] Hi. destruct (D t i 0 Hi ltac:(lia)) as [D0 D2]. intros [H|H]; [left; by rewrite D0|right].
  destruct (Z.testbit (entry m' t i) 2); [|done]. by rewrite D2 in H.
Qed.

Lemma clear_entry_demoted m t i : (∀ h, page_ok (m h)) → index_ok i → entry m t i ≠ 0 →
  let m' := set_entry t i (set_flags (entry m t i) (Z.land (e_flags (entry m t i)) (Z.lnot USER_ACCESSIBLE))) m in demoted m m' ∧ closed (entry m' t i).
Proof.
  intros Hm Hi Hz m'. assert (Ek : set_flags (entry m t i) (Z.land (e_flags (entry m t i)) (Z.lnot USER_ACCESSIBLE)) = kernel_entry (entry m t i)).
  { unfold kernel_entry, is_unused. by rewrite (proj2 (Z.eqb_neq _ _) Hz). }
  destruct (kernel_entry_spec (entry m t i)) as (K1 & K2 & _ & K4); [by apply entry_bound|]. subst m'. rewrite Ek.
  assert (Ee : entry (set_entry t i (kernel_entry (entry m t i)) m) t i = kernel_entry (entry m t i)) by (by apply entry_set_eq).
  split; [|right; by rewrite Ee]. split; [intros h; by apply set_entry_page_ok|]. intros u j k Hj Hk.
  destruct (decide ((u, j) = (t, i))) as [[= -> ->]|Hne]; [|rewrite entry_set_ne by done; done]. rewrite Ee. split; [intros; by apply K4|]. by rewrite K2.
Qed.

(** The loop over a table, at any level. *)
Definition clear_step (rec : Z → Mem → Mem) (stop : bool) (t : Z) (m : Mem) (i : Z) : Mem :=
  let e := entry m t i in
  if is_unused e || negb (contains (e_flags e) PRESENT) then m else
  let m := set_entry t i (set_flags e (Z.land (e_flags e) (Z.lnot USER_ACCESSIBLE))) m in
  if stop || contains (e_flags e) HUGE_PAGE then m else rec (e_addr e) m.
Lemma clear_loop_demoted (rec : Z → Mem → Mem) (stop : bool) t idx : (∀ u m, (∀ h, page_ok (m h)) → demoted m (rec u m)) →
  ∀ m, (∀ h, page_ok (m h)) → (∀ i, i ∈ idx → index_ok i) →
  let m' := fold_left (clear_step rec stop t) idx m in demoted m m' ∧ ∀ i, i ∈ idx → closed (entry m' t i).
Proof.
  intros Hrec. induction idx as [|i idx IH]; intros m Hm Hi; cbn zeta; [split; [by apply demoted_refl|by intros i ?%elem_of_nil]|]. cbn [fold_left].
  set (m1 := clear_step rec stop t m i). assert (Hix : index_ok i) by (apply Hi; left).
  assert (H1 : demoted m m1 ∧ closed (entry m1 t i)).
  { unfold m1, clear_step. cbn zeta. unfold is_unused. destruct (Z.eqb_spec (entry m t i) 0) as [E|E]; simpl.
    - split; [by apply demoted_refl|]. left. by rewrite E.
    - destruct (contains (e_flags (entry m t i)) PRESENT) eqn:Ep; simpl.
      + destruct (clear_entry_demoted m t i Hm Hix E) as [D C]. cbn zeta in *. destruct (stop || _); [done|].
        set (m2 := set_entry _ _ _ _) in *. pose proof (Hrec (e_addr (entry m t i)) m2 (proj1 D)) as D2. split; [by eapply demoted_trans|by eapply demoted_closed].
      + split; [by apply demoted_refl|]. left. change PRESENT with (2 ^ 0) in Ep. rewrite contains_bit, e_flags_bit in Ep by (done || lia). done. }
  destruct H1 as [D C]. destruct (IH m1 (proj1 D) ltac:(intros; apply Hi; by right)) as [D2 C2]. cbn zeta in *. split; [by eapply demoted_trans|].
  intros j [->|Hj]%elem_of_cons; [by eapply demoted_closed|by apply C2].
Qed.

Lemma clear_user_demoted level : ∀ t m, (∀ h, page_ok (m h)) →
  demoted m (clear_user_accessible_recursive level t m) ∧
  (level ≠ 0%nat → ∀ i, index_ok i → closed (entry (clear_user_accessible_recursive level t m) t i)).
Proof.
  induction level as [|level IH]; intros t m Hm; [split; [by apply demoted_refl|done]|]. cbn [clear_user_accessible_recursive].
  destruct (clear_loop_demoted (clear_user_accessible_recursive level) (S level <=? 1)%nat t (seqZ 0 512)) with (m := m) as [D C];
    [intros u m' Hm'; by apply IH|done|by intros i ?%elem_of_seqZ_index|]. split; [exact D|]. intros _ i Hi%elem_of_seqZ_index. by apply C.
Qed.
