(* ===== verification/UserMem.v ===== *)
(** * User memory, as its programs and the kernel use it
      (src/src/syscall/user_memory.rs)

    A byte of user memory is reached through the page tables of its address space.
    The kernel reads and writes it at the same address, with its own privilege,
    after [validate_user_range].  Writes change one byte of one address space, or of
    memory the kernel shares. *)
From stdpp Require Import gmap functions.
From S2P Require Import Prelude Text UserLayout FrameAlloc Vmm VmmMem VmmInv VmmMap VmmOps VmmAccess VmmSpaces.
Set Warnings "-clear-no-such-hyp".

Local Open Scope Z_scope.

(** ** Loads and stores *)
Definition user_load (p va : Z) (m : Mem) : option Z := (λ pa, load_byte pa m) <$> user_access p va false m.
Definition user_store (p va b : Z) (m : Mem) : option Mem := (λ pa, store_byte pa b m) <$> user_access p va true m.
Fixpoint user_store_bytes (p va : Z) (bs : bytes) (m : Mem) : option Mem :=
  match bs with [] => Some m | b :: bs => user_store p va b m ≫= user_store_bytes p (va + 1) bs end.

(** ** Ranges *)
Definition MAX_USER_STRING : Z := 4096.
Definition MAX_USER_BUFFER : Z := 1024 * 1024.

Definition validate_user_range (ptr n max_len : Z) (writable : bool) (v : Vmm) : option bool :=
  if negb (valid_user_address_range ptr n max_len) then Some false else user_range_accessible ptr n writable v.

(** An access of the kernel, in ring 0: the pages on the way must be present, and
    neither the user bit nor, with CR0.WP off, the writable bit counts.  [None] is
    a page fault in the kernel. *)
Definition kernel_access (pml4 va : Z) (m : Mem) : option Z :=
  let present e := Z.testbit e 0 in
  let l4 := entry m pml4 (pt_index 4 va) in
  if negb (present l4) then None else
  let l3 := entry m (e_addr l4) (pt_index 3 va) in
  if negb (present l3) then None else
  if Z.testbit l3 7 then Some (Z.land l3 0xfffffc0000000 + va mod 2 ^ 30) else
  let l2 := entry m (e_addr l3) (pt_index 2 va) in
  if negb (present l2) then None else
  if Z.testbit l2 7 then Some (Z.land l2 0xfffffffe00000 + va mod 2 ^ 21) else
  let l1 := entry m (e_addr l2) (pt_index 1 va) in
  if negb (present l1) then None else Some (e_addr l1 + va mod PAGE_SIZE).
Definition kernel_load (p va : Z) (m : Mem) : option Z := (λ pa, load_byte pa m) <$> kernel_access p va m.
Definition kernel_store (p va b : Z) (m : Mem) : option Mem := (λ pa, store_byte pa b m) <$> kernel_access p va m.
Fixpoint kernel_store_bytes (p va : Z) (bs : bytes) (m : Mem) : option Mem :=
  match bs with [] => Some m | b :: bs => kernel_store p va b m ≫= kernel_store_bytes p (va + 1) bs end.

(** [Some None]: refused; [Some (Some bs)]: the bytes of the slice, as they are
    when the kernel looks at them; [None]: the kernel faults looking. *)
Definition user_slice (ptr n max_len : Z) (v : Vmm) : option (option bytes) :=
  match validate_user_range ptr n max_len false v with
  | Some true => Some <$> mapM (λ i, kernel_load (v_cr3 v) (ptr + Z.of_nat i) (v_mem v)) (seq 0 (Z.to_nat n))
  | Some false => Some None
  | None => None
  end.
(** [user_slice_mut] and a copy to all of it *)
Definition user_copy_out (ptr max_len : Z) (bs : bytes) (v : Vmm) : option (option Vmm) :=
  match validate_user_range ptr (len bs) max_len true v with
  | Some true => (λ m, Some (set_mem m v)) <$> kernel_store_bytes (v_cr3 v) ptr bs (v_mem v)
  | Some false => Some None
  | None => None
  end.

(** [from_le_bytes] of the 8 bytes at an offset *)
Definition u64_at (bs : bytes) (off : Z) : Z := le_val (slice bs off 8).
Definition user_path (ptr n : Z) (v : Vmm) : option bytes :=
  mjoin (user_slice ptr n MAX_USER_STRING v) ≫= λ bs, if utf8_valid bs then Some bs else None.
Definition user_descriptor4 (ptr : Z) (v : Vmm) : option (list Z) :=
  (λ bs, map (u64_at bs) [0; 8; 16; 24]) <$> mjoin (user_slice ptr 32 32 v).
Definition user_descriptor5 (ptr : Z) (v : Vmm) : option (list Z) :=
  (λ bs, map (u64_at bs) [0; 8; 16; 24; 32]) <$> mjoin (user_slice ptr 40 40 v).
Definition user_descriptor6 (ptr : Z) (v : Vmm) : option (list Z) :=
  (λ bs, map (u64_at bs) [0; 8; 16; 24; 32; 40]) <$> mjoin (user_slice ptr 48 48 v).

(** The pairs of 64-bit words both parsers read first. *)
Definition user_pairs (ptr count max_count : Z) (v : Vmm) : option (list (Z * Z)) :=
  if max_count <? count then None else
  bs ← (if count =? 0 then Some [] else mjoin (user_slice ptr (saturating_mul 64 count 16) (max_count * 16) v));
  Some (map (λ i, (u64_at bs (Z.of_nat i * 16), u64_at bs (Z.of_nat i * 16 + 8))) (seq 0 (Z.to_nat count))).
Definition parse_user_arg_strings (ptr argc max_argc : Z) (v : Vmm) : option (list bytes) :=
  user_pairs ptr argc max_argc v ≫= mapM (λ x, user_path x.1 x.2 v).
Definition parse_user_fd_mappings (ptr fd_count max_fd_count : Z) (v : Vmm) : option (list (Z * Z)) :=
  user_pairs ptr fd_count max_fd_count v.

(** ** What a slice holds *)
Lemma valid_range_iff ptr n max_len : 0 ≤ ptr < 2 ^ 64 → 0 ≤ n < 2 ^ 64 →
  valid_user_address_range ptr n max_len = true ↔ 0 < ptr ∧ 0 < n ≤ max_len ∧ ptr + n ≤ USER_TOP.
Proof.
  intros Hp Hn. unfold valid_user_address_range, checked_add. destruct (Z.eqb_spec ptr 0); [simpl; split; [done|lia]|].
  destruct (Z.eqb_spec n 0); [simpl; split; [done|lia]|]. destruct (Z.ltb_spec max_len n); [simpl; split; [done|lia]|]. simpl.
  destruct (Z.ltb_spec (ptr + n) (2 ^ 64)); [|split; [done|unfold USER_TOP; lia]]. rewrite andb_true_iff, Z.leb_le, Z.ltb_lt. lia.
Qed.
(** The check ends, and means what the hardware would allow. *)
Lemma validate_user_range_exact ptr n max_len w v : 0 ≤ ptr < 2 ^ 64 → 0 ≤ n < 2 ^ 64 →
  ∃ b, validate_user_range ptr n max_len w v = Some b ∧
    (b = true ↔ 0 < ptr ∧ 0 < n ≤ max_len ∧ ptr + n ≤ USER_TOP ∧ ∀ a, ptr ≤ a < ptr + n → is_Some (user_access (v_cr3 v) a w (v_mem v))).
Proof.
  intros Hp Hn. unfold validate_user_range. pose proof (valid_range_iff ptr n max_len Hp Hn) as HV. destruct (valid_user_address_range ptr n max_len); simpl.
  - destruct (user_range_exact (v_cr3 v) ptr n w (v_mem v) Hp Hn) as (b & Hb & Hiff). exists b. split; [done|]. rewrite Hiff. naive_solver.
  - exists false. split; [done|]. split; [done|]. intros (? & ? & ? & _). by apply HV.
Qed.
Lemma validate_all ptr n max_len w v : 0 ≤ ptr < 2 ^ 64 → 0 ≤ n → validate_user_range ptr n max_len w v = Some true →
  0 < n ∧ ∀ a, ptr ≤ a < ptr + n → is_Some (user_access (v_cr3 v) a w (v_mem v)).
Proof.
  intros Hp H0 Ev. assert (Hn : 0 ≤ n < 2 ^ 64).
  { unfold validate_user_range, valid_user_address_range, checked_add in Ev. destruct (Z.ltb_spec (ptr + n) (2 ^ 64)); [lia|]. by destruct (_ || _). }
  destruct (validate_user_range_exact ptr n max_len w v Hp Hn) as (b & Hv & Hi). rewrite Ev in Hv. injection Hv as <-.
  destruct (proj1 Hi eq_refl) as (_ & ? & _ & ?). split; [lia|done].
Qed.
Lemma mapM_seq_some {A} (f : nat → option A) n l : mapM f (seq 0 n) = Some l ↔ length l = n ∧ ∀ i x, l !! i = Some x → f i = Some x.
Proof.
  rewrite mapM_Some. rewrite Forall2_lookup. split.
  - intros H. assert (Hl : length l = n).
    { assert (HF : Forall2 (λ x y, f x = Some y) (seq 0 n) l) by (by apply Forall2_lookup). apply Forall2_length in HF. by rewrite length_seq in HF. }
    split; [done|]. intros i x Hx. specialize (H i). rewrite Hx, lookup_seq_lt in H by (rewrite <-Hl; by eapply lookup_lt_Some). by inversion H.
  - intros [Hl H] i. destruct (l !! i) as [x|] eqn:Hx.
    + rewrite lookup_seq_lt by (rewrite <-Hl; by eapply lookup_lt_Some). constructor. by apply H.
    + apply lookup_ge_None in Hx. rewrite lookup_seq_ge by lia. constructor.
Qed.

(** Where the program may access a byte, the kernel reaches the same one. *)
Lemma kernel_user_access p va w m pa : user_access p va w m = Some pa → kernel_access p va m = Some pa.
Proof.
  assert (HP : ∀ e, permits e w = true → Z.testbit e 0 = true) by (intros e; unfold permits; destruct (Z.testbit e 0); [done|by simpl]).
  unfold user_access, kernel_access. cbv zeta.
  destruct (permits (entry m p (pt_index 4 va)) w) eqn:E4; [|done]. rewrite (HP _ E4). cbn [negb].
  destruct (permits (entry m _ (pt_index 3 va)) w) eqn:E3; [|done]. rewrite (HP _ E3). cbn [negb]. destruct (Z.testbit _ 7); [done|].
  destruct (permits (entry m _ (pt_index 2 va)) w) eqn:E2; [|done]. rewrite (HP _ E2). cbn [negb]. destruct (Z.testbit _ 7); [done|].
  destruct (permits (entry m _ (pt_index 1 va)) w) eqn:E1; [|done]. by rewrite (HP _ E1).
Qed.
Lemma mapM_seq_total {A} (f : nat → option A) n : (∀ i, (i < n)%nat → is_Some (f i)) → is_Some (mapM f (seq 0 n)).
Proof. intros Hf. apply mapM_is_Some. apply Forall_forall. intros i [_ Hi]%elem_of_seq. apply Hf. lia. Qed.

(** C29: [user_slice] gives the kernel what the program would read, and nothing
    else.  The kernel reads with its own privilege, where every present page is
    readable; the check before it makes the difference.  For every pointer and
    length the call returns without a page fault, and grants the slice exactly
    when the range is not empty, within the limit and within user space, and the
    program itself could read every byte of it; then the slice is those bytes in
    order. *)
Theorem user_slice_exact ptr n max_len v : 0 ≤ ptr < 2 ^ 64 → 0 ≤ n < 2 ^ 64 →
  ∃ r, user_slice ptr n max_len v = Some r ∧
  ∀ bs, r = Some bs ↔
    0 < ptr ∧ 0 < n ≤ max_len ∧ ptr + n ≤ USER_TOP ∧ len bs = n ∧
    ∀ i b, bs !! i = Some b → user_load (v_cr3 v) (ptr + Z.of_nat i) (v_mem v) = Some b.
Proof.
  intros Hp Hn. destruct (validate_user_range_exact ptr n max_len false v Hp Hn) as (b & Hb & Hiff). unfold user_slice. rewrite Hb. destruct b.
  - destruct (proj1 Hiff eq_refl) as (H1 & H2 & H3 & H4). set (f := λ i, kernel_load _ _ _).
    assert (HU : ∀ i, (i < Z.to_nat n)%nat → is_Some (f i) ∧ user_load (v_cr3 v) (ptr + Z.of_nat i) (v_mem v) = f i).
    { intros i Hi. destruct (H4 (ptr + Z.of_nat i)) as [pa E]; [lia|]. unfold f, kernel_load, user_load. by rewrite E, (kernel_user_access _ _ _ _ _ E). }
    destruct (mapM_seq_total f (Z.to_nat n)) as [l El]; [intros i Hi; by apply HU|]. rewrite El. exists (Some l). split; [done|].
    apply mapM_seq_some in El as [Hl El]. intros bs. split.
    + intros [= ->]. split_and!; [done|lia|lia|done|unfold len; lia|]. intros i x Hx. rewrite (proj2 (HU i ltac:(apply lookup_lt_Some in Hx; lia))). by apply El.
    + intros (_ & _ & _ & Hlb & Hbs). f_equal. symmetry. apply list_eq_same_length with (n := Z.to_nat n); [done|unfold len in *; lia|].
      intros i x y Hi Hx Hy. apply Hbs in Hx. apply El in Hy. rewrite (proj2 (HU i Hi)) in Hx. congruence.
  - exists None. split; [done|]. intros bs. split; [done|]. intros (H1 & H2 & H3 & H4 & H5). cut (false = true); [done|]. apply Hiff. split_and!; [lia..|]. intros a Ha.
    destruct (lookup_lt_is_Some_2 bs (Z.to_nat (a - ptr))) as [x Hx]; [unfold len in *; lia|]. apply H5 in Hx. unfold user_load in Hx.
    rewrite Z2Nat.id in Hx by lia. replace (ptr + (a - ptr)) with a in Hx by lia. destruct (user_access (v_cr3 v) a false (v_mem v)); [eauto|done].
Qed.

(** ** Stores *)
Lemma store_byte_page pa b m : (∀ h, page_ok (m h)) → is_byte b → ∀ h, page_ok (store_byte pa b m h).
Proof.
  intros Hm Hb h. unfold store_byte. destruct (decide (h = page_down pa)) as [->|]; [rewrite fn_lookup_insert|by rewrite fn_lookup_insert_ne].
  destruct (Hm (page_down pa)) as [H1 H2]. split; [unfold len in *; by rewrite length_insert|]. by apply Forall_insert.
Qed.
Lemma store_byte_other pa b m h : h ≠ page_down pa → store_byte pa b m h = m h.
Proof. intros Hh. unfold store_byte. by rewrite fn_lookup_insert_ne. Qed.
Lemma load_store pa pb b m : (∀ h, page_ok (m h)) → load_byte pb (store_byte pa b m) = if decide (pb = pa) then b else load_byte pb m.
Proof.
  intros Hm. unfold load_byte. destruct (decide (page_down pb = page_down pa)) as [E|E]; [|rewrite store_byte_other by done; rewrite decide_False by congruence; done].
  pose proof (page_down_bounds pa) as [Ba _]. pose proof (page_down_bounds pb) as [Bb _]. destruct (Hm (page_down pa)) as [Hl _].
  unfold store_byte. rewrite E, fn_lookup_insert. unfold nthZ. rewrite !nth_lookup. destruct (decide (pb = pa)) as [->|Hne].
  - rewrite list_lookup_insert_eq; [done|]. unfold len, PAGE_SIZE in *. lia.
  - rewrite list_lookup_insert_ne; [done|]. unfold PAGE_SIZE in *. lia.
Qed.

Lemma access_own_frame v g p va w pa : vmm_ok v g → live p v → user_access p va w (v_mem v) = Some pa → g_own g !! page_down pa = None.
Proof.
  intros H HL E. destruct (g_own g !! page_down pa) as [[q k]|] eqn:Eo; [|done]. exfalso.
  destruct (access_frame v g p va w pa H HL E) as [Hx|Hx]; destruct (own_apart v g _ q k _ H Eo Hx) as [?|[?|?]]; done.
Qed.
Lemma access_read v g p va pa : vmm_ok v g → live p v → user_access p va true (v_mem v) = Some pa → user_access p va false (v_mem v) = Some pa.
Proof.
  intros H HL E. destruct (access_reaches v g p va true pa H HL E) as (_ & t & [HP HE] & _ & ->). apply reaches_access. split.
  - clear -HP. induction HP as [|level t t' t1 (A & B & C & D) _ IH]; [constructor|]. econstructor; [|done]. split_and!; [done|done| |done].
    intros b Hb Hn. apply C; [done|]. assert (b = 0 ∨ b = 1 ∨ b = 2) as [-> | [-> | ->]] by lia; done.
  - unfold permits in *. apply andb_true_iff in HE as [-> _]. done.
Qed.

(** Two user addresses with one physical byte: the same address, or a shared page. *)
Lemma access_inj v g p q a b w w' pa : vmm_ok v g → live p v → live q v → 0 ≤ a < 2 ^ 48 → 0 ≤ b < 2 ^ 48 →
  user_access p a w (v_mem v) = Some pa → user_access q b w' (v_mem v) = Some pa → page_down pa ∉ g_held g → p = q ∧ a = b.
Proof.
  intros H HLp HLq Ha Hb Ea Eb Hn. destruct (access_reaches v g p a w pa H HLp Ea) as (HRa & t & [HPa HEa] & Hot & Epa).
  destruct (access_reaches v g q b w' pa H HLq Eb) as (HRb & u & [HPb HEb] & Hou & Epb).
  pose proof (Z.mod_pos_bound a PAGE_SIZE ltac:(done)) as Ma. pose proof (Z.mod_pos_bound b PAGE_SIZE ltac:(done)) as Mb.
  set (ea := entry (v_mem v) t (pt_index 1 a)) in *. set (eb := entry (v_mem v) u (pt_index 1 b)) in *.
  assert (Fa : page_down pa = e_addr ea) by (apply page_down_unique; [apply frame_ok_aligned, e_addr_ok|lia]).
  assert (Fb : page_down pa = e_addr eb) by (apply page_down_unique; [apply frame_ok_aligned, e_addr_ok|lia]).
  destruct (vo_tree _ _ H t (pt_index 1 a) u (pt_index 1 b) (page_down pa)) as [<- Ei]; [| |done|].
  - split_and!; [exists p, 1%nat; done|apply pt_index_ok|by eapply permits_nonzero|done].
  - split_and!; [exists q, 1%nat; done|apply pt_index_ok|by eapply permits_nonzero|done].
  - destruct (paths_apart v g _ _ a b 4 p q p q t H HPa HPb) as [-> Hk]; [by apply (live_root v)..|done|]. split; [done|].
    assert (Ep : page_down a = page_down b) by (apply indices_page; [done|done|]; intros k Hk4; destruct (decide (k = 1%nat)) as [->|]; [done|apply Hk; lia]).
    unfold page_down in Ep. lia.
Qed.

(** A store of a program is a store to its own memory.  It keeps every page
    table and the ownership of every frame; the address stored to reads back the
    byte; and no other address of any address space changes what it reads, unless
    both are mapped to memory that the kernel shares. *)
Lemma user_store_spec p va b v g m : vmm_ok v g → live p v → 0 ≤ va < 2 ^ 48 → is_byte b → user_store p va b (v_mem v) = Some m →
  vmm_ok (set_mem m v) g ∧ (∀ q a w, live q v → user_access q a w m = user_access q a w (v_mem v)) ∧
  user_load p va m = Some b ∧
  ∀ q a, live q v → 0 ≤ a < 2 ^ 48 → (q, a) ≠ (p, va) → user_load q a m = user_load q a (v_mem v) ∨
    ∃ pa, user_access p va true (v_mem v) = Some pa ∧ user_access q a false (v_mem v) = Some pa ∧ page_down pa ∈ g_held g.
Proof.
  intros H HL Hva Hb. unfold user_store. destruct (user_access p va true (v_mem v)) as [pa|] eqn:E; [|done]. intros [= <-].
  pose proof (access_own_frame v g p va true pa H HL E) as Hno. pose proof (access_read v g p va pa H HL E) as Er.
  assert (Hp : ∀ h, page_ok (store_byte pa b (v_mem v) h)) by (by apply store_byte_page; [apply (vo_mem _ _ H)|]).
  assert (Hown : ∀ t, is_Some (g_own g !! t) → store_byte pa b (v_mem v) t = v_mem v t) by (intros t [x Hx]; apply store_byte_other; congruence).
  assert (Hacc : ∀ q a w, live q v → user_access q a w (store_byte pa b (v_mem v)) = user_access q a w (v_mem v)) by (intros q a w Hq; by eapply access_same).
  split_and!; [by apply vmm_ok_write|done| |].
  - unfold user_load. rewrite Hacc, Er by done. simpl. rewrite load_store by apply (vo_mem _ _ H). by rewrite decide_True.
  - intros q a Hq Ha Hne. unfold user_load. rewrite Hacc by done. destruct (user_access q a false (v_mem v)) as [pb|] eqn:Eq; [|by left]. simpl.
    rewrite load_store by apply (vo_mem _ _ H). destruct (decide (pb = pa)) as [->|]; [|by left]. right. exists pa. split_and!; [done..|].
    destruct (decide (page_down pa ∈ g_held g)); [done|]. destruct (access_inj v g p q va a true false pa) as [<- <-]; done.
Qed.

(** Memory changed in frames that users reach through [p], and nowhere else. *)
Definition writes (p : Z) (v : Vmm) (g : ghost) (m : Mem) : Prop :=
  (∀ h, page_ok (m h)) ∧ ∀ f, m f = v_mem v f ∨ is_at v g f (Leaf p) ∨ is_at v g f Held ∧ ¬ unmapped f (v_mem v) g.
Lemma writes_own v g p m t : vmm_ok v g → writes p v g m → is_Some (g_own g !! t) → m t = v_mem v t.
Proof.
  intros H [_ W] [[q k] Ht]. destruct (W t) as [?|Hx]; [done|].
  destruct Hx as [Hx|[Hx _]]; destruct (own_apart v g t q k _ H Ht Hx) as [?|[?|?]]; done.
Qed.
Lemma writes_boot v g p m : vmm_ok v g → writes p v g m → m (page_down (v_boot v)) = v_mem v (page_down (v_boot v)).
Proof.
  intros H [_ W]. destruct (W (page_down (v_boot v))) as [?|Hx]; [done|]. assert (Hb : is_at v g (page_down (v_boot v)) Boot) by by apply is_at_spec.
  destruct Hx as [Hx|[Hx _]]; by pose proof (is_at_unique _ _ _ _ _ H Hb Hx).
Qed.
Lemma writes_ok v g p m : vmm_ok v g → writes p v g m → vmm_ok (set_mem m v) g.
Proof. intros H W. apply vmm_ok_write; [done|apply W|]. intros f Hf. by eapply writes_own. Qed.
Lemma unmapped_same f m m' g : (∀ t, is_Some (g_own g !! t) → m' t = m t) → unmapped f m g → unmapped f m' g.
Proof. intros Hm U t p i Ht Hi. unfold entry. rewrite (Hm t) by eauto. by apply (U t p i). Qed.
Lemma access_mapped v g p va w pa : vmm_ok v g → live p v → user_access p va w (v_mem v) = Some pa → ¬ unmapped (page_down pa) (v_mem v) g.
Proof.
  intros H HL E U. destruct (access_reaches v g p va w pa H HL E) as (_ & t & [HP HE] & Ht & ->).
  apply (U t p (pt_index 1 va) Ht (pt_index_ok _ _)); [by eapply permits_nonzero|]. symmetry. apply page_down_unique; [apply frame_ok_aligned, e_addr_ok|].
  pose proof (Z.mod_pos_bound va PAGE_SIZE ltac:(done)). lia.
Qed.
Lemma user_store_bytes_ok v g p bs : vmm_ok v g → live p v → Forall is_byte bs → ∀ va m m', writes p v g m → user_store_bytes p va bs m = Some m' → writes p v g m'.
Proof.
  intros H HL. induction bs as [|b bs IH]; intros Hb va m m' W; cbn [user_store_bytes]; [by intros [= <-]|]. apply Forall_cons in Hb as [Hb Hbs].
  unfold user_store. destruct (user_access p va true m) as [pa|] eqn:E; [|done]. cbn [fmap option_fmap option_map mbind option_bind]. apply IH; [done|]. destruct W as [W1 W2].
  split; [by apply store_byte_page|]. intros f. destruct (decide (f = page_down pa)) as [->|]; [|rewrite store_byte_other by done; apply W2].
  right. rewrite (access_same v g) in E; [|done|done|done|intros t; by apply (writes_own v g p)].
  destruct (access_frame v g p va true pa H HL E) as [?|?]; [by left|right; split; [done|by eapply access_mapped]].
Qed.

(** After the check, the kernel's copy is the program's own stores. *)
Lemma kernel_copy v g p bs : vmm_ok v g → live p v → Forall is_byte bs → ∀ va m, writes p v g m →
  (∀ a, va ≤ a < va + len bs → is_Some (user_access p a true (v_mem v))) →
  kernel_store_bytes p va bs m = user_store_bytes p va bs m ∧ is_Some (user_store_bytes p va bs m).
Proof.
  intros H HL. induction bs as [|b bs IH]; intros Hb va m W Ha; [by split; [|eexists]|]. pose proof (len_nonneg bs) as Hl. rewrite len_cons in Ha.
  destruct (Ha va) as [pa E]; [lia|]. rewrite <-(access_same v g p va true m) in E; [|done|done|apply W|intros t; by apply (writes_own v g p)].
  cbn [kernel_store_bytes user_store_bytes]. unfold kernel_store, user_store. rewrite E, (kernel_user_access _ _ _ _ _ E). cbn [fmap option_fmap option_map mbind option_bind].
  apply IH; [by apply Forall_cons in Hb as [_ ?]| |intros a ?; apply Ha; lia].
  apply (user_store_bytes_ok v g p [b] H HL ltac:(apply Forall_cons in Hb as [? _]; by constructor) va m); [done|]. cbn [user_store_bytes]. unfold user_store. by rewrite E.
Qed.

(** ** Other address spaces *)
(** What could be accessed, and what was read there. *)
Definition views_kept (v v' : Vmm) : Prop := ∀ q a, live q v → live q v' →
  (∀ w pa, user_access q a w (v_mem v) = Some pa → user_access q a w (v_mem v') = Some pa) ∧
  (∀ b, user_load q a (v_mem v) = Some b → user_load q a (v_mem v') = Some b).
Lemma access_kept v g p va w pa : vmm_ok v g → live p v → user_access p va w (v_mem v) = Some pa → kept v g (page_down pa).
Proof.
  intros H HL E. destruct (access_frame v g p va w pa H HL E) as [Hx|Hx]; apply is_at_spec in Hx; [|by left].
  destruct Hx as (s & Hs & _ & Hf). right. left. eauto.
Qed.
Lemma views_intro v g v' : vmm_ok v g →
  (∀ q a w pa, live q v → live q v' → user_access q a w (v_mem v) = Some pa → user_access q a w (v_mem v') = Some pa ∧ v_mem v' (page_down pa) = v_mem v (page_down pa)) → views_kept v v'.
Proof.
  intros H HA q a Hq Hq'. split; [intros w pa E; by apply (HA q a w pa)|]. intros b. unfold user_load.
  destruct (user_access q a false (v_mem v)) as [pa|] eqn:E; [|done]. destruct (HA q a false pa Hq Hq' E) as [-> Em]. intros [= <-]. simpl. unfold load_byte. by rewrite Em.
Qed.
Lemma progress_views p v g v' g' : vmm_ok v g → progress p v g v' g' → views_kept v v'.
Proof.
  intros H A. eapply views_intro; [exact H|]. intros q a w pa Hq _ E. split; [by eapply (access_grows v g); [..|apply A|]|].
  apply (pr_data _ _ _ _ _ A). by eapply access_kept.
Qed.
Lemma after_views p v g v' g' : vmm_ok v g → after p v g v' g' → views_kept v v'.
Proof. intros H A. eapply progress_views; [done|apply A]. Qed.
Lemma views_trans v1 v2 v3 : (∀ q, live q v1 → live q v3 → live q v2) → views_kept v1 v2 → views_kept v2 v3 → views_kept v1 v3.
Proof.
  intros HL A B q a H1 H3. destruct (A q a H1 (HL q H1 H3)) as [A1 A2], (B q a (HL q H1 H3) H3) as [B1 B2]. split; eauto.
Qed.
Lemma views_same_mem v v' : v_mem v' = v_mem v → views_kept v v'.
Proof. intros E q a _ _. by rewrite E. Qed.
Lemma new_process_views v g f v' : vmm_ok v g → new_process_pml4 v = (Some f, v') → views_kept v v'.
Proof.
  intros H E. destruct (new_process_pml4_some v g f v' H E) as (H' & _ & _ & _ & Hk & Hno & Hm & _). eapply views_intro; [exact H|]. intros q a w pa Hq _ Ea. split.
  - rewrite <-Ea. apply (access_same v g); [done|done|apply (vo_mem _ _ H')|]. intros t [x Hx]. apply Hm. congruence.
  - apply Hm. intros <-. apply Hk. by eapply access_kept.
Qed.

