(* ===== verification/Pipe.v ===== *)
(** * Pipes (src/src/vfs.rs: [Pipe]; src/src/evented.rs: waiter lists)

    A pipe is a ring buffer of [PIPE_SIZE] bytes with its reader and writer
    counts and the tasks that wait on it.  [queue p] is the abstract contents.
    The theorems show that the ring implements a bounded first-in first-out
    queue: nothing is lost, duplicated or reordered, whatever the sequence of
    reads and writes. *)
From S2P Require Import Prelude.

Local Open Scope Z_scope.

Definition PIPE_SIZE : Z := 512.

Record Pipe := {
  p_buf : bytes; p_head : Z; p_tail : Z; p_len : Z; readers : Z; writers : Z;
  waiting_readers : list nat; waiting_writers : list nat }.

Definition Pipe_new : Pipe :=
  {| p_buf := zeros PIPE_SIZE; p_head := 0; p_tail := 0; p_len := 0; readers := 0; writers := 0;
     waiting_readers := []; waiting_writers := [] |}.

Definition with_ring (p : Pipe) (buf : bytes) (head tail l : Z) : Pipe :=
  {| p_buf := buf; p_head := head; p_tail := tail; p_len := l; readers := readers p; writers := writers p;
     waiting_readers := waiting_readers p; waiting_writers := waiting_writers p |}.

(** [while n < want && self.len > 0]; [n] counts the iterations left.  The
    bytes are what the caller finds at the start of its buffer. *)
Fixpoint read_loop (n : nat) (p : Pipe) : bytes * Pipe :=
  match n with
  | O => ([], p)
  | S n =>
      if 0 <? p_len p then
        let c := nthZ (p_buf p) (p_tail p) in
        let (out, p) := read_loop n (with_ring p (p_buf p) (p_head p) ((p_tail p + 1) mod PIPE_SIZE) (p_len p - 1)) in
        (c :: out, p)
      else ([], p)
  end.

(** [Pipe::read]: [want] is [len.min(out.len())]; the count is the length of the bytes. *)
Definition Pipe_read (want : Z) (p : Pipe) : bytes * Pipe := read_loop (Z.to_nat want) p.

(** [Pipe::write]: the number of bytes that fitted. *)
Fixpoint Pipe_write (input : bytes) (p : Pipe) : Z * Pipe :=
  match input with
  | [] => (0, p)
  | c :: input =>
      if p_len p <? PIPE_SIZE then
        let (n, p) := Pipe_write input
          (with_ring p (splice (p_buf p) (p_head p) [c]) ((p_head p + 1) mod PIPE_SIZE) (p_tail p) (p_len p + 1)) in
        (n + 1, p)
      else (0, p)
  end.

(** ** Waiters *)
Definition add_waiter (l : list nat) (task : nat) : list nat :=
  if existsb (Nat.eqb task) l then l else l ++ [task].
Definition remove_waiter (l : list nat) (task : nat) : list nat := List.filter (λ w, negb (w =? task)%nat) l.

Definition with_waiters (p : Pipe) (rs ws : list nat) : Pipe :=
  {| p_buf := p_buf p; p_head := p_head p; p_tail := p_tail p; p_len := p_len p;
     readers := readers p; writers := writers p; waiting_readers := rs; waiting_writers := ws |}.
Definition with_counts (p : Pipe) (r w : Z) : Pipe :=
  {| p_buf := p_buf p; p_head := p_head p; p_tail := p_tail p; p_len := p_len p;
     readers := r; writers := w; waiting_readers := waiting_readers p; waiting_writers := waiting_writers p |}.

Definition add_reader_waiter (task : nat) (p : Pipe) : Pipe :=
  with_waiters p (add_waiter (waiting_readers p) task) (waiting_writers p).
Definition add_writer_waiter (task : nat) (p : Pipe) : Pipe :=
  with_waiters p (waiting_readers p) (add_waiter (waiting_writers p) task).
Definition Pipe_remove_waiter (task : nat) (p : Pipe) : Pipe :=
  with_waiters p (remove_waiter (waiting_readers p) task) (remove_waiter (waiting_writers p) task).
Definition take_readers (p : Pipe) : list nat * Pipe :=
  (waiting_readers p, with_waiters p [] (waiting_writers p)).
Definition take_writers (p : Pipe) : list nat * Pipe :=
  (waiting_writers p, with_waiters p (waiting_readers p) []).

(** ** Reading through the VFS *)
Inductive PipeReadResult := Data (data : bytes) | WouldBlock | Eof.

Definition pipe_read (want : Z) (p : Pipe) : PipeReadResult * Pipe :=
  if 0 <? p_len p then let (out, p) := Pipe_read want p in (Data out, p)
  else if writers p =? 0 then (Eof, p) else (WouldBlock, p).

(** ** The queue *)
Definition queue (p : Pipe) : bytes :=
  (λ i, nthZ (p_buf p) ((p_tail p + i) mod PIPE_SIZE)) <$> seqZ 0 (p_len p).

Record pipe_wf (p : Pipe) : Prop := {
  pw_buf : len (p_buf p) = PIPE_SIZE;
  pw_tail : 0 ≤ p_tail p < PIPE_SIZE;
  pw_len : 0 ≤ p_len p ≤ PIPE_SIZE;
  pw_head : p_head p = (p_tail p + p_len p) mod PIPE_SIZE }.

(** The two operations, for sequences. *)
Inductive pipe_op := PRead (want : Z) | PWrite (input : bytes).

(** The bytes taken out and the bytes put in by a sequence of operations. *)
Fixpoint run_pipe (ops : list pipe_op) (p : Pipe) : bytes * bytes * Pipe :=
  match ops with
  | [] => ([], [], p)
  | PRead want :: ops =>
      let (out, p) := Pipe_read want p in
      let '(outs, ins, p) := run_pipe ops p in (out ++ outs, ins, p)
  | PWrite input :: ops =>
      let (n, p) := Pipe_write input p in
      let '(outs, ins, p) := run_pipe ops p in (outs, slice input 0 n ++ ins, p)
  end.

Lemma len_queue p : 0 ≤ p_len p → len (queue p) = p_len p.
Proof. intros. unfold queue, len. rewrite length_fmap, length_seqZ. lia. Qed.

Lemma Pipe_new_wf : pipe_wf Pipe_new ∧ queue Pipe_new = [].
Proof. split; [by split|done]. Qed.

Lemma queue_cons p :
  0 ≤ p_tail p < PIPE_SIZE → 0 < p_len p →
  queue p = nthZ (p_buf p) (p_tail p) ::
            queue (with_ring p (p_buf p) (p_head p) ((p_tail p + 1) mod PIPE_SIZE) (p_len p - 1)).
Proof.
  intros Ht Hl. unfold queue. cbn [with_ring p_buf p_tail p_len]. rewrite seqZ_cons by lia. rewrite fmap_cons. f_equal.
  - f_equal. rewrite Z.add_0_r. by apply Z.mod_small.
  - replace (Z.pred (p_len p)) with (p_len p - 1) by lia. rewrite <- (fmap_add_seqZ 1 0), <- list_fmap_compose.
    apply list_fmap_ext. intros _ i _. simpl. f_equal. rewrite Zplus_mod_idemp_l. f_equal. lia.
Qed.

Lemma queue_snoc p c :
  pipe_wf p → p_len p < PIPE_SIZE →
  queue (with_ring p (splice (p_buf p) (p_head p) [c]) ((p_head p + 1) mod PIPE_SIZE) (p_tail p) (p_len p + 1))
  = queue p ++ [c].
Proof.
  intros [Hb Ht Hl Hh] Hfull. unfold queue. cbn [with_ring p_buf p_tail p_len].
  assert (0 ≤ p_head p < PIPE_SIZE) by (rewrite Hh; by apply Z.mod_pos_bound).
  rewrite seqZ_app by lia. rewrite fmap_app. f_equal.
  - apply list_fmap_ext. intros _ i Hi%list_elem_of_lookup_2%elem_of_seqZ.
    assert ((p_tail p + i) mod PIPE_SIZE ≠ p_head p).
    { rewrite Hh. unfold PIPE_SIZE in *. Z.to_euclidean_division_equations. lia. }
    pose proof (Z.mod_pos_bound (p_tail p + i) PIPE_SIZE ltac:(done)).
    apply nthZ_splice_ne; rewrite ?Hb; change (len [c]) with 1; lia.
  - change (seqZ (0 + p_len p) 1) with [0 + p_len p]. cbn [fmap list_fmap]. f_equal. rewrite Z.add_0_l. rewrite <- Hh.
    rewrite nthZ_splice by (rewrite ?Hb; change (len [c]) with 1; lia). change (len [c]) with 1.
    destruct (Z.leb_spec (p_head p) (p_head p)), (Z.ltb_spec (p_head p) (p_head p + 1)); try lia. by rewrite Z.sub_diag.
Qed.

Lemma pop_wf p :
  pipe_wf p → 0 < p_len p →
  pipe_wf (with_ring p (p_buf p) (p_head p) ((p_tail p + 1) mod PIPE_SIZE) (p_len p - 1)).
Proof.
  intros [Hb Ht Hl Hh] Hpos. split; cbn [with_ring p_buf p_head p_tail p_len]; [done|by apply Z.mod_pos_bound|lia|].
  rewrite Hh, Zplus_mod_idemp_l. f_equal. lia.
Qed.

Lemma push_wf p c :
  pipe_wf p → p_len p < PIPE_SIZE →
  pipe_wf (with_ring p (splice (p_buf p) (p_head p) [c]) ((p_head p + 1) mod PIPE_SIZE) (p_tail p) (p_len p + 1)).
Proof.
  intros [Hb Ht Hl Hh] Hfull. assert (0 ≤ p_head p < PIPE_SIZE) by (rewrite Hh; by apply Z.mod_pos_bound).
  split; cbn [with_ring p_buf p_head p_tail p_len]; [|done|lia|].
  - rewrite len_splice; rewrite ?Hb; change (len [c]) with 1; lia.
  - rewrite Hh, Zplus_mod_idemp_l. f_equal. lia.
Qed.

Lemma read_loop_spec n p :
  pipe_wf p →
  let (out, p') := read_loop n p in
  pipe_wf p' ∧ out = take n (queue p) ∧ queue p' = drop n (queue p) ∧
  readers p' = readers p ∧ writers p' = writers p ∧
  waiting_readers p' = waiting_readers p ∧ waiting_writers p' = waiting_writers p.
Proof.
  revert p. induction n as [|n IH]; intros p Hp; simpl; [done|].
  destruct (Z.ltb_spec 0 (p_len p)) as [Hpos|Hz].
  - specialize (IH _ (pop_wf p Hp Hpos)). destruct (read_loop n _) as [out p'].
    destruct IH as (Hw & -> & Hq & Hs). rewrite (queue_cons p (pw_tail p Hp) Hpos). simpl. by rewrite Hq.
  - assert (queue p = []) as ->; [|by rewrite take_nil, drop_nil].
    unfold queue. rewrite seqZ_nil; [done|]. lia.
Qed.

(** Reading takes the oldest bytes, as many as asked for or there are. *)
Lemma Pipe_read_spec want p :
  pipe_wf p →
  let (out, p') := Pipe_read want p in
  pipe_wf p' ∧ queue p = out ++ queue p' ∧ len out = Z.min (Z.max want 0) (p_len p) ∧
  readers p' = readers p ∧ writers p' = writers p ∧
  waiting_readers p' = waiting_readers p ∧ waiting_writers p' = waiting_writers p.
Proof.
  intros Hp. unfold Pipe_read. pose proof (read_loop_spec (Z.to_nat want) p Hp) as H.
  destruct (read_loop _ p) as [out p']. destruct H as (Hw & -> & -> & Hs). split_and!; [done|symmetry; apply take_drop| |apply Hs..].
  pose proof (len_queue p ltac:(apply Hp)) as Hl. unfold len in *. rewrite length_take. lia.
Qed.

(** Writing appends as many bytes as fit, in order, and reports how many. *)
Lemma Pipe_write_spec input p :
  pipe_wf p →
  let (n, p') := Pipe_write input p in
  pipe_wf p' ∧ n = Z.min (len input) (PIPE_SIZE - p_len p) ∧ queue p' = queue p ++ slice input 0 n ∧
  readers p' = readers p ∧ writers p' = writers p ∧
  waiting_readers p' = waiting_readers p ∧ waiting_writers p' = waiting_writers p.
Proof.
  revert p. induction input as [|c input IH]; intros p Hp; simpl.
  - split_and!; try done; [|by rewrite app_nil_r]. destruct Hp. unfold len; simpl; lia.
  - destruct (Z.ltb_spec (p_len p) PIPE_SIZE) as [Hfree|Hfull].
    + specialize (IH _ (push_wf p c Hp Hfree)). destruct (Pipe_write input _) as [n p'].
      destruct IH as (Hw & Hn & Hq & Hs). cbn [with_ring p_len] in Hn.
      pose proof (len_nonneg input). rewrite queue_snoc in Hq by done. split_and!; [done| | |apply Hs..].
      * rewrite len_cons. lia.
      * rewrite Hq, <- app_assoc. f_equal. unfold slice. replace (Z.to_nat (n + 1)) with (S (Z.to_nat n)); [done|]. lia.
    + split_and!; try done; [|by rewrite app_nil_r]. destruct Hp. rewrite len_cons. pose proof (len_nonneg input). lia.
Qed.

(** A pipe is a bounded queue.  Whatever reads and writes happen, in any
    order and of any size, the bytes taken out, followed by what is still in
    the pipe, are exactly what was in it at the start followed by the bytes the
    writes reported as accepted: no byte is lost, duplicated, invented or
    reordered, across every wrap of the ring, and it never holds more than
    [PIPE_SIZE] bytes. *)
Theorem pipe_fifo ops p :
  pipe_wf p →
  let '(outs, ins, p') := run_pipe ops p in
  pipe_wf p' ∧ outs ++ queue p' = queue p ++ ins ∧ len (queue p') ≤ PIPE_SIZE.
Proof.
  revert p. induction ops as [|[want|input] ops IH]; intros p Hp; simpl.
  - rewrite app_nil_r, len_queue by apply Hp. split_and!; [done|done|apply Hp].
  - pose proof (Pipe_read_spec want p Hp) as Hr. destruct (Pipe_read want p) as [out p1]. destruct Hr as (Hp1 & Hq & _).
    specialize (IH p1 Hp1). destruct (run_pipe ops p1) as [[outs ins] p2]. destruct IH as (? & IH & ?).
    split_and!; [done| |done]. by rewrite <- app_assoc, IH, Hq, <- app_assoc.
  - pose proof (Pipe_write_spec input p Hp) as Hr. destruct (Pipe_write input p) as [n p1]. destruct Hr as (Hp1 & _ & Hq & _).
    specialize (IH p1 Hp1). destruct (run_pipe ops p1) as [[outs ins] p2]. destruct IH as (? & IH & ?).
    split_and!; [done| |done]. by rewrite IH, Hq, <- app_assoc.
Qed.

Lemma pipe_fifo_witness :
  let '(outs, ins, p') := run_pipe [PWrite (str "hello"); PRead 2; PWrite (replicate 600 7); PRead 9] Pipe_new in
  pipe_wf p' ∧ outs ++ queue p' = queue Pipe_new ++ ins ∧ len (queue p') ≤ PIPE_SIZE.
Proof.
  apply (pipe_fifo [PWrite (str "hello"); PRead 2; PWrite (replicate 600 7); PRead 9] Pipe_new). apply Pipe_new_wf.
Defined.
