(* ===== verification/FdTable.v ===== *)
(** * File descriptors (src/src/vfs.rs: [VfsState], [TaskFdTable], [SharedObject])

    Every task has a table of [MAX_FDS] descriptors; each descriptor names a
    shared object, a buffered file or a pipe, that is reference counted.
    Functions that use the current task get its id as an argument; the failure
    value [usize::MAX] is [None].  Waking tasks and committing a closed file
    are returned to the caller, which performs them after the lock.  The
    invariant and the theorems are in FdInv.v. *)
From S2P Require Import Prelude Pipe.

Local Open Scope Z_scope.

Definition MAX_FDS : nat := 16.

Record OpenFile := {
  f_path : option bytes; f_data : bytes; f_offset : Z; f_writable : bool; f_dirty : bool }.
Inductive SharedKind := KFile (file : OpenFile) | KPipe (pipe : Pipe).
Record SharedObject := { refs : Z; so_kind : SharedKind }.
Inductive FdAccess := FdFile | FdPipeRead | FdPipeWrite.
Record LocalFd := { object : nat; access : FdAccess }.

#[export] Instance FdAccess_eq_dec : EqDecision FdAccess.
Proof. solve_decision. Defined.
#[export] Instance LocalFd_eq_dec : EqDecision LocalFd.
Proof. solve_decision. Defined.

Definition TaskFdTable : Type := list (option LocalFd).
Definition TaskFdTable_new : TaskFdTable := replicate MAX_FDS None.

Record ReleaseEvent := { ev_wake : list nat; ev_commit : option (bytes * bytes) }.
Definition ReleaseEvent_none : ReleaseEvent := {| ev_wake := []; ev_commit := None |}.

Record VfsState := {
  objects : list (option SharedObject);
  task_fds : list TaskFdTable;
  task_shmem_refs : list (list nat) }.

Definition VfsState_new : VfsState := {| objects := []; task_fds := []; task_shmem_refs := [] |}.

Definition is_free (slot : option (option LocalFd)) : bool :=
  match slot with Some None => true | _ => false end.
Definition is_used (slot : option LocalFd) : bool := match slot with Some _ => true | None => false end.

(** ** Tables *)
Definition alloc_fd (entry : LocalFd) (table : TaskFdTable) : option (nat * TaskFdTable) :=
  match List.find (λ fd, is_free (table !! fd)) (seq 3 (MAX_FDS - 3)) with
  | Some fd => Some (fd, <[fd:=Some entry]> table)
  | None => None
  end.

Definition install_fd (fd : nat) (entry : LocalFd) (table : TaskFdTable) : bool * TaskFdTable :=
  if (MAX_FDS <=? fd)%nat || is_used (default None (table !! fd)) then (false, table)
  else (true, <[fd:=Some entry]> table).

Definition free_slots (table : TaskFdTable) : nat := length (List.filter (λ s, negb (is_used s)) (drop 3 table)).
Definition open_count (table : TaskFdTable) : nat := length (List.filter is_used table).

(** ** The shared state *)
Definition with_objects (st : VfsState) obs : VfsState :=
  {| objects := obs; task_fds := task_fds st; task_shmem_refs := task_shmem_refs st |}.
Definition with_tables (st : VfsState) tables : VfsState :=
  {| objects := objects st; task_fds := tables; task_shmem_refs := task_shmem_refs st |}.
Definition set_table (task : nat) (table : TaskFdTable) (st : VfsState) : VfsState :=
  with_tables st (<[task:=table]> (task_fds st)).

(** [while len <= task_id { push }] on both vectors. *)
Definition ensure_task (task : nat) (st : VfsState) : VfsState :=
  {| objects := objects st;
     task_fds := task_fds st ++ replicate (S task - length (task_fds st)) TaskFdTable_new;
     task_shmem_refs := task_shmem_refs st ++ replicate (S task - length (task_shmem_refs st)) [] |}.

Definition empty_slot (slot : option SharedObject) : bool := match slot with None => true | Some _ => false end.

Definition alloc_object (k : SharedKind) (st : VfsState) : nat * VfsState :=
  let slot := Some {| refs := 0; so_kind := k |} in
  match position empty_slot (objects st) with
  | Some id => (id, with_objects st (<[id:=slot]> (objects st)))
  | None => (length (objects st), with_objects st (objects st ++ [slot]))
  end.

Definition current_entry (task fd : nat) (st : VfsState) : option LocalFd :=
  match task_fds st !! task with
  | Some table => default None (table !! fd)
  | None => None
  end.

(** [self.objects.get(id).and_then(Option::as_ref)] *)
Definition get_object (id : nat) (st : VfsState) : option SharedObject := default None (objects st !! id).

Definition retain_kind (a : FdAccess) (k : SharedKind) : SharedKind :=
  match k, a with
  | KPipe p, FdPipeRead => KPipe (with_counts p (readers p + 1) (writers p))
  | KPipe p, FdPipeWrite => KPipe (with_counts p (readers p) (writers p + 1))
  | _, _ => k
  end.

Definition retain_fd (entry : LocalFd) (st : VfsState) : bool * VfsState :=
  match get_object (object entry) st with
  | None => (false, st)
  | Some ob =>
      (true, with_objects st (<[object entry := Some {| refs := refs ob + 1; so_kind := retain_kind (access entry) (so_kind ob) |}]>
                              (objects st)))
  end.

(** The pipe part of [release_fd]: who is woken, and the pipe afterwards. *)
Definition release_kind (a : FdAccess) (k : SharedKind) : list nat * SharedKind :=
  match k, a with
  | KPipe p, FdPipeRead =>
      let p := with_counts p (saturating_sub (readers p) 1) (writers p) in
      if readers p =? 0 then let (w, p) := take_writers p in (w, KPipe (with_waiters p [] (waiting_writers p)))
      else ([], KPipe p)
  | KPipe p, FdPipeWrite =>
      let p := with_counts p (readers p) (saturating_sub (writers p) 1) in
      if writers p =? 0 then let (w, p) := take_readers p in (w, KPipe p) else ([], KPipe p)
  | _, _ => ([], k)
  end.

(** What is written back when the last reference goes. *)
Definition commit_of (k : SharedKind) : option (bytes * bytes) :=
  match k with
  | KFile f => if f_writable f && f_dirty f
               then match f_path f with Some p => Some (p, f_data f) | None => None end else None
  | KPipe _ => None
  end.

Definition release_fd (entry : LocalFd) (st : VfsState) : ReleaseEvent * VfsState :=
  match get_object (object entry) st with
  | None => (ReleaseEvent_none, st)
  | Some ob =>
      let (wake, k) := release_kind (access entry) (so_kind ob) in
      let ob := {| refs := saturating_sub (refs ob) 1; so_kind := k |} in
      if refs ob =? 0
      then ({| ev_wake := wake; ev_commit := commit_of k |}, with_objects st (<[object entry:=None]> (objects st)))
      else ({| ev_wake := wake; ev_commit := None |}, with_objects st (<[object entry:=Some ob]> (objects st)))
  end.

(** ** Tasks *)
Definition init_task (task : nat) (st : VfsState) : VfsState :=
  let st := ensure_task task st in
  {| objects := objects st; task_fds := <[task:=TaskFdTable_new]> (task_fds st);
     task_shmem_refs := <[task:=[]]> (task_shmem_refs st) |}.

(** Take the entry at [fd] out of the table of [task]. *)
Definition take_entry (task fd : nat) (st : VfsState) : option LocalFd * VfsState :=
  match task_fds st !! task with
  | Some table =>
      match table !! fd with
      | Some (Some e) => (Some e, set_table task (<[fd:=None]> table) st)
      | _ => (None, st)
      end
  | None => (None, st)
  end.

(** Close the descriptors [fds] of [task] one by one. *)
Fixpoint close_fds (task : nat) (fds : list nat) (st : VfsState) : list nat * list (bytes * bytes) * VfsState :=
  match fds with
  | [] => ([], [], st)
  | fd :: fds =>
      match take_entry task fd st with
      | (Some e, st) =>
          let (ev, st) := release_fd e st in
          let '(wake, commits, st) := close_fds task fds st in
          (ev_wake ev ++ wake, (match ev_commit ev with Some c => [c] | None => [] end) ++ commits, st)
      | (None, st) => close_fds task fds st
      end
  end.

(** The part of [drop_task] under the lock: tasks to wake, files to commit and
    shared memory references to release. *)
Definition drop_task (task : nat) (st : VfsState) : list nat * list (bytes * bytes) * list nat * VfsState :=
  if (length (task_fds st) <=? task)%nat then ([], [], [], st) else
  let '(wake, commits, st) := close_fds task (seq 0 MAX_FDS) st in
  (wake, commits, default [] (task_shmem_refs st !! task),
   {| objects := objects st; task_fds := task_fds st; task_shmem_refs := <[task:=[]]> (task_shmem_refs st) |}).

Definition drop_task_shmem_refs (task : nat) (st : VfsState) : list nat * VfsState :=
  (default [] (task_shmem_refs st !! task),
   {| objects := objects st; task_fds := task_fds st; task_shmem_refs := <[task:=[]]> (task_shmem_refs st) |}).

(** ** Inheritance *)
(** Undo the descriptors installed so far. *)
Fixpoint rollback (task : nat) (fds : list nat) (st : VfsState) : VfsState :=
  match fds with
  | [] => st
  | fd :: fds =>
      match take_entry task fd st with
      | (Some e, st) => rollback task fds (snd (release_fd e st))
      | (None, st) => rollback task fds st
      end
  end.

(** One mapping: retain and install; on failure release unless the slot is taken. *)
Definition inherit_one (child fd : nat) (entry : LocalFd) (st : VfsState) : bool * VfsState :=
  let fail_one st :=
    (false, match current_entry child fd st with None => snd (release_fd entry st) | Some _ => st end) in
  match retain_fd entry st with
  | (false, st) => fail_one st
  | (true, st) =>
      match install_fd fd entry (default TaskFdTable_new (task_fds st !! child)) with
      | (true, table) => (true, set_table child table st)
      | (false, _) => fail_one st
      end
  end.

Fixpoint inherit_loop (parent child : nat) (mappings : list (nat * nat)) (installed : list nat) (st : VfsState) : bool * VfsState :=
  match mappings with
  | [] => (true, st)
  | (parent_fd, child_fd) :: mappings =>
      match current_entry parent parent_fd st with
      | None => (false, rollback child installed st)
      | Some entry =>
          match inherit_one child child_fd entry st with
          | (true, st) => inherit_loop parent child mappings (installed ++ [child_fd]) st
          | (false, st) => (false, rollback child installed st)
          end
      end
  end.

Definition inherit_fds (parent child : nat) (mappings : list (nat * nat)) (st : VfsState) : bool * VfsState :=
  inherit_loop parent child mappings [] (ensure_task child (ensure_task parent st)).

(** [fd] and entry pairs of the parent's table, which was copied before. *)
Fixpoint inherit_all_loop (child : nat) (entries : list (nat * LocalFd)) (installed : list nat) (st : VfsState) : bool * VfsState :=
  match entries with
  | [] => (true, st)
  | (fd, entry) :: entries =>
      match inherit_one child fd entry st with
      | (true, st) => inherit_all_loop child entries (installed ++ [fd]) st
      | (false, st) => (false, rollback child installed st)
      end
  end.

Definition used_entries (table : TaskFdTable) : list (nat * LocalFd) :=
  omap (λ '(fd, slot), match slot with Some e => Some (fd, e) | None => None end) (zip (seq 0 (length table)) table).

Definition inherit_all_fds (parent child : nat) (st : VfsState) : bool * VfsState :=
  let st := ensure_task child (ensure_task parent st) in
  inherit_all_loop child (used_entries (default TaskFdTable_new (task_fds st !! parent))) [] st.

(** ** Opening *)
Definition table_of (task : nat) (st : VfsState) : TaskFdTable := default TaskFdTable_new (task_fds st !! task).

(** [alloc_fd] on the task's table; on failure the retained entry is released. *)
Definition give_fd (task : nat) (entry : LocalFd) (st : VfsState) : option nat * VfsState :=
  match alloc_fd entry (table_of task st) with
  | Some (fd, table) => (Some fd, set_table task table st)
  | None => (None, snd (release_fd entry st))
  end.

(** The common end of [vfs_open] and [vfs_open_write]. *)
Definition open_object (task : nat) (file : OpenFile) (st : VfsState) : option nat * VfsState :=
  let st := ensure_task task st in
  if (free_slots (table_of task st) =? 0)%nat then (None, st) else
  let (id, st) := alloc_object (KFile file) st in
  let entry := {| object := id; access := FdFile |} in
  match retain_fd entry st with
  | (false, st) => (None, st)
  | (true, st) => give_fd task entry st
  end.

(** [vfs_open] once the file is read; [admitted] is what [admit_allocation] answered.
    What the admission itself does to the tasks is in MemoryPressure and in
    [with_admission] of ProcessRun, here and for [vfs_pipe]. *)
Definition open_read (task : nat) (admitted : bool) (data : bytes) (st : VfsState) : option nat * VfsState :=
  if negb admitted then (None, st) else
  open_object task {| f_path := None; f_data := data; f_offset := 0; f_writable := false; f_dirty := false |} st.
Definition open_write (task : nat) (path : bytes) : VfsState → option nat * VfsState :=
  open_object task {| f_path := Some path; f_data := []; f_offset := 0; f_writable := true; f_dirty := false |}.

Definition clear_fd (task fd : nat) (st : VfsState) : VfsState :=
  set_table task (<[fd:=None]> (table_of task st)) st.

Definition vfs_pipe (task : nat) (admitted : bool) (st : VfsState) : option (nat * nat) * VfsState :=
  if negb admitted then (None, st) else
  let st := ensure_task task st in
  if (free_slots (table_of task st) <? 2)%nat then (None, st) else
  let (id, st) := alloc_object (KPipe Pipe_new) st in
  let read_entry := {| object := id; access := FdPipeRead |} in
  let write_entry := {| object := id; access := FdPipeWrite |} in
  match retain_fd read_entry st with
  | (false, st) => (None, st)
  | (true, st) =>
      match give_fd task read_entry st with
      | (None, st) => (None, st)
      | (Some read_fd, st) =>
          match retain_fd write_entry st with
          | (false, st) => (None, snd (release_fd read_entry (clear_fd task read_fd st)))
          | (true, st) =>
              match alloc_fd write_entry (table_of task st) with
              | Some (write_fd, table) => (Some (read_fd, write_fd), set_table task table st)
              | None =>
                  let st := snd (release_fd read_entry (clear_fd task read_fd st)) in
                  (None, snd (release_fd write_entry st))
              end
          end
      end
  end.

Definition vfs_close (task fd : nat) (st : VfsState) : ReleaseEvent * VfsState :=
  match take_entry task fd st with
  | (Some e, st) => release_fd e st
  | (None, st) => (ReleaseEvent_none, st)
  end.

Definition vfs_dup (task fd : nat) (st : VfsState) : option nat * VfsState :=
  let st := ensure_task task st in
  if (free_slots (table_of task st) =? 0)%nat then (None, st) else
  match current_entry task fd st with
  | None => (None, st)
  | Some entry =>
      match retain_fd entry st with
      | (false, st) => (None, st)
      | (true, st) => give_fd task entry st
      end
  end.

(** ** Reading and writing *)
Definition set_object (id : nat) (ob : SharedObject) (k : SharedKind) (st : VfsState) : VfsState :=
  with_objects st (<[id:=Some {| refs := refs ob; so_kind := k |}]> (objects st)).

(** Read at the offset of an open file; [want] is [len.min(buf.len())]. *)
Definition file_read (want : Z) (f : OpenFile) : bytes * OpenFile :=
  let n := Z.min want (saturating_sub (len (f_data f)) (f_offset f)) in
  (slice (f_data f) (f_offset f) n,
   {| f_path := f_path f; f_data := f_data f; f_offset := f_offset f + n;
      f_writable := f_writable f; f_dirty := f_dirty f |}).

Definition vfs_read (task fd : nat) (want : Z) (st : VfsState) : option bytes * VfsState :=
  match current_entry task fd st with
  | None => (None, st)
  | Some entry =>
      match get_object (object entry) st with
      | None => (None, st)
      | Some ob =>
          match so_kind ob, access entry with
          | KFile f, FdFile => let (out, f) := file_read want f in (Some out, set_object (object entry) ob (KFile f) st)
          | KPipe p, FdPipeRead =>
              match pipe_read want p with
              | (Data out, p) => (Some out, set_object (object entry) ob (KPipe p) st)
              | (_, p) => (Some [], set_object (object entry) ob (KPipe p) st)
              end
          | _, _ => (None, st)
          end
      end
  end.

(** [resize(end, 0)] and [copy_from_slice] at the offset. *)
Definition file_write (buf : bytes) (end_ : Z) (f : OpenFile) : OpenFile :=
  let data := if len (f_data f) <? end_ then f_data f ++ zeros (end_ - len (f_data f)) else f_data f in
  {| f_path := f_path f; f_data := splice data (f_offset f) buf; f_offset := end_;
     f_writable := f_writable f; f_dirty := true |}.

(** [reserve n]: the heap can grow the file by [n] bytes. *)
Definition vfs_write (reserve : Z → bool) (task fd : nat) (buf : bytes) (st : VfsState) : option Z * list nat * VfsState :=
  match current_entry task fd st with
  | None => (None, [], st)
  | Some entry =>
      match get_object (object entry) st with
      | None => (None, [], st)
      | Some ob =>
          match so_kind ob, access entry with
          | KFile f, FdFile =>
              if negb (f_writable f) then (None, [], st) else
              match checked_add 64 (f_offset f) (len buf) with
              | None => (None, [], st)
              | Some end_ =>
                  if (len (f_data f) <? end_) && negb (reserve (end_ - len (f_data f))) then (None, [], st) else
                  (Some (len buf), [], set_object (object entry) ob (KFile (file_write buf end_ f)) st)
              end
          | KPipe p, FdPipeWrite =>
              if readers p =? 0 then (None, [], st) else
              let (n, p) := Pipe_write buf p in
              let (wake, p) := if 0 <? n then take_readers p else ([], p) in
              (Some n, wake, set_object (object entry) ob (KPipe p) st)
          | _, _ => (None, [], st)
          end
      end
  end.

(** One round of [vfs_read_blocking]: the value returned, or the task waits and
    will try again; and the writers to wake. *)
Inductive read_round := Returns (r : option bytes) | Waits.

Definition vfs_read_round (task fd : nat) (want : Z) (st : VfsState) : read_round * list nat * VfsState :=
  match current_entry task fd st with
  | None => (Returns None, [], st)
  | Some entry =>
      match get_object (object entry) st with
      | None => (Returns None, [], st)
      | Some ob =>
          match so_kind ob, access entry with
          | KFile f, FdFile =>
              let (out, f) := file_read want f in (Returns (Some out), [], set_object (object entry) ob (KFile f) st)
          | KPipe p, FdPipeRead =>
              match pipe_read want p with
              | (Data out, p) =>
                  let (wake, p) := if 0 <? len out then take_writers p else ([], p) in
                  (Returns (Some out), wake, set_object (object entry) ob (KPipe p) st)
              | (Eof, p) => (Returns (Some []), [], set_object (object entry) ob (KPipe p) st)
              | (WouldBlock, p) => (Waits, [], set_object (object entry) ob (KPipe (add_reader_waiter task p)) st)
              end
          | _, _ => (Returns None, [], st)
          end
      end
  end.

Definition vfs_read_fd_at (task fd : nat) (offset blen : Z) (st : VfsState) : option bytes :=
  entry ← current_entry task fd st;
  ob ← get_object (object entry) st;
  match so_kind ob, access entry with
  | KFile f, FdFile =>
      if f_writable f then None else
      if len (f_data f) <=? offset then Some []
      else Some (slice (f_data f) offset (Z.min (len (f_data f) - offset) blen))
  | _, _ => None
  end.

(** ** Polling *)
Definition EVENT_READ : Z := 1.
Definition EVENT_WRITE : Z := 2.
Definition EVENT_HANGUP : Z := 4.
Definition EVENT_ERROR : Z := 8.
Definition wants (events bit : Z) : bool := negb (Z.land events bit =? 0).
Definition event_if (b : bool) (bit : Z) : Z := if b then bit else 0.

Definition vfs_has_fd (task fd : nat) (st : VfsState) : bool := is_used (current_entry task fd st).

Definition vfs_poll_fd (task fd : nat) (events : Z) (st : VfsState) : Z :=
  match current_entry task fd st with
  | None => EVENT_ERROR
  | Some entry =>
      match get_object (object entry) st with
      | None => EVENT_ERROR
      | Some ob =>
          match so_kind ob, access entry with
          | KFile f, FdFile =>
              Z.lor (event_if (wants events EVENT_READ) EVENT_READ)
                    (event_if (f_writable f && wants events EVENT_WRITE) EVENT_WRITE)
          | KPipe p, FdPipeRead =>
              Z.lor (event_if (wants events EVENT_READ && (0 <? p_len p)) EVENT_READ)
                    (if writers p =? 0 then Z.lor EVENT_HANGUP (event_if (wants events EVENT_READ) EVENT_READ) else 0)
          | KPipe p, FdPipeWrite =>
              if readers p =? 0 then EVENT_HANGUP
              else event_if (wants events EVENT_WRITE && (p_len p <? PIPE_SIZE)) EVENT_WRITE
          | _, _ => EVENT_ERROR
          end
      end
  end.

Definition vfs_register_poll_waiter (owner fd task : nat) (events : Z) (st : VfsState) : bool * VfsState :=
  match current_entry owner fd st with
  | None => (false, st)
  | Some entry =>
      match get_object (object entry) st with
      | None => (false, st)
      | Some ob =>
          match so_kind ob, access entry with
          | KPipe p, FdPipeRead =>
              (true, if wants events EVENT_READ then set_object (object entry) ob (KPipe (add_reader_waiter task p)) st else st)
          | KPipe p, FdPipeWrite =>
              (true, if wants events EVENT_WRITE then set_object (object entry) ob (KPipe (add_writer_waiter task p)) st else st)
          | KFile _, FdFile => (true, st)
          | _, _ => (false, st)
          end
      end
  end.

Definition vfs_unregister_poll_waiter (owner fd task : nat) (st : VfsState) : VfsState :=
  match current_entry owner fd st with
  | None => st
  | Some entry =>
      match get_object (object entry) st with
      | Some ob =>
          match so_kind ob with
          | KPipe p => set_object (object entry) ob (KPipe (Pipe_remove_waiter task p)) st
          | KFile _ => st
          end
      | None => st
      end
  end.

Definition task_open_fd_count (task : nat) (st : VfsState) : nat :=
  match task_fds st !! task with Some t => open_count t | None => O end.
