(* ===== verification/FdInv.v ===== *)
(** * Reference counts of the file descriptors

    The invariant [inv] of the state of FdTable.v says that the counts are
    exact: an object is alive exactly when some descriptor refers to it, and a
    pipe's reader and writer counts are the numbers of its read and write
    descriptors in all tasks.  [exec] and [steps] are the transition system of
    all operations that change the state, and every state it reaches satisfies
    the invariant. *)
From S2P Require Import Prelude Pipe FdTable.

Local Open Scope Z_scope.

(** ** Counting references *)
Definition ind (P : LocalFd → bool) (e : LocalFd) : Z := if P e then 1 else 0.
Definition slot_count (P : LocalFd → bool) (s : option LocalFd) : Z := match s with Some e => ind P e | None => 0 end.
Definition table_count (P : LocalFd → bool) (t : TaskFdTable) : Z := lsum (slot_count P) t.

(** Descriptors in all tables, and the references [pend] that an operation
    holds while it moves them, that satisfy [P]. *)
Definition count (pend : list LocalFd) (st : VfsState) (P : LocalFd → bool) : Z :=
  lsum (table_count P) (task_fds st) + lsum (ind P) pend.

Definition refers (o : nat) (e : LocalFd) : bool := (object e =? o)%nat.
Definition reads (o : nat) (e : LocalFd) : bool := refers o e && bool_decide (access e = FdPipeRead).
Definition writes (o : nat) (e : LocalFd) : bool := refers o e && bool_decide (access e = FdPipeWrite).

Record file_ok (f : OpenFile) : Prop := {
  fo_offset : 0 ≤ f_offset f;
  fo_path : f_writable f = true → is_Some (f_path f) }.

Definition kind_ok (tot : (LocalFd → bool) → Z) (o : nat) (ob : SharedObject) : Prop :=
  match so_kind ob with
  | KPipe p => pipe_wf p ∧ readers p = tot (reads o) ∧ writers p = tot (writes o) ∧ refs ob = readers p + writers p
  | KFile f => file_ok f ∧ tot (reads o) = 0 ∧ tot (writes o) = 0
  end.

(** The reference counts are exact; [fresh] is an object just allocated, which
    nothing refers to yet. *)
Record inv (pend : list LocalFd) (fresh : option nat) (st : VfsState) : Prop := {
  inv_tables : Forall (λ t, length t = MAX_FDS) (task_fds st);
  inv_live o ob : get_object o st = Some ob →
    refs ob = count pend st (refers o) ∧ (0 < refs ob ∨ fresh = Some o) ∧ kind_ok (count pend st) o ob;
  inv_dead o : get_object o st = None → count pend st (refers o) = 0 }.

Lemma ind_nonneg P e : 0 ≤ ind P e.
Proof. unfold ind. by case_if. Qed.
Lemma slot_count_nonneg P s : 0 ≤ slot_count P s.
Proof. destruct s; [apply ind_nonneg|done]. Qed.
Lemma table_count_nonneg P t : 0 ≤ table_count P t.
Proof. apply lsum_nonneg, slot_count_nonneg. Qed.

Lemma count_nonneg pend st P : 0 ≤ count pend st P.
Proof.
  unfold count. pose proof (lsum_nonneg (table_count P) (task_fds st) (table_count_nonneg P)).
  pose proof (lsum_nonneg (ind P) pend (ind_nonneg P)). lia.
Qed.

Lemma count_cons e pend st P : count (e :: pend) st P = count pend st P + ind P e.
Proof. unfold count. simpl. lia. Qed.

Lemma count_set_table pend task t fd s s' st P :
  task_fds st !! task = Some t → t !! fd = Some s →
  count pend (set_table task (<[fd:=s']> t) st) P = count pend st P - slot_count P s + slot_count P s'.
Proof.
  intros Ht Hfd. unfold count, set_table. cbn [task_fds with_tables].
  rewrite (lsum_insert _ _ _ _ _ Ht). unfold table_count at 3. rewrite (lsum_insert _ _ _ _ _ Hfd).
  unfold table_count. lia.
Qed.

Lemma count_objects pend st obs P : count pend (with_objects st obs) P = count pend st P.
Proof. done. Qed.

(** A descriptor in a table is counted. *)
Lemma count_entry pend st task fd e P :
  current_entry task fd st = Some e → ind P e ≤ count pend st P.
Proof.
  unfold current_entry. destruct (task_fds st !! task) as [t|] eqn:Ht; [|done].
  destruct (t !! fd) as [s|] eqn:Hs; [|done]. simpl. intros ->. unfold count.
  pose proof (lsum_ge (table_count P) _ _ _ (table_count_nonneg P) Ht).
  pose proof (lsum_ge (slot_count P) _ _ _ (slot_count_nonneg P) Hs). simpl in *.
  pose proof (lsum_nonneg (ind P) pend (ind_nonneg P)). unfold table_count in *. lia.
Qed.

Lemma ind_true P e : P e = true → ind P e = 1.
Proof. unfold ind. by intros ->. Qed.

Lemma refers_self e : refers (object e) e = true.
Proof. apply Nat.eqb_refl. Qed.

(** The access rights of an entry fit the kind of its object. *)
Definition access_ok (e : LocalFd) (k : SharedKind) : Prop :=
  match k, access e with
  | KFile _, FdFile | KPipe _, FdPipeRead | KPipe _, FdPipeWrite => True
  | _, _ => False
  end.

Definition plain (o : nat) (e : LocalFd) : bool := refers o e && bool_decide (access e = FdFile).

Lemma lsum_add {A} (h h1 h2 h3 : A → Z) l :
  (∀ x, h x = h1 x + h2 x + h3 x) → lsum h l = lsum h1 l + lsum h2 l + lsum h3 l.
Proof. intros E. induction l as [|x l IH]; simpl; [done|]. rewrite IH, E. lia. Qed.

Lemma count_split pend st o :
  count pend st (refers o) = count pend st (reads o) + count pend st (writes o) + count pend st (plain o).
Proof.
  assert (∀ e, ind (refers o) e = ind (reads o) e + ind (writes o) e + ind (plain o) e) as He.
  { intros e. unfold ind, reads, writes, plain. destruct (refers o e); simpl; [|done].
    by destruct (access e). }
  assert (∀ s, slot_count (refers o) s = slot_count (reads o) s + slot_count (writes o) s + slot_count (plain o) s) as Hs
    by (intros [e|]; [apply He|done]).
  assert (∀ t, table_count (refers o) t = table_count (reads o) t + table_count (writes o) t + table_count (plain o) t) as Ht
    by (intros t; by apply lsum_add).
  unfold count. rewrite (lsum_add _ _ _ _ (task_fds st) Ht), (lsum_add _ _ _ _ pend He). lia.
Qed.

(** A counted entry names a live object of the right kind. *)
Lemma inv_entry pend fresh st e :
  inv pend fresh st → (∀ P, ind P e ≤ count pend st P) →
  ∃ ob, get_object (object e) st = Some ob ∧ access_ok e (so_kind ob).
Proof.
  intros Hinv Hc. destruct (get_object (object e) st) as [ob|] eqn:Ho.
  2: { pose proof (Hc (refers (object e))) as H1. rewrite (ind_true _ e (refers_self e)) in H1.
       rewrite (inv_dead _ _ _ Hinv _ Ho) in H1. lia. }
  exists ob. split; [done|]. destruct (inv_live _ _ _ Hinv _ _ Ho) as (Hr & _ & Hk).
  pose proof (count_split pend st (object e)) as Hs. unfold access_ok, kind_ok in *.
  pose proof (Hc (reads (object e))) as H1. pose proof (Hc (writes (object e))) as H2. pose proof (Hc (plain (object e))) as H3.
  unfold ind, reads, writes, plain in H1, H2, H3. rewrite refers_self in H1, H2, H3. simpl in H1, H2, H3.
  fold (reads (object e)) (writes (object e)) (plain (object e)) in *.
  destruct (so_kind ob) as [f|p], (access e); try done; exfalso; simpl in *; unfold reads, writes, plain in *; lia.
Qed.

Lemma get_object_insert o o' st ob x :
  get_object o' st = Some ob →
  get_object o (with_objects st (<[o':=x]> (objects st))) = if decide (o = o') then x else get_object o st.
Proof.
  unfold get_object. intros Ho. cbn [with_objects objects].
  destruct (objects st !! o') as [s|] eqn:Hs; [|done]. apply lookup_lt_Some in Hs.
  destruct (decide (o = o')) as [->|Hne].
  - by rewrite list_lookup_insert_eq.
  - by rewrite list_lookup_insert_ne.
Qed.

(** The counts of the objects other than [o'] are the same for [pend] and [pend']. *)
Definition same_elsewhere (o' : nat) pend pend' st : Prop :=
  ∀ o, o ≠ o' → count pend' st (refers o) = count pend st (refers o) ∧
    count pend' st (reads o) = count pend st (reads o) ∧ count pend' st (writes o) = count pend st (writes o).

Lemma same_elsewhere_cons e pend st : same_elsewhere (object e) pend (e :: pend) st.
Proof.
  intros o Hne. rewrite !count_cons. unfold ind, reads, writes, refers.
  rewrite (proj2 (Nat.eqb_neq (object e) o)) by done. simpl. lia.
Qed.

Lemma same_elsewhere_sym o pend pend' st : same_elsewhere o pend pend' st → same_elsewhere o pend' pend st.
Proof. intros Hs o' Hne. destruct (Hs o' Hne) as (-> & -> & ->). done. Qed.

Lemma kind_ok_ext tot tot' o ob :
  tot' (reads o) = tot (reads o) → tot' (writes o) = tot (writes o) → kind_ok tot o ob → kind_ok tot' o ob.
Proof. unfold kind_ok. intros -> ->. done. Qed.

(** One object changes. *)
Lemma inv_set pend pend' fresh fresh' st o' ob x :
  inv pend fresh st → get_object o' st = Some ob → same_elsewhere o' pend pend' st →
  (∀ o, o ≠ o' → fresh = Some o → fresh' = Some o) →
  match x with
  | Some ob' => refs ob' = count pend' st (refers o') ∧ (0 < refs ob' ∨ fresh' = Some o') ∧ kind_ok (count pend' st) o' ob'
  | None => count pend' st (refers o') = 0
  end →
  inv pend' fresh' (with_objects st (<[o':=x]> (objects st))).
Proof.
  intros Hinv Ho Hs Hf Hx. split.
  - apply Hinv.
  - intros o ob'. rewrite (get_object_insert o o' st ob x Ho). case_decide as Hd.
    + subst o. by intros ->.
    + intros Hob. destruct (inv_live _ _ _ Hinv o ob' Hob) as (Hr & Hp & Hk). destruct (Hs o Hd) as (E1 & E2 & E3).
      change (refs ob' = count pend' st (refers o) ∧ (0 < refs ob' ∨ fresh' = Some o) ∧ kind_ok (count pend' st) o ob').
      rewrite E1. split_and!; [done|destruct Hp; [by left|right; by apply Hf]|by apply (kind_ok_ext (count pend st))].
  - intros o. rewrite (get_object_insert o o' st ob x Ho). case_decide as Hd.
    + subst o. by intros ->.
    + intros Hob. change (count pend' st (refers o) = 0). destruct (Hs o Hd) as (-> & _). by apply (inv_dead _ _ _ Hinv).
Qed.

(** The counts of [object e] with [e] added. *)
Lemma count_self e pend st :
  count (e :: pend) st (refers (object e)) = count pend st (refers (object e)) + 1 ∧
  count (e :: pend) st (reads (object e)) = count pend st (reads (object e)) + match access e with FdPipeRead => 1 | _ => 0 end ∧
  count (e :: pend) st (writes (object e)) = count pend st (writes (object e)) + match access e with FdPipeWrite => 1 | _ => 0 end.
Proof.
  rewrite !count_cons. unfold ind, reads, writes. rewrite refers_self. simpl.
  split_and!; [done|..]; by destruct (access e).
Qed.

Definition settle (e : LocalFd) (fresh : option nat) : option nat :=
  if decide (fresh = Some (object e)) then None else fresh.

(** [retain_fd] adds one pending reference. *)
Lemma retain_ok e pend fresh st ob :
  inv pend fresh st → get_object (object e) st = Some ob → access_ok e (so_kind ob) →
  ∃ st', retain_fd e st = (true, st') ∧ inv (e :: pend) (settle e fresh) st' ∧ task_fds st' = task_fds st.
Proof.
  intros Hinv Ho Ha. unfold retain_fd. rewrite Ho. eexists. split_and!; [done| |done].
  destruct (inv_live _ _ _ Hinv _ _ Ho) as (Hr & Hp & Hk). destruct (count_self e pend st) as (E1 & E2 & E3).
  pose proof (count_nonneg pend st (refers (object e))).
  eapply (inv_set pend); [done|done|apply same_elsewhere_cons| |].
  - intros o Hne ->. unfold settle. rewrite decide_False; [done|]. congruence.
  - cbn [refs]. rewrite E1. split_and!; [lia|left; lia|].
    unfold kind_ok, access_ok in *. cbn [so_kind refs]. rewrite E2, E3.
    destruct (so_kind ob) as [f|p]; destruct (access e); try done; cbn [retain_kind].
    + destruct Hk as (Hf & H1 & H2). split_and!; [done|lia..].
    + destruct Hk as (Hw & H1 & H2 & H3). cbn [with_counts readers writers]. split_and!; [by destruct Hw|lia..].
    + destruct Hk as (Hw & H1 & H2 & H3). cbn [with_counts readers writers]. split_and!; [by destruct Hw|lia..].
Qed.

Lemma release_kind_ok a k w k' :
  release_kind a k = (w, k') →
  match k, k' with
  | KFile f, KFile f' => f' = f ∧ w = []
  | KPipe p, KPipe p' =>
      (pipe_wf p → pipe_wf p') ∧ queue p' = queue p ∧
      readers p' = match a with FdPipeRead => Z.max (readers p - 1) 0 | _ => readers p end ∧
      writers p' = match a with FdPipeWrite => Z.max (writers p - 1) 0 | _ => writers p end
  | _, _ => False
  end.
Proof.
  unfold release_kind, saturating_sub. destruct k as [f|p]; [intros [= <- <-]; by destruct a|].
  destruct a; [intros [= <- <-]; done|..]; case_if; simpl; intros [= <- <-]; (split_and!; [by intros []|done|simpl; lia|simpl; lia]).
Qed.

(** [release_fd] drops one pending reference, and the object with the last one. *)
Lemma release_ok e pend st ev st' :
  inv (e :: pend) None st → release_fd e st = (ev, st') → inv pend None st' ∧ task_fds st' = task_fds st.
Proof.
  intros Hinv. destruct (inv_entry _ _ _ e Hinv) as (ob & Ho & Ha).
  { intros P. rewrite count_cons. pose proof (count_nonneg pend st P). lia. }
  destruct (inv_live _ _ _ Hinv _ _ Ho) as (Hr & [Hp|?] & Hk); [|done].
  destruct (count_self e pend st) as (E1 & E2 & E3). pose proof (count_nonneg pend st (refers (object e))).
  pose proof (count_nonneg pend st (reads (object e))). pose proof (count_nonneg pend st (writes (object e))).
  unfold release_fd. rewrite Ho. destruct (release_kind (access e) (so_kind ob)) as [w k'] eqn:Ek.
  apply release_kind_ok in Ek. unfold saturating_sub. cbn [refs so_kind].
  destruct (Z.eqb_spec (Z.max (refs ob - 1) 0) 0) as [E0|E0]; intros [= <- <-]; (split; [|done]).
  - eapply (inv_set (e :: pend)); [done|done|apply same_elsewhere_sym, same_elsewhere_cons|done|]. lia.
  - eapply (inv_set (e :: pend)); [done|done|apply same_elsewhere_sym, same_elsewhere_cons|done|].
    cbn [refs]. split_and!; [lia|left; lia|]. unfold kind_ok in *. cbn [so_kind refs].
    rewrite E2, E3 in Hk. unfold access_ok in Ha.
    destruct (so_kind ob) as [f|p], k' as [f'|p']; try done.
    + destruct Ek as [-> _], Hk as (Hf & K1 & K2). split_and!; [done|destruct (access e); lia..].
    + destruct Ek as (Hw' & _ & -> & ->), Hk as (Hw & K1 & K2 & K3).
      destruct (access e); [done|..]; split_and!; auto; lia.
Qed.

(** ** Moving references between tables and operations *)
Lemma inv_ext pend pend' fresh st st' :
  inv pend fresh st → objects st' = objects st → Forall (λ t, length t = MAX_FDS) (task_fds st') →
  (∀ P, count pend' st' P = count pend st P) → inv pend' fresh st'.
Proof.
  intros Hinv Eo Ht Hc.
  assert (∀ o, get_object o st' = get_object o st) as Eg by (intros o; unfold get_object; by rewrite Eo).
  split; [done|..].
  - intros o ob. rewrite Eg, Hc. intros (Hr & Hp & Hk)%(inv_live _ _ _ Hinv).
    split_and!; [done..|]. by apply (kind_ok_ext (count pend st)).
  - intros o. rewrite Eg, Hc. apply (inv_dead _ _ _ Hinv).
Qed.

Lemma table_length pend fresh st task t :
  inv pend fresh st → task_fds st !! task = Some t → length t = MAX_FDS.
Proof. intros Hinv Ht. exact (proj1 (Forall_lookup _ _) (inv_tables _ _ _ Hinv) _ _ Ht). Qed.

Lemma inv_set_table pend pend' fresh st task t fd s s' :
  inv pend fresh st → task_fds st !! task = Some t → t !! fd = Some s →
  (∀ P, lsum (ind P) pend' + slot_count P s' = lsum (ind P) pend + slot_count P s) →
  inv pend' fresh (set_table task (<[fd:=s']> t) st).
Proof.
  intros Hinv Ht Hs HP. eapply inv_ext; [done|done| |].
  - apply Forall_insert; [apply Hinv|]. etransitivity; [apply length_insert|]. by apply (table_length _ _ _ _ _ Hinv Ht).
  - intros P. rewrite (count_set_table _ _ _ _ _ _ _ _ Ht Hs). specialize (HP P). unfold count. lia.
Qed.

(** A pending reference is put into a free slot. *)
Lemma put_ok e pend fresh st task t fd :
  inv (e :: pend) fresh st → task_fds st !! task = Some t → t !! fd = Some None →
  inv pend fresh (set_table task (<[fd:=Some e]> t) st).
Proof. intros Hinv Ht Hs. eapply inv_set_table; [done..|]. intros P. simpl. lia. Qed.

(** The entry of a slot is taken out and becomes a pending reference. *)
Lemma take_ok pend fresh st task fd o st' :
  inv pend fresh st → take_entry task fd st = (o, st') →
  o = current_entry task fd st ∧ objects st' = objects st ∧
  match o with Some e => inv (e :: pend) fresh st' | None => st' = st end.
Proof.
  intros Hinv. unfold take_entry, current_entry. destruct (task_fds st !! task) as [t|] eqn:Ht; [|by intros [= <- <-]].
  destruct (t !! fd) as [[e|]|] eqn:Hs; intros [= <- <-]; [|done..].
  split_and!; [done..|]. eapply inv_set_table; [done..|]. intros P. simpl. lia.
Qed.

Lemma alloc_fd_ok e t fd t' :
  alloc_fd e t = Some (fd, t') → t !! fd = Some None ∧ t' = <[fd:=Some e]> t ∧ (3 ≤ fd < MAX_FDS)%nat.
Proof.
  unfold alloc_fd. destruct (List.find _ _) as [fd'|] eqn:Hf; [|done]. intros [= <- <-].
  apply find_some in Hf as [Hin Hf]. apply in_seq in Hin. unfold is_free in Hf.
  destruct (t !! fd') as [[|]|]; [done| |done]. split_and!; [done|done|lia|unfold MAX_FDS in *; lia].
Qed.

Lemma current_entry_fds st st' task fd : task_fds st' = task_fds st → current_entry task fd st' = current_entry task fd st.
Proof. unfold current_entry. by intros ->. Qed.

Lemma table_count_new P : table_count P TaskFdTable_new = 0.
Proof. done. Qed.

(** [ensure_task] adds empty tables only. *)
Lemma ensure_ok pend fresh st task :
  inv pend fresh st → inv pend fresh (ensure_task task st) ∧ (task < length (task_fds (ensure_task task st)))%nat.
Proof.
  intros Hinv. split.
  - eapply inv_ext; [done|done| |].
    + cbn [ensure_task task_fds]. apply Forall_app. split; [apply Hinv|]. by apply Forall_replicate.
    + intros P. unfold count. cbn [ensure_task task_fds]. rewrite lsum_app.
      rewrite (lsum_zero _ (replicate _ _)); [lia|]. intros t [-> _]%elem_of_replicate. apply table_count_new.
  - cbn [ensure_task task_fds]. rewrite length_app, length_replicate. lia.
Qed.

Lemma ensure_entry st task task' fd : current_entry task' fd (ensure_task task st) = current_entry task' fd st.
Proof.
  unfold current_entry. cbn [ensure_task task_fds]. destruct (decide (task' < length (task_fds st))%nat) as [Hl|Hl].
  - by rewrite lookup_app_l.
  - rewrite lookup_app_r, (lookup_ge_None_2 (task_fds st) task') by lia.
    destruct (replicate _ _ !! _) as [t|] eqn:Ht; [|done]. apply lookup_replicate in Ht as [-> _].
    destruct (TaskFdTable_new !! fd) as [x|] eqn:Hx; [|done].
    unfold TaskFdTable_new in Hx. by apply lookup_replicate in Hx as [-> _].
Qed.

Definition new_kind_ok (k : SharedKind) : Prop :=
  match k with KFile f => file_ok f | KPipe p => pipe_wf p ∧ readers p = 0 ∧ writers p = 0 end.

Lemma position_empty obs id : position empty_slot obs = Some id → obs !! id = Some None.
Proof.
  intros Hp. apply position_Some in Hp as (x & Hx & He & _). destruct x; [done|done].
Qed.

Lemma alloc_object_get k st id st' :
  alloc_object k st = (id, st') →
  get_object id st = None ∧ task_fds st' = task_fds st ∧
  ∀ o, get_object o st' = if decide (o = id) then Some {| refs := 0; so_kind := k |} else get_object o st.
Proof.
  unfold alloc_object, get_object. destruct (position empty_slot (objects st)) as [i|] eqn:Hp; intros [= <- <-]; cbn [objects with_objects].
  - apply position_empty in Hp as Hi. rewrite Hi. split_and!; [done..|]. intros o. case_decide as Hd.
    + subst o. rewrite list_lookup_insert_eq; [done|]. by eapply lookup_lt_Some.
    + by rewrite list_lookup_insert_ne.
  - rewrite lookup_ge_None_2 by lia. split_and!; [done..|]. intros o. case_decide as Hd.
    + subst o. by rewrite lookup_app_r, Nat.sub_diag by lia.
    + destruct (decide (o < length (objects st))%nat).
      * by rewrite lookup_app_l.
      * rewrite !lookup_ge_None_2; [done|lia|rewrite length_app; simpl; lia].
Qed.

Lemma alloc_object_ok k pend st id st' :
  inv pend None st → new_kind_ok k → alloc_object k st = (id, st') →
  inv pend (Some id) st' ∧ get_object id st' = Some {| refs := 0; so_kind := k |} ∧ task_fds st' = task_fds st.
Proof.
  intros Hinv Hk Ha. apply alloc_object_get in Ha as (Hid & Ht & Hg).
  assert (get_object id st' = Some {| refs := 0; so_kind := k |}) as Hid' by (rewrite Hg; by rewrite decide_True).
  split_and!; [|done..].
  assert (∀ P, count pend st' P = count pend st P) as Hc by (intros P; unfold count; by rewrite Ht).
  split; [rewrite Ht; apply Hinv|..].
  - intros o ob. rewrite Hg, Hc. case_decide as Hd; [intros [= <-]; subst o|].
    + pose proof (inv_dead _ _ _ Hinv _ Hid) as H0. pose proof (count_split pend st id) as Hs.
      pose proof (count_nonneg pend st (reads id)). pose proof (count_nonneg pend st (writes id)).
      pose proof (count_nonneg pend st (plain id)).
      split_and!; [done|by right|]. unfold kind_ok. cbn [so_kind refs]. rewrite !Hc.
      destruct k as [f|p]; simpl in Hk; [split_and!; [done|lia..]|]. destruct Hk as (Hw & E1 & E2). rewrite E1, E2.
      split_and!; [done|lia..].
    + intros (Hr & Hp & Hk')%(inv_live _ _ _ Hinv). split_and!; [done|destruct Hp; [by left|done]|].
      by apply (kind_ok_ext (count pend st)).
  - intros o. rewrite Hg, Hc. case_decide; [done|]. apply (inv_dead _ _ _ Hinv).
Qed.

Lemma table_of_lookup task st : (task < length (task_fds st))%nat → task_fds st !! task = Some (table_of task st).
Proof. intros [t Ht]%lookup_lt_is_Some. unfold table_of. by rewrite Ht. Qed.

(** A pending reference is moved into the task's table, or released. *)
Lemma give_ok task e pend st r st' :
  inv (e :: pend) None st → (task < length (task_fds st))%nat → give_fd task e st = (r, st') →
  inv pend None st' ∧
  match r with
  | Some fd => objects st' = objects st ∧ current_entry task fd st = None ∧ (3 ≤ fd < MAX_FDS)%nat ∧
               task_fds st' = <[task:=<[fd:=Some e]> (table_of task st)]> (task_fds st)
  | None => alloc_fd e (table_of task st) = None
  end.
Proof.
  intros Hinv Hl. apply table_of_lookup in Hl as Ht. unfold give_fd. destruct (alloc_fd e _) as [[fd t']|] eqn:Ha.
  - apply alloc_fd_ok in Ha as (Hs & -> & Hfd). intros [= <- <-]. split; [by eapply put_ok|].
    split_and!; [done| |lia|lia|done]. unfold current_entry. by rewrite Ht, Hs.
  - intros [= <- <-]. destruct (release_fd e st) as [ev st'] eqn:Er. split; [|done].
    by apply (release_ok _ _ _ _ _ Hinv Er).
Qed.

Lemma settle_eq e : settle e (Some (object e)) = None.
Proof. unfold settle. by rewrite decide_True. Qed.
Lemma settle_None e : settle e None = None.
Proof. unfold settle. by rewrite decide_False. Qed.

Lemma entry_ok pend fresh st task fd e :
  inv pend fresh st → current_entry task fd st = Some e →
  ∃ ob, get_object (object e) st = Some ob ∧ access_ok e (so_kind ob).
Proof. intros Hinv He. apply (inv_entry _ _ _ _ Hinv). intros P. by apply (count_entry _ _ task fd). Qed.

(** ** Every operation keeps the counts exact *)
Lemma inv_new : inv [] None VfsState_new.
Proof. split; [constructor|done|done]. Qed.

Lemma open_object_ok task file st r st' :
  inv [] None st → file_ok file → open_object task file st = (r, st') → inv [] None st'.
Proof.
  intros Hinv Hf. unfold open_object. destruct (ensure_ok _ _ st task Hinv) as [Hinv1 Hl].
  case_if; [by intros [= <- <-]|]. destruct (alloc_object _ _) as [id st2] eqn:Ha.
  destruct (alloc_object_ok (KFile file) _ _ _ _ Hinv1 Hf Ha) as (Hinv2 & Hg & Ht).
  destruct (retain_ok {| object := id; access := FdFile |} _ _ _ _ Hinv2 Hg I) as (st3 & -> & Hinv3 & Ht3).
  rewrite settle_eq in Hinv3. intros Hgive. eapply give_ok; [done| |done]. by rewrite Ht3, Ht.
Qed.

Lemma dup_ok task fd st r st' : inv [] None st → vfs_dup task fd st = (r, st') → inv [] None st'.
Proof.
  intros Hinv. unfold vfs_dup. destruct (ensure_ok _ _ st task Hinv) as [Hinv1 Hl].
  case_if; [by intros [= <- <-]|]. destruct (current_entry _ _ _) as [e|] eqn:He; [|by intros [= <- <-]].
  destruct (entry_ok _ _ _ _ _ _ Hinv1 He) as (ob & Ho & Ha).
  destruct (retain_ok e _ _ _ _ Hinv1 Ho Ha) as (st3 & -> & Hinv3 & Ht3). rewrite settle_None in Hinv3.
  intros Hgive. eapply give_ok; [done| |done]. by rewrite Ht3.
Qed.

Lemma close_ok task fd st ev st' : inv [] None st → vfs_close task fd st = (ev, st') → inv [] None st'.
Proof.
  intros Hinv. unfold vfs_close. destruct (take_entry task fd st) as [o st1] eqn:Htk.
  apply (take_ok _ _ _ _ _ _ _ Hinv) in Htk as (-> & _ & Hm).
  destruct (current_entry task fd st) as [e|]; [|intros [= <- <-]; by subst].
  intros Hr. by apply (release_ok _ _ _ _ _ Hm Hr).
Qed.

Lemma clear_is_take task fd e st :
  current_entry task fd st = Some e → take_entry task fd st = (Some e, clear_fd task fd st).
Proof.
  unfold current_entry, take_entry, clear_fd, table_of. destruct (task_fds st !! task) as [t|]; [|done]. simpl.
  by destruct (t !! fd) as [[e'|]|]; simpl; [intros [= ->]|..].
Qed.

Lemma put_entry task fd e st st' :
  (task < length (task_fds st))%nat → table_of task st !! fd = Some None →
  task_fds st' = <[task:=<[fd:=Some e]> (table_of task st)]> (task_fds st) → current_entry task fd st' = Some e.
Proof.
  intros Hl Hs Ht. unfold current_entry. rewrite Ht, list_lookup_insert_eq by done.
  change TaskFdTable with (list (option LocalFd)). by rewrite list_lookup_insert_eq by (by eapply lookup_lt_Some).
Qed.

Lemma pipe_undo_ok task fd e e' st :
  inv [e'] None st → current_entry task fd st = Some e →
  inv [] None (snd (release_fd e' (snd (release_fd e (clear_fd task fd st))))).
Proof.
  intros Hinv He. pose proof (clear_is_take _ _ _ _ He) as Htk.
  apply (take_ok _ _ _ _ _ _ _ Hinv) in Htk as (_ & _ & Hinv2). simpl in Hinv2.
  destruct (release_fd e _) as [ev1 st1] eqn:E1. destruct (release_ok _ _ _ _ _ Hinv2 E1) as [Hinv3 _]. simpl.
  destruct (release_fd e' st1) as [ev2 st2] eqn:E2. by apply (release_ok _ _ _ _ _ Hinv3 E2).
Qed.

Lemma pipe_ok task admitted st r st' : inv [] None st → vfs_pipe task admitted st = (r, st') → inv [] None st'.
Proof.
  intros Hinv. unfold vfs_pipe. destruct (ensure_ok _ _ st task Hinv) as [Hinv1 Hl].
  case_if; [by intros [= <- <-]|]. case_if; [by intros [= <- <-]|].
  destruct (alloc_object _ _) as [id st2] eqn:Ha.
  assert (new_kind_ok (KPipe Pipe_new)) as Hnew by (split_and!; [apply Pipe_new_wf|done|done]).
  destruct (alloc_object_ok _ _ _ _ _ Hinv1 Hnew Ha) as (Hinv2 & Hg & Ht2).
  destruct (retain_ok {| object := id; access := FdPipeRead |} _ _ _ _ Hinv2 Hg I) as (st3 & -> & Hinv3 & Ht3).
  rewrite settle_eq in Hinv3. assert (task < length (task_fds st3))%nat as Hl3 by (by rewrite Ht3, Ht2).
  destruct (give_fd _ _ st3) as [[fd|] st4] eqn:Hgv; [|intros [= <- <-]; by apply (give_ok _ _ _ _ _ _ Hinv3 Hl3 Hgv)].
  destruct (give_ok _ _ _ _ _ _ Hinv3 Hl3 Hgv) as (Hinv4 & _ & _ & _ & Ht4).
  assert (current_entry task fd st4 = Some {| object := id; access := FdPipeRead |}) as He4.
  { eapply put_entry; [exact Hl3| |exact Ht4]. unfold give_fd in Hgv. destruct (alloc_fd _ _) as [[fd' t']|] eqn:Hal; [|done].
    injection Hgv as -> _. by apply alloc_fd_ok in Hal as (? & _). }
  destruct (entry_ok _ _ _ _ _ _ Hinv4 He4) as (ob & Ho & Hacc).
  destruct (retain_ok {| object := id; access := FdPipeWrite |} _ _ _ ob Hinv4 Ho) as (st5 & -> & Hinv5 & Ht5).
  { unfold access_ok in *. by destruct (so_kind ob). }
  rewrite settle_None in Hinv5. destruct (alloc_fd _ _) as [[wfd t']|] eqn:Hal; intros [= <- <-].
  - apply alloc_fd_ok in Hal as (Hs & -> & _). eapply put_ok; [done| |done]. apply table_of_lookup.
    by rewrite Ht5, Ht4, length_insert.
  - apply pipe_undo_ok; [done|]. by rewrite (current_entry_fds st4).
Qed.

(** Replacing the kind of an object by one with the same counts. *)
Definition kind_step (k k' : SharedKind) : Prop :=
  match k, k' with
  | KFile f, KFile f' => file_ok f → file_ok f'
  | KPipe p, KPipe p' => pipe_wf p → pipe_wf p' ∧ readers p' = readers p ∧ writers p' = writers p
  | _, _ => False
  end.

Lemma set_object_ok pend fresh st o ob k :
  inv pend fresh st → get_object o st = Some ob → kind_step (so_kind ob) k → inv pend fresh (set_object o ob k st).
Proof.
  intros Hinv Ho Hk. destruct (inv_live _ _ _ Hinv _ _ Ho) as (Hr & Hp & Hok).
  unfold set_object. eapply (inv_set pend); [done|done|by intros ?|by intros|]. cbn [refs]. split_and!; [done..|].
  unfold kind_ok in *. cbn [so_kind refs]. destruct (so_kind ob) as [f|p], k as [f'|p']; try done.
  - destruct Hok as (Hf & ?). split; [by apply Hk|done].
  - destruct Hok as (Hw & Hc). destruct (Hk Hw) as (Hw' & -> & ->). done.
Qed.

Lemma file_read_step want f : 0 ≤ want → kind_step (KFile f) (KFile (snd (file_read want f))).
Proof.
  intros Hw [Ho Hp]. split; [|done]. cbn [file_read snd f_offset]. unfold saturating_sub. lia.
Qed.

Lemma file_write_step buf f e :
  f_writable f = true → f_offset f ≤ e → kind_step (KFile f) (KFile (file_write buf e f)).
Proof. intros Hwr He [Ho Hp]. split; [|done]. cbn [file_write f_offset]. lia. Qed.

Lemma pipe_read_step want p r p' : pipe_read want p = (r, p') → kind_step (KPipe p) (KPipe p').
Proof.
  unfold pipe_read. intros Hr Hw. pose proof (Pipe_read_spec want p Hw) as Hs.
  case_if; [destruct (Pipe_read want p) as [out p1]; injection Hr as <- <-; by destruct Hs as (? & _ & _ & ? & ? & _)|].
  case_if; injection Hr as <- <-; done.
Qed.

Lemma waiters_step p p' rs ws : kind_step (KPipe p) (KPipe p') → kind_step (KPipe p) (KPipe (with_waiters p' rs ws)).
Proof. intros Hk Hw. destruct (Hk Hw) as ([] & Hr & Hs). done. Qed.

Lemma kind_step_refl k : kind_step k k.
Proof. destruct k; simpl; auto. Qed.

(** The object behind a descriptor; the goals that remain are the branches. *)
Ltac fd_cases Hk :=
  unfold vfs_read, vfs_write, vfs_read_round, vfs_register_poll_waiter, vfs_unregister_poll_waiter;
  match goal with |- context [current_entry ?t ?f ?s] => destruct (current_entry t f s) as [entry|] eqn:?; [|solve [intros; simplify_eq; auto]] end;
  match goal with |- context [get_object ?o ?s] => destruct (get_object o s) as [ob|] eqn:?; [|solve [intros; simplify_eq; auto]] end;
  match goal with |- context [so_kind ?x] => destruct (so_kind x) eqn:Hk end.

Lemma read_ok task fd want st r st' :
  inv [] None st → 0 ≤ want → vfs_read task fd want st = (r, st') → inv [] None st'.
Proof.
  intros Hinv Hw. fd_cases Hk; destruct (access entry); try by intros [= <- <-].
  - intros [= <- <-]. eapply set_object_ok; [done..|]. rewrite Hk. by apply (file_read_step want).
  - destruct (pipe_read want pipe) as [pr p'] eqn:Hp. apply pipe_read_step in Hp.
    destruct pr; intros [= <- <-]; (eapply set_object_ok; [done..|]; by rewrite Hk).
Qed.

Lemma read_round_ok task fd want st r w st' :
  inv [] None st → 0 ≤ want → vfs_read_round task fd want st = (r, w, st') → inv [] None st'.
Proof.
  intros Hinv Hw. fd_cases Hk; destruct (access entry); try by intros [= <- <- <-].
  - intros [= <- <- <-]. eapply set_object_ok; [done..|]. rewrite Hk. by apply (file_read_step want).
  - destruct (pipe_read want pipe) as [pr p'] eqn:Hp. apply pipe_read_step in Hp.
    destruct pr; [case_if|..]; intros [= <- <- <-]; (eapply set_object_ok; [done..|]; rewrite Hk);
      [by apply waiters_step|done|by apply waiters_step|done].
Qed.

Lemma write_ok reserve task fd buf st r w st' :
  inv [] None st → vfs_write reserve task fd buf st = (r, w, st') → inv [] None st'.
Proof.
  intros Hinv. fd_cases Hk; destruct (access entry); try by intros [= <- <- <-].
  - destruct (f_writable file) eqn:Hwr; simpl; [|by intros [= <- <- <-]].
    destruct (checked_add _ _ _) as [e|] eqn:He; [|by intros [= <- <- <-]]. case_if; [by intros [= <- <- <-]|].
    intros [= <- <- <-]. eapply set_object_ok; [done..|]. rewrite Hk. apply file_write_step; [done|].
    unfold checked_add in He. pose proof (len_nonneg buf). case_if; [|done]. injection He as <-. lia.
  - case_if; [by intros [= <- <- <-]|]. destruct (Pipe_write buf pipe) as [n p'] eqn:Hp.
    assert (kind_step (KPipe pipe) (KPipe p')) as Hs.
    { intros Hw. pose proof (Pipe_write_spec buf pipe Hw) as Hsp. rewrite Hp in Hsp. by destruct Hsp as (? & _ & _ & ? & ? & _). }
    case_if; intros [= <- <- <-]; (eapply set_object_ok; [done..|]; rewrite Hk); [by apply waiters_step|done].
Qed.

Lemma register_ok owner fd task events st r st' :
  inv [] None st → vfs_register_poll_waiter owner fd task events st = (r, st') → inv [] None st'.
Proof.
  intros Hinv. fd_cases Hk; destruct (access entry); try by intros [= <- <-].
  all: case_if; intros [= <- <-]; [|done]; (eapply set_object_ok; [done..|]; rewrite Hk); apply waiters_step, kind_step_refl.
Qed.

Lemma unregister_ok owner fd task st st' :
  inv [] None st → vfs_unregister_poll_waiter owner fd task st = st' → inv [] None st'.
Proof.
  intros Hinv. fd_cases Hk; [by intros <-|]. intros <-. eapply set_object_ok; [done..|].
  rewrite Hk. apply waiters_step, kind_step_refl.
Qed.

Lemma close_fds_ok task fds st w c st' :
  inv [] None st → close_fds task fds st = (w, c, st') →
  inv [] None st' ∧ length (task_fds st') = length (task_fds st).
Proof.
  revert st w c. induction fds as [|fd fds IH]; intros st w c Hinv; simpl; [by intros [= <- <- <-]|].
  destruct (take_entry task fd st) as [o st1] eqn:Htk.
  assert (length (task_fds st1) = length (task_fds st)) as Hl.
  { unfold take_entry in Htk. repeat case_match; simplify_eq; try done. apply length_insert. }
  apply (take_ok _ _ _ _ _ _ _ Hinv) in Htk as (_ & _ & Hm). destruct o as [e|]; [|subst st1; by apply IH].
  destruct (release_fd e st1) as [ev st2] eqn:Er. destruct (release_ok _ _ _ _ _ Hm Er) as [Hinv2 Ht2].
  destruct (close_fds task fds st2) as [[w2 c2] st3] eqn:Ec. intros [= <- <- <-].
  destruct (IH _ _ _ Hinv2 Ec) as [? E]. by rewrite E, Ht2, Hl.
Qed.

Lemma rollback_ok task fds st : inv [] None st → inv [] None (rollback task fds st).
Proof.
  revert st. induction fds as [|fd fds IH]; intros st Hinv; simpl; [done|].
  destruct (take_entry task fd st) as [o st1] eqn:Htk.
  apply (take_ok _ _ _ _ _ _ _ Hinv) in Htk as (_ & _ & Hm). destruct o as [e|]; [|subst st1; by apply IH].
  destruct (release_fd e st1) as [ev st2] eqn:Er. apply IH, (release_ok _ _ _ _ _ Hm Er).
Qed.

(** An entry that can be retained. *)
Definition live (st : VfsState) (e : LocalFd) : Prop :=
  ∃ ob, get_object (object e) st = Some ob ∧ access_ok e (so_kind ob).

Lemma retain_live e e' st st' : retain_fd e st = (true, st') → live st e' → live st' e'.
Proof.
  unfold retain_fd. destruct (get_object (object e) st) as [ob|] eqn:Ho; [|done]. intros [= <-] (ob' & Ho' & Ha).
  unfold live. rewrite (get_object_insert _ _ st ob _ Ho). case_decide as Hd; [|by exists ob'].
  rewrite Hd, Ho in Ho'. injection Ho' as <-. eexists. split; [done|]. unfold access_ok in *. cbn [so_kind].
  by destruct (so_kind ob), (access e), (access e').
Qed.

(** Inheriting one descriptor into a free slot: it is retained, and either
    installed or released again. *)
Lemma inherit_one_cases child fd e st b st' :
  inv [] None st → live st e → current_entry child fd st = None → (child < length (task_fds st))%nat →
  inherit_one child fd e st = (b, st') →
  ∃ st1, retain_fd e st = (true, st1) ∧ inv [e] None st1 ∧ task_fds st1 = task_fds st ∧
    if b then table_of child st !! fd = Some None ∧ st' = set_table child (<[fd:=Some e]> (table_of child st)) st1
    else ∃ ev, release_fd e st1 = (ev, st').
Proof.
  intros Hinv (ob & Ho & Ha) Hfree Hl. unfold inherit_one.
  destruct (retain_ok e _ _ _ _ Hinv Ho Ha) as (st1 & Er & Hinv1 & Ht1). rewrite Er, settle_None in *.
  apply table_of_lookup in Hl as Ht. rewrite Ht1. rewrite (current_entry_fds _ _ _ _ Ht1), Hfree.
  fold (table_of child st). intros Hb. exists st1. split_and!; [done..|]. unfold install_fd in Hb.
  destruct (_ || _) eqn:Hg; injection Hb as <- <-.
  - destruct (release_fd e st1) as [ev st2]. by exists ev.
  - split; [|done]. apply orb_false_iff in Hg as [Hlt Hused]. apply Nat.leb_gt in Hlt.
    assert (is_Some (table_of child st !! fd)) as [x Hx] by (apply lookup_lt_is_Some; by rewrite (table_length _ _ _ _ _ Hinv Ht)).
    rewrite Hx in Hused |- *. by destruct x.
Qed.

Lemma put_other child fd e st st1 fd' :
  (child < length (task_fds st))%nat → task_fds st1 = task_fds st → fd' ≠ fd →
  current_entry child fd' (set_table child (<[fd:=Some e]> (table_of child st)) st1) = current_entry child fd' st.
Proof.
  intros Hl Ht1 Hne. unfold current_entry. cbn [set_table with_tables task_fds].
  rewrite Ht1, (table_of_lookup _ _ Hl), list_lookup_insert_eq by done.
  change TaskFdTable with (list (option LocalFd)). by rewrite list_lookup_insert_ne.
Qed.

(** On success the other slots are as they were, on failure nothing is left behind. *)
Lemma inherit_one_ok child fd e st b st' :
  inv [] None st → live st e → current_entry child fd st = None → (child < length (task_fds st))%nat →
  inherit_one child fd e st = (b, st') →
  inv [] None st' ∧
  (b = true → length (task_fds st') = length (task_fds st) ∧ (∀ e', live st e' → live st' e') ∧
              ∀ fd', fd' ≠ fd → current_entry child fd' st' = current_entry child fd' st).
Proof.
  intros Hinv Hlive Hfree Hl Hb. destruct (inherit_one_cases _ _ _ _ _ _ Hinv Hlive Hfree Hl Hb) as (st1 & Er & Hinv1 & Ht1 & Hr).
  apply table_of_lookup in Hl as Ht. destruct b; [destruct Hr as [Hs ->]|destruct Hr as [ev Erl]].
  - split; [eapply put_ok; [done|by rewrite Ht1|done]|]. intros _. split_and!.
    + cbn [set_table with_tables task_fds]. by rewrite Ht1, length_insert.
    + intros e' He'. destruct (retain_live _ _ _ _ Er He') as (ob' & Hob'). exists ob'. exact Hob'.
    + intros fd' Hne. by apply put_other.
  - split; [|done]. apply (release_ok _ _ _ _ _ Hinv1 Erl).
Qed.

Lemma inherit_all_loop_ok child entries installed st b st' :
  inv [] None st → Forall (live st) entries.*2 → NoDup entries.*1 →
  (∀ fd, fd ∈ entries.*1 → current_entry child fd st = None) → (child < length (task_fds st))%nat →
  inherit_all_loop child entries installed st = (b, st') → inv [] None st'.
Proof.
  revert installed st. induction entries as [|[fd e] entries IH]; intros installed st Hinv Hlive Hnd Hfree Hl; simpl.
  { by intros [= <- <-]. }
  apply Forall_cons in Hlive as [He Hlive]. apply NoDup_cons in Hnd as [Hnin Hnd].
  destruct (inherit_one child fd e st) as [b1 st1] eqn:E1.
  destruct (inherit_one_ok _ _ _ _ _ _ Hinv He (Hfree fd ltac:(by left)) Hl E1) as [Hinv1 Hok].
  destruct b1; [|intros [= <- <-]; by apply rollback_ok]. destruct (Hok eq_refl) as (Hl1 & Hlv & Hoth).
  apply IH; [done| |done| |by rewrite Hl1].
  - eapply Forall_impl; [done|]. exact Hlv.
  - intros fd' Hin. rewrite Hoth; [apply Hfree; by right|]. by intros ->.
Qed.

Lemma inherit_loop_ok parent child mappings installed st b st' :
  inv [] None st → NoDup mappings.*2 →
  (∀ fd, fd ∈ mappings.*2 → current_entry child fd st = None) → (child < length (task_fds st))%nat →
  inherit_loop parent child mappings installed st = (b, st') → inv [] None st'.
Proof.
  revert installed st. induction mappings as [|[pfd fd] mappings IH]; intros installed st Hinv Hnd Hfree Hl; simpl.
  { by intros [= <- <-]. }
  apply NoDup_cons in Hnd as [Hnin Hnd]. destruct (current_entry parent pfd st) as [e|] eqn:He.
  2: { intros [= <- <-]. by apply rollback_ok. }
  destruct (inherit_one child fd e st) as [b1 st1] eqn:E1.
  destruct (inherit_one_ok _ _ _ _ _ _ Hinv (entry_ok _ _ _ _ _ _ Hinv He) (Hfree fd ltac:(by left)) Hl E1) as [Hinv1 Hok].
  destruct b1; [|intros [= <- <-]; by apply rollback_ok]. destruct (Hok eq_refl) as (Hl1 & Hlv & Hoth).
  apply IH; [done|done| |by rewrite Hl1].
  intros fd' Hin. rewrite Hoth; [apply Hfree; by right|]. by intros ->.
Qed.

Lemma used_entries_elem t fd e : (fd, e) ∈ used_entries t → t !! fd = Some (Some e).
Proof.
  unfold used_entries. intros ([fd' s] & Hin & Hs)%list_elem_of_omap. destruct s as [e'|]; [|done].
  injection Hs as -> ->. apply list_elem_of_lookup in Hin as [i Hi]. apply lookup_zip_with_Some in Hi as (x & y & Hxy & Hx & Hy).
  injection Hxy as -> ->. apply lookup_seq in Hx as [-> _]. done.
Qed.

Lemma used_entries_NoDup t : NoDup (used_entries t).*1.
Proof.
  unfold used_entries. generalize 0%nat as k. induction t as [|s t IH]; intros k; simpl; [constructor|].
  destruct s as [e|]; [|apply IH]. simpl. apply NoDup_cons. split; [|apply IH].
  intros ([fd e'] & -> & ([fd' s'] & Hin & Hs)%list_elem_of_omap)%list_elem_of_fmap. destruct s'; [|done].
  injection Hs as -> ->. simpl in Hin. apply elem_of_zip_l in Hin. apply elem_of_seq in Hin. lia.
Qed.

Lemma inherit_fds_ok parent child mappings st b st' :
  inv [] None st → NoDup mappings.*2 → (∀ fd, fd ∈ mappings.*2 → current_entry child fd st = None) →
  inherit_fds parent child mappings st = (b, st') → inv [] None st'.
Proof.
  intros Hinv Hnd Hfree. unfold inherit_fds. destruct (ensure_ok _ _ _ parent Hinv) as [Hinv1 _].
  destruct (ensure_ok _ _ _ child Hinv1) as [Hinv2 Hl]. apply inherit_loop_ok; [done|done| |done].
  intros fd Hin. rewrite !ensure_entry. by apply Hfree.
Qed.

Lemma no_open_entry task fd st : task_open_fd_count task st = O → current_entry task fd st = None.
Proof.
  unfold task_open_fd_count, current_entry, open_count. destruct (task_fds st !! task) as [t|]; [|done].
  intros H0%nil_length_inv. destruct (t !! fd) as [[e|]|] eqn:Hs; [|done..]. exfalso.
  assert (In (Some e) (List.filter is_used t)) as Hin; [|by rewrite H0 in Hin].
  apply filter_In. split; [|done]. apply list_elem_of_In. by eapply list_elem_of_lookup_2.
Qed.

Lemma used_entries_live st parent :
  inv [] None st → Forall (live st) (used_entries (default TaskFdTable_new (task_fds st !! parent))).*2.
Proof.
  intros Hinv. apply Forall_forall. intros e ([fd e'] & -> & Hin%used_entries_elem)%list_elem_of_fmap. simpl.
  apply (entry_ok _ _ _ parent fd e' Hinv). unfold current_entry.
  destruct (task_fds st !! parent) as [t|] eqn:Ht; simpl in Hin; [by rewrite Hin|].
  unfold TaskFdTable_new in Hin. by apply lookup_replicate in Hin as [? _].
Qed.

Lemma inherit_all_ok parent child st b st' :
  inv [] None st → task_open_fd_count child st = O → inherit_all_fds parent child st = (b, st') → inv [] None st'.
Proof.
  intros Hinv Hfree. unfold inherit_all_fds. destruct (ensure_ok _ _ _ parent Hinv) as [Hinv1 Hlp].
  destruct (ensure_ok _ _ _ child Hinv1) as [Hinv2 Hl]. apply inherit_all_loop_ok; [done| |apply used_entries_NoDup| |done].
  - by apply used_entries_live.
  - intros fd _. rewrite !ensure_entry. by apply no_open_entry.
Qed.

Lemma drop_task_ok task st w c s st' : inv [] None st → drop_task task st = (w, c, s, st') → inv [] None st'.
Proof.
  intros Hinv. unfold drop_task. destruct (_ <=? task)%nat; [by intros [= <- <- <- <-]|].
  destruct (close_fds _ _ _) as [[w1 c1] st1] eqn:Ec. intros [= <- <- <- <-].
  destruct (close_fds_ok _ _ _ _ _ _ Hinv Ec) as [Hinv1 _]. eapply inv_ext; [exact Hinv1|done|apply Hinv1|done].
Qed.

Lemma init_task_ok task st : inv [] None st → task_open_fd_count task st = O → inv [] None (init_task task st).
Proof.
  intros Hinv H0. destruct (ensure_ok _ _ _ task Hinv) as [Hinv1 Hl]. apply table_of_lookup in Hl as Ht.
  eapply inv_ext; [exact Hinv1|done| |].
  - cbn [init_task task_fds]. apply Forall_insert; [apply Hinv1|done].
  - intros P. unfold count. cbn [init_task task_fds]. rewrite (lsum_insert _ _ _ _ _ Ht), table_count_new.
    assert (table_count P (table_of task (ensure_task task st)) = 0) as ->; [|lia]. apply lsum_zero.
    intros s [fd Hfd]%list_elem_of_lookup. pose proof (no_open_entry task fd st H0) as Hn.
    rewrite <- (ensure_entry st task) in Hn. unfold current_entry in Hn. rewrite Ht in Hn.
    change TaskFdTable with (list (option LocalFd)) in Hn. rewrite Hfd in Hn. simpl in Hn. by subst s.
Qed.

(** ** The transition system *)
Inductive fd_op :=
  | OpInitTask (task : nat)
  | OpDropTask (task : nat)
  | OpDropShmem (task : nat)
  | OpInherit (parent child : nat) (mappings : list (nat * nat))
  | OpInheritAll (parent child : nat)
  | OpOpenRead (task : nat) (admitted : bool) (data : bytes)
  | OpOpenWrite (task : nat) (path : bytes)
  | OpPipe (task : nat) (admitted : bool)
  | OpClose (task fd : nat)
  | OpDup (task fd : nat)
  | OpRead (task fd : nat) (want : Z)
  | OpReadBlocking (task fd : nat) (want : Z)
  | OpWrite (reserve : Z → bool) (task fd : nat) (buf : bytes)
  | OpRegister (owner fd task : nat) (events : Z)
  | OpUnregister (owner fd task : nat).

(** The tasks woken, the files committed and the state after an operation. *)
Definition exec (op : fd_op) (st : VfsState) : list nat * list (bytes * bytes) * VfsState :=
  match op with
  | OpInitTask task => ([], [], init_task task st)
  | OpDropTask task => let '(wake, commits, _, st) := drop_task task st in (wake, commits, st)
  | OpDropShmem task => ([], [], snd (drop_task_shmem_refs task st))
  | OpInherit parent child mappings => ([], [], snd (inherit_fds parent child mappings st))
  | OpInheritAll parent child => ([], [], snd (inherit_all_fds parent child st))
  | OpOpenRead task admitted data => ([], [], snd (open_read task admitted data st))
  | OpOpenWrite task path => ([], [], snd (open_write task path st))
  | OpPipe task admitted => ([], [], snd (vfs_pipe task admitted st))
  | OpClose task fd =>
      let (ev, st) := vfs_close task fd st in
      (ev_wake ev, match ev_commit ev with Some c => [c] | None => [] end, st)
  | OpDup task fd => ([], [], snd (vfs_dup task fd st))
  | OpRead task fd want => ([], [], snd (vfs_read task fd want st))
  | OpReadBlocking task fd want => let '(_, wake, st) := vfs_read_round task fd want st in (wake, [], st)
  | OpWrite reserve task fd buf => let '(_, wake, st) := vfs_write reserve task fd buf st in (wake, [], st)
  | OpRegister owner fd task events => ([], [], snd (vfs_register_poll_waiter owner fd task events st))
  | OpUnregister owner fd task => ([], [], vfs_unregister_poll_waiter owner fd task st)
  end.

(** The conditions of the runs: a task id is set up only when its previous
    owner was dropped, descriptors are inherited into free slots, one each, and
    buffer sizes are not negative.  The scheduler guarantees all but that the
    mappings of a spawn name each child descriptor once: [parse_user_fd_mappings]
    takes them from the program unchecked, and [inherit_fds_duplicate_leaks] shows
    what a repeated one does. *)
Definition enabled (op : fd_op) (st : VfsState) : Prop :=
  match op with
  | OpInitTask task => task_open_fd_count task st = O
  | OpInherit _ child mappings =>
      NoDup mappings.*2 ∧ Forall (λ fd, current_entry child fd st = None) mappings.*2
  | OpInheritAll _ child => task_open_fd_count child st = O
  | OpRead _ _ want | OpReadBlocking _ _ want => 0 ≤ want
  | _ => True
  end.

Inductive steps : VfsState → list fd_op → list nat → list (bytes * bytes) → VfsState → Prop :=
  | steps_nil st : steps st [] [] [] st
  | steps_cons op ops st st1 st2 w1 w2 c1 c2 :
      enabled op st → exec op st = (w1, c1, st1) → steps st1 ops w2 c2 st2 →
      steps st (op :: ops) (w1 ++ w2) (c1 ++ c2) st2.

Definition reachable (st : VfsState) : Prop := ∃ ops w c, steps VfsState_new ops w c st.

Lemma exec_ok op st w c st' : inv [] None st → enabled op st → exec op st = (w, c, st') → inv [] None st'.
Proof.
  intros Hinv He. destruct op; simpl in He |- *.
  - intros [= <- <- <-]. by apply init_task_ok.
  - destruct (drop_task task st) as [[[w' c'] s'] st''] eqn:E. intros [= <- <- <-]. by eapply drop_task_ok.
  - intros [= <- <- <-]. eapply inv_ext; [exact Hinv|done|apply Hinv|done].
  - intros [= <- <- <-]. destruct (inherit_fds _ _ _ _) eqn:E. destruct He as [Hnd Hf].
    eapply inherit_fds_ok; [exact Hinv|exact Hnd| |exact E]. intros fd Hin. by eapply Forall_forall in Hf.
  - intros [= <- <- <-]. destruct (inherit_all_fds _ _ _) eqn:E. by eapply inherit_all_ok.
  - intros [= <- <- <-]. destruct (open_read _ _ _ _) eqn:E. unfold open_read in E. case_if; [by simplify_eq|]. refine (open_object_ok _ _ _ _ _ Hinv _ E). by split.
  - intros [= <- <- <-]. destruct (open_write _ _ _) eqn:E. refine (open_object_ok _ _ _ _ _ Hinv _ E). split; [done|by eexists].
  - intros [= <- <- <-]. destruct (vfs_pipe _ _ _) eqn:E. by eapply pipe_ok.
  - destruct (vfs_close _ _ _) as [ev st1] eqn:E. intros [= <- <- <-]. by eapply close_ok.
  - intros [= <- <- <-]. destruct (vfs_dup _ _ _) eqn:E. by eapply dup_ok.
  - intros [= <- <- <-]. destruct (vfs_read _ _ _ _) eqn:E. by eapply read_ok.
  - destruct (vfs_read_round _ _ _ _) as [[r w'] st1] eqn:E. intros [= <- <- <-]. by eapply read_round_ok.
  - destruct (vfs_write _ _ _ _ _) as [[r w'] st1] eqn:E. intros [= <- <- <-]. by eapply write_ok.
  - intros [= <- <- <-]. destruct (vfs_register_poll_waiter _ _ _ _ _) eqn:E. by eapply register_ok.
  - intros [= <- <- <-]. by eapply unregister_ok.
Qed.

Lemma steps_inv st ops w c st' : steps st ops w c st' → inv [] None st → inv [] None st'.
Proof. induction 1 as [|op ops st st1 st2 w1 w2 c1 c2 He Hx _ IH]; [done|]. intros Hinv. apply IH. by eapply exec_ok. Qed.

Lemma reachable_inv st : reachable st → inv [] None st.
Proof. intros (ops & w & c & Hs). eapply steps_inv; [done|]. apply inv_new. Qed.

(** No descriptor of any task satisfies [P]. *)
Definition nobody (st : VfsState) (P : LocalFd → bool) : Prop :=
  ∀ task fd e, current_entry task fd st = Some e → P e = false.

Lemma lsum_zero_inv {A} (h : A → Z) l i x : (∀ x, 0 ≤ h x) → lsum h l = 0 → l !! i = Some x → h x = 0.
Proof. intros Hh H0 Hi. pose proof (lsum_ge h l i x Hh Hi). specialize (Hh x). lia. Qed.

Lemma count_nobody st P : count [] st P = 0 ↔ nobody st P.
Proof.
  split.
  - intros H0 task fd e He. pose proof (count_entry [] st task fd e P He) as Hc. rewrite H0 in Hc.
    unfold ind in Hc. by destruct (P e).
  - intros Hn. unfold count. simpl. rewrite lsum_zero; [done|]. intros t [task Ht]%list_elem_of_lookup.
    apply lsum_zero. intros s [fd Hs]%list_elem_of_lookup. destruct s as [e|]; [|done]. simpl. unfold ind.
    rewrite (Hn task fd e); [done|]. unfold current_entry. rewrite Ht.
    change TaskFdTable with (list (option LocalFd)). by rewrite Hs.
Qed.

(** ** Executable runs *)
#[export] Instance enabled_dec op st : Decision (enabled op st).
Proof. destruct op; simpl; apply _. Defined.

Fixpoint run (ops : list fd_op) (st : VfsState) : option (list nat * list (bytes * bytes) * VfsState) :=
  match ops with
  | [] => Some ([], [], st)
  | op :: ops =>
      if decide (enabled op st) then
        let '(w1, c1, st) := exec op st in
        '(w2, c2, st) ← run ops st; Some (w1 ++ w2, c1 ++ c2, st)
      else None
  end.

Lemma run_steps ops st w c st' : run ops st = Some (w, c, st') → steps st ops w c st'.
Proof.
  revert st w c. induction ops as [|op ops IH]; intros st w c; simpl; [intros [= <- <- <-]; constructor|].
  case_decide as He; [|done]. destruct (exec op st) as [[w1 c1] st1] eqn:Hx.
  destruct (run ops st1) as [[[w2 c2] st2]|] eqn:Hr; simpl; [|done]. intros [= <- <- <-].
  econstructor; [done|done|by apply IH].
Qed.

Lemma run_reachable ops w c st : run ops VfsState_new = Some (w, c, st) → reachable st.
Proof. intros Hr%run_steps. by exists ops, w, c. Qed.

(** ** Theorems *)

(** C39: the reference counts are exact.  In every state that any sequence of
    operations of any tasks reaches, under the conditions of [enabled], an object exists exactly when some
    descriptor of some task refers to it, its count is the number of these
    descriptors, a pipe's reader and writer counts are the numbers of its read
    and write descriptors, and every descriptor has an access right that fits
    its object.  The conditions: a task id is set up, and inherits all descriptors
    of a parent, while it has none open; a spawn gives each child descriptor at most
    once and only a free one (the kernel does not check that a program names each
    once, and a repeated one breaks the counts); a read asks for no negative number
    of bytes. *)
Theorem fd_counts_exact st :
  reachable st →
  (∀ o, get_object o st = None ↔ nobody st (refers o)) ∧
  (∀ o ob, get_object o st = Some ob → refs ob = count [] st (refers o)) ∧
  (∀ o ob p, get_object o st = Some ob → so_kind ob = KPipe p →
    readers p = count [] st (reads o) ∧ writers p = count [] st (writes o)) ∧
  (∀ task fd e, current_entry task fd st = Some e →
    ∃ ob, get_object (object e) st = Some ob ∧ access_ok e (so_kind ob)).
Proof.
  intros Hinv%reachable_inv. split_and!.
  - intros o. rewrite <- count_nobody. split; [apply (inv_dead _ _ _ Hinv)|]. intros H0.
    destruct (get_object o st) as [ob|] eqn:Ho; [|done].
    destruct (inv_live _ _ _ Hinv _ _ Ho) as (Hr & [Hp|?] & _); [lia|done].
  - intros o ob Ho. apply (inv_live _ _ _ Hinv _ _ Ho).
  - intros o ob p Ho Hk. destruct (inv_live _ _ _ Hinv _ _ Ho) as (_ & _ & Hok). unfold kind_ok in Hok.
    rewrite Hk in Hok. by destruct Hok as (_ & ? & ? & _).
  - intros task fd e He. by eapply entry_ok.
Qed.
