(* ===== verification/FdWake.v ===== *)
(** * What the descriptors promise over time

    Theorems about the runs of the transition system of FdInv.v: end of file
    and broken pipes are reported exactly when the other end is closed
    everywhere, buffered writes are committed when, and only when, the last
    descriptor of a file goes, and no wake-up of a blocked reader is lost.

    Most operations leave the object in question alone; [stable] collects what
    a property of the object needs for that, and the lemmas of the sections
    [quiet] and [inherit] hold for every stable property. *)
From S2P Require Import Prelude Pipe FdTable FdInv.

Local Open Scope Z_scope.

Lemma count_fds pend st st' P : task_fds st' = task_fds st → count pend st' P = count pend st P.
Proof. unfold count. by intros ->. Qed.

Lemma count_ensure pend task st P : count pend (ensure_task task st) P = count pend st P.
Proof.
  unfold count. cbn [ensure_task task_fds]. rewrite lsum_app.
  rewrite (lsum_zero _ (replicate _ _)); [lia|]. intros t [-> _]%elem_of_replicate. apply table_count_new.
Qed.

Lemma count_clear pend task fd e st P :
  current_entry task fd st = Some e → count pend (clear_fd task fd st) P = count pend st P - ind P e.
Proof.
  unfold current_entry, clear_fd, table_of. destruct (task_fds st !! task) as [t'|] eqn:Ht; [|done].
  destruct (t' !! fd) as [s|] eqn:Hs; [|done]. simpl. intros ->.
  rewrite (count_set_table _ _ _ _ _ _ _ _ Ht Hs). simpl. lia.
Qed.

Lemma count_put pend task fd e st st' P :
  (task < length (task_fds st))%nat → table_of task st !! fd = Some None →
  task_fds st' = <[task:=<[fd:=Some e]> (table_of task st)]> (task_fds st) →
  count pend st' P = count pend st P + ind P e.
Proof.
  intros Hl%table_of_lookup Hs Ht'. rewrite (count_fds _ (set_table task (<[fd:=Some e]> (table_of task st)) st)) by done.
  rewrite (count_set_table _ _ _ _ _ _ _ _ Hl Hs). simpl. lia.
Qed.

Lemma give_slot task e st fd st' :
  give_fd task e st = (Some fd, st') → table_of task st !! fd = Some None.
Proof.
  unfold give_fd. destruct (alloc_fd _ _) as [[fd' t']|] eqn:Hal; [|done]. intros [= <- _].
  by apply alloc_fd_ok in Hal as (? & _).
Qed.

(** ** Properties that outlive other operations *)

(** [B] is about the objects only, survives new references and objects, and
    survives a release while every predicate of [Ps] still has a descriptor. *)
Record stable (B : VfsState → Prop) (Ps : list (LocalFd → bool)) : Prop := {
  sb_objects st st' : objects st' = objects st → B st → B st';
  sb_retain e st b st' : retain_fd e st = (b, st') → B st → B st';
  sb_alloc k st id st' : alloc_object k st = (id, st') → B st → B st';
  sb_release e pend st ev st' : inv (e :: pend) None st → release_fd e st = (ev, st') → B st →
    Forall (λ P, 0 < count pend st P) Ps → B st' }.

Section quiet.
Context (B : VfsState → Prop) (Ps : list (LocalFd → bool)) (HB : stable B Ps).

Lemma give_stable task e st r st' :
  inv [e] None st → give_fd task e st = (r, st') → B st → Forall (λ P, 0 < count [] st P) Ps → B st'.
Proof.
  intros Hinv. unfold give_fd. destruct (alloc_fd e _) as [[fd t']|] eqn:Ha; intros [= <- <-] Hb Hc; [by refine (sb_objects _ _ HB _ _ _ Hb)|].
  destruct (release_fd e st) as [ev st'] eqn:Er. by eapply (sb_release _ _ HB).
Qed.

Lemma pipe_undo_stable task fd e e' st :
  inv [e'] None st → current_entry task fd st = Some e → B st → Forall (λ P, 0 < count [] (clear_fd task fd st) P) Ps →
  B (snd (release_fd e' (snd (release_fd e (clear_fd task fd st))))).
Proof.
  intros Hinv He Hb Hc. pose proof (clear_is_take _ _ _ _ He) as Htk.
  apply (take_ok _ _ _ _ _ _ _ Hinv) in Htk as (_ & Eo & Hinv2). simpl in Hinv2.
  destruct (release_fd e _) as [ev1 st1] eqn:E1. destruct (release_ok _ _ _ _ _ Hinv2 E1) as [Hinv3 Ht]. simpl.
  destruct (release_fd e' st1) as [ev2 st2] eqn:E2. simpl.
  eapply (sb_release _ _ HB); [exact Hinv3|exact E2| |].
  - eapply (sb_release _ _ HB); [exact Hinv2|exact E1|by refine (sb_objects _ _ HB _ _ _ Hb)|]. eapply Forall_impl; [exact Hc|].
    cbv beta. intros P HP. rewrite count_cons. pose proof (ind_nonneg P e'). lia.
  - eapply Forall_impl; [exact Hc|]. intros P HP. by rewrite (count_fds _ _ _ _ Ht).
Qed.

Context (st : VfsState) (Hinv : inv [] None st) (Hb : B st) (Hc : Forall (λ P, 0 < count [] st P) Ps).

Let ensured task : B (ensure_task task st).
Proof. by refine (sb_objects _ _ HB _ _ _ Hb). Qed.

Let counts_kept st' : (∀ P, count [] st' P = count [] st P) → Forall (λ P, 0 < count [] st' P) Ps.
Proof. intros E. eapply Forall_impl; [exact Hc|]. intros P HP. by rewrite E. Qed.

Lemma open_object_stable task file r st' : file_ok file → open_object task file st = (r, st') → B st'.
Proof.
  intros Hf. unfold open_object. destruct (ensure_ok _ _ st task Hinv) as [Hinv1 Hl]. pose proof (ensured task) as Hb1.
  case_if; [by intros [= <- <-]|]. destruct (alloc_object _ _) as [id st2] eqn:Ha.
  destruct (alloc_object_ok (KFile file) _ _ _ _ Hinv1 Hf Ha) as (Hinv2 & Hg & Ht2).
  destruct (retain_ok {| object := id; access := FdFile |} _ _ _ _ Hinv2 Hg I) as (st3 & Er & Hinv3 & Ht3).
  rewrite Er. rewrite settle_eq in Hinv3. intros Hgive.
  eapply give_stable; [done|done|by eapply (sb_retain _ _ HB), (sb_alloc _ _ HB)|]. apply counts_kept. intros P.
  by rewrite (count_fds _ st2), (count_fds _ (ensure_task task st)), count_ensure.
Qed.

Lemma dup_stable task fd r st' : vfs_dup task fd st = (r, st') → B st'.
Proof.
  unfold vfs_dup. destruct (ensure_ok _ _ st task Hinv) as [Hinv1 Hl]. pose proof (ensured task) as Hb1.
  case_if; [by intros [= <- <-]|]. destruct (current_entry _ _ _) as [e|] eqn:He; [|by intros [= <- <-]].
  destruct (entry_ok _ _ _ _ _ _ Hinv1 He) as (ob & Ho & Ha).
  destruct (retain_ok e _ _ _ _ Hinv1 Ho Ha) as (st3 & Er & Hinv3 & Ht3). rewrite Er. rewrite settle_None in Hinv3.
  intros Hgive. eapply give_stable; [done|done|by eapply (sb_retain _ _ HB)|]. apply counts_kept. intros P.
  by rewrite (count_fds _ (ensure_task task st)), count_ensure.
Qed.

Lemma pipe_stable task admitted r st' : vfs_pipe task admitted st = (r, st') → B st'.
Proof.
  unfold vfs_pipe. destruct (ensure_ok _ _ st task Hinv) as [Hinv1 Hl]. pose proof (ensured task) as Hb1.
  case_if; [by intros [= <- <-]|]. case_if; [by intros [= <- <-]|].
  destruct (alloc_object _ _) as [id st2] eqn:Ha.
  assert (new_kind_ok (KPipe Pipe_new)) as Hnew by (split_and!; [apply Pipe_new_wf|done|done]).
  destruct (alloc_object_ok _ _ _ _ _ Hinv1 Hnew Ha) as (Hinv2 & Hg & Ht2).
  destruct (retain_ok {| object := id; access := FdPipeRead |} _ _ _ _ Hinv2 Hg I) as (st3 & Er3 & Hinv3 & Ht3).
  rewrite Er3. rewrite settle_eq in Hinv3. assert (task < length (task_fds st3))%nat as Hl3 by (by rewrite Ht3, Ht2).
  assert (∀ P, count [] st3 P = count [] st P) as Hc3
    by (intros P; by rewrite (count_fds _ st2), (count_fds _ (ensure_task task st)), count_ensure).
  assert (B st3) as Hb3 by (by eapply (sb_retain _ _ HB), (sb_alloc _ _ HB)).
  destruct (give_fd _ _ st3) as [o4 st4] eqn:Hgv.
  assert (B st4) as Hb4 by (eapply give_stable; [done..|]; by apply counts_kept).
  destruct (give_ok _ _ _ _ _ _ Hinv3 Hl3 Hgv) as (Hinv4 & Hm4).
  destruct o4 as [fd|]; [|by intros [= <- <-]]. destruct Hm4 as (_ & _ & _ & Ht4).
  pose proof (give_slot _ _ _ _ _ Hgv) as Hs4. pose proof (put_entry _ _ _ _ _ Hl3 Hs4 Ht4) as He4.
  destruct (entry_ok _ _ _ _ _ _ Hinv4 He4) as (ob & Ho & Hacc).
  destruct (retain_ok {| object := id; access := FdPipeWrite |} _ _ _ ob Hinv4 Ho) as (st5 & Er5 & Hinv5 & Ht5).
  { unfold access_ok in *. by destruct (so_kind ob). }
  rewrite Er5. rewrite settle_None in Hinv5. destruct (alloc_fd _ _) as [[wfd t']|] eqn:Hal; intros [= <- <-].
  - by refine (sb_objects _ _ HB _ _ _ (sb_retain _ _ HB _ _ _ _ Er5 Hb4)).
  - assert (current_entry task fd st5 = Some {| object := id; access := FdPipeRead |}) as He5 by (by rewrite (current_entry_fds st4)).
    apply pipe_undo_stable; [done|done|by eapply (sb_retain _ _ HB)|]. apply counts_kept. intros P.
    rewrite (count_clear _ _ _ _ _ _ He5), (count_fds _ _ _ _ Ht5), (count_put [] _ _ _ _ _ P Hl3 Hs4 Ht4), Hc3. lia.
Qed.
End quiet.

(** The descriptors satisfying [P] apart from those installed at [fds] of [child]. *)
Definition spare (child : nat) (fds : list nat) (st : VfsState) (P : LocalFd → bool) : Z :=
  count [] st P - lsum (λ fd, slot_count P (current_entry child fd st)) fds.

Lemma spare_le child fds st P : spare child fds st P ≤ count [] st P.
Proof. unfold spare. pose proof (lsum_nonneg (λ fd, slot_count P (current_entry child fd st)) fds (λ fd, slot_count_nonneg P _)). lia. Qed.

Lemma take_fds child fd st e st1 :
  take_entry child fd st = (Some e, st1) →
  (∀ P, count [] st1 P = count [] st P - ind P e) ∧ ∀ fd', fd' ≠ fd → current_entry child fd' st1 = current_entry child fd' st.
Proof.
  unfold take_entry. destruct (task_fds st !! child) as [tb|] eqn:Ht; [|done].
  destruct (tb !! fd) as [[e'|]|] eqn:Hs; [|done..]. intros [= -> <-]. split.
  - intros P. rewrite (count_set_table _ _ _ _ _ _ _ _ Ht Hs). simpl. lia.
  - intros fd' Hne. unfold current_entry. cbn [set_table with_tables task_fds].
    rewrite Ht, list_lookup_insert_eq by (by eapply lookup_lt_Some).
    change TaskFdTable with (list (option LocalFd)). by rewrite list_lookup_insert_ne.
Qed.

Section inherit.
Context (B : VfsState → Prop) (Ps : list (LocalFd → bool)) (HB : stable B Ps) (child : nat).

(** [B] holds, and there are descriptors other than those being handed over. *)
Definition held (fds : list nat) (st : VfsState) : Prop :=
  B st ∧ Forall (λ P, 0 < spare child fds st P) Ps.

Lemma rollback_stable fds st : inv [] None st → NoDup fds → held fds st → B (rollback child fds st).
Proof.
  revert st. induction fds as [|fd fds IH]; intros st Hinv Hnd (Hb & Hc); simpl; [done|].
  apply NoDup_cons in Hnd as [Hnin Hnd]. destruct (take_entry child fd st) as [oe st1] eqn:Htk.
  pose proof (take_ok _ _ _ _ _ _ _ Hinv Htk) as (He & Eo & Hm). destruct oe as [e|].
  2: { subst st1. apply IH; [done|done|]. split; [done|]. unfold spare in *. simpl in *. by rewrite <- He in Hc. }
  destruct (take_fds _ _ _ _ _ Htk) as [Hcnt Hoth].
  destruct (release_fd e st1) as [ev st2] eqn:Er. destruct (release_ok _ _ _ _ _ Hm Er) as [Hinv2 Ht2]. simpl.
  assert (∀ P, 0 < spare child (fd :: fds) st P → 0 < spare child fds st2 P) as Hs.
  { intros P. unfold spare. simpl. rewrite <- He. simpl. rewrite (count_fds _ _ _ _ Ht2), Hcnt.
    rewrite (lsum_ext (λ fd, slot_count P (current_entry child fd st2)) (λ fd, slot_count P (current_entry child fd st))); [lia|].
    intros fd' Hin. rewrite (current_entry_fds _ _ _ _ Ht2), Hoth; [done|]. by intros ->. }
  apply IH; [done|done|]. split; [|by eapply Forall_impl].
  assert (∀ P, 0 < spare child (fd :: fds) st P → 0 < count [] st1 P) as Hs1.
  { intros P HP%Hs. pose proof (spare_le child fds st2 P). rewrite (count_fds _ _ _ _ Ht2) in *. lia. }
  eapply (sb_release _ _ HB); [exact Hm|exact Er|by refine (sb_objects _ _ HB _ _ _ Hb)|by eapply Forall_impl].
Qed.

Lemma inherit_one_held fd e fds st b st' :
  inv [] None st → live st e → current_entry child fd st = None → (child < length (task_fds st))%nat →
  inherit_one child fd e st = (b, st') → held fds st → fd ∉ fds → held (if b then fds ++ [fd] else fds) st'.
Proof.
  intros Hinv Hlive Hfree Hl Hb (Hbl & Hc) Hnin.
  destruct (inherit_one_cases _ _ _ _ _ _ Hinv Hlive Hfree Hl Hb) as (st1 & Er & Hinv1 & Ht1 & Hm).
  pose proof (sb_retain _ _ HB _ _ _ _ Er Hbl) as Hb1. destruct b; [destruct Hm as [Hs ->]|destruct Hm as [ev Erl]].
  - split; [by refine (sb_objects _ _ HB _ _ _ Hb1)|].
    assert (∀ P, 0 < spare child fds st P →
      0 < spare child (fds ++ [fd]) (set_table child (<[fd:=Some e]> (table_of child st)) st1) P) as Hsp; [|by eapply Forall_impl].
    intros P. unfold spare. rewrite lsum_app. simpl. set (st2 := set_table _ _ st1).
    assert (task_fds st2 = <[child:=<[fd:=Some e]> (table_of child st)]> (task_fds st)) as Ht2
      by (cbn [st2 set_table with_tables task_fds]; by rewrite Ht1).
    rewrite (count_put [] _ _ _ _ _ P Hl Hs Ht2), (put_entry _ _ _ _ _ Hl Hs Ht2). simpl.
    rewrite (lsum_ext (λ fd, slot_count P (current_entry child fd st2)) (λ fd, slot_count P (current_entry child fd st)) fds); [lia|].
    intros fd' Hin. unfold st2. rewrite put_other; [done|done|done|]. by intros ->.
  - destruct (release_ok _ _ _ _ _ Hinv1 Erl) as [_ Ht2].
    assert (∀ P, spare child fds st' P = spare child fds st P) as Hsp.
    { intros P. unfold spare. rewrite (count_fds [] st st') by (by rewrite Ht2). f_equal. apply lsum_ext.
      intros fd' _. by rewrite (current_entry_fds st st') by (by rewrite Ht2). }
    split; [|eapply Forall_impl; [exact Hc|]; intros P HP; by rewrite Hsp].
    eapply (sb_release _ _ HB); [done..|]. eapply Forall_impl; [exact Hc|]. cbv beta. intros P HP.
    rewrite (count_fds _ _ _ _ Ht1). pose proof (spare_le child fds st P). lia.
Qed.

Lemma inherit_all_loop_stable entries installed st b st' :
  inv [] None st → Forall (live st) entries.*2 → NoDup (installed ++ entries.*1) →
  (∀ fd, fd ∈ entries.*1 → current_entry child fd st = None) → (child < length (task_fds st))%nat →
  inherit_all_loop child entries installed st = (b, st') → held installed st → B st'.
Proof.
  revert installed st. induction entries as [|[fd e] entries IH]; intros installed st Hinv Hlive Hnd Hfree Hl; simpl.
  { by intros [= <- <-] [? _]. }
  apply Forall_cons in Hlive as [He Hlive]. simpl in Hnd.
  destruct (inherit_one child fd e st) as [b1 st1] eqn:E1. intros Hloop Hheld.
  assert (fd ∉ installed) as Hnin by (intros Hin; apply NoDup_app in Hnd as (_ & Hd & _); apply (Hd fd Hin); by left).
  pose proof (inherit_one_held _ _ _ _ _ _ Hinv He (Hfree fd ltac:(by left)) Hl E1 Hheld Hnin) as Hh1.
  destruct (inherit_one_ok _ _ _ _ _ _ Hinv He (Hfree fd ltac:(by left)) Hl E1) as [Hinv1 Hok].
  destruct b1; [|injection Hloop as <- <-; apply rollback_stable; [done|by apply NoDup_app in Hnd as (? & _)|done]].
  destruct (Hok eq_refl) as (Hl1 & Hlv & Hoth).
  apply (IH _ _ Hinv1) with (5 := Hloop); [by eapply Forall_impl|by rewrite <- (assoc (++))| |by rewrite Hl1|done].
  intros fd' Hin. rewrite Hoth; [apply Hfree; by right|]. intros ->.
  apply NoDup_app in Hnd as (_ & _ & Hnd). by apply NoDup_cons in Hnd as [? _].
Qed.

Lemma inherit_loop_stable parent mappings installed st b st' :
  inv [] None st → NoDup (installed ++ mappings.*2) →
  (∀ fd, fd ∈ mappings.*2 → current_entry child fd st = None) → (child < length (task_fds st))%nat →
  inherit_loop parent child mappings installed st = (b, st') → held installed st → B st'.
Proof.
  revert installed st. induction mappings as [|[pfd fd] mappings IH]; intros installed st Hinv Hnd Hfree Hl; simpl.
  { by intros [= <- <-] [? _]. }
  simpl in Hnd. destruct (current_entry parent pfd st) as [e|] eqn:He.
  2: { intros [= <- <-] Hheld. apply rollback_stable; [done|by apply NoDup_app in Hnd as (? & _)|done]. }
  apply (entry_ok _ _ _ _ _ _ Hinv) in He. destruct (inherit_one child fd e st) as [b1 st1] eqn:E1. intros Hloop Hheld.
  assert (fd ∉ installed) as Hnin by (intros Hin; apply NoDup_app in Hnd as (_ & Hd & _); apply (Hd fd Hin); by left).
  pose proof (inherit_one_held _ _ _ _ _ _ Hinv He (Hfree fd ltac:(by left)) Hl E1 Hheld Hnin) as Hh1.
  destruct (inherit_one_ok _ _ _ _ _ _ Hinv He (Hfree fd ltac:(by left)) Hl E1) as [Hinv1 Hok].
  destruct b1; [|injection Hloop as <- <-; apply rollback_stable; [done|by apply NoDup_app in Hnd as (? & _)|done]].
  destruct (Hok eq_refl) as (Hl1 & Hlv & Hoth).
  apply (IH _ _ Hinv1) with (4 := Hloop); [by rewrite <- (assoc (++))| |by rewrite Hl1|done].
  intros fd' Hin. rewrite Hoth; [apply Hfree; by right|]. intros ->.
  apply NoDup_app in Hnd as (_ & _ & Hnd). by apply NoDup_cons in Hnd as [? _].
Qed.
Lemma held_ensured parent st :
  B st → Forall (λ P, 0 < count [] st P) Ps → held [] (ensure_task child (ensure_task parent st)).
Proof.
  intros Hb Hc. split; [by refine (sb_objects _ _ HB _ _ _ Hb)|]. eapply Forall_impl; [exact Hc|]. cbv beta. intros P HP.
  unfold spare. simpl. rewrite !count_ensure. lia.
Qed.
End inherit.

(** The operations that neither close a descriptor nor use an object. *)
Definition quiet_op (op : fd_op) : bool :=
  match op with
  | OpInitTask _ | OpDropShmem _ | OpInherit _ _ _ | OpInheritAll _ _ | OpOpenRead _ _ _ | OpOpenWrite _ _ | OpPipe _ _
  | OpDup _ _ => true
  | _ => false
  end.

Lemma exec_quiet B Ps op st w c st' :
  stable B Ps → inv [] None st → enabled op st → exec op st = (w, c, st') → quiet_op op = true →
  B st → Forall (λ P, 0 < count [] st P) Ps → B st'.
Proof.
  intros HB Hinv He Hx Hq Hb Hc. destruct op; simpl in Hq, He, Hx; try done; injection Hx as <- <- <-.
  - by refine (sb_objects _ _ HB _ _ _ Hb).
  - by refine (sb_objects _ _ HB _ _ _ Hb).
  - destruct (inherit_fds _ _ _ _) as [b st1] eqn:E. destruct He as [Hnd Hfree]. unfold inherit_fds in E.
    destruct (ensure_ok _ _ _ parent Hinv) as [Hinv1 _]. destruct (ensure_ok _ _ _ child Hinv1) as [Hinv2 Hl].
    refine (inherit_loop_stable _ _ HB child parent mappings [] _ _ _ Hinv2 Hnd _ Hl E _).
    + intros fd Hin. rewrite !ensure_entry. by eapply Forall_forall in Hfree.
    + by apply held_ensured.
  - destruct (inherit_all_fds _ _ _) as [b st1] eqn:E. unfold inherit_all_fds in E.
    destruct (ensure_ok _ _ _ parent Hinv) as [Hinv1 _]. destruct (ensure_ok _ _ _ child Hinv1) as [Hinv2 Hl].
    refine (inherit_all_loop_stable _ _ HB child _ [] _ _ _ Hinv2 (used_entries_live _ _ Hinv2) (used_entries_NoDup _) _ Hl E _).
    + intros fd _. rewrite !ensure_entry. by apply no_open_entry.
    + by apply held_ensured.
  - destruct (open_read _ _ _ _) as [r st1] eqn:E. unfold open_read in E. case_if; [by simplify_eq|]. refine (open_object_stable _ _ HB _ Hinv Hb Hc _ _ _ _ _ E). by split.
  - destruct (open_write _ _ _) as [r st1] eqn:E. refine (open_object_stable _ _ HB _ Hinv Hb Hc _ _ _ _ _ E).
    split; [done|by eexists].
  - destruct (vfs_pipe _ _ _) as [r st1] eqn:E. by eapply (pipe_stable _ _ HB st).
  - destruct (vfs_dup _ _ _) as [r st1] eqn:E. by eapply (dup_stable _ _ HB st).
Qed.

(** ** Blocked readers *)
(** [t] is registered on the read end of the pipe [o], which is empty and still
    has a writer. *)
Definition blocked (t o : nat) (st : VfsState) : Prop :=
  ∃ ob p, get_object o st = Some ob ∧ so_kind ob = KPipe p ∧ t ∈ waiting_readers p ∧ p_len p = 0 ∧ 0 < writers p.

Lemma blocked_objects t o st st' : objects st' = objects st → blocked t o st → blocked t o st'.
Proof. intros Eo (ob & p & Hg & Hr). exists ob, p. unfold get_object in *. by rewrite Eo. Qed.

(** Changing the object [o'] keeps the readers of the other pipes blocked. *)
Lemma blocked_insert t o o' x ob st :
  get_object o' st = Some ob → blocked t o st →
  (o = o' → ∃ ob' p', x = Some ob' ∧ so_kind ob' = KPipe p' ∧ t ∈ waiting_readers p' ∧ p_len p' = 0 ∧ 0 < writers p') →
  blocked t o (with_objects st (<[o':=x]> (objects st))).
Proof.
  intros Ho (ob0 & p0 & Hg & Hr) Hx. unfold blocked. rewrite (get_object_insert o o' st ob x Ho). case_decide as Hd.
  - destruct (Hx Hd) as (ob' & p' & -> & Hr'). by exists ob', p'.
  - by exists ob0, p0.
Qed.

Lemma retain_blocked e t o st b st' : retain_fd e st = (b, st') → blocked t o st → blocked t o st'.
Proof.
  unfold retain_fd. destruct (get_object (object e) st) as [ob|] eqn:Ho; [|by intros [= <- <-]].
  intros [= <- <-] Hb. apply (blocked_insert _ _ _ _ ob); [done..|]. intros ->.
  destruct Hb as (ob0 & p & Hg & Hk & Ht & Hl & Hw). rewrite Ho in Hg. injection Hg as <-. rewrite Hk.
  destruct (access e); (eexists _, _; split_and!; [done|done|done|done|]); simpl; lia.
Qed.

Lemma alloc_blocked k t o st id st' : alloc_object k st = (id, st') → blocked t o st → blocked t o st'.
Proof.
  intros (Hid & _ & Hg)%alloc_object_get (ob & p & Ho & Hr). exists ob, p. rewrite Hg, decide_False; [done|].
  intros ->. congruence.
Qed.

(** Releasing a reference while [t] keeps a read end: either [t] is woken,
    because the last writer went, or it stays blocked. *)
Lemma release_blocked e pend t o st ev st' :
  inv (e :: pend) None st → release_fd e st = (ev, st') → blocked t o st → 0 < count pend st (reads o) →
  (count pend st (writes o) = 0 ∧ t ∈ ev_wake ev) ∨ blocked t o st'.
Proof.
  intros Hinv Hrel Hb Hreads. unfold release_fd in Hrel. destruct (get_object (object e) st) as [ob|] eqn:Ho.
  2: { injection Hrel as <- <-. by right. }
  destruct (decide (o = object e)) as [->|Hne].
  2: { right. destruct (release_kind _ _) as [w k]. case_if; injection Hrel as <- <-; by apply (blocked_insert _ _ _ _ ob). }
  destruct Hb as (ob0 & p & Hg & Hk & Ht & Hl & Hw). rewrite Ho in Hg. injection Hg as <-.
  destruct (inv_live _ _ _ Hinv _ _ Ho) as (Hr & _ & Hok). unfold kind_ok in Hok. rewrite Hk in Hok, Hrel.
  destruct Hok as (_ & K1 & K2 & K3). destruct (count_self e pend st) as (E1 & E2 & E3).
  unfold release_kind, saturating_sub in Hrel. destruct (access e) eqn:Ha; cbn [with_counts readers writers] in Hrel.
  - right. cbn [refs so_kind] in Hrel. rewrite (proj2 (Z.eqb_neq (Z.max (refs ob - 1) 0) 0)) in Hrel by lia.
    injection Hrel as <- <-. eapply blocked_insert; [done|by exists ob, p|]. intros _. by eexists _, _.
  - right. rewrite (proj2 (Z.eqb_neq (Z.max (readers p - 1) 0) 0)) in Hrel by lia. cbn [refs so_kind] in Hrel.
    rewrite (proj2 (Z.eqb_neq (Z.max (refs ob - 1) 0) 0)) in Hrel by lia.
    injection Hrel as <- <-. eapply blocked_insert; [done|by exists ob, p|]. intros _. by eexists _, _.
  - destruct (Z.eqb_spec (Z.max (writers p - 1) 0) 0) as [Hz|Hz]; cbn [take_readers refs so_kind] in Hrel.
    + left. split; [lia|]. by case_if; injection Hrel as <- <-.
    + right. rewrite (proj2 (Z.eqb_neq (Z.max (refs ob - 1) 0) 0)) in Hrel by lia.
      injection Hrel as <- <-. eapply blocked_insert; [done|by exists ob, p|]. intros _. eexists _, _. split_and!; [done..|]. simpl; lia.
Qed.

Lemma blocked_writes pend fresh t o st : inv pend fresh st → blocked t o st → 0 < count pend st (writes o).
Proof.
  intros Hinv (ob & p & Hg & Hk & _ & _ & Hw). destruct (inv_live _ _ _ Hinv _ _ Hg) as (_ & _ & Hok).
  unfold kind_ok in Hok. rewrite Hk in Hok. by destruct Hok as (_ & _ & <- & _).
Qed.

Lemma blocked_stable t o : stable (blocked t o) [reads o; writes o].
Proof.
  split; [apply blocked_objects|intros e st b st'; apply retain_blocked|intros k st id st'; apply alloc_blocked|].
  intros e pend st ev st' Hinv Hrel Hb Hc. apply Forall_cons in Hc as [Hr [Hw _]%Forall_cons].
  destruct (release_blocked _ _ _ _ _ _ _ Hinv Hrel Hb Hr) as [[??]|?]; [lia|done].
Qed.

(** Closing descriptors only lowers the counts. *)
Lemma close_fds_count task fds st w c st' P :
  inv [] None st → close_fds task fds st = (w, c, st') → count [] st' P ≤ count [] st P.
Proof.
  revert st w c. induction fds as [|fd fds IH]; intros st w c Hinv; simpl; [by intros [= <- <- <-]|].
  destruct (take_entry task fd st) as [oe st1] eqn:Htk. pose proof (take_ok _ _ _ _ _ _ _ Hinv Htk) as (_ & _ & Hm).
  destruct oe as [e|]; [|subst st1; by apply IH]. destruct (take_fds _ _ _ _ _ Htk) as [Hc _].
  destruct (release_fd e st1) as [ev st2] eqn:Er. destruct (release_ok _ _ _ _ _ Hm Er) as [Hinv2 Ht2].
  destruct (close_fds task fds st2) as [[w2 c2] st3] eqn:Ec. intros [= <- <- <-].
  pose proof (IH _ _ _ Hinv2 Ec) as Hle. rewrite (count_fds _ _ _ _ Ht2), Hc in Hle. pose proof (ind_nonneg P e). lia.
Qed.

Lemma close_fds_blocked t o task fds st w c st' :
  inv [] None st → close_fds task fds st = (w, c, st') → blocked t o st → 0 < count [] st' (reads o) →
  t ∈ w ∨ blocked t o st'.
Proof.
  revert st w c. induction fds as [|fd fds IH]; intros st w c Hinv; simpl; [intros [= <- <- <-]; by right|].
  destruct (take_entry task fd st) as [oe st1] eqn:Htk. pose proof (take_ok _ _ _ _ _ _ _ Hinv Htk) as (_ & Eo & Hm).
  destruct oe as [e|]; [|subst st1; by apply IH].
  destruct (release_fd e st1) as [ev st2] eqn:Er. destruct (release_ok _ _ _ _ _ Hm Er) as [Hinv2 Ht2].
  destruct (close_fds task fds st2) as [[w2 c2] st3] eqn:Ec. intros [= <- <- <-] Hb Hr.
  pose proof (close_fds_count _ _ _ _ _ _ (reads o) Hinv2 Ec) as Hle. rewrite (count_fds _ _ _ _ Ht2) in Hle.
  destruct (release_blocked _ _ t o _ _ _ Hm Er) as [[_ Hw]|Hb2]; [by eapply blocked_objects|lia|left; apply elem_of_app; by left|].
  destruct (IH _ _ _ Hinv2 Ec Hb2 Hr); [left; apply elem_of_app; by right|by right].
Qed.

Lemma close_is_close_fds task fd st ev st' :
  vfs_close task fd st = (ev, st') →
  close_fds task [fd] st = (ev_wake ev, match ev_commit ev with Some c => [c] | None => [] end, st').
Proof.
  unfold vfs_close. simpl. destruct (take_entry task fd st) as [[e|] st1]; [|by intros [= <- <-]].
  intros ->. by rewrite !app_nil_r.
Qed.

(** An operation on the descriptor's object that replaces its kind. *)
Lemma set_blocked t o o' ob k st :
  get_object o' st = Some ob → blocked t o st →
  (∀ p, o = o' → so_kind ob = KPipe p → t ∈ waiting_readers p → p_len p = 0 → 0 < writers p →
    ∃ p', k = KPipe p' ∧ t ∈ waiting_readers p' ∧ p_len p' = 0 ∧ 0 < writers p') →
  blocked t o (set_object o' ob k st).
Proof.
  intros Ho Hb Hk. apply (blocked_insert _ _ _ _ ob); [done..|]. intros ->.
  destruct Hb as (ob0 & p & Hg & Hkp & Ht & Hl & Hw). rewrite Ho in Hg. injection Hg as <-.
  destruct (Hk p eq_refl Hkp Ht Hl Hw) as (p' & -> & Hp'). by eexists _, p'.
Qed.

Lemma pipe_read_empty want p : p_len p = 0 → 0 < writers p → pipe_read want p = (WouldBlock, p).
Proof.
  intros Hl Hw. unfold pipe_read. rewrite Hl. simpl. by rewrite (proj2 (Z.eqb_neq (writers p) 0)) by lia.
Qed.

Lemma elem_of_add_waiter l t x : t ∈ l → t ∈ add_waiter l x.
Proof. unfold add_waiter. case_if; [done|]. intros. apply elem_of_app. by left. Qed.

Lemma elem_of_remove_waiter l t x : t ∈ l → t ≠ x → t ∈ remove_waiter l x.
Proof.
  intros Ht Hne. unfold remove_waiter. apply list_elem_of_In, filter_In. split; [by apply list_elem_of_In|].
  apply negb_true_iff. by apply Nat.eqb_neq.
Qed.

Lemma read_blocked t o task fd want st r st' :
  blocked t o st → vfs_read task fd want st = (r, st') → blocked t o st'.
Proof.
  intros Hb. fd_cases Hk; destruct (access entry); try by intros [= <- <-].
  - intros [= <- <-]. apply set_blocked; [done..|]. intros p _ Hp. by rewrite Hk in Hp.
  - destruct (pipe_read want pipe) as [pr p'] eqn:Hp. intros Hr.
    assert (st' = set_object (object entry) ob (KPipe p') st) as -> by (by destruct pr; injection Hr as <- <-).
    apply set_blocked; [done..|]. intros p _ Hkp Ht Hl Hw. rewrite Hk in Hkp. injection Hkp as ->.
    rewrite pipe_read_empty in Hp by done. injection Hp as <- <-. by exists p.
Qed.

Lemma read_round_blocked t o task fd want st r w st' :
  blocked t o st → vfs_read_round task fd want st = (r, w, st') → blocked t o st'.
Proof.
  intros Hb. fd_cases Hk; destruct (access entry); try by intros [= <- <- <-].
  - intros [= <- <- <-]. apply set_blocked; [done..|]. intros p _ Hp. by rewrite Hk in Hp.
  - destruct (pipe_read want pipe) as [pr p'] eqn:Hp. intros Hr.
    assert (∃ k, st' = set_object (object entry) ob k st ∧ (pr = WouldBlock → k = KPipe (add_reader_waiter task p'))) as (k & -> & Hk').
    { destruct pr; [case_if|..]; injection Hr as <- <- <-; by eexists. }
    apply set_blocked; [done..|]. intros p _ Hkp Ht Hl Hw. rewrite Hk in Hkp. injection Hkp as ->.
    rewrite pipe_read_empty in Hp by done. injection Hp as <- <-. eexists. split; [by apply Hk'|].
    split; [by apply elem_of_add_waiter|done].
Qed.

Lemma register_blocked t o owner fd task events st r st' :
  blocked t o st → vfs_register_poll_waiter owner fd task events st = (r, st') → blocked t o st'.
Proof.
  intros Hb. fd_cases Hk; destruct (access entry); try by intros [= <- <-].
  all: case_if; intros [= <- <-]; [|done]; apply set_blocked; [done..|]; intros p _ Hkp Ht Hl Hw;
    rewrite Hk in Hkp; injection Hkp as ->; eexists; split; [done|]; by (split; [try apply elem_of_add_waiter|]).
Qed.

Lemma unregister_blocked t o owner fd task st st' :
  blocked t o st → t ≠ task → vfs_unregister_poll_waiter owner fd task st = st' → blocked t o st'.
Proof.
  intros Hb Hne. fd_cases Hk; [by intros <-|]. intros <-. apply set_blocked; [done..|]. intros p _ Hkp Ht Hl Hw.
  rewrite Hk in Hkp. injection Hkp as ->. eexists. split; [done|]. by (split; [apply elem_of_remove_waiter|]).
Qed.

(** A write that puts bytes into the pipe wakes the readers. *)
Lemma write_blocked t o reserve task fd buf st r w st' :
  inv [] None st → blocked t o st → vfs_write reserve task fd buf st = (r, w, st') → t ∈ w ∨ blocked t o st'.
Proof.
  intros Hinv Hb. fd_cases Hk; destruct (access entry); try (intros [= <- <- <-]; by right).
  - repeat case_match; intros [= <- <- <-]; try (by right). right. apply set_blocked; [done..|]. intros p _ Hp. by rewrite Hk in Hp.
  - case_if; [intros [= <- <- <-]; by right|]. destruct (inv_live _ _ _ Hinv _ _ Heqo1) as (_ & _ & Hok).
    unfold kind_ok in Hok. rewrite Hk in Hok. pose proof (Pipe_write_spec buf pipe (proj1 Hok)) as Hs.
    destruct (Pipe_write buf pipe) as [n p'] eqn:Hp.
    destruct Hs as (Hwf & Hn & Hq & _ & Hws & Hwr & _). destruct (Z.ltb_spec 0 n) as [Hpos|Hz]; intros [= <- <- <-].
    + destruct (decide (o = object entry)) as [->|Hne]; [left|right; by apply set_blocked].
      rewrite Hwr. destruct Hb as (ob0 & p & Hg & Hkp & Ht & _). congruence.
    + right. apply set_blocked; [done..|]. intros p _ Hkp Ht Hl Hw. rewrite Hk in Hkp. injection Hkp as ->.
      exists p'. rewrite Hwr, Hws. split_and!; [done|done| |done].
      rewrite <- (len_queue p') by apply Hwf. rewrite Hq. unfold slice. replace (Z.to_nat n) with O by lia. by rewrite take_0, app_nil_r, len_queue by lia.
Qed.

(** ** Operations of other tasks leave a table alone *)
Definition foreign (t : nat) (op : fd_op) : Prop :=
  match op with
  | OpInitTask task | OpDropTask task | OpDropShmem task | OpOpenRead task _ _ | OpOpenWrite task _ | OpPipe task _
  | OpClose task _ | OpDup task _ | OpInherit _ task _ | OpInheritAll _ task
  | OpRead task _ _ | OpReadBlocking task _ _ | OpWrite _ task _ _ | OpRegister task _ _ _ | OpUnregister task _ _ => task ≠ t
  end ∧ match op with OpUnregister _ _ t' => t' ≠ t | _ => True end.

Definition table_kept (t : nat) (st st' : VfsState) : Prop := ∀ fd, current_entry t fd st' = current_entry t fd st.

Lemma table_kept_trans t st1 st2 st3 : table_kept t st1 st2 → table_kept t st2 st3 → table_kept t st1 st3.
Proof. intros H12 H23 fd. by rewrite H23. Qed.
Lemma kept_fds t st st' : task_fds st' = task_fds st → table_kept t st st'.
Proof. intros E fd. by apply current_entry_fds. Qed.
Lemma kept_ensure t task st : table_kept t st (ensure_task task st).
Proof. intros fd. apply ensure_entry. Qed.
Lemma kept_set_table t task tb st : task ≠ t → table_kept t st (set_table task tb st).
Proof. intros Hne fd. unfold current_entry, set_table. cbn [with_tables task_fds]. by rewrite list_lookup_insert_ne. Qed.

Lemma release_fds e st : task_fds (snd (release_fd e st)) = task_fds st.
Proof. unfold release_fd. repeat case_match; done. Qed.
Lemma retain_fds e st b st' : retain_fd e st = (b, st') → task_fds st' = task_fds st.
Proof. unfold retain_fd. repeat case_match; by intros [= <- <-]. Qed.
Lemma kept_release t e st : table_kept t st (snd (release_fd e st)).
Proof. apply kept_fds, release_fds. Qed.
Lemma kept_retain t e st b st' : retain_fd e st = (b, st') → table_kept t st st'.
Proof. intros ?%retain_fds. by apply kept_fds. Qed.
Lemma kept_alloc t k st id st' : alloc_object k st = (id, st') → table_kept t st st'.
Proof. intros (_ & ? & _)%alloc_object_get. by apply kept_fds. Qed.
Lemma kept_take t task fd st o st' : task ≠ t → take_entry task fd st = (o, st') → table_kept t st st'.
Proof. unfold take_entry. intros Hne. repeat case_match; intros [= <- <-]; [by apply kept_set_table|done..]. Qed.
Lemma kept_give t task e st r st' : task ≠ t → give_fd task e st = (r, st') → table_kept t st st'.
Proof.
  unfold give_fd. intros Hne. repeat case_match; intros [= <- <-]; [by apply kept_set_table|apply kept_release].
Qed.
Lemma kept_rollback t task fds st : task ≠ t → table_kept t st (rollback task fds st).
Proof.
  intros Hne. revert st. induction fds as [|fd fds IH]; intros st; simpl; [done|].
  destruct (take_entry task fd st) as [[e|] st1] eqn:Htk; apply (kept_take t _ _ _ _ _ Hne) in Htk;
    (eapply table_kept_trans; [exact Htk|]); [|apply IH].
  eapply table_kept_trans; [apply kept_release|apply IH].
Qed.

Create HintDb kept.
#[local] Hint Resolve kept_ensure kept_set_table kept_release kept_retain kept_alloc kept_take kept_give kept_rollback : kept.
(** Chains of steps that keep the table. *)
Ltac kept :=
  lazymatch goal with
  | |- table_kept _ ?s ?s => intros ?; reflexivity
  | _ => solve [eauto 2 with kept]
  end.

Lemma kept_inherit_one t child fd e st b st' : child ≠ t → inherit_one child fd e st = (b, st') → table_kept t st st'.
Proof.
  intros Hne. unfold inherit_one. destruct (retain_fd e st) as [[] st1] eqn:Er; apply (kept_retain t) in Er.
  - destruct (install_fd _ _ _) as [[] tb].
    + intros [= <- <-]. eapply table_kept_trans; [done|kept].
    + intros [= <- <-]. case_match; [done|]. eapply table_kept_trans; [done|kept].
  - intros [= <- <-]. case_match; [done|]. eapply table_kept_trans; [done|kept].
Qed.

Lemma kept_inherit_loop t parent child ms installed st b st' :
  child ≠ t → inherit_loop parent child ms installed st = (b, st') → table_kept t st st'.
Proof.
  intros Hne. revert installed st. induction ms as [|[pfd fd] ms IH]; intros installed st; simpl; [by intros [= <- <-]|].
  destruct (current_entry parent pfd st) as [e|]; [|intros [= <- <-]; kept].
  destruct (inherit_one child fd e st) as [[] st1] eqn:E1; apply (kept_inherit_one t) in E1; [|done| |done]; intros Hl.
  - eapply table_kept_trans; [done|by eapply IH].
  - injection Hl as <- <-. eapply table_kept_trans; [done|kept].
Qed.

Lemma kept_inherit_all_loop t child es installed st b st' :
  child ≠ t → inherit_all_loop child es installed st = (b, st') → table_kept t st st'.
Proof.
  intros Hne. revert installed st. induction es as [|[fd e] es IH]; intros installed st; simpl; [by intros [= <- <-]|].
  destruct (inherit_one child fd e st) as [[] st1] eqn:E1; apply (kept_inherit_one t) in E1; [|done| |done]; intros Hl.
  - eapply table_kept_trans; [done|by eapply IH].
  - injection Hl as <- <-. eapply table_kept_trans; [done|kept].
Qed.

Lemma kept_open t task file st r st' : task ≠ t → open_object task file st = (r, st') → table_kept t st st'.
Proof.
  intros Hne. unfold open_object. case_if; [intros [= <- <-]; kept|]. destruct (alloc_object _ _) as [id st2] eqn:Ha.
  apply (kept_alloc t) in Ha. apply (table_kept_trans _ _ _ _ (kept_ensure t task st)) in Ha.
  destruct (retain_fd _ st2) as [[] st3] eqn:Er; apply (kept_retain t), (table_kept_trans _ _ _ _ Ha) in Er.
  - intros Hg%(kept_give t); [|done]. exact (table_kept_trans _ _ _ _ Er Hg).
  - by intros [= <- <-].
Qed.

Lemma kept_dup t task fd st r st' : task ≠ t → vfs_dup task fd st = (r, st') → table_kept t st st'.
Proof.
  intros Hne. unfold vfs_dup. pose proof (kept_ensure t task st) as He. case_if; [by intros [= <- <-]|].
  destruct (current_entry _ _ _) as [e|]; [|by intros [= <- <-]].
  destruct (retain_fd e _) as [[] st3] eqn:Er; apply (kept_retain t), (table_kept_trans _ _ _ _ He) in Er.
  - intros Hg%(kept_give t); [|done]. exact (table_kept_trans _ _ _ _ Er Hg).
  - by intros [= <- <-].
Qed.

Lemma kept_pipe t task admitted st r st' : task ≠ t → vfs_pipe task admitted st = (r, st') → table_kept t st st'.
Proof.
  intros Hne. unfold vfs_pipe. pose proof (kept_ensure t task st) as He. case_if; [by intros [= <- <-]|].
  case_if; [by intros [= <- <-]|]. destruct (alloc_object _ _) as [id st2] eqn:Ha.
  apply (kept_alloc t), (table_kept_trans _ _ _ _ He) in Ha.
  destruct (retain_fd _ st2) as [[] st3] eqn:Er; apply (kept_retain t), (table_kept_trans _ _ _ _ Ha) in Er; [|by intros [= <- <-]].
  destruct (give_fd _ _ st3) as [[fd|] st4] eqn:Hg; apply (kept_give t), (table_kept_trans _ _ _ _ Er) in Hg; [|done| |done].
  2: by intros [= <- <-].
  destruct (retain_fd _ st4) as [[] st5] eqn:Er5; apply (kept_retain t), (table_kept_trans _ _ _ _ Hg) in Er5.
  - destruct (alloc_fd _ _) as [[wfd tb]|]; intros [= <- <-].
    + refine (table_kept_trans _ _ _ _ Er5 _). kept.
    + refine (table_kept_trans _ _ _ _ Er5 _). refine (table_kept_trans _ _ _ _ _ (kept_release t _ _)).
      refine (table_kept_trans _ _ _ _ _ (kept_release t _ _)). unfold clear_fd. kept.
  - intros [= <- <-]. refine (table_kept_trans _ _ _ _ Er5 _). refine (table_kept_trans _ _ _ _ _ (kept_release t _ _)).
    unfold clear_fd. kept.
Qed.

Lemma kept_close_fds t task fds st w c st' : task ≠ t → close_fds task fds st = (w, c, st') → table_kept t st st'.
Proof.
  intros Hne. revert st w c. induction fds as [|fd fds IH]; intros st w c; simpl; [by intros [= <- <- <-]|].
  destruct (take_entry task fd st) as [[e|] st1] eqn:Htk; apply (kept_take t _ _ _ _ _ Hne) in Htk.
  - pose proof (kept_release t e st1) as Hr. destruct (release_fd e st1) as [ev st2]. simpl in Hr.
    destruct (close_fds task fds st2) as [[w2 c2] st3] eqn:Ec. intros [= <- <- <-]. apply IH in Ec.
    exact (table_kept_trans _ _ _ _ Htk (table_kept_trans _ _ _ _ Hr Ec)).
  - intros Hc%IH. exact (table_kept_trans _ _ _ _ Htk Hc).
Qed.

Lemma exec_kept t op st w c st' : foreign t op → exec op st = (w, c, st') → table_kept t st st'.
Proof.
  intros [Hne _]. destruct op; simpl in Hne |- *.
  - intros [= <- <- <-]. refine (table_kept_trans _ _ _ _ (kept_ensure t task st) _).
    eapply table_kept_trans; [by apply (kept_set_table t task TaskFdTable_new)|by apply kept_fds].
  - unfold drop_task. case_if; [by intros [= <- <- <-]|].
    destruct (close_fds _ _ _) as [[w' c'] st1] eqn:E. intros [= <- <- <-].
    apply (kept_close_fds t) in E; [|done]. refine (table_kept_trans _ _ _ _ E _). by apply kept_fds.
  - intros [= <- <- <-]. by apply kept_fds.
  - intros [= <- <- <-]. destruct (inherit_fds _ _ _ _) as [b st1] eqn:E. unfold inherit_fds in E.
    apply (kept_inherit_loop t) in E; [|done]. eapply table_kept_trans; [apply (kept_ensure t parent)|].
    exact (table_kept_trans _ _ _ _ (kept_ensure t child _) E).
  - intros [= <- <- <-]. destruct (inherit_all_fds _ _ _) as [b st1] eqn:E. unfold inherit_all_fds in E.
    apply (kept_inherit_all_loop t) in E; [|done]. eapply table_kept_trans; [apply (kept_ensure t parent)|].
    exact (table_kept_trans _ _ _ _ (kept_ensure t child _) E).
  - intros [= <- <- <-]. destruct (open_read _ _ _ _) eqn:E. unfold open_read in E. case_if; [by simplify_eq|by eapply kept_open].
  - intros [= <- <- <-]. destruct (open_write _ _ _) eqn:E. by eapply kept_open.
  - intros [= <- <- <-]. destruct (vfs_pipe _ _ _) eqn:E. by eapply kept_pipe.
  - destruct (vfs_close _ _ _) as [ev st1] eqn:E. intros [= <- <- <-]. apply close_is_close_fds in E.
    by eapply kept_close_fds.
  - intros [= <- <- <-]. destruct (vfs_dup _ _ _) eqn:E. by eapply kept_dup.
  - intros [= <- <- <-]. apply kept_fds. unfold vfs_read. by repeat case_match.
  - intros Hx. apply kept_fds. unfold vfs_read_round in Hx. by repeat case_match; simplify_eq.
  - intros Hx. apply kept_fds. unfold vfs_write in Hx. by repeat case_match; simplify_eq.
  - intros [= <- <- <-]. apply kept_fds. unfold vfs_register_poll_waiter. by repeat case_match.
  - intros [= <- <- <-]. apply kept_fds. unfold vfs_unregister_poll_waiter. by repeat case_match.
Qed.

Lemma exec_blocked t o op st w c st' :
  inv [] None st → enabled op st → exec op st = (w, c, st') → foreign t op → blocked t o st →
  0 < count [] st (reads o) → 0 < count [] st' (reads o) → t ∈ w ∨ blocked t o st'.
Proof.
  intros Hinv He Hx [_ Hf] Hb Hr Hr'. pose proof (blocked_writes _ _ _ _ _ Hinv Hb) as Hw.
  destruct (quiet_op op) eqn:Hq.
  { right. refine (exec_quiet _ _ _ _ _ _ _ (blocked_stable t o) Hinv He Hx Hq Hb _). by repeat constructor. }
  destruct op; simpl in Hq, He, Hx; try done; try (injection Hx as <- <- <-; right).
  - unfold drop_task in Hx. case_if; [injection Hx as <- <- <-; by right|].
    destruct (close_fds _ _ _) as [[w1 c1] st1] eqn:E. injection Hx as <- <- <-.
    destruct (close_fds_blocked t o _ _ _ _ _ _ Hinv E Hb) as [?|?]; [done|by left|right; by eapply blocked_objects].
  - destruct (vfs_close _ _ _) as [ev st1] eqn:E. injection Hx as <- <- <-. apply close_is_close_fds in E.
    by eapply close_fds_blocked.
  - destruct (vfs_read _ _ _ _) as [r st1] eqn:E. by eapply read_blocked.
  - destruct (vfs_read_round _ _ _ _) as [[r w'] st1] eqn:E. injection Hx as <- <- <-. right. by eapply read_round_blocked.
  - destruct (vfs_write _ _ _ _ _) as [[r w'] st1] eqn:E. injection Hx as <- <- <-. by eapply write_blocked.
  - destruct (vfs_register_poll_waiter _ _ _ _ _) as [r st1] eqn:E. by eapply register_blocked.
  - eapply unregister_blocked; [done| |done]. by apply not_eq_sym.
Qed.

Lemma set_object_same o ob k st :
  get_object o st = Some ob → so_kind ob = k → set_object o ob k st = st.
Proof.
  unfold get_object, set_object. intros Ho <-. destruct (objects st !! o) as [x|] eqn:Hx; [|done]. simpl in Ho. subst x.
  unfold with_objects. rewrite list_insert_id; [by destruct st|]. by destruct ob.
Qed.

Lemma set_now_blocked t o ob p st :
  is_Some (get_object o st) → t ∈ waiting_readers p → p_len p = 0 → 0 < writers p →
  blocked t o (set_object o ob (KPipe p) st).
Proof.
  intros [ob' Ho] Ht Hl Hw. unfold blocked, set_object. rewrite (get_object_insert _ _ _ _ _ Ho), decide_True by done.
  by eexists _, p.
Qed.

Lemma elem_of_added_waiter t p : t ∈ waiting_readers (add_reader_waiter t p).
Proof.
  cbn [add_reader_waiter with_waiters waiting_readers]. unfold add_waiter. case_match eqn:Hx.
  - apply existsb_exists in Hx as (x & Hin & ->%Nat.eqb_eq). by apply list_elem_of_In.
  - apply elem_of_app. right. by left.
Qed.

(** ** Buffered files *)
(** The object [o] is the open file [f]. *)
Definition open_as (o : nat) (f : OpenFile) (st : VfsState) : Prop :=
  ∃ ob, get_object o st = Some ob ∧ so_kind ob = KFile f.

Lemma open_as_count o f st : inv [] None st → open_as o f st → 0 < count [] st (refers o).
Proof.
  intros Hinv (ob & Ho & _). destruct (inv_live _ _ _ Hinv _ _ Ho) as (<- & [?|?] & _); [done|done].
Qed.

(** What [release_fd] does to an object: it goes with the last reference,
    otherwise a file stays as it is. *)
Lemma release_object e pend st ev st' o ob :
  inv (e :: pend) None st → release_fd e st = (ev, st') → get_object o st = Some ob →
  (get_object o st' = None ∧ o = object e ∧ count pend st (refers o) = 0 ∧ ev_commit ev = commit_of (so_kind ob)) ∨
  ((o = object e → ev_commit ev = None) ∧ ∃ ob', get_object o st' = Some ob' ∧ commit_of (so_kind ob') = commit_of (so_kind ob) ∧
    ∀ f, so_kind ob = KFile f → so_kind ob' = KFile f).
Proof.
  intros Hinv Hrel Ho. unfold release_fd in Hrel. destruct (get_object (object e) st) as [obe|] eqn:He.
  2: { injection Hrel as <- <-. right. split; [done|]. by exists ob. }
  destruct (decide (o = object e)) as [->|Hne].
  2: { right. destruct (release_kind _ _) as [w k]. case_if; injection Hrel as <- <-; (split; [done|]);
         rewrite (get_object_insert _ _ _ _ _ He), decide_False by done; by exists ob. }
  rewrite He in Ho. injection Ho as ->. destruct (inv_live _ _ _ Hinv _ _ He) as (Hr & _ & Hk).
  destruct (count_self e pend st) as (E1 & _). pose proof (count_nonneg pend st (refers (object e))).
  destruct (release_kind (access e) (so_kind ob)) as [w k'] eqn:Ek. apply release_kind_ok in Ek.
  assert (commit_of k' = commit_of (so_kind ob) ∧ ∀ f, so_kind ob = KFile f → k' = KFile f) as [Ec Ef].
  { destruct (so_kind ob) as [f|p], k' as [f'|p']; try done. destruct Ek as [-> _]. by split. }
  unfold saturating_sub in Hrel. cbn [refs so_kind] in Hrel.
  destruct (Z.eqb_spec (Z.max (refs ob - 1) 0) 0) as [E0|E0]; injection Hrel as <- <-.
  - left. rewrite (get_object_insert _ _ _ _ _ He), decide_True by done. simpl. split_and!; [done..|lia|done].
  - right. split; [done|]. rewrite (get_object_insert _ _ _ _ _ He), decide_True by done. by eexists.
Qed.

Lemma open_as_stable o f : stable (open_as o f) [refers o].
Proof.
  split.
  - intros st st' Eo (ob & Ho & Hk). exists ob. unfold get_object in *. by rewrite Eo.
  - unfold retain_fd. intros e st b st' Hr (ob & Ho & Hk).
    destruct (get_object (object e) st) as [obe|] eqn:He; injection Hr as <- <-; [|by exists ob].
    unfold open_as. rewrite (get_object_insert _ _ _ _ _ He). case_decide as Hd; [|by exists ob].
    subst o. rewrite He in Ho. injection Ho as ->. eexists. split; [done|]. cbn [so_kind]. rewrite Hk. done.
  - intros k st id st' (Hid & _ & Hg)%alloc_object_get (ob & Ho & Hk). exists ob. rewrite Hg, decide_False; [done|].
    intros ->. congruence.
  - intros e pend st ev st' Hinv Hrel (ob & Ho & Hk) Hc. apply Forall_cons in Hc as [Hc _].
    destruct (release_object _ _ _ _ _ _ _ Hinv Hrel Ho) as [(_ & _ & H0 & _)|(_ & ob' & Ho' & _ & Hf)]; [lia|].
    exists ob'. split; [done|]. by apply Hf.
Qed.

Lemma dead_count st o : inv [] None st → get_object o st = None ↔ count [] st (refers o) = 0.
Proof.
  intros Hinv. split; [apply (inv_dead _ _ _ Hinv)|]. intros H0. destruct (get_object o st) as [ob|] eqn:Ho; [|done].
  destruct (inv_live _ _ _ Hinv _ _ Ho) as (Hr & [Hp|?] & _); [lia|done].
Qed.

Lemma close_fds_dead task fds st w c st' o :
  inv [] None st → close_fds task fds st = (w, c, st') → get_object o st = None → get_object o st' = None.
Proof.
  intros Hinv Hc. destruct (close_fds_ok _ _ _ _ _ _ Hinv Hc) as [Hinv' _]. rewrite !dead_count by done. intros H0.
  pose proof (close_fds_count _ _ _ _ _ _ (refers o) Hinv Hc). pose proof (count_nonneg [] st' (refers o)). lia.
Qed.

(** Closing descriptors commits exactly the files that go. *)
Lemma close_fds_commits task fds st w c st' x :
  inv [] None st → close_fds task fds st = (w, c, st') →
  x ∈ c ↔ ∃ o ob, get_object o st = Some ob ∧ commit_of (so_kind ob) = Some x ∧ get_object o st' = None.
Proof.
  revert st w c. induction fds as [|fd fds IH]; intros st w c Hinv; simpl.
  { intros [= <- <- <-]. split; [by intros ?%not_elem_of_nil|]. intros (o & ob & Ho & _ & Hn). congruence. }
  destruct (take_entry task fd st) as [oe st1] eqn:Htk. pose proof (take_ok _ _ _ _ _ _ _ Hinv Htk) as (_ & Eo & Hm).
  destruct oe as [e|]; [|subst st1; by apply IH].
  assert (∀ o, get_object o st1 = get_object o st) as Eg by (intros o; unfold get_object; by rewrite Eo).
  destruct (release_fd e st1) as [ev st2] eqn:Er. destruct (release_ok _ _ _ _ _ Hm Er) as [Hinv2 Ht2].
  destruct (close_fds task fds st2) as [[w2 c2] st3] eqn:Ec. intros [= <- <- <-].
  specialize (IH _ _ _ Hinv2 Ec). rewrite elem_of_app, IH. split.
  - intros [Hev|(o & ob2 & Ho2 & Hc2 & Hn)].
    + destruct (inv_entry _ _ _ e Hm) as (ob & Ho & _).
      { intros P. rewrite count_cons. pose proof (count_nonneg [] st1 P). lia. }
      destruct (release_object _ _ _ _ _ _ _ Hm Er Ho) as [(Hd & _ & _ & E)|(E & _)];
        [|rewrite E in Hev by done; by apply not_elem_of_nil in Hev].
      rewrite E in Hev. destruct (commit_of (so_kind ob)) as [y|] eqn:Hy; [|by apply not_elem_of_nil in Hev].
      apply list_elem_of_singleton in Hev as ->. exists (object e), ob. rewrite <- Eg.
      split_and!; [done|done|]. by eapply close_fds_dead.
    + destruct (get_object o st) as [ob|] eqn:Ho; rewrite <- Eg in Ho.
      * destruct (release_object _ _ _ _ _ _ _ Hm Er Ho) as [(Hd & _)|(_ & ob' & Ho' & E & _)]; [congruence|].
        rewrite Ho2 in Ho'. injection Ho' as <-. exists o, ob. rewrite <- Eg. by rewrite <- E.
      * unfold release_fd in Er. destruct (get_object (object e) st1) as [obe|] eqn:He; [|injection Er as <- <-; congruence].
        destruct (release_kind _ _) as [w0 k0]. case_if; injection Er as <- <-;
          rewrite (get_object_insert _ _ _ _ _ He) in Ho2; case_decide; congruence.
  - intros (o & ob & Ho & Hc & Hn). rewrite <- Eg in Ho.
    destruct (release_object _ _ _ _ _ _ _ Hm Er Ho) as [(Hd & _ & _ & E)|(_ & ob' & Ho' & E & _)].
    + left. rewrite E, Hc. by left.
    + right. exists o, ob'. by rewrite E.
Qed.

(** Reading a pipe.  A read on a pipe descriptor returns the oldest bytes
    when there are any; on an empty pipe it reports the end of file exactly
    when no task holds a write end, and blocks, registered to be woken, when
    some task does. *)
Theorem pipe_end_of_file st task fd o want :
  reachable st → 0 < want → current_entry task fd st = Some {| object := o; access := FdPipeRead |} →
  ∃ ob p, get_object o st = Some ob ∧ so_kind ob = KPipe p ∧
  (queue p ≠ [] → ∃ out rest wake st', queue p = out ++ rest ∧ len out = Z.min want (len (queue p)) ∧
     vfs_read_round task fd want st = (Returns (Some out), wake, st')) ∧
  (queue p = [] → nobody st (writes o) → vfs_read_round task fd want st = (Returns (Some []), [], st)) ∧
  (queue p = [] → ¬ nobody st (writes o) →
     ∃ st', vfs_read_round task fd want st = (Waits, [], st') ∧ blocked task o st').
Proof.
  intros Hinv%reachable_inv Hwant He. destruct (entry_ok _ _ _ _ _ _ Hinv He) as (ob & Ho & Ha). simpl in Ho.
  destruct (inv_live _ _ _ Hinv _ _ Ho) as (_ & _ & Hok). unfold access_ok in Ha. unfold kind_ok in Hok.
  destruct (so_kind ob) as [f|p] eqn:Hk; [done|]. destruct Hok as (Hwf & _ & Hws & _).
  pose proof (len_queue p ltac:(apply Hwf)) as Hlq. pose proof (pw_len _ Hwf) as Hpl.
  assert (nobody st (writes o) ↔ writers p = 0) as Hnb by (rewrite Hws; symmetry; apply count_nobody).
  unfold vfs_read_round. rewrite He. cbn [object access]. rewrite Ho, Hk. unfold pipe_read.
  exists ob, p. split_and!; [done|done|..].
  - intros Hq. assert (0 < p_len p) as Hpos.
    { destruct (queue p); [done|]. rewrite <- Hlq, len_cons. pose proof (len_nonneg l). lia. }
    rewrite (proj2 (Z.ltb_lt 0 (p_len p)) Hpos). pose proof (Pipe_read_spec want p Hwf) as Hs.
    destruct (Pipe_read want p) as [out p'] eqn:Hp. destruct Hs as (_ & Hqq & Hlo & _).
    exists out, (queue p'). destruct (if 0 <? len out then _ else _) as [wake p'']. eexists wake, _.
    split_and!; [done|rewrite Hlo, Hlq; lia|done].
  - intros Hq Hn%Hnb. assert (p_len p = 0) as -> by (by rewrite <- Hlq, Hq). rewrite Hn. simpl. f_equal.
    by apply set_object_same.
  - intros Hq Hn. assert (p_len p = 0) as Hl by (by rewrite <- Hlq, Hq). rewrite Hl. simpl.
    rewrite (proj2 (Z.eqb_neq (writers p) 0)) by tauto. eexists. split; [done|].
    apply set_now_blocked; [by exists ob|apply elem_of_added_waiter|done|]. simpl.
    pose proof (count_nonneg [] st (writes o)). destruct (Z.eq_dec (writers p) 0); [tauto|]. lia.
Qed.

(** Writing a pipe.  A write on a pipe descriptor fails exactly when no
    task holds a read end; otherwise it appends as many bytes as fit, reports
    their number, and wakes every waiting reader when that is not zero. *)
Theorem pipe_write_end st reserve task fd o buf :
  reachable st → current_entry task fd st = Some {| object := o; access := FdPipeWrite |} →
  ∃ ob p, get_object o st = Some ob ∧ so_kind ob = KPipe p ∧
  (nobody st (reads o) → vfs_write reserve task fd buf st = (None, [], st)) ∧
  (¬ nobody st (reads o) → ∃ n ob' p' st',
     n = Z.min (len buf) (PIPE_SIZE - len (queue p)) ∧
     vfs_write reserve task fd buf st = (Some n, if 0 <? n then waiting_readers p else [], st') ∧
     get_object o st' = Some ob' ∧ so_kind ob' = KPipe p' ∧ queue p' = queue p ++ slice buf 0 n).
Proof.
  intros Hinv%reachable_inv He. destruct (entry_ok _ _ _ _ _ _ Hinv He) as (ob & Ho & Ha). simpl in Ho.
  destruct (inv_live _ _ _ Hinv _ _ Ho) as (_ & _ & Hok). unfold access_ok in Ha. unfold kind_ok in Hok.
  destruct (so_kind ob) as [f|p] eqn:Hk; [done|]. destruct Hok as (Hwf & Hrs & _).
  assert (nobody st (reads o) ↔ readers p = 0) as Hnb by (rewrite Hrs; symmetry; apply count_nobody).
  unfold vfs_write. rewrite He. cbn [object access]. rewrite Ho, Hk. exists ob, p. split_and!; [done|done|..].
  - by intros ->%Hnb.
  - intros Hn. rewrite (proj2 (Z.eqb_neq (readers p) 0)) by tauto. pose proof (Pipe_write_spec buf p Hwf) as Hs.
    destruct (Pipe_write buf p) as [n p']. destruct Hs as (_ & Hnn & Hq & _ & _ & Hwr & _).
    exists n. rewrite len_queue by apply Hwf.
    assert (∀ q, get_object o (set_object o ob (KPipe q) st) = Some {| refs := refs ob; so_kind := KPipe q |}) as Hg
      by (intros q; unfold set_object; by rewrite (get_object_insert _ _ _ _ _ Ho), decide_True).
    destruct (0 <? n); cbn [take_readers]; rewrite ?Hwr; eexists _, _, _; (split_and!; [done|done|apply Hg|done|exact Hq]).
Qed.

(** Using a descriptor changes at most the contents of its object. *)
Definition uses (st st' : VfsState) : Prop :=
  st' = st ∨ ∃ o ob k, get_object o st = Some ob ∧ st' = set_object o ob k st ∧
    match so_kind ob, k with KFile _, KFile _ | KPipe _, KPipe _ => True | _, _ => False end.

Lemma uses_file o f st st' : uses st st' → open_as o f st → ∃ f', open_as o f' st'.
Proof.
  intros [->|(o' & ob & k & Ho & -> & Hk)] Hf; [by exists f|]. unfold open_as, set_object.
  destruct (decide (o = o')) as [->|Hne].
  - destruct Hf as (ob0 & Ho0 & Hk0). rewrite Ho in Ho0. injection Ho0 as <-. rewrite Hk0 in Hk. destruct k as [f'|]; [|done].
    exists f'. rewrite (get_object_insert _ _ _ _ _ Ho), decide_True by done. by eexists.
  - exists f. rewrite (get_object_insert _ _ _ _ _ Ho), decide_False by done. done.
Qed.

(** The branches of an operation that uses one descriptor. *)
Ltac uses_cases :=
  repeat case_match; simplify_eq;
  first [by left|right; eexists _, _, _; split_and!; [eassumption|reflexivity|simplify_option_eq; by case_match]].

Lemma exec_uses op st w c st' :
  exec op st = (w, c, st') →
  match op with
  | OpRead _ _ _ | OpReadBlocking _ _ _ | OpWrite _ _ _ _ | OpRegister _ _ _ _ | OpUnregister _ _ _ => c = [] ∧ uses st st'
  | _ => True
  end.
Proof.
  destruct op; simpl; try done.
  - intros [= <- <- <-]. split; [done|]. unfold vfs_read. uses_cases.
  - unfold vfs_read_round. intros Hx. split; [by repeat case_match; simplify_eq|]. uses_cases.
  - unfold vfs_write. intros Hx. split; [by repeat case_match; simplify_eq|]. uses_cases.
  - intros [= <- <- <-]. split; [done|]. unfold vfs_register_poll_waiter. uses_cases.
  - intros [= <- <- <-]. split; [done|]. unfold vfs_unregister_poll_waiter. uses_cases.
Qed.

(** An operation closes descriptors, or commits nothing and keeps every file. *)
Lemma exec_commits op st w c st' :
  inv [] None st → enabled op st → exec op st = (w, c, st') →
  (∃ task fds w1 st1, close_fds task fds st = (w1, c, st1) ∧ objects st' = objects st1) ∨
  (c = [] ∧ ∀ o f, open_as o f st → ∃ f', open_as o f' st').
Proof.
  intros Hinv He Hx. destruct (quiet_op op) eqn:Hq.
  { right. split; [by destruct op; simpl in Hx; try done; injection Hx|]. intros o f Hf. exists f.
    refine (exec_quiet _ _ _ _ _ _ _ (open_as_stable o f) Hinv He Hx Hq Hf _). constructor; [|constructor].
    by eapply open_as_count. }
  pose proof (exec_uses _ _ _ _ _ Hx) as Hu.
  destruct op; simpl in Hq, Hx; try done.
  3-7: right; destruct Hu as [-> Hu]; split; [done|]; intros o f; by apply uses_file.
  - left. unfold drop_task in Hx. case_if; [injection Hx as <- <- <-; by exists task, [], [], st|].
    destruct (close_fds _ _ _) as [[w1 c1] st1] eqn:E. injection Hx as <- <- <-. by eexists _, _, w1, st1.
  - left. destruct (vfs_close _ _ _) as [ev st1] eqn:E. injection Hx as <- <- <-. apply close_is_close_fds in E.
    by eexists _, _, _, _.
Qed.

Lemma commit_of_Some k path data :
  commit_of k = Some (path, data) ↔
  ∃ f, k = KFile f ∧ f_writable f = true ∧ f_dirty f = true ∧ f_path f = Some path ∧ f_data f = data.
Proof.
  unfold commit_of. split.
  - destruct k as [f|]; [|done]. case_if as Hb; [|done]. apply andb_true_iff in Hb as [Hw Hd].
    destruct (f_path f) as [p|] eqn:Hp; [|done]. intros [= <- <-]. by exists f.
  - intros (f & -> & -> & -> & -> & <-). done.
Qed.

(** Buffered writes reach the file system exactly once.  One operation
    commits exactly the files that were open for writing and modified before
    it and that no descriptor refers to after it, each with the contents it
    had; no other operation, a failed one included, commits or drops any. *)
Theorem commit_on_last_close op st w c st' path data :
  reachable st → enabled op st → exec op st = (w, c, st') →
  (path, data) ∈ c ↔
  ∃ o ob f, get_object o st = Some ob ∧ so_kind ob = KFile f ∧ f_writable f = true ∧ f_dirty f = true ∧
    f_path f = Some path ∧ f_data f = data ∧ nobody st' (refers o).
Proof.
  intros Hinv%reachable_inv He Hx. pose proof (exec_ok _ _ _ _ _ Hinv He Hx) as Hinv'.
  transitivity (∃ o ob, get_object o st = Some ob ∧ commit_of (so_kind ob) = Some (path, data) ∧ get_object o st' = None).
  - destruct (exec_commits _ _ _ _ _ Hinv He Hx) as [(task & fds & w1 & st1 & Hc & Eo)|[-> Hk]].
    + rewrite (close_fds_commits _ _ _ _ _ _ _ Hinv Hc). unfold get_object at 4. rewrite Eo. done.
    + split; [by intros ?%not_elem_of_nil|]. intros (o & ob & Ho & (f & Hf & _)%commit_of_Some & Hn).
      destruct (Hk o f) as (f' & ob' & Ho' & _); [by exists ob|]. congruence.
  - split.
    + intros (o & ob & Ho & (f & Hf & Hr)%commit_of_Some & Hn). exists o, ob, f. split_and!; [done|done|apply Hr..|].
      apply count_nobody. by apply dead_count.
    + intros (o & ob & f & Ho & Hk & H1 & H2 & H3 & H4 & Hn). exists o, ob. split_and!; [done|apply commit_of_Some; by exists f|].
      apply dead_count; [done|]. by apply count_nobody.
Qed.

(** C40: no lost wake-up.  While a task is blocked on an empty pipe it holds the
    read end of, whatever the other tasks do, in any number of steps, either
    one of the steps wakes it, or the pipe is still empty with a writer left
    and the task is still registered to be woken.  (The steps are under the
    conditions of [enabled].) *)
Theorem no_lost_wakeup t o fd st ops wakes commits st' :
  reachable st → blocked t o st → current_entry t fd st = Some {| object := o; access := FdPipeRead |} →
  Forall (foreign t) ops → steps st ops wakes commits st' →
  t ∈ wakes ∨ blocked t o st'.
Proof.
  intros Hinv%reachable_inv Hb He Hf Hs. revert Hinv Hb He Hf.
  induction Hs as [|op ops st st1 st2 w1 w2 c1 c2 Hen Hx Hs IH]; intros Hinv Hb He Hf; [by right|].
  apply Forall_cons in Hf as [Hf1 Hf]. pose proof (exec_kept _ _ _ _ _ _ Hf1 Hx fd) as He1. rewrite He in He1.
  assert (∀ s, current_entry t fd s = Some {| object := o; access := FdPipeRead |} → 0 < count [] s (reads o)) as Hpos.
  { intros s Hs'. pose proof (count_entry [] s t fd _ (reads o) Hs') as Hle.
    rewrite ind_true in Hle; [lia|]. unfold reads, refers. simpl. by rewrite Nat.eqb_refl. }
  destruct (exec_blocked t o _ _ _ _ _ Hinv Hen Hx Hf1 Hb) as [Hw|Hb1]; [by apply Hpos..|left; apply elem_of_app; by left|].
  destruct (IH (exec_ok _ _ _ _ _ Hinv Hen Hx) Hb1 He1 Hf) as [Hw|?]; [left; apply elem_of_app; by right|by right].
Qed.

(** Descriptors handed to a child are counted twice when the mapping names
    a child descriptor twice.  [inherit_fds] reports failure and undoes what it
    installed, but the reference retained for the second mapping stays: here a
    pipe has one writer count more than write descriptors, and after the only
    write end is closed a reader still waits instead of seeing the end of file. *)
Theorem inherit_fds_duplicate_leaks :
  ∃ st1 st2 st3,
    run [OpPipe 0 true] VfsState_new = Some ([], [], st1) ∧
    inherit_fds 0 1 [(4, 5); (4, 5)]%nat st1 = (false, st2) ∧
    exec (OpClose 0 4) st2 = ([], [], st3) ∧
    count [] st3 (writes 0) = 0 ∧
    (vfs_read_round 0 3 1 st3).1.1 = Waits.
Proof. eexists _, _, _. split_and!; [vm_compute; reflexivity|vm_compute; reflexivity|vm_compute; reflexivity|..]; vm_compute; reflexivity. Qed.

(** ** Instances *)
(** Task 0 makes a pipe, task 1 inherits it and keeps the write end only, and
    task 0 keeps the read end and blocks on it; task 1 then opens a file,
    writes to it and to the pipe. *)
Definition demo_blocked : list fd_op :=
  [OpPipe 0 true; OpInheritAll 0 1; OpClose 1 3; OpClose 0 4; OpReadBlocking 0 3 5]%nat.
Definition demo_writes : list fd_op :=
  [OpOpenWrite 1 (str "/a"); OpWrite (λ _, true) 1 3 (str "xyz"); OpWrite (λ _, true) 1 4 (str "hello")]%nat.

Definition state_after (ops : list fd_op) (st : VfsState) : VfsState :=
  match run ops st with Some (_, _, st') => st' | None => st end.
Definition demo : VfsState := state_after demo_blocked VfsState_new.
Definition demo_end : VfsState := state_after demo_writes demo.

Lemma demo_reachable : reachable demo.
Proof. eapply (run_reachable demo_blocked). vm_compute. reflexivity. Qed.
Lemma demo_end_reachable : reachable demo_end.
Proof. eapply (run_reachable (demo_blocked ++ demo_writes)). vm_compute. reflexivity. Qed.

Lemma pipe_end_of_file_witness :
  ∃ ob p, get_object 0 demo_end = Some ob ∧ so_kind ob = KPipe p ∧
  (queue p ≠ [] → ∃ out rest wake st', queue p = out ++ rest ∧ len out = Z.min 3 (len (queue p)) ∧
     vfs_read_round 0 3 3 demo_end = (Returns (Some out), wake, st')) ∧
  (queue p = [] → nobody demo_end (writes 0) → vfs_read_round 0 3 3 demo_end = (Returns (Some []), [], demo_end)) ∧
  (queue p = [] → ¬ nobody demo_end (writes 0) →
     ∃ st', vfs_read_round 0 3 3 demo_end = (Waits, [], st') ∧ blocked 0 0 st').
Proof. apply (pipe_end_of_file demo_end 0 3 0 3); [apply demo_end_reachable|lia|vm_compute; reflexivity]. Defined.

Lemma pipe_write_end_witness :
  ∃ ob p, get_object 0 demo = Some ob ∧ so_kind ob = KPipe p ∧
  (nobody demo (reads 0) → vfs_write (λ _, true) 1 4 [1; 2] demo = (None, [], demo)) ∧
  (¬ nobody demo (reads 0) → ∃ n ob' p' st',
     n = Z.min (len [1; 2]) (PIPE_SIZE - len (queue p)) ∧
     vfs_write (λ _, true) 1 4 [1; 2] demo = (Some n, if 0 <? n then waiting_readers p else [], st') ∧
     get_object 0 st' = Some ob' ∧ so_kind ob' = KPipe p' ∧ queue p' = queue p ++ slice [1; 2] 0 n).
Proof. apply (pipe_write_end demo (λ _, true) 1 4 0 [1; 2]); [apply demo_reachable|vm_compute; reflexivity]. Defined.

Lemma fd_counts_exact_witness :
  (∀ o, get_object o demo_end = None ↔ nobody demo_end (refers o)) ∧
  (∀ o ob, get_object o demo_end = Some ob → refs ob = count [] demo_end (refers o)) ∧
  (∀ o ob p, get_object o demo_end = Some ob → so_kind ob = KPipe p →
    readers p = count [] demo_end (reads o) ∧ writers p = count [] demo_end (writes o)) ∧
  (∀ task fd e, current_entry task fd demo_end = Some e →
    ∃ ob, get_object (object e) demo_end = Some ob ∧ access_ok e (so_kind ob)).
Proof. apply (fd_counts_exact demo_end). apply demo_end_reachable. Defined.

Lemma commit_on_last_close_witness :
  (str "/a", str "xyz") ∈ (exec (OpClose 1 3) demo_end).1.2 ↔
  ∃ o ob f, get_object o demo_end = Some ob ∧ so_kind ob = KFile f ∧ f_writable f = true ∧ f_dirty f = true ∧
    f_path f = Some (str "/a") ∧ f_data f = str "xyz" ∧ nobody (exec (OpClose 1 3) demo_end).2 (refers o).
Proof.
  apply (commit_on_last_close (OpClose 1 3) demo_end (exec (OpClose 1 3) demo_end).1.1);
    [apply demo_end_reachable|done|vm_compute; reflexivity].
Defined.

Lemma no_lost_wakeup_witness : 0%nat ∈ [0%nat] ∨ blocked 0 0 demo_end.
Proof.
  apply (no_lost_wakeup 0 0 3 demo demo_writes [0%nat] [] demo_end).
  - apply demo_reachable.
  - vm_compute. eexists _, _. split_and!; [reflexivity|reflexivity|by left|reflexivity|reflexivity].
  - vm_compute. reflexivity.
  - repeat constructor; done.
  - apply run_steps. vm_compute. reflexivity.
Defined.
