(* ===== verification/Mmap.v ===== *)
(** * The memory system calls (src/src/syscall/core.rs)

    [sys_mmap], [sys_mprotect], [sys_mmap_file] and what [sys_thread_spawn_common]
    does to memory: the checks of their arguments, and the mapping operations they
    make on the address space in CR3.  The value [u64::MAX] reports failure. *)
From stdpp Require Import gmap functions.
From S2P Require Import Prelude UserLayout FrameAlloc Vmm VmmMem VmmInv VmmMap VmmOps VmmAccess VmmProtect UserMem Pipe FdTable.
Set Warnings "-clear-no-such-hyp".

Local Open Scope Z_scope.

Definition USER_PROT_WRITE : Z := 1.
Definition USER_PROT_EXEC : Z := 2.
Definition MAX_USER_MMAP_BYTES_PER_CALL : Z := 4 * 1024 * 1024.
Definition U64_MAX : Z := 2 ^ 64 - 1.

(** [len.checked_add(4095).map(|value| value & !4095)] *)
Definition round_up_pages (n : Z) : option Z := (λ x, Z.land x (Z.lnot 4095)) <$> checked_add 64 n 4095.
Definition has (flags bit : Z) : bool := negb (Z.land flags bit =? 0).
Definition pte_flags (flags : Z) : Z :=
  let fl := Z.lor PRESENT USER_ACCESSIBLE in
  let fl := if has flags USER_PROT_WRITE then Z.lor fl WRITABLE else fl in
  if has flags USER_PROT_EXEC then fl else Z.lor fl NO_EXECUTE.
(** Flags outside the two known, or both at once. *)
Definition prot_rejected (flags : Z) : bool :=
  has flags (Z.lnot (Z.lor USER_PROT_WRITE USER_PROT_EXEC)) || (has flags USER_PROT_WRITE && has flags USER_PROT_EXEC).

Section Syscalls.
Context {MP : Mapper}.

Definition sys_mmap (addr n flags : Z) (v : Vmm) : Z * Vmm :=
  if (addr =? 0) || (n =? 0) then (U64_MAX, v) else
  if prot_rejected flags then (U64_MAX, v) else
  match round_up_pages n with
  | None => (U64_MAX, v)
  | Some len_aligned =>
      if negb (valid_user_address_range addr len_aligned (MAX_USER_BUFFER * 64)) || negb (valid_user_mmap_range addr len_aligned) then (U64_MAX, v) else
      if MAX_USER_MMAP_BYTES_PER_CALL <? len_aligned then (U64_MAX, v) else
      let pml4 := current_pml4 v in
      if negb (can_add_owned_pages pml4 (len_aligned / 4096) v) then (U64_MAX, v) else
      match map_region pml4 addr len_aligned (pte_flags flags) v with
      | (Ok _, v) => (addr, v)
      | (Err _, v) => (U64_MAX, v)
      end
  end.

Definition sys_mprotect (addr n flags : Z) (v : Vmm) : Z * Vmm :=
  if (addr =? 0) || (n =? 0) || negb (Z.land addr 0xfff =? 0) then (U64_MAX, v) else
  if prot_rejected flags then (U64_MAX, v) else
  match round_up_pages n with
  | None => (U64_MAX, v)
  | Some len_aligned =>
      if negb (valid_user_address_range addr len_aligned (MAX_USER_BUFFER * 64)) || negb (valid_user_mmap_range addr len_aligned) then (U64_MAX, v) else
      match protect_region (current_pml4 v) addr len_aligned (pte_flags flags) v with
      | (Ok _, v) => (0, v)
      | (Err _, v) => (U64_MAX, v)
      end
  end.

(** One page of [sys_mmap_file]: [read] is [vfs_read_fd_at] on the descriptor. *)
Definition mmap_file_page (read : Z → option bytes) (pml4 va page_offset flags : Z) : ST Vmm unit unit := λ v,
  match alloc_zeroed_frame v with
  | (None, v) => (Err tt, v)
  | (Some frame, v) =>
      match read page_offset with
      | None => (Err tt, free_unmapped_frame frame v)
      | Some bs =>
          let v := set_mem (<[frame := splice (v_mem v frame) 0 bs]> (v_mem v)) v in
          match map_file_frame_in pml4 va frame flags v with
          | (Err _, v) => (Err tt, free_unmapped_frame frame v)
          | (Ok _, v) => (Ok tt, v)
          end
      end
  end.
Definition mmap_file_loop (read : Z → option bytes) (pml4 addr file_offset flags : Z) (offs : list Z) : ST Vmm unit unit :=
  for_each (λ offset v, match checked_add 64 file_offset offset with
    | None => (Err tt, v)
    | Some page_offset => mmap_file_page read pml4 (addr + offset) page_offset flags v
    end) offs.
Definition sys_mmap_file (task : nat) (fds : VfsState) (desc_ptr : Z) (v : Vmm) : Z * Vmm :=
  match user_descriptor5 desc_ptr v with
  | Some [fd; addr; n; file_offset; flags] =>
      if (addr =? 0) || (n =? 0) || negb (Z.land addr 0xfff =? 0) || negb (Z.land file_offset 0xfff =? 0) then (U64_MAX, v) else
      if has flags (Z.lnot USER_PROT_EXEC) then (U64_MAX, v) else
      match round_up_pages n with
      | None => (U64_MAX, v)
      | Some len_aligned =>
          if negb (valid_user_address_range addr len_aligned (MAX_USER_BUFFER * 64)) || negb (valid_user_mmap_range addr len_aligned) then (U64_MAX, v) else
          if MAX_USER_MMAP_BYTES_PER_CALL <? len_aligned then (U64_MAX, v) else
          let pml4 := current_pml4 v in
          if negb (can_add_owned_pages pml4 (len_aligned / 4096) v) then (U64_MAX, v) else
          let fl := Z.lor PRESENT USER_ACCESSIBLE in
          let fl := if has flags USER_PROT_EXEC then fl else Z.lor fl NO_EXECUTE in
          match mmap_file_loop (λ off, vfs_read_fd_at task (Z.to_nat fd) off 4096 fds) pml4 addr file_offset fl (page_offsets len_aligned) v with
          | (Ok _, v) => (addr, v)
          | (Err _, v) => (U64_MAX, v)
          end
      end
  | _ => (U64_MAX, v)
  end.

Definition valid_user_tls_base (base : Z) (v : Vmm) : bool :=
  if base =? 0 then true else
  (Z.land base 7 =? 0) && valid_user_address_range base 8 8 && bool_decide (user_range_accessible base 8 true v = Some true).
(** [sys_thread_spawn_common] up to the spawn: [pml4] and [slot] are the answers of
    [current_user_pml4] and [next_user_thread_stack_slot]; the result is the bottom of
    the stack and the stack pointer. *)
Definition thread_stack (entry_point tls_base flags : Z) (pml4 : option Z) (can_spawn : bool) (slot : option nat) (v : Vmm) : option (Z * Z) * Vmm :=
  if negb (flags =? 0) || (entry_point =? 0) || negb (valid_user_address_range entry_point 1 1) ||
     negb (bool_decide (user_range_accessible entry_point 1 false v = Some true)) || negb (valid_user_tls_base tls_base v) then (None, v) else
  match pml4 with
  | None => (None, v)
  | Some pml4 =>
      if negb can_spawn then (None, v) else
      match slot ≫= user_thread_stack_range with
      | None => (None, v)
      | Some (stack_bottom, stack_top) =>
          let fl := Z.lor PRESENT (Z.lor WRITABLE (Z.lor USER_ACCESSIBLE NO_EXECUTE)) in
          if negb (can_add_owned_pages pml4 (USER_STACK_SIZE / 4096) v) then (None, v) else
          match map_region pml4 stack_bottom USER_STACK_SIZE fl v with
          | (Err _, v) => (None, v)
          | (Ok _, v) =>
              let user_rsp := stack_top - 8 in
              match mjoin (user_copy_out user_rsp 8 (zeros 8) v) with
              | None => (None, v)
              | Some v => (Some (stack_bottom, user_rsp), v)
              end
          end
      end
  end.
End Syscalls.

(** ** Their arguments *)
(** Writable pages are not executable. *)
Definition wx_ok (flags : Z) : Prop := Z.testbit flags 1 = true → Z.testbit flags 63 = true.
Lemma has_bit flags k : 0 ≤ k → has flags (2 ^ k) = Z.testbit flags k.
Proof.
  intros Hk. unfold has. destruct (Z.testbit flags k) eqn:E.
  - apply negb_true_iff, Z.eqb_neq. intros H%(f_equal (λ x, Z.testbit x k)). rewrite Z.land_spec, E, Z.pow2_bits_true, Z.bits_0 in H by lia. done.
  - apply negb_false_iff, Z.eqb_eq. apply Z.bits_inj'. intros j Hj. rewrite Z.land_spec, Z.pow2_bits_eqb, Z.bits_0 by lia.
    destruct (Z.eqb_spec k j) as [->|]; [by rewrite E|by rewrite andb_false_r].
Qed.
Lemma pte_flags_ok flags : flags_ok (pte_flags flags) ∧ Z.testbit (pte_flags flags) 2 = true ∧ Z.testbit (pte_flags flags) 1 = has flags USER_PROT_WRITE ∧
  Z.testbit (pte_flags flags) 63 = negb (has flags USER_PROT_EXEC).
Proof. unfold pte_flags. destruct (has flags USER_PROT_WRITE), (has flags USER_PROT_EXEC); by vm_compute. Qed.
Lemma pte_flags_wx flags : prot_rejected flags = false → wx_ok (pte_flags flags).
Proof.
  unfold prot_rejected, wx_ok. intros [_ H]%orb_false_iff. destruct (pte_flags_ok flags) as (_ & _ & -> & ->).
  by destruct (has flags USER_PROT_WRITE), (has flags USER_PROT_EXEC).
Qed.

Lemma round_up_spec n len : 0 ≤ n → round_up_pages n = Some len → len mod PAGE_SIZE = 0 ∧ n ≤ len < n + PAGE_SIZE.
Proof.
  intros Hn. unfold round_up_pages, checked_add. destruct (Z.ltb_spec (n + 4095) (2 ^ 64)); [|done]. intros [= <-]. rewrite land_lnot_page.
  destruct (page_down_bounds (n + 4095)) as [Hb Hm]. unfold PAGE_SIZE in *. split; [done|lia].
Qed.
Lemma mmap_range_spec addr n : valid_user_mmap_range addr n = true → addr mod PAGE_SIZE = 0 ∧ n mod PAGE_SIZE = 0 ∧ n ≠ 0 ∧ USER_MMAP_BASE ≤ addr ∧ addr + n ≤ USER_MMAP_TOP.
Proof.
  unfold valid_user_mmap_range. destruct (Z.eqb_spec (Z.land addr 0xfff) 0) as [H1%land_aligned|]; [|done]. destruct (Z.eqb_spec n 0); [done|].
  destruct (Z.eqb_spec (Z.land n 0xfff) 0) as [H2%land_aligned|]; [|done]. cbn [negb orb].
  unfold checked_add. destruct (addr + n <? 2 ^ 64); [|done]. rewrite andb_true_iff, !Z.leb_le. naive_solver.
Qed.
Lemma mmap_root a : USER_MMAP_BASE ≤ a < USER_MMAP_TOP → user_root (pt_index 4 a) ∧ 0 ≤ a < 2 ^ 48.
Proof. unfold USER_MMAP_BASE, USER_MMAP_TOP. intros Ha. apply image_root. lia. Qed.

(** ** [sys_mmap] *)
Section Spec.
Context {MP : Mapper} {MS : MapperSpec}.

Lemma map_region_ok p va n flags v g r v' : vmm_ok v g → flags_ok flags → g_perm g flags → live p v → va mod PAGE_SIZE = 0 → 0 ≤ n → n mod PAGE_SIZE = 0 →
  (∀ a, va ≤ a < va + n → user_root (pt_index 4 a) ∧ 0 ≤ a < 2 ^ 48) → map_region p va n flags v = (r, v') →
  ∃ g', after p v g v' g' ∧ adds p (map (λ o, va + o) (page_offsets n)) v v' ∧ (is_ok r = true → ∃ fs, NoDup fs ∧ (∀ f, f ∈ fs → ¬ kept v g f) ∧
    pages_placed p flags (map (λ o, (va + o, zeros PAGE_SIZE)) (page_offsets n)) fs v').
Proof.
  intros H F Fp HL Hva Hn Hnm HR. unfold map_region. destruct (can_add_owned_pages _ _ _); simpl.
  2:{ intros [= <- <-]. exists g. split_and!; [by apply after_refl| |done]. eapply adds_mono; [|by apply adds_eq]. by intros x ?%elem_of_nil. }
  intros E. assert (Hin : ∀ o, o ∈ page_offsets n → (user_root (pt_index 4 (va + o)) ∧ 0 ≤ va + o < 2 ^ 48) ∧ page_down (va + o) = va + o).
  { intros o [Ho Hm]%elem_of_page_offsets; [|done]. split; [apply HR; lia|]. apply page_down_aligned. by rewrite Z.add_mod, Hva, Hm. }
  apply (map_pages_ok p va flags (page_offsets n) v g) in E as (g' & A & D & X); [|done..|apply Forall_forall; intros o Ho; by apply Hin].
  exists g'. split_and!; [done| |done]. eapply adds_mono; [|exact D]. intros x (o & -> & Ho)%list_elem_of_fmap. rewrite (proj2 (Hin o Ho)). apply list_elem_of_fmap. eauto.
Qed.

(** The pages of [v'] were there, or are pages of the range in [p]. *)
Definition adds_range (p addr n : Z) (v v' : Vmm) : Prop :=
  ∀ q a, live q v → user_root (pt_index 4 a) → 0 ≤ a < 2 ^ 48 → present (v_mem v') q a → present (v_mem v) q a ∨ q = p ∧ addr ≤ a < addr + n.
Lemma adds_offsets p addr n v v' : addr mod PAGE_SIZE = 0 → 0 ≤ n → n mod PAGE_SIZE = 0 → adds p (map (λ o, addr + o) (page_offsets n)) v v' → adds_range p addr n v v'.
Proof. intros Ha Hn Hm D q a Hq Hr Hb Hp. destruct (D q a Hq Hr Hb Hp) as [?|[-> Hin]]; [by left|right]. by apply page_in_offsets in Hin. Qed.

Lemma sys_mmap_ok addr n flags v g r v' : vmm_ok v g → (∀ fl, wx_ok fl → g_perm g fl) → live (v_cr3 v) v → 0 ≤ addr → 0 ≤ n →
  sys_mmap addr n flags v = (r, v') →
  ∃ g', after (v_cr3 v) v g v' g' ∧ adds_range (v_cr3 v) addr (page_down (n + 4095)) v v' ∧ (r = U64_MAX ∨
    r = addr ∧ addr mod PAGE_SIZE = 0 ∧ USER_MMAP_BASE ≤ addr ∧ 0 < n ∧ addr + n ≤ USER_MMAP_TOP ∧ prot_rejected flags = false ∧
    ∃ fs, pages_placed (v_cr3 v) (pte_flags flags) (map (λ o, (addr + o, zeros PAGE_SIZE)) (page_offsets (page_down (n + 4095)))) fs v').
Proof.
  intros H Fw HL Ha Hn. unfold sys_mmap.
  assert (Hfail : (U64_MAX, v) = (r, v') → ∃ g', after (v_cr3 v) v g v' g' ∧ adds_range (v_cr3 v) addr (page_down (n + 4095)) v v' ∧ r = U64_MAX).
  { intros [= <- <-]. exists g. split_and!; [by apply after_refl| |done]. intros q a _ _ _ ?. by left. }
  destruct (Z.eqb_spec addr 0); [naive_solver|]. destruct (Z.eqb_spec n 0); [naive_solver|]. cbn [orb]. destruct (prot_rejected flags) eqn:Er; [naive_solver|].
  destruct (round_up_pages n) as [ln|] eqn:El; [|naive_solver].
  destruct (valid_user_address_range addr ln (MAX_USER_BUFFER * 64)); [|naive_solver]. destruct (valid_user_mmap_range addr ln) eqn:Em; [|naive_solver]. cbn [negb orb].
  case_match; [naive_solver|]. destruct (can_add_owned_pages _ _ _); [|naive_solver]. cbn [negb]. clear Hfail.
  destruct (round_up_spec n ln Hn El) as [L1 L2]. destruct (mmap_range_spec addr ln Em) as (M1 & M2 & M3 & M4 & M5).
  assert (Eln : ln = page_down (n + 4095)).
  { unfold round_up_pages, checked_add in El. destruct (n + 4095 <? 2 ^ 64); [|done]. injection El as <-. apply land_lnot_page. }
  destruct (pte_flags_ok flags) as (F & _). unfold current_pml4. destruct (map_region (v_cr3 v) addr ln (pte_flags flags) v) as [r1 v1] eqn:E.
  apply (map_region_ok (v_cr3 v) addr ln (pte_flags flags) v g) in E as (g' & A & D & X); [|done|done|by apply Fw, pte_flags_wx|done|done|lia|done|intros a Ha'; apply mmap_root; lia].
  rewrite <-Eln. apply adds_offsets in D; [|done|lia|done]. destruct r1 as [[]|e]; intros [= <- <-]; exists g'; (split_and!; [done|done|]); [right|by left].
  destruct (X eq_refl) as (fs & _ & _ & Hfs). split_and!; [done|done|lia|lia|lia|done|eauto].
Qed.

(** ** [sys_mmap_file] *)
Lemma update_space_frames p h l : (∀ s, space_frames (h s) = space_frames s) → map space_frames (update_space p h l) = map space_frames l.
Proof. intros Hh. induction l as [|s l IH]; [done|]. simpl. destruct (is_space p s); simpl; [by rewrite Hh|by rewrite IH]. Qed.
Lemma record_file_ok p v g : vmm_ok v g → vmm_ok (record_file_backed_page p v) g.
Proof.
  intros H. unfold record_file_backed_page. set (h := λ s, {| as_pml4 := _; as_tables := _; as_leaves := _; as_file_backed := _ |}).
  apply (vmm_ok_respace v g g p h H); [done| |done|done|by left|done|by left]. unfold all_frames. cbn [v_alloc v_spaces v_boot set_spaces]. by rewrite (update_space_frames p h).
Qed.
Lemma record_file_spaces p v s : (s ∈ v_spaces v → ∃ s', s' ∈ v_spaces (record_file_backed_page p v) ∧ as_pml4 s' = as_pml4 s ∧ as_leaves s' = as_leaves s).
Proof.
  unfold record_file_backed_page. simpl. induction (v_spaces v) as [|s0 l IH]; [by intros ?%elem_of_nil|]. simpl. intros [->|Hs]%elem_of_cons.
  - destruct (is_space p s0); eexists; (split; [left|done]).
  - destruct (is_space p s0); [exists s; split; [by right|done]|]. destruct (IH Hs) as (s' & ? & ?). exists s'. split; [by right|done].
Qed.
Lemma record_file_roots p v : map as_pml4 (v_spaces (record_file_backed_page p v)) = map as_pml4 (v_spaces v).
Proof. unfold record_file_backed_page. simpl. induction (v_spaces v) as [|s l IH]; [done|]. simpl. destruct (is_space p s); simpl; by rewrite ?IH. Qed.
Lemma record_file_after p v g v1 g1 : after p v g v1 g1 → after p v g (record_file_backed_page p v1) g1.
Proof.
  intros [[A1 A2 A3 A4 A5 A5' A5'' A6 A7] Hh Hu]. split; [split; try done|done|done].
  - by apply record_file_ok.
  - by rewrite record_file_roots.
  - intros s Hs. rewrite <-(A5'' s Hs). by apply update_space_others.
  - intros s Hs. destruct (A6 s Hs) as (s1 & Hs1 & E1 & I1). destruct (record_file_spaces p v1 s1 Hs1) as (s2 & Hs2 & E2 & I2). exists s2. split_and!; [done|congruence|].
    rewrite I2. done.
Qed.
Lemma record_file_placed p q va flags f d v : placed q va flags f d v → placed q va flags f d (record_file_backed_page p v).
Proof.
  intros [M D (s & Hs & Hp & Hf)]. split; [done|done|]. destruct (record_file_spaces p v s Hs) as (s' & Hs' & E & I). exists s'. split_and!; [done|congruence|by rewrite I].
Qed.

(** A page of a file, zeros after its end. *)
Definition file_page (bs : bytes) : bytes := bs ++ zeros (PAGE_SIZE - len bs).
Lemma file_page_splice bs : len bs ≤ PAGE_SIZE → splice (zeros PAGE_SIZE) 0 bs = file_page bs.
Proof.
  intros Hl. unfold splice, file_page, zeros, len in *. change (Z.to_nat 0) with 0%nat. rewrite take_0, app_nil_l, Nat.add_0_l, drop_replicate. do 2 f_equal. lia.
Qed.
Lemma file_page_ok bs : len bs ≤ PAGE_SIZE → Forall is_byte bs → page_ok (file_page bs).
Proof.
  intros Hl Hb. unfold file_page. split; [rewrite len_app, len_zeros; lia|]. apply Forall_app_2; [done|apply zeros_is_byte].
Qed.

(** What the descriptor's reads give: whole pages of bytes. *)
Definition reads_ok (read : Z → option bytes) : Prop := ∀ off bs, read off = Some bs → len bs ≤ PAGE_SIZE ∧ Forall is_byte bs.

Lemma mmap_file_page_ok read p va off flags v g r v' : reads_ok read → vmm_ok v g → flags_ok flags → g_perm g flags → live p v → user_root (pt_index 4 va) → 0 ≤ va < 2 ^ 48 →
  mmap_file_page read p va off flags v = (r, v') →
  ∃ g', after p v g v' g' ∧ adds p [page_down va] v v' ∧ (is_ok r = true → ∃ f bs, read off = Some bs ∧ placed p va flags f (file_page bs) v').
Proof.
  intros Hrd H F Fp HL HR Hva. unfold mmap_file_page. destruct (alloc_zeroed_frame v) as [[f|] v1] eqn:E.
  2:{ intros [= <- <-]. exists g. split_and!; [by eapply alloc_none_after| |done]. eapply adds_mono; [by intros x ?%elem_of_nil|].
      apply adds_eq. by destruct (alloc_zeroed_none v g v1 H E) as (_ & ? & _). }
  pose proof (alloc_zeroed_taken p v g f v1 H E) as T. destruct (read off) as [bs|] eqn:Eb.
  2:{ intros [= <- <-]. exists g. split_and!; [by eapply taken_freed| |done]. eapply adds_mono; [by intros x ?%elem_of_nil|].
      pose proof (adds_same p v (holding f g) v1 (pr_ok _ _ _ _ _ (tk_progress _ _ _ _ _ _ T)) (pr_roots _ _ _ _ _ (tk_progress _ _ _ _ _ _ T)) (tk_mem _ _ _ _ _ _ T)) as D.
      unfold free_unmapped_frame. by destruct (v_alloc v1). }
  destruct (Hrd off bs Eb) as [Hl Hb]. rewrite (tk_data _ _ _ _ _ _ T), file_page_splice by done.
  pose proof (taken_fill p v g f _ (file_page bs) v1 T (file_page_ok bs Hl Hb)) as T2. set (v2 := set_mem _ v1) in *. unfold map_file_frame_in, bind.
  destruct (map_owned_frame_in p va f flags v2) as [r3 v3] eqn:E3. destruct (taken_map p v g va f flags _ v2 r3 v3 T2 F Fp HL HR Hva E3) as (g' & _ & A & X).
  destruct r3 as [[]|e]; simpl in *; intros [= <- <-]; exists g'.
  - destruct X as [X1 X2]. split_and!; [by apply record_file_after|done|]. intros _. exists f, bs. split; [done|by apply record_file_placed].
  - split_and!; [done| |done]. eapply adds_mono; [by intros x ?%elem_of_nil|]. unfold free_unmapped_frame. by destruct (v_alloc v3).
Qed.

Lemma mmap_file_loop_ok read p addr foff flags offs : reads_ok read → flags_ok flags → ∀ v g r v', vmm_ok v g → g_perm g flags → live p v →
  Forall (λ o, user_root (pt_index 4 (addr + o)) ∧ 0 ≤ addr + o < 2 ^ 48) offs → mmap_file_loop read p addr foff flags offs v = (r, v') →
  ∃ g', after p v g v' g' ∧ adds p (map (λ o, page_down (addr + o)) offs) v v' ∧
    (is_ok r = true → ∀ o, o ∈ offs → ∃ f bs, read (foff + o) = Some bs ∧ placed p (addr + o) flags f (file_page bs) v').
Proof.
  intros Hrd F. unfold mmap_file_loop. induction offs as [|o offs IH]; intros v g r v' H Fp HL HR.
  - intros [= <- <-]. exists g. split_and!; [by apply after_refl|by apply adds_eq|]. by intros _ o ?%elem_of_nil.
  - cbn [for_each]. apply Forall_cons in HR as [[HR1 HB1] HR2]. unfold bind at 1. unfold checked_add at 1. destruct (foff + o <? 2 ^ 64).
    2:{ intros [= <- <-]. exists g. split_and!; [by apply after_refl| |done]. eapply adds_mono; [|by apply adds_eq]. by intros x ?%elem_of_nil. }
    destruct (mmap_file_page read p (addr + o) (foff + o) flags v) as [r1 v1] eqn:E.
    destruct (mmap_file_page_ok read p (addr + o) (foff + o) flags v g r1 v1 Hrd H F Fp HL HR1 HB1 E) as (g1 & A1 & D1 & X1). destruct r1 as [[]|e].
    2:{ intros [= <- <-]. exists g1. split_and!; [done| |done]. eapply adds_mono; [|done]. intros x ->%list_elem_of_singleton. left. }
    intros E2. pose proof (pr_ok _ _ _ _ _ (af_progress _ _ _ _ _ A1)) as H1. pose proof (pr_roots _ _ _ _ _ (af_progress _ _ _ _ _ A1)) as ER.
    apply (IH v1 g1) in E2 as (g2 & A2 & D2 & X2); [|done|by eapply perm_env; [apply (pr_all _ _ _ _ _ (af_progress _ _ _ _ _ A1))|]|by eapply live_roots|done].
    exists g2. split_and!; [by eapply after_trans|exact (adds_trans p [_] _ v v1 v' ER D1 D2)|]. intros Er x [->|Hx]%elem_of_cons; [|by apply X2].
    destruct (X1 eq_refl) as (f & bs & Eb & Hpl). exists f, bs. split; [done|]. eapply placed_progress; [exact H1|done|apply A2|exact Hpl|done|]. eapply owns_frame_ok; [exact H1|apply Hpl].
Qed.
End Spec.
