(* ===== verification/MmapOps.v ===== *)
(** * What the memory system calls do

    The effect of [sys_mprotect], [sys_mmap_file] and the stack of a new thread on
    the address space in CR3, and what the program then reads and may write in the
    pages they map. *)
From stdpp Require Import gmap functions.
From S2P Require Import Prelude Text UserLayout FrameAlloc Vmm VmmMem VmmInv VmmMap VmmOps VmmAccess VmmProtect UserMem Pipe FdTable Mmap.
Set Warnings "-clear-no-such-hyp".

Local Open Scope Z_scope.

(** ** Pages in use *)
Lemma mapped_readonly m p va f flags a : mapped m p va f flags → frame_ok f → flags_ok flags → Z.testbit flags 1 = false → page_down a = page_down va → user_access p a true m = None.
Proof.
  intros (t1 & HP & HE) Hf F F2 Ea. inversion HP as [|? ? l3 ? L4 P3]; subst. inversion P3 as [|? ? l2 ? L3 P2]; subst.
  inversion P2 as [|? ? l1 ? L2 P1]; subst. inversion P1; subst. unfold user_access. rewrite !(pt_index_same _ a va) by (done || lia).
  rewrite (proj1 L4), (proj1 L3), (proj1 (proj2 L3)), (proj1 L2), (proj1 (proj2 L2)), HE. repeat (case_match; [done|]); try done.
  exfalso. match goal with H : negb (permits (Z.lor _ _) true) = false |- _ => revert H end. unfold permits. rewrite !lor_frame_bit by done.
  rewrite F2, !andb_false_r. done.
Qed.

(** A page placed for a user with some flags: what is read, and what may be written. *)
Lemma placed_load v g p va flags f d a : vmm_ok v g → placed p va flags f d v → flags_ok flags → Z.testbit flags 2 = true → page_down a = page_down va →
  user_load p a (v_mem v) = Some (nthZ d (a mod PAGE_SIZE)) ∧ (is_Some (user_access p a true (v_mem v)) ↔ Z.testbit flags 1 = true).
Proof.
  intros H P F F2 Ea. split.
  - unfold user_load. destruct (placed_access v g p va flags f d a false H P F F2 ltac:(done) Ea) as [-> E]. simpl. by f_equal.
  - destruct (Z.testbit flags 1) eqn:E1.
    + destruct (placed_access v g p va flags f d a true H P F F2 ltac:(done) Ea) as [-> _]. split; [done|eauto].
    + rewrite (mapped_readonly (v_mem v) p va f flags a); [|apply P|by eapply owns_frame_ok; [done|apply P]|done..]. split; [by intros [? ?]|done].
Qed.
Lemma page_of a va : va mod PAGE_SIZE = 0 → va ≤ a → page_down a = va + page_down (a - va) ∧ (a - va) mod PAGE_SIZE = a mod PAGE_SIZE ∧ page_down (a - va) mod PAGE_SIZE = 0.
Proof.
  intros Hva Ha. assert (E : (a - va) mod PAGE_SIZE = a mod PAGE_SIZE).
  { rewrite Zminus_mod, Hva, Z.sub_0_r. apply Z.mod_mod. done. }
  split_and!; [unfold page_down; rewrite E; lia|done|apply page_down_bounds].
Qed.
Lemma page_of_offset a va n : va mod PAGE_SIZE = 0 → 0 ≤ n → n mod PAGE_SIZE = 0 → va ≤ a < va + n → page_down (a - va) ∈ page_offsets n ∧ page_down (va + page_down (a - va)) = page_down a.
Proof.
  intros Hva Hn Hnm Ha. destruct (page_of a va Hva) as (E1 & E2 & E3); [lia|]. pose proof (page_down_bounds (a - va)) as [Hb _]. split.
  - apply elem_of_page_offsets; [done|]. split; [|done]. pose proof (Z.mod_pos_bound (a - va) PAGE_SIZE ltac:(done)). unfold PAGE_SIZE in *.
    assert (0 ≤ page_down (a - va)); [|lia]. unfold page_down, PAGE_SIZE. pose proof (Z.mod_le (a - va) 4096). lia.
  - rewrite <-E1. apply page_down_aligned. apply page_down_bounds.
Qed.
Lemma pages_placed_at v p va n flags d fs a : va mod PAGE_SIZE = 0 → 0 ≤ n → n mod PAGE_SIZE = 0 →
  pages_placed p flags (map (λ o, (va + o, d)) (page_offsets n)) fs v → va ≤ a < va + n → ∃ x f, placed p x flags f d v ∧ page_down x = page_down a.
Proof.
  intros Hva Hn Hnm P Ha. destruct (page_of_offset a va n Hva Hn Hnm Ha) as [Ho Ep]. apply list_elem_of_lookup in Ho as (k & Hk).
  destruct (Forall2_lookup_l _ _ _ k (va + page_down (a - va), d) P) as (f & _ & Hpl); [by rewrite list_lookup_fmap, Hk|]. eauto.
Qed.
Lemma pages_placed_load v g p va n flags fs a : vmm_ok v g → flags_ok flags → Z.testbit flags 2 = true → va mod PAGE_SIZE = 0 → 0 ≤ n → n mod PAGE_SIZE = 0 →
  pages_placed p flags (map (λ o, (va + o, zeros PAGE_SIZE)) (page_offsets n)) fs v → va ≤ a < va + n →
  user_load p a (v_mem v) = Some 0 ∧ (is_Some (user_access p a true (v_mem v)) ↔ Z.testbit flags 1 = true).
Proof.
  intros H F F2 Hva Hn Hnm P Ha. destruct (pages_placed_at v p va n flags _ fs a Hva Hn Hnm P Ha) as (x & f & Hpl & Ep).
  destruct (placed_load v g _ _ _ _ _ a H Hpl F F2 (eq_sym Ep)) as [-> Hw]. split; [by rewrite nthZ_zeros|done].
Qed.

(** ** [sys_mprotect] *)
(** The bytes a call rounds its length up to. *)
Definition pages_of (n : Z) : Z := page_down (n + 4095).
Lemma round_up_pages_of n ln : round_up_pages n = Some ln ↔ n + 4095 < 2 ^ 64 ∧ ln = pages_of n.
Proof.
  unfold round_up_pages, checked_add, pages_of. destruct (Z.ltb_spec (n + 4095) (2 ^ 64)); simpl; rewrite ?land_lnot_page; [naive_solver|].
  split; [done|lia].
Qed.
Lemma pages_of_spec n : 0 ≤ n → pages_of n mod PAGE_SIZE = 0 ∧ n ≤ pages_of n < n + PAGE_SIZE.
Proof. intros Hn. unfold pages_of. destruct (page_down_bounds (n + 4095)) as [Hb Hm]. unfold PAGE_SIZE in *. split; [done|lia]. Qed.
(** The ranges [sys_mmap] and [sys_mprotect] accept. *)
Definition arena (addr n : Z) : Prop := addr mod PAGE_SIZE = 0 ∧ 0 < n ∧ pages_of n ≤ MAX_USER_BUFFER * 64 ∧ USER_MMAP_BASE ≤ addr ∧ addr + pages_of n ≤ USER_MMAP_TOP.
Lemma arena_iff addr n : 0 ≤ addr < 2 ^ 64 → 0 < n < 2 ^ 64 →
  n + 4095 < 2 ^ 64 → valid_user_address_range addr (pages_of n) (MAX_USER_BUFFER * 64) && valid_user_mmap_range addr (pages_of n) = true ↔ arena addr n.
Proof.
  intros Ha Hn Hs. destruct (pages_of_spec n) as [P1 P2]; [lia|]. rewrite andb_true_iff, valid_range_iff by (unfold PAGE_SIZE in *; lia). split.
  - intros [(V1 & V2 & V3) (M1 & M2 & M3 & M4 & M5)%mmap_range_spec]. unfold arena. split_and!; [done|lia..].
  - intros (A1 & A2 & A3 & A4 & A5). unfold USER_MMAP_BASE, USER_MMAP_TOP, USER_TOP, PAGE_SIZE in *. split; [split_and!; lia|].
    unfold valid_user_mmap_range. rewrite (proj2 (Z.eqb_eq _ _) (proj2 (land_aligned addr) A1)), (proj2 (Z.eqb_eq _ _) (proj2 (land_aligned (pages_of n)) P1)), (proj2 (Z.eqb_neq (pages_of n) 0)) by lia.
    cbn [negb orb]. unfold checked_add. rewrite (proj2 (Z.ltb_lt (addr + pages_of n) _)) by lia. unfold USER_MMAP_BASE, USER_MMAP_TOP. rewrite andb_true_iff, !Z.leb_le. lia.
Qed.

Section Calls.
Context {MP : Mapper} {MS : MapperSpec}.

Lemma sys_mprotect_ok addr n flags v g r v' : vmm_ok v g → (∀ fl, wx_ok fl → g_perm g fl) → live (v_cr3 v) v → 0 ≤ addr < 2 ^ 64 → 0 ≤ n < 2 ^ 64 →
  sys_mprotect addr n flags v = (r, v') →
  vmm_ok v' g ∧ v' = set_mem (v_mem v') v ∧ (∀ f, g_own g !! f = None → v_mem v' f = v_mem v f) ∧ (∀ f, unmapped f (v_mem v) g → unmapped f (v_mem v') g) ∧
  (∀ q a, live q v → 0 ≤ a < 2 ^ 48 → user_access q a false (v_mem v') = user_access q a false (v_mem v)) ∧
  (∀ q a w, live q v → 0 ≤ a < 2 ^ 48 → ¬ (q = v_cr3 v ∧ addr ≤ a < addr + pages_of n) → user_access q a w (v_mem v') = user_access q a w (v_mem v)) ∧
  (r = 0 ∨ r = U64_MAX) ∧
  (r = 0 ↔ arena addr n ∧ prot_rejected flags = false ∧ ∀ a, addr ≤ a < addr + pages_of n → is_Some (user_access (v_cr3 v) a false (v_mem v))) ∧
  (r = 0 → ∀ a, addr ≤ a < addr + pages_of n → ∃ pa, user_access (v_cr3 v) a false (v_mem v) = Some pa ∧ user_access (v_cr3 v) a false (v_mem v') = Some pa ∧
    if has flags USER_PROT_WRITE then user_access (v_cr3 v) a true (v_mem v) = Some pa → user_access (v_cr3 v) a true (v_mem v') = Some pa
    else user_access (v_cr3 v) a true (v_mem v') = None).
Proof.
  intros H Fw HL Ha Hn. unfold sys_mprotect.
  assert (Hfail : ¬ (arena addr n ∧ prot_rejected flags = false) → (U64_MAX, v) = (r, v') → vmm_ok v' g ∧ v' = set_mem (v_mem v') v ∧ v_mem v' = v_mem v ∧ r = U64_MAX ∧ ¬ (arena addr n ∧ prot_rejected flags = false)).
  { intros Hx [= <- <-]. split_and!; [done|by destruct v|done|done|done]. }
  assert (HU : U64_MAX ≠ 0) by done.
  match goal with |- _ → ?G => assert (Hdone : vmm_ok v' g ∧ v' = set_mem (v_mem v') v ∧ v_mem v' = v_mem v ∧ r = U64_MAX ∧ ¬ (arena addr n ∧ prot_rejected flags = false) → G) end.
  1: (intros (D1 & D2 & D3 & D4 & D5); split_and!; [exact D1|exact D2|by rewrite D3|by rewrite D3|by rewrite D3|by rewrite D3|by right|split; [congruence|by intros (? & ? & _); destruct D5]|by rewrite D4]).
  destruct (Z.eqb_spec addr 0); [intros E; apply Hdone, Hfail; [|done]; intros [(_ & _ & _ & ? & _) _]; unfold USER_MMAP_BASE in *; lia|].
  destruct (Z.eqb_spec n 0); [intros E; apply Hdone, Hfail; [|done]; intros [(_ & ? & _) _]; lia|]. cbn [orb].
  destruct (Z.eqb_spec (Z.land addr 0xfff) 0) as [Eal|Eal]; [|intros E; apply Hdone, Hfail; [|done]; intros [(?%land_aligned & _) _]; done]. cbn [negb].
  destruct (prot_rejected flags) eqn:Er; [intros E; apply Hdone, Hfail; [naive_solver|done]|].
  destruct (round_up_pages n) as [ln|] eqn:El.
  2:{ intros E. apply Hdone, Hfail; [|done]. intros [(_ & _ & ? & _) _]. destruct (pages_of_spec n); [lia|]. pose proof (proj2 (round_up_pages_of n (pages_of n))) as Hx.
      rewrite El in Hx. discriminate Hx. split; [|done]. unfold MAX_USER_BUFFER, PAGE_SIZE in *. lia. }
  apply round_up_pages_of in El as [Hs ->]. pose proof (arena_iff addr n ltac:(lia) ltac:(lia) Hs) as HA. rewrite <-negb_andb.
  destruct (valid_user_address_range _ _ _ && valid_user_mmap_range _ _); [|intros E; apply Hdone, Hfail; [|done]; intros [Hx _]; by apply HA in Hx]. cbn [negb].
  clear Hfail Hdone. pose proof (proj1 HA eq_refl) as HAr. pose proof HAr as (A1 & A2 & A3 & A4 & A5). destruct (pages_of_spec n) as [P1 P2]; [lia|].
  destruct (pte_flags_ok flags) as (F & F2 & F1 & _). unfold current_pml4. destruct (protect_region (v_cr3 v) addr (pages_of n) (pte_flags flags) v) as [r1 v1] eqn:E.
  apply (protect_region_spec (v_cr3 v) addr (pages_of n) (pte_flags flags) v g) in E as (S1 & S2 & S3 & S3' & S3'' & S4 & S5 & S6); [|done|done|done|by apply Fw, pte_flags_wx|done|lia|lia|unfold USER_MMAP_TOP in *; lia].
  rewrite F1 in S6. destruct r1 as [[]|e]; intros [= <- <-]; (split_and!; [done|done|done|done|done|done|auto| |]).
  - split; [|done]. intros _. split_and!; [done|done|]. by apply S5.
  - by intros _; apply S6.
  - split; [done|]. intros (_ & _ & Hx). cut (false = true); [done|]. apply S5. split_and!; [done|lia|done|done].
  - done.
Qed.

(** ** [sys_mmap_file] *)
Lemma user_slice_bytes ptr n mx v bs : (∀ h, page_ok (v_mem v h)) → mjoin (user_slice ptr n mx v) = Some bs → Forall is_byte bs.
Proof.
  intros Hm. unfold user_slice. destruct (validate_user_range _ _ _ _ _) as [[]|]; [|done..]. destruct (mapM _ _) as [l|] eqn:E; [|done]. cbn. intros [= ->]. apply mapM_Some in E. apply Forall_forall. intros b (i & Hi)%list_elem_of_lookup.
  destruct (Forall2_lookup_r _ _ _ i b E Hi) as (x & _ & Hx). unfold kernel_load in Hx. destruct (kernel_access _ _ _); [|done]. injection Hx as <-.
  unfold load_byte. apply nthZ_is_byte. apply Hm.
Qed.
Lemma u64_at_bound bs off : Forall is_byte bs → 0 ≤ u64_at bs off < 2 ^ 64.
Proof.
  intros Hb. unfold u64_at. assert (HF : Forall is_byte (slice bs off 8)) by (unfold slice; auto using Forall_take, Forall_drop).
  pose proof (le_val_bound _ HF) as Hv. assert (Hl : len (slice bs off 8) ≤ 8) by (unfold len, slice; rewrite length_take; lia).
  pose proof (Z.pow_le_mono_r 256 (len (slice bs off 8)) 8 ltac:(lia) Hl). change (2 ^ 64) with (256 ^ 8). lia.
Qed.
Lemma user_descriptor5_bound ptr v l : (∀ h, page_ok (v_mem v h)) → user_descriptor5 ptr v = Some l → Forall (λ x, 0 ≤ x < 2 ^ 64) l.
Proof.
  intros Hm. unfold user_descriptor5. destruct (mjoin (user_slice ptr 40 40 v)) as [bs|] eqn:E; [|done]. intros [= <-].
  apply user_slice_bytes in E; [|done]. repeat constructor; by apply u64_at_bound.
Qed.

(** What the file behind a descriptor holds. *)
Definition file_data (task fd : nat) (fds : VfsState) : option bytes :=
  entry ← current_entry task fd fds; ob ← get_object (object entry) fds;
  match so_kind ob, access entry with KFile f, FdFile => if f_writable f then None else Some (f_data f) | _, _ => None end.
Lemma read_fd_at_data task fd off fds : 0 ≤ off → vfs_read_fd_at task fd off 4096 fds = (λ d, slice d off 4096) <$> file_data task fd fds.
Proof.
  intros Ho. unfold vfs_read_fd_at, file_data. destruct (current_entry task fd fds) as [e|]; [|done]. simpl. destruct (get_object (object e) fds) as [ob|]; [|done]. simpl.
  destruct (so_kind ob) as [f|]; [|done]. destruct (FdTable.access e); [|done..]. destruct (f_writable f); [done|]. simpl. unfold slice, len.
  destruct (Z.leb_spec (Z.of_nat (length (f_data f))) off).
  - by rewrite drop_ge, take_nil by lia.
  - f_equal. rewrite !take_drop_commute. f_equal.
    destruct (Z.min_spec (Z.of_nat (length (f_data f)) - off) 4096) as [[? ->]|[? ->]]; [|done]. rewrite !take_ge by lia. done.
Qed.
Lemma reads_ok_data task fd fds : (∀ d, file_data task fd fds = Some d → Forall is_byte d) → reads_ok (λ off, vfs_read_fd_at task fd off 4096 fds).
Proof.
  intros Hd off bs. unfold vfs_read_fd_at, file_data in *. destruct (current_entry task fd fds) as [e|]; [|done]. simpl in *. destruct (get_object (object e) fds) as [ob|]; [|done]. simpl in *.
  destruct (so_kind ob) as [f|]; [|done]. destruct (FdTable.access e); [|done..]. destruct (f_writable f); [done|]. case_match; intros [= <-]; [done|].
  split; [unfold len, slice, PAGE_SIZE; rewrite length_take; lia|]. unfold slice. auto using Forall_take, Forall_drop.
Qed.
Lemma nthZ_file_page d off i : 0 ≤ off → 0 ≤ i < PAGE_SIZE → nthZ (file_page (slice d off 4096)) i = nthZ d (off + i).
Proof.
  intros Ho Hi. unfold file_page, nthZ, slice, len. rewrite !nth_lookup. unfold PAGE_SIZE in *.
  destruct (decide (off + i < Z.of_nat (length d))) as [Hl|Hl].
  - rewrite lookup_app_l by (rewrite length_take, length_drop; lia). rewrite lookup_take_lt, lookup_drop by lia. do 2 f_equal. lia.
  - rewrite lookup_app_r by (rewrite length_take, length_drop; lia). rewrite (lookup_ge_None_2 d) by lia. simpl. unfold zeros.
    destruct (replicate _ _ !! _) eqn:E; [|done]. by apply lookup_replicate in E as [-> _].
Qed.
Lemma sys_mmap_file_ok task fds desc v g r v' : vmm_ok v g → (∀ fl, wx_ok fl → g_perm g fl) → live (v_cr3 v) v →
  (∀ fd d, file_data task fd fds = Some d → Forall is_byte d) → sys_mmap_file task fds desc v = (r, v') →
  ∃ g', after (v_cr3 v) v g v' g' ∧ (r = U64_MAX ∨ ∃ fd n off flags d, user_descriptor5 desc v = Some [fd; r; n; off; flags] ∧
    arena r n ∧ off mod PAGE_SIZE = 0 ∧ adds (v_cr3 v) (map (λ o, r + o) (page_offsets (pages_of n))) v v' ∧ file_data task (Z.to_nat fd) fds = Some d ∧
    ∀ a, r ≤ a < r + pages_of n → user_load (v_cr3 v) a (v_mem v') = Some (nthZ d (off + (a - r))) ∧ user_access (v_cr3 v) a true (v_mem v') = None).
Proof.
  intros H Fw HL Hd. unfold sys_mmap_file.
  assert (Hfail : (U64_MAX, v) = (r, v') → ∃ g', after (v_cr3 v) v g v' g' ∧ r = U64_MAX) by (intros [= <- <-]; exists g; split; [by apply after_refl|done]).
  destruct (user_descriptor5 desc v) as [l|] eqn:Ed; [|naive_solver]. pose proof (user_descriptor5_bound desc v l (vo_mem _ _ H) Ed) as HB.
  destruct l as [|fd [|addr [|n [|off [|flags [|]]]]]]; [naive_solver..| |naive_solver]. rewrite !Forall_cons in HB. destruct HB as (B1 & B2 & B3 & B4 & B5 & _).
  destruct (Z.eqb_spec addr 0); [naive_solver|]. destruct (Z.eqb_spec n 0); [naive_solver|]. destruct (Z.eqb_spec (Z.land addr 0xfff) 0); [|naive_solver].
  destruct (Z.eqb_spec (Z.land off 0xfff) 0) as [Eo%land_aligned|]; [|naive_solver]. cbn [orb negb]. destruct (has flags _) eqn:Ef; [naive_solver|]. clear Ef.
  destruct (round_up_pages n) as [ln|] eqn:El; [|naive_solver]. apply round_up_pages_of in El as [Hs ->].
  pose proof (arena_iff addr n ltac:(lia) ltac:(lia) Hs) as HA. rewrite <-negb_andb. destruct (valid_user_address_range _ _ _ && valid_user_mmap_range _ _); [|naive_solver]. cbn [negb].
  case_match; [naive_solver|]. destruct (can_add_owned_pages _ _ _); [|naive_solver]. cbn [negb]. clear Hfail. unfold current_pml4.
  pose proof (proj1 HA eq_refl) as HAr. pose proof HAr as (A1 & A2 & A3 & A4 & A5). destruct (pages_of_spec n) as [P1 P2]; [lia|].
  set (fl := if has flags USER_PROT_EXEC then _ else _).
  assert (F : flags_ok fl ∧ Z.testbit fl 2 = true ∧ Z.testbit fl 1 = false) by (unfold fl; destruct (has flags USER_PROT_EXEC); by vm_compute). destruct F as (F & F2 & F1).
  assert (Fp : g_perm g fl) by (apply Fw; intros ?; congruence).
  assert (Hin : ∀ o, o ∈ page_offsets (pages_of n) → user_root (pt_index 4 (addr + o)) ∧ 0 ≤ addr + o < 2 ^ 48).
  { intros o [Ho _]%elem_of_page_offsets; [|lia]. apply mmap_root. lia. }
  destruct (mmap_file_loop _ _ _ _ _ _ _) as [r1 v1] eqn:E. apply mmap_file_loop_ok with (g := g) in E as (g' & A & D & X); [|apply reads_ok_data; apply Hd|done..|by apply Forall_forall].
  destruct r1 as [[]|]; intros [= <- <-]; exists g'; (split; [done|]); [right|by left]. specialize (X eq_refl).
  assert (Hp : ∀ a, addr ≤ a < addr + pages_of n → ∃ d, file_data task (Z.to_nat fd) fds = Some d ∧
    user_load (v_cr3 v) a (v_mem v1) = Some (nthZ d (off + (a - addr))) ∧ user_access (v_cr3 v) a true (v_mem v1) = None).
  { intros a Ha. destruct (page_of_offset a addr (pages_of n) A1 ltac:(lia) P1 Ha) as [Ho Ep]. destruct (X _ Ho) as (f & bs & Eb & Hpl).
    pose proof (proj1 (elem_of_page_offsets (pages_of n) _ ltac:(lia)) Ho) as [Hob _]. rewrite read_fd_at_data in Eb by lia.
    destruct (file_data task (Z.to_nat fd) fds) as [d|]; [|done]. injection Eb as <-. exists d. split; [done|].
    destruct (placed_load v1 g' _ _ _ _ _ a (pr_ok _ _ _ _ _ (af_progress _ _ _ _ _ A)) Hpl F F2 (eq_sym Ep)) as [-> Hw]. split.
    - rewrite nthZ_file_page; [|lia|by apply Z.mod_pos_bound]. do 2 f_equal. destruct (page_of a addr A1) as (_ & <- & _); [lia|]. unfold page_down. lia.
    - destruct (user_access (v_cr3 v) a true (v_mem v1)); [|done]. rewrite F1 in Hw. cut (false = true); [done|]. apply Hw. eauto. }
  destruct (Hp addr) as (d & Ed' & _); [lia|]. exists fd, n, off, flags, d. split_and!; [done|done|done| |done|].
  - eapply adds_mono; [|exact D]. intros x (o & -> & Ho)%list_elem_of_fmap. apply list_elem_of_fmap. exists o. split; [|done].
    apply page_down_aligned. apply elem_of_page_offsets in Ho as [_ Hm]; [|lia]. by rewrite Z.add_mod, A1, Hm.
  - intros a Ha. destruct (Hp a Ha) as (d' & Ed2 & ?). assert (d' = d) as -> by congruence. done.
Qed.

(** ** What every operation keeps *)
(** The spaces, the registers and the boot table; the frames held, and those of
    them that no space maps. *)
Record carries (v : Vmm) (g : ghost) (v' : Vmm) (g' : ghost) : Prop := {
  ca_ok : vmm_ok v' g';
  ca_env : g_env g' = g_env g;
  ca_regs : v_boot v' = v_boot v ∧ v_cr3 v' = v_cr3 v;
  ca_boot : v_mem v' (page_down (v_boot v)) = v_mem v (page_down (v_boot v));
  ca_roots : map as_pml4 (v_spaces v') = map as_pml4 (v_spaces v);
  ca_held : g_held g' ≡ₚ g_held g;
  ca_unmapped : ∀ f, f ∈ g_held g → unmapped f (v_mem v) g → unmapped f (v_mem v') g' }.
Lemma carries_refl v g : vmm_ok v g → carries v g v g.
Proof. by split. Qed.
Lemma carries_trans v1 g1 v2 g2 v3 g3 : carries v1 g1 v2 g2 → carries v2 g2 v3 g3 → carries v1 g1 v3 g3.
Proof.
  intros [A1 A2 [A3 A3'] A4 A5 A6 A7] [B1 B2 [B3 B3'] B4 B5 B6 B7]. split; [done|congruence|split; congruence| |congruence|by rewrite B6|].
  - rewrite A3 in B4. congruence.
  - intros f Hf U. apply B7; [by rewrite A6|auto].
Qed.
Lemma after_carries p v g v' g' : after p v g v' g' → carries v g v' g'.
Proof.
  intros [[P1 P2 P3 P4 P5 P6 P7 P8 P9] A2 A3]. split; try done. apply P9. right. right. by left.
Qed.
Lemma writes_carries p v g m : vmm_ok v g → writes p v g m → carries v g (set_mem m v) g.
Proof.
  intros H W. split; try done; [by eapply writes_ok|by eapply writes_boot|]. intros f _. apply unmapped_same. intros t. by eapply writes_own.
Qed.
Lemma user_copy_out_ok ptr mx bs v g v' : vmm_ok v g → live (v_cr3 v) v → Forall is_byte bs → 0 ≤ ptr < 2 ^ 64 → user_copy_out ptr mx bs v = Some (Some v') →
  ∃ m, v' = set_mem m v ∧ writes (v_cr3 v) v g m ∧ user_store_bytes (v_cr3 v) ptr bs (v_mem v) = Some m.
Proof.
  intros H HL Hb Hp. unfold user_copy_out. destruct (validate_user_range _ _ _ _ _) as [[]|] eqn:Ev; [|done..].
  destruct (kernel_copy v g (v_cr3 v) bs H HL Hb ptr (v_mem v)) as [-> _]; [split; [apply (vo_mem _ _ H)|by left]|by eapply validate_all; [|apply len_nonneg|]|].
  destruct (user_store_bytes _ _ _ _) as [m|] eqn:E; [|done]. intros [= <-]. exists m. split_and!; [done| |done].
  eapply user_store_bytes_ok; [done|done|done| |exact E]. split; [apply (vo_mem _ _ H)|by left].
Qed.

(** ** The stack of a thread *)
Lemma thread_stack_range slot lo hi : user_thread_stack_range slot = Some (lo, hi) → lo mod PAGE_SIZE = 0 ∧ USER_THREAD_STACK_BASE ≤ lo ∧ hi = lo + USER_STACK_SIZE ∧ hi ≤ USER_MMAP_BASE.
Proof.
  unfold user_thread_stack_range. destruct (Nat.leb_spec USER_THREAD_STACK_SLOTS slot) as [|Hs]; [done|]. unfold checked_mul, checked_add.
  unfold USER_THREAD_STACK_SLOTS, USER_THREAD_STACK_SLOT_SIZE, USER_THREAD_STACK_BASE, USER_STACK_SIZE, PAGE_SIZE in *. case_match; [|done]. cbn [mbind option_bind]. case_match; [|done]. cbn [mbind option_bind].
  case_match; [|done]. cbn [mbind option_bind]. destruct (Z.ltb_spec USER_MMAP_BASE (0x7fff00200000 + Z.of_nat slot * (1024 * 1024) + 64 * 1024)); [done|]. intros [= <- <-].
  split_and!; [|lia..]. replace (0x7fff00200000 + Z.of_nat slot * (1024 * 1024)) with ((0x7fff00200 + Z.of_nat slot * 256) * 4096) by lia. apply Z.mod_mul. lia.
Qed.
Lemma thread_stack_ok entry_point tls fl spawn slot v g o v' : vmm_ok v g → (∀ fl, wx_ok fl → g_perm g fl) → live (v_cr3 v) v → 0 ≤ entry_point < 2 ^ 64 →
  thread_stack entry_point tls fl (Some (v_cr3 v)) spawn slot v = (o, v') →
  ∃ g', carries v g v' g' ∧ ∀ lo rsp, o = Some (lo, rsp) → slot ≫= user_thread_stack_range = Some (lo, rsp + 8) ∧ rsp + 8 = lo + USER_STACK_SIZE ∧
    user_access (v_cr3 v) entry_point false (v_mem v) ≠ None ∧
    ∀ a, lo ≤ a < lo + USER_STACK_SIZE → is_Some (user_access (v_cr3 v) a true (v_mem v')).
Proof.
  intros H Fw HL Hent. unfold thread_stack.
  assert (Hfail : (None, v) = (o, v') → ∃ g', carries v g v' g' ∧ ∀ lo rsp, o = Some (lo, rsp) → False) by (intros [= <- <-]; exists g; split; [by apply carries_refl|done]).
  destruct (negb (fl =? 0)); [naive_solver|]. destruct (Z.eqb_spec entry_point 0); [naive_solver|]. destruct (valid_user_address_range entry_point 1 1); [|naive_solver]. cbn [negb orb].
  destruct (bool_decide_reflect (user_range_accessible entry_point 1 false v = Some true)) as [Ee|]; [|naive_solver]. destruct (valid_user_tls_base tls v); [|naive_solver]. cbn [negb orb].
  destruct spawn; [|naive_solver]. cbn [negb]. destruct (slot ≫= user_thread_stack_range) as [[lo hi]|] eqn:Es; [|naive_solver].
  set (fl0 := Z.lor PRESENT _). destruct (can_add_owned_pages _ _ _); [|naive_solver]. cbn [negb]. clear Hfail.
  destruct slot as [slot|]; [|done]. destruct (thread_stack_range slot lo hi Es) as (R1 & R2 & R3 & R4).
  assert (F : flags_ok fl0 ∧ Z.testbit fl0 2 = true ∧ Z.testbit fl0 1 = true ∧ wx_ok fl0) by (by vm_compute). destruct F as (F & F2 & F1 & Fx).
  destruct (map_region _ _ _ _ _) as [r1 v1] eqn:E.
  apply (map_region_ok (v_cr3 v) lo USER_STACK_SIZE fl0 v g) in E as (g1 & A & _ & X); [|done|done|by apply Fw|done|done|done|done| ].
  2:{ intros a Ha. apply image_root. unfold USER_THREAD_STACK_BASE, USER_STACK_SIZE, USER_MMAP_BASE in *. lia. }
  pose proof (af_progress _ _ _ _ _ A) as P. pose proof (pr_ok _ _ _ _ _ P) as H1. destruct (pr_regs _ _ _ _ _ P) as [_ Ec].
  assert (HL1 : live (v_cr3 v1) v1) by (rewrite Ec; by eapply live_roots; [apply P|]).
  destruct r1 as [[]|e]; [|intros [= <- <-]; exists g1; split; [by eapply after_carries|done]].
  destruct (user_copy_out _ _ _ _) as [[v2|]|] eqn:E2; cbn [mjoin option_join]; intros [= <- <-]; [|exists g1; split; [by eapply after_carries|done]|exists g1; split; [by eapply after_carries|done]].
  destruct (user_copy_out_ok (hi - 8) _ _ v1 g1 v2 H1 HL1 ltac:(apply zeros_is_byte) ltac:(unfold USER_THREAD_STACK_BASE, USER_STACK_SIZE, USER_MMAP_BASE in *; lia) E2) as (m & -> & W & _).
  exists g1. split; [by eapply carries_trans; [by eapply after_carries|by eapply writes_carries]|]. intros lo' rsp [= -> <-]. split_and!; [f_equal; f_equal; lia|lia| |].
  - unfold user_range_accessible, current_pml4 in Ee.
    destruct (user_range_exact (v_cr3 v) entry_point 1 false (v_mem v)) as (b & Hbq & Hiff); [lia|lia|]. assert (b = true) as -> by congruence.
    destruct (proj1 Hiff eq_refl) as (_ & _ & _ & Hx). destruct (Hx entry_point) as [x ->]; [lia|done].
  - intros a Ha. destruct (X eq_refl) as (fs & _ & _ & Hpl). rewrite <-Ec in Hpl |- *. cbn [v_mem set_mem].
    rewrite (access_same v1 g1); [|done|done|apply W|intros t; by apply writes_own with (p := v_cr3 v1)].
    destruct (pages_placed_load v1 g1 (v_cr3 v1) lo' USER_STACK_SIZE fl0 fs a) as [_ ->]; try done.
Qed.
End Calls.
