(* ===== verification/Paths.v ===== *)
(** * Paths (src/src/vfs.rs, src/src/coolfs.rs)

    Path normalisation and splitting as the VFS and CoolFS do it, the mount
    table lookup and the name rules of CoolFS directories.  A [&str] is the
    list of its UTF-8 bytes; every delimiter is ASCII, so splitting bytes and
    splitting characters agree. *)
From S2P Require Import Prelude Text.

Set Warnings "-clear-no-such-hyp".

Local Open Scope Z_scope.

(** src/src/fat32.rs, the error type of every filesystem. *)
Inductive FsError :=
| AlreadyExists | InvalidPath | Io | NoSpace | NotDirectory
| NotEmpty | NotFound | PermissionDenied | UnsupportedName.

#[export] Instance FsError_eq_dec : EqDecision FsError.
Proof. solve_decision. Defined.

Definition SLASH : Z := 47.

(** [str::split('/')] *)
Abbreviation split := (split_on SLASH).

(** [str::rfind('/')], as the text before and after the last slash. *)
Fixpoint rsplit (p : bytes) : option (bytes * bytes) :=
  match p with
  | [] => None
  | c :: p =>
      match rsplit p with
      | Some (a, b) => Some (c :: a, b)
      | None => if c =? SLASH then Some ([], p) else None
      end
  end.

Definition is_dot (part : bytes) : bool := bytes_eqb part (str ".").
Definition is_dotdot (part : bytes) : bool := bytes_eqb part (str "..").

(** The [parts] loop of [normalize_path]; the stack is kept reversed. *)
Fixpoint normalize_parts (acc : list bytes) (parts : list bytes) : list bytes :=
  match parts with
  | [] => rev acc
  | part :: parts =>
      if bytes_eqb part [] || is_dot part then normalize_parts acc parts
      else if is_dotdot part then normalize_parts (tail acc) parts
      else normalize_parts (part :: acc) parts
  end.

Definition render (parts : list bytes) : bytes := concat (map (cons SLASH) parts).

Definition normalize_path (path : bytes) : bytes :=
  match normalize_parts [] (split path) with
  | [] => str "/"
  | parts => render parts
  end.

(** ** vfs.rs: mounts and derived paths *)
Record MountInfo := { prefix : bytes; fs_type : bytes; flags : bytes }.

Definition root_mount : MountInfo :=
  {| prefix := str "/"; fs_type := str "coolfs";
     flags := str "rw,native-root,normalized-paths,uid-gid-mode" |}.

Definition MOUNTS : list MountInfo :=
  [ root_mount;
    {| prefix := str "/FAT"; fs_type := str "fat32"; flags := str "rw,legacy-import,optional" |};
    {| prefix := str "/DEV"; fs_type := str "devfs"; flags := str "rw,generated-nodes" |};
    {| prefix := str "/APPS"; fs_type := str "appfs"; flags := str "rw,manifest-validated" |};
    {| prefix := str "/LOGS"; fs_type := str "coolfs"; flags := str "rw,persistent" |} ].

Definition mount_step (path : bytes) (best mount : MountInfo) : MountInfo :=
  if bytes_eqb path (prefix mount)
     || (negb (bytes_eqb (prefix mount) (str "/")) && starts_with (prefix mount) path
         && (len (prefix best) <? len (prefix mount)))
  then mount else best.

Definition resolve_mount (path : bytes) : MountInfo :=
  let path := normalize_path path in
  foldl (mount_step path) root_mount MOUNTS.

Definition fat32_path (path : bytes) : option bytes :=
  if bytes_eqb path (str "/FAT") then Some (str "/") else
  match strip_prefix (str "/FAT/") path with
  | Some rest => Some (str "/" ++ rest)
  | None => None
  end.

Definition parent_path (path : bytes) : result FsError bytes :=
  let path := normalize_path path in
  if bytes_eqb path (str "/") then Err InvalidPath else
  match rsplit path with
  | None => Err InvalidPath
  | Some ([], _) => Ok (str "/")
  | Some (parent, _) => Ok parent
  end.

Definition file_name (path : bytes) : result FsError bytes :=
  let path := normalize_path path in
  if bytes_eqb path (str "/") then Err InvalidPath else
  match rsplit path with
  | None => Err InvalidPath
  | Some (_, []) => Err InvalidPath
  | Some (_, name) => Ok name
  end.

Definition ends_with_slash (p : bytes) : bool :=
  match last p with Some c => c =? SLASH | None => false end.

Definition join_path (parent name : bytes) : bytes :=
  (if ends_with_slash parent then parent else parent ++ str "/") ++ name.

(** ** coolfs.rs: names *)
Definition MAX_NAME_LEN : Z := 27.

(** The [while end > 1 && ..] loop of [trim_abs_path] on the reversed path. *)
Fixpoint trim_rev (r : bytes) : bytes :=
  match r with
  | c :: ((_ :: _) as r') => if c =? SLASH then trim_rev r' else r
  | _ => r
  end.

Definition trim_abs_path (path : bytes) : result FsError bytes :=
  if starts_with (str "/") path then Ok (rev (trim_rev (rev path))) else Err InvalidPath.

Definition validate_name (name : bytes) : result FsError unit :=
  if bytes_eqb name [] || is_dot name || is_dotdot name || (MAX_NAME_LEN <? len name)
  then Err UnsupportedName else
  if negb (forallb (λ b, (0x20 <=? b) && (b <=? 0x7e) && negb (b =? SLASH)) name)
  then Err UnsupportedName else Ok tt.

Definition split_parent_and_name (path : bytes) : result FsError (bytes * bytes) :=
  match trim_abs_path path with
  | Err e => Err e
  | Ok path =>
      if bytes_eqb path (str "/") then Err InvalidPath else
      match rsplit path with
      | None => Err InvalidPath
      | Some (before, name) =>
          let parent := match before with [] => str "/" | _ => before end in
          match validate_name name with
          | Err e => Err e
          | Ok _ => Ok (parent, name)
          end
      end
  end.

Definition names_equal (left right : bytes) : bool := eq_ignore_ascii_case left right.

(** The components [resolve_path] walks: [path.split('/')] without empty parts. *)
Definition components (path : bytes) : list bytes :=
  List.filter (λ c, negb (bytes_eqb c [])) (split path).

(** A path component that survives normalisation. *)
Definition no_slash (part : bytes) : Prop := Forall (λ c, c <> SLASH) part.
Definition part_ok (part : bytes) : Prop :=
  no_slash part /\ part <> [] /\ part <> str "." /\ part <> str "..".

(** The canonical absolute paths: "/" or a slash before every component. *)
Definition canonical (p : bytes) : Prop :=
  exists parts, Forall part_ok parts /\
    p = match parts with [] => str "/" | _ => render parts end.

Example normalize_ex : normalize_path (str "//a/./b/../c/") = str "/a/c".
Proof. vm_compute. reflexivity. Qed.
Example normalize_up_ex : normalize_path (str "../../x") = str "/x".
Proof. vm_compute. reflexivity. Qed.

(** ** Splitting *)
Lemma split_no_slash p : Forall no_slash (split p).
Proof.
  unfold no_slash. induction p as [|c p IH]; simpl; [by repeat constructor|].
  case_if as E; [by constructor|]. apply Z.eqb_neq in E.
  destruct (split p); inversion IH; subst; repeat constructor; done.
Qed.

Lemma split_nonempty p : split p <> [].
Proof. apply split_on_nonempty. Qed.

Lemma split_app p q : split (p ++ SLASH :: q) = split p ++ split q.
Proof. apply split_on_app. Qed.

Lemma split_part part : no_slash part -> split part = [part].
Proof. apply split_on_none. Qed.

Lemma split_render parts :
  Forall no_slash parts -> split (render parts) = match parts with [] => [[]] | _ => [] :: parts end.
Proof.
  unfold render. induction 1 as [|part parts Hp Hps IH]; [done|].
  cbn [map concat app split]. rewrite Z.eqb_refl. f_equal.
  destruct parts as [|q parts].
  - simpl. rewrite app_nil_r. by apply split_part.
  - cbn [map concat app] in *. rewrite split_app, split_part by done.
    cbn [split] in IH. rewrite Z.eqb_refl in IH. injection IH as ->. done.
Qed.

Lemma rsplit_part part : no_slash part -> rsplit part = None.
Proof.
  induction 1 as [|c l Hc Hl IH]; simpl; [done|].
  by rewrite IH, (proj2 (Z.eqb_neq _ _) Hc).
Qed.

Lemma rsplit_app l part : no_slash part -> rsplit (l ++ SLASH :: part) = Some (l, part).
Proof.
  intros Hp. induction l as [|c l IH]; simpl; [by rewrite rsplit_part|].
  by rewrite IH.
Qed.

(** ** Normalisation *)
Lemma part_skip part :
  bytes_eqb part [] || is_dot part = false -> is_dotdot part = false ->
  no_slash part -> part_ok part.
Proof.
  unfold is_dot, is_dotdot. intros Hd Hdd Hs.
  apply orb_false_iff in Hd as [H0 H1]. split_and!; [done|..]; intros ->;
    by rewrite ?(proj2 (bytes_eqb_eq _ _) eq_refl) in *.
Qed.

Lemma part_keep part :
  part_ok part -> bytes_eqb part [] || is_dot part = false /\ is_dotdot part = false.
Proof.
  intros (_ & H0 & H1 & H2). unfold is_dot, is_dotdot.
  destruct (bytes_eqb part []) eqn:E0; [by apply bytes_eqb_eq in E0|].
  destruct (bytes_eqb part (str ".")) eqn:E1; [by apply bytes_eqb_eq in E1|].
  destruct (bytes_eqb part (str "..")) eqn:E2; [by apply bytes_eqb_eq in E2|done].
Qed.

Lemma normalize_parts_ok parts acc :
  Forall part_ok acc -> Forall no_slash parts -> Forall part_ok (normalize_parts acc parts).
Proof.
  revert acc. induction parts as [|part parts IH]; intros acc Ha Hp; simpl.
  - by apply List.Forall_rev.
  - inversion Hp; subst. case_if as E; [by apply IH|].
    case_if as E'; [apply IH; [|done]; destruct Ha; simpl; by try constructor|].
    apply IH; [|done]. constructor; [by apply part_skip|done].
Qed.

Lemma normalize_parts_id parts acc :
  Forall part_ok parts -> normalize_parts acc parts = rev acc ++ parts.
Proof.
  revert acc. induction parts as [|part parts IH]; intros acc Hp; simpl.
  - by rewrite app_nil_r.
  - inversion Hp; subst. destruct (part_keep part) as [-> ->]; [done|].
    rewrite IH by done. simpl. by rewrite <- app_assoc.
Qed.

Lemma normalize_parts_app acc a b :
  normalize_parts acc (a ++ b) = normalize_parts (rev (normalize_parts acc a)) b.
Proof.
  revert acc. induction a as [|part a IH]; intros acc; simpl; [by rewrite rev_involutive|].
  repeat case_if; apply IH.
Qed.

Lemma part_ok_no_slash parts : Forall part_ok parts -> Forall no_slash parts.
Proof. intros H. eapply Forall_impl; [exact H|]. by intros x []. Qed.

Definition path_parts (p : bytes) : list bytes := normalize_parts [] (split p).

Lemma path_parts_ok p : Forall part_ok (path_parts p).
Proof. apply normalize_parts_ok; [done|apply split_no_slash]. Qed.
#[export] Hint Resolve path_parts_ok part_ok_no_slash : cool.

Lemma path_parts_render parts :
  Forall part_ok parts ->
  path_parts (match parts with [] => str "/" | _ => render parts end) = parts.
Proof.
  intros Hp. destruct parts as [|q parts]; [done|]. unfold path_parts.
  rewrite split_render by auto with cool. change (normalize_parts [] (q :: parts) = q :: parts).
  by rewrite normalize_parts_id.
Qed.

Lemma normalize_path_eq p :
  normalize_path p = match path_parts p with [] => str "/" | _ => render (path_parts p) end.
Proof. unfold normalize_path, path_parts. by destruct (normalize_parts _ _). Qed.

Lemma path_parts_normalize p : path_parts (normalize_path p) = path_parts p.
Proof. rewrite normalize_path_eq. apply path_parts_render, path_parts_ok. Qed.

(** [vfs::normalize_path] returns a canonical absolute path (a slash
    before each component, none of them empty, "." or ".."), leaves canonical
    paths alone, and is idempotent. *)
Theorem normalize_path_canonical p :
  canonical (normalize_path p) /\
  normalize_path (normalize_path p) = normalize_path p /\
  (canonical p -> normalize_path p = p).
Proof.
  split_and!.
  - exists (path_parts p). split; [apply path_parts_ok|apply normalize_path_eq].
  - by rewrite (normalize_path_eq (normalize_path p)), path_parts_normalize, <- normalize_path_eq.
  - intros (parts & Hp & ->). by rewrite normalize_path_eq, path_parts_render.
Qed.

Lemma path_parts_join p q :
  path_parts (p ++ SLASH :: q) = normalize_parts (rev (path_parts p)) (split q).
Proof. unfold path_parts. by rewrite split_app, normalize_parts_app. Qed.

(** Normalising before or after appending a relative path gives the same
    path, so a checked prefix keeps its meaning when a suffix is joined to it;
    appending ".." drops the last component and never escapes the root. *)
Theorem normalize_path_join p q :
  normalize_path (normalize_path p ++ SLASH :: q) = normalize_path (p ++ SLASH :: q) /\
  path_parts (p ++ str "/..") = removelast (path_parts p).
Proof.
  split.
  - by rewrite !normalize_path_eq, !path_parts_join, <- normalize_path_eq, path_parts_normalize.
  - change (str "/..") with (SLASH :: str ".."). rewrite path_parts_join.
    change (split (str "..")) with [str ".."]. simpl.
    generalize (path_parts p). intros l.
    destruct l as [|x l _] using rev_ind; [done|].
    by rewrite rev_app_distr, removelast_last; simpl; rewrite rev_involutive.
Qed.

(** ** Parent and last component *)
Lemma render_snoc parts q : render (parts ++ [q]) = render parts ++ SLASH :: q.
Proof. unfold render. rewrite map_app, concat_app. simpl. by rewrite app_nil_r. Qed.

Definition render_path (parts : list bytes) : bytes :=
  match parts with [] => str "/" | _ => render parts end.

Lemma render_path_snoc parts q : render_path (parts ++ [q]) = render parts ++ SLASH :: q.
Proof. unfold render_path. destruct (parts ++ [q]) eqn:E; [by destruct parts|]. by rewrite <- E, render_snoc. Qed.

Lemma normalize_path_render p : normalize_path p = render_path (path_parts p).
Proof. apply normalize_path_eq. Qed.

Lemma normalize_snoc p :
  normalize_path p <> str "/" ->
  exists parts q, path_parts p = parts ++ [q] /\ part_ok q /\ Forall part_ok parts.
Proof.
  rewrite normalize_path_eq. pose proof (path_parts_ok p) as Hok. revert Hok.
  destruct (path_parts p) as [|q parts _] using rev_ind; [done|]. intros Hok _.
  apply Forall_app in Hok as [? Hq]. inversion Hq. eauto.
Qed.

Lemma snoc_not_root parts q :
  part_ok q -> bytes_eqb (render parts ++ SLASH :: q) (str "/") = false.
Proof.
  intros (_ & Hq & _). apply not_true_is_false. rewrite bytes_eqb_eq. intros E.
  apply (f_equal length) in E. rewrite length_app in E. destruct q; [done|]. simpl in E. lia.
Qed.

Lemma render_nil parts : Forall part_ok parts -> render parts = [] -> parts = [].
Proof. by destruct parts. Qed.

Lemma render_path_eq parts :
  match render parts with [] => str "/" | _ => render parts end = render_path parts.
Proof. by destruct parts. Qed.

Lemma ends_with_slash_render parts q :
  part_ok q -> ends_with_slash (render (parts ++ [q])) = false.
Proof.
  intros (Hs & Hq & _). rewrite render_snoc. destruct q as [|c q _] using rev_ind; [done|].
  unfold ends_with_slash. rewrite app_comm_cons, app_assoc, last_snoc.
  apply Z.eqb_neq. apply Forall_app in Hs as [_ Hc]. by inversion Hc.
Qed.

Lemma join_path_render parts q :
  Forall part_ok parts -> join_path (render_path parts) q = render parts ++ SLASH :: q.
Proof.
  intros Hp. destruct parts as [|x parts _] using rev_ind; [done|].
  apply Forall_app in Hp as [_ Hx]. inversion Hx; subst.
  unfold join_path. rewrite render_path_snoc, <- render_snoc, ends_with_slash_render by done.
  by rewrite <- app_assoc.
Qed.

Lemma parent_path_snoc p parts q :
  path_parts p = parts ++ [q] -> part_ok q ->
  parent_path p = Ok (render_path parts) /\ file_name p = Ok q.
Proof.
  intros E Hq. unfold parent_path, file_name.
  rewrite normalize_path_render, E, render_path_snoc, snoc_not_root by done.
  rewrite rsplit_app by apply Hq. destruct Hq as (_ & Hq & _).
  split; [|by destruct q]. by destruct parts.
Qed.

(** Below the root, [parent_path] and [file_name] succeed, the parent is
    canonical again, the name is a proper component, and [join_path] puts the
    normalised path back together. *)
Theorem parent_file_join p :
  normalize_path p <> str "/" ->
  exists parent name,
    parent_path p = Ok parent /\ file_name p = Ok name /\
    join_path parent name = normalize_path p /\
    normalize_path parent = parent /\ part_ok name.
Proof.
  intros Hp. destruct (normalize_snoc p Hp) as (parts & q & E & Hq & Hps).
  destruct (parent_path_snoc p parts q E Hq) as [H1 H2].
  exists (render_path parts), q. split_and!; [done|done|..|done].
  - by rewrite join_path_render, normalize_path_render, E, render_path_snoc.
  - rewrite normalize_path_eq. unfold render_path. by rewrite path_parts_render.
Qed.

Lemma parent_file_join_witness :
  exists parent name,
    parent_path (str "/a/b/../c") = Ok parent /\ file_name (str "/a/b/../c") = Ok name /\
    join_path parent name = normalize_path (str "/a/b/../c") /\
    normalize_path parent = parent /\ part_ok name.
Proof. apply (parent_file_join (str "/a/b/../c")). vm_compute. discriminate. Defined.

(** ** CoolFS agrees with the VFS on normalised paths *)
Lemma trim_rev_id c r : c <> SLASH -> trim_rev (c :: r) = c :: r.
Proof. intros Hc%Z.eqb_neq. destruct r; simpl; by rewrite ?Hc. Qed.

Lemma trim_abs_path_part p q :
  no_slash q -> q <> [] -> starts_with (str "/") (p ++ SLASH :: q) = true ->
  trim_abs_path (p ++ SLASH :: q) = Ok (p ++ SLASH :: q).
Proof.
  intros Hs Hq Hst. unfold trim_abs_path. rewrite Hst.
  f_equal. destruct q as [|c q _] using rev_ind; [done|].
  apply Forall_app in Hs as [_ Hc]. inversion Hc as [|? ? Hc' _]; subst.
  rewrite app_comm_cons, app_assoc, rev_app_distr.
  cbn [rev app]. rewrite trim_rev_id by done. cbn [rev]. by rewrite rev_involutive.
Qed.

Lemma trim_abs_path_render parts q :
  part_ok q -> trim_abs_path (render parts ++ SLASH :: q) = Ok (render parts ++ SLASH :: q).
Proof. intros (Hs & Hq & _). apply trim_abs_path_part; [done|done|]. by destruct parts. Qed.

(** On a normalised path below the root, CoolFS's own
    [split_parent_and_name] computes the VFS's [parent_path] and [file_name],
    and fails only where [validate_name] rejects the last component. *)
Theorem split_parent_and_name_agrees p :
  normalize_path p <> str "/" ->
  exists parent name,
    parent_path p = Ok parent /\ file_name p = Ok name /\
    split_parent_and_name (normalize_path p) =
      match validate_name name with Ok _ => Ok (parent, name) | Err e => Err e end.
Proof.
  intros Hp. destruct (normalize_snoc p Hp) as (parts & q & E & Hq & Hps).
  destruct (parent_path_snoc p parts q E Hq) as [H1 H2].
  exists (render_path parts), q. split_and!; [done|done|].
  rewrite normalize_path_render, E, render_path_snoc. unfold split_parent_and_name.
  rewrite trim_abs_path_render, snoc_not_root by done. rewrite rsplit_app by apply Hq.
  rewrite render_path_eq. by destruct (validate_name q).
Qed.

Lemma split_parent_and_name_agrees_witness :
  exists parent name,
    parent_path (str "/a/b/../c") = Ok parent /\ file_name (str "/a/b/../c") = Ok name /\
    split_parent_and_name (normalize_path (str "/a/b/../c")) =
      match validate_name name with Ok _ => Ok (parent, name) | Err e => Err e end.
Proof. apply (split_parent_and_name_agrees (str "/a/b/../c")). vm_compute. discriminate. Defined.

Lemma filter_parts l :
  Forall part_ok l -> List.filter (λ c, negb (bytes_eqb c [])) l = l.
Proof.
  induction 1 as [|x l Hx Hl IH]; [reflexivity|]. simpl.
  destruct (bytes_eqb x []) eqn:E; [apply bytes_eqb_eq in E; by destruct Hx as (_ & ? & _)|].
  simpl. by f_equal.
Qed.

Lemma components_render l : Forall part_ok l -> components (render_path l) = l.
Proof.
  intros Hok. unfold components, render_path. destruct l as [|q parts]; [reflexivity|].
  rewrite split_render by auto with cool. by apply (filter_parts (q :: parts)).
Qed.

(** The components CoolFS walks on a normalised path are the ones the
    normalisation kept, in order: [resolve_path] never meets "", "." or "..". *)
Theorem components_normalize p : components (normalize_path p) = path_parts p.
Proof. rewrite normalize_path_render. apply components_render, path_parts_ok. Qed.

(** ** The components of the paths CoolFS splits *)
Lemma components_app p q : components (p ++ SLASH :: q) = components p ++ components q.
Proof. unfold components. by rewrite split_app, List.filter_app. Qed.

Lemma components_part q : no_slash q -> q <> [] -> components q = [q].
Proof.
  intros Hs Hq. unfold components. rewrite split_part by done. simpl.
  destruct (bytes_eqb q []) eqn:E; [by apply bytes_eqb_eq in E|done].
Qed.

Lemma rsplit_Some p a b : rsplit p = Some (a, b) -> p = a ++ SLASH :: b /\ no_slash b.
Proof.
  revert a b. induction p as [|c p IH]; intros a b; simpl; [done|].
  destruct (rsplit p) as [[a' b']|] eqn:E.
  - intros [= <- <-]. destruct (IH a' b' eq_refl) as [-> Hb]. done.
  - case_if; [|done]. intros [= <- <-]. split; [simpl; f_equal; lia|]. clear -E.
    induction p as [|c p IH]; [constructor|]. simpl in E. destruct (rsplit p) as [[]|]; [done|].
    destruct (Z.eqb_spec c SLASH); [done|]. constructor; [done|by apply IH].
Qed.

Lemma trim_abs_path_ok path p :
  trim_abs_path path = Ok p -> starts_with (str "/") path = true /\
  starts_with (str "/") p = true /\ components p = components path.
Proof.
  unfold trim_abs_path. destruct (starts_with (str "/") path) eqn:Hs; [|done]. intros [= <-].
  split; [done|]. destruct path as [|c q]; [done|].
  assert (c = SLASH) as -> by (apply andb_true_iff in Hs as [Hs%Z.eqb_eq _]; by symmetry). clear Hs.
  induction q as [|x q IH] using rev_ind; [done|].
  destruct (Z.eqb_spec x SLASH) as [->|Hx].
  - replace (rev (SLASH :: q ++ [SLASH])) with (SLASH :: rev (SLASH :: q)) by (simpl; by rewrite rev_app_distr).
    destruct (rev (SLASH :: q)) as [|y r] eqn:E; [simpl in E; by destruct (rev q)|].
    change (trim_rev (SLASH :: y :: r)) with (trim_rev (y :: r)). destruct IH as [? ->]. split; [done|].
    change (SLASH :: q ++ [SLASH]) with ((SLASH :: q) ++ SLASH :: []). rewrite components_app.
    by rewrite app_nil_r.
  - replace (rev (SLASH :: q ++ [x])) with (x :: rev (SLASH :: q)) by (simpl; by rewrite rev_app_distr).
    rewrite trim_rev_id by done. cbn [rev]. rewrite rev_app_distr, rev_involutive. done.
Qed.

Lemma trim_abs_path_err path e : trim_abs_path path = Err e -> e = InvalidPath.
Proof. unfold trim_abs_path. case_if; [done|]. by intros [= <-]. Qed.

(** A path [split_parent_and_name] accepts names the entry [name] of its parent. *)
Lemma split_components path parent name :
  split_parent_and_name path = Ok (parent, name) ->
  components path = components parent ++ [name] /\ starts_with (str "/") parent = true /\
  starts_with (str "/") path = true.
Proof.
  unfold split_parent_and_name. destruct (trim_abs_path path) as [p|] eqn:Et; [|done].
  apply trim_abs_path_ok in Et as (Hs & Hp & <-). case_if; [done|].
  destruct (rsplit p) as [[before nm]|] eqn:Er; [|done]. apply rsplit_Some in Er as [-> Hn].
  destruct (validate_name nm) as [[]|] eqn:Ev; [|done]. intros [= <- <-].
  assert (nm <> []) by (by intros ->).
  rewrite components_app, (components_part nm) by done. by destruct before.
Qed.

Lemma split_valid path parent name :
  split_parent_and_name path = Ok (parent, name) -> validate_name name = Ok tt.
Proof.
  unfold split_parent_and_name. destruct (trim_abs_path path); [|done]. case_if; [done|].
  destruct (rsplit _) as [[before nm]|]; [|done]. destruct (validate_name nm) as [[]|] eqn:E; [|done].
  by intros [= <- <-].
Qed.

(** Splitting a path that was joined gives the parts back, up to a trailing slash. *)
Lemma split_join_path parent q :
  starts_with (str "/") parent = true -> no_slash q -> validate_name q = Ok tt ->
  exists parent', split_parent_and_name (join_path parent q) = Ok (parent', q) /\
    components parent' = components parent /\ starts_with (str "/") parent' = true.
Proof.
  intros Hp Hs Hv. assert (q <> []) as Hq by (by intros ->).
  assert (exists p, join_path parent q = p ++ SLASH :: q /\ components p = components parent /\ (p = [] \/ starts_with (str "/") p = true)) as (p & -> & Hc & Hst).
  { unfold join_path, ends_with_slash. destruct parent as [|c p _] using rev_ind; [done|]. rewrite last_snoc.
    destruct (Z.eqb_spec c SLASH) as [->|Hne].
    - exists p. rewrite <- app_assoc. split_and!; [done|rewrite components_app; by rewrite app_nil_r|].
      destruct p; [by left|right; done].
    - exists (p ++ [c]). rewrite <- !app_assoc. split_and!; [done|done|]. right. done. }
  exists (match p with [] => str "/" | _ => p end). unfold split_parent_and_name.
  rewrite trim_abs_path_part by (done || (destruct Hst as [->|Hst]; [done|by destruct p])).
  rewrite rsplit_app by done.
  assert (bytes_eqb (p ++ SLASH :: q) (str "/") = false) as ->.
  { apply not_true_iff_false. intros E%bytes_eqb_eq%(f_equal length). rewrite length_app in E. simpl in E. destruct q; [done|simpl in E; lia]. }
  rewrite Hv. destruct p; [by rewrite <- Hc|]. destruct Hst; [done|]. done.
Qed.

(** ** Mounts *)
(** The paths below /FAT: the first component decides. *)
Definition fat_parts (parts : list bytes) : bool :=
  match parts with x :: _ => bytes_eqb x (str "FAT") | [] => false end.

Lemma starts_with_part l x r :
  no_slash l -> no_slash x -> (r = [] \/ exists r', r = SLASH :: r') ->
  starts_with (l ++ [SLASH]) (x ++ r) = true <-> x = l /\ r <> [].
Proof.
  intros Hl. revert x. induction Hl as [|c l Hc Hl IH]; intros x Hx Hr.
  - destruct Hx as [|d x Hd Hx]; cbn [app starts_with].
    + destruct Hr as [->|[r' ->]]; cbn [app starts_with]; [naive_solver|]. rewrite Z.eqb_refl. naive_solver.
    + split; [|naive_solver]. rewrite andb_true_iff, Z.eqb_eq. naive_solver.
  - destruct Hx as [|d x Hd Hx]; cbn [app starts_with].
    + destruct Hr as [->|[r' ->]]; cbn [app starts_with]; [naive_solver|]. rewrite andb_true_iff, Z.eqb_eq. naive_solver.
    + rewrite andb_true_iff, Z.eqb_eq, (IH x Hx Hr). naive_solver.
Qed.

Lemma fat32_path_render parts :
  Forall part_ok parts -> fat32_path (render_path parts) = None <-> fat_parts parts = false.
Proof.
  intros Hp. destruct Hp as [|x parts (Hx & _) Hps]; [done|]. unfold fat32_path, render_path, fat_parts.
  assert (render (x :: parts) = SLASH :: x ++ render parts) as E by done. rewrite E.
  assert (render parts = [] \/ exists r', render parts = SLASH :: r') as Hr by (destruct parts; simpl; eauto).
  assert (no_slash (str "FAT")) as Hf by (repeat constructor; done).
  pose proof (starts_with_part (str "FAT") x (render parts) Hf Hx Hr) as Hs.
  destruct (bytes_eqb (SLASH :: x ++ render parts) (str "/FAT")) eqn:E1.
  - apply bytes_eqb_eq in E1. injection E1 as E1. split; [done|]. intros Hne. exfalso.
    destruct Hr as [Hr|[r' Hr]]; rewrite Hr in E1.
    + rewrite app_nil_r in E1. rewrite E1 in Hne. discriminate Hne.
    + assert (In SLASH (x ++ SLASH :: r')) as Hin by (apply in_or_app; right; by left).
      rewrite E1 in Hin. cbn in Hin. unfold SLASH in Hin. lia.
  - unfold strip_prefix. change (starts_with (str "/FAT/") (SLASH :: x ++ render parts))
      with (starts_with (str "FAT" ++ [SLASH]) (x ++ render parts)).
    destruct (starts_with _ _) eqn:E2.
    + split; [done|]. destruct Hs as [Hs _]. destruct (Hs eq_refl) as [-> _]. done.
    + split; [|done]. intros _. apply not_true_iff_false. rewrite bytes_eqb_eq. intros ->.
      destruct Hs as [_ Hs]. discriminate Hs. split; [done|]. intros Hn. rewrite Hn in E1. discriminate E1.
Qed.

(** [resolve_mount] compares prefixes without a component boundary: it
    reports "/FATAL" (an ordinary CoolFS path for every operation, which goes
    through [fat32_path]) as a file of the FAT32 mount. *)
Theorem resolve_mount_no_boundary :
  fs_type (resolve_mount (str "/FATAL")) = str "fat32" /\ fat32_path (str "/FATAL") = None /\
  fs_type (resolve_mount (str "/FAT/AL")) = str "fat32" /\ fat32_path (str "/FAT/AL") = Some (str "/AL").
Proof. vm_compute. done. Qed.
