(* ===== verification/Security.v ===== *)
(** * Credentials and permissions (src/src/security.rs)

    User and group ids, the capability mask of a process, the UNIX-style mode
    check of every file access, the umask and the permission strings of
    application packages.  Accounts and sessions are in Accounts.v. *)
From S2P Require Import Prelude Text Paths.

Local Open Scope Z_scope.

Definition ROOT_UID : Z := 0.
Definition ROOT_GID : Z := 0.
Definition USER_UID : Z := 1000.
Definition USER_GID : Z := 1000.
Definition GUEST_UID : Z := 1001.
Definition SERVICE_UID : Z := 200.
Definition SERVICE_GID : Z := 200.

Definition DEFAULT_DIR_MODE : Z := 0x1ed.   (* 0o755 *)
Definition DEFAULT_FILE_MODE : Z := 0x1a4.  (* 0o644 *)
Definition DEFAULT_EXEC_MODE : Z := 0x1ed.  (* 0o755 *)
Definition SHARED_TMP_MODE : Z := 0x1ff.    (* 0o777 *)
Definition MODE_MASK : Z := 0x1ff.          (* 0o777 *)

Definition CAP_READ_FS : Z := Z.shiftl 1 0.
Definition CAP_WRITE_FS : Z := Z.shiftl 1 1.
Definition CAP_EXEC : Z := Z.shiftl 1 2.
Definition CAP_NETWORK : Z := Z.shiftl 1 3.
Definition CAP_DESKTOP : Z := Z.shiftl 1 4.
Definition CAP_SETTINGS : Z := Z.shiftl 1 5.
Definition CAP_DIAGNOSTICS : Z := Z.shiftl 1 6.
Definition CAP_SHELL : Z := Z.shiftl 1 7.
Definition CAP_ADMIN : Z := Z.shiftl 1 8.

Definition lors (l : list Z) : Z := fold_right Z.lor 0 l.
Definition CAP_INTERACTIVE_USER : Z :=
  lors [CAP_READ_FS; CAP_WRITE_FS; CAP_EXEC; CAP_NETWORK; CAP_DESKTOP].
Definition CAP_PACKAGE_SHELL : Z :=
  lors [CAP_INTERACTIVE_USER; CAP_SETTINGS; CAP_DIAGNOSTICS; CAP_SHELL].
Definition CAP_ALL_USER : Z := Z.lor CAP_PACKAGE_SHELL CAP_ADMIN.

Record Credentials := { cr_uid : Z; cr_gid : Z; cr_caps : Z }.
Inductive Access := Read | Write | Execute.

Definition kernel_credentials : Credentials :=
  {| cr_uid := ROOT_UID; cr_gid := ROOT_GID; cr_caps := CAP_ALL_USER |}.

Definition service_credentials (name : bytes) : Credentials :=
  let caps := lors [CAP_READ_FS; CAP_WRITE_FS; CAP_EXEC; CAP_DIAGNOSTICS] in
  {| cr_uid := SERVICE_UID; cr_gid := SERVICE_GID;
     cr_caps := if bytes_eqb name (str "network-stack") then Z.lor caps CAP_NETWORK else caps |}.

(** [creds.caps & cap != 0] *)
Definition has_cap (creds : Credentials) (cap : Z) : bool := negb (Z.land (cr_caps creds) cap =? 0).
Definition is_root (creds : Credentials) : bool := cr_uid creds =? ROOT_UID.

Definition can_read_files (creds : Credentials) : bool := is_root creds || has_cap creds CAP_READ_FS.
Definition can_write_files (creds : Credentials) : bool := is_root creds || has_cap creds CAP_WRITE_FS.
Definition can_execute_files (creds : Credentials) : bool := is_root creds || has_cap creds CAP_EXEC.
Definition can_network (creds : Credentials) : bool := is_root creds || has_cap creds CAP_NETWORK.
Definition can_desktop (creds : Credentials) : bool := is_root creds || has_cap creds CAP_DESKTOP.
Definition can_admin (creds : Credentials) : bool := is_root creds || has_cap creds CAP_ADMIN.

Definition access_mask (access : Access) : Z :=
  match access with Read => 4 | Write => 2 | Execute => 1 end.

Definition mode_allows (creds : Credentials) (uid gid mode : Z) (access : Access) : bool :=
  if cr_uid creds =? ROOT_UID then true else
  let shift := if cr_uid creds =? uid then 6 else if cr_gid creds =? gid then 3 else 0 in
  negb (Z.land (Z.shiftr mode shift) (access_mask access) =? 0).

Definition can_read_metadata (creds : Credentials) (uid gid mode : Z) : bool :=
  can_read_files creds && mode_allows creds uid gid mode Read.
Definition can_write_metadata (creds : Credentials) (uid gid mode : Z) : bool :=
  can_write_files creds && mode_allows creds uid gid mode Write.
Definition can_execute_metadata (creds : Credentials) (uid gid mode : Z) : bool :=
  can_execute_files creds && mode_allows creds uid gid mode Execute.

(** [set_umask] and [apply_umask], on the value of [SecurityState::umask]. *)
Definition set_umask_value (mask : Z) : Z := Z.land mask MODE_MASK.
Definition apply_umask (umask mode : Z) : Z :=
  Z.land (Z.land mode (Z.lxor 0xffff umask)) MODE_MASK.

Definition token_caps (token : bytes) : Z :=
  let eqs s := bytes_eqb token s in
  if eqs (str "shell") then CAP_PACKAGE_SHELL
  else if eqs (str "filesystem") || eqs (str "files") then lors [CAP_READ_FS; CAP_WRITE_FS; CAP_DESKTOP]
  else if eqs (str "read-files") || eqs (str "read") then lors [CAP_READ_FS; CAP_DESKTOP]
  else if eqs (str "network") then lors [CAP_READ_FS; CAP_NETWORK; CAP_DESKTOP]
  else if eqs (str "desktop") then lors [CAP_READ_FS; CAP_DESKTOP]
  else if eqs (str "settings") then lors [CAP_READ_FS; CAP_WRITE_FS; CAP_SETTINGS; CAP_DESKTOP]
  else if eqs (str "diagnostics") then lors [CAP_READ_FS; CAP_DIAGNOSTICS; CAP_DESKTOP]
  else if eqs (str "user") || eqs [] then lors [CAP_READ_FS; CAP_DESKTOP]
  else CAP_READ_FS.

Definition COMMA : Z := 44.
Definition permission_tokens (permission : bytes) : list bytes := map trim (split_on COMMA permission).

Definition caps_for_permission (permission : bytes) : Z :=
  foldl (λ caps token, Z.lor caps (token_caps token)) CAP_EXEC (permission_tokens permission).

Definition is_protected_path (path : bytes) : bool :=
  let upper := to_ascii_uppercase path in
  let eqs s := bytes_eqb upper s in
  let below s := starts_with s upper in
  eqs (str "/") || eqs (str "/CONFIG") || eqs (str "/LOGS") || eqs (str "/DEV") || eqs (str "/APPS")
  || below (str "/CONFIG/") || below (str "/LOGS/") || below (str "/DEV/") || below (str "/APPS/").

Definition can_write_path (creds : Credentials) (path : bytes) : bool :=
  can_write_files creds && (is_root creds || negb (is_protected_path path)).

Definition push_cap (caps : Z) (out : bytes) (bit_label : Z * bytes) : bytes :=
  let '(bit, label) := bit_label in
  if Z.land caps bit =? 0 then out
  else (match out with [] => out | _ => out ++ str "," end) ++ label.

Definition capability_label (caps : Z) : bytes :=
  if Z.land caps CAP_ALL_USER =? CAP_ALL_USER then str "all" else
  let out := foldl (push_cap caps) []
    [(CAP_READ_FS, str "read-fs"); (CAP_WRITE_FS, str "write-fs"); (CAP_EXEC, str "exec");
     (CAP_NETWORK, str "network"); (CAP_DESKTOP, str "desktop"); (CAP_SETTINGS, str "settings");
     (CAP_DIAGNOSTICS, str "diagnostics"); (CAP_SHELL, str "shell"); (CAP_ADMIN, str "admin")] in
  match out with [] => str "none" | _ => out end.

Definition format_mode (mode : Z) : bytes :=
  [48 + Z.land (Z.shiftr mode 6) 7; 48 + Z.land (Z.shiftr mode 3) 7; 48 + Z.land mode 7].

Fixpoint parse_mode_digits (mode : Z) (text : bytes) : option Z :=
  match text with
  | [] => Some (Z.land mode MODE_MASK)
  | b :: text =>
      if negb ((48 <=? b) && (b <=? 55)) then None
      else parse_mode_digits (Z.lor (Z.shiftl mode 3 mod 2 ^ 16) (b - 48)) text
  end.

Definition parse_mode (text : bytes) : option Z :=
  if bytes_eqb text [] || (4 <? len text) then None else parse_mode_digits 0 text.

(** [default_mode_for_path] of vfs.rs *)
Definition default_mode_for_path (path : bytes) (is_dir : bool) : Z :=
  if is_dir && eq_ignore_ascii_case path (str "/TMP") then SHARED_TMP_MODE
  else if is_dir then DEFAULT_DIR_MODE
  else if starts_with (str "/bin/") path || eq_ignore_ascii_case path (str "/bin")
  then DEFAULT_EXEC_MODE else DEFAULT_FILE_MODE.

(** ** Bit lemmas *)
Lemma land_pow2 a i : 0 ≤ i → (Z.land a (2 ^ i) =? 0) = negb (Z.testbit a i).
Proof.
  intros Hi. destruct (Z.testbit a i) eqn:E; simpl.
  - apply Z.eqb_neq. intros H0. assert (Z.testbit (Z.land a (2 ^ i)) i = false) as Hf by (by rewrite H0, Z.bits_0).
    by rewrite Z.land_spec, E, Z.pow2_bits_true in Hf.
  - apply Z.eqb_eq, Z.bits_inj'. intros n Hn. rewrite Z.land_spec, Z.bits_0, Z.pow2_bits_eqb by done.
    destruct (Z.eqb_spec i n); [subst; by rewrite E|by rewrite andb_false_r].
Qed.

Lemma has_cap_bit creds i : 0 ≤ i → has_cap creds (2 ^ i) = Z.testbit (cr_caps creds) i.
Proof. intros Hi. unfold has_cap. by rewrite land_pow2, negb_involutive. Qed.

Lemma foldl_lor_testbit l caps i :
  Z.testbit (foldl (λ caps token, Z.lor caps (token_caps token)) caps l) i =
  Z.testbit caps i || existsb (λ t, Z.testbit (token_caps t) i) l.
Proof.
  revert caps. induction l as [|t l IH]; intros caps; simpl; [by rewrite orb_false_r|].
  by rewrite IH, Z.lor_spec, orb_assoc.
Qed.

Lemma caps_testbit permission i :
  Z.testbit (caps_for_permission permission) i =
  Z.testbit CAP_EXEC i || existsb (λ t, Z.testbit (token_caps t) i) (permission_tokens permission).
Proof. apply foldl_lor_testbit. Qed.

(** The bit of the mode that decides a non-root access. *)
Definition access_bit (access : Access) : Z := match access with Read => 2 | Write => 1 | Execute => 0 end.
Definition mode_class (creds : Credentials) (uid gid : Z) : Z :=
  if cr_uid creds =? uid then 6 else if cr_gid creds =? gid then 3 else 0.

Lemma mode_allows_bit creds uid gid mode access :
  mode_allows creds uid gid mode access =
  is_root creds || Z.testbit mode (mode_class creds uid gid + access_bit access).
Proof.
  unfold mode_allows, is_root, mode_class. case_if; simpl; [done|].
  set (sh := if cr_uid creds =? uid then 6 else _).
  assert (0 ≤ sh) by (unfold sh; repeat case_if; lia). clearbody sh.
  replace (access_mask access) with (2 ^ access_bit access) by (by destruct access).
  assert (0 ≤ access_bit access) by (by destruct access).
  rewrite land_pow2, negb_involutive, Z.shiftr_spec by done. f_equal. lia.
Qed.

(** Decide every comparison of a permission token with a literal. *)
Ltac token_cases t :=
  repeat match goal with
  | |- context [bytes_eqb t ?s] =>
      let E := fresh "E" in
      destruct (bytes_eqb t s) eqn:E;
      [apply bytes_eqb_eq in E; subst t; vm_compute; reflexivity|]
  end.

Lemma token_caps_admin t : Z.testbit (token_caps t) 8 = false.
Proof. unfold token_caps. token_cases t. reflexivity. Qed.
Lemma token_caps_shell t : Z.testbit (token_caps t) 7 = bytes_eqb t (str "shell").
Proof. unfold token_caps. token_cases t. reflexivity. Qed.
Lemma token_caps_network t :
  Z.testbit (token_caps t) 3 = bytes_eqb t (str "shell") || bytes_eqb t (str "network").
Proof. unfold token_caps. token_cases t. reflexivity. Qed.
Lemma token_caps_write t :
  Z.testbit (token_caps t) 1 =
  bytes_eqb t (str "shell") || bytes_eqb t (str "filesystem") || bytes_eqb t (str "files")
  || bytes_eqb t (str "settings").
Proof. unfold token_caps. token_cases t. reflexivity. Qed.

Lemma existsb_tokens (ts : list bytes) (p : bytes → bool) (names : list bytes) :
  (∀ t, p t = existsb (bytes_eqb t) names) → existsb p ts = existsb (λ n, existsb (bytes_eqb n) ts) names.
Proof.
  intros Hp. apply eq_true_iff_eq. rewrite !existsb_exists. setoid_rewrite existsb_exists. split.
  - intros (t & Ht & Hpt). rewrite Hp, existsb_exists in Hpt. destruct Hpt as (n & Hn & E).
    apply bytes_eqb_eq in E. subst. exists n. split; [done|]. exists n. split; [done|]. by apply bytes_eqb_eq.
  - intros (n & Hn & t & Ht & E). apply bytes_eqb_eq in E. subst. exists t. split; [done|].
    rewrite Hp, existsb_exists. exists t. split; [done|]. by apply bytes_eqb_eq.
Qed.

Definition requests (permission : bytes) (names : list bytes) : bool :=
  existsb (λ n, existsb (bytes_eqb n) (permission_tokens permission)) names.

(** What a package gets from its permission string.  No string grants the
    admin capability; shell access needs the word "shell", network access
    "shell" or "network", and write access "shell", "filesystem", "files" or
    "settings" among the comma-separated words. *)
Theorem package_capabilities uid gid permission :
  let creds := {| cr_uid := uid; cr_gid := gid; cr_caps := caps_for_permission permission |} in
  has_cap creds CAP_ADMIN = false ∧
  has_cap creds CAP_EXEC = true ∧
  has_cap creds CAP_SHELL = requests permission [str "shell"] ∧
  has_cap creds CAP_NETWORK = requests permission [str "shell"; str "network"] ∧
  has_cap creds CAP_WRITE_FS =
    requests permission [str "shell"; str "filesystem"; str "files"; str "settings"].
Proof.
  cbv zeta. unfold requests.
  change CAP_ADMIN with (2 ^ 8). change (has_cap _ CAP_EXEC) with (has_cap
    {| cr_uid := uid; cr_gid := gid; cr_caps := caps_for_permission permission |} (2 ^ 2)).
  change CAP_SHELL with (2 ^ 7). change CAP_NETWORK with (2 ^ 3). change CAP_WRITE_FS with (2 ^ 1).
  rewrite !has_cap_bit by lia. simpl cr_caps. rewrite !caps_testbit. split_and!.
  - apply not_true_is_false. intros H. rewrite orb_true_iff, existsb_exists in H.
    destruct H as [H|(t & _ & H)]; [done|by rewrite token_caps_admin in H].
  - done.
  - change (Z.testbit CAP_EXEC 7) with false. apply existsb_tokens. intros t. rewrite token_caps_shell. simpl. by rewrite orb_false_r.
  - change (Z.testbit CAP_EXEC 3) with false. apply existsb_tokens. intros t. rewrite token_caps_network. simpl. by rewrite orb_false_r.
  - change (Z.testbit CAP_EXEC 1) with false. apply existsb_tokens. intros t. rewrite token_caps_write. simpl.
    by rewrite orb_false_r, !orb_assoc.
Qed.

Definition metadata_access (creds : Credentials) (uid gid mode : Z) (access : Access) : bool :=
  match access with
  | Read => can_read_metadata creds uid gid mode
  | Write => can_write_metadata creds uid gid mode
  | Execute => can_execute_metadata creds uid gid mode
  end.
Definition access_cap (access : Access) : Z := match access with Read => 0 | Write => 1 | Execute => 2 end.

(** The access decision.  Root may do everything; anyone else needs both
    the capability for the access and the permission bit of exactly one class:
    the owner's if the uid matches, else the group's if the gid matches, else
    the others'. *)
Theorem access_decision creds uid gid mode access :
  metadata_access creds uid gid mode access =
  is_root creds ||
  (Z.testbit (cr_caps creds) (access_cap access) &&
   Z.testbit mode (mode_class creds uid gid + access_bit access)).
Proof.
  unfold metadata_access, can_read_metadata, can_write_metadata, can_execute_metadata,
    can_read_files, can_write_files, can_execute_files.
  rewrite !mode_allows_bit.
  change CAP_READ_FS with (2 ^ 0). change CAP_WRITE_FS with (2 ^ 1). change CAP_EXEC with (2 ^ 2).
  rewrite !has_cap_bit by lia. destruct access, (is_root creds); done.
Qed.

(** [apply_umask] clears exactly the bits of the mask and everything above
    the nine permission bits. *)
Theorem apply_umask_bits umask mode i :
  0 ≤ umask < 2 ^ 16 → 0 ≤ i →
  Z.testbit (apply_umask umask mode) i = Z.testbit mode i && negb (Z.testbit umask i) && (i <? 9).
Proof.
  intros Hu Hi. unfold apply_umask. change MODE_MASK with (Z.ones 9). change 0xffff with (Z.ones 16).
  rewrite !Z.land_spec, Z.lxor_spec, !Z.testbit_ones_nonneg by lia.
  destruct (Z.ltb_spec i 9); [|by rewrite !andb_false_r].
  rewrite (proj2 (Z.ltb_lt i 16)) by lia. by rewrite xorb_true_l.
Qed.

Lemma apply_umask_bits_witness : Z.testbit (apply_umask 0x12 0x1ff) 4 = Z.testbit 0x1ff 4 && negb (Z.testbit 0x12 4) && (4 <? 9).
Proof. apply (apply_umask_bits 0x12 0x1ff 4); lia. Defined.

Lemma parse_octal3 a b c :
  0 ≤ a < 8 → 0 ≤ b < 8 → 0 ≤ c < 8 →
  parse_mode [48 + a; 48 + b; 48 + c] = Some (a * 64 + b * 8 + c).
Proof.
  intros Ha Hb Hc.
  assert (forallb (λ a, forallb (λ b, forallb (λ c,
    bool_decide (parse_mode [48 + a; 48 + b; 48 + c] = Some (a * 64 + b * 8 + c)))
    (seqZ 0 8)) (seqZ 0 8)) (seqZ 0 8) = true) as Hall by (vm_compute; reflexivity).
  rewrite forallb_forall in Hall. specialize (Hall a). rewrite forallb_forall in Hall.
  specialize (Hall ltac:(apply list_elem_of_In, elem_of_seqZ; lia) b). rewrite forallb_forall in Hall.
  specialize (Hall ltac:(apply list_elem_of_In, elem_of_seqZ; lia) c).
  apply bool_decide_eq_true in Hall; [done|]. apply list_elem_of_In, elem_of_seqZ. lia.
Qed.

(** Modes survive being shown and typed back: [parse_mode] reads what
    [format_mode] prints as the nine permission bits of the mode. *)
Theorem parse_format_mode m : parse_mode (format_mode m) = Some (Z.land m MODE_MASK).
Proof.
  unfold format_mode. change 7 with (Z.ones 3). change MODE_MASK with (Z.ones 9).
  rewrite !Z.land_ones, !Z.shiftr_div_pow2 by lia.
  rewrite parse_octal3 by (apply Z.mod_pos_bound; lia). f_equal.
  change (2 ^ 3) with 8. change (2 ^ 6) with 64. change (2 ^ 9) with 512.
  Z.to_euclidean_division_equations. lia.
Qed.
