(* ===== verification/BlockCache.v ===== *)
(** * CoolFS block cache (src/src/coolfs.rs: [BlockCache], [read_disk_block],
      [write_disk_block])

    The write-back LRU cache of 4 KiB blocks between CoolFS and the sector
    store of Storage.v.  [Cached V] is the cache together with the volume [V]
    it sits on; the operations are state transformers that, as in the source,
    keep the changes made before an I/O error.  The theorems show that the
    cache is transparent: [view], the contents a client sees, changes only
    through [get_mut], on every path including failed I/O. *)
From S2P Require Import Prelude DiskLayout Storage Paths.
Set Warnings "-clear-no-such-hyp".

Local Open Scope Z_scope.
Local Open Scope st_scope.

Definition SECTORS_PER_BLOCK : Z := 8.
Definition BLOCK_SIZE : Z := 4096.
Definition TOTAL_BLOCKS : Z := 1536.
Definition CACHE_SLOTS : Z := 64.

Record CacheEntry := { ce_block : Z; ce_data : bytes; ce_dirty : bool; ce_age : Z }.
Record BlockCache := { entries : list CacheEntry; clock : Z }.
Record Cached (V : Type) := { cache : BlockCache; disk : V }.
Arguments cache {V}. Arguments disk {V}.

Definition BlockCache_new : BlockCache := {| entries := []; clock := 0 |}.

Definition with_clean_block (block : Z) (data : bytes) : BlockCache :=
  {| entries := entries BlockCache_new ++
       [{| ce_block := block; ce_data := data; ce_dirty := false; ce_age := 1 |}];
     clock := 1 |}.

Definition cached_blocks (c : BlockCache) : Z := len (entries c) mod 2 ^ 32.
Definition dirty_blocks (c : BlockCache) : Z := len (List.filter ce_dirty (entries c)) mod 2 ^ 32.

(** [iter().enumerate().filter(p).min_by_key(age)]: the first entry of least age. *)
Fixpoint min_by_age_from (p : CacheEntry → bool) (i : nat) (l : list CacheEntry)
    (best : option (nat * CacheEntry)) : option (nat * CacheEntry) :=
  match l with
  | [] => best
  | e :: l =>
      let best' :=
        if p e then
          match best with
          | Some (_, b) => if ce_age e <? ce_age b then Some (i, e) else best
          | None => Some (i, e)
          end
        else best in
      min_by_age_from p (S i) l best'
  end.

Definition min_by_age (p : CacheEntry → bool) (l : list CacheEntry) : option (nat * CacheEntry) :=
  min_by_age_from p 0 l None.

Definition set_age (age : Z) (e : CacheEntry) : CacheEntry :=
  {| ce_block := ce_block e; ce_data := ce_data e; ce_dirty := ce_dirty e; ce_age := age |}.
Definition set_clean (e : CacheEntry) : CacheEntry :=
  {| ce_block := ce_block e; ce_data := ce_data e; ce_dirty := false; ce_age := ce_age e |}.
(** Marking an entry dirty and writing through the [&mut] to its data. *)
Definition set_data (f : bytes → bytes) (e : CacheEntry) : CacheEntry :=
  {| ce_block := ce_block e; ce_data := f (ce_data e); ce_dirty := true; ce_age := ce_age e |}.

(** The loop of [trim_clean]; [fuel] bounds the number of removals. *)
Fixpoint trim_loop (fuel : nat) (keep removed : Z) (l : list CacheEntry) : Z * list CacheEntry :=
  match fuel with
  | O => (removed, l)
  | S fuel =>
      if keep <? len l then
        match min_by_age (λ e, negb (ce_dirty e) && negb (ce_block e =? 0)) l with
        | None => (removed, l)
        | Some (idx, _) => trim_loop fuel keep (saturating_add 64 removed 1) (delete idx l)
        end
      else (removed, l)
  end.

Section operations.
Context {V : Type} `{SectorStore V}.

Definition read_sector_io (lba : Z) : ST V FsError bytes :=
  λ d, match sread lba d with
       | (Some sec, d') => (Ok sec, d')
       | (None, d') => (Err Io, d')
       end.

Definition write_sector_io (lba : Z) (sec : bytes) : ST V FsError unit :=
  λ d, match swrite lba sec d with
       | (true, d') => (Ok tt, d')
       | (false, d') => (Err Io, d')
       end.

Fixpoint read_sectors (base : Z) (sectors : list Z) (out : bytes) : ST V FsError bytes :=
  match sectors with
  | [] => ret out
  | sector :: sectors =>
      let! sec := read_sector_io (base + sector) in
      read_sectors base sectors (splice out (sector * SECTOR_SIZE) sec)
  end.

Definition read_disk_block (block : Z) : ST V FsError bytes :=
  if TOTAL_BLOCKS <=? block then throw Io else
  let! base_lba := lift_option Io (checked_mul 32 block SECTORS_PER_BLOCK) in
  read_sectors base_lba (seqZ 0 SECTORS_PER_BLOCK) (zeros BLOCK_SIZE).

Definition write_disk_block (block : Z) (data : bytes) : ST V FsError unit :=
  if TOTAL_BLOCKS <=? block then throw Io else
  let! base_lba := lift_option Io (checked_mul 32 block SECTORS_PER_BLOCK) in
  for_each
    (λ sector, write_sector_io (base_lba + sector) (slice data (sector * SECTOR_SIZE) SECTOR_SIZE))
    (seqZ 0 SECTORS_PER_BLOCK).

Definition on_disk {E A} (m : ST V E A) : ST (Cached V) E A :=
  λ s, let (r, d) := m (disk s) in (r, {| cache := cache s; disk := d |}).
Definition get_cache {E} : ST (Cached V) E BlockCache := λ s, (Ok (cache s), s).
Definition put_cache {E} (c : BlockCache) : ST (Cached V) E unit :=
  λ s, (Ok tt, {| cache := c; disk := disk s |}).

Definition cache_index (block : Z) : ST (Cached V) FsError nat :=
  if TOTAL_BLOCKS <=? block then throw Io else
  let! c := get_cache in
  let clk := Z.max (wrapping_add 64 (clock c) 1) 1 in
  put_cache {| entries := entries c; clock := clk |} ;;!
  match position (λ e, ce_block e =? block) (entries c) with
  | Some idx =>
      put_cache {| entries := alter (set_age clk) idx (entries c); clock := clk |} ;;!
      ret idx
  | None =>
      let! data := on_disk (read_disk_block block) in
      let fresh := {| ce_block := block; ce_data := data; ce_dirty := false; ce_age := clk |} in
      if len (entries c) <? CACHE_SLOTS then
        put_cache {| entries := entries c ++ [fresh]; clock := clk |} ;;!
        ret (length (entries c))
      else
        let! evict := lift_option Io (min_by_age (λ _, true) (entries c)) in
        (if ce_dirty (snd evict)
         then on_disk (write_disk_block (ce_block (snd evict)) (ce_data (snd evict)))
         else ret tt) ;;!
        put_cache {| entries := <[fst evict := fresh]> (entries c); clock := clk |} ;;!
        ret (fst evict)
  end.

(** [entries[idx]], which exists for every index [cache_index] returns. *)
Definition entry_at (c : BlockCache) (idx : nat) : CacheEntry :=
  nth idx (entries c) {| ce_block := 0; ce_data := []; ce_dirty := false; ce_age := 0 |}.

Definition get (block : Z) : ST (Cached V) FsError bytes :=
  let! idx := cache_index block in
  let! c := get_cache in
  ret (ce_data (entry_at c idx)).

(** [get_mut] followed by the assignment [f] through the returned reference. *)
Definition get_mut (block : Z) (f : bytes → bytes) : ST (Cached V) FsError unit :=
  let! idx := cache_index block in
  let! c := get_cache in
  put_cache {| entries := alter (set_data f) idx (entries c); clock := clock c |}.

(** The loop of [flush]: entries already written stay clean when a later one fails. *)
Fixpoint flush_entries (l : list CacheEntry) : V → result FsError unit * list CacheEntry * V :=
  match l with
  | [] => λ d, (Ok tt, [], d)
  | e :: l =>
      λ d,
        if ce_dirty e then
          match write_disk_block (ce_block e) (ce_data e) d with
          | (Ok _, d') => let '(r, l', d'') := flush_entries l d' in (r, set_clean e :: l', d'')
          | (Err err, d') => (Err err, e :: l, d')
          end
        else let '(r, l', d') := flush_entries l d in (r, e :: l', d')
  end.

Definition flush : ST (Cached V) FsError unit :=
  λ s, let '(r, l, d) := flush_entries (entries (cache s)) (disk s) in
       (r, {| cache := {| entries := l; clock := clock (cache s) |}; disk := d |}).

Definition trim_clean (keep_blocks : Z) : ST (Cached V) FsError Z :=
  λ s, let '(removed, l) := trim_loop (length (entries (cache s))) keep_blocks 0 (entries (cache s)) in
       (Ok (saturating_mul 64 removed BLOCK_SIZE),
        {| cache := {| entries := l; clock := clock (cache s) |}; disk := disk s |}).

End operations.

(** The entry that caches a block. *)
Fixpoint cached (b : Z) (l : list CacheEntry) : option CacheEntry :=
  match l with
  | [] => None
  | e :: l => if ce_block e =? b then Some e else cached b l
  end.

Definition block_in_range (b : Z) : Prop := 0 ≤ b < TOTAL_BLOCKS.

Section view.
Context {V : Type} `{SectorStoreLaws V}.

(** The 4 KiB of a block on the volume. *)
Definition disk_block (d : V) (b : Z) : bytes :=
  concat (map (λ k, scontents d (b * SECTORS_PER_BLOCK + k)) (seqZ 0 SECTORS_PER_BLOCK)).

(** What CoolFS sees of block [b]: the cached copy, or the volume. *)
Definition view (s : Cached V) (b : Z) : bytes :=
  match cached b (entries (cache s)) with
  | Some e => ce_data e
  | None => disk_block (disk s) b
  end.

Definition entry_ok (d : V) (e : CacheEntry) : Prop :=
  block_in_range (ce_block e) ∧ len (ce_data e) = BLOCK_SIZE ∧ Forall is_byte (ce_data e) ∧
  (ce_dirty e = false → ce_data e = disk_block d (ce_block e)).

Definition cache_inv (s : Cached V) : Prop :=
  sinv (disk s) ∧ NoDup (ce_block <$> entries (cache s)) ∧
  len (entries (cache s)) ≤ CACHE_SLOTS ∧ Forall (entry_ok (disk s)) (entries (cache s)).

Definition same_view (s s' : Cached V) : Prop :=
  ∀ b, block_in_range b → view s' b = view s b.
End view.

(** ** The cached entries as a finite map *)
Section cached_lemmas.
Implicit Types (l : list CacheEntry) (e : CacheEntry).

Lemma cached_Some b l e : cached b l = Some e → e ∈ l ∧ ce_block e = b.
Proof.
  induction l as [|x l IH]; simpl; [done|]. case_if as E.
  - intros [= ->]. apply Z.eqb_eq in E. split; [by left|done].
  - intros [??]%IH. split; [by right|done].
Qed.

Lemma cached_None b l : cached b l = None ↔ b ∉ ce_block <$> l.
Proof.
  induction l as [|x l IH]; simpl; [split; [intros _; apply not_elem_of_nil|done]|].
  rewrite not_elem_of_cons, <- IH. case_if as E; zbool; naive_solver.
Qed.

Lemma cached_lookup l i e :
  NoDup (ce_block <$> l) → l !! i = Some e → cached (ce_block e) l = Some e.
Proof.
  revert i. induction l as [|x l IH]; intros i Hnd Hi; [done|].
  csimpl in *. apply NoDup_cons in Hnd as [Hx Hnd]. destruct i as [|i]; csimpl in *.
  - injection Hi as ->. by rewrite Z.eqb_refl.
  - case_if as E; [|by eapply IH]. apply Z.eqb_eq in E. destruct Hx. rewrite E.
    apply list_elem_of_fmap. exists e. split; [done|]. by eapply list_elem_of_lookup_2.
Qed.

Lemma cached_snoc b l e :
  cached b (l ++ [e]) =
  match cached b l with Some x => Some x | None => if ce_block e =? b then Some e else None end.
Proof. induction l as [|x l IH]; simpl; [done|]. by case_if. Qed.

Lemma cached_insert b l i e e' :
  NoDup (ce_block <$> l) → l !! i = Some e →
  ce_block e' = ce_block e ∨ ce_block e' ∉ ce_block <$> l →
  cached b (<[i:=e']> l) =
  if ce_block e' =? b then Some e' else if ce_block e =? b then None else cached b l.
Proof.
  revert i. induction l as [|x l IH]; intros i Hnd Hi Hb; [done|].
  csimpl in *. apply NoDup_cons in Hnd as [Hx Hnd]. destruct i as [|i]; csimpl in *.
  - injection Hi as ->. case_if as E1; [done|].
    case_if as E2; [|done]. apply Z.eqb_eq in E2 as <-. by apply cached_None.
  - assert (ce_block e ∈ ce_block <$> l) as Hel
      by (apply list_elem_of_fmap; exists e; split; [done|]; by eapply list_elem_of_lookup_2).
    rewrite IH; [|done..|destruct Hb as [|Hb]; [by left|right; by intros ?; apply Hb; right]].
    destruct (ce_block x =? b) eqn:E; [|done]. apply Z.eqb_eq in E as <-.
    case_if as E1; zbool.
    { exfalso. destruct Hb as [Hb|Hb]; [by rewrite <- Hb, E1 in Hel|apply Hb; rewrite E1; left]. }
    case_if as E2; zbool; [by rewrite E2 in Hel|done].
Qed.

Lemma cached_alter b l i e f :
  NoDup (ce_block <$> l) → l !! i = Some e → ce_block (f e) = ce_block e →
  cached b (alter f i l) = if ce_block e =? b then Some (f e) else cached b l.
Proof.
  intros Hnd Hi Hf. rewrite (alter_as_insert _ _ _ _ Hi).
  rewrite (cached_insert _ _ _ _ _ Hnd Hi) by auto. rewrite Hf. by case_if.
Qed.

Lemma position_cached b l :
  match position (λ e, ce_block e =? b) l with
  | Some i => ∃ e, l !! i = Some e ∧ ce_block e = b ∧ cached b l = Some e
  | None => cached b l = None
  end.
Proof.
  induction l as [|x l IH]; simpl; [done|]. destruct (ce_block x =? b) eqn:E.
  - apply Z.eqb_eq in E. by exists x.
  - by destruct (position _ l).
Qed.

Lemma blocks_alter f i l :
  (∀ e, ce_block (f e) = ce_block e) → ce_block <$> alter f i l = ce_block <$> l.
Proof.
  intros Hf. revert i. induction l as [|x l IH]; intros [|i]; csimpl; by rewrite ?Hf, ?IH.
Qed.
End cached_lemmas.

(** ** Sectors and blocks of the volume *)
Section disk_lemmas.
Context {V : Type} `{SectorStoreLaws V}.
Implicit Types d : V.

Lemma seqZ_S k n : seqZ k (Z.of_nat (S n)) = k :: seqZ (k + 1) (Z.of_nat n).
Proof. rewrite seqZ_cons by lia. f_equal. f_equal; lia. Qed.

Lemma splice_zeros (P : bytes) sec n :
  len sec ≤ n → splice (P ++ zeros n) (len P) sec = P ++ sec ++ zeros (n - len sec).
Proof.
  intros Hn. unfold splice, zeros, len in *. rewrite Nat2Z.id, take_app_length.
  f_equal. f_equal. rewrite <- drop_drop, drop_app_length, drop_replicate.
  f_equal. lia.
Qed.

Lemma read_sectors_spec base n k P d r d' :
  sinv d → 0 ≤ base → 0 ≤ k → len P = k * SECTOR_SIZE → Forall is_byte P →
  read_sectors base (seqZ k (Z.of_nat n)) (P ++ zeros (Z.of_nat n * SECTOR_SIZE)) d = (r, d') →
  sinv d' ∧ (∀ l, 0 ≤ l → scontents d' l = scontents d l) ∧
  match r with
  | Ok out => out = P ++ concat (map (λ s, scontents d (base + s)) (seqZ k (Z.of_nat n))) ∧
              len out = (k + Z.of_nat n) * SECTOR_SIZE ∧ Forall is_byte out
  | Err e => e = Io
  end.
Proof.
  intros Hd Hbase. revert k P d Hd. induction n as [|n IH]; intros k P d Hd Hk HP Hby.
  - cbn. intros [= <- <-]. rewrite app_nil_r. split_and!; [done|done|..|done].
    + by rewrite app_nil_r.
    + rewrite HP. lia.
  - rewrite seqZ_S. cbn [read_sectors bind]. unfold bind, read_sector_io.
    destruct (sread (base + k) d) as [[sec|] d1] eqn:E; cycle 1.
    { intros [= <- <-]. destruct (sread_law (base + k) _ _ _ Hd ltac:(lia) E) as (? & ? & _). done. }
    destruct (sread_law (base + k) _ _ _ Hd ltac:(lia) E) as (Hd1 & Heq & Hsec).
    destruct (Hsec _ eq_refl) as (-> & Hlen & Hsb).
    rewrite <- HP, splice_zeros by (rewrite Hlen; unfold SECTOR_SIZE; lia).
    rewrite Hlen, app_assoc.
    replace (Z.of_nat (S n) * SECTOR_SIZE - SECTOR_SIZE) with (Z.of_nat n * SECTOR_SIZE) by lia.
    intros Hrun. apply IH in Hrun; [|done|lia|rewrite len_app, HP, Hlen; lia|by apply Forall_app].
    destruct Hrun as (Hd' & Heq' & Hr). split_and!; [done| |].
    { intros l Hl. by rewrite Heq', Heq. }
    destruct r as [out|e]; [|done]. destruct Hr as (-> & Hl & Hb). split_and!; [|lia|done].
    cbn [map concat]. rewrite <- app_assoc. do 2 f_equal.
    f_equal. apply map_ext_in. intros s Hs%list_elem_of_In%elem_of_seqZ. rewrite Heq; [done|lia].
Qed.

Lemma write_sectors_spec base data ss d r d' :
  sinv d → (∀ k, k ∈ ss → 0 ≤ base + k) → NoDup ss →
  for_each (λ k, write_sector_io (base + k) (slice data (k * SECTOR_SIZE) SECTOR_SIZE)) ss d = (r, d') →
  sinv d' ∧ (∀ l, 0 ≤ l → (∀ k, k ∈ ss → l ≠ base + k) → scontents d' l = scontents d l) ∧
  match r with
  | Ok _ => ∀ k, k ∈ ss → scontents d' (base + k) = slice data (k * SECTOR_SIZE) SECTOR_SIZE
  | Err e => e = Io
  end.
Proof.
  intros Hd Hb Hnd. revert d Hd. induction ss as [|k ss IH]; intros d Hd; simpl.
  - intros [= <- <-]. split_and!; [done|done|]. by intros k Hk%not_elem_of_nil.
  - unfold bind at 1, write_sector_io at 1. apply NoDup_cons in Hnd as [Hk Hnd].
    pose proof (Hb k ltac:(by left)) as Hbk.
    destruct (swrite (base + k) _ d) as [[|] d1] eqn:E;
      destruct (swrite_law (base + k) _ _ _ _ Hd Hbk E) as (Hd1 & Heq & Hw); cycle 1.
    { intros [= <- <-]. split_and!; [done| |done].
      intros l Hl Hne. apply Heq; [done|]. apply Hne. by left. }
    intros Hrun. apply IH in Hrun as (Hd' & Heq' & Hr);
      [|by intros ? ?; apply Hb; right|done|done].
    split_and!; [done| |].
    { intros l Hl Hne. rewrite Heq'; [apply Heq; [done|apply Hne; by left]|done|].
      intros k' Hk'. apply Hne. by right. }
    destruct r as [[]|e]; [|done]. intros k' [->|Hk']%elem_of_cons; [|by apply Hr].
    rewrite Heq'; [by apply Hw|done|]. intros k' Hk' ?. assert (k' = k) by lia. by subst.
Qed.

Lemma concat_slices (data : bytes) n k :
  0 ≤ k → concat (map (λ s, slice data (s * SECTOR_SIZE) SECTOR_SIZE) (seqZ k (Z.of_nat n))) =
          slice data (k * SECTOR_SIZE) (Z.of_nat n * SECTOR_SIZE).
Proof.
  revert k. induction n as [|n IH]; intros k Hk; [done|].
  rewrite seqZ_S. cbn [map concat]. rewrite IH by lia. unfold slice, SECTOR_SIZE.
  replace (Z.to_nat (Z.of_nat (S n) * 512)) with (512 + Z.to_nat (Z.of_nat n * 512))%nat by lia.
  rewrite <- take_take_drop, drop_drop. repeat f_equal. lia.
Qed.

Lemma disk_block_ext d d' b :
  (∀ k, 0 ≤ k < SECTORS_PER_BLOCK →
     scontents d' (b * SECTORS_PER_BLOCK + k) = scontents d (b * SECTORS_PER_BLOCK + k)) →
  disk_block d' b = disk_block d b.
Proof.
  intros Heq. unfold disk_block. f_equal. apply map_ext_in.
  intros k Hk%list_elem_of_In%elem_of_seqZ. apply Heq. lia.
Qed.

Lemma checked_lba b :
  block_in_range b → checked_mul 32 b SECTORS_PER_BLOCK = Some (b * SECTORS_PER_BLOCK).
Proof.
  unfold block_in_range, TOTAL_BLOCKS, checked_mul, SECTORS_PER_BLOCK. intros.
  by rewrite (proj2 (Z.ltb_lt _ _)) by lia.
Qed.

Lemma read_disk_block_spec b d r d' :
  sinv d → block_in_range b → read_disk_block b d = (r, d') →
  sinv d' ∧ (∀ b', block_in_range b' → disk_block d' b' = disk_block d b') ∧
  match r with
  | Ok out => out = disk_block d b ∧ len out = BLOCK_SIZE ∧ Forall is_byte out
  | Err e => e = Io
  end.
Proof.
  intros Hd Hb. unfold read_disk_block.
  rewrite (proj2 (Z.leb_gt _ _)) by (unfold block_in_range in Hb; lia).
  rewrite checked_lba by done. cbn [lift_option of_option lift_result bind].
  unfold bind, lift_option, lift_result, of_option.
  intros Hrun. apply (read_sectors_spec _ 8 0 []) in Hrun as (Hd' & Heq & Hr);
    [|done|unfold block_in_range, SECTORS_PER_BLOCK in *; lia|done|done|done].
  split_and!; [done| |by destruct r].
  intros b' Hb'. apply disk_block_ext. intros. apply Heq.
  unfold block_in_range, SECTORS_PER_BLOCK in *. lia.
Qed.

Lemma write_disk_block_spec b data d r d' :
  sinv d → block_in_range b → len data = BLOCK_SIZE → write_disk_block b data d = (r, d') →
  sinv d' ∧ (∀ b', block_in_range b' → b' ≠ b → disk_block d' b' = disk_block d b') ∧
  match r with Ok _ => disk_block d' b = data | Err e => e = Io end.
Proof.
  intros Hd Hb Hlen. unfold write_disk_block.
  rewrite (proj2 (Z.leb_gt _ _)) by (unfold block_in_range in Hb; lia).
  rewrite checked_lba by done. unfold bind, lift_option, lift_result, of_option.
  intros Hrun. apply write_sectors_spec in Hrun as (Hd' & Heq & Hr);
    [|done|intros k Hk%elem_of_seqZ; unfold block_in_range, SECTORS_PER_BLOCK in *; lia|apply NoDup_seqZ].
  split_and!; [done| |].
  - intros b' Hb' Hne. apply disk_block_ext. intros k Hk. apply Heq.
    + unfold block_in_range, SECTORS_PER_BLOCK in *. lia.
    + intros k' Hk'%elem_of_seqZ. unfold SECTORS_PER_BLOCK in *. lia.
  - destruct r as [[]|e]; [|done]. unfold disk_block.
    transitivity (slice data (0 * SECTOR_SIZE) (Z.of_nat 8 * SECTOR_SIZE)).
    + rewrite <- concat_slices by lia. f_equal. apply map_ext_in.
      intros k Hk%list_elem_of_In. by apply Hr.
    + unfold slice, len, BLOCK_SIZE, SECTOR_SIZE in *. apply take_ge. rewrite ?length_drop. lia.
Qed.
End disk_lemmas.

(** ** The eviction choice *)
Definition oldest (p : CacheEntry → bool) (l : list CacheEntry) (i : nat) (e : CacheEntry) : Prop :=
  l !! i = Some e ∧ p e = true ∧ ∀ j e', l !! j = Some e' → p e' = true → ce_age e ≤ ce_age e'.

Lemma min_by_age_from_spec p l pre best :
  match best with
  | Some (i, e) => oldest p pre i e
  | None => ∀ e, e ∈ pre → p e = false
  end →
  match min_by_age_from p (length pre) l best with
  | Some (i, e) => oldest p (pre ++ l) i e
  | None => ∀ e, e ∈ pre ++ l → p e = false
  end.
Proof.
  revert pre best. induction l as [|x l IH]; intros pre best Hb; simpl.
  - by rewrite app_nil_r.
  - replace (pre ++ x :: l) with ((pre ++ [x]) ++ l) by (by rewrite <- app_assoc).
    replace (S (length pre)) with (length (pre ++ [x])) by (rewrite length_app; simpl; lia).
    apply IH. destruct (p x) eqn:Hp.
    + assert (∀ e, (∀ j e', pre !! j = Some e' → p e' = true → ce_age e ≤ ce_age e') →
                   ce_age e ≤ ce_age x → ∀ j e', (pre ++ [x]) !! j = Some e' → p e' = true → ce_age e ≤ ce_age e') as Hsnoc.
      { intros e He Hx j e' [Hj|[? Hj]]%lookup_app_Some; [by eapply He|].
        apply list_lookup_singleton_Some in Hj as [_ <-]. done. }
      assert ((pre ++ [x]) !! length pre = Some x) as Hlast by (by rewrite lookup_app_r, Nat.sub_diag by lia).
      destruct best as [[i e]|].
      * destruct Hb as (Hi & Hpe & Hmin). case_if as E; zbool.
        -- split_and!; [done|done|]. apply Hsnoc; [|lia]. intros j e' Hj Hpe'.
           specialize (Hmin _ _ Hj Hpe'). lia.
        -- split_and!; [by apply lookup_app_l_Some|done|]. by apply Hsnoc.
      * split_and!; [done|done|]. apply Hsnoc; [|lia].
        intros j e' Hj Hpe'. rewrite (Hb e') in Hpe'; [done|by eapply list_elem_of_lookup_2].
    + destruct best as [[i e]|].
      * destruct Hb as (Hi & Hpe & Hmin). split_and!; [by apply lookup_app_l_Some|done|].
        intros j e' [Hj|[? Hj]]%lookup_app_Some Hpe'; [by eapply Hmin|].
        apply list_lookup_singleton_Some in Hj as [_ <-]. congruence.
      * intros e [He|He%list_elem_of_singleton]%elem_of_app; [by apply Hb|by subst].
Qed.

Lemma min_by_age_spec p l :
  match min_by_age p l with
  | Some (i, e) => oldest p l i e
  | None => ∀ e, e ∈ l → p e = false
  end.
Proof. apply (min_by_age_from_spec p l [] None). intros e He. by apply not_elem_of_nil in He. Qed.

(** ** The view through the cache *)
Section view_lemmas.
Context {V : Type} `{SectorStoreLaws V}.
Implicit Types (s : Cached V) (d : V) (c : BlockCache).

Lemma entry_ok_same d d' e :
  (∀ b, block_in_range b → disk_block d' b = disk_block d b) → entry_ok d e → entry_ok d' e.
Proof. intros Heq (Hb & ? & ? & Hc). split_and!; [done..|]. intros. rewrite Heq by done. auto. Qed.

Lemma entries_ok_same d d' l :
  (∀ b, block_in_range b → disk_block d' b = disk_block d b) →
  Forall (entry_ok d) l → Forall (entry_ok d') l.
Proof. intros Heq Hl. eapply Forall_impl; [exact Hl|]. intros e. by apply entry_ok_same. Qed.

Lemma view_disk s s' b :
  block_in_range b → entries (cache s') = entries (cache s) →
  (∀ b, block_in_range b → disk_block (disk s') b = disk_block (disk s) b) → view s' b = view s b.
Proof. intros Hb He Heq. unfold view. rewrite He. destruct (cached _ _); [done|]. by apply Heq. Qed.

(** A block that was read into a free slot. *)
Lemma view_push c clk d b b' data age :
  cached b (entries c) = None → data = disk_block d b →
  view {| cache := {| entries := entries c ++
             [{| ce_block := b; ce_data := data; ce_dirty := false; ce_age := age |}]; clock := clk |};
          disk := d |} b' = view {| cache := c; disk := d |} b'.
Proof.
  intros Hn ->. unfold view. simpl. rewrite cached_snoc.
  destruct (cached b' (entries c)); [done|]. simpl. case_if as E; [|done]. by apply Z.eqb_eq in E as <-.
Qed.

(** A block that replaced the clean (or written back) entry [e]. *)
Lemma view_replace c clk d b b' i e data age :
  NoDup (ce_block <$> entries c) → entries c !! i = Some e →
  cached b (entries c) = None → data = disk_block d b → ce_data e = disk_block d (ce_block e) →
  view {| cache := {| entries := <[i := {| ce_block := b; ce_data := data; ce_dirty := false;
                                           ce_age := age |}]> (entries c); clock := clk |};
          disk := d |} b' = view {| cache := c; disk := d |} b'.
Proof.
  intros Hnd Hi Hn -> He. unfold view. simpl.
  rewrite (cached_insert _ _ _ _ _ Hnd Hi) by (right; by apply cached_None). simpl.
  destruct (b =? b') eqn:E; [apply Z.eqb_eq in E as <-; by rewrite Hn|].
  destruct (ce_block e =? b') eqn:E'; [|done].
  apply Z.eqb_eq in E' as <-. by rewrite (cached_lookup _ _ _ Hnd Hi).
Qed.

(** Writing the cached block [e] back changes no one's view. *)
Lemma view_writeback c clk d d' b i e :
  NoDup (ce_block <$> entries c) → entries c !! i = Some e → block_in_range b →
  (∀ b, block_in_range b → b ≠ ce_block e → disk_block d' b = disk_block d b) →
  view {| cache := {| entries := entries c; clock := clk |}; disk := d' |} b =
  view {| cache := c; disk := d |} b.
Proof.
  intros Hnd Hi Hb Heq. unfold view. simpl. destruct (cached b (entries c)) eqn:E; [done|].
  apply Heq; [done|]. intros ->. by rewrite (cached_lookup _ _ _ Hnd Hi) in E.
Qed.

Lemma blocks_insert_fresh (l : list CacheEntry) i e' :
  NoDup (ce_block <$> l) → ce_block e' ∉ ce_block <$> l → NoDup (ce_block <$> <[i:=e']> l).
Proof. intros. rewrite list_fmap_insert. by apply NoDup_insert_fresh. Qed.

Lemma cache_inv_clock s clk :
  cache_inv s → cache_inv {| cache := {| entries := entries (cache s); clock := clk |}; disk := disk s |}.
Proof. done. Qed.

Lemma cache_inv_alter s i f clk :
  (∀ e, ce_block (f e) = ce_block e) → (∀ e, entry_ok (disk s) e → entry_ok (disk s) (f e)) →
  cache_inv s →
  cache_inv {| cache := {| entries := alter f i (entries (cache s)); clock := clk |}; disk := disk s |}.
Proof.
  intros Hf Hok (Hd & Hnd & Hlen & Hall). split_and!; simpl; [done| | |].
  - by rewrite blocks_alter.
  - unfold len in *. by rewrite length_alter.
  - apply Forall_alter; [done|]. intros x ? ?. by apply Hok.
Qed.

Lemma cache_inv_push s b data age clk d' :
  cache_inv s → sinv d' → (∀ b, block_in_range b → disk_block d' b = disk_block (disk s) b) →
  block_in_range b → cached b (entries (cache s)) = None → len (entries (cache s)) < CACHE_SLOTS →
  data = disk_block d' b → len data = BLOCK_SIZE → Forall is_byte data →
  cache_inv {| cache := {| entries := entries (cache s) ++
     [{| ce_block := b; ce_data := data; ce_dirty := false; ce_age := age |}]; clock := clk |}; disk := d' |}.
Proof.
  intros (Hd & Hnd & Hlen & Hall) Hd' Heq Hb Hn Hroom Hdata Hl Hby. split_and!; simpl; [done| | |].
  - rewrite fmap_app. apply NoDup_app. split_and!; [done| |csimpl; apply NoDup_singleton].
    intros x Hx ->%list_elem_of_singleton. by apply cached_None in Hn.
  - rewrite len_app. change (len [_]) with 1. lia.
  - apply Forall_app. split; [by eapply entries_ok_same|]. apply Forall_singleton. done.
Qed.

Lemma cache_inv_replace s i b data age clk d' :
  cache_inv s → sinv d' → Forall (λ e, entry_ok d' e) (delete i (entries (cache s))) →
  block_in_range b → cached b (entries (cache s)) = None →
  data = disk_block d' b → len data = BLOCK_SIZE → Forall is_byte data →
  cache_inv {| cache := {| entries := <[i := {| ce_block := b; ce_data := data; ce_dirty := false;
     ce_age := age |}]> (entries (cache s)); clock := clk |}; disk := d' |}.
Proof.
  intros (Hd & Hnd & Hlen & Hall) Hd' Hok Hb Hn Hdata Hl Hby. split_and!; simpl; [done| | |].
  - apply blocks_insert_fresh; [done|]. by apply cached_None.
  - unfold len in *. by rewrite length_insert.
  - apply Forall_lookup. intros j e [(-> & <- & _)|(Hij & Hj)]%list_lookup_insert_Some; [done|].
    rewrite Forall_lookup in Hok. destruct (decide (j < i)%nat).
    + apply (Hok j). by rewrite list_lookup_delete_lt.
    + apply (Hok (pred j)). rewrite list_lookup_delete_ge by lia. by replace (S (pred j)) with j by lia.
Qed.
End view_lemmas.

Section cache_index.
Context {V : Type} `{SectorStoreLaws V}.
Implicit Types (s : Cached V) (d : V).

Lemma entries_ok_writeback d d' l i e :
  NoDup (ce_block <$> l) → l !! i = Some e → Forall (entry_ok d) l →
  (∀ b, block_in_range b → b ≠ ce_block e → disk_block d' b = disk_block d b) →
  Forall (entry_ok d') (delete i l).
Proof.
  intros Hnd Hi Hall Heq. apply Forall_lookup. intros j x Hj.
  assert (∃ k, k ≠ i ∧ l !! k = Some x) as (k & Hki & Hk).
  { destruct (decide (j < i)%nat); [rewrite list_lookup_delete_lt in Hj by lia|
      rewrite list_lookup_delete_ge in Hj by lia]; eexists; (split; [|exact Hj]); lia. }
  destruct (Forall_lookup_1 _ _ _ _ Hall Hk) as (Hb & ? & ? & Hc).
  split_and!; [done..|]. intros Hcl. rewrite Heq; [by apply Hc|done|].
  intros E. apply Hki. eapply NoDup_lookup; [exact Hnd|..]; rewrite list_lookup_fmap.
  - by rewrite Hk; csimpl; rewrite E.
  - by rewrite Hi.
Qed.

(** The volume after the optional write-back of the evicted entry [e]. *)
Lemma writeback_spec s d1 i e r s2 :
  cache_inv s → sinv d1 → (∀ b, block_in_range b → disk_block d1 b = disk_block (disk s) b) →
  entries (cache s) !! i = Some e →
  (if ce_dirty e then on_disk (write_disk_block (ce_block e) (ce_data e)) else ret tt)
    {| cache := cache s; disk := d1 |} = (r, s2) →
  cache s2 = cache s ∧ sinv (disk s2) ∧
  (∀ b, block_in_range b → b ≠ ce_block e → disk_block (disk s2) b = disk_block (disk s) b) ∧
  match r with
  | Ok _ => ce_data e = disk_block (disk s2) (ce_block e)
  | Err err => err = Io ∧ ce_dirty e = true
  end.
Proof.
  intros (Hd & Hnd & Hlen & Hall) Hd1 Heq Hi.
  destruct (Forall_lookup_1 _ _ _ _ Hall Hi) as (Hb & Hl & Hby & Hc).
  destruct (ce_dirty e) eqn:Hdirty.
  - unfold on_disk. simpl. destruct (write_disk_block _ _ d1) as [r' d2] eqn:E.
    intros [= <- <-]. simpl. eapply write_disk_block_spec in E as (? & Hother & Hr); [|done..].
    split_and!; [done|done| |destruct r'; by rewrite ?Hr]. intros b ? ?. by rewrite Hother, Heq.
  - intros [= <- <-]. simpl. split_and!; [done|done|intros; by apply Heq|].
    by rewrite Heq, <- Hc.
Qed.

Lemma entries_ok_failed d d' l i e :
  NoDup (ce_block <$> l) → l !! i = Some e → Forall (entry_ok d) l → ce_dirty e = true →
  (∀ b, block_in_range b → b ≠ ce_block e → disk_block d' b = disk_block d b) →
  Forall (entry_ok d') l.
Proof.
  intros Hnd Hi Hall Hd Heq. pose proof (entries_ok_writeback _ _ _ _ _ Hnd Hi Hall Heq) as Hdel.
  rewrite <- (take_drop_middle _ _ _ Hi) in Hall |- *. rewrite delete_take_drop in Hdel.
  apply Forall_app in Hall as [_ He]. apply Forall_cons in He as [(? & ? & ? & _) _].
  apply Forall_app in Hdel as [? ?]. apply Forall_app. split; [done|]. constructor; [|done].
  split_and!; [done..|]. congruence.
Qed.

Definition index_post (s s' : Cached V) (b : Z) (r : result FsError nat) : Prop :=
  cache_inv s' ∧ same_view s s' ∧
  match r with
  | Ok idx => ∃ e, entries (cache s') !! idx = Some e ∧ ce_block e = b ∧ ce_data e = view s b
  | Err e => e = Io
  end.

Lemma cache_index_evict s b data clk d1 r s' :
  cache_inv s → block_in_range b → cached b (entries (cache s)) = None →
  CACHE_SLOTS ≤ len (entries (cache s)) → sinv d1 →
  (∀ b, block_in_range b → disk_block d1 b = disk_block (disk s) b) →
  data = disk_block (disk s) b → len data = BLOCK_SIZE → Forall is_byte data →
  (let! evict := lift_option Io (min_by_age (λ _, true) (entries (cache s))) in
   (if ce_dirty (snd evict)
    then on_disk (write_disk_block (ce_block (snd evict)) (ce_data (snd evict)))
    else ret tt) ;;!
   put_cache {| entries := <[fst evict := {| ce_block := b; ce_data := data; ce_dirty := false;
                   ce_age := clk |}]> (entries (cache s)); clock := clk |} ;;!
   ret (fst evict)) {| cache := {| entries := entries (cache s); clock := clk |}; disk := d1 |} = (r, s') →
  index_post s s' b r.
Proof.
  intros Hinv Hb Hn Hfull Hd1 Heq -> Hl Hby. pose proof (min_by_age_spec (λ _, true) (entries (cache s))) as Hmin.
  unfold lift_option, lift_result, of_option. unfold bind at 1.
  destruct (min_by_age _ _) as [[i e]|]; cycle 1.
  { exfalso. destruct (entries (cache s)) as [|e l]; [done|]. specialize (Hmin e ltac:(by left)). done. }
  destruct Hmin as (Hi & _ & _). simpl fst. simpl snd.
  set (s0 := {| cache := {| entries := entries (cache s); clock := clk |}; disk := disk s |}).
  assert (cache_inv s0) as Hinv0 by exact Hinv.
  assert (ce_block e ≠ b) as Hne.
  { intros <-. by rewrite (cached_lookup _ _ _ (proj1 (proj2 Hinv)) Hi) in Hn. }
  intros [([] & [c2 d2] & E & Hrun)|(err & -> & E)]%bind_inv;
    [|destruct s' as [c2 d2]];
    (apply (writeback_spec s0 d1 i e) in E as (Hc2 & Hd2 & Hother & Hr); [|done..]);
    destruct Hinv as (Hd & Hnd & Hlen & Hall); simpl in Hc2, Hd2, Hother, Hr; subst c2.
  - injection Hrun as <- <-. rewrite <- (Hother b) by done.
    split_and!.
    + eapply (cache_inv_replace s0);
        first [done|by eapply entries_ok_writeback|by rewrite Hother].
    + intros b' Hb'. rewrite view_replace with (c := cache s0) (e := e); [|done..].
      eapply (view_writeback (cache s)); done.
    + eexists. split; [apply list_lookup_insert_eq; by eapply lookup_lt_Some|]. split; [done|]. simpl.
      rewrite Hother by done. unfold view. by rewrite Hn.
  - destruct Hr as [-> Hdirty]. split_and!; [|by intros b' Hb'; eapply (view_writeback (cache s))|done].
    split_and!; [done|done|done|]. by eapply entries_ok_failed.
Qed.

Lemma cache_index_spec s b r s' :
  cache_inv s → 0 ≤ b → cache_index b s = (r, s') →
  index_post s s' b r ∧ (is_ok r = true → block_in_range b).
Proof.
  intros Hinv Hb. unfold cache_index. case_if as E; zbool.
  { intros [= <- <-]. done. }
  assert (block_in_range b) as Hr by (unfold block_in_range; lia).
  unfold bind at 1, get_cache at 1. cbv zeta. unfold bind at 1, put_cache at 1.
  set (clk := Z.max _ 1). clearbody clk. intros Hrun. split; [|done]. revert Hrun.
  pose proof (position_cached b (entries (cache s))) as Hpos.
  destruct (position _ _) as [idx|].
  - destruct Hpos as (e & Hi & Heb & Hc). intros [= <- <-]. split_and!.
    + by apply (cache_inv_alter s).
    + intros b' Hb'. unfold view. simpl.
      rewrite (cached_alter _ _ _ _ _ (proj1 (proj2 Hinv)) Hi) by done.
      case_if as E'; [|done]. apply Z.eqb_eq in E' as <-. by rewrite Heb, Hc.
    + exists (set_age clk e). simpl. rewrite list_lookup_alter_eq, Hi. split_and!; [done..|].
      unfold view. by rewrite Hc.
  - intros [(data & s1 & Hread & Hrun)|(e & -> & Hread)]%bind_inv;
      unfold on_disk in Hread; destruct (read_disk_block b _) as [r1 d1] eqn:Er; simplify_eq Hread;
      intros; subst; simpl in Er;
      (apply read_disk_block_spec in Er as (Hd1 & Heq & Hr1); [|apply Hinv|done]).
    + destruct Hr1 as (Hdata & Hl & Hby). revert Hrun. case_if as Efull; zbool.
      * intros [= <- <-]. split_and!.
        -- apply (cache_inv_push s); try done. by rewrite Heq.
        -- intros b' Hb'. rewrite view_push; [by apply view_disk|done|by rewrite Heq].
        -- eexists. simpl. rewrite lookup_app_r, Nat.sub_diag by lia. split_and!; [done..|]. simpl.
           unfold view. by rewrite Hpos.
      * by apply cache_index_evict.
    + split_and!; [|intros b' Hb'; by apply view_disk|done].
      destruct Hinv as (? & ? & ? & ?). split_and!; [done..|]. by eapply entries_ok_same.
Qed.
End cache_index.

Section flush.
Context {V : Type} `{SectorStoreLaws V}.
Implicit Types (s : Cached V) (d : V) (l pre : list CacheEntry).

(** [mk l d] abbreviates a state whose clock does not matter. *)
Definition mk (clk : Z) l d : Cached V := {| cache := {| entries := l; clock := clk |}; disk := d |}.

Lemma view_set_clean clk pre l e d b :
  NoDup (ce_block <$> pre ++ e :: l) →
  view (mk clk (pre ++ set_clean e :: l) d) b = view (mk clk (pre ++ e :: l) d) b.
Proof.
  intros Hnd. assert ((pre ++ e :: l) !! length pre = Some e) as Hi by (by apply list_lookup_middle).
  unfold view. simpl.
  replace (pre ++ set_clean e :: l) with (alter set_clean (length pre) (pre ++ e :: l)).
  - rewrite (cached_alter _ _ _ _ _ Hnd Hi) by done. case_if as E; [|done].
    apply Z.eqb_eq in E as <-. by rewrite (cached_lookup _ _ _ Hnd Hi).
  - by rewrite (alter_as_insert _ _ _ _ Hi), insert_app_r_alt, Nat.sub_diag by lia.
Qed.

Lemma flush_step clk pre e l d d' :
  cache_inv (mk clk (pre ++ e :: l) d) → ce_dirty e = true → sinv d' →
  (∀ b, block_in_range b → b ≠ ce_block e → disk_block d' b = disk_block d b) →
  cache_inv (mk clk (pre ++ e :: l) d') ∧ same_view (mk clk (pre ++ e :: l) d) (mk clk (pre ++ e :: l) d').
Proof.
  intros (Hd & Hnd & Hlen & Hall) Hdirty Hd' Heq.
  assert ((pre ++ e :: l) !! length pre = Some e) as Hi by (by apply list_lookup_middle).
  split; [split_and!; [done..|by eapply entries_ok_failed]|].
  intros b Hb. by eapply (view_writeback {| entries := pre ++ e :: l; clock := clk |}).
Qed.

Lemma flush_clean clk pre e l d :
  cache_inv (mk clk (pre ++ e :: l) d) → disk_block d (ce_block e) = ce_data e →
  cache_inv (mk clk (pre ++ set_clean e :: l) d).
Proof.
  intros (Hd & Hnd & Hlen & Hall) Hw. split_and!; simpl in *; [done| | |].
  - by rewrite fmap_app in *.
  - by rewrite len_app, len_cons in *.
  - apply Forall_app in Hall as [? [(? & ? & ? & _) ?]%Forall_cons]. apply Forall_app. split; [done|].
    by constructor.
Qed.

Lemma flush_entries_spec clk l pre d r l' d' :
  cache_inv (mk clk (pre ++ l) d) → flush_entries l d = (r, l', d') →
  cache_inv (mk clk (pre ++ l') d') ∧ same_view (mk clk (pre ++ l) d) (mk clk (pre ++ l') d') ∧
  match r with Ok _ => Forall (λ e, ce_dirty e = false) l' | Err e => e = Io end.
Proof.
  revert pre d r l'. induction l as [|e l IH]; intros pre d r l' Hinv; simpl.
  { intros [= <- <- <-]. done. }
  destruct (ce_dirty e) eqn:Hdirty; cycle 1.
  - destruct (flush_entries l d) as [[r1 l1] d1] eqn:E. intros [= <- <- <-].
    apply (IH (pre ++ [e])) in E; rewrite <- ?app_assoc in *; simpl in *; [|done].
    destruct E as (? & ? & ?). split_and!; [done..|]. destruct r1; [by constructor|done].
  - destruct (write_disk_block _ _ d) as [[[]|err] d1] eqn:Ew.
    all: assert (entry_ok d e) as (Hb & Hl & Hby & _)
      by (destruct Hinv as (_ & _ & _ & [_ [? _]%Forall_cons]%Forall_app); done).
    all: apply write_disk_block_spec in Ew as (Hd1 & Heq & Hr); [|apply Hinv|done..].
    all: destruct (flush_step _ _ _ _ _ _ Hinv Hdirty Hd1 Heq) as [Hinv1 Hv1].
    2: { intros [= <- <- <-]. done. }
    destruct (flush_entries l d1) as [[r1 l1] d2] eqn:E. intros [= <- <- <-].
    pose proof (flush_clean _ _ _ _ _ Hinv1 Hr) as Hinv2.
    apply (IH (pre ++ [set_clean e])) in E; rewrite <- ?app_assoc in *; simpl in *; [|done].
    destruct E as (Hinv3 & Hv3 & Hr3). split_and!; [done| |destruct r1; [by constructor|done]].
    intros b Hb'. rewrite Hv3, view_set_clean by (done || apply Hinv1). by apply Hv1.
Qed.
End flush.

Section trim.
Context {V : Type} `{SectorStoreLaws V}.
Implicit Types (d : V) (l : list CacheEntry).

Definition trimmable (e : CacheEntry) : bool := negb (ce_dirty e) && negb (ce_block e =? 0).

Lemma cached_delete b l i e :
  NoDup (ce_block <$> l) → l !! i = Some e →
  cached b (delete i l) = if ce_block e =? b then None else cached b l.
Proof.
  revert i. induction l as [|x l IH]; intros i Hnd Hi; [done|].
  csimpl in *. apply NoDup_cons in Hnd as [Hx Hnd]. destruct i as [|i]; simpl in *.
  - injection Hi as ->. case_if as E; [|done]. apply Z.eqb_eq in E as <-. by apply cached_None.
  - rewrite (IH _ Hnd Hi). destruct (ce_block x =? b) eqn:E; [|done].
    case_if as E'; [|done]. zbool. destruct Hx. rewrite E, <- E'.
    apply list_elem_of_fmap. exists e. split; [done|]. by eapply list_elem_of_lookup_2.
Qed.

Lemma trim_step clk l d i e :
  cache_inv (mk clk l d) → l !! i = Some e → ce_dirty e = false →
  cache_inv (mk clk (delete i l) d) ∧ same_view (mk clk l d) (mk clk (delete i l) d).
Proof.
  intros (Hd & Hnd & Hlen & Hall) Hi Hc. simpl in *.
  destruct (Forall_lookup_1 _ _ _ _ Hall Hi) as (Hb & _ & _ & Hdata).
  pose proof (sublist_delete l i) as Hsub. split; [split_and!; simpl; [done| | |]|].
  - eapply sublist_NoDup; [exact Hnd|]. by apply fmap_sublist.
  - apply sublist_length in Hsub. unfold len in *. lia.
  - by apply Forall_delete.
  - intros b Hb'. unfold view. simpl. rewrite (cached_delete _ _ _ _ Hnd Hi).
    case_if as E; [|done]. apply Z.eqb_eq in E as <-.
    by rewrite (cached_lookup _ _ _ Hnd Hi), Hdata.
Qed.

Lemma trim_loop_spec clk d fuel keep removed l n l' :
  cache_inv (mk clk l d) → (length l ≤ fuel)%nat → 0 ≤ removed → removed + len l < 2 ^ 64 →
  trim_loop fuel keep removed l = (n, l') →
  cache_inv (mk clk l' d) ∧ same_view (mk clk l d) (mk clk l' d) ∧
  n = removed + (len l - len l') ∧ l' `sublist_of` l ∧
  (∀ e, e ∈ l → trimmable e = false → e ∈ l') ∧
  (len l' ≤ keep ∨ ∀ e, e ∈ l' → trimmable e = false).
Proof.
  revert removed l. induction fuel as [|fuel IH]; intros removed l Hinv Hf Hr Hmax; simpl.
  { intros [= <- <-]. destruct l; [|simpl in *; lia]. split_and!; [done|done|lia|done|done|].
    right. by intros e He%not_elem_of_nil. }
  case_if as E; zbool; cycle 1.
  { intros [= <- <-]. split_and!; [done|done|lia|done|done|by left]. }
  pose proof (min_by_age_spec trimmable l) as Hmin. unfold trimmable in Hmin.
  destruct (min_by_age _ l) as [[i e]|]; cycle 1.
  { intros [= <- <-]. split_and!; [done|done|lia|done|done|by right]. }
  destruct Hmin as (Hi & Hp & _). assert (ce_dirty e = false) as Hc by (by destruct (ce_dirty e)).
  destruct (trim_step _ _ _ _ _ Hinv Hi Hc) as [Hinv1 Hv1].
  pose proof (length_delete _ _ (ex_intro _ _ Hi)) as Hdel.
  pose proof (lookup_lt_Some _ _ _ Hi) as Hlt. unfold len in *.
  intros Hrun. apply IH in Hrun as (? & Hv2 & -> & ? & Hkeep & ?);
    [|done|lia|unfold saturating_add; lia|unfold saturating_add; lia].
  split_and!; [done| | | | |done].
  - intros b Hb. by rewrite Hv2, Hv1.
  - unfold saturating_add. lia.
  - etrans; [done|apply sublist_delete].
  - intros x Hx Hnt. apply Hkeep; [|done]. apply list_elem_of_lookup in Hx as [j Hj].
    assert (j ≠ i) by (intros ->; rewrite Hi in Hj; injection Hj as <-; unfold trimmable in Hnt; by rewrite Hp in Hnt).
    apply list_elem_of_lookup. destruct (decide (j < i)%nat).
    + exists j. by rewrite list_lookup_delete_lt.
    + exists (pred j). rewrite list_lookup_delete_ge by lia. by replace (S (pred j)) with j by lia.
Qed.
End trim.

Section theorems.
Context {V : Type} `{SectorStoreLaws V}.
Implicit Types s : Cached V.

(** [BlockCache::get] is transparent.  Whatever the cache holds, whether
    the block is a hit, fills a free slot or evicts the oldest entry, and
    whichever sector transfer fails, no block changes its contents and the
    cache invariant (distinct blocks, at most 64, clean copies equal to the
    volume) survives; a returned block is the current contents. *)
Theorem get_transparent s b r s' :
  cache_inv s → 0 ≤ b → get b s = (r, s') →
  cache_inv s' ∧ same_view s s' ∧
  match r with Ok data => block_in_range b ∧ data = view s b | Err e => e = Io end.
Proof.
  intros Hinv Hb [(idx & s1 & Hi & Hrun)|(e & -> & Hi)]%bind_inv;
    (apply cache_index_spec in Hi as ((? & ? & Hr) & Hin); [|done|done]); [|done].
  injection Hrun as <- <-. destruct Hr as (e & He & ? & Hd). split_and!; [done|done|by apply Hin|].
  unfold entry_at. by rewrite (nth_lookup_Some _ _ _ _ He).
Qed.

Lemma get_mut_spec s b f r s' :
  cache_inv s → 0 ≤ b →
  (∀ l, len l = BLOCK_SIZE → Forall is_byte l → len (f l) = BLOCK_SIZE ∧ Forall is_byte (f l)) →
  get_mut b f s = (r, s') →
  cache_inv s' ∧
  match r with
  | Ok _ => block_in_range b ∧
      ∀ b', block_in_range b' → view s' b' = if b =? b' then f (view s b) else view s b'
  | Err e => e = Io ∧ same_view s s'
  end.
Proof.
  intros Hinv Hb Hf [(idx & s1 & Hi & Hrun)|(e & -> & Hi)]%bind_inv;
    (apply cache_index_spec in Hi as ((Hinv1 & Hv & Hr) & Hin); [|done|done]); [|done].
  injection Hrun as <- <-. destruct Hr as (e & He & Heb & Hd). split_and!; [|by apply Hin|].
  - apply (cache_inv_alter s1); [done| |done]. intros x (? & ? & ? & _).
    destruct (Hf (ce_data x)); [done..|]. by split_and!.
  - intros b' Hb'. unfold view at 1. simpl.
    rewrite (cached_alter _ _ _ _ _ (proj1 (proj2 Hinv1)) He) by done. rewrite Heb.
    case_if; [simpl; by rewrite Hd|]. by apply Hv.
Qed.

(** [BlockCache::get_mut], with the store through the reference it hands
    out, changes exactly the block asked for; if any transfer fails nothing
    changes. *)
Theorem get_mut_updates s b f r s' :
  cache_inv s → 0 ≤ b →
  (∀ l, len l = BLOCK_SIZE → Forall is_byte l → len (f l) = BLOCK_SIZE ∧ Forall is_byte (f l)) →
  get_mut b f s = (r, s') →
  cache_inv s' ∧
  match r with
  | Ok _ => block_in_range b ∧
      ∀ b', block_in_range b' → view s' b' = if b =? b' then f (view s b) else view s b'
  | Err e => e = Io ∧ same_view s s'
  end.
Proof. apply get_mut_spec. Qed.

Lemma flush_spec s r s' :
  cache_inv s → flush s = (r, s') →
  cache_inv s' ∧ same_view s s' ∧
  match r with
  | Ok _ => dirty_blocks (cache s') = 0 ∧
            ∀ b, block_in_range b → disk_block (disk s') b = view s b
  | Err e => e = Io
  end.
Proof.
  intros Hinv. unfold flush. destruct (flush_entries _ _) as [[r1 l1] d1] eqn:E. intros [= <- <-].
  apply (flush_entries_spec (clock (cache s)) _ []) in E as (Hinv1 & Hv & Hr); [|by destruct s as [[] ]].
  split_and!; [done|by destruct s as [[] ]|]. destruct r1 as [[]|]; [|done]. split.
  - unfold dirty_blocks. simpl. replace (List.filter ce_dirty l1) with (@nil CacheEntry); [done|].
    clear -Hr. induction Hr as [|e l He Hl IH]; simpl; [done|]. by rewrite He.
  - intros b Hb. transitivity (view (mk (clock (cache s)) l1 d1) b); [|destruct s as [[] ]; by apply Hv].
    unfold view. simpl. destruct (cached b l1) as [e|] eqn:Ec; [|done].
    apply cached_Some in Ec as [He <-]. destruct Hinv1 as (_ & _ & _ & Hall).
    simpl in Hall. rewrite Forall_forall in Hall, Hr. symmetry. apply Hall; [done|]. by apply Hr.
Qed.

(** [BlockCache::flush] never changes what clients see; when it succeeds
    the volume itself holds every block's contents and no entry is dirty, and
    when it fails the blocks not yet written stay dirty in the cache. *)
Theorem flush_durable s r s' :
  cache_inv s → flush s = (r, s') →
  cache_inv s' ∧ same_view s s' ∧
  match r with
  | Ok _ => dirty_blocks (cache s') = 0 ∧
            ∀ b, block_in_range b → disk_block (disk s') b = view s b
  | Err e => e = Io
  end.
Proof. apply flush_spec. Qed.

(** [BlockCache::trim_clean] drops only clean entries other than the
    superblock: no contents change, every dirty entry and block 0 stay cached,
    the byte count it reports is exact, and it stops only at the target size
    or when nothing more may be dropped. *)
Theorem trim_clean_safe s keep :
  cache_inv s → ∃ s',
  trim_clean keep s = (Ok ((len (entries (cache s)) - len (entries (cache s'))) * BLOCK_SIZE), s') ∧
  cache_inv s' ∧ same_view s s' ∧
  (∀ e, e ∈ entries (cache s) → trimmable e = false → e ∈ entries (cache s')) ∧
  (len (entries (cache s')) ≤ keep ∨ ∀ e, e ∈ entries (cache s') → trimmable e = false).
Proof.
  intros Hinv. unfold trim_clean. destruct (trim_loop _ _ _ _) as [n l'] eqn:E.
  assert (cache_inv (mk (clock (cache s)) (entries (cache s)) (disk s))) as Hinv0 by (by destruct s as [[] ]).
  destruct Hinv as (_ & _ & Hlen & _). unfold CACHE_SLOTS in Hlen.
  apply (trim_loop_spec (clock (cache s)) (disk s)) in E as (? & Hv & -> & Hsub & ? & ?); [|done|lia..].
  exists (mk (clock (cache s)) l' (disk s)). split_and!; [|done| |done|done].
  - f_equal. f_equal. simpl. apply sublist_length in Hsub. unfold saturating_mul, BLOCK_SIZE, len in *. lia.
  - destruct s as [[] ]; exact Hv.
Qed.

End theorems.

(** ** On a volume whose transfers do not fail, the cache does not fail either *)
Section reliable.
Context {V : Type} `{ReliableStore V}.
Context (Hwindow : TOTAL_BLOCKS * SECTORS_PER_BLOCK ≤ swindow).
Implicit Types (s : Cached V) (d : V).

Lemma read_sectors_good base ss out d :
  sgood d → (∀ k, k ∈ ss → 0 ≤ base + k < swindow) →
  ∃ o d', read_sectors base ss out d = (Ok o, d') ∧ sgood d'.
Proof.
  revert out d. induction ss as [|k ss IH]; intros out d Hd Hb; simpl; [by eauto|].
  destruct (sread_good (base + k) d Hd (Hb k ltac:(by left))) as (sec & d1 & E & Hd1).
  unfold bind, read_sector_io. rewrite E. apply IH; [done|]. intros ? ?. apply Hb. by right.
Qed.

Lemma write_sectors_good base data ss d :
  sgood d → (∀ k, k ∈ ss → 0 ≤ base + k < swindow ∧ 0 ≤ k * SECTOR_SIZE ≤ len data - SECTOR_SIZE) →
  Forall is_byte data →
  ∃ d', for_each (λ k, write_sector_io (base + k) (slice data (k * SECTOR_SIZE) SECTOR_SIZE)) ss d
        = (Ok tt, d') ∧ sgood d'.
Proof.
  revert d. induction ss as [|k ss IH]; intros d Hd Hb Hby; simpl; [by eauto|].
  destruct (Hb k ltac:(by left)) as [Hk Hl].
  destruct (swrite_good (base + k) (slice data (k * SECTOR_SIZE) SECTOR_SIZE) d Hd Hk) as (d1 & E & Hd1).
  { apply len_slice; unfold SECTOR_SIZE in *; lia. }
  { by apply slice_is_byte. }
  unfold bind at 1, write_sector_io at 1. rewrite E. apply IH; [done| |done].
  intros ? ?. apply Hb. by right.
Qed.

Lemma read_disk_block_good b d :
  sgood d → block_in_range b → ∃ o d', read_disk_block b d = (Ok o, d') ∧ sgood d'.
Proof.
  intros Hd Hb. unfold read_disk_block.
  rewrite (proj2 (Z.leb_gt _ _)) by (unfold block_in_range in Hb; lia).
  rewrite checked_lba by done. apply read_sectors_good; [done|].
  intros k Hk%elem_of_seqZ. unfold block_in_range, SECTORS_PER_BLOCK in *. lia.
Qed.

Lemma write_disk_block_good b data d :
  sgood d → block_in_range b → len data = BLOCK_SIZE → Forall is_byte data →
  ∃ d', write_disk_block b data d = (Ok tt, d') ∧ sgood d'.
Proof.
  intros Hd Hb Hl Hby. unfold write_disk_block.
  rewrite (proj2 (Z.leb_gt _ _)) by (unfold block_in_range in Hb; lia).
  rewrite checked_lba by done. apply write_sectors_good; [done| |done].
  intros k Hk%elem_of_seqZ.
  unfold block_in_range, SECTORS_PER_BLOCK, BLOCK_SIZE, SECTOR_SIZE in *. lia.
Qed.

Lemma cache_index_good s b :
  cache_inv s → sgood (disk s) → block_in_range b →
  ∃ idx s', cache_index b s = (Ok idx, s') ∧ sgood (disk s').
Proof.
  intros Hinv Hd Hb. unfold cache_index.
  rewrite (proj2 (Z.leb_gt _ _)) by (unfold block_in_range in Hb; lia).
  unfold bind at 1, get_cache at 1. cbv zeta. unfold bind at 1, put_cache at 1.
  set (clk := Z.max _ 1). clearbody clk.
  destruct (position _ _) as [idx|]; [by eauto|].
  unfold bind at 1, on_disk at 1. simpl disk.
  destruct (read_disk_block_good b (disk s)) as (data & d1 & -> & Hd1); [done..|].
  case_if as E; zbool; [by eauto|].
  pose proof (min_by_age_spec (λ _, true) (entries (cache s))) as Hmin.
  unfold lift_option, lift_result, of_option. unfold bind at 1.
  destruct (min_by_age _ _) as [[i e]|]; cycle 1.
  { exfalso. destruct (entries (cache s)) as [|e l]; [done|]. specialize (Hmin e ltac:(by left)). done. }
  simpl fst. simpl snd. destruct Hmin as (Hi & _ & _).
  destruct Hinv as (_ & _ & _ & Hall). destruct (Forall_lookup_1 _ _ _ _ Hall Hi) as (? & ? & ? & _).
  destruct (ce_dirty e); unfold bind at 1; [|by unfold ret; eauto].
  unfold on_disk. simpl.
  destruct (write_disk_block_good (ce_block e) (ce_data e) d1) as (d2 & -> & Hd2); [done..|]. by eauto.
Qed.

Lemma flush_entries_good l d :
  Forall (λ e, block_in_range (ce_block e) ∧ len (ce_data e) = BLOCK_SIZE ∧ Forall is_byte (ce_data e)) l →
  sgood d → ∃ l' d', flush_entries l d = (Ok tt, l', d') ∧ sgood d'.
Proof.
  intros Hl. revert d. induction Hl as [|e l (Hb & Hlen & Hby) Hl IH]; intros d Hd; simpl; [by eauto|].
  case_if.
  - destruct (write_disk_block_good (ce_block e) (ce_data e) d) as (d1 & -> & Hd1); [done..|].
    destruct (IH d1 Hd1) as (l' & d' & -> & ?). eauto.
  - destruct (IH d Hd) as (l' & d' & -> & ?). eauto.
Qed.
End reliable.

(** ** The cache over a disk in memory *)
Section demo.
Import RamDisk.

(** A cache with one dirty block over a disk of zeroes. *)
Definition ram_volume : Storage ramdisk :=
  {| ROOT_DISK := Some {| device := Ide Ide0Master; base_lba := 0; root_sectors := WINDOW; layout := RawCoolFs |};
     hw := {| rd_device := Ide Ide0Master; rd_sectors := WINDOW; rd_data := ∅; rd_faults := [] |} |}.
Definition demo_cache : Cached (Storage ramdisk) :=
  {| cache := {| entries := [{| ce_block := 3; ce_data := replicate 4096 7; ce_dirty := true; ce_age := 1 |}]; clock := 2 |};
     disk := ram_volume |}.

Lemma demo_cache_inv : cache_inv demo_cache.
Proof.
  split_and!; [split; done|apply NoDup_singleton|done|].
  apply Forall_singleton. split_and!; [done|reflexivity|by apply Forall_replicate|done].
Qed.

Lemma get_transparent_witness :
  cache_inv (snd (get 9 demo_cache)) ∧ same_view demo_cache (snd (get 9 demo_cache)) ∧
  match fst (get 9 demo_cache) with Ok data => block_in_range 9 ∧ data = view demo_cache 9 | Err e => e = Io end.
Proof. apply (get_transparent demo_cache 9); [exact demo_cache_inv|lia|apply surjective_pairing]. Defined.

Lemma get_mut_updates_witness :
  cache_inv (snd (get_mut 9 (λ _, replicate 4096 5) demo_cache)) ∧
  match fst (get_mut 9 (λ _, replicate 4096 5) demo_cache) with
  | Ok _ => block_in_range 9 ∧
      ∀ b', block_in_range b' → view (snd (get_mut 9 (λ _, replicate 4096 5) demo_cache)) b' =
        if 9 =? b' then replicate 4096 5 else view demo_cache b'
  | Err e => e = Io ∧ same_view demo_cache (snd (get_mut 9 (λ _, replicate 4096 5) demo_cache))
  end.
Proof.
  apply (get_mut_updates demo_cache 9 (λ _, replicate 4096 5)); [exact demo_cache_inv|lia| |apply surjective_pairing].
  intros l _ _. split; [reflexivity|by apply Forall_replicate].
Defined.

Lemma flush_durable_witness :
  cache_inv (snd (flush demo_cache)) ∧ same_view demo_cache (snd (flush demo_cache)) ∧
  match fst (flush demo_cache) with
  | Ok _ => dirty_blocks (cache (snd (flush demo_cache))) = 0 ∧
            ∀ b, block_in_range b → disk_block (disk (snd (flush demo_cache))) b = view demo_cache b
  | Err e => e = Io
  end.
Proof. apply (flush_durable demo_cache); [exact demo_cache_inv|apply surjective_pairing]. Defined.

Lemma trim_clean_safe_witness :
  ∃ s', trim_clean 0 demo_cache = (Ok ((len (entries (cache demo_cache)) - len (entries (cache s'))) * BLOCK_SIZE), s') ∧
  cache_inv s' ∧ same_view demo_cache s' ∧
  (∀ e, e ∈ entries (cache demo_cache) → trimmable e = false → e ∈ entries (cache s')) ∧
  (len (entries (cache s')) ≤ 0 ∨ ∀ e, e ∈ entries (cache s') → trimmable e = false).
Proof. apply (trim_clean_safe demo_cache 0). exact demo_cache_inv. Defined.
End demo.
