(* ===== verification/CoolImage.v ===== *)
(** * CoolFS on-disk structures (src/src/coolfs.rs: [Superblock], [Inode], [impl Image])

    The mounted image: byte-addressed access to the volume through the block
    cache, the inode table, the block bitmap and file contents.  An [Image] is
    its superblock [sb] and the cache of [Cached V]; the operations take [sb]
    as an argument, since none of them changes it.  Methods that return
    [Option] are state transformers with error type [unit]. *)
From S2P Require Import Prelude DiskLayout Storage Paths Security BlockCache.

Local Open Scope Z_scope.
Local Open Scope st_scope.

Definition MAGIC : bytes := str "COOLFS1" ++ [0].
Definition VERSION : Z := 1.
Definition INODE_COUNT : Z := 512.
Definition INODE_SIZE : Z := 256.
Definition DIRECT_BLOCKS : Z := 48.
Definition INDIRECT_ENTRIES : Z := BLOCK_SIZE / 4.
Definition INODE_TABLE_START : Z := 1.
Definition INODE_TABLE_BLOCKS : Z := (INODE_COUNT * INODE_SIZE + BLOCK_SIZE - 1) / BLOCK_SIZE.
Definition BITMAP_START : Z := INODE_TABLE_START + INODE_TABLE_BLOCKS.
Definition BITMAP_BLOCKS : Z := 1.
Definition DATA_START : Z := BITMAP_START + BITMAP_BLOCKS.
Definition ROOT_INODE : Z := 0.
Definition KIND_FREE : Z := 0.
Definition KIND_FILE : Z := 1.
Definition KIND_DIR : Z := 2.
Definition INODE_UID_OFFSET : Z := 12 + DIRECT_BLOCKS * 4.
Definition INODE_GID_OFFSET : Z := INODE_UID_OFFSET + 4.
Definition INODE_MODE_OFFSET : Z := INODE_GID_OFFSET + 4.
Definition INODE_USED_BYTES : Z := INODE_MODE_OFFSET + 4.

Record Superblock := {
  total_blocks : Z; inode_count : Z; inode_table_start : Z; inode_table_blocks : Z;
  bitmap_start : Z; bitmap_blocks : Z; data_start : Z; root_inode : Z }.

Definition Superblock_new : Superblock :=
  {| total_blocks := TOTAL_BLOCKS; inode_count := INODE_COUNT;
     inode_table_start := INODE_TABLE_START; inode_table_blocks := INODE_TABLE_BLOCKS;
     bitmap_start := BITMAP_START; bitmap_blocks := BITMAP_BLOCKS;
     data_start := DATA_START; root_inode := ROOT_INODE |}.

(** The sum of [bitmap_start] and [bitmap_blocks] wraps at 32 bits in the release build. *)
Definition Superblock_parse (image : bytes) : option Superblock :=
  if (len image <? BLOCK_SIZE) || negb (bytes_eqb (slice image 0 8) MAGIC) then None else
  v ← read_u32 image 8; bs ← read_u32 image 12; isz ← read_u32 image 24;
  if negb (v =? VERSION) || negb (bs =? BLOCK_SIZE) || negb (isz =? INODE_SIZE) then None else
  tb ← read_u32 image 16; ic ← read_u32 image 20; its ← read_u32 image 28;
  itb ← read_u32 image 32; bms ← read_u32 image 36; bmb ← read_u32 image 40;
  ds ← read_u32 image 44; ri ← read_u32 image 48;
  let sb := {| total_blocks := tb; inode_count := ic; inode_table_start := its;
               inode_table_blocks := itb; bitmap_start := bms; bitmap_blocks := bmb;
               data_start := ds; root_inode := ri |} in
  if (tb =? 0) || (ic =? 0) || (ic <=? ri) || (tb <=? ds) || (ds <? (bms + bmb) mod 2 ^ 32)
  then None else Some sb.

Definition write_u32 (b : bytes) (off v : Z) : bytes := splice b off (le_bytes 4 v).

Definition Superblock_write (sb : Superblock) (image : bytes) : bytes :=
  let image := splice image 0 MAGIC in
  let image := write_u32 image 8 VERSION in
  let image := write_u32 image 12 BLOCK_SIZE in
  let image := write_u32 image 16 (total_blocks sb) in
  let image := write_u32 image 20 (inode_count sb) in
  let image := write_u32 image 24 INODE_SIZE in
  let image := write_u32 image 28 (inode_table_start sb) in
  let image := write_u32 image 32 (inode_table_blocks sb) in
  let image := write_u32 image 36 (bitmap_start sb) in
  let image := write_u32 image 40 (bitmap_blocks sb) in
  let image := write_u32 image 44 (data_start sb) in
  write_u32 image 48 (root_inode sb).

Record Inode := {
  kind : Z; size : Z; direct : list Z; indirect : Z; i_uid : Z; i_gid : Z; i_mode : Z }.

Definition Inode_free : Inode :=
  {| kind := KIND_FREE; size := 0; direct := zeros DIRECT_BLOCKS; indirect := 0;
     i_uid := 0; i_gid := 0; i_mode := 0 |}.

Definition Inode_new (k : Z) : Inode :=
  {| kind := k; size := 0; direct := zeros DIRECT_BLOCKS; indirect := 0;
     i_uid := ROOT_UID; i_gid := ROOT_GID;
     i_mode := if k =? KIND_DIR then DEFAULT_DIR_MODE
               else if k =? KIND_FILE then DEFAULT_FILE_MODE else 0 |}.

Definition Inode_new_with_metadata (k uid gid mode : Z) : Inode :=
  {| kind := k; size := 0; direct := zeros DIRECT_BLOCKS; indirect := 0;
     i_uid := uid; i_gid := gid; i_mode := Z.land mode MODE_MASK |}.

Definition is_dir (i : Inode) : bool := kind i =? KIND_DIR.
Definition is_file (i : Inode) : bool := kind i =? KIND_FILE.

(** Iterations of the copy loops: one per block touched, and one to stop. *)
Definition copy_fuel (n : Z) : nat := Z.to_nat (n / BLOCK_SIZE + 3).

Section image.
Context {V : Type} `{SectorStore V}.
Context (sb : Superblock).
Abbreviation M := (ST (Cached V)).

Definition fs_len : Z := total_blocks sb * BLOCK_SIZE.

Definition block_offset (block : Z) : result FsError Z :=
  if total_blocks sb <=? block then Err Io else Ok (block * BLOCK_SIZE).

Definition abs_parts (offset : Z) : option (Z * Z) :=
  if fs_len <=? offset then None
  else Some ((offset / BLOCK_SIZE) mod 2 ^ 32, offset mod BLOCK_SIZE).

Definition inode_offset (inode_idx : Z) : option Z :=
  off ← checked_add 64 (inode_table_start sb * BLOCK_SIZE) (inode_idx * INODE_SIZE);
  if off + INODE_SIZE <=? fs_len then Some off else None.

Definition read_u8 (offset : Z) : M unit Z :=
  let! (block, in_block) := lift_option tt (abs_parts offset) in
  let! data := ok (get block) in
  ret (nthZ data in_block).

Definition write_u8 (offset value : Z) : M FsError unit :=
  let! (block, in_block) := lift_option Io (abs_parts offset) in
  get_mut block (λ data, splice data in_block [value]).

Fixpoint read_into_loop (fuel : nat) (offset done : Z) (out : bytes) : M FsError bytes :=
  match fuel with
  | O => throw Io
  | S fuel =>
      if done <? len out then
        let! (block, in_block) := lift_option Io (abs_parts offset) in
        let take := Z.min (len out - done) (BLOCK_SIZE - in_block) in
        let! data := get block in
        read_into_loop fuel (offset + take) (done + take) (splice out done (slice data in_block take))
      else ret out
  end.

Definition read_into (offset : Z) (out : bytes) : M FsError bytes :=
  let! fin := lift_option Io (checked_add 64 offset (len out)) in
  if fs_len <? fin then throw Io else
  read_into_loop (copy_fuel (len out)) offset 0 out.

Fixpoint read_vec_loop (fuel : nat) (offset remaining : Z) (out : bytes) : M FsError bytes :=
  match fuel with
  | O => throw Io
  | S fuel =>
      if 0 <? remaining then
        let! (block, in_block) := lift_option Io (abs_parts offset) in
        let take := Z.min remaining (BLOCK_SIZE - in_block) in
        let! data := get block in
        read_vec_loop fuel (offset + take) (remaining - take) (out ++ slice data in_block take)
      else ret out
  end.

Definition read_vec (offset n : Z) : M FsError bytes :=
  let! fin := lift_option Io (checked_add 64 offset n) in
  if fs_len <? fin then throw Io else
  read_vec_loop (copy_fuel n) offset n [].

Fixpoint write_at_loop (fuel : nat) (offset done : Z) (input : bytes) : M FsError unit :=
  match fuel with
  | O => throw Io
  | S fuel =>
      if done <? len input then
        let! (block, in_block) := lift_option Io (abs_parts offset) in
        let take := Z.min (len input - done) (BLOCK_SIZE - in_block) in
        get_mut block (λ data, splice data in_block (slice input done take)) ;;!
        write_at_loop fuel (offset + take) (done + take) input
      else ret tt
  end.

Definition write_at (offset : Z) (input : bytes) : M FsError unit :=
  let! fin := lift_option Io (checked_add 64 offset (len input)) in
  if fs_len <? fin then throw Io else
  write_at_loop (copy_fuel (len input)) offset 0 input.

Fixpoint fill_at_loop (fuel : nat) (offset n value : Z) : M FsError unit :=
  match fuel with
  | O => throw Io
  | S fuel =>
      if 0 <? n then
        let! (block, in_block) := lift_option Io (abs_parts offset) in
        let take := Z.min n (BLOCK_SIZE - in_block) in
        get_mut block (λ data, splice data in_block (replicate (Z.to_nat take) value)) ;;!
        fill_at_loop fuel (offset + take) (n - take) value
      else ret tt
  end.

Definition fill_at (offset n value : Z) : M FsError unit :=
  let! fin := lift_option Io (checked_add 64 offset n) in
  if fs_len <? fin then throw Io else
  fill_at_loop (copy_fuel n) offset n value.

Definition read_u32_at (offset : Z) : M unit Z :=
  let! b := ok (read_into offset (zeros 4)) in
  ret (le_val b).

Definition write_u32_at (offset value : Z) : M FsError unit := write_at offset (le_bytes 4 value).

Definition zero_block (block : Z) : M FsError unit :=
  get_mut block (λ data, replicate (length data) 0).

(** [for i in idxs { v.push(self.read_u32_at(start + i * 4)?) }] *)
Fixpoint read_u32s (start : Z) (idxs : list Z) : M unit (list Z) :=
  match idxs with
  | [] => ret []
  | i :: idxs =>
      let! v := read_u32_at (start + i * 4) in
      let! vs := read_u32s start idxs in
      ret (v :: vs)
  end.

(** [x.unwrap_or(d)] *)
Definition unwrap_or {A} (d : A) (m : M unit A) : M unit A :=
  let! r := attempt m in
  ret (match r with Ok a => a | Err _ => d end).

Definition read_inode (inode_idx : Z) : M unit Inode :=
  if inode_count sb <=? inode_idx then throw tt else
  let! off := lift_option tt (inode_offset inode_idx) in
  let! k := read_u8 off in
  let! sz := read_u32_at (off + 4) in
  let! d := read_u32s (off + 8) (seqZ 0 DIRECT_BLOCKS) in
  let! ind := read_u32_at (off + 8 + DIRECT_BLOCKS * 4) in
  let! uid := unwrap_or 0 (read_u32_at (off + INODE_UID_OFFSET)) in
  let! gid := unwrap_or 0 (read_u32_at (off + INODE_GID_OFFSET)) in
  let! mode := unwrap_or 0 (let! m := read_u32_at (off + INODE_MODE_OFFSET) in
                            ret (Z.land (m mod 2 ^ 16) MODE_MASK)) in
  ret {| kind := k; size := sz; direct := d; indirect := ind; i_uid := uid; i_gid := gid;
         i_mode := if negb (k =? KIND_FREE) && (mode =? 0)
                   then (if k =? KIND_DIR then DEFAULT_DIR_MODE else DEFAULT_FILE_MODE)
                   else mode |}.

Definition write_inode (inode_idx : Z) (inode : Inode) : M FsError unit :=
  let! off := lift_option Io (inode_offset inode_idx) in
  write_u8 off (kind inode) ;;!
  fill_at (off + 1) 3 0 ;;!
  write_u32_at (off + 4) (size inode) ;;!
  for_each (λ i, write_u32_at (off + 8 + i * 4) (nthZ (direct inode) i)) (seqZ 0 DIRECT_BLOCKS) ;;!
  write_u32_at (off + 8 + DIRECT_BLOCKS * 4) (indirect inode) ;;!
  write_u32_at (off + INODE_UID_OFFSET) (i_uid inode) ;;!
  write_u32_at (off + INODE_GID_OFFSET) (i_gid inode) ;;!
  write_u32_at (off + INODE_MODE_OFFSET) (Z.land (i_mode inode) MODE_MASK) ;;!
  fill_at (off + INODE_USED_BYTES) (INODE_SIZE - INODE_USED_BYTES) 0.

Definition bitmap_byte_bit (block : Z) : option (Z * Z) :=
  if total_blocks sb <=? block then None else
  let byte := bitmap_start sb * BLOCK_SIZE + block / 8 in
  if fs_len <=? byte then None else Some (byte, Z.shiftl 1 (block mod 8)).

Definition block_used (block : Z) : M unit bool :=
  match bitmap_byte_bit block with
  | None => ret true
  | Some (byte, bit) =>
      unwrap_or true (let! value := read_u8 byte in ret (negb (Z.land value bit =? 0)))
  end.

Definition set_block_used (block : Z) (used : bool) : M FsError unit :=
  let! (byte, bit) := lift_option Io (bitmap_byte_bit block) in
  let! value := ok_or Io (read_u8 byte) in
  write_u8 byte (if used then Z.lor value bit else Z.land value (Z.lxor 255 bit)).

(** [block_used] cannot fail: run it inside an operation with other errors. *)
Definition block_used' {E} (e : E) (block : Z) : M E bool := ok_or e (block_used block).

Fixpoint alloc_block_in (blocks : list Z) : M FsError Z :=
  match blocks with
  | [] => throw NoSpace
  | block :: blocks =>
      let! used := block_used' Io block in
      if used then alloc_block_in blocks
      else set_block_used block true ;;! zero_block block ;;! ret block
  end.

Definition alloc_block : M FsError Z :=
  alloc_block_in (seqZ (data_start sb) (total_blocks sb - data_start sb)).

Definition free_block (block : Z) : M FsError unit :=
  if (block <? data_start sb) || (total_blocks sb <=? block) then ret tt
  else set_block_used block false.

Fixpoint alloc_inode_in (idxs : list Z) (k uid gid mode : Z) : M FsError Z :=
  match idxs with
  | [] => throw NoSpace
  | idx :: idxs =>
      let! r := attempt (read_inode idx) in
      if match r with Ok inode => kind inode =? KIND_FREE | Err _ => false end
      then write_inode idx (Inode_new_with_metadata k uid gid mode) ;;! ret idx
      else alloc_inode_in idxs k uid gid mode
  end.

Definition alloc_inode_with_metadata (k uid gid mode : Z) : M FsError Z :=
  alloc_inode_in (seqZ 1 (inode_count sb - 1)) k uid gid mode.

Definition alloc_inode (k : Z) : M FsError Z :=
  alloc_inode_with_metadata k ROOT_UID ROOT_GID
    (if k =? KIND_DIR then DEFAULT_DIR_MODE else DEFAULT_FILE_MODE).

Definition blocks_needed (n : Z) : Z := (n + BLOCK_SIZE - 1) / BLOCK_SIZE.

(** Data block pointers are never zero. *)
Fixpoint nonzero_blocks (l : list Z) : result FsError (list Z) :=
  match l with
  | [] => Ok []
  | b :: l =>
      if b =? 0 then Err Io else
      match nonzero_blocks l with Ok bs => Ok (b :: bs) | Err e => Err e end
  end.

(** The loop over the indirect block of [inode_data_blocks]. *)
Fixpoint indirect_blocks (start : Z) (idxs : list Z) : M FsError (list Z) :=
  match idxs with
  | [] => ret []
  | i :: idxs =>
      let! block := ok_or Io (read_u32_at (start + i * 4)) in
      if block =? 0 then throw Io else
      let! blocks := indirect_blocks start idxs in
      ret (block :: blocks)
  end.

Definition inode_data_blocks (inode : Inode) : M FsError (list Z) :=
  let needed := blocks_needed (size inode) in
  let! blocks := lift_result (nonzero_blocks (slice (direct inode) 0 (Z.min needed DIRECT_BLOCKS))) in
  if DIRECT_BLOCKS <? needed then
    if indirect inode =? 0 then throw Io else
    let! start := lift_result (block_offset (indirect inode)) in
    let! rest := indirect_blocks start (seqZ 0 (needed - DIRECT_BLOCKS)) in
    ret (blocks ++ rest)
  else ret blocks.

Definition free_inode (inode_idx : Z) : M FsError unit :=
  let! inode := ok_or NotFound (read_inode inode_idx) in
  let! blocks := inode_data_blocks inode in
  for_each free_block blocks ;;!
  (if indirect inode =? 0 then ret tt else free_block (indirect inode)) ;;!
  write_inode inode_idx Inode_free.

Fixpoint read_blocks (blocks : list Z) (remaining : Z) (out : bytes) : M FsError (Z * bytes) :=
  match blocks with
  | [] => ret (remaining, out)
  | block :: blocks =>
      if remaining =? 0 then ret (remaining, out) else
      let! start := lift_result (block_offset block) in
      let take := Z.min remaining BLOCK_SIZE in
      let! chunk := read_vec start take in
      read_blocks blocks (remaining - take) (out ++ chunk)
  end.

Definition read_inode_bytes (inode : Inode) : M FsError bytes :=
  let! blocks := inode_data_blocks inode in
  let! (remaining, out) := read_blocks blocks (size inode) [] in
  if remaining =? 0 then ret out else throw Io.

(** [for block in blocks { let _ = self.free_block(block); }] *)
Definition free_blocks_ignoring (blocks : list Z) : M FsError unit :=
  for_each (λ b, attempt (free_block b) ;;! ret tt) blocks.

(** Allocate one more block, or give back those in [blocks] and fail. *)
Definition alloc_or_rollback (blocks : list Z) : M FsError Z :=
  let! r := attempt alloc_block in
  match r with
  | Ok block => ret block
  | Err err => free_blocks_ignoring blocks ;;! throw err
  end.

Fixpoint alloc_blocks (n : nat) (new_blocks : list Z) : M FsError (list Z) :=
  match n with
  | O => ret new_blocks
  | S n =>
      let! block := alloc_or_rollback new_blocks in
      alloc_blocks n (new_blocks ++ [block])
  end.

Fixpoint write_blocks (idx : Z) (blocks : list Z) (data : bytes) : M FsError unit :=
  match blocks with
  | [] => ret tt
  | block :: blocks =>
      zero_block block ;;!
      let start := idx * BLOCK_SIZE in
      let fin := Z.min (start + BLOCK_SIZE) (len data) in
      let! off := lift_result (block_offset block) in
      write_at off (slice data start (fin - start)) ;;!
      write_blocks (idx + 1) blocks data
  end.

Fixpoint write_u32s (start idx : Z) (vs : list Z) : M FsError unit :=
  match vs with
  | [] => ret tt
  | v :: vs => write_u32_at (start + idx * 4) v ;;! write_u32s start (idx + 1) vs
  end.

(** [inode.direct] after the first [DIRECT_BLOCKS] of [blocks] were stored in a zeroed array. *)
Definition direct_of (blocks : list Z) : list Z :=
  splice (zeros DIRECT_BLOCKS) 0 (slice blocks 0 DIRECT_BLOCKS).

Definition with_blocks (inode : Inode) (sz : Z) (blocks : list Z) (ind : Z) : Inode :=
  {| kind := kind inode; size := sz; direct := direct_of blocks; indirect := ind;
     i_uid := i_uid inode; i_gid := i_gid inode; i_mode := i_mode inode |}.

Definition write_inode_bytes (inode_idx : Z) (data : bytes) : M FsError unit :=
  if ((DIRECT_BLOCKS + INDIRECT_ENTRIES) * BLOCK_SIZE <? len data) || (2 ^ 32 - 1 <? len data)
  then throw NoSpace else
  let needed := blocks_needed (len data) in
  let! new_blocks := alloc_blocks (Z.to_nat needed) [] in
  let! indirect_block := (if DIRECT_BLOCKS <? needed then alloc_or_rollback new_blocks else ret 0) in
  write_blocks 0 new_blocks data ;;!
  (if indirect_block =? 0 then ret tt else
     zero_block indirect_block ;;!
     let! indirect_start := lift_result (block_offset indirect_block) in
     write_u32s indirect_start 0 (drop (Z.to_nat DIRECT_BLOCKS) new_blocks)) ;;!
  let! inode := ok_or NotFound (read_inode inode_idx) in
  let! old_blocks := inode_data_blocks inode in
  write_inode inode_idx (with_blocks inode (len data) new_blocks indirect_block) ;;!
  for_each free_block old_blocks ;;!
  (if indirect inode =? 0 then ret tt else free_block (indirect inode)).

Record CoolFsStats := {
  st_total_blocks : Z; st_used_blocks : Z; st_free_blocks : Z; st_block_size : Z;
  st_files : Z; st_dirs : Z; st_cached_blocks : Z; st_dirty_blocks : Z }.

Fixpoint count_used (blocks : list Z) (used : Z) : M unit Z :=
  match blocks with
  | [] => ret used
  | b :: blocks =>
      let! u := block_used b in
      count_used blocks (if u then used + 1 else used)
  end.

Fixpoint count_kinds (idxs : list Z) (files dirs : Z) : M unit (Z * Z) :=
  match idxs with
  | [] => ret (files, dirs)
  | i :: idxs =>
      let! r := attempt (read_inode i) in
      match r with
      | Ok inode =>
          if kind inode =? KIND_FILE then count_kinds idxs (files + 1) dirs
          else if kind inode =? KIND_DIR then count_kinds idxs files (dirs + 1)
          else count_kinds idxs files dirs
      | Err _ => count_kinds idxs files dirs
      end
  end.

Definition image_stats : M unit CoolFsStats :=
  let! used := count_used (seqZ 0 (total_blocks sb)) 0 in
  let! (files, dirs) := count_kinds (seqZ 0 (inode_count sb)) 0 0 in
  let! c := get_cache in
  ret {| st_total_blocks := total_blocks sb; st_used_blocks := used;
         st_free_blocks := saturating_sub (total_blocks sb) used; st_block_size := BLOCK_SIZE;
         st_files := files; st_dirs := dirs;
         st_cached_blocks := cached_blocks c; st_dirty_blocks := dirty_blocks c |}.
End image.
