(* ===== verification/CoolMem.v ===== *)
(** * The mounted volume as a flat memory

    Through the block cache a reliable volume behaves like an array of
    [TOTAL_BLOCKS * BLOCK_SIZE] bytes.  [repr s f] relates a cache state to
    such a memory [f]; [runs m f r f'] says that from any state representing
    [f] the operation [m] returns [r] and leaves a state representing [f'].
    This file gives every accessor of [Image] its [runs] rule, which makes the
    block and cache structure disappear from the proofs above it.  Since the
    rules return [Ok], they also show that the copy loops have enough fuel. *)
From S2P Require Import Prelude DiskLayout Storage Paths Security BlockCache CoolImage.
Set Warnings "-clear-no-such-hyp".

Local Open Scope Z_scope.
Local Open Scope st_scope.

Definition mem : Type := Z → Z.
Definition VOLUME : Z := TOTAL_BLOCKS * BLOCK_SIZE.

Definition mread (f : mem) (off n : Z) : bytes := (λ i, f (off + i)) <$> seqZ 0 n.
Definition mwrite (f : mem) (off : Z) (l : bytes) : mem :=
  λ a, if (off <=? a) && (a <? off + len l) then nthZ l (a - off) else f a.

#[global] Arguments mread : simpl never.
#[global] Strategy 1000 [mread].
#[global] Arguments mwrite : simpl never.

(** Equality of memories on the volume. *)
Definition mem_eq (f g : mem) : Prop := ∀ a, 0 ≤ a < VOLUME → f a = g a.
Definition mem_bytes (f : mem) : Prop := ∀ a, 0 ≤ a < VOLUME → is_byte (f a).

#[export] Instance mem_eq_equivalence : Equivalence mem_eq.
Proof.
  split.
  - by intros f a _.
  - intros f g H a Ha. by rewrite H.
  - intros f g h H1 H2 a Ha. by rewrite H1, H2.
Qed.

Lemma mwrite_in f off l a : off ≤ a < off + len l → mwrite f off l a = nthZ l (a - off).
Proof. intros Ha. unfold mwrite. by rewrite (proj2 (Z.leb_le _ _)), (proj2 (Z.ltb_lt _ _)) by lia. Qed.

Lemma mwrite_out f off l a : a < off ∨ off + len l ≤ a → mwrite f off l a = f a.
Proof.
  intros Ha. unfold mwrite. destruct (Z.leb_spec off a); [|done].
  by rewrite (proj2 (Z.ltb_ge _ _)) by lia.
Qed.

Lemma mwrite_nil f off a : mwrite f off [] a = f a.
Proof. apply mwrite_out. rewrite len_nil. lia. Qed.

Lemma mwrite_app f off l k a : mwrite f off (l ++ k) a = mwrite (mwrite f off l) (off + len l) k a.
Proof.
  pose proof (len_nonneg l). pose proof (len_nonneg k).
  destruct (decide (off + len l ≤ a < off + len l + len k)).
  - rewrite !mwrite_in by (rewrite ?len_app; lia). rewrite nthZ_app_r by lia. f_equal. lia.
  - rewrite (mwrite_out _ (off + len l)) by lia. destruct (decide (off ≤ a < off + len l)).
    + rewrite !mwrite_in by (rewrite ?len_app; lia). apply nthZ_app_l. lia.
    + rewrite !mwrite_out by (rewrite ?len_app; lia). done.
Qed.

Lemma mwrite_proper f g off l a : f a = g a → mwrite f off l a = mwrite g off l a.
Proof. intros E. unfold mwrite. by case_if. Qed.

#[export] Instance mwrite_mem_eq : Proper (mem_eq ==> eq ==> eq ==> mem_eq) mwrite.
Proof. intros f g H off ? <- l ? <- a Ha. apply mwrite_proper. by apply H. Qed.

Lemma mem_bytes_mwrite f off l : mem_bytes f → Forall is_byte l → mem_bytes (mwrite f off l).
Proof. intros Hf Hl a Ha. unfold mwrite. case_if; [by apply nthZ_is_byte|by apply Hf]. Qed.

Lemma len_fmap_seqZ (h : Z → Z) n : 0 ≤ n → len (h <$> seqZ 0 n) = n.
Proof. intros. unfold len. rewrite length_fmap, length_seqZ. lia. Qed.

Lemma nthZ_fmap_seqZ (h : Z → Z) n i : 0 ≤ i < n → nthZ (h <$> seqZ 0 n) i = h i.
Proof.
  intros Hi. unfold nthZ. rewrite (nth_lookup_Some _ _ _ (h i)); [done|].
  rewrite list_lookup_fmap, lookup_seqZ_lt by lia. simpl. do 2 f_equal. lia.
Qed.

Lemma len_mread f off n : 0 ≤ n → len (mread f off n) = n.
Proof. apply len_fmap_seqZ. Qed.

Lemma nthZ_mread f off n i : 0 ≤ i < n → nthZ (mread f off n) i = f (off + i).
Proof. intros. by apply (nthZ_fmap_seqZ (λ i, f (off + i))). Qed.

Lemma mread_is_byte f off n :
  mem_bytes f → 0 ≤ off → off + n ≤ VOLUME → Forall is_byte (mread f off n).
Proof.
  intros Hf Hoff Hn. apply Forall_fmap, Forall_forall. intros i Hi%elem_of_seqZ. apply Hf. lia.
Qed.

Lemma mread_ext f g off n : (∀ a, off ≤ a < off + n → f a = g a) → mread f off n = mread g off n.
Proof.
  intros E. destruct (decide (0 ≤ n)); [|unfold mread; by rewrite seqZ_nil by lia].
  apply nthZ_ext; rewrite !len_mread by done; [done|]. intros i Hi. rewrite !nthZ_mread by done.
  apply E. lia.
Qed.

Lemma mread_mwrite f off l n : n = len l → mread (mwrite f off l) off n = l.
Proof.
  intros ->. apply nthZ_ext; [apply len_mread, len_nonneg|].
  intros i Hi. rewrite len_mread in Hi by apply len_nonneg.
  rewrite nthZ_mread, mwrite_in by lia. f_equal. lia.
Qed.

Lemma mread_split f off n k :
  0 ≤ n → 0 ≤ k → mread f off (n + k) = mread f off n ++ mread f (off + n) k.
Proof.
  intros. apply nthZ_ext; rewrite ?len_app, !len_mread by lia; [lia|].
  intros i Hi. rewrite nthZ_mread by lia. destruct (decide (i < n)).
  - by rewrite nthZ_app_l, nthZ_mread by (rewrite ?len_mread; lia).
  - rewrite nthZ_app_r, nthZ_mread by (rewrite ?len_mread; lia). rewrite len_mread by lia. f_equal. lia.
Qed.

Lemma slice_mread f off n a k :
  0 ≤ a → 0 ≤ k → a + k ≤ n → slice (mread f off n) a k = mread f (off + a) k.
Proof.
  intros. apply nthZ_ext; rewrite len_slice, ?len_mread by (rewrite ?len_mread; lia); [done|].
  intros i Hi. rewrite nthZ_slice, !nthZ_mread by (rewrite ?len_mread; lia). f_equal. lia.
Qed.

Lemma mread_nil f off : mread f off 0 = [].
Proof. done. Qed.

Section runs.
Context {V : Type} `{ReliableStore V}.
Context (Hwindow : TOTAL_BLOCKS * SECTORS_PER_BLOCK ≤ swindow).
Implicit Types (s : Cached V) (f g : mem).

Definition repr s f : Prop :=
  cache_inv s ∧ sgood (disk s) ∧
  ∀ b, block_in_range b → view s b = mread f (b * BLOCK_SIZE) BLOCK_SIZE.

Definition runs {E A} (m : ST (Cached V) E A) f (r : result E A) g : Prop :=
  ∀ s, repr s f → ∃ s', m s = (r, s') ∧ repr s' g.

Lemma repr_ext s f g : mem_eq f g → repr s f → repr s g.
Proof.
  intros E (Hinv & Hg & Hv). split_and!; [done..|]. intros b Hb. rewrite Hv by done.
  apply mread_ext. intros a Ha. apply E. unfold block_in_range, VOLUME, BLOCK_SIZE in *. lia.
Qed.

Lemma runs_ext {E A} (m : ST (Cached V) E A) f f' r g g' :
  mem_eq f f' → mem_eq g g' → runs m f r g → runs m f' r g'.
Proof.
  intros Ef Eg Hm s Hs. symmetry in Ef. destruct (Hm s) as (s' & E1 & Hs'); [by eapply repr_ext|].
  exists s'. split; [done|]. by eapply repr_ext.
Qed.

Lemma runs_ret {E A} (a : A) f : runs (ret (E := E) a) f (Ok a) f.
Proof. intros s Hs. eexists. done. Qed.

Lemma runs_throw {E A} (e : E) f : runs (throw (A := A) e) f (Err e) f.
Proof. intros s Hs. eexists. done. Qed.

Lemma runs_lift_result {E A} (r : result E A) f : runs (lift_result r) f r f.
Proof. intros s Hs. eexists. done. Qed.

Lemma runs_bind {E A B} (m : ST (Cached V) E A) (k : A → ST (Cached V) E B) f a g r h :
  runs m f (Ok a) g → runs (k a) g r h → runs (bind m k) f r h.
Proof.
  intros Hm Hk s Hs. destruct (Hm s Hs) as (s1 & E1 & Hs1). destruct (Hk s1 Hs1) as (s2 & E2 & Hs2).
  exists s2. split; [|done]. unfold bind. by rewrite E1.
Qed.

Lemma runs_bind_err {E A B} (m : ST (Cached V) E A) (k : A → ST (Cached V) E B) f e g :
  runs m f (Err e) g → runs (bind m k) f (Err e) g.
Proof.
  intros Hm s Hs. destruct (Hm s Hs) as (s1 & E1 & Hs1). exists s1. split; [|done].
  unfold bind. by rewrite E1.
Qed.

Lemma runs_bind_assoc {E A B C} (m : ST (Cached V) E A) (k : A → ST (Cached V) E B)
    (h : B → ST (Cached V) E C) f r g :
  runs (bind (bind m k) h) f r g → runs (bind m (λ x, bind (k x) h)) f r g.
Proof.
  intros Hr s Hs. destruct (Hr s Hs) as (s' & E1 & Hs'). exists s'. split; [|done].
  revert E1. unfold bind. by destruct (m s) as [[|] ?].
Qed.

Lemma runs_map_err {E E' A} (h : E → E') (m : ST (Cached V) E A) f r g :
  runs m f r g →
  runs (map_err h m) f (match r with Ok a => Ok a | Err e => Err (h e) end) g.
Proof.
  intros Hm s Hs. destruct (Hm s Hs) as (s1 & E1 & Hs1). exists s1. split; [|done].
  unfold map_err. rewrite E1. by destruct r.
Qed.

Lemma runs_ok {E A} (m : ST (Cached V) E A) f a g : runs m f (Ok a) g → runs (ok m) f (Ok a) g.
Proof. intros Hm. apply (runs_map_err (λ _, tt)) in Hm. exact Hm. Qed.

Lemma runs_ok_or {A E} (e : E) (m : ST (Cached V) unit A) f a g :
  runs m f (Ok a) g → runs (ok_or e m) f (Ok a) g.
Proof. intros Hm. apply (runs_map_err (λ _, e)) in Hm. exact Hm. Qed.

Lemma runs_attempt {E E' A} (m : ST (Cached V) E A) f r g :
  runs m f r g → runs (attempt (E' := E') m) f (Ok r) g.
Proof.
  intros Hm s Hs. destruct (Hm s Hs) as (s1 & E1 & Hs1). exists s1. split; [|done].
  unfold attempt. by rewrite E1.
Qed.

Lemma runs_unwrap_or {A} (d : A) (m : ST (Cached V) unit A) f a g :
  runs m f (Ok a) g → runs (unwrap_or d m) f (Ok a) g.
Proof. intros Hm. eapply runs_bind; [by apply runs_attempt|]. apply runs_ret. Qed.

(** The state only matters through the memory it represents. *)
Lemma repr_bytes s f : repr s f → mem_bytes f.
Proof.
  intros (Hinv & Hg & Hv) a Ha. unfold VOLUME in Ha.
  pose proof (Z.div_mod a BLOCK_SIZE ltac:(done)). pose proof (Z.mod_pos_bound a BLOCK_SIZE ltac:(done)).
  set (b := a / BLOCK_SIZE) in *. assert (block_in_range b) as Hb by (unfold block_in_range, BLOCK_SIZE in *; lia).
  destruct (cache_index_good Hwindow s b) as (idx & s' & E & _); [done..|].
  apply cache_index_spec in E as ((Hinv' & Hsv & e & He & Heb & Hd) & _); [|done|apply Hb].
  destruct Hinv' as (_ & _ & _ & Hall). destruct (Forall_lookup_1 _ _ _ _ Hall He) as (_ & _ & Hby & _).
  rewrite Hd, (Hv b Hb) in Hby. pose proof (nthZ_is_byte _ (a mod BLOCK_SIZE) Hby) as Hn.
  rewrite nthZ_mread in Hn by done. by replace (b * BLOCK_SIZE + a mod BLOCK_SIZE) with a in Hn by lia.
Qed.

Lemma runs_with_bytes {E A} (m : ST (Cached V) E A) f r g :
  (mem_bytes f → runs m f r g) → runs m f r g.
Proof. intros Hm s Hs. apply Hm; [by eapply repr_bytes|done]. Qed.

Lemma runs_get b f : block_in_range b → runs (get b) f (Ok (mread f (b * BLOCK_SIZE) BLOCK_SIZE)) f.
Proof.
  intros Hb s (Hinv & Hg & Hv).
  destruct (cache_index_good Hwindow s b) as (idx & s' & E & Hg'); [done..|].
  exists s'. split.
  - pose proof E as ((_ & _ & e & He & _ & Hd) & _)%cache_index_spec; [|done|apply Hb].
    unfold get, bind. rewrite E. unfold get_cache, ret, entry_at.
    by rewrite (nth_lookup_Some _ _ _ _ He), Hd, Hv.
  - apply cache_index_spec in E as ((Hinv' & Hsv & _) & _); [|done|apply Hb].
    split_and!; [done..|]. intros b' Hb'. by rewrite Hsv, Hv.
Qed.

Lemma mread_block_mwrite f b b' ib l :
  block_in_range b → block_in_range b' → 0 ≤ ib → ib + len l ≤ BLOCK_SIZE →
  mread (mwrite f (b * BLOCK_SIZE + ib) l) (b' * BLOCK_SIZE) BLOCK_SIZE =
  if b =? b' then splice (mread f (b * BLOCK_SIZE) BLOCK_SIZE) ib l else mread f (b' * BLOCK_SIZE) BLOCK_SIZE.
Proof.
  intros Hb Hb' Hib Hl. pose proof (len_nonneg l). case_if as E; zbool.
  - subst b'. apply nthZ_ext; rewrite ?len_splice, ?len_mread by (rewrite ?len_mread; lia); [done|].
    intros i Hi. rewrite nthZ_mread by done. rewrite nthZ_splice by (rewrite ?len_mread; lia).
    rewrite nthZ_mread by done. case_if as Ei; zbool.
    + rewrite mwrite_in by lia. f_equal. lia.
    + apply andb_false_iff in Ei. rewrite mwrite_out by (rewrite Z.leb_gt, Z.ltb_ge in Ei; lia). done.
  - apply mread_ext. intros a Ha. apply mwrite_out. unfold block_in_range, BLOCK_SIZE in *. lia.
Qed.

Lemma runs_get_mut_eq b upd ib l f :
  block_in_range b → 0 ≤ ib → ib + len l ≤ BLOCK_SIZE → Forall is_byte l →
  (∀ d, len d = BLOCK_SIZE → upd d = splice d ib l) →
  runs (get_mut b upd) f (Ok tt) (mwrite f (b * BLOCK_SIZE + ib) l).
Proof.
  intros Hb Hib Hl Hby Hupd s (Hinv & Hg & Hv). pose proof (len_nonneg l).
  destruct (cache_index_good Hwindow s b) as (idx & s' & E & Hg'); [done..|].
  destruct (get_mut b upd s) as [r s2] eqn:E2. pose proof E2 as E3.
  apply get_mut_spec in E3 as (Hinv' & Hr); [|done|apply Hb|].
  - unfold get_mut, bind in E2. rewrite E in E2. injection E2 as <- <-. eexists. split; [done|].
    destruct Hr as [_ Hr]. split_and!; [done..|]. intros b' Hb'.
    rewrite Hr, mread_block_mwrite, !Hv by done. case_if; [|done].
    apply Hupd. by rewrite len_mread.
  - intros d Hd Hdb. rewrite Hupd by done. split; [by rewrite len_splice by lia|by apply splice_is_byte].
Qed.

Lemma runs_get_mut b ib l f :
  block_in_range b → 0 ≤ ib → ib + len l ≤ BLOCK_SIZE → Forall is_byte l →
  runs (get_mut b (λ d, splice d ib l)) f (Ok tt) (mwrite f (b * BLOCK_SIZE + ib) l).
Proof. intros. by apply runs_get_mut_eq. Qed.

Lemma runs_zero_block b f :
  block_in_range b → runs (zero_block b) f (Ok tt) (mwrite f (b * BLOCK_SIZE) (zeros BLOCK_SIZE)).
Proof.
  intros Hb. rewrite <- (Z.add_0_r (b * BLOCK_SIZE)).
  apply runs_get_mut_eq; [done|done|done|apply zeros_is_byte|]. intros d Hd.
  unfold splice, zeros, len in *. rewrite length_replicate, drop_ge by lia.
  change (Z.to_nat 0) with O. rewrite take_0, app_nil_l, app_nil_r. f_equal. lia.
Qed.
End runs.

(** ** The accessors of [Image] *)
Section accessors.
Context {V : Type} `{ReliableStore V}.
Context (Hwindow : TOTAL_BLOCKS * SECTORS_PER_BLOCK ≤ swindow).
Context (sb : Superblock) (Hsb : 0 ≤ total_blocks sb ≤ TOTAL_BLOCKS).
Implicit Types (f g : mem).
Abbreviation runs := (runs (V := V)).

Lemma fs_len_bound : 0 ≤ fs_len sb ≤ VOLUME.
Proof. unfold fs_len, VOLUME, BLOCK_SIZE. lia. Qed.

(** The block and offset of an address inside the file system. *)
Lemma abs_parts_in off :
  0 ≤ off < fs_len sb →
  ∃ b ib, abs_parts sb off = Some (b, ib) ∧ block_in_range b ∧ 0 ≤ ib < BLOCK_SIZE ∧
          off = b * BLOCK_SIZE + ib ∧ b = off / BLOCK_SIZE.
Proof.
  intros Hoff. pose proof fs_len_bound as Hfs.
  pose proof (Z.div_mod off BLOCK_SIZE ltac:(done)). pose proof (Z.mod_pos_bound off BLOCK_SIZE ltac:(done)).
  exists (off / BLOCK_SIZE), (off mod BLOCK_SIZE). unfold abs_parts.
  rewrite (proj2 (Z.leb_gt _ _)) by lia. unfold VOLUME, TOTAL_BLOCKS, BLOCK_SIZE in *.
  rewrite (Z.mod_small (off / 4096)) by (simpl; lia).
  unfold block_in_range, TOTAL_BLOCKS. split_and!; lia || done.
Qed.

Ltac abs_parts off :=
  let b := fresh "b" in let ib := fresh "ib" in
  destruct (abs_parts_in off) as (b & ib & Hparts & Hb & Hib & Hoff & Hbdiv); [lia|];
  rewrite Hparts; eapply runs_bind; [apply runs_lift_result|]; cbv beta iota zeta.

Lemma runs_read_u8 off f : 0 ≤ off < fs_len sb → runs (read_u8 sb off) f (Ok (f off)) f.
Proof.
  intros Ho. unfold read_u8. abs_parts off.
  eapply runs_bind; [apply runs_ok, runs_get; done|].
  rewrite nthZ_mread, <- Hoff by done. apply runs_ret.
Qed.

Lemma runs_write_u8 off v f :
  0 ≤ off < fs_len sb → is_byte v → runs (write_u8 sb off v) f (Ok tt) (mwrite f off [v]).
Proof.
  intros Ho Hv. unfold write_u8. abs_parts off. rewrite Hoff.
  apply runs_get_mut; [done|done|lia|change (len [v]) with 1; lia|by apply Forall_singleton].
Qed.

(** Iterations left for [n] bytes from [off], counting the last test. *)
Definition enough (fuel : nat) (off n : Z) : Prop :=
  if 0 <? n then (off + n + BLOCK_SIZE - 1) / BLOCK_SIZE - off / BLOCK_SIZE + 1 ≤ Z.of_nat fuel
  else 1 ≤ Z.of_nat fuel.

Lemma enough_copy off n : 0 ≤ off → 0 ≤ n → enough (copy_fuel n) off n.
Proof.
  intros. unfold enough, copy_fuel, BLOCK_SIZE. case_if; Z.to_euclidean_division_equations; lia.
Qed.

Lemma enough_S fuel off n :
  0 ≤ off → 0 < n → enough fuel off n →
  ∃ fuel', fuel = S fuel' ∧
    let take := Z.min n (BLOCK_SIZE - off mod BLOCK_SIZE) in enough fuel' (off + take) (n - take).
Proof.
  intros Hoff Hn. unfold enough at 1. rewrite (proj2 (Z.ltb_lt _ _) Hn). intros Hf.
  destruct fuel as [|fuel]; [exfalso; unfold BLOCK_SIZE in *; Z.to_euclidean_division_equations; lia|].
  exists fuel. split; [done|]. cbv zeta. unfold enough. unfold BLOCK_SIZE in *.
  destruct (Z.min_spec n (4096 - off mod 4096)) as [[? ->]|[? ->]]; case_if as E; zbool;
    Z.to_euclidean_division_equations; lia.
Qed.

Lemma enough_0 off n : 0 ≤ off → 0 ≤ n → ¬ enough 0 off n.
Proof.
  intros Ho Hn Hf. destruct (decide (0 < n)) as [Hp|Hp].
  - by destruct (enough_S 0 off n) as (? & ? & _).
  - unfold enough in Hf. rewrite (proj2 (Z.ltb_ge _ _)) in Hf by lia. lia.
Qed.

Lemma ib_mod off b ib : 0 ≤ ib < BLOCK_SIZE → off = b * BLOCK_SIZE + ib → ib = off mod BLOCK_SIZE.
Proof. intros ? ->. by rewrite Z.add_comm, Z.mod_add, Z.mod_small by done. Qed.

Lemma runs_read_vec_loop fuel off n out f :
  0 ≤ off → 0 ≤ n → off + n ≤ fs_len sb → enough fuel off n →
  runs (read_vec_loop sb fuel off n out) f (Ok (out ++ mread f off n)) f.
Proof.
  revert off n out. induction fuel as [|fuel IH]; intros off n out Ho Hn Hfs Hf.
  { by apply enough_0 in Hf. }
  cbn [read_vec_loop]. case_if as E; zbool.
  - destruct (enough_S (S fuel) off n) as (? & [= <-] & Hf'); [lia..|done|].
    abs_parts off. eapply runs_bind; [by apply runs_get|].
    rewrite <- (ib_mod off b ib) in Hf' by done. cbv zeta in Hf'.
    set (take := Z.min n (BLOCK_SIZE - ib)) in *. assert (0 ≤ take ≤ n ∧ take ≤ BLOCK_SIZE - ib) by lia.
    rewrite slice_mread by lia.
    replace (out ++ mread f off n) with ((out ++ mread f off take) ++ mread f (off + take) (n - take)).
    + rewrite <- Hoff. apply IH; [lia..|done].
    + rewrite <- app_assoc, <- mread_split by lia. do 2 f_equal. lia.
  - replace n with 0 by lia. rewrite mread_nil, app_nil_r. apply runs_ret.
Qed.

Lemma checked_add_in off n :
  0 ≤ off → 0 ≤ n → off + n ≤ fs_len sb → checked_add 64 off n = Some (off + n).
Proof.
  intros. pose proof fs_len_bound. unfold checked_add, VOLUME, TOTAL_BLOCKS, BLOCK_SIZE in *.
  by rewrite (proj2 (Z.ltb_lt _ _)) by lia.
Qed.

Ltac bounds_check off n :=
  rewrite (checked_add_in off n) by lia;
  eapply runs_bind; [apply runs_lift_result|]; cbv beta; rewrite (proj2 (Z.ltb_ge _ _)) by lia.

Lemma runs_read_vec off n f :
  0 ≤ off → 0 ≤ n → off + n ≤ fs_len sb → runs (read_vec sb off n) f (Ok (mread f off n)) f.
Proof.
  intros Ho Hn Hfs. unfold read_vec. bounds_check off n.
  apply (runs_read_vec_loop _ _ _ []); [done..|]. by apply enough_copy.
Qed.

Lemma slice_0_splice (out x : bytes) d :
  0 ≤ d → d + len x ≤ len out → slice (splice out d x) 0 (d + len x) = slice out 0 d ++ x.
Proof.
  intros Hd Hl. pose proof (len_nonneg x).
  apply nthZ_ext; rewrite ?len_app, !len_slice by (rewrite ?len_splice; lia); [done|].
  intros i Hi. rewrite nthZ_slice, nthZ_splice by lia. rewrite Z.add_0_l.
  destruct (Z.leb_spec d i); simpl.
  - rewrite (proj2 (Z.ltb_lt _ _)) by lia. by rewrite nthZ_app_r, len_slice by (rewrite ?len_slice; lia).
  - rewrite nthZ_app_l, nthZ_slice by (rewrite ?len_slice; lia). by rewrite Z.add_0_l.
Qed.

Lemma slice_all {A} (l : list A) : slice l 0 (len l) = l.
Proof. unfold slice, len. rewrite Nat2Z.id. apply firstn_all. Qed.

Lemma runs_read_into_loop fuel off d out f :
  0 ≤ off → 0 ≤ d ≤ len out → off + (len out - d) ≤ fs_len sb → enough fuel off (len out - d) →
  runs (read_into_loop sb fuel off d out) f (Ok (slice out 0 d ++ mread f off (len out - d))) f.
Proof.
  revert off d out. induction fuel as [|fuel IH]; intros off d out Ho Hd Hfs Hf.
  { apply enough_0 in Hf; [done|lia|lia]. }
  cbn [read_into_loop]. case_if as E; zbool.
  - destruct (enough_S (S fuel) off (len out - d)) as (? & [= <-] & Hf'); [lia..|done|].
    abs_parts off. eapply runs_bind; [by apply runs_get|].
    rewrite <- (ib_mod off b ib) in Hf' by done. cbv zeta in Hf'.
    remember (Z.min (len out - d) (BLOCK_SIZE - ib)) as take eqn:Et.
    assert (0 ≤ take ≤ len out - d ∧ take ≤ BLOCK_SIZE - ib) as Htake by lia. clear Et.
    rewrite slice_mread, <- Hoff by lia.
    assert (len (mread f off take) = take) as Hlt by (apply len_mread; lia).
    assert (len (splice out d (mread f off take)) = len out) as Hls by (apply len_splice; lia).
    specialize (IH (off + take) (d + take) (splice out d (mread f off take))). rewrite Hls in IH.
    replace (len out - (d + take)) with (len out - d - take) in IH by lia.
    assert (slice (splice out d (mread f off take)) 0 (d + take) = slice out 0 d ++ mread f off take) as Hsl
      by (rewrite <- Hlt at 2; apply slice_0_splice; lia).
    rewrite Hsl, <- app_assoc, <- mread_split in IH by lia.
    replace (take + (len out - d - take)) with (len out - d) in IH by lia.
    apply IH; [lia..|done].
  - replace d with (len out) by lia. rewrite Z.sub_diag, mread_nil, app_nil_r, slice_all. apply runs_ret.
Qed.

Lemma runs_read_into off out f :
  0 ≤ off → off + len out ≤ fs_len sb → runs (read_into sb off out) f (Ok (mread f off (len out))) f.
Proof.
  intros Ho Hfs. pose proof (len_nonneg out). unfold read_into. bounds_check off (len out).
  pose proof (runs_read_into_loop (copy_fuel (len out)) off 0 out f) as Hl. rewrite Z.sub_0_r in Hl.
  apply Hl; [lia..|]. by apply enough_copy.
Qed.

Lemma runs_read_u32_at off f :
  0 ≤ off → off + 4 ≤ fs_len sb → runs (read_u32_at sb off) f (Ok (le_val (mread f off 4))) f.
Proof.
  intros. eapply runs_bind; [apply runs_ok, (runs_read_into off (zeros 4)); done|]. apply runs_ret.
Qed.

Lemma slice_cut (l : bytes) d t :
  0 ≤ d → 0 ≤ t → d + t ≤ len l → slice l d (len l - d) = slice l d t ++ slice l (d + t) (len l - (d + t)).
Proof.
  intros. apply nthZ_ext; rewrite ?len_app, !len_slice by lia; [lia|].
  intros i Hi. rewrite nthZ_slice by lia. destruct (decide (i < t)).
  - by rewrite nthZ_app_l, nthZ_slice by (rewrite ?len_slice; lia).
  - rewrite nthZ_app_r, len_slice, nthZ_slice by (rewrite ?len_slice; lia). f_equal. lia.
Qed.

Lemma runs_write_at_loop fuel off d input f :
  0 ≤ off → 0 ≤ d ≤ len input → off + (len input - d) ≤ fs_len sb → Forall is_byte input →
  enough fuel off (len input - d) →
  runs (write_at_loop sb fuel off d input) f (Ok tt) (mwrite f off (slice input d (len input - d))).
Proof.
  intros Ho Hd Hfs Hby. revert off d Ho Hd Hfs f. induction fuel as [|fuel IH]; intros off d Ho Hd Hfs f Hf.
  { apply enough_0 in Hf; [done|lia|lia]. }
  cbn [write_at_loop]. case_if as E; zbool.
  - destruct (enough_S (S fuel) off (len input - d)) as (? & [= <-] & Hf'); [lia..|done|].
    abs_parts off. rewrite <- (ib_mod off b ib) in Hf' by done. cbv zeta in Hf'.
    remember (Z.min (len input - d) (BLOCK_SIZE - ib)) as take eqn:Et.
    assert (0 ≤ take ≤ len input - d ∧ take ≤ BLOCK_SIZE - ib) as Htake by lia. clear Et.
    assert (len (slice input d take) = take) as Hlt by (apply len_slice; lia).
    eapply runs_bind; [apply runs_get_mut; [done|done|lia|lia|by apply slice_is_byte]|].
    rewrite <- Hoff. replace (len input - d - take) with (len input - (d + take)) in Hf' by lia.
    eapply runs_ext; [reflexivity| |apply IH; [lia|lia|lia|exact Hf']].
    intros a _. rewrite (slice_cut input d take), mwrite_app, Hlt by lia. done.
  - replace d with (len input) by lia. rewrite Z.sub_diag.
    eapply runs_ext; [reflexivity| |apply runs_ret]. intros a _. by rewrite mwrite_nil.
Qed.

Lemma runs_write_at off input f :
  0 ≤ off → off + len input ≤ fs_len sb → Forall is_byte input →
  runs (write_at sb off input) f (Ok tt) (mwrite f off input).
Proof.
  intros Ho Hfs Hby. pose proof (len_nonneg input). unfold write_at. bounds_check off (len input).
  pose proof (runs_write_at_loop (copy_fuel (len input)) off 0 input f) as Hl.
  rewrite Z.sub_0_r, slice_all in Hl. apply Hl; [lia|lia|lia|done|]. by apply enough_copy.
Qed.

Lemma runs_write_u32_at off v f :
  0 ≤ off → off + 4 ≤ fs_len sb → runs (write_u32_at sb off v) f (Ok tt) (mwrite f off (le_bytes 4 v)).
Proof. intros. apply runs_write_at; [done|by rewrite len_le_bytes|apply le_bytes_is_byte]. Qed.

Lemma len_replicate n (v : Z) : 0 ≤ n → len (replicate (Z.to_nat n) v) = n.
Proof. intros. unfold len. rewrite length_replicate. lia. Qed.

Lemma runs_fill_at_loop fuel off n v f :
  0 ≤ off → 0 ≤ n → off + n ≤ fs_len sb → is_byte v → enough fuel off n →
  runs (fill_at_loop sb fuel off n v) f (Ok tt) (mwrite f off (replicate (Z.to_nat n) v)).
Proof.
  intros Ho Hn Hfs Hby. revert off n Ho Hn Hfs f. induction fuel as [|fuel IH]; intros off n Ho Hn Hfs f Hf.
  { by apply enough_0 in Hf. }
  cbn [fill_at_loop]. case_if as E; zbool.
  - destruct (enough_S (S fuel) off n) as (? & [= <-] & Hf'); [lia..|done|].
    abs_parts off. rewrite <- (ib_mod off b ib) in Hf' by done. cbv zeta in Hf'.
    remember (Z.min n (BLOCK_SIZE - ib)) as take eqn:Et.
    assert (0 ≤ take ≤ n ∧ take ≤ BLOCK_SIZE - ib) as Htake by lia. clear Et.
    eapply runs_bind; [apply runs_get_mut; [done|done|lia|rewrite len_replicate; lia|by apply Forall_replicate]|].
    rewrite <- Hoff. eapply runs_ext; [reflexivity| |apply IH; [lia|lia|lia|exact Hf']].
    intros a _. replace (Z.to_nat n) with (Z.to_nat take + Z.to_nat (n - take))%nat by lia.
    rewrite replicate_add, mwrite_app, len_replicate by lia. done.
  - replace n with 0 by lia. eapply runs_ext; [reflexivity| |apply runs_ret]. intros a _. by rewrite mwrite_nil.
Qed.

Lemma runs_fill_at off n v f :
  0 ≤ off → 0 ≤ n → off + n ≤ fs_len sb → is_byte v →
  runs (fill_at sb off n v) f (Ok tt) (mwrite f off (replicate (Z.to_nat n) v)).
Proof.
  intros Ho Hn Hfs Hby. unfold fill_at. bounds_check off n.
  apply runs_fill_at_loop; [done..|]. by apply enough_copy.
Qed.
End accessors.
