(* ===== verification/CoolFile.v ===== *)
(** * Inodes, the block bitmap and file contents of CoolFS

    Functional specifications of the [Image] methods of src/src/coolfs.rs over
    the flat memory of CoolMem.v: the inode codec, the block allocator as a
    free list, and [read_inode_bytes]/[write_inode_bytes] as operations on
    file contents that neither leak nor share blocks. *)
From stdpp Require Import sets.
From S2P Require Import Prelude DiskLayout Storage Paths Security BlockCache CoolImage CoolMem.
Set Warnings "-clear-no-such-hyp".

Local Open Scope Z_scope.
Local Open Scope st_scope.

(** A superblock whose regions are ordered and lie on the volume. *)
Record sb_wf (sb : Superblock) : Prop := {
  swf_total : 0 ≤ total_blocks sb ≤ TOTAL_BLOCKS;
  swf_min : 1024 ≤ total_blocks sb;
  swf_table : 0 < inode_table_start sb;
  swf_inodes : 0 < inode_count sb;
  swf_table_end : inode_table_start sb * BLOCK_SIZE + inode_count sb * INODE_SIZE ≤ bitmap_start sb * BLOCK_SIZE;
  swf_bitmap : bitmap_start sb * BLOCK_SIZE + total_blocks sb / 8 < data_start sb * BLOCK_SIZE;
  swf_data : 0 < data_start sb ≤ total_blocks sb }.

Lemma Superblock_new_wf : sb_wf Superblock_new.
Proof. by split. Qed.

(** ** The inode record on disk *)
Record inode_ok (i : Inode) : Prop := {
  iok_kind : is_byte (kind i);
  iok_size : u32 (size i);
  iok_direct_len : len (direct i) = DIRECT_BLOCKS;
  iok_direct : Forall u32 (direct i);
  iok_indirect : u32 (indirect i);
  iok_uid : u32 (i_uid i);
  iok_gid : u32 (i_gid i);
  iok_mode : 0 ≤ i_mode i < 2 ^ 16 }.

Definition encode_u32s (l : list Z) : bytes := concat (le_bytes 4 <$> l).

Definition encode_inode (i : Inode) : bytes :=
  [kind i] ++ replicate 3 0 ++ le_bytes 4 (size i) ++ encode_u32s (direct i) ++
  le_bytes 4 (indirect i) ++ le_bytes 4 (i_uid i) ++ le_bytes 4 (i_gid i) ++
  le_bytes 4 (Z.land (i_mode i) MODE_MASK) ++ replicate 40 0.

Definition read32 (f : mem) (off : Z) : Z := le_val (mread f off 4).

(** The mode an inode of kind [k] is read with: a zero mode is replaced. *)
Definition effective_mode (k mode : Z) : Z :=
  let m := Z.land (mode mod 2 ^ 16) MODE_MASK in
  if negb (k =? KIND_FREE) && (m =? 0)
  then (if k =? KIND_DIR then DEFAULT_DIR_MODE else DEFAULT_FILE_MODE) else m.

Definition decode_inode_at (f : mem) (off : Z) : Inode :=
  {| kind := f off; size := read32 f (off + 4);
     direct := (λ i, read32 f (off + 8 + i * 4)) <$> seqZ 0 DIRECT_BLOCKS;
     indirect := read32 f (off + 8 + DIRECT_BLOCKS * 4);
     i_uid := read32 f (off + INODE_UID_OFFSET); i_gid := read32 f (off + INODE_GID_OFFSET);
     i_mode := effective_mode (f off) (read32 f (off + INODE_MODE_OFFSET)) |}.

Definition inode_off (sb : Superblock) (i : Z) : Z := inode_table_start sb * BLOCK_SIZE + i * INODE_SIZE.
Definition decode_inode (sb : Superblock) (f : mem) (i : Z) : Inode := decode_inode_at f (inode_off sb i).

(** What an inode becomes when it is written and read back. *)
Definition stored (i : Inode) : Inode :=
  {| kind := kind i; size := size i; direct := direct i; indirect := indirect i;
     i_uid := i_uid i; i_gid := i_gid i; i_mode := effective_mode (kind i) (i_mode i) |}.

Ltac inode_offs :=
  unfold INODE_USED_BYTES in *; unfold INODE_MODE_OFFSET in *; unfold INODE_GID_OFFSET in *;
  unfold INODE_UID_OFFSET in *; unfold DIRECT_BLOCKS in *.

(** ** Slices of concatenations *)
Lemma slice_app_skip {A} (a b : list A) k n : len a ≤ k → slice (a ++ b) k n = slice b (k - len a) n.
Proof.
  intros Hk. unfold slice, len in *. rewrite drop_app_ge by lia. do 2 f_equal. lia.
Qed.

Lemma slice_app_here {A} (a b : list A) n : n = len a → slice (a ++ b) 0 n = a.
Proof.
  intros ->. unfold slice, len. rewrite Nat2Z.id. change (Z.to_nat 0) with O. by rewrite drop_0, take_app_length.
Qed.

Lemma slice_app_within {A} (a b : list A) k n :
  0 ≤ k → 0 ≤ n → k + n ≤ len a → slice (a ++ b) k n = slice a k n.
Proof.
  intros. unfold slice, len in *. rewrite drop_app_le by lia. rewrite take_app_le; [done|].
  rewrite length_drop. lia.
Qed.

Lemma nthZ_u32 l i : Forall u32 l → u32 (nthZ l i).
Proof.
  intros Hl. unfold nthZ. destruct (nth_in_or_default (Z.to_nat i) l 0) as [Hin| ->]; [|done].
  rewrite Forall_forall in Hl. apply Hl. by apply list_elem_of_In.
Qed.

Lemma encode_u32s_cons x l : encode_u32s (x :: l) = le_bytes 4 x ++ encode_u32s l.
Proof. reflexivity. Qed.

Lemma len_encode_u32s l : len (encode_u32s l) = 4 * len l.
Proof.
  induction l as [|x l IH]; [done|].
  rewrite encode_u32s_cons, len_app, IH, len_le_bytes, len_cons. lia.
Qed.

Lemma encode_u32s_slice l i :
  0 ≤ i < len l → slice (encode_u32s l) (i * 4) 4 = le_bytes 4 (nthZ l i).
Proof.
  revert i. induction l as [|x l IH]; intros i Hi; [change (0 ≤ i < 0) in Hi; lia|].
  rewrite len_cons in Hi. rewrite encode_u32s_cons. destruct (decide (i = 0)) as [->|].
  - rewrite slice_app_here by by rewrite len_le_bytes. done.
  - rewrite slice_app_skip by (rewrite len_le_bytes; lia). rewrite len_le_bytes.
    replace (i * 4 - Z.of_nat 4) with ((i - 1) * 4) by lia. rewrite IH by lia. f_equal.
    change (x :: l) with ([x] ++ l). rewrite nthZ_app_r by (change (len [x]) with 1; lia). done.
Qed.

Lemma encode_u32s_app l k : encode_u32s (l ++ k) = encode_u32s l ++ encode_u32s k.
Proof. unfold encode_u32s. by rewrite fmap_app, concat_app. Qed.

Lemma encode_u32s_is_byte l : Forall is_byte (encode_u32s l).
Proof.
  induction l as [|x l IH]; [by constructor|]. rewrite encode_u32s_cons.
  apply Forall_app. split; [apply le_bytes_is_byte|done].
Qed.

Lemma slice_field {A} (a b : list A) k n : k = 0 → n = len a → slice (a ++ b) k n = a.
Proof. intros -> ->. by apply slice_app_here. Qed.

(** Find the field of [encode_inode] that starts at a given offset. *)
Ltac field_lens := try change (len [_]) with 1; try change (len (replicate 3 _)) with 3;
  rewrite ?len_le_bytes, ?len_encode_u32s.
Ltac inode_field Hdirect :=
  unfold encode_inode;
  repeat (rewrite slice_app_skip by (field_lens; rewrite ?Hdirect; lia));
  rewrite slice_field by (field_lens; rewrite ?Hdirect; lia).

Lemma len_encode_inode i : len (direct i) = DIRECT_BLOCKS → len (encode_inode i) = INODE_SIZE.
Proof.
  intros Hd. unfold encode_inode. rewrite !len_app, len_encode_u32s, !len_le_bytes, Hd. done.
Qed.

Lemma le_val_u32 v : u32 v → le_val (le_bytes 4 v) = v.
Proof. intros. apply le_val_le_bytes. unfold u32 in *. simpl. lia. Qed.

Lemma read32_ext f g off : (∀ a, off ≤ a < off + 4 → f a = g a) → read32 f off = read32 g off.
Proof. intros E. unfold read32. by rewrite (mread_ext f g). Qed.

Lemma mread_mwrite_slice f off l k n :
  0 ≤ k → 0 ≤ n → k + n ≤ len l → mread (mwrite f off l) (off + k) n = slice l k n.
Proof.
  intros. rewrite <- (slice_mread _ off (len l)) by lia. by rewrite mread_mwrite.
Qed.

Lemma decode_inode_at_ext f g off :
  (∀ a, off ≤ a < off + INODE_SIZE → f a = g a) → decode_inode_at f off = decode_inode_at g off.
Proof.
  intros E. unfold INODE_SIZE in E.
  assert (∀ o, off ≤ o → o + 4 ≤ off + 256 → read32 f o = read32 g o) as R.
  { intros o Ho Ho'. apply read32_ext. intros a Ha. apply E. lia. }
  unfold decode_inode_at. inode_offs.
  f_equal; try (apply R; lia).
  - apply E. lia.
  - apply list_fmap_ext. intros k i Hi. apply lookup_seqZ in Hi as [-> Hk]. apply R; lia.
  - f_equal; [apply E; lia|apply R; lia].
Qed.

Lemma read32_mwrite f off l k v :
  0 ≤ k → k + 4 ≤ len l → slice l k 4 = le_bytes 4 v → u32 v → read32 (mwrite f off l) (off + k) = v.
Proof. intros. unfold read32. rewrite mread_mwrite_slice by lia. rewrite H1. by apply le_val_u32. Qed.

Lemma mode_u32 m : 0 ≤ m → u32 (Z.land m MODE_MASK).
Proof.
  intros. unfold u32. change MODE_MASK with (Z.ones 9). rewrite Z.land_ones by lia.
  pose proof (Z.mod_pos_bound m (2 ^ 9) ltac:(lia)). lia.
Qed.

Lemma mode_mask_mod m : 0 ≤ m → Z.land (m mod 2 ^ 16) MODE_MASK = Z.land m MODE_MASK.
Proof.
  intros. change MODE_MASK with (Z.ones 9). rewrite !Z.land_ones by lia.
  Z.to_euclidean_division_equations. lia.
Qed.

Lemma mode_mask_idem m : 0 ≤ m → Z.land (Z.land m MODE_MASK) MODE_MASK = Z.land m MODE_MASK.
Proof. intros. by rewrite <- Z.land_assoc, Z.land_diag. Qed.

Lemma effective_mode_masked k m : 0 ≤ m → effective_mode k (Z.land m MODE_MASK) = effective_mode k m.
Proof.
  intros Hm. unfold effective_mode.
  rewrite (mode_mask_mod m), mode_mask_mod, mode_mask_idem by (try apply mode_u32; done). done.
Qed.

Lemma decode_encode_at f off i :
  inode_ok i → decode_inode_at (mwrite f off (encode_inode i)) off = stored i.
Proof.
  intros [Hk Hs Hdl Hd Hi Hu Hg Hm]. pose proof (len_encode_inode i Hdl) as Hlen.
  unfold INODE_SIZE, DIRECT_BLOCKS in *.
  assert (mwrite f off (encode_inode i) off = kind i) as Ek
    by (rewrite mwrite_in, Z.sub_diag by lia; done).
  unfold decode_inode_at, stored. rewrite Ek. inode_offs.
  f_equal.
  - apply read32_mwrite; [lia|lia|by inode_field Hdl|done].
  - apply nthZ_ext; rewrite len_fmap_seqZ by lia; [done|]. intros k Hk'. rewrite nthZ_fmap_seqZ by lia.
    rewrite <- Z.add_assoc. apply read32_mwrite; [lia|lia| |by apply nthZ_u32].
    unfold encode_inode. do 3 (rewrite slice_app_skip by (field_lens; lia)). field_lens.
    rewrite slice_app_within by (rewrite ?len_encode_u32s; lia).
    replace (8 + k * 4 - 1 - 3 - Z.of_nat 4) with (k * 4) by lia. apply encode_u32s_slice. lia.
  - rewrite <- Z.add_assoc. apply read32_mwrite; [lia|lia|by inode_field Hdl|done].
  - apply read32_mwrite; [lia|lia|by inode_field Hdl|done].
  - apply read32_mwrite; [lia|lia|by inode_field Hdl|done].
  - rewrite (read32_mwrite _ _ _ _ (Z.land (i_mode i) MODE_MASK));
      [apply effective_mode_masked; lia|lia|lia|by inode_field Hdl|apply mode_u32; lia].
Qed.

(** ** Reading and writing inodes *)
Section inodes.
Context {V : Type} `{ReliableStore V}.
Context (Hwindow : TOTAL_BLOCKS * SECTORS_PER_BLOCK ≤ swindow).
Context (sb : Superblock) (Hwf : sb_wf sb).
Implicit Types (f g : mem).
Abbreviation runs := (runs (V := V)).

Definition inode_in_range (i : Z) : Prop := 0 ≤ i < inode_count sb.

Lemma inode_off_bound i :
  inode_in_range i → 0 ≤ inode_off sb i ∧ inode_off sb i + INODE_SIZE ≤ bitmap_start sb * BLOCK_SIZE.
Proof.
  intros Hi. destruct Hwf. unfold inode_in_range, inode_off, INODE_SIZE, BLOCK_SIZE in *. lia.
Qed.

Lemma bitmap_below_fs : bitmap_start sb * BLOCK_SIZE ≤ fs_len sb.
Proof.
  destruct Hwf. unfold fs_len, BLOCK_SIZE in *.
  assert (0 ≤ total_blocks sb / 8) by (apply Z.div_pos; lia). lia.
Qed.

Lemma inode_offset_in i : inode_in_range i → inode_offset sb i = Some (inode_off sb i).
Proof.
  intros Hi. pose proof (inode_off_bound i Hi) as Ho. pose proof bitmap_below_fs as Hb. destruct Hwf.
  unfold inode_offset, inode_in_range, inode_off, fs_len, checked_add, BLOCK_SIZE, INODE_SIZE, TOTAL_BLOCKS in *.
  rewrite (proj2 (Z.ltb_lt _ _)) by lia. cbn [mbind option_bind].
  by rewrite (proj2 (Z.leb_le _ _)) by lia.
Qed.

Lemma runs_read_u32s start idxs f :
  Forall (λ i, 0 ≤ start + i * 4 ∧ start + i * 4 + 4 ≤ fs_len sb) idxs →
  runs (read_u32s sb start idxs) f (Ok ((λ i, read32 f (start + i * 4)) <$> idxs)) f.
Proof.
  induction 1 as [|i idxs [? ?] Hi IH]; [apply runs_ret|].
  eapply runs_bind; [apply runs_read_u32_at; [done|apply Hwf|done..]|]. cbv beta.
  eapply runs_bind; [exact IH|]. apply runs_ret.
Qed.

Ltac rd32 := apply runs_read_u32_at; [done|apply Hwf|lia|lia].

Lemma runs_read_inode i f :
  inode_in_range i → runs (read_inode sb i) f (Ok (decode_inode sb f i)) f.
Proof.
  intros Hi. pose proof (inode_off_bound i Hi) as [Ho Ho']. pose proof bitmap_below_fs as Hb.
  unfold read_inode. rewrite (proj2 (Z.leb_gt _ _)) by (unfold inode_in_range in Hi; lia).
  rewrite inode_offset_in by done. unfold decode_inode, decode_inode_at. unfold INODE_SIZE in Ho'. inode_offs.
  eapply runs_bind; [apply runs_lift_result|]. cbv beta. remember (inode_off sb i) as off eqn:Eoff. clear Eoff.
  eapply runs_bind; [apply runs_read_u8; [done|apply Hwf|lia]|]. cbv beta.
  eapply runs_bind; [rd32|]. cbv beta.
  eapply runs_bind; [apply runs_read_u32s, Forall_forall; intros k Hk%elem_of_seqZ; lia|]. cbv beta.
  eapply runs_bind; [rd32|]. cbv beta.
  eapply runs_bind; [apply runs_unwrap_or; rd32|]. cbv beta.
  eapply runs_bind; [apply runs_unwrap_or; rd32|]. cbv beta.
  eapply runs_bind; [apply runs_unwrap_or; eapply runs_bind; [rd32|apply runs_ret]|]. cbv beta.
  apply runs_ret.
Qed.

Lemma runs_write_u32_list base (l : list Z) k n f :
  0 ≤ base → 0 ≤ k → k + Z.of_nat n ≤ len l → base + (k + Z.of_nat n) * 4 ≤ fs_len sb →
  runs (for_each (λ i, write_u32_at sb (base + i * 4) (nthZ l i)) (seqZ k (Z.of_nat n))) f (Ok tt)
       (mwrite f (base + k * 4) (encode_u32s (slice l k (Z.of_nat n)))).
Proof.
  intros Hbase. revert k f. induction n as [|n IH]; intros k f Hk Hl Hfs.
  { eapply runs_ext; [reflexivity| |apply runs_ret]. intros a _. symmetry. apply mwrite_nil. }
  rewrite seqZ_S. cbn [for_each].
  eapply runs_bind; [apply runs_write_u32_at; [done|apply Hwf|lia|lia]|]. cbv beta.
  eapply runs_ext; [reflexivity| |apply IH; lia]. intros a _.
  replace (slice l k (Z.of_nat (S n))) with (nthZ l k :: slice l (k + 1) (Z.of_nat n)).
  - rewrite encode_u32s_cons, mwrite_app, len_le_bytes. f_equal. lia.
  - apply nthZ_ext; rewrite ?len_cons, !len_slice by lia; [lia|]. intros i Hi.
    rewrite (nthZ_slice l k) by lia. change (nthZ l k :: slice l (k + 1) (Z.of_nat n))
      with ([nthZ l k] ++ slice l (k + 1) (Z.of_nat n)). destruct (decide (i = 0)) as [->|].
    + rewrite nthZ_app_l by done. by rewrite Z.add_0_r.
    + rewrite nthZ_app_r by (change (len [_]) with 1; lia). change (len [_]) with 1.
      rewrite nthZ_slice by lia. f_equal. lia.
Qed.

Lemma runs_write_inode i ino f :
  inode_in_range i → is_byte (kind ino) → len (direct ino) = DIRECT_BLOCKS →
  runs (write_inode sb i ino) f (Ok tt) (mwrite f (inode_off sb i) (encode_inode ino)).
Proof.
  intros Hi Hk Hd. pose proof (inode_off_bound i Hi) as [Ho Ho']. pose proof bitmap_below_fs as Hb.
  unfold write_inode. rewrite inode_offset_in by done.
  unfold INODE_SIZE in *. inode_offs.
  eapply runs_bind; [apply runs_lift_result|]. cbv beta. remember (inode_off sb i) as off eqn:Eoff. clear Eoff.
  eapply runs_ext; [reflexivity| |].
  2: { repeat (eapply runs_bind; [first
         [ apply runs_write_u8; [done|apply Hwf|lia|done]
         | apply runs_fill_at; [done|apply Hwf|lia|lia|lia|done]
         | apply runs_write_u32_at; [done|apply Hwf|lia|lia]
         | apply (runs_write_u32_list _ _ 0 48); lia ]|]; cbv beta).
       apply runs_fill_at; [done|apply Hwf|lia|lia|lia|done]. }
  intros a _. unfold encode_inode. rewrite !mwrite_app.
  change (len [kind ino]) with 1. change (len (replicate 3 0)) with 3.
  rewrite !len_le_bytes, len_encode_u32s, Hd.
  assert (slice (direct ino) 0 (Z.of_nat 48) = direct ino) as ->
    by (change (Z.of_nat 48) with 48; rewrite <- Hd; apply slice_all).
  repeat (f_equal; try lia).
Qed.
End inodes.

Section inode_theorem.
Context {V : Type} `{ReliableStore V}.
Implicit Types s : Cached V.

(** An inode that was written is read back, with one exception: an inode
    in use whose nine mode bits are all zero comes back with the default mode
    of its kind, so [chmod 000] cannot be stored. *)
Theorem inode_roundtrip sb s f i ino :
  TOTAL_BLOCKS * SECTORS_PER_BLOCK ≤ swindow → sb_wf sb → repr s f → inode_in_range sb i → inode_ok ino →
  ∃ s1 s2, write_inode sb i ino s = (Ok tt, s1) ∧ read_inode sb i s1 = (Ok (stored ino), s2).
Proof.
  intros Hw Hsb Hs Hi Hok.
  destruct (runs_write_inode Hw sb Hsb i ino f Hi (iok_kind _ Hok) (iok_direct_len _ Hok) s Hs) as (s1 & E1 & Hs1).
  destruct (runs_read_inode Hw sb Hsb i _ Hi s1 Hs1) as (s2 & E2 & _).
  exists s1, s2. split; [done|]. rewrite E2. unfold decode_inode. by rewrite decode_encode_at.
Qed.
End inode_theorem.

(** ** The block bitmap as a free list *)
Section bitmap.
Context (sb : Superblock) (Hwf : sb_wf sb).
Implicit Types (f g : mem) (b : Z).

Definition data_block b : Prop := data_start sb ≤ b < total_blocks sb.
Definition bitmap_byte b : Z := bitmap_start sb * BLOCK_SIZE + b / 8.
Definition used f b : bool := Z.testbit (f (bitmap_byte b)) (b mod 8).
Definition blk f b : bytes := mread f (b * BLOCK_SIZE) BLOCK_SIZE.
#[global] Arguments blk : simpl never.
#[global] Strategy expand [blk].
Definition low_same f g : Prop := ∀ a, 0 ≤ a < bitmap_start sb * BLOCK_SIZE → g a = f a.
Definition all_data : list Z := seqZ (data_start sb) (total_blocks sb - data_start sb).
Definition free_list f : list Z := List.filter (λ b, negb (used f b)) all_data.

Definition set_used_value (v b : Z) (u : bool) : Z :=
  if u then Z.lor v (Z.shiftl 1 (b mod 8)) else Z.land v (Z.lxor 255 (Z.shiftl 1 (b mod 8))).
Definition set_used f b (u : bool) : mem :=
  mwrite f (bitmap_byte b) [set_used_value (f (bitmap_byte b)) b u].

Lemma bitmap_byte_bound b :
  0 ≤ b < total_blocks sb →
  bitmap_start sb * BLOCK_SIZE ≤ bitmap_byte b < data_start sb * BLOCK_SIZE.
Proof.
  intros Hb. destruct Hwf. unfold bitmap_byte. split.
  - assert (0 ≤ b / 8) by (apply Z.div_pos; lia). lia.
  - assert (b / 8 ≤ total_blocks sb / 8) by (apply Z.div_le_mono; lia). lia.
Qed.

Lemma data_below_fs : data_start sb * BLOCK_SIZE ≤ fs_len sb.
Proof. destruct Hwf. unfold fs_len, BLOCK_SIZE. lia. Qed.

Lemma bitmap_nonneg : 0 ≤ bitmap_start sb * BLOCK_SIZE.
Proof. destruct Hwf. unfold INODE_SIZE, BLOCK_SIZE in *. lia. Qed.

Lemma bitmap_byte_bit_in b :
  0 ≤ b < total_blocks sb → bitmap_byte_bit sb b = Some (bitmap_byte b, Z.shiftl 1 (b mod 8)).
Proof.
  intros Hb. pose proof (bitmap_byte_bound b Hb). pose proof data_below_fs. unfold bitmap_byte_bit.
  rewrite !(proj2 (Z.leb_gt _ _)); [done| |lia]. unfold bitmap_byte in *. lia.
Qed.

Lemma byte_high_bits v i : is_byte v → 8 ≤ i → Z.testbit v i = false.
Proof.
  intros Hv Hi. apply Z.bits_above_log2; [unfold is_byte in Hv; lia|].
  destruct (decide (v = 0)) as [->|]; [simpl; lia|].
  apply Z.log2_lt_pow2; [unfold is_byte in Hv; lia|].
  apply Z.lt_le_trans with (2 ^ 8); [unfold is_byte in Hv; lia|apply Z.pow_le_mono_r; lia].
Qed.

Lemma byte_of_bits v : 0 ≤ v → (∀ i, 8 ≤ i → Z.testbit v i = false) → is_byte v.
Proof.
  intros Hv Hb. unfold is_byte. split; [done|].
  destruct (decide (v < 256)); [done|]. exfalso.
  assert (8 ≤ Z.log2 v) by (apply Z.log2_le_pow2; lia).
  specialize (Hb (Z.log2 v)). rewrite Z.bit_log2 in Hb by lia. specialize (Hb ltac:(lia)). done.
Qed.

Lemma set_used_value_bit v b u i :
  0 ≤ i < 8 →
  Z.testbit (set_used_value v b u) i = if b mod 8 =? i then u else Z.testbit v i.
Proof.
  intros Hi. pose proof (Z.mod_pos_bound b 8 ltac:(lia)). unfold set_used_value.
  rewrite Z.shiftl_1_l. change 255 with (Z.ones 8). destruct u.
  - rewrite Z.lor_spec, Z.pow2_bits_eqb by lia. case_if as E; [by rewrite orb_true_r|by rewrite orb_false_r].
  - rewrite Z.land_spec, Z.lxor_spec, Z.testbit_ones_nonneg, Z.pow2_bits_eqb by lia.
    rewrite (proj2 (Z.ltb_lt _ _)) by lia. case_if as E; [by rewrite andb_false_r|by rewrite andb_true_r].
Qed.

Lemma set_used_value_byte v b u : is_byte v → is_byte (set_used_value v b u).
Proof.
  intros Hv. pose proof (Z.mod_pos_bound b 8 ltac:(lia)). unfold set_used_value. rewrite Z.shiftl_1_l.
  assert (0 ≤ 2 ^ (b mod 8)) by (apply Z.pow_nonneg; lia).
  apply byte_of_bits.
  - unfold is_byte in Hv. destruct u; [apply Z.lor_nonneg; lia|apply Z.land_nonneg; lia].
  - intros i Hi. destruct u.
    + rewrite Z.lor_spec, Z.pow2_bits_eqb, byte_high_bits by (done || lia).
      apply Z.eqb_neq. lia.
    + by rewrite Z.land_spec, byte_high_bits.
Qed.

Lemma used_set_used f b u b' :
  0 ≤ b → 0 ≤ b' → used (set_used f b u) b' = if b =? b' then u else used f b'.
Proof.
  intros Hb Hb'. unfold used, set_used.
  pose proof (Z.mod_pos_bound b' 8 ltac:(lia)). pose proof (Z.mod_pos_bound b 8 ltac:(lia)).
  pose proof (Z.div_mod b 8 ltac:(lia)). pose proof (Z.div_mod b' 8 ltac:(lia)).
  destruct (decide (bitmap_byte b = bitmap_byte b')) as [E|E].
  - rewrite E at 1. rewrite mwrite_in by (change (len [_]) with 1; lia). rewrite E, Z.sub_diag.
    change (nthZ [?x] 0) with x. rewrite set_used_value_bit by lia. unfold bitmap_byte in E.
    destruct (Z.eqb_spec (b mod 8) (b' mod 8)), (Z.eqb_spec b b'); done || lia.
  - rewrite mwrite_out by (change (len [_]) with 1; lia).
    destruct (Z.eqb_spec b b') as [->|]; done.
Qed.
End bitmap.

(** ** Allocating and freeing blocks *)
Lemma filter_and {A} (p q : A → bool) l :
  List.filter (λ x, p x && q x) l = List.filter q (List.filter p l).
Proof. induction l as [|x l IH]; simpl; [done|]. destruct (p x); simpl; [|done]. by rewrite IH. Qed.

Lemma filter_id {A} (p : A → bool) l : Forall (λ x, p x = true) l → List.filter p l = l.
Proof. induction 1 as [|x l Hx Hl IH]; simpl; [done|]. by rewrite Hx, IH. Qed.

Section alloc.
Context {V : Type} `{ReliableStore V}.
Context (Hwindow : TOTAL_BLOCKS * SECTORS_PER_BLOCK ≤ swindow).
Context (sb : Superblock) (Hwf : sb_wf sb).
Implicit Types (f g : mem) (b : Z) (l N : list Z).
Abbreviation runs := (runs (V := V)).
Abbreviation used := (used sb).
Abbreviation data_block := (data_block sb).
Abbreviation free_list := (free_list sb).

Lemma data_block_range b : data_block b → block_in_range b ∧ 0 ≤ b < total_blocks sb ∧ b ≠ 0.
Proof. destruct Hwf. unfold CoolFile.data_block, block_in_range. lia. Qed.

Lemma runs_block_used b f :
  0 ≤ b < total_blocks sb → runs (block_used sb b) f (Ok (used f b)) f.
Proof.
  intros Hb. pose proof (bitmap_byte_bound sb Hwf b Hb). pose proof (data_below_fs sb Hwf).
  pose proof (bitmap_nonneg sb Hwf). pose proof (Z.mod_pos_bound b 8 ltac:(lia)).
  unfold block_used. rewrite bitmap_byte_bit_in by done. apply runs_unwrap_or.
  eapply runs_bind; [apply runs_read_u8; [done|apply Hwf|lia]|].
  rewrite Z.shiftl_1_l, land_pow2, negb_involutive by lia. apply runs_ret.
Qed.

Lemma runs_set_block_used b u f :
  0 ≤ b < total_blocks sb → runs (set_block_used sb b u) f (Ok tt) (set_used sb f b u).
Proof.
  intros Hb. pose proof (bitmap_byte_bound sb Hwf b Hb). pose proof (data_below_fs sb Hwf).
  pose proof (bitmap_nonneg sb Hwf). pose proof (fs_len_bound sb (swf_total sb Hwf)).
  apply (runs_with_bytes Hwindow). intros Hby.
  unfold set_block_used. rewrite bitmap_byte_bit_in by done.
  eapply runs_bind; [apply runs_lift_result|]. cbv beta iota.
  eapply runs_bind; [apply runs_ok_or, runs_read_u8; [done|apply Hwf|lia]|].
  apply runs_write_u8; [done|apply Hwf|lia|].
  apply (set_used_value_byte _ b u). apply Hby. lia.
Qed.

(** Memories that agree below the bitmap and on the data blocks outside [B]. *)
Definition changes_only (B : list Z) f g : Prop :=
  low_same sb f g ∧ (mem_bytes f → mem_bytes g) ∧ ∀ b, data_block b → b ∉ B → blk g b = blk f b.

Lemma changes_only_refl B f : changes_only B f f.
Proof. done. Qed.

Lemma changes_only_trans B f g h : changes_only B f g → changes_only B g h → changes_only B f h.
Proof.
  intros (L1 & B1 & D1) (L2 & B2 & D2). split_and!; [|by auto|].
  - intros a Ha. by rewrite L2, L1.
  - intros b Hb Hn. by rewrite D2, D1.
Qed.

Lemma changes_only_weaken B B' f g : B ⊆ B' → changes_only B f g → changes_only B' f g.
Proof. intros Hs (L & By & D). split_and!; [done..|]. intros b Hb Hn. apply D; [done|]. intros Hin. by apply Hn, Hs. Qed.

Lemma changes_only_set_used b u f : 0 ≤ b < total_blocks sb → changes_only [] f (set_used sb f b u).
Proof.
  intros Hb. pose proof (bitmap_byte_bound sb Hwf b Hb) as Hbb. pose proof (bitmap_nonneg sb Hwf).
  pose proof (data_below_fs sb Hwf). pose proof (fs_len_bound sb (swf_total sb Hwf)). split_and!.
  - intros a Ha. apply mwrite_out. change (len [_]) with 1. lia.
  - intros Hby. apply mem_bytes_mwrite; [done|]. apply Forall_singleton, set_used_value_byte, Hby. lia.
  - intros c Hc _. apply mread_ext. intros a Ha. apply mwrite_out. change (len [_]) with 1.
    unfold CoolFile.data_block, BLOCK_SIZE in *. lia.
Qed.

(** Writing inside data block [b] changes nothing else. *)
Lemma changes_only_data b k x f :
  data_block b → 0 ≤ k → k + len x ≤ BLOCK_SIZE → Forall is_byte x →
  changes_only [b] f (mwrite f (b * BLOCK_SIZE + k) x) ∧
  ∀ c, 0 ≤ c < total_blocks sb → used (mwrite f (b * BLOCK_SIZE + k) x) c = used f c.
Proof.
  intros Hb Hk Hl Hx. pose proof (len_nonneg x). destruct Hwf as [? ? ? ? Hbm Hds]. split; [split_and!|].
  - intros a Ha. apply mwrite_out. left. unfold CoolFile.data_block, BLOCK_SIZE in *.
    assert (0 ≤ total_blocks sb / 8) by (apply Z.div_pos; lia). lia.
  - intros Hby. by apply mem_bytes_mwrite.
  - intros c Hc Hne. apply mread_ext. intros a Ha. apply mwrite_out.
    assert (c ≠ b) by (intros ->; apply Hne; by left). unfold BLOCK_SIZE in *. lia.
  - intros c Hc. unfold CoolFile.used. rewrite mwrite_out; [done|].
    pose proof (bitmap_byte_bound sb Hwf c Hc). unfold CoolFile.data_block, BLOCK_SIZE in *. lia.
Qed.

(** The effect of [alloc_block] returning [b]. *)
Definition alloc_mem f b : mem := mwrite (set_used sb f b true) (b * BLOCK_SIZE) (zeros BLOCK_SIZE).

Lemma alloc_mem_spec f b :
  data_block b →
  changes_only [b] f (alloc_mem f b) ∧ blk (alloc_mem f b) b = zeros BLOCK_SIZE ∧
  ∀ c, 0 ≤ c < total_blocks sb → used (alloc_mem f b) c = if b =? c then true else used f c.
Proof.
  intros Hb. destruct (data_block_range b Hb) as (Hr & Hr' & _).
  destruct (changes_only_data b 0 (zeros BLOCK_SIZE) (set_used sb f b true) Hb) as [Hc Hu]; [lia|done|apply zeros_is_byte|].
  rewrite Z.add_0_r in Hc, Hu. unfold alloc_mem. split_and!.
  - eapply changes_only_trans; [|exact Hc]. eapply changes_only_weaken; [|by apply changes_only_set_used]. clear; set_solver.
  - apply mread_mwrite. done.
  - intros c Hc'. rewrite Hu by done. apply used_set_used; lia.
Qed.

Lemma runs_alloc_block_in l f :
  Forall data_block l →
  match List.filter (λ b, negb (used f b)) l with
  | [] => runs (alloc_block_in sb l) f (Err NoSpace) f
  | b :: _ => runs (alloc_block_in sb l) f (Ok b) (alloc_mem f b)
  end.
Proof.
  induction 1 as [|b l Hb Hl IH]; [apply runs_throw|].
  destruct (data_block_range b Hb) as (Hr & Hr' & _). simpl.
  assert (runs (block_used' sb Io b) f (Ok (used f b)) f) as Hu by (by apply runs_ok_or, runs_block_used).
  destruct (used f b) eqn:E; simpl.
  - destruct (List.filter _ l); (eapply runs_bind; [exact Hu|exact IH]).
  - eapply runs_bind; [exact Hu|]. cbv beta iota.
    eapply runs_bind; [by apply runs_set_block_used|].
    eapply runs_bind; [by apply runs_zero_block|]. apply runs_ret.
Qed.

Lemma all_data_blocks : Forall data_block (all_data sb).
Proof. apply Forall_forall. intros b Hb%elem_of_seqZ. unfold CoolFile.data_block. lia. Qed.

Lemma runs_alloc_block f :
  match free_list f with
  | [] => runs (alloc_block sb) f (Err NoSpace) f
  | b :: _ => runs (alloc_block sb) f (Ok b) (alloc_mem f b)
  end.
Proof. apply runs_alloc_block_in, all_data_blocks. Qed.

Definition inb b l : bool := bool_decide (b ∈ l).

Lemma inb_true b l : inb b l = true ↔ b ∈ l.
Proof. apply bool_decide_eq_true. Qed.
Lemma inb_here b l : inb b (b :: l) = true.
Proof. apply inb_true. by left. Qed.
Lemma inb_cons b c l : b ≠ c → inb c (b :: l) = inb c l.
Proof. intros. apply bool_decide_ext. rewrite elem_of_cons. naive_solver. Qed.
Lemma inb_app c l k : inb c (l ++ k) = inb c l || inb c k.
Proof. apply eq_true_iff_eq. rewrite orb_true_iff, !inb_true. apply elem_of_app. Qed.

Lemma free_list_elem f b : b ∈ free_list f ↔ data_block b ∧ used f b = false.
Proof.
  unfold CoolFile.free_list. rewrite list_elem_of_In, filter_In, <- list_elem_of_In, negb_true_iff.
  unfold all_data. rewrite elem_of_seqZ. unfold CoolFile.data_block. split; intros [? ?]; (split; [lia|done]).
Qed.

Lemma free_list_NoDup f : NoDup (free_list f).
Proof. apply NoDup_ListNoDup, List.NoDup_filter, NoDup_ListNoDup, NoDup_seqZ. Qed.

Lemma free_list_data f : Forall data_block (free_list f).
Proof. apply Forall_forall. intros b Hb. by apply free_list_elem in Hb as [? _]. Qed.

Lemma free_list_alloc f g b l :
  free_list f = b :: l →
  (∀ c, 0 ≤ c < total_blocks sb → used g c = if b =? c then true else used f c) →
  free_list g = l.
Proof.
  intros Hf Hu. pose proof (free_list_NoDup f) as Hnd. rewrite Hf in Hnd. apply NoDup_cons in Hnd as [Hb Hnd].
  transitivity (List.filter (λ c, negb (b =? c)) (free_list f)).
  - unfold CoolFile.free_list. rewrite <- filter_and. apply filter_ext_in.
    intros c Hc. pose proof (all_data_blocks) as Hall. rewrite Forall_forall in Hall.
    destruct (data_block_range c) as (_ & Hr & _); [apply Hall; by apply list_elem_of_In|].
    rewrite Hu by done. destruct (b =? c), (used f c); done.
  - rewrite Hf. simpl. rewrite Z.eqb_refl. simpl. apply filter_id, Forall_forall. intros c Hc.
    apply negb_true_iff, Z.eqb_neq. by intros ->.
Qed.

Lemma runs_free_block b f :
  data_block b → runs (free_block sb b) f (Ok tt) (set_used sb f b false).
Proof.
  intros Hb. destruct (data_block_range b Hb) as (_ & Hr & _). unfold CoolFile.data_block in Hb.
  unfold free_block. rewrite (proj2 (Z.ltb_ge _ _)), (proj2 (Z.leb_gt _ _)) by lia.
  by apply runs_set_block_used.
Qed.

(** The effect of freeing the blocks [l]. *)
Definition freed l f g : Prop :=
  changes_only [] f g ∧ ∀ c, 0 ≤ c < total_blocks sb → used g c = used f c && negb (inb c l).

Lemma freed_cons b l f g : data_block b → freed l (set_used sb f b false) g → freed (b :: l) f g.
Proof.
  intros Hb [Hc Hu]. destruct (data_block_range b Hb) as (_ & Hr & _). split.
  - eapply changes_only_trans; [|done]. by apply changes_only_set_used.
  - intros c Hc'. rewrite Hu, used_set_used by lia.
    destruct (Z.eqb_spec b c) as [->|Hne].
    + rewrite inb_here. by rewrite andb_false_r.
    + by rewrite inb_cons.
Qed.

Lemma freed_nil f : freed [] f f.
Proof. split; [done|]. intros c _. by rewrite andb_true_r. Qed.

Lemma runs_free_blocks l f :
  Forall data_block l → ∃ g, runs (for_each (free_block sb) l) f (Ok tt) g ∧ freed l f g.
Proof.
  intros Hl. revert f. induction Hl as [|b l Hb Hl IH]; intros f; simpl.
  - exists f. split; [apply runs_ret|apply freed_nil].
  - destruct (IH (set_used sb f b false)) as (g & Hg & Hfr). exists g. split; [|by apply freed_cons].
    eapply runs_bind; [by apply runs_free_block|exact Hg].
Qed.

Lemma runs_free_blocks_ignoring l f :
  Forall data_block l → ∃ g, runs (free_blocks_ignoring sb l) f (Ok tt) g ∧ freed l f g.
Proof.
  intros Hl. revert f. induction Hl as [|b l Hb Hl IH]; intros f.
  - exists f. split; [apply runs_ret|apply freed_nil].
  - destruct (IH (set_used sb f b false)) as (g & Hg & Hfr). exists g. split; [|by apply freed_cons].
    eapply runs_bind; [eapply runs_bind; [by apply runs_attempt, runs_free_block|apply runs_ret]|exact Hg].
Qed.

(** The effect of allocating the blocks [N]. *)
Definition allocated N f g : Prop :=
  changes_only N f g ∧ (∀ b, b ∈ N → blk g b = zeros BLOCK_SIZE) ∧
  ∀ c, 0 ≤ c < total_blocks sb → used g c = used f c || inb c N.

Lemma allocated_cons b N f g :
  data_block b → b ∉ N → allocated N (alloc_mem f b) g → allocated (b :: N) f g.
Proof.
  intros Hb Hn (Hc & Hz & Hu). destruct (alloc_mem_spec f b Hb) as (Hc1 & Hz1 & Hu1). split_and!.
  - eapply changes_only_trans; [eapply changes_only_weaken; [|exact Hc1]|eapply changes_only_weaken; [|exact Hc]];
      clear; set_solver.
  - intros c [->|Hin]%elem_of_cons; [|by apply Hz]. destruct Hc as (_ & _ & Hc). by rewrite Hc.
  - intros c Hr. rewrite Hu, Hu1 by done. destruct (Z.eqb_spec b c) as [->|Hne].
    + by rewrite inb_here, orb_true_r.
    + by rewrite inb_cons.
Qed.

Lemma allocated_nil f : allocated [] f f.
Proof.
  split_and!; [done|by intros b Hb%not_elem_of_nil|]. intros c _. unfold inb. by rewrite orb_false_r.
Qed.

(** Failing to allocate gives every block taken so far back. *)
Lemma runs_alloc_blocks n acc f :
  Forall data_block acc →
  if decide (n ≤ length (free_list f))%nat then
    ∃ g, runs (alloc_blocks sb n acc) f (Ok (acc ++ take n (free_list f))) g ∧
         allocated (take n (free_list f)) f g ∧ free_list g = drop n (free_list f)
  else
    ∃ g, runs (alloc_blocks sb n acc) f (Err NoSpace) g ∧ changes_only (free_list f) f g ∧
         ∀ c, 0 ≤ c < total_blocks sb → used g c = used f c && negb (inb c acc).
Proof.
  revert acc f. induction n as [|n IH]; intros acc f Hacc; simpl.
  { exists f. rewrite app_nil_r. split_and!; [apply runs_ret|apply allocated_nil|done]. }
  pose proof (runs_alloc_block f) as Ha. pose proof (free_list_data f) as Hdata.
  pose proof (free_list_NoDup f) as Hnd.
  destruct (free_list f) as [|b l] eqn:Efree; simpl.
  - destruct (runs_free_blocks_ignoring acc f Hacc) as (g & Hg & [Hc Hu]). exists g. split_and!; [|done|done].
    apply runs_bind_err. eapply runs_bind; [apply runs_attempt, Ha|]. cbv beta iota.
    eapply runs_bind; [exact Hg|apply runs_throw].
  - apply Forall_cons in Hdata as [Hb Hdata]. apply NoDup_cons in Hnd as [Hbl Hnd].
    destruct (alloc_mem_spec f b Hb) as (Hc1 & Hz1 & Hu1).
    pose proof (free_list_alloc f (alloc_mem f b) b l Efree Hu1) as Ef'.
    assert (∀ r g, runs (alloc_blocks sb n (acc ++ [b])) (alloc_mem f b) r g →
                   runs (alloc_blocks sb (S n) acc) f r g) as Hstep.
    { intros r g Hr. eapply runs_bind; [eapply runs_bind; [apply runs_attempt, Ha|apply runs_ret]|exact Hr]. }
    specialize (IH (acc ++ [b]) (alloc_mem f b)). rewrite Ef' in IH.
    destruct (decide (n ≤ length l)%nat) as [Hle|Hgt]; destruct (decide _) as [Hle'|Hgt'];
      [|simpl in *; lia|simpl in *; lia|].
    + destruct IH as (g & Hg & Hal & Hfr); [apply Forall_app; split; [done|by constructor]|].
      exists g. rewrite <- app_assoc in Hg. split_and!; [by apply Hstep| |done].
      apply allocated_cons; [done| |done]. intros (i & Hi & _)%elem_of_take. by apply Hbl, list_elem_of_lookup_2 with i.
    + destruct IH as (g & Hg & Hc & Hu); [apply Forall_app; split; [done|by constructor]|].
      exists g. split_and!; [by apply Hstep| |].
      * eapply changes_only_trans; [eapply changes_only_weaken; [|exact Hc1]|eapply changes_only_weaken; [|exact Hc]];
          clear; set_solver.
      * intros c Hr. rewrite Hu, Hu1 by done. rewrite inb_app.
        destruct (Z.eqb_spec b c) as [->|Hne].
        -- rewrite inb_here, orb_true_r.
           assert (used f c = false) as -> by (apply free_list_elem; rewrite Efree; by left). done.
        -- rewrite inb_cons by done. unfold inb at 2. by rewrite orb_false_r.
Qed.
End alloc.
