(* ===== verification/CoolContent.v ===== *)
(** * File contents of CoolFS

    What [read_inode_bytes] and [write_inode_bytes] of src/src/coolfs.rs do to
    the files of a volume.  [content] is a file's data as the inode table and
    the data blocks define it; [fs_wf] is the global invariant that every used
    data block belongs to exactly one inode.  The main theorem gives the exact
    effect of a write, including when it runs out of space: the file has the
    new data or nothing changed, no other file is touched, and no block is
    leaked or shared. *)
From stdpp Require Import sets.
From S2P Require Import Prelude DiskLayout Storage Paths Security BlockCache CoolImage CoolMem CoolFile.
Set Warnings "-clear-no-such-hyp".

Local Open Scope Z_scope.
Local Open Scope st_scope.

Definition MAX_FILE : Z := (DIRECT_BLOCKS + INDIRECT_ENTRIES) * BLOCK_SIZE.

Definition nblocks (ino : Inode) : Z := blocks_needed (size ino).
Definition ind_entries (f : mem) (ino : Inode) : list Z :=
  (λ i, read32 f (indirect ino * BLOCK_SIZE + i * 4)) <$> seqZ 0 (nblocks ino - DIRECT_BLOCKS).
(** The data blocks of a file, in order. *)
Definition data_blocks (f : mem) (ino : Inode) : list Z :=
  slice (direct ino) 0 (Z.min (nblocks ino) DIRECT_BLOCKS) ++ ind_entries f ino.
(** All blocks a file occupies. *)
Definition owned (f : mem) (ino : Inode) : list Z :=
  data_blocks f ino ++ (if indirect ino =? 0 then [] else [indirect ino]).
Definition content (f : mem) (ino : Inode) : bytes :=
  slice (concat (blk f <$> data_blocks f ino)) 0 (size ino).

(** The number of blocks an inode owns. *)
Definition own_len (ino : Inode) : Z := nblocks ino + (if indirect ino =? 0 then 0 else 1).

Record file_wf (sb : Superblock) (f : mem) (ino : Inode) : Prop := {
  fwf_size : 0 ≤ size ino ≤ MAX_FILE;
  fwf_direct : len (direct ino) = DIRECT_BLOCKS;
  fwf_indirect : DIRECT_BLOCKS < nblocks ino → indirect ino ≠ 0;
  fwf_data : Forall (data_block sb) (owned f ino);
  fwf_nodup : NoDup (owned f ino) }.

(** Block 0 holds the superblock (sealed, so that no tactic evaluates it). *)
Definition super_wf_def (sb : Superblock) (f : mem) : Prop :=
  Superblock_parse (mread f 0 BLOCK_SIZE) = Some sb.
Definition super_wf_aux : seal super_wf_def.
Proof. by eexists. Qed.
Definition super_wf : Superblock → mem → Prop := unseal super_wf_aux.
Lemma super_wf_eq sb f : super_wf sb f ↔ Superblock_parse (mread f 0 BLOCK_SIZE) = Some sb.
Proof. unfold super_wf. by rewrite (seal_eq super_wf_aux). Qed.

Definition super_same (f g : mem) : Prop := ∀ a, 0 ≤ a < BLOCK_SIZE → g a = f a.

Lemma super_wf_same sb f g : super_same f g → super_wf sb f → super_wf sb g.
Proof.
  intros Hs. rewrite !super_wf_eq. intros <-. f_equal. apply mread_ext. intros a Ha. apply Hs. lia.
Qed.

Lemma super_same_trans f g h : super_same f g → super_same g h → super_same f h.
Proof. intros H1 H2 a Ha. by rewrite H2, H1. Qed.

(** Block 0 holds the superblock, every inode is well formed, and a data block is marked used exactly when
    one inode owns it. *)
Record fs_wf (sb : Superblock) (f : mem) : Prop := {
  wf_bytes : mem_bytes f;
  wf_super : super_wf sb f;
  wf_files i : inode_in_range sb i → file_wf sb f (decode_inode sb f i);
  wf_disjoint i j b :
    inode_in_range sb i → inode_in_range sb j → i ≠ j →
    b ∈ owned f (decode_inode sb f i) → b ∉ owned f (decode_inode sb f j);
  wf_used b :
    data_block sb b →
    used sb f b = true ↔ ∃ i, inode_in_range sb i ∧ b ∈ owned f (decode_inode sb f i) }.

(** ** Pure facts about blocks and contents *)
Lemma blocks_needed_bounds n :
  0 ≤ n → 0 ≤ blocks_needed n ∧ n ≤ blocks_needed n * BLOCK_SIZE ∧ (blocks_needed n - 1) * BLOCK_SIZE < n.
Proof.
  intros. unfold blocks_needed, BLOCK_SIZE. Z.to_euclidean_division_equations. lia.
Qed.

Lemma len_concat_blocks {A} (h : A → bytes) l :
  Forall (λ x, len (h x) = BLOCK_SIZE) l → len (concat (h <$> l)) = len l * BLOCK_SIZE.
Proof.
  induction 1 as [|x l Hx Hl IH]; [done|]. csimpl. cbn [concat].
  rewrite len_app, IH, Hx, len_cons. lia.
Qed.

Lemma blk_eq f b : mread f (b * BLOCK_SIZE) BLOCK_SIZE = blk f b.
Proof. reflexivity. Qed.

Lemma len_blk f b : len (blk f b) = BLOCK_SIZE.
Proof. by apply len_mread. Qed.

Lemma len_concat_blk f l : len (concat (blk f <$> l)) = len l * BLOCK_SIZE.
Proof. apply len_concat_blocks, Forall_forall. intros b _. apply len_blk. Qed.

(** Block [i] of [data], padded with zeros. *)
Definition chunk (data : bytes) (i : Z) : bytes :=
  let c := slice data (i * BLOCK_SIZE) (Z.min (i * BLOCK_SIZE + BLOCK_SIZE) (len data) - i * BLOCK_SIZE) in
  c ++ zeros (BLOCK_SIZE - len c).

Lemma concat_chunks data m k :
  0 ≤ k → (k + Z.of_nat m) * BLOCK_SIZE < len data ≤ (k + Z.of_nat m + 1) * BLOCK_SIZE →
  concat (chunk data <$> seqZ k (Z.of_nat (S m))) =
  slice data (k * BLOCK_SIZE) (len data - k * BLOCK_SIZE) ++ zeros ((k + Z.of_nat m + 1) * BLOCK_SIZE - len data).
Proof.
  revert k. induction m as [|m IH]; intros k Hk Hl; rewrite seqZ_S; csimpl; cbn [concat]; unfold chunk at 1.
  - rewrite Z.min_r by (unfold BLOCK_SIZE in *; lia).
    rewrite len_slice by (unfold BLOCK_SIZE in *; lia).
    change (seqZ (k + 1) (Z.of_nat 0)) with (@nil Z). csimpl. cbn [concat].
    rewrite app_nil_r. do 2 f_equal. lia.
  - rewrite Z.min_l by (unfold BLOCK_SIZE in *; lia).
    replace (k * BLOCK_SIZE + BLOCK_SIZE - k * BLOCK_SIZE) with BLOCK_SIZE by lia.
    rewrite len_slice by (unfold BLOCK_SIZE in *; lia).
    rewrite Z.sub_diag. change (zeros 0) with (@nil Z). rewrite app_nil_r.
    rewrite IH by lia. rewrite app_assoc. f_equal; [|f_equal; lia].
    rewrite (slice_cut data (k * BLOCK_SIZE) BLOCK_SIZE) by (unfold BLOCK_SIZE in *; lia).
    do 2 f_equal; lia.
Qed.

Lemma content_of_chunks data n :
  n = blocks_needed (len data) → slice (concat (chunk data <$> seqZ 0 n)) 0 (len data) = data.
Proof.
  intros ->. pose proof (len_nonneg data). destruct (blocks_needed_bounds (len data)) as (H0 & H1 & H2); [done|].
  destruct (decide (blocks_needed (len data) = 0)) as [E|E].
  - rewrite E in *. assert (data = []) as -> by (destruct data; [done|]; rewrite len_cons in *; pose proof (len_nonneg data); lia).
    done.
  - remember (Z.to_nat (blocks_needed (len data) - 1)) as m.
    replace (blocks_needed (len data)) with (Z.of_nat (S m)) by lia.
    rewrite concat_chunks by (unfold BLOCK_SIZE in *; lia). rewrite Z.mul_0_l, Z.sub_0_r, slice_all. by apply slice_app_here.
Qed.

(** ** Reading *)
Section reading.
Context {V : Type} `{ReliableStore V}.
Context (Hwindow : TOTAL_BLOCKS * SECTORS_PER_BLOCK ≤ swindow).
Context (sb : Superblock) (Hwf : sb_wf sb).
Implicit Types (f g : mem) (ino : Inode) (l : list Z).
Abbreviation runs := (runs (V := V)).
Abbreviation data_block := (data_block sb).

Lemma nonzero_blocks_ok l : Forall data_block l → nonzero_blocks l = Ok l.
Proof.
  induction 1 as [|b l Hb Hl IH]; simpl; [done|].
  destruct (data_block_range sb Hwf b Hb) as (_ & _ & Hn).
  by rewrite (proj2 (Z.eqb_neq _ _) Hn), IH.
Qed.

Lemma block_offset_ok b : data_block b → block_offset sb b = Ok (b * BLOCK_SIZE).
Proof. intros Hb. unfold block_offset. rewrite (proj2 (Z.leb_gt _ _)); [done|apply Hb]. Qed.

Lemma data_block_end b : data_block b → 0 ≤ b * BLOCK_SIZE ∧ b * BLOCK_SIZE + BLOCK_SIZE ≤ fs_len sb.
Proof. destruct Hwf. unfold CoolFile.data_block, fs_len, BLOCK_SIZE. lia. Qed.

Lemma runs_indirect_blocks start idxs f :
  Forall (λ i, 0 ≤ start + i * 4 ∧ start + i * 4 + 4 ≤ fs_len sb ∧ read32 f (start + i * 4) ≠ 0) idxs →
  runs (indirect_blocks sb start idxs) f (Ok ((λ i, read32 f (start + i * 4)) <$> idxs)) f.
Proof.
  induction 1 as [|i idxs (? & ? & Hnz) Hi IH]; [apply runs_ret|].
  eapply runs_bind; [apply runs_ok_or, runs_read_u32_at; [done|apply Hwf|done..]|]. cbv beta.
  fold (read32 f (start + i * 4)). rewrite (proj2 (Z.eqb_neq _ _) Hnz).
  eapply runs_bind; [exact IH|]. apply runs_ret.
Qed.

Lemma owned_data f ino b : b ∈ data_blocks f ino → b ∈ owned f ino.
Proof. intros. apply elem_of_app. by left. Qed.

Lemma owned_indirect f ino : indirect ino ≠ 0 → indirect ino ∈ owned f ino.
Proof.
  intros Hn. apply elem_of_app. right. rewrite (proj2 (Z.eqb_neq _ _) Hn). by left.
Qed.

Lemma data_blocks_data f ino : file_wf sb f ino → Forall data_block (data_blocks f ino).
Proof. intros [_ _ _ Hd _]. unfold owned in Hd. by apply Forall_app in Hd as [? _]. Qed.

Lemma nblocks_bound f ino : file_wf sb f ino → 0 ≤ nblocks ino ≤ DIRECT_BLOCKS + INDIRECT_ENTRIES.
Proof.
  intros [Hs _ _ _ _]. destruct (blocks_needed_bounds (size ino)) as (? & ? & ?); [lia|].
  unfold nblocks, MAX_FILE, DIRECT_BLOCKS, INDIRECT_ENTRIES, BLOCK_SIZE in *. lia.
Qed.

Lemma runs_inode_data_blocks f ino :
  file_wf sb f ino → runs (inode_data_blocks sb ino) f (Ok (data_blocks f ino)) f.
Proof.
  intros Hf. pose proof (nblocks_bound f ino Hf) as Hn. pose proof (data_blocks_data f ino Hf) as Hd.
  unfold data_blocks in Hd. apply Forall_app in Hd as [Hdir Hind]. destruct Hf as [_ _ Hi Hown _].
  unfold inode_data_blocks. fold (nblocks ino). cbv zeta.
  rewrite nonzero_blocks_ok by done. eapply runs_bind; [apply runs_lift_result|]. cbv beta.
  unfold data_blocks. case_if as E; zbool.
  - rewrite (proj2 (Z.eqb_neq _ _)) by (by apply Hi).
    assert (data_block (indirect ino)) as Hib
      by (rewrite Forall_forall in Hown; apply Hown, owned_indirect, Hi, E).
    pose proof (data_block_end _ Hib). rewrite block_offset_ok by done.
    eapply runs_bind; [apply runs_lift_result|]. cbv beta.
    eapply runs_bind; [apply runs_indirect_blocks|apply runs_ret].
    apply Forall_forall. intros i Hi'. pose proof Hi' as Hrange%elem_of_seqZ.
    unfold INDIRECT_ENTRIES, DIRECT_BLOCKS, BLOCK_SIZE in *. change (4096 / 4) with 1024 in Hn. split_and!; [lia|lia|].
    rewrite Forall_forall in Hind. apply (data_block_range sb Hwf), Hind.
    unfold ind_entries. apply list_elem_of_fmap. exists i. split; [reflexivity|exact Hi'].
  - unfold ind_entries. rewrite seqZ_nil by lia. csimpl. rewrite app_nil_r. apply runs_ret.
Qed.

Lemma runs_read_blocks l remaining out f :
  Forall data_block l → 0 ≤ remaining ≤ len l * BLOCK_SIZE →
  runs (read_blocks sb l remaining out) f (Ok (0, out ++ slice (concat (blk f <$> l)) 0 remaining)) f.
Proof.
  intros Hl. revert remaining out. induction Hl as [|b l Hb Hl IH]; intros remaining out Hr.
  { change (len []) with 0 in Hr. replace remaining with 0 by lia. csimpl.
    change (slice (concat []) 0 0) with (@nil Z). rewrite app_nil_r. apply runs_ret. }
  rewrite len_cons in Hr. cbn [read_blocks]. case_if as E; zbool.
  { subst. change (slice ?x 0 0) with (@nil Z). rewrite app_nil_r. apply runs_ret. }
  pose proof (data_block_end b Hb). rewrite block_offset_ok by done.
  eapply runs_bind; [apply runs_lift_result|]. cbv beta zeta.
  eapply runs_bind; [apply runs_read_vec; [done|apply Hwf|lia|unfold BLOCK_SIZE in *; lia|lia]|]. cbv beta.
  rewrite fmap_cons. cbn [concat]. pose proof (len_blk f b) as Hlb. pose proof (len_concat_blk f l) as Hcl.
  pose proof (len_nonneg l).
  replace (out ++ slice (blk f b ++ concat (blk f <$> l)) 0 remaining) with
    ((out ++ mread f (b * BLOCK_SIZE) (Z.min remaining BLOCK_SIZE)) ++
     slice (concat (blk f <$> l)) 0 (remaining - Z.min remaining BLOCK_SIZE)).
  { apply IH. unfold BLOCK_SIZE in *. lia. }
  rewrite <- app_assoc. f_equal. destruct (decide (remaining ≤ BLOCK_SIZE)).
  - rewrite Z.min_l by done. rewrite Z.sub_diag. change (slice ?x 0 0) with (@nil Z). rewrite app_nil_r.
    rewrite slice_app_within by (unfold BLOCK_SIZE in *; lia). unfold blk.
    by rewrite slice_mread, Z.add_0_r by lia.
  - rewrite Z.min_r by lia. rewrite blk_eq. apply nthZ_ext.
    + rewrite len_app, Hlb, !len_slice by (rewrite ?len_app; unfold BLOCK_SIZE in *; lia). lia.
    + intros i Hi. rewrite len_app, Hlb, len_slice in Hi by (unfold BLOCK_SIZE in *; lia).
      rewrite nthZ_slice, Z.add_0_l by lia. destruct (decide (i < BLOCK_SIZE)).
      * by rewrite !nthZ_app_l by lia.
      * rewrite !nthZ_app_r, nthZ_slice by lia. f_equal.
Qed.

Lemma len_data_blocks f ino : file_wf sb f ino → len (data_blocks f ino) = nblocks ino.
Proof.
  intros Hf. pose proof (nblocks_bound f ino Hf) as Hn. destruct Hf as [_ Hd _ _ _].
  unfold data_blocks, ind_entries. rewrite len_app, len_slice by (unfold DIRECT_BLOCKS in *; lia).
  unfold len. rewrite length_fmap, length_seqZ. lia.
Qed.

Lemma runs_read_inode_bytes f ino :
  file_wf sb f ino → runs (read_inode_bytes sb ino) f (Ok (content f ino)) f.
Proof.
  intros Hf. pose proof (fwf_size _ _ _ Hf) as Hs. destruct (blocks_needed_bounds (size ino)) as (? & ? & ?); [lia|].
  eapply runs_bind; [by apply runs_inode_data_blocks|]. cbv beta.
  eapply runs_bind; [apply runs_read_blocks; [by apply data_blocks_data|]|apply runs_ret].
  rewrite len_data_blocks by done. fold (nblocks ino) in *. lia.
Qed.

Lemma len_content f ino : file_wf sb f ino → len (content f ino) = size ino.
Proof.
  intros Hf. pose proof (fwf_size _ _ _ Hf). destruct (blocks_needed_bounds (size ino)) as (? & ? & ?); [lia|].
  unfold content. apply len_slice; [lia|lia|]. rewrite len_concat_blk, len_data_blocks by done.
  unfold nblocks. lia.
Qed.
End reading.

(** ** Writing *)
Section writing.
Context {V : Type} `{ReliableStore V}.
Context (Hwindow : TOTAL_BLOCKS * SECTORS_PER_BLOCK ≤ swindow).
Context (sb : Superblock) (Hwf : sb_wf sb).
Implicit Types (f g : mem) (ino : Inode) (l N : list Z).
Abbreviation runs := (runs (V := V)).
Abbreviation data_block := (data_block sb).
Abbreviation changes_only := (changes_only sb).
Abbreviation used := (used sb).

Definition same_used f g : Prop := ∀ c, 0 ≤ c < total_blocks sb → used g c = used f c.

Lemma chunk_len data i :
  0 ≤ i → i * BLOCK_SIZE < len data → len (chunk data i) = BLOCK_SIZE.
Proof.
  intros. unfold chunk. cbv zeta. pose proof (len_nonneg data).
  set (k := Z.min _ _ - _). assert (0 ≤ k ≤ BLOCK_SIZE ∧ i * BLOCK_SIZE + k ≤ len data) by (unfold k, BLOCK_SIZE in *; lia).
  rewrite len_app, len_slice by (unfold BLOCK_SIZE in *; lia). rewrite len_zeros by lia. lia.
Qed.

(** Zeroing a block and writing its data leaves the padded chunk in it. *)
Lemma write_chunk f b data i :
  0 ≤ i → i * BLOCK_SIZE < len data → data_block b → Forall is_byte data →
  let c := slice data (i * BLOCK_SIZE) (Z.min (i * BLOCK_SIZE + BLOCK_SIZE) (len data) - i * BLOCK_SIZE) in
  let g := mwrite (mwrite f (b * BLOCK_SIZE) (zeros BLOCK_SIZE)) (b * BLOCK_SIZE) c in
  changes_only [b] f g ∧ same_used f g ∧ blk g b = chunk data i.
Proof.
  intros Hi Hlt Hb Hby c g. pose proof (len_nonneg data).
  assert (len c ≤ BLOCK_SIZE ∧ 0 ≤ len c) as Hc.
  { unfold c. rewrite len_slice by (unfold BLOCK_SIZE in *; lia). unfold BLOCK_SIZE in *. lia. }
  destruct (changes_only_data sb Hwf b 0 (zeros BLOCK_SIZE) f Hb) as [K1 K2]; [lia|done|apply zeros_is_byte|].
  destruct (changes_only_data sb Hwf b 0 c (mwrite f (b * BLOCK_SIZE) (zeros BLOCK_SIZE)) Hb) as [K3 K4];
    [lia|lia|by apply slice_is_byte|].
  rewrite Z.add_0_r in *. split_and!.
  - by eapply changes_only_trans.
  - intros k Hk. unfold g. by rewrite K4, K2.
  - unfold g, chunk. cbv zeta. fold c. apply nthZ_ext.
    + rewrite len_blk, len_app, len_zeros by lia. lia.
    + rewrite len_blk. intros k Hk. unfold blk. rewrite nthZ_mread by done. destruct (decide (k < len c)).
      * rewrite mwrite_in, nthZ_app_l by lia. f_equal. lia.
      * rewrite mwrite_out, mwrite_in, nthZ_app_r by (rewrite ?len_zeros; unfold BLOCK_SIZE in *; lia).
        by rewrite !nthZ_zeros.
Qed.

Lemma runs_write_blocks l idx data f :
  Forall data_block l → NoDup l → 0 ≤ idx → Forall is_byte data →
  (l ≠ [] → (idx + len l - 1) * BLOCK_SIZE < len data) →
  ∃ g, runs (write_blocks sb idx l data) f (Ok tt) g ∧ changes_only l f g ∧ same_used f g ∧
       blk g <$> l = chunk data <$> seqZ idx (len l).
Proof.
  intros Hl Hnd. revert idx f Hnd. induction Hl as [|b l Hb Hl IH]; intros idx f Hnd Hi Hby Hlen.
  { exists f. split_and!; [apply runs_ret|done..]. }
  apply NoDup_cons in Hnd as [Hbl Hnd]. rewrite len_cons in Hlen. specialize (Hlen ltac:(done)).
  pose proof (len_nonneg l). assert (idx * BLOCK_SIZE < len data) as Hlt by (unfold BLOCK_SIZE in *; lia).
  pose proof (write_chunk f b data idx Hi Hlt Hb Hby) as Hw. cbv zeta in Hw.
  remember (mwrite (mwrite f _ _) _ _) as f1 eqn:Ef1. destruct Hw as (Hc1 & Hu1 & Hb1).
  destruct (IH (idx + 1) f1) as (g & Hg & Hc & Hu & Hbs); [done|lia|done|intros; unfold BLOCK_SIZE in *; lia|].
  destruct (data_block_range sb Hwf b Hb) as (Hr & _ & _). pose proof (data_block_end sb Hwf b Hb).
  exists g. split_and!.
  - cbn [write_blocks]. eapply runs_bind; [by apply runs_zero_block|]. cbv beta zeta.
    rewrite block_offset_ok by done. eapply runs_bind; [apply runs_lift_result|]. cbv beta.
    eapply runs_bind; [|rewrite Ef1 in Hg; exact Hg].
    apply runs_write_at; [done|apply Hwf|lia| |by apply slice_is_byte].
    rewrite len_slice by (unfold BLOCK_SIZE in *; lia). unfold BLOCK_SIZE in *. lia.
  - eapply changes_only_trans; [eapply changes_only_weaken; [|exact Hc1]|eapply changes_only_weaken; [|exact Hc]];
      clear; set_solver.
  - intros c Hc'. by rewrite Hu, Hu1.
  - replace (len (b :: l)) with (Z.of_nat (S (length l))) by (unfold len; simpl; lia).
    rewrite seqZ_S, !fmap_cons. f_equal; [|exact Hbs].
    destruct Hc as (_ & _ & Hc). by rewrite Hc, Hb1.
Qed.

Lemma runs_write_u32s start idx l f :
  0 ≤ start + idx * 4 → start + (idx + len l) * 4 ≤ fs_len sb →
  runs (write_u32s sb start idx l) f (Ok tt) (mwrite f (start + idx * 4) (encode_u32s l)).
Proof.
  revert idx f. induction l as [|v l IH]; intros idx f Hs Hfs.
  { eapply runs_ext; [reflexivity| |apply runs_ret]. intros a _. symmetry. apply mwrite_nil. }
  rewrite len_cons in Hfs. pose proof (len_nonneg l). cbn [write_u32s].
  eapply runs_bind; [apply runs_write_u32_at; [done|apply Hwf|lia|lia]|]. cbv beta.
  eapply runs_ext; [reflexivity| |apply IH; lia]. intros a _.
  rewrite encode_u32s_cons, mwrite_app, len_le_bytes. f_equal. lia.
Qed.

(** ** Files the operation does not touch *)
Lemma decode_low_same f g i :
  low_same sb f g → inode_in_range sb i → decode_inode sb g i = decode_inode sb f i.
Proof.
  intros Hlow Hi. destruct (inode_off_bound sb Hwf i Hi) as [? ?]. apply decode_inode_at_ext.
  intros a Ha. apply Hlow. lia.
Qed.

Lemma read32_blk f b i :
  0 ≤ i → i + 4 ≤ BLOCK_SIZE → read32 f (b * BLOCK_SIZE + i) = le_val (slice (blk f b) i 4).
Proof. intros. unfold read32, blk. by rewrite slice_mread by lia. Qed.

Lemma ind_entries_same f g ino :
  nblocks ino ≤ DIRECT_BLOCKS + INDIRECT_ENTRIES →
  (DIRECT_BLOCKS < nblocks ino → blk g (indirect ino) = blk f (indirect ino)) →
  ind_entries g ino = ind_entries f ino.
Proof.
  intros Hn Hb. unfold ind_entries. apply list_fmap_ext. intros k i Hi. apply lookup_seqZ in Hi as [-> Hk].
  unfold DIRECT_BLOCKS, INDIRECT_ENTRIES, BLOCK_SIZE in Hn. change (4096 / 4) with 1024 in Hn.
  unfold DIRECT_BLOCKS in *. rewrite !read32_blk by (unfold BLOCK_SIZE; lia). rewrite Hb by lia. done.
Qed.

Definition blocks_same (B : list Z) f g : Prop := ∀ b, data_block b → b ∉ B → blk g b = blk f b.

Lemma file_same f g ino B :
  file_wf sb f ino → blocks_same B f g → (∀ b, b ∈ owned f ino → b ∉ B) →
  owned g ino = owned f ino ∧ content g ino = content f ino ∧ file_wf sb g ino ∧
  data_blocks g ino = data_blocks f ino.
Proof.
  intros Hf Hb HB. pose proof (nblocks_bound sb f ino Hf) as Hn.
  pose proof (fwf_data _ _ _ Hf) as Hdata. rewrite Forall_forall in Hdata.
  assert (data_blocks g ino = data_blocks f ino) as Ed.
  { unfold data_blocks. f_equal. apply ind_entries_same; [lia|]. intros Hgt.
    pose proof (owned_indirect f ino (fwf_indirect _ _ _ Hf Hgt)) as Hin. auto. }
  assert (owned g ino = owned f ino) as Eo by (unfold owned; by rewrite Ed).
  split_and!; [done| | |done].
  - unfold content. rewrite Ed. f_equal. f_equal. apply list_fmap_ext. intros k b Hk.
    assert (b ∈ owned f ino) by (by eapply owned_data, list_elem_of_lookup_2). auto.
  - destruct Hf. split; rewrite ?Eo; done.
Qed.

(** ** The invariant after an update of one inode *)
Lemma owned_not_free f i b :
  fs_wf sb f → inode_in_range sb i → b ∈ owned f (decode_inode sb f i) → b ∉ free_list sb f.
Proof.
  intros Hfs Hi Hb [Hdb Hu]%free_list_elem. assert (used f b = true) by (apply (wf_used _ _ Hfs b Hdb); eauto).
  congruence.
Qed.

Lemma fs_wf_update f g i all :
  fs_wf sb f → mem_bytes g → super_same f g → inode_in_range sb i →
  (∀ j, inode_in_range sb j → j ≠ i → decode_inode sb g j = decode_inode sb f j) →
  (∀ b, b ∈ all → b ∈ free_list sb f) → blocks_same all f g →
  file_wf sb g (decode_inode sb g i) → (∀ b, b ∈ owned g (decode_inode sb g i) ↔ b ∈ all) →
  (∀ c, data_block c → used g c = (used f c || inb c all) && negb (inb c (owned f (decode_inode sb f i)))) →
  fs_wf sb g ∧
  ∀ j, inode_in_range sb j → j ≠ i → content g (decode_inode sb g j) = content f (decode_inode sb f j).
Proof.
  intros Hfs Hby Hsb0 Hi Hdec Hall Hsame Hnew Hown Hu.
  assert (∀ j, inode_in_range sb j → j ≠ i →
    owned g (decode_inode sb g j) = owned f (decode_inode sb f j) ∧
    content g (decode_inode sb g j) = content f (decode_inode sb f j) ∧ file_wf sb g (decode_inode sb g j)) as Hj.
  { intros j Hj Hne. rewrite Hdec by done.
    destruct (file_same f g (decode_inode sb f j) all) as (? & ? & ? & _); [by apply (wf_files _ _ Hfs)|done| |done].
    intros b Hb Hin. exact (owned_not_free f j b Hfs Hj Hb (Hall b Hin)). }
  split; [|by intros j ? ?; apply Hj]. split.
  - done.
  - apply (super_wf_same sb f g Hsb0), Hfs.
  - intros j Hjr. destruct (decide (j = i)) as [->|]; [done|]. by apply Hj.
  - intros j k b Hjr Hkr Hne Hb Hb'. destruct (decide (j = i)) as [->|Hji]; [|destruct (decide (k = i)) as [->|Hki]].
    + rewrite (proj1 (Hj k Hkr ltac:(done))) in Hb'. apply Hown, Hall in Hb. exact (owned_not_free f k b Hfs Hkr Hb' Hb).
    + rewrite (proj1 (Hj j Hjr ltac:(done))) in Hb. apply Hown, Hall in Hb'. exact (owned_not_free f j b Hfs Hjr Hb Hb').
    + rewrite (proj1 (Hj j Hjr ltac:(done))) in Hb. rewrite (proj1 (Hj k Hkr ltac:(done))) in Hb'.
      exact (wf_disjoint _ _ Hfs j k b Hjr Hkr Hne Hb Hb').
  - intros c Hc. rewrite Hu by done. rewrite andb_true_iff, orb_true_iff, negb_true_iff, <- not_true_iff_false, !inb_true.
    rewrite (wf_used _ _ Hfs c Hc). split.
    + intros [[(j & Hjr & Hcj)|Hin] Hnot]; [|exists i; split; [done|by apply Hown]].
      assert (j ≠ i) as Hne by (by intros ->). exists j. split; [done|]. by rewrite (proj1 (Hj j Hjr Hne)).
    + intros (j & Hjr & Hcj). destruct (decide (j = i)) as [->|Hne].
      * apply Hown in Hcj. split; [by right|]. intros Hin. exact (owned_not_free f i c Hfs Hi Hin (Hall c Hcj)).
      * rewrite (proj1 (Hj j Hjr Hne)) in Hcj. split; [left; by exists j|].
        intros Hin. exact (wf_disjoint _ _ Hfs i j c Hi Hjr (not_eq_sym Hne) Hin Hcj).
Qed.

Lemma low_same_super f g : low_same sb f g → super_same f g.
Proof.
  intros Hl a Ha. apply Hl. destruct Hwf. unfold BLOCK_SIZE, INODE_SIZE in *. lia.
Qed.

Lemma fs_wf_same f g :
  fs_wf sb f → changes_only (free_list sb f) f g → same_used f g →
  fs_wf sb g ∧ ∀ j, inode_in_range sb j → decode_inode sb g j = decode_inode sb f j ∧
    content g (decode_inode sb g j) = content f (decode_inode sb f j).
Proof.
  intros Hfs (Hlow & Hby & Hsame) Hu.
  assert (∀ j, inode_in_range sb j → decode_inode sb g j = decode_inode sb f j ∧
    owned g (decode_inode sb f j) = owned f (decode_inode sb f j) ∧
    content g (decode_inode sb f j) = content f (decode_inode sb f j) ∧ file_wf sb g (decode_inode sb f j)) as Hj.
  { intros j Hj. split; [by apply decode_low_same|].
    destruct (file_same f g (decode_inode sb f j) (free_list sb f)) as (? & ? & ? & _);
      [by apply (wf_files _ _ Hfs)|done| |done]. intros b Hb. by eapply owned_not_free. }
  split; [split|].
  - by apply Hby, Hfs.
  - apply (super_wf_same sb f g (low_same_super f g Hlow)), Hfs.
  - intros j Hjr. destruct (Hj j Hjr) as (-> & _ & _ & ?). done.
  - intros j k b Hjr Hkr Hne. destruct (Hj j Hjr) as (-> & -> & _), (Hj k Hkr) as (-> & -> & _).
    by apply (wf_disjoint _ _ Hfs).
  - intros c Hc. destruct (data_block_range sb Hwf c Hc) as (_ & Hr & _). rewrite Hu, (wf_used _ _ Hfs c Hc) by done.
    split; intros (j & Hjr & Hin); exists j; (split; [done|]); destruct (Hj j Hjr) as (Ed & Eo & _);
      [by rewrite Ed, Eo|by rewrite Ed, Eo in Hin].
  - intros j Hjr. destruct (Hj j Hjr) as (Ed & _ & Ec & _). by rewrite Ed, Ec.
Qed.

(** ** Allocation of all blocks of a new file *)
Definition blocks_total (n : Z) : Z := n + (if DIRECT_BLOCKS <? n then 1 else 0).

Lemma allocated_snoc N b f g :
  Forall data_block N → data_block b → b ∉ N →
  allocated sb N f g → allocated sb (N ++ [b]) f (alloc_mem sb g b).
Proof.
  intros HN Hb Hn (Hc & Hz & Hu). destruct (alloc_mem_spec sb Hwf g b Hb) as (Hc1 & Hz1 & Hu1). split_and!.
  - eapply changes_only_trans; [eapply changes_only_weaken; [|exact Hc]|eapply changes_only_weaken; [|exact Hc1]];
      clear; set_solver.
  - intros c [Hin| ->%list_elem_of_singleton]%elem_of_app; [|done].
    destruct Hc1 as (_ & _ & Hc1). rewrite Forall_forall in HN. rewrite Hc1; [by apply Hz|by apply HN|].
    intros ->%list_elem_of_singleton. by apply Hn.
  - intros c Hr. rewrite Hu1, Hu, inb_app by done. destruct (Z.eqb_spec b c) as [->|Hne].
    + by rewrite inb_here, !orb_true_r.
    + rewrite inb_cons by done. unfold inb at 3. by rewrite orb_false_r.
Qed.

Lemma rollback_used N f g h :
  allocated sb N f g → freed sb N g h → (∀ b, b ∈ N → b ∈ free_list sb f) → same_used f h.
Proof.
  intros (_ & _ & Hu) [_ Hu'] HN c Hc. rewrite Hu', Hu by done.
  destruct (inb c N) eqn:E; [|by rewrite orb_false_r, andb_true_r].
  apply inb_true, HN, free_list_elem in E as [_ ->]; done.
Qed.

Definition alloc_all {B} (n : Z) (k : list Z → Z → ST (Cached V) FsError B) : ST (Cached V) FsError B :=
  let! new_blocks := alloc_blocks sb (Z.to_nat n) [] in
  let! indirect_block := (if DIRECT_BLOCKS <? n then alloc_or_rollback sb new_blocks else ret 0) in
  k new_blocks indirect_block.

Definition with_indirect N ind : list Z := N ++ (if ind =? 0 then [] else [ind]).

(** Either all blocks the file needs are taken from the free list, or none is. *)
Lemma runs_alloc_all {B} n (k : list Z → Z → ST (Cached V) FsError B) f :
  0 ≤ n →
  if decide (blocks_total n ≤ len (free_list sb f)) then
    ∃ N ind g, len N = n ∧ (ind ≠ 0 ↔ DIRECT_BLOCKS < n) ∧ NoDup (with_indirect N ind) ∧
      (∀ b, b ∈ with_indirect N ind → b ∈ free_list sb f) ∧ allocated sb (with_indirect N ind) f g ∧
      ∀ r h, runs (k N ind) g r h → runs (alloc_all n k) f r h
  else
    ∃ g, runs (alloc_all n k) f (Err NoSpace) g ∧ changes_only (free_list sb f) f g ∧ same_used f g.
Proof.
  intros Hn. pose proof (runs_alloc_blocks Hwindow sb Hwf (Z.to_nat n) [] f) as Ha.
  specialize (Ha ltac:(done)). pose proof (free_list_NoDup sb f) as Hnd.
  pose proof (free_list_data sb f) as Hdata. unfold alloc_all, blocks_total, len in *.
  destruct (decide (Z.to_nat n ≤ length (free_list sb f))%nat) as [Hle|Hgt]; cycle 1.
  { rewrite decide_False by (case_if; lia). destruct Ha as (g & Hg & Hc & Hu). exists g.
    split_and!; [by apply runs_bind_err|done|]. intros c Hr. rewrite Hu by done. by rewrite andb_true_r. }
  destruct Ha as (g & Hg & Hal & Hfree). rewrite app_nil_l in Hg.
  set (F := free_list sb f) in *. set (N := take (Z.to_nat n) F) in *.
  assert (len N = n) as HlenN by (unfold len, N; rewrite length_take; lia).
  assert (∀ b, b ∈ N → b ∈ F) as HNF by (intros b; apply subseteq_take).
  assert (NoDup N) as HndN by (eapply sublist_NoDup; [exact Hnd|apply sublist_take]).
  destruct (Z.ltb_spec DIRECT_BLOCKS n) as [Hbig|Hsmall]; cycle 1.
  { rewrite decide_True by lia. exists N, 0, g. unfold with_indirect. rewrite Z.eqb_refl, app_nil_r.
    split_and!; [done|lia|done|done|done|]. intros r h Hk. eapply runs_bind; [exact Hg|].
    eapply runs_bind; [apply runs_ret|exact Hk]. }
  pose proof (runs_alloc_block Hwindow sb Hwf g) as Hab. rewrite Hfree in Hab.
  assert (length F = Z.to_nat n + length (drop (Z.to_nat n) F))%nat as HlF by (rewrite length_drop; lia).
  destruct (drop (Z.to_nat n) F) as [|b rest] eqn:Edrop.
  - rewrite decide_False by (simpl in HlF; lia).
    assert (Forall data_block N) as HNd.
    { apply Forall_forall. intros b Hb%HNF. rewrite Forall_forall in Hdata. by apply Hdata. }
    destruct (runs_free_blocks_ignoring Hwindow sb Hwf N g HNd) as (h & Hh & Hfr). exists h. split_and!.
    + eapply runs_bind; [exact Hg|]. apply runs_bind_err.
      eapply runs_bind; [apply runs_attempt, Hab|]. eapply runs_bind; [exact Hh|apply runs_throw].
    + eapply changes_only_trans; [eapply changes_only_weaken; [exact HNF|apply Hal]|].
      eapply changes_only_weaken; [|apply Hfr]. clear; set_solver.
    + by eapply rollback_used.
  - rewrite decide_True by (simpl in HlF; lia).
    assert (b ∈ F) as HbF by (rewrite <- (take_drop (Z.to_nat n) F), Edrop; apply elem_of_app; right; by left).
    assert (data_block b) as Hb by (rewrite Forall_forall in Hdata; by apply Hdata).
    destruct (data_block_range sb Hwf b Hb) as (_ & _ & Hb0).
    assert (b ∉ N) as HbN.
    { rewrite <- (take_drop (Z.to_nat n) F), Edrop in Hnd. apply NoDup_app in Hnd as (_ & Hdis & _).
      intros Hin. apply (Hdis b Hin). by left. }
    exists N, b, (alloc_mem sb g b). unfold with_indirect. rewrite (proj2 (Z.eqb_neq _ _) Hb0). split_and!.
    + done.
    + done.
    + apply NoDup_app. split_and!; [done| |apply NoDup_singleton]. by intros x Hx ->%list_elem_of_singleton.
    + intros x [Hx| ->%list_elem_of_singleton]%elem_of_app; [by apply HNF|done].
    + apply allocated_snoc; [|done..]. apply Forall_forall. intros x Hx%HNF. rewrite Forall_forall in Hdata. by apply Hdata.
    + intros r h Hk. eapply runs_bind; [exact Hg|]. eapply runs_bind; [|exact Hk].
      eapply runs_bind; [apply runs_attempt, Hab|]. apply runs_ret.
Qed.

(** ** The blocks of a new file *)
Lemma data_block_u32 l : Forall data_block l → Forall u32 l.
Proof.
  intros Hl. eapply Forall_impl; [exact Hl|]. intros b Hb. destruct (data_block_range sb Hwf b Hb) as (Hr & _).
  unfold u32, block_in_range, TOTAL_BLOCKS in *. lia.
Qed.

Lemma slice_direct_of N :
  slice (direct_of N) 0 (Z.min (len N) DIRECT_BLOCKS) = slice N 0 (Z.min (len N) DIRECT_BLOCKS).
Proof.
  pose proof (len_nonneg N). unfold direct_of, DIRECT_BLOCKS.
  assert (len (slice N 0 48) = Z.min (len N) 48) as Hl
    by (unfold slice, len; change (Z.to_nat 0) with O; rewrite drop_0, length_take; lia).
  apply nthZ_ext; rewrite !len_slice by (rewrite ?len_splice; rewrite ?Hl, ?len_zeros; lia); [done|].
  intros i Hi. rewrite !nthZ_slice, nthZ_splice by (rewrite ?Hl, ?len_zeros; lia).
  rewrite Hl, (proj2 (Z.leb_le _ _)), (proj2 (Z.ltb_lt _ _)) by lia. simpl andb. cbv iota.
  rewrite nthZ_slice by lia. f_equal. lia.
Qed.

Lemma len_direct_of N : len (direct_of N) = DIRECT_BLOCKS.
Proof.
  unfold direct_of. pose proof (len_nonneg N).
  assert (len (slice N 0 DIRECT_BLOCKS) ≤ 48)
    by (unfold slice, len, DIRECT_BLOCKS; rewrite length_take; lia).
  rewrite len_splice; [by rewrite len_zeros|lia|]. rewrite len_zeros by done. unfold DIRECT_BLOCKS in *. lia.
Qed.

Lemma direct_of_u32 N : Forall u32 N → Forall u32 (direct_of N).
Proof.
  intros HN. unfold direct_of, splice, slice.
  repeat (apply Forall_app; split); try apply Forall_take; try apply Forall_drop; try done;
    apply Forall_replicate; done.
Qed.

(** The pointers in a freshly written indirect block. *)
Lemma indirect_written f N ind :
  Forall data_block N → DIRECT_BLOCKS < len N ≤ DIRECT_BLOCKS + INDIRECT_ENTRIES →
  let rest := drop (Z.to_nat DIRECT_BLOCKS) N in
  (λ i, read32 (mwrite f (ind * BLOCK_SIZE) (encode_u32s rest)) (ind * BLOCK_SIZE + i * 4))
    <$> seqZ 0 (len N - DIRECT_BLOCKS) = rest.
Proof.
  intros HN Hn rest. unfold DIRECT_BLOCKS in *.
  assert (len rest = len N - 48) as Hr by (unfold rest, len in *; rewrite length_drop; lia).
  apply nthZ_ext; rewrite len_fmap_seqZ by lia; [done|]. intros i Hi. rewrite nthZ_fmap_seqZ by done.
  apply read32_mwrite; [lia|rewrite len_encode_u32s; lia|apply encode_u32s_slice; lia|].
  by apply nthZ_u32, data_block_u32, Forall_drop.
Qed.

Lemma with_indirect_data N ind :
  Forall data_block (with_indirect N ind) → Forall data_block N ∧ (ind ≠ 0 → data_block ind).
Proof.
  unfold with_indirect. intros [HN Hi]%Forall_app. split; [done|]. intros Hn.
  rewrite (proj2 (Z.eqb_neq _ _) Hn) in Hi. by apply Forall_singleton.
Qed.

Definition write_indirect N ind : ST (Cached V) FsError unit :=
  if ind =? 0 then ret tt else
  zero_block ind ;;!
  let! indirect_start := lift_result (block_offset sb ind) in
  write_u32s sb indirect_start 0 (drop (Z.to_nat DIRECT_BLOCKS) N).

Lemma runs_write_indirect N ind f :
  Forall data_block (with_indirect N ind) → NoDup (with_indirect N ind) →
  (ind ≠ 0 ↔ DIRECT_BLOCKS < len N) → len N ≤ DIRECT_BLOCKS + INDIRECT_ENTRIES →
  ∃ g, runs (write_indirect N ind) f (Ok tt) g ∧ same_used f g ∧
    changes_only (if ind =? 0 then [] else [ind]) f g ∧
    (λ i, read32 g (ind * BLOCK_SIZE + i * 4)) <$> seqZ 0 (len N - DIRECT_BLOCKS)
      = drop (Z.to_nat DIRECT_BLOCKS) N.
Proof.
  intros HN Hnd Hind Hmax. apply with_indirect_data in HN as [HN Hi]. unfold write_indirect.
  destruct (Z.eqb_spec ind 0) as [->|Hne].
  { exists f. split_and!; [apply runs_ret|done|done|]. assert (len N ≤ 48) by (unfold DIRECT_BLOCKS in *; lia).
    rewrite seqZ_nil by (unfold DIRECT_BLOCKS in *; lia). symmetry. apply drop_ge. unfold len, DIRECT_BLOCKS in *. lia. }
  specialize (Hi Hne). destruct (data_block_range sb Hwf ind Hi) as (Hr & _ & _).
  pose proof (data_block_end sb Hwf ind Hi) as Hend. set (rest := drop _ N).
  assert (DIRECT_BLOCKS < len N) as Hbig by (by apply Hind).
  assert (len (encode_u32s rest) ≤ BLOCK_SIZE) as Hle.
  { rewrite len_encode_u32s. unfold rest, len, DIRECT_BLOCKS, INDIRECT_ENTRIES, BLOCK_SIZE in *.
    rewrite length_drop. change (4096 / 4) with 1024 in Hmax. lia. }
  destruct (changes_only_data sb Hwf ind 0 (zeros BLOCK_SIZE) f Hi) as [K1 K2]; [lia|done|apply zeros_is_byte|].
  destruct (changes_only_data sb Hwf ind 0 (encode_u32s rest) (mwrite f (ind * BLOCK_SIZE) (zeros BLOCK_SIZE)) Hi)
    as [K3 K4]; [lia|lia|apply encode_u32s_is_byte|].
  rewrite Z.add_0_r in *. eexists. split_and!.
  - eapply runs_bind; [by apply runs_zero_block|]. cbv beta. rewrite block_offset_ok by done.
    eapply runs_bind; [apply runs_lift_result|]. cbv beta. apply runs_write_u32s; [lia|].
    rewrite len_encode_u32s in Hle. lia.
  - rewrite Z.mul_0_l, Z.add_0_r. intros c Hc. by rewrite K4, K2.
  - rewrite Z.mul_0_l, Z.add_0_r. by eapply changes_only_trans.
  - rewrite Z.mul_0_l, Z.add_0_r. by apply indirect_written.
Qed.

Lemma data_blocks_new g ino (data : bytes) N ind :
  len N = blocks_needed (len data) →
  (λ i, read32 g (ind * BLOCK_SIZE + i * 4)) <$> seqZ 0 (len N - DIRECT_BLOCKS) = drop (Z.to_nat DIRECT_BLOCKS) N →
  data_blocks g (with_blocks ino (len data) N ind) = N.
Proof.
  intros Hn Hind. unfold data_blocks, ind_entries, nblocks. simpl size. simpl direct. simpl indirect.
  rewrite <- Hn, Hind, slice_direct_of. pose proof (len_nonneg N).
  etrans; [|apply (take_drop (Z.to_nat DIRECT_BLOCKS))]. f_equal.
  unfold slice. change (Z.to_nat 0) with O. rewrite drop_0. unfold len, DIRECT_BLOCKS in *.
  destruct (decide (Z.of_nat (length N) ≤ 48)).
  - rewrite !take_ge by lia. done.
  - f_equal. lia.
Qed.

Lemma new_file N ind data f :
  Forall data_block (with_indirect N ind) → NoDup (with_indirect N ind) → Forall is_byte data →
  len data ≤ MAX_FILE → len N = blocks_needed (len data) → (ind ≠ 0 ↔ DIRECT_BLOCKS < len N) →
  ∃ g h, runs (write_blocks sb 0 N data) f (Ok tt) g ∧ runs (write_indirect N ind) g (Ok tt) h ∧
    same_used f h ∧ changes_only (with_indirect N ind) f h ∧
    ∀ ino, let ino' := with_blocks ino (len data) N ind in
      file_wf sb h ino' ∧ owned h ino' = with_indirect N ind ∧ content h ino' = data.
Proof.
  intros Hd Hnd Hby Hmax Hn Hind. pose proof (len_nonneg data) as Hl0.
  destruct (blocks_needed_bounds (len data) Hl0) as (Hb0 & Hb1 & Hb2). rewrite <- Hn in *.
  destruct (with_indirect_data N ind Hd) as [HN Hi].
  pose proof Hnd as (HndN & Hdis & _)%NoDup_app.
  assert (len N ≤ DIRECT_BLOCKS + INDIRECT_ENTRIES) as HNmax.
  { unfold MAX_FILE, DIRECT_BLOCKS, INDIRECT_ENTRIES, BLOCK_SIZE in *. change (4096 / 4) with 1024 in *. lia. }
  destruct (runs_write_blocks N 0 data f) as (g & Hg & Hc1 & Hu1 & Hbs); [done|done|done|done|intros; lia|].
  destruct (runs_write_indirect N ind g Hd Hnd Hind HNmax) as (h & Hh & Hu2 & Hc2 & Hent).
  exists g, h. split_and!; [done|done| | |].
  - intros c Hc. by rewrite Hu2, Hu1.
  - unfold with_indirect. eapply changes_only_trans; [eapply changes_only_weaken; [|exact Hc1]|eapply changes_only_weaken; [|exact Hc2]];
      clear; set_solver.
  - intros ino ino'. assert (data_blocks h ino' = N) as Ed by (by apply data_blocks_new).
    assert (owned h ino' = with_indirect N ind) as Eo by (unfold owned; by rewrite Ed).
    split_and!; [|done|].
    + split; simpl; [lia|apply len_direct_of| |by rewrite Eo|by rewrite Eo].
      unfold nblocks. simpl size. rewrite <- Hn. apply Hind.
    + unfold content. rewrite Ed. simpl size.
      assert (blk h <$> N = chunk data <$> seqZ 0 (len N)) as ->.
      { rewrite <- Hbs. apply list_fmap_ext. intros k b Hk. destruct Hc2 as (_ & _ & Hc2). apply Hc2.
        - rewrite Forall_forall in HN. by eapply HN, list_elem_of_lookup_2.
        - intros Hin. by eapply Hdis; [eapply list_elem_of_lookup_2|]. }
      by apply content_of_chunks.
Qed.

(** ** Replacing the inode and freeing the old blocks *)
Lemma inode_write_same i ino f :
  inode_in_range sb i → len (direct ino) = DIRECT_BLOCKS → is_byte (kind ino) → 
  let g := mwrite f (inode_off sb i) (encode_inode ino) in
  same_used f g ∧ blocks_same [] f g ∧ (mem_bytes f → mem_bytes g) ∧
  (∀ j, inode_in_range sb j → j ≠ i → decode_inode sb g j = decode_inode sb f j) ∧ super_same f g.
Proof.
  intros Hi Hd Hk g. destruct (inode_off_bound sb Hwf i Hi) as [Ho1 Ho2].
  pose proof (len_encode_inode ino Hd) as Hl. split_and!.
  - intros c Hc. unfold CoolFile.used, g. rewrite mwrite_out; [done|].
    pose proof (bitmap_byte_bound sb Hwf c Hc). lia.
  - intros b Hb _. apply mread_ext. intros a Ha. apply mwrite_out. right.
    destruct Hwf as [? ? ? ? Hbm ?]. assert (0 ≤ total_blocks sb / 8) by (apply Z.div_pos; lia).
    unfold CoolFile.data_block, BLOCK_SIZE in *. lia.
  - intros Hby. apply mem_bytes_mwrite; [done|]. unfold encode_inode.
    repeat (apply Forall_app; split); try apply le_bytes_is_byte; try apply encode_u32s_is_byte;
      try (by apply Forall_singleton); by apply Forall_replicate.
  - intros j Hj Hne. apply decode_inode_at_ext. intros a Ha. apply mwrite_out. rewrite Hl.
    unfold inode_off, INODE_SIZE in *. lia.
  - intros a Ha. apply mwrite_out. left. destruct Hwf, Hi.
    unfold inode_off, BLOCK_SIZE, INODE_SIZE in *. lia.
Qed.

Lemma decode_ok f i : mem_bytes f → inode_in_range sb i → inode_ok (decode_inode sb f i).
Proof.
  intros Hby Hi. destruct (inode_off_bound sb Hwf i Hi) as [Ho1 Ho2].
  pose proof (bitmap_below_fs sb Hwf). pose proof (fs_len_bound sb (swf_total sb Hwf)).
  unfold decode_inode. remember (inode_off sb i) as off. unfold INODE_SIZE in *.
  assert (∀ k, 0 ≤ k → k + 4 ≤ 256 → u32 (read32 f (off + k))) as R.
  { intros k Hk Hk'. unfold u32, read32. pose proof (le_val_bound (mread f (off + k) 4)) as Hb.
    rewrite len_mread in Hb by lia. apply Hb. apply mread_is_byte; [done|lia|lia]. }
  assert (∀ m, u32 m → 0 ≤ effective_mode (f off) m < 2 ^ 16) as Hmode.
  { intros m Hm. unfold effective_mode. pose proof (mode_u32 (m mod 2 ^ 16)).
    change MODE_MASK with (Z.ones 9) in *. rewrite Z.land_ones by lia.
    pose proof (Z.mod_pos_bound (m mod 2 ^ 16) (2 ^ 9) ltac:(lia)).
    repeat case_if; unfold DEFAULT_DIR_MODE, DEFAULT_FILE_MODE; lia. }
  split; unfold decode_inode_at; cbn [kind size direct indirect i_uid i_gid i_mode]; inode_offs.
  - apply Hby. lia.
  - apply R; lia.
  - by apply len_fmap_seqZ.
  - apply Forall_fmap, Forall_forall. intros k Hk%elem_of_seqZ. unfold compose.
    rewrite <- Z.add_assoc. apply R; lia.
  - rewrite <- Z.add_assoc. apply R; lia.
  - apply R; lia.
  - apply R; lia.
  - apply Hmode, R; lia.
Qed.

Lemma effective_mode_idem k m : effective_mode k (effective_mode k m) = effective_mode k m.
Proof.
  unfold effective_mode at 2 3. case_if as E.
  - apply andb_true_iff in E as [E _]. unfold effective_mode. rewrite E.
    destruct (k =? KIND_DIR); reflexivity.
  - assert (0 ≤ m mod 2 ^ 16) by (apply Z.mod_pos_bound; lia).
    unfold effective_mode. rewrite mode_mask_mod, mode_mask_idem by (try apply mode_u32; done).
    by rewrite E.
Qed.

(** Old data blocks, and the old indirect block if there was one. *)
Lemma runs_free_old ino f g :
  file_wf sb f ino →
  ∃ h, runs (for_each (free_block sb) (data_blocks f ino) ;;!
             (if indirect ino =? 0 then ret tt else free_block sb (indirect ino))) g (Ok tt) h ∧
       freed sb (owned f ino) g h.
Proof.
  intros Hf. pose proof (data_blocks_data sb f ino Hf) as Hd. pose proof (fwf_data _ _ _ Hf) as Hown.
  destruct (runs_free_blocks Hwindow sb Hwf (data_blocks f ino) g Hd) as (g1 & Hg1 & Hf1).
  unfold owned in *. destruct (Z.eqb_spec (indirect ino) 0) as [E|E].
  - exists g1. rewrite app_nil_r in *. split; [|done]. eapply runs_bind; [exact Hg1|apply runs_ret].
  - apply Forall_app in Hown as [_ [Hi _]%Forall_cons]. destruct (data_block_range sb Hwf _ Hi) as (_ & Hr & _).
    exists (set_used sb g1 (indirect ino) false). split.
    + eapply runs_bind; [exact Hg1|]. by apply runs_free_block.
    + destruct Hf1 as [Hc Hu]. split.
      * eapply changes_only_trans; [exact Hc|by apply changes_only_set_used].
      * intros c Hc'. rewrite used_set_used, Hu, inb_app by lia. destruct (Z.eqb_spec (indirect ino) c) as [->|Hne].
        -- by rewrite inb_here, orb_true_r, andb_false_r.
        -- rewrite inb_cons by done. unfold inb at 3. by rewrite orb_false_r.
Qed.

(** The last phase of [write_inode_bytes]: switch the inode to the new blocks
    and free the old ones. *)
Definition commit_inode i (data : bytes) N ind : ST (Cached V) FsError unit :=
  let! inode := ok_or NotFound (read_inode sb i) in
  let! old_blocks := inode_data_blocks sb inode in
  write_inode sb i (with_blocks inode (len data) N ind) ;;!
  for_each (free_block sb) old_blocks ;;!
  (if indirect inode =? 0 then ret tt else free_block sb (indirect inode)).

Lemma with_blocks_ok ino (data : bytes) N ind :
  inode_ok ino → len data ≤ MAX_FILE → Forall data_block (with_indirect N ind) →
  inode_ok (with_blocks ino (len data) N ind).
Proof.
  intros [] Hmax Hd. destruct (with_indirect_data N ind Hd) as [HN Hi]. pose proof (len_nonneg data).
  split; cbn [kind size direct indirect i_uid i_gid i_mode with_blocks]; try done.
  - unfold u32, MAX_FILE, DIRECT_BLOCKS, INDIRECT_ENTRIES, BLOCK_SIZE in *. change (4096 / 4) with 1024 in *. lia.
  - apply len_direct_of.
  - by apply direct_of_u32, data_block_u32.
  - destruct (decide (ind = 0)) as [->|Hne]; [done|].
    pose proof (data_block_u32 [ind]) as Hu. rewrite !Forall_singleton in Hu. auto.
Qed.

Lemma stored_with_blocks f i (data : bytes) N ind :
  stored (with_blocks (decode_inode sb f i) (len data) N ind) = with_blocks (decode_inode sb f i) (len data) N ind.
Proof.
  unfold stored, with_blocks. cbn [kind size direct indirect i_uid i_gid i_mode]. f_equal.
  unfold decode_inode, decode_inode_at. cbn [i_mode kind]. apply effective_mode_idem.
Qed.

(** From a memory [g] in which the new blocks [all] are written, while the
    files are still those of [f]. *)
Lemma runs_commit_inode f g i data N ind :
  fs_wf sb f → inode_in_range sb i → len data ≤ MAX_FILE →
  Forall data_block (with_indirect N ind) → (∀ b, b ∈ with_indirect N ind → b ∈ free_list sb f) →
  changes_only (with_indirect N ind) f g →
  (∀ c, 0 ≤ c < total_blocks sb → used g c = used f c || inb c (with_indirect N ind)) →
  (let ino' := with_blocks (decode_inode sb f i) (len data) N ind in
   file_wf sb g ino' ∧ owned g ino' = with_indirect N ind ∧ content g ino' = data) →
  ∃ h, runs (commit_inode i data N ind) g (Ok tt) h ∧ fs_wf sb h ∧
    decode_inode sb h i = with_blocks (decode_inode sb f i) (len data) N ind ∧
    content h (decode_inode sb h i) = data ∧
    ∀ j, inode_in_range sb j → j ≠ i →
      decode_inode sb h j = decode_inode sb f j ∧
      content h (decode_inode sb h j) = content f (decode_inode sb f j).
Proof.
  intros Hfs Hi Hmax Hd Hfree Hc Hu (Hnwf & Hnown & Hncont). set (ino := decode_inode sb f i) in *.
  set (all := with_indirect N ind) in *. set (ino' := with_blocks ino (len data) N ind) in *.
  pose proof (wf_files _ _ Hfs i Hi) as Hf. fold ino in Hf.
  pose proof (decode_ok f i (wf_bytes _ _ Hfs) Hi) as Hok. fold ino in Hok.
  pose proof (with_blocks_ok ino data N ind Hok Hmax Hd) as Hok'. fold ino' in Hok'.
  destruct Hc as (Hlow & Hbytes & Hsame). pose proof (decode_low_same f g i Hlow Hi) as Eino. fold ino in Eino.
  destruct (file_same f g ino all Hf Hsame) as (Eo & _ & Hgf & Ed).
  { intros b Hb Hin. exact (owned_not_free f i b Hfs Hi Hb (Hfree b Hin)). }
  destruct (inode_write_same i ino' g Hi (iok_direct_len _ Hok') (iok_kind _ Hok')) as (Wu & Ws & Wb & Wd & W0).
  set (g1 := mwrite g (inode_off sb i) (encode_inode ino')) in *.
  destruct (runs_free_old ino f g1 Hf) as (h & Hh & Hfr).
  destruct Hfr as [(Hlow' & Hbytes' & Hsame') Hu'].
  assert (decode_inode sb h i = ino') as Ei.
  { rewrite (decode_low_same g1 h) by done. unfold decode_inode, g1.
    rewrite decode_encode_at by done. apply stored_with_blocks. }
  assert (blocks_same [] g h) as Hgh by (intros b Hb Hn; by rewrite Hsame', Ws).
  destruct (file_same g h ino' [] Hnwf Hgh) as (Eo' & Ec' & Hhf & _); [by intros b _ Hb%not_elem_of_nil|].
  assert (∀ j, inode_in_range sb j → j ≠ i → decode_inode sb h j = decode_inode sb f j) as Hj.
  { intros j Hjr Hne. by rewrite (decode_low_same g1 h), Wd, (decode_low_same f g). }
  destruct (fs_wf_update f h i all) as [Hwf' Hcont]; [done|by apply Hbytes', Wb, Hbytes, Hfs| |done|done|done| | | | |].
  { apply (super_same_trans f g1); [apply (super_same_trans f g); [by apply low_same_super|done]|by apply low_same_super]. }
  { intros b Hb Hn. rewrite Hgh, Hsame; [done..|apply not_elem_of_nil]. }
  { by rewrite Ei. }
  { intros b. by rewrite Ei, Eo', Hnown. }
  { intros c Hcd. destruct (data_block_range sb Hwf c Hcd) as (_ & Hr & _). by rewrite Hu', Wu, Hu. }
  exists h. split_and!; [|done|done|by rewrite Ei, Ec'|by auto].
  eapply runs_bind; [by apply runs_ok_or, runs_read_inode|]. rewrite Eino. cbv beta.
  eapply runs_bind; [by apply runs_inode_data_blocks|]. rewrite Ed. cbv beta.
  eapply runs_bind; [|exact Hh]. apply runs_write_inode; [done|done|done|apply Hok'|apply Hok'].
Qed.

Definition unchanged f g (i : Z) : Prop :=
  decode_inode sb g i = decode_inode sb f i ∧
  content g (decode_inode sb g i) = content f (decode_inode sb f i).

(** What [write_inode_bytes] promises: with enough free blocks the file has
    the new data and keeps its kind, owner and mode; otherwise [NoSpace] is
    returned and it is unchanged.  All other files keep their data. *)
Definition write_post (i : Z) (data : bytes) f (r : result FsError unit) g : Prop :=
  fs_wf sb g ∧ (∀ j, inode_in_range sb j → j ≠ i → unchanged f g j) ∧
  if decide (len data ≤ MAX_FILE ∧ blocks_total (blocks_needed (len data)) ≤ len (free_list sb f)) then
    r = Ok tt ∧ content g (decode_inode sb g i) = data ∧
    ∃ N ind, (ind ≠ 0 ↔ DIRECT_BLOCKS < blocks_needed (len data)) ∧
      decode_inode sb g i = with_blocks (decode_inode sb f i) (len data) N ind
  else r = Err NoSpace ∧ unchanged f g i.

Lemma runs_write_inode_bytes f i data :
  fs_wf sb f → inode_in_range sb i → Forall is_byte data →
  ∃ r g, runs (write_inode_bytes sb i data) f r g ∧ write_post i data f r g.
Proof.
  intros Hfs Hi Hby. pose proof (len_nonneg data) as Hl0.
  destruct (blocks_needed_bounds (len data) Hl0) as (Hb0 & Hb1 & Hb2).
  unfold write_inode_bytes, write_post. fold MAX_FILE. destruct (Z.ltb_spec MAX_FILE (len data)) as [Hbig|Hmax].
  { exists (Err NoSpace), f. rewrite decide_False by lia. simpl orb. cbv iota.
    split_and!; try done. apply runs_throw. }
  rewrite (proj2 (Z.ltb_ge _ _)) by (unfold MAX_FILE, DIRECT_BLOCKS, INDIRECT_ENTRIES, BLOCK_SIZE in *;
                                     change (4096 / 4) with 1024 in *; lia).
  simpl orb. cbv iota zeta.
  pose proof (runs_alloc_all (blocks_needed (len data))
    (λ N ind, write_blocks sb 0 N data ;;! write_indirect N ind ;;! commit_inode i data N ind) f Hb0) as Ha.
  destruct (decide (blocks_total _ ≤ _)) as [Hroom|Hfull]; cycle 1.
  { destruct Ha as (g & Hg & Hc & Hu). exists (Err NoSpace), g. rewrite decide_False by lia.
    destruct (fs_wf_same f g Hfs Hc Hu) as [Hwfg Hsame]. split_and!; try done; intros; by apply Hsame. }
  destruct Ha as (N & ind & g & HN & Hind & Hnd & Hfree & Hal & Hk).
  assert (Forall data_block (with_indirect N ind)) as Hd.
  { apply Forall_forall. intros b Hb%Hfree%free_list_elem. apply Hb. }
  destruct (new_file N ind data g Hd Hnd Hby Hmax HN) as (g2 & g3 & R2 & R3 & Hu3 & Hc3 & Hnew); [by rewrite HN|].
  destruct Hal as (Hc & _ & Hu).
  destruct (runs_commit_inode f g3 i data N ind) as (h & Rh & Hwfh & Hdec & Hcont & Hothers); [done|done|done|done|done| | |apply Hnew|].
  { by eapply changes_only_trans. }
  { intros c Hcr. by rewrite Hu3, Hu. }
  exists (Ok tt), h. rewrite decide_True by done. split_and!; try done; [|by eauto].
  apply Hk. eapply runs_bind; [exact R2|]. eapply runs_bind; [exact R3|exact Rh].
Qed.
End writing.

(** ** The theorems, on cache states *)
Section theorems.
Context {V : Type} `{ReliableStore V}.
Implicit Types s : Cached V.

(** Writing a file.  On a well-formed volume [write_inode_bytes] always
    terminates with [Ok] or [NoSpace], and which one is determined by the
    length and the free blocks.  On success the file holds exactly the data
    and keeps its owner, kind and mode; on [NoSpace] nothing changed.  Every
    other file keeps its inode and contents, and no block is leaked, lost or
    shared: a data block is marked used exactly when one inode owns it. *)
Theorem write_inode_bytes_correct sb s f i data :
  TOTAL_BLOCKS * SECTORS_PER_BLOCK ≤ swindow → sb_wf sb →
  repr s f → fs_wf sb f → inode_in_range sb i → Forall is_byte data →
  ∃ r s' g, write_inode_bytes sb i data s = (r, s') ∧ repr s' g ∧ write_post sb i data f r g.
Proof.
  intros Hw Hsb Hs Hfs Hi Hby.
  destruct (runs_write_inode_bytes Hw sb Hsb f i data Hfs Hi Hby) as (r & g & Hrun & Hpost).
  destruct (Hrun s Hs) as (s' & E & Hs'). eauto 10.
Qed.
End theorems.
