(* ===== verification/CoolFs.v ===== *)
(** * CoolFS directories and public operations (src/src/coolfs.rs)

    Mounting and formatting, path lookup, directories as arrays of 32-byte
    entries, and the file operations the VFS calls.  [CoolFs V] is the global
    state: the mounted image (superblock and cache) if there is one, the
    [DIRTY] flag, the volume, and the log of mutations handed to the journal,
    the search index and the write-back queue. *)
From S2P Require Import Prelude DiskLayout Storage Text Paths Security BlockCache CoolImage.

Local Open Scope Z_scope.
Local Open Scope st_scope.

Definition MOUNT_PATH : bytes := str "/".
Definition DIR_ENTRY_SIZE : Z := 32.

Record DirectoryEntry := { d_inode : Z; d_name : bytes }.
Record DirEntryInfo := { de_name : bytes; de_is_dir : bool; de_size : Z }.
Record Metadata := {
  md_uid : Z; md_gid : Z; md_mode : Z; md_size : Z; md_is_dir : bool; md_is_file : bool }.

(** ** Directory contents *)
(** One entry of [read_dir_entries]: [None] for the entries it skips. *)
Definition parse_entry (chunk : bytes) : result FsError (option DirectoryEntry) :=
  match read_u32 chunk 0 with
  | None => Err Io
  | Some inode =>
      let name_len := nthZ chunk 4 in
      if (inode =? 0) || (name_len =? 0) || (MAX_NAME_LEN <? name_len) then Ok None else
      let name := slice chunk 5 name_len in
      if utf8_valid name then Ok (Some {| d_inode := inode; d_name := name |}) else Err Io
  end.

(** The loop over [bytes.chunks(32)]; it stops at a short chunk. *)
Fixpoint parse_entries (fuel : nat) (b : bytes) : result FsError (list DirectoryEntry) :=
  match fuel with
  | O => Ok []
  | S fuel =>
      if len b <? DIR_ENTRY_SIZE then Ok [] else
      match parse_entry (slice b 0 DIR_ENTRY_SIZE) with
      | Err e => Err e
      | Ok entry =>
          match parse_entries fuel (drop (Z.to_nat DIR_ENTRY_SIZE) b) with
          | Err e => Err e
          | Ok rest => Ok (match entry with Some e => e :: rest | None => rest end)
          end
      end
  end.

Definition parse_dir (b : bytes) : result FsError (list DirectoryEntry) := parse_entries (length b) b.

Definition encode_entry (e : DirectoryEntry) : bytes :=
  let raw := write_u32 (zeros DIR_ENTRY_SIZE) 0 (d_inode e) in
  let raw := splice raw 4 [len (d_name e) mod 256] in
  splice raw 5 (d_name e).

Fixpoint encode_dir (entries : list DirectoryEntry) : result FsError bytes :=
  match entries with
  | [] => Ok []
  | e :: entries =>
      match validate_name (d_name e) with
      | Err err => Err err
      | Ok _ => match encode_dir entries with Err err => Err err | Ok b => Ok (encode_entry e ++ b) end
      end
  end.

Definition find_entry (name : bytes) (entries : list DirectoryEntry) : option DirectoryEntry :=
  List.find (λ e, names_equal (d_name e) name) entries.

Section image.
Context {V : Type} `{SectorStore V}.
Context (sb : Superblock).
Abbreviation M := (ST (Cached V) FsError).

Definition read_dir_entries (inode_idx : Z) : M (list DirectoryEntry) :=
  let! inode := ok_or NotFound (read_inode sb inode_idx) in
  if negb (is_dir inode) then throw NotDirectory else
  let! b := read_inode_bytes sb inode in
  lift_result (parse_dir b).

Definition write_dir_entries (inode_idx : Z) (entries : list DirectoryEntry) : M unit :=
  let! b := lift_result (encode_dir entries) in
  write_inode_bytes sb inode_idx b.

Fixpoint resolve_components (parts : list bytes) (inode_idx : Z) : M Z :=
  match parts with
  | [] => ret inode_idx
  | component :: parts =>
      let! inode := ok_or NotFound (read_inode sb inode_idx) in
      if negb (is_dir inode) then throw NotDirectory else
      let! entries := read_dir_entries inode_idx in
      let! entry := lift_option NotFound (find_entry component entries) in
      resolve_components parts (d_inode entry)
  end.

Definition resolve_path (path : bytes) : M Z :=
  let! path := lift_result (trim_abs_path path) in
  if bytes_eqb path (str "/") then ret (root_inode sb)
  else resolve_components (components path) (root_inode sb).

Definition has_name (name : bytes) (entries : list DirectoryEntry) : bool :=
  existsb (λ e, names_equal (d_name e) name) entries.

(** The closure of [create_node]. *)
Definition create_node_image (path : bytes) (k uid gid mode : Z) : M unit :=
  let! (parent_path, name) := lift_result (split_parent_and_name path) in
  lift_result (validate_name name) ;;!
  let! parent_inode := resolve_path parent_path in
  let! entries := read_dir_entries parent_inode in
  if has_name name entries then throw AlreadyExists else
  let! inode_idx := alloc_inode_with_metadata sb k uid gid mode in
  let! r := attempt (write_dir_entries parent_inode (entries ++ [{| d_inode := inode_idx; d_name := name |}])) in
  match r with
  | Err err => attempt (E' := FsError) (free_inode sb inode_idx) ;;! throw err
  | Ok _ => ret tt
  end.

(** The closure of [delete_file]. *)
Definition delete_file_image (path : bytes) : M unit :=
  let! (parent_path, name) := lift_result (split_parent_and_name path) in
  let! parent_inode := resolve_path parent_path in
  let! entries := read_dir_entries parent_inode in
  let! pos := lift_option NotFound (position (λ e, names_equal (d_name e) name) entries) in
  let target_inode := nth pos (map d_inode entries) 0 in
  let! target := ok_or NotFound (read_inode sb target_inode) in
  let! nonempty := (if is_dir target
                    then let! children := read_dir_entries target_inode in
                         ret (negb (bool_decide (length children = O)))
                    else ret false) in
  if nonempty then throw NotEmpty else
  write_dir_entries parent_inode (delete pos entries) ;;!
  free_inode sb target_inode.

Definition set_name (name : bytes) (e : DirectoryEntry) : DirectoryEntry :=
  {| d_inode := d_inode e; d_name := name |}.

(** The closure of [rename]. *)
Definition rename_image (path new_name : bytes) : M bool :=
  let! (parent_path, old_name) := lift_result (split_parent_and_name path) in
  if names_equal old_name new_name then ret false else
  let! parent_inode := resolve_path parent_path in
  let! entries := read_dir_entries parent_inode in
  if has_name new_name entries then throw AlreadyExists else
  let! pos := lift_option NotFound (position (λ e, names_equal (d_name e) old_name) entries) in
  write_dir_entries parent_inode (alter (set_name new_name) pos entries) ;;!
  ret true.

Definition set_mode (mode : Z) (i : Inode) : Inode :=
  {| kind := kind i; size := size i; direct := direct i; indirect := indirect i;
     i_uid := i_uid i; i_gid := i_gid i; i_mode := mode |}.
Definition set_owner (uid gid : Z) (i : Inode) : Inode :=
  {| kind := kind i; size := size i; direct := direct i; indirect := indirect i;
     i_uid := uid; i_gid := gid; i_mode := i_mode i |}.

(** The closures of [chmod] and [chown]. *)
Definition update_inode_image (path : bytes) (upd : Inode → Inode) : M unit :=
  let! inode_idx := resolve_path path in
  let! inode := ok_or NotFound (read_inode sb inode_idx) in
  if kind inode =? KIND_FREE then throw NotFound else
  write_inode sb inode_idx (upd inode).

Definition write_file_image (path data : bytes) : M unit :=
  let! inode_idx := resolve_path path in
  let! inode := ok_or NotFound (read_inode sb inode_idx) in
  if negb (is_file inode) then throw InvalidPath else
  write_inode_bytes sb inode_idx data.

Definition read_file_image (path : bytes) : ST (Cached V) unit bytes :=
  let! inode_idx := ok (resolve_path path) in
  let! inode := read_inode sb inode_idx in
  if negb (is_file inode) then throw tt else ok (read_inode_bytes sb inode).

Definition metadata_image (path : bytes) : ST (Cached V) unit Metadata :=
  let! inode_idx := ok (resolve_path path) in
  let! inode := read_inode sb inode_idx in
  ret {| md_uid := i_uid inode; md_gid := i_gid inode; md_mode := i_mode inode;
         md_size := size inode; md_is_dir := is_dir inode; md_is_file := is_file inode |}.

Fixpoint list_entries (entries : list DirectoryEntry) : ST (Cached V) unit (list DirEntryInfo) :=
  match entries with
  | [] => ret []
  | e :: entries =>
      let! r := attempt (read_inode sb (d_inode e)) in
      let! rest := list_entries entries in
      ret (match r with
           | Ok child => {| de_name := d_name e; de_is_dir := is_dir child; de_size := size child |} :: rest
           | Err _ => rest
           end)
  end.

Definition list_dir_image (path : bytes) : ST (Cached V) unit (list DirEntryInfo) :=
  let! inode_idx := ok (resolve_path path) in
  let! inode := read_inode sb inode_idx in
  if negb (is_dir inode) then throw tt else
  let! entries := ok (read_dir_entries inode_idx) in
  list_entries entries.

Record CoolFsCheckReport := { cr_ok : bool; cr_root_entries : Z; cr_stats : CoolFsStats }.

Definition check_image : ST (Cached V) unit CoolFsCheckReport :=
  let! entries := ok (read_dir_entries (root_inode sb)) in
  let! root := read_inode sb (root_inode sb) in
  let! stats := image_stats sb in
  ret {| cr_ok := is_dir root && (st_used_blocks stats <=? st_total_blocks stats);
         cr_root_entries := len entries; cr_stats := stats |}.
End image.

(** ** Mounting *)
Section mount.
Context {V : Type} `{SectorStore V}.

Definition format_image : ST (Cached V) FsError unit :=
  let sb := Superblock_new in
  for_each zero_block (seqZ 0 (data_start sb)) ;;!
  get_mut 0 (λ block0, Superblock_write sb (replicate (length block0) 0)) ;;!
  for_each (λ block, set_block_used sb block true) (seqZ 0 (data_start sb)) ;;!
  write_inode sb (root_inode sb) (Inode_new KIND_DIR).

Definition Image : Type := (Superblock * BlockCache)%type.

Definition load_or_format : ST V FsError Image :=
  λ d,
    match read_disk_block 0 d with
    | (Err e, d1) => (Err e, d1)
    | (Ok first, d1) =>
        let loaded :=
          match Superblock_parse first with
          | Some sb =>
              if (1024 <=? total_blocks sb) && (total_blocks sb <=? TOTAL_BLOCKS)
              then Some (sb, with_clean_block 0 first) else None
          | None => None
          end in
        match loaded with
        | Some image => (Ok image, d1)
        | None =>
            match (format_image ;;! flush) {| cache := BlockCache_new; disk := d1 |} with
            | (Ok _, s) => (Ok (Superblock_new, cache s), disk s)
            | (Err e, s) => (Err e, disk s)
            end
        end
    end.

Record CoolFs := {
  slot : option Image; fs_dirty : bool; store : V; mutations : list (bytes * bytes) }.

Definition ensure_image : ST CoolFs FsError Image :=
  λ st,
    match slot st with
    | Some image => (Ok image, st)
    | None =>
        let (r, d) := load_or_format (store st) in
        let st' := {| slot := match r with Ok image => Some image | Err _ => None end;
                      fs_dirty := fs_dirty st; store := d; mutations := mutations st |} in
        (r, st')
    end.

(** Run [f] on the image in the slot. *)
Definition on_image {E A} (image : Image) (f : Superblock → ST (Cached V) E A) : ST CoolFs E A :=
  λ st,
    let (r, s) := f (fst image) {| cache := snd image; disk := store st |} in
    (r, {| slot := Some (fst image, cache s); fs_dirty := fs_dirty st; store := disk s;
           mutations := mutations st |}).

Definition with_image_result {A} (f : Superblock → ST (Cached V) FsError A) : ST CoolFs FsError A :=
  let! image := ensure_image in on_image image f.

Definition with_image_option {A} (f : Superblock → ST (Cached V) unit A) : ST CoolFs unit A :=
  let! image := ok ensure_image in on_image image f.

Definition mount_path_for (path : bytes) : bytes :=
  let normalized := normalize_path path in
  if bytes_eqb MOUNT_PATH (str "/") then normalized
  else MOUNT_PATH ++ (if bytes_eqb normalized (str "/") then [] else normalized).

Definition record_mutation (k path : bytes) : ST CoolFs FsError unit :=
  λ st, (Ok tt, {| slot := slot st; fs_dirty := true; store := store st;
                   mutations := mutations st ++ [(k, mount_path_for path)] |}).

(** ** The public operations *)
Definition mount_or_format : ST CoolFs FsError unit := with_image_result (λ _, ret tt).

Definition set_fs_dirty (b : bool) : ST CoolFs FsError unit :=
  λ st, (Ok tt, {| slot := slot st; fs_dirty := b; store := store st; mutations := mutations st |}).

Definition fs_flush : ST CoolFs FsError unit :=
  λ st,
    if negb (fs_dirty st) then (Ok tt, st) else
    match slot st with
    | None => set_fs_dirty false st
    | Some image => (on_image image (λ _, flush) ;;! set_fs_dirty false) st
    end.

Definition trim_clean_cache (keep_blocks : Z) : ST CoolFs FsError Z :=
  λ st,
    match slot st with
    | None => (Ok 0, st)
    | Some image => on_image image (λ _, trim_clean keep_blocks) st
    end.

Definition stats : ST CoolFs unit CoolFsStats := with_image_option (λ sb, image_stats sb).
Definition check : ST CoolFs unit CoolFsCheckReport := with_image_option (λ sb, check_image sb).
Definition list_dir (path : bytes) : ST CoolFs unit (list DirEntryInfo) :=
  with_image_option (λ sb, list_dir_image sb path).
Definition read_file (path : bytes) : ST CoolFs unit bytes :=
  with_image_option (λ sb, read_file_image sb path).
Definition metadata (path : bytes) : ST CoolFs unit Metadata :=
  with_image_option (λ sb, metadata_image sb path).

Definition chmod (path : bytes) (mode : Z) : ST CoolFs FsError unit :=
  with_image_result (λ sb, update_inode_image sb path (set_mode (Z.land mode MODE_MASK))) ;;!
  record_mutation (str "coolfs-chmod") path.

Definition chown (path : bytes) (uid gid : Z) : ST CoolFs FsError unit :=
  with_image_result (λ sb, update_inode_image sb path (set_owner uid gid)) ;;!
  record_mutation (str "coolfs-chown") path.

Definition create_node (path : bytes) (k uid gid mode : Z) : ST CoolFs FsError unit :=
  with_image_result (λ sb, create_node_image sb path k uid gid mode) ;;!
  record_mutation (if k =? KIND_DIR then str "coolfs-create-dir" else str "coolfs-create-file") path.

Definition create_file_with_metadata (path : bytes) (uid gid mode : Z) : ST CoolFs FsError unit :=
  create_node path KIND_FILE uid gid mode.
Definition create_dir_with_metadata (path : bytes) (uid gid mode : Z) : ST CoolFs FsError unit :=
  create_node path KIND_DIR uid gid mode.
Definition create_file (creds : Credentials) (path : bytes) : ST CoolFs FsError unit :=
  create_file_with_metadata path (cr_uid creds) (cr_gid creds) DEFAULT_FILE_MODE.
Definition create_dir (creds : Credentials) (path : bytes) : ST CoolFs FsError unit :=
  create_dir_with_metadata path (cr_uid creds) (cr_gid creds) DEFAULT_DIR_MODE.

Definition write_file (path data : bytes) : ST CoolFs FsError unit :=
  with_image_result (λ sb, write_file_image sb path data) ;;!
  record_mutation (str "coolfs-write") path.

Definition delete_file (path : bytes) : ST CoolFs FsError unit :=
  with_image_result (λ sb, delete_file_image sb path) ;;!
  record_mutation (str "coolfs-delete") path.

Definition rename (path new_name : bytes) : ST CoolFs FsError unit :=
  lift_result (validate_name new_name) ;;!
  let! mutated := with_image_result (λ sb, rename_image sb path new_name) in
  if mutated then record_mutation (str "coolfs-rename") path else ret tt.

Definition copy_file (creds : Credentials) (src dst : bytes) : ST CoolFs FsError unit :=
  let! data := ok_or NotFound (read_file src) in
  create_file creds dst ;;!
  write_file dst data.

(** [match r { Ok(()) | Err(NotFound) => {}, Err(err) => return Err(err) }] *)
Definition allow_missing (r : result FsError unit) : result FsError unit :=
  match r with Ok _ => Ok tt | Err NotFound => Ok tt | Err e => Err e end.

Definition tmp_path (parent : bytes) : bytes :=
  (if ends_with_slash parent then parent else parent ++ str "/") ++ str "CWTMP.TMP".

Definition safe_write_file_with_metadata (path data : bytes) (uid gid mode : Z) : ST CoolFs FsError unit :=
  let! (parent, name) := lift_result (split_parent_and_name path) in
  let tmp := tmp_path parent in
  let! r := attempt (delete_file tmp) in
  lift_result (allow_missing r) ;;!
  create_file_with_metadata tmp uid gid mode ;;!
  write_file tmp data ;;!
  let! r := attempt (delete_file path) in
  match allow_missing r with
  | Ok _ => rename tmp name
  | Err err => attempt (E' := FsError) (delete_file tmp) ;;! throw err
  end.

Definition safe_write_file (creds : Credentials) (path data : bytes) : ST CoolFs FsError unit :=
  safe_write_file_with_metadata path data (cr_uid creds) (cr_gid creds) DEFAULT_FILE_MODE.
End mount.
Arguments CoolFs : clear implicits.
