(* ===== verification/CoolDir.v ===== *)
(** * Directories of CoolFS

    Functional specifications of directory reading, path lookup, inode
    allocation and the create, delete and rename operations of
    src/src/coolfs.rs, over the flat memory of CoolMem.v, and the state a
    freshly formatted volume is in. *)
From stdpp Require Import sets.
From S2P Require Import Prelude DiskLayout Storage Text Paths Security BlockCache CoolImage CoolMem CoolFile CoolContent CoolFs.
Set Warnings "-clear-no-such-hyp".

Local Open Scope Z_scope.
Local Open Scope st_scope.

(** ** The directory codec *)
Definition entry_valid (e : DirectoryEntry) : Prop :=
  0 < d_inode e < 2 ^ 32 ∧ validate_name (d_name e) = Ok tt.

Lemma validate_name_ok name :
  validate_name name = Ok tt →
  0 < len name ≤ MAX_NAME_LEN ∧ Forall (λ b, 0x20 ≤ b ≤ 0x7e) name ∧ part_ok name.
Proof.
  unfold validate_name. case_if as E1; [done|]. case_if as E2; [done|]. intros _.
  rewrite !orb_false_iff in E1. destruct E1 as [[[E0 Ed] Edd] El]. zbool.
  rewrite forallb_forall in E2.
  assert (Forall (λ b, 0x20 ≤ b ≤ 0x7e ∧ b ≠ SLASH) name) as Hall.
  { apply Forall_forall. intros b Hb%list_elem_of_In%E2. zbool. lia. }
  split_and!.
  - destruct name; [done|]. rewrite len_cons. pose proof (len_nonneg name). lia.
  - done.
  - eapply Forall_impl; [exact Hall|]. naive_solver.
  - apply part_skip; [by rewrite E0|done|]. eapply Forall_impl; [exact Hall|]. naive_solver.
Qed.

Lemma validate_name_unit name r : validate_name name = Ok r → validate_name name = Ok tt.
Proof. by destruct r. Qed.

Lemma len_encode_entry e : entry_valid e → len (encode_entry e) = DIR_ENTRY_SIZE.
Proof.
  intros [_ (Hl & _)%validate_name_ok]. unfold encode_entry, write_u32, DIR_ENTRY_SIZE, MAX_NAME_LEN in *.
  len_tac.
Qed.

Lemma encode_entry_is_byte e : entry_valid e → Forall is_byte (encode_entry e).
Proof.
  intros [_ (Hl & Hn & _)%validate_name_ok]. unfold encode_entry, write_u32.
  apply splice_is_byte; [apply splice_is_byte; [apply splice_is_byte; [apply zeros_is_byte|apply le_bytes_is_byte]|]|].
  - apply Forall_singleton. unfold is_byte. pose proof (Z.mod_pos_bound (len (d_name e)) 256). lia.
  - eapply Forall_impl; [exact Hn|]. unfold is_byte. lia.
Qed.

Lemma parse_encode_entry e : entry_valid e → parse_entry (encode_entry e) = Ok (Some e).
Proof.
  intros Hv. pose proof (len_encode_entry e Hv) as Hl. destruct Hv as [Hi (Hn & Hb & _)%validate_name_ok].
  unfold MAX_NAME_LEN in *. unfold parse_entry, read_u32, read_le. rewrite Hl. change (0 + 4 <=? DIR_ENTRY_SIZE) with true.
  cbv iota.
  assert (slice (encode_entry e) 0 4 = le_bytes 4 (d_inode e)) as Es.
  { unfold encode_entry, write_u32, DIR_ENTRY_SIZE. slice_tac 32. done. }
  assert (nthZ (encode_entry e) 4 = len (d_name e)) as En.
  { unfold encode_entry, write_u32, DIR_ENTRY_SIZE.
    rewrite (buf_nth_ne 32) by (len_tac || lia).
    assert (len (splice (zeros 32) 0 (le_bytes 4 (d_inode e))) = 32) as H32 by len_tac.
    rewrite nthZ_splice by (rewrite ?H32; change (len [_]) with 1; lia).
    change (len [_]) with 1. simpl. rewrite Z.mod_small by lia. done. }
  assert (slice (encode_entry e) 5 (len (d_name e)) = d_name e) as Enm.
  { unfold encode_entry, write_u32, DIR_ENTRY_SIZE. slice_tac 32. done. }
  rewrite Es, En, Enm. rewrite le_val_u32 by (unfold u32; lia).
  rewrite (proj2 (Z.eqb_neq (d_inode e) 0)), (proj2 (Z.eqb_neq (len _) 0)), (proj2 (Z.ltb_ge _ _)) by (unfold MAX_NAME_LEN; lia).
  simpl orb. cbv iota. rewrite utf8_valid_ascii; [by destruct e|].
  eapply Forall_impl; [exact Hb|]. simpl. lia.
Qed.

Lemma parse_encode_entries es fuel :
  Forall entry_valid es → (length es ≤ fuel)%nat →
  ∃ b, encode_dir es = Ok b ∧ len b = DIR_ENTRY_SIZE * len es ∧ Forall is_byte b ∧
       parse_entries fuel b = Ok es.
Proof.
  intros Hes. revert fuel. induction Hes as [|e es He Hes IH]; intros fuel Hf.
  { exists []. split_and!; [done..|]. by destruct fuel. }
  destruct fuel as [|fuel]; [simpl in Hf; lia|]. destruct (IH fuel) as (b & Eb & Hlb & Hbb & Hp); [simpl in Hf; lia|].
  pose proof (len_encode_entry e He) as Hle. pose proof (len_nonneg b).
  exists (encode_entry e ++ b). cbn [encode_dir]. rewrite (proj2 He), Eb. split_and!; [done| | |].
  - rewrite len_app, len_cons, Hle. lia.
  - apply Forall_app. split; [by apply encode_entry_is_byte|done].
  - cbn [parse_entries]. rewrite (proj2 (Z.ltb_ge _ _)) by (rewrite len_app; lia).
    rewrite slice_app_here by done. rewrite parse_encode_entry by done.
    replace (drop (Z.to_nat DIR_ENTRY_SIZE) (encode_entry e ++ b)) with b; [by rewrite Hp|].
    unfold len in Hle. rewrite drop_app_ge by lia. replace (_ - _)%nat with O by lia. done.
Qed.

Lemma encode_dir_ok es :
  Forall entry_valid es →
  ∃ b, encode_dir es = Ok b ∧ len b = DIR_ENTRY_SIZE * len es ∧ Forall is_byte b ∧ parse_dir b = Ok es.
Proof.
  intros Hes. destruct (parse_encode_entries es (length es) Hes) as (b & Eb & Hl & Hb & _); [lia|].
  exists b. split_and!; [done..|]. unfold parse_dir.
  destruct (parse_encode_entries es (length b) Hes) as (b' & Eb' & _ & _ & Hp).
  { unfold len, DIR_ENTRY_SIZE in Hl. lia. }
  rewrite Eb in Eb'. by injection Eb' as <-.
Qed.

(** A directory survives being written and read: serialising valid entries
    succeeds, takes 32 bytes per entry, and parsing gives the same entries in
    the same order. *)
Theorem dir_roundtrip es :
  Forall entry_valid es →
  ∃ b, encode_dir es = Ok b ∧ len b = DIR_ENTRY_SIZE * len es ∧ parse_dir b = Ok es.
Proof. intros Hes. destruct (encode_dir_ok es Hes) as (b & ? & ? & _ & ?). eauto. Qed.

Lemma dir_roundtrip_witness :
  ∃ b, encode_dir [{| d_inode := 7; d_name := str "notes.txt" |}; {| d_inode := 300; d_name := str "bin" |}] = Ok b ∧
       len b = DIR_ENTRY_SIZE * len [{| d_inode := 7; d_name := str "notes.txt" |}; {| d_inode := 300; d_name := str "bin" |}] ∧
       parse_dir b = Ok [{| d_inode := 7; d_name := str "notes.txt" |}; {| d_inode := 300; d_name := str "bin" |}].
Proof.
  apply (dir_roundtrip [{| d_inode := 7; d_name := str "notes.txt" |}; {| d_inode := 300; d_name := str "bin" |}]).
  repeat (apply Forall_cons_2; [split; [simpl; lia|vm_compute; reflexivity]|]). apply Forall_nil_2.
Defined.

(** ** Directories and paths of a memory *)
Section dirs.
Context {V : Type} `{ReliableStore V}.
Context (Hwindow : TOTAL_BLOCKS * SECTORS_PER_BLOCK ≤ swindow).
Context (sb : Superblock) (Hwf : sb_wf sb).
Implicit Types (f g : mem) (i j : Z) (es : list DirectoryEntry).
Abbreviation runs := (runs (V := V)).
Abbreviation inode f i := (decode_inode sb f i).
Abbreviation data f i := (content f (decode_inode sb f i)).

Definition lookup_inode f i : option Inode := if i <? inode_count sb then Some (inode f i) else None.

Definition dir_at f i : result FsError (list DirectoryEntry) :=
  match lookup_inode f i with
  | None => Err NotFound
  | Some ino => if is_dir ino then parse_dir (content f ino) else Err NotDirectory
  end.

Fixpoint walk f (parts : list bytes) i : result FsError Z :=
  match parts with
  | [] => Ok i
  | part :: parts =>
      match dir_at f i with
      | Err e => Err e
      | Ok es =>
          match find_entry part es with
          | None => Err NotFound
          | Some e => walk f parts (d_inode e)
          end
      end
  end.

(** The inode a path names. *)
Definition path_inode f (path : bytes) : result FsError Z :=
  match trim_abs_path path with
  | Err e => Err e
  | Ok p => if bytes_eqb p (str "/") then Ok (root_inode sb) else walk f (components p) (root_inode sb)
  end.

Lemma runs_lookup_inode f i :
  0 ≤ i → runs (read_inode sb i) f (match lookup_inode f i with Some ino => Ok ino | None => Err tt end) f.
Proof.
  intros Hi. unfold lookup_inode. destruct (Z.ltb_spec i (inode_count sb)).
  - by apply runs_read_inode.
  - unfold read_inode. rewrite (proj2 (Z.leb_le _ _)) by done. apply runs_throw.
Qed.

Lemma runs_ok_or_lookup f i (e : FsError) :
  0 ≤ i → runs (ok_or e (read_inode sb i)) f (match lookup_inode f i with Some ino => Ok ino | None => Err e end) f.
Proof.
  intros Hi. pose proof (runs_map_err (λ _, e) _ _ _ _ (runs_lookup_inode f i Hi)) as Hr.
  by destruct (lookup_inode f i).
Qed.

Lemma runs_read_dir_entries f i :
  fs_wf sb f → 0 ≤ i → runs (read_dir_entries sb i) f (dir_at f i) f.
Proof.
  intros Hfs Hi. unfold read_dir_entries, dir_at. pose proof (runs_ok_or_lookup f i NotFound Hi) as Hr.
  destruct (lookup_inode f i) as [ino|] eqn:E; [|by apply runs_bind_err].
  assert (inode_in_range sb i ∧ ino = inode f i) as [Hin ->].
  { unfold lookup_inode in E. destruct (Z.ltb_spec i (inode_count sb)); [|done]. by injection E as <-. }
  eapply runs_bind; [exact Hr|]. destruct (is_dir _) eqn:Ed; simpl; [|apply runs_throw].
  eapply runs_bind; [apply runs_read_inode_bytes; [done|done|by apply Hfs]|]. apply runs_lift_result.
Qed.

Lemma le_val_nonneg l : Forall is_byte l → 0 ≤ le_val l.
Proof. intros. by apply le_val_bound. Qed.

Lemma parse_entries_nonneg fuel b es :
  Forall is_byte b → parse_entries fuel b = Ok es → Forall (λ e, 0 < d_inode e) es.
Proof.
  revert b es. induction fuel as [|fuel IH]; intros b es Hb; simpl; [by intros [= <-]|].
  case_if; [by intros [= <-]|]. unfold parse_entry, read_u32, read_le.
  destruct (0 + 4 <=? len (slice b 0 DIR_ENTRY_SIZE)); [|done].
  set (ino := le_val _). assert (0 ≤ ino) by (by apply le_val_nonneg, slice_is_byte, slice_is_byte).
  destruct ((ino =? 0) || _ || _) eqn:E.
  - destruct (parse_entries fuel _) eqn:E2; [|done]. intros [= <-]. eapply IH; [|exact E2]. by apply Forall_drop.
  - destruct (utf8_valid _); [|done]. destruct (parse_entries fuel _) eqn:E2; [|done]. intros [= <-].
    constructor; [simpl; zbool; lia|]. eapply IH; [|exact E2]. by apply Forall_drop.
Qed.

Lemma content_is_byte f ino : fs_wf sb f → file_wf sb f ino → Forall is_byte (content f ino).
Proof.
  intros Hfs Hf. unfold content. apply slice_is_byte.
  pose proof (data_blocks_data sb f ino Hf) as Hd. induction Hd as [|b l Hb Hl IH]; [constructor|].
  rewrite fmap_cons. cbn [concat]. apply Forall_app. split; [|done].
  pose proof (data_block_end sb Hwf b Hb). pose proof (fs_len_bound sb (swf_total sb Hwf)).
  apply mread_is_byte; [apply Hfs|lia|lia].
Qed.

Lemma dir_at_nonneg f i es :
  fs_wf sb f → 0 ≤ i → dir_at f i = Ok es → Forall (λ e, 0 < d_inode e) es.
Proof.
  intros Hfs Hi. unfold dir_at, lookup_inode. destruct (Z.ltb_spec i (inode_count sb)); [|done].
  case_if; [|done]. apply parse_entries_nonneg. apply content_is_byte; [done|]. by apply Hfs.
Qed.

Lemma runs_resolve_components f parts i :
  fs_wf sb f → 0 ≤ i → runs (resolve_components sb parts i) f (walk f parts i) f ∧ (∀ j, walk f parts i = Ok j → 0 ≤ j).
Proof.
  intros Hfs. revert i. induction parts as [|part parts IH]; intros i Hi; simpl.
  { split; [apply runs_ret|]. by intros j [= <-]. }
  pose proof (runs_ok_or_lookup f i NotFound Hi) as Hl. pose proof (runs_read_dir_entries f i Hfs Hi) as Hr.
  pose proof (dir_at_nonneg f i) as Hpos. unfold dir_at in *.
  destruct (lookup_inode f i) as [ino|]; [|split; [by apply runs_bind_err|done]].
  destruct (is_dir ino) eqn:Ed; [|split; [eapply runs_bind; [exact Hl|]; rewrite Ed; apply runs_throw|done]].
  destruct (parse_dir (content f ino)) as [es|e] eqn:Ep.
  2: { split; [|done]. eapply runs_bind; [exact Hl|]. rewrite Ed. by apply runs_bind_err. }
  specialize (Hpos es Hfs Hi eq_refl).
  destruct (find_entry part es) as [e|] eqn:Ef.
  - assert (0 ≤ d_inode e) as He.
    { apply find_some in Ef as [Hin%list_elem_of_In _]. rewrite Forall_forall in Hpos. specialize (Hpos e Hin). lia. }
    destruct (IH (d_inode e) He) as [HR Hj]. split; [|done].
    eapply runs_bind; [exact Hl|]. rewrite Ed. eapply runs_bind; [exact Hr|].
    eapply runs_bind; [rewrite Ef; apply runs_lift_result|exact HR].
  - split; [|done]. eapply runs_bind; [exact Hl|]. rewrite Ed. eapply runs_bind; [exact Hr|].
    rewrite Ef. apply runs_bind_err, runs_lift_result.
Qed.

Lemma runs_resolve_path f path :
  fs_wf sb f → 0 ≤ root_inode sb →
  runs (resolve_path sb path) f (path_inode f path) f ∧ (∀ j, path_inode f path = Ok j → 0 ≤ j).
Proof.
  intros Hfs Hroot. unfold resolve_path, path_inode. destruct (trim_abs_path path) as [p|e].
  - case_if as E.
    + split; [eapply runs_bind; [apply runs_lift_result|]; rewrite E; apply runs_ret|]. by intros j [= <-].
    + destruct (runs_resolve_components f (components p) (root_inode sb) Hfs Hroot) as [HR Hj]. split; [|done].
      eapply runs_bind; [apply runs_lift_result|]. by rewrite E.
  - split; [apply runs_bind_err, runs_lift_result|done].
Qed.
End dirs.

(** ** Allocating and freeing inodes *)
Section inodes.
Context {V : Type} `{ReliableStore V}.
Context (Hwindow : TOTAL_BLOCKS * SECTORS_PER_BLOCK ≤ swindow).
Context (sb : Superblock) (Hwf : sb_wf sb).
Implicit Types (f g : mem) (i j : Z) (es : list DirectoryEntry).
Abbreviation runs := (runs (V := V)).
Abbreviation inode f i := (decode_inode sb f i).

(** [fs_wf], and free inodes own nothing. *)
Record fs_ok f : Prop := {
  ok_wf : fs_wf sb f;
  ok_root : inode_in_range sb (root_inode sb);
  ok_free i : inode_in_range sb i → kind (inode f i) = KIND_FREE → owned f (inode f i) = [] }.

(** An inode without blocks. *)
Definition empty_inode (ino : Inode) : Prop :=
  size ino = 0 ∧ indirect ino = 0 ∧ inode_ok ino.

Lemma empty_owned f ino : size ino = 0 → indirect ino = 0 → owned f ino = [] ∧ content f ino = [].
Proof.
  intros Hs Hi. unfold owned, content, data_blocks, ind_entries, nblocks, blocks_needed. rewrite Hs, Hi.
  change ((0 + BLOCK_SIZE - 1) / BLOCK_SIZE) with 0. rewrite seqZ_nil by done. done.
Qed.

Lemma empty_file_wf f ino : empty_inode ino → file_wf sb f ino.
Proof.
  intros (Hs & Hi & Hok). destruct (empty_owned f ino Hs Hi) as [Ho _].
  split; rewrite ?Ho; [rewrite Hs; done|apply Hok| |constructor|constructor].
  unfold nblocks, blocks_needed. rewrite Hs. done.
Qed.

(** Overwriting inode [i] of [f] with an empty one, after its blocks were freed in [h]. *)
Lemma fs_ok_empty_inode f h i ino :
  fs_ok f → inode_in_range sb i → empty_inode ino → freed sb (owned f (inode f i)) f h →
  let g := mwrite h (inode_off sb i) (encode_inode ino) in
  fs_ok g ∧ inode g i = stored ino ∧ content g (inode g i) = [] ∧ same_used sb h g ∧
  ∀ j, inode_in_range sb j → j ≠ i → unchanged sb f g j.
Proof.
  intros [Hfs Hroot Hfree] Hi Hemp [(Hlow & Hby & Hsame) Hu] g. destruct Hemp as (Hs & Hind & Hok).
  destruct (inode_write_same sb Hwf i ino h Hi (iok_direct_len _ Hok) (iok_kind _ Hok)) as (Wu & Ws & Wb & Wd & W0).
  assert (inode g i = stored ino) as Ei by (unfold decode_inode, g; by rewrite decode_encode_at).
  assert (empty_inode (stored ino)) as Hemp'.
  { split_and!; [done|done|]. rewrite <- Ei. apply (decode_ok sb Hwf); [|done]. apply Wb, Hby, Hfs. }
  destruct (empty_owned g (stored ino)) as [Eo Ec]; [done..|].
  assert (∀ j, inode_in_range sb j → j ≠ i → inode g j = inode f j) as Hj
    by (intros j ? ?; rewrite Wd by done; by apply (decode_low_same sb Hwf)).
  destruct (fs_wf_update sb f g i []) as [Hwfg Hcont];
    [done|by apply Wb, Hby, Hfs|by apply (super_same_trans f h); [apply (low_same_super sb Hwf)|]|done|done|..].
  { by intros b Hb%not_elem_of_nil. }
  { intros b Hb Hn. unfold g. by rewrite Ws, Hsame. }
  { rewrite Ei. by apply empty_file_wf. }
  { intros b. by rewrite Ei, Eo. }
  { intros c Hc. destruct (data_block_range sb Hwf c Hc) as (_ & Hr & _). unfold g. rewrite Wu, Hu by done.
    unfold inb at 2. by rewrite orb_false_r. }
  split_and!; [split| | | |].
  - done.
  - done.
  - intros j Hjr Hk. destruct (decide (j = i)) as [->|Hne]; [by rewrite Ei|].
    rewrite (Hj j Hjr Hne) in Hk |- *.
    destruct (file_same sb f g (inode f j) []) as (-> & _); [by apply Hfs| |by intros b _ ?%not_elem_of_nil|by apply Hfree].
    intros b Hb Hn. unfold g. by rewrite Ws, Hsame.
  - done.
  - by rewrite Ei.
  - done.
  - intros j Hjr Hne. split; [by apply Hj|by apply Hcont].
Qed.

Lemma free_list_same f g : same_used sb f g → free_list sb g = free_list sb f.
Proof.
  intros Hu. apply filter_ext_in. intros c Hc. f_equal. apply Hu.
  pose proof (all_data_blocks sb) as Hall. rewrite Forall_forall in Hall.
  apply (data_block_range sb Hwf), Hall. by apply list_elem_of_In.
Qed.

Lemma Inode_free_empty : empty_inode Inode_free ∧ stored Inode_free = Inode_free.
Proof. split; [|reflexivity]. split_and!; [done..|]. split; try done. apply Forall_replicate. done. Qed.

Lemma new_inode_empty k uid gid mode :
  is_byte k → u32 uid → u32 gid → 0 ≤ mode → empty_inode (Inode_new_with_metadata k uid gid mode).
Proof.
  intros Hk Hu Hg Hm. split_and!; [done..|]. split; cbn [kind size direct indirect i_uid i_gid i_mode Inode_new_with_metadata]; try done.
  - apply Forall_replicate. done.
  - change MODE_MASK with (Z.ones 9). rewrite Z.land_ones by lia. pose proof (Z.mod_pos_bound mode (2 ^ 9) ltac:(lia)). lia.
Qed.

Lemma runs_free_inode f i :
  fs_ok f → inode_in_range sb i →
  ∃ g, runs (free_inode sb i) f (Ok tt) g ∧ fs_ok g ∧ inode g i = Inode_free ∧
       ∀ j, inode_in_range sb j → j ≠ i → unchanged sb f g j.
Proof.
  intros Hfs Hi. pose proof (wf_files _ _ (ok_wf f Hfs) i Hi) as Hf. destruct Inode_free_empty as [Hemp Hst].
  destruct (runs_free_old Hwindow sb Hwf (inode f i) f f Hf) as (h & Hh & Hfr).
  destruct (fs_ok_empty_inode f h i Inode_free Hfs Hi Hemp Hfr) as (Hok & Ei & _ & _ & Hj). rewrite Hst in Ei.
  eexists. split_and!; [|exact Hok|exact Ei|exact Hj].
  eapply runs_bind; [by apply runs_ok_or, runs_read_inode|]. cbv beta.
  eapply runs_bind; [by apply runs_inode_data_blocks|]. cbv beta.
  apply runs_bind_assoc. eapply runs_bind; [exact Hh|].
  apply runs_write_inode; [done|done|done|done|apply Hemp].
Qed.

Definition first_free f (idxs : list Z) : option Z := List.find (λ i, kind (inode f i) =? KIND_FREE) idxs.

Lemma runs_alloc_inode_in f idxs k uid gid mode :
  Forall (inode_in_range sb) idxs → is_byte k →
  match first_free f idxs with
  | None => runs (alloc_inode_in sb idxs k uid gid mode) f (Err NoSpace) f
  | Some i => runs (alloc_inode_in sb idxs k uid gid mode) f (Ok i)
                (mwrite f (inode_off sb i) (encode_inode (Inode_new_with_metadata k uid gid mode)))
  end.
Proof.
  intros Hidx Hk. induction Hidx as [|i idxs Hi Hidx IH]; [apply runs_throw|].
  assert (runs (attempt (E' := FsError) (read_inode sb i)) f (Ok (Ok (inode f i))) f) as Hr
    by (by apply runs_attempt, runs_read_inode).
  unfold first_free in *. cbn [List.find alloc_inode_in]. destruct (kind (inode f i) =? KIND_FREE) eqn:E.
  - eapply runs_bind; [exact Hr|]. cbv beta iota. rewrite E.
    eapply runs_bind; [apply runs_write_inode; done|]. apply runs_ret.
  - destruct (List.find _ idxs); (eapply runs_bind; [exact Hr|]; cbv beta iota; by rewrite E).
Qed.

Lemma first_free_spec f idxs i :
  first_free f idxs = Some i → i ∈ idxs ∧ kind (inode f i) = KIND_FREE.
Proof. intros [Hin Hk]%find_some. split; [by apply list_elem_of_In|lia]. Qed.

Definition candidates : list Z := seqZ 1 (inode_count sb - 1).

Lemma runs_alloc_inode f k uid gid mode :
  fs_ok f → is_byte k → u32 uid → u32 gid → 0 ≤ mode →
  match first_free f candidates with
  | None => runs (alloc_inode_with_metadata sb k uid gid mode) f (Err NoSpace) f
  | Some i =>
      inode_in_range sb i ∧ 0 < i ∧ kind (inode f i) = KIND_FREE ∧
      ∃ g, runs (alloc_inode_with_metadata sb k uid gid mode) f (Ok i) g ∧ fs_ok g ∧
        inode g i = stored (Inode_new_with_metadata k uid gid mode) ∧ content g (inode g i) = [] ∧
        free_list sb g = free_list sb f ∧
        ∀ j, inode_in_range sb j → j ≠ i → unchanged sb f g j
  end.
Proof.
  intros Hfs Hk Hu Hg Hm.
  assert (Forall (inode_in_range sb) candidates) as Hc.
  { apply Forall_forall. intros i Hi%elem_of_seqZ. unfold inode_in_range. lia. }
  pose proof (runs_alloc_inode_in f candidates k uid gid mode Hc Hk) as Hr.
  destruct (first_free f candidates) as [i|] eqn:E; [|done].
  apply first_free_spec in E as [Hin Hfree]. pose proof Hin as Hpos%elem_of_seqZ.
  rewrite Forall_forall in Hc. specialize (Hc i Hin). split_and!; [done|lia|done|].
  destruct (fs_ok_empty_inode f f i (Inode_new_with_metadata k uid gid mode) Hfs Hc) as (Hok & Ei & Ec & Hu' & Hj);
    [by apply new_inode_empty| |].
  { rewrite (ok_free f Hfs i Hc Hfree). apply freed_nil. }
  eexists. split_and!; [exact Hr|exact Hok|exact Ei|exact Ec|by apply free_list_same|exact Hj].
Qed.
End inodes.

(** ** The directory tree *)
Section tree.
Context {V : Type} `{ReliableStore V}.
Context (Hwindow : TOTAL_BLOCKS * SECTORS_PER_BLOCK ≤ swindow).
Context (sb : Superblock) (Hwf : sb_wf sb).
Implicit Types (f g : mem) (i j P : Z) (es : list DirectoryEntry).
Abbreviation runs := (runs (V := V)).
Abbreviation inode f i := (decode_inode sb f i).
Abbreviation dir_at := (dir_at sb).

(** No two entries of a directory have the same name, up to case. *)
Definition names_distinct es : Prop := NoDup ((fold_name ∘ d_name) <$> es).

(** Every directory is readable, its entries are valid and distinct, every
    entry names a live inode other than the root, and no inode is linked twice. *)
Record tree_ok f : Prop := {
  tree_fs : fs_ok sb f;
  tree_root : is_dir (inode f (root_inode sb)) = true;
  tree_dirs i : inode_in_range sb i → is_dir (inode f i) = true →
    ∃ es, dir_at f i = Ok es ∧ Forall entry_valid es ∧ names_distinct es;
  tree_live i es e : inode_in_range sb i → dir_at f i = Ok es → e ∈ es →
    inode_in_range sb (d_inode e) ∧ kind (inode f (d_inode e)) ≠ KIND_FREE ∧ d_inode e ≠ root_inode sb;
  tree_once i i' es es' k k' e e' :
    inode_in_range sb i → inode_in_range sb i' → dir_at f i = Ok es → dir_at f i' = Ok es' →
    es !! k = Some e → es' !! k' = Some e' → d_inode e = d_inode e' → i = i' ∧ k = k' }.

Lemma dir_at_in f i : inode_in_range sb i → dir_at f i = if is_dir (inode f i) then parse_dir (content f (inode f i)) else Err NotDirectory.
Proof. intros Hi. unfold CoolDir.dir_at, lookup_inode. by rewrite (proj2 (Z.ltb_lt _ _)) by apply Hi. Qed.

Lemma dir_at_range f i es : 0 ≤ i → dir_at f i = Ok es → inode_in_range sb i ∧ is_dir (inode f i) = true.
Proof.
  intros Hi. unfold CoolDir.dir_at, lookup_inode. destruct (Z.ltb_spec i (inode_count sb)); [|done].
  case_if; [|done]. done.
Qed.

Lemma unchanged_dir f g i : inode_in_range sb i → unchanged sb f g i → dir_at g i = dir_at f i.
Proof. intros Hi [Ei Ec]. by rewrite !dir_at_in, Ec, Ei. Qed.

Lemma empty_of_owned f ino : file_wf sb f ino → owned f ino = [] → size ino = 0 ∧ indirect ino = 0.
Proof.
  intros Hf Ho. pose proof (len_data_blocks sb f ino Hf) as Hl. unfold owned in Ho.
  apply app_eq_nil in Ho as [Hd Hi]. rewrite Hd in Hl. change (len []) with 0 in Hl.
  destruct Hf as [Hs _ _ _ _]. destruct (blocks_needed_bounds (size ino)) as (? & ? & ?); [lia|].
  unfold nblocks, BLOCK_SIZE in *. split; [lia|]. destruct (Z.eqb_spec (indirect ino) 0); done.
Qed.

(** Is there room to rewrite a directory of [n] entries? *)
Definition dir_fits f (n : Z) : Prop :=
  DIR_ENTRY_SIZE * n ≤ MAX_FILE ∧
  blocks_total (blocks_needed (DIR_ENTRY_SIZE * n)) ≤ len (free_list sb f).
#[global] Instance dir_fits_dec f n : Decision (dir_fits f n).
Proof. unfold dir_fits. apply _. Defined.

(** What rewriting a file or directory keeps of its inode. *)
Definition same_meta (a b : Inode) : Prop :=
  kind b = kind a ∧ i_uid b = i_uid a ∧ i_gid b = i_gid a ∧ i_mode b = i_mode a.

(** Rewriting one directory. *)
Lemma runs_write_dir f P es :
  fs_ok sb f → inode_in_range sb P → is_dir (inode f P) = true → Forall entry_valid es →
  ∃ r g, runs (write_dir_entries sb P es) f r g ∧ fs_ok sb g ∧
    (∀ j, inode_in_range sb j → j ≠ P → unchanged sb f g j) ∧
    if decide (dir_fits f (len es))
    then r = Ok tt ∧ dir_at g P = Ok es ∧ same_meta (inode f P) (inode g P) ∧
         own_len (inode g P) = blocks_total (blocks_needed (DIR_ENTRY_SIZE * len es))
    else r = Err NoSpace ∧ unchanged sb f g P.
Proof.
  intros Hok HP Hdir Hes. destruct (encode_dir_ok es Hes) as (b & Eb & Hl & Hb & Hp).
  destruct (runs_write_inode_bytes Hwindow sb Hwf f P b (ok_wf _ _ Hok) HP Hb) as (r & g & Hr & Hwfg & Hj & Hpost).
  rewrite Hl in Hpost. exists r, g.
  assert (same_meta (inode f P) (inode g P)) as Hmeta.
  { destruct (decide _); [by destruct Hpost as (_ & _ & N & ind & _ & ->)|by destruct Hpost as (_ & -> & _)]. }
  pose proof (proj1 Hmeta) as HkP.
  split_and!.
  - unfold write_dir_entries. rewrite Eb. eapply runs_bind; [apply runs_lift_result|exact Hr].
  - split; [done|apply Hok|]. intros i Hi Hk. destruct (decide (i = P)) as [->|Hne].
    { unfold is_dir in Hdir. rewrite HkP in Hk. rewrite Hk in Hdir. done. }
    destruct (Hj i Hi Hne) as [Ei _]. rewrite Ei in *.
    destruct (empty_of_owned f (inode f i)) as [Es Eind]; [by apply Hok|by apply Hok|].
    by apply empty_owned.
  - done.
  - unfold dir_fits. destruct (decide (_ ∧ _)) in Hpost; [rewrite decide_True by done|by rewrite decide_False by done].
    destruct Hpost as (-> & Hc & N & ind & Hind & Ei). split_and!; [done| |done|].
    + rewrite dir_at_in by done. unfold is_dir in *. by rewrite HkP, Hdir, Hc.
    + rewrite Ei. unfold own_len, blocks_total, nblocks. cbn [size indirect with_blocks].
      destruct (Z.eqb_spec ind 0), (Z.ltb_spec DIRECT_BLOCKS (blocks_needed (DIR_ENTRY_SIZE * len es))); naive_solver lia.
Qed.

(** One directory [P] and one inode [i] change; [i] is linked from nowhere else. *)
Lemma tree_ok_update f g P i es es' :
  tree_ok f → fs_ok sb g → inode_in_range sb P → i ≠ P → i ≠ root_inode sb → dir_at f P = Ok es → dir_at g P = Ok es' →
  kind (inode g P) ≠ KIND_FREE →
  Forall entry_valid es' → names_distinct es' → NoDup (d_inode <$> es') →
  (∀ e, e ∈ es' → inode_in_range sb (d_inode e) ∧ kind (inode g (d_inode e)) ≠ KIND_FREE ∧ d_inode e ≠ root_inode sb) →
  (∀ e, e ∈ es' → d_inode e ∈ d_inode <$> es ∨ d_inode e = i) →
  (∀ j ej e, inode_in_range sb j → j ≠ P → dir_at f j = Ok ej → e ∈ ej → d_inode e ≠ i) →
  (∀ j, inode_in_range sb j → j ≠ P → j ≠ i → unchanged sb f g j) →
  (inode_in_range sb i → is_dir (inode g i) = true → dir_at g i = Ok []) →
  tree_ok g.
Proof.
  intros Hf Hg HP HiP Hiroot HdP HdP' HkP Hval Hnames Hnd Hlive Hsub Helse Hsame Hi.
  assert (∀ j ej, inode_in_range sb j → dir_at g j = Ok ej →
    (j = P ∧ ej = es') ∨ ej = [] ∨ (j ≠ P ∧ j ≠ i ∧ dir_at f j = Ok ej)) as Hcase.
  { intros j ej Hj Hd. destruct (decide (j = P)) as [->|Hne]; [left; split; [done|congruence]|right].
    destruct (decide (j = i)) as [->|Hni].
    - left. pose proof (dir_at_range g i ej ltac:(apply Hj) Hd) as [_ Hdir]. rewrite (Hi Hj Hdir) in Hd. by injection Hd as <-.
    - right. split_and!; [done..|]. by rewrite <- (unchanged_dir f g j Hj (Hsame j Hj Hne Hni)). }
  assert (∀ e j ej e', e ∈ es' → inode_in_range sb j → j ≠ P → dir_at f j = Ok ej → e' ∈ ej →
    d_inode e ≠ d_inode e') as Hcross.
  { intros e j ej e' He Hj Hne Hd He' Heq. destruct (Hsub e He) as [Hin|Heqi].
    - apply list_elem_of_fmap in Hin as (e0 & E0 & He0). rewrite E0 in Heq.
      apply list_elem_of_lookup in He0 as [k Hk]. apply list_elem_of_lookup in He' as [k' Hk'].
      by destruct (tree_once f Hf P j es ej k k' e0 e') as [? _].
    - apply (Helse j ej e' Hj Hne Hd He'). congruence. }
  split.
  - done.
  - destruct (decide (root_inode sb = P)) as [->|HrP]; [by apply (dir_at_range g P es'); [apply HP|]|].
    destruct (Hsame (root_inode sb)) as [-> _]; [apply Hg|done|done|apply Hf].
  - intros j Hj Hdir. destruct (decide (j = P)) as [->|Hne]; [by eauto|].
    destruct (decide (j = i)) as [->|Hni].
    + rewrite (Hi Hj Hdir). exists []. split_and!; [done|constructor|constructor].
    + pose proof (Hsame j Hj Hne Hni) as Hu. rewrite (unchanged_dir f g j Hj Hu). destruct Hu as [Ej _].
      rewrite Ej in Hdir. by apply (tree_dirs f Hf).
  - intros j ej e Hj Hd He. destruct (Hcase j ej Hj Hd) as [[-> ->]|[->|(Hne & Hni & Hdf)]];
      [by apply Hlive|by apply not_elem_of_nil in He|].
    destruct (tree_live f Hf j ej e Hj Hdf He) as (Hr & Hk & Hroot). split_and!; [done| |done].
    destruct (decide (d_inode e = P)) as [->|HneP]; [done|].
    destruct (Hsame (d_inode e) Hr HneP (Helse j ej e Hj Hne Hdf He)) as [Ee _]. by rewrite Ee.
  - intros j j' ej ej' k k' e e' Hj Hj' Hd Hd' Hk Hk' Heq.
    pose proof (list_elem_of_lookup_2 _ _ _ Hk) as He. pose proof (list_elem_of_lookup_2 _ _ _ Hk') as He'.
    destruct (Hcase j ej Hj Hd) as [[-> ->]|[->|(Hne & Hni & Hdf)]]; [|done|];
      destruct (Hcase j' ej' Hj' Hd') as [[-> ->]|[->|(Hne' & Hni' & Hdf')]]; try done.
    + split; [done|]. eapply NoDup_lookup; [exact Hnd|rewrite list_lookup_fmap, Hk; done|].
      rewrite list_lookup_fmap, Hk'. csimpl. by rewrite Heq.
    + by destruct (Hcross e j' ej' e').
    + by destruct (Hcross e' j ej e).
    + by apply (tree_once f Hf j j' ej ej' k k' e e').
Qed.

Lemma tree_dir f P es :
  tree_ok f → inode_in_range sb P → dir_at f P = Ok es →
  is_dir (inode f P) = true ∧ Forall entry_valid es ∧ names_distinct es ∧ NoDup (d_inode <$> es).
Proof.
  intros Hf HP Hd. destruct (dir_at_range f P es ltac:(apply HP) Hd) as [_ Hdir].
  destruct (tree_dirs f Hf P HP Hdir) as (es' & Hd' & Hv & Hn). rewrite Hd in Hd'. injection Hd' as <-.
  split_and!; [done..|]. apply NoDup_alt. intros k k' i Hk Hk'.
  rewrite list_lookup_fmap in Hk, Hk'. destruct (es !! k) as [e|] eqn:Ek; [|done].
  destruct (es !! k') as [e'|] eqn:Ek'; [|done]. csimpl in *.
  by destruct (tree_once f Hf P P es es k k' e e') as [_ ?]; [..|congruence|].
Qed.

Definition all_unchanged f g : Prop := ∀ j, inode_in_range sb j → unchanged sb f g j.

(** The directory, name and current entries an operation on [path] works on. *)
Definition target_dir f (path : bytes) : result FsError (Z * bytes * list DirectoryEntry) :=
  match split_parent_and_name path with
  | Err e => Err e
  | Ok (parent, name) =>
      match path_inode sb f parent with
      | Err e => Err e
      | Ok P => match dir_at f P with Err e => Err e | Ok es => Ok (P, name, es) end
      end
  end.

Lemma target_dir_ok f path P name es :
  tree_ok f → target_dir f path = Ok (P, name, es) →
  inode_in_range sb P ∧ dir_at f P = Ok es ∧ validate_name name = Ok tt ∧
  ∃ parent, split_parent_and_name path = Ok (parent, name) ∧ path_inode sb f parent = Ok P.
Proof.
  intros Hf. pose proof (ok_root _ _ (tree_fs f Hf)) as Hroot. unfold target_dir.
  destruct (split_parent_and_name path) as [[parent nm]|] eqn:Es; [|done].
  destruct (path_inode sb f parent) as [Q|] eqn:Ep; [|done].
  destruct (dir_at f Q) as [es'|] eqn:Ed; [|done]. intros [= -> -> ->].
  destruct (runs_resolve_path Hwindow sb Hwf f parent (ok_wf _ _ (tree_fs f Hf)) ltac:(apply Hroot)) as [_ Hpos].
  destruct (dir_at_range f P es (Hpos P Ep) Ed) as [HP _]. split_and!; [done|done| |by eauto].
  unfold split_parent_and_name in Es. destruct (trim_abs_path path); [|done].
  destruct (bytes_eqb _ _); [done|]. destruct (rsplit _) as [[before nm]|]; [|done].
  destruct (validate_name nm) as [[]|] eqn:Ev; [|done]. injection Es as _ <-. done.
Qed.

(** The common prefix of the operations on a directory entry. *)
Definition with_target {B} (path : bytes) (k : Z → bytes → list DirectoryEntry → ST (Cached V) FsError B) :
    ST (Cached V) FsError B :=
  let! (parent_path, name) := lift_result (split_parent_and_name path) in
  let! parent_inode := resolve_path sb parent_path in
  let! entries := read_dir_entries sb parent_inode in
  k parent_inode name entries.

Lemma runs_with_target {B} f path (k : Z → bytes → list DirectoryEntry → ST (Cached V) FsError B) :
  tree_ok f →
  match target_dir f path with
  | Err e => runs (with_target path k) f (Err e) f
  | Ok (P, name, es) => ∀ r g, runs (k P name es) f r g → runs (with_target path k) f r g
  end.
Proof.
  intros Hf. pose proof (ok_root _ _ (tree_fs f Hf)) as Hroot. pose proof (ok_wf _ _ (tree_fs f Hf)) as Hfs.
  unfold target_dir, with_target.
  destruct (split_parent_and_name path) as [[parent nm]|]; [|apply runs_bind_err, runs_lift_result].
  destruct (runs_resolve_path Hwindow sb Hwf f parent Hfs ltac:(apply Hroot)) as [HR Hpos].
  destruct (path_inode sb f parent) as [P|] eqn:Ep.
  - pose proof (runs_read_dir_entries Hwindow sb Hwf f P Hfs (Hpos P eq_refl)) as Hd.
    destruct (dir_at f P) as [es|]; [intros r g Hk|];
      (eapply runs_bind; [apply runs_lift_result|]; eapply runs_bind; [exact HR|]).
    + eapply runs_bind; [exact Hd|exact Hk].
    + by apply runs_bind_err.
  - eapply runs_bind; [apply runs_lift_result|]. by apply runs_bind_err.
Qed.

Lemma inode_u32 i : inode_in_range sb i → 0 ≤ i < 2 ^ 32.
Proof.
  intros Hi. pose proof (inode_off_bound sb Hwf i Hi). pose proof (bitmap_below_fs sb Hwf).
  pose proof (fs_len_bound sb (swf_total sb Hwf)). destruct Hwf.
  unfold inode_in_range, inode_off, VOLUME, TOTAL_BLOCKS, BLOCK_SIZE, INODE_SIZE in *. lia.
Qed.

Lemma split_validates path parent name :
  split_parent_and_name path = Ok (parent, name) → validate_name name = Ok tt.
Proof.
  unfold split_parent_and_name. destruct (trim_abs_path path); [|done].
  destruct (bytes_eqb _ _); [done|]. destruct (rsplit _) as [[before nm]|]; [|done].
  destruct (validate_name nm) as [[]|] eqn:Ev; [|done]. by intros [= _ <-].
Qed.

Definition create_in (k uid gid mode : Z) (P : Z) (name : bytes) es : ST (Cached V) FsError unit :=
  if has_name name es then throw AlreadyExists else
  let! i := alloc_inode_with_metadata sb k uid gid mode in
  let! r := attempt (write_dir_entries sb P (es ++ [{| d_inode := i; d_name := name |}])) in
  match r with
  | Err err => attempt (E' := FsError) (free_inode sb i) ;;! throw err
  | Ok _ => ret tt
  end.

Lemma create_node_eq path k uid gid mode s :
  create_node_image sb path k uid gid mode s = with_target path (create_in k uid gid mode) s.
Proof.
  unfold create_node_image, with_target. destruct (split_parent_and_name path) as [[pp name]|] eqn:E; [|done].
  apply split_validates in E. unfold bind at 1 2 5. unfold lift_result. cbn beta iota. by rewrite E.
Qed.

Lemma names_equal_fold a b : names_equal a b = true ↔ fold_name a = fold_name b.
Proof. apply bytes_eqb_eq. Qed.

Lemma has_name_false name es :
  has_name name es = false → fold_name name ∉ (fold_name ∘ d_name) <$> es.
Proof.
  intros Hn (e & E & He)%list_elem_of_fmap. unfold has_name in Hn.
  rewrite <- not_true_iff_false, existsb_exists in Hn. apply Hn.
  exists e. split; [by apply list_elem_of_In|]. by apply names_equal_fold.
Qed.

Lemma names_distinct_snoc es e :
  names_distinct es → has_name (d_name e) es = false → names_distinct (es ++ [e]).
Proof.
  intros Hd Hn. unfold names_distinct. rewrite fmap_app. apply NoDup_app.
  split_and!; [done| |apply NoDup_singleton]. intros x Hx ->%list_elem_of_singleton.
  by apply has_name_false in Hn.
Qed.

(** What creating a node at [path] does, case by case. *)
Definition create_post f path (k uid gid mode : Z) (r : result FsError unit) g : Prop :=
  match target_dir f path with
  | Err e => r = Err e ∧ all_unchanged f g
  | Ok (P, name, es) =>
      if has_name name es then r = Err AlreadyExists ∧ all_unchanged f g else
      match first_free sb f (candidates sb) with
      | None => r = Err NoSpace ∧ all_unchanged f g
      | Some i =>
          (∀ j, inode_in_range sb j → j ≠ P → j ≠ i → unchanged sb f g j) ∧
          if decide (dir_fits f (len es + 1)) then
            r = Ok tt ∧ dir_at g P = Ok (es ++ [{| d_inode := i; d_name := name |}]) ∧
            same_meta (inode f P) (inode g P) ∧
            inode g i = stored (Inode_new_with_metadata k uid gid mode) ∧ content g (inode g i) = []
          else r = Err NoSpace ∧ unchanged sb f g P ∧ inode g i = Inode_free
      end
  end.

Lemma unchanged_trans f g h i : unchanged sb f g i → unchanged sb g h i → unchanged sb f h i.
Proof. intros [E1 E2] [E3 E4]. split; congruence. Qed.

Lemma dir_not_free f i : is_dir (inode f i) = true → kind (inode f i) ≠ KIND_FREE.
Proof. unfold is_dir. intros Hd Hk. by rewrite Hk in Hd. Qed.

(** The tree after a directory got one more entry for the new inode [i]. *)
Lemma tree_ok_create f g P i es name :
  tree_ok f → fs_ok sb g → inode_in_range sb P → dir_at f P = Ok es →
  inode_in_range sb i → 0 < i → i ≠ root_inode sb → kind (inode f i) = KIND_FREE → validate_name name = Ok tt → has_name name es = false →
  dir_at g P = Ok (es ++ [{| d_inode := i; d_name := name |}]) → kind (inode g P) = kind (inode f P) →
  kind (inode g i) ≠ KIND_FREE → content g (inode g i) = [] →
  (∀ j, inode_in_range sb j → j ≠ P → j ≠ i → unchanged sb f g j) → tree_ok g.
Proof.
  intros Hf Hg HP HdP Hi Hpos Hroot Hfree Hname Hnew HdP' HkP Hki Hci Hsame.
  destruct (tree_dir f P es Hf HP HdP) as (Hdir & Hv & Hn & Hnd).
  assert (i ≠ P) as HiP by (intros ->; by apply dir_not_free in Hdir).
  assert (∀ e, e ∈ es → d_inode e ≠ i) as Hni.
  { intros e He <-. by destruct (tree_live f Hf P es e HP HdP He) as (_ & ? & _). }
  eapply (tree_ok_update f g P i es); [done..|exact HdP'|rewrite HkP; by apply dir_not_free| | | | | | |done|].
  - apply Forall_app. split; [done|]. apply Forall_singleton. split; [simpl|done].
    pose proof (inode_u32 i Hi). lia.
  - by apply names_distinct_snoc.
  - rewrite fmap_app. apply NoDup_app. split_and!; [done| |apply NoDup_singleton].
    intros x (e & -> & He)%list_elem_of_fmap. csimpl. intros Hx%list_elem_of_singleton. by apply (Hni e).
  - intros e [He| ->%list_elem_of_singleton]%elem_of_app; [|done].
    destruct (tree_live f Hf P es e HP HdP He) as (Hr & Hk & Hro). split_and!; [done| |done].
    destruct (decide (d_inode e = P)) as [->|HneP]; [rewrite HkP; by apply dir_not_free|].
    destruct (Hsame _ Hr HneP (Hni e He)) as [-> _]. done.
  - intros e [He| ->%list_elem_of_singleton]%elem_of_app; [left; apply list_elem_of_fmap; eauto|by right].
  - intros j ej e Hj _ Hd He <-. by destruct (tree_live f Hf j ej e Hj Hd He) as (_ & ? & _).
  - intros _ Hdi. rewrite dir_at_in, Hdi, Hci by done. done.
Qed.

Lemma all_unchanged_refl f : all_unchanged f f.
Proof. done. Qed.

(** The entries of [P] are as in [f], and [i] went back to being free. *)
Lemma tree_ok_rollback f g P i es :
  tree_ok f → fs_ok sb g → inode_in_range sb P → dir_at f P = Ok es → i ≠ P → i ≠ root_inode sb →
  kind (inode f i) = KIND_FREE → inode g i = Inode_free → unchanged sb f g P →
  (∀ j, inode_in_range sb j → j ≠ P → j ≠ i → unchanged sb f g j) → tree_ok g.
Proof.
  intros Hf Hg HP HdP HiP Hir Hfree Hi HuP Hsame.
  destruct (tree_dir f P es Hf HP HdP) as (Hdir & Hv & Hn & Hnd). pose proof HuP as [EP _].
  assert (∀ j ej e, inode_in_range sb j → dir_at f j = Ok ej → e ∈ ej → d_inode e ≠ i) as Hni.
  { intros j ej e Hj Hd He <-. by destruct (tree_live f Hf j ej e Hj Hd He) as (_ & ? & _). }
  eapply (tree_ok_update f g P i es es); [done..| | |done|done|done| | | |done|].
  - by rewrite (unchanged_dir f g P HP HuP).
  - rewrite EP. by apply dir_not_free.
  - intros e He. destruct (tree_live f Hf P es e HP HdP He) as (Hr & Hk & Hro). split_and!; [done| |done].
    destruct (decide (d_inode e = P)) as [->|HneP]; [rewrite EP; by apply dir_not_free|].
    destruct (Hsame _ Hr HneP (Hni P es e HP HdP He)) as [-> _]. done.
  - intros e He. left. apply list_elem_of_fmap. eauto.
  - intros j ej e Hj _. by apply Hni.
  - intros _. by rewrite Hi.
Qed.

Lemma runs_create_node f path k uid gid mode :
  tree_ok f → k = KIND_FILE ∨ k = KIND_DIR → u32 uid → u32 gid → 0 ≤ mode →
  ∃ r g, runs (create_node_image sb path k uid gid mode) f r g ∧ tree_ok g ∧
         create_post f path k uid gid mode r g.
Proof.
  intros Hf Hk Hu Hgi Hm. pose proof (tree_fs f Hf) as Hfs. unfold create_post.
  assert (∀ r g, runs (with_target path (create_in k uid gid mode)) f r g →
                 runs (create_node_image sb path k uid gid mode) f r g) as Heq.
  { intros r g Hr s Hs. rewrite create_node_eq. by apply Hr. }
  pose proof (runs_with_target f path (create_in k uid gid mode) Hf) as Hw.
  destruct (target_dir f path) as [[[P name] es]|e] eqn:Et;
    [|exists (Err e), f; split_and!; [by apply Heq|done|done|done]].
  destruct (target_dir_ok f path P name es Hf Et) as (HP & HdP & Hval & _).
  destruct (tree_dir f P es Hf HP HdP) as (Hdir & Hv & _ & _).
  destruct (has_name name es) eqn:Hnm.
  { exists (Err AlreadyExists), f. split_and!; [|done|done|done]. apply Heq, Hw. unfold create_in. rewrite Hnm. apply runs_throw. }
  assert (is_byte k) as Hkb by (destruct Hk as [-> | ->]; done).
  pose proof (runs_alloc_inode Hwindow sb Hwf f k uid gid mode Hfs Hkb Hu Hgi Hm) as Ha.
  destruct (first_free sb f (candidates sb)) as [i|].
  2: { exists (Err NoSpace), f. split_and!; [|done|done|done]. apply Heq, Hw. unfold create_in. rewrite Hnm. by apply runs_bind_err. }
  destruct Ha as (Hi & Hipos & Hifree & g1 & Hr1 & Hok1 & Ei1 & Ec1 & Efl & Hsame1).
  assert (i ≠ P) as HiP by (intros ->; by apply dir_not_free in Hdir).
  assert (i ≠ root_inode sb) as Hir by (intros ->; by destruct (dir_not_free f _ (tree_root f Hf))).
  destruct (Hsame1 P HP (not_eq_sym HiP)) as [EP1 EcP1].
  set (e := {| d_inode := i; d_name := name |}).
  assert (Forall entry_valid (es ++ [e])) as Hves.
  { apply Forall_app. split; [done|]. apply Forall_singleton. split; [simpl|done].
    pose proof (inode_u32 i Hi). lia. }
  destruct (runs_write_dir g1 P (es ++ [e]) Hok1 HP) as (r & g & Hr & Hok & Hsame & Hpost);
    [by rewrite EP1|done|].
  assert (dir_fits g1 (len (es ++ [e])) ↔ dir_fits f (len es + 1)) as Hfits
    by (unfold dir_fits; rewrite len_app, Efl; done).
  assert (∀ j, inode_in_range sb j → j ≠ P → j ≠ i → unchanged sb f g j) as Hsame'.
  { intros j Hj HjP Hji. eapply unchanged_trans; [by apply Hsame1|by apply Hsame]. }
  destruct (Hsame i Hi HiP) as [Ei Eci].
  destruct (decide (dir_fits f (len es + 1))) as [Hfit|Hfit];
    [rewrite decide_True in Hpost by (by apply Hfits)|rewrite decide_False in Hpost by (by rewrite Hfits)].
  - destruct Hpost as (-> & Hdg & Hmeta & Hown). pose proof (proj1 Hmeta) as HkP. exists (Ok tt), g. split_and!; [|..|done|done|done|by rewrite EP1 in Hmeta|by rewrite Ei|by rewrite Eci].
    + apply Heq, Hw. unfold create_in. rewrite Hnm. eapply runs_bind; [exact Hr1|].
      eapply runs_bind; [apply runs_attempt, Hr|]. apply runs_ret.
    + eapply (tree_ok_create f g P i es name); try done; [by rewrite HkP, EP1| |by rewrite Eci].
      rewrite Ei, Ei1. by destruct Hk as [-> | ->].
  - destruct Hpost as (-> & HuP).
    destruct (runs_free_inode Hwindow sb Hwf g i Hok Hi) as (h & Hrh & Hokh & Eih & Hsameh).
    assert (∀ j, inode_in_range sb j → j ≠ P → j ≠ i → unchanged sb f h j) as Hsame''.
    { intros j Hj HjP Hji. eapply unchanged_trans; [by apply Hsame'|by apply Hsameh]. }
    assert (unchanged sb f h P) as HuP'.
    { eapply unchanged_trans; [by split|]. eapply unchanged_trans; [exact HuP|]. by apply Hsameh. }
    exists (Err NoSpace), h. split_and!; [| |done|done|done|done].
    + apply Heq, Hw. unfold create_in. rewrite Hnm. eapply runs_bind; [exact Hr1|].
      eapply runs_bind; [apply runs_attempt, Hr|]. cbv beta iota.
      eapply runs_bind; [apply runs_attempt, Hrh|apply runs_throw].
    + by eapply (tree_ok_rollback f h P i es).
Qed.

(** ** Deleting and renaming *)
Lemma tree_ok_same f g P es :
  tree_ok f → fs_ok sb g → inode_in_range sb P → dir_at f P = Ok es → all_unchanged f g → tree_ok g.
Proof.
  intros Hf Hg HP HdP Hu. destruct (tree_dir f P es Hf HP HdP) as (Hdir & Hv & Hn & Hnd).
  pose proof (ok_root _ _ Hg) as Hroot. unfold inode_in_range in Hroot.
  assert (¬ inode_in_range sb (-1)) as Hneg by (unfold inode_in_range; lia).
  destruct (Hu P HP) as [EP _].
  eapply (tree_ok_update f g P (-1) es es); [done|done|done| | |done| | |done|done|done| | | | |].
  - unfold inode_in_range in HP. lia.
  - lia.
  - by rewrite (unchanged_dir f g P HP (Hu P HP)).
  - rewrite EP. by apply dir_not_free.
  - intros e He. destruct (tree_live f Hf P es e HP HdP He) as (Hr & Hk & Hro).
    destruct (Hu _ Hr) as [-> _]. done.
  - intros e He. left. apply list_elem_of_fmap. eauto.
  - intros j ej e Hj _ Hd He Heq. destruct (tree_live f Hf j ej e Hj Hd He) as (Hr & _). by rewrite Heq in Hr.
  - intros j Hj _ _. by apply Hu.
  - done.
Qed.

Definition delete_in (P : Z) (name : bytes) es : ST (Cached V) FsError unit :=
  let! pos := lift_option NotFound (position (λ e, names_equal (d_name e) name) es) in
  let target_inode := nth pos (map d_inode es) 0 in
  let! target := ok_or NotFound (read_inode sb target_inode) in
  let! nonempty := (if is_dir target
                    then let! children := read_dir_entries sb target_inode in
                         ret (negb (bool_decide (length children = O)))
                    else ret false) in
  if nonempty then throw NotEmpty else
  write_dir_entries sb P (delete pos es) ;;!
  free_inode sb target_inode.

(** Is inode [t] a directory with entries? *)
Definition nonempty_dir f t : bool :=
  match dir_at f t with Ok (_ :: _) => true | _ => false end.

Definition delete_post f path (r : result FsError unit) g : Prop :=
  match target_dir f path with
  | Err e => r = Err e ∧ all_unchanged f g
  | Ok (P, name, es) =>
      match position (λ e, names_equal (d_name e) name) es with
      | None => r = Err NotFound ∧ all_unchanged f g
      | Some pos =>
          let t := nth pos (map d_inode es) 0 in
          if nonempty_dir f t then r = Err NotEmpty ∧ all_unchanged f g
          else if decide (dir_fits f (len es - 1)) then
            r = Ok tt ∧ dir_at g P = Ok (delete pos es) ∧ inode g t = Inode_free ∧
            same_meta (inode f P) (inode g P) ∧
            own_len (inode g P) = blocks_total (blocks_needed (DIR_ENTRY_SIZE * (len es - 1))) ∧
            ∀ j, inode_in_range sb j → j ≠ P → j ≠ t → unchanged sb f g j
          else r = Err NoSpace ∧ all_unchanged f g
      end
  end.

(** The tree after the entry at [pos] was removed and its inode freed. *)
Lemma tree_ok_delete f h P es pos e :
  tree_ok f → fs_ok sb h → inode_in_range sb P → dir_at f P = Ok es → es !! pos = Some e → d_inode e ≠ P →
  dir_at h P = Ok (delete pos es) → kind (inode h P) = kind (inode f P) → inode h (d_inode e) = Inode_free →
  (∀ j, inode_in_range sb j → j ≠ P → j ≠ d_inode e → unchanged sb f h j) → tree_ok h.
Proof.
  intros Hf Hh HP HdP Hpos HtP HdP' HkP Hfree Hsame. destruct (tree_dir f P es Hf HP HdP) as (Hdir & Hv & Hn & Hnd).
  pose proof (list_elem_of_lookup_2 _ _ _ Hpos) as He.
  destruct (tree_live f Hf P es e HP HdP He) as (Htr & Htk & Htroot).
  assert (∀ x, x ∈ delete pos es → x ∈ es) as Hsub.
  { intros x Hx. eapply elem_of_sublist; [exact Hx|apply sublist_delete]. }
  assert (NoDup (d_inode <$> delete pos es) ∧ ∀ x, x ∈ delete pos es → d_inode x ≠ d_inode e) as [Hnd' Hne].
  { rewrite delete_take_drop. rewrite <- (take_drop_middle es pos e Hpos), fmap_app, fmap_cons in Hnd.
    apply NoDup_app in Hnd as (N1 & N2 & [N3 N4]%NoDup_cons). split.
    - rewrite fmap_app. apply NoDup_app. split_and!; [done| |done]. intros x Hx Hx'. apply (N2 x Hx). by right.
    - intros x [Hx|Hx]%elem_of_app Heq.
      + apply (N2 (d_inode x)); [apply list_elem_of_fmap; eauto|rewrite Heq; by left].
      + apply N3. rewrite <- Heq. apply list_elem_of_fmap. eauto. }
  eapply (tree_ok_update f h P (d_inode e) es (delete pos es)); [done|done|done|done|done|done|done| | | |done| | | |done|].
  - rewrite HkP. by apply dir_not_free.
  - by apply Forall_delete.
  - eapply sublist_NoDup; [exact Hn|apply fmap_sublist, sublist_delete].
  - intros x Hx. destruct (tree_live f Hf P es x HP HdP (Hsub x Hx)) as (Hr & Hk & Hro). split_and!; [done| |done].
    destruct (decide (d_inode x = P)) as [->|HneP]; [rewrite HkP; by apply dir_not_free|].
    destruct (Hsame _ Hr HneP (Hne x Hx)) as [-> _]. done.
  - intros x Hx. left. apply list_elem_of_fmap. eauto.
  - intros j ej x Hj HjP Hd Hx Heq. apply list_elem_of_lookup in Hx as [k Hk].
    by destruct (tree_once f Hf j P ej es k pos x e) as [? _].
  - intros _. by rewrite Hfree.
Qed.

Lemma nth_map_lookup es pos e : es !! pos = Some e → nth pos (map d_inode es) 0 = d_inode e.
Proof. revert pos. induction es as [|x es IH]; intros [|pos] Hk; simpl in *; [done|done|by injection Hk as ->|by apply IH]. Qed.

Lemma len_delete {A} (l : list A) pos x : l !! pos = Some x → len (delete pos l) = len l - 1.
Proof.
  intros Hx. pose proof (lookup_lt_Some _ _ _ Hx). pose proof (length_delete l pos (ex_intro _ _ Hx)).
  unfold len. lia.
Qed.

(** The test [delete_file] makes before it removes inode [t]. *)
Lemma runs_nonempty f t :
  tree_ok f → inode_in_range sb t →
  runs (if is_dir (inode f t)
        then let! children := read_dir_entries sb t in ret (negb (bool_decide (length children = O)))
        else ret false) f (Ok (nonempty_dir f t)) f.
Proof.
  intros Hf Ht. unfold nonempty_dir. destruct (is_dir (inode f t)) eqn:Ed.
  - destruct (tree_dirs f Hf t Ht Ed) as (es & Hd & _ & _). rewrite Hd.
    eapply runs_bind; [rewrite <- Hd; apply runs_read_dir_entries; [done|done|apply Hf|apply Ht]|].
    destruct es; apply runs_ret.
  - rewrite dir_at_in, Ed by done. apply runs_ret.
Qed.

Lemma runs_delete_file f path :
  tree_ok f → ∃ r g, runs (delete_file_image sb path) f r g ∧ tree_ok g ∧ delete_post f path r g.
Proof.
  intros Hf. pose proof (tree_fs f Hf) as Hfs. unfold delete_post.
  pose proof (runs_with_target f path delete_in Hf) as Hw.
  change (with_target path delete_in) with (delete_file_image sb path) in Hw.
  destruct (target_dir f path) as [[[P name] es]|e] eqn:Et; [|by exists (Err e), f].
  destruct (target_dir_ok f path P name es Hf Et) as (HP & HdP & _ & _).
  destruct (tree_dir f P es Hf HP HdP) as (Hdir & Hv & _ & _).
  destruct (position (λ e, names_equal (d_name e) name) es) as [pos|] eqn:Epos.
  2: { exists (Err NotFound), f. split_and!; [|done..]. apply Hw. unfold delete_in. rewrite Epos.
       apply runs_bind_err, runs_lift_result. }
  destruct (position_Some _ _ _ Epos) as (e & Hpos & _ & _). pose proof (list_elem_of_lookup_2 _ _ _ Hpos) as He.
  destruct (tree_live f Hf P es e HP HdP He) as (Htr & Htk & Htroot). rewrite (nth_map_lookup es pos e Hpos).
  assert (∀ r g, runs (if nonempty_dir f (d_inode e) then throw NotEmpty else
                       write_dir_entries sb P (delete pos es) ;;! free_inode sb (d_inode e)) f r g →
                 runs (delete_file_image sb path) f r g) as Hstep.
  { intros r g Hr. apply Hw. unfold delete_in. rewrite Epos. eapply runs_bind; [apply runs_lift_result|].
    cbv beta zeta. rewrite (nth_map_lookup es pos e Hpos).
    eapply runs_bind; [by apply runs_ok_or, runs_read_inode|].
    eapply runs_bind; [by apply runs_nonempty|exact Hr]. }
  destruct (nonempty_dir f (d_inode e)) eqn:Hne.
  { exists (Err NotEmpty), f. split_and!; [|done..]. apply Hstep, runs_throw. }
  assert (d_inode e ≠ P) as HtP.
  { intros HeP. unfold nonempty_dir in Hne. rewrite HeP, HdP in Hne. by destruct es. }
  destruct (runs_write_dir f P (delete pos es) Hfs HP Hdir) as (r & g & Hr & Hok & Hsame & Hpost); [by apply Forall_delete|].
  rewrite (len_delete es pos e Hpos) in Hpost. destruct (decide (dir_fits f (len es - 1))) as [Hfit|Hfit].
  - destruct Hpost as (-> & Hdg & Hmeta & Hown). pose proof (proj1 Hmeta) as HkP.
    destruct (runs_free_inode Hwindow sb Hwf g (d_inode e) Hok Htr) as (h & Hrh & Hokh & Eih & Hsameh).
    pose proof (Hsameh P HP (not_eq_sym HtP)) as HuP. pose proof HuP as [EP _].
    assert (dir_at h P = Ok (delete pos es)) as HdhP by (by rewrite (unchanged_dir g h P HP HuP)).
    assert (∀ j, inode_in_range sb j → j ≠ P → j ≠ d_inode e → unchanged sb f h j) as Hsame''.
    { intros j Hj HjP Hjt. eapply unchanged_trans; [by apply Hsame|by apply Hsameh]. }
    exists (Ok tt), h. split_and!; [|by eapply (tree_ok_delete f h P es pos e); try done; rewrite EP|done..|by rewrite EP|by rewrite EP|done].
    apply Hstep. eapply runs_bind; [exact Hr|exact Hrh].
  - destruct Hpost as (-> & HuP).
    assert (all_unchanged f g) as Hu by (intros j Hj; destruct (decide (j = P)) as [->|]; [done|by apply Hsame]).
    exists (Err NoSpace), g. split_and!; [|by apply (tree_ok_same f g P es)|done..].
    apply Hstep. by apply runs_bind_err.
Qed.

Definition rename_in (new_name : bytes) (P : Z) (old_name : bytes) es : ST (Cached V) FsError bool :=
  if has_name new_name es then throw AlreadyExists else
  let! pos := lift_option NotFound (position (λ e, names_equal (d_name e) old_name) es) in
  write_dir_entries sb P (alter (set_name new_name) pos es) ;;!
  ret true.

Definition same_name_as (path new_name : bytes) : bool :=
  match split_parent_and_name path with Ok (_, old) => names_equal old new_name | Err _ => false end.

Lemma rename_eq path new_name s :
  rename_image sb path new_name s =
  if same_name_as path new_name then (Ok false, s) else with_target path (rename_in new_name) s.
Proof.
  unfold rename_image, with_target, same_name_as.
  destruct (split_parent_and_name path) as [[pp name]|]; [|done].
  unfold bind at 1. unfold lift_result at 1. cbn beta iota. by destruct (names_equal name new_name).
Qed.

Definition rename_post f path (new_name : bytes) (r : result FsError bool) g : Prop :=
  if same_name_as path new_name then r = Ok false ∧ all_unchanged f g else
  match target_dir f path with
  | Err e => r = Err e ∧ all_unchanged f g
  | Ok (P, old_name, es) =>
      if has_name new_name es then r = Err AlreadyExists ∧ all_unchanged f g else
      match position (λ e, names_equal (d_name e) old_name) es with
      | None => r = Err NotFound ∧ all_unchanged f g
      | Some pos =>
          if decide (dir_fits f (len es)) then
            r = Ok true ∧ dir_at g P = Ok (alter (set_name new_name) pos es) ∧
            same_meta (inode f P) (inode g P) ∧
            ∀ j, inode_in_range sb j → j ≠ P → unchanged sb f g j
          else r = Err NoSpace ∧ all_unchanged f g
      end
  end.

Lemma tree_ok_rename f g P es pos e new_name :
  tree_ok f → fs_ok sb g → inode_in_range sb P → dir_at f P = Ok es → es !! pos = Some e →
  validate_name new_name = Ok tt → has_name new_name es = false →
  dir_at g P = Ok (alter (set_name new_name) pos es) → kind (inode g P) = kind (inode f P) →
  (∀ j, inode_in_range sb j → j ≠ P → unchanged sb f g j) → tree_ok g.
Proof.
  intros Hf Hg HP HdP Hpos Hval Hnew HdP' HkP Hsame.
  destruct (tree_dir f P es Hf HP HdP) as (Hdir & Hv & Hn & Hnd).
  pose proof (ok_root _ _ Hg) as Hroot. unfold inode_in_range in Hroot.
  assert (¬ inode_in_range sb (-1)) as Hneg by (unfold inode_in_range; lia).
  assert (d_inode <$> alter (set_name new_name) pos es = d_inode <$> es) as Ei.
  { rewrite (alter_as_insert _ _ _ _ Hpos), list_fmap_insert. apply list_insert_id. by rewrite list_lookup_fmap, Hpos. }
  assert (∀ x, x ∈ alter (set_name new_name) pos es → ∃ y, y ∈ es ∧ d_inode x = d_inode y) as Hsub.
  { intros x Hx. assert (d_inode x ∈ d_inode <$> es) as (y & Ey & Hy)%list_elem_of_fmap; [|by exists y].
    rewrite <- Ei. apply list_elem_of_fmap. eauto. }
  assert (entry_valid (set_name new_name e)) as Hve.
  { rewrite Forall_forall in Hv. destruct (Hv e (list_elem_of_lookup_2 _ _ _ Hpos)) as [? _]. done. }
  eapply (tree_ok_update f g P (-1) es); [done|done|done| | |done|exact HdP'| | | | | | | | |].
  - unfold inode_in_range in HP. lia.
  - lia.
  - rewrite HkP. by apply dir_not_free.
  - rewrite (alter_as_insert _ _ _ _ Hpos). by apply Forall_insert.
  - unfold names_distinct. rewrite (alter_as_insert _ _ _ _ Hpos), list_fmap_insert.
    apply NoDup_insert_fresh; [done|]. by apply has_name_false in Hnew.
  - by rewrite Ei.
  - intros x Hx. destruct (Hsub x Hx) as (y & Hy & ->). destruct (tree_live f Hf P es y HP HdP Hy) as (Hr & Hk & Hro).
    split_and!; [done| |done]. destruct (decide (d_inode y = P)) as [->|HneP]; [rewrite HkP; by apply dir_not_free|].
    destruct (Hsame _ Hr HneP) as [-> _]. done.
  - intros x Hx. left. rewrite <- Ei. apply list_elem_of_fmap. eauto.
  - intros j ej x Hj _ Hd Hx Heq. destruct (tree_live f Hf j ej x Hj Hd Hx) as (Hr & _). by rewrite Heq in Hr.
  - intros j Hj Hne _. by apply Hsame.
  - done.
Qed.

Lemma runs_rename f path new_name :
  tree_ok f → validate_name new_name = Ok tt →
  ∃ r g, runs (rename_image sb path new_name) f r g ∧ tree_ok g ∧ rename_post f path new_name r g.
Proof.
  intros Hf Hval. pose proof (tree_fs f Hf) as Hfs. unfold rename_post.
  destruct (same_name_as path new_name) eqn:Esame.
  { exists (Ok false), f. split_and!; [|done..]. intros s Hs. rewrite rename_eq, Esame. by eauto. }
  assert (∀ r g, runs (with_target path (rename_in new_name)) f r g → runs (rename_image sb path new_name) f r g) as Heq.
  { intros r g Hr s Hs. rewrite rename_eq, Esame. by apply Hr. }
  pose proof (runs_with_target f path (rename_in new_name) Hf) as Hw.
  destruct (target_dir f path) as [[[P name] es]|e] eqn:Et; [|exists (Err e), f; split_and!; [by apply Heq|done..]].
  destruct (target_dir_ok f path P name es Hf Et) as (HP & HdP & _ & _).
  destruct (tree_dir f P es Hf HP HdP) as (Hdir & Hv & _ & _).
  destruct (has_name new_name es) eqn:Hnm.
  { exists (Err AlreadyExists), f. split_and!; [|done..]. apply Heq, Hw. unfold rename_in. rewrite Hnm. apply runs_throw. }
  destruct (position _ es) as [pos|] eqn:Epos.
  2: { exists (Err NotFound), f. split_and!; [|done..]. apply Heq, Hw. unfold rename_in. rewrite Hnm, Epos.
       apply runs_bind_err, runs_lift_result. }
  destruct (position_Some _ _ _ Epos) as (e & Hpos & _ & _).
  assert (Forall entry_valid (alter (set_name new_name) pos es)) as Hv'.
  { rewrite (alter_as_insert _ _ _ _ Hpos). apply Forall_insert; [done|].
    rewrite Forall_forall in Hv. by destruct (Hv e (list_elem_of_lookup_2 _ _ _ Hpos)). }
  destruct (runs_write_dir f P _ Hfs HP Hdir Hv') as (r & g & Hr & Hok & Hsame & Hpost).
  replace (len (alter (set_name new_name) pos es)) with (len es) in Hpost by (unfold len; by rewrite length_alter).
  assert (∀ r' g', runs (write_dir_entries sb P (alter (set_name new_name) pos es) ;;! ret true) f r' g' →
                   runs (rename_image sb path new_name) f r' g') as Hstep.
  { intros r' g' Hr'. apply Heq, Hw. unfold rename_in. rewrite Hnm, Epos.
    eapply runs_bind; [apply runs_lift_result|exact Hr']. }
  destruct (decide (dir_fits f (len es))) as [Hfit|Hfit].
  - destruct Hpost as (-> & Hdg & Hmeta & Hown). pose proof (proj1 Hmeta) as HkP. exists (Ok true), g.
    split_and!; [|by eapply (tree_ok_rename f g P es pos e new_name)|done..].
    apply Hstep. eapply runs_bind; [exact Hr|apply runs_ret].
  - destruct Hpost as (-> & HuP). exists (Err NoSpace), g.
    assert (all_unchanged f g) as Hu by (intros j Hj; destruct (decide (j = P)) as [->|]; [done|by apply Hsame]).
    split_and!; [|by apply (tree_ok_same f g P es)|done..]. apply Hstep. by apply runs_bind_err.
Qed.
End tree.
