(* ===== verification/CoolTree.v ===== *)
(** * CoolFS as a tree of named nodes

    The contract of the file system, in the terms of its users: a volume is a
    map [tree f] from paths, compared without case, to nodes (kind, owner,
    mode, contents).  Each operation is shown to return exactly the result
    that map determines and to change exactly the path it names.  The proofs
    go through the inode-level descriptions of [CoolDir]; the key fact is
    that in a well-formed tree every live inode has one path ([reach_inj]). *)
From S2P Require Import Prelude DiskLayout Storage Text Paths Security BlockCache CoolImage CoolMem CoolFile CoolContent CoolFs CoolDir.
Set Warnings "-clear-no-such-hyp".

Local Open Scope Z_scope.
Local Open Scope st_scope.

(** What a path names. *)
Record node := { n_kind : Z; n_uid : Z; n_gid : Z; n_mode : Z; n_data : bytes }.

(** Paths up to the case of their components. *)
Definition fold_path (q : list bytes) : list bytes := fold_name <$> q.

Lemma fold_path_app p q : fold_path (p ++ q) = fold_path p ++ fold_path q.
Proof. apply fmap_app. Qed.

Lemma fold_path_snoc p q x y :
  fold_path (p ++ [x]) = fold_path (q ++ [y]) ↔ fold_path p = fold_path q ∧ fold_name x = fold_name y.
Proof.
  rewrite !fold_path_app. split.
  - intros [E1 E2]%app_inj_tail. done.
  - intros [-> E]. unfold fold_path. csimpl. by rewrite E.
Qed.

Lemma fold_path_nil_snoc q x : fold_path [] ≠ fold_path (q ++ [x]).
Proof. rewrite fold_path_app. unfold fold_path. csimpl. by destruct (fold_name <$> q). Qed.

(** ** The contract *)
Definition Tree : Type := list bytes → option node.

Definition is_dir_node (n : node) : bool := n_kind n =? KIND_DIR.
Definition is_file_node (n : node) : bool := n_kind n =? KIND_FILE.

(** Follow [q] from the node at [pre]: only directories can be entered. *)
Fixpoint resolve_from (t : Tree) (pre q : list bytes) : result FsError node :=
  match t pre with
  | None => Err NotFound
  | Some n =>
      match q with
      | [] => Ok n
      | x :: q => if is_dir_node n then resolve_from t (pre ++ [x]) q else Err NotDirectory
      end
  end.

(** The node a path string names. *)
Definition resolve (t : Tree) (path : bytes) : result FsError node :=
  if starts_with (str "/") path then resolve_from t [] (components path) else Err InvalidPath.

Definition tree_set (q : list bytes) (n : option node) (t : Tree) : Tree :=
  λ p, if decide (fold_path p = fold_path q) then n else t p.

(** The result, and the new tree at every path. *)
Definition result_is {A} (r : result FsError A) (t' : Tree) (r0 : result FsError A) (t0 : Tree) : Prop :=
  r = r0 ∧ ∀ q, t' q = t0 q.

(** The checks on the parent of [path]; [k] gets the last component. *)
Definition in_parent (t : Tree) (path : bytes) (fails : FsError → Prop) (k : bytes → bytes → Prop) : Prop :=
  match split_parent_and_name path with
  | Err e => fails e
  | Ok (parent, name) =>
      match resolve t parent with
      | Err e => fails e
      | Ok d => if is_dir_node d then k parent name else fails NotDirectory
      end
  end.

(** Creating [n] at [path]; [room]: the volume has a free inode and the blocks. *)
Definition create_spec (room : bool) (path : bytes) (n : node) (t : Tree) (r : result FsError unit) (t' : Tree) : Prop :=
  in_parent t path (λ e, result_is r t' (Err e) t) (λ _ _,
    match t (components path) with
    | Some _ => result_is r t' (Err AlreadyExists) t
    | None => if room then result_is r t' (Ok tt) (tree_set (components path) (Some n) t)
              else result_is r t' (Err NoSpace) t
    end).

Definition has_children (t : Tree) (q : list bytes) : Prop := ∃ x, is_Some (t (q ++ [x])).

Definition delete_spec (room : bool) (path : bytes) (t : Tree) (r : result FsError unit) (t' : Tree) : Prop :=
  in_parent t path (λ e, result_is r t' (Err e) t) (λ _ _,
    match t (components path) with
    | None => result_is r t' (Err NotFound) t
    | Some _ =>
        (has_children t (components path) ∧ result_is r t' (Err NotEmpty) t) ∨
        (¬ has_children t (components path) ∧
         if room then result_is r t' (Ok tt) (tree_set (components path) None t)
         else result_is r t' (Err NoSpace) t)
    end).

(** [q] without the prefix [pre]. *)
Definition strip_path (pre q : list bytes) : option (list bytes) :=
  if decide (fold_path (take (length pre) q) = fold_path pre) then Some (drop (length pre) q) else None.

(** Where the node at [q] was before the node at [old] moved to [new]. *)
Definition before_move (old new q : list bytes) : option (list bytes) :=
  match strip_path new q with
  | Some r => Some (old ++ r)
  | None => match strip_path old q with Some _ => None | None => Some q end
  end.

(** Renaming moves the whole subtree; [Ok false]: the names differ at most in case. *)
Definition rename_spec (room : bool) (path new_name : bytes) (t : Tree) (r : result FsError bool) (t' : Tree) : Prop :=
  if same_name_as path new_name then result_is r t' (Ok false) t else
  in_parent t path (λ e, result_is r t' (Err e) t) (λ parent _,
    let new := components parent ++ [new_name] in
    match t new, t (components path) with
    | Some _, _ => result_is r t' (Err AlreadyExists) t
    | None, None => result_is r t' (Err NotFound) t
    | None, Some _ =>
        if room then result_is r t' (Ok true) (λ q, before_move (components path) new q ≫= t)
        else result_is r t' (Err NoSpace) t
    end).

Definition set_data (data : bytes) (n : node) : node :=
  {| n_kind := n_kind n; n_uid := n_uid n; n_gid := n_gid n; n_mode := n_mode n; n_data := data |}.

Definition write_spec (room : bool) (path data : bytes) (t : Tree) (r : result FsError unit) (t' : Tree) : Prop :=
  match resolve t path with
  | Err e => result_is r t' (Err e) t
  | Ok n =>
      if negb (is_file_node n) then result_is r t' (Err InvalidPath) t else
      if room then result_is r t' (Ok tt) (tree_set (components path) (Some (set_data data n)) t)
      else result_is r t' (Err NoSpace) t
  end.

Definition read_spec (path : bytes) (t : Tree) : result unit bytes :=
  match resolve t path with
  | Ok n => if is_file_node n then Ok (n_data n) else Err tt
  | Err _ => Err tt
  end.

(** ** Finding entries by name *)
(** What each operation does to the tree, whatever the reason of a failure. *)
Lemma in_parent_elim t path (fails : FsError → Prop) (k : bytes → bytes → Prop) (X : Prop) :
  in_parent t path fails k → (∀ e, fails e → X) →
  (∀ parent name, split_parent_and_name path = Ok (parent, name) → k parent name → X) → X.
Proof.
  unfold in_parent. intros Hp He Hk. destruct (split_parent_and_name path) as [[parent name]|e]; [|by apply (He e)].
  destruct (resolve t parent) as [d|e]; [|by apply (He e)]. case_if; [by apply (Hk parent name)|by apply (He NotDirectory)].
Qed.

Lemma create_effect room path n t r t' :
  create_spec room path n t r t' →
  match r with
  | Ok _ => t (components path) = None ∧ ∀ q, t' q = tree_set (components path) (Some n) t q
  | Err _ => ∀ q, t' q = t q
  end.
Proof.
  intros Hs. apply (in_parent_elim _ _ _ _ _ Hs); [by intros e [-> ?]|]. intros parent name _.
  destruct (t (components path)); [by intros [-> ?]|]. by case_if; intros [-> ?].
Qed.

Lemma delete_effect room path t r t' :
  delete_spec room path t r t' →
  match r with
  | Ok _ => is_Some (t (components path)) ∧ ¬ has_children t (components path) ∧
            ∀ q, t' q = tree_set (components path) None t q
  | Err _ => ∀ q, t' q = t q
  end.
Proof.
  intros Hs. apply (in_parent_elim _ _ _ _ _ Hs); [by intros e [-> ?]|]. intros parent name _.
  destruct (t (components path)); [|by intros [-> ?]]. intros [[_ [-> ?]]|[Hc Hr]]; [done|].
  destruct room; destruct Hr as [-> ?]; [|done]. by split_and!.
Qed.

Lemma rename_effect room path new_name t b t' :
  rename_spec room path new_name t b t' →
  match b with
  | Ok true => ∃ parent name, split_parent_and_name path = Ok (parent, name) ∧
      is_Some (t (components path)) ∧ t (components parent ++ [new_name]) = None ∧
      ∀ q, t' q = before_move (components path) (components parent ++ [new_name]) q ≫= t
  | Ok false => same_name_as path new_name = true ∧ ∀ q, t' q = t q
  | Err _ => ∀ q, t' q = t q
  end.
Proof.
  unfold rename_spec. intros Hs. destruct (same_name_as path new_name); [by destruct Hs as [-> ?]|].
  apply (in_parent_elim _ _ _ _ _ Hs); [by intros e [-> ?]|]. intros parent name Hsp. cbv zeta.
  destruct (t (components parent ++ [new_name])) eqn:En; [by intros [-> ?]|].
  destruct (t (components path)); [|by intros [-> ?]]. destruct room; intros [-> Ht]; [|done].
  exists parent, name. by split_and!.
Qed.

Lemma write_effect room path data t r t' :
  write_spec room path data t r t' →
  match r with
  | Ok _ => ∃ n, resolve t path = Ok n ∧ is_file_node n = true ∧ ∀ q, t' q = tree_set (components path) (Some (set_data data n)) t q
  | Err _ => ∀ q, t' q = t q
  end.
Proof.
  unfold write_spec. destruct (resolve t path) as [n|e]; [|by intros [-> ?]].
  destruct (is_file_node n) eqn:Hf; [|by intros [-> ?]]. destruct room; intros [-> ?]; [|done]. by exists n.
Qed.

Lemma find_entry_fold x y es : fold_name x = fold_name y → find_entry x es = find_entry y es.
Proof.
  intros E. induction es as [|e es IH]; [done|]. unfold find_entry in *. cbn [List.find].
  replace (names_equal (d_name e) x) with (names_equal (d_name e) y); [by rewrite IH|].
  apply eq_true_iff_eq. by rewrite !names_equal_fold, E.
Qed.

Lemma find_entry_Some x es e :
  find_entry x es = Some e → e ∈ es ∧ fold_name (d_name e) = fold_name x.
Proof. intros [Hin%list_elem_of_In Hn%names_equal_fold]%find_some. done. Qed.

Lemma find_entry_None x es : find_entry x es = None ↔ has_name x es = false.
Proof.
  induction es as [|e es IH]; [done|]. unfold find_entry, has_name in *. cbn [List.find existsb].
  by destruct (names_equal (d_name e) x).
Qed.

Lemma find_entry_lookup es pos e x :
  names_distinct es → es !! pos = Some e → fold_name (d_name e) = fold_name x → find_entry x es = Some e.
Proof.
  intros Hd Hpos Hx. destruct (find_entry x es) as [e'|] eqn:E.
  - apply find_entry_Some in E as [[pos' Hpos']%list_elem_of_lookup Hx'].
    assert (pos = pos') as <-; [|congruence]. eapply (NoDup_lookup _ pos pos' (fold_name x) Hd);
      rewrite list_lookup_fmap; [rewrite Hpos|rewrite Hpos']; simpl; by f_equal.
  - apply find_entry_None, has_name_false in E. destruct E. rewrite <- Hx.
    apply list_elem_of_fmap. exists e. split; [done|]. by eapply list_elem_of_lookup_2.
Qed.

Lemma find_entry_app x es1 es2 :
  find_entry x (es1 ++ es2) = match find_entry x es1 with Some e => Some e | None => find_entry x es2 end.
Proof.
  induction es1 as [|e es IH]; unfold find_entry in *; cbn [List.find app]; [done|].
  by destruct (names_equal (d_name e) x).
Qed.

Lemma find_entry_middle x es1 e es2 :
  find_entry x (es1 ++ e :: es2) =
  match find_entry x es1 with
  | Some e' => Some e'
  | None => if decide (fold_name (d_name e) = fold_name x) then Some e else find_entry x es2
  end.
Proof.
  rewrite find_entry_app. destruct (find_entry x es1); [done|]. unfold find_entry. cbn [List.find].
  destruct (names_equal (d_name e) x) eqn:E.
  - by rewrite decide_True by (by apply names_equal_fold).
  - rewrite decide_False; [done|]. intros F%names_equal_fold. congruence.
Qed.

(** Around an entry with the name [x] no other entry has it. *)
Lemma find_entry_around x es1 e es2 :
  names_distinct (es1 ++ e :: es2) → fold_name (d_name e) = fold_name x →
  find_entry x es1 = None ∧ find_entry x es2 = None.
Proof.
  unfold names_distinct. rewrite fmap_app, fmap_cons. intros (_ & H1 & [H2 _]%NoDup_cons)%NoDup_app Hx.
  cbn [compose] in *. rewrite Hx in H1, H2.
  split; (destruct (find_entry x _) as [e'|] eqn:E; [|done]); apply find_entry_Some in E as [He' E].
  - destruct (H1 (fold_name x)); [|by left]. rewrite <- E. apply list_elem_of_fmap. by exists e'.
  - destruct H2. rewrite <- E. apply list_elem_of_fmap. by exists e'.
Qed.

Lemma find_entry_delete x es pos e :
  names_distinct es → es !! pos = Some e →
  find_entry x (delete pos es) = if decide (fold_name x = fold_name (d_name e)) then None else find_entry x es.
Proof.
  intros Hd Hpos. rewrite delete_take_drop. rewrite <- (take_drop_middle es pos e Hpos) in Hd.
  replace (find_entry x es) with (find_entry x (take pos es ++ e :: drop (S pos) es)) by (by rewrite take_drop_middle).
  rewrite find_entry_middle.
  replace (find_entry x (take pos es ++ drop (S pos) es)) with
    (match find_entry x (take pos es) with Some e' => Some e' | None => find_entry x (drop (S pos) es) end)
    by (symmetry; apply find_entry_app).
  destruct (decide (fold_name x = _)) as [E|E].
  - by destruct (find_entry_around x _ _ _ Hd (eq_sym E)) as [-> ->].
  - by rewrite decide_False.
Qed.

Lemma find_entry_rename x es pos e new_name :
  names_distinct es → es !! pos = Some e → find_entry new_name es = None →
  find_entry x (alter (set_name new_name) pos es) =
  if decide (fold_name x = fold_name new_name) then Some (set_name new_name e)
  else if decide (fold_name x = fold_name (d_name e)) then None else find_entry x es.
Proof.
  intros Hd Hpos Hnew. rewrite (alter_as_insert _ _ _ _ Hpos).
  rewrite insert_take_drop by (by eapply lookup_lt_Some).
  rewrite <- (take_drop_middle es pos e Hpos) in Hd, Hnew. rewrite find_entry_middle in *.
  replace (find_entry x es) with (find_entry x (take pos es ++ e :: drop (S pos) es)) by (by rewrite take_drop_middle).
  rewrite find_entry_middle. cbn [set_name d_name].
  destruct (decide (fold_name x = fold_name new_name)) as [E|E].
  - rewrite (find_entry_fold x new_name _ E). destruct (find_entry new_name (take pos es)); [done|].
    by rewrite decide_True.
  - rewrite (decide_False (P := fold_name new_name = _)) by done.
    destruct (decide (fold_name x = fold_name (d_name e))) as [E2|E2].
    + by destruct (find_entry_around x _ _ _ Hd (eq_sym E2)) as [-> ->].
    + by rewrite decide_False.
Qed.

(** ** Paths to inodes *)
Section tree.
Context {V : Type} `{ReliableStore V}.
Context (Hwindow : TOTAL_BLOCKS * SECTORS_PER_BLOCK ≤ swindow).
Context (sb : Superblock) (Hwf : sb_wf sb).
Implicit Types (f g : mem) (i j P : Z) (es : list DirectoryEntry) (p q : list bytes).
Abbreviation inode f i := (decode_inode sb f i).
Abbreviation tree_ok := (tree_ok sb).
Abbreviation dir_at := (dir_at sb).

Definition child f j x : option Z :=
  match dir_at f j with Ok es => d_inode <$> find_entry x es | Err _ => None end.

(** The inode the components [q] lead to from the root. *)
Definition reach f q : option Z :=
  match walk sb f q (root_inode sb) with Ok i => Some i | Err _ => None end.

Definition inode_node (ino : Inode) (data : bytes) : node :=
  {| n_kind := kind ino; n_uid := i_uid ino; n_gid := i_gid ino; n_mode := i_mode ino; n_data := data |}.

Definition node_of f i : node :=
  inode_node (inode f i) (if is_dir (inode f i) then [] else content f (inode f i)).

(** The node at a path. *)
Definition tree f q : option node := node_of f <$> reach f q.

Lemma walk_app f p q i :
  walk sb f (p ++ q) i = match walk sb f p i with Ok j => walk sb f q j | Err e => Err e end.
Proof.
  revert i. induction p as [|x p IH]; intros i; simpl; [done|].
  destruct (dir_at f i) as [es|]; [|done]. destruct (find_entry x es); [|done]. apply IH.
Qed.

Lemma reach_snoc f q x : reach f (q ++ [x]) = reach f q ≫= λ j, child f j x.
Proof.
  unfold reach. rewrite walk_app. destruct (walk sb f q _) as [j|]; [|done]. unfold child. simpl.
  destruct (dir_at f j) as [es|]; [|done]. by destruct (find_entry x es).
Qed.

Lemma child_fold f j x y : fold_name x = fold_name y → child f j x = child f j y.
Proof. intros E. unfold child. destruct (dir_at f j); [|done]. by rewrite (find_entry_fold x y). Qed.

Lemma reach_fold f p q : fold_path p = fold_path q → reach f p = reach f q.
Proof.
  revert q. induction p as [|x p IH] using rev_ind; intros q E.
  - by destruct q.
  - destruct q as [|y q _] using rev_ind; [by symmetry in E; apply fold_path_nil_snoc in E|].
    apply fold_path_snoc in E as [E1 E2]. rewrite !reach_snoc, (IH q E1).
    destruct (reach f q); [|done]. by apply child_fold.
Qed.

Lemma reach_live f q i :
  tree_ok f → reach f q = Some i → inode_in_range sb i ∧ kind (inode f i) ≠ KIND_FREE.
Proof.
  intros Hf. revert i. induction q as [|x q IH] using rev_ind; intros i.
  - intros [= <-]. split; [apply Hf|]. by apply dir_not_free, Hf.
  - rewrite reach_snoc. destruct (reach f q) as [j|]; [|done]. destruct (IH j eq_refl) as [Hj _].
    unfold child. simpl. destruct (dir_at f j) as [es|] eqn:Ed; [|done].
    destruct (find_entry x es) as [e|] eqn:Ef; [|done]. intros [= <-].
    apply find_entry_Some in Ef as [He _]. by destruct (tree_live sb f Hf j es e Hj Ed He) as (? & ? & _).
Qed.

Lemma reach_snoc_inv f q x i :
  tree_ok f → reach f (q ++ [x]) = Some i →
  ∃ j es pos e, reach f q = Some j ∧ inode_in_range sb j ∧ dir_at f j = Ok es ∧ es !! pos = Some e ∧
    fold_name (d_name e) = fold_name x ∧ d_inode e = i ∧ i ≠ root_inode sb.
Proof.
  intros Hf. rewrite reach_snoc. destruct (reach f q) as [j|] eqn:Er; [|done].
  destruct (reach_live f q j Hf Er) as [Hj _]. unfold child. simpl.
  destruct (dir_at f j) as [es|] eqn:Ed; [|done]. destruct (find_entry x es) as [e|] eqn:Ef; [|done].
  intros [= <-]. apply find_entry_Some in Ef as [He Hx]. pose proof He as [pos Hpos]%list_elem_of_lookup.
  exists j, es, pos, e. split_and!; try done. by apply (tree_live sb f Hf j es e Hj Ed He).
Qed.

(** Every inode has at most one path. *)
Lemma reach_inj f p q i :
  tree_ok f → reach f p = Some i → reach f q = Some i → fold_path p = fold_path q.
Proof.
  intros Hf. revert q i. induction p as [|x p IH] using rev_ind; intros q i Hp Hq.
  - destruct q as [|y q _] using rev_ind; [done|]. injection Hp as <-.
    destruct (reach_snoc_inv f q y _ Hf Hq) as (? & ? & ? & ? & ?). naive_solver.
  - destruct (reach_snoc_inv f p x i Hf Hp) as (j & es & pos & e & Hj & Hjr & Hd & Hpos & Hx & Hei & Hir).
    destruct q as [|y q _] using rev_ind; [by injection Hq as <-|].
    destruct (reach_snoc_inv f q y i Hf Hq) as (j' & es' & pos' & e' & Hj' & Hjr' & Hd' & Hpos' & Hy & Hei' & _).
    destruct (tree_once sb f Hf j j' es es' pos pos' e e') as [<- <-]; [done..|congruence|].
    assert (e = e') as <- by congruence. apply fold_path_snoc. split; [by eapply IH|congruence].
Qed.

(** ** How the tree follows changes of inodes *)
Lemma node_of_unchanged f g j : unchanged sb f g j → node_of g j = node_of f j.
Proof. intros [Ei Ec]. unfold node_of. by rewrite Ec, Ei. Qed.

Lemma node_of_dir f g P :
  is_dir (inode f P) = true → same_meta (inode f P) (inode g P) → node_of g P = node_of f P.
Proof.
  intros Hd (Ek & Eu & Eg & Em). unfold node_of, inode_node. rewrite Ek, Eu, Eg, Em.
  unfold is_dir in *. by rewrite Ek, Hd.
Qed.

Lemma child_unchanged f g j x : inode_in_range sb j → unchanged sb f g j → child g j x = child f j x.
Proof. intros Hj Hu. unfold child. by rewrite (unchanged_dir sb f g j Hj Hu). Qed.

Lemma child_range f q j x i : tree_ok f → reach f q = Some j → child f j x = Some i → inode_in_range sb i.
Proof.
  intros Hf Hq Hc. apply (reach_live f (q ++ [x]) i Hf). by rewrite reach_snoc, Hq.
Qed.

(** All directories are as they were. *)
Lemma reach_same f g q :
  tree_ok f → (∀ j x, inode_in_range sb j → child g j x = child f j x) → reach g q = reach f q.
Proof.
  intros Hf Hc. induction q as [|x q IH] using rev_ind; [done|]. rewrite !reach_snoc, IH.
  destruct (reach f q) as [j|] eqn:E; [|done]. apply Hc. by apply (reach_live f q j Hf).
Qed.

Lemma tree_all_unchanged f g q : tree_ok f → all_unchanged sb f g → tree g q = tree f q.
Proof.
  intros Hf Hu. unfold tree. rewrite (reach_same f g q Hf) by (intros; apply child_unchanged; auto).
  destruct (reach f q) as [j|] eqn:E; [|done]. simpl. f_equal.
  apply node_of_unchanged, Hu. by apply (reach_live f q j Hf).
Qed.

(** Only an inode that no path leads to changed. *)
Lemma reach_dead f g i q :
  tree_ok f → kind (inode f i) = KIND_FREE →
  (∀ j, inode_in_range sb j → j ≠ i → unchanged sb f g j) → reach g q = reach f q.
Proof.
  intros Hf Hk Hu. induction q as [|x q IH] using rev_ind; [done|]. rewrite !reach_snoc, IH.
  destruct (reach f q) as [j|] eqn:E; [|done]. destruct (reach_live f q j Hf E) as [Hj Hjk].
  apply child_unchanged; [done|]. apply Hu; [done|]. by intros ->.
Qed.

Lemma tree_dead f g i q :
  tree_ok f → kind (inode f i) = KIND_FREE →
  (∀ j, inode_in_range sb j → j ≠ i → unchanged sb f g j) → tree g q = tree f q.
Proof.
  intros Hf Hk Hu. unfold tree. rewrite (reach_dead f g i q) by done.
  destruct (reach f q) as [j|] eqn:E; [|done]. destruct (reach_live f q j Hf E) as [Hj Hjk].
  simpl. f_equal. apply node_of_unchanged, Hu; [done|]. by intros ->.
Qed.

(** One node changed, and no directory. *)
Lemma tree_update f g p T q :
  tree_ok f → reach f p = Some T → (∀ x, child g T x = child f T x) →
  (∀ j, inode_in_range sb j → j ≠ T → unchanged sb f g j) →
  tree g q = if decide (fold_path q = fold_path p) then Some (node_of g T) else tree f q.
Proof.
  intros Hf Hp HT Hu. unfold tree. rewrite (reach_same f g q Hf).
  2: { intros j x Hj. destruct (decide (j = T)) as [->|Hne]; [done|]. apply child_unchanged; auto. }
  case_decide as Hq; [by rewrite (reach_fold f q p Hq), Hp|].
  destruct (reach f q) as [j|] eqn:Hj; [|done]. simpl. f_equal. apply node_of_unchanged, Hu.
  - by apply (reach_live f q j Hf).
  - intros ->. destruct Hq. by apply (reach_inj f q p T Hf).
Qed.

(** The directory [P] at path [pp] got the entry [name] for the new inode [i]. *)
Lemma reach_create f g pp P es name i q :
  tree_ok f → reach f pp = Some P → dir_at f P = Ok es → has_name name es = false →
  kind (inode f i) = KIND_FREE → dir_at g P = Ok (es ++ [{| d_inode := i; d_name := name |}]) →
  (∀ x, child g i x = None) → (∀ j, inode_in_range sb j → j ≠ P → j ≠ i → unchanged sb f g j) →
  reach g q = if decide (fold_path q = fold_path (pp ++ [name])) then Some i else reach f q.
Proof.
  intros Hf Hpp HdP Hnew Hfree HdP' Hi Hu. apply find_entry_None in Hnew.
  assert (reach f (pp ++ [name]) = None) as Hnone.
  { rewrite reach_snoc, Hpp. unfold child. simpl. by rewrite HdP, Hnew. }
  induction q as [|x q IH] using rev_ind.
  { rewrite decide_False; [done|]. apply fold_path_nil_snoc. }
  rewrite !reach_snoc, IH. case_decide as Hq.
  - rewrite (reach_fold f q _ Hq), Hnone. simpl. rewrite Hi, decide_False; [done|].
    intros [E _]%fold_path_snoc. rewrite E in Hq. apply (f_equal length) in Hq.
    rewrite fold_path_app, length_app in Hq. simpl in Hq. lia.
  - destruct (reach f q) as [j|] eqn:Hj; simpl.
    + destruct (reach_live f q j Hf Hj) as [Hjr Hjk]. destruct (decide (j = P)) as [->|HjP].
      * pose proof (reach_inj f q pp P Hf Hj Hpp) as Eq. unfold child. rewrite HdP', HdP, find_entry_middle.
        destruct (decide (fold_path (q ++ [x]) = _)) as [[_ E]%fold_path_snoc|Hne].
        -- rewrite (find_entry_fold x name es E), Hnew. by rewrite decide_True by done.
        -- destruct (find_entry x es); [done|]. rewrite decide_False; [done|]. simpl. intros E.
           apply Hne, fold_path_snoc. done.
      * rewrite decide_False.
        -- apply child_unchanged; [done|]. apply Hu; [done|done|]. by intros ->.
        -- intros [E _]%fold_path_snoc. rewrite (reach_fold f q pp E) in Hj. congruence.
    + rewrite decide_False; [done|]. intros [E _]%fold_path_snoc. rewrite (reach_fold f q pp E) in Hj. congruence.
Qed.

(** The entry [name] of the directory [P] at path [pp] was removed. *)
Lemma reach_delete f g pp P es pos e q :
  tree_ok f → reach f pp = Some P → dir_at f P = Ok es → es !! pos = Some e →
  (∀ x, child f (d_inode e) x = None) → dir_at g P = Ok (delete pos es) →
  (∀ j, inode_in_range sb j → j ≠ P → j ≠ d_inode e → unchanged sb f g j) →
  reach g q = if decide (fold_path q = fold_path (pp ++ [d_name e])) then None else reach f q.
Proof.
  intros Hf Hpp HdP Hpos Hleaf HdP' Hu.
  assert (names_distinct es) as Hdist by (apply (tree_dir sb f P es Hf); [by apply (reach_live f pp P Hf)|done]).
  assert (reach f (pp ++ [d_name e]) = Some (d_inode e)) as HT.
  { rewrite reach_snoc, Hpp. unfold child. simpl. rewrite HdP. by rewrite (find_entry_lookup es pos e). }
  induction q as [|x q IH] using rev_ind.
  { rewrite decide_False; [done|]. apply fold_path_nil_snoc. }
  rewrite !reach_snoc, IH. case_decide as Hq.
  - rewrite (reach_fold f q _ Hq), HT. simpl. rewrite Hleaf. by case_decide.
  - destruct (reach f q) as [j|] eqn:Hj; simpl; [|by case_decide].
    destruct (reach_live f q j Hf Hj) as [Hjr Hjk]. destruct (decide (j = P)) as [->|HjP].
    + pose proof (reach_inj f q pp P Hf Hj Hpp) as Eq. unfold child. rewrite HdP', HdP.
      rewrite (find_entry_delete x es pos e Hdist Hpos).
      destruct (decide (fold_name x = _)) as [E|E]; [rewrite decide_True by (by apply fold_path_snoc); done|].
      rewrite decide_False; [done|]. by intros [_ ?]%fold_path_snoc.
    + rewrite decide_False.
      * apply child_unchanged; [done|]. apply Hu; [done|done|]. intros ->. destruct Hq. by apply (reach_inj f _ _ _ Hf Hj).
      * intros [E _]%fold_path_snoc. rewrite (reach_fold f q pp E) in Hj. congruence.
Qed.

Lemma strip_path_snoc pre y q x :
  strip_path (pre ++ [y]) (q ++ [x]) =
  match strip_path (pre ++ [y]) q with
  | Some r => Some (r ++ [x])
  | None => if decide (fold_path (q ++ [x]) = fold_path (pre ++ [y])) then Some [] else None
  end.
Proof.
  unfold strip_path. rewrite length_app. change (length [y]) with 1%nat.
  destruct (decide (length pre + 1 ≤ length q)%nat) as [Hle|Hgt].
  - rewrite take_app_le, drop_app_le by done.
    destruct (decide (fold_path (take _ q) = _)); [done|]. rewrite decide_False; [done|].
    intros E%(f_equal length). unfold fold_path in E. rewrite !length_fmap, !length_app in E. simpl in E. lia.
  - rewrite (decide_False (P := fold_path (take _ q) = _)).
    + rewrite (take_ge (q ++ [x])), (drop_ge (q ++ [x])); [done|rewrite length_app; simpl; lia..].
    + intros E%(f_equal length). unfold fold_path in E. rewrite !length_fmap, length_take, length_app in E. simpl in E. lia.
Qed.

Lemma strip_path_nil pre y : strip_path (pre ++ [y]) [] = None.
Proof. unfold strip_path. rewrite decide_False; [done|]. rewrite take_nil. apply fold_path_nil_snoc. Qed.

Lemma strip_path_length pre q r : strip_path pre q = Some r → (length pre ≤ length q)%nat.
Proof.
  unfold strip_path. case_decide as E; [|done]. intros _. apply (f_equal length) in E. unfold fold_path in E.
  rewrite !length_fmap, length_take in E. lia.
Qed.

Lemma strip_path_Some pre q r : strip_path pre q = Some r → fold_path q = fold_path (pre ++ r).
Proof.
  unfold strip_path. case_decide as E; [|done]. intros [= <-].
  rewrite fold_path_app, <- E, <- fold_path_app. by rewrite take_drop.
Qed.

Lemma strip_path_app pre r : strip_path pre (pre ++ r) = Some r.
Proof. unfold strip_path. by rewrite take_app_length, drop_app_length, decide_True. Qed.

(** The entry [old] of the directory [P] at path [pp] was renamed to [new]. *)
Lemma reach_rename f g pp P es pos e old new q :
  tree_ok f → reach f pp = Some P → dir_at f P = Ok es → es !! pos = Some e →
  fold_name (d_name e) = fold_name old → has_name new es = false →
  dir_at g P = Ok (alter (set_name new) pos es) →
  (∀ j, inode_in_range sb j → j ≠ P → unchanged sb f g j) →
  reach g q = before_move (pp ++ [old]) (pp ++ [new]) q ≫= reach f.
Proof.
  intros Hf Hpp HdP Hpos Hold Hnew HdP' Hu. apply find_entry_None in Hnew.
  assert (names_distinct es) as Hdist by (apply (tree_dir sb f P es Hf); [by apply (reach_live f pp P Hf)|done]).
  pose proof (find_entry_lookup es pos e old Hdist Hpos Hold) as HT.
  assert (∀ x, child g P x = if decide (fold_name x = fold_name new) then Some (d_inode e)
                             else if decide (fold_name x = fold_name old) then None else child f P x) as HcP.
  { intros x. unfold child. rewrite HdP', HdP, (find_entry_rename x es pos e new Hdist Hpos Hnew), Hold.
    by repeat case_decide. }
  assert (∀ j x, inode_in_range sb j → j ≠ P → child g j x = child f j x) as Hc
    by (intros; apply child_unchanged; auto).
  induction q as [|x q IH] using rev_ind.
  { unfold before_move. by rewrite !strip_path_nil. }
  rewrite reach_snoc, IH. unfold before_move. rewrite !strip_path_snoc.
  destruct (strip_path (pp ++ [new]) q) as [r|] eqn:En; simpl.
  { rewrite app_assoc, reach_snoc. destruct (reach f ((pp ++ [old]) ++ r)) as [j|] eqn:Hj; [|done]. simpl.
    apply Hc; [by apply (reach_live f _ j Hf Hj)|]. intros ->.
    pose proof (reach_inj f _ pp P Hf Hj Hpp) as E%(f_equal length). unfold fold_path in E.
    rewrite !length_fmap, !length_app in E. simpl in E. lia. }
  destruct (strip_path (pp ++ [old]) q) as [r|] eqn:Eo; simpl.
  { rewrite decide_False; [done|]. intros E%(f_equal length). unfold fold_path in E.
    rewrite !length_fmap, !length_app in E. pose proof (strip_path_length _ _ _ Eo) as Hl.
    rewrite length_app in Hl. simpl in *. lia. }
  destruct (decide (fold_path q = fold_path pp)) as [Eq|Eq].
  - rewrite (reach_fold f q pp Eq), Hpp. simpl. rewrite HcP.
    destruct (decide (fold_name x = fold_name new)) as [Ex|Ex].
    + rewrite decide_True by (by apply fold_path_snoc). simpl. rewrite app_nil_r, reach_snoc, Hpp.
      unfold child. simpl. by rewrite HdP, HT.
    + rewrite (decide_False (P := fold_path (q ++ [x]) = fold_path (pp ++ [new]))) by (by intros [_ ?]%fold_path_snoc).
      destruct (decide (fold_name x = fold_name old)) as [Ex'|Ex'].
      * by rewrite decide_True by (by apply fold_path_snoc).
      * rewrite decide_False by (by intros [_ ?]%fold_path_snoc). simpl.
        by rewrite reach_snoc, (reach_fold f q pp Eq), Hpp.
  - rewrite !decide_False by (by intros [? _]%fold_path_snoc). simpl. rewrite reach_snoc.
    destruct (reach f q) as [j|] eqn:Hj; [|done]. simpl. apply Hc; [by apply (reach_live f q j Hf)|].
    intros ->. destruct Eq. by apply (reach_inj f q pp P Hf).
Qed.

Lemma node_of_frame f g P j :
  is_dir (inode f P) = true → same_meta (inode f P) (inode g P) → (j ≠ P → unchanged sb f g j) →
  node_of g j = node_of f j.
Proof.
  intros Hd Hm Hu. destruct (decide (j = P)) as [->|Hne]; [by apply node_of_dir|]. by apply node_of_unchanged, Hu.
Qed.

Lemma is_dir_node_of f i : is_dir_node (node_of f i) = is_dir (inode f i).
Proof. done. Qed.

(** [walk] computes [resolve_from] of the tree, errors included. *)
Lemma resolve_from_walk f pre q j :
  tree_ok f → reach f pre = Some j →
  resolve_from (tree f) pre q = match walk sb f q j with Ok i => Ok (node_of f i) | Err e => Err e end.
Proof.
  intros Hf. revert pre j. induction q as [|x q IH]; intros pre j Hj; simpl; unfold tree at 1; rewrite Hj; simpl; [done|].
  destruct (reach_live f pre j Hf Hj) as [Hjr _]. rewrite is_dir_node_of.
  destruct (is_dir (inode f j)) eqn:Ed; [|by rewrite (dir_at_in sb f j Hjr), Ed].
  destruct (tree_dirs sb f Hf j Hjr Ed) as (es & Hd & _). rewrite Hd.
  assert (reach f (pre ++ [x]) = d_inode <$> find_entry x es) as Hx by (rewrite reach_snoc, Hj; unfold child; simpl; by rewrite Hd).
  destruct (find_entry x es) as [e|]; [by apply IH|]. destruct q; simpl; unfold tree; by rewrite Hx.
Qed.

Lemma path_inode_reach f path :
  tree_ok f →
  match path_inode sb f path with
  | Ok i => resolve (tree f) path = Ok (node_of f i) ∧ reach f (components path) = Some i ∧ inode_in_range sb i
  | Err e => resolve (tree f) path = Err e
  end.
Proof.
  intros Hf. unfold path_inode, resolve. destruct (trim_abs_path path) as [p|e] eqn:Et.
  - apply trim_abs_path_ok in Et as (-> & _ & <-). rewrite (resolve_from_walk f [] _ (root_inode sb) Hf) by done.
    replace (if bytes_eqb p (str "/") then Ok (root_inode sb) else walk sb f (components p) (root_inode sb))
      with (walk sb f (components p) (root_inode sb)).
    2: { case_if as E; [|done]. apply bytes_eqb_eq in E as ->. done. }
    destruct (walk sb f (components p) _) as [i|] eqn:Ew; [|done].
    assert (reach f (components p) = Some i) as Hr by (unfold reach; by rewrite Ew).
    split_and!; [done|done|]. by apply (reach_live f _ i Hf Hr).
  - apply trim_abs_path_err in Et as E. subst e. unfold trim_abs_path in Et. destruct (starts_with _ _); [|done]. done.
Qed.

(** On a well-formed tree, following a path is looking it up. *)
Lemma resolve_tree f path n :
  tree_ok f → starts_with (str "/") path = true → tree f (components path) = Some n →
  resolve (tree f) path = Ok n.
Proof.
  intros Hf Hs Ht. unfold resolve. rewrite Hs, (resolve_from_walk f [] _ (root_inode sb) Hf) by done.
  unfold tree, reach in Ht. destruct (walk sb f _ _) as [i|]; [|done]. by injection Ht as <-.
Qed.

(** [target_dir] is the abstract check on the parent. *)
Lemma in_parent_target f path fails k :
  tree_ok f →
  match target_dir sb f path with
  | Err e => fails e
  | Ok (P, name, es) => ∀ parent, split_parent_and_name path = Ok (parent, name) →
      components path = components parent ++ [name] → reach f (components parent) = Some P →
      inode_in_range sb P → dir_at f P = Ok es → k parent name
  end → in_parent (tree f) path fails k.
Proof.
  intros Hf. unfold target_dir, in_parent. destruct (split_parent_and_name path) as [[parent name]|e] eqn:Es; [|done].
  pose proof (path_inode_reach f parent Hf) as Hp. destruct (path_inode sb f parent) as [P|]; [|by rewrite Hp].
  destruct Hp as (-> & Hr & HP). rewrite is_dir_node_of. destruct (is_dir (inode f P)) eqn:Ed.
  - destruct (tree_dirs sb f Hf P HP Ed) as (es & Hd & _). rewrite Hd. intros Hk. apply Hk; try done.
    by apply split_components in Es as [? _].
  - by rewrite (dir_at_in sb f P HP), Ed.
Qed.

(** ** The operations meet the contract *)
Abbreviation runs := (runs (V := V)).

(** Is there room to rewrite the directory of [path] with [delta] more entries? *)
Definition entry_room f (path : bytes) (delta : Z) : bool :=
  match target_dir sb f path with
  | Ok (_, _, es) => bool_decide (dir_fits sb f (len es + delta))
  | Err _ => false
  end.

(** Is there room for a new node at [path]? *)
Definition create_room f (path : bytes) : bool :=
  bool_decide (is_Some (first_free sb f (candidates sb))) && entry_room f path 1.

Definition new_node (k uid gid mode : Z) : node :=
  {| n_kind := k; n_uid := uid; n_gid := gid; n_mode := effective_mode k (Z.land mode MODE_MASK); n_data := [] |}.

Lemma result_same {A} f g (r : result FsError A) r0 :
  tree_ok f → r = r0 → all_unchanged sb f g → result_is r (tree g) r0 (tree f).
Proof. intros Hf Hr Hu. split; [done|]. intros q. by apply tree_all_unchanged. Qed.

Lemma has_name_tree f path parent name P es :
  components path = components parent ++ [name] → reach f (components parent) = Some P → dir_at f P = Ok es →
  tree f (components path) = (node_of f ∘ d_inode) <$> find_entry name es.
Proof.
  intros Hc Hr Hd. unfold tree. rewrite Hc, reach_snoc, Hr. unfold child. simpl. rewrite Hd.
  by destruct (find_entry name es).
Qed.

Lemma create_post_spec f g path k uid gid mode r :
  tree_ok f → k = KIND_FILE ∨ k = KIND_DIR → create_post sb f path k uid gid mode r g → 
  create_spec (create_room f path) path (new_node k uid gid mode) (tree f) r (tree g).
Proof.
  intros Hf Hk Hpost. apply in_parent_target; [done|]. unfold create_post in Hpost.
  unfold create_room, entry_room. destruct (target_dir sb f path) as [[[P name] es]|e];
    [|destruct Hpost; by apply result_same].
  intros parent Hs Hc Hr HP Hd. rewrite (has_name_tree f path parent name P es Hc Hr Hd).
  destruct (has_name name es) eqn:Hn.
  { destruct (find_entry name es) eqn:E; [|apply find_entry_None in E; congruence].
    destruct Hpost. by apply result_same. }
  rewrite (proj2 (find_entry_None name es) Hn). simpl.
  destruct (first_free sb f (candidates sb)) as [i|] eqn:Ei.
  2: { rewrite bool_decide_eq_false_2 by (by intros []). destruct Hpost. by apply result_same. }
  rewrite (bool_decide_eq_true_2 (is_Some _)) by eauto. simpl. apply first_free_spec in Ei as [_ Hfree].
  destruct (tree_dir sb f P es Hf HP Hd) as (Hdir & _). destruct Hpost as [Hu Hpost].
  destruct (decide _) as [Hfit|Hfit].
  - destruct Hpost as (-> & HdP & Hmeta & Ei & Ec). rewrite bool_decide_eq_true_2 by done.
    split; [done|]. intros q. rewrite Hc. unfold tree at 1, tree_set.
    assert (∀ x, child g i x = None) as Hleaf.
    { intros x. unfold child, CoolDir.dir_at, lookup_inode. destruct (_ <? _); [|done]. rewrite Ec. by destruct (is_dir (inode g i)). }
    rewrite (reach_create f g (components parent) P es name i q) by done.
    case_decide as Eq; simpl.
    + f_equal. unfold node_of, inode_node, new_node. rewrite Ec, Ei. f_equal. by case_if.
    + unfold tree. destruct (reach f q) as [j|] eqn:Hj; [|done]. simpl. f_equal.
      destruct (reach_live f q j Hf Hj) as [Hjr Hjk]. apply (node_of_frame f g P); [done..|].
      intros HjP. apply Hu; [done|done|]. by intros ->.
  - rewrite bool_decide_eq_false_2 by done. destruct Hpost as (-> & HuP & Ei).
    split; [done|]. intros q. apply tree_dead with i; [done|done|]. intros j Hj Hji.
    destruct (decide (j = P)) as [->|HjP]; [done|by apply Hu].
Qed.

Lemma position_find name es :
  names_distinct es →
  match position (λ e, names_equal (d_name e) name) es with
  | Some pos => ∃ e, es !! pos = Some e ∧ fold_name (d_name e) = fold_name name ∧ find_entry name es = Some e
  | None => find_entry name es = None
  end.
Proof.
  intros Hd. destruct (position _ es) as [pos|] eqn:E.
  - apply position_Some in E as (e & Hpos & Hn%names_equal_fold & _). exists e. split_and!; [done|done|].
    by apply (find_entry_lookup es pos e name).
  - apply find_entry_None. unfold has_name. apply not_true_iff_false. rewrite existsb_exists.
    intros (e & He%list_elem_of_In & Hn). rewrite position_None in E. specialize (E e He). simpl in E. congruence.
Qed.

Lemma nonempty_children f q t :
  reach f q = Some t → nonempty_dir sb f t = true ↔ has_children (tree f) q.
Proof.
  intros Hr. unfold nonempty_dir, has_children, tree. split.
  - destruct (dir_at f t) as [[|e es]|] eqn:Ed; [done| |done]. intros _. exists (d_name e).
    rewrite reach_snoc, Hr. unfold child. simpl. rewrite Ed. unfold find_entry. cbn [List.find].
    by rewrite (proj2 (names_equal_fold (d_name e) (d_name e)) eq_refl).
  - intros [x Hx]. rewrite reach_snoc, Hr in Hx. unfold child in Hx. simpl in Hx.
    destruct (dir_at f t) as [[|e es]|]; [by destruct Hx|done|by destruct Hx].
Qed.

Lemma delete_post_spec f g path r :
  tree_ok f → delete_post sb f path r g →
  delete_spec (entry_room f path (-1)) path (tree f) r (tree g).
Proof.
  intros Hf Hpost. apply in_parent_target; [done|]. unfold delete_post in Hpost. unfold entry_room.
  destruct (target_dir sb f path) as [[[P name] es]|e]; [|destruct Hpost; by apply result_same].
  intros parent Hs Hc Hr HP Hd. rewrite (has_name_tree f path parent name P es Hc Hr Hd).
  destruct (tree_dir sb f P es Hf HP Hd) as (Hdir & _ & Hdist & _).
  pose proof (position_find name es Hdist) as Hp. destruct (position _ es) as [pos|].
  2: { rewrite Hp. destruct Hpost. by apply result_same. }
  destruct Hp as (e & Hpos & Hne & Hfind). rewrite Hfind. simpl. cbv zeta in Hpost.
  rewrite (nth_map_lookup es pos e Hpos) in Hpost.
  assert (reach f (components path) = Some (d_inode e)) as HT.
  { rewrite Hc, reach_snoc, Hr. unfold child. simpl. by rewrite Hd, Hfind. }
  pose proof (nonempty_children f _ _ HT) as Hchild. destruct (nonempty_dir sb f (d_inode e)).
  { left. split; [by apply Hchild|]. destruct Hpost. by apply result_same. }
  right. split; [by intros ?%Hchild|]. change (len es + -1) with (len es - 1).
  destruct (decide _) as [Hfit|Hfit].
  - destruct Hpost as (-> & HdP & Ei & Hmeta & _ & Hu). rewrite bool_decide_eq_true_2 by done.
    split; [done|]. intros q. unfold tree at 1, tree_set.
    assert (∀ x, child f (d_inode e) x = None) as Hleaf.
    { intros x. destruct (child f (d_inode e) x) as [c|] eqn:E; [|done]. destruct Hchild as [_ Hchild].
      discriminate Hchild. exists x. unfold tree. by rewrite reach_snoc, HT; simpl; rewrite E. }
    rewrite (reach_delete f g (components parent) P es pos e q) by done.
    assert (fold_path (components parent ++ [d_name e]) = fold_path (components path)) as ->
      by (rewrite Hc; by apply fold_path_snoc).
    case_decide as Eq; [done|]. unfold tree. destruct (reach f q) as [j|] eqn:Hj; [|done]. simpl. f_equal.
    destruct (reach_live f q j Hf Hj) as [Hjr Hjk]. apply (node_of_frame f g P); [done..|].
    intros HjP. apply Hu; [done|done|]. intros ->. destruct Eq. by apply (reach_inj f _ _ _ Hf Hj).
  - destruct Hpost. rewrite bool_decide_eq_false_2 by done. by apply result_same.
Qed.

Lemma rename_post_spec f g path new_name r :
  tree_ok f → rename_post sb f path new_name r g →
  rename_spec (entry_room f path 0) path new_name (tree f) r (tree g).
Proof.
  intros Hf Hpost. unfold rename_spec, rename_post in *.
  destruct (same_name_as path new_name); [destruct Hpost; by apply result_same|].
  apply in_parent_target; [done|]. unfold entry_room.
  destruct (target_dir sb f path) as [[[P name] es]|e]; [|destruct Hpost; by apply result_same].
  intros parent Hs Hc Hr HP Hd. rewrite (has_name_tree f path parent name P es Hc Hr Hd). cbv zeta.
  replace (tree f (components parent ++ [new_name])) with ((node_of f ∘ d_inode) <$> find_entry new_name es).
  2: { unfold tree. rewrite reach_snoc, Hr. unfold child. simpl. rewrite Hd. by destruct (find_entry new_name es). }
  destruct (tree_dir sb f P es Hf HP Hd) as (Hdir & _ & Hdist & _).
  destruct (has_name new_name es) eqn:Hn.
  { destruct (find_entry new_name es) eqn:E; [|apply find_entry_None in E; congruence].
    destruct Hpost. by apply result_same. }
  rewrite (proj2 (find_entry_None new_name es) Hn). simpl.
  pose proof (position_find name es Hdist) as Hp. destruct (position _ es) as [pos|].
  2: { rewrite Hp. destruct Hpost. by apply result_same. }
  destruct Hp as (e & Hpos & Hne & Hfind). rewrite Hfind, Z.add_0_r. simpl.
  destruct (decide _) as [Hfit|Hfit].
  - destruct Hpost as (-> & HdP & Hmeta & Hu). rewrite bool_decide_eq_true_2 by done.
    split; [done|]. intros q. unfold tree at 1. rewrite Hc.
    rewrite (reach_rename f g (components parent) P es pos e name new_name q) by done.
    destruct (before_move _ _ q) as [q'|]; [|done]. simpl. unfold tree.
    destruct (reach f q') as [j|] eqn:Hj; [|done]. simpl. f_equal.
    apply (node_of_frame f g P); [done..|]. apply Hu. by apply (reach_live f q' j Hf).
  - destruct Hpost. rewrite bool_decide_eq_false_2 by done. by apply result_same.
Qed.

(** ** Every inode in use has a path *)
Definition no_orphans f : Prop :=
  ∀ i, inode_in_range sb i → kind (inode f i) ≠ KIND_FREE → ∃ q, reach f q = Some i.

(** The invariant of the volume. *)
Record volume_ok f : Prop := { vol_tree :> tree_ok f; vol_reach : no_orphans f }.

Lemma in_parent_const t path (X : Prop) : in_parent t path (λ _, X) (λ _ _, X) → X.
Proof. unfold in_parent. destruct (split_parent_and_name path) as [[]|]; [|done]. destruct (resolve t _); [|done]. by case_if. Qed.

Lemma no_orphans_same f g :
  tree_ok f → (∀ j, inode_in_range sb j → dir_at g j = dir_at f j ∧ kind (inode g j) = kind (inode f j)) →
  no_orphans f → no_orphans g.
Proof.
  intros Hf Hs Hn i Hi Hk. rewrite (proj2 (Hs i Hi)) in Hk. destruct (Hn i Hi Hk) as [q Hq]. exists q.
  rewrite (reach_same f g q Hf); [done|]. intros j x Hj. unfold child. by rewrite (proj1 (Hs j Hj)).
Qed.

Lemma no_orphans_unchanged f g : tree_ok f → all_unchanged sb f g → no_orphans f → no_orphans g.
Proof.
  intros Hf Hu. apply (no_orphans_same f g Hf). intros j Hj.
  split; [apply unchanged_dir; auto|]. by destruct (Hu j Hj) as [-> _].
Qed.

Lemma create_post_reach f g path k uid gid mode r :
  tree_ok f → create_post sb f path k uid gid mode r g → no_orphans f → no_orphans g.
Proof.
  intros Hf Hpost Hn. apply (in_parent_const (tree f) path), in_parent_target; [done|]. unfold create_post in Hpost.
  destruct (target_dir sb f path) as [[[P name] es]|e]; [|destruct Hpost; by apply (no_orphans_unchanged f g)].
  intros parent Hs Hc Hr HP Hd. destruct (has_name name es) eqn:Hnm; [destruct Hpost; by apply (no_orphans_unchanged f g)|].
  destruct (first_free sb f (candidates sb)) as [i|] eqn:Ei; [|destruct Hpost; by apply (no_orphans_unchanged f g)].
  apply first_free_spec in Ei as [_ Hfree]. destruct Hpost as [Hu Hpost]. destruct (decide _) as [Hfit|Hfit].
  - destruct Hpost as (_ & HdP & Hmeta & Ei & Ec).
    assert (∀ x, child g i x = None) as Hleaf.
    { intros x. unfold child, CoolDir.dir_at, lookup_inode. destruct (_ <? _); [|done]. rewrite Ec. by destruct (is_dir (inode g i)). }
    intros j Hj Hk. destruct (decide (j = i)) as [->|Hji].
    { exists (components parent ++ [name]). rewrite (reach_create f g (components parent) P es name i) by done. by rewrite decide_True. }
    destruct (Hn j Hj) as [q Hq].
    { destruct (decide (j = P)) as [->|HjP]; [by rewrite <- (proj1 Hmeta)|]. by destruct (Hu j Hj HjP Hji) as [<- _]. }
    exists q. rewrite (reach_create f g (components parent) P es name i q) by done. case_decide as Eq; [|done].
    rewrite (reach_fold f q _ Eq), reach_snoc, Hr in Hq. unfold child in Hq. simpl in Hq. rewrite Hd in Hq.
    by rewrite (proj2 (find_entry_None name es) Hnm) in Hq.
  - destruct Hpost as (_ & HuP & Ei). intros j Hj Hk.
    assert (∀ j, inode_in_range sb j → j ≠ i → unchanged sb f g j) as Hu'.
    { intros j' Hj' Hne. destruct (decide (j' = P)) as [->|HjP]; [done|by apply Hu]. }
    destruct (decide (j = i)) as [->|Hji]; [by rewrite Ei in Hk|]. destruct (Hu' j Hj Hji) as [Ej _]. rewrite Ej in Hk.
    destruct (Hn j Hj Hk) as [q Hq]. exists q. by rewrite (reach_dead f g i q).
Qed.

Lemma delete_post_reach f g path r :
  tree_ok f → delete_post sb f path r g → no_orphans f → no_orphans g.
Proof.
  intros Hf Hpost Hn. apply (in_parent_const (tree f) path), in_parent_target; [done|]. unfold delete_post in Hpost.
  destruct (target_dir sb f path) as [[[P name] es]|e]; [|destruct Hpost; by apply (no_orphans_unchanged f g)].
  intros parent Hs Hc Hr HP Hd. destruct (tree_dir sb f P es Hf HP Hd) as (_ & _ & Hdist & _).
  pose proof (position_find name es Hdist) as Hp. destruct (position _ es) as [pos|];
    [|destruct Hpost; by apply (no_orphans_unchanged f g)].
  destruct Hp as (e & Hpos & Hne & Hfind). cbv zeta in Hpost. rewrite (nth_map_lookup es pos e Hpos) in Hpost.
  assert (reach f (components path) = Some (d_inode e)) as HT.
  { rewrite Hc, reach_snoc, Hr. unfold child. simpl. by rewrite Hd, Hfind. }
  pose proof (nonempty_children f _ _ HT) as Hchild.
  destruct (nonempty_dir sb f (d_inode e)); [destruct Hpost; by apply (no_orphans_unchanged f g)|].
  destruct (decide _) as [Hfit|Hfit]; [|destruct Hpost; by apply (no_orphans_unchanged f g)].
  destruct Hpost as (_ & HdP & Ei & Hmeta & _ & Hu).
  assert (∀ x, child f (d_inode e) x = None) as Hleaf.
  { intros x. destruct (child f (d_inode e) x) as [c|] eqn:E; [|done]. destruct Hchild as [_ Hchild].
    discriminate Hchild. exists x. unfold tree. by rewrite reach_snoc, HT; simpl; rewrite E. }
  intros j Hj Hk. destruct (decide (j = d_inode e)) as [->|Hje]; [by rewrite Ei in Hk|]. destruct (Hn j Hj) as [q Hq].
  { destruct (decide (j = P)) as [->|HjP]; [by rewrite <- (proj1 Hmeta)|]. by destruct (Hu j Hj HjP Hje) as [<- _]. }
  exists q. rewrite (reach_delete f g (components parent) P es pos e q) by done. case_decide as Eq; [|done].
  rewrite (reach_fold f q (components path)), HT in Hq; [congruence|]. rewrite Eq, Hc. by apply fold_path_snoc.
Qed.

Lemma reach_app_None f p r : reach f p = None → reach f (p ++ r) = None.
Proof. unfold reach. rewrite walk_app. by destruct (walk sb f p _). Qed.

Lemma rename_post_reach f g path new_name r :
  tree_ok f → rename_post sb f path new_name r g → no_orphans f → no_orphans g.
Proof.
  intros Hf Hpost Hn. unfold rename_post in Hpost.
  destruct (same_name_as path new_name); [destruct Hpost; by apply (no_orphans_unchanged f g)|].
  apply (in_parent_const (tree f) path), in_parent_target; [done|].
  destruct (target_dir sb f path) as [[[P name] es]|e]; [|destruct Hpost; by apply (no_orphans_unchanged f g)].
  intros parent Hs Hc Hr HP Hd. destruct (tree_dir sb f P es Hf HP Hd) as (_ & _ & Hdist & _).
  destruct (has_name new_name es) eqn:Hnm; [destruct Hpost; by apply (no_orphans_unchanged f g)|].
  pose proof (position_find name es Hdist) as Hp. destruct (position _ es) as [pos|];
    [|destruct Hpost; by apply (no_orphans_unchanged f g)].
  destruct Hp as (e & Hpos & Hne & Hfind).
  destruct (decide _) as [Hfit|Hfit]; [|destruct Hpost; by apply (no_orphans_unchanged f g)].
  destruct Hpost as (_ & HdP & Hmeta & Hu).
  assert (∀ q, reach g q = before_move (components parent ++ [name]) (components parent ++ [new_name]) q ≫= reach f) as Hg
    by (intros q; by apply (reach_rename f g (components parent) P es pos e name new_name q)).
  assert (reach f (components parent ++ [new_name]) = None) as Hnew.
  { rewrite reach_snoc, Hr. unfold child. simpl. by rewrite Hd, (proj2 (find_entry_None new_name es) Hnm). }
  intros j Hj Hk. destruct (Hn j Hj) as [q Hq].
  { destruct (decide (j = P)) as [->|HjP]; [by rewrite <- (proj1 Hmeta)|]. by destruct (Hu j Hj HjP) as [<- _]. }
  destruct (strip_path (components parent ++ [name]) q) as [r'|] eqn:Eo.
  - exists ((components parent ++ [new_name]) ++ r'). rewrite Hg. unfold before_move. rewrite strip_path_app. simpl.
    apply strip_path_Some in Eo. by rewrite <- (reach_fold f q _ Eo).
  - exists q. rewrite Hg. unfold before_move. destruct (strip_path (components parent ++ [new_name]) q) as [r'|] eqn:En.
    + apply strip_path_Some in En. rewrite (reach_fold f q _ En) in Hq. by rewrite (reach_app_None f _ _ Hnew) in Hq.
    + by rewrite Eo.
Qed.

(** ** Writing and reading files *)
Definition data_room f (data : bytes) : bool :=
  bool_decide (len data ≤ MAX_FILE ∧ blocks_total (blocks_needed (len data)) ≤ len (free_list sb f)).

(** The tree is well formed as long as directories and kinds are kept. *)
Lemma tree_ok_same_dirs f g :
  tree_ok f → fs_ok sb g →
  (∀ j, inode_in_range sb j → dir_at g j = dir_at f j ∧ kind (inode g j) = kind (inode f j)) → tree_ok g.
Proof.
  intros Hf Hg Hs.
  assert (∀ j, inode_in_range sb j → is_dir (inode g j) = is_dir (inode f j)) as Hd
    by (intros j Hj; unfold is_dir; by rewrite (proj2 (Hs j Hj))).
  split; [done| | | |].
  - rewrite Hd by apply Hf. apply Hf.
  - intros i Hi. rewrite Hd, (proj1 (Hs i Hi)) by done. by apply Hf.
  - intros i es e Hi. rewrite (proj1 (Hs i Hi)). intros He Hin.
    destruct (tree_live sb f Hf i es e Hi He Hin) as (Hr & Hk & Hro). by rewrite (proj2 (Hs _ Hr)).
  - intros i i' es es' k k' e e' Hi Hi'. rewrite (proj1 (Hs i Hi)), (proj1 (Hs i' Hi')). by apply (tree_once sb f Hf).
Qed.

Lemma fs_ok_live f g T :
  fs_ok sb f → fs_wf sb g → kind (inode f T) ≠ KIND_FREE → kind (inode g T) = kind (inode f T) →
  (∀ j, inode_in_range sb j → j ≠ T → unchanged sb f g j) → fs_ok sb g.
Proof.
  intros Hf Hg HT Hk Hu. split; [done|apply Hf|]. intros i Hi Hfree.
  destruct (decide (i = T)) as [->|Hne]; [congruence|]. destruct (Hu i Hi Hne) as [Ei _]. rewrite Ei in *.
  destruct (empty_of_owned sb f (inode f i)) as [Es Eind]; [by apply Hf|by apply Hf|]. by apply empty_owned.
Qed.

(** A live inode changed, keeping its kind and, if it is a directory, its entries. *)
Lemma volume_ok_file f g T :
  volume_ok f → fs_wf sb g → inode_in_range sb T → kind (inode f T) ≠ KIND_FREE →
  kind (inode g T) = kind (inode f T) → dir_at g T = dir_at f T →
  (∀ j, inode_in_range sb j → j ≠ T → unchanged sb f g j) → volume_ok g.
Proof.
  intros [Hf Hn] Hg HT Hlive Hk Hd Hu.
  assert (∀ j, inode_in_range sb j → dir_at g j = dir_at f j ∧ kind (inode g j) = kind (inode f j)) as Hs.
  { intros j Hj. destruct (decide (j = T)) as [->|Hne]; [done|].
    split; [apply unchanged_dir; auto|]. by destruct (Hu j Hj Hne) as [-> _]. }
  split; [|by apply (no_orphans_same f g Hf)]. apply (tree_ok_same_dirs f g Hf); [|done].
  by apply (fs_ok_live f g T (tree_fs sb f Hf)).
Qed.

Lemma runs_path f path :
  tree_ok f → runs (resolve_path sb path) f (path_inode sb f path) f.
Proof.
  intros Hf. pose proof (ok_root _ _ (tree_fs sb f Hf)) as Hroot.
  apply (runs_resolve_path Hwindow sb Hwf f path); [apply Hf|apply Hroot].
Qed.

Lemma runs_write_file f path data :
  volume_ok f → Forall is_byte data →
  ∃ r g, runs (write_file_image sb path data) f r g ∧ volume_ok g ∧
         write_spec (data_room f data) path data (tree f) r (tree g).
Proof.
  intros Hv Hby. pose proof (vol_tree f Hv) as Hf. pose proof (path_inode_reach f path Hf) as Hp. pose proof (runs_path f path Hf) as Hr.
  unfold write_spec, write_file_image. destruct (path_inode sb f path) as [T|e].
  2: { rewrite Hp. exists (Err e), f. split_and!; [by apply runs_bind_err|done|done]. }
  destruct Hp as (-> & HT & HTr). change (is_file_node (node_of f T)) with (is_file (inode f T)).
  destruct (is_file (inode f T)) eqn:Ek; cbn [negb].
  2: { exists (Err InvalidPath), f. split_and!; [|done|done]. eapply runs_bind; [exact Hr|].
       eapply runs_bind; [by apply runs_ok_or, runs_read_inode|]. rewrite Ek. apply runs_throw. }
  destruct (runs_write_inode_bytes Hwindow sb Hwf f T data) as (r & g & Hw & Hg & Hu & Hpost); [apply Hf|done|done|].
  exists r, g.
  assert (runs (write_file_image sb path data) f r g) as Hrun.
  { eapply runs_bind; [exact Hr|]. eapply runs_bind; [by apply runs_ok_or, runs_read_inode|]. by rewrite Ek. }
  assert (same_meta (inode f T) (inode g T)) as Hmeta.
  { destruct (decide _); [by destruct Hpost as (_ & _ & N & ind & _ & ->)|by destruct Hpost as (_ & -> & _)]. }
  assert (is_dir (inode g T) = false ∧ is_dir (inode f T) = false) as [Hgd Hfd].
  { unfold is_dir, is_file, KIND_DIR, KIND_FILE in *. rewrite (proj1 Hmeta). lia. }
  assert (kind (inode f T) ≠ KIND_FREE) as Hlive by (by apply (reach_live f _ T Hf HT)).
  assert (dir_at g T = dir_at f T) as HdT by (by rewrite !(dir_at_in sb _ T HTr), Hgd, Hfd).
  split_and!; [exact Hrun|apply (volume_ok_file f g T); try done; apply Hmeta|].
  unfold data_room. destruct (decide _) as [Hroom|Hroom].
  - rewrite bool_decide_eq_true_2 by done. destruct Hpost as (-> & Hc & _). split; [done|]. intros q.
    rewrite (tree_update f g (components path) T q); [|done|done|intros x; unfold child; by rewrite HdT|done].
    unfold tree_set. case_decide; [|done]. f_equal. unfold node_of, inode_node, set_data. destruct Hmeta as (-> & -> & -> & ->).
    by rewrite Hgd, Hc.
  - rewrite bool_decide_eq_false_2 by done. destruct Hpost as (-> & HuT).
    apply result_same; [done|done|]. intros j Hj. destruct (decide (j = T)) as [->|]; auto.
Qed.

Lemma runs_read_file f path :
  tree_ok f → runs (read_file_image sb path) f (read_spec path (tree f)) f.
Proof.
  intros Hf. pose proof (path_inode_reach f path Hf) as Hp. pose proof (runs_map_err (λ _, tt) _ _ _ _ (runs_path f path Hf)) as Hr.
  unfold read_spec, read_file_image. destruct (path_inode sb f path) as [T|e]; [|rewrite Hp; by apply runs_bind_err].
  destruct Hp as (-> & HT & HTr). eapply runs_bind; [exact Hr|]. eapply runs_bind; [by apply runs_read_inode|].
  change (is_file_node (node_of f T)) with (is_file (inode f T)).
  destruct (is_file (inode f T)) eqn:Ek; cbn [negb]; [|apply runs_throw].
  assert (is_dir (inode f T) = false) as Hfd by (unfold is_dir, is_file, KIND_DIR, KIND_FILE in *; lia).
  unfold node_of, inode_node. cbn [n_data]. rewrite Hfd. apply runs_ok, runs_read_inode_bytes; [done|done|]. by apply Hf.
Qed.

(** ** Changing owner and mode *)
Lemma fs_wf_meta f i ino' :
  fs_wf sb f → inode_in_range sb i → inode_ok ino' →
  size ino' = size (inode f i) → direct ino' = direct (inode f i) → indirect ino' = indirect (inode f i) →
  let g := mwrite f (inode_off sb i) (encode_inode ino') in
  fs_wf sb g ∧ inode g i = stored ino' ∧ content g (inode g i) = content f (inode f i) ∧
  ∀ j, inode_in_range sb j → j ≠ i → unchanged sb f g j.
Proof.
  intros Hf Hi Hok Es Ed Eind g.
  destruct (inode_write_same sb Hwf i ino' f Hi (iok_direct_len _ Hok) (iok_kind _ Hok)) as (Wu & Ws & Wb & Wd & W0).
  fold g in Wu, Ws, Wb, Wd, W0.
  assert (inode g i = stored ino') as Ei by (unfold decode_inode, g; by rewrite decode_encode_at).
  assert (∀ h, owned h (stored ino') = owned h (inode f i) ∧ content h (stored ino') = content h (inode f i)) as Hsame.
  { intros h. unfold owned, content, data_blocks, ind_entries, nblocks. cbn [stored size direct indirect].
    by rewrite Es, Ed, Eind. }
  assert (∀ j, inode_in_range sb j → owned g (inode g j) = owned f (inode f j) ∧
            content g (inode g j) = content f (inode f j) ∧ file_wf sb g (inode g j)) as Hall.
  { intros j Hj. pose proof (wf_files _ _ Hf j Hj) as Hfj.
    destruct (file_same sb f g (inode f j) [] Hfj Ws) as (Eo & Ec & Hw & _); [by intros b _ ?%not_elem_of_nil|].
    destruct (decide (j = i)) as [->|Hne]; [|by rewrite (Wd j Hj Hne)]. rewrite Ei, (proj1 (Hsame g)), (proj2 (Hsame g)).
    split_and!; [done|done|]. destruct Hw. split; cbn [stored size direct indirect]; unfold nblocks in *;
      cbn [stored size direct indirect] in *; rewrite ?Es, ?Ed, ?Eind, ?(proj1 (Hsame g)); done. }
  split_and!; [split| | |].
  - apply Wb, Hf.
  - apply (super_wf_same sb f g W0), Hf.
  - intros j Hj. by apply Hall.
  - intros j k b Hj Hk Hne. rewrite (proj1 (Hall j Hj)), (proj1 (Hall k Hk)). by apply Hf.
  - intros b Hb. rewrite (Wu b) by (by apply (data_block_range sb Hwf)). rewrite (wf_used _ _ Hf b Hb).
    split; intros (j & Hj & Hin); exists j; (split; [done|]); [rewrite (proj1 (Hall j Hj))|rewrite <- (proj1 (Hall j Hj))]; done.
  - done.
  - by apply Hall.
  - intros j Hj Hne. split; [by apply Wd|by apply Hall].
Qed.

(** What [chmod] and [chown] do to the node at [path]. *)
Definition update_spec (path : bytes) (h : node → node) (t : Tree) (r : result FsError unit) (t' : Tree) : Prop :=
  match resolve t path with
  | Err e => result_is r t' (Err e) t
  | Ok n => result_is r t' (Ok tt) (tree_set (components path) (Some (h n)) t)
  end.

Lemma runs_update_inode f path upd h :
  volume_ok f →
  (∀ ino, inode_ok ino → inode_ok (upd ino) ∧ kind (upd ino) = kind ino ∧ size (upd ino) = size ino ∧
                         direct (upd ino) = direct ino ∧ indirect (upd ino) = indirect ino) →
  (∀ i data, inode_in_range sb i → inode_node (stored (upd (inode f i))) data = h (inode_node (inode f i) data)) →
  ∃ r g, runs (update_inode_image sb path upd) f r g ∧ volume_ok g ∧ update_spec path h (tree f) r (tree g).
Proof.
  intros Hv Hupd Hh. pose proof (vol_tree f Hv) as Hf. pose proof (path_inode_reach f path Hf) as Hp. pose proof (runs_path f path Hf) as Hr.
  unfold update_spec, update_inode_image. destruct (path_inode sb f path) as [T|e].
  2: { rewrite Hp. exists (Err e), f. split_and!; [by apply runs_bind_err|done|done]. }
  destruct Hp as (-> & HT & HTr). destruct (reach_live f _ T Hf HT) as [_ Hlive].
  pose proof (decode_ok sb Hwf f T (wf_bytes _ _ (ok_wf _ _ (tree_fs sb f Hf))) HTr) as Hok.
  destruct (Hupd (inode f T) Hok) as (Hok' & Ek & Es & Ed & Eind).
  destruct (fs_wf_meta f T (upd (inode f T))) as (Hg & Ei & Ec & Hu); [apply Hf|done..|].
  set (g := mwrite f (inode_off sb T) (encode_inode (upd (inode f T)))) in *.
  exists (Ok tt), g.
  assert (kind (inode g T) = kind (inode f T)) as HkT by (by rewrite Ei).
  assert (is_dir (inode g T) = is_dir (inode f T)) as HdT by (unfold is_dir; by rewrite HkT).
  assert (dir_at g T = dir_at f T) as HdirT by (by rewrite !(dir_at_in sb _ T HTr), HdT, Ec).
  split_and!; [|by apply (volume_ok_file f g T)|].
  - eapply runs_bind; [exact Hr|]. eapply runs_bind; [by apply runs_ok_or, runs_read_inode|].
    rewrite (proj2 (Z.eqb_neq _ _) Hlive). by apply runs_write_inode; [..|apply Hok'|apply Hok'].
  - split; [done|]. intros q. rewrite (tree_update f g (components path) T q);
      [|done|done|intros x; unfold child; by rewrite HdirT|done].
    unfold tree_set. case_decide; [|done]. f_equal. unfold node_of. by rewrite <- Hh, Ec, HdT, Ei.
Qed.

Definition node_mode (mode : Z) (n : node) : node :=
  {| n_kind := n_kind n; n_uid := n_uid n; n_gid := n_gid n;
     n_mode := effective_mode (n_kind n) (Z.land mode MODE_MASK); n_data := n_data n |}.
Definition node_owner (uid gid : Z) (n : node) : node :=
  {| n_kind := n_kind n; n_uid := uid; n_gid := gid; n_mode := n_mode n; n_data := n_data n |}.

Lemma land_mask_range m : 0 ≤ m → 0 ≤ Z.land m MODE_MASK < 2 ^ 9.
Proof.
  intros. change MODE_MASK with (Z.ones 9). rewrite Z.land_ones by lia. apply Z.mod_pos_bound. lia.
Qed.

Lemma runs_chmod f path mode :
  volume_ok f → 0 ≤ mode →
  ∃ r g, runs (update_inode_image sb path (set_mode (Z.land mode MODE_MASK))) f r g ∧ volume_ok g ∧
         update_spec path (node_mode mode) (tree f) r (tree g).
Proof.
  intros Hf Hm. pose proof (land_mask_range mode Hm). apply runs_update_inode; [done| |done].
  intros ino []. split_and!; try done. split; cbn [set_mode kind size direct indirect i_uid i_gid i_mode]; try done. lia.
Qed.

Lemma runs_chown f path uid gid :
  volume_ok f → u32 uid → u32 gid →
  ∃ r g, runs (update_inode_image sb path (set_owner uid gid)) f r g ∧ volume_ok g ∧
         update_spec path (node_owner uid gid) (tree f) r (tree g).
Proof.
  intros Hf Hu Hg. apply runs_update_inode; [done| |].
  - intros ino []. by split_and!.
  - intros i data Hi. unfold inode_node, node_owner. cbn [stored set_owner kind i_uid i_gid i_mode n_kind n_mode n_data].
    f_equal. apply effective_mode_idem.
Qed.
End tree.
