(* ===== verification/CoolMount.v ===== *)
(** * Formatting, mounting and the public operations of CoolFS

    The functions of src/src/coolfs.rs that the rest of the kernel calls, on
    the mounted volume: [format_image] writes an empty tree, [ensure_image]
    recovers the volume that was flushed, and every operation meets the
    contract of [CoolTree].  [mounted sb st f] says that the slot [COOLFS]
    holds an image with superblock [sb] whose contents are the memory [f]. *)
From stdpp Require Import gmap.
From S2P Require Import Prelude DiskLayout Storage Text Paths Security BlockCache CoolImage CoolMem CoolFile CoolContent CoolFs CoolDir CoolTree.
Set Warnings "-clear-no-such-hyp".

Local Open Scope Z_scope.
Local Open Scope st_scope.

Section mount.
Context {V : Type} `{ReliableStore V}.
Context (Hwindow : TOTAL_BLOCKS * SECTORS_PER_BLOCK ≤ swindow).
Implicit Types (f g : mem) (d : V).
Abbreviation runs := (runs (V := V)).

(** ** The memory on a volume *)
Lemma disk_block_ok d b :
  sgood d → block_in_range b → len (disk_block d b) = BLOCK_SIZE ∧ Forall is_byte (disk_block d b).
Proof.
  intros Hd Hb. destruct (read_disk_block_good Hwindow b d Hd Hb) as (o & d' & E & _).
  apply read_disk_block_spec in E as (_ & _ & -> & ? & ?); [done|by apply sgood_inv|done].
Qed.

Definition store_mem d : mem := λ a, nthZ (disk_block d (a / BLOCK_SIZE)) (a mod BLOCK_SIZE).

Lemma mread_store_mem d b :
  sgood d → block_in_range b → mread (store_mem d) (b * BLOCK_SIZE) BLOCK_SIZE = disk_block d b.
Proof.
  intros Hd Hb. destruct (disk_block_ok d b Hd Hb) as [Hl _].
  apply nthZ_ext; rewrite len_mread by done; [done|]. intros i Hi. rewrite nthZ_mread by done.
  unfold store_mem. rewrite Z.div_add_l, Z.div_small, Z.add_0_r by (unfold BLOCK_SIZE in *; lia).
  rewrite (Z.add_comm (b * BLOCK_SIZE)), Z.mod_add, Z.mod_small by (unfold BLOCK_SIZE in *; lia). done.
Qed.

(** The volume itself holds the memory [f]. *)
Definition holds d f : Prop :=
  sgood d ∧ ∀ b, block_in_range b → disk_block d b = mread f (b * BLOCK_SIZE) BLOCK_SIZE.

Lemma holds_store_mem d : sgood d → holds d (store_mem d).
Proof. intros Hd. split; [done|]. intros b Hb. by rewrite mread_store_mem. Qed.

(** A fresh cache, with block 0 loaded or not, shows the volume. *)
Lemma repr_fresh d f : holds d f → repr {| cache := BlockCache_new; disk := d |} f.
Proof.
  intros [Hd Hf]. split_and!; [|done|].
  - split_and!; [by apply sgood_inv|constructor|done|constructor].
  - intros b Hb. by apply Hf.
Qed.

Lemma repr_clean_block d f :
  holds d f → repr {| cache := with_clean_block 0 (disk_block d 0); disk := d |} f.
Proof.
  intros [Hd Hf]. assert (block_in_range 0) as H0' by done.
  destruct (disk_block_ok d 0 Hd H0') as [Hl Hby]. split_and!; [|done|].
  - split_and!; [by apply sgood_inv|apply NoDup_singleton|done|]. apply Forall_singleton. done.
  - intros b Hb. rewrite <- Hf by done. unfold view. cbn [cache disk with_clean_block entries].
    unfold cached. simpl. by destruct b.
Qed.

Lemma read_block0 d f :
  holds d f → ∃ d', read_disk_block 0 d = (Ok (disk_block d' 0), d') ∧ holds d' f.
Proof.
  intros [Hd Hf]. destruct (read_disk_block_good Hwindow 0 d Hd) as (o & d' & E & Hd'); [done|].
  exists d'. rewrite E. apply read_disk_block_spec in E as (_ & Hs & -> & _); [|by apply sgood_inv|done].
  split; [by rewrite Hs|]. split; [done|]. intros b Hb. by rewrite Hs, Hf.
Qed.

(** A successful flush leaves the memory on the volume. *)
Lemma runs_flush f s :
  repr s f → ∃ s', flush s = (Ok tt, s') ∧ repr s' f ∧ holds (disk s') f ∧ dirty_blocks (cache s') = 0.
Proof.
  intros (Hinv & Hg & Hv). destruct (flush s) as [r s'] eqn:E. pose proof E as E'.
  apply flush_spec in E' as (Hinv' & Hs & Hr); [|done].
  assert (r = Ok tt ∧ sgood (disk s')) as [-> Hg'].
  { unfold flush in E. destruct (flush_entries_good Hwindow (entries (cache s)) (disk s)) as (l' & d' & E1 & Hd'); [|done|].
    - destruct Hinv as (_ & _ & _ & Hall). eapply Forall_impl; [exact Hall|]. by intros e (? & ? & ? & _).
    - rewrite E1 in E. by injection E as <- <-. }
  exists s'. destruct Hr as [Hdirty Hdisk]. split_and!; [done| |split; [done|]|done].
  - split_and!; [done|done|]. intros b Hb. by rewrite Hs, Hv.
  - intros b Hb. by rewrite Hdisk, Hv.
Qed.

(** ** Formatting *)
Abbreviation sb0 := Superblock_new.

Lemma runs_zero_blocks n k f :
  0 ≤ k → k + Z.of_nat n ≤ TOTAL_BLOCKS →
  runs (for_each zero_block (seqZ k (Z.of_nat n))) f (Ok tt) (mwrite f (k * BLOCK_SIZE) (zeros (Z.of_nat n * BLOCK_SIZE))).
Proof.
  revert k f. induction n as [|n IH]; intros k f Hk Hn.
  { eapply runs_ext; [reflexivity| |apply runs_ret]. intros a _. symmetry. apply mwrite_nil. }
  rewrite seqZ_S. cbn [for_each]. eapply runs_bind; [apply (runs_zero_block Hwindow); unfold block_in_range; lia|].
  cbv beta. eapply runs_ext; [reflexivity| |apply IH; lia]. intros a _.
  replace (zeros (Z.of_nat (S n) * BLOCK_SIZE)) with (zeros BLOCK_SIZE ++ zeros (Z.of_nat n * BLOCK_SIZE)).
  - rewrite mwrite_app, len_zeros by done. f_equal. unfold BLOCK_SIZE. lia.
  - unfold zeros. rewrite <- replicate_add. f_equal. unfold BLOCK_SIZE. lia.
Qed.

Lemma runs_mark_used n k f :
  0 ≤ k → k + Z.of_nat n ≤ total_blocks sb0 →
  ∃ g, runs (for_each (λ b, set_block_used sb0 b true) (seqZ k (Z.of_nat n))) f (Ok tt) g ∧
    changes_only sb0 [] f g ∧
    ∀ b, 0 ≤ b < total_blocks sb0 → used sb0 g b = used sb0 f b || ((k <=? b) && (b <? k + Z.of_nat n)).
Proof.
  pose proof Superblock_new_wf as Hwf. revert k f. induction n as [|n IH]; intros k f Hk Hn.
  { exists f. split_and!; [apply runs_ret|apply changes_only_refl|]. intros b Hb.
    change (Z.of_nat 0) with 0. destruct (Z.leb_spec k b), (Z.ltb_spec b (k + 0)); try lia; by rewrite orb_false_r. }
  destruct (IH (k + 1) (set_used sb0 f k true)) as (g & Hg & Hc & Hu); [lia..|]. exists g. split_and!.
  - rewrite seqZ_S. cbn [for_each]. eapply runs_bind; [apply runs_set_block_used; [done|done|lia]|exact Hg].
  - eapply changes_only_trans; [apply (changes_only_set_used sb0 Hwf k true f); lia|done].
  - intros b Hb. rewrite Hu, used_set_used by lia. destruct (Z.eqb_spec k b) as [<-|Hne].
    + destruct (Z.leb_spec k k), (Z.ltb_spec k (k + Z.of_nat (S n))); try lia.
    + f_equal. apply eq_true_iff_eq. rewrite !andb_true_iff, !Z.leb_le, !Z.ltb_lt. lia.
Qed.

Lemma decode_zero off : decode_inode_at (λ _, 0) off = Inode_free.
Proof. vm_compute. reflexivity. Qed.

Definition super_bytes : bytes := Superblock_write sb0 (zeros BLOCK_SIZE).

Lemma super_bytes_ok : len super_bytes = BLOCK_SIZE ∧ Forall is_byte super_bytes ∧ Superblock_parse super_bytes = Some sb0.
Proof.
  split_and!; [by vm_compute| |by vm_compute].
  unfold super_bytes, Superblock_write, write_u32.
  repeat (apply splice_is_byte; [|apply le_bytes_is_byte]). apply splice_is_byte; [apply zeros_is_byte|].
  repeat (apply Forall_cons_2; [done|]). apply Forall_nil_2.
Qed.

Lemma super_bytes_splice (l : bytes) :
  len l = BLOCK_SIZE → Superblock_write sb0 (replicate (length l) 0) = splice l 0 super_bytes.
Proof.
  intros Hd. destruct super_bytes_ok as (Hl & _). unfold splice, len in *.
  rewrite (drop_ge l) by lia. change (Z.to_nat 0) with O. rewrite take_0, app_nil_l, app_nil_r.
  unfold super_bytes, zeros. replace (length l) with (Z.to_nat BLOCK_SIZE) by lia. reflexivity.
Qed.
#[local] Opaque super_bytes.

(** The memory after the zeroing, the superblock and the bitmap: no inode is in use. *)
Lemma formatted_ok f1 f2 f3 :
  (∀ a, 0 ≤ a < data_start sb0 * BLOCK_SIZE → f1 a = 0) → (∀ a, BLOCK_SIZE ≤ a → f2 a = f1 a) →
  super_wf sb0 f2 → mem_bytes f2 → changes_only sb0 [] f2 f3 →
  (∀ b, data_block sb0 b → used sb0 f3 b = used sb0 f2 b) →
  fs_ok sb0 f3 ∧ ∀ i, inode_in_range sb0 i → decode_inode sb0 f3 i = Inode_free.
Proof.
  intros H1' H2' Hsb Hby (Hlow & Hb3 & _) Hu. pose proof Superblock_new_wf as Hwf.
  assert (∀ i, inode_in_range sb0 i → decode_inode sb0 f3 i = Inode_free) as Hfree.
  { intros i Hi. unfold decode_inode. rewrite <- (decode_zero (inode_off sb0 i)). apply decode_inode_at_ext. intros a Ha.
    destruct (inode_off_bound sb0 Hwf i Hi) as [Ho1 Ho2]. pose proof (bitmap_byte_bound sb0 Hwf 0 ltac:(done)) as Hbb.
    assert (BLOCK_SIZE ≤ inode_off sb0 i) by (unfold inode_off, inode_in_range, BLOCK_SIZE, INODE_SIZE in *; simpl; unfold INODE_TABLE_START; lia).
    assert (0 < BLOCK_SIZE) by done.
    rewrite Hlow, H2', H1' by lia. done. }
  destruct Inode_free_empty as [Hemp _]. destruct Hemp as (Hs & Hi0 & _).
  split; [|done]. split; [|done|intros i Hi _; rewrite Hfree by done; by apply empty_owned]. split.
  - by apply Hb3.
  - apply (super_wf_same sb0 f2 f3); [by apply (low_same_super sb0 Hwf)|done].
  - intros i Hi. rewrite Hfree by done. apply empty_file_wf, Inode_free_empty.
  - intros i j b Hi Hj _. rewrite !Hfree by done. destruct (empty_owned f3 Inode_free Hs Hi0) as [-> _]. by intros ?%not_elem_of_nil.
  - intros b Hb. rewrite Hu by done. split.
    + destruct (data_block_range sb0 Hwf b Hb) as (_ & Hr & _). pose proof (bitmap_byte_bound sb0 Hwf b Hr) as Hbb.
      unfold used. rewrite H2', H1', Z.bits_0; [done|..].
      * split; [|lia]. assert (0 ≤ bitmap_start sb0 * BLOCK_SIZE) by done. lia.
      * assert (BLOCK_SIZE ≤ bitmap_start sb0 * BLOCK_SIZE) by (vm_compute; congruence). lia.
    + intros (i & Hi & Hin). rewrite Hfree in Hin by done. destruct (empty_owned f3 Inode_free Hs Hi0) as [E _].
      rewrite E in Hin. by apply not_elem_of_nil in Hin.
Qed.

(** The root directory of a new volume. *)
Definition root_node : node :=
  {| n_kind := KIND_DIR; n_uid := ROOT_UID; n_gid := ROOT_GID; n_mode := DEFAULT_DIR_MODE; n_data := [] |}.

Definition empty_tree : Tree := λ q, match q with [] => Some root_node | _ => None end.

Lemma root_inode_empty : empty_inode (Inode_new KIND_DIR) ∧ stored (Inode_new KIND_DIR) = Inode_new KIND_DIR.
Proof. split; [|reflexivity]. split_and!; [done..|]. split; try done. apply Forall_replicate. done. Qed.

Lemma root_volume_ok g :
  fs_ok sb0 g → decode_inode sb0 g ROOT_INODE = Inode_new KIND_DIR → content g (Inode_new KIND_DIR) = [] →
  (∀ j, inode_in_range sb0 j → j ≠ ROOT_INODE → decode_inode sb0 g j = Inode_free) →
  volume_ok sb0 g ∧ ∀ q, tree sb0 g q = empty_tree q.
Proof.
  intros Hg Er Ec Hj.
  assert (∀ j es, inode_in_range sb0 j → dir_at sb0 g j = Ok es → es = []) as Hd.
  { intros j es Hjr. rewrite (dir_at_in sb0 g j Hjr). destruct (decide (j = ROOT_INODE)) as [->|Hne].
    - rewrite Er, Ec. simpl. by intros [= <-].
    - by rewrite Hj. }
  assert (dir_at sb0 g ROOT_INODE = Ok []) as Hroot by (rewrite dir_at_in, Er, Ec by done; done).
  split; [split; [|intros j Hjr Hk; exists []; destruct (decide (j = ROOT_INODE)) as [->|Hne]; [done|by rewrite Hj in Hk]]|].
  - split; [done|change (root_inode sb0) with ROOT_INODE; by rewrite Er| | |].
    + intros i Hi Hdir. destruct (decide (i = ROOT_INODE)) as [->|Hne]; [|by rewrite Hj in Hdir].
      exists []. split_and!; [done|constructor|constructor].
    + intros i es e Hi Hes Hin. rewrite (Hd i es Hi Hes) in Hin. by apply not_elem_of_nil in Hin.
    + intros i i' es es' k k' e e' Hi _ Hes _ Hk. by rewrite (Hd i es Hi Hes) in Hk.
  - intros q. unfold tree, empty_tree. destruct q as [|x q].
    + simpl. f_equal. unfold node_of. change (root_inode sb0) with ROOT_INODE. by rewrite Er.
    + unfold reach. simpl. change (root_inode sb0) with ROOT_INODE. by rewrite Hroot.
Qed.

(** [format_image] succeeds on any volume and leaves an empty tree. *)
Lemma runs_format f :
  mem_bytes f → ∃ g, runs format_image f (Ok tt) g ∧ volume_ok sb0 g ∧ ∀ q, tree sb0 g q = empty_tree q.
Proof.
  intros Hby. pose proof Superblock_new_wf as Hwf. destruct super_bytes_ok as (Hl & Hsby & _).
  set (f1 := mwrite f (0 * BLOCK_SIZE) (zeros (Z.of_nat (Z.to_nat (data_start sb0)) * BLOCK_SIZE))).
  set (f2 := mwrite f1 (0 * BLOCK_SIZE + 0) super_bytes).
  destruct (runs_mark_used (Z.to_nat (data_start sb0)) 0 f2) as (f3 & R3 & Hc & Hu); [done|done|].
  destruct (formatted_ok f1 f2 f3) as [Hok Hfree]; [| | | |done| |].
  { intros a Ha. unfold f1. rewrite mwrite_in; [apply nthZ_zeros|]. rewrite len_zeros by done. exact Ha. }
  { intros a Ha. apply mwrite_out. right. rewrite Hl. exact Ha. }
  { apply super_wf_eq. unfold f2. change (0 * BLOCK_SIZE + 0) with 0. rewrite mread_mwrite by done. apply super_bytes_ok. }
  { apply mem_bytes_mwrite; [|done]. apply mem_bytes_mwrite; [done|apply zeros_is_byte]. }
  { intros b Hb. destruct (data_block_range sb0 Hwf b Hb) as (_ & Hr & _). rewrite Hu by done.
    rewrite (proj2 (andb_false_iff _ _)); [by rewrite orb_false_r|]. right. apply Z.ltb_ge.
    unfold data_block in Hb. rewrite Z2Nat.id by done. lia. }
  destruct root_inode_empty as [Hemp Hst].
  destruct (fs_ok_empty_inode sb0 Hwf f3 f3 ROOT_INODE (Inode_new KIND_DIR) Hok) as (Hokg & Er & Ec & _ & Hj);
    [exact (conj (Z.le_refl 0) eq_refl)|done|rewrite Hfree by done; apply freed_nil|].
  eexists. split; [|apply root_volume_ok; [exact Hokg|by rewrite Er|by rewrite Er, Hst in Ec|]].
  - unfold format_image. cbv zeta.
    eapply runs_bind; [apply (runs_zero_blocks (Z.to_nat (data_start sb0)) 0 f); done|]. fold f1.
    eapply runs_bind; [apply (runs_get_mut_eq Hwindow 0 _ 0 super_bytes f1)|].
    { exact (conj (Z.le_refl 0) eq_refl). }
    { done. }
    { rewrite Hl. done. }
    { exact Hsby. }
    { exact super_bytes_splice. }
    eapply runs_bind; [exact R3|]. apply runs_write_inode.
    { exact Hwindow. }
    { exact Hwf. }
    { exact (conj (Z.le_refl 0) eq_refl). }
    { apply Hemp. }
    { apply Hemp. }
  - intros j Hjr Hne. destruct (Hj j Hjr Hne) as [-> _]. by apply Hfree.
Qed.

(** ** The mounted volume *)
Implicit Types (st : CoolFs V) (sb : Superblock).

Definition mounted sb st f : Prop :=
  ∃ c, slot st = Some (sb, c) ∧ sb_wf sb ∧ repr {| cache := c; disk := store st |} f ∧ volume_ok sb f.

(** The state after a restart: memory is lost, the volume is not. *)
Definition reboot st : CoolFs V :=
  {| slot := None; fs_dirty := false; store := store st; mutations := [] |}.

(** Does [load_or_format] accept this block 0? *)
Definition recognised (b0 : bytes) : bool :=
  match Superblock_parse b0 with
  | Some sb => (1024 <=? total_blocks sb) && (total_blocks sb <=? TOTAL_BLOCKS)
  | None => false
  end.

Lemma ensure_recovers sb st f :
  slot st = None → holds (store st) f → sb_wf sb → volume_ok sb f →
  ∃ st', mount_or_format st = (Ok tt, st') ∧ mounted sb st' f.
Proof.
  intros Hs Hh Hwf Hf. destruct (read_block0 _ f Hh) as (d' & E & Hh').
  pose proof (proj2 Hh' 0 ltac:(done)) as E0.
  assert (Superblock_parse (disk_block d' 0) = Some sb) as Hp
    by (rewrite E0; apply super_wf_eq, (wf_super _ _ (ok_wf _ _ (tree_fs sb f Hf)))).
  assert (load_or_format (store st) = (Ok (sb, with_clean_block 0 (disk_block d' 0)), d')) as El.
  { unfold load_or_format. rewrite E, Hp. destruct Hwf as [[_ Hmax] Hmin _ _ _ _ _].
    rewrite (proj2 (Z.leb_le _ _) Hmin), (proj2 (Z.leb_le _ _) Hmax). reflexivity. }
  eexists. split.
  - unfold mount_or_format, with_image_result, ensure_image, bind. rewrite Hs, El. reflexivity.
  - eexists. split_and!; [reflexivity|done| |done]. by apply repr_clean_block.
Qed.

Lemma ensure_formats st :
  slot st = None → sgood (store st) → recognised (disk_block (store st) 0) = false →
  ∃ st' g, mount_or_format st = (Ok tt, st') ∧ mounted sb0 st' g ∧ holds (store st') g ∧
           ∀ q, tree sb0 g q = empty_tree q.
Proof.
  intros Hs Hd Hr. pose proof (holds_store_mem _ Hd) as Hh. destruct (read_block0 _ _ Hh) as (d' & E & Hh').
  assert (disk_block d' 0 = disk_block (store st) 0) as E0 by (by rewrite (proj2 Hh'), (proj2 Hh)).
  pose proof (repr_fresh _ _ Hh') as Hrep. pose proof (repr_bytes Hwindow _ _ Hrep) as Hby.
  destruct (runs_format _ Hby) as (g & Hrun & Hg & Ht). destruct (Hrun _ Hrep) as (s1 & E1 & Hs1).
  destruct (runs_flush g s1 Hs1) as (s2 & E2 & Hs2 & Hh2 & _).
  assert (load_or_format (store st) = (Ok (sb0, cache s2), disk s2)) as El.
  { unfold load_or_format. rewrite E, E0. unfold recognised in Hr. unfold bind. rewrite E1, E2.
    destruct (Superblock_parse _) as [sb|]; [|reflexivity]. by rewrite Hr. }
  eexists _, g. split_and!.
  - unfold mount_or_format, with_image_result, ensure_image, bind. rewrite Hs, El. reflexivity.
  - eexists. split_and!; [reflexivity|apply Superblock_new_wf| |done]. by destruct s2.
  - exact Hh2.
  - exact Ht.
Qed.

(** ** Operations on the mounted volume *)
Definition same_log st st' : Prop := fs_dirty st' = fs_dirty st ∧ mutations st' = mutations st.

(** A successful operation marks the volume dirty and notifies its observers. *)
Definition logged {A} (r : result FsError A) st st' (what path : bytes) : Prop :=
  match r with
  | Ok _ => fs_dirty st' = true ∧ mutations st' = mutations st ++ [(what, mount_path_for path)]
  | Err _ => same_log st st'
  end.

Lemma image_result {A} sb st f (op : Superblock → ST (Cached V) FsError A) r g :
  mounted sb st f → runs (op sb) f r g → volume_ok sb g →
  ∃ st', with_image_result op st = (r, st') ∧ mounted sb st' g ∧ same_log st st'.
Proof.
  intros (c & Hs & Hwf & Hrep & Hf) Hrun Hg. destruct (Hrun _ Hrep) as (s' & E & Hs').
  eexists. split_and!.
  - unfold with_image_result, ensure_image, bind, on_image. rewrite Hs. cbn [fst snd]. rewrite E. reflexivity.
  - eexists. split_and!; [reflexivity|done| |done]. by destruct s'.
  - done.
Qed.

Lemma image_option {A} sb st f (op : Superblock → ST (Cached V) unit A) r g :
  mounted sb st f → runs (op sb) f r g → volume_ok sb g →
  ∃ st', with_image_option op st = (r, st') ∧ mounted sb st' g ∧ same_log st st'.
Proof.
  intros (c & Hs & Hwf & Hrep & Hf) Hrun Hg. destruct (Hrun _ Hrep) as (s' & E & Hs').
  eexists. split_and!.
  - unfold with_image_option, ensure_image, ok, map_err, bind, on_image. rewrite Hs. cbn [fst snd]. rewrite E. reflexivity.
  - eexists. split_and!; [reflexivity|done| |done]. by destruct s'.
  - done.
Qed.

(** The operation followed by [record_mutation]. *)
Lemma image_mutation {A} sb st f (op : Superblock → ST (Cached V) FsError A) what path r g :
  mounted sb st f → runs (op sb) f r g → volume_ok sb g →
  ∃ r' st', (with_image_result op ;;! record_mutation what path) st = (r', st') ∧ mounted sb st' g ∧
    logged r' st st' what path ∧ r' = match r with Ok _ => Ok tt | Err e => Err e end.
Proof.
  intros Hm Hrun Hg. destruct (image_result sb st f op r g Hm Hrun Hg) as (st1 & E & Hm1 & Hl).
  unfold bind. rewrite E. destruct r as [a|e].
  - eexists _, _. split_and!; [reflexivity| |split; [done|]|done].
    + destruct Hm1 as (c & ? & ? & ? & ?). by exists c.
    + destruct Hl as [_ Hl]. cbn [record_mutation mutations]. by rewrite Hl.
  - eexists _, _. split_and!; [reflexivity|done|done|done].
Qed.

Lemma mutation_unit sb st f (op : Superblock → ST (Cached V) FsError unit) what path (spec : result FsError unit → mem → Prop) :
  mounted sb st f → (∃ r g, runs (op sb) f r g ∧ volume_ok sb g ∧ spec r g) →
  ∃ r st' g, (with_image_result op ;;! record_mutation what path) st = (r, st') ∧ mounted sb st' g ∧
    logged r st st' what path ∧ spec r g.
Proof.
  intros Hm (r & g & Hrun & Hg & Hspec). destruct (image_mutation sb st f op what path r g Hm Hrun Hg) as (r' & st' & E & Hm' & Hl & ->).
  exists (match r with Ok _ => Ok tt | Err e => Err e end), st', g. split_and!; [done..|]. by destruct r as [[]|].
Qed.

Lemma create_node_refines sb st f path k uid gid mode :
  mounted sb st f → k = KIND_FILE ∨ k = KIND_DIR → u32 uid → u32 gid → 0 ≤ mode →
  ∃ r st' g, create_node path k uid gid mode st = (r, st') ∧ mounted sb st' g ∧
    logged r st st' (if k =? KIND_DIR then str "coolfs-create-dir" else str "coolfs-create-file") path ∧
    create_spec (create_room sb f path) path (new_node k uid gid mode) (tree sb f) r (tree sb g).
Proof.
  intros Hm Hk Hu Hg Hmode. pose proof Hm as (c & _ & Hwf & _ & Hv). pose proof (vol_tree sb f Hv) as Hf.
  apply (mutation_unit sb st f (λ sb, create_node_image sb path k uid gid mode) _ path
    (λ r g, create_spec (create_room sb f path) path (new_node k uid gid mode) (tree sb f) r (tree sb g)) Hm).
  destruct (runs_create_node Hwindow sb Hwf f path k uid gid mode Hf Hk Hu Hg Hmode) as (r & g & Hr & Hok & Hpost).
  exists r, g. split_and!; [done|split; [done|]|].
  - eapply create_post_reach; [exact Hf|exact Hpost|apply Hv].
  - by apply create_post_spec.
Qed.

(** C1: creating a file or directory.  On a mounted volume [create_node] always
    returns, with the result the contract gives: the parent must exist and be a
    directory, the name must be valid and new, and there must be a free inode
    and room to rewrite the directory.  On success exactly the new path
    changes; on every error the tree is as it was.  Either way the volume stays
    well formed (no block or inode is leaked, lost or shared). *)
Theorem create_node_correct sb st f path k uid gid mode :
  mounted sb st f → k = KIND_FILE ∨ k = KIND_DIR → u32 uid → u32 gid → 0 ≤ mode →
  ∃ r st' g, create_node path k uid gid mode st = (r, st') ∧ mounted sb st' g ∧
    logged r st st' (if k =? KIND_DIR then str "coolfs-create-dir" else str "coolfs-create-file") path ∧
    create_spec (create_room sb f path) path (new_node k uid gid mode) (tree sb f) r (tree sb g).
Proof. apply create_node_refines. Qed.

Lemma delete_file_inodes sb st f path :
  mounted sb st f →
  ∃ r st' g, delete_file path st = (r, st') ∧ mounted sb st' g ∧
    logged r st st' (str "coolfs-delete") path ∧ delete_post sb f path r g.
Proof.
  intros Hm. pose proof Hm as (c & _ & Hwf & _ & Hv). pose proof (vol_tree sb f Hv) as Hf.
  apply (mutation_unit sb st f (λ sb, delete_file_image sb path) _ path (delete_post sb f path) Hm).
  destruct (runs_delete_file Hwindow sb Hwf f path Hf) as (r & g & Hr & Hok & Hpost).
  exists r, g. split_and!; [done|split; [done|]|done]. eapply delete_post_reach; [exact Hf|exact Hpost|apply Hv].
Qed.

Lemma delete_file_refines sb st f path :
  mounted sb st f →
  ∃ r st' g, delete_file path st = (r, st') ∧ mounted sb st' g ∧
    logged r st st' (str "coolfs-delete") path ∧
    delete_spec (entry_room sb f path (-1)) path (tree sb f) r (tree sb g).
Proof.
  intros Hm. pose proof Hm as (c & _ & _ & _ & [Hf _]).
  destruct (delete_file_inodes sb st f path Hm) as (r & st' & g & E & Hm' & Hl & Hpost).
  exists r, st', g. split_and!; [done..|]. by apply delete_post_spec.
Qed.

(** C3: deleting.  [delete_file] removes exactly the named file or empty
    directory.  It refuses a directory with entries and, because the parent is
    rewritten in new blocks before the old ones are freed, also any deletion on
    a volume without free blocks. *)
Theorem delete_file_correct sb st f path :
  mounted sb st f →
  ∃ r st' g, delete_file path st = (r, st') ∧ mounted sb st' g ∧
    logged r st st' (str "coolfs-delete") path ∧
    delete_spec (entry_room sb f path (-1)) path (tree sb f) r (tree sb g).
Proof. apply delete_file_refines. Qed.

Lemma write_file_refines sb st f path data :
  mounted sb st f → Forall is_byte data →
  ∃ r st' g, write_file path data st = (r, st') ∧ mounted sb st' g ∧
    logged r st st' (str "coolfs-write") path ∧
    write_spec (data_room sb f data) path data (tree sb f) r (tree sb g).
Proof.
  intros Hm Hby. pose proof Hm as (c & _ & Hwf & _ & Hv). pose proof (vol_tree sb f Hv) as Hf.
  apply (mutation_unit sb st f (λ sb, write_file_image sb path data) _ path
    (λ r g, write_spec (data_room sb f data) path data (tree sb f) r (tree sb g)) Hm).
  by apply runs_write_file.
Qed.

(** C2: writing a file replaces its contents and nothing else: kind, owner and
    mode of the file stay, and so does every other path.  It fails with
    [NoSpace] exactly when the data is too long for the inode or there are too
    few free blocks, and then the old contents are still there. *)
Theorem write_file_correct sb st f path data :
  mounted sb st f → Forall is_byte data →
  ∃ r st' g, write_file path data st = (r, st') ∧ mounted sb st' g ∧
    logged r st st' (str "coolfs-write") path ∧
    write_spec (data_room sb f data) path data (tree sb f) r (tree sb g).
Proof. apply write_file_refines. Qed.

Lemma rename_refines sb st f path new_name :
  mounted sb st f →
  ∃ r st' g, rename path new_name st = (r, st') ∧ mounted sb st' g ∧
    match validate_name new_name with
    | Err e => r = Err e ∧ st' = st ∧ g = f
    | Ok _ => ∃ b, r = match b with Ok _ => Ok tt | Err e => Err e end ∧
        (b = Ok true ∧ logged r st st' (str "coolfs-rename") path ∨ b ≠ Ok true ∧ same_log st st') ∧
        rename_spec (entry_room sb f path 0) path new_name (tree sb f) b (tree sb g)
    end.
Proof.
  intros Hm. pose proof Hm as (c & _ & Hwf & _ & Hv). pose proof (vol_tree sb f Hv) as Hf. unfold rename.
  destruct (validate_name new_name) as [[]|e] eqn:Ev.
  2: { exists (Err e), st, f. done. }
  destruct (runs_rename Hwindow sb Hwf f path new_name Hf Ev) as (b & g & Hr & Hg & Hpost).
  pose proof (rename_post_reach sb f g path new_name b Hf Hpost (vol_reach sb f Hv)) as Hvg.
  apply rename_post_spec in Hpost; [|done].
  destruct (image_result sb st f (λ sb, rename_image sb path new_name) b g Hm Hr (Build_volume_ok _ _ Hg Hvg)) as (st1 & E & Hm1 & Hl).
  unfold bind, lift_result. rewrite E. destruct b as [[]|e].
  - eexists _, _, g. split_and!; [reflexivity| |exists (Ok true); split_and!; [done|left; split; [done|]|done]].
    + destruct Hm1 as (c1 & ? & ? & ? & ?). by exists c1.
    + split; [done|]. destruct Hl as [_ Hl]. cbn [record_mutation mutations]. by rewrite Hl.
  - exists (Ok tt), st1, g. split_and!; [done..|]. exists (Ok false). split_and!; [done|right; by split|done].
  - exists (Err e), st1, g. split_and!; [done..|]. exists (Err e). split_and!; [done|right; by split|done].
Qed.

(** C4: renaming moves the node and, for a directory, everything below it, to
    the new name in the same directory, and changes no other path.  It refuses
    an existing target; a change of case only is accepted and ignored. *)
Theorem rename_correct sb st f path new_name :
  mounted sb st f →
  ∃ r st' g, rename path new_name st = (r, st') ∧ mounted sb st' g ∧
    match validate_name new_name with
    | Err e => r = Err e ∧ st' = st ∧ g = f
    | Ok _ => ∃ b, r = match b with Ok _ => Ok tt | Err e => Err e end ∧
        (b = Ok true ∧ logged r st st' (str "coolfs-rename") path ∨ b ≠ Ok true ∧ same_log st st') ∧
        rename_spec (entry_room sb f path 0) path new_name (tree sb f) b (tree sb g)
    end.
Proof. apply rename_refines. Qed.

Lemma read_file_refines sb st f path :
  mounted sb st f →
  ∃ st', read_file path st = (read_spec path (tree sb f), st') ∧ mounted sb st' f ∧ same_log st st'.
Proof.
  intros Hm. pose proof Hm as (c & _ & Hwf & _ & Hv). pose proof (vol_tree sb f Hv) as Hf.
  pose proof (runs_read_file Hwindow sb Hwf f path Hf) as Hr.
  exact (image_option sb st f (λ sb, read_file_image sb path) _ f Hm Hr Hv).
Qed.

(** Reading returns the contents of the file at the path, and fails
    exactly when the path does not name a file; the volume does not change. *)
Theorem read_file_correct sb st f path :
  mounted sb st f →
  ∃ st', read_file path st = (read_spec path (tree sb f), st') ∧ mounted sb st' f ∧ same_log st st'.
Proof. apply read_file_refines. Qed.

(** What was written is read back.  After a successful [write_file],
    reading the same path, in any case and with any extra slashes, returns the
    data byte for byte. *)
Theorem write_file_read sb st f path data st' path' :
  mounted sb st f → Forall is_byte data → write_file path data st = (Ok tt, st') →
  starts_with (str "/") path' = true → fold_path (components path') = fold_path (components path) →
  ∃ st'', read_file path' st' = (Ok data, st'').
Proof.
  intros Hm Hby Hw Hs' Hc. pose proof Hm as (c & _ & Hwf & _ & Hv). pose proof (vol_tree sb f Hv) as Hf.
  destruct (write_file_refines sb st f path data Hm Hby) as (r & st1 & g & E & Hm1 & _ & Hspec). rewrite Hw in E. injection E as <- <-.
  pose proof Hm1 as (c1 & _ & _ & _ & [Hg _]).
  destruct (read_file_refines sb st' g path' Hm1) as (st2 & E2 & _). exists st2. rewrite E2. f_equal.
  unfold write_spec in Hspec. destruct (resolve (tree sb f) path) as [n|]; [|by destruct Hspec].
  destruct (is_file_node n) eqn:En; cbn [negb] in Hspec; [|by destruct Hspec].
  destruct (data_room sb f data); destruct Hspec as [Hr Ht]; [|done].
  unfold read_spec. rewrite (resolve_tree sb g path' (set_data data n)); [|done|done|].
  - unfold is_file_node in *. cbn [set_data n_kind n_data]. by rewrite En.
  - rewrite Ht. unfold tree_set. by rewrite decide_True.
Qed.

Lemma chmod_refines sb st f path mode :
  mounted sb st f → 0 ≤ mode →
  ∃ r st' g, chmod path mode st = (r, st') ∧ mounted sb st' g ∧
    logged r st st' (str "coolfs-chmod") path ∧
    update_spec path (node_mode mode) (tree sb f) r (tree sb g).
Proof.
  intros Hm Hmode. pose proof Hm as (c & _ & Hwf & _ & Hv). pose proof (vol_tree sb f Hv) as Hf.
  apply (mutation_unit sb st f (λ sb, update_inode_image sb path (set_mode (Z.land mode MODE_MASK))) _ path
    (λ r g, update_spec path (node_mode mode) (tree sb f) r (tree sb g)) Hm).
  by apply runs_chmod.
Qed.

(** [chmod] changes the mode of the node and nothing else, except that a
    mode without any permission bit is replaced by the default of the kind. *)
Theorem chmod_correct sb st f path mode :
  mounted sb st f → 0 ≤ mode →
  ∃ r st' g, chmod path mode st = (r, st') ∧ mounted sb st' g ∧
    logged r st st' (str "coolfs-chmod") path ∧
    update_spec path (node_mode mode) (tree sb f) r (tree sb g).
Proof. apply chmod_refines. Qed.

Lemma chown_refines sb st f path uid gid :
  mounted sb st f → u32 uid → u32 gid →
  ∃ r st' g, chown path uid gid st = (r, st') ∧ mounted sb st' g ∧
    logged r st st' (str "coolfs-chown") path ∧
    update_spec path (node_owner uid gid) (tree sb f) r (tree sb g).
Proof.
  intros Hm Hu Hg. pose proof Hm as (c & _ & Hwf & _ & Hv). pose proof (vol_tree sb f Hv) as Hf.
  apply (mutation_unit sb st f (λ sb, update_inode_image sb path (set_owner uid gid)) _ path
    (λ r g, update_spec path (node_owner uid gid) (tree sb f) r (tree sb g)) Hm).
  by apply runs_chown.
Qed.

(** [chown] changes owner and group of the node and nothing else. *)
Theorem chown_correct sb st f path uid gid :
  mounted sb st f → u32 uid → u32 gid →
  ∃ r st' g, chown path uid gid st = (r, st') ∧ mounted sb st' g ∧
    logged r st st' (str "coolfs-chown") path ∧
    update_spec path (node_owner uid gid) (tree sb f) r (tree sb g).
Proof. apply chown_refines. Qed.

(** C38: durability.  After an operation that succeeded (the volume is marked
    dirty), [flush] succeeds and everything is on the volume: mounting it again
    after the memory is lost gives the same superblock and the same tree. *)
Theorem flush_remount sb st f :
  mounted sb st f → fs_dirty st = true →
  ∃ st1 st2, fs_flush st = (Ok tt, st1) ∧ mounted sb st1 f ∧ fs_dirty st1 = false ∧
    mount_or_format (reboot st1) = (Ok tt, st2) ∧ mounted sb st2 f.
Proof.
  intros (c & Hs & Hwf & Hrep & Hf) Hd. destruct (runs_flush f _ Hrep) as (s' & E & Hs' & Hh & _).
  pose (st1 := {| slot := Some (sb, cache s'); fs_dirty := false; store := disk s'; mutations := mutations st |}).
  destruct (ensure_recovers sb (reboot st1) f) as (st2 & E2 & Hm2); [done|exact Hh|done|done|].
  exists st1, st2. split_and!; [| |done|done|done].
  - unfold fs_flush. rewrite Hd, Hs. unfold bind, on_image. cbn [negb fst snd]. rewrite E. reflexivity.
  - exists (cache s'). split_and!; [done|done| |done]. by destruct s'.
Qed.

(** Formatting.  Mounting a volume whose block 0 is not a superblock the
    code accepts formats it: the result is on the volume, well formed, and its
    tree is the root directory alone. *)
Theorem mount_formats_blank st :
  slot st = None → sgood (store st) → recognised (disk_block (store st) 0) = false →
  ∃ st' g, mount_or_format st = (Ok tt, st') ∧ mounted sb0 st' g ∧ holds (store st') g ∧
           ∀ q, tree sb0 g q = empty_tree q.
Proof. apply ensure_formats. Qed.
End mount.

(** ** A volume in memory *)
Section demo.
Import RamDisk.

(** A kernel that has just started, with a 6 MiB disk of zeroes. *)
Definition blank : CoolFs (Storage ramdisk) :=
  {| slot := None; fs_dirty := false; CoolFs.store := ram_volume; mutations := [] |}.

Lemma blank_good : sgood ram_volume.
Proof.
  exists RawCoolFs. split_and!; [done|done|done|done|]. intros lba b Hb.
  cbn in Hb. by rewrite lookup_empty in Hb.
Qed.

Lemma window_ok : TOTAL_BLOCKS * SECTORS_PER_BLOCK ≤ swindow (S := Storage ramdisk).
Proof. vm_compute. congruence. Qed.

Lemma blank_unrecognised : recognised (disk_block ram_volume 0) = false.
Proof. vm_compute. reflexivity. Qed.

Definition formatted : CoolFs (Storage ramdisk) := snd (mount_or_format blank).

Lemma formatted_mounted :
  ∃ f, mounted Superblock_new formatted f ∧ ∀ q, tree Superblock_new f q = empty_tree q.
Proof.
  destruct (ensure_formats window_ok blank) as (st & f & E & Hm & _ & Ht);
    [done|apply blank_good|apply blank_unrecognised|].
  exists f. split; [|done]. unfold formatted. by rewrite E.
Qed.

Lemma create_node_correct_witness :
  ∃ f r st' g, create_node (str "/notes") KIND_DIR 7 7 488 formatted = (r, st') ∧ mounted Superblock_new st' g ∧
    logged r formatted st' (if KIND_DIR =? KIND_DIR then str "coolfs-create-dir" else str "coolfs-create-file") (str "/notes") ∧
    create_spec (create_room Superblock_new f (str "/notes")) (str "/notes") (new_node KIND_DIR 7 7 488)
      (tree Superblock_new f) r (tree Superblock_new g).
Proof.
  destruct formatted_mounted as (f & Hm & _). exists f.
  apply (create_node_correct window_ok Superblock_new formatted f (str "/notes") KIND_DIR 7 7 488 Hm); [by right|done|done|done].
Defined.

Lemma delete_file_correct_witness :
  ∃ f r st' g, delete_file (str "/notes/a.txt") formatted = (r, st') ∧ mounted Superblock_new st' g ∧
    logged r formatted st' (str "coolfs-delete") (str "/notes/a.txt") ∧
    delete_spec (entry_room Superblock_new f (str "/notes/a.txt") (-1)) (str "/notes/a.txt")
      (tree Superblock_new f) r (tree Superblock_new g).
Proof.
  destruct formatted_mounted as (f & Hm & _). exists f.
  exact (delete_file_correct window_ok Superblock_new formatted f (str "/notes/a.txt") Hm).
Defined.

Lemma write_file_correct_witness :
  ∃ f r st' g, write_file (str "/a.txt") (str "hello") formatted = (r, st') ∧ mounted Superblock_new st' g ∧
    logged r formatted st' (str "coolfs-write") (str "/a.txt") ∧
    write_spec (data_room Superblock_new f (str "hello")) (str "/a.txt") (str "hello")
      (tree Superblock_new f) r (tree Superblock_new g).
Proof.
  destruct formatted_mounted as (f & Hm & _). exists f.
  apply (write_file_correct window_ok Superblock_new formatted f (str "/a.txt") (str "hello") Hm).
  repeat (apply Forall_cons_2; [done|]). apply Forall_nil_2.
Defined.

Lemma rename_correct_witness :
  ∃ f r st' g, rename (str "/a.txt") (str "b.txt") formatted = (r, st') ∧ mounted Superblock_new st' g ∧
    match validate_name (str "b.txt") with
    | Err e => r = Err e ∧ st' = formatted ∧ g = f
    | Ok _ => ∃ b, r = match b with Ok _ => Ok tt | Err e => Err e end ∧
        (b = Ok true ∧ logged r formatted st' (str "coolfs-rename") (str "/a.txt") ∨ b ≠ Ok true ∧ same_log formatted st') ∧
        rename_spec (entry_room Superblock_new f (str "/a.txt") 0) (str "/a.txt") (str "b.txt")
          (tree Superblock_new f) b (tree Superblock_new g)
    end.
Proof.
  destruct formatted_mounted as (f & Hm & _). exists f.
  exact (rename_correct window_ok Superblock_new formatted f (str "/a.txt") (str "b.txt") Hm).
Defined.

Lemma read_file_correct_witness :
  ∃ f st', read_file (str "/a.txt") formatted = (read_spec (str "/a.txt") (tree Superblock_new f), st') ∧
    mounted Superblock_new st' f ∧ same_log formatted st'.
Proof.
  destruct formatted_mounted as (f & Hm & _). exists f.
  exact (read_file_correct window_ok Superblock_new formatted f (str "/a.txt") Hm).
Defined.

Lemma chmod_correct_witness :
  ∃ f r st' g, chmod (str "/") 448 formatted = (r, st') ∧ mounted Superblock_new st' g ∧
    logged r formatted st' (str "coolfs-chmod") (str "/") ∧
    update_spec (str "/") (node_mode 448) (tree Superblock_new f) r (tree Superblock_new g).
Proof.
  destruct formatted_mounted as (f & Hm & _). exists f.
  apply (chmod_correct window_ok Superblock_new formatted f (str "/") 448 Hm). lia.
Defined.

Lemma chown_correct_witness :
  ∃ f r st' g, chown (str "/") 1000 1000 formatted = (r, st') ∧ mounted Superblock_new st' g ∧
    logged r formatted st' (str "coolfs-chown") (str "/") ∧
    update_spec (str "/") (node_owner 1000 1000) (tree Superblock_new f) r (tree Superblock_new g).
Proof.
  destruct formatted_mounted as (f & Hm & _). exists f.
  apply (chown_correct window_ok Superblock_new formatted f (str "/") 1000 1000 Hm); done.
Defined.

Lemma touch_mounted sb (st : CoolFs (Storage ramdisk)) f : mounted sb st f → mounted sb (snd (set_fs_dirty true st)) f.
Proof. intros (c & ? & ? & ? & ?). by exists c. Qed.

Lemma touch_dirty (st : CoolFs (Storage ramdisk)) : fs_dirty (snd (set_fs_dirty true st)) = true.
Proof. done. Qed.

(** The formatted volume, marked dirty. *)
Definition touched : CoolFs (Storage ramdisk) := snd (set_fs_dirty true formatted).

Lemma flush_remount_witness :
  ∃ f st1 st2, fs_flush touched = (Ok tt, st1) ∧ mounted Superblock_new st1 f ∧ fs_dirty st1 = false ∧
    mount_or_format (reboot st1) = (Ok tt, st2) ∧ mounted Superblock_new st2 f.
Proof.
  destruct formatted_mounted as (f & Hm & _). exists f.
  exact (flush_remount window_ok Superblock_new touched f (touch_mounted _ _ _ Hm) (touch_dirty formatted)).
Defined.

Lemma mount_formats_blank_witness :
  ∃ st' g, mount_or_format blank = (Ok tt, st') ∧ mounted Superblock_new st' g ∧ holds (CoolFs.store st') g ∧
           ∀ q, tree Superblock_new g q = empty_tree q.
Proof. apply (mount_formats_blank window_ok blank); [reflexivity|exact blank_good|exact blank_unrecognised]. Defined.

(** The formatted volume with an empty file. *)
Definition with_file : CoolFs (Storage ramdisk) := snd (create_node (str "/a.txt") KIND_FILE 7 7 420 formatted).

Lemma with_file_mounted : ∃ f, mounted Superblock_new with_file f.
Proof.
  destruct formatted_mounted as (f & Hm & _).
  destruct (create_node_refines window_ok Superblock_new formatted f (str "/a.txt") KIND_FILE 7 7 420 Hm) as (r & st' & g & E & Hm' & _);
    [by left|done|done|done|].
  exists g. unfold with_file. by rewrite E.
Qed.

Lemma with_file_write : fst (write_file (str "/a.txt") (str "hello") with_file) = Ok tt.
Proof. vm_compute. reflexivity. Qed.

Lemma write_file_read_witness :
  ∃ st'', read_file (str "//A.TXT") (snd (write_file (str "/a.txt") (str "hello") with_file)) = (Ok (str "hello"), st'').
Proof.
  destruct with_file_mounted as (f & Hm).
  apply (write_file_read window_ok Superblock_new with_file f (str "/a.txt") (str "hello") _ _ Hm).
  - repeat (apply Forall_cons_2; [done|]). apply Forall_nil_2.
  - rewrite <- with_file_write. apply surjective_pairing.
  - reflexivity.
  - reflexivity.
Defined.

(** A cache state and the well-formed memory it represents. *)
Lemma demo_image : ∃ (s : Cached (Storage ramdisk)) f, repr s f ∧ fs_wf Superblock_new f.
Proof.
  pose proof blank_good as Hg. pose proof (holds_store_mem window_ok _ Hg) as Hh. pose proof (repr_fresh _ _ Hh) as Hrep.
  destruct (runs_format window_ok _ (repr_bytes window_ok _ _ Hrep)) as (g & Hrun & Hok & _).
  destruct (Hrun _ Hrep) as (s & _ & Hs). exists s, g. split; [done|apply Hok].
Qed.

Lemma write_inode_bytes_correct_witness :
  ∃ (s : Cached (Storage ramdisk)) f r s' g, write_inode_bytes Superblock_new 5 (str "hello") s = (r, s') ∧
    repr s' g ∧ write_post Superblock_new 5 (str "hello") f r g.
Proof.
  destruct demo_image as (s & f & Hs & Hf). exists s, f.
  apply (write_inode_bytes_correct Superblock_new s f 5 (str "hello")).
  - exact window_ok.
  - exact Superblock_new_wf.
  - exact Hs.
  - exact Hf.
  - done.
  - repeat (apply Forall_cons_2; [done|]). apply Forall_nil_2.
Defined.

Lemma inode_roundtrip_witness :
  ∃ (s s1 s2 : Cached (Storage ramdisk)), write_inode Superblock_new 5 (Inode_new KIND_FILE) s = (Ok tt, s1) ∧
    read_inode Superblock_new 5 s1 = (Ok (stored (Inode_new KIND_FILE)), s2).
Proof.
  destruct demo_image as (s & f & Hs & Hf). exists s.
  apply (inode_roundtrip Superblock_new s f 5 (Inode_new KIND_FILE)).
  - exact window_ok.
  - exact Superblock_new_wf.
  - exact Hs.
  - done.
  - split; try done. by apply Forall_replicate.
Defined.
End demo.
