(* ===== verification/CoolQuery.v ===== *)
(** * The queries of CoolFS (src/src/coolfs.rs)

    [metadata], [list_dir], [stats] and [check] on the mounted volume: what
    they report is what the tree of [CoolTree] and the bitmap hold, and they
    change nothing. *)
From S2P Require Import Prelude DiskLayout Storage Text Paths Security BlockCache CoolImage CoolMem CoolFile CoolContent CoolFs CoolDir CoolTree CoolMount.
Set Warnings "-clear-no-such-hyp".

Local Open Scope Z_scope.
Local Open Scope st_scope.

(** ** The contracts *)
Definition describes (n : node) (m : Metadata) : Prop :=
  md_uid m = n_uid n ∧ md_gid m = n_gid n ∧ md_mode m = n_mode n ∧
  md_is_dir m = is_dir_node n ∧ md_is_file m = is_file_node n ∧ (is_file_node n = true → md_size m = len (n_data n)).

Definition metadata_spec (path : bytes) (t : Tree) (r : result unit Metadata) : Prop :=
  match resolve t path with
  | Ok n => ∃ m, r = Ok m ∧ describes n m
  | Err _ => r = Err tt
  end.

(** [l] lists the children of [q], each once. *)
Record listing (t : Tree) (q : list bytes) (l : list DirEntryInfo) : Prop := {
  list_once : NoDup ((fold_name ∘ de_name) <$> l);
  list_sound e : e ∈ l → validate_name (de_name e) = Ok tt ∧
    ∃ n, t (q ++ [de_name e]) = Some n ∧ de_is_dir e = is_dir_node n ∧ (is_file_node n = true → de_size e = len (n_data n));
  list_complete x : is_Some (t (q ++ [x])) → ∃ e, e ∈ l ∧ fold_name (de_name e) = fold_name x }.

Definition list_spec (path : bytes) (t : Tree) (r : result unit (list DirEntryInfo)) : Prop :=
  match resolve t path with
  | Ok n => if is_dir_node n then ∃ l, r = Ok l ∧ listing t (components path) l else r = Err tt
  | Err _ => r = Err tt
  end.

Definition tally {A} (p : A → bool) (l : list A) : Z := len (List.filter p l).

Lemma tally_cons {A} (p : A → bool) x l : tally p (x :: l) = (if p x then 1 else 0) + tally p l.
Proof. unfold tally. simpl. destruct (p x); rewrite ?len_cons; lia. Qed.


Section query.
Context {V : Type} `{ReliableStore V}.
Context (Hwindow : TOTAL_BLOCKS * SECTORS_PER_BLOCK ≤ swindow).
Context (sb : Superblock) (Hwf : sb_wf sb).
Implicit Types (f g : mem) (st : CoolFs V).
Abbreviation runs := (runs (V := V)).
Abbreviation inode f i := (decode_inode sb f i).
Abbreviation tree := (tree sb).

(** ** On an image *)
Lemma runs_ok_path f path :
  tree_ok sb f →
  runs (ok (resolve_path sb path)) f (match path_inode sb f path with Ok i => Ok i | Err _ => Err tt end) f.
Proof.
  intros Hf. pose proof (runs_map_err (λ _, tt) _ _ _ _ (runs_path Hwindow sb Hwf f path Hf)) as Hr.
  by destruct (path_inode sb f path).
Qed.

Lemma is_file_not_dir ino : is_file ino = true → is_dir ino = false.
Proof. unfold is_dir, is_file, KIND_DIR, KIND_FILE. lia. Qed.

Lemma file_data_size f i :
  tree_ok sb f → inode_in_range sb i → is_file_node (node_of sb f i) = true → size (inode f i) = len (n_data (node_of sb f i)).
Proof.
  intros Hf Hi Hk. unfold node_of, inode_node. cbn [n_data]. rewrite (is_file_not_dir _ Hk).
  symmetry. apply (len_content sb). by apply (wf_files _ _ (ok_wf _ _ (tree_fs sb f Hf))).
Qed.

Lemma runs_metadata f path :
  tree_ok sb f → ∃ r, runs (metadata_image sb path) f r f ∧ metadata_spec path (tree f) r.
Proof.
  intros Hf. pose proof (path_inode_reach sb f path Hf) as Hp. pose proof (runs_ok_path f path Hf) as Hr.
  unfold metadata_spec, metadata_image. destruct (path_inode sb f path) as [i|e].
  - destruct Hp as (-> & _ & Hi). eexists. split.
    + eapply runs_bind; [exact Hr|]. eapply runs_bind; [by apply runs_read_inode|]. apply runs_ret.
    + eexists. split; [reflexivity|]. split_and!; try done. cbn [md_size]. by apply file_data_size.
  - rewrite Hp. exists (Err tt). split; [by eapply runs_bind_err|done].
Qed.

(** The line of an entry. *)
Definition entry_info f (e : DirectoryEntry) : DirEntryInfo :=
  {| de_name := d_name e; de_is_dir := is_dir (inode f (d_inode e)); de_size := size (inode f (d_inode e)) |}.

Lemma runs_list_entries f es :
  (∀ e, e ∈ es → inode_in_range sb (d_inode e)) → runs (list_entries sb es) f (Ok (entry_info f <$> es)) f.
Proof.
  induction es as [|e es IH]; intros Hes; [apply runs_ret|]. cbn [list_entries].
  eapply runs_bind; [apply runs_attempt, runs_read_inode; [done..|]; apply Hes; by left|].
  eapply runs_bind; [apply IH; intros e' He'; apply Hes; by right|]. apply runs_ret.
Qed.

Lemma entries_listing f q i es :
  tree_ok sb f → reach sb f q = Some i → dir_at sb f i = Ok es → listing (tree f) q (entry_info f <$> es).
Proof.
  intros Hf Hr Hd. destruct (reach_live sb f q i Hf Hr) as [Hi _].
  destruct (tree_dir sb f i es Hf Hi Hd) as (_ & Hv & Hn & _).
  assert (∀ x, tree f (q ++ [x]) = (node_of sb f ∘ d_inode) <$> find_entry x es) as Hx.
  { intros x. unfold CoolTree.tree. rewrite reach_snoc, Hr. unfold child. simpl. rewrite Hd. by destruct (find_entry x es). }
  split.
  - rewrite <- list_fmap_compose. exact Hn.
  - intros e' (e & -> & He)%list_elem_of_fmap. rewrite Forall_forall in Hv. split; [by apply Hv|].
    destruct (tree_live sb f Hf i es e Hi Hd He) as (Hj & _). exists (node_of sb f (d_inode e)). cbn [entry_info de_name].
    pose proof He as [pos Hpos]%list_elem_of_lookup.
    rewrite Hx, (find_entry_lookup es pos e (d_name e) Hn Hpos eq_refl). split_and!; [done|done|].
    intros Hk. by apply file_data_size.
  - intros x. rewrite Hx. destruct (find_entry x es) as [e|] eqn:Ef; [|by intros []]. intros _.
    apply find_entry_Some in Ef as [He Hxe]. exists (entry_info f e). split; [by apply list_elem_of_fmap_2|done].
Qed.

Lemma runs_list_dir f path :
  tree_ok sb f → ∃ r, runs (list_dir_image sb path) f r f ∧ list_spec path (tree f) r.
Proof.
  intros Hf. pose proof (path_inode_reach sb f path Hf) as Hp. pose proof (runs_ok_path f path Hf) as Hr.
  unfold list_spec, list_dir_image. destruct (path_inode sb f path) as [i|e].
  2: { rewrite Hp. exists (Err tt). split; [by eapply runs_bind_err|done]. }
  destruct Hp as (-> & Hi & Hir). rewrite is_dir_node_of. destruct (is_dir (inode f i)) eqn:Hd.
  - destruct (tree_dirs sb f Hf i Hir Hd) as (es & Hes & _). exists (Ok (entry_info f <$> es)). split.
    + eapply runs_bind; [exact Hr|]. eapply runs_bind; [by apply runs_read_inode|]. rewrite Hd. cbn [negb].
      eapply runs_bind.
      * apply runs_ok. rewrite <- Hes. apply runs_read_dir_entries; [done|done|apply Hf|apply Hir].
      * apply runs_list_entries. intros e He. by apply (tree_live sb f Hf i es e).
    + eexists. split; [reflexivity|]. by apply (entries_listing f _ i).
  - exists (Err tt). split; [|done]. eapply runs_bind; [exact Hr|].
    eapply runs_bind; [by apply runs_read_inode|]. rewrite Hd. apply runs_throw.
Qed.

(** ** Statistics *)
Lemma runs_count_used f l n :
  (∀ b, b ∈ l → 0 ≤ b < total_blocks sb) → runs (count_used sb l n) f (Ok (n + tally (used sb f) l)) f.
Proof.
  revert n. induction l as [|b l IH]; intros n Hl; [rewrite Z.add_0_r; apply runs_ret|]. cbn [count_used].
  eapply runs_bind; [apply runs_block_used; [done..|]; apply Hl; by left|].
  replace (n + tally (used sb f) (b :: l)) with ((if used sb f b then n + 1 else n) + tally (used sb f) l)
    by (rewrite tally_cons; destruct (used sb f b); lia).
  apply IH. intros b' Hb'. apply Hl. by right.
Qed.

Definition is_kind f (k i : Z) : bool := kind (inode f i) =? k.

Lemma runs_count_kinds f l m n :
  (∀ i, i ∈ l → inode_in_range sb i) →
  runs (count_kinds sb l m n) f (Ok (m + tally (is_kind f KIND_FILE) l, n + tally (is_kind f KIND_DIR) l)) f.
Proof.
  revert m n. induction l as [|i l IH]; intros m n Hl; [rewrite !Z.add_0_r; apply runs_ret|]. cbn [count_kinds].
  eapply runs_bind; [apply runs_attempt, runs_read_inode; [done..|]; apply Hl; by left|].
  rewrite !tally_cons. unfold is_kind at 1 3. unfold KIND_FILE, KIND_DIR.
  assert (∀ i', i' ∈ l → inode_in_range sb i') as Hl' by (intros i' Hi'; apply Hl; by right).
  destruct (Z.eqb_spec (kind (inode f i)) 1) as [->|]; [|destruct (Z.eqb_spec (kind (inode f i)) 2)];
    cbn [Z.eqb Pos.eqb]; rewrite ?Z.add_0_l, ?Z.add_assoc; by apply IH.
Qed.

(** The numbers [image_stats] reports. *)
Definition counts f (s : CoolFsStats) : Prop :=
  st_total_blocks s = total_blocks sb ∧ st_used_blocks s = tally (used sb f) (seqZ 0 (total_blocks sb)) ∧
  st_used_blocks s + st_free_blocks s = st_total_blocks s ∧
  st_files s = tally (is_kind f KIND_FILE) (seqZ 0 (inode_count sb)) ∧
  st_dirs s = tally (is_kind f KIND_DIR) (seqZ 0 (inode_count sb)).

Lemma tally_le {A} (p : A → bool) l : tally p l ≤ len l.
Proof. induction l as [|x l IH]; [done|]. rewrite tally_cons, len_cons. destruct (p x); lia. Qed.

Lemma image_stats_run f s :
  repr s f → ∃ x s', image_stats sb s = (Ok x, s') ∧ repr s' f ∧ counts f x.
Proof.
  intros Hs. unfold image_stats.
  destruct (runs_count_used f (seqZ 0 (total_blocks sb)) 0) with (s := s) as (s1 & E1 & Hs1); [by intros b ?%elem_of_seqZ; lia|done|].
  destruct (runs_count_kinds f (seqZ 0 (inode_count sb)) 0 0) with (s := s1) as (s2 & E2 & Hs2);
    [intros i ?%elem_of_seqZ; unfold inode_in_range; lia|done|].
  unfold bind. rewrite E1, E2. eexists _, s2. split_and!; [reflexivity|done|]. unfold counts. cbn.
  split_and!; try done. pose proof (tally_le (used sb f) (seqZ 0 (total_blocks sb))) as Hl.
  assert (len (seqZ 0 (total_blocks sb)) = total_blocks sb) as Hlen
    by (unfold len; rewrite length_seqZ; destruct Hwf; lia).
  unfold saturating_sub. lia.
Qed.

(** ** The paths in use *)
Definition enumerates (t : Tree) (ps : list (list bytes)) : Prop :=
  NoDup (fold_path <$> ps) ∧ ∀ q, is_Some (t q) ↔ ∃ p, p ∈ ps ∧ fold_path p = fold_path q.

(** The nodes of [ps] that satisfy [k]. *)
Definition count_nodes (t : Tree) (k : node → bool) (ps : list (list bytes)) : Z :=
  tally (λ p, match t p with Some n => k n | None => false end) ps.

Lemma inode_paths f l :
  (∀ i, i ∈ l → ∃ q, reach sb f q = Some i) → ∃ ps, Forall2 (λ i q, reach sb f q = Some i) l ps.
Proof.
  induction l as [|i l IH]; intros Hl; [by exists []|]. destruct (Hl i) as [q Hq]; [by left|].
  destruct IH as [ps Hps]; [intros j Hj; apply Hl; by right|]. exists (q :: ps). by constructor.
Qed.

Lemma paths_distinct f l ps :
  tree_ok sb f → Forall2 (λ i q, reach sb f q = Some i) l ps → NoDup l → NoDup (fold_path <$> ps).
Proof.
  intros Hf. induction 1 as [|i q l ps Hq Hps IH]; [constructor|]. intros [Hi Hl]%NoDup_cons. csimpl.
  constructor; [|by apply IH]. intros (q' & Eq & Hq')%list_elem_of_fmap. destruct Hi.
  apply list_elem_of_lookup in Hq' as [k Hk]. destruct (Forall2_lookup_r _ _ _ _ _ Hps Hk) as (i' & Hi' & Hr).
  rewrite (reach_fold sb f q q' Eq), Hr in Hq. injection Hq as <-. by apply list_elem_of_lookup_2 with k.
Qed.

Lemma count_paths f k l ps :
  Forall2 (λ i q, reach sb f q = Some i) l ps →
  tally (λ i, k (node_of sb f i)) l = count_nodes (tree f) k ps.
Proof.
  unfold count_nodes. induction 1 as [|i q l ps Hq Hps IH]; [done|]. rewrite !tally_cons, IH.
  unfold CoolTree.tree. by rewrite Hq.
Qed.

Lemma tally_filter {A} (p r : A → bool) l : (∀ x, p x = true → r x = true) → tally p (List.filter r l) = tally p l.
Proof.
  intros Hp. induction l as [|x l IH]; [done|]. simpl. rewrite tally_cons. specialize (Hp x).
  destruct (r x); [rewrite tally_cons, IH; done|]. rewrite IH. destruct (p x); [|lia]. discriminate Hp. done.
Qed.

(** The inodes in use are the nodes of the tree, one for each path. *)
Lemma volume_paths f :
  volume_ok sb f →
  ∃ ps, enumerates (tree f) ps ∧
    tally (is_kind f KIND_FILE) (seqZ 0 (inode_count sb)) = count_nodes (tree f) is_file_node ps ∧
    tally (is_kind f KIND_DIR) (seqZ 0 (inode_count sb)) = count_nodes (tree f) is_dir_node ps.
Proof.
  intros [Hf Hn]. set (live := List.filter (λ i, negb (is_kind f KIND_FREE i)) (seqZ 0 (inode_count sb))).
  assert (∀ i, i ∈ live ↔ inode_in_range sb i ∧ kind (inode f i) ≠ KIND_FREE) as Hlive.
  { intros i. unfold live. rewrite list_elem_of_In, filter_In, <- list_elem_of_In, elem_of_seqZ. unfold is_kind, inode_in_range. lia. }
  destruct (inode_paths f live) as [ps Hps]; [by intros i [Hi Hk]%Hlive; apply Hn|].
  exists ps. split_and!.
  - split.
    + apply (paths_distinct f live ps Hf Hps). apply NoDup_ListNoDup, List.NoDup_filter, NoDup_ListNoDup, NoDup_seqZ.
    + intros q. unfold CoolTree.tree. split.
      * destruct (reach sb f q) as [i|] eqn:Hq; [|by intros []]. intros _. pose proof (reach_live sb f q i Hf Hq) as Hi%Hlive.
        apply list_elem_of_lookup in Hi as [k Hk]. destruct (Forall2_lookup_l _ _ _ _ _ Hps Hk) as (p & Hp & Hr).
        exists p. split; [by apply list_elem_of_lookup_2 with k|]. by apply (reach_inj sb f p q i Hf).
      * intros (p & [k Hk]%list_elem_of_lookup & Eq). destruct (Forall2_lookup_r _ _ _ _ _ Hps Hk) as (i & _ & Hr).
        rewrite <- (reach_fold sb f p q Eq), Hr. eauto.
  - rewrite <- (count_paths f is_file_node live ps Hps). symmetry. apply tally_filter. intros i.
    unfold is_file_node, is_kind. cbn. unfold KIND_FILE, KIND_FREE. lia.
  - rewrite <- (count_paths f is_dir_node live ps Hps). symmetry. apply tally_filter. intros i.
    unfold is_dir_node, is_kind. cbn. unfold KIND_DIR, KIND_FREE. lia.
Qed.

(** ** On the mounted volume *)
Lemma metadata_refines st f path :
  mounted sb st f →
  ∃ r st', metadata path st = (r, st') ∧ mounted sb st' f ∧ same_log st st' ∧ metadata_spec path (tree f) r.
Proof.
  intros Hm. pose proof Hm as (c & _ & _ & _ & Hv). destruct (runs_metadata f path Hv) as (r & Hr & Hspec).
  destruct (image_option sb st f (λ sb, metadata_image sb path) r f Hm Hr Hv) as (st' & E & Hm' & Hl). by exists r, st'.
Qed.

Lemma list_dir_refines st f path :
  mounted sb st f →
  ∃ r st', list_dir path st = (r, st') ∧ mounted sb st' f ∧ same_log st st' ∧ list_spec path (tree f) r.
Proof.
  intros Hm. pose proof Hm as (c & _ & _ & _ & Hv). destruct (runs_list_dir f path Hv) as (r & Hr & Hspec).
  destruct (image_option sb st f (λ sb, list_dir_image sb path) r f Hm Hr Hv) as (st' & E & Hm' & Hl). by exists r, st'.
Qed.

(** Listing a directory.  On a mounted volume [list_dir] returns, for a
    path that names a directory, each of its children exactly once, with its
    kind and, for files, its size; it fails exactly when the path names no
    directory, and changes nothing. *)
Theorem list_dir_correct st f path :
  mounted sb st f →
  ∃ r st', list_dir path st = (r, st') ∧ mounted sb st' f ∧ same_log st st' ∧ list_spec path (tree f) r.
Proof. apply list_dir_refines. Qed.

(** An image operation whose result depends on the cache. *)
Lemma image_option_run {A} st f (op : Superblock → ST (Cached V) unit A) (post : A → Prop) :
  mounted sb st f → (∀ s, repr s f → ∃ x s', op sb s = (Ok x, s') ∧ repr s' f ∧ post x) →
  ∃ x st', with_image_option op st = (Ok x, st') ∧ mounted sb st' f ∧ same_log st st' ∧ post x.
Proof.
  intros (c & Hs & Hw & Hrep & Hv) Hop. destruct (Hop _ Hrep) as (x & s' & E & Hs' & Hx).
  exists x. eexists. split_and!; [| | |done].
  - unfold with_image_option, ensure_image, ok, map_err, bind, on_image. rewrite Hs. cbn [fst snd]. rewrite E. reflexivity.
  - eexists. split_and!; [reflexivity|done| |done]. by destruct s'.
  - done.
Qed.

(** Statistics.  [stats] counts exactly: its files and directories are
    the nodes of the tree, one for each path (so no inode is in use without a
    path), its used blocks the set bits of the bitmap, and the free blocks the
    rest. *)
Theorem stats_correct st f :
  mounted sb st f →
  ∃ s st', stats st = (Ok s, st') ∧ mounted sb st' f ∧ same_log st st' ∧
    st_total_blocks s = total_blocks sb ∧ st_used_blocks s = tally (used sb f) (seqZ 0 (total_blocks sb)) ∧
    st_used_blocks s + st_free_blocks s = st_total_blocks s ∧
    ∃ ps, enumerates (tree f) ps ∧ st_files s = count_nodes (tree f) is_file_node ps ∧
          st_dirs s = count_nodes (tree f) is_dir_node ps.
Proof.
  intros Hm. pose proof Hm as (c & _ & _ & _ & Hv). destruct (volume_paths f Hv) as (ps & Hps & Hfiles & Hdirs).
  destruct (image_option_run st f (λ sb, image_stats sb) (counts f) Hm (image_stats_run f)) as (s & st' & E & Hm' & Hl & Hc).
  exists s, st'. destruct Hc as (? & ? & ? & -> & ->). split_and!; try done. by exists ps.
Qed.

(** The consistency check of a mounted volume succeeds, and reports the
    number of entries of the root directory. *)
Theorem check_correct st f :
  mounted sb st f →
  ∃ rep st', check st = (Ok rep, st') ∧ mounted sb st' f ∧ same_log st st' ∧ cr_ok rep = true ∧
    ∃ l, listing (tree f) [] l ∧ cr_root_entries rep = len l.
Proof.
  intros Hm. pose proof Hm as (c & _ & _ & _ & [Hf _]).
  pose proof (ok_root _ _ (tree_fs sb f Hf)) as Hr. destruct (tree_dirs sb f Hf _ Hr (tree_root sb f Hf)) as (es & Hes & _).
  unfold check. apply (image_option_run st f _
    (λ rep, cr_ok rep = true ∧ ∃ l, listing (tree f) [] l ∧ cr_root_entries rep = len l) Hm). intros s Hs.
  assert (runs (ok (read_dir_entries sb (root_inode sb))) f (Ok es) f) as R1.
  { apply runs_ok. rewrite <- Hes. apply runs_read_dir_entries; [done|done|apply Hf|apply Hr]. }
  destruct (R1 s Hs) as (s1 & E1 & Hs1).
  destruct (runs_read_inode Hwindow sb Hwf (root_inode sb) f Hr s1 Hs1) as (s2 & E2 & Hs2).
  destruct (image_stats_run f s2 Hs2) as (x & s3 & E3 & Hs3 & Hx).
  unfold check_image, bind. rewrite E1, E2, E3. eexists _, s3. split_and!; [reflexivity|done| |].
  - cbn [cr_ok]. rewrite (tree_root sb f Hf). destruct Hx as (-> & -> & _). apply Z.leb_le.
    pose proof (tally_le (used sb f) (seqZ 0 (total_blocks sb))) as Hl. unfold len in Hl. rewrite length_seqZ in Hl. destruct Hwf. lia.
  - exists (entry_info f <$> es). split; [by apply (entries_listing f [] (root_inode sb))|]. cbn [cr_root_entries].
    unfold len. by rewrite length_fmap.
Qed.
End query.

(** ** On a volume in memory *)
Section demo.
Import RamDisk.

Lemma list_dir_correct_witness :
  ∃ f r st', list_dir (str "/") with_file = (r, st') ∧ mounted Superblock_new st' f ∧ same_log with_file st' ∧
    list_spec (str "/") (tree Superblock_new f) r.
Proof.
  destruct with_file_mounted as (f & Hm). exists f.
  exact (list_dir_correct window_ok Superblock_new Superblock_new_wf with_file f (str "/") Hm).
Defined.

Lemma stats_correct_witness :
  ∃ f s st', stats with_file = (Ok s, st') ∧ mounted Superblock_new st' f ∧ st_used_blocks s + st_free_blocks s = st_total_blocks s.
Proof.
  destruct with_file_mounted as (f & Hm). exists f.
  destruct (stats_correct window_ok Superblock_new Superblock_new_wf with_file f Hm) as (s & st' & E & Hm' & _ & _ & _ & Hsum & _).
  exists s, st'. exact (conj E (conj Hm' Hsum)).
Defined.

Lemma check_correct_witness :
  ∃ f rep st', check with_file = (Ok rep, st') ∧ mounted Superblock_new st' f ∧ cr_ok rep = true.
Proof.
  destruct with_file_mounted as (f & Hm). exists f.
  destruct (check_correct window_ok Superblock_new Superblock_new_wf with_file f Hm) as (rep & st' & E & Hm' & _ & Hok & _).
  exists rep, st'. exact (conj E (conj Hm' Hok)).
Defined.
End demo.
