(* ===== verification/CoolSafe.v ===== *)
(** * Replacing a file safely

    [safe_write_file_with_metadata] of src/src/coolfs.rs writes the new
    contents to a temporary file in the same directory, deletes the old file
    and renames the temporary one.  The theorem of this file says that no
    error, out of space included, loses the old contents.  Its core is an
    account of the free blocks: deleting an entry leaves enough room for the
    rename that follows. *)
From S2P Require Import Prelude DiskLayout Storage Text Paths Security BlockCache CoolImage CoolMem CoolFile CoolContent CoolFs CoolDir CoolTree CoolMount.
Set Warnings "-clear-no-such-hyp".

Local Open Scope Z_scope.
Local Open Scope st_scope.

(** ** Counting blocks *)
Lemma len_filter_split {A} (p : A → bool) l :
  len l = len (List.filter p l) + len (List.filter (λ x, negb (p x)) l).
Proof. unfold len. induction l as [|x l IH]; simpl; [done|]. destruct (p x); simpl; lia. Qed.

Lemma len_concat_fmap {A B} (h : A → list B) l : len (concat (h <$> l)) = lsum (λ x, len (h x)) l.
Proof. induction l as [|x l IH]; [done|]. csimpl. cbn [concat]. by rewrite len_app, IH. Qed.

Lemma elem_of_concat {A} (x : A) ls : x ∈ concat ls ↔ ∃ l, x ∈ l ∧ l ∈ ls.
Proof.
  rewrite list_elem_of_In, in_concat. split; intros (l & H1 & H2); exists l; split; by apply list_elem_of_In.
Qed.

Lemma NoDup_concat_fmap {A B} (h : A → list B) l :
  NoDup l → (∀ x, x ∈ l → NoDup (h x)) → (∀ x y b, x ∈ l → y ∈ l → x ≠ y → b ∈ h x → b ∉ h y) →
  NoDup (concat (h <$> l)).
Proof.
  induction 1 as [|x l Hx Hl IH]; intros Hn Hd; [constructor|]. csimpl. cbn [concat]. apply NoDup_app. split_and!.
  - apply Hn. by left.
  - intros b Hb (k & Hbk & Hk)%elem_of_concat. apply list_elem_of_fmap in Hk as (y & -> & Hy).
    apply (Hd x y b); [by left|by right| |done|done]. by intros ->.
  - apply IH; [intros y Hy; apply Hn; by right|]. intros y z b Hy Hz. apply Hd; by right.
Qed.

Lemma lsum_one {A} (h h' : A → Z) l x :
  NoDup l → x ∈ l → (∀ z, z ∈ l → z ≠ x → h' z = h z) → lsum h' l = lsum h l + (h' x - h x).
Proof.
  intros Hnd [i Hi]%list_elem_of_lookup Hz. apply take_drop_middle in Hi as El. rewrite <- El in *.
  apply NoDup_app in Hnd as (_ & Hd & [Hd' _]%NoDup_cons). rewrite !lsum_app. simpl.
  rewrite (lsum_ext h' h (take i l)), (lsum_ext h' h (drop (S i) l)); [lia|..]; intros z Hzl; apply Hz.
  - apply elem_of_app. right. by right.
  - by intros ->.
  - apply elem_of_app. by left.
  - intros ->. apply (Hd x Hzl). by left.
Qed.

Lemma lsum_two {A} `{EqDecision A} (h h' : A → Z) l x y :
  NoDup l → x ∈ l → y ∈ l → x ≠ y → (∀ z, z ∈ l → z ≠ x → z ≠ y → h' z = h z) →
  lsum h' l = lsum h l + (h' x - h x) + (h' y - h y).
Proof.
  intros Hnd Hx Hy Hxy Hz. set (m := λ z, if decide (z = x) then h' z else h z).
  rewrite (lsum_one m h' l y Hnd Hy), (lsum_one h m l x Hnd Hx).
  - unfold m. rewrite decide_True, decide_False by done. lia.
  - intros z _ Hne. unfold m. by rewrite decide_False.
  - intros z Hzl Hne. unfold m. case_decide; [done|]. by apply Hz.
Qed.

Section account.
Context (sb : Superblock) (Hwf : sb_wf sb).
Implicit Types f g : mem.
Abbreviation inode f i := (decode_inode sb f i).

Definition inodes : list Z := seqZ 0 (inode_count sb).

Lemma elem_of_inodes i : i ∈ inodes ↔ inode_in_range sb i.
Proof. unfold inodes, inode_in_range. rewrite elem_of_seqZ. lia. Qed.

Lemma len_owned f ino : file_wf sb f ino → len (owned f ino) = own_len ino.
Proof.
  intros Hf. unfold owned, own_len. rewrite len_app, (len_data_blocks sb f ino Hf). by destruct (indirect ino =? 0).
Qed.

(** The free blocks are the data blocks that no inode owns. *)
Lemma free_count f :
  fs_wf sb f → len (free_list sb f) = len (all_data sb) - lsum (λ i, own_len (inode f i)) inodes.
Proof.
  intros Hfs. rewrite (len_filter_split (used sb f) (all_data sb)). fold (free_list sb f).
  assert (List.filter (used sb f) (all_data sb) ≡ₚ concat ((λ i, owned f (inode f i)) <$> inodes)) as Hp.
  { apply NoDup_Permutation.
    - apply NoDup_ListNoDup, List.NoDup_filter, NoDup_ListNoDup, NoDup_seqZ.
    - apply NoDup_concat_fmap; [apply NoDup_seqZ|..].
      + intros i Hi%elem_of_inodes. apply (wf_files _ _ Hfs i Hi).
      + intros i j b Hi%elem_of_inodes Hj%elem_of_inodes. by apply (wf_disjoint _ _ Hfs).
    - intros b. rewrite list_elem_of_In, filter_In, <- list_elem_of_In. unfold all_data. rewrite elem_of_seqZ. split.
      + intros [Hb Hu]. apply (wf_used _ _ Hfs) in Hu as (i & Hi & Hin); [|unfold data_block; lia].
        apply elem_of_concat. exists (owned f (inode f i)). split; [done|]. apply list_elem_of_fmap.
        exists i. split; [done|]. by apply elem_of_inodes.
      + intros (k & Hb & (i & -> & Hi%elem_of_inodes)%list_elem_of_fmap)%elem_of_concat.
        pose proof (fwf_data _ _ _ (wf_files _ _ Hfs i Hi)) as Hd. rewrite Forall_forall in Hd. specialize (Hd b Hb).
        split; [unfold data_block in Hd; lia|]. apply (wf_used _ _ Hfs); eauto. }
  rewrite <- (lsum_ext (λ i, len (owned f (inode f i)))).
  - rewrite <- len_concat_fmap. unfold len in *. rewrite (Permutation_length Hp). lia.
  - intros i Hi%elem_of_inodes. by apply len_owned, (wf_files _ _ Hfs).
Qed.

Lemma blocks_needed_mono a b : a ≤ b → blocks_needed a ≤ blocks_needed b.
Proof. unfold blocks_needed, BLOCK_SIZE. intros. apply Z.div_le_mono; lia. Qed.

Lemma blocks_total_mono a b : a ≤ b → blocks_total a ≤ blocks_total b.
Proof. unfold blocks_total. intros. destruct (Z.ltb_spec DIRECT_BLOCKS a), (Z.ltb_spec DIRECT_BLOCKS b); lia. Qed.

Lemma own_len_nonneg f i : fs_wf sb f → inode_in_range sb i → 0 ≤ own_len (inode f i).
Proof. intros Hfs Hi. rewrite <- (len_owned f); [apply len_nonneg|]. by apply (wf_files _ _ Hfs). Qed.

(** A directory owns the blocks its entries need, or more. *)
Lemma parse_entries_len fuel b es : parse_entries fuel b = Ok es → DIR_ENTRY_SIZE * len es ≤ len b.
Proof.
  revert b es. induction fuel as [|fuel IH]; intros b es; simpl.
  { intros [= <-]. change (len (A := DirectoryEntry) []) with 0. pose proof (len_nonneg b). lia. }
  destruct (Z.ltb_spec (len b) DIR_ENTRY_SIZE).
  { intros [= <-]. change (len (A := DirectoryEntry) []) with 0. pose proof (len_nonneg b). lia. }
  destruct (parse_entry _) as [o|]; [|done]. destruct (parse_entries fuel _) as [rest|] eqn:E; [|done].
  apply IH in E. assert (len (drop (Z.to_nat DIR_ENTRY_SIZE) b) = len b - DIR_ENTRY_SIZE) as El.
  { unfold len, DIR_ENTRY_SIZE in *. rewrite length_drop. lia. }
  rewrite El in E. intros [= <-]. unfold DIR_ENTRY_SIZE in *. destruct o; rewrite ?len_cons; lia.
Qed.

Lemma dir_own_len f P es :
  fs_wf sb f → inode_in_range sb P → dir_at sb f P = Ok es →
  blocks_total (blocks_needed (DIR_ENTRY_SIZE * len es)) ≤ own_len (inode f P).
Proof.
  intros Hfs HP Hd. rewrite dir_at_in in Hd by done. destruct (is_dir (inode f P)); [|done].
  pose proof (wf_files _ _ Hfs P HP) as Hf. apply parse_entries_len in Hd. rewrite (len_content sb f _ Hf) in Hd.
  transitivity (blocks_total (nblocks (inode f P))); [by apply blocks_total_mono, blocks_needed_mono|].
  unfold own_len, blocks_total. pose proof (fwf_indirect _ _ _ Hf).
  destruct (Z.ltb_spec DIRECT_BLOCKS (nblocks (inode f P))), (Z.eqb_spec (indirect (inode f P)) 0); lia || (exfalso; auto).
Qed.
End account.

Section safe.
Context {V : Type} `{ReliableStore V}.
Context (Hwindow : TOTAL_BLOCKS * SECTORS_PER_BLOCK ≤ swindow).
Context (sb : Superblock) (Hwf : sb_wf sb).
Implicit Types (f g : mem) (st : CoolFs V).
Abbreviation inode f i := (decode_inode sb f i).
Abbreviation tree := (tree sb).
Abbreviation reach := (reach sb).

(** ** The tree is closed under prefixes *)
Lemma reach_prefix f q r i :
  tree_ok sb f → reach f (q ++ r) = Some i → r ≠ [] → ∃ x, is_Some (reach f (q ++ [x])).
Proof.
  intros Hf. revert i. induction r as [|y r IH] using rev_ind; intros i Hr Hne; [done|].
  destruct r as [|x r]; [by exists y|]. rewrite app_assoc, reach_snoc in Hr.
  destruct (reach f (q ++ x :: r)) as [j|] eqn:Hj; [|done]. by apply (IH j).
Qed.

Lemma tree_no_children f q r : tree_ok sb f → ¬ has_children (tree f) q → r ≠ [] → tree f (q ++ r) = None.
Proof.
  intros Hf Hn Hr. unfold tree. destruct (reach f (q ++ r)) as [i|] eqn:E; [|done]. exfalso. apply Hn.
  destruct (reach_prefix f q r i Hf E Hr) as [x [j Hx]]. exists x. unfold CoolTree.tree. by rewrite Hx.
Qed.

Lemma tree_missing f q : tree f q = None → ¬ has_children (tree f) q.
Proof.
  unfold CoolTree.tree. intros Hq [x Hx]. rewrite reach_snoc in Hx. destruct (reach f q); [done|]. by destruct Hx.
Qed.

Lemma tree_file f q n : tree_ok sb f → tree f q = Some n → is_dir_node n = false → ¬ has_children (tree f) q.
Proof.
  intros Hf Hq Hn [x Hx]. unfold CoolTree.tree in *. destruct (reach f q) as [j|] eqn:Ej; [|done].
  injection Hq as <-. rewrite is_dir_node_of in Hn. rewrite reach_snoc, Ej in Hx. unfold child in Hx. simpl in Hx.
  destruct (reach_live sb f q j Hf Ej) as [Hj _]. rewrite dir_at_in, Hn in Hx by done. by destruct Hx.
Qed.

Lemma tree_fold f p q : fold_path p = fold_path q → tree f p = tree f q.
Proof. intros E. unfold CoolTree.tree. by rewrite (reach_fold sb f p q E). Qed.

(** A node below the root is in a directory. *)
Lemma tree_parent f q x n :
  tree_ok sb f → tree f (q ++ [x]) = Some n → ∃ d, tree f q = Some d ∧ is_dir_node d = true.
Proof.
  intros Hf. unfold CoolTree.tree. rewrite reach_snoc. destruct (reach f q) as [P|] eqn:Hp; [|done]. intros Hn.
  exists (node_of sb f P). split; [done|]. rewrite is_dir_node_of. destruct (reach_live sb f _ P Hf Hp) as [HP _].
  unfold child in Hn. simpl in Hn. rewrite dir_at_in in Hn by done. by destruct (is_dir (inode f P)).
Qed.

(** ** The directory that holds the target *)
Lemma target_dir_reach f path parent name P es :
  tree_ok sb f → split_parent_and_name path = Ok (parent, name) → reach f (components parent) = Some P →
  dir_at sb f P = Ok es → target_dir sb f path = Ok (P, name, es).
Proof.
  intros Hf Hs Hr Hd. unfold target_dir. rewrite Hs. pose proof (path_inode_reach sb f parent Hf) as Hp.
  destruct (path_inode sb f parent) as [i|e].
  - destruct Hp as (_ & Hi & _). assert (i = P) as -> by congruence. by rewrite Hd.
  - apply split_components in Hs as (_ & Hst & _).
    rewrite (resolve_tree sb f parent (node_of sb f P) Hf Hst) in Hp; [done|]. unfold CoolTree.tree. by rewrite Hr.
Qed.

Lemma nonempty_leaf f t x : nonempty_dir sb f t = false → child sb f t x = None.
Proof. unfold nonempty_dir, child. by destruct (dir_at sb f t) as [[|? ?]|]. Qed.

(** After a deletion in a directory there is room to rewrite it. *)
Lemma rename_room f g path tmp parent parent' name q :
  tree_ok sb f → tree_ok sb g → delete_post sb f path (Ok tt) g →
  split_parent_and_name path = Ok (parent, name) → split_parent_and_name tmp = Ok (parent', q) →
  components parent' = components parent → entry_room sb g tmp 0 = true.
Proof.
  intros Hf Hg Hpost Hs Hs' Hc. unfold delete_post in Hpost.
  destruct (target_dir sb f path) as [[[P name'] es]|] eqn:Et; [|by destruct Hpost].
  destruct (target_dir_ok Hwindow sb Hwf f path P name' es Hf Et) as (HP & HdP & _ & parent0 & Hs0 & Hpi).
  rewrite Hs in Hs0. injection Hs0 as <- <-.
  assert (reach f (components parent) = Some P) as Hr.
  { pose proof (path_inode_reach sb f parent Hf) as Hp. rewrite Hpi in Hp. apply Hp. }
  destruct (position _ es) as [pos|] eqn:Epos; [|by destruct Hpost].
  destruct (position_Some _ _ _ Epos) as (e & Hpos & _ & _). cbv zeta in Hpost. rewrite (nth_map_lookup es pos e Hpos) in Hpost.
  destruct (nonempty_dir sb f (d_inode e)) eqn:Hne; [by destruct Hpost|].
  destruct (decide (dir_fits sb f (len es - 1))) as [[Hmax Hfree]|]; [|by destruct Hpost].
  destruct Hpost as (_ & HdP' & Ei & _ & Hown & Hu).
  assert (reach g (components parent) = Some P) as Hr'.
  { rewrite (reach_delete sb f g (components parent) P es pos e) by (done || (intros x; by apply nonempty_leaf)).
    rewrite decide_False; [done|]. intros E%(f_equal length). unfold fold_path in E. rewrite !length_fmap, length_app in E.
    simpl in E. lia. }
  unfold entry_room. rewrite (target_dir_reach g tmp parent' q P (delete pos es)) by (done || by rewrite Hc).
  apply bool_decide_eq_true_2. rewrite (len_delete es pos e Hpos), Z.add_0_r. split; [done|].
  pose proof (ok_wf _ _ (tree_fs sb f Hf)) as Hwff. pose proof (ok_wf _ _ (tree_fs sb g Hg)) as Hwfg.
  destruct (tree_live sb f Hf P es e HP HdP (list_elem_of_lookup_2 _ _ _ Hpos)) as (Htr & _).
  assert (P ≠ d_inode e) as HtP.
  { intros E. rewrite <- E in Hne. unfold nonempty_dir in Hne. rewrite HdP in Hne. by destruct es. }
  rewrite (free_count sb g Hwfg). rewrite (free_count sb f Hwff) in Hfree.
  rewrite (lsum_two (λ i, own_len (inode f i)) (λ i, own_len (inode g i)) (inodes sb) P (d_inode e));
    [|apply NoDup_seqZ|by apply elem_of_inodes|by apply elem_of_inodes|done|].
  - rewrite Hown, Ei. pose proof (dir_own_len sb f P es Hwff HP HdP). change (own_len Inode_free) with 0.
    pose proof (own_len_nonneg sb f (d_inode e) Hwff Htr).
    pose proof (blocks_total_mono _ _ (blocks_needed_mono (DIR_ENTRY_SIZE * (len es - 1)) (DIR_ENTRY_SIZE * len es)
      ltac:(unfold DIR_ENTRY_SIZE; lia))). lia.
  - intros j Hj%elem_of_inodes HjP Hjt. by destruct (Hu j Hj HjP Hjt) as [-> _].
Qed.

(** ** The four operations, as the tree sees them *)
Abbreviation same_tree f g := (∀ q, tree g q = tree f q).

Lemma delete_step st f path parent name :
  mounted sb st f → split_parent_and_name path = Ok (parent, name) →
  ∃ r st' g, delete_file path st = (r, st') ∧ mounted sb st' g ∧ delete_post sb f path r g ∧
    match r with
    | Ok _ => ¬ has_children (tree f) (components path) ∧ ∀ q, tree g q = tree_set (components path) None (tree f) q
    | Err e => (e = NotFound → tree f (components path) = None) ∧ same_tree f g
    end.
Proof.
  intros Hm Hs. pose proof Hm as (c & _ & _ & _ & [Hf _]).
  destruct (delete_file_inodes Hwindow sb st f path Hm) as (r & st' & g & E & Hm' & _ & Hpost).
  exists r, st', g. split_and!; [done|done|done|].
  apply (delete_post_spec sb f g path r Hf) in Hpost. unfold delete_spec, in_parent in Hpost.
  rewrite Hs in Hpost. apply split_components in Hs as (Hc & Hst & _).
  destruct (resolve (tree f) parent) as [d|e] eqn:Er.
  - destruct (is_dir_node d); [|by destruct Hpost as [-> ?]].
    destruct (tree f (components path)); [|by destruct Hpost as [-> ?]].
    destruct Hpost as [[_ [-> ?]]|[Hn Hpost]]; [done|].
    destruct (entry_room sb f path (-1)); destruct Hpost as [-> ?]; done.
  - destruct Hpost as [-> Ht]. split; [|done]. intros ->. unfold CoolTree.tree. rewrite Hc, reach_snoc.
    destruct (reach f (components parent)) as [P|] eqn:Hr; [|done]. exfalso.
    rewrite (resolve_tree sb f parent (node_of sb f P) Hf Hst) in Er; [done|]. unfold CoolTree.tree. by rewrite Hr.
Qed.

Lemma create_step st f path parent name uid gid mode :
  mounted sb st f → u32 uid → u32 gid → 0 ≤ mode → split_parent_and_name path = Ok (parent, name) →
  ∃ r st' g, create_file_with_metadata path uid gid mode st = (r, st') ∧ mounted sb st' g ∧
    match r with
    | Ok _ => tree f (components path) = None ∧
        ∀ q, tree g q = tree_set (components path) (Some (new_node KIND_FILE uid gid mode)) (tree f) q
    | Err _ => same_tree f g
    end.
Proof.
  intros Hm Hu Hgi Hmode Hs. pose proof Hm as (c & _ & _ & _ & [Hf _]).
  destruct (create_node_refines Hwindow sb st f path KIND_FILE uid gid mode Hm) as (r & st' & g & E & Hm' & _ & Hpost);
    [by left|done..|].
  exists r, st', g. split_and!; [done|done|]. by apply create_effect in Hpost.
Qed.

Lemma write_step st f path data n :
  mounted sb st f → Forall is_byte data → starts_with (str "/") path = true →
  tree f (components path) = Some n → is_file_node n = true →
  ∃ r st' g, write_file path data st = (r, st') ∧ mounted sb st' g ∧
    match r with
    | Ok _ => ∀ q, tree g q = tree_set (components path) (Some (set_data data n)) (tree f) q
    | Err _ => same_tree f g
    end.
Proof.
  intros Hm Hby Hst Hn Hfile. pose proof Hm as (c & _ & _ & _ & [Hf _]).
  destruct (write_file_refines Hwindow sb st f path data Hm Hby) as (r & st' & g & E & Hm' & _ & Hpost).
  exists r, st', g. split_and!; [done|done|]. unfold write_spec in Hpost.
  rewrite (resolve_tree sb f path n Hf Hst Hn), Hfile in Hpost. simpl in Hpost.
  destruct (data_room sb f data); destruct Hpost as [-> ?]; done.
Qed.

Lemma rename_step st f path parent old new_name n :
  mounted sb st f → split_parent_and_name path = Ok (parent, old) → validate_name new_name = Ok tt →
  fold_name old ≠ fold_name new_name → tree f (components path) = Some n →
  tree f (components parent ++ [new_name]) = None →
  ∃ r st' g, rename path new_name st = (r, st') ∧ mounted sb st' g ∧ (entry_room sb f path 0 = true → r = Ok tt) ∧
    match r with
    | Ok _ => ∀ q, tree g q = before_move (components path) (components parent ++ [new_name]) q ≫= tree f
    | Err _ => same_tree f g
    end.
Proof.
  intros Hm Hs Hv Hne Hn Hnew. pose proof Hm as (c & _ & _ & _ & [Hf _]).
  destruct (rename_refines Hwindow sb st f path new_name Hm) as (r & st' & g & E & Hm' & Hr).
  rewrite Hv in Hr. destruct Hr as (b & -> & _ & Hpost). exists (match b with Ok _ => Ok tt | Err e => Err e end), st', g.
  unfold rename_spec, same_name_as, in_parent in Hpost. rewrite Hs in Hpost.
  assert (names_equal old new_name = false) as Hd by (apply not_true_iff_false; by rewrite names_equal_fold).
  rewrite Hd in Hpost. apply split_components in Hs as (Hc & Hst & _).
  destruct (tree_parent f (components parent) old n Hf) as (d & Ed & Hdir); [by rewrite <- Hc|].
  rewrite (resolve_tree sb f parent d Hf Hst Ed), Hdir, Hn, Hnew in Hpost. cbv zeta in Hpost.
  destruct (entry_room sb f path 0); destruct Hpost as [-> Ht]; by split_and!.
Qed.

(** ** The whole replacement *)
Lemma strip_path_self pre q : fold_path q = fold_path pre → strip_path pre q = Some [].
Proof.
  intros E. assert (length q = length pre) as Hl by (apply (f_equal length) in E; unfold fold_path in E; by rewrite !length_fmap in E).
  unfold strip_path. by rewrite <- Hl, firstn_all, drop_all, decide_True.
Qed.

(** The temporary file [tq] moves to the free path [pq]; only these two change. *)
Lemma moved f g tq pq n :
  tree_ok sb f → tree f tq = Some n → is_dir_node n = false → tree f pq = None →
  (∀ q, tree g q = before_move tq pq q ≫= tree f) → fold_path tq ≠ fold_path pq → length tq = length pq →
  tree g pq = Some n ∧ tree g tq = None ∧
  ∀ q, fold_path q ≠ fold_path pq → fold_path q ≠ fold_path tq →
    tree g q = tree f q ∨ (tree g q = None ∧ ∃ r, r ≠ [] ∧
      (fold_path q = fold_path (pq ++ r) ∨ fold_path q = fold_path (tq ++ r))).
Proof.
  intros Hf Ht Hn Hp Hg Hne Hl. split_and!.
  - rewrite Hg. unfold before_move. rewrite strip_path_self by done. simpl. by rewrite app_nil_r.
  - rewrite Hg. unfold before_move. destruct (strip_path pq tq) as [r|] eqn:E.
    + apply strip_path_Some in E. destruct r; [by rewrite app_nil_r in E|].
      apply (f_equal length) in E. unfold fold_path in E. rewrite !length_fmap, length_app in E. simpl in E. lia.
    + by rewrite strip_path_self.
  - intros q Hqp Hqt. rewrite Hg. unfold before_move. destruct (strip_path pq q) as [r|] eqn:Ep.
    + right. apply strip_path_Some in Ep. destruct r as [|x r]; [by rewrite app_nil_r in Ep|]. split; [|by exists (x :: r); eauto].
      simpl. apply tree_no_children; [done| |done]. by eapply tree_file.
    + destruct (strip_path tq q) as [r|] eqn:Et; [|by left]. right. apply strip_path_Some in Et.
      destruct r as [|x r]; [by rewrite app_nil_r in Et|]. split; [done|]. exists (x :: r). eauto.
Qed.

(** The file that replaces the old one. *)
Definition file_node (data : bytes) (uid gid mode : Z) : node := set_data data (new_node KIND_FILE uid gid mode).

(** Everything but the target and the temporary file is as it was. *)
Definition others_kept (pq tq : list bytes) f g : Prop :=
  ∀ q, fold_path q ≠ fold_path pq → fold_path q ≠ fold_path tq → tree g q = tree f q.

Definition replaced (pq tq : list bytes) (n : node) f (r : result FsError unit) g : Prop :=
  others_kept pq tq f g ∧
  match r with
  | Ok _ => tree g pq = Some n ∧ tree g tq = None
  | Err _ => tree g pq = tree f pq
  end.

(** What is at the path of the temporary file afterwards: what was there, nothing,
    or the new file, without contents yet or with them. *)
Definition left_over (tq : list bytes) (n : node) f g : Prop :=
  tree g tq = tree f tq ∨ tree g tq = None ∨ tree g tq = Some (set_data [] n) ∨ tree g tq = Some n.

(** The second half: the temporary file is written, now the target goes. *)
Section swap.
Context (path parent name tmp parent' q : bytes) (f0 : mem) (n : node).
Context (Hs : split_parent_and_name path = Ok (parent, name)) (Hs' : split_parent_and_name tmp = Ok (parent', q)).
Context (Hc : components parent' = components parent) (Hne : fold_name q ≠ fold_name name).
Context (Hf0 : tree_ok sb f0) (Hleaf0 : ¬ has_children (tree f0) (components tmp)) (Hfile : is_dir_node n = false).

Let pq := components path.
Let tq := components tmp.

Let Epq : pq = components parent ++ [name].
Proof. by apply split_components in Hs as [? _]. Qed.
Let Etq : tq = components parent ++ [q].
Proof. apply split_components in Hs' as [E _]. unfold tq. by rewrite E, Hc. Qed.
Let Hdiff : fold_path tq ≠ fold_path pq.
Proof. rewrite Epq, Etq. by intros [_ ?]%fold_path_snoc. Qed.
Let Hlen : length tq = length pq.
Proof. by rewrite Epq, Etq, !length_app. Qed.

(** What the tree looks like before the swap. *)
Definition written f : Prop := ∀ p, tree f p = tree_set tq (Some n) (tree f0) p.

Lemma written_off f p : written f → fold_path p ≠ fold_path tq → tree f p = tree f0 p.
Proof. intros Hw Hp. rewrite Hw. unfold tree_set. by rewrite decide_False. Qed.

Lemma written_tmp f : written f → tree f tq = Some n.
Proof. intros Hw. rewrite Hw. unfold tree_set. by rewrite decide_True. Qed.

(** Below the target and below the temporary file there was nothing. *)
Lemma below_empty f p r :
  tree_ok sb f → written f → ¬ has_children (tree f) pq → r ≠ [] →
  fold_path p = fold_path (pq ++ r) ∨ fold_path p = fold_path (tq ++ r) → tree f0 p = None.
Proof.
  intros Hf Hw Hch Hr [E|E].
  - rewrite <- (written_off f p Hw).
    + rewrite (tree_fold f p _ E). by apply tree_no_children.
    + rewrite E. intros E'%(f_equal length). unfold fold_path in E'. rewrite !length_fmap, length_app in E'.
      destruct r; [done|]. simpl in E'. lia.
  - rewrite (tree_fold f0 p _ E). by apply tree_no_children.
Qed.

(** The rename on [f1], which is [f] without the target. *)
Lemma swap_rename st1 f f1 :
  mounted sb st1 f1 → tree_ok sb f → written f → ¬ has_children (tree f) pq →
  (∀ p, tree f1 p = tree_set pq None (tree f) p) →
  ∃ r st' g, rename tmp name st1 = (r, st') ∧ mounted sb st' g ∧ (entry_room sb f1 tmp 0 = true → r = Ok tt) ∧
    (r = Ok tt → replaced pq tq n f0 r g) ∧ (r ≠ Ok tt → tree f pq = None → replaced pq tq n f0 r g) ∧ left_over tq n f0 g.
Proof.
  intros Hm Hf Hw Hch Ht1. pose proof Hm as (c & _ & _ & _ & [Hf1 _]).
  assert (tree f1 tq = Some n) as Htmp by (rewrite Ht1; unfold tree_set; rewrite decide_False by done; by apply written_tmp).
  assert (tree f1 pq = None) as Htgt by (rewrite Ht1; unfold tree_set; by rewrite decide_True).
  destruct (rename_step st1 f1 tmp parent' q name n Hm Hs' (split_valid _ _ _ Hs) Hne Htmp) as (r & st' & g & E & Hm' & Hroom & Hr).
  { rewrite Hc, <- Epq. exact Htgt. }
  exists r, st', g. split_and!; [done|done|done| | |].
  3: { destruct r as [[]|]; [|do 3 right; by rewrite Hr]. rewrite Hc, <- Epq in Hr. fold tq in Hr. right. left.
       by apply (moved f1 g tq pq n Hf1 Htmp Hfile Htgt Hr Hdiff Hlen). }
  - intros ->. rewrite Hc, <- Epq in Hr. fold tq in Hr.
    destruct (moved f1 g tq pq n Hf1 Htmp Hfile Htgt Hr Hdiff Hlen) as (Hgp & Hgt & Hoth).
    split; [|done]. intros p Hp Hpt. destruct (Hoth p Hp Hpt) as [->|(-> & r & Hrn & Hor)].
    + rewrite Ht1. unfold tree_set. rewrite decide_False by done. by apply written_off.
    + symmetry. exact (below_empty f p r Hf Hw Hch Hrn Hor).
  - intros Hrn Hnone. destruct r as [[]|e]; [done|]. split.
    + intros p Hp Hpt. rewrite Hr, Ht1. unfold tree_set. rewrite decide_False by done. by apply written_off.
    + rewrite Hr, Htgt, <- Hnone. by apply written_off.
Qed.

Lemma swap_step st f :
  mounted sb st f → written f →
  ∃ r st' g,
    (let! r := attempt (delete_file path) in
     match allow_missing r with
     | Ok _ => rename tmp name
     | Err err => attempt (E' := FsError) (delete_file tmp) ;;! throw err
     end) st = (r, st') ∧ mounted sb st' g ∧ replaced pq tq n f0 r g ∧ left_over tq n f0 g.
Proof.
  intros Hm Hw. pose proof Hm as (c & _ & _ & _ & [Hf _]).
  destruct (delete_step st f path parent name Hm Hs) as (r & st1 & f1 & E & Hm1 & Hpost & Hr). fold pq in Hr.
  pose proof Hm1 as (c1 & _ & _ & _ & [Hf1 _]). unfold bind at 1, attempt at 1. rewrite E.
  destruct r as [[]|e]; [|destruct (decide (e = NotFound)) as [->|Hnf]]; cbn [allow_missing].
  - destruct Hr as [Hch Ht1]. pose proof (rename_room f f1 path tmp parent parent' name q Hf Hf1 Hpost Hs Hs' Hc) as Hroom.
    destruct (swap_rename st1 f f1 Hm1 Hf Hw Hch Ht1) as (r & st' & g & E' & Hm' & Hok & Hrep & _ & Hleft).
    specialize (Hok Hroom). exists r, st', g. split_and!; [done|done|by apply Hrep|done].
  - destruct Hr as [Hnone Ht1]. specialize (Hnone eq_refl).
    destruct (swap_rename st1 f f1 Hm1 Hf Hw) as (r & st' & g & E' & Hm' & _ & Hrep & Hrep' & Hleft).
    { by apply tree_missing. }
    { intros p. rewrite Ht1. unfold tree_set. case_decide as Hp; [|done]. by rewrite (tree_fold f p pq Hp). }
    exists r, st', g. split_and!; [done|done| |done]. destruct r as [[]|]; [by apply Hrep|by apply Hrep'].
  - destruct Hr as [_ Ht1].
    destruct (delete_step st1 f1 tmp parent' q Hm1 Hs') as (r2 & st2 & g & E2 & Hm2 & _ & Hr2). fold tq in Hr2.
    exists (Err e), st2, g. split_and!; [|done| |].
    3: { destruct r2 as [[]|]; destruct Hr2 as [_ Hr2]; [right; left|do 3 right]; rewrite Hr2, ?Ht1; [|by apply written_tmp].
         unfold tree_set. by rewrite decide_True. }
    { destruct e; try done; unfold bind, attempt; by rewrite E2. }
    assert (∀ p, fold_path p ≠ fold_path tq → tree g p = tree f0 p) as Hg.
    { intros p Hp. rewrite <- (written_off f p Hw Hp), <- Ht1. destruct r2 as [[]|].
      - destruct Hr2 as [_ Hr2]. rewrite Hr2. unfold tree_set. by rewrite decide_False.
      - by destruct Hr2 as [_ Hr2]. }
    split; [intros p _ Hp; by apply Hg|]. by apply Hg.
Qed.
End swap.

(** Renaming to the name the node has, up to case, changes nothing. *)
Lemma rename_same st f path parent q new_name :
  mounted sb st f → split_parent_and_name path = Ok (parent, q) → fold_name q = fold_name new_name →
  ∃ r st' g, rename path new_name st = (r, st') ∧ mounted sb st' g ∧ same_tree f g.
Proof.
  intros Hm Hs Hq. destruct (rename_refines Hwindow sb st f path new_name Hm) as (r & st' & g & E & Hm' & Hr).
  destruct (validate_name new_name) as [u|e] eqn:Hv.
  - destruct Hr as (b & _ & _ & Hpost). exists r, st', g. split_and!; [done|done|].
    unfold rename_spec, same_name_as in Hpost. rewrite Hs, (proj2 (names_equal_fold _ _) Hq) in Hpost. apply Hpost.
  - destruct Hr as (-> & -> & ->). exists (Err e), st, f. done.
Qed.

(** When the target is the temporary file, only that path can change. *)
Lemma swap_same st f path parent name tmp parent' q n :
  mounted sb st f → tree f (components tmp) = Some n → split_parent_and_name path = Ok (parent, name) → split_parent_and_name tmp = Ok (parent', q) →
  components parent' = components parent → fold_name q = fold_name name →
  ∃ r st' g,
    (let! r := attempt (delete_file path) in
     match allow_missing r with
     | Ok _ => rename tmp name
     | Err err => attempt (E' := FsError) (delete_file tmp) ;;! throw err
     end) st = (r, st') ∧ mounted sb st' g ∧ (∀ p, fold_path p ≠ fold_path (components tmp) → tree g p = tree f p) ∧
    (tree g (components tmp) = None ∨ tree g (components tmp) = Some n).
Proof.
  intros Hm Hn Hs Hs' Hc Hq. destruct (delete_step st f path parent name Hm Hs) as (r & st1 & f1 & E & Hm1 & _ & Hr).
  assert (fold_path (components path) = fold_path (components tmp)) as Ep.
  { destruct (split_components _ _ _ Hs) as (-> & _), (split_components _ _ _ Hs') as (-> & _). rewrite Hc. by apply fold_path_snoc. }
  assert (∀ p, fold_path p ≠ fold_path (components tmp) → tree f1 p = tree f p) as Hk1.
  { intros p Hp. destruct r as [[]|e]; destruct Hr as [_ Ht]; rewrite Ht; [|done]. unfold tree_set. rewrite decide_False; [done|congruence]. }
  assert (tree f1 (components tmp) = None ∨ tree f1 (components tmp) = Some n) as Hn1.
  { destruct r as [[]|e]; destruct Hr as [_ Ht]; rewrite Ht; [left; unfold tree_set; by rewrite decide_True|by right]. }
  unfold bind at 1, attempt at 1. rewrite E. destruct (allow_missing r) as [[]|e].
  - destruct (rename_same st1 f1 tmp parent' q name Hm1 Hs' Hq) as (r2 & st2 & g & E2 & Hm2 & Ht).
    exists r2, st2, g. split_and!; [done|done| |by rewrite Ht]. intros p Hp. by rewrite Ht, Hk1.
  - destruct (delete_step st1 f1 tmp parent' q Hm1 Hs') as (r2 & st2 & g & E2 & Hm2 & _ & Hr2).
    exists (Err e), st2, g. split_and!; [unfold bind, attempt; by rewrite E2|done| |].
    2: { destruct r2 as [[]|]; destruct Hr2 as [_ Ht]; rewrite Ht; [left; unfold tree_set; by rewrite decide_True|done]. }
    intros p Hp. rewrite <- Hk1 by done. destruct r2 as [[]|]; destruct Hr2 as [_ Ht]; rewrite Ht; [|done].
    unfold tree_set. by rewrite decide_False.
Qed.

Lemma kept_replaced pq tq n f e g :
  fold_path tq ≠ fold_path pq → (∀ p, fold_path p ≠ fold_path tq → tree g p = tree f p) → replaced pq tq n f (Err e) g.
Proof. intros Hne Hk. split; [intros p _ Hp; by apply Hk|]. by apply Hk, not_eq_sym. Qed.

Lemma kept_both pq tq n f e g (P : Prop) :
  (P → fold_path tq ≠ fold_path pq) → (∀ p, fold_path p ≠ fold_path tq → tree g p = tree f p) → left_over tq n f g →
  others_kept pq tq f g ∧ left_over tq n f g ∧ (P → replaced pq tq n f (Err e) g).
Proof. intros HP Hk Hl. split_and!; [intros p _ Hp; by apply Hk|done|]. intros HP0. by apply kept_replaced; [apply HP|]. Qed.

Lemma safe_write_refines st f path data uid gid mode :
  mounted sb st f → Forall is_byte data → u32 uid → u32 gid → 0 ≤ mode →
  ∃ r st' g, safe_write_file_with_metadata path data uid gid mode st = (r, st') ∧ mounted sb st' g ∧
    match split_parent_and_name path with
    | Err e => r = Err e ∧ same_tree f g
    | Ok (parent, name) =>
        others_kept (components path) (components (tmp_path parent)) f g ∧
        left_over (components (tmp_path parent)) (file_node data uid gid mode) f g ∧
        (fold_name (str "CWTMP.TMP") ≠ fold_name name →
         replaced (components path) (components (tmp_path parent)) (file_node data uid gid mode) f r g)
    end.
Proof.
  intros Hm Hby Hu Hgi Hmode. unfold safe_write_file_with_metadata.
  destruct (split_parent_and_name path) as [[parent name]|e] eqn:Hs; [|by exists (Err e), st, f].
  destruct (split_components _ _ _ Hs) as (_ & Hst & _).
  destruct (split_join_path parent (str "CWTMP.TMP") Hst) as (parent' & Hs' & Hc & _); [by repeat constructor|done|].
  change (join_path parent (str "CWTMP.TMP")) with (tmp_path parent) in Hs'. set (tmp := tmp_path parent) in *.
  destruct (split_components _ _ _ Hs') as (Ec' & _ & Hst').
  assert (fold_name (str "CWTMP.TMP") ≠ fold_name name → fold_path (components tmp) ≠ fold_path (components path)) as Hdiff.
  { intros Hne. destruct (split_components _ _ _ Hs) as (Ec & _). rewrite Ec, Ec', Hc. by intros [_ ?]%fold_path_snoc. }
  unfold bind at 1, lift_result at 1. cbn beta iota zeta. change (tmp_path parent) with tmp.
  pose proof Hm as (c & _ & _ & _ & [Hf _]).
  destruct (delete_step st f tmp parent' _ Hm Hs') as (r1 & st1 & f1 & E1 & Hm1 & _ & Hr1).
  unfold bind at 1, attempt at 1. rewrite E1.
  assert ((∃ e, allow_missing r1 = Err e ∧ ∀ p, tree f1 p = tree f p) ∨
          (allow_missing r1 = Ok tt ∧ ¬ has_children (tree f) (components tmp) ∧
           (tree f1 (components tmp) = tree f (components tmp) ∨ tree f1 (components tmp) = None) ∧
           ∀ p, fold_path p ≠ fold_path (components tmp) → tree f1 p = tree f p)) as [(e & Ea & Ht1)|(Ea & Hch & Hgone & Ht1)].
  { destruct r1 as [[]|e]; [right|].
    - destruct Hr1 as [Hch Ht]. split_and!; [done|done|right; rewrite Ht; unfold tree_set; by rewrite decide_True|]. intros p Hp. rewrite Ht. unfold tree_set. by rewrite decide_False.
    - destruct Hr1 as [Hnf Ht]. destruct (decide (e = NotFound)) as [->|Hne]; [right|left].
      + split_and!; [done|by apply tree_missing, Hnf|by left|by intros p _].
      + exists e. split; [by destruct e|done]. }
  { rewrite Ea. exists (Err e), st1, f1. split; [done|split; [done|]]. apply kept_both; [done|done|by left]. }
  rewrite Ea. unfold bind at 1, lift_result at 1. cbn beta iota.
  destruct (create_step st1 f1 tmp parent' _ uid gid mode Hm1 Hu Hgi Hmode Hs') as (r2 & st2 & f2 & E2 & Hm2 & Hr2).
  unfold bind at 1. rewrite E2. destruct r2 as [[]|e].
  2: { exists (Err e), st2, f2. split; [done|split; [done|]]. apply kept_both; [done| |].
       - intros p Hp. by rewrite Hr2, Ht1.
       - unfold left_over. rewrite Hr2. destruct Hgone as [->|?]; auto. }
  destruct Hr2 as [_ Ht2].
  destruct (write_step st2 f2 tmp data (new_node KIND_FILE uid gid mode) Hm2 Hby Hst') as (r3 & st3 & f3 & E3 & Hm3 & Hr3);
    [rewrite Ht2; unfold tree_set; by rewrite decide_True|done|].
  unfold bind at 1. rewrite E3. destruct r3 as [[]|e].
  2: { exists (Err e), st3, f3. split; [done|split; [done|]]. apply kept_both; [done| |].
       - intros p Hp. rewrite Hr3, Ht2. unfold tree_set. rewrite decide_False by done. by apply Ht1.
       - do 2 right. left. rewrite Hr3, Ht2. unfold tree_set. by rewrite decide_True. }
  assert (∀ p, fold_path p ≠ fold_path (components tmp) → tree f3 p = tree f p) as Hkept.
  { intros p Hp. rewrite Hr3. unfold tree_set. rewrite decide_False, Ht2 by done. unfold tree_set. rewrite decide_False by done. by apply Ht1. }
  destruct (decide (fold_name (str "CWTMP.TMP") = fold_name name)) as [Heq|Hne].
  { destruct (swap_same st3 f3 path parent name tmp parent' (str "CWTMP.TMP") (file_node data uid gid mode) Hm3) as (r & st' & g & E & Hm' & Hk & Hl);
      [rewrite Hr3; unfold tree_set; by rewrite decide_True|done..|].
    exists r, st', g. split_and!; [done|done| |destruct Hl; [right; by left|by do 3 right]|done]. intros p _ Hp. rewrite Hk by done. by apply Hkept. }
  destruct (swap_step path parent name tmp parent' _ f (file_node data uid gid mode) Hs Hs' Hc Hne Hf Hch eq_refl st3 f3 Hm3)
    as (r & st' & g & E & Hm' & Hrep & Hl); [|exists r, st', g; split_and!; [done|done|apply Hrep|done|done]].
  intros p. rewrite Hr3. unfold tree_set at 1 2. case_decide as Hp; [done|]. rewrite Ht2. unfold tree_set.
  rewrite decide_False by done. by apply Ht1.
Qed.

(** C5: replacing a file.  [safe_write_file_with_metadata] either succeeds,
    and then the path holds exactly the new contents with the given owner and
    mode, and nothing is at the path of the temporary file, CWTMP.TMP in the same
    directory, or it fails, and then the path holds what it held before: no error,
    at any of its steps and on a volume however full, loses the old contents.
    Nothing but these two paths changes.  The temporary path is not spared: a file
    that was there is lost, and after an error it may hold the new file, with its
    owner and mode, and without contents or with all of them.  A target that has
    the name of the temporary file itself is not covered by the first sentence. *)
Theorem safe_write_file_correct st f path data uid gid mode :
  mounted sb st f → Forall is_byte data → u32 uid → u32 gid → 0 ≤ mode →
  ∃ r st' g, safe_write_file_with_metadata path data uid gid mode st = (r, st') ∧ mounted sb st' g ∧
    match split_parent_and_name path with
    | Err e => r = Err e ∧ same_tree f g
    | Ok (parent, name) =>
        others_kept (components path) (components (tmp_path parent)) f g ∧
        left_over (components (tmp_path parent)) (file_node data uid gid mode) f g ∧
        (fold_name (str "CWTMP.TMP") ≠ fold_name name →
         replaced (components path) (components (tmp_path parent)) (file_node data uid gid mode) f r g)
    end.
Proof. apply safe_write_refines. Qed.
End safe.

(** ** On a volume in memory *)
Section demo.
Import RamDisk.

Lemma safe_write_file_correct_witness :
  ∃ f r st' g, safe_write_file_with_metadata (str "/a.txt") (str "hello") 7 7 420 formatted = (r, st') ∧
    mounted Superblock_new st' g ∧
    match split_parent_and_name (str "/a.txt") with
    | Err e => r = Err e ∧ ∀ q, tree Superblock_new g q = tree Superblock_new f q
    | Ok (parent, name) =>
        others_kept Superblock_new (components (str "/a.txt")) (components (tmp_path parent)) f g ∧
        left_over Superblock_new (components (tmp_path parent)) (file_node (str "hello") 7 7 420) f g ∧
        (fold_name (str "CWTMP.TMP") ≠ fold_name name →
         replaced Superblock_new (components (str "/a.txt")) (components (tmp_path parent))
          (file_node (str "hello") 7 7 420) f r g)
    end.
Proof.
  destruct formatted_mounted as (f & Hm & _). exists f.
  apply (safe_write_file_correct window_ok Superblock_new Superblock_new_wf formatted f (str "/a.txt") (str "hello") 7 7 420 Hm);
    [|done|done|done].
  repeat (apply Forall_cons_2; [done|]). apply Forall_nil_2.
Defined.

(** A successful operation whose data is gone: the target has the name of
    the temporary file. *)
Theorem safe_write_temporary_name :
  let '(r, st) := safe_write_file_with_metadata (str "/cwtmp.tmp") (str "hello") 7 7 420 formatted in
  r = Ok tt ∧ fst (read_file (str "/cwtmp.tmp") st) = Err tt.
Proof. vm_compute. split; reflexivity. Qed.
End demo.
