(* ===== verification/Vfs.v ===== *)
(** * The path layer of the virtual file system (src/src/vfs.rs)

    The operations on paths that applications and the kernel use: every one
    normalises its path, the checked ones ask for permission, and all dispatch
    to CoolFS or, below /FAT, to the FAT32 driver, which is the interface
    [Fat32].  The credentials of the current task, the umask and the owner of
    home directories (functions of src/src/security.rs) are arguments. *)
From S2P Require Import Prelude Storage Text Paths Security BlockCache CoolImage CoolFs.

Local Open Scope Z_scope.
Local Open Scope st_scope.

(** What the VFS calls of src/src/fat32.rs. *)
Class Fat32 (F : Type) := {
  fat_list_dir : bytes → ST F unit (list DirEntryInfo);
  fat_read_file : bytes → ST F unit bytes;
  fat_create_file : bytes → ST F FsError unit;
  fat_create_dir : bytes → ST F FsError unit;
  fat_write_file : bytes → bytes → ST F FsError unit;
  fat_safe_write_file : bytes → bytes → ST F FsError unit;
  fat_delete_file : bytes → ST F FsError unit;
  fat_rename : bytes → bytes → ST F FsError unit;
  fat_copy_file : bytes → bytes → ST F FsError unit }.

(** What the callers know of it: a file is a [Vec<u8>]. *)
Class Fat32Bytes (F : Type) `{Fat32 F} : Prop :=
  fat_read_bytes p s data s' : fat_read_file p s = (Ok data, s') → Forall is_byte data.

Record FileMetadata := {
  fm_uid : Z; fm_gid : Z; fm_mode : Z; fm_size : Z; fm_is_dir : bool; fm_is_file : bool }.

(** ** Owners of new files *)
Definition USER_OWNED : list bytes :=
  [str "/TMP"; str "/Documents"; str "/Pictures"; str "/Desktop"; str "/Trash"; str "/Downloads"; str "/Packages"].

(** [home_owner] is [security::home_owner_for_path]. *)
Definition default_owner_for_path (home_owner : bytes → option (Z * Z)) (path : bytes) : Z * Z :=
  match home_owner path with
  | Some owner => owner
  | None =>
      if existsb (λ d, bytes_eqb path d || starts_with (d ++ str "/") path) USER_OWNED
      then (USER_UID, USER_GID) else (ROOT_UID, ROOT_GID)
  end.

Section vfs.
Context {V F : Type} `{SectorStore V} `{Fat32 F}.

Record Fs := { cool : CoolFs V; fat : F }.

Definition on_cool {E A} (m : ST (CoolFs V) E A) : ST Fs E A :=
  λ st, let (r, c) := m (cool st) in (r, {| cool := c; fat := fat st |}).
Definition on_fat {E A} (m : ST F E A) : ST Fs E A :=
  λ st, let (r, f) := m (fat st) in (r, {| cool := cool st; fat := f |}).

(** Below /FAT the first, elsewhere the second. *)
Definition dispatch {E A} (path : bytes) (on_fat32 : bytes → ST F E A) (on_coolfs : ST (CoolFs V) E A) : ST Fs E A :=
  match fat32_path path with
  | Some fat_path => on_fat (on_fat32 fat_path)
  | None => on_cool on_coolfs
  end.

(** ** Without checks *)
Definition list_dir_unchecked (path : bytes) : ST Fs unit (list DirEntryInfo) :=
  dispatch path fat_list_dir (list_dir path).

Definition fat_metadata (fat_path : bytes) : ST Fs unit FileMetadata :=
  let! r := attempt (on_fat (fat_list_dir fat_path)) in
  match r with
  | Ok _ => ret {| fm_uid := ROOT_UID; fm_gid := ROOT_GID; fm_mode := DEFAULT_DIR_MODE; fm_size := 0;
                   fm_is_dir := true; fm_is_file := false |}
  | Err _ =>
      let! data := on_fat (fat_read_file fat_path) in
      ret {| fm_uid := ROOT_UID; fm_gid := ROOT_GID; fm_mode := DEFAULT_FILE_MODE; fm_size := len data;
             fm_is_dir := false; fm_is_file := true |}
  end.

Definition metadata_unchecked (path : bytes) : ST Fs unit FileMetadata :=
  match fat32_path path with
  | Some fat_path => fat_metadata fat_path
  | None =>
      let! m := on_cool (metadata path) in
      ret {| fm_uid := md_uid m; fm_gid := md_gid m; fm_mode := md_mode m; fm_size := md_size m;
             fm_is_dir := md_is_dir m; fm_is_file := md_is_file m |}
  end.

Definition meta_read (creds : Credentials) (m : FileMetadata) : bool :=
  can_read_metadata creds (fm_uid m) (fm_gid m) (fm_mode m).
Definition meta_write (creds : Credentials) (m : FileMetadata) : bool :=
  can_write_metadata creds (fm_uid m) (fm_gid m) (fm_mode m).
Definition meta_execute (creds : Credentials) (m : FileMetadata) : bool :=
  can_execute_metadata creds (fm_uid m) (fm_gid m) (fm_mode m).

Definition read_file_unchecked (path : bytes) : ST Fs unit bytes :=
  dispatch path fat_read_file (read_file path).
Definition create_file_for (path : bytes) (uid gid mode : Z) : ST Fs FsError unit :=
  dispatch path fat_create_file (create_file_with_metadata path uid gid mode).
Definition create_dir_for (path : bytes) (uid gid mode : Z) : ST Fs FsError unit :=
  dispatch path fat_create_dir (create_dir_with_metadata path uid gid mode).
Definition write_file_unchecked (path data : bytes) : ST Fs FsError unit :=
  dispatch path (λ p, fat_write_file p data) (write_file path data).
Definition safe_write_file_for (path data : bytes) (uid gid mode : Z) : ST Fs FsError unit :=
  dispatch path (λ p, fat_safe_write_file p data) (safe_write_file_with_metadata path data uid gid mode).
Definition delete_unchecked (path : bytes) : ST Fs FsError unit :=
  dispatch path fat_delete_file (delete_file path).
Definition rename_unchecked (path new_name : bytes) : ST Fs FsError unit :=
  dispatch path (λ p, fat_rename p new_name) (rename path new_name).
Definition chmod_unchecked (path : bytes) (mode : Z) : ST Fs FsError unit :=
  dispatch path (λ _, throw UnsupportedName) (chmod path mode).
Definition chown_unchecked (path : bytes) (uid gid : Z) : ST Fs FsError unit :=
  dispatch path (λ _, throw UnsupportedName) (chown path uid gid).

Definition copy_file_for (src dst : bytes) (uid gid mode : Z) : ST Fs FsError unit :=
  let! data := ok_or NotFound (read_file_unchecked src) in
  create_file_for dst uid gid mode ;;!
  write_file_unchecked dst data.

(** ** Permission checks *)
Section checked.
Context (creds : Credentials) (umask : Z).

(** The last test of the checks that need a writable directory. *)
Definition check_parent (path : bytes) : ST Fs FsError unit :=
  let! parent := lift_result (parent_path path) in
  let! m := ok_or NotFound (metadata_unchecked parent) in
  if fm_is_dir m && meta_write creds m && meta_execute creds m then ret tt else throw PermissionDenied.

Definition is_fat (path : bytes) : bool := match fat32_path path with Some _ => true | None => false end.

Definition check_create_access (path : bytes) : ST Fs FsError unit :=
  if bytes_eqb path (str "/") then throw InvalidPath else
  if negb (can_write_files creds) then throw PermissionDenied else
  if is_fat path then ret tt else
  check_parent path.

Definition check_write_access (path : bytes) : ST Fs FsError unit :=
  if negb (can_write_files creds) then throw PermissionDenied else
  if is_fat path then ret tt else
  let! m := ok_or NotFound (metadata_unchecked path) in
  if fm_is_file m && meta_write creds m then ret tt else throw PermissionDenied.

Definition check_safe_write_access (path : bytes) : ST Fs FsError unit :=
  let! r := attempt (metadata_unchecked path) in
  match r with
  | Ok _ => check_write_access path ;;! check_create_access path
  | Err _ => check_create_access path
  end.

Definition check_delete_access (path : bytes) : ST Fs FsError unit :=
  if bytes_eqb path (str "/") then throw InvalidPath else
  if negb (can_write_files creds) then throw PermissionDenied else
  if is_fat path then ret tt else
  ok_or NotFound (metadata_unchecked path) ;;!
  check_parent path.

(** ** The operations of tasks *)
Definition vfs_list_dir (path : bytes) : ST Fs unit (list DirEntryInfo) :=
  let path := normalize_path path in
  let! m := metadata_unchecked path in
  if negb (fm_is_dir m) || negb (meta_read creds m) || negb (meta_execute creds m) then throw tt
  else list_dir_unchecked path.

Definition vfs_read_file (path : bytes) : ST Fs unit bytes :=
  let path := normalize_path path in
  let! m := metadata_unchecked path in
  if negb (fm_is_file m) || negb (meta_read creds m) then throw tt else read_file_unchecked path.

Definition vfs_metadata (path : bytes) : ST Fs unit FileMetadata :=
  let path := normalize_path path in
  let! m := metadata_unchecked path in
  if negb (meta_read creds m) then throw tt else ret m.

Definition vfs_check_execute (path : bytes) : ST Fs FsError unit :=
  let path := normalize_path path in
  let! m := ok_or NotFound (metadata_unchecked path) in
  if fm_is_file m && meta_execute creds m then ret tt else throw PermissionDenied.

Definition vfs_create_file (path : bytes) : ST Fs FsError unit :=
  let path := normalize_path path in
  check_create_access path ;;!
  create_file_for path (cr_uid creds) (cr_gid creds) (apply_umask umask DEFAULT_FILE_MODE).

Definition vfs_create_dir (path : bytes) : ST Fs FsError unit :=
  let path := normalize_path path in
  check_create_access path ;;!
  create_dir_for path (cr_uid creds) (cr_gid creds) (apply_umask umask DEFAULT_DIR_MODE).

Definition vfs_write_file (path data : bytes) : ST Fs FsError unit :=
  let path := normalize_path path in
  check_write_access path ;;!
  write_file_unchecked path data.

Definition vfs_safe_write_file (path data : bytes) : ST Fs FsError unit :=
  let path := normalize_path path in
  check_safe_write_access path ;;!
  let! r := attempt (metadata_unchecked path) in
  let '(uid, gid, mode) :=
    match r with
    | Ok m => (fm_uid m, fm_gid m, fm_mode m)
    | Err _ => (cr_uid creds, cr_gid creds, apply_umask umask DEFAULT_FILE_MODE)
    end in
  safe_write_file_for path data uid gid mode.

Definition vfs_delete (path : bytes) : ST Fs FsError unit :=
  let path := normalize_path path in
  check_delete_access path ;;!
  delete_unchecked path.

(** [None]: the recursion is deeper than [fuel]. *)
Fixpoint vfs_delete_recursive (fuel : nat) (path : bytes) : ST Fs (option FsError) unit :=
  match fuel with
  | O => throw None
  | S fuel =>
      let path := normalize_path path in
      if bytes_eqb path (str "/") || eq_ignore_ascii_case path (str "/Trash") then throw (Some InvalidPath) else
      map_err Some (check_delete_access path) ;;!
      let! children := attempt (vfs_list_dir path) in
      match children with
      | Ok children => for_each (λ child, vfs_delete_recursive fuel (join_path path (de_name child))) children
      | Err _ => ret tt
      end ;;!
      map_err Some (vfs_delete path)
  end.

Definition vfs_rename (path new_name : bytes) : ST Fs FsError unit :=
  let path := normalize_path path in
  check_delete_access path ;;!
  rename_unchecked path new_name.

Definition vfs_copy_file (src dst : bytes) : ST Fs FsError unit :=
  let src := normalize_path src in
  let dst := normalize_path dst in
  let! m := ok_or NotFound (metadata_unchecked src) in
  if negb (fm_is_file m) || negb (meta_read creds m) then throw PermissionDenied else
  check_create_access dst ;;!
  copy_file_for src dst (cr_uid creds) (cr_gid creds) (apply_umask umask DEFAULT_FILE_MODE).

Definition vfs_rename_path (src dst : bytes) : ST Fs FsError unit :=
  let src := normalize_path src in
  let dst := normalize_path dst in
  if bytes_eqb src (str "/") || bytes_eqb dst (str "/") || bytes_eqb src dst then throw InvalidPath else
  let! src_parent := lift_result (parent_path src) in
  let! dst_parent := lift_result (parent_path dst) in
  let! dst_name := lift_result (file_name dst) in
  if bytes_eqb src_parent dst_parent then vfs_rename src dst_name else
  let! m := ok_or NotFound (vfs_metadata src) in
  if negb (fm_is_file m) then throw InvalidPath else
  vfs_copy_file src dst ;;!
  vfs_delete src.

Definition vfs_chmod (path : bytes) (mode : Z) : ST Fs FsError unit :=
  let path := normalize_path path in
  let! m := ok_or NotFound (metadata_unchecked path) in
  if negb (can_admin creds) && negb (cr_uid creds =? fm_uid m) then throw PermissionDenied
  else chmod_unchecked path mode.

Definition vfs_chown (path : bytes) (uid gid : Z) : ST Fs FsError unit :=
  let path := normalize_path path in
  if negb (can_admin creds) then throw PermissionDenied else chown_unchecked path uid gid.
End checked.

(** ** The operations of the kernel itself *)
Section kernel.
Context (home_owner : bytes → option (Z * Z)).

Definition vfs_kernel_list_dir (path : bytes) : ST Fs unit (list DirEntryInfo) :=
  list_dir_unchecked (normalize_path path).
Definition vfs_kernel_read_file (path : bytes) : ST Fs unit bytes := read_file_unchecked (normalize_path path).
Definition vfs_kernel_metadata (path : bytes) : ST Fs unit FileMetadata := metadata_unchecked (normalize_path path).

Definition vfs_kernel_create_file (path : bytes) : ST Fs FsError unit :=
  let path := normalize_path path in
  let (uid, gid) := default_owner_for_path home_owner path in
  create_file_for path uid gid (default_mode_for_path path false).

Definition vfs_kernel_create_dir (path : bytes) : ST Fs FsError unit :=
  let path := normalize_path path in
  let (uid, gid) := default_owner_for_path home_owner path in
  create_dir_for path uid gid (default_mode_for_path path true).

Definition vfs_kernel_write_file (path data : bytes) : ST Fs FsError unit :=
  write_file_unchecked (normalize_path path) data.

Definition vfs_kernel_safe_write_file (path data : bytes) : ST Fs FsError unit :=
  let path := normalize_path path in
  let! r := attempt (metadata_unchecked path) in
  let '(uid, gid, mode) :=
    match r with
    | Ok m => (fm_uid m, fm_gid m, fm_mode m)
    | Err _ => let (uid, gid) := default_owner_for_path home_owner path in
               (uid, gid, default_mode_for_path path false)
    end in
  safe_write_file_for path data uid gid mode.

Definition vfs_kernel_safe_write_file_with_mode (path data : bytes) (mode : Z) : ST Fs FsError unit :=
  let path := normalize_path path in
  let! r := attempt (metadata_unchecked path) in
  let (uid, gid) :=
    match r with
    | Ok m => (fm_uid m, fm_gid m)
    | Err _ => default_owner_for_path home_owner path
    end in
  safe_write_file_for path data uid gid (Z.land mode MODE_MASK).

Definition vfs_kernel_safe_write_file_with_metadata (path data : bytes) (uid gid mode : Z) : ST Fs FsError unit :=
  safe_write_file_for (normalize_path path) data uid gid (Z.land mode MODE_MASK).

Definition vfs_kernel_delete (path : bytes) : ST Fs FsError unit := delete_unchecked (normalize_path path).
Definition vfs_kernel_rename (path new_name : bytes) : ST Fs FsError unit := rename_unchecked (normalize_path path) new_name.

Definition create_file_unchecked (path : bytes) : ST Fs FsError unit :=
  let (uid, gid) := default_owner_for_path home_owner path in
  create_file_for path uid gid (default_mode_for_path path false).

(** [creds] are those CoolFS's own [copy_file] asks for. *)
Definition copy_file_unchecked (creds : Credentials) (src dst : bytes) : ST Fs FsError unit :=
  match fat32_path src, fat32_path dst with
  | Some src, Some dst => on_fat (fat_copy_file src dst)
  | None, None => on_cool (copy_file creds src dst)
  | _, _ =>
      let! data := ok_or NotFound (read_file_unchecked src) in
      create_file_unchecked dst ;;!
      write_file_unchecked dst data
  end.

Definition vfs_kernel_copy_file (creds : Credentials) (src dst : bytes) : ST Fs FsError unit :=
  copy_file_unchecked creds (normalize_path src) (normalize_path dst).
End kernel.
End vfs.
Arguments Fs : clear implicits.

(** A machine without a FAT32 volume. *)
Module NoFat.
#[export] Instance no_fat : Fat32 unit := {
  fat_list_dir _ := throw tt;
  fat_read_file _ := throw tt;
  fat_create_file _ := throw Io;
  fat_create_dir _ := throw Io;
  fat_write_file _ _ := throw Io;
  fat_safe_write_file _ _ := throw Io;
  fat_delete_file _ := throw Io;
  fat_rename _ _ := throw Io;
  fat_copy_file _ _ := throw Io }.

#[export] Instance no_fat_bytes : Fat32Bytes unit.
Proof. intros p s data s'. done. Qed.
End NoFat.
