(* ===== verification/VfsAccess.v ===== *)
(** * Access control of the virtual file system

    Every operation of src/src/vfs.rs that a task can ask for is a sequence of
    changes each of which the permission bits of the tree at that moment allow
    ([auth_step]); so a file that a task may neither write, nor own, nor
    replace through a directory above it, stays as it is whatever the task
    does.  The tree is that of the mounted CoolFS volume ([CoolTree]). *)
From stdpp Require Import relations.
From S2P Require Import Prelude DiskLayout Storage Text Paths Security BlockCache CoolImage CoolMem CoolFile CoolContent CoolFs CoolDir CoolTree CoolMount CoolQuery CoolSafe Vfs.
Set Warnings "-clear-no-such-hyp".

Local Open Scope Z_scope.
Local Open Scope st_scope.

(** ** What the permission bits of a tree allow *)
Definition node_read (creds : Credentials) (n : node) : bool := can_read_metadata creds (n_uid n) (n_gid n) (n_mode n).
Definition node_write (creds : Credentials) (n : node) : bool := can_write_metadata creds (n_uid n) (n_gid n) (n_mode n).
Definition node_execute (creds : Credentials) (n : node) : bool := can_execute_metadata creds (n_uid n) (n_gid n) (n_mode n).

(** May [creds] change the entries of the directory at [p]? *)
Definition dir_access (creds : Credentials) (t : Tree) (p : list bytes) : Prop :=
  ∃ d, t p = Some d ∧ is_dir_node d = true ∧ node_write creds d = true ∧ node_execute creds d = true.

(** Who a new node in the directory at [p] belongs to: the caller, or, when a file
    is replaced, the owner of a file there that the caller may write. *)
Definition made_by (creds : Credentials) (t : Tree) (p : list bytes) (m : node) : Prop :=
  (n_uid m = cr_uid creds ∧ n_gid m = cr_gid creds) ∨
  ∃ y n data, t (p ++ [y]) = Some n ∧ is_file_node n = true ∧ node_write creds n = true ∧ m = set_data data n.

(** The single changes of a tree that [creds] may make: a new entry, an entry
    without children removed, a subtree given a new name in its directory, the
    contents of a file, its mode, its owner. *)
Inductive auth_step (creds : Credentials) (t t' : Tree) : Prop :=
| auth_none : (∀ q, t' q = t q) → auth_step creds t t'
| auth_create p x m : can_write_files creds = true → dir_access creds t p → t (p ++ [x]) = None → made_by creds t p m →
    (∀ q, t' q = tree_set (p ++ [x]) (Some m) t q) → auth_step creds t t'
| auth_remove p x : can_write_files creds = true → dir_access creds t p → ¬ has_children t (p ++ [x]) →
    (∀ q, t' q = tree_set (p ++ [x]) None t q) → auth_step creds t t'
| auth_rename p x y : can_write_files creds = true → dir_access creds t p → t (p ++ [y]) = None →
    (∀ q, t' q = before_move (p ++ [x]) (p ++ [y]) q ≫= t) → auth_step creds t t'
| auth_write p n data : can_write_files creds = true → t p = Some n → is_file_node n = true → node_write creds n = true →
    (∀ q, t' q = tree_set p (Some (set_data data n)) t q) → auth_step creds t t'
| auth_chmod p n mode : t p = Some n → can_admin creds = true ∨ cr_uid creds = n_uid n →
    (∀ q, t' q = tree_set p (Some (node_mode mode n)) t q) → auth_step creds t t'
| auth_chown p n uid gid : t p = Some n → can_admin creds = true →
    (∀ q, t' q = tree_set p (Some (node_owner uid gid n)) t q) → auth_step creds t t'.

(** Trees do not tell the case of names. *)
Definition fold_inv (t : Tree) : Prop := ∀ p q, fold_path p = fold_path q → t p = t q.
Lemma set_fold p o t t' : fold_inv t → (∀ q, t' q = tree_set p o t q) → fold_inv t'.
Proof. intros Ht E a b Hab. rewrite !E. unfold tree_set. rewrite Hab. case_decide; [done|by apply Ht]. Qed.
Lemma strip_fold pre a b :
  fold_path a = fold_path b →
  match strip_path pre a, strip_path pre b with Some r, Some r' => fold_path r = fold_path r' | None, None => True | _, _ => False end.
Proof.
  intros E. assert (fold_path (take (length pre) a) = fold_path (take (length pre) b)) as Et.
  { unfold fold_path in *. by rewrite !fmap_take, E. }
  unfold strip_path. rewrite Et. case_decide; [|done]. unfold fold_path in *. by rewrite !fmap_drop, E.
Qed.
Lemma move_fold old new t t' : fold_inv t → (∀ q, t' q = before_move old new q ≫= t) → fold_inv t'.
Proof.
  intros Ht E a b Hab. rewrite !E. unfold before_move. pose proof (strip_fold new a b Hab) as Hn. pose proof (strip_fold old a b Hab) as Ho.
  destruct (strip_path new a) as [r|], (strip_path new b) as [r'|]; try done; simpl.
  - apply Ht. by rewrite !fold_path_app, Hn.
  - destruct (strip_path old a), (strip_path old b); try done. simpl. by apply Ht.
Qed.
Lemma auth_fold creds t t' : fold_inv t → auth_step creds t t' → fold_inv t'.
Proof.
  intros Ht [E|p x m _ _ _ _ E|p x _ _ _ E|p x y _ _ _ E|p n data _ _ _ _ E|p n mode _ _ E|p n uid gid _ _ E];
    [|by eapply set_fold|by eapply set_fold|by eapply move_fold|by eapply set_fold..].
  intros a b Hab. rewrite !E. by apply Ht.
Qed.

(** A prefix of a path up to case is, up to case, a prefix. *)
Lemma fold_prefix q p x r :
  fold_path q = fold_path (p ++ x :: r) → ∃ p' x' r', q = p' ++ x' :: r' ∧ fold_path p' = fold_path p.
Proof.
  intros E. pose proof (f_equal length E) as El. unfold fold_path in El. rewrite !length_fmap, length_app in El. simpl in El.
  rewrite <- (take_drop (length p) q) in E |- *. rewrite !fold_path_app in E.
  apply app_inj_1 in E as [E1 E2]; [|unfold fold_path; rewrite !length_fmap, length_take; lia].
  destruct (drop (length p) q) as [|x' r']; [discriminate E2|]. by exists (take (length p) q), x', r'.
Qed.

Definition creds_ok (creds : Credentials) : Prop := u32 (cr_uid creds) ∧ u32 (cr_gid creds).

Section access.
Context {V F : Type} `{ReliableStore V} `{Fat32Bytes F}.
Context (Hwindow : TOTAL_BLOCKS * SECTORS_PER_BLOCK ≤ swindow).
Context (sb : Superblock) (Hwf : sb_wf sb).
Implicit Types (f g : mem) (st : Fs V F) (ps : list bytes).
Abbreviation tree := (tree sb).

(** ** Triples: [m] on a volume with contents [f] returns, with [Q]. *)
Definition vsafe {E A} (m : ST (Fs V F) E A) f (Q : result E A → mem → Prop) : Prop :=
  ∀ st, mounted sb (cool st) f → ∃ r st' g, m st = (r, st') ∧ mounted sb (cool st') g ∧ Q r g.

Lemma vsafe_conseq {E A} (m : ST (Fs V F) E A) f (Q Q' : result E A → mem → Prop) :
  vsafe m f Q → (∀ r g, tree_ok sb g → Q r g → Q' r g) → vsafe m f Q'.
Proof.
  intros Hm HQ st Hst. destruct (Hm st Hst) as (r & st' & g & Em & Hg & HQr). exists r, st', g. split_and!; [done|done|].
  apply HQ; [|done]. by destruct Hg as (c & _ & _ & _ & [? _]).
Qed.

Lemma vsafe_volume {E A} (m : ST (Fs V F) E A) f Q : (volume_ok sb f → vsafe m f Q) → vsafe m f Q.
Proof. intros Hm st Hst. apply Hm; [|done]. by destruct Hst as (c & _ & _ & _ & ?). Qed.

Lemma vsafe_ret {E A} (a : A) f (Q : result E A → mem → Prop) : Q (Ok a) f → vsafe (ret a) f Q.
Proof. intros HQ st Hst. by exists (Ok a), st, f. Qed.

Lemma vsafe_throw {E A} (e : E) f (Q : result E A → mem → Prop) : Q (Err e) f → vsafe (throw e) f Q.
Proof. intros HQ st Hst. by exists (Err e), st, f. Qed.

Lemma vsafe_lift_result {E A} (r : result E A) f (Q : result E A → mem → Prop) : Q r f → vsafe (lift_result r) f Q.
Proof. intros HQ st Hst. by exists r, st, f. Qed.

Lemma vsafe_bind {E A B} (m : ST (Fs V F) E A) (k : A → ST (Fs V F) E B) f (Q : result E B → mem → Prop) :
  vsafe m f (λ r g, match r with Ok a => vsafe (k a) g Q | Err e => Q (Err e) g end) → vsafe (bind m k) f Q.
Proof.
  intros Hm st Hst. destruct (Hm st Hst) as (r & st' & g & E' & Hg & HQ). unfold bind. rewrite E'.
  destruct r as [a|e]; [by apply HQ|]. by exists (Err e), st', g.
Qed.

Lemma vsafe_map_err {E E' A} (h : E → E') (m : ST (Fs V F) E A) f (Q : result E' A → mem → Prop) :
  vsafe m f (λ r g, Q (match r with Ok a => Ok a | Err e => Err (h e) end) g) → vsafe (map_err h m) f Q.
Proof.
  intros Hm st Hst. destruct (Hm st Hst) as (r & st' & g & Er & Hg & HQ). unfold map_err. rewrite Er.
  destruct r as [a|e]; eexists _, _, g; by split_and!.
Qed.

Lemma vsafe_attempt {E E' A} (m : ST (Fs V F) E A) f (Q : result E' (result E A) → mem → Prop) :
  vsafe m f (λ r g, Q (Ok r) g) → vsafe (attempt m) f Q.
Proof.
  intros Hm st Hst. destruct (Hm st Hst) as (r & st' & g & Er & Hg & HQ). unfold attempt. rewrite Er. by exists (Ok r), st', g.
Qed.

(** An operation on the FAT volume does not touch the CoolFS volume. *)
Lemma vsafe_on_fat {E A} (m : ST F E A) f (Q : result E A → mem → Prop) :
  (∀ s r s', m s = (r, s') → Q r f) → vsafe (on_fat m) f Q.
Proof.
  intros HQ st Hst. unfold on_fat. destruct (m (fat st)) as [r s'] eqn:Em. exists r, {| cool := cool st; fat := s' |}, f.
  split_and!; [done|done|]. by eapply HQ.
Qed.

Lemma vsafe_on_cool {E A} (m : ST (CoolFs V) E A) f (Q : result E A → mem → Prop) :
  (∀ c, mounted sb c f → ∃ r c' g, m c = (r, c') ∧ mounted sb c' g ∧ Q r g) → vsafe (on_cool m) f Q.
Proof.
  intros HQ st Hst. destruct (HQ _ Hst) as (r & c' & g & E' & Hg & Hr). unfold on_cool. rewrite E'.
  by exists r, {| cool := c'; fat := fat st |}, g.
Qed.

Lemma vsafe_dispatch {E A} ps (mf : bytes → ST F E A) (mc : ST (CoolFs V) E A) f (Q : result E A → mem → Prop) :
  Forall part_ok ps →
  (fat_parts ps = true → ∀ p, vsafe (on_fat (mf p)) f Q) →
  (fat_parts ps = false → vsafe (on_cool mc) f Q) → vsafe (dispatch (render_path ps) mf mc) f Q.
Proof.
  intros Hps Hf Hc. unfold dispatch. pose proof (fat32_path_render ps Hps) as Hn.
  destruct (fat_parts ps), (fat32_path (render_path ps)) as [p|]; [by apply Hf|..|by apply Hc].
  - by destruct Hn as [Hn _]; discriminate Hn.
  - by destruct Hn as [_ Hn]; discriminate Hn.
Qed.

(** ** Queries *)
Lemma resolve_render f ps :
  tree_ok sb f → Forall part_ok ps →
  match resolve (tree f) (render_path ps) with Ok n => tree f ps = Some n | Err _ => tree f ps = None end.
Proof.
  intros Hf Hps. pose proof (path_inode_reach sb f (render_path ps) Hf) as Hp.
  destruct (path_inode sb f (render_path ps)) as [i|e].
  - destruct Hp as (-> & Hr & _). rewrite components_render in Hr by done. unfold CoolTree.tree. by rewrite Hr.
  - rewrite Hp. destruct (tree f ps) as [n|] eqn:Et; [|done]. exfalso.
    rewrite (resolve_tree sb f (render_path ps) n) in Hp; [done|done|by destruct ps|]. by rewrite components_render.
Qed.

Definition vdescribes (n : node) (m : FileMetadata) : Prop :=
  fm_uid m = n_uid n ∧ fm_gid m = n_gid n ∧ fm_mode m = n_mode n ∧
  fm_is_dir m = is_dir_node n ∧ fm_is_file m = is_file_node n ∧ (is_file_node n = true → fm_size m = len (n_data n)).

Lemma vs_metadata f ps :
  Forall part_ok ps →
  vsafe (metadata_unchecked (render_path ps)) f (λ r g, g = f ∧ (fat_parts ps = false →
    match tree f ps with Some n => ∃ m, r = Ok m ∧ vdescribes n m | None => r = Err tt end)).
Proof.
  intros Hps. unfold metadata_unchecked. pose proof (fat32_path_render ps Hps) as Hn.
  destruct (fat32_path (render_path ps)) as [p|].
  - destruct (fat_parts ps); [|by destruct Hn as [_ Hn]; discriminate Hn]. unfold fat_metadata.
    apply vsafe_bind, vsafe_attempt, vsafe_on_fat. intros s [l|e] s' _; [by apply vsafe_ret|].
    apply vsafe_bind, vsafe_on_fat. intros s2 [d|] s2' _; [by apply vsafe_ret|done].
  - destruct Hn as [Hn _]. specialize (Hn eq_refl). rewrite Hn. apply vsafe_volume. intros Hf.
    pose proof (resolve_render f ps Hf Hps) as Hr.
    apply vsafe_bind, vsafe_on_cool. intros c Hc.
    destruct (metadata_refines Hwindow sb Hwf c f (render_path ps) Hc) as (r & c' & E' & Hc' & _ & Hspec).
    exists r, c', f. split_and!; [done|done|]. unfold metadata_spec in Hspec. destruct (resolve _ _) as [n|e].
    + destruct Hspec as (m & -> & Hd). apply vsafe_ret. split; [done|]. intros _. rewrite Hr. eexists. split; [done|].
      unfold vdescribes. cbn. exact Hd.
    + rewrite Hspec, Hr. done.
Qed.

Lemma vs_metadata_ok f ps :
  Forall part_ok ps →
  vsafe (ok_or NotFound (metadata_unchecked (render_path ps))) f (λ r g, g = f ∧ ∀ m, r = Ok m → fat_parts ps = false →
    ∃ n, tree f ps = Some n ∧ vdescribes n m).
Proof.
  intros Hps. apply vsafe_map_err. eapply vsafe_conseq; [by apply vs_metadata|]. intros r g _ [-> Hr]. split; [done|].
  intros m Hm Hfat. specialize (Hr Hfat). destruct (tree f ps) as [n|]; [|by rewrite Hr in Hm].
  destruct Hr as (m' & -> & Hd). injection Hm as ->. by exists n.
Qed.

Lemma vs_list_dir f ps :
  Forall part_ok ps →
  vsafe (list_dir_unchecked (render_path ps)) f (λ r g, g = f ∧ (fat_parts ps = false →
    ∀ l, r = Ok l → listing (tree f) ps l)).
Proof.
  intros Hps. apply vsafe_dispatch; [done|..].
  - intros Hfat p. apply vsafe_on_fat. intros s r s' _. split; [done|]. by rewrite Hfat.
  - intros Hfat. apply vsafe_on_cool. intros c Hc.
    destruct (list_dir_refines Hwindow sb Hwf c f (render_path ps) Hc) as (r & c' & E' & Hc' & _ & Hspec).
    exists r, c', f. split_and!; [done|done|done|]. intros _ l ->. unfold list_spec in Hspec.
    destruct (resolve _ _) as [n|]; [|done]. destruct (is_dir_node n); [|done]. destruct Hspec as (l' & [= ->] & Hl).
    by rewrite components_render in Hl.
Qed.

Lemma tree_data_bytes f q n : volume_ok sb f → tree f q = Some n → Forall is_byte (n_data n).
Proof.
  intros Hv. unfold CoolTree.tree. destruct (reach sb f q) as [i|] eqn:Hr; [|done]. intros [= <-].
  destruct (reach_live sb f q i Hv Hr) as [Hi _]. pose proof (ok_wf _ _ (tree_fs sb f Hv)) as Hfs.
  unfold node_of, inode_node. cbn [n_data]. case_if; [constructor|]. apply (content_is_byte sb Hwf); [done|]. by apply Hfs.
Qed.

Lemma tree_owner f q n : volume_ok sb f → tree f q = Some n → u32 (n_uid n) ∧ u32 (n_gid n) ∧ 0 ≤ n_mode n.
Proof.
  intros Hv. unfold CoolTree.tree. destruct (reach sb f q) as [i|] eqn:Hr; [|done]. intros [= <-].
  destruct (reach_live sb f q i Hv Hr) as [Hi _]. pose proof (ok_wf _ _ (tree_fs sb f Hv)) as Hfs.
  pose proof (decode_ok sb Hwf f i (wf_bytes _ _ Hfs) Hi) as Hok. unfold node_of, inode_node. cbn [n_uid n_gid n_mode].
  split_and!; [apply Hok..|]. apply (iok_mode _ Hok).
Qed.

Lemma vs_read f ps :
  Forall part_ok ps →
  vsafe (read_file_unchecked (render_path ps)) f (λ r g, g = f ∧ (∀ data, r = Ok data → Forall is_byte data) ∧
    (fat_parts ps = false →
     r = match tree f ps with Some n => if is_file_node n then Ok (n_data n) else Err tt | None => Err tt end)).
Proof.
  intros Hps. apply vsafe_dispatch; [done|..].
  - intros Hfat p. apply vsafe_on_fat. intros s r s' Es. split; [done|split; [|by rewrite Hfat]].
    intros data ->. by apply (fat_read_bytes p s data s').
  - intros Hfat. apply vsafe_on_cool. intros c Hc. pose proof Hc as (ch & _ & _ & _ & Hv).
    destruct (read_file_refines Hwindow sb c f (render_path ps) Hc) as (c' & E' & Hc' & _).
    eexists _, c', f. split; [exact E'|]. split; [done|].
    pose proof (resolve_render f ps Hv Hps) as Hr. unfold read_spec. destruct (resolve _ _) as [n|].
    + rewrite Hr. split; [done|split; [|by destruct (is_file_node n)]]. intros data. case_if; [|done]. intros [= <-].
      by apply (tree_data_bytes f ps).
    + rewrite Hr. by split_and!.
Qed.

(** ** The permission checks *)
Section creds.
Context (creds : Credentials).

Lemma parts_snoc ps : ps ≠ [] → ∃ ps' q, ps = ps' ++ [q].
Proof. destruct ps as [|q ps' _] using rev_ind; [done|]. eauto. Qed.

Lemma fat_parts_snoc ps q : fat_parts (ps ++ [q]) = false → fat_parts ps = false.
Proof. by destruct ps. Qed.

Lemma parent_render ps q : Forall part_ok (ps ++ [q]) → parent_path (render_path (ps ++ [q])) = Ok (render_path ps).
Proof.
  intros Hps. pose proof Hps as [_ Hq]%Forall_app. rewrite Forall_singleton in Hq.
  destruct (parent_path_snoc (render_path (ps ++ [q])) ps q) as [E _]; [by apply path_parts_render|exact Hq|exact E].
Qed.

Lemma render_root ps : Forall part_ok ps → bytes_eqb (render_path ps) (str "/") = true ↔ ps = [].
Proof.
  intros Hps. destruct ps as [|q ps _] using rev_ind; [done|]. apply Forall_app in Hps as [_ Hq]. rewrite Forall_singleton in Hq.
  rewrite render_path_snoc, snoc_not_root by done. split; [done|]. by destruct ps.
Qed.

Lemma vs_check_parent f ps q :
  Forall part_ok (ps ++ [q]) → fat_parts (ps ++ [q]) = false →
  vsafe (check_parent creds (render_path (ps ++ [q]))) f (λ r g, g = f ∧ (r = Ok tt → dir_access creds (tree f) ps)).
Proof.
  intros Hps Hfat. unfold check_parent. rewrite parent_render by done. apply vsafe_bind, vsafe_lift_result.
  apply vsafe_bind. eapply vsafe_conseq; [apply vs_metadata_ok; by apply Forall_app in Hps as [? _]|].
  intros [m|e] g _ [-> Hm]; [|done]. destruct (Hm m eq_refl) as (n & Hn & Hd); [by apply fat_parts_snoc in Hfat|].
  destruct Hd as (Eu & Eg & Em & Edir & _). unfold meta_write, meta_execute. rewrite Eu, Eg, Em, Edir.
  case_if as Hok; [|by apply vsafe_throw]. apply vsafe_ret. split; [done|]. intros _. exists n.
  apply andb_true_iff in Hok as [[??]%andb_true_iff ?]. done.
Qed.

(** The caller may change the directory that holds [ps]. *)
Definition parent_access (t : Tree) ps : Prop :=
  can_write_files creds = true ∧ ∃ ps' q, ps = ps' ++ [q] ∧ (fat_parts ps = false → dir_access creds t ps').

Lemma is_fat_render ps : Forall part_ok ps → is_fat (render_path ps) = fat_parts ps.
Proof.
  intros Hps. unfold is_fat. pose proof (fat32_path_render ps Hps) as Hn.
  destruct (fat32_path _), (fat_parts ps); [done| | |done]; exfalso; destruct Hn; [discriminate (H5 eq_refl)|discriminate (H4 eq_refl)].
Qed.

Lemma vs_check_create f ps :
  Forall part_ok ps →
  vsafe (check_create_access creds (render_path ps)) f (λ r g, g = f ∧ (r = Ok tt → parent_access (tree f) ps)).
Proof.
  intros Hps. unfold check_create_access. pose proof (render_root ps Hps) as Hroot.
  destruct (bytes_eqb _ _); [by apply vsafe_throw|]. destruct (can_write_files creds) eqn:Hw; [|by apply vsafe_throw].
  destruct (parts_snoc ps) as (ps' & q & ->); [by intros ?%Hroot|]. cbn [negb]. rewrite is_fat_render by done.
  destruct (fat_parts (ps' ++ [q])) eqn:Hfat.
  - apply vsafe_ret. split; [done|]. intros _. split; [done|]. exists ps', q. split; [done|]. by rewrite Hfat.
  - eapply vsafe_conseq; [by apply vs_check_parent|]. intros r g _ [-> Hr]. split; [done|]. intros Hok.
    split; [done|]. exists ps', q. auto.
Qed.

Lemma vs_check_delete f ps :
  Forall part_ok ps →
  vsafe (check_delete_access creds (render_path ps)) f (λ r g, g = f ∧ (r = Ok tt → parent_access (tree f) ps)).
Proof.
  intros Hps. unfold check_delete_access. pose proof (render_root ps Hps) as Hroot.
  destruct (bytes_eqb _ _); [by apply vsafe_throw|]. destruct (can_write_files creds) eqn:Hw; [|by apply vsafe_throw].
  destruct (parts_snoc ps) as (ps' & q & ->); [by intros ?%Hroot|]. cbn [negb]. rewrite is_fat_render by done.
  destruct (fat_parts (ps' ++ [q])) eqn:Hfat.
  - apply vsafe_ret. split; [done|]. intros _. split; [done|]. exists ps', q. split; [done|]. by rewrite Hfat.
  - apply vsafe_bind. eapply vsafe_conseq; [by apply vs_metadata_ok|]. intros [m|e] g _ [-> _]; [|done].
    eapply vsafe_conseq; [by apply vs_check_parent|]. intros r g _ [-> Hr]. split; [done|]. intros Hok.
    split; [done|]. exists ps', q. auto.
Qed.

(** The caller may write the file at [ps]. *)
Definition file_access (t : Tree) ps : Prop :=
  can_write_files creds = true ∧ (fat_parts ps = false → ∃ n, t ps = Some n ∧ is_file_node n = true ∧ node_write creds n = true).

Lemma vs_check_write f ps :
  Forall part_ok ps →
  vsafe (check_write_access creds (render_path ps)) f (λ r g, g = f ∧ (r = Ok tt → file_access (tree f) ps)).
Proof.
  intros Hps. unfold check_write_access. destruct (can_write_files creds) eqn:Hw; [|by apply vsafe_throw].
  cbn [negb]. rewrite is_fat_render by done. destruct (fat_parts ps) eqn:Hfat.
  - apply vsafe_ret. split; [done|]. intros _. split; [done|congruence].
  - apply vsafe_bind. eapply vsafe_conseq; [by apply vs_metadata_ok|]. intros [m|e] g _ [-> Hm]; [|done].
    destruct (Hm m eq_refl Hfat) as (n & Hn & Hd). destruct Hd as (Eu & Eg & Em & _ & Efile & _).
    unfold meta_write. rewrite Eu, Eg, Em, Efile. case_if as Hok; [|by apply vsafe_throw]. apply vsafe_ret.
    split; [done|]. intros _. split; [done|]. intros _. exists n. apply andb_true_iff in Hok as [??]. done.
Qed.

(** The caller may replace the file at [ps], or create it. *)
Definition replace_access (t : Tree) ps : Prop :=
  parent_access t ps ∧ (fat_parts ps = false → t ps = None ∨ ∃ n, t ps = Some n ∧ is_file_node n = true ∧ node_write creds n = true).

Lemma vs_check_safe_write f ps :
  Forall part_ok ps →
  vsafe (check_safe_write_access creds (render_path ps)) f (λ r g, g = f ∧ (r = Ok tt → replace_access (tree f) ps)).
Proof.
  intros Hps. unfold check_safe_write_access. apply vsafe_bind, vsafe_attempt.
  eapply vsafe_conseq; [by apply vs_metadata|]. intros [m|e] g _ [-> Hm].
  - apply vsafe_bind. eapply vsafe_conseq; [by apply vs_check_write|]. intros [[]|e] g _ [-> Hw]; [|done].
    eapply vsafe_conseq; [by apply vs_check_create|]. intros r g _ [-> Hr]. split; [done|]. intros Hok. split; [auto|].
    intros Hfat. right. by apply Hw.
  - eapply vsafe_conseq; [by apply vs_check_create|]. intros r g _ [-> Hr]. split; [done|]. intros Hok. split; [auto|].
    intros Hfat. specialize (Hm Hfat). destruct (tree f ps); [|by left]. by destruct Hm as (? & ? & _).
Qed.
End creds.

(** ** What the unchecked operations change *)
Definition same f g : Prop := ∀ q, tree g q = tree f q.

Lemma vs_create f k ps uid gid mode (fat_op : bytes → ST F FsError unit) :
  Forall part_ok ps → k = KIND_FILE ∨ k = KIND_DIR → u32 uid → u32 gid → 0 ≤ mode →
  vsafe (dispatch (render_path ps) fat_op (create_node (render_path ps) k uid gid mode)) f (λ r g,
    (fat_parts ps = true → g = f) ∧
    match r with
    | Ok _ => fat_parts ps = false → tree f ps = None ∧ ∀ q, tree g q = tree_set ps (Some (new_node k uid gid mode)) (tree f) q
    | Err _ => same f g
    end).
Proof.
  intros Hps Hk Hu Hg Hm. apply vsafe_dispatch; [done|..].
  - intros Hfat p. apply vsafe_on_fat. intros s [u|e] s' _; (split; [done|]); [by rewrite Hfat|done].
  - intros Hfat. apply vsafe_on_cool. intros c Hc.
    destruct (create_node_refines Hwindow sb c f (render_path ps) k uid gid mode Hc Hk Hu Hg Hm) as (r & c' & g & E' & Hc' & _ & Hspec).
    exists r, c', g. split_and!; [done|done|by rewrite Hfat|]. apply create_effect in Hspec.
    rewrite components_render in Hspec by done. by destruct r.
Qed.

Lemma vs_delete f ps :
  Forall part_ok ps →
  vsafe (delete_unchecked (render_path ps)) f (λ r g,
    (fat_parts ps = true → g = f) ∧
    match r with
    | Ok _ => fat_parts ps = false → is_Some (tree f ps) ∧ ¬ has_children (tree f) ps ∧ ∀ q, tree g q = tree_set ps None (tree f) q
    | Err _ => same f g
    end).
Proof.
  intros Hps. apply vsafe_dispatch; [done|..].
  - intros Hfat p. apply vsafe_on_fat. intros s [u|e] s' _; (split; [done|]); [by rewrite Hfat|done].
  - intros Hfat. apply vsafe_on_cool. intros c Hc.
    destruct (delete_file_refines Hwindow sb c f (render_path ps) Hc) as (r & c' & g & E' & Hc' & _ & Hspec).
    exists r, c', g. split_and!; [done|done|by rewrite Hfat|]. apply delete_effect in Hspec.
    rewrite components_render in Hspec by done. by destruct r.
Qed.

Lemma vs_write f ps data :
  Forall part_ok ps → Forall is_byte data →
  vsafe (write_file_unchecked (render_path ps) data) f (λ r g,
    (fat_parts ps = true → g = f) ∧
    match r with
    | Ok _ => fat_parts ps = false → ∃ n, tree f ps = Some n ∧ is_file_node n = true ∧
                ∀ q, tree g q = tree_set ps (Some (set_data data n)) (tree f) q
    | Err _ => same f g
    end).
Proof.
  intros Hps Hby. apply vsafe_dispatch; [done|..].
  - intros Hfat p. apply vsafe_on_fat. intros s [u|e] s' _; (split; [done|]); [by rewrite Hfat|done].
  - intros Hfat. apply vsafe_volume. intros Hf. apply vsafe_on_cool. intros c Hc.
    destruct (write_file_refines Hwindow sb c f (render_path ps) data Hc Hby) as (r & c' & g & E' & Hc' & _ & Hspec).
    exists r, c', g. split_and!; [done|done|by rewrite Hfat|]. apply write_effect in Hspec.
    pose proof (resolve_render f ps Hf Hps) as Hr. rewrite components_render in Hspec by done.
    destruct r; [|done]. intros _. destruct Hspec as (n & En & Hn & Ht). rewrite En in Hr. by exists n.
Qed.

Lemma before_move_other old new q :
  before_move old new q = Some q ∨ ∃ r, fold_path q = fold_path (new ++ r) ∨ fold_path q = fold_path (old ++ r).
Proof.
  unfold before_move. destruct (strip_path new q) as [r|] eqn:En; [right; exists r; left; by apply strip_path_Some|].
  destruct (strip_path old q) as [r|] eqn:Eo; [right; exists r; right; by apply strip_path_Some|by left].
Qed.

Lemma vs_rename f ps y new_name :
  Forall part_ok (ps ++ [y]) → fat_parts (ps ++ [y]) = false →
  vsafe (rename_unchecked (render_path (ps ++ [y])) new_name) f (λ r g,
    match r with
    | Ok _ => (fold_name y = fold_name new_name ∧ same f g) ∨
        (is_Some (tree f (ps ++ [y])) ∧ tree f (ps ++ [new_name]) = None ∧
         ∀ q, tree g q = before_move (ps ++ [y]) (ps ++ [new_name]) q ≫= tree f)
    | Err _ => same f g
    end).
Proof.
  intros Hps Hfat. unfold rename_unchecked, dispatch. rewrite (proj2 (fat32_path_render _ Hps) Hfat).
  apply vsafe_on_cool. intros c Hc.
  destruct (rename_refines Hwindow sb c f (render_path (ps ++ [y])) new_name Hc) as (r & c' & g & E' & Hc' & Hspec).
  exists r, c', g. split_and!; [done|done|]. destruct (validate_name new_name) as [u|e] eqn:Ev.
  2: { by destruct Hspec as (-> & _ & ->). }
  destruct Hspec as (b & -> & _ & Hspec). apply rename_effect in Hspec. destruct b as [[]|]; [right|left|done].
  - destruct Hspec as (parent & name & Hs & Hsome & Hnone & Ht). apply split_components in Hs as (Ec & _).
    rewrite components_render in Ec, Hsome, Ht by done. apply app_inj_tail in Ec as [Ep _]. by rewrite <- Ep in *.
  - destruct Hspec as [Hsame Ht]. split; [|done]. unfold same_name_as in Hsame.
    destruct (split_parent_and_name (render_path (ps ++ [y]))) as [[parent name]|] eqn:Hs; [|done].
    apply split_components in Hs as (Ec & _). rewrite components_render in Ec by done. apply app_inj_tail in Ec as [_ ->].
    by apply names_equal_fold.
Qed.

(** The effect of replacing the file [name] of the directory [p] by [n]. *)
Definition replacing (p : list bytes) (name : bytes) (n : node) f g : Prop :=
  let pq := p ++ [name] in let tq := p ++ [str "CWTMP.TMP"] in
  others_kept sb pq tq f g ∧ left_over sb tq n f g ∧
  (fold_name (str "CWTMP.TMP") ≠ fold_name name → tree g pq = tree f pq ∨ tree g pq = Some n).

Lemma vs_safe_write f p name data uid gid mode :
  Forall part_ok (p ++ [name]) → Forall is_byte data → (fat_parts (p ++ [name]) = false → u32 uid ∧ u32 gid ∧ 0 ≤ mode) →
  vsafe (safe_write_file_for (render_path (p ++ [name])) data uid gid mode) f (λ _ g,
    same f g ∨ (fat_parts (p ++ [name]) = false ∧ replacing p name (file_node data uid gid mode) f g)).
Proof.
  intros Hps Hby Hown. apply vsafe_dispatch; [done|..].
  - intros Hfat path. apply vsafe_on_fat. intros s r s' _. by left.
  - intros Hfat. destruct (Hown Hfat) as (Hu & Hg & Hm). apply vsafe_on_cool. intros c Hc.
    destruct (safe_write_refines Hwindow sb Hwf c f (render_path (p ++ [name])) data uid gid mode Hc Hby Hu Hg Hm)
      as (r & c' & g & E' & Hc' & Hspec).
    exists r, c', g. split_and!; [done|done|].
    destruct (split_parent_and_name (render_path (p ++ [name]))) as [[parent name']|e] eqn:Hs; [right|left; exact (proj2 Hspec)].
    rewrite components_render in Hspec by done. pose proof (split_components _ _ _ Hs) as (Ec & Hst & _).
    rewrite components_render in Ec by done. apply app_inj_tail in Ec as [-> <-].
    destruct (split_join_path parent (str "CWTMP.TMP") Hst) as (parent' & Hs' & Ec' & _); [by repeat constructor|done|].
    change (join_path parent (str "CWTMP.TMP")) with (tmp_path parent) in Hs'.
    apply split_components in Hs' as (Et' & _). rewrite Ec' in Et'. rewrite Et' in Hspec. destruct Hspec as (Hk & Hl & Hr).
    split; [done|]. split_and!; [done|done|]. intros Hne. destruct (Hr Hne) as [_ Hr']. destruct r; [right|left]; apply Hr'.
Qed.

Lemma vs_update f ps (op : ST (CoolFs V) FsError unit) (h : node → node) :
  Forall part_ok ps →
  (∀ c, mounted sb c f → ∃ r c' g, op c = (r, c') ∧ mounted sb c' g ∧ update_spec (render_path ps) h (tree f) r (tree g)) →
  vsafe (dispatch (render_path ps) (λ _, throw UnsupportedName) op) f (λ _ g,
    same f g ∨ (fat_parts ps = false ∧ ∃ n, tree f ps = Some n ∧ ∀ q, tree g q = tree_set ps (Some (h n)) (tree f) q)).
Proof.
  intros Hps Hop. apply vsafe_dispatch; [done|..].
  - intros Hfat p. apply vsafe_on_fat. intros s r s' _. by left.
  - intros Hfat. apply vsafe_volume. intros Hf. apply vsafe_on_cool. intros c Hc.
    destruct (Hop c Hc) as (r & c' & g & E' & Hc' & Hspec). exists r, c', g. split_and!; [done|done|].
    unfold update_spec in Hspec. pose proof (resolve_render f ps Hf Hps) as Hr.
    destruct (resolve _ _) as [n|e]; [right|left; exact (proj2 Hspec)]. destruct Hspec as [_ Ht].
    rewrite components_render in Ht by done. split; [done|]. by exists n.
Qed.

(** ** Each operation of a task is a sequence of allowed changes *)
Section authorised.
Context (creds : Credentials) (umask : Z) (Hcreds : creds_ok creds).

Abbreviation steps := (rtc (auth_step creds)).
Definition authorised {E A} (m : ST (Fs V F) E A) : Prop := ∀ f, vsafe m f (λ _ g, steps (tree f) (tree g)).

Lemma same_steps f g : same f g → steps (tree f) (tree g).
Proof. intros Ht. by apply rtc_once, auth_none. Qed.

Lemma access_dir t ps : parent_access creds t ps → fat_parts ps = false →
  can_write_files creds = true ∧ ∃ p x, ps = p ++ [x] ∧ dir_access creds t p.
Proof. intros (Hw & p & x & -> & Hd) Hfat. split; [done|]. exists p, x. auto. Qed.

Lemma apply_umask_nonneg mode : 0 ≤ apply_umask umask mode.
Proof. unfold apply_umask. apply Z.land_nonneg. by right. Qed.

(** After a check [Q] on the tree. *)
Lemma authorised_check {A} f (Q : Prop) (check : ST (Fs V F) FsError unit) (k : unit → ST (Fs V F) FsError A) :
  vsafe check f (λ r g, g = f ∧ (r = Ok tt → Q)) → (Q → vsafe (k tt) f (λ _ g, steps (tree f) (tree g))) →
  vsafe (bind check k) f (λ _ g, steps (tree f) (tree g)).
Proof.
  intros Hc Hk. apply vsafe_bind. eapply vsafe_conseq; [exact Hc|]. intros [[]|e] g _ [-> Hr]; [|done]. auto.
Qed.

Lemma create_authorised path k mode (fat_op : bytes → ST F FsError unit) :
  k = KIND_FILE ∨ k = KIND_DIR → 0 ≤ mode →
  authorised (let path := normalize_path path in
              check_create_access creds path ;;!
              dispatch path fat_op (create_node path k (cr_uid creds) (cr_gid creds) mode)).
Proof.
  intros Hk Hm f. cbv zeta. rewrite normalize_path_render. set (ps := path_parts path).
  assert (Forall part_ok ps) as Hps by apply path_parts_ok.
  eapply authorised_check; [by apply vs_check_create|]. intros Hp.
  eapply vsafe_conseq; [apply vs_create; [done|done|apply Hcreds..|done]|]. intros r g _ [Hfat Hr].
  destruct (fat_parts ps) eqn:Ef; [rewrite Hfat by done; done|]. destruct r; [|by apply same_steps].
  destruct (Hr eq_refl) as [Hn Ht]. destruct (access_dir _ _ Hp Ef) as (Hw & p & x & E & Hd). rewrite E in *.
  apply rtc_once. refine (auth_create _ _ _ p x _ Hw Hd Hn _ Ht). by left.
Qed.

Lemma vfs_create_file_authorised path : authorised (vfs_create_file creds umask path).
Proof. apply create_authorised; [by left|apply apply_umask_nonneg]. Qed.

Lemma vfs_create_dir_authorised path : authorised (vfs_create_dir creds umask path).
Proof. apply create_authorised; [by right|apply apply_umask_nonneg]. Qed.

Lemma vfs_write_file_authorised path data : Forall is_byte data → authorised (vfs_write_file creds path data).
Proof.
  intros Hby f. unfold vfs_write_file. rewrite normalize_path_render. set (ps := path_parts path).
  assert (Forall part_ok ps) as Hps by apply path_parts_ok.
  eapply authorised_check; [by apply vs_check_write|]. intros [Hw Hr].
  eapply vsafe_conseq; [by apply vs_write|]. intros r g _ [Hfat Hg].
  destruct (fat_parts ps); [rewrite Hfat by done; done|]. destruct r; [|by apply same_steps].
  destruct (Hg eq_refl) as (n & Hn & Hf & Ht). destruct (Hr eq_refl) as (n' & Hn' & _ & Hnw). assert (n' = n) as -> by congruence.
  apply rtc_once. by eapply auth_write.
Qed.

(** Replacing a file, as changes of the temporary path and then of the target. *)
Section replace.
Context (f g : mem) (p : list bytes) (name : bytes) (data : bytes) (n : node).
Context (Hg : tree_ok sb g) (Hw : can_write_files creds = true) (Hd : dir_access creds (tree f) p).
Context (Hfile : is_file_node n = true) (Hrep : replacing p name (set_data data n) f g).
Let pq := p ++ [name].
Let tq := p ++ [str "CWTMP.TMP"].
Context (Htarget : (tree f pq = Some n ∧ node_write creds n = true) ∨
                   (tree f pq = None ∧ n_uid n = cr_uid creds ∧ n_gid n = cr_gid creds)).

Let t1 : Tree := tree_set tq (tree g tq) (tree f).

Lemma not_dir_entry o t x : dir_access creds t p → dir_access creds (tree_set (p ++ [x]) o t) p.
Proof.
  intros (d & Ed & ?). exists d. split; [|done]. unfold tree_set. rewrite decide_False; [done|].
  intros E%(f_equal length). unfold fold_path in E. rewrite !length_fmap, length_app in E. simpl in E. lia.
Qed.

Lemma tmp_no_children : (∀ d, tree g tq = Some d → is_dir_node d = false) → ¬ has_children (tree f) tq.
Proof.
  intros Hnd [x [m Hm]]. destruct Hrep as (Hk & _). destruct (tree_parent sb g tq x m Hg) as (d & Ed & Hdir).
  - rewrite <- Hm. apply Hk; intros E%(f_equal length); unfold fold_path in E; rewrite !length_fmap in E; unfold tq in E;
      rewrite !length_app in E; simpl in E; lia.
  - rewrite (Hnd d Ed) in Hdir. done.
Qed.

Lemma tmp_steps : steps (tree f) t1.
Proof.
  destruct Hrep as (_ & Hl & _). fold tq in Hl.
  assert (∀ d, d = [] ∨ d = data → tree g tq = Some (set_data d n) → steps (tree f) t1) as Hnew.
  { intros d _ Eg. assert (¬ has_children (tree f) tq) as Hnc.
    { apply tmp_no_children. intros d' Ed'. assert (d' = set_data d n) as -> by congruence.
      unfold is_file_node, is_dir_node in *. cbn [n_kind set_data]. apply Z.eqb_eq in Hfile. by rewrite Hfile. }
    destruct (decide (fold_path pq = fold_path tq)) as [Es|Ns]; [destruct Htarget as [[Et Hnw]|(Et & Hu & Hgi)]|].
    - apply rtc_once. apply (auth_write _ _ _ tq n d); [done| |done|done|]; [by rewrite (tree_fold sb f tq pq)|]. intros q. unfold t1. by rewrite Eg.
    - apply rtc_once. apply (auth_create _ _ _ p (str "CWTMP.TMP") (set_data d n)); [done|done| |by left|intros q; unfold t1; by rewrite Eg].
      fold tq. by rewrite (tree_fold sb f tq pq).
    - eapply rtc_l; [by apply (auth_remove _ _ (tree_set tq None (tree f)) p (str "CWTMP.TMP"))|]. apply rtc_once.
      apply (auth_create _ _ _ p (str "CWTMP.TMP") (set_data d n)); [done|by apply not_dir_entry|unfold tree_set; by rewrite decide_True| |].
      + destruct Htarget as [[Et Hnw]|(_ & Hu & Hgi)]; [right|by left]. exists name, n, d. split_and!; [|done..].
        unfold tree_set. rewrite decide_False; done.
      + intros q. unfold t1, tree_set. fold tq. rewrite Eg. by case_decide. }
  destruct Hl as [El|[El|[El|El]]].
  - apply rtc_once, auth_none. intros q. unfold t1, tree_set. case_decide as E; [|done]. by rewrite El, (tree_fold sb f q tq E).
  - apply rtc_once. apply (auth_remove _ _ _ p (str "CWTMP.TMP")); [done|done| |intros q; unfold t1; by rewrite El].
    apply tmp_no_children. intros d Ed. congruence.
  - apply (Hnew []); [by left|exact El].
  - apply (Hnew data); [by right|exact El].
Qed.

Lemma replace_steps : steps (tree f) (tree g).
Proof.
  transitivity t1; [apply tmp_steps|]. destruct Hrep as (Hk & _ & Hr). fold pq tq in Hk, Hr.
  assert (∀ q, fold_path q ≠ fold_path pq ∨ tree g pq = tree f pq ∨ fold_path pq = fold_path tq → tree g q = t1 q) as Ht.
  { intros q Hq. unfold t1, tree_set. case_decide as E; [by apply (tree_fold sb g)|]. destruct (decide (fold_path q = fold_path pq)) as [Ep|Np]; [|by apply Hk].
    destruct Hq as [?|[Eg|?]]; [done| |congruence]. by rewrite (tree_fold sb g q pq Ep), (tree_fold sb f q pq Ep). }
  destruct (decide (fold_path pq = fold_path tq)) as [Es|Ns]; [apply rtc_once, auth_none; intros q; apply Ht; auto|].
  destruct Hr as [Eg|Eg]; [|apply rtc_once, auth_none; intros q; apply Ht; auto|].
  { intros En. apply Ns. unfold pq, tq. by apply fold_path_snoc. }
  assert (∀ q, tree g q = tree_set pq (Some (set_data data n)) t1 q) as Hset.
  { intros q. unfold tree_set. case_decide as E; [by rewrite (tree_fold sb g q pq E)|]. apply Ht. by left. }
  assert (t1 pq = tree f pq) as Ep by (unfold t1, tree_set; by rewrite decide_False).
  apply rtc_once. destruct Htarget as [[Et Hnw]|(Et & Hu & Hgi)].
  - apply (auth_write _ _ _ pq n data); [done|congruence|done|done|done].
  - apply (auth_create _ _ _ p name (set_data data n)); [done|by apply not_dir_entry|fold pq; congruence|by left|done].
Qed.
End replace.

Lemma effective_mode_small k mode : 0 ≤ effective_mode k mode < 2 ^ 9 ∧ (k ≠ KIND_FREE → effective_mode k mode ≠ 0).
Proof.
  unfold effective_mode. pose proof (land_mask_range (mode mod 2 ^ 16) ltac:(apply Z.mod_pos_bound; lia)).
  destruct (Z.eqb_spec k KIND_FREE); simpl; [by split|]. destruct (Z.eqb_spec (Z.land (mode mod 2 ^ 16) MODE_MASK) 0); [|by split].
  destruct (k =? KIND_DIR); by vm_compute.
Qed.
Lemma effective_mode_again k mode : 0 ≤ mode < 2 ^ 9 → mode ≠ 0 → effective_mode k (Z.land mode MODE_MASK) = mode.
Proof.
  intros Hm Hz. change MODE_MASK with (Z.ones 9). unfold effective_mode. change MODE_MASK with (Z.ones 9).
  rewrite !Z.land_ones by lia. rewrite (Z.mod_small mode (2 ^ 9)) by lia. rewrite (Z.mod_small mode (2 ^ 16)) by lia.
  rewrite (Z.mod_small mode (2 ^ 9)) by lia.
  destruct (Z.eqb_spec mode 0); [done|]. by rewrite andb_false_r.
Qed.

(** A file written with the owner and mode of a node is that file with new contents. *)
Lemma file_node_again f q n data : volume_ok sb f → tree f q = Some n → is_file_node n = true →
  file_node data (n_uid n) (n_gid n) (n_mode n) = set_data data n.
Proof.
  intros Hv Hn Hfile. unfold file_node, new_node, set_data. cbn. unfold is_file_node in Hfile. apply Z.eqb_eq in Hfile. f_equal; [done|].
  unfold CoolTree.tree in Hn. destruct (reach sb f q) as [i|] eqn:Hr; [|done]. injection Hn as <-. unfold node_of, inode_node in *. cbn [n_mode n_kind] in *.
  change (i_mode (decode_inode sb f i)) with (effective_mode (kind (decode_inode sb f i)) (read32 f (inode_off sb i + INODE_MODE_OFFSET))).
  rewrite Hfile. destruct (effective_mode_small KIND_FILE (read32 f (inode_off sb i + INODE_MODE_OFFSET))) as [Hb Hz].
  apply effective_mode_again; [done|by apply Hz].
Qed.

Lemma vfs_safe_write_file_authorised path data : Forall is_byte data → authorised (vfs_safe_write_file creds umask path data).
Proof.
  intros Hby f. unfold vfs_safe_write_file. rewrite normalize_path_render. set (ps := path_parts path).
  assert (Forall part_ok ps) as Hps by apply path_parts_ok.
  eapply authorised_check; [by apply vs_check_safe_write|]. intros [Hp Hr]. apply vsafe_volume. intros Hv.
  apply vsafe_bind, vsafe_attempt. eapply vsafe_conseq; [by apply vs_metadata|]. intros r g _ [-> Hm].
  pose proof Hp as (Hw & p & x & E & Hd). rewrite E in *. destruct r as [m|e].
  - eapply vsafe_conseq; [apply vs_safe_write; [done|done|]|].
    { intros Hfat. specialize (Hm Hfat). destruct (tree f (p ++ [x])) as [n|] eqn:Hn; [|done].
      destruct Hm as (m' & [= <-] & (-> & -> & -> & _)). by apply (tree_owner f (p ++ [x])). }
    intros _ g Hg [?|[Hfat Hrep]]; [by apply same_steps|]. destruct (Hr Hfat) as [Hn|(n & Hn & Hfile & Hnw)]; rewrite Hn in Hm; specialize (Hm Hfat); [done|].
    destruct Hm as (m' & [= <-] & (Eu & Eg & Em & _)). rewrite Eu, Eg, Em, (file_node_again f (p ++ [x]) n data Hv Hn Hfile) in Hrep.
    apply (replace_steps f g p x data n); [done|done|auto|done|done|by left].
  - eapply vsafe_conseq; [apply vs_safe_write; [done|done|]|].
    { intros _. split_and!; [apply Hcreds..|apply apply_umask_nonneg]. }
    intros _ g Hg [?|[Hfat Hrep]]; [by apply same_steps|]. specialize (Hm Hfat).
    destruct (tree f (p ++ [x])) eqn:Hn; [by destruct Hm as (? & ? & _)|].
    apply (replace_steps f g p x data (new_node KIND_FILE (cr_uid creds) (cr_gid creds) (apply_umask umask DEFAULT_FILE_MODE)));
      [done|done|auto|done|done|by right].
Qed.

Lemma vfs_delete_authorised path : authorised (vfs_delete creds path).
Proof.
  intros f. unfold vfs_delete. rewrite normalize_path_render. set (ps := path_parts path).
  assert (Forall part_ok ps) as Hps by apply path_parts_ok.
  eapply authorised_check; [by apply vs_check_delete|]. intros Hp.
  eapply vsafe_conseq; [by apply vs_delete|]. intros r g _ [Hfat Hr].
  destruct (fat_parts ps) eqn:Ef; [rewrite Hfat by done; done|]. destruct r; [|by apply same_steps].
  destruct (Hr eq_refl) as (_ & Hnc & Ht). destruct (access_dir _ _ Hp Ef) as (Hw & p & x & E & Hd). rewrite E in *.
  apply rtc_once. by eapply auth_remove.
Qed.

Lemma vfs_rename_authorised path new_name : authorised (vfs_rename creds path new_name).
Proof.
  intros f. unfold vfs_rename. rewrite normalize_path_render. set (ps := path_parts path).
  assert (Forall part_ok ps) as Hps by apply path_parts_ok.
  eapply authorised_check; [by apply vs_check_delete|]. intros Hp. destruct (fat_parts ps) eqn:Ef.
  { apply vsafe_dispatch; [done| |congruence]. intros _ p. by apply vsafe_on_fat. }
  destruct (access_dir _ _ Hp Ef) as (Hw & p & x & E & Hd). rewrite E in *.
  eapply vsafe_conseq; [by apply vs_rename|]. intros [[]|e] g _ Hg; [|by apply same_steps].
  destruct Hg as [[_ Hg]|(_ & Hn & Hg)]; [by apply same_steps|]. apply rtc_once. by eapply auth_rename.
Qed.

Lemma vfs_copy_file_authorised src dst : authorised (vfs_copy_file creds umask src dst).
Proof.
  intros f. unfold vfs_copy_file. rewrite !normalize_path_render. set (ps := path_parts dst).
  assert (Forall part_ok ps) as Hps by apply path_parts_ok. assert (Forall part_ok (path_parts src)) as Hsrc by apply path_parts_ok.
  apply vsafe_bind. eapply vsafe_conseq; [by apply vs_metadata_ok|]. intros [m|e] g _ [-> _]; [|done].
  destruct (_ || _); [by apply vsafe_throw|].
  eapply authorised_check; [by apply vs_check_create|]. intros Hp. unfold copy_file_for.
  apply vsafe_bind, vsafe_map_err. eapply vsafe_conseq; [by apply vs_read|]. intros [data|e] g _ (-> & Hby & _); [|done].
  apply vsafe_bind. eapply vsafe_conseq; [apply vs_create; [done|by left|apply Hcreds..|apply apply_umask_nonneg]|].
  intros [[]|e] g _ [Hfat Hg]; [|by apply same_steps]. eapply vsafe_conseq; [apply vs_write; [done|by apply Hby]|].
  intros r h _ [Hfat' Hh]. destruct (fat_parts ps) eqn:Ef; [rewrite Hfat', Hfat by done; done|].
  destruct (Hg eq_refl) as [Hn Hg']. destruct (access_dir _ _ Hp Ef) as (Hw & p & x & E & Hd). rewrite E in *. apply rtc_once.
  destruct r; [|refine (auth_create _ _ _ p x _ Hw Hd Hn _ (λ q, eq_trans (Hh q) (Hg' q))); by left].
  destruct (Hh eq_refl) as (n & En & _ & Hh'). rewrite Hg' in En. unfold tree_set in En. rewrite decide_True in En by done. injection En as <-.
  refine (auth_create _ _ _ p x (set_data data (new_node KIND_FILE (cr_uid creds) (cr_gid creds) (apply_umask umask DEFAULT_FILE_MODE))) Hw Hd Hn _ _); [by left|].
  intros q. rewrite Hh'. unfold tree_set. case_decide as Eq; [done|].
  rewrite Hg'. unfold tree_set. by rewrite decide_False.
Qed.

(** Composition. *)
Lemma authorised_bind {E A B} f (m : ST (Fs V F) E A) (k : A → ST (Fs V F) E B) :
  authorised m → (∀ a, authorised (k a)) → vsafe (bind m k) f (λ _ g, steps (tree f) (tree g)).
Proof.
  intros Hm Hk. apply vsafe_bind. eapply vsafe_conseq; [apply Hm|]. intros [a|e] g _ Hg; [|done].
  eapply vsafe_conseq; [apply Hk|]. intros r h _ Hh. by transitivity (tree g).
Qed.

Lemma authorised_map_err {E E' A} (h : E → E') (m : ST (Fs V F) E A) : authorised m → authorised (map_err h m).
Proof. intros Hm f. apply vsafe_map_err, Hm. Qed.

Lemma authorised_attempt {E E' A} (m : ST (Fs V F) E A) : authorised m → authorised (attempt (E' := E') m).
Proof. intros Hm f. apply vsafe_attempt, Hm. Qed.

Lemma authorised_throw {E A} (e : E) : authorised (throw (A := A) e).
Proof. intros f. by apply vsafe_throw. Qed.

Lemma authorised_ret {E A} (a : A) : authorised (ret (E := E) a).
Proof. intros f. by apply vsafe_ret. Qed.

Lemma authorised_lift {E A} (r : result E A) : authorised (lift_result r).
Proof. intros f. by apply vsafe_lift_result. Qed.

Lemma authorised_for_each {E A} (m : A → ST (Fs V F) E unit) l : (∀ x, authorised (m x)) → authorised (for_each m l).
Proof.
  intros Hm. induction l as [|x l IH]; [apply authorised_ret|]. intros f. cbn [for_each]. by apply authorised_bind.
Qed.

(** A query changes nothing. *)
Lemma authorised_query {E A} (m : ST (Fs V F) E A) (Q : mem → result E A → Prop) :
  (∀ f, vsafe m f (λ r g, g = f ∧ Q f r)) → authorised m.
Proof. intros Hm f. eapply vsafe_conseq; [apply Hm|]. by intros r g _ [-> _]. Qed.

Lemma metadata_authorised path : authorised (metadata_unchecked (normalize_path path)).
Proof.
  rewrite normalize_path_render. apply (authorised_query _ (λ f r, fat_parts (path_parts path) = false →
    match tree f (path_parts path) with Some n => ∃ m, r = Ok m ∧ vdescribes n m | None => r = Err tt end)).
  intros f. apply vs_metadata, path_parts_ok.
Qed.

Lemma vfs_metadata_authorised path : authorised (vfs_metadata creds path).
Proof.
  intros f. apply authorised_bind; [apply metadata_authorised|]. intros m. case_if; [apply authorised_throw|apply authorised_ret].
Qed.

Lemma vfs_list_dir_authorised path : authorised (vfs_list_dir creds path).
Proof.
  intros f. apply authorised_bind; [apply metadata_authorised|]. intros m. case_if; [apply authorised_throw|].
  rewrite normalize_path_render. apply (authorised_query _ (λ f r, fat_parts (path_parts path) = false →
    ∀ l, r = Ok l → listing (tree f) (path_parts path) l)). intros g. apply vs_list_dir, path_parts_ok.
Qed.

Lemma vfs_read_file_authorised path : authorised (vfs_read_file creds path).
Proof.
  intros f. apply authorised_bind; [apply metadata_authorised|]. intros m. case_if; [apply authorised_throw|].
  intros g. rewrite normalize_path_render. eapply vsafe_conseq; [apply vs_read, path_parts_ok|]. by intros r h _ [-> _].
Qed.

Lemma vfs_check_execute_authorised path : authorised (vfs_check_execute creds path).
Proof.
  intros f. apply authorised_bind; [apply authorised_map_err, metadata_authorised|]. intros m.
  case_if; [apply authorised_ret|apply authorised_throw].
Qed.

Lemma vfs_rename_path_authorised src dst : authorised (vfs_rename_path creds umask src dst).
Proof.
  unfold vfs_rename_path. destruct (_ || _); [apply authorised_throw|].
  intros f. apply authorised_bind; [apply authorised_lift|]. intros src_parent.
  intros f1. apply authorised_bind; [apply authorised_lift|]. intros dst_parent.
  intros f2. apply authorised_bind; [apply authorised_lift|]. intros dst_name.
  case_if; [apply vfs_rename_authorised|].
  intros f3. apply authorised_bind; [apply authorised_map_err, vfs_metadata_authorised|]. intros m.
  case_if; [apply authorised_throw|].
  intros f4. apply authorised_bind; [apply vfs_copy_file_authorised|]. intros _. apply vfs_delete_authorised.
Qed.

Lemma check_delete_authorised path : authorised (check_delete_access creds (normalize_path path)).
Proof.
  rewrite normalize_path_render. apply (authorised_query _ (λ f r, r = Ok tt → parent_access creds (tree f) (path_parts path))).
  intros f. apply vs_check_delete, path_parts_ok.
Qed.

Lemma vfs_delete_recursive_authorised fuel path : authorised (vfs_delete_recursive creds fuel path).
Proof.
  revert path. induction fuel as [|fuel IH]; intros path; [apply authorised_throw|]. cbn [vfs_delete_recursive].
  destruct (_ || _); [apply authorised_throw|].
  intros f. apply authorised_bind; [apply authorised_map_err, check_delete_authorised|]. intros _.
  intros f1. apply authorised_bind; [apply authorised_attempt, vfs_list_dir_authorised|]. intros children.
  intros f2. apply authorised_bind.
  - destruct children; [|apply authorised_ret]. apply authorised_for_each. intros child. apply IH.
  - intros _. apply authorised_map_err, vfs_delete_authorised.
Qed.

Lemma vfs_chmod_authorised path mode : 0 ≤ mode → authorised (vfs_chmod creds path mode).
Proof.
  intros Hmode f. unfold vfs_chmod. rewrite normalize_path_render. set (ps := path_parts path).
  assert (Forall part_ok ps) as Hps by apply path_parts_ok.
  apply vsafe_bind. eapply vsafe_conseq; [by apply vs_metadata_ok|]. intros [m|e] g _ [-> Hm]; [|done].
  destruct (negb _ && negb _) eqn:Hown; [by apply vsafe_throw|].
  eapply vsafe_conseq; [apply (vs_update f ps _ (node_mode mode)); [done|]|].
  { intros c Hc. destruct (chmod_refines Hwindow sb c f (render_path ps) mode Hc Hmode) as (r & c' & g & ? & ? & _ & ?). by exists r, c', g. }
  intros r g _ [?|(Hfat & n & Hn & Hg)]; [by apply same_steps|]. apply rtc_once.
  apply (auth_chmod _ _ _ ps n mode); [done| |done]. destruct (Hm m eq_refl Hfat) as (n' & Hn' & (Hu & _)).
  assert (n' = n) as -> by congruence. destruct (can_admin creds); [by left|right]. simpl in Hown.
  apply negb_false_iff, Z.eqb_eq in Hown. congruence.
Qed.

Lemma vfs_chown_authorised path uid gid : u32 uid → u32 gid → authorised (vfs_chown creds path uid gid).
Proof.
  intros Hu Hg f. unfold vfs_chown. rewrite normalize_path_render. set (ps := path_parts path).
  assert (Forall part_ok ps) as Hps by apply path_parts_ok. destruct (can_admin creds) eqn:Hadm; [|by apply vsafe_throw].
  eapply vsafe_conseq; [apply (vs_update f ps _ (node_owner uid gid)); [done|]|].
  { intros c Hc. destruct (chown_refines Hwindow sb c f (render_path ps) uid gid Hc Hu Hg) as (r & c' & g & ? & ? & _ & ?). by exists r, c', g. }
  intros r g _ [?|(_ & n & Hn & Hg')]; [by apply same_steps|]. apply rtc_once. by eapply auth_chown.
Qed.
End authorised.

(** ** Sequences of operations *)
Inductive vfs_op :=
| OpRead (path : bytes) | OpList (path : bytes) | OpMetadata (path : bytes) | OpExecute (path : bytes)
| OpCreateFile (path : bytes) | OpCreateDir (path : bytes)
| OpWrite (path data : bytes) | OpSafeWrite (path data : bytes)
| OpDelete (path : bytes) | OpDeleteRecursive (fuel : nat) (path : bytes)
| OpRename (path new_name : bytes) | OpRenamePath (src dst : bytes) | OpCopy (src dst : bytes)
| OpChmod (path : bytes) (mode : Z) | OpChown (path : bytes) (uid gid : Z).

(** The arguments are in the range of their Rust types. *)
Definition op_ok (op : vfs_op) : Prop :=
  match op with
  | OpWrite _ data | OpSafeWrite _ data => Forall is_byte data
  | OpChmod _ mode => 0 ≤ mode
  | OpChown _ uid gid => u32 uid ∧ u32 gid
  | _ => True
  end.

Definition discard {E A} (m : ST (Fs V F) E A) : ST (Fs V F) unit unit := attempt m ;;! ret tt.

Lemma discard_eq {E A} (m : ST (Fs V F) E A) st : discard m st = (Ok tt, snd (m st)).
Proof. unfold discard, bind, attempt. by destruct (m st). Qed.

(** One operation of a task with [creds] and [umask]. *)
Definition vfs_exec (creds : Credentials) (umask : Z) (op : vfs_op) : ST (Fs V F) unit unit :=
  match op with
  | OpRead path => discard (vfs_read_file creds path)
  | OpList path => discard (vfs_list_dir creds path)
  | OpMetadata path => discard (vfs_metadata creds path)
  | OpExecute path => discard (vfs_check_execute creds path)
  | OpCreateFile path => discard (vfs_create_file creds umask path)
  | OpCreateDir path => discard (vfs_create_dir creds umask path)
  | OpWrite path data => discard (vfs_write_file creds path data)
  | OpSafeWrite path data => discard (vfs_safe_write_file creds umask path data)
  | OpDelete path => discard (vfs_delete creds path)
  | OpDeleteRecursive fuel path => discard (vfs_delete_recursive creds fuel path)
  | OpRename path new_name => discard (vfs_rename creds path new_name)
  | OpRenamePath src dst => discard (vfs_rename_path creds umask src dst)
  | OpCopy src dst => discard (vfs_copy_file creds umask src dst)
  | OpChmod path mode => discard (vfs_chmod creds path mode)
  | OpChown path uid gid => discard (vfs_chown creds path uid gid)
  end.

Lemma vfs_exec_steps creds umask op :
  creds_ok creds → op_ok op → authorised creds (vfs_exec creds umask op).
Proof.
  intros Hc Hop. assert (∀ E A (m : ST (Fs V F) E A), authorised creds m → authorised creds (discard m)) as Hd.
  { intros E A m Hm f. apply authorised_bind; [by apply authorised_attempt|]. intros a. apply authorised_ret. }
  destruct op; cbn [vfs_exec op_ok] in *; apply Hd.
  - apply vfs_read_file_authorised.
  - apply vfs_list_dir_authorised.
  - apply vfs_metadata_authorised.
  - apply vfs_check_execute_authorised.
  - by apply vfs_create_file_authorised.
  - by apply vfs_create_dir_authorised.
  - by apply vfs_write_file_authorised.
  - by apply vfs_safe_write_file_authorised.
  - by apply vfs_delete_authorised.
  - apply vfs_delete_recursive_authorised.
  - by apply vfs_rename_authorised.
  - by apply vfs_rename_path_authorised.
  - by apply vfs_copy_file_authorised.
  - by apply vfs_chmod_authorised.
  - destruct Hop. by apply vfs_chown_authorised.
Qed.

Lemma vfs_exec_run creds umask op st f :
  creds_ok creds → op_ok op → mounted sb (cool st) f →
  ∃ st' g, vfs_exec creds umask op st = (Ok tt, st') ∧ mounted sb (cool st') g ∧ rtc (auth_step creds) (tree f) (tree g).
Proof.
  intros Hc Hop Hst. destruct (vfs_exec_steps creds umask op Hc Hop f st Hst) as (r & st' & g & E & Hg & Hs).
  exists st', g. split_and!; [|done|done]. rewrite E. f_equal.
  destruct op; cbn [vfs_exec] in E; rewrite discard_eq in E; by injection E as <- _.
Qed.

(** C31: every operation is authorised.  Whatever operation of the virtual file
    system a task asks for, on a mounted volume it returns, and what it did to
    the tree is a sequence of single changes ([auth_step]) each of which the
    permission bits in force at that moment allow: a node is created, removed
    (when nothing is below it) or renamed only in a directory the task may write
    and search; a new node belongs to the task, or takes owner and mode from a file
    of that directory the task may write, as the replacement of a file does; the
    contents of a file change only with the right to write that file, whatever the
    rights on its directory, and owner and mode stay; a mode changes only by the
    owner or an administrator, an owner only by an administrator. *)
Theorem vfs_exec_authorised creds umask op st f :
  creds_ok creds → op_ok op → mounted sb (cool st) f →
  ∃ st' g, vfs_exec creds umask op st = (Ok tt, st') ∧ mounted sb (cool st') g ∧ rtc (auth_step creds) (tree f) (tree g).
Proof. apply vfs_exec_run. Qed.

(** ** What a task cannot change *)
Record task_op := { t_creds : Credentials; t_umask : Z; t_op : vfs_op }.

Definition vfs_run (l : list task_op) : ST (Fs V F) unit unit :=
  for_each (λ o, vfs_exec (t_creds o) (t_umask o) (t_op o)) l.

(** [creds] may neither change the node at [q] nor any directory above it. *)
Definition protected (creds : Credentials) (t : Tree) (q : list bytes) : Prop :=
  can_admin creds = false ∧
  ∀ p r, q = p ++ r → ∃ n, t p = Some n ∧ cr_uid creds ≠ n_uid n ∧
    (is_dir_node n = true → node_write creds n && node_execute creds n = false) ∧
    (is_file_node n = true → node_write creds n = false).

Definition same_above (t t' : Tree) (q : list bytes) : Prop := ∀ p r, q = p ++ r → t' p = t p.

Lemma protected_above creds t t' q : same_above t t' q → protected creds t q → protected creds t' q.
Proof. intros Hs [Ha Hp]. split; [done|]. intros p r E. rewrite (Hs p r E). by apply (Hp p r). Qed.

(** A change at or below an entry of a directory that [creds] may change does not
    concern a protected path. *)
Lemma protected_entry creds t q p r p0 x r0 :
  fold_inv t → protected creds t q → q = p ++ r → dir_access creds t p0 → fold_path p ≠ fold_path (p0 ++ x :: r0).
Proof.
  intros Ht [_ Hp] -> (d & Hd & Hdir & Hw & Hx) E. destruct (fold_prefix p p0 x r0 E) as (p' & x' & r' & -> & Ep).
  destruct (Hp p' (x' :: r' ++ r)) as (d' & Hd' & _ & Hdd & _); [by rewrite <- app_assoc|].
  rewrite (Ht p' p0 Ep) in Hd'. assert (d' = d) as -> by congruence. specialize (Hdd Hdir). by rewrite Hw, Hx in Hdd.
Qed.

Lemma protected_step creds t t' q : fold_inv t → auth_step creds t t' → protected creds t q → same_above t t' q.
Proof.
  intros Ht Hstep Hprot p r Eq. pose proof Hprot as [Ha Hp]. destruct (Hp p r Eq) as (n & Hn & Hu & Hd & Hf).
  assert (∀ p0 n0 m, t p0 = Some n0 → (n0 = n → False) → (∀ q, t' q = tree_set p0 (Some m) t q) → t' p = t p) as Hset.
  { intros p0 n0 m Hn0 Hne E. rewrite E. unfold tree_set. case_decide as Ef; [|done]. rewrite (Ht p p0 Ef) in Hn. naive_solver. }
  destruct Hstep as [E|p0 x m _ Hda _ _ E|p0 x _ Hda _ E|p0 x y _ Hda _ E|p0 n0 data _ Hn0 Hfile Hw E|p0 n0 mode Hn0 Hown E|p0 n0 uid gid Hn0 Hadm E].
  - done.
  - rewrite E. unfold tree_set. rewrite decide_False; [done|]. by eapply protected_entry.
  - rewrite E. unfold tree_set. rewrite decide_False; [done|]. by eapply protected_entry.
  - rewrite E. destruct (before_move_other (p0 ++ [x]) (p0 ++ [y]) p) as [->|[r' Hr]]; [done|].
    exfalso. destruct Hr as [Hr|Hr]; rewrite <- app_assoc in Hr; by eapply protected_entry.
  - apply (Hset p0 n0 (set_data data n0)); [done| |done]. intros ->. by rewrite (Hf Hfile) in Hw.
  - apply (Hset p0 n0 (node_mode mode n0)); [done| |done]. intros ->. destruct Hown; congruence.
  - congruence.
Qed.

Lemma protected_steps creds t t' q : fold_inv t → rtc (auth_step creds) t t' → protected creds t q → same_above t t' q.
Proof.
  intros Ht Hs. induction Hs as [t|t t1 t' Hs _ IH]; intros Hp p r E; [done|]. pose proof (protected_step creds t t1 q Ht Hs Hp) as Ha.
  rewrite <- (Ha p r E). apply (IH (auth_fold creds t t1 Ht Hs) (protected_above creds t t1 q Ha Hp) p r E).
Qed.

(** C30: integrity.  Let any number of tasks perform any operations in any
    order.  A node that none of them may write or own, below directories none
    of them may change or own, is still there afterwards, with the same
    contents, owner and mode. *)
Theorem vfs_integrity l st f q :
  mounted sb (cool st) f →
  Forall (λ o, creds_ok (t_creds o) ∧ op_ok (t_op o) ∧ protected (t_creds o) (tree f) q) l →
  ∃ st' g, vfs_run l st = (Ok tt, st') ∧ mounted sb (cool st') g ∧ tree g q = tree f q.
Proof.
  intros Hst Hl. cut (∃ st' g, vfs_run l st = (Ok tt, st') ∧ mounted sb (cool st') g ∧ same_above (tree f) (tree g) q).
  { intros (st' & g & E & Hg & Ha). exists st', g. split_and!; [done|done|]. apply (Ha q []). by rewrite app_nil_r. }
  revert st f Hst Hl. induction l as [|o l IH]; intros st f Hst Hl; [by exists st, f|].
  apply Forall_cons in Hl as [(Hc & Hop & Hp) Hl]. unfold vfs_run. cbn [for_each]. unfold bind.
  destruct (vfs_exec_run (t_creds o) (t_umask o) (t_op o) st f Hc Hop Hst) as (st1 & f1 & E & Hst1 & Hs). rewrite E.
  pose proof (protected_steps _ _ _ q (λ a b, tree_fold sb f a b) Hs Hp) as Ha. destruct (IH st1 f1 Hst1) as (st' & g & E' & Hg & Ha').
  { eapply Forall_impl; [exact Hl|]. cbv beta. intros o' (? & ? & ?). split_and!; [done|done|]. by apply (protected_above _ (tree f)). }
  exists st', g. split_and!; [done|done|]. intros p r' Ep. rewrite (Ha' p r' Ep). by apply (Ha p r').
Qed.
End access.
