(* ===== verification/VfsOps.v ===== *)
(** * What the operations of the virtual file system do

    Functional behaviour of the operations of src/src/vfs.rs on the mounted
    CoolFS volume: reading, creating, copying and moving files, and deleting a
    tree, which always ends.  The paths are those that do not lie below the
    FAT32 mount. *)
From S2P Require Import Prelude DiskLayout Storage Text Paths Security BlockCache CoolImage CoolMem CoolFile CoolContent CoolFs CoolDir CoolTree CoolMount CoolQuery CoolSafe Vfs VfsAccess.
Set Warnings "-clear-no-such-hyp".

Local Open Scope Z_scope.
Local Open Scope st_scope.

(** A valid CoolFS name is a component. *)
Lemma validate_part x : validate_name x = Ok tt → part_ok x.
Proof.
  unfold validate_name, is_dot, is_dotdot. destruct (_ || _) eqn:E; [done|].
  apply orb_false_iff in E as [[[E1 E2]%orb_false_iff E3]%orb_false_iff _].
  destruct (forallb _ x) eqn:Hf; [|done]. intros _. split_and!.
  - apply Forall_forall. intros b Hb. rewrite forallb_forall in Hf. specialize (Hf b (proj1 (list_elem_of_In _ _) Hb)). lia.
  - intros ->. done.
  - intros ->. done.
  - intros ->. done.
Qed.

Section ops.
Context {V F : Type} `{ReliableStore V} `{Fat32Bytes F}.
Context (Hwindow : TOTAL_BLOCKS * SECTORS_PER_BLOCK ≤ swindow).
Context (sb : Superblock) (Hwf : sb_wf sb).
Implicit Types (f g : mem) (st : Fs V F) (ps : list bytes).
Abbreviation tree := (tree sb).
Abbreviation vsafe := (vsafe (V := V) (F := F) sb).

(** ** The depth of the tree *)
Lemma reach_prefix_Some f p r i : reach sb f (p ++ r) = Some i → is_Some (reach sb f p).
Proof. intros Hr. destruct (reach sb f p) eqn:E; [by eauto|]. by rewrite (reach_app_None sb f p r E) in Hr. Qed.

(** The inodes on a path are distinct, so no path is longer than their number. *)
Lemma path_inodes f q i :
  tree_ok sb f → reach sb f q = Some i →
  ∃ l, NoDup l ∧ length l = S (length q) ∧ ∀ j, j ∈ l → inode_in_range sb j ∧ ∃ p r, q = p ++ r ∧ reach sb f p = Some j.
Proof.
  intros Hf. revert i. induction q as [|x q IH] using rev_ind; intros i Hq.
  - exists [i]. split_and!; [apply NoDup_singleton|done|]. intros j ->%list_elem_of_singleton.
    split; [by apply (reach_live sb f [])|]. by exists [], [].
  - destruct (reach_prefix_Some f q [x] i Hq) as [i' Hi']. destruct (IH i' Hi') as (l & Hnd & Hl & Hin).
    exists (i :: l). split_and!.
    + apply NoDup_cons. split; [|done]. intros (_ & p & r & -> & Hp)%Hin.
      pose proof (reach_inj sb f _ _ i Hf Hp Hq) as E%(f_equal length). unfold fold_path in E.
      rewrite !length_fmap, !length_app in E. simpl in E. lia.
    + simpl. rewrite Hl, length_app. simpl. lia.
    + intros j [->|Hj]%elem_of_cons; [split; [by apply (reach_live sb f (q ++ [x]))|by exists (q ++ [x]), []; rewrite app_nil_r]|].
      destruct (Hin j Hj) as (? & p & r & -> & ?). split; [done|]. exists p, (r ++ [x]). by rewrite app_assoc.
Qed.

Lemma tree_depth f q : tree_ok sb f → inode_count sb ≤ len q → tree f q = None.
Proof.
  intros Hf Hlen. unfold CoolTree.tree. destruct (reach sb f q) as [i|] eqn:Hq; [|done]. exfalso.
  destruct (path_inodes f q i Hf Hq) as (l & Hnd & Hl & Hin).
  assert (l ⊆+ seqZ 0 (inode_count sb)) as Hsub.
  { apply NoDup_submseteq; [done|]. intros j [Hj _]%Hin. apply elem_of_seqZ. unfold inode_in_range in Hj. lia. }
  apply submseteq_length in Hsub. rewrite length_seqZ, Hl in Hsub. unfold len in Hlen. lia.
Qed.

(** ** Deleting a tree *)
Definition under ps (q : list bytes) : Prop := ∃ r, fold_path q = fold_path (ps ++ r).

(** Nodes below [ps] are gone, nothing else changed. *)
Definition pruned ps f g : Prop := ∀ q, tree g q = tree f q ∨ (tree g q = None ∧ under ps q).

(** No path goes [d] components further down than [ps]. *)
Definition deep f ps (d : nat) : Prop := ∀ r, (d ≤ length r)%nat → tree f (ps ++ r) = None.

Lemma pruned_refl ps f g : (∀ q, tree g q = tree f q) → pruned ps f g.
Proof. intros Ht q. by left. Qed.

Lemma pruned_trans ps f g h : pruned ps f g → pruned ps g h → pruned ps f h.
Proof.
  intros Hg Hh q. destruct (Hh q) as [Eh|?]; [|by right]. destruct (Hg q) as [Eg|[Eg ?]]; [left; congruence|].
  right. split; [congruence|done].
Qed.

Lemma pruned_child ps x f g : pruned (ps ++ [x]) f g → pruned ps f g.
Proof.
  intros Hg q. destruct (Hg q) as [?|[? [r Hr]]]; [by left|right]. split; [done|]. exists (x :: r).
  by rewrite <- app_assoc in Hr.
Qed.

Lemma pruned_None ps f g q : pruned ps f g → tree f q = None → tree g q = None.
Proof. intros Hg Hq. destruct (Hg q) as [->|[? _]]; done. Qed.

Lemma deep_child f ps x d : deep f ps (S d) → deep f (ps ++ [x]) d.
Proof. intros Hd r Hr. rewrite <- app_assoc. apply Hd. simpl. lia. Qed.

Lemma join_path_parts ps x :
  Forall part_ok ps → part_ok x → path_parts (join_path (render_path ps) x) = ps ++ [x].
Proof.
  intros Hps Hx. rewrite join_path_render, <- render_path_snoc by done. unfold render_path.
  apply path_parts_render, Forall_app. split; [done|]. by apply Forall_singleton.
Qed.

Lemma vs_vfs_list creds f path :
  fat_parts (path_parts path) = false →
  vsafe (vfs_list_dir creds path) f (λ r g, g = f ∧ ∀ l, r = Ok l → listing (tree f) (path_parts path) l).
Proof.
  intros Hfat. unfold vfs_list_dir. rewrite normalize_path_render.
  pose proof (path_parts_ok path) as Hps. apply vsafe_bind.
  eapply vsafe_conseq; [by apply (vs_metadata Hwindow sb Hwf)|]. intros [m|e] g _ [-> _]; [|done].
  destruct (_ || _); [by apply vsafe_throw|]. eapply vsafe_conseq; [by apply (vs_list_dir Hwindow sb Hwf)|].
  intros r g _ [-> Hl]. split; [done|]. by apply Hl.
Qed.

Lemma vs_vfs_delete creds f path :
  fat_parts (path_parts path) = false →
  vsafe (vfs_delete creds path) f (λ r g,
    match r with
    | Ok _ => ¬ has_children (tree f) (path_parts path) ∧ ∀ q, tree g q = tree_set (path_parts path) None (tree f) q
    | Err _ => ∀ q, tree g q = tree f q
    end).
Proof.
  intros Hfat. unfold vfs_delete. rewrite normalize_path_render. pose proof (path_parts_ok path) as Hps.
  apply vsafe_bind. eapply vsafe_conseq; [by apply (vs_check_delete Hwindow sb Hwf)|]. intros [[]|e] g _ [-> _]; [|done].
  eapply vsafe_conseq; [by apply (vs_delete Hwindow sb)|]. intros [[]|e] g _ [_ Hr]; [|done].
  by destruct (Hr Hfat) as (_ & ? & ?).
Qed.

Lemma delete_pruned f g ps (r : result FsError unit) :
  tree_ok sb f →
  match r with
  | Ok _ => ¬ has_children (tree f) ps ∧ ∀ q, tree g q = tree_set ps None (tree f) q
  | Err _ => ∀ q, tree g q = tree f q
  end → pruned ps f g ∧ (r = Ok tt → ∀ r', tree g (ps ++ r') = None).
Proof.
  intros Hf Hr. destruct r as [[]|e]; [|split; [by apply pruned_refl|done]]. destruct Hr as [Hch Ht]. split.
  - intros q. rewrite Ht. unfold tree_set. case_decide as Eq; [right|by left]. split; [done|]. exists []. by rewrite app_nil_r.
  - intros _ r'. rewrite Ht. unfold tree_set. case_decide as Eq; [done|]. apply (tree_no_children sb); [done|done|].
    intros ->. by rewrite app_nil_r in Eq.
Qed.

Lemma vs_for_children creds fuel ps l f :
  (∀ path f, fat_parts (path_parts path) = false → deep f (path_parts path) fuel → (0 < fuel)%nat →
     vsafe (vfs_delete_recursive creds fuel path) f (λ r g, r ≠ Err None ∧ pruned (path_parts path) f g)) →
  Forall part_ok ps → ps ≠ [] → fat_parts ps = false → deep f ps (S fuel) → (l ≠ [] → (0 < fuel)%nat) →
  (∀ e, e ∈ l → part_ok (de_name e)) →
  vsafe (for_each (λ child : DirEntryInfo, vfs_delete_recursive creds fuel (join_path (render_path ps) (de_name child))) l) f
    (λ r g, r ≠ Err None ∧ pruned ps f g).
Proof.
  intros IH Hps Hne Hfat. revert f. induction l as [|e l IHl]; intros f Hd Hfuel Hl.
  { apply vsafe_ret. split; [done|by apply pruned_refl]. }
  cbn [for_each]. apply vsafe_bind. pose proof (join_path_parts ps (de_name e) Hps (Hl e ltac:(by left))) as Ep.
  eapply vsafe_conseq; [apply IH; rewrite ?Ep; [by destruct ps|by apply deep_child|by apply Hfuel]|].
  rewrite Ep. intros r g _ [Hr Hg%pruned_child]. destruct r as [[]|o]; [|done].
  eapply vsafe_conseq; [apply IHl|].
  - intros r Hlen. apply (pruned_None ps f g); [done|]. by apply Hd.
  - intros _. by apply Hfuel.
  - intros e' He'. apply Hl. by right.
  - intros r h _ [? Hh]. split; [done|]. by apply (pruned_trans ps f g h).
Qed.

Lemma vs_delete_recursive creds fuel path f :
  fat_parts (path_parts path) = false → deep f (path_parts path) fuel → (0 < fuel)%nat →
  vsafe (vfs_delete_recursive creds fuel path) f (λ r g,
    r ≠ Err None ∧ pruned (path_parts path) f g ∧ (r = Ok tt → ∀ r', tree g (path_parts path ++ r') = None)).
Proof.
  revert path f. induction fuel as [|fuel IH]; intros path f Hfat Hd Hfuel; [lia|]. cbn [vfs_delete_recursive].
  pose proof (path_parts_ok path) as Hps. rewrite normalize_path_render. set (ps := path_parts path) in *.
  destruct (bytes_eqb (render_path ps) (str "/")) eqn:Hroot; [apply vsafe_throw; split_and!; [done|by apply pruned_refl|done]|].
  assert (ps ≠ []) as Hne by (intros ->; done).
  destruct (eq_ignore_ascii_case _ _); cbn [orb]; [apply vsafe_throw; split_and!; [done|by apply pruned_refl|done]|].
  apply vsafe_bind, vsafe_map_err. eapply vsafe_conseq; [by apply (vs_check_delete Hwindow sb Hwf)|].
  intros [[]|e] g _ [-> _]; [|split_and!; [done|by apply pruned_refl|done]].
  assert (path_parts (render_path ps) = ps) as Ep by (by apply path_parts_render).
  apply vsafe_bind, vsafe_attempt. eapply vsafe_conseq; [apply (vs_vfs_list creds f (render_path ps)); by rewrite Ep|].
  rewrite Ep. intros r g _ [-> Hl]. apply vsafe_bind.
  apply (vsafe_conseq sb _ f (λ r g, r ≠ Err None ∧ pruned ps f g)).
  { destruct r as [l|e]; [|apply vsafe_ret; split; [done|by apply pruned_refl]]. specialize (Hl l eq_refl).
    apply vs_for_children; try done.
    - intros path' f' ? ? ?. eapply vsafe_conseq; [by apply IH|]. intros ? ? _ (? & ? & _). done.
    - intros Hln. destruct l as [|e l]; [done|]. destruct fuel; [|lia]. exfalso.
      destruct (list_sound _ _ _ Hl e) as (_ & n & Hn & _); [by left|]. by rewrite (Hd [de_name e]) in Hn.
    - intros e He. apply validate_part. by apply (list_sound _ _ _ Hl e). }
  intros r' g _ [Hr' Hg]. destruct r' as [[]|o]; [|by split_and!].
  apply vsafe_map_err, vsafe_volume. intros Hv.
  eapply vsafe_conseq; [apply (vs_vfs_delete creds g (render_path ps)); by rewrite Ep|].
  rewrite Ep. intros r2 h _ Hdel. destruct (delete_pruned g h ps r2 Hv Hdel) as [Hh Hok]. split_and!; [by destruct r2|by apply (pruned_trans ps f g h)|].
  destruct r2 as [[]|]; [by intros _; apply Hok|done].
Qed.

(** C32: deleting a tree, on the CoolFS volume (not below the FAT32 mount).
    [vfs_delete_recursive] never recurses deeper than
    the number of inodes, so it always ends (with that much fuel the model
    never runs out).  If it succeeds, the path and everything below it is
    gone; in any case nothing outside has changed, and what is left below the
    path is as it was. *)
Theorem vfs_delete_recursive_correct creds fuel path st f :
  mounted sb (cool st) f → fat_parts (path_parts path) = false → inode_count sb ≤ Z.of_nat fuel →
  ∃ r st' g, vfs_delete_recursive creds fuel path st = (r, st') ∧ mounted sb (cool st') g ∧ r ≠ Err None ∧
    (∀ q, tree g q = tree f q ∨ (tree g q = None ∧ under (path_parts path) q)) ∧
    (r = Ok tt → ∀ r', tree g (path_parts path ++ r') = None).
Proof.
  intros Hm Hfat Hfuel. pose proof Hm as (c & _ & _ & _ & [Hf _]). pose proof (ok_root _ _ (tree_fs sb f Hf)) as [Hr0 Hr1].
  apply (vs_delete_recursive creds fuel path f); [done| |lia|done].
  intros r Hr. apply tree_depth; [done|]. unfold len. rewrite length_app. lia.
Qed.

(** ** Reading *)
(** Reading through the virtual file system.  [vfs_read_file] returns the
    contents of the file exactly when the normalised path names a file that
    the caller may read, and changes nothing. *)
Theorem vfs_read_file_correct creds path st f :
  mounted sb (cool st) f → fat_parts (path_parts path) = false →
  ∃ r st', vfs_read_file creds path st = (r, st') ∧ mounted sb (cool st') f ∧
    r = match tree f (path_parts path) with
        | Some n => if is_file_node n && node_read creds n then Ok (n_data n) else Err tt
        | None => Err tt
        end.
Proof.
  intros Hm Hfat. pose proof (path_parts_ok path) as Hps.
  cut (vsafe (vfs_read_file creds path) f (λ r g, g = f ∧ r = match tree f (path_parts path) with
    | Some n => if is_file_node n && node_read creds n then Ok (n_data n) else Err tt | None => Err tt end)).
  { intros Hs. destruct (Hs st Hm) as (r & st' & g & E & Hg & -> & Hr). by exists r, st'. }
  unfold vfs_read_file. rewrite normalize_path_render. apply vsafe_bind.
  eapply vsafe_conseq; [by apply (vs_metadata Hwindow sb Hwf)|]. intros r g _ [-> Hr]. specialize (Hr Hfat).
  destruct (tree f (path_parts path)) as [n|] eqn:Hn; [|by rewrite Hr].
  destruct Hr as (m & -> & (Eu & Eg & Em & _ & Ef & _)). unfold meta_read. rewrite Ef, Eu, Eg, Em. fold (node_read creds n).
  destruct (is_file_node n) eqn:Hfile, (node_read creds n); cbn [negb orb andb]; try by apply vsafe_throw.
  eapply vsafe_conseq; [by apply (vs_read Hwindow sb)|]. intros r g _ (-> & _ & Hr). rewrite Hn, Hfile in Hr. by rewrite Hr.
Qed.

(** ** Copying and moving *)
(** The file a copy makes: the contents of [n], owned by the caller. *)
Definition copy_of (creds : Credentials) (umask : Z) (n : node) : node :=
  file_node (n_data n) (cr_uid creds) (cr_gid creds) (apply_umask umask DEFAULT_FILE_MODE).

Definition copied (creds : Credentials) (umask : Z) (src dst : list bytes) (t : Tree) (r : result FsError unit) (t' : Tree) : Prop :=
  match r with
  | Ok _ => ∃ n, t src = Some n ∧ is_file_node n = true ∧ node_read creds n = true ∧ t dst = None ∧
      ∀ q, t' q = tree_set dst (Some (copy_of creds umask n)) t q
  | Err _ => ∀ q, fold_path q ≠ fold_path dst ∨ is_Some (t dst) → t' q = t q
  end.

Lemma vs_vfs_copy creds umask f src dst :
  creds_ok creds → fat_parts (path_parts src) = false → fat_parts (path_parts dst) = false →
  vsafe (vfs_copy_file creds umask src dst) f (λ r g, copied creds umask (path_parts src) (path_parts dst) (tree f) r (tree g)).
Proof.
  intros Hcr Hfs Hfd. unfold vfs_copy_file. rewrite !normalize_path_render.
  pose proof (path_parts_ok src) as Hs. pose proof (path_parts_ok dst) as Hd.
  apply vsafe_bind. eapply vsafe_conseq; [by apply (vs_metadata_ok Hwindow sb Hwf)|]. intros [m|e] g _ [-> Hm]; [|done].
  destruct (Hm m eq_refl Hfs) as (n & Hn & (Eu & Eg & Em & _ & Ef & _)). unfold meta_read. rewrite Ef, Eu, Eg, Em.
  fold (node_read creds n). destruct (is_file_node n) eqn:Hfile, (node_read creds n) eqn:Hread; cbn [negb orb]; try by apply vsafe_throw.
  apply vsafe_bind. eapply vsafe_conseq; [by apply (vs_check_create Hwindow sb Hwf)|]. intros [[]|e] g _ [-> _]; [|done].
  unfold copy_file_for. apply vsafe_bind, vsafe_map_err. eapply vsafe_conseq; [by apply (vs_read Hwindow sb)|].
  intros r g _ (-> & Hby & Hr). rewrite Hn, Hfile in Hr. rewrite (Hr Hfs) in *. specialize (Hby _ eq_refl).
  apply vsafe_bind. eapply vsafe_conseq; [apply (vs_create Hwindow sb f KIND_FILE); [done|by left|apply Hcr..|apply apply_umask_nonneg]|].
  intros [[]|e] g _ [_ Hg]; [|by intros q _]. destruct (Hg Hfd) as [Hnone Hg'].
  eapply vsafe_conseq; [by apply (vs_write Hwindow sb)|]. intros r2 h _ [_ Hh].
  assert (∀ q, fold_path q ≠ fold_path (path_parts dst) → tree g q = tree f q) as Hother
    by (intros q Hq; rewrite Hg'; unfold tree_set; by rewrite decide_False).
  destruct r2 as [[]|e]; [|intros q [Hq|[? Hq]]; [by rewrite Hh, Hother|congruence]].
  destruct (Hh Hfd) as (n' & Hn' & _ & Hh'). exists n. split_and!; [done..|]. intros q. rewrite Hh'. unfold tree_set.
  case_decide as Eq; [|by apply Hother]. rewrite Hg' in Hn'. unfold tree_set in Hn'. rewrite decide_True in Hn' by done.
  by injection Hn' as <-.
Qed.

(** Copying.  On success the destination, which did not exist, holds the
    contents of the source and belongs to the caller, and nothing else
    changed.  On failure only the destination can differ, and only if it did
    not exist. *)
Theorem vfs_copy_file_correct creds umask src dst st f :
  mounted sb (cool st) f → creds_ok creds → fat_parts (path_parts src) = false → fat_parts (path_parts dst) = false →
  ∃ r st' g, vfs_copy_file creds umask src dst st = (r, st') ∧ mounted sb (cool st') g ∧
    copied creds umask (path_parts src) (path_parts dst) (tree f) r (tree g).
Proof. intros Hm Hcr Hs Hd. by apply (vs_vfs_copy creds umask f src dst). Qed.

(** What moving does when the directories differ: copy, then delete. *)
Definition moved_file (creds : Credentials) (umask : Z) (src dst : list bytes) (t : Tree) (r : result FsError unit) (t' : Tree) : Prop :=
  match r with
  | Ok _ => ∃ n, t src = Some n ∧ is_file_node n = true ∧ t dst = None ∧
      ∀ q, t' q = tree_set src None (tree_set dst (Some (copy_of creds umask n)) t) q
  | Err _ => ∀ q, fold_path q ≠ fold_path dst ∨ is_Some (t dst) → t' q = t q
  end.

(** ... and within a directory: the subtree moves, or the names are the same up to case. *)
Definition renamed (src dst : list bytes) (t : Tree) (r : result FsError unit) (t' : Tree) : Prop :=
  match r with
  | Ok _ => (fold_path src = fold_path dst ∧ ∀ q, t' q = t q) ∨
      (is_Some (t src) ∧ t dst = None ∧ ∀ q, t' q = before_move src dst q ≫= t)
  | Err _ => ∀ q, t' q = t q
  end.

Lemma vs_copy_delete creds umask f src dst :
  creds_ok creds → fat_parts (path_parts src) = false → fat_parts (path_parts dst) = false →
  vsafe (vfs_copy_file creds umask src dst ;;! vfs_delete creds src) f
    (λ r g, moved_file creds umask (path_parts src) (path_parts dst) (tree f) r (tree g)).
Proof.
  intros Hcr Hs Hd. apply vsafe_bind. eapply vsafe_conseq; [by apply (vs_vfs_copy creds umask f src dst)|].
  intros [[]|e] g _ Hg; [|done]. destruct Hg as (n & Hn & Hfile & _ & Hnone & Hg).
  eapply vsafe_conseq; [by apply vs_vfs_delete|]. intros [[]|e] h _ Hh.
  - destruct Hh as [_ Hh]. exists n. split_and!; [done..|]. intros q. rewrite Hh. unfold tree_set at 1 2.
    case_decide; [done|]. apply Hg.
  - intros q [Hq|[? Hq]]; [|congruence]. rewrite Hh, Hg. unfold tree_set. by rewrite decide_False.
Qed.

Lemma vs_vfs_rename creds f path ps y new_name :
  path_parts path = ps ++ [y] → fat_parts (ps ++ [y]) = false →
  vsafe (vfs_rename creds path new_name) f (λ r g, renamed (ps ++ [y]) (ps ++ [new_name]) (tree f) r (tree g)).
Proof.
  intros Ep Hfat. pose proof (path_parts_ok path) as Hps. rewrite Ep in Hps. unfold vfs_rename.
  rewrite normalize_path_render, Ep. apply vsafe_bind. eapply vsafe_conseq; [by apply (vs_check_delete Hwindow sb Hwf)|].
  intros [[]|e] g _ [-> _]; [|done]. eapply vsafe_conseq; [by apply (vs_rename Hwindow sb)|].
  intros [[]|e] g _ Hg; [|done]. destruct Hg as [[Ey ?]|?]; [left|by right]. split; [|done]. by apply fold_path_snoc.
Qed.

Lemma render_path_inj ps qs : Forall part_ok ps → Forall part_ok qs → render_path ps = render_path qs → ps = qs.
Proof. intros Hp Hq E%(f_equal path_parts). unfold render_path in E. by rewrite !path_parts_render in E. Qed.

(** C33: moving, on the CoolFS volume (neither path below the FAT32 mount).
    Within a directory [vfs_rename_path] renames, a directory with
    everything below it.  Between directories it moves files only: on success
    the destination holds the contents, now owned by the caller, and the source
    is gone.  If it fails, the source and everything else but a destination
    that did not exist is as it was: a failed move loses nothing. *)
Theorem vfs_rename_path_correct creds umask src dst sp s dp d st f :
  mounted sb (cool st) f → creds_ok creds → path_parts src = sp ++ [s] → path_parts dst = dp ++ [d] →
  fat_parts (sp ++ [s]) = false → fat_parts (dp ++ [d]) = false →
  ∃ r st' g, vfs_rename_path creds umask src dst st = (r, st') ∧ mounted sb (cool st') g ∧
    if decide (sp = dp) then renamed (sp ++ [s]) (dp ++ [d]) (tree f) r (tree g)
    else moved_file creds umask (sp ++ [s]) (dp ++ [d]) (tree f) r (tree g).
Proof.
  intros Hm Hcr Es Ed Hfs Hfd. pose proof (path_parts_ok src) as Hs. pose proof (path_parts_ok dst) as Hd.
  rewrite Es in Hs. rewrite Ed in Hd. revert st Hm.
  change (vsafe (vfs_rename_path creds umask src dst) f (λ r g,
    if decide (sp = dp) then renamed (sp ++ [s]) (dp ++ [d]) (tree f) r (tree g)
    else moved_file creds umask (sp ++ [s]) (dp ++ [d]) (tree f) r (tree g))).
  assert (∀ e : FsError, if decide (sp = dp) then renamed (sp ++ [s]) (dp ++ [d]) (tree f) (Err e) (tree f)
    else moved_file creds umask (sp ++ [s]) (dp ++ [d]) (tree f) (Err e) (tree f)) as Herr by (intros e; case_decide; [by intros q|by intros q _]).
  assert (path_parts (render_path (sp ++ [s])) = sp ++ [s] ∧ path_parts (render_path (dp ++ [d])) = dp ++ [d]) as [Es' Ed']
    by (split; by apply path_parts_render).
  unfold vfs_rename_path. rewrite !normalize_path_render, Es, Ed. destruct (_ || _); [apply vsafe_throw, Herr|].
  rewrite !parent_render by done. do 2 apply vsafe_bind, vsafe_lift_result.
  assert (file_name (render_path (dp ++ [d])) = Ok d) as ->.
  { pose proof Hd as [_ Hd1]%Forall_app. rewrite Forall_singleton in Hd1. by apply (parent_path_snoc _ dp d). }
  apply vsafe_bind, vsafe_lift_result.
  destruct (bytes_eqb (render_path sp) (render_path dp)) eqn:Eq.
  - apply bytes_eqb_eq, render_path_inj in Eq; [|by apply Forall_app in Hs as [? _]|by apply Forall_app in Hd as [? _]].
    destruct (decide (sp = dp)); [|done]. subst dp. by apply (vs_vfs_rename creds f (render_path (sp ++ [s])) sp s d).
  - destruct (decide (sp = dp)) as [->|_]; [by rewrite (proj2 (bytes_eqb_eq _ _) eq_refl) in Eq|].
    apply vsafe_bind, vsafe_map_err. unfold vfs_metadata. rewrite normalize_path_render, Es'. apply vsafe_bind.
    eapply vsafe_conseq; [by apply (vs_metadata Hwindow sb Hwf)|]. intros [m|u] g _ [-> _]; [|by intros q _].
    destruct (negb (meta_read creds m)); [apply vsafe_throw; by intros q _|]. apply vsafe_ret.
    destruct (negb (fm_is_file m)); [apply vsafe_throw; by intros q _|].
    pose proof (vs_copy_delete creds umask f (render_path (sp ++ [s])) (render_path (dp ++ [d])) Hcr) as Hmv.
    rewrite Es', Ed' in Hmv. by apply Hmv.
Qed.
End ops.

(** ** On a volume in memory *)
Section demo.
Import RamDisk NoFat.

Definition guest : Credentials := {| cr_uid := GUEST_UID; cr_gid := USER_GID; cr_caps := CAP_INTERACTIVE_USER |}.

Lemma guest_ok : creds_ok guest.
Proof. done. Qed.

(** A volume whose only file is /a.txt, owned by uid 7 with mode 644. *)
Definition demo : Fs (Storage ramdisk) unit := {| cool := with_file; fat := tt |}.
Definition demo_node : node := new_node KIND_FILE 7 7 420.

Lemma demo_mounted :
  ∃ f, mounted Superblock_new (cool demo) f ∧ ∀ q, tree Superblock_new f q = tree_set [str "a.txt"] (Some demo_node) empty_tree q.
Proof.
  destruct formatted_mounted as (f & Hm & Ht).
  destruct (create_node_refines window_ok Superblock_new formatted f (str "/a.txt") KIND_FILE 7 7 420 Hm) as (r & st' & g & E & Hm' & _ & Hs);
    [by left|done..|].
  assert (r = Ok tt) as ->.
  { change r with (fst (r, st')). rewrite <- E. vm_compute. reflexivity. }
  exists g. unfold demo, with_file. cbn [cool]. rewrite E. split; [done|]. intros q. apply create_effect in Hs as [_ Hs].
  rewrite Hs. unfold tree_set. change (components (str "/a.txt")) with [str "a.txt"]. case_decide; [done|]. apply Ht.
Qed.

Lemma demo_protected f :
  (∀ q, tree Superblock_new f q = tree_set [str "a.txt"] (Some demo_node) empty_tree q) →
  protected guest (tree Superblock_new f) [str "a.txt"].
Proof.
  intros Ht. split; [done|]. intros p r E. destruct p as [|x [|y p]]; [exists root_node|exists demo_node|discriminate E].
  - rewrite Ht. split_and!; [reflexivity|done|done|done].
  - injection E as <- _. rewrite Ht. split_and!; [reflexivity|done|done|done].
Qed.

Lemma vfs_exec_authorised_witness :
  ∃ f st' g, vfs_exec guest 18 (OpSafeWrite (str "/b.txt") (str "hi")) demo = (Ok tt, st') ∧
    mounted Superblock_new (cool st') g ∧ relations.rtc (auth_step guest) (tree Superblock_new f) (tree Superblock_new g).
Proof.
  destruct demo_mounted as (f & Hm & _). exists f.
  apply (vfs_exec_authorised window_ok Superblock_new Superblock_new_wf guest 18 (OpSafeWrite (str "/b.txt") (str "hi")) demo f guest_ok);
    [by repeat constructor|exact Hm].
Defined.

(** Guest tries to overwrite, delete, rename and take over the file. *)
Definition by_guest (op : vfs_op) : task_op := {| t_creds := guest; t_umask := 18; t_op := op |}.
Definition attack : list task_op :=
  [by_guest (OpWrite (str "/a.txt") (str "x")); by_guest (OpDelete (str "/a.txt"));
   by_guest (OpRename (str "/a.txt") (str "b.txt")); by_guest (OpChmod (str "/a.txt") 511);
   by_guest (OpChown (str "/a.txt") 1001 1001); by_guest (OpDeleteRecursive 4096 (str "/a.txt"))].

Lemma vfs_integrity_witness :
  ∃ f st' g, vfs_run attack demo = (Ok tt, st') ∧ mounted Superblock_new (cool st') g ∧
    tree Superblock_new g [str "a.txt"] = tree Superblock_new f [str "a.txt"].
Proof.
  destruct demo_mounted as (f & Hm & Ht). exists f. pose proof (demo_protected f Ht) as Hp.
  apply (vfs_integrity window_ok Superblock_new Superblock_new_wf attack demo f [str "a.txt"] Hm).
  unfold attack.
  repeat (apply Forall_cons_2; [refine (conj guest_ok (conj _ Hp)); first [exact I|done|by repeat constructor]|]). apply Forall_nil_2.
Defined.

Lemma vfs_delete_recursive_correct_witness :
  ∃ f r st' g, vfs_delete_recursive kernel_credentials 4096 (str "/a.txt") demo = (r, st') ∧ mounted Superblock_new (cool st') g ∧
    r ≠ Err None ∧
    (∀ q, tree Superblock_new g q = tree Superblock_new f q ∨
          (tree Superblock_new g q = None ∧ under (path_parts (str "/a.txt")) q)) ∧
    (r = Ok tt → ∀ r', tree Superblock_new g (path_parts (str "/a.txt") ++ r') = None).
Proof.
  destruct demo_mounted as (f & Hm & _). exists f.
  exact (vfs_delete_recursive_correct window_ok Superblock_new Superblock_new_wf kernel_credentials 4096 (str "/a.txt") demo f Hm
    eq_refl ltac:(by vm_compute)).
Defined.

Lemma vfs_read_file_correct_witness :
  ∃ f r st', vfs_read_file guest (str "/x/../a.txt") demo = (r, st') ∧ mounted Superblock_new (cool st') f ∧
    r = match tree Superblock_new f (path_parts (str "/x/../a.txt")) with
        | Some n => if is_file_node n && node_read guest n then Ok (n_data n) else Err tt
        | None => Err tt
        end.
Proof.
  destruct demo_mounted as (f & Hm & _). exists f.
  exact (vfs_read_file_correct window_ok Superblock_new Superblock_new_wf guest (str "/x/../a.txt") demo f Hm eq_refl).
Defined.

Lemma vfs_copy_file_correct_witness :
  ∃ f r st' g, vfs_copy_file kernel_credentials 18 (str "/a.txt") (str "/b.txt") demo = (r, st') ∧ mounted Superblock_new (cool st') g ∧
    copied kernel_credentials 18 (path_parts (str "/a.txt")) (path_parts (str "/b.txt")) (tree Superblock_new f) r (tree Superblock_new g).
Proof.
  destruct demo_mounted as (f & Hm & _). exists f.
  exact (vfs_copy_file_correct window_ok Superblock_new Superblock_new_wf kernel_credentials 18 (str "/a.txt") (str "/b.txt") demo f Hm
    ltac:(done) eq_refl eq_refl).
Defined.

Lemma vfs_rename_path_correct_witness :
  ∃ f r st' g, vfs_rename_path kernel_credentials 18 (str "/a.txt") (str "/d/b.txt") demo = (r, st') ∧ mounted Superblock_new (cool st') g ∧
    if decide ([] = [str "d"]) then renamed ([] ++ [str "a.txt"]) ([str "d"] ++ [str "b.txt"]) (tree Superblock_new f) r (tree Superblock_new g)
    else moved_file kernel_credentials 18 ([] ++ [str "a.txt"]) ([str "d"] ++ [str "b.txt"]) (tree Superblock_new f) r (tree Superblock_new g).
Proof.
  destruct demo_mounted as (f & Hm & _). exists f.
  exact (vfs_rename_path_correct window_ok Superblock_new Superblock_new_wf kernel_credentials 18 (str "/a.txt") (str "/d/b.txt")
    [] (str "a.txt") [str "d"] (str "b.txt") demo f Hm ltac:(done) eq_refl eq_refl eq_refl eq_refl).
Defined.

(** ** Home directories *)
(** The home of root, owner-only as [ensure_home_dirs] makes it, with a file. *)
Definition home_setup : ST (Fs (Storage ramdisk) unit) FsError unit :=
  create_dir_for (str "/Users") ROOT_UID ROOT_GID DEFAULT_DIR_MODE ;;!
  create_dir_for (str "/Users/root") USER_UID USER_GID 0x1c0 ;;!
  create_file_for (str "/Users/root/n.txt") USER_UID USER_GID DEFAULT_FILE_MODE ;;!
  write_file_unchecked (str "/Users/root/n.txt") (str "secret").

(** An owner-only home directory does not protect what is in it: the
    checks of an operation look at the node itself (and, for changes, at its
    directory) but never ask for the search permission of the directories on
    the way.  Guest cannot list root's home directory, mode 700, but reads the
    file in it. *)
Theorem home_not_private :
  let (r, st) := home_setup {| cool := formatted; fat := tt |} in
  r = Ok tt ∧ fst (vfs_list_dir guest (str "/Users/root") st) = Err tt ∧
  fst (vfs_read_file guest (str "/Users/root/n.txt") st) = Ok (str "secret").
Proof. vm_compute. split_and!; reflexivity. Qed.
End demo.
