(* ===== verification/Elf.v ===== *)
(** * Loading programs (src/src/elf.rs)

    A program file is an ELF image: a header, program headers, and segments that
    are copied to pages of a new address space, beside a stack whose top page holds
    the arguments.  Headers are read from the bytes of the file; the stack is
    written through the physical address of its top frame. *)
From stdpp Require Import functions.
From S2P Require Import Prelude Storage Text Paths Security BlockCache CoolImage CoolFs Vfs UserLayout FrameAlloc Vmm.

Local Open Scope Z_scope.
Local Open Scope st_scope.

Inductive ExecError :=
| ENotFound | EPermissionDenied | EInvalidElf (msg : bytes) | EOutOfMemory | EMapFailed (msg : bytes)
| EFdInstallFailed | ESchedulerBusy | EResourceLimit.

(** ** Headers *)
Definition ELF_MAGIC : bytes := [0x7f; 69; 76; 70].
Definition ELFCLASS64 : Z := 2.
Definition ELFDATA2LSB : Z := 1.
Definition EV_CURRENT : Z := 1.
Definition ET_EXEC : Z := 2.
Definition EM_X86_64 : Z := 62.
Definition PT_LOAD : Z := 1.
Definition PF_X : Z := 1.
Definition PF_W : Z := 2.
Definition USER_CANONICAL_LIMIT : Z := 0x800000000000.

Record Elf64Header := { e_ident : bytes; e_type : Z; e_machine : Z; e_version : Z; e_entry : Z; e_phoff : Z; e_phentsize : Z; e_phnum : Z }.
Record Elf64ProgramHeader := { p_type : Z; p_flags : Z; p_offset : Z; p_vaddr : Z; p_filesz : Z; p_memsz : Z; p_align : Z }.
Record LoadedImage := { li_pml4 : Z; li_entry : Z; li_user_rsp : Z }.

(** The [n]-byte field at [off], and [read_struct] of the two headers. *)
Definition field (bs : bytes) (off n : Z) : Z := le_val (slice bs off n).
Definition read_header (bs : bytes) (offset : Z) : option Elf64Header :=
  stop ← checked_add 64 offset 64;
  if len bs <? stop then None else
  Some {| e_ident := slice bs offset 16; e_type := field bs (offset + 16) 2; e_machine := field bs (offset + 18) 2;
          e_version := field bs (offset + 20) 4; e_entry := field bs (offset + 24) 8; e_phoff := field bs (offset + 32) 8;
          e_phentsize := field bs (offset + 54) 2; e_phnum := field bs (offset + 56) 2 |}.
Definition read_program_header (bs : bytes) (offset : Z) : option Elf64ProgramHeader :=
  stop ← checked_add 64 offset 56;
  if len bs <? stop then None else
  Some {| p_type := field bs offset 4; p_flags := field bs (offset + 4) 4; p_offset := field bs (offset + 8) 8;
          p_vaddr := field bs (offset + 16) 8; p_filesz := field bs (offset + 32) 8; p_memsz := field bs (offset + 40) 8;
          p_align := field bs (offset + 48) 8 |}.

Definition invalid {A} (msg : bytes) : result ExecError A := Err (EInvalidElf msg).
Definition parse_header (image : bytes) : result ExecError Elf64Header :=
  match read_header image 0 with
  | None => invalid (str "truncated ELF header")
  | Some h =>
      if negb (bool_decide (slice (e_ident h) 0 4 = ELF_MAGIC)) then invalid (str "bad ELF magic") else
      if negb (nthZ (e_ident h) 4 =? ELFCLASS64) then invalid (str "expected ELF64") else
      if negb (nthZ (e_ident h) 5 =? ELFDATA2LSB) then invalid (str "expected little-endian ELF") else
      if negb (e_type h =? ET_EXEC) then invalid (str "expected ET_EXEC") else
      if negb (e_machine h =? EM_X86_64) then invalid (str "expected x86_64 ELF") else
      if negb (e_version h =? EV_CURRENT) then invalid (str "unsupported ELF version") else
      if negb (e_phentsize h =? 56) then invalid (str "unexpected program header size") else
      if USER_CANONICAL_LIMIT <=? e_entry h then invalid (str "entry point must be in user space") else
      match checked_add 64 (e_phoff h) (e_phentsize h * e_phnum h) with
      | None => invalid (str "program header table overflow")
      | Some ph_table_end => if len image <? ph_table_end then invalid (str "truncated program header table") else Ok h
      end
  end.

(** ** Segments *)
Definition align_down (value align : Z) : Z := Z.land value (Z.lnot (align - 1)).
Definition align_up (value align : Z) : Z := Z.land (value + align - 1) (Z.lnot (align - 1)).
Definition ranges_overlap (a_start a_end b_start b_end : Z) : bool := (a_start <? b_end) && (b_start <? a_end).
Definition is_power_of_two (v : Z) : bool := (0 <? v) && (Z.land v (v - 1) =? 0).

Definition validate_load_segment (ph : Elf64ProgramHeader) (image_len : Z) : result ExecError unit :=
  if p_memsz ph <? p_filesz ph then invalid (str "PT_LOAD filesz exceeds memsz") else
  if (1 <? p_align ph) && negb (is_power_of_two (p_align ph)) then invalid (str "PT_LOAD align is not a power of two") else
  if (PAGE_SIZE <=? p_align ph) && negb (Z.land (p_vaddr ph) (PAGE_SIZE - 1) =? Z.land (p_offset ph) (PAGE_SIZE - 1))
  then invalid (str "PT_LOAD offset/address misaligned") else
  if USER_CANONICAL_LIMIT <=? p_vaddr ph then invalid (str "PT_LOAD address must be in user space") else
  match checked_add 64 (p_offset ph) (p_filesz ph) with
  | None => invalid (str "PT_LOAD file range overflow")
  | Some file_end =>
      if image_len <? file_end then invalid (str "PT_LOAD exceeds file size") else
      match checked_add 64 (p_vaddr ph) (p_memsz ph) with
      | None => invalid (str "PT_LOAD memory range overflow")
      | Some mem_end =>
          if USER_CANONICAL_LIMIT <=? mem_end then invalid (str "PT_LOAD extends outside user space") else
          if mem_end <=? p_vaddr ph then invalid (str "PT_LOAD empty memory range") else Ok tt
      end
  end.

Definition load_flags (ph : Elf64ProgramHeader) : Z :=
  let fl := Z.lor PRESENT USER_ACCESSIBLE in
  let fl := if Z.land (p_flags ph) PF_W =? 0 then fl else Z.lor fl WRITABLE in
  if Z.land (p_flags ph) PF_X =? 0 then Z.lor fl NO_EXECUTE else fl.

(** The bytes of the file that belong to a page, put into its frame. *)
Definition copy_page_data (image : bytes) (ph : Elf64ProgramHeader) (page frame : Z) (v : Vmm) : Vmm :=
  if p_filesz ph =? 0 then v else
  let file_end_va := p_vaddr ph + p_filesz ph in
  let copy_start := Z.max page (p_vaddr ph) in
  let copy_end := Z.min (page + PAGE_SIZE) file_end_va in
  if copy_end <=? copy_start then v else
  let src_off := p_offset ph + (copy_start - p_vaddr ph) in
  set_mem (<[frame := splice (v_mem v frame) (copy_start - page) (slice image src_off (copy_end - copy_start))]> (v_mem v)) v.

Section Load.
Context {MP : Mapper}.

(** A page of its own: [fill] writes to the frame before it is mapped. *)
Definition map_new_page (pml4 va flags : Z) (fill : Z → Vmm → Vmm) : ST Vmm ExecError Z := λ v,
  match alloc_zeroed_frame v with
  | (None, v) => (Err EOutOfMemory, v)
  | (Some frame, v) =>
      match map_owned_frame_in pml4 va frame flags (fill frame v) with
      | (Err e, v) => (Err (EMapFailed e), free_unmapped_frame frame v)
      | (Ok _, v) => (Ok frame, v)
      end
  end.

Definition map_load_segment (image : bytes) (ph : Elf64ProgramHeader) (pml4 : Z) : ST Vmm ExecError unit := λ v,
  let seg_start := align_down (p_vaddr ph) PAGE_SIZE in
  match checked_add 64 (p_vaddr ph) (p_memsz ph) with
  | None => (invalid (str "segment end overflow"), v)
  | Some stop =>
      let seg_end := align_up stop PAGE_SIZE in
      for_each (λ offset, map_new_page pml4 (seg_start + offset) (load_flags ph) (copy_page_data image ph (seg_start + offset)) ;;! ret tt)
        (page_offsets (seg_end - seg_start)) v
  end.

(** The loop over the program headers [i], [i + 1], ...: whether a segment was seen,
    and the ranges taken. *)
Fixpoint load_loop (image : bytes) (h : Elf64Header) (pml4 : Z) (idx : list Z) (saw_load : bool) (ranges : list (Z * Z)) : ST Vmm ExecError bool := λ v,
  match idx with
  | [] => (Ok saw_load, v)
  | i :: idx =>
      match read_program_header image (e_phoff h + i * e_phentsize h) with
      | None => (invalid (str "truncated program header"), v)
      | Some ph =>
          if negb (p_type ph =? PT_LOAD) || (p_memsz ph =? 0) then load_loop image h pml4 idx saw_load ranges v else
          match validate_load_segment ph (len image) with
          | Err e => (Err e, v)
          | Ok _ =>
              match checked_add 64 (p_vaddr ph) (p_memsz ph) with
              | None => (invalid (str "segment end overflow"), v)
              | Some stop =>
                  let start := align_down (p_vaddr ph) PAGE_SIZE in
                  let stop := align_up stop PAGE_SIZE in
                  if existsb (λ r, ranges_overlap start stop r.1 r.2) ranges then (invalid (str "overlapping PT_LOAD segments"), v) else
                  if ranges_overlap start stop (USER_STACK_BOTTOM - PAGE_SIZE) USER_STACK_TOP then (invalid (str "PT_LOAD overlaps user stack"), v) else
                  (map_load_segment image ph pml4 ;;! load_loop image h pml4 idx true (ranges ++ [(start, stop)])) v
              end
          end
      end
  end.
Definition load_segments (image : bytes) (h : Elf64Header) (pml4 : Z) : ST Vmm ExecError unit :=
  let! saw_load := load_loop image h pml4 (seqZ 0 (e_phnum h)) false [] in
  lift_result (if saw_load then Ok tt else invalid (str "ELF has no PT_LOAD segments")).

(** ** The initial stack *)
Definition MAX_ARGV : nat := 8.
(** The strings, last first: each is pushed below [rsp], with a zero after it. *)
Fixpoint push_strings (frame base : Z) (args : list bytes) (rsp : Z) (ptrs : list Z) (m : Mem) : Z * list Z * Mem :=
  match args with
  | [] => (rsp, ptrs, m)
  | arg :: args =>
      let rsp := rsp - (len arg + 1) in
      let m := store_bytes (frame + (rsp - base)) arg m in
      let m := store_byte (frame + (rsp + len arg - base)) 0 m in
      push_strings frame base args rsp (rsp :: ptrs) m
  end.
(** 64-bit words, one below the other *)
Fixpoint push_words (frame base : Z) (ws : list Z) (rsp : Z) (m : Mem) : Z * Mem :=
  match ws with
  | [] => (rsp, m)
  | w :: ws => push_words frame base ws (rsp - 8) (store_bytes (frame + (rsp - 8 - base)) (le_bytes 8 w) m)
  end.
Definition build_initial_stack (top_frame : Z) (argv0 : bytes) (args : list bytes) : ST Vmm ExecError Z := λ v,
  let stack_page_base := USER_STACK_TOP - PAGE_SIZE in
  let argv := argv0 :: args in
  let argc := len argv in
  let strings_bytes := foldr (λ arg n, len arg + 1 + n) 0 argv in
  let pointer_bytes := (argc + 3) * 8 in
  if PAGE_SIZE <? strings_bytes + pointer_bytes then (invalid (str "argv too large for initial stack page"), v) else
  if Z.of_nat MAX_ARGV <? argc then (invalid (str "too many argv entries"), v) else
  let '(rsp, argv_ptrs, m) := push_strings top_frame stack_page_base (rev argv) USER_STACK_TOP [] (v_mem v) in
  let rsp := Z.land rsp (Z.lnot 0xf) in
  let padding := if (argc + 3) mod 2 =? 0 then [] else [0] in
  let '(rsp, m) := push_words top_frame stack_page_base (padding ++ [0; 0] ++ rev argv_ptrs ++ [argc]) rsp m in
  (Ok rsp, set_mem m v).

Definition STACK_FLAGS : Z := Z.lor PRESENT (Z.lor WRITABLE (Z.lor USER_ACCESSIBLE NO_EXECUTE)).
(** The pages of the stack; the frame of the last one. *)
Fixpoint map_stack_pages (pml4 : Z) (offs : list Z) (top : option Z) : ST Vmm ExecError (option Z) :=
  match offs with
  | [] => ret top
  | offset :: offs =>
      let! frame := map_new_page pml4 (USER_STACK_BOTTOM + offset) STACK_FLAGS (λ _ v, v) in
      map_stack_pages pml4 offs (if offset + PAGE_SIZE =? USER_STACK_SIZE then Some frame else top)
  end.
Definition map_user_stack (pml4 : Z) (argv0 : bytes) (args : list bytes) : ST Vmm ExecError Z :=
  let! top_frame := map_stack_pages pml4 (page_offsets USER_STACK_SIZE) None in
  map_new_page pml4 (USER_STACK_BOTTOM - PAGE_SIZE) (Z.lor PRESENT NO_EXECUTE) (λ _ v, v) ;;!
  let! top_frame := lift_option EOutOfMemory top_frame in
  build_initial_stack top_frame argv0 args.

(** ** Images *)
(** From the bytes of the file on. *)
Definition load_image (path : bytes) (args : list bytes) (image : bytes) : ST Vmm ExecError LoadedImage := λ v,
  match parse_header image with
  | Err e => (Err e, v)
  | Ok h =>
      match new_process_pml4 v with
      | (None, v) => (Err EOutOfMemory, v)
      | (Some pml4, v) =>
          let loaded :=
            (let! user_rsp := map_user_stack pml4 path args in
             load_segments image h pml4 ;;!
             ret {| li_pml4 := pml4; li_entry := e_entry h; li_user_rsp := user_rsp |}) in
          match loaded v with
          | (Err e, v) => (Err e, free_address_space pml4 v)
          | (Ok li, v) => (Ok li, v)
          end
      end
  end.

Context {V F : Type} `{SectorStore V} `{Fat32 F}.
Definition exec_error (e : FsError) : ExecError :=
  match e with NotFound => ENotFound | PermissionDenied => EPermissionDenied | _ => EInvalidElf (str "cannot execute path") end.
Definition load_elf_image_with_args (creds : Credentials) (path : bytes) (args : list bytes) : ST (Fs V F * Vmm) ExecError LoadedImage := λ '(fs, v),
  match vfs_check_execute creds path fs with
  | (Err e, fs) => (Err (exec_error e), (fs, v))
  | (Ok _, fs) =>
      match vfs_read_file creds path fs with
      | (Err _, fs) => (Err ENotFound, (fs, v))
      | (Ok image, fs) => let (r, v) := load_image path args image v in (r, (fs, v))
      end
  end.
End Load.
