(* ===== verification/ElfLoad.v ===== *)
(** * Loading segments and the stack

    What the pages of a loaded program hold, and what a load that fails gives
    back. *)
From stdpp Require Import gmap functions.
From S2P Require Import Prelude UserLayout FrameAlloc Vmm VmmMem VmmInv VmmMap VmmOps VmmAccess VmmSpaces Elf.
Set Warnings "-clear-no-such-hyp".

Local Open Scope Z_scope.

Lemma align_down_page a : align_down a PAGE_SIZE = page_down a.
Proof. apply land_lnot_page. Qed.
Lemma align_up_page a : align_up a PAGE_SIZE = page_down (a + 4095).
Proof. rewrite <-align_down_page. unfold align_up, align_down, PAGE_SIZE. f_equal. lia. Qed.

(** ** The bytes of a segment *)
Definition seg_byte (image : bytes) (ph : Elf64ProgramHeader) (a : Z) : Z :=
  if (p_vaddr ph <=? a) && (a <? p_vaddr ph + p_filesz ph) then nthZ image (p_offset ph + (a - p_vaddr ph)) else 0.
Definition seg_page (image : bytes) (ph : Elf64ProgramHeader) (page : Z) : bytes := map (λ k, seg_byte image ph (page + k)) (seqZ 0 PAGE_SIZE).

Lemma len_seg_page image ph page : len (seg_page image ph page) = PAGE_SIZE.
Proof. unfold seg_page, len. rewrite length_map, length_seqZ, Z2Nat.id; done. Qed.
Lemma nthZ_seg_page image ph page i : 0 ≤ i < PAGE_SIZE → nthZ (seg_page image ph page) i = seg_byte image ph (page + i).
Proof.
  intros Hi. unfold nthZ, seg_page. rewrite nth_lookup. rewrite list_lookup_fmap, lookup_seqZ_lt by lia. cbn. f_equal. lia.
Qed.
Lemma seg_page_ok image ph page : Forall is_byte image → page_ok (seg_page image ph page).
Proof.
  intros Hb. split; [apply len_seg_page|]. apply Forall_forall. intros x (k & -> & _)%list_elem_of_fmap. unfold seg_byte. case_match; [by apply nthZ_is_byte|done].
Qed.

Lemma copy_page_bytes image ph page : p_offset ph + p_filesz ph ≤ len image → 0 ≤ p_offset ph → 0 ≤ p_filesz ph →
  let copy_start := Z.max page (p_vaddr ph) in let copy_end := Z.min (page + PAGE_SIZE) (p_vaddr ph + p_filesz ph) in
  if copy_end <=? copy_start then seg_page image ph page = zeros PAGE_SIZE
  else splice (zeros PAGE_SIZE) (copy_start - page) (slice image (p_offset ph + (copy_start - p_vaddr ph)) (copy_end - copy_start)) = seg_page image ph page.
Proof.
  intros Hf Ho Hs cs ce. assert (Hz : len (zeros PAGE_SIZE) = PAGE_SIZE) by (by apply len_zeros). destruct (Z.leb_spec ce cs).
  - apply nthZ_ext; [by rewrite len_seg_page, Hz|]. rewrite len_seg_page. intros i Hi. rewrite nthZ_seg_page, nthZ_zeros by done. unfold seg_byte.
    destruct (Z.leb_spec (p_vaddr ph) (page + i)); [|done]. destruct (Z.ltb_spec (page + i) (p_vaddr ph + p_filesz ph)); [lia|done].
  - assert (Hl : len (slice image (p_offset ph + (cs - p_vaddr ph)) (ce - cs)) = ce - cs) by (apply len_slice; lia).
    apply nthZ_ext; [rewrite len_splice, len_seg_page, Hz; [done|lia|rewrite Hl, Hz; lia]|]. rewrite len_splice, Hz by (rewrite ?Hl, ?Hz; lia). intros i Hi.
    rewrite nthZ_splice, nthZ_seg_page, Hl by (rewrite ?Hl, ?Hz; lia). unfold seg_byte.
    destruct (Z.leb_spec (cs - page) i), (Z.ltb_spec i (cs - page + (ce - cs))), (Z.leb_spec (p_vaddr ph) (page + i)), (Z.ltb_spec (page + i) (p_vaddr ph + p_filesz ph));
      simpl; try lia; try (by rewrite nthZ_zeros). rewrite nthZ_slice by lia. f_equal. lia.
Qed.

(** ** Segments of a file *)
Definition loadable (ph : Elf64ProgramHeader) : bool := (p_type ph =? PT_LOAD) && negb (p_memsz ph =? 0).
Definition seg_start (ph : Elf64ProgramHeader) : Z := page_down (p_vaddr ph).
Definition seg_end (ph : Elf64ProgramHeader) : Z := page_down (p_vaddr ph + p_memsz ph + 4095).
(** The pages of a segment, and of the program headers [idx]. *)
Definition seg_pages (ph : Elf64ProgramHeader) : list Z := map (λ o, seg_start ph + o) (page_offsets (seg_end ph - seg_start ph)).
Definition segment (image : bytes) (h : Elf64Header) (i : Z) : option Elf64ProgramHeader := read_program_header image (e_phoff h + i * e_phentsize h).
Definition image_pages (image : bytes) (h : Elf64Header) (idx : list Z) : list Z :=
  mjoin (map (λ i, match segment image h i with Some ph => if loadable ph then seg_pages ph else [] | None => [] end) idx).
(** All of the segment lies below the two user roots. *)
Definition seg_in_user (ph : Elf64ProgramHeader) : Prop := ∀ a, seg_start ph ≤ a < seg_end ph → user_root (pt_index 4 a).

Lemma segment_nonneg image h i ph : Forall is_byte image → segment image h i = Some ph → 0 ≤ p_offset ph ∧ 0 ≤ p_filesz ph ∧ 0 ≤ p_vaddr ph ∧ 0 ≤ p_memsz ph.
Proof.
  intros Hb. unfold segment, read_program_header. destruct (checked_add _ _ _); [|done]. cbn [mbind option_bind]. case_match; [done|]. intros [= <-].
  cbn [p_offset p_filesz p_vaddr p_memsz]. unfold field. split_and!; by apply le_val_bound, slice_is_byte.
Qed.
(** What [validate_load_segment] lets pass. *)
Lemma validate_spec ph n : 0 ≤ p_vaddr ph → validate_load_segment ph n = Ok tt →
  p_filesz ph ≤ p_memsz ph ∧ p_offset ph + p_filesz ph ≤ n ∧ p_vaddr ph + p_memsz ph < USER_CANONICAL_LIMIT ∧ 0 < p_memsz ph ∧
  checked_add 64 (p_vaddr ph) (p_memsz ph) = Some (p_vaddr ph + p_memsz ph).
Proof.
  intros Hv. unfold validate_load_segment, checked_add. do 4 (case_if; [done|]). destruct (Z.ltb_spec (p_offset ph + p_filesz ph) (2 ^ 64)); [|done].
  case_if; [done|]. destruct (Z.ltb_spec (p_vaddr ph + p_memsz ph) (2 ^ 64)); [|done]. do 2 (case_if; [done|]). intros _. zbool. split_and!; [lia..|done].
Qed.
Lemma seg_bounds ph a : 0 ≤ p_vaddr ph → p_vaddr ph + p_memsz ph < USER_CANONICAL_LIMIT → seg_start ph ≤ a < seg_end ph → 0 ≤ a < 2 ^ 48.
Proof.
  unfold seg_start, seg_end, USER_CANONICAL_LIMIT. pose proof (page_down_bounds (p_vaddr ph)). pose proof (page_down_bounds (p_vaddr ph + p_memsz ph + 4095)).
  intros Hv. assert (0 ≤ page_down (p_vaddr ph)) by (unfold page_down, PAGE_SIZE; pose proof (Z.mod_le (p_vaddr ph) 4096); lia).
  unfold PAGE_SIZE in *. lia.
Qed.
Lemma seg_aligned ph : seg_start ph mod PAGE_SIZE = 0 ∧ seg_end ph mod PAGE_SIZE = 0 ∧ (seg_end ph - seg_start ph) mod PAGE_SIZE = 0.
Proof.
  destruct (page_down_bounds (p_vaddr ph)) as [_ H1]. destruct (page_down_bounds (p_vaddr ph + p_memsz ph + 4095)) as [_ H2].
  unfold seg_start, seg_end. split_and!; [done|done|]. by rewrite Zminus_mod, H1, H2.
Qed.
Lemma seg_span ph : 0 < p_memsz ph → seg_start ph ≤ p_vaddr ph ∧ p_vaddr ph + p_memsz ph ≤ seg_end ph ∧ 0 ≤ seg_end ph - seg_start ph.
Proof.
  destruct (page_down_bounds (p_vaddr ph)) as [H1 _]. destruct (page_down_bounds (p_vaddr ph + p_memsz ph + 4095)) as [H2 _].
  unfold seg_start, seg_end, PAGE_SIZE in *. lia.
Qed.
Lemma elem_of_seg_pages ph a : 0 < p_memsz ph → page_down a ∈ seg_pages ph ↔ seg_start ph ≤ a < seg_end ph.
Proof.
  intros Hm. destruct (seg_aligned ph) as (A1 & A2 & A3). pose proof (seg_span ph Hm). unfold seg_pages. rewrite page_in_offsets by (done || lia). lia.
Qed.

(** ** Pages *)
Definition no_map_fail {A} (r : result ExecError A) : Prop := match r with Err (EMapFailed _) => False | _ => True end.

Section Load.
Context {MP : Mapper} {MS : MapperSpec}.

Lemma map_new_page_ok p va flags fill d v g r v' : vmm_ok v g → flags_ok flags → g_perm g flags → live p v → user_root (pt_index 4 va) → 0 ≤ va < 2 ^ 48 →
  (∀ f v1, taken p v g f (zeros PAGE_SIZE) v1 → taken p v g f d (fill f v1)) → map_new_page p va flags fill v = (r, v') →
  ∃ g', after p v g v' g' ∧ (no_map_fail r → g_lost g' ≡ₚ g_lost g) ∧ adds p [page_down va] v v' ∧
    match r with Ok f => ¬ kept v g f ∧ placed p va flags f d v' | Err _ => True end.
Proof.
  intros H F Fp HL HR Hva Hfill. unfold map_new_page. destruct (alloc_zeroed_frame v) as [[f|] v1] eqn:E.
  - pose proof (Hfill f v1 (alloc_zeroed_taken p v g f v1 H E)) as T. destruct (map_owned_frame_in p va f flags (fill f v1)) as [r2 v2] eqn:E2.
    destruct (taken_map p v g va f flags d (fill f v1) r2 v2 T F Fp HL HR Hva E2) as (g' & Hl & A & X).
    destruct r2; intros [= <- <-]; exists g'; simpl in *.
    + destruct X. split_and!; [done|auto|done|apply T|done].
    + split_and!; [done|done| |done]. eapply adds_mono; [by intros x ?%elem_of_nil|]. unfold free_unmapped_frame. by destruct (v_alloc v2).
  - intros [= <- <-]. exists g. split_and!; [by eapply alloc_none_after|done| |done]. eapply adds_mono; [by intros x ?%elem_of_nil|].
    apply adds_eq. destruct (alloc_zeroed_none v g v1 H E) as (_ & ? & _). done.
Qed.

Lemma copy_page_taken image ph page p v g f v1 : Forall is_byte image → p_offset ph + p_filesz ph ≤ len image → 0 ≤ p_offset ph → 0 ≤ p_filesz ph →
  taken p v g f (zeros PAGE_SIZE) v1 → taken p v g f (seg_page image ph page) (copy_page_data image ph page f v1).
Proof.
  intros Hb Hf Ho Hs T. pose proof (copy_page_bytes image ph page Hf Ho Hs) as HC. cbn zeta in HC. unfold copy_page_data.
  destruct (Z.eqb_spec (p_filesz ph) 0) as [E|].
  { rewrite E in HC. destruct (Z.leb_spec (Z.min (page + PAGE_SIZE) (p_vaddr ph + 0)) (Z.max page (p_vaddr ph))); [by rewrite HC|lia]. }
  destruct (Z.leb_spec (Z.min (page + PAGE_SIZE) (p_vaddr ph + p_filesz ph)) (Z.max page (p_vaddr ph))); [by rewrite HC|].
  rewrite (tk_data _ _ _ _ _ _ T), HC. eapply taken_fill; [exact T|by apply seg_page_ok].
Qed.

Lemma after_env p v g v' g' : after p v g v' g' → g_env g' = g_env g.
Proof. intros A. apply A. Qed.
Lemma after_ok p v g v' g' : after p v g v' g' → vmm_ok v' g'.
Proof. intros A. apply A. Qed.
Lemma after_live p q v g v' g' : after p v g v' g' → live q v → live q v'.
Proof. intros A. apply live_roots. apply A. Qed.
Lemma placed_after p va flags f d q v g v' g' : vmm_ok v g → user_root (pt_index 4 va) → flags_ok flags → after q v g v' g' → placed p va flags f d v → placed p va flags f d v'.
Proof. intros H HR F A X. eapply placed_progress; [exact H|done|apply A|done|done|]. eapply owns_frame_ok; [exact H|apply X]. Qed.

Lemma load_pages_ok image ph p start offs : Forall is_byte image → p_offset ph + p_filesz ph ≤ len image → 0 ≤ p_offset ph → 0 ≤ p_filesz ph → ∀ v g r v',
  vmm_ok v g → flags_ok (load_flags ph) → g_perm g (load_flags ph) → live p v → Forall (λ o, user_root (pt_index 4 (start + o)) ∧ 0 ≤ start + o < 2 ^ 48) offs →
  for_each (λ offset, bind (map_new_page p (start + offset) (load_flags ph) (copy_page_data image ph (start + offset))) (λ _, ret tt)) offs v = (r, v') →
  ∃ g', after p v g v' g' ∧ (no_map_fail r → g_lost g' ≡ₚ g_lost g) ∧ adds p (map (λ o, page_down (start + o)) offs) v v' ∧
    (is_ok r = true → ∀ o, o ∈ offs → ∃ f, placed p (start + o) (load_flags ph) f (seg_page image ph (start + o)) v').
Proof.
  intros Hb Hf Ho Hs. induction offs as [|o offs IH]; intros v g r v' H F Fp HL HR.
  - intros [= <- <-]. exists g. split_and!; [by apply after_refl|done|by apply adds_eq|]. by intros _ o ?%elem_of_nil.
  - cbn [for_each]. apply Forall_cons in HR as [[HR1 HB1] HR2]. unfold bind at 1 2. destruct (map_new_page p (start + o) (load_flags ph) _ v) as [r1 v1] eqn:E.
    destruct (map_new_page_ok p (start + o) (load_flags ph) (copy_page_data image ph (start + o)) (seg_page image ph (start + o)) v g r1 v1 H F Fp HL HR1 HB1) as (g1 & A1 & L1 & D1 & X1);
      [intros f v0 T; by apply copy_page_taken|exact E|].
    destruct r1 as [f|e]; simpl.
    2:{ intros [= <- <-]. exists g1. split_and!; [done|done| |done]. eapply adds_mono; [|done]. intros x ->%list_elem_of_singleton. left. }
    intros E2. destruct (IH v1 g1 r v' (after_ok _ _ _ _ _ A1) F (perm_env _ _ _ (after_env _ _ _ _ _ A1) Fp) (after_live _ _ _ _ _ _ A1 HL) HR2 E2) as (g2 & A2 & L2 & D2 & X2).
    exists g2. split_and!; [by eapply after_trans|intros Hn; by rewrite L2, L1|exact (adds_trans p [_] _ v v1 v' (pr_roots _ _ _ _ _ (af_progress _ _ _ _ _ A1)) D1 D2)|].
    intros Er x [->|Hx]%elem_of_cons; [|by apply X2]. exists f. eapply (placed_after p _ _ _ _ p v1 g1); [by eapply after_ok|done|done|done|apply X1].
Qed.

(** ** A segment, and all of them *)
(** Every page of the segment is in place, with its bytes. *)
Definition seg_loaded (image : bytes) (ph : Elf64ProgramHeader) (p : Z) (v : Vmm) : Prop :=
  ∀ page, page ∈ seg_pages ph → ∃ f, placed p page (load_flags ph) f (seg_page image ph page) v.

Lemma load_flags_ok ph : flags_ok (load_flags ph) ∧ Z.testbit (load_flags ph) 2 = true ∧ (Z.testbit (load_flags ph) 1 = true ↔ Z.land (p_flags ph) PF_W ≠ 0).
Proof.
  unfold load_flags. destruct (Z.eqb_spec (Z.land (p_flags ph) PF_W) 0), (Z.land (p_flags ph) PF_X =? 0); (split; [by vm_compute|split; [done|]]); vm_compute; naive_solver.
Qed.

Lemma map_load_segment_ok image ph p v g r v' : Forall is_byte image → 0 ≤ p_offset ph → 0 ≤ p_filesz ph → 0 ≤ p_vaddr ph → validate_load_segment ph (len image) = Ok tt →
  seg_in_user ph → vmm_ok v g → g_perm g (load_flags ph) → live p v → map_load_segment image ph p v = (r, v') →
  ∃ g', after p v g v' g' ∧ (no_map_fail r → g_lost g' ≡ₚ g_lost g) ∧ adds p (seg_pages ph) v v' ∧ (is_ok r = true → seg_loaded image ph p v').
Proof.
  intros Hb Ho Hs Hv Hval Hu H Fp HL. destruct (validate_spec ph (len image) Hv Hval) as (V1 & V2 & V3 & V4 & V5). unfold map_load_segment. rewrite V5.
  rewrite align_down_page, align_up_page. fold (seg_start ph) (seg_end ph). destruct (seg_aligned ph) as (A1 & A2 & A3). pose proof (seg_span ph V4) as (S1 & S2 & S3). intros E.
  assert (Hoff : ∀ o, o ∈ page_offsets (seg_end ph - seg_start ph) → seg_start ph ≤ seg_start ph + o < seg_end ph ∧ page_down (seg_start ph + o) = seg_start ph + o).
  { intros o [Hb1 Hm]%elem_of_page_offsets; [|done]. split; [lia|]. apply page_down_aligned. by rewrite Z.add_mod, A1, Hm by done. }
  destruct (load_pages_ok image ph p (seg_start ph) (page_offsets (seg_end ph - seg_start ph)) Hb V2 Ho Hs v g r v' H (proj1 (load_flags_ok ph)) Fp HL) with (2 := E) as (g' & A & L & D & X).
  { apply Forall_forall. intros o [Hb1 _]%Hoff. split; [by apply Hu|by eapply seg_bounds]. }
  exists g'. split_and!; [done|done| |].
  - eapply adds_mono; [|exact D]. intros x (o & -> & Hin)%list_elem_of_fmap. rewrite (proj2 (Hoff o Hin)). apply list_elem_of_fmap. eauto.
  - intros Er page (o & -> & Hin)%list_elem_of_fmap. by apply X.
Qed.

Lemma seg_loaded_after image ph p q v g v' g' : vmm_ok v g → seg_in_user ph → 0 < p_memsz ph → after q v g v' g' → seg_loaded image ph p v → seg_loaded image ph p v'.
Proof.
  intros H Hu Hm A X page Hpage. destruct (X page Hpage) as [f Hf]. exists f. eapply placed_after; [exact H| |apply load_flags_ok|exact A|done].
  apply Hu. apply elem_of_seg_pages; [done|]. rewrite page_down_aligned; [done|]. apply list_elem_of_fmap in Hpage as (o & -> & Ho).
  pose proof (seg_span ph Hm) as (_ & _ & S3). apply elem_of_page_offsets in Ho as [_ Ho]; [|done]. by rewrite Z.add_mod, (proj1 (seg_aligned ph)), Ho.
Qed.

Lemma load_loop_ok image h p idx : Forall is_byte image → ∀ saw ranges v g r v',
  (∀ i ph, i ∈ idx → segment image h i = Some ph → loadable ph = true → seg_in_user ph ∧ g_perm g (load_flags ph)) →
  vmm_ok v g → live p v → load_loop image h p idx saw ranges v = (r, v') →
  ∃ g', after p v g v' g' ∧ (no_map_fail r → g_lost g' ≡ₚ g_lost g) ∧ adds p (image_pages image h idx) v v' ∧
    (is_ok r = true → ∀ i, i ∈ idx → ∃ ph, segment image h i = Some ph ∧
      (loadable ph = true → validate_load_segment ph (len image) = Ok tt ∧ seg_loaded image ph p v')).
Proof.
  intros Hb. induction idx as [|i idx IH]; intros saw ranges v g r v' Hu H HL.
  - intros [= <- <-]. exists g. split_and!; [by apply after_refl|done|by apply adds_eq|]. by intros _ i ?%elem_of_nil.
  - cbn [load_loop]. fold (segment image h i). assert (Hfail : ∀ e, no_map_fail (A := bool) (Err e) → (Err e, v) = (r, v') →
      ∃ g', after p v g v' g' ∧ (no_map_fail r → g_lost g' ≡ₚ g_lost g) ∧ adds p (image_pages image h (i :: idx)) v v' ∧ (is_ok r = true → ∀ j, j ∈ i :: idx → ∃ ph, segment image h j = Some ph ∧
      (loadable ph = true → validate_load_segment ph (len image) = Ok tt ∧ seg_loaded image ph p v'))).
    { intros e _ [= <- <-]. exists g. split_and!; [by apply after_refl|done|eapply adds_mono; [|by apply adds_eq]; by intros x ?%elem_of_nil|done]. }
    destruct (segment image h i) as [ph|] eqn:Eph; [|by apply Hfail].
    assert (Hld : negb (p_type ph =? PT_LOAD) || (p_memsz ph =? 0) = negb (loadable ph)) by (unfold loadable; by destruct (p_type ph =? PT_LOAD), (p_memsz ph =? 0)).
    rewrite Hld. destruct (loadable ph) eqn:El; cbn [negb].
    2:{ intros E. destruct (IH saw ranges v g r v') as (g' & A & L & D & X); [intros j ph' Hj; apply Hu; by right|done|done|done|]. exists g'. split_and!; [done|done| |].
        - eapply adds_mono; [|exact D]. intros x Hx. unfold image_pages. rewrite mjoin_map_cons. apply elem_of_app. by right.
        - intros Er j [->|Hj]%elem_of_cons; [|by apply X]. exists ph. split; [done|]. by rewrite El. }
    destruct (segment_nonneg image h i ph Hb Eph) as (N1 & N2 & N3 & N4). destruct (validate_load_segment ph (len image)) as [[]|e] eqn:Ev.
    2:{ apply Hfail. revert Ev. clear. unfold validate_load_segment, invalid. repeat case_match; intros [= <-]; done. }
    destruct (validate_spec ph (len image) N3 Ev) as (V1 & V2 & V3 & V4 & V5). rewrite V5. case_if; [by apply Hfail|]. case_if; [by apply Hfail|]. unfold bind.
    destruct (Hu i ph ltac:(left) Eph El) as [Hin Fp].
    destruct (map_load_segment image ph p v) as [r1 v1] eqn:E1. destruct (map_load_segment_ok image ph p v g r1 v1 Hb N1 N2 N3 Ev Hin H Fp HL E1) as (g1 & A1 & L1 & D1 & X1).
    assert (D1' : ∀ v3, adds p (seg_pages ph) v v3 → adds p (image_pages image h (i :: idx)) v v3).
    { intros v3. apply adds_mono. intros x Hx. unfold image_pages. rewrite mjoin_map_cons, Eph, El. apply elem_of_app. by left. }
    destruct r1 as [[]|e]; simpl; [|intros [= <- <-]; exists g1; split_and!; [done|done|by apply D1'|done]].
    intros E2. apply (IH _ _ v1 g1) in E2 as (g2 & A2 & L2 & D2 & X2); [| |by eapply after_ok|by eapply after_live].
    2:{ intros j ph' Hj Hs Hl. destruct (Hu j ph' ltac:(by right) Hs Hl). split; [done|]. by eapply perm_env; [apply (after_env _ _ _ _ _ A1)|]. }
    exists g2. split_and!; [by eapply after_trans|intros Hn; by rewrite L2, L1| |].
    + eapply adds_mono; [|exact (adds_trans p _ _ v v1 v' (pr_roots _ _ _ _ _ (af_progress _ _ _ _ _ A1)) D1 D2)]. intros x.
      unfold image_pages. rewrite mjoin_map_cons, Eph, El. done.
    + intros Er j [->|Hj]%elem_of_cons; [|by apply X2]. exists ph. split; [done|]. intros _. split; [done|]. eapply seg_loaded_after; [exact (after_ok _ _ _ _ _ A1)|done|done|exact A2|by apply X1].
Qed.
End Load.
