(* ===== verification/ElfStack.v ===== *)
(** * The initial stack of a program

    The top page of the stack: the argument count, the pointers to the arguments,
    two null words, and the arguments themselves, each with a zero after it. *)
From stdpp Require Import gmap functions.
From S2P Require Import Prelude UserLayout FrameAlloc Vmm VmmMem VmmInv VmmMap VmmOps VmmAccess Elf ElfLoad.
Set Warnings "-clear-no-such-hyp".

Local Open Scope Z_scope.

(** ** The page *)
Definition STACK_PAGE : Z := USER_STACK_TOP - PAGE_SIZE.
Definition strings (argv : list bytes) : bytes := mjoin (map (λ a, a ++ [0]) argv).
(** The addresses of strings that begin at [start]. *)
Fixpoint addresses (start : Z) (argv : list bytes) : list Z :=
  match argv with [] => [] | a :: argv => start :: addresses (start + len a + 1) argv end.
Definition words (ws : list Z) : bytes := mjoin (map (le_bytes 8) ws).

Definition strings_at (argv : list bytes) : Z := USER_STACK_TOP - len (strings argv).
Definition stack_words (argv : list bytes) : list Z :=
  [len argv] ++ addresses (strings_at argv) argv ++ [0; 0] ++ (if (len argv + 3) mod 2 =? 0 then [] else [0]).
Definition words_end (argv : list bytes) : Z := Z.land (strings_at argv) (Z.lnot 0xf).
Definition stack_rsp (argv : list bytes) : Z := words_end argv - 8 * len (stack_words argv).
Definition stack_page (argv : list bytes) : bytes :=
  zeros (stack_rsp argv - STACK_PAGE) ++ words (stack_words argv) ++ zeros (strings_at argv - words_end argv) ++ strings argv.
(** Everything lies in the page. *)
Definition args_fit (argv : list bytes) : Prop := STACK_PAGE ≤ stack_rsp argv ∧ len argv ≤ 8.

Lemma strings_cons a argv : strings (a :: argv) = a ++ [0] ++ strings argv.
Proof. unfold strings. rewrite mjoin_map_cons, <-app_assoc. done. Qed.
Lemma strings_app l k : strings (l ++ k) = strings l ++ strings k.
Proof. unfold strings. by rewrite map_app, join_app. Qed.
Lemma addresses_app start l k : addresses start (l ++ k) = addresses start l ++ addresses (start + len (strings l)) k.
Proof.
  revert start. induction l as [|a l IH]; intros start; [by rewrite Z.add_0_r|]. cbn [app addresses]. rewrite IH, strings_cons, !len_app. do 3 f_equal.
  change (len [0]) with 1. lia.
Qed.
Lemma words_cons w ws : words (w :: ws) = le_bytes 8 w ++ words ws.
Proof. done. Qed.
Lemma words_app l k : words (l ++ k) = words l ++ words k.
Proof. unfold words. by rewrite map_app, join_app. Qed.
Lemma len_words ws : len (words ws) = 8 * len ws.
Proof. induction ws as [|w ws IH]; [done|]. rewrite words_cons, len_app, IH, len_le_bytes. unfold len. simpl. lia. Qed.
Lemma zeros_split n k : 0 ≤ k ≤ n → zeros n = zeros (n - k) ++ zeros k.
Proof. intros Hk. unfold zeros. rewrite <-replicate_add. f_equal. lia. Qed.

(** ** Stores into one frame *)
Lemma splice_top n (tail bs : bytes) : len bs ≤ n → splice (zeros n ++ tail) (n - len bs) bs = zeros (n - len bs) ++ bs ++ tail.
Proof.
  intros Hn. pose proof (len_nonneg bs). rewrite (zeros_split n (len bs)) by lia. unfold splice. rewrite <-app_assoc.
  rewrite take_app_length' by (unfold zeros; rewrite length_replicate; lia). f_equal. f_equal.
  rewrite app_assoc. rewrite drop_app_length'; [done|]. unfold zeros, len in *. rewrite length_app, !length_replicate. lia.
Qed.
Lemma store_bytes_frame f bs : f mod PAGE_SIZE = 0 → ∀ off m, 0 ≤ off → off + len bs ≤ PAGE_SIZE → len (m f) = PAGE_SIZE →
  store_bytes (f + off) bs m f = splice (m f) off bs ∧ ∀ h, h ≠ f → store_bytes (f + off) bs m h = m h.
Proof.
  intros Hf. induction bs as [|b bs IH]; intros off m Ho Hl Hm.
  - split; [|done]. unfold splice. simpl. by rewrite Nat.add_0_r, take_drop.
  - rewrite len_cons in Hl. pose proof (len_nonneg bs). cbn [store_bytes]. rewrite <-Z.add_assoc.
    assert (Hpd : page_down (f + off) = f) by (apply page_down_unique; [done|lia]).
    assert (Hs : store_byte (f + off) b m f = <[Z.to_nat off := b]> (m f)).
    { unfold store_byte. rewrite Hpd, fn_lookup_insert. do 2 f_equal. lia. }
    destruct (IH (off + 1) (store_byte (f + off) b m)) as [E1 E2]; [lia|lia|rewrite Hs; unfold len in *; by rewrite length_insert|]. split.
    + rewrite E1, Hs. unfold splice. unfold len, PAGE_SIZE in *.
      replace (Z.to_nat (off + 1)) with (S (Z.to_nat off)) by lia. rewrite (take_S_r _ _ b) by (rewrite list_lookup_insert_eq; [done|lia]).
      rewrite take_insert_ge, drop_insert_lt by lia. rewrite <-app_assoc. simpl. do 4 f_equal. lia.
    + intros h Hh. rewrite E2 by done. unfold store_byte. by rewrite Hpd, fn_lookup_insert_ne.
Qed.
Lemma store_bytes_snoc bs b : ∀ pa m, store_byte (pa + len bs) b (store_bytes pa bs m) = store_bytes pa (bs ++ [b]) m.
Proof.
  induction bs as [|x bs IH]; intros pa m; cbn [store_bytes app]; [by rewrite Z.add_0_r|]. rewrite <-IH, len_cons. f_equal. lia.
Qed.

(** The frame holds zeros and then [tail]. *)
Definition topped (f n : Z) (tail : bytes) (m : Mem) : Prop := m f = zeros n ++ tail ∧ 0 ≤ n ∧ n + len tail = PAGE_SIZE.
Lemma topped_len f n tail m : topped f n tail m → len (m f) = PAGE_SIZE.
Proof. intros (E & Hn & Hl). rewrite E, len_app, len_zeros; lia. Qed.
Lemma topped_store f n tail m bs : f mod PAGE_SIZE = 0 → topped f n tail m → len bs ≤ n →
  let m' := store_bytes (f + (n - len bs)) bs m in topped f (n - len bs) (bs ++ tail) m' ∧ ∀ h, h ≠ f → m' h = m h.
Proof.
  intros Hf T Hb m'. pose proof T as (E & Hn & Hl). pose proof (len_nonneg bs). pose proof (len_nonneg tail).
  destruct (store_bytes_frame f bs Hf (n - len bs) m) as [E1 E2]; [lia|lia|by eapply topped_len|]. split; [|done].
  split_and!; [|lia|rewrite len_app; lia]. unfold m'. by rewrite E1, E, splice_top.
Qed.

Lemma push_strings_ok f args : f mod PAGE_SIZE = 0 → ∀ rsp ptrs m tail, topped f (rsp - STACK_PAGE) tail m → len (strings (rev args)) ≤ rsp - STACK_PAGE →
  ∃ m', push_strings f STACK_PAGE args rsp ptrs m = (rsp - len (strings (rev args)), addresses (rsp - len (strings (rev args))) (rev args) ++ ptrs, m') ∧
    topped f (rsp - len (strings (rev args)) - STACK_PAGE) (strings (rev args) ++ tail) m' ∧ ∀ h, h ≠ f → m' h = m h.
Proof.
  intros Hf. induction args as [|a args IH]; intros rsp ptrs m tail T Hl.
  - exists m. cbn [rev push_strings]. rewrite Z.sub_0_r. done.
  - cbn [rev push_strings] in *. rewrite strings_app, len_app in *. change (strings [a]) with ((a ++ [0]) ++ []) in *. rewrite app_nil_r in *.
    pose proof (len_nonneg (strings (rev args))). assert (Ha : len (a ++ [0]) = len a + 1) by (rewrite len_app; done). rewrite Ha in *.
    destruct (topped_store f (rsp - STACK_PAGE) tail m (a ++ [0]) Hf T) as [T1 E1]; [lia|]. rewrite Ha in T1, E1. cbn zeta in *.
    replace (f + (rsp - (len a + 1) + len a - STACK_PAGE)) with (f + (rsp - (len a + 1) - STACK_PAGE) + len a) by lia. rewrite store_bytes_snoc.
    replace (rsp - STACK_PAGE - (len a + 1)) with (rsp - (len a + 1) - STACK_PAGE) in T1, E1 by lia. set (m1 := store_bytes _ _ m) in *.
    destruct (IH (rsp - (len a + 1)) (rsp - (len a + 1) :: ptrs) m1 ((a ++ [0]) ++ tail) T1) as (m' & E2 & T2 & E3); [lia|].
    exists m'. rewrite E2. replace (rsp - (len a + 1) - len (strings (rev args))) with (rsp - (len (strings (rev args)) + (len a + 1))) in * by lia.
    split_and!; [|by rewrite <-app_assoc|intros h Hh; by rewrite E3, E1]. f_equal. f_equal. rewrite addresses_app, <-app_assoc. do 2 f_equal. simpl. f_equal. lia.
Qed.
Lemma push_words_ok f ws : f mod PAGE_SIZE = 0 → ∀ rsp m tail, topped f (rsp - STACK_PAGE) tail m → 8 * len ws ≤ rsp - STACK_PAGE →
  ∃ m', push_words f STACK_PAGE ws rsp m = (rsp - 8 * len ws, m') ∧ topped f (rsp - 8 * len ws - STACK_PAGE) (words (rev ws) ++ tail) m' ∧ ∀ h, h ≠ f → m' h = m h.
Proof.
  intros Hf. induction ws as [|w ws IH]; intros rsp m tail T Hl.
  - exists m. cbn [rev push_words]. change (8 * len (@nil Z)) with 0. rewrite Z.sub_0_r. done.
  - cbn [rev push_words]. rewrite len_cons in *. pose proof (len_nonneg ws).
    destruct (topped_store f (rsp - STACK_PAGE) tail m (le_bytes 8 w) Hf T) as [T1 E1]; [rewrite len_le_bytes; lia|]. cbn zeta in *. rewrite len_le_bytes in T1, E1.
    replace (rsp - STACK_PAGE - Z.of_nat 8) with (rsp - 8 - STACK_PAGE) in T1, E1 by lia. set (m1 := store_bytes _ _ m) in *.
    destruct (IH (rsp - 8) m1 (le_bytes 8 w ++ tail) T1) as (m' & E2 & T2 & E3); [lia|]. exists m'. rewrite E2.
    replace (rsp - 8 - 8 * len ws) with (rsp - 8 * (1 + len ws)) in * by lia. split_and!; [done| |intros h Hh; by rewrite E3, E1].
    by rewrite words_app, <-app_assoc.
Qed.

(** ** The whole of it *)
Lemma len_addresses argv : ∀ start, len (addresses start argv) = len argv.
Proof. induction argv as [|a argv IH]; intros start; [done|]. cbn [addresses]. by rewrite !len_cons, IH. Qed.
Lemma words_end_spec argv : words_end argv mod 16 = 0 ∧ words_end argv ≤ strings_at argv < words_end argv + 16.
Proof.
  unfold words_end. change 0xf with (Z.ones 4). rewrite <-Z.ldiff_land, Z.ldiff_ones_r, Z.shiftl_mul_pow2, Z.shiftr_div_pow2 by lia. change (2 ^ 4) with 16.
  rewrite Z_mod_mult. pose proof (Z.div_mod (strings_at argv) 16 ltac:(lia)). pose proof (Z.mod_pos_bound (strings_at argv) 16 ltac:(lia)). lia.
Qed.
Lemma len_stack_words argv : len (stack_words argv) = if (len argv + 3) mod 2 =? 0 then len argv + 3 else len argv + 4.
Proof. unfold stack_words. rewrite !len_app, len_addresses. case_match; change (len [len argv]) with 1; change (len [0; 0]) with 2; [change (len (@nil Z)) with 0|change (len [0]) with 1]; lia. Qed.
Lemma stack_rsp_aligned argv : stack_rsp argv mod 16 = 0.
Proof.
  unfold stack_rsp. rewrite len_stack_words. destruct (words_end_spec argv) as [Hw _]. destruct (Z.eqb_spec ((len argv + 3) mod 2) 0); Z.div_mod_to_equations; lia.
Qed.
Lemma stack_page_len argv : args_fit argv → len (stack_page argv) = PAGE_SIZE.
Proof.
  intros [Hf _]. destruct (words_end_spec argv) as [_ Hw]. unfold stack_page. rewrite !len_app, !len_zeros, len_words by lia. unfold stack_rsp, strings_at, STACK_PAGE in *. lia.
Qed.
Lemma strings_size argv : foldr (λ arg n, len arg + 1 + n) 0 argv = len (strings argv).
Proof. induction argv as [|a argv IH]; [done|]. rewrite strings_cons, !len_app. cbn [foldr]. rewrite IH. change (len [0]) with 1. lia. Qed.
Lemma rev_addresses_words argv : let pad := if (len argv + 3) mod 2 =? 0 then [] else [0] in
  rev (pad ++ [0; 0] ++ rev (addresses (strings_at argv) argv) ++ [len argv]) = stack_words argv.
Proof. cbn zeta. rewrite !rev_app_distr, rev_involutive. unfold stack_words. destruct ((len argv + 3) mod 2 =? 0); simpl; by rewrite <-?app_assoc. Qed.

(** Arguments that fit are laid out in the page, and nothing else is written. *)
Lemma build_initial_stack_ok f argv0 args v : f mod PAGE_SIZE = 0 → v_mem v f = zeros PAGE_SIZE → args_fit (argv0 :: args) →
  ∃ m, build_initial_stack f argv0 args v = (Ok (stack_rsp (argv0 :: args)), set_mem m v) ∧ m f = stack_page (argv0 :: args) ∧ ∀ h, h ≠ f → m h = v_mem v h.
Proof.
  intros Hf Hz [Hfit Hn]. set (argv := argv0 :: args) in *. destruct (words_end_spec argv) as [Wm Wb]. pose proof (len_stack_words argv) as Hws.
  assert (Hsz : len (strings argv) + (len argv + 3) * 8 ≤ PAGE_SIZE).
  { unfold stack_rsp, strings_at, STACK_PAGE, PAGE_SIZE in *. rewrite Hws in Hfit. destruct ((len argv + 3) mod 2 =? 0); lia. }
  unfold build_initial_stack. fold argv. rewrite strings_size. destruct (Z.ltb_spec PAGE_SIZE (len (strings argv) + (len argv + 3) * 8)); [lia|].
  destruct (Z.ltb_spec (Z.of_nat MAX_ARGV) (len argv)) as [Hm|_]; [change (Z.of_nat MAX_ARGV) with 8 in Hm; lia|]. fold STACK_PAGE.
  assert (T0 : topped f (USER_STACK_TOP - STACK_PAGE) [] (v_mem v)) by (unfold topped; rewrite app_nil_r; done). pose proof (len_nonneg argv).
  destruct (push_strings_ok f (rev argv) Hf USER_STACK_TOP [] (v_mem v) [] T0) as (m1 & E1 & T1 & U1); [rewrite rev_involutive; unfold STACK_PAGE, PAGE_SIZE in *; lia|].
  rewrite rev_involutive, !app_nil_r in *. rewrite E1. fold (strings_at argv) in *. fold (words_end argv). set (ws := _ ++ [0; 0] ++ _).
  assert (Hrev : rev ws = stack_words argv) by (apply rev_addresses_words).
  assert (Hlw : len ws = len (stack_words argv)) by (rewrite <-Hrev; unfold len; by rewrite length_rev).
  assert (T2 : topped f (words_end argv - STACK_PAGE) (zeros (strings_at argv - words_end argv) ++ strings argv) m1).
  { destruct T1 as (A & B & C). unfold stack_rsp in Hfit. pose proof (len_nonneg (stack_words argv)). split_and!; [|lia|rewrite len_app, len_zeros; lia].
    rewrite A, (zeros_split (strings_at argv - STACK_PAGE) (strings_at argv - words_end argv)), <-app_assoc by lia. do 2 f_equal. lia. }
  destruct (push_words_ok f ws Hf (words_end argv) m1 _ T2) as (m2 & E2 & T3 & U2); [rewrite Hlw; unfold stack_rsp in Hfit; lia|].
  rewrite E2, Hlw, Hrev in *. exists m2. fold (stack_rsp argv) in *. split_and!; [done|exact (proj1 T3)|intros h Hh; by rewrite U2, U1].
Qed.

(** ** What the program finds *)
Lemma slice_app_mid (a b c : bytes) n : n = len a → slice (a ++ b ++ c) n (len b) = b.
Proof.
  intros ->. unfold slice, len. rewrite !Nat2Z.id. rewrite drop_app_length. by rewrite take_app_length.
Qed.
Lemma stack_page_words argv : args_fit argv → slice (stack_page argv) (stack_rsp argv - STACK_PAGE) (8 * len (stack_words argv)) = words (stack_words argv).
Proof. intros [Hf _]. unfold stack_page. rewrite <-len_words. apply slice_app_mid. by rewrite len_zeros by lia. Qed.
Lemma strings_take argv k a : argv !! k = Some a → strings argv = strings (take k argv) ++ (a ++ [0]) ++ strings (drop (S k) argv) ∧
  ∀ start, addresses start argv !! k = Some (start + len (strings (take k argv))).
Proof.
  intros Hk. rewrite <-(take_drop_middle argv k a Hk) at 1. rewrite strings_app, strings_cons, <-!app_assoc. split; [done|]. intros start.
  rewrite <-(take_drop_middle argv k a Hk) at 1. rewrite addresses_app. pose proof (lookup_lt_Some _ _ _ Hk).
  assert (El : length (addresses start (take k argv)) = k) by (pose proof (len_addresses (take k argv) start) as E; unfold len in E; rewrite length_take in E; lia).
  rewrite lookup_app_r by lia. by rewrite El, Nat.sub_diag.
Qed.
Lemma stack_page_string argv k a : args_fit argv → argv !! k = Some a →
  ∃ ptr, addresses (strings_at argv) argv !! k = Some ptr ∧ STACK_PAGE ≤ ptr ∧ ptr + len a + 1 ≤ USER_STACK_TOP ∧
    slice (stack_page argv) (ptr - STACK_PAGE) (len a + 1) = a ++ [0].
Proof.
  intros [Hf Hn] Hk. destruct (strings_take argv k a Hk) as [Es Ea]. exists (strings_at argv + len (strings (take k argv))). split; [apply Ea|].
  destruct (words_end_spec argv) as [_ Hw]. pose proof (len_nonneg (strings (take k argv))). pose proof (len_nonneg (strings (drop (S k) argv))).
  assert (Hl : len (strings argv) = len (strings (take k argv)) + (len a + 1 + len (strings (drop (S k) argv)))).
  { rewrite Es at 1. rewrite !len_app. change (len [0]) with 1. lia. }
  pose proof (len_nonneg (stack_words argv)). unfold stack_rsp in Hf. split_and!; [lia|unfold strings_at; lia|].
  assert (Ep : stack_page argv = (zeros (stack_rsp argv - STACK_PAGE) ++ words (stack_words argv) ++ zeros (strings_at argv - words_end argv) ++ strings (take k argv)) ++
    (a ++ [0]) ++ strings (drop (S k) argv)) by (unfold stack_page; rewrite Es at 1; by rewrite <-!app_assoc).
  rewrite Ep. replace (len a + 1) with (len (a ++ [0])) by (rewrite len_app; done). apply slice_app_mid.
  rewrite !len_app, !len_zeros, len_words by (unfold stack_rsp; lia). unfold stack_rsp. lia.
Qed.
