(* ===== verification/ElfImage.v ===== *)
(** * Loading an image

    The stack, the segments and the new address space together: what a program
    finds when it starts, and what is left behind when it cannot. *)
From stdpp Require Import gmap functions.
From S2P Require Import Prelude UserLayout FrameAlloc Vmm VmmMem VmmInv VmmMap VmmOps VmmAccess VmmSpaces UserMem Elf ElfLoad ElfStack.
Set Warnings "-clear-no-such-hyp".

Local Open Scope Z_scope.

(** The check refuses the arguments, or they lie in the page. *)
Definition args_safe (argv : list bytes) : Prop := args_fit argv ∨ PAGE_SIZE < len (strings argv) + (len argv + 3) * 8 ∨ 8 < len argv.

Lemma strings_is_byte argv : Forall (Forall is_byte) argv → Forall is_byte (strings argv).
Proof. induction 1 as [|a argv Ha _ IH]; [constructor|]. rewrite strings_cons. apply Forall_app_2; [done|]. by constructor. Qed.
Lemma words_is_byte ws : Forall is_byte (words ws).
Proof. induction ws as [|w ws IH]; [constructor|]. rewrite words_cons. apply Forall_app_2; [apply le_bytes_is_byte|done]. Qed.
Lemma stack_page_ok argv : Forall (Forall is_byte) argv → args_fit argv → page_ok (stack_page argv).
Proof.
  intros Ha Hf. split; [by apply stack_page_len|]. unfold stack_page. apply Forall_app_2; [apply zeros_is_byte|].
  apply Forall_app_2; [apply words_is_byte|]. apply Forall_app_2; [apply zeros_is_byte|by apply strings_is_byte].
Qed.

Lemma stack_flags_ok : flags_ok STACK_FLAGS ∧ flags_ok (Z.lor PRESENT NO_EXECUTE).
Proof. split; by vm_compute. Qed.
(** The pages of the stack and the guard page below it. *)
Lemma stack_offsets o : o ∈ page_offsets USER_STACK_SIZE → 0 ≤ o < USER_STACK_SIZE ∧ o mod PAGE_SIZE = 0.
Proof. by apply elem_of_page_offsets. Qed.
Lemma stack_root a : USER_STACK_BOTTOM - PAGE_SIZE ≤ a < USER_STACK_TOP → user_root (pt_index 4 a) ∧ 0 ≤ a < 2 ^ 48.
Proof.
  intros Ha. apply image_root. assert (Hb : 0x7fff000ef000 ≤ a < 0x7fff00100000) by exact Ha. lia.
Qed.
Lemma stack_page_down o : o ∈ page_offsets USER_STACK_SIZE → page_down (USER_STACK_BOTTOM + o) = USER_STACK_BOTTOM + o.
Proof.
  intros [_ Ho]%stack_offsets. apply page_down_aligned. change USER_STACK_BOTTOM with (0x7fff000f0 * PAGE_SIZE). by rewrite Z.add_comm, Z_mod_plus_full.
Qed.

Section Image.
Context {MP : Mapper} {MS : MapperSpec}.

(** The frame of the last page, among the frames [fs] of the pages [offs]. *)
Fixpoint stack_top (offs fs : list Z) (top : option Z) : option Z :=
  match offs, fs with
  | o :: offs, f :: fs => stack_top offs fs (if o + PAGE_SIZE =? USER_STACK_SIZE then Some f else top)
  | _, _ => top
  end.

Lemma map_stack_pages_ok p offs : ∀ top v g r v', vmm_ok v g → g_perm g STACK_FLAGS → live p v → (∀ o, o ∈ offs → o ∈ page_offsets USER_STACK_SIZE) →
  map_stack_pages p offs top v = (r, v') →
  ∃ g', after p v g v' g' ∧ (no_map_fail r → g_lost g' ≡ₚ g_lost g) ∧ adds p (map (λ o, USER_STACK_BOTTOM + o) offs) v v' ∧
    match r with
    | Ok t => ∃ fs, NoDup fs ∧ (∀ f, f ∈ fs → ¬ kept v g f) ∧ Forall2 (λ o f, placed p (USER_STACK_BOTTOM + o) STACK_FLAGS f (zeros PAGE_SIZE) v') offs fs ∧
        t = stack_top offs fs top
    | Err _ => True
    end.
Proof.
  induction offs as [|o offs IH]; intros top v g r v' H Fp HL Ho.
  - intros [= <- <-]. exists g. split_and!; [by apply after_refl|done|by apply adds_eq|]. exists []. split_and!; [constructor|by intros f ?%elem_of_nil|constructor|done].
  - cbn [map_stack_pages]. unfold bind. destruct (map_new_page p (USER_STACK_BOTTOM + o) STACK_FLAGS (λ _ v, v) v) as [r1 v1] eqn:E1.
    assert (Hin : o ∈ page_offsets USER_STACK_SIZE) by (apply Ho; left). pose proof (stack_offsets o Hin) as [Hb Hm].
    destruct (stack_root (USER_STACK_BOTTOM + o)) as [HR HB]; [unfold USER_STACK_BOTTOM, PAGE_SIZE in *; lia|].
    destruct (map_new_page_ok p _ STACK_FLAGS (λ _ v, v) (zeros PAGE_SIZE) v g r1 v1 H (proj1 stack_flags_ok) Fp HL HR HB (λ f v0 T, T) E1) as (g1 & A1 & L1 & D1 & X1).
    rewrite (stack_page_down o Hin) in D1. destruct r1 as [f|e].
    2:{ intros [= <- <-]. exists g1. split_and!; [done|done| |done]. eapply adds_mono; [|exact D1]. intros x ->%list_elem_of_singleton. left. }
    destruct X1 as [Hk Hpl]. intros E2. pose proof (after_ok _ _ _ _ _ A1) as H1.
    apply (IH _ v1 g1) in E2 as (g2 & A2 & L2 & D2 & X2); [|done|by eapply perm_env; [apply (after_env _ _ _ _ _ A1)|]|by eapply after_live|intros x Hx; apply Ho; by right].
    exists g2. split_and!; [by eapply after_trans|intros Hn; by rewrite L2, L1|exact (adds_trans p [_] _ v v1 v' (pr_roots _ _ _ _ _ (af_progress _ _ _ _ _ A1)) D1 D2)|].
    destruct r as [t|]; [|done]. destruct X2 as (fs & N & Hfs & Hall & ->). exists (f :: fs). split_and!; [| | |done].
    + constructor; [|done]. intros Hf. apply (Hfs f Hf). by eapply placed_kept.
    + intros x [->|Hx]%elem_of_cons; [done|]. intros Hkx. apply (Hfs x Hx). eapply kept_progress; [apply A1| |done]. intros y. by rewrite (af_held _ _ _ _ _ A1).
    + constructor; [|done]. by eapply (placed_after p _ _ _ _ p v1 g1 v' g2); [| |apply stack_flags_ok| |].
Qed.

Lemma stack_top_last (P : Z → Z → Prop) fs : Forall2 P (page_offsets USER_STACK_SIZE) fs →
  ∃ f, stack_top (page_offsets USER_STACK_SIZE) fs None = Some f ∧ P (USER_STACK_SIZE - PAGE_SIZE) f ∧ f ∈ fs ∧
    (NoDup fs → Forall2 (λ o x, P o x ∧ (x = f ↔ o + PAGE_SIZE = USER_STACK_SIZE)) (page_offsets USER_STACK_SIZE) fs).
Proof.
  assert (E : page_offsets USER_STACK_SIZE = [0; 4096; 8192; 12288; 16384; 20480; 24576; 28672; 32768; 36864; 40960; 45056; 49152; 53248; 57344] ++ [61440]) by reflexivity.
  rewrite E. intros (fs0 & fs1 & H0 & H1 & ->)%Forall2_app_inv_l. inversion H1 as [|? f ? ? Hf H2]; subst. inversion H2; subst. exists f.
  assert (Hno : ∀ o, o ∈ [0; 4096; 8192; 12288; 16384; 20480; 24576; 28672; 32768; 36864; 40960; 45056; 49152; 53248; 57344] → o + PAGE_SIZE ≠ USER_STACK_SIZE).
  { intros o Ho. repeat (apply elem_of_cons in Ho as [->|Ho]; [done|]). by apply elem_of_nil in Ho. }
  split_and!; [|done|apply elem_of_app; right; left|].
  - clear E H1 Hf H2. revert H0 Hno. generalize ([0; 4096; 8192; 12288; 16384; 20480; 24576; 28672; 32768; 36864; 40960; 45056; 49152; 53248; 57344]) as offs.
    generalize (@None Z) as top. intros top offs H0. revert top. induction H0 as [|o x offs fs0 _ _ IH]; intros top Hno; [done|]. cbn [stack_top app].
    rewrite (proj2 (Z.eqb_neq _ _)) by (apply Hno; left). apply IH. intros y Hy. apply Hno. by right.
  - intros N. apply NoDup_app in N as (_ & Hd & _). apply Forall2_app; [|constructor; [split; [done|by split]|constructor]].
    clear E H1 Hf H2. revert Hno Hd. induction H0 as [|o x offs fs0 Hx _ IH]; intros Hno Hd; [constructor|]. constructor.
    + split; [done|]. split; [intros ->; exfalso; apply (Hd f); left|intros Ho; exfalso; apply (Hno o); [left|done]].
    + apply IH; [intros y Hy; apply Hno; by right|intros y Hy; apply Hd; by right].
Qed.

(** The stack as the program finds it. *)
Definition stack_loaded (p : Z) (argv : list bytes) (v : Vmm) : Prop := ∀ o, o ∈ page_offsets USER_STACK_SIZE →
  ∃ f, placed p (USER_STACK_BOTTOM + o) STACK_FLAGS f (if o + PAGE_SIZE =? USER_STACK_SIZE then stack_page argv else zeros PAGE_SIZE) v.
Definition stack_pages : list Z := map (λ o, USER_STACK_BOTTOM + o) (page_offsets USER_STACK_SIZE) ++ [USER_STACK_BOTTOM - PAGE_SIZE].

Lemma build_initial_stack_err f argv0 args v : PAGE_SIZE < len (strings (argv0 :: args)) + (len (argv0 :: args) + 3) * 8 ∨ 8 < len (argv0 :: args) →
  ∃ e, build_initial_stack f argv0 args v = (Err (EInvalidElf e), v).
Proof.
  intros H. unfold build_initial_stack, invalid. rewrite strings_size. set (argv := argv0 :: args) in *.
  destruct (Z.ltb_spec PAGE_SIZE (len (strings argv) + (len argv + 3) * 8)); [eauto|]. destruct (Z.ltb_spec (Z.of_nat MAX_ARGV) (len argv)) as [|Hm]; [eauto|].
  change (Z.of_nat MAX_ARGV) with 8 in Hm. lia.
Qed.

Lemma map_user_stack_ok p argv0 args v g r v' : vmm_ok v g → g_perm g STACK_FLAGS → g_perm g (Z.lor PRESENT NO_EXECUTE) → live p v →
  Forall (Forall is_byte) (argv0 :: args) → args_safe (argv0 :: args) → map_user_stack p argv0 args v = (r, v') →
  ∃ g', after p v g v' g' ∧ (no_map_fail r → g_lost g' ≡ₚ g_lost g) ∧ adds p stack_pages v v' ∧
    (∀ rsp, r = Ok rsp → args_fit (argv0 :: args) ∧ rsp = stack_rsp (argv0 :: args) ∧ stack_loaded p (argv0 :: args) v').
Proof.
  intros H Fp Fg HL Hb Hsafe. set (argv := argv0 :: args) in *. unfold map_user_stack, bind.
  destruct (map_stack_pages p (page_offsets USER_STACK_SIZE) None v) as [r1 v1] eqn:E1.
  apply (map_stack_pages_ok p _ None v g r1 v1 H Fp HL) in E1 as (g1 & A1 & L1 & D1 & X1); [|done]. pose proof (after_ok _ _ _ _ _ A1) as H1.
  assert (D1' : ∀ v3, adds p (map (λ o, USER_STACK_BOTTOM + o) (page_offsets USER_STACK_SIZE)) v v3 → adds p stack_pages v v3).
  { intros v3. apply adds_mono. intros x Hx. apply elem_of_app. by left. }
  destruct r1 as [top|e]; [|intros [= <- <-]; exists g1; split_and!; [done|done|by apply D1'|done]].
  destruct X1 as (fs & N & Hfs & Hall & ->). destruct (map_new_page p (USER_STACK_BOTTOM - PAGE_SIZE) (Z.lor PRESENT NO_EXECUTE) (λ _ v, v) v1) as [r2 v2] eqn:E2.
  destruct (stack_root (USER_STACK_BOTTOM - PAGE_SIZE)) as [HR HB]; [by vm_compute|].
  destruct (map_new_page_ok p (USER_STACK_BOTTOM - PAGE_SIZE) (Z.lor PRESENT NO_EXECUTE) (λ _ v, v) (zeros PAGE_SIZE) v1 g1 r2 v2 H1 (proj2 stack_flags_ok)
    (perm_env _ _ _ (after_env _ _ _ _ _ A1) Fg) (after_live _ _ _ _ _ _ A1 HL) HR HB (λ f v0 T, T) E2) as (g2 & A2 & L2 & D2 & _).
  pose proof (after_trans _ _ _ _ _ _ _ A1 A2) as A. pose proof (after_ok _ _ _ _ _ A) as H2.
  pose proof (adds_trans p _ _ v v1 v2 (pr_roots _ _ _ _ _ (af_progress _ _ _ _ _ A1)) D1 D2) as D.
  change (page_down (USER_STACK_BOTTOM - PAGE_SIZE)) with (USER_STACK_BOTTOM - PAGE_SIZE) in D. fold stack_pages in D.
  assert (L : no_map_fail r2 → g_lost g2 ≡ₚ g_lost g) by (intros Hn; rewrite (L2 Hn); by apply L1).
  destruct r2 as [gf|e]; [|intros [= <- <-]; exists g2; by split_and!].
  destruct (stack_top_last _ _ Hall) as (f & -> & Hf & Hin & Htop). specialize (Htop N). unfold lift_option, lift_result, of_option. cbv beta iota.
  assert (Hpl : Forall2 (λ o x, placed p (USER_STACK_BOTTOM + o) STACK_FLAGS x (zeros PAGE_SIZE) v2 ∧ (x = f ↔ o + PAGE_SIZE = USER_STACK_SIZE)) (page_offsets USER_STACK_SIZE) fs).
  { assert (Hset : ∀ o, o ∈ page_offsets USER_STACK_SIZE → user_root (pt_index 4 (USER_STACK_BOTTOM + o))).
    { intros o [Hb1 _]%stack_offsets. apply stack_root. unfold USER_STACK_BOTTOM, PAGE_SIZE in *. lia. }
    eapply Forall2_impl; [apply Forall2_same_length_lookup_2; [by eapply Forall2_length|]|].
    { intros i o x Ho Hx. exact (conj (Forall2_lookup_lr _ _ _ _ _ _ Htop Ho Hx) (list_elem_of_lookup_2 _ _ _ Ho)). }
    intros o x [[Hx Hi] Ho]. split; [|done]. eapply (placed_after p _ _ _ _ p v1 g1 v2 g2); [done|by apply Hset|apply stack_flags_ok|done|done]. }
  destruct Hsafe as [Hfit|Herr].
  - assert (Hpf : placed p (USER_STACK_BOTTOM + (USER_STACK_SIZE - PAGE_SIZE)) STACK_FLAGS f (zeros PAGE_SIZE) v2).
    { eapply (placed_after p _ _ _ _ p v1 g1 v2 g2); [done|apply stack_root; by vm_compute|apply stack_flags_ok|done|done]. }
    destruct (build_initial_stack_ok f argv0 args v2) as (m & E & Em & Eo); [apply frame_ok_aligned; by eapply owns_frame_ok; [|apply Hpf]|apply Hpf|done|].
    rewrite E. intros [= <- <-]. fold argv. exists g2. assert (Hw : wrote f v2 m) by (split; [rewrite Em; by apply stack_page_ok|done]).
    assert (Hown : owns p f v2) by apply Hpf. split_and!; [eapply after_write; [done|by apply Hfs|done|done]|intros _; by apply L|by eapply adds_write; [|apply A|..]|].
    intros rsp [= <-]. split_and!; [done|done|]. intros o Ho. apply list_elem_of_lookup in Ho as [k Hk]. destruct (Forall2_lookup_l _ _ _ _ _ Hpl Hk) as (x & Hx & Hplx & Hiff).
    exists x. assert (HRo : user_root (pt_index 4 (USER_STACK_BOTTOM + o))).
    { apply stack_root. apply list_elem_of_lookup_2, stack_offsets in Hk as [Hk _]. unfold USER_STACK_BOTTOM, PAGE_SIZE in *. lia. }
    pose proof (placed_write p _ _ x _ p f v2 g2 m H2 HRo Hplx Hown Hw) as Hfin. rewrite Em in Hfin.
    destruct (decide (x = f)) as [Exf|Exf], (Z.eqb_spec (o + PAGE_SIZE) USER_STACK_SIZE) as [Eo'|Eo']; try done; exfalso; [by apply Eo', Hiff|by apply Exf, Hiff].
  - destruct (build_initial_stack_err f argv0 args v2 Herr) as (e & ->). intros [= <- <-]. exists g2. split_and!; [done|intros _; by apply L|done|done].
Qed.

(** The list of spaces after work on the last one. *)
Lemma spaces_of_last p v0 g0 v1 l s : vmm_ok v0 g0 → v_spaces v0 = l ++ [s] → as_pml4 s = p → map as_pml4 (v_spaces v1) = map as_pml4 (v_spaces v0) →
  (∀ s, as_pml4 s ≠ p → s ∈ v_spaces v1 ↔ s ∈ v_spaces v0) → ∃ s', v_spaces v1 = l ++ [s'] ∧ as_pml4 s' = p.
Proof.
  intros H E0 Hp ER HO. assert (Hl : length (v_spaces v1) = S (length l)).
  { apply (f_equal length) in ER. rewrite !length_map, E0, length_app in ER. simpl in ER. lia. }
  destruct (v_spaces v1) as [|s' l1 _] eqn:E1 using rev_ind; [done|]. rewrite length_app in Hl. simpl in Hl.
  rewrite E0, !map_app in ER. apply app_inj_2 in ER as [ER1 ER2]; [|done]. simpl in ER2. injection ER2 as Es'. exists s'. split; [|congruence]. f_equal.
  apply list_eq_same_length with (length l); [done|lia|]. intros i x y Hi Hx Hy.
  assert (Exy : as_pml4 x = as_pml4 y).
  { assert (A : map as_pml4 l1 !! i = Some (as_pml4 x)) by (by rewrite list_lookup_fmap, Hx).
    assert (B : map as_pml4 l !! i = Some (as_pml4 y)) by (by rewrite list_lookup_fmap, Hy). congruence. }
  assert (Hy0 : y ∈ v_spaces v0) by (rewrite E0; apply elem_of_app; left; by eapply list_elem_of_lookup_2).
  assert (Hyp : as_pml4 y ≠ p).
  { pose proof (spaces_nodup v0 g0 H) as N. rewrite E0, map_app in N. apply NoDup_app in N as (_ & N & _). intros Ey. apply (N (as_pml4 y)).
    - apply list_elem_of_fmap. exists y. split; [done|by eapply list_elem_of_lookup_2].
    - rewrite Ey, <-Hp. left. }
  apply (space_unique v0 g0); [done| |done|done]. apply HO; [congruence|]. apply elem_of_app. left. by eapply list_elem_of_lookup_2.
Qed.

(** ** [load_image] *)
(** The flags of the stack, its guard page and the segments are allowed, and the
    segments lie in user space. *)
Definition image_ok (image : bytes) (g : ghost) : Prop :=
  Forall is_byte image ∧ g_perm g STACK_FLAGS ∧ g_perm g (Z.lor PRESENT NO_EXECUTE) ∧
  ∀ h i ph, parse_header image = Ok h → i ∈ seqZ 0 (e_phnum h) → segment image h i = Some ph → loadable ph = true → seg_in_user ph ∧ g_perm g (load_flags ph).

(** The inner part, in the new address space. *)
Definition load_into (path : bytes) (args : list bytes) (image : bytes) (h : Elf64Header) (p : Z) : ST Vmm ExecError LoadedImage :=
  (let! user_rsp := map_user_stack p path args in
   load_segments image h p ;;! ret {| li_pml4 := p; li_entry := e_entry h; li_user_rsp := user_rsp |})%st.
Lemma load_into_ok path args image h p v g r v' : parse_header image = Ok h → image_ok image g → Forall (Forall is_byte) (path :: args) → args_safe (path :: args) →
  vmm_ok v g → live p v → load_into path args image h p v = (r, v') →
  ∃ g', after p v g v' g' ∧ (no_map_fail r → g_lost g' ≡ₚ g_lost g) ∧ adds p (stack_pages ++ image_pages image h (seqZ 0 (e_phnum h))) v v' ∧
    (∀ li, r = Ok li → li = {| li_pml4 := p; li_entry := e_entry h; li_user_rsp := stack_rsp (path :: args) |} ∧ args_fit (path :: args) ∧ stack_loaded p (path :: args) v' ∧
      ∀ i, i ∈ seqZ 0 (e_phnum h) → ∃ ph, segment image h i = Some ph ∧ (loadable ph = true → validate_load_segment ph (len image) = Ok tt ∧ seg_loaded image ph p v')).
Proof.
  intros Hh (Hb & F1 & F2 & Hseg) Hargs Hsafe H HL. unfold load_into, load_segments, bind.
  destruct (map_user_stack p path args v) as [r1 v1] eqn:E1. destruct (map_user_stack_ok p path args v g r1 v1 H F1 F2 HL Hargs Hsafe E1) as (g1 & A1 & L1 & D1 & X1).
  set (N := image_pages image h (seqZ 0 (e_phnum h))).
  assert (D1' : adds p (stack_pages ++ N) v v1) by (eapply adds_mono; [|exact D1]; intros x Hx; apply elem_of_app; by left).
  destruct r1 as [rsp|e]; [|intros [= <- <-]; exists g1; by split_and!]. destruct (X1 rsp eq_refl) as (Hfit & -> & Hst).
  destruct (load_loop image h p (seqZ 0 (e_phnum h)) false [] v1) as [r2 v2] eqn:E2.
  apply (load_loop_ok image h p _ Hb false [] v1 g1) in E2 as (g2 & A2 & L2 & D2 & X2);
    [|intros i ph Hi Hs Hl; destruct (Hseg h i ph Hh Hi Hs Hl); split; [done|by eapply perm_env; [apply (after_env _ _ _ _ _ A1)|]]|by eapply after_ok|by eapply after_live].
  pose proof (after_trans _ _ _ _ _ _ _ A1 A2) as A. pose proof (adds_trans p _ _ v v1 v2 (pr_roots _ _ _ _ _ (af_progress _ _ _ _ _ A1)) D1 D2) as D. fold N in D.
  assert (L : no_map_fail r2 → g_lost g2 ≡ₚ g_lost g) by (intros Hn; rewrite L2 by done; by apply L1).
  destruct r2 as [saw|e]; [|intros [= <- <-]; exists g2; by split_and!]. unfold lift_result.
  destruct saw; intros [= <- <-]; exists g2; (split_and!; [done|auto|done|]); [|done]. intros li [= <-]. split_and!; [done|done| |by apply X2].
  intros o Ho. destruct (Hst o Ho) as [f Hf]. exists f. eapply (placed_after p _ _ _ _ p v1 g1 v2 g2); [by eapply after_ok| |apply stack_flags_ok|done|done].
  apply stack_root. apply stack_offsets in Ho as [Ho _]. unfold USER_STACK_BOTTOM, PAGE_SIZE in *. lia.
Qed.

(** The pages of a new root are those that were added. *)
Lemma fresh_root_present v g f v' a : vmm_ok v g → new_process_pml4 v = (Some f, v') → user_root (pt_index 4 a) → ¬ present (v_mem v') f a.
Proof.
  intros H E HR (t & HP & _). destruct (new_process_pml4_some v g f v' H E) as (_ & _ & _ & _ & _ & _ & _ & _ & He).
  inversion HP as [|? ? u ? (_ & _ & _ & Hz) _]; subst. rewrite He in Hz by apply pt_index_ok. by rewrite decide_True in Hz.
Qed.

(** A load that succeeds. *)
Record loaded (path : bytes) (args : list bytes) (image : bytes) (h : Elf64Header) (v : Vmm) (g : ghost) (p : Z) (v' : Vmm) (g' : ghost) : Prop := {
  ld_ok : vmm_ok v' g';
  ld_ghost : g_held g' ≡ₚ g_held g ∧ g_lost g' ≡ₚ g_lost g ∧ g_env g' = g_env g;
  ld_regs : v_boot v' = v_boot v ∧ v_cr3 v' = v_cr3 v ∧ v_mem v' (page_down (v_boot v)) = v_mem v (page_down (v_boot v));
  ld_spaces : ∃ s, v_spaces v' = v_spaces v ++ [s] ∧ as_pml4 s = p;
  ld_new : ¬ live p v;
  ld_views : views_kept v v';
  ld_stack : args_fit (path :: args) ∧ stack_loaded p (path :: args) v';
  ld_segments : ∀ i, i ∈ seqZ 0 (e_phnum h) → ∃ ph, segment image h i = Some ph ∧ (loadable ph = true → validate_load_segment ph (len image) = Ok tt ∧ seg_in_user ph ∧ seg_loaded image ph p v');
  ld_pages : ∀ a, user_root (pt_index 4 a) → 0 ≤ a < 2 ^ 48 → present (v_mem v') p a → page_down a ∈ stack_pages ++ image_pages image h (seqZ 0 (e_phnum h));
  ld_unmapped : ∀ f, f ∈ g_held g → unmapped f (v_mem v) g → unmapped f (v_mem v') g' }.
(** A load that fails. *)
Record unloaded (r : result ExecError LoadedImage) (v : Vmm) (g : ghost) (v' : Vmm) (g' : ghost) : Prop := {
  ul_ok : vmm_ok v' g';
  ul_ghost : g_held g' ≡ₚ g_held g ∧ g_env g' = g_env g;
  ul_regs : v_boot v' = v_boot v ∧ v_cr3 v' = v_cr3 v ∧ v_mem v' (page_down (v_boot v)) = v_mem v (page_down (v_boot v));
  ul_spaces : v_spaces v' ≡ₚ v_spaces v;
  ul_lost : ∃ new, g_lost g' ≡ₚ new ++ g_lost g ∧ (no_map_fail r → new = []);
  ul_views : views_kept v v';
  ul_unmapped : ∀ f, f ∈ g_held g → unmapped f (v_mem v) g → unmapped f (v_mem v') g' }.

Definition cr3_ok (v : Vmm) : Prop := v_cr3 v = page_down (v_boot v) ∨ live (v_cr3 v) v.
Lemma new_root_fresh v g f v' : vmm_ok v g → new_process_pml4 v = (Some f, v') → ¬ live f v ∧ f ≠ page_down (v_boot v).
Proof.
  intros H E. destruct (new_process_pml4_some v g f v' H E) as (_ & _ & _ & _ & Hk & Hno & _). split.
  - intros HL. by rewrite (live_root v g f H HL) in Hno.
  - intros ->. apply Hk. right. right. by left.
Qed.
Lemma free_last v g p l s : vmm_ok v g → v_spaces v = l ++ [s] → as_pml4 s = p → v_cr3 v ≠ p → v_spaces (free_address_space p v) ≡ₚ l.
Proof.
  intros H E Hp Hc. assert (Hs : s ∈ v_spaces v) by (rewrite E; apply elem_of_app; right; left).
  destruct (free_address_space_ok v g p H) as (s' & a' & Hs' & Hp' & HP & _); [by exists s|done|]. assert (s' = s) as -> by (eapply space_unique; [exact H|done|done|congruence]).
  rewrite E, Permutation_app_comm in HP. simpl in HP. by apply Permutation_cons_inv in HP.
Qed.

Lemma load_image_ok path args image v g r v' : vmm_ok v g → cr3_ok v → image_ok image g → Forall (Forall is_byte) (path :: args) → args_safe (path :: args) →
  load_image path args image v = (r, v') →
  ∃ g', match r with
        | Ok li => ∃ h, parse_header image = Ok h ∧ loaded path args image h v g (li_pml4 li) v' g' ∧ li_entry li = e_entry h ∧ li_user_rsp li = stack_rsp (path :: args)
        | Err _ => unloaded r v g v' g'
        end.
Proof.
  intros H Hc Hi Hargs Hsafe. assert (Hsame : ∀ e v1, after 0 v g v1 g → v_spaces v1 = v_spaces v → unloaded (Err e) v g v1 g).
  { intros e v1 A Es. pose proof A as [P _ _]. split; [apply P|by split|split_and!; [apply P|apply P|apply P; right; right; by left]|by rewrite Es|by exists []|by eapply after_views|apply A]. }
  unfold load_image. destruct (parse_header image) as [h|e] eqn:Eh; [|intros [= <- <-]; exists g; apply Hsame; [by apply after_refl|done]].
  destruct (new_process_pml4 v) as [[p|] v0] eqn:E0.
  2:{ intros [= <- <-]. exists g. apply Hsame; [by apply new_process_pml4_none|]. unfold new_process_pml4 in E0. destruct (alloc_zeroed_frame v) as [[x|] v1] eqn:Ea; [done|].
      injection E0 as <-. by destruct (alloc_zeroed_none v g v1 H Ea) as (_ & _ & ? & _). }
  destruct (new_process_pml4_some v g p v0 H E0) as (H0 & Es & Eb & Ec & Hk & Hno & Hm & Hun & _). destruct (new_root_fresh v g p v0 H E0) as [Hnl Hnb].
  assert (HL0 : live p v0) by (exists (fresh_space p); rewrite Es, elem_of_app; split; [right; left|done]).
  fold (load_into path args image h p). destruct (load_into path args image h p v0) as [r1 v1] eqn:E1.
  destruct (load_into_ok path args image h p v0 (with_root p g) r1 v1 Eh Hi Hargs Hsafe H0 HL0 E1) as (g1 & A & L & D & X). pose proof A as [P Hh Hu].
  destruct (spaces_of_last p v0 (with_root p g) v1 (v_spaces v) (fresh_space p) H0 Es eq_refl (pr_roots _ _ _ _ _ P) (pr_others _ _ _ _ _ P)) as (s' & Es1 & Hs').
  assert (Hregs : v_boot v1 = v_boot v ∧ v_cr3 v1 = v_cr3 v ∧ v_mem v1 (page_down (v_boot v)) = v_mem v (page_down (v_boot v))).
  { destruct (pr_regs _ _ _ _ _ P) as [R1 R2]. split_and!; [congruence|congruence|]. rewrite (pr_data _ _ _ _ _ P); [by apply Hm|]. right. right. left. by rewrite Eb. }
  assert (Hlive : ∀ q, live q v → live q v0) by (intros q (s & Hs & Hq); exists s; rewrite Es, elem_of_app; split; [by left|done]).
  assert (Hviews : views_kept v v1) by (apply (views_trans v v0 v1); [by intros q Hq _; apply Hlive|by eapply new_process_views|by eapply after_views]).
  destruct r1 as [li|e].
  - intros [= <- <-]. destruct (X li eq_refl) as (-> & Hfit & Hst & Hseg). exists g1, h. simpl. split_and!; [done| |done|done].
    split; [apply P|split_and!; [done|by apply L|apply P]|done|by exists s'|done|done|done| | |intros f Hf HU; apply Hu; [done|by apply Hun]].
    + intros i Hin. destruct (Hseg i Hin) as (ph & Eph & Hld). exists ph. split; [done|]. intros El. destruct (Hld El). destruct Hi as (_ & _ & _ & Hi). by destruct (Hi h i ph Eh Hin Eph El).
    + intros a HR Ha Hp. destruct (D p a HL0 HR Ha Hp) as [Hp0|[_ ?]]; [|done]. exfalso. exact (fresh_root_present v g p v0 a H E0 HR Hp0).
  - intros [= <- <-]. pose proof (pr_ok _ _ _ _ _ P) as H1. assert (Hcp : v_cr3 v1 ≠ p) by (destruct Hregs as (_ & Ec1 & _); destruct Hc as [Ec2|?]; congruence).
    destruct (free_address_space_ok v1 g1 p H1) as (s & a' & _ & _ & _ & Ef & _ & Hf); [by eapply live_roots; [apply P|]|done|]. exists (without p g1).
    pose proof (free_last v1 g1 p (v_spaces v) s' H1 Es1 Hs' Hcp) as HP'.
    split; [done|split; [done|apply P]|by rewrite Ef|done| | |].
    + destruct (pr_lost _ _ _ _ _ P) as [new Hn]. simpl in *. destruct e as [| | | |msg| | |]; try (exists []; split; [by apply L|done]). exists new. by split.
    + intros q a Hq Hq'. destruct (Hviews q a Hq) as [V1 V2]; [by eapply live_roots; [apply P|apply Hlive]|]. rewrite Ef. by split.
    + intros f Hf0 HU t q i [Ht _]%without_own. rewrite Ef. exact (Hu f Hf0 (Hun f Hf0 HU) t q i Ht).
Qed.
End Image.
