(* ===== verification/VmmRun.v ===== *)
(** * The memory system as a whole

    The steps that change page tables, frames and CR3: system calls, loading
    programs, freeing and switching address spaces, stores of programs, and the
    kernel's own frames.  What holds after every sequence of them from boot. *)
From stdpp Require Import gmap functions relations.
From S2P Require Import Prelude UserLayout FrameAlloc Vmm VmmMem VmmInv VmmMap VmmOps VmmAccess VmmProtect VmmSpaces VmmBoot UserMem Pipe FdTable Mmap MmapOps Elf ElfLoad ElfStack ElfImage.
Set Warnings "-clear-no-such-hyp".

Local Open Scope Z_scope.

(** ** Boot *)
(** [vmm::init]; [Cr3::read] gives the start of a frame. *)
Definition vmm_init (a : FrameAlloc) (v : Vmm) : Vmm :=
  {| v_mem := v_mem v; v_alloc := Some a; v_spaces := v_spaces v; v_boot := v_cr3 v; v_cr3 := v_cr3 v |}.
(** The machine as the boot loader leaves it, then [init] and [harden_boot_mappings]. *)
Definition boot_vmm (m : Mem) (cr3 : Z) (a : FrameAlloc) : Vmm :=
  harden_boot_mappings (vmm_init a {| v_mem := m; v_alloc := None; v_spaces := []; v_boot := 0; v_cr3 := cr3 |}).
(** What the boot loader promises: frames of 4096 bytes, the root of its page
    tables not among those it calls usable. *)
Record boot_ok (m : Mem) (cr3 : Z) (a : FrameAlloc) : Prop := {
  bo_pages : ∀ f, page_ok (m f);
  bo_nodup : NoDup (available a ++ [cr3]);
  bo_frames : Forall frame_ok (available a ++ [cr3]) }.

(** ** The system *)
(** The frames the kernel holds for itself, and those it maps for users. *)
Record Sys := { sy_v : Vmm; sy_private : list Z; sy_shared : list Z }.
Definition set_v (v : Vmm) (s : Sys) : Sys := {| sy_v := v; sy_private := sy_private s; sy_shared := sy_shared s |}.
Definition sys_boot (m : Mem) (cr3 : Z) (a : FrameAlloc) : Sys := {| sy_v := boot_vmm m cr3 a; sy_private := []; sy_shared := [] |}.

(** The images that may be loaded: bytes, with segments in user space and flags
    that satisfy [Q]. *)
Definition image_safe (Q : Z → Prop) (image : bytes) : Prop :=
  Forall is_byte image ∧ ∀ h i ph, parse_header image = Ok h → i ∈ seqZ 0 (e_phnum h) → segment image h i = Some ph → loadable ph = true → seg_in_user ph ∧ Q (load_flags ph).
Definition args_ok (argv : list bytes) : Prop := Forall (Forall is_byte) argv ∧ args_safe argv.
Definition u64 (x : Z) : Prop := 0 ≤ x < 2 ^ 64.
(** A user program runs. *)
Definition in_user (v : Vmm) : Prop := live (v_cr3 v) v.

Section Steps.
Context {MP : Mapper} (Q : Z → Prop).

Inductive vstep (s : Sys) : Sys → Prop :=
| st_exec path args image r v' : image_safe Q image → args_ok (path :: args) → load_image path args image (sy_v s) = (r, v') → vstep s (set_v v' s)
| st_mmap addr n flags r v' : in_user (sy_v s) → u64 addr → u64 n → sys_mmap addr n flags (sy_v s) = (r, v') → vstep s (set_v v' s)
| st_mprotect addr n flags r v' : in_user (sy_v s) → u64 addr → u64 n → sys_mprotect addr n flags (sy_v s) = (r, v') → vstep s (set_v v' s)
| st_mmap_file task fds desc r v' : in_user (sy_v s) → (∀ fd d, file_data task fd fds = Some d → Forall is_byte d) →
    sys_mmap_file task fds desc (sy_v s) = (r, v') → vstep s (set_v v' s)
| st_thread entry tls flags spawn slot r v' : in_user (sy_v s) → u64 entry →
    thread_stack entry tls flags (Some (v_cr3 (sy_v s))) spawn slot (sy_v s) = (r, v') → vstep s (set_v v' s)
| st_store va b m : is_byte b → user_store (v_cr3 (sy_v s)) va b (v_mem (sy_v s)) = Some m → vstep s (set_v (set_mem m (sy_v s)) s)
| st_copy_out ptr mx bs v' : Forall is_byte bs → u64 ptr → user_copy_out ptr mx bs (sy_v s) = Some (Some v') → vstep s (set_v v' s)
| st_free p : vstep s (set_v (free_address_space p (sy_v s)) s)
| st_switch p : live p (sy_v s) → vstep s (set_v (switch_to p (sy_v s)) s)
| st_switch_boot : vstep s (set_v (switch_to_boot (sy_v s)) s)
| st_alloc f v' : alloc_zeroed_frame (sy_v s) = (Some f, v') → vstep s {| sy_v := v'; sy_private := f :: sy_private s; sy_shared := sy_shared s |}
| st_alloc_none v' : alloc_zeroed_frame (sy_v s) = (None, v') → vstep s (set_v v' s)
| st_alloc_run count f v' : alloc_contiguous_zeroed_frames count (sy_v s) = (Some f, v') →
    vstep s {| sy_v := v'; sy_private := map (λ j, f + PAGE_SIZE * Z.of_nat j) (seq 0 count) ++ sy_private s; sy_shared := sy_shared s |}
| st_release f l : sy_private s ≡ₚ f :: l → vstep s {| sy_v := free_unmapped_frame f (sy_v s); sy_private := l; sy_shared := sy_shared s |}
| st_fill f d : f ∈ sy_private s ++ sy_shared s → page_ok d → vstep s (set_v (set_mem (<[f := d]> (v_mem (sy_v s))) (sy_v s)) s)
| st_publish f l : sy_private s ≡ₚ f :: l → vstep s {| sy_v := sy_v s; sy_private := l; sy_shared := f :: sy_shared s |}
| st_share p va f flags r v' : f ∈ sy_shared s → live p (sy_v s) → user_root (pt_index 4 va) → u64 va → va < 2 ^ 48 → flags_ok flags → Q flags →
    map_page_in p va f flags (sy_v s) = (r, v') → vstep s (set_v v' s).

(** What holds of every state. *)
Record sys_inv (all : list Z) (s : Sys) (g : ghost) : Prop := {
  si_ok : vmm_ok (sy_v s) g;
  si_env : g_env g = {| c_all := all; c_perm := Q |};
  si_held : g_held g ≡ₚ sy_private s ++ sy_shared s;
  si_unmapped : ∀ f, f ∈ sy_private s → unmapped f (v_mem (sy_v s)) g;
  si_cr3 : cr3_ok (sy_v s);
  si_boot : ∀ i, index_ok i → closed (entry (v_mem (sy_v s)) (page_down (v_boot (sy_v s))) i) }.
End Steps.

(** ** The boot table lets no user access through *)
Lemma closed_access m p va w : (∀ i, index_ok i → closed (entry m p i)) → user_access p va w m = None.
Proof. intros HC. unfold user_access. rewrite closed_permits; [done|]. apply HC, pt_index_ok. Qed.
Lemma boot_sys_inv Q m cr3 a : boot_ok m cr3 a →
  sys_inv Q (available a ++ [cr3]) (sys_boot m cr3 a) {| g_own := ∅; g_lost := []; g_held := []; g_env := {| c_all := available a ++ [cr3]; c_perm := Q |} |}.
Proof.
  intros [B1 B2 B3]. assert (Ec : page_down cr3 = cr3) by (apply page_down_aligned, frame_ok_aligned; rewrite Forall_app, Forall_singleton in B3; apply B3).
  destruct (clear_user_demoted 4 cr3 m B1) as [[D1 D2] C].
  unfold sys_boot, boot_vmm, harden_boot_mappings, vmm_init. cbn [v_mem v_boot v_cr3 v_spaces v_alloc set_mem]. rewrite Ec.
  split; cbn [sy_v sy_private sy_shared v_mem v_boot v_cr3 v_spaces v_alloc set_mem g_env g_held]; [|done|done|by intros f ?%elem_of_nil|by left|rewrite Ec; by apply C].
  split; cbn [v_mem v_boot v_cr3 v_spaces v_alloc set_mem g_own g_env c_all].
  all: try done.
  - unfold all_frames. cbn [v_mem v_boot v_cr3 v_spaces v_alloc g_held g_lost from_option set_mem]. rewrite Ec. by unfold g_all.
  - by intros s ?%elem_of_nil.
  - by intros t i t' i' f ((p & k & Ht & _) & _).
  - by intros s i ?%elem_of_nil.
Qed.

(** ** Every step keeps the invariant *)
Section Invariant.
Context {MP : Mapper} {MS : MapperSpec} (Q : Z → Prop) (all : list Z).
Hypothesis Q_wx : ∀ fl, wx_ok fl → Q fl.

Lemma inv_perm s g : sys_inv Q all s g → ∀ fl, wx_ok fl → g_perm g fl.
Proof. intros I fl Hf. unfold g_perm. rewrite (si_env _ _ _ _ I). by apply Q_wx. Qed.
Lemma held_private s g f : sys_inv Q all s g → f ∈ sy_private s → f ∈ g_held g.
Proof. intros I Hf. rewrite (si_held _ _ _ _ I). apply elem_of_app. by left. Qed.
Lemma live_equiv v v' p : map as_pml4 (v_spaces v') ≡ₚ map as_pml4 (v_spaces v) → live p v → live p v'.
Proof.
  intros HP (s & Hs & <-). assert (Hin : as_pml4 s ∈ map as_pml4 (v_spaces v')) by (rewrite HP; apply list_elem_of_fmap; eauto).
  apply list_elem_of_fmap in Hin as (s' & E & Hs'). by exists s'.
Qed.

Lemma inv_carries s g v' g' : sys_inv Q all s g → carries (sy_v s) g v' g' → sys_inv Q all (set_v v' s) g'.
Proof.
  intros I [C1 C2 [C3 C3'] C4 C5 C6 C7]. split; cbn [set_v sy_v sy_private sy_shared].
  - done.
  - by rewrite C2, (si_env _ _ _ _ I).
  - by rewrite C6, (si_held _ _ _ _ I).
  - intros f Hf. apply C7; [by eapply held_private|by apply (si_unmapped _ _ _ _ I)].
  - unfold cr3_ok. rewrite C3, C3'. destruct (si_cr3 _ _ _ _ I) as [?|HL]; [by left|right]. by eapply live_roots.
  - intros i Hi. rewrite C3. unfold entry. rewrite C4. by apply (si_boot _ _ _ _ I).
Qed.

Lemma image_safe_ok s g image : sys_inv Q all s g → image_safe Q image → image_ok image g.
Proof.
  intros I [Hb Hseg]. split_and!; [done|apply (inv_perm s); [done|by vm_compute]..|]. intros h i ph. unfold g_perm. rewrite (si_env _ _ _ _ I). apply Hseg.
Qed.
Lemma inv_exec s g path args image r v' : sys_inv Q all s g → image_safe Q image → args_ok (path :: args) → load_image path args image (sy_v s) = (r, v') →
  ∃ g', sys_inv Q all (set_v v' s) g'.
Proof.
  intros I HI [Ha1 Ha2] E. pose proof (image_safe_ok s g image I HI) as Hi.
  destruct (load_image_ok path args image (sy_v s) g r v' (si_ok _ _ _ _ I) (si_cr3 _ _ _ _ I) Hi Ha1 Ha2 E) as (g' & HX). exists g'.
  destruct r as [li|e].
  - destruct HX as (h & _ & [L1 [L2 [_ L2']] [L3 [L3' L3'']] (sp & L4 & _) _ _ _ _ _ L5] & _). split; cbn [set_v sy_v sy_private sy_shared].
    + done.
    + by rewrite L2', (si_env _ _ _ _ I).
    + by rewrite L2, (si_held _ _ _ _ I).
    + intros f Hf. apply L5; [by eapply held_private|by apply (si_unmapped _ _ _ _ I)].
    + unfold cr3_ok. rewrite L3, L3'. destruct (si_cr3 _ _ _ _ I) as [?|(x & Hx & Ex)]; [by left|right]. exists x. rewrite L4, elem_of_app. auto.
    + intros i Hj. rewrite L3. unfold entry. rewrite L3''. by apply (si_boot _ _ _ _ I).
  - destruct HX as [L1 [L2 L2'] [L3 [L3' L3'']] L4 _ _ L5]. split; cbn [set_v sy_v sy_private sy_shared].
    + done.
    + by rewrite L2', (si_env _ _ _ _ I).
    + by rewrite L2, (si_held _ _ _ _ I).
    + intros f Hf. apply L5; [by eapply held_private|by apply (si_unmapped _ _ _ _ I)].
    + unfold cr3_ok. rewrite L3, L3'. destruct (si_cr3 _ _ _ _ I) as [?|(x & Hx & Ex)]; [by left|right]. exists x. by rewrite L4.
    + intros i Hj. rewrite L3. unfold entry. rewrite L3''. by apply (si_boot _ _ _ _ I).
Qed.

Lemma inv_store s g va b m : sys_inv Q all s g → is_byte b → user_store (v_cr3 (sy_v s)) va b (v_mem (sy_v s)) = Some m → sys_inv Q all (set_v (set_mem m (sy_v s)) s) g.
Proof.
  intros I Hb E. destruct (si_cr3 _ _ _ _ I) as [Hc|HL].
  - unfold user_store in E. rewrite Hc, closed_access in E by apply I. done.
  - apply (inv_carries s g); [done|]. apply (writes_carries (v_cr3 (sy_v s))); [apply I|].
    eapply (user_store_bytes_ok (sy_v s) g _ [b]); [apply I|done|by constructor| |cbn [user_store_bytes]; by rewrite E]. split; [apply (vo_mem _ _ (si_ok _ _ _ _ I))|by left].
Qed.
Lemma inv_copy_out s g ptr mx bs v' : sys_inv Q all s g → Forall is_byte bs → u64 ptr → user_copy_out ptr mx bs (sy_v s) = Some (Some v') → sys_inv Q all (set_v v' s) g.
Proof.
  intros I Hb Hp E. destruct (si_cr3 _ _ _ _ I) as [Hc|HL].
  - unfold user_copy_out in E. destruct (validate_user_range _ _ _ _ _) as [[]|] eqn:Ev; [|done..]. exfalso.
    destruct (validate_all ptr (len bs) mx true (sy_v s) Hp (len_nonneg bs) Ev) as [Hn HA]. destruct (HA ptr) as [pa Epa]; [lia|].
    rewrite Hc, closed_access in Epa by apply I. done.
  - destruct (user_copy_out_ok ptr mx bs (sy_v s) g v' (si_ok _ _ _ _ I) HL Hb Hp E) as (m & -> & W & _). apply (inv_carries s g); [done|].
    by apply (writes_carries (v_cr3 (sy_v s))); [apply I|].
Qed.
Lemma inv_mprotect s g addr n flags r v' : sys_inv Q all s g → in_user (sy_v s) → u64 addr → u64 n → sys_mprotect addr n flags (sy_v s) = (r, v') → sys_inv Q all (set_v v' s) g.
Proof.
  intros I HL Ha Hn E. destruct (sys_mprotect_ok addr n flags (sy_v s) g r v' (si_ok _ _ _ _ I) (inv_perm s g I) HL Ha Hn E) as (H' & Ev & Hm & Hu & _).
  assert (Hb : g_own g !! page_down (v_boot (sy_v s)) = None).
  { destruct (g_own g !! page_down (v_boot (sy_v s))) as [[q k]|] eqn:Eo; [|done]. destruct (own_apart _ _ _ _ _ Boot (si_ok _ _ _ _ I) Eo) as [?|[?|?]]; [by apply is_at_spec|done..]. }
  apply (inv_carries s g); [done|]. split; [done|done|by rewrite Ev|by apply Hm|by rewrite Ev|done|auto].
Qed.
Lemma inv_free s g p : sys_inv Q all s g → ∃ g', sys_inv Q all (set_v (free_address_space p (sy_v s)) s) g'.
Proof.
  intros I. pose proof (si_ok _ _ _ _ I) as H. destruct (decide (p = v_cr3 (sy_v s))) as [->|Hp].
  { exists g. unfold free_address_space. rewrite Z.eqb_refl. by destruct I, s. }
  destruct (decide (Exists (λ x, as_pml4 x = p) (v_spaces (sy_v s)))) as [(x & Hx & Ex)%Exists_exists|Hn].
  2:{ exists g. unfold free_address_space. destruct (p =? current_pml4 (sy_v s)); [by destruct I, s|]. destruct (position (is_space p) (v_spaces (sy_v s))) as [i|] eqn:Ei; [|by destruct I, s].
      exfalso. apply Hn. apply Exists_exists. apply position_Some in Ei as (y & Hy & Ey & _). exists y. split; [by eapply list_elem_of_lookup_2|]. unfold is_space in Ey. lia. }
  destruct (free_address_space_ok (sy_v s) g p H) as (y & a' & Hy & Ey & HP & Ef & _ & H'); [by exists x|done|]. exists (without p g).
  split; cbn [set_v sy_v sy_private sy_shared]; [done|apply I|apply I| | |].
  - intros f Hf t q i [Ht _]%without_own Hi. rewrite Ef. cbn [v_mem set_spaces set_alloc]. by apply (si_unmapped _ _ _ _ I f Hf t q).
  - destruct (si_cr3 _ _ _ _ I) as [Hc|(z & Hz & Ez)]; [left; by rewrite Ef|right]. exists z. rewrite Ef at 2. split; [|done]. rewrite HP in Hz. apply elem_of_cons in Hz as [->|?]; [congruence|done].
  - intros i Hi. rewrite Ef. cbn [v_mem v_boot set_spaces set_alloc]. by apply (si_boot _ _ _ _ I).
Qed.
Lemma inv_switch s g p : sys_inv Q all s g → p = page_down (v_boot (sy_v s)) ∨ live p (sy_v s) → sys_inv Q all (set_v (switch_to p (sy_v s)) s) g.
Proof.
  intros I Hp. pose proof (si_ok _ _ _ _ I) as H. split; cbn [set_v sy_v sy_private sy_shared switch_to]; [|apply I|apply I|apply I|exact Hp|apply I].
  eapply (vmm_ok_frames (sy_v s) _ g); [done|done|apply H|done..|apply H|done|auto].
Qed.
Lemma inv_alloc s g f v' : sys_inv Q all s g → alloc_zeroed_frame (sy_v s) = (Some f, v') →
  sys_inv Q all {| sy_v := v'; sy_private := f :: sy_private s; sy_shared := sy_shared s |} (holding f g).
Proof.
  intros I E. destruct (alloc_zeroed_taken 0 (sy_v s) g f v' (si_ok _ _ _ _ I) E) as [[P1 P2 [P3 P3'] P4 P5 P6 P7 P8 P9] T2 T3 T4 T5]. split; cbn [sy_v sy_private sy_shared].
  - done.
  - by rewrite P2, (si_env _ _ _ _ I).
  - simpl. by rewrite (si_held _ _ _ _ I).
  - intros x [->|Hx]%elem_of_cons; apply T2; [by left|right]. split; [by eapply held_private|by apply (si_unmapped _ _ _ _ I)].
  - unfold cr3_ok. rewrite P3, P3'. destruct (si_cr3 _ _ _ _ I) as [?|HL]; [by left|right]. by eapply live_roots.
  - intros i Hi. rewrite P3. unfold entry. rewrite P9; [by apply (si_boot _ _ _ _ I)|right; right; by left].
Qed.
Lemma zero_run_mem l first m f : (f ∉ map (λ j, first + PAGE_SIZE * Z.of_nat j) l → fold_left (λ m idx, zero_frame (first + Z.of_nat idx * 4096) m) l m f = m f) ∧
  ((∀ h, page_ok (m h)) → page_ok (fold_left (λ m idx, zero_frame (first + Z.of_nat idx * 4096) m) l m f)).
Proof.
  revert m. induction l as [|x l IH]; intros m; [done|]. cbn [fold_left map]. destruct (IH (zero_frame (first + Z.of_nat x * 4096) m)) as [IH1 IH2]. split.
  - intros [Hne Hn]%not_elem_of_cons. rewrite IH1 by done. unfold zero_frame. apply fn_lookup_insert_ne. unfold PAGE_SIZE in *. lia.
  - intros Hm. apply IH2. intros h. unfold zero_frame. destruct (decide (h = first + Z.of_nat x * 4096)) as [->|]; [rewrite fn_lookup_insert; apply zeros_page_ok|by rewrite fn_lookup_insert_ne].
Qed.
Lemma inv_alloc_run s g count f v' : sys_inv Q all s g → alloc_contiguous_zeroed_frames count (sy_v s) = (Some f, v') →
  ∃ g', sys_inv Q all {| sy_v := v'; sy_private := map (λ j, f + PAGE_SIZE * Z.of_nat j) (seq 0 count) ++ sy_private s; sy_shared := sy_shared s |} g'.
Proof.
  intros I. pose proof (si_ok _ _ _ _ I) as H. unfold alloc_contiguous_zeroed_frames. destruct (count =? 0)%nat; [done|]. destruct (v_alloc (sy_v s)) as [a|] eqn:Ea; [|done].
  destruct (allocate_contiguous count a) as [[first|] a'] eqn:E; [|done]. intros [= <- <-]. apply allocate_contiguous_available in E as (skipped & HP).
  set (run := map (λ j, first + PAGE_SIZE * Z.of_nat j) (seq 0 count)) in *. set (m' := fold_left _ _ _).
  assert (Hav : ∀ x, x ∈ run → x ∈ from_option available [] (v_alloc (sy_v s))) by (intros x Hx; rewrite Ea; simpl; rewrite HP, elem_of_app; by left).
  assert (Hm : ∀ x, x ∉ run → m' x = v_mem (sy_v s) x) by (intros x Hx; by apply zero_run_mem).
  assert (Hown : ∀ t, is_Some (g_own g !! t) → m' t = v_mem (sy_v s) t) by (intros t [y Hy]; apply Hm; intros Hx%Hav; by rewrite (own_not_held _ _ t H) in Hy by auto).
  exists {| g_own := g_own g; g_lost := skipped ++ g_lost g; g_held := run ++ g_held g; g_env := g_env g |}. split; cbn [sy_v sy_private sy_shared g_env g_held].
  - eapply (vmm_ok_frames (sy_v s) _ g); [done| |eauto|done|done|done| |intros x; apply zero_run_mem; apply H|done|].
    + unfold all_frames. simpl. rewrite Ea. simpl. rewrite HP. rewrite <-!app_assoc. solve_Permutation.
    + intros x Hx. simpl. apply elem_of_app. by right.
    + intros x Hx. left. simpl. apply elem_of_app. by right.
  - apply I.
  - by rewrite (si_held _ _ _ _ I), app_assoc.
  - intros x Hx. apply (unmapped_same x (v_mem (sy_v s)) m' g Hown). apply elem_of_app in Hx as [Hx|Hx]; [by eapply available_unmapped; [|apply Hav]|by apply (si_unmapped _ _ _ _ I)].
  - apply I.
  - intros i Hi. cbn [v_mem v_boot set_mem set_alloc]. unfold entry. rewrite Hm; [by apply (si_boot _ _ _ _ I)|]. intros Hx%Hav.
    assert (Hb : is_at (sy_v s) g (page_down (v_boot (sy_v s))) Boot) by by apply is_at_spec.
    by pose proof (is_at_unique _ _ _ _ Avail H Hb ltac:(by apply is_at_spec)).
Qed.
Lemma inv_release s g f l : sys_inv Q all s g → sy_private s ≡ₚ f :: l →
  ∃ g', sys_inv Q all {| sy_v := free_unmapped_frame f (sy_v s); sy_private := l; sy_shared := sy_shared s |} g'.
Proof.
  intros I Hl. pose proof (si_ok _ _ _ _ I) as H. exists (set_held (l ++ sy_shared s) g).
  assert (Hf : f ∈ sy_private s) by (rewrite Hl; left). destruct (vo_init _ _ H) as [a Ea].
  assert (H' : vmm_ok (free_unmapped_frame f (sy_v s)) (set_held (l ++ sy_shared s) g)).
  { apply free_held; [done|by rewrite (si_held _ _ _ _ I), Hl|by apply (si_unmapped _ _ _ _ I)]. }
  unfold free_unmapped_frame in *. rewrite Ea in *. split; cbn [sy_v sy_private sy_shared]; [done|apply I|done| |apply I|apply I].
  intros x Hx. apply (si_unmapped _ _ _ _ I). rewrite Hl. by right.
Qed.
Lemma inv_fill s g f d : sys_inv Q all s g → f ∈ sy_private s ++ sy_shared s → page_ok d → sys_inv Q all (set_v (set_mem (<[f := d]> (v_mem (sy_v s))) (sy_v s)) s) g.
Proof.
  intros I Hf Hd. pose proof (si_ok _ _ _ _ I) as H. rewrite <-(si_held _ _ _ _ I) in Hf. assert (Hn : g_own g !! f = None) by (apply (own_not_held (sy_v s)); auto).
  assert (Hown : ∀ t, is_Some (g_own g !! t) → (<[f := d]> (v_mem (sy_v s)) : Mem) t = v_mem (sy_v s) t) by (intros t [x Hx]; apply fn_lookup_insert_ne; congruence).
  apply (inv_carries s g); [done|]. split; try done.
  - apply vmm_ok_write; [done| |done]. intros h. destruct (decide (h = f)) as [->|]; [by rewrite fn_lookup_insert|rewrite fn_lookup_insert_ne by done; apply H].
  - cbn [v_mem set_mem]. apply fn_lookup_insert_ne. intros ->. assert (Hb : is_at (sy_v s) g (page_down (v_boot (sy_v s))) Boot) by by apply is_at_spec.
    by pose proof (is_at_unique _ _ _ _ Held H Hb ltac:(by apply is_at_spec)).
  - intros x _. by apply unmapped_same.
Qed.
Lemma inv_publish s g f l : sys_inv Q all s g → sy_private s ≡ₚ f :: l → sys_inv Q all {| sy_v := sy_v s; sy_private := l; sy_shared := f :: sy_shared s |} g.
Proof.
  intros I Hl. split; cbn [sy_v sy_private sy_shared]; [apply I|apply I| | |apply I|apply I].
  - rewrite (si_held _ _ _ _ I), Hl. by rewrite <-Permutation_middle.
  - intros x Hx. apply (si_unmapped _ _ _ _ I). rewrite Hl. by right.
Qed.
Lemma inv_share s g p va f flags r v' : sys_inv Q all s g → f ∈ sy_shared s → live p (sy_v s) → user_root (pt_index 4 va) → flags_ok flags → Q flags →
  map_page_in p va f flags (sy_v s) = (r, v') → ∃ g', page_mapped p va f flags (is_ok r) (sy_v s) g v' g' ∧ sys_inv Q all (set_v v' s) g'.
Proof.
  intros I Hf HL HR F Fq E. pose proof (si_ok _ _ _ _ I) as H. assert (Hh : f ∈ g_held g) by (rewrite (si_held _ _ _ _ I), elem_of_app; auto).
  assert (Fp : g_perm g flags) by (unfold g_perm; by rewrite (si_env _ _ _ _ I)). destruct (map_page_in_ok p va f flags (sy_v s) g r v' H F Fp Hh HL HR E) as (g' & X).
  exists g'. split; [done|]. pose proof X as [X1 [X2 X2'] _ _ X4 [X5 X5'] X6 _ _ _ _]. split; cbn [set_v sy_v sy_private sy_shared].
  - done.
  - by rewrite X2', (si_env _ _ _ _ I).
  - by rewrite X2, (si_held _ _ _ _ I).
  - intros x Hx. eapply (page_mapped_unmapped _ _ _ _ _ _ _ _ _ x X); [|by apply (si_unmapped _ _ _ _ I)]. intros _ ->. pose proof (vo_nodup _ _ H) as N.
    rewrite <-(vo_all _ _ H) in N. unfold all_frames in N. rewrite (si_held _ _ _ _ I) in N. apply NoDup_app in N as (_ & _ & N). apply NoDup_app in N as (_ & _ & N).
    apply NoDup_app in N as (N & _). apply NoDup_app in N as (_ & N & _). by eapply N.
  - unfold cr3_ok. rewrite X5, X5'. destruct (si_cr3 _ _ _ _ I) as [?|HL']; [by left|right]. eapply live_roots; [|done]. by apply roots_leaves.
  - intros i Hi. rewrite X5. unfold entry. rewrite (kept_data _ _ _ _ _ _ _ _ _ _ H X); [by apply (si_boot _ _ _ _ I)|right; right; by left].
Qed.

Lemma vstep_inv s g s' : sys_inv Q all s g → vstep Q s s' → ∃ g', sys_inv Q all s' g'.
Proof.
  intros I Hs. pose proof (si_ok _ _ _ _ I) as H. pose proof (inv_perm s g I) as HQ. destruct Hs.
  - by eapply inv_exec.
  - destruct H1, H2. apply (sys_mmap_ok addr n flags (sy_v s) g) in H3 as (g' & A & _); [|done..]. exists g'. eapply inv_carries; [done|by eapply after_carries].
  - exists g. exact (inv_mprotect s g addr n flags r v' I H0 H1 H2 H3).
  - apply (sys_mmap_file_ok task fds desc (sy_v s) g) in H2 as (g' & A & _); [|done..]. exists g'. eapply inv_carries; [done|by eapply after_carries].
  - apply (thread_stack_ok entry tls flags spawn slot (sy_v s) g) in H2 as (g' & A & _); [|done..]. exists g'. by eapply inv_carries.
  - exists g. by eapply inv_store.
  - exists g. by eapply inv_copy_out.
  - by eapply inv_free.
  - exists g. apply inv_switch; auto.
  - exists g. apply inv_switch; auto.
  - exists (holding f g). by apply inv_alloc.
  - exists g. eapply inv_carries; [done|]. eapply (after_carries 0). by apply alloc_none_after.
  - by eapply inv_alloc_run.
  - by eapply inv_release.
  - exists g. by apply inv_fill.
  - exists g. by apply inv_publish.
  - destruct (inv_share s g p va f flags r v') as (g' & _ & I'); [done..|]. by exists g'.
Qed.
Lemma vrun_inv s g s' : sys_inv Q all s g → rtc (vstep Q) s s' → ∃ g', sys_inv Q all s' g'.
Proof. intros I Hr. revert g I. induction Hr as [s|s s1 s2 Hs _ IH]; intros g I; [eauto|]. destruct (vstep_inv s g s1 I Hs) as (g1 & I1). by apply (IH g1). Qed.
End Invariant.
