(* ===== verification/VmmClaims.v ===== *)
(** * What the memory system guarantees

    The properties of address spaces, in every state the steps of [VmmRun] reach
    from boot: isolation, no page both writable and executable, and what each
    system call and the loading of a program change of what programs read. *)
From stdpp Require Import gmap functions relations.
From S2P Require Import Prelude UserLayout FrameAlloc Vmm VmmMem VmmInv VmmMap VmmOps VmmAccess VmmProtect VmmSpaces VmmBoot UserMem Pipe FdTable Mmap MmapOps Elf ElfLoad ElfStack ElfImage VmmRun.
Set Warnings "-clear-no-such-hyp".

Local Open Scope Z_scope.

(** A state that [s] can be. *)
Definition reachable `{Mapper} (Q : Z → Prop) (m : Mem) (cr3 : Z) (a : FrameAlloc) (s : Sys) : Prop :=
  boot_ok m cr3 a ∧ rtc (vstep Q) (sys_boot m cr3 a) s.
(** Every frame but those lost to a mapping that failed and those passed over for
    a contiguous run. *)
Definition sys_frames (s : Sys) : list Z :=
  from_option available [] (v_alloc (sy_v s)) ++ mjoin (map space_frames (v_spaces (sy_v s))) ++ sy_private s ++ sy_shared s ++ [page_down (v_boot (sy_v s))].

(** The fetch of an instruction: as a read, and no entry on the way forbids it. *)
Definition user_fetch (p va : Z) (m : Mem) : option Z :=
  let l4 := entry m p (pt_index 4 va) in
  if negb (permits l4 false) || Z.testbit l4 63 then None else
  let l3 := entry m (e_addr l4) (pt_index 3 va) in
  if negb (permits l3 false) || Z.testbit l3 63 then None else
  if Z.testbit l3 7 then Some (Z.land l3 0xfffffc0000000 + va mod 2 ^ 30) else
  let l2 := entry m (e_addr l3) (pt_index 2 va) in
  if negb (permits l2 false) || Z.testbit l2 63 then None else
  if Z.testbit l2 7 then Some (Z.land l2 0xfffffffe00000 + va mod 2 ^ 21) else
  let l1 := entry m (e_addr l2) (pt_index 1 va) in
  if negb (permits l1 false) || Z.testbit l1 63 then None else Some (e_addr l1 + va mod PAGE_SIZE).

Lemma path_walk m fl va p t : path m fl va 4 p t → let e4 := entry m p (pt_index 4 va) in let e3 := entry m (e_addr e4) (pt_index 3 va) in
  let e2 := entry m (e_addr e3) (pt_index 2 va) in Z.testbit e3 7 = false ∧ Z.testbit e2 7 = false ∧ e_addr e2 = t.
Proof.
  intros HP. inversion HP as [|? ? l3 ? L4 P3]; subst. inversion P3 as [|? ? l2 ? L3 P2]; subst. inversion P2 as [|? ? l1 ? L2 P1]; subst. inversion P1; subst.
  cbn zeta. rewrite (proj1 L4), (proj1 L3). split_and!; [apply L3|apply L2|apply L2].
Qed.
(** The last entry decides. *)
Lemma fetch_leaf m fl va p t : path m fl va 4 p t → Z.testbit (entry m t (pt_index 1 va)) 63 = true → user_fetch p va m = None.
Proof.
  intros HP%path_walk Hx. cbn zeta in HP. destruct HP as (E3 & E2 & E1). unfold user_fetch. rewrite E3, E2, E1, Hx, orb_true_r. by repeat case_match.
Qed.
Lemma access_fetch v g p va pa : vmm_ok v g → live p v → (∀ fl, g_perm g fl → wx_ok fl) → user_access p va true (v_mem v) = Some pa → user_fetch p va (v_mem v) = None.
Proof.
  intros H HL HW E. destruct (access_reaches v g p va true pa H HL E) as (_ & t & [HP HE] & Ht & _). eapply fetch_leaf; [done|].
  pose proof (HW _ (vo_perm _ _ H t p (pt_index 1 va) Ht (pt_index_ok _ _) (permits_nonzero _ _ HE))) as Hw. unfold wx_ok in Hw. unfold permits in HE.
  apply andb_true_iff in HE as [_ HE]. unfold e_flags in Hw. rewrite !Z.land_spec in Hw. cbn [negb orb] in HE. rewrite HE in Hw.
  specialize (Hw eq_refl). by apply andb_true_iff in Hw as [Hw _].
Qed.

Lemma placed_fetch v g p va flags f d a : vmm_ok v g → placed p va flags f d v → flags_ok flags → Z.testbit flags 63 = true → page_down va = page_down a → user_fetch p a (v_mem v) = None.
Proof.
  intros H [(t & HP & HE) _ O] F F63 Ea. eapply fetch_leaf; [by apply (path_same_page _ _ va a)|]. rewrite (pt_index_same 1 a va) by (done || lia).
  rewrite HE, lor_frame_bit; [done|by eapply owns_frame_ok|done].
Qed.

(** ** What a program reads of its image and stack *)
Definition user_bytes (p va n : Z) (m : Mem) : option bytes := mapM (λ i, user_load p (va + Z.of_nat i) m) (seq 0 (Z.to_nat n)).
Lemma user_bytes_slice p va n m d off : 0 ≤ off → off + n ≤ len d → (∀ i, 0 ≤ i < n → user_load p (va + i) m = Some (nthZ d (off + i))) →
  user_bytes p va n m = Some (slice d off n).
Proof.
  intros Ho Hd Hl. unfold user_bytes, len, slice in *. apply mapM_seq_some. split; [rewrite length_take, length_drop; lia|]. intros i x Hx.
  apply lookup_take_Some in Hx as [Hx Hi]. rewrite lookup_drop in Hx. rewrite Hl by lia. f_equal. unfold nthZ.
  replace (Z.to_nat (off + Z.of_nat i)) with (Z.to_nat off + i)%nat by lia. by apply nth_lookup_Some.
Qed.
Lemma stack_load v g p argv a : vmm_ok v g → stack_loaded p argv v → STACK_PAGE ≤ a < USER_STACK_TOP → user_load p a (v_mem v) = Some (nthZ (stack_page argv) (a - STACK_PAGE)).
Proof.
  intros H HS Ha. destruct (HS (USER_STACK_SIZE - PAGE_SIZE)) as (f & Hpl); [by apply elem_of_page_offsets|]. rewrite Z.sub_add, Z.eqb_refl in Hpl.
  assert (Ep : page_down a = STACK_PAGE) by (apply page_down_unique; [done|]; unfold STACK_PAGE, PAGE_SIZE in *; lia).
  destruct (placed_load v g _ _ _ _ _ a H Hpl ltac:(apply stack_flags_ok) ltac:(done) Ep) as [-> _]. do 2 f_equal. rewrite <-Ep. unfold page_down. lia.
Qed.
Lemma stack_words_load v g p argv : vmm_ok v g → stack_loaded p argv v → args_fit argv →
  user_bytes p (stack_rsp argv) (8 * len (stack_words argv)) (v_mem v) = Some (words (stack_words argv)) ∧
  ∀ k x, argv !! k = Some x → ∃ ptr, stack_words argv !! S k = Some ptr ∧ user_bytes p ptr (len x + 1) (v_mem v) = Some (x ++ [0]).
Proof.
  intros H HS HF. pose proof (stack_page_len argv HF) as HL. pose proof HF as [HF1 _]. destruct (words_end_spec argv) as [_ Hw]. split.
  - rewrite <-(stack_page_words argv HF). assert (Hend : stack_rsp argv + 8 * len (stack_words argv) ≤ USER_STACK_TOP).
    { unfold stack_rsp, strings_at in *. pose proof (len_nonneg (strings argv)). lia. }
    apply user_bytes_slice; [lia|rewrite HL; unfold STACK_PAGE; lia|]. intros i Hi. rewrite (stack_load v g p argv) by (done || lia). do 2 f_equal. lia.
  - intros k x Hk. destruct (stack_page_string argv k x HF Hk) as (ptr & Hp & P1 & P2 & Es). exists ptr. split.
    + unfold stack_words. simpl. rewrite lookup_app_l; [done|by eapply lookup_lt_Some].
    + rewrite <-Es. pose proof (len_nonneg x). apply user_bytes_slice; [lia|rewrite HL; unfold STACK_PAGE; lia|].
      intros i Hi. rewrite (stack_load v g p argv) by (done || lia). do 2 f_equal. lia.
Qed.
Lemma segment_load v g image ph p a : vmm_ok v g → 0 ≤ p_vaddr ph → validate_load_segment ph (len image) = Ok tt → seg_loaded image ph p v →
  p_vaddr ph ≤ a < p_vaddr ph + p_memsz ph →
  user_load p a (v_mem v) = Some (seg_byte image ph a) ∧ (is_Some (user_access p a true (v_mem v)) ↔ Z.land (p_flags ph) PF_W ≠ 0) ∧
  (Z.land (p_flags ph) PF_X = 0 → user_fetch p a (v_mem v) = None).
Proof.
  intros H Hv HV HS Ha. destruct (validate_spec ph (len image) Hv HV) as (_ & _ & _ & Hm & _). destruct (HS (page_down a)) as (f & Hpl).
  { apply elem_of_seg_pages; [done|]. unfold seg_start, seg_end. destruct (page_down_bounds (p_vaddr ph)) as [? _], (page_down_bounds (p_vaddr ph + p_memsz ph + 4095)) as [? _].
    unfold PAGE_SIZE in *. lia. }
  destruct (load_flags_ok ph) as (F & F2 & F1). assert (Ed : page_down a = page_down (page_down a)) by (symmetry; apply page_down_aligned, page_down_bounds).
  destruct (placed_load v g _ _ _ _ _ a H Hpl F F2 Ed) as [-> Hw]. pose proof (Z.mod_pos_bound a PAGE_SIZE ltac:(done)). split_and!.
  - rewrite nthZ_seg_page by done. do 2 f_equal. unfold page_down. lia.
  - by rewrite Hw.
  - intros HX. eapply placed_fetch; [done|exact Hpl|done| |done]. unfold load_flags. rewrite HX. simpl. by destruct (Z.land (p_flags ph) PF_W =? 0).
Qed.

Section Claims.
Context {MP : Mapper} {MS : MapperSpec}.

Lemma reached_inv Q m cr3 a s : (∀ fl, wx_ok fl → Q fl) → reachable Q m cr3 a s → ∃ g, sys_inv Q (available a ++ [cr3]) s g.
Proof. intros HQ [HB HR]. by eapply (vrun_inv Q _ HQ _ _ s (boot_sys_inv Q m cr3 a HB)). Qed.

Lemma inv_isolated Q all s g : sys_inv Q all s g → let v := sy_v s in
  (∀ p va w pa, live p v → user_access p va w (v_mem v) = Some pa →
    user_root (pt_index 4 va) ∧ (owns p (page_down pa) v ∨ page_down pa ∈ sy_shared s)) ∧
  (∀ p q va vb w w' pa, live p v → live q v → 0 ≤ va < 2 ^ 48 → 0 ≤ vb < 2 ^ 48 →
    user_access p va w (v_mem v) = Some pa → user_access q vb w' (v_mem v) = Some pa → (p = q ∧ va = vb) ∨ page_down pa ∈ sy_shared s) ∧
  (live (v_cr3 v) v ∨ v_cr3 v = page_down (v_boot v) ∧ ∀ va w, user_access (v_cr3 v) va w (v_mem v) = None).
Proof.
  intros I v. pose proof (si_ok _ _ _ _ I) as H.
  assert (HS : ∀ p va w pa, live p v → user_access p va w (v_mem v) = Some pa → page_down pa ∈ g_held g → page_down pa ∈ sy_shared s).
  { intros p va w pa HL E Hh. rewrite (si_held _ _ _ _ I) in Hh. apply elem_of_app in Hh as [Hh|?]; [|done]. destruct (access_mapped v g p va w pa H HL E). by apply (si_unmapped _ _ _ _ I). }
  split_and!.
  - intros p va w pa HL E. split; [by destruct (access_reaches v g p va w pa H HL E) as [? _]|].
    destruct (access_frame v g p va w pa H HL E) as [Hx|Hx]; apply is_at_spec in Hx; [left; destruct Hx as (x & Hx); exists x; naive_solver|right; by eapply HS].
  - intros p q va vb w w' pa Hp Hq Ha Hb Ea Eb. destruct (decide (page_down pa ∈ g_held g)) as [Hh|Hh]; [right; by eapply HS|left]. by eapply (access_inj v g).
  - destruct (si_cr3 _ _ _ _ I) as [Hc|?]; [right|by left]. split; [done|]. intros va w. unfold v. rewrite Hc. apply closed_access, I.
Qed.

(** C7: Address spaces are isolated, in every state reached from boot.  Whatever a
    program can access lies in the part of the address space that is its own, in a
    frame that its address space owns or that the kernel shares; two accesses meet
    in one byte only through the same address of the same space or in shared memory;
    CR3 holds a live address space, or the boot table, through which nothing can be
    accessed; and no frame has two uses: free, root, page table or page of a space,
    kernel frame, shared frame, boot table.  The steps from boot ([vstep]) load only
    images whose loadable segments lie below the two user entries of the top table
    ([image_safe], which the loader does not check), with arguments that fit the
    stack page or that the loader refuses ([args_ok]), and never release a frame that
    the kernel shares. *)
Theorem address_space_isolation Q m cr3 a s : (∀ fl, wx_ok fl → Q fl) → reachable Q m cr3 a s →
  let v := sy_v s in
  (∀ p va w pa, live p v → user_access p va w (v_mem v) = Some pa →
    user_root (pt_index 4 va) ∧ (owns p (page_down pa) v ∨ page_down pa ∈ sy_shared s)) ∧
  (∀ p q va vb w w' pa, live p v → live q v → 0 ≤ va < 2 ^ 48 → 0 ≤ vb < 2 ^ 48 →
    user_access p va w (v_mem v) = Some pa → user_access q vb w' (v_mem v) = Some pa → (p = q ∧ va = vb) ∨ page_down pa ∈ sy_shared s) ∧
  (live (v_cr3 v) v ∨ v_cr3 v = page_down (v_boot v) ∧ ∀ va w, user_access (v_cr3 v) va w (v_mem v) = None) ∧
  NoDup (sys_frames s) ∧ ∃ lost, sys_frames s ++ lost ≡ₚ available a ++ [cr3].
Proof.
  intros HQ HR v. destruct (reached_inv Q m cr3 a s HQ HR) as (g & I). pose proof (si_ok _ _ _ _ I) as H. destruct (inv_isolated Q _ s g I) as (H1 & H2 & H3).
  assert (HP : sys_frames s ++ g_lost g ≡ₚ available a ++ [cr3]).
  { pose proof (vo_all _ _ H) as HA. unfold g_all in HA. rewrite (si_env _ _ _ _ I) in HA. rewrite <-HA. unfold sys_frames, all_frames. rewrite (si_held _ _ _ _ I).
    fold v. rewrite <-!app_assoc. solve_Permutation. }
  split_and!; [exact H1|exact H2|exact H3| |eauto].
  assert (N : NoDup (sys_frames s ++ g_lost g)) by (rewrite HP; apply HR). by apply NoDup_app in N as [? _].
Qed.

(** C8: No page of a program is writable and executable, as long as no program with
    such a segment was loaded: in every state reached from boot an address that can
    be written in a live address space cannot be executed. *)
Theorem write_xor_execute m cr3 a s p va pa : reachable wx_ok m cr3 a s → live p (sy_v s) →
  user_access p va true (v_mem (sy_v s)) = Some pa → user_fetch p va (v_mem (sy_v s)) = None.
Proof.
  intros HR HL E. destruct (reached_inv wx_ok m cr3 a s ltac:(done) HR) as (g & I). eapply (access_fetch (sy_v s) g); [apply I|done| |done].
  intros fl. unfold g_perm. by rewrite (si_env _ _ _ _ I).
Qed.

Section Reached.
Context (Q : Z → Prop) (HQ : ∀ fl, wx_ok fl → Q fl) (m0 : Mem) (cr3 : Z) (a0 : FrameAlloc) (s : Sys) (HR : reachable Q m0 cr3 a0 s).
Let v : Vmm := sy_v s.

(** C25: A store of a program is a store to its own memory.  In every state reached
    from boot it changes no access right; the address stored to reads back the byte;
    and no other address of any address space changes what it reads, unless both
    addresses lead to memory that the kernel shares. *)
Theorem user_store_correct p va b m : live p v → 0 ≤ va < 2 ^ 48 → is_byte b → user_store p va b (v_mem v) = Some m →
  (∀ q a w, live q v → user_access q a w m = user_access q a w (v_mem v)) ∧ user_load p va m = Some b ∧
  ∀ q a, live q v → 0 ≤ a < 2 ^ 48 → (q, a) ≠ (p, va) → user_load q a m = user_load q a (v_mem v) ∨
    ∃ pa, user_access p va true (v_mem v) = Some pa ∧ user_access q a false (v_mem v) = Some pa ∧ page_down pa ∈ sy_shared s.
Proof.
  intros HL Ha Hb E. destruct (reached_inv Q m0 cr3 a0 s HQ HR) as (g & I). pose proof (si_ok _ _ _ _ I) as H.
  destruct (user_store_spec p va b v g m H HL Ha Hb E) as (_ & S1 & S2 & S3). split_and!; [done|done|]. intros q a' Hq Ha' Hne.
  destruct (S3 q a' Hq Ha' Hne) as [?|(pa & E1 & E2 & Hh)]; [by left|right]. exists pa. split_and!; [done|done|].
  rewrite (si_held _ _ _ _ I) in Hh. apply elem_of_app in Hh as [Hh|?]; [|done]. destruct (access_mapped v g p va true pa H HL E1). by apply (si_unmapped _ _ _ _ I).
Qed.

(** C22: [sys_mmap] maps fresh zeroed pages and touches nothing else.  It answers
    [u64::MAX] or the address asked for.  In the second case the address is page
    aligned, the range lies in the mmap arena, and the protection is not write and
    execute at once; then every byte of the range reads 0, is writable exactly if
    asked for, and is not executable unless asked for.  In both cases all that any
    program could access it still can, and reads the same; and no page outside the
    rounded range becomes mapped in any address space. *)
Theorem sys_mmap_correct addr n flags r v' : in_user v → u64 addr → u64 n → sys_mmap addr n flags v = (r, v') →
  views_kept v v' ∧
  adds_range (v_cr3 v) addr (pages_of n) v v' ∧
  (r = U64_MAX ∨ r = addr ∧ addr mod PAGE_SIZE = 0 ∧ 0 < n ∧ USER_MMAP_BASE ≤ addr ∧ addr + n ≤ USER_MMAP_TOP ∧ prot_rejected flags = false ∧
    ∀ a, addr ≤ a < addr + pages_of n → user_load (v_cr3 v) a (v_mem v') = Some 0 ∧
      (is_Some (user_access (v_cr3 v) a true (v_mem v')) ↔ has flags USER_PROT_WRITE = true) ∧
      (has flags USER_PROT_EXEC = false → user_fetch (v_cr3 v) a (v_mem v') = None)).
Proof.
  intros HL [Ha _] [Hn _] E. destruct (reached_inv Q m0 cr3 a0 s HQ HR) as (g & I). pose proof (si_ok _ _ _ _ I) as H.
  destruct (sys_mmap_ok addr n flags v g r v' H (inv_perm Q _ HQ s g I) HL Ha Hn E) as (g' & A & X). pose proof (pr_ok _ _ _ _ _ (af_progress _ _ _ _ _ A)) as H'.
  destruct X as [D X]. split_and!; [by eapply after_views|done|]. destruct X as [?|(-> & A1 & A2 & A3 & A4 & A5 & fs & Hfs)]; [by left|right]. split_and!; [done..|].
  intros a Hin. destruct (pages_of_spec n Hn) as [P1 P2]. destruct (pte_flags_ok flags) as (F & F2 & F1 & F63).
  destruct (pages_placed_load v' g' (v_cr3 v) addr (pages_of n) (pte_flags flags) fs a H' F F2 A1 ltac:(lia) P1 Hfs Hin) as [L1 L2]. rewrite F1 in L2. split_and!; [done|done|].
  intros Ex. destruct (pages_placed_at v' (v_cr3 v) addr (pages_of n) (pte_flags flags) _ fs a A1 ltac:(lia) P1 Hfs Hin) as (x & f & Hpl & Ep).
  eapply (placed_fetch v' g'); [done|exact Hpl|done|by rewrite F63, Ex|done].
Qed.

(** C23: [sys_mprotect] changes the protection of the pages it names and nothing
    else.  It answers 0 exactly when the range is page aligned and within the limits
    of the mmap arena, the protection is not write and execute at once, and the
    program can read every byte; otherwise [u64::MAX].  After the answer 0 every byte
    of the range is readable at the same place, and writable only if asked for.  In
    both cases every address outside the range, in any address space, can be accessed
    as before, and every address of any space reads the same. *)
Theorem sys_mprotect_correct addr n flags r v' : in_user v → u64 addr → u64 n → sys_mprotect addr n flags v = (r, v') →
  (r = 0 ∨ r = U64_MAX) ∧
  (r = 0 ↔ arena addr n ∧ prot_rejected flags = false ∧ ∀ a, addr ≤ a < addr + pages_of n → is_Some (user_access (v_cr3 v) a false (v_mem v))) ∧
  (r = 0 → ∀ a, addr ≤ a < addr + pages_of n → ∃ pa, user_access (v_cr3 v) a false (v_mem v) = Some pa ∧ user_access (v_cr3 v) a false (v_mem v') = Some pa ∧
    if has flags USER_PROT_WRITE then user_access (v_cr3 v) a true (v_mem v) = Some pa → user_access (v_cr3 v) a true (v_mem v') = Some pa
    else user_access (v_cr3 v) a true (v_mem v') = None) ∧
  ∀ q a, live q v → 0 ≤ a < 2 ^ 48 →
    (¬ (q = v_cr3 v ∧ addr ≤ a < addr + pages_of n) → ∀ w, user_access q a w (v_mem v') = user_access q a w (v_mem v)) ∧
    user_load q a (v_mem v') = user_load q a (v_mem v).
Proof.
  intros HL Ha Hn E. destruct (reached_inv Q m0 cr3 a0 s HQ HR) as (g & I). pose proof (si_ok _ _ _ _ I) as H.
  destruct (sys_mprotect_ok addr n flags v g r v' H (inv_perm Q _ HQ s g I) HL Ha Hn E) as (H' & Ev & Hm & _ & Hrd & Hacc & Hr & Hiff & Hok). split_and!; [done|done|done|].
  intros q a Hq Hb. split; [intros Hne w; by apply Hacc|]. unfold user_load. rewrite Hrd by done. destruct (user_access q a false (v_mem v)) as [pa|] eqn:E1; [|done].
  simpl. unfold load_byte. rewrite Hm; [done|]. exact (access_own_frame v g q a false pa H Hq E1).
Qed.

(** C24: [sys_mmap_file] maps the contents of a file, read only.  It answers
    [u64::MAX], or the address the descriptor in user memory asks for; then the
    range lies in the mmap arena and each of its bytes reads the byte of the file at
    that offset, 0 past its end, and cannot be written.  In both cases all that any
    program could access it still can, and reads the same. *)
Theorem sys_mmap_file_correct task fds desc r v' : in_user v → (∀ fd d, file_data task fd fds = Some d → Forall is_byte d) →
  sys_mmap_file task fds desc v = (r, v') →
  views_kept v v' ∧ (r = U64_MAX ∨ ∃ fd n off flags d, user_descriptor5 desc v = Some [fd; r; n; off; flags] ∧ arena r n ∧ off mod PAGE_SIZE = 0 ∧
    file_data task (Z.to_nat fd) fds = Some d ∧ adds_range (v_cr3 v) r (pages_of n) v v' ∧
    ∀ a, r ≤ a < r + pages_of n → user_load (v_cr3 v) a (v_mem v') = Some (nthZ d (off + (a - r))) ∧ user_access (v_cr3 v) a true (v_mem v') = None).
Proof.
  intros HL Hd E. destruct (reached_inv Q m0 cr3 a0 s HQ HR) as (g & I). pose proof (si_ok _ _ _ _ I) as H.
  destruct (sys_mmap_file_ok task fds desc v g r v' H (inv_perm Q _ HQ s g I) HL Hd E) as (g' & A & X). split; [by eapply after_views|].
  destruct X as [?|(fd & n & off & flags & d & X1 & X2 & X3 & X4 & X5 & X6)]; [by left|right]. exists fd, n, off, flags, d. split_and!; try done.
  destruct X2 as (Y1 & Y2 & _). destruct (pages_of_spec n) as [P1 P2]; [lia|]. apply adds_offsets; [done|lia|done|done].
Qed.



(** C26: Freeing an address space that is not in use gives back every frame of it,
    root, tables and pages, and takes nothing from the others: they stay live, and
    what they can access and read does not change. *)
Theorem free_address_space_correct p : live p v → v_cr3 v ≠ p → let v' := free_address_space p v in
  ¬ live p v' ∧ (∀ q, q ≠ p → live q v' ↔ live q v) ∧ (∃ x, x ∈ v_spaces v ∧ as_pml4 x = p ∧
    from_option available [] (v_alloc v') ≡ₚ space_frames x ++ from_option available [] (v_alloc v)) ∧
  ∀ q a, live q v' → (∀ w, user_access q a w (v_mem v') = user_access q a w (v_mem v)) ∧ user_load q a (v_mem v') = user_load q a (v_mem v).
Proof.
  intros HL Hc v'. destruct (reached_inv Q m0 cr3 a0 s HQ HR) as (g & I). pose proof (si_ok _ _ _ _ I) as H.
  destruct (free_address_space_ok v g p H HL Hc) as (x & a' & Hx & Ex & HP & Ef & Ha & H'). fold v' in HP, Ef, H'. split_and!.
  - intros HL'. pose proof (live_root v' (without p g) p H' HL') as Ho. by apply without_own in Ho as [_ ?].
  - intros q Hq. split.
    + intros (y & Hy & Ey). exists y. split; [|done]. rewrite HP. by right.
    + intros (y & Hy & Ey). exists y. split; [|done]. rewrite HP in Hy. apply elem_of_cons in Hy as [->|?]; [congruence|done].
  - exists x. split_and!; [done|done|]. by rewrite Ef.
  - intros q a _. by rewrite Ef.
Qed.
End Reached.
End Claims.
