(* ===== verification/VmmCases.v ===== *)
(** * A machine

    [walk_map_to] behaves as documented of [Mapper::map_to]; a machine of 128
    frames, a program, and the states in which the guarantees are seen at work. *)
From stdpp Require Import gmap functions relations.
From S2P Require Import Prelude UserLayout FrameAlloc Vmm VmmMem VmmInv VmmMap VmmOps VmmAccess VmmProtect VmmSpaces VmmBoot UserMem Pipe FdTable Mmap MmapOps Elf ElfLoad ElfStack ElfImage VmmRun VmmClaims.

Local Open Scope Z_scope.

Lemma walk_map_descends level : ∀ t va frame flags ts, ∃ o ts1, descends flags va (S level) t ts o ts1 ∧
  walk_map (S level) t va frame flags ts =
    match o with
    | None => (None, ts1)
    | Some t => if is_unused (entry (tr_mem ts1) t (pt_index 1 va)) then (Some tt, tr_set_mem (set_entry t (pt_index 1 va) (Z.lor frame flags) (tr_mem ts1)) ts1) else (None, ts1)
    end.
Proof.
  induction level as [|level IH]; intros t va frame flags ts; [exists (Some t), ts; split; [constructor|done]|].
  remember (S level) as k eqn:Ek. cbn [walk_map]. subst k. destruct (is_unused (entry (tr_mem ts) t (pt_index (S (S level)) va))) eqn:Eu.
  - destruct (tracking_allocate_frame ts) as [[t'|] ts'] eqn:Ea.
    + destruct (IH t' va frame flags (tr_set_mem (set_entry t (pt_index (S (S level)) va) (Z.lor t' (parent_flags flags)) (tr_mem ts')) ts')) as (o & ts1 & HD & HE).
      exists o, ts1. split; [|done]. eapply desc_next; [by apply link_new|done].
    + exists None, ts'. split; [|done]. apply desc_stop. by apply stop_frames.
  - destruct (contains (entry (tr_mem ts) t (pt_index (S (S level)) va)) HUGE_PAGE) eqn:Eh.
    + eexists None, _. split; [|done]. apply desc_stop. apply stop_huge; auto.
    + destruct (IH (e_addr (entry (tr_mem ts) t (pt_index (S (S level)) va))) va frame flags
        (tr_set_mem (set_entry t (pt_index (S (S level)) va) (Z.lor (entry (tr_mem ts) t (pt_index (S (S level)) va)) (parent_flags flags)) (tr_mem ts)) ts)) as (o & ts1 & HD & HE).
      exists o, ts1. split; [|done]. eapply desc_next; [by apply link_existing|done].
Qed.
#[local] Instance walk_mapper : Mapper := walk_map_to.
#[local] Instance walk_spec : MapperSpec.
Proof. intros pml4 va frame flags ts. apply (walk_map_descends 3). Qed.

(** ** A machine and a program *)
Local Strategy 1000 [load_image sys_mmap sys_mprotect sys_mmap_file user_store user_copy_out].
Definition demo_mem : Mem := λ _, zeros PAGE_SIZE.
Definition demo_frames : FrameAlloc := allocator_init [{| r_start := 0x1000; r_end := 0x81000; r_usable := true |}].
Definition demo_cr3 : Z := 0x100000.
(** An ELF file with one segment of 4 bytes, read only and executable, and one
    byte more in memory. *)
Definition demo_image : bytes :=
  [0x7f; 0x45; 0x4c; 0x46; 2; 1; 1; 0] ++ zeros 8 ++ le_bytes 2 2 ++ le_bytes 2 62 ++ le_bytes 4 1 ++ le_bytes 8 0x7fff00000000 ++ le_bytes 8 64 ++ le_bytes 8 0 ++
  le_bytes 4 0 ++ le_bytes 2 64 ++ le_bytes 2 56 ++ le_bytes 2 1 ++ le_bytes 2 0 ++ le_bytes 2 0 ++ le_bytes 2 0 ++
  le_bytes 4 1 ++ le_bytes 4 5 ++ le_bytes 8 120 ++ le_bytes 8 0x7fff00000000 ++ le_bytes 8 0 ++ le_bytes 8 4 ++ le_bytes 8 5 ++ le_bytes 8 1 ++
  [10; 20; 30; 40].
Definition demo_boot : Sys := sys_boot demo_mem demo_cr3 demo_frames.
Definition demo_load : result ExecError LoadedImage * Vmm := load_image (str "/a") [str "b"] demo_image (sy_v demo_boot).
(** The program is loaded, then runs, then has mapped a writable page. *)
Definition demo_loaded : Sys := set_v (snd demo_load) demo_boot.
Definition demo_user : Sys := set_v (switch_to 0x1000 (sy_v demo_loaded)) demo_loaded.
Definition demo_mmap : Z * Vmm := sys_mmap USER_MMAP_BASE 5000 1 (sy_v demo_user).
Definition demo_mapped : Sys := set_v (snd demo_mmap) demo_user.

Definition demo_stored : option Mem := user_store 0x1000 USER_STACK_BOTTOM 7 (v_mem (sy_v demo_loaded)).
Definition demo_protect : Z * Vmm := sys_mprotect USER_MMAP_BASE 8192 0 (sy_v demo_mapped).
(** A file of 6 bytes at descriptor 0, and the request to map it, on the stack. *)
Definition demo_fds : VfsState :=
  {| objects := [Some {| refs := 1; so_kind := KFile {| f_path := None; f_data := str "hello!"; f_offset := 0; f_writable := false; f_dirty := false |} |}];
     task_fds := [[Some {| object := 0; access := FdFile |}]]; task_shmem_refs := [] |}.
Definition demo_desc : option Vmm := mjoin (user_copy_out USER_STACK_BOTTOM 40 (words [0; USER_MMAP_BASE; 6; 0; 0]) (sy_v demo_user)).
Definition demo_asked : Sys := set_v (default (sy_v demo_user) demo_desc) demo_user.
Definition demo_file : Z * Vmm := sys_mmap_file 0 demo_fds USER_STACK_BOTTOM (sy_v demo_asked).
(** What these states are. *)
Definition is_some {A} (o : option A) : bool := match o with Some _ => true | None => false end.
Lemma demo_facts :
  fst demo_load = Ok {| li_pml4 := 0x1000; li_entry := 0x7fff00000000; li_user_rsp := 0x7fff000fffc0 |} ∧
  map as_pml4 (v_spaces (sy_v demo_loaded)) = [0x1000] ∧ (v_cr3 (sy_v demo_loaded) =? 0x1000) = false ∧
  user_access 0x1000 (USER_STACK_TOP - 8) true (v_mem (sy_v demo_loaded)) = Some 86008 ∧ is_some demo_stored = true ∧
  user_slice (USER_STACK_TOP - 5) 5 100 (sy_v demo_user) = Some (Some [47; 97; 0; 98; 0]) ∧
  fst demo_mmap = USER_MMAP_BASE ∧ map as_pml4 (v_spaces (sy_v demo_mapped)) = [0x1000] ∧ v_cr3 (sy_v demo_mapped) = 0x1000 ∧ fst demo_protect = 0 ∧
  is_some demo_desc = true ∧ map as_pml4 (v_spaces (sy_v demo_asked)) = [v_cr3 (sy_v demo_asked)] ∧ fst demo_file = USER_MMAP_BASE ∧
  user_descriptor5 USER_STACK_BOTTOM (sy_v demo_asked) = Some [0; USER_MMAP_BASE; 6; 0; 0].
Proof. vm_compute. repeat split. Qed.

Lemma demo_boot_ok : boot_ok demo_mem demo_cr3 demo_frames.
Proof.
  split; [intros f; apply zeros_page_ok|apply (bool_decide_unpack (NoDup _)); by vm_compute|].
  apply (bool_decide_unpack (Forall (λ f, Z.land f ADDR_MASK = f) _)). by vm_compute.
Qed.
Lemma demo_image_safe : image_safe wx_ok demo_image.
Proof.
  split; [apply (bool_decide_unpack (Forall (λ b, 0 ≤ b < 256) _)); by vm_compute|]. intros h i ph Eh Hi Es _.
  assert (Hn : e_phnum h = 1) by (vm_compute in Eh; by injection Eh as <-). rewrite Hn in Hi. assert (i = 0) as -> by (apply elem_of_seqZ in Hi; lia).
  assert (Hs : segment demo_image h 0 = read_program_header demo_image 64) by (vm_compute in Eh; by injection Eh as <-). rewrite Hs in Es. vm_compute in Es. injection Es as <-. split.
  - intros a Ha. change (0x7fff00000000 ≤ a < 0x7fff00001000) in Ha. apply image_root. lia.
  - by vm_compute.
Qed.
Lemma demo_args_ok : args_ok [str "/a"; str "b"].
Proof. split; [repeat constructor; by vm_compute|left; split; by vm_compute]. Qed.
Lemma demo_load_ok : demo_load = (Ok {| li_pml4 := 0x1000; li_entry := 0x7fff00000000; li_user_rsp := 0x7fff000fffc0 |}, snd demo_load).
Proof.
  destruct demo_facts as (E & _). rewrite <-E. apply surjective_pairing.
Qed.
Lemma live_only p v : map as_pml4 (v_spaces v) = [p] → live p v.
Proof. intros E. assert (Hp : p ∈ map as_pml4 (v_spaces v)) by (rewrite E; left). apply list_elem_of_fmap in Hp as (x & -> & Hx). by exists x. Qed.
Lemma demo_live : live 0x1000 (sy_v demo_loaded).
Proof.
  destruct demo_facts as (_ & E & _). by apply live_only.
Qed.

Lemma demo_boot_reachable : reachable wx_ok demo_mem demo_cr3 demo_frames demo_boot.
Proof. split; [apply demo_boot_ok|done]. Qed.
Lemma demo_loaded_reachable : reachable wx_ok demo_mem demo_cr3 demo_frames demo_loaded.
Proof.
  split; [apply demo_boot_ok|]. apply rtc_once.
  exact (st_exec wx_ok demo_boot _ _ _ _ _ demo_image_safe demo_args_ok (surjective_pairing demo_load)).
Qed.
Lemma demo_user_reachable : reachable wx_ok demo_mem demo_cr3 demo_frames demo_user.
Proof. split; [apply demo_boot_ok|]. eapply rtc_r; [apply demo_loaded_reachable|]. apply st_switch, demo_live. Qed.
Lemma switch_live p v : live p v → in_user (switch_to p v).
Proof. done. Qed.
Lemma demo_in_user : in_user (sy_v demo_user).
Proof. exact (switch_live _ _ demo_live). Qed.
Lemma demo_mapped_reachable : reachable wx_ok demo_mem demo_cr3 demo_frames demo_mapped.
Proof.
  split; [apply demo_boot_ok|]. eapply rtc_r; [apply demo_user_reachable|]. exact (st_mmap wx_ok demo_user USER_MMAP_BASE 5000 1 _ _ demo_in_user ltac:(by vm_compute) ltac:(by vm_compute) (surjective_pairing demo_mmap)).
Qed.
Lemma demo_mapped_live : live 0x1000 (sy_v demo_mapped).
Proof. destruct demo_facts as (_ & _ & _ & _ & _ & _ & _ & E & _). by apply live_only. Qed.
Lemma demo_mapped_cr3 : v_cr3 (sy_v demo_mapped) = 0x1000.
Proof. destruct demo_facts as (_ & _ & _ & _ & _ & _ & _ & _ & E & _). exact E. Qed.
Lemma demo_mapped_in_user : in_user (sy_v demo_mapped).
Proof. unfold in_user. rewrite demo_mapped_cr3. apply demo_mapped_live. Qed.

(** ** The guarantees at work *)
Lemma wx_id fl : wx_ok fl → wx_ok fl.
Proof. done. Qed.
Lemma address_space_isolation_witness : live 0x1000 (sy_v demo_mapped) ∧ NoDup (sys_frames demo_mapped) ∧
  ∀ va w pa, user_access 0x1000 va w (v_mem (sy_v demo_mapped)) = Some pa → owns 0x1000 (page_down pa) (sy_v demo_mapped) ∨ page_down pa ∈ sy_shared demo_mapped.
Proof.
  destruct (address_space_isolation wx_ok demo_mem demo_cr3 demo_frames demo_mapped wx_id demo_mapped_reachable) as (H1 & _ & _ & H4 & _).
  split; [exact demo_mapped_live|]. split; [exact H4|]. intros va w pa E. exact (proj2 (H1 0x1000 va w pa demo_mapped_live E)).
Defined.
Lemma write_xor_execute_witness : user_access 0x1000 (USER_STACK_TOP - 8) true (v_mem (sy_v demo_loaded)) = Some 86008 ∧ user_fetch 0x1000 (USER_STACK_TOP - 8) (v_mem (sy_v demo_loaded)) = None.
Proof.
  destruct demo_facts as (_ & _ & _ & E & _). split; [exact E|].
  exact (write_xor_execute demo_mem demo_cr3 demo_frames demo_loaded 0x1000 _ _ demo_loaded_reachable demo_live E).
Defined.
Lemma user_slice_exact_witness : user_slice (USER_STACK_TOP - 5) 5 100 (sy_v demo_user) = Some (Some [47; 97; 0; 98; 0]) ∧
  user_load (v_cr3 (sy_v demo_user)) (USER_STACK_TOP - 5 + Z.of_nat 3) (v_mem (sy_v demo_user)) = Some 98.
Proof.
  destruct demo_facts as (_ & _ & _ & _ & _ & E & _). split; [exact E|].
  destruct (user_slice_exact (USER_STACK_TOP - 5) 5 100 (sy_v demo_user) ltac:(unfold USER_STACK_TOP; lia) ltac:(lia)) as (r & Er & Hr).
  rewrite E in Er. injection Er as <-. destruct (proj1 (Hr [47; 97; 0; 98; 0]) eq_refl) as (_ & _ & _ & _ & H). exact (H 3%nat 98 eq_refl).
Defined.
Lemma demo_stored_some : is_Some demo_stored.
Proof. destruct demo_facts as (_ & _ & _ & _ & E & _). destruct demo_stored; [eauto|discriminate E]. Qed.
Lemma user_store_correct_witness : ∃ m, user_store 0x1000 USER_STACK_BOTTOM 7 (v_mem (sy_v demo_loaded)) = Some m ∧ user_load 0x1000 USER_STACK_BOTTOM m = Some 7.
Proof.
  destruct demo_stored_some as [m E]. exists m. split; [exact E|].
  exact (proj1 (proj2 (user_store_correct wx_ok wx_id demo_mem demo_cr3 demo_frames demo_loaded demo_loaded_reachable 0x1000 USER_STACK_BOTTOM 7 m demo_live
    ltac:(unfold USER_STACK_BOTTOM, USER_STACK_TOP, USER_STACK_SIZE; lia) ltac:(unfold is_byte; lia) E))).
Defined.
Lemma demo_u64 x : 0 ≤ x < 2 ^ 64 → u64 x.
Proof. done. Qed.
Lemma demo_mmap_result : fst demo_mmap = USER_MMAP_BASE.
Proof. destruct demo_facts as (_ & _ & _ & _ & _ & _ & E & _). exact E. Qed.
Lemma sys_mmap_correct_witness : fst demo_mmap = USER_MMAP_BASE ∧ user_load (v_cr3 (sy_v demo_user)) (USER_MMAP_BASE + 8191) (v_mem (snd demo_mmap)) = Some 0.
Proof.
  split; [exact demo_mmap_result|].
  destruct (sys_mmap_correct wx_ok wx_id demo_mem demo_cr3 demo_frames demo_user demo_user_reachable USER_MMAP_BASE 5000 1 (fst demo_mmap) (snd demo_mmap) demo_in_user
    ltac:(apply demo_u64; unfold USER_MMAP_BASE; lia) ltac:(apply demo_u64; lia) (surjective_pairing demo_mmap)) as (_ & _ & [E|(_ & _ & _ & _ & _ & _ & H)]).
  - rewrite demo_mmap_result in E. discriminate E.
  - apply (H (USER_MMAP_BASE + 8191)). change (pages_of 5000) with 8192. unfold USER_MMAP_BASE. lia.
Defined.
Lemma demo_protect_result : fst demo_protect = 0.
Proof. destruct demo_facts as (_ & _ & _ & _ & _ & _ & _ & _ & _ & E & _). exact E. Qed.
Lemma sys_mprotect_correct_witness : fst demo_protect = 0 ∧ user_access (v_cr3 (sy_v demo_mapped)) (USER_MMAP_BASE + 8191) true (v_mem (snd demo_protect)) = None.
Proof.
  split; [exact demo_protect_result|].
  destruct (sys_mprotect_correct wx_ok wx_id demo_mem demo_cr3 demo_frames demo_mapped demo_mapped_reachable USER_MMAP_BASE 8192 0 (fst demo_protect) (snd demo_protect) demo_mapped_in_user
    ltac:(apply demo_u64; unfold USER_MMAP_BASE; lia) ltac:(apply demo_u64; lia) (surjective_pairing demo_protect)) as (_ & _ & H & _).
  destruct (H demo_protect_result (USER_MMAP_BASE + 8191)) as (pa & _ & _ & E); [change (pages_of 8192) with 8192; unfold USER_MMAP_BASE; lia|exact E].
Defined.

Lemma join_some {A} (x : option (option A)) a : mjoin x = Some a → x = Some (Some a).
Proof. destruct x as [[]|]; [|done..]. by intros [= ->]. Qed.
Lemma demo_desc_some : is_Some demo_desc.
Proof. destruct demo_facts as (_ & _ & _ & _ & _ & _ & _ & _ & _ & _ & E & _). destruct demo_desc; [eauto|discriminate E]. Qed.
Lemma demo_asked_reachable : reachable wx_ok demo_mem demo_cr3 demo_frames demo_asked.
Proof.
  split; [apply demo_boot_ok|]. eapply rtc_r; [apply demo_user_reachable|]. unfold demo_asked. destruct demo_desc_some as [v' E]. rewrite E.
  unfold demo_desc in E. apply join_some in E. refine (st_copy_out wx_ok demo_user USER_STACK_BOTTOM 40 _ v' (words_is_byte _) _ E). by split.
Qed.
Lemma demo_asked_in_user : in_user (sy_v demo_asked).
Proof. destruct demo_facts as (_ & _ & _ & _ & _ & _ & _ & _ & _ & _ & _ & E & _). by apply live_only. Qed.
Lemma demo_file_result : demo_file = (USER_MMAP_BASE, snd demo_file).
Proof. destruct demo_facts as (_ & _ & _ & _ & _ & _ & _ & _ & _ & _ & _ & _ & E & _). rewrite <-E. apply surjective_pairing. Qed.
Lemma demo_descriptor : user_descriptor5 USER_STACK_BOTTOM (sy_v demo_asked) = Some [0; USER_MMAP_BASE; 6; 0; 0].
Proof. apply demo_facts. Qed.
Lemma demo_file_bytes fd d : file_data 0 fd demo_fds = Some d → Forall is_byte d.
Proof. unfold file_data. destruct fd as [|fd]; [|done]. intros [= <-]. apply (bool_decide_unpack (Forall (λ b, 0 ≤ b < 256) _)). by vm_compute. Qed.
Lemma sys_mmap_file_correct_witness : user_load (v_cr3 (sy_v demo_asked)) (USER_MMAP_BASE + 4) (v_mem (snd demo_file)) = Some 111.
Proof.
  destruct (sys_mmap_file_correct wx_ok wx_id demo_mem demo_cr3 demo_frames demo_asked demo_asked_reachable 0 demo_fds USER_STACK_BOTTOM USER_MMAP_BASE (snd demo_file) demo_asked_in_user
    demo_file_bytes demo_file_result) as (_ & [E|(fd & n & off & flags & d & E & _ & _ & Ef & _ & H)]).
  - discriminate E.
  - rewrite demo_descriptor in E. injection E as <- <- <- _. injection Ef as <-. destruct (H (USER_MMAP_BASE + 4)) as [-> _]; [change (pages_of 6) with 4096; unfold USER_MMAP_BASE; lia|].
    reflexivity.
Defined.
(** A machine with 8 frames: the stack does not fit. *)
Definition demo_few : FrameAlloc := allocator_init [{| r_start := 0x1000; r_end := 0x9000; r_usable := true |}].
Definition demo_failed : result ExecError LoadedImage * Vmm := load_image (str "/a") [str "b"] demo_image (sy_v (sys_boot demo_mem demo_cr3 demo_few)).
Lemma demo_few_ok : boot_ok demo_mem demo_cr3 demo_few.
Proof.
  split; [intros f; apply zeros_page_ok|apply (bool_decide_unpack (NoDup _)); by vm_compute|].
  apply (bool_decide_unpack (Forall (λ f, Z.land f ADDR_MASK = f) _)). by vm_compute.
Qed.
Lemma demo_failed_result : demo_failed = (Err EOutOfMemory, snd demo_failed).
Proof. assert (E : fst demo_failed = Err EOutOfMemory) by (vm_compute; reflexivity). rewrite <-E. apply surjective_pairing. Qed.
Lemma demo_loaded_cr3 : v_cr3 (sy_v demo_loaded) ≠ 0x1000.
Proof. destruct demo_facts as (_ & _ & E & _). by apply Z.eqb_neq. Qed.
Lemma free_address_space_correct_witness : live 0x1000 (sy_v demo_loaded) ∧ ¬ live 0x1000 (free_address_space 0x1000 (sy_v demo_loaded)).
Proof.
  split; [exact demo_live|].
  exact (proj1 (free_address_space_correct wx_ok wx_id demo_mem demo_cr3 demo_frames demo_loaded demo_loaded_reachable 0x1000 demo_live demo_loaded_cr3)).
Defined.
