(* ===== verification/VmmFindings.v ===== *)
(** * Where the memory system falls short

    Inputs on which the code of elf.rs, vmm.rs and memory.rs does less than it
    means to; each is evaluated on a small machine. *)
From stdpp Require Import gmap functions relations.
From S2P Require Import Prelude UserLayout FrameAlloc Vmm VmmMem VmmInv VmmMap VmmOps UserMem Pipe FdTable Mmap Elf VmmRun VmmCases.

Local Open Scope Z_scope.
#[local] Existing Instance walk_mapper.

(** [build_initial_stack] counts the strings and the words but not the padding
    between them: arguments that it accepts are written below the page, into the
    frame before it. *)
Example build_initial_stack_underflow :
  let v := boot_vmm demo_mem demo_cr3 demo_frames in
  match build_initial_stack 0x3000 (str "/a") [replicate 4045 97] v with
  | (Ok rsp, v') => (rsp <? USER_STACK_TOP - PAGE_SIZE) && negb (bool_decide (v_mem v' 0x2000 = v_mem v 0x2000))
  | _ => false
  end = true.
Proof. vm_compute. reflexivity. Qed.

(** [validate_load_segment] accepts segments outside the two user roots, where the
    tables are the kernel's and shared: a second program with such a segment reads
    the memory of the first. *)
Definition low_image (va b : Z) : bytes :=
  [0x7f; 0x45; 0x4c; 0x46; 2; 1; 1; 0] ++ zeros 8 ++ le_bytes 2 2 ++ le_bytes 2 62 ++ le_bytes 4 1 ++ le_bytes 8 va ++ le_bytes 8 64 ++ le_bytes 8 0 ++
  le_bytes 4 0 ++ le_bytes 2 64 ++ le_bytes 2 56 ++ le_bytes 2 1 ++ le_bytes 2 0 ++ le_bytes 2 0 ++ le_bytes 2 0 ++
  le_bytes 4 1 ++ le_bytes 4 6 ++ le_bytes 8 120 ++ le_bytes 8 va ++ le_bytes 8 0 ++ le_bytes 8 1 ++ le_bytes 8 1 ++ le_bytes 8 1 ++ [b].
(** The boot table maps the lower half, as the boot loader's does. *)
Definition low_boot : Vmm := boot_vmm (set_entry demo_cr3 0 (Z.lor 0x101000 3) demo_mem) demo_cr3 demo_frames.
Example lower_half_segments_shared :
  match load_image (str "/a") [] (low_image 0x400000 42) low_boot with
  | (Ok a, v) =>
      match load_image (str "/b") [] (low_image 0x800000 7) v with
      | (Ok b, v) => negb (li_pml4 a =? li_pml4 b) && bool_decide (user_load (li_pml4 b) 0x400000 (v_mem v) = Some 42) &&
                     bool_decide (is_Some (user_access (li_pml4 b) 0x400000 true (v_mem v)))
      | _ => false
      end
  | _ => false
  end = true.
Proof. vm_compute. reflexivity. Qed.

(** A machine with [n] free frames that runs in an empty address space. *)
Definition small (n : Z) : Vmm :=
  {| v_mem := demo_mem; v_alloc := Some (allocator_init [{| r_start := 0x1000; r_end := 0x1000 + 0x1000 * n; r_usable := true |}]);
     v_spaces := [{| as_pml4 := 0x100000; as_tables := []; as_leaves := []; as_file_backed := 0 |}]; v_boot := 0x101000; v_cr3 := 0x100000 |}.

(** [protect_region] sets the flags of the last table only: a region mapped read
    only and then made writable cannot be written, though the call answers 0. *)
Example mprotect_cannot_add_write :
  let (r, v) := sys_mmap USER_MMAP_BASE 4096 0 (small 9) in
  let (r', v) := sys_mprotect USER_MMAP_BASE 4096 USER_PROT_WRITE v in
  (r =? USER_MMAP_BASE) && (r' =? 0) && bool_decide (user_access (v_cr3 v) USER_MMAP_BASE true (v_mem v) = None) = true.
Proof. vm_compute. reflexivity. Qed.

(** [map_page_in] forgets the tables that a failed [map_to] allocated: they are
    free no more, and no address space records them. *)
Example failed_mapping_loses_tables :
  let (r, v) := map_page_in 0x100000 USER_MMAP_BASE 0x200000 (pte_flags 0) (small 2) in
  is_ok r = false ∧ from_option available [] (v_alloc v) = [] ∧ map space_frames (v_spaces v) = [[0x100000]].
Proof. vm_compute. done. Qed.

(** [allocate_contiguous] moves past what is too short: those frames are never
    given out again. *)
Definition split_frames : FrameAlloc :=
  allocator_init [{| r_start := 0x1000; r_end := 0x2000; r_usable := true |}; {| r_start := 0x4000; r_end := 0x6000; r_usable := true |}].
Example contiguous_run_gives_up_frames :
  let (o, a) := allocate_contiguous 2 split_frames in o = Some 0x4000 ∧ available split_frames = [0x1000; 0x4000; 0x5000] ∧ available a = [].
Proof. by vm_compute. Qed.

(** [sys_mmap] that runs out of frames answers [u64::MAX] and leaves what it mapped. *)
Example failed_mmap_leaves_pages :
  let (r, v) := sys_mmap USER_MMAP_BASE 0x4000 0 (small 5) in
  (r =? U64_MAX) && bool_decide (user_load (v_cr3 v) USER_MMAP_BASE (v_mem v) = Some 0) = true.
Proof. vm_compute. reflexivity. Qed.
