(* ===== verification/Shmem.v ===== *)
(** * Shared memory (src/src/vfs.rs, src/src/syscall/process.rs)

    Regions of frames that tasks create, map into their address spaces and refer
    to until they end or execute another program.  The reference counts are exact,
    and frames are given back when the last reference goes, once. *)
From stdpp Require Import gmap functions relations.
From S2P Require Import Prelude UserLayout FrameAlloc Vmm VmmMem Pipe FdTable Mmap.
Set Warnings "-clear-no-such-hyp".

Local Open Scope Z_scope.

Definition MAX_SHMEM_REGION_BYTES : Z := 2 * 1024 * 1024.
Definition MAX_SHMEM_BYTES_PER_TASK : Z := 8 * 1024 * 1024.

Record SharedMemRegion := { sr_frames : list Z; sr_refcount : nat }.
Definition SharedMemRegion_new (frames : list Z) : SharedMemRegion := {| sr_frames := frames; sr_refcount := 1 |}.

(** [SHMEM_REGIONS], [SHMEM_NEXT_ID], the references in [VFS], and the memory. *)
Record Shmem := { sh_regions : list (option SharedMemRegion); sh_next : nat; sh_vfs : VfsState; sh_vmm : Vmm }.
Definition Shmem_new (st : VfsState) (v : Vmm) : Shmem := {| sh_regions := []; sh_next := 1; sh_vfs := st; sh_vmm := v |}.
Definition sh_set_vmm (v : Vmm) (s : Shmem) : Shmem := {| sh_regions := sh_regions s; sh_next := sh_next s; sh_vfs := sh_vfs s; sh_vmm := v |}.

(** [regions.get(id)], where it holds a region *)
Definition region (R : list (option SharedMemRegion)) (id : nat) : option SharedMemRegion := mjoin (R !! id).
Definition task_refs (task : nat) (st : VfsState) : list nat := default [] (task_shmem_refs st !! task).

Definition task_shmem_pages (task : nat) (s : Shmem) : Z :=
  fold_left (λ total r, saturating_add 64 total (len (sr_frames r))) (omap (region (sh_regions s)) (task_refs task (sh_vfs s))) 0.
Definition task_can_add_shmem_pages (task : nat) (additional : Z) (s : Shmem) : bool :=
  saturating_mul 64 (saturating_add 64 (task_shmem_pages task s) additional) 4096 <=? MAX_SHMEM_BYTES_PER_TASK.

Definition retain_task_shmem_ref (task id : nat) (s : Shmem) : Shmem :=
  let st := ensure_task task (sh_vfs s) in
  {| sh_regions := sh_regions s; sh_next := sh_next s; sh_vmm := sh_vmm s;
     sh_vfs := {| objects := objects st; task_fds := task_fds st;
                  task_shmem_refs := <[task := task_refs task st ++ [id]]> (task_shmem_refs st) |} |}.

Definition free_frames (fs : list Z) (v : Vmm) : Vmm := fold_left (λ v f, free_unmapped_frame f v) fs v.
(** [for _ in 0..pages]: allocate, or give back what was allocated. *)
Fixpoint alloc_frames (pages : nat) (frames : list Z) (v : Vmm) : option (list Z) * Vmm :=
  match pages with
  | O => (Some frames, v)
  | S pages =>
      match alloc_zeroed_frame v with
      | (Some f, v) => alloc_frames pages (frames ++ [f]) v
      | (None, v) => (None, free_frames frames v)
      end
  end.
(** [while regions.len() <= id { regions.push(None) }; regions[id] = Some(..)] *)
Definition put_region (id : nat) (r : SharedMemRegion) (R : list (option SharedMemRegion)) : list (option SharedMemRegion) :=
  <[id := Some r]> (R ++ replicate (S id - length R) None).

(** [reserve]: the heap can hold the list of frames.  [None] is [usize::MAX]. *)
Definition vfs_shmem_create (task : nat) (n : Z) (reserve : bool) (s : Shmem) : option nat * Shmem :=
  if (n =? 0) || (MAX_SHMEM_REGION_BYTES <? n) then (None, s) else
  match checked_add 64 n 4095 with
  | None => (None, s)
  | Some x =>
      let pages := x / 4096 in
      if negb (task_can_add_shmem_pages task pages s) then (None, s) else
      if negb reserve then (None, s) else
      match alloc_frames (Z.to_nat pages) [] (sh_vmm s) with
      | (None, v) => (None, sh_set_vmm v s)
      | (Some frames, v) =>
          let id := sh_next s in
          (Some id, retain_task_shmem_ref task id
             {| sh_regions := put_region id (SharedMemRegion_new frames) (sh_regions s); sh_next := S id; sh_vfs := sh_vfs s; sh_vmm := v |})
      end
  end.
Definition sys_shmem_create (task : nat) (n : Z) (reserve : bool) (s : Shmem) : Z * Shmem :=
  if n =? 0 then (U64_MAX, s) else
  if MAX_SHMEM_REGION_BYTES <? n then (U64_MAX, s) else
  match vfs_shmem_create task n reserve s with
  | (Some id, s) => (Z.of_nat id, s)
  | (None, s) => (U64_MAX, s)
  end.

Definition shmem_flags : Z := Z.lor (Z.lor (Z.lor PRESENT WRITABLE) USER_ACCESSIBLE) NO_EXECUTE.
(** Where [VirtAddr::new] does not panic. *)
Definition canonical_address (va : Z) : bool := (va <? 2 ^ 47) || (2 ^ 64 - 2 ^ 47 <=? va).

Section Map.
Context `{Mapper}.

(** The loop over the frames: mapped, refused ([Some false]), or a panic. *)
Fixpoint shmem_map_loop (pml4 va : Z) (frames : list Z) (v : Vmm) : option bool * Vmm :=
  match frames with
  | [] => (Some true, v)
  | f :: frames =>
      if negb (canonical_address va) then (None, v) else
      let (r, v) := map_page_in pml4 va f shmem_flags v in
      if negb (is_ok r) && negb (default false (user_range_accessible_in pml4 va 1 true (v_mem v))) then (Some false, v)
      else shmem_map_loop pml4 (wrapping_add 64 va 4096) frames v
  end.
Definition slot_address (id : Z) : option Z :=
  checked_sub id 1 ≫= λ slot, checked_mul 64 slot USER_SHMEM_SLOT_SIZE ≫= λ offset, checked_add 64 USER_SHMEM_BASE offset.
Definition add_ref (r : SharedMemRegion) : SharedMemRegion := {| sr_frames := sr_frames r; sr_refcount := S (sr_refcount r) |}.

(** [None]: the kernel panics. *)
Definition vfs_shmem_map (task : nat) (id pml4 : Z) (s : Shmem) : option Z * Shmem :=
  match slot_address id with
  | None => (Some U64_MAX, s)
  | Some addr =>
      match region (sh_regions s) (Z.to_nat id) with
      | None => (Some U64_MAX, s)
      | Some r =>
          if negb (task_can_add_shmem_pages task (len (sr_frames r)) s) then (Some U64_MAX, s) else
          match shmem_map_loop pml4 addr (sr_frames r) (sh_vmm s) with
          | (None, v) => (None, sh_set_vmm v s)
          | (Some false, v) => (Some U64_MAX, sh_set_vmm v s)
          | (Some true, v) =>
              (Some addr, retain_task_shmem_ref task (Z.to_nat id)
                {| sh_regions := <[Z.to_nat id := Some (add_ref r)]> (sh_regions s); sh_next := sh_next s; sh_vfs := sh_vfs s; sh_vmm := v |})
          end
      end
  end.
Definition sys_shmem_map (task : nat) (id : Z) (s : Shmem) : option Z * Shmem := vfs_shmem_map task id (current_pml4 (sh_vmm s)) s.
End Map.

(** The loop of [release_shmem_refs]: the frames to free, and the regions left. *)
Fixpoint release_loop (ids : list nat) (R : list (option SharedMemRegion)) : list Z * list (option SharedMemRegion) :=
  match ids with
  | [] => ([], R)
  | id :: ids =>
      match region R id with
      | None => release_loop ids R
      | Some r =>
          let count := (sr_refcount r - 1)%nat in
          if (count =? 0)%nat then let (fs, R') := release_loop ids (<[id := None]> R) in (sr_frames r ++ fs, R')
          else release_loop ids (<[id := Some {| sr_frames := sr_frames r; sr_refcount := count |}]> R)
      end
  end.
Definition release_shmem_refs (ids : list nat) (s : Shmem) : Shmem :=
  let (fs, R) := release_loop ids (sh_regions s) in
  {| sh_regions := R; sh_next := sh_next s; sh_vfs := sh_vfs s; sh_vmm := free_frames fs (sh_vmm s) |}.

Definition sh_set_vfs (st : VfsState) (s : Shmem) : Shmem := {| sh_regions := sh_regions s; sh_next := sh_next s; sh_vfs := st; sh_vmm := sh_vmm s |}.
(** A new task, the end of a task, and the execution of another program. *)
Definition shmem_init_task (task : nat) (s : Shmem) : Shmem := sh_set_vfs (init_task task (sh_vfs s)) s.
Definition shmem_drop_task (task : nat) (s : Shmem) : Shmem :=
  let '(_, _, refs, st) := drop_task task (sh_vfs s) in release_shmem_refs refs (sh_set_vfs st s).
Definition shmem_exec (task : nat) (s : Shmem) : Shmem :=
  let (refs, st) := drop_task_shmem_refs task (sh_vfs s) in release_shmem_refs refs (sh_set_vfs st s).

(** ** Exact counts *)
Definition all_refs (st : VfsState) : list nat := mjoin (task_shmem_refs st).
Definition refs_to (id : nat) (refs : list nat) : nat := count_occ Nat.eq_dec refs id.
Definition region_list (R : list (option SharedMemRegion)) : list SharedMemRegion := omap id R.
Definition shared_frames (R : list (option SharedMemRegion)) : list Z := mjoin (map sr_frames (region_list R)).

(** Each region counts the references to it, and there are some; no reference
    dangles. *)
Definition counts_ok (R : list (option SharedMemRegion)) (refs : list nat) : Prop :=
  ∀ id, match region R id with Some r => sr_refcount r = refs_to id refs ∧ (0 < sr_refcount r)%nat | None => refs_to id refs = O end.

Lemma refs_to_perm id l k : l ≡ₚ k → refs_to id l = refs_to id k.
Proof. intros HP. exact (proj1 (Permutation_count_occ Nat.eq_dec l k) HP id). Qed.
Lemma counts_ok_perm R l k : l ≡ₚ k → counts_ok R l → counts_ok R k.
Proof. intros HP H id. specialize (H id). by rewrite (refs_to_perm id l k HP) in H. Qed.
Lemma refs_to_cons id x l : refs_to id (x :: l) = ((if decide (x = id) then 1 else 0) + refs_to id l)%nat.
Proof. unfold refs_to. simpl. destruct (Nat.eq_dec x id), (decide (x = id)); congruence || lia. Qed.
Lemma region_insert R id i o : is_Some (region R id) → region (<[id := o]> R) i = if decide (i = id) then o else region R i.
Proof.
  intros [r Hr]. unfold region in *. destruct (R !! id) as [x|] eqn:E; [|done]. case_decide as Hd.
  - subst i. rewrite list_lookup_insert_eq; [done|]. by eapply lookup_lt_Some.
  - by rewrite list_lookup_insert_ne.
Qed.
Lemma shared_frames_app R R' : shared_frames (R ++ R') = shared_frames R ++ shared_frames R'.
Proof. unfold shared_frames, region_list. rewrite omap_app, map_app. apply join_app. Qed.
Lemma shared_frames_insert R id r o : region R id = Some r →
  shared_frames R ++ from_option sr_frames [] o ≡ₚ sr_frames r ++ shared_frames (<[id := o]> R).
Proof.
  unfold region. intros Hr. destruct (R !! id) as [[r'|]|] eqn:E; [|done..]. simpl in Hr. injection Hr as ->.
  rewrite insert_take_drop by (by eapply lookup_lt_Some). rewrite <-(take_drop_middle R id _ E) at 1. rewrite !shared_frames_app.
  change (shared_frames (Some r :: ?l)) with (sr_frames r ++ shared_frames l). assert (Ho : ∀ l, shared_frames (o :: l) = from_option sr_frames [] o ++ shared_frames l) by (by destruct o).
  rewrite Ho. solve_Permutation.
Qed.
Lemma shared_frames_same R id r r' : region R id = Some r → sr_frames r' = sr_frames r → shared_frames (<[id := Some r']> R) ≡ₚ shared_frames R.
Proof. intros Hr E. pose proof (shared_frames_insert R id r (Some r') Hr) as HP. simpl in HP. rewrite E, Permutation_app_comm in HP. by apply Permutation_app_inv_l in HP. Qed.

(** Releasing references: the counts are exact again, and exactly the frames of
    the regions that went are handed out. *)
Lemma release_loop_ok ids refs : ∀ R fs R', counts_ok R (ids ++ refs) → release_loop ids R = (fs, R') →
  counts_ok R' refs ∧ shared_frames R ≡ₚ fs ++ shared_frames R' ∧
  ∀ id, match region R' id with Some r => ∃ r0, region R id = Some r0 ∧ sr_frames r = sr_frames r0 | None => True end.
Proof.
  induction ids as [|id ids IH]; intros R fs R' H; cbn [release_loop]; [intros [= <- <-]; split_and!; [done|done|intros i; case_match; eauto]|].
  pose proof (H id) as Hid. simpl in H. destruct (region R id) as [r|] eqn:Er; [|rewrite <-app_comm_cons, refs_to_cons, decide_True in Hid by done; lia].
  destruct Hid as [Hc Hpos]. rewrite <-app_comm_cons, refs_to_cons, decide_True in Hc by done.
  assert (Hstep : ∀ o, (match o with Some r' => S (sr_refcount r') = sr_refcount r ∧ (0 < sr_refcount r')%nat | None => sr_refcount r = 1%nat end) → counts_ok (<[id := o]> R) (ids ++ refs)).
  { intros o Ho i. specialize (H i). rewrite refs_to_cons in H. rewrite region_insert by eauto. destruct (decide (i = id)) as [->|Hd].
    - destruct o as [r'|]; [|lia]. split; [|lia]. lia.
    - rewrite decide_False in H by congruence. done. }
  destruct (Nat.eqb_spec (sr_refcount r - 1) 0) as [E0|E0].
  - destruct (release_loop ids (<[id := None]> R)) as [fs1 R1] eqn:E. intros [= <- <-]. destruct (IH _ _ _ (Hstep None ltac:(simpl; lia)) E) as (H1 & H2 & H3). split_and!; [done| |].
    + pose proof (shared_frames_insert R id r None Er) as HP. simpl in HP. rewrite app_nil_r in HP. rewrite HP, H2. by rewrite app_assoc.
    + intros i. specialize (H3 i). destruct (region R1 i); [|done]. destruct H3 as (r0 & E3 & E4). rewrite region_insert in E3 by eauto. case_decide; [done|eauto].
  - intros E. destruct (IH _ _ _ (Hstep (Some {| sr_frames := sr_frames r; sr_refcount := sr_refcount r - 1 |}) ltac:(simpl; lia)) E) as (H1 & H2 & H3). split_and!; [done| |].
    + rewrite <-H2. symmetry. by eapply shared_frames_same.
    + intros i. specialize (H3 i). destruct (region R' i); [|done]. destruct H3 as (r0 & E3 & E4). rewrite region_insert in E3 by eauto. case_decide as Hd; [|eauto].
      subst i. injection E3 as <-. eauto.
Qed.

(** ** Frames *)
Definition avail (v : Vmm) : list Z := from_option available [] (v_alloc v).
Lemma free_frames_avail fs v : is_Some (v_alloc v) → is_Some (v_alloc (free_frames fs v)) ∧ avail (free_frames fs v) ≡ₚ fs ++ avail v.
Proof.
  revert v. induction fs as [|f fs IH]; intros v [a Ha]; [by split; [exists a|]|].
  assert (E : free_frames (f :: fs) v = free_frames fs (set_alloc (Some (deallocate_frame f a)) v)) by (unfold free_frames; simpl; unfold free_unmapped_frame at 2; by rewrite Ha).
  rewrite E. destruct (IH (set_alloc (Some (deallocate_frame f a)) v)) as [H1 H2]; [by eexists|]. split; [done|].
  rewrite H2. unfold avail. rewrite Ha. simpl. rewrite deallocate_frame_available. solve_Permutation.
Qed.
Lemma alloc_zeroed_avail v o v' : is_Some (v_alloc v) → alloc_zeroed_frame v = (o, v') → is_Some (v_alloc v') ∧ avail v ≡ₚ option_list o ++ avail v'.
Proof.
  intros [a Ha]. unfold alloc_zeroed_frame, alloc_frame, avail. rewrite Ha. destruct (allocate_frame a) as [[f|] a'] eqn:E; intros [= <- <-];
    (split; [by eexists|]); apply allocate_frame_available in E; simpl; [done|]. by destruct E as [-> ->].
Qed.
Lemma alloc_frames_avail n : ∀ frames v o v', is_Some (v_alloc v) → alloc_frames n frames v = (o, v') → is_Some (v_alloc v') ∧
  match o with Some fs => frames ++ avail v ≡ₚ fs ++ avail v' ∧ length fs = (length frames + n)%nat | None => frames ++ avail v ≡ₚ avail v' end.
Proof.
  induction n as [|n IH]; intros frames v o v' Ha; cbn [alloc_frames]; [intros [= <- <-]; split_and!; [done|done|lia]|].
  destruct (alloc_zeroed_frame v) as [[f|] v1] eqn:E; destruct (alloc_zeroed_avail v _ v1 Ha E) as [Ha1 HP].
  - intros E1. destruct (IH _ _ _ _ Ha1 E1) as [H1 H2]. split; [done|]. destruct o as [fs|].
    + destruct H2 as [H2 H3]. split; [|rewrite H3, length_app; simpl; lia]. rewrite HP, <-H2. simpl. solve_Permutation.
    + rewrite HP, <-H2. simpl. solve_Permutation.
  - intros [= <- <-]. destruct (free_frames_avail frames v1 Ha1) as [H1 H2]. split; [done|]. by rewrite H2, HP.
Qed.
Section MapFrames.
Context {MP : Mapper} {MS : MapperSpec}.
Lemma tracking_avail ts o ts' : tracking_allocate_frame ts = (o, ts') → available (tr_inner ts) ≡ₚ option_list o ++ available (tr_inner ts').
Proof.
  unfold tracking_allocate_frame. destruct (allocate_frame (tr_inner ts)) as [[f|] a] eqn:E; intros [= <- <-]; apply allocate_frame_available in E; simpl; [done|].
  by destruct E as [-> ->].
Qed.
Lemma descends_avail flags va level t ts o ts' : descends flags va level t ts o ts' → ∃ used, available (tr_inner ts) ≡ₚ used ++ available (tr_inner ts').
Proof.
  induction 1 as [t ts|level t ts t' ts1 o ts2 HL _ [u IH]|level t ts ts' HS]; [by exists []|..].
  - destruct HL as [? ?|t' ts' ? E]; [by exists u|]. exists (t' :: u). rewrite (tracking_avail _ _ _ E). simpl in *. by rewrite IH.
  - destruct HS as [e ? ? ?|ts' ? E]; [by exists []|]. exists []. by rewrite (tracking_avail _ _ _ E).
Qed.
Lemma map_page_in_avail p va f flags v r v' : is_Some (v_alloc v) → map_page_in p va f flags v = (r, v') → is_Some (v_alloc v') ∧ ∃ used, avail v ≡ₚ used ++ avail v'.
Proof.
  intros [a Ha]. unfold map_page_in, avail. rewrite Ha. set (ts := {| tr_mem := _; tr_inner := a; tr_allocated := [] |}).
  destruct (map_to_spec p va f flags ts) as (o & ts1 & HD & ->). apply descends_avail in HD as [u HD]. cbn [tr_inner ts] in HD.
  assert (Hrec : ∀ fs w, v_alloc (record_table_frames p fs w) = v_alloc w) by (intros fs w; unfold record_table_frames; by destruct (length fs =? 0)%nat).
  destruct o as [t|]; [destruct (is_unused _)|]; intros [= <- <-]; rewrite ?Hrec; (split; [by eexists|by exists u]).
Qed.
Lemma shmem_map_loop_avail p frames : ∀ va v r v', is_Some (v_alloc v) → shmem_map_loop p va frames v = (r, v') → is_Some (v_alloc v') ∧ ∃ used, avail v ≡ₚ used ++ avail v'.
Proof.
  induction frames as [|f frames IH]; intros va v r v' Ha; cbn [shmem_map_loop]; [intros [= <- <-]; split; [done|by exists []]|].
  destruct (negb (canonical_address va)); [intros [= <- <-]; split; [done|by exists []]|].
  destruct (map_page_in p va f shmem_flags v) as [r1 v1] eqn:E. destruct (map_page_in_avail _ _ _ _ _ _ _ Ha E) as [Ha1 [u Hu]].
  destruct (_ && _); [intros [= <- <-]; split; [done|by exists u]|]. intros E2. destruct (IH _ _ _ _ Ha1 E2) as [H1 [u2 Hu2]]. split; [done|]. exists (u ++ u2). by rewrite <-app_assoc, <-Hu2.
Qed.
End MapFrames.

(** ** References of tasks *)
Lemma join_insert {A} (L : list (list A)) i x y : L !! i = Some x → mjoin (<[i := y]> L) ++ x ≡ₚ mjoin L ++ y.
Proof.
  intros E. rewrite insert_take_drop by (by eapply lookup_lt_Some). rewrite <-(take_drop_middle L i _ E) at 3. rewrite !join_app. cbn [mjoin list_join]. solve_Permutation.
Qed.
Lemma join_empty {A} n : mjoin (replicate n (@nil A)) = [].
Proof. by induction n. Qed.
Lemma ensure_refs task st : all_refs (ensure_task task st) = all_refs st ∧ ∀ t, task_refs t (ensure_task task st) = task_refs t st.
Proof.
  unfold all_refs, task_refs, ensure_task. cbn [task_shmem_refs]. rewrite join_app, join_empty, app_nil_r. split; [done|]. intros t.
  destruct (decide (t < length (task_shmem_refs st))%nat) as [H|H]; [by rewrite lookup_app_l|]. rewrite lookup_app_r by lia. rewrite (lookup_ge_None_2 (task_shmem_refs st)) by lia.
  destruct (replicate _ _ !! _) eqn:E; [|done]. by apply lookup_replicate in E as [-> _].
Qed.
Lemma ensure_length task st : (task < length (task_shmem_refs (ensure_task task st)))%nat.
Proof. unfold ensure_task. cbn [task_shmem_refs]. rewrite length_app, length_replicate. lia. Qed.
(** The references of one task are replaced. *)
Definition set_refs (task : nat) (refs : list nat) (st : VfsState) : VfsState :=
  {| objects := objects st; task_fds := task_fds st; task_shmem_refs := <[task := refs]> (task_shmem_refs st) |}.
Lemma set_refs_spec task refs st : (task < length (task_shmem_refs st))%nat ∨ refs = [] →
  all_refs (set_refs task refs st) ++ task_refs task st ≡ₚ all_refs st ++ refs ∧ ∀ t, task_refs t (set_refs task refs st) = if decide (t = task) then refs else task_refs t st.
Proof.
  intros H. unfold all_refs, task_refs, set_refs. cbn [task_shmem_refs]. destruct (decide (task < length (task_shmem_refs st))%nat) as [Hl|Hl].
  - apply lookup_lt_is_Some in Hl as Hx. destruct Hx as [x Hx]. split; [rewrite Hx; by apply join_insert|]. intros t. destruct (decide (t = task)) as [->|]; [by rewrite list_lookup_insert_eq|by rewrite list_lookup_insert_ne].
  - destruct H as [?| ->]; [done|]. rewrite list_insert_ge by lia. rewrite (lookup_ge_None_2 _ task) by lia. split; [done|]. intros t. destruct (decide (t = task)) as [->|]; [|done]. by rewrite lookup_ge_None_2 by lia.
Qed.
Lemma all_refs_ext st st' : (∀ t, task_refs t st = task_refs t st') → all_refs st = all_refs st'.
Proof.
  unfold all_refs, task_refs. generalize (task_shmem_refs st), (task_shmem_refs st'). induction l as [|x l IH]; intros k H.
  - symmetry. induction k as [|y k IHk]; [done|]. pose proof (H O) as H0. simpl in H0. subst y. simpl. apply IHk. intros t. exact (H (S t)).
  - destruct k as [|y k]; pose proof (H O) as H0; simpl in H0; subst x; simpl; [|f_equal; apply IH; intros t; exact (H (S t))].
    apply (IH []). intros t. exact (H (S t)).
Qed.
Lemma elem_of_all_refs id st : id ∈ all_refs st ↔ ∃ t, id ∈ task_refs t st.
Proof.
  unfold all_refs, task_refs. rewrite list_elem_of_join. split.
  - intros (l & Hid & [t Ht]%list_elem_of_lookup). exists t. by rewrite Ht.
  - intros [t Ht]. destruct (task_shmem_refs st !! t) as [l|] eqn:E; [|by apply elem_of_nil in Ht]. exists l. split; [done|]. by eapply list_elem_of_lookup_2.
Qed.
Lemma refs_to_elem id refs : (0 < refs_to id refs)%nat ↔ id ∈ refs.
Proof. rewrite list_elem_of_In. unfold refs_to. split; intros H; [by apply count_occ_In in H|by apply count_occ_In]. Qed.

(** ** Quotas *)
Definition pages_of (R : list (option SharedMemRegion)) (refs : list nat) : Z := foldr (λ r n, len (sr_frames r) + n) 0 (omap (region R) refs).
Lemma pages_nonneg R refs : 0 ≤ pages_of R refs.
Proof. unfold pages_of. induction (omap (region R) refs) as [|r l IH]; simpl; [lia|]. pose proof (len_nonneg (sr_frames r)). lia. Qed.
Lemma pages_app R l k : pages_of R (l ++ k) = pages_of R l + pages_of R k.
Proof. unfold pages_of. rewrite omap_app. induction (omap (region R) l) as [|r l' IH]; simpl; [done|]. rewrite IH. lia. Qed.
Lemma pages_ext R R' refs : (∀ id, id ∈ refs → sr_frames <$> region R' id = sr_frames <$> region R id) → pages_of R' refs = pages_of R refs.
Proof.
  unfold pages_of. induction refs as [|id refs IH]; intros H; [done|]. pose proof (H id ltac:(left)) as Hid. specialize (IH (λ i Hi, H i ltac:(by right))).
  assert (Ho : ∀ S, omap (region S) (id :: refs) = option_list (region S id) ++ omap (region S) refs) by (intros S; simpl; by destruct (region S id)). rewrite !Ho.
  destruct (region R' id), (region R id); simpl in *; [injection Hid as ->; by rewrite IH|done..].
Qed.
Lemma task_shmem_pages_eq task s : task_shmem_pages task s = Z.min (pages_of (sh_regions s) (task_refs task (sh_vfs s))) (2 ^ 64 - 1).
Proof.
  unfold task_shmem_pages, pages_of. generalize (omap (region (sh_regions s)) (task_refs task (sh_vfs s))). intros l.
  assert (H : ∀ a, a ≤ 2 ^ 64 - 1 → fold_left (λ total r, saturating_add 64 total (len (sr_frames r))) l a = Z.min (a + foldr (λ r n, len (sr_frames r) + n) 0 l) (2 ^ 64 - 1)).
  { induction l as [|r l IH]; intros a Ha; simpl; [lia|]. rewrite IH; unfold saturating_add; [|lia]. pose proof (len_nonneg (sr_frames r)).
    assert (0 ≤ foldr (λ r n, len (sr_frames r) + n) 0 l) by (clear; induction l as [|x l IH]; simpl; [lia|]; pose proof (len_nonneg (sr_frames x)); lia). lia. }
  rewrite H; [done|lia].
Qed.
Lemma can_add_pages task n s : 0 ≤ n → task_can_add_shmem_pages task n s = true ↔ (pages_of (sh_regions s) (task_refs task (sh_vfs s)) + n) * 4096 ≤ MAX_SHMEM_BYTES_PER_TASK.
Proof.
  intros Hn. unfold task_can_add_shmem_pages, saturating_add, saturating_mul, MAX_SHMEM_BYTES_PER_TASK. rewrite task_shmem_pages_eq, Z.leb_le.
  pose proof (pages_nonneg (sh_regions s) (task_refs task (sh_vfs s))). lia.
Qed.

(** ** The invariant *)
Record shmem_ok (s : Shmem) : Prop := {
  so_counts : counts_ok (sh_regions s) (all_refs (sh_vfs s));
  so_next : (length (sh_regions s) ≤ sh_next s)%nat;
  so_alloc : is_Some (v_alloc (sh_vmm s));
  so_frames : NoDup (shared_frames (sh_regions s) ++ avail (sh_vmm s));
  so_size : ∀ id r, region (sh_regions s) id = Some r → 0 < len (sr_frames r) * 4096 ≤ MAX_SHMEM_REGION_BYTES;
  so_quota : ∀ task, pages_of (sh_regions s) (task_refs task (sh_vfs s)) * 4096 ≤ MAX_SHMEM_BYTES_PER_TASK }.

Lemma retain_refs task id s : let s' := retain_task_shmem_ref task id s in
  sh_regions s' = sh_regions s ∧ sh_next s' = sh_next s ∧ sh_vmm s' = sh_vmm s ∧ all_refs (sh_vfs s') ≡ₚ id :: all_refs (sh_vfs s) ∧
  ∀ t, task_refs t (sh_vfs s') = if decide (t = task) then task_refs t (sh_vfs s) ++ [id] else task_refs t (sh_vfs s).
Proof.
  cbn zeta. unfold retain_task_shmem_ref. cbn [sh_regions sh_next sh_vmm sh_vfs]. destruct (ensure_refs task (sh_vfs s)) as [E1 E2].
  destruct (set_refs_spec task (task_refs task (ensure_task task (sh_vfs s)) ++ [id]) (ensure_task task (sh_vfs s)) ltac:(left; apply ensure_length)) as [HP HT].
  unfold set_refs in *. split_and!; [done|done|done| |].
  - rewrite E1, app_assoc in HP. rewrite (Permutation_app_comm (all_refs (sh_vfs s))), <-app_assoc, (Permutation_app_comm _ (task_refs _ _)) in HP. apply Permutation_app_inv_l in HP.
    rewrite HP. by rewrite Permutation_app_comm.
  - intros t. rewrite HT. destruct (decide (t = task)) as [->|]; by rewrite E2.
Qed.
Lemma put_region_eq id r R : (length R ≤ id)%nat → put_region id r R = R ++ replicate (id - length R) None ++ [Some r].
Proof.
  intros H. unfold put_region. replace (S id - length R)%nat with ((id - length R) + 1)%nat by lia. rewrite replicate_add. simpl.
  rewrite insert_app_r_alt by lia. rewrite insert_app_r_alt by (rewrite length_replicate; lia). rewrite length_replicate, Nat.sub_diag. done.
Qed.
Lemma region_put id r R i : (length R ≤ id)%nat → region (put_region id r R) i = if decide (i = id) then Some r else region R i.
Proof.
  intros H. rewrite put_region_eq by done. unfold region. destruct (decide (i < length R)%nat) as [Hi|Hi]; [rewrite lookup_app_l by done; by rewrite decide_False by lia|].
  rewrite lookup_app_r, (lookup_ge_None_2 R) by lia. destruct (decide (i = id)) as [->|Hne].
  - rewrite lookup_app_r by (rewrite length_replicate; lia). by rewrite length_replicate, Nat.sub_diag.
  - destruct (decide (i < id)%nat) as [Hl|Hl]; [rewrite lookup_app_l by (rewrite length_replicate; lia); by rewrite lookup_replicate_2 by lia|].
    by rewrite lookup_ge_None_2 by (rewrite length_app, length_replicate; simpl; lia).
Qed.
Lemma shared_frames_put id r R : (length R ≤ id)%nat → shared_frames (put_region id r R) = shared_frames R ++ sr_frames r.
Proof.
  intros H. rewrite put_region_eq, !shared_frames_app by done. f_equal. assert (shared_frames (replicate (id - length R) None) = []) as -> by (by induction (id - length R)%nat).
  unfold shared_frames. simpl. by rewrite app_nil_r.
Qed.
Lemma region_bound R id : is_Some (region R id) → (id < length R)%nat.
Proof. intros [r Hr]. unfold region in Hr. destruct (R !! id) eqn:E; [|done]. by eapply lookup_lt_Some. Qed.
Lemma fresh_region R id : (length R ≤ id)%nat → region R id = None.
Proof. intros H. destruct (region R id) eqn:E; [|done]. pose proof (region_bound R id ltac:(by eexists)). lia. Qed.
(** A reference leads to a region. *)
Lemma ref_region R refs id : counts_ok R refs → id ∈ refs → is_Some (region R id).
Proof. intros H Hid%refs_to_elem. specialize (H id). destruct (region R id); [by eexists|lia]. Qed.
Lemma task_ref_region s task id : shmem_ok s → id ∈ task_refs task (sh_vfs s) → is_Some (region (sh_regions s) id).
Proof. intros H Hid. eapply ref_region; [apply H|]. apply elem_of_all_refs. eauto. Qed.

(** The memory is used otherwise. *)
Lemma shmem_ok_vmm s v : shmem_ok s → is_Some (v_alloc v) → NoDup (shared_frames (sh_regions s) ++ avail v) → shmem_ok (sh_set_vmm v s).
Proof. by intros [] ? ?. Qed.

(** A region is added with its first reference. *)
Lemma create_region_ok s task fs v : shmem_ok s → is_Some (v_alloc v) → avail (sh_vmm s) ≡ₚ fs ++ avail v → 0 < len fs * 4096 ≤ MAX_SHMEM_REGION_BYTES →
  (pages_of (sh_regions s) (task_refs task (sh_vfs s)) + len fs) * 4096 ≤ MAX_SHMEM_BYTES_PER_TASK →
  shmem_ok (retain_task_shmem_ref task (sh_next s) {| sh_regions := put_region (sh_next s) (SharedMemRegion_new fs) (sh_regions s); sh_next := S (sh_next s); sh_vfs := sh_vfs s; sh_vmm := v |}).
Proof.
  intros H Hv HP Hs Hq. pose proof H as [S1 S2 S3 S4 S5 S6]. set (s1 := {| sh_regions := _; sh_next := _; sh_vfs := sh_vfs s; sh_vmm := v |}).
  destruct (retain_refs task (sh_next s) s1) as (E1 & E2 & E3 & E4 & E5). set (s2 := retain_task_shmem_ref _ _ _) in *. cbn [s1 sh_regions sh_next sh_vfs sh_vmm] in *.
  assert (Hr : ∀ i, region (sh_regions s2) i = if decide (i = sh_next s) then Some (SharedMemRegion_new fs) else region (sh_regions s) i) by (intros i; rewrite E1; by apply region_put).
  assert (Hnone : region (sh_regions s) (sh_next s) = None) by by apply fresh_region.
  assert (Hpg : ∀ t, pages_of (sh_regions s2) (task_refs t (sh_vfs s)) = pages_of (sh_regions s) (task_refs t (sh_vfs s))).
  { intros t. apply pages_ext. intros i Hi%(task_ref_region _ _ _ H). rewrite Hr. case_decide; [|done]. subst i. rewrite Hnone in Hi. by destruct Hi. }
  split; [|by rewrite E1, E2, put_region_eq, !length_app, length_replicate by done; simpl; lia|by rewrite E3| | |].
  - intros i. rewrite (refs_to_perm _ _ _ E4), refs_to_cons, Hr. specialize (S1 i). destruct (decide (i = sh_next s)) as [->|].
    + rewrite Hnone in S1. rewrite decide_True, S1 by done. simpl. lia.
    + by rewrite decide_False by done.
  - rewrite E1, E3, shared_frames_put by done. simpl. by rewrite <-app_assoc, <-HP.
  - intros i r. rewrite Hr. case_decide; [by intros [= <-]|apply S5].
  - intros t. rewrite E5. destruct (decide (t = task)) as [->|]; [|by rewrite Hpg]. rewrite pages_app, Hpg. unfold pages_of at 2. cbn. rewrite Hr, decide_True by done. cbn. lia.
Qed.
Lemma create_ok task n reserve s o s' : shmem_ok s → 0 ≤ n → vfs_shmem_create task n reserve s = (o, s') → shmem_ok s'.
Proof.
  intros H Hn. unfold vfs_shmem_create. destruct (Z.eqb_spec n 0), (Z.ltb_spec MAX_SHMEM_REGION_BYTES n); cbn [orb]; try (by intros [= <- <-]). unfold checked_add. destruct (n + 4095 <? 2 ^ 64); [|by intros [= <- <-]].
  destruct (negb (task_can_add_shmem_pages _ _ _)) eqn:Eq; [by intros [= <- <-]|]. apply negb_false_iff in Eq. destruct (negb reserve); [by intros [= <- <-]|].
  assert (Hp : 0 < (n + 4095) / 4096 * 4096 ≤ MAX_SHMEM_REGION_BYTES) by (unfold MAX_SHMEM_REGION_BYTES in *; pose proof (Z.div_mod (n + 4095) 4096); pose proof (Z.mod_pos_bound (n + 4095) 4096); lia).
  rewrite can_add_pages in Eq by lia. destruct (alloc_frames _ _ _) as [[fs|] v] eqn:Ea; destruct (alloc_frames_avail _ _ _ _ _ (so_alloc _ H) Ea) as [Hv HX]; intros [= <- <-].
  - destruct HX as [HP HL]. assert (El : len fs = (n + 4095) / 4096) by (unfold len; rewrite HL; simpl; lia). by apply create_region_ok; rewrite ?El.
  - apply shmem_ok_vmm; [done|done|]. simpl in HX. rewrite <-HX. apply H.
Qed.
Lemma NoDup_drop_used {A} (F used rest : list A) : NoDup (F ++ used ++ rest) → NoDup (F ++ rest).
Proof. rewrite (Permutation_app_comm used), app_assoc. intros H. by apply NoDup_app in H as (H & _). Qed.

(** A region is mapped once more. *)
Lemma add_ref_ok s task id r v : shmem_ok s → region (sh_regions s) id = Some r → is_Some (v_alloc v) → NoDup (shared_frames (sh_regions s) ++ avail v) →
  (pages_of (sh_regions s) (task_refs task (sh_vfs s)) + len (sr_frames r)) * 4096 ≤ MAX_SHMEM_BYTES_PER_TASK →
  shmem_ok (retain_task_shmem_ref task id {| sh_regions := <[id := Some (add_ref r)]> (sh_regions s); sh_next := sh_next s; sh_vfs := sh_vfs s; sh_vmm := v |}).
Proof.
  intros H Er Hv HN Hq. pose proof H as [S1 S2 S3 S4 S5 S6]. set (s1 := {| sh_regions := _; sh_next := _; sh_vfs := sh_vfs s; sh_vmm := v |}).
  destruct (retain_refs task id s1) as (E1 & E2 & E3 & E4 & E5). set (s2 := retain_task_shmem_ref _ _ _) in *. cbn [s1 sh_regions sh_next sh_vfs sh_vmm] in *.
  assert (Hr : ∀ i, region (sh_regions s2) i = if decide (i = id) then Some (add_ref r) else region (sh_regions s) i) by (intros i; rewrite E1; by apply region_insert; eexists).
  assert (Hpg : ∀ t, pages_of (sh_regions s2) (task_refs t (sh_vfs s)) = pages_of (sh_regions s) (task_refs t (sh_vfs s))).
  { intros t. apply pages_ext. intros i _. rewrite Hr. case_decide; [subst i; by rewrite Er|done]. }
  split; [|by rewrite E1, E2, length_insert|by rewrite E3| | |].
  - intros i. rewrite (refs_to_perm _ _ _ E4), refs_to_cons, Hr. specialize (S1 i). destruct (decide (i = id)) as [->|].
    + rewrite Er in S1. rewrite decide_True by done. simpl. lia.
    + by rewrite decide_False by done.
  - rewrite E1, E3. by rewrite (shared_frames_same _ _ r) by done.
  - intros i x. rewrite Hr. case_decide; [intros [= <-]; exact (S5 id r Er)|apply S5].
  - intros t. rewrite E5. destruct (decide (t = task)) as [->|]; [|by rewrite Hpg]. rewrite pages_app, Hpg. unfold pages_of at 2. cbn. rewrite Hr, decide_True by done. cbn. lia.
Qed.
Lemma shmem_map_ok {MP : Mapper} {MS : MapperSpec} task id p s o s' : shmem_ok s → vfs_shmem_map task id p s = (o, s') → shmem_ok s'.
Proof.
  intros H. unfold vfs_shmem_map. destruct (slot_address id) as [addr|]; [|by intros [= <- <-]]. destruct (region (sh_regions s) (Z.to_nat id)) as [r|] eqn:Er; [|by intros [= <- <-]].
  destruct (negb (task_can_add_shmem_pages _ _ _)) eqn:Eq; [by intros [= <- <-]|]. apply negb_false_iff, can_add_pages in Eq; [|apply len_nonneg].
  destruct (shmem_map_loop p addr (sr_frames r) (sh_vmm s)) as [b v] eqn:El. destruct (shmem_map_loop_avail _ _ _ _ _ _ (so_alloc _ H) El) as [Hv [u Hu]].
  assert (HN : NoDup (shared_frames (sh_regions s) ++ avail v)) by (apply (NoDup_drop_used _ u); rewrite <-Hu; apply H).
  destruct b as [[]|]; intros [= <- <-]; [by apply add_ref_ok|by apply shmem_ok_vmm..].
Qed.

(** The references of a task are dropped. *)
Lemma release_fd_refs e st : task_shmem_refs (snd (release_fd e st)) = task_shmem_refs st.
Proof. unfold release_fd. destruct (get_object _ _); [|done]. destruct (release_kind _ _). by case_if. Qed.
Lemma close_fds_refs task fds : ∀ st, task_shmem_refs (snd (close_fds task fds st)) = task_shmem_refs st.
Proof.
  induction fds as [|fd fds IH]; intros st; [done|]. cbn [close_fds]. assert (Ht : task_shmem_refs (snd (take_entry task fd st)) = task_shmem_refs st) by (unfold take_entry; by repeat case_match).
  destruct (take_entry task fd st) as [[e|] st1]; [|by rewrite IH]. pose proof (release_fd_refs e st1) as Hr. destruct (release_fd e st1) as [ev st2].
  pose proof (IH st2) as Hc. destruct (close_fds task fds st2) as [[w c] st3]. simpl in *. congruence.
Qed.
Lemma drop_task_refs task st : let '(_, _, refs, st') := drop_task task st in
  all_refs st' ++ refs ≡ₚ all_refs st ∧ (refs = [] ∧ st' = st ∨ refs = task_refs task st ∧ ∀ t, task_refs t st' = if decide (t = task) then [] else task_refs t st).
Proof.
  unfold drop_task. destruct (length (task_fds st) <=? task)%nat; [rewrite app_nil_r; split; [done|by left]|]. pose proof (close_fds_refs task (seq 0 MAX_FDS) st) as Hc.
  destruct (close_fds task (seq 0 MAX_FDS) st) as [[w c] st1]. simpl in Hc. destruct (set_refs_spec task [] st1 ltac:(by right)) as [HP HT]. unfold set_refs in *.
  rewrite app_nil_r in HP. unfold task_refs at 1 in HP. unfold all_refs in *. rewrite Hc in HP. rewrite Hc in *. split; [exact HP|]. right. split; [done|].
  intros t. rewrite HT. unfold task_refs. by rewrite Hc.
Qed.
Lemma release_refs_ok s st refs : shmem_ok s → all_refs st ++ refs ≡ₚ all_refs (sh_vfs s) → (∀ t, task_refs t st = task_refs t (sh_vfs s) ∨ task_refs t st = []) →
  let s' := release_shmem_refs refs (sh_set_vfs st s) in shmem_ok s' ∧ sh_vfs s' = st ∧
  shared_frames (sh_regions s) ++ avail (sh_vmm s) ≡ₚ shared_frames (sh_regions s') ++ avail (sh_vmm s') ∧
  (∀ id r, region (sh_regions s') id = Some r → ∃ r0, region (sh_regions s) id = Some r0 ∧ sr_frames r = sr_frames r0).
Proof.
  intros [S1 S2 S3 S4 S5 S6] HP Ht. cbn zeta. unfold release_shmem_refs. cbn [sh_set_vfs sh_regions]. destruct (release_loop refs (sh_regions s)) as [fs R] eqn:E.
  assert (HC : counts_ok (sh_regions s) (refs ++ all_refs st)) by (eapply counts_ok_perm; [|exact S1]; by rewrite <-HP, Permutation_app_comm).
  destruct (release_loop_ok refs (all_refs st) _ _ _ HC E) as (R1 & R2 & R3). destruct (free_frames_avail fs (sh_vmm s) S3) as [F1 F2].
  assert (HF : shared_frames (sh_regions s) ++ avail (sh_vmm s) ≡ₚ shared_frames R ++ avail (free_frames fs (sh_vmm s))) by (rewrite R2, F2; solve_Permutation).
  assert (HR : ∀ id r, region R id = Some r → ∃ r0, region (sh_regions s) id = Some r0 ∧ sr_frames r = sr_frames r0) by (intros id r Er; specialize (R3 id); by rewrite Er in R3).
  split_and!; cbn [sh_regions sh_vfs sh_vmm sh_next]; [|done|done|done]. split; cbn [sh_regions sh_vfs sh_vmm sh_next]; [done| |done|by rewrite <-HF| |].
  - transitivity (length (sh_regions s)); [|done]. assert (HL : ∀ ids R0 fs0 R0', release_loop ids R0 = (fs0, R0') → length R0' = length R0); [|by rewrite (HL _ _ _ _ E)].
    clear. induction ids as [|i ids IH]; intros R0 fs0 R0'; cbn [release_loop]; [by intros [= _ <-]|]. destruct (region R0 i) as [r|]; [|apply IH].
    case_if; [|intros E%IH; by rewrite length_insert in E]. destruct (release_loop ids _) as [f1 R1] eqn:E. intros [= _ <-]. apply IH in E. by rewrite length_insert in E.
  - intros id r (r0 & Er & ->)%HR. by eapply S5.
  - intros t. cbn [sh_vfs sh_set_vfs]. destruct (Ht t) as [Et| ->]; [|by vm_compute]. rewrite (pages_ext (sh_regions s)); [rewrite Et; apply S6|]. intros id Hid.
    assert (Hr : is_Some (region R id)) by (eapply ref_region; [exact R1|]; apply elem_of_all_refs; eauto). destruct Hr as [r Er]. destruct (HR id r Er) as (r0 & -> & E0). rewrite Er. simpl. by rewrite E0.
Qed.
Lemma init_task_refs task st : task_refs task st = [] → ∀ t, task_refs t (init_task task st) = task_refs t st.
Proof.
  intros H t. destruct (ensure_refs task st) as [_ E]. destruct (set_refs_spec task [] (ensure_task task st) ltac:(by right)) as [_ HT]. unfold init_task. unfold set_refs, task_refs in *.
  cbn [task_shmem_refs] in *. rewrite HT. destruct (decide (t = task)) as [->|]; [done|apply E].
Qed.
Lemma shmem_ok_vfs s st v : shmem_ok s → (∀ t, task_refs t st = task_refs t (sh_vfs s)) → is_Some (v_alloc v) → NoDup (shared_frames (sh_regions s) ++ avail v) →
  shmem_ok (sh_set_vmm v (sh_set_vfs st s)).
Proof.
  intros [S1 S2 S3 S4 S5 S6] Ht Hv HN. split; cbn [sh_set_vmm sh_set_vfs sh_regions sh_next sh_vfs sh_vmm]; try done; [by rewrite (all_refs_ext st (sh_vfs s))|]. intros t. rewrite Ht. apply S6.
Qed.

(** ** All sequences of operations *)
Section Run.
Context {MP : Mapper} {MS : MapperSpec}.

(** System calls, new and ending tasks, and what the other parts do with
    descriptors and frames that are theirs.  An id is given to a new task when the
    last one with it was dropped. *)
Inductive hstep (s : Shmem) : Shmem → Prop :=
| h_create task n reserve : 0 ≤ n → hstep s (snd (sys_shmem_create task n reserve s))
| h_map task id : hstep s (snd (sys_shmem_map task id s))
| h_init task : task_refs task (sh_vfs s) = [] → hstep s (shmem_init_task task s)
| h_drop task : hstep s (shmem_drop_task task s)
| h_exec task : hstep s (shmem_exec task s)
| h_other st v : (∀ t, task_refs t st = task_refs t (sh_vfs s)) → is_Some (v_alloc v) → NoDup (shared_frames (sh_regions s) ++ avail v) →
    hstep s (sh_set_vmm v (sh_set_vfs st s)).

(** The references of [task] are gone, those of the others are as before; a region
    lives on exactly if one of these refers to it, with the same frames; all other
    frames are free. *)
Record dropped (task : nat) (s s' : Shmem) : Prop := {
  dr_refs : ∀ t, task_refs t (sh_vfs s') = if decide (t = task) then [] else task_refs t (sh_vfs s);
  dr_region : ∀ id, is_Some (region (sh_regions s') id) ↔ ∃ t, t ≠ task ∧ id ∈ task_refs t (sh_vfs s);
  dr_frames : ∀ id r, region (sh_regions s') id = Some r → sr_frames <$> region (sh_regions s) id = Some (sr_frames r);
  dr_all : shared_frames (sh_regions s) ++ avail (sh_vmm s) ≡ₚ shared_frames (sh_regions s') ++ avail (sh_vmm s') }.
Lemma region_referred s id : shmem_ok s → is_Some (region (sh_regions s) id) ↔ ∃ t, id ∈ task_refs t (sh_vfs s).
Proof.
  intros H. rewrite <-elem_of_all_refs, <-refs_to_elem. pose proof (so_counts s H id) as Hc. destruct (region (sh_regions s) id); [|rewrite Hc; split; [by intros []|lia]].
  split; [lia|by eexists].
Qed.
Lemma release_dropped s st refs task : shmem_ok s → all_refs st ++ refs ≡ₚ all_refs (sh_vfs s) → (∀ t, task_refs t st = if decide (t = task) then [] else task_refs t (sh_vfs s)) →
  let s' := release_shmem_refs refs (sh_set_vfs st s) in shmem_ok s' ∧ dropped task s s'.
Proof.
  intros H HP HT. destruct (release_refs_ok s st refs H HP) as (H1 & H2 & H3 & H4); [intros t; rewrite HT; case_decide; auto|]. cbn zeta in *. set (s' := release_shmem_refs _ _) in *.
  split; [done|]. split; [by rewrite H2| | |done].
  - intros id. rewrite region_referred, H2 by done. split; [intros [t Ht]|intros (t & Hne & Ht)]; exists t; rewrite HT in *; [case_decide; [by apply elem_of_nil in Ht|done]|]. by rewrite decide_False.
  - intros id r (r0 & -> & ->)%H4. done.
Qed.
Lemma exec_dropped task s : shmem_ok s → shmem_ok (shmem_exec task s) ∧ dropped task s (shmem_exec task s).
Proof.
  intros H. unfold shmem_exec, drop_task_shmem_refs. destruct (set_refs_spec task [] (sh_vfs s) ltac:(by right)) as [HP HT]. unfold set_refs in *. rewrite app_nil_r in HP. by apply release_dropped.
Qed.
Lemma drop_dropped task s : shmem_ok s → shmem_ok (shmem_drop_task task s) ∧ ((task < length (task_fds (sh_vfs s)))%nat → dropped task s (shmem_drop_task task s)).
Proof.
  intros H. unfold shmem_drop_task. pose proof (drop_task_refs task (sh_vfs s)) as HD. assert (Hl : (task < length (task_fds (sh_vfs s)))%nat → snd (fst (drop_task task (sh_vfs s))) = task_refs task (sh_vfs s)).
  { intros Hl. unfold drop_task. rewrite (proj2 (Nat.leb_gt _ _) Hl). pose proof (close_fds_refs task (seq 0 MAX_FDS) (sh_vfs s)) as Hc. destruct (close_fds _ _ _) as [[w c] st1]. simpl in *. unfold task_refs. by rewrite Hc. }
  destruct (drop_task task (sh_vfs s)) as [[[w c] refs] st]. simpl in Hl. destruct HD as [HP [[-> ->]|[-> HT]]]; [|destruct (release_dropped s st _ task H HP HT); split; auto].
  split; [by apply (release_refs_ok s (sh_vfs s) [] H HP); auto|]. intros Hn%Hl. apply (release_dropped s (sh_vfs s) [] task H HP). intros t. destruct (decide (t = task)) as [->|]; [done|done].
Qed.
Lemma hstep_ok s s' : shmem_ok s → hstep s s' → shmem_ok s'.
Proof.
  intros H Hs. destruct Hs as [task n reserve Hn|task id|task Ht|task|task|st v Ht Hv HN].
  - unfold sys_shmem_create. case_if; [done|]. case_if; [done|]. destruct (vfs_shmem_create task n reserve s) as [o s1] eqn:E. destruct o; by eapply create_ok.
  - unfold sys_shmem_map. destruct (vfs_shmem_map task id (current_pml4 (sh_vmm s)) s) as [o s1] eqn:E. by eapply shmem_map_ok.
  - pose proof (shmem_ok_vfs s (init_task task (sh_vfs s)) (sh_vmm s) H (init_task_refs task _ Ht) (so_alloc _ H) (so_frames _ H)) as Hi. by destruct s.
  - by apply drop_dropped.
  - by apply exec_dropped.
  - by apply shmem_ok_vfs.
Qed.
Lemma shmem_new_ok v : is_Some (v_alloc v) → NoDup (avail v) → shmem_ok (Shmem_new VfsState_new v).
Proof. intros Hv HN. split; cbn; [done|lia|done|done|done|by intros task; vm_compute]. Qed.

(** C28: Reference counting of shared memory is exact.  After any sequence of system
    calls, new and ending tasks: a region exists exactly as long as a task refers to
    it, and its count is the number of references; the frames of regions are all
    different and none of them is free; no task refers to more than 8 MiB; and when
    a task ends or executes another program, the frames that become free are those
    of the regions no other task refers to. *)
Theorem shmem_references_exact v s : is_Some (v_alloc v) → NoDup (avail v) → rtc hstep (Shmem_new VfsState_new v) s →
  (∀ id, is_Some (region (sh_regions s) id) ↔ ∃ t, id ∈ task_refs t (sh_vfs s)) ∧
  (∀ id r, region (sh_regions s) id = Some r → sr_refcount r = refs_to id (all_refs (sh_vfs s)) ∧ 0 < len (sr_frames r) * 4096 ≤ MAX_SHMEM_REGION_BYTES) ∧
  NoDup (shared_frames (sh_regions s) ++ avail (sh_vmm s)) ∧
  (∀ task, task_shmem_pages task s * 4096 ≤ MAX_SHMEM_BYTES_PER_TASK) ∧
  (∀ task, dropped task s (shmem_exec task s)) ∧
  (∀ task, (task < length (task_fds (sh_vfs s)))%nat → dropped task s (shmem_drop_task task s)).
Proof.
  intros Hv HN HR. assert (H : shmem_ok s) by (pose proof (shmem_new_ok v Hv HN) as H0; revert H0; induction HR; [done|]; intros H0; by apply IHHR, (hstep_ok x)).
  split_and!; [intros id; by apply region_referred| |apply H| |intros t; by apply exec_dropped|intros t; by apply drop_dropped].
  - intros id r Er. pose proof (so_counts s H id) as Hc. rewrite Er in Hc. split; [apply Hc|by eapply so_size].
  - intros task. rewrite task_shmem_pages_eq. pose proof (so_quota s H task). lia.
Qed.
End Run.
