(* ===== verification/ShmemMap.v ===== *)
(** * Shared memory is shared

    Creating a region and mapping it into address spaces, over the memory system of
    VmmRun.v: both are sequences of its steps, so what holds of them holds here; the
    region begins with zeros, and what one program stores the other reads. *)
From stdpp Require Import gmap functions relations.
From S2P Require Import Prelude UserLayout FrameAlloc Vmm VmmMem VmmInv VmmMap VmmOps VmmAccess UserMem Pipe FdTable Mmap VmmRun VmmClaims Shmem.
Set Warnings "-clear-no-such-hyp".

Local Open Scope Z_scope.

Lemma shmem_root a : USER_SHMEM_BASE ≤ a < USER_SHMEM_BASE + 2 ^ 39 → user_root (pt_index 4 a) ∧ 0 ≤ a < 2 ^ 47.
Proof.
  unfold USER_SHMEM_BASE. intros Ha. split; [|lia]. right. unfold pt_index. rewrite Z.shiftr_div_pow2 by lia. change (2 ^ (12 + 9 * (Z.of_nat 4 - 1))) with 549755813888.
  replace (a / 549755813888) with 128; [by vm_compute|]. apply Z.div_unique with (a - 128 * 549755813888); lia.
Qed.
Lemma shmem_flags_ok : flags_ok shmem_flags ∧ wx_ok shmem_flags ∧ Z.testbit shmem_flags 2 = true ∧ Z.testbit shmem_flags 1 = true.
Proof. by vm_compute. Qed.
(** The first 8192 ids have slots below the entry of shared memory. *)
Lemma slot_address_low id : 1 ≤ id ≤ 8192 → slot_address id = Some (USER_SHMEM_BASE + (id - 1) * USER_SHMEM_SLOT_SIZE).
Proof.
  intros H. unfold slot_address, checked_sub, checked_mul, checked_add, USER_SHMEM_BASE, USER_SHMEM_SLOT_SIZE. rewrite (proj2 (Z.leb_le 1 id)) by lia. simpl.
  rewrite (proj2 (Z.ltb_lt _ _)) by lia. simpl. by rewrite (proj2 (Z.ltb_lt _ _)) by lia.
Qed.

(** The pages of a region of [n] frames at [va]. *)
Definition page_at (va : Z) (i : nat) : Z := va + PAGE_SIZE * Z.of_nat i.
Definition slot_empty (p va n : Z) (v : Vmm) : Prop := ∀ i, Z.of_nat i < n → ¬ present (v_mem v) p (page_at va i).
Definition region_at (p va : Z) (frames : list Z) (v : Vmm) : Prop := ∀ i f, frames !! i = Some f → mapped (v_mem v) p (page_at va i) f shmem_flags.

Section Share.
Context {MP : Mapper} {MS : MapperSpec} (Q : Z → Prop) (HQ : ∀ fl, wx_ok fl → Q fl) (all : list Z).

Lemma absent_inaccessible v g p va : vmm_ok v g → live p v → 0 < va < 2 ^ 47 → ¬ present (v_mem v) p va → default false (user_range_accessible_in p va 1 true (v_mem v)) = false.
Proof.
  intros H HL Hva Hn. destruct (user_range_exact p va 1 true (v_mem v)) as (b & -> & Hb); [lia|lia|]. simpl. apply not_true_is_false. intros (_ & _ & _ & Ha)%Hb. apply Hn.
  destruct (Ha va ltac:(lia)) as [pa E]. destruct (access_reaches v g p va true pa H HL E) as (_ & t & [HP HE] & _). exists t. split; [by eapply path_weaken|by eapply permits_nonzero].
Qed.

Lemma shmem_map_loop_ok p frames : ∀ va s g r v', sys_inv Q all s g → live p (sy_v s) → (∀ f, f ∈ frames → f ∈ sy_shared s) →
  va mod PAGE_SIZE = 0 → USER_SHMEM_BASE ≤ va → va + PAGE_SIZE * len frames ≤ USER_SHMEM_BASE + 2 ^ 39 → slot_empty p va (len frames) (sy_v s) →
  shmem_map_loop p va frames (sy_v s) = (r, v') →
  ∃ b g', r = Some b ∧ sys_inv Q all (set_v v' s) g' ∧ rtc (vstep Q) s (set_v v' s) ∧ progress p (sy_v s) g v' g' ∧ (∀ x, x ∈ g_held g → x ∈ g_held g') ∧
    adds p (map (page_at va) (seq 0 (length frames))) (sy_v s) v' ∧ (b = true → region_at p va frames v').
Proof.
  destruct shmem_flags_ok as (F & Fw & _). induction frames as [|f frames IH]; intros va s g r v' I HL Hf Hal Hb Ht He; cbn [shmem_map_loop].
  { intros [= <- <-]. exists true, g. split_and!; [done|by destruct s|by destruct s|apply progress_refl, I|done|by apply adds_eq|done]. }
  rewrite len_cons in *. pose proof (len_nonneg frames) as Hln. destruct (shmem_root va) as [HR Hva]; [unfold PAGE_SIZE in *; lia|].
  unfold canonical_address. rewrite (proj2 (Z.ltb_lt va _)) by lia. cbn [orb negb].
  destruct (map_page_in p va f shmem_flags (sy_v s)) as [r1 v1] eqn:E. pose proof (si_ok _ _ _ _ I) as H.
  destruct (inv_share Q all s g p va f shmem_flags r1 v1 I ltac:(apply Hf; left) HL HR F (HQ _ Fw) E) as (g1 & X & I1).
  assert (Hst : vstep Q s (set_v v1 s)) by (eapply (st_share Q s p va f shmem_flags); [apply Hf; left|done|done|unfold u64; lia|lia|done|by apply HQ|done]).
  pose proof (page_mapped_progress _ _ _ _ _ _ _ _ _ H X) as P. pose proof (page_mapped_adds _ _ _ _ _ _ _ _ _ H X HL HR ltac:(lia)) as A. rewrite (page_down_aligned va Hal) in A.
  assert (HL1 : live p v1) by (eapply live_roots; [apply P|done]). assert (Hh : ∀ x, x ∈ g_held g → x ∈ g_held g1) by (by rewrite (proj1 (pm_held _ _ _ _ _ _ _ _ _ X))).
  destruct r1 as [[]|e]; cbn [is_ok negb andb] in *.
  - assert (Ew : wrapping_add 64 va 4096 = va + PAGE_SIZE) by (unfold wrapping_add; apply Z.mod_small; unfold PAGE_SIZE in *; lia). rewrite Ew.
    assert (Es : ∀ i, page_at (va + PAGE_SIZE) i = page_at va (S i)) by (intros i; unfold page_at; lia). intros E2.
    destruct (IH (va + PAGE_SIZE) (set_v v1 s) g1 r v' I1 HL1 ltac:(intros x Hx; apply Hf; by right)) as (b & g2 & -> & I2 & R2 & P2 & Hh2 & A2 & M2); cbn [sy_v set_v]; [|unfold PAGE_SIZE in *; lia|unfold PAGE_SIZE in *; lia| |done|].
    + rewrite Z.add_mod, Hal by done. done.
    + intros i Hi Hp. rewrite Es in Hp. destruct (shmem_root (page_at va (S i))) as [HRi Hvi]; [unfold page_at, PAGE_SIZE in *; lia|].
      destruct (A p _ HL HRi ltac:(lia) Hp) as [Hp'|[_ Hin]]; [by apply (He (S i)); [lia|]|]. apply list_elem_of_singleton in Hin.
      rewrite (page_down_aligned (page_at va (S i))) in Hin; [unfold page_at, PAGE_SIZE in Hin; lia|]. unfold page_at. rewrite Z.mul_comm, Z.mod_add by done. done.
    + exists b, g2. cbn [sy_v set_v] in *. split_and!; [done|by destruct s|by eapply rtc_l; [|destruct s]|by eapply progress_trans|auto| |].
      * cbn [length seq map]. rewrite <-seq_shift, map_map. eapply adds_mono; [|eapply (adds_trans p [va]); [apply P|exact A|exact A2]].
        intros x [->%list_elem_of_singleton|Hx]%elem_of_app; [unfold page_at; rewrite Z.mul_0_r, Z.add_0_r; left|right]. by rewrite (map_ext _ _ Es) in Hx.
      * intros Eb i x Hx. destruct i as [|i]; [|rewrite <-Es; by apply M2]. injection Hx as ->. unfold page_at. rewrite Z.mul_0_r, Z.add_0_r.
        eapply (mapped_progress p va shmem_flags x p v1 g1); [apply P|done|done|exact P2|done| |by apply (pm_mapped _ _ _ _ _ _ _ _ _ X)].
        eapply held_frame_ok; [exact H|]. rewrite (si_held _ _ _ _ I), elem_of_app. right. apply Hf. left.
  - assert (Hn : ¬ present (v_mem v1) p va).
    { intros Hp. destruct (A p va HL HR ltac:(lia) Hp) as [Hp'|[_ ?%elem_of_nil]]; [|done]. apply (He O); [lia|]. unfold page_at. by rewrite Z.mul_0_r, Z.add_0_r. }
    rewrite (absent_inaccessible v1 g1 p va (pr_ok _ _ _ _ _ P) HL1 ltac:(unfold USER_SHMEM_BASE in *; lia) Hn). cbn [negb]. intros [= <- <-]. exists false, g1.
    split_and!; [done|done|by apply rtc_once|done|done| |done]. eapply adds_mono; [|exact A]. by intros x ?%elem_of_nil.
Qed.

(** The frames of a new region: taken one by one, zeroed, then published. *)
Lemma alloc_frames_ok n : ∀ frames priv s g fs v', sys_inv Q all s g → sy_private s ≡ₚ frames ++ priv → (∀ f, f ∈ frames → v_mem (sy_v s) f = zeros PAGE_SIZE) →
  alloc_frames n frames (sy_v s) = (Some fs, v') →
  ∃ s' g', sy_v s' = v' ∧ sys_inv Q all s' g' ∧ rtc (vstep Q) s s' ∧ sy_shared s' = sy_shared s ∧ sy_private s' ≡ₚ fs ++ priv ∧ (∀ f, f ∈ fs → v_mem v' f = zeros PAGE_SIZE) ∧
    progress 0 (sy_v s) g v' g' ∧ (∀ x, x ∈ g_held g → x ∈ g_held g') ∧ adds 0 [] (sy_v s) v'.
Proof.
  induction n as [|n IH]; intros frames priv s g fs v' I Hp Hz; cbn [alloc_frames].
  { intros [= <- <-]. exists s, g. split_and!; [done|done|done|done|done|done|apply progress_refl, I|done|by apply adds_eq]. }
  destruct (alloc_zeroed_frame (sy_v s)) as [[f|] v1] eqn:E; [|done]. intros E2. pose proof (si_ok _ _ _ _ I) as H. pose proof (alloc_zeroed_taken 0 (sy_v s) g f v1 H E) as [P U MM D N].
  pose proof (inv_alloc Q all s g f v1 I E) as I1. pose proof (st_alloc Q s f v1 E) as Hst. set (s1 := {| sy_v := v1; sy_private := f :: sy_private s; sy_shared := sy_shared s |}) in *.
  assert (Hm : ∀ x, x ≠ f → v_mem v1 x = v_mem (sy_v s) x).
  { intros x Hx. unfold alloc_zeroed_frame in E. destruct (alloc_frame (sy_v s)) as [[f'|] v0] eqn:E0; [|done]. injection E as -> <-. cbn [v_mem set_mem]. unfold zero_frame. rewrite fn_lookup_insert_ne by done.
    unfold alloc_frame in E0. destruct (v_alloc (sy_v s)); [|done]. destruct (allocate_frame _). by injection E0 as _ <-. }
  destruct (IH (frames ++ [f]) priv s1 (holding f g) fs v' I1) as (s' & g' & E3 & I' & R & Es & Ep & Hz' & P' & Hh & A'); [|by intros x [Hx|Hx]%elem_of_app; [|apply list_elem_of_singleton in Hx as ->]; [destruct (decide (x = f)) as [->|]; [|rewrite Hm by done; auto]|]|done|].
  { cbn [s1 sy_private]. rewrite Hp. solve_Permutation. }
  exists s', g'. split_and!; [done|done|by eapply rtc_l|done|done|done| |intros x Hx; apply Hh; by right|].
  - eapply progress_trans; [exact P|exact P'|]. intros x Hx. by right.
  - apply (adds_trans 0 [] [] (sy_v s) v1 v'); [apply P| |exact A']. apply (adds_same 0 (sy_v s) (holding f g) v1 (pr_ok _ _ _ _ _ P) (pr_roots _ _ _ _ _ P)). done.
Qed.
Lemma publish_all fs : ∀ priv s g, sys_inv Q all s g → sy_private s ≡ₚ fs ++ priv →
  ∃ s', sy_v s' = sy_v s ∧ sys_inv Q all s' g ∧ rtc (vstep Q) s s' ∧ sy_private s' ≡ₚ priv ∧ sy_shared s' ≡ₚ fs ++ sy_shared s.
Proof.
  induction fs as [|f fs IH]; intros priv s g I Hp; [by exists s|]. rewrite <-app_comm_cons in Hp. pose proof (inv_publish Q all s g f (fs ++ priv) I Hp) as I1.
  destruct (IH priv _ g I1) as (s' & E1 & I' & R & E2 & E3); [done|]. exists s'. split_and!; [done|done|eapply rtc_l; [by apply st_publish|done]|done|]. rewrite E3. cbn [sy_shared]. solve_Permutation.
Qed.

Definition slot_base (id : Z) : Z := USER_SHMEM_BASE + (id - 1) * USER_SHMEM_SLOT_SIZE.
Lemma slot_base_bounds id : 1 ≤ id ≤ 8192 →
  USER_SHMEM_BASE ≤ slot_base id ∧ slot_base id + PAGE_SIZE * 512 ≤ USER_SHMEM_BASE + 2 ^ 39 ∧ slot_base id mod PAGE_SIZE = 0.
Proof.
  intros H. unfold slot_base, USER_SHMEM_BASE, USER_SHMEM_SLOT_SIZE, PAGE_SIZE. split_and!; [lia|lia|]. rewrite Z.add_mod, Z.mul_mod by done.
  change (64 * 1024 * 1024 mod 4096) with 0. by rewrite Z.mul_0_r.
Qed.
(** A step of the memory system on behalf of [p]: what was there stays. *)
Record shared_step (p : Z) (N : list Z) (s : Sys) (g : ghost) (s' : Sys) (g' : ghost) : Prop := {
  ss_inv : sys_inv Q all s' g';
  ss_run : rtc (vstep Q) s s';
  ss_progress : progress p (sy_v s) g (sy_v s') g';
  ss_held : ∀ x, x ∈ g_held g → x ∈ g_held g';
  ss_shared : ∀ x, x ∈ sy_shared s → x ∈ sy_shared s';
  ss_adds : adds p N (sy_v s) (sy_v s') }.
Lemma create_steps t n reserve s id s1 sys g : sys_inv Q all sys g → sh_vmm s = sy_v sys → (length (sh_regions s) ≤ sh_next s)%nat → 0 ≤ n → vfs_shmem_create t n reserve s = (Some id, s1) →
  ∃ sys' g' fs, sy_v sys' = sh_vmm s1 ∧ shared_step 0 [] sys g sys' g' ∧ region (sh_regions s1) id = Some (SharedMemRegion_new fs) ∧ len fs = (n + 4095) / 4096 ∧ n ≤ 512 * 4096 ∧
    (∀ f, f ∈ fs → f ∈ sy_shared sys' ∧ v_mem (sy_v sys') f = zeros PAGE_SIZE).
Proof.
  intros I Ev Hl Hn. unfold vfs_shmem_create. destruct (Z.eqb_spec n 0), (Z.ltb_spec MAX_SHMEM_REGION_BYTES n); cbn [orb]; try done. unfold checked_add. destruct (n + 4095 <? 2 ^ 64); [|done].
  destruct (negb (task_can_add_shmem_pages _ _ _)); [done|]. destruct (negb reserve); [done|]. rewrite Ev.
  destruct (alloc_frames _ [] (sy_v sys)) as [[fs|] v] eqn:Ea; [|done]. intros [= <- <-]. destruct (retain_refs t (sh_next s) {| sh_regions := put_region (sh_next s) (SharedMemRegion_new fs) (sh_regions s);
    sh_next := S (sh_next s); sh_vfs := sh_vfs s; sh_vmm := v |}) as (E1 & _ & E3 & _). cbn [sh_regions sh_vmm] in E1, E3.
  pose proof (alloc_frames_avail _ _ _ _ _ (vo_init _ _ (si_ok _ _ _ _ I)) Ea) as (_ & _ & HL).
  destruct (alloc_frames_ok (Z.to_nat ((n + 4095) / 4096)) [] (sy_private sys) sys g fs v I) as (sys1 & g1 & <- & I1 & R1 & S1 & P1 & Z1 & G1 & H1 & A1); [done|by intros f ?%elem_of_nil|done|].
  destruct (publish_all fs (sy_private sys) sys1 g1 I1 P1) as (sys2 & V2 & I2 & R2 & P2 & S2). exists sys2, g1, fs. rewrite E1, E3, V2. split_and!; [done| | | |unfold MAX_SHMEM_REGION_BYTES in *; lia|].
  - split; rewrite ?V2; [done|by etransitivity|done|done| |done]. intros x Hx. rewrite S2, S1, elem_of_app. by right.
  - by rewrite region_put, decide_True.
  - unfold len. rewrite HL. simpl. pose proof (Z.div_pos (n + 4095) 4096). lia.
  - intros f Hf. rewrite S2, elem_of_app. auto.
Qed.
Lemma map_steps t id p s a s1 sys g r : sys_inv Q all sys g → sh_vmm s = sy_v sys → region (sh_regions s) (Z.to_nat id) = Some r → (∀ f, f ∈ sr_frames r → f ∈ sy_shared sys) →
  live p (sy_v sys) → 1 ≤ id ≤ 8192 → len (sr_frames r) ≤ 512 → slot_empty p (slot_base id) 512 (sy_v sys) → vfs_shmem_map t id p s = (Some a, s1) → a ≠ U64_MAX →
  a = slot_base id ∧ ∃ sys' g', sy_v sys' = sh_vmm s1 ∧ shared_step p (map (page_at a) (seq 0 (length (sr_frames r)))) sys g sys' g' ∧ region_at p a (sr_frames r) (sy_v sys') ∧
    region (sh_regions s1) (Z.to_nat id) = Some (add_ref r).
Proof.
  intros I Ev Er Hf HL Hid Hl He. unfold vfs_shmem_map. rewrite slot_address_low, Er by done. fold (slot_base id). destruct (negb _); [by intros [= <- <-]|]. rewrite Ev.
  destruct (shmem_map_loop p (slot_base id) (sr_frames r) (sy_v sys)) as [b v] eqn:El.
  destruct (slot_base_bounds id Hid) as (Hb1 & Hb2 & Hb3). apply (shmem_map_loop_ok p _ _ sys g) in El as (b' & g' & -> & I' & R & P & Hh & A & M); [|done|done|done|done|done|unfold PAGE_SIZE in *; lia|intros i Hi; apply He; lia].
  destruct b'; [|by intros [= <- <-]]. intros [= <- <-] _. split; [done|]. destruct (retain_refs t (Z.to_nat id) {| sh_regions := <[Z.to_nat id := Some (add_ref r)]> (sh_regions s);
    sh_next := sh_next s; sh_vfs := sh_vfs s; sh_vmm := v |}) as (E1 & _ & E3 & _). cbn [sh_regions sh_vmm] in E1, E3. exists (set_v v sys), g'. rewrite E1, E3.
  split_and!; [done|by split|by apply M|]. by rewrite region_insert, decide_True by (done || by eexists).
Qed.
End Share.

Lemma region_access v g p a frames o w f : vmm_ok v g → f ∈ g_held g → region_at p a frames v → a mod PAGE_SIZE = 0 → 0 ≤ o → frames !! Z.to_nat (o / PAGE_SIZE) = Some f →
  user_access p (a + o) w (v_mem v) = Some (f + o mod PAGE_SIZE).
Proof.
  intros H Hf HR Ha Ho Ef. destruct shmem_flags_ok as (F & _ & F2 & F1). pose proof (Z.div_mod o PAGE_SIZE ltac:(done)) as HD. pose proof (Z.mod_pos_bound o PAGE_SIZE ltac:(done)) as HM.
  assert (Hok : frame_ok f) by (by eapply held_frame_ok). assert (Hp : page_at a (Z.to_nat (o / PAGE_SIZE)) mod PAGE_SIZE = 0) by (unfold page_at; rewrite Z.mul_comm, Z.mod_add; done).
  rewrite (mapped_access (v_mem v) p _ f shmem_flags (a + o) w (HR _ _ Ef) Hok F F2 (λ _, F1)).
  - do 2 f_equal. rewrite Z.add_mod, Ha, Z.add_0_l, Z.mod_mod by done. done.
  - rewrite (page_down_aligned _ Hp). apply page_down_unique; [done|]. unfold page_at. rewrite Z2Nat.id by (apply Z.div_pos; [lia|done]). lia.
Qed.

(** What is stored through one mapping is read through the other. *)
Lemma store_seen v g p q va w pa b : vmm_ok v g → live p v → live q v → 0 ≤ va < 2 ^ 48 → is_byte b → user_access p va true (v_mem v) = Some pa → user_access q w false (v_mem v) = Some pa →
  ∃ m, user_store p va b (v_mem v) = Some m ∧ user_load q w m = Some b.
Proof.
  intros H Hp Hq Ha Hb Ep Eq. exists (store_byte pa b (v_mem v)). assert (Es : user_store p va b (v_mem v) = Some (store_byte pa b (v_mem v))) by (unfold user_store; by rewrite Ep). split; [done|].
  destruct (user_store_spec p va b v g _ H Hp Ha Hb Es) as (_ & Hacc & _). unfold user_load. rewrite Hacc, Eq by done. simpl. rewrite load_store by apply (vo_mem _ _ H). by rewrite decide_True.
Qed.
Lemma slot_empty_adds v v' p q a N n : adds p N v v' → live q v → USER_SHMEM_BASE ≤ a → a + PAGE_SIZE * n ≤ USER_SHMEM_BASE + 2 ^ 39 → (q = p → N = []) → slot_empty q a n v → slot_empty q a n v'.
Proof.
  intros A Hq H1 H2 HN He i Hi Hp. destruct (shmem_root (page_at a i)) as [HR Hv]; [unfold page_at, PAGE_SIZE in *; lia|].
  destruct (A q _ Hq HR ltac:(lia) Hp) as [Hp'|[Eq Hin]]; [by apply (He i)|]. rewrite (HN Eq) in Hin. by apply elem_of_nil in Hin.
Qed.

Lemma region_progress p q a frames v g v' g' : vmm_ok v g → live p v → (∀ f, f ∈ frames → f ∈ g_held g) → USER_SHMEM_BASE ≤ a → a + PAGE_SIZE * len frames ≤ USER_SHMEM_BASE + 2 ^ 39 →
  progress q v g v' g' → region_at p a frames v → region_at p a frames v'.
Proof.
  intros H HL Hf H1 H2 P HR i f Ef. assert (Hi : Z.of_nat i < len frames) by (apply lookup_lt_Some in Ef; unfold len; lia).
  destruct (shmem_root (page_at a i)) as [HRi _]; [unfold page_at, PAGE_SIZE in *; lia|]. eapply (mapped_progress p); [exact H|done|done|exact P|apply shmem_flags_ok| |by apply HR].
  eapply held_frame_ok; [exact H|]. apply Hf. by eapply list_elem_of_lookup_2.
Qed.
(** Two mappings of the same zeroed frames. *)
Lemma two_mappings v g p q a frames n o : vmm_ok v g → live p v → live q v → (∀ f, f ∈ frames → f ∈ g_held g ∧ v_mem v f = zeros PAGE_SIZE) → region_at p a frames v → region_at q a frames v →
  a mod PAGE_SIZE = 0 → USER_SHMEM_BASE ≤ a → a + PAGE_SIZE * len frames ≤ USER_SHMEM_BASE + 2 ^ 39 → n ≤ PAGE_SIZE * len frames → 0 ≤ o < n →
  user_load p (a + o) (v_mem v) = Some 0 ∧ user_load q (a + o) (v_mem v) = Some 0 ∧
  ∀ b, is_byte b → (∃ m, user_store p (a + o) b (v_mem v) = Some m ∧ user_load q (a + o) m = Some b) ∧ (∃ m, user_store q (a + o) b (v_mem v) = Some m ∧ user_load p (a + o) m = Some b).
Proof.
  intros H Hp Hq Hf Mp Mq Ha B1 B2 Hn Ho. assert (Hi : (Z.to_nat (o / PAGE_SIZE) < length frames)%nat).
  { pose proof (Z.div_mod o PAGE_SIZE ltac:(done)). pose proof (Z.mod_pos_bound o PAGE_SIZE ltac:(done)). unfold len, PAGE_SIZE in *. lia. }
  apply lookup_lt_is_Some in Hi as [f Ef]. destruct (Hf f ltac:(by eapply list_elem_of_lookup_2)) as [Hh Hz].
  assert (Ap : ∀ w, user_access p (a + o) w (v_mem v) = Some (f + o mod PAGE_SIZE)) by (intros w; apply (region_access v g p a frames o w f); done || lia).
  assert (Aq : ∀ w, user_access q (a + o) w (v_mem v) = Some (f + o mod PAGE_SIZE)) by (intros w; apply (region_access v g q a frames o w f); done || lia).
  assert (Hl : load_byte (f + o mod PAGE_SIZE) (v_mem v) = 0).
  { pose proof (Z.mod_pos_bound o PAGE_SIZE ltac:(done)). unfold load_byte. rewrite (page_down_unique f); [rewrite Hz; apply nthZ_zeros|by apply frame_ok_aligned, (held_frame_ok v g)|lia]. }
  destruct (shmem_root (a + o)) as [_ Hr]; [lia|]. split_and!; [unfold user_load; rewrite Ap; by f_equal/=|unfold user_load; rewrite Aq; by f_equal/=|].
  intros b Hb. split; eapply store_seen; eauto; lia.
Qed.

(** The pages of [v'] were there, or are pages of the range in [p] or in [q]. *)
Definition adds_both (p q addr n : Z) (v v' : Vmm) : Prop :=
  ∀ r a, live r v → user_root (pt_index 4 a) → 0 ≤ a < 2 ^ 48 → present (v_mem v') r a → present (v_mem v) r a ∨ (r = p ∨ r = q) ∧ addr ≤ a < addr + n.
Lemma page_at_range va k a : va mod PAGE_SIZE = 0 → page_down a ∈ map (page_at va) (seq 0 k) → va ≤ a < va + PAGE_SIZE * Z.of_nat k.
Proof.
  intros Hv (i & E & [_ Hi]%elem_of_seq)%list_elem_of_fmap. pose proof (page_down_bounds a) as [B _]. unfold page_at, PAGE_SIZE in *. lia.
Qed.

