(* ===== verification/ShmemCases.v ===== *)
(** * Shared memory at work

    Two programs on the machine of VmmCases.v share a region; and inputs on which
    the code falls short: frames freed while a program still maps them, and ids
    whose slots leave the entry of shared memory. *)
From stdpp Require Import gmap functions relations.
From S2P Require Import Prelude UserLayout FrameAlloc Vmm VmmMem VmmInv VmmMap VmmOps UserMem Pipe FdTable Mmap Elf ElfImage VmmRun VmmClaims VmmCases Shmem ShmemMap.

Local Open Scope Z_scope.

#[local] Existing Instances walk_mapper walk_spec.
Local Strategy 1000 [load_image vfs_shmem_create vfs_shmem_map alloc_frames shmem_drop_task].

(** A second program is loaded; task 1 creates a region and maps it into the
    first, task 2 into the second. *)
Definition pair_load : result ExecError LoadedImage * Vmm := load_image (str "/a") [str "b"] demo_image (sy_v demo_loaded).
Definition pair_sys : Sys := set_v (snd pair_load) demo_loaded.
Definition pair_shmem : Shmem := Shmem_new (init_task 2 (init_task 1 VfsState_new)) (sy_v pair_sys).
Definition pair_create : option nat * Shmem := vfs_shmem_create 1 5000 true pair_shmem.
Definition pair_map1 : option Z * Shmem := vfs_shmem_map 1 1 0x1000 (snd pair_create).
Definition pair_q : Z := 0x17000.
Definition pair_map2 : option Z * Shmem := vfs_shmem_map 2 1 pair_q (snd pair_map1).

Lemma pair_facts : (li_pml4 <$> result_option (fst pair_load)) = Some pair_q ∧ map as_pml4 (v_spaces (sy_v pair_sys)) = [0x1000; pair_q] ∧ (pair_q =? 0x1000) = false ∧
  fst pair_create = Some 1%nat ∧ fst pair_map1 = Some USER_SHMEM_BASE ∧ fst pair_map2 = Some USER_SHMEM_BASE ∧
  entry (v_mem (sy_v pair_sys)) 0x1000 USER_SHMEM_PML4_INDEX = 0 ∧ entry (v_mem (sy_v pair_sys)) pair_q USER_SHMEM_PML4_INDEX = 0 ∧
  (let s := snd pair_map1 in let s' := shmem_drop_task 1 s in
   map as_pml4 (v_spaces (sh_vmm s')) = [0x1000; pair_q] ∧ sh_regions s' = [None; None] ∧
   fst (alloc_zeroed_frame (sh_vmm s')) = Some 0x2e000 ∧ user_access 0x1000 (USER_SHMEM_BASE + PAGE_SIZE) true (v_mem (sh_vmm s')) = Some 0x2e000).
Proof. vm_compute. repeat split. Qed.
Lemma pair_reachable : reachable wx_ok demo_mem demo_cr3 demo_frames pair_sys.
Proof.
  split; [apply demo_boot_ok|]. eapply rtc_r; [apply demo_loaded_reachable|]. unfold pair_sys.
  apply (st_exec wx_ok demo_loaded (str "/a") [str "b"] demo_image (fst pair_load)); [apply demo_image_safe|apply demo_args_ok|]. unfold pair_load. apply surjective_pairing.
Qed.
Lemma live_listed p v : p ∈ map as_pml4 (v_spaces v) → live p v.
Proof. intros (x & -> & Hx)%list_elem_of_fmap. by exists x. Qed.
Lemma pair_live p : p = 0x1000 ∨ p = pair_q → live p (sy_v pair_sys).
Proof.
  intros Hp. destruct pair_facts as (_ & E & _). apply live_listed. rewrite E. destruct Hp as [->| ->]; [left|right; left].
Qed.
(** No table for shared memory, no page in its slots. *)
Lemma no_table_empty p a n v : USER_SHMEM_BASE ≤ a → a + PAGE_SIZE * n ≤ USER_SHMEM_BASE + 2 ^ 39 → entry (v_mem v) p USER_SHMEM_PML4_INDEX = 0 → slot_empty p a n v.
Proof.
  intros H1 H2 He i Hi (t & HP & _). inversion HP as [|? ? t' ? (_ & _ & _ & D) _]; subst. apply D. rewrite <-He. f_equal.
  unfold pt_index. rewrite Z.shiftr_div_pow2 by lia. change (2 ^ (12 + 9 * (Z.of_nat 4 - 1))) with 549755813888. replace (page_at a i / 549755813888) with 128; [by vm_compute|].
  unfold page_at, USER_SHMEM_BASE, PAGE_SIZE in *. apply Z.div_unique with (a + 4096 * Z.of_nat i - 128 * 549755813888); lia.
Qed.
Lemma pair_empty p : p = 0x1000 ∨ p = pair_q → slot_empty p (slot_base 1) 512 (sy_v pair_sys).
Proof. intros Hp. destruct pair_facts as (_ & _ & _ & _ & _ & _ & E1 & E2 & _). apply no_table_empty; [by vm_compute..|]. destruct Hp as [->| ->]; [exact E1|exact E2]. Qed.


(** The frames of a region are freed when the task that mapped it ends, although
    other threads of its process still run in the address space: it stays live, the
    page stays writable, and the next frame allocated is the one it leads to. *)
Example shmem_freed_while_mapped : let s' := shmem_drop_task 1 (snd pair_map1) in ∃ f, live 0x1000 (sh_vmm s') ∧ sh_regions s' = [None; None] ∧
  user_access 0x1000 (USER_SHMEM_BASE + PAGE_SIZE) true (v_mem (sh_vmm s')) = Some f ∧ fst (alloc_zeroed_frame (sh_vmm s')) = Some f.
Proof.
  destruct pair_facts as (_ & _ & _ & _ & _ & _ & _ & _ & H1 & H2 & H3 & H4). exists 0x2e000. split_and!; [|exact H2|exact H4|exact H3].
  apply live_listed. rewrite H1. left.
Qed.

(** Ids are not reused.  The slot of id 8193 lies below another entry of the root,
    and mapping id 2^20 + 1 makes the kernel panic. *)
Example shmem_slots_leave_entry : (λ a, pml4_index a =? USER_SHMEM_PML4_INDEX) <$> slot_address 8193 = Some false.
Proof. by vm_compute. Qed.
Example shmem_map_panics task p s r : region (sh_regions s) (Z.to_nat (2 ^ 20 + 1)) = Some r → sr_frames r ≠ [] → task_can_add_shmem_pages task (len (sr_frames r)) s = true →
  fst (vfs_shmem_map task (2 ^ 20 + 1) p s) = None.
Proof.
  intros Er Hf Hq. unfold vfs_shmem_map. assert (slot_address (2 ^ 20 + 1) = Some (2 ^ 47)) as -> by by vm_compute. rewrite Er, Hq. cbn [negb]. destruct (sr_frames r) as [|f l]; [done|].
  cbn [shmem_map_loop]. assert (canonical_address (2 ^ 47) = false) as -> by by vm_compute. done.
Qed.

(** References on a machine without programs. *)
Definition bare_vmm : Vmm := {| v_mem := demo_mem; v_alloc := Some demo_frames; v_spaces := []; v_boot := demo_cr3; v_cr3 := demo_cr3 |}.
Definition bare_shmem : Shmem := snd (sys_shmem_create 1 5000 true (shmem_init_task 1 (Shmem_new VfsState_new bare_vmm))).
Lemma shmem_references_exact_witness : (∀ id, is_Some (region (sh_regions bare_shmem) id) ↔ ∃ t, id ∈ task_refs t (sh_vfs bare_shmem)) ∧ dropped 1 bare_shmem (shmem_exec 1 bare_shmem).
Proof.
  assert (HR : rtc hstep (Shmem_new VfsState_new bare_vmm) bare_shmem).
  { eapply rtc_l; [by apply (h_init _ 1)|]. apply rtc_once. by apply (h_create _ 1 5000 true). }
  destruct (shmem_references_exact bare_vmm bare_shmem) as (H1 & _ & _ & _ & H2 & _); [by eexists| |exact HR|by split]. apply (bool_decide_unpack (NoDup _)). by vm_compute.
Defined.
