(* ===== verification/Accounts.v ===== *)
(** * Users, sessions and first boot (src/src/security.rs)

    The account database: the users in memory, the session, the throttling of
    logins, the administration of accounts and the file /CONFIG/USERS.DB they
    are kept in.  The files are reached through the interface [KernelFs]; the
    credentials of the current task, which live in the scheduler, are the
    field [task_creds] of the state. *)
From S2P Require Import Prelude Text Clock Paths Security.

Local Open Scope Z_scope.
Local Open Scope st_scope.

(** ** The files, as the accounts use them *)
(** [home_owner] is [home_owner_for_path] with the current users. *)
Class KernelFs (W : Type) := {
  kfs_create_dir : (bytes → option (Z * Z)) → bytes → ST W FsError unit;
  kfs_safe_write : (bytes → option (Z * Z)) → bytes → bytes → ST W FsError unit;
  kfs_read : bytes → ST W unit bytes;
  kfs_chown : Credentials → bytes → Z → Z → ST W FsError unit;
  kfs_chmod : Credentials → bytes → Z → ST W FsError unit }.

Definition USERS_PATH : bytes := str "/CONFIG/USERS.DB".
Definition FIRST_BOOT_PATH : bytes := str "/CONFIG/FIRSTBOOT.CFG".
Definition MIN_PASSWORD_LEN : Z := 8.
Definition MAX_LOGIN_FAILURES : Z := 3.
Definition LOGIN_LOCKOUT_MS : Z := 5000.

(** ** Data *)
Record User := {
  name : bytes; role : bytes; uid : Z; gid : Z; home : bytes; login_enabled : bool }.
Record UserRecord := {
  u_name : bytes; u_role : bytes; u_uid : Z; u_gid : Z; u_home : bytes; u_pass_hash : Z; u_login_enabled : bool }.
Record GroupRecord := { g_name : bytes; g_gid : Z }.
Record LoginAttempt := { la_name : bytes; la_failures : Z; la_locked_until : Z }.
Record SecurityState := {
  s_users : list UserRecord; s_groups : list GroupRecord; s_attempts : list LoginAttempt;
  s_session_uid : Z; s_session_gid : Z; s_session_caps : Z; s_umask : Z; s_revision : Z }.

Inductive AuthError := NoSuchUser | LoginDisabled | BadPassword | PasswordTooShort | LoginThrottled | AuthPermissionDenied | AuthIo.
Inductive AccountError :=
| AccNoSuchUser | DuplicateUser | InvalidName | InvalidRole | AccPasswordTooShort | AccPermissionDenied
| LastAdmin | ProtectedUser | AlreadyConfigured | AccIo.
Inductive FirstBootState := FbRequired | FbInProgress | FbComplete.

Definition FirstBootState_as_str (s : FirstBootState) : bytes :=
  match s with FbRequired => str "required" | FbInProgress => str "in_progress" | FbComplete => str "complete" end.

Definition SecurityState_empty : SecurityState :=
  {| s_users := []; s_groups := []; s_attempts := []; s_session_uid := USER_UID; s_session_gid := USER_GID;
     s_session_caps := CAP_ALL_USER; s_umask := 0x12; s_revision := 0 |}.

(** [iter().find(..)], [iter().position(..)] and changing the first match. *)
Definition find_user (p : UserRecord → bool) (users : list UserRecord) : option UserRecord := List.find p users.
Fixpoint update_first (p : UserRecord → bool) (h : UserRecord → UserRecord) (users : list UserRecord) : list UserRecord :=
  match users with
  | [] => []
  | u :: users => if p u then h u :: users else u :: update_first p h users
  end.

Definition has_user_name (nm : bytes) (u : UserRecord) : bool := eq_ignore_ascii_case (u_name u) nm.
Definition has_uid (v : Z) (u : UserRecord) : bool := u_uid u =? v.

(** ** Passwords, names and roles *)
Definition FNV_PRIME : Z := 0x01000193.
Definition password_hash (nm password : bytes) : Z :=
  fold_left (λ hash b, (Z.lxor hash b * FNV_PRIME) mod 2 ^ 32) (nm ++ str ":" ++ password) 0x811c9dc5.

Definition valid_password (password : bytes) : bool :=
  (MIN_PASSWORD_LEN <=? len password) && negb (existsb (Z.eqb 58) password) && negb (existsb (Z.eqb 10) password).

Definition is_admin_role (r : bytes) : bool := bytes_eqb r (str "admin") || bytes_eqb r (str "root").
Definition is_admin_record (u : UserRecord) : bool := is_admin_role (u_role u).
Definition enabled_admin (u : UserRecord) : bool := u_login_enabled u && is_admin_record u.
Definition enabled_admin_count (users : list UserRecord) : Z := len (List.filter enabled_admin users).

Definition is_default_admin_password (u : UserRecord) : bool :=
  has_user_name (str "root") u && has_uid USER_UID u && u_login_enabled u &&
  (u_pass_hash u =? password_hash (str "root") (str "cool")).

Definition caps_for_role (r : bytes) : Z := if is_admin_role r then CAP_ALL_USER else CAP_INTERACTIVE_USER.

Definition clean_role (r : bytes) : result AccountError bytes :=
  let r := trim r in
  if eq_ignore_ascii_case r (str "admin") || eq_ignore_ascii_case r (str "root") then Ok (str "admin")
  else if eq_ignore_ascii_case r (str "user") || eq_ignore_ascii_case r (str "guest") then Ok (str "user")
  else Err InvalidRole.

(** [chars().count()] of UTF-8 text: the bytes that do not continue a character. *)
Definition char_count (l : bytes) : Z := len (List.filter (λ b, negb (cont b)) l).
Definition name_char (b : Z) : bool := is_ascii_alphanumeric b || (b =? 45) || (b =? 95).

Definition clean_user_name (nm : bytes) : result AccountError bytes :=
  let nm := trim nm in
  let n := char_count nm in
  if (n <? 2) || (16 <? n) then Err InvalidName else
  match nm with
  | [] => Err InvalidName
  | first :: _ =>
      if negb (is_ascii_alphabetic first) then Err InvalidName else
      if negb (forallb name_char nm) then Err InvalidName else Ok nm
  end.

Definition user_home (nm : bytes) : bytes := str "/Users/" ++ nm.

(** ** Lists of users *)
Definition user_index (users : list UserRecord) (nm : bytes) : option nat := position (has_user_name nm) users.

(** The [while] loop; [None]: more than [fuel] rounds. *)
Fixpoint next_uid_loop (fuel : nat) (users : list UserRecord) (v : Z) : option Z :=
  match fuel with
  | O => None
  | S fuel =>
      if existsb (has_uid v) users then next_uid_loop fuel users (saturating_add 32 v 1) else Some v
  end.

Definition max_uid (users : list UserRecord) : option Z :=
  match List.filter (λ v, GUEST_UID <=? v) (u_uid <$> users) with
  | [] => None
  | v :: vs => Some (fold_left Z.max vs v)
  end.

Definition first_uid (users : list UserRecord) : Z := saturating_add 32 (default GUEST_UID (max_uid users)) 1.
Definition next_available_uid (fuel : nat) (users : list UserRecord) : option Z := next_uid_loop fuel users (first_uid users).

Definition default_admin_user : UserRecord :=
  {| u_name := str "root"; u_role := str "admin"; u_uid := USER_UID; u_gid := USER_GID; u_home := str "/Users/root";
     u_pass_hash := password_hash (str "root") (str "cool"); u_login_enabled := true |}.
Definition default_guest_user : UserRecord :=
  {| u_name := str "guest"; u_role := str "user"; u_uid := GUEST_UID; u_gid := USER_GID; u_home := str "/Users/guest";
     u_pass_hash := password_hash (str "guest") (str "guest"); u_login_enabled := true |}.
Definition default_users : list UserRecord := [default_admin_user; default_guest_user].
Definition default_groups : list GroupRecord :=
  [{| g_name := str "root"; g_gid := ROOT_GID |}; {| g_name := str "services"; g_gid := SERVICE_GID |};
   {| g_name := str "users"; g_gid := USER_GID |}; {| g_name := str "wheel"; g_gid := 10 |}].

Definition public_user (u : UserRecord) : User :=
  {| name := u_name u; role := u_role u; uid := u_uid u; gid := u_gid u; home := u_home u; login_enabled := u_login_enabled u |}.

Definition default_session_user (users : list UserRecord) : UserRecord :=
  match find_user (λ u, has_uid USER_UID u && u_login_enabled u) users with
  | Some u => u
  | None =>
      match find_user enabled_admin users with
      | Some u => u
      | None => default default_admin_user (find_user u_login_enabled users)
      end
  end.

(** [normalize_default_admin]: a default administrator and a guest exist. *)
Definition make_default_admin (u : UserRecord) : UserRecord :=
  {| u_name := str "root"; u_role := u_role u; u_uid := u_uid u; u_gid := u_gid u; u_home := str "/Users/root";
     u_pass_hash := password_hash (str "root") (str "cool"); u_login_enabled := true |}.

Definition normalize_default_admin (users : list UserRecord) : list UserRecord :=
  let users := List.filter (λ u, negb (has_uid ROOT_UID u && has_user_name (str "root") u && negb (u_login_enabled u))) users in
  let users :=
    if existsb (λ u, has_uid USER_UID u && has_user_name (str "root") u) users then users
    else update_first (λ u, has_uid USER_UID u && bytes_eqb (u_role u) (str "admin")) make_default_admin users in
  let users := if existsb (has_uid USER_UID) users then users else users ++ [default_admin_user] in
  if existsb (has_uid GUEST_UID) users then users else users ++ [default_guest_user].

Definition home_owner_for_path (users : list UserRecord) (path : bytes) : option (Z * Z) :=
  if bytes_eqb path (str "/Users") then Some (ROOT_UID, ROOT_GID) else
  match strip_prefix (str "/Users/") path with
  | None => None
  | Some rest =>
      let nm := match split_on SLASH rest with x :: _ => x | [] => [] end in
      if bytes_eqb nm [] then Some (ROOT_UID, ROOT_GID) else
      match find_user (has_user_name nm) users with
      | Some u => Some (u_uid u, u_gid u)
      | None => None
      end
  end.

(** ** The database file *)
Definition COLON : Z := 58.
Definition NEWLINE : Z := 10.

(** [str::lines]: a carriage return before the newline belongs to the line end. *)
Definition strip_cr (l : bytes) : bytes :=
  match last l with Some c => if c =? 13 then removelast l else l | None => l end.
Definition lines (text : bytes) : list bytes :=
  match rev (split_on NEWLINE text) with
  | [] => []
  | final :: init => (strip_cr <$> rev init) ++ (if bytes_eqb final [] then [] else [final])
  end.

Definition parse_user_record (line : bytes) : option UserRecord :=
  match trim <$> split_on COLON line with
  | nm :: uid :: gid :: rl :: hm :: hash :: login :: _ =>
      uid ← parse_u32 uid;
      gid ← parse_u32 gid;
      hash ← parse_u32 hash;
      enabled ← (if bytes_eqb login (str "enabled") then Some true
                 else if bytes_eqb login (str "disabled") then Some false else None);
      if bytes_eqb nm [] || bytes_eqb rl [] || negb (starts_with (str "/") hm) then None else
      Some {| u_name := nm; u_role := rl; u_uid := uid; u_gid := gid; u_home := hm; u_pass_hash := hash;
              u_login_enabled := enabled |}
  | _ => None
  end.

(** The lines that are neither empty nor a comment, parsed. *)
Definition parse_users (text : bytes) : list UserRecord :=
  omap (λ line, let line := trim line in
                if bytes_eqb line [] || starts_with (str "#") line then None else parse_user_record line) (lines text).

Definition user_line (out : bytes) (u : UserRecord) : bytes :=
  let out := out ++ u_name u ++ [COLON] in
  let out := push_u32 out (u_uid u) ++ [COLON] in
  let out := push_u32 out (u_gid u) ++ [COLON] in
  let out := out ++ u_role u ++ [COLON] ++ u_home u ++ [COLON] in
  let out := push_u32 out (u_pass_hash u) ++ [COLON] in
  out ++ (if u_login_enabled u then str "enabled" else str "disabled") ++ [NEWLINE].

Definition USERS_HEADER : bytes := str "# coolOS users v1: name:uid:gid:role:home:passhash:login" ++ [NEWLINE].
Definition users_text (users : list UserRecord) : bytes := fold_left user_line users USERS_HEADER.

(** [load_users_from_disk], after the file was read. *)
Definition load_users (text : bytes) : option (list UserRecord) :=
  if negb (utf8_valid text) then None else
  let users := parse_users text in
  if existsb (has_uid USER_UID) users && existsb (has_uid GUEST_UID) users then Some users else None.

(** The first-boot file. *)
Definition push_safe_config_value (out value : bytes) : bytes :=
  out ++ List.filter (λ c, negb ((c =? 10) || (c =? 13) || (c =? 61))) value.

Definition config_line (key value : bytes) : bytes :=
  if bytes_eqb (trim value) [] then [] else push_safe_config_value key (trim value) ++ [NEWLINE].

Definition first_boot_text (s : FirstBootState) (user device : bytes) : bytes :=
  str "# coolOS first boot v1" ++ [NEWLINE] ++ str "version=80" ++ [NEWLINE] ++
  str "state=" ++ FirstBootState_as_str s ++ [NEWLINE] ++
  config_line (str "user=") user ++ config_line (str "device=") device.

Fixpoint first_boot_line (ls : list bytes) : option FirstBootState :=
  match ls with
  | [] => None
  | line :: ls =>
      match strip_prefix (str "state=") (trim line) with
      | None => first_boot_line ls
      | Some value =>
          let value := trim value in
          Some (if bytes_eqb value (str "in_progress") then FbInProgress
                else if bytes_eqb value (str "complete") then FbComplete else FbRequired)
      end
  end.

Definition parse_first_boot (text : bytes) : option FirstBootState :=
  if utf8_valid text then first_boot_line (lines text) else None.

(** ** The state *)
Record World (W : Type) := { sec : SecurityState; task_creds : option Credentials; files : W }.
Arguments sec {W}.
Arguments task_creds {W}.
Arguments files {W}.

Section accounts.
Context {W : Type} `{KernelFs W}.
Implicit Types (st : World W).

Definition get_sec {E} : ST (World W) E SecurityState := λ st, (Ok (sec st), st).
Definition put_sec {E} (s : SecurityState) : ST (World W) E unit :=
  λ st, (Ok tt, {| sec := s; task_creds := task_creds st; files := files st |}).
Definition on_files {E A} (m : ST W E A) : ST (World W) E A :=
  λ st, let (r, w) := m (files st) in (r, {| sec := sec st; task_creds := task_creds st; files := w |}).

Definition with_users (s : SecurityState) (us : list UserRecord) : SecurityState :=
  {| s_users := us; s_groups := s_groups s; s_attempts := s_attempts s; s_session_uid := s_session_uid s;
     s_session_gid := s_session_gid s; s_session_caps := s_session_caps s; s_umask := s_umask s; s_revision := s_revision s |}.
Definition with_attempts (s : SecurityState) (la : list LoginAttempt) : SecurityState :=
  {| s_users := s_users s; s_groups := s_groups s; s_attempts := la; s_session_uid := s_session_uid s;
     s_session_gid := s_session_gid s; s_session_caps := s_session_caps s; s_umask := s_umask s; s_revision := s_revision s |}.
Definition with_session (s : SecurityState) (c : Credentials) : SecurityState :=
  {| s_users := s_users s; s_groups := s_groups s; s_attempts := s_attempts s; s_session_uid := cr_uid c;
     s_session_gid := cr_gid c; s_session_caps := cr_caps c; s_umask := s_umask s; s_revision := s_revision s |}.

(** The users change, and with them the revision. *)
Definition commit_users (s : SecurityState) (us : list UserRecord) : SecurityState :=
  {| s_users := us; s_groups := s_groups s; s_attempts := s_attempts s; s_session_uid := s_session_uid s;
     s_session_gid := s_session_gid s; s_session_caps := s_session_caps s; s_umask := s_umask s;
     s_revision := wrapping_add 64 (s_revision s) 1 |}.

Definition owners st : bytes → option (Z * Z) := home_owner_for_path (s_users (sec st)).

Definition interactive_credentials st : Credentials :=
  {| cr_uid := s_session_uid (sec st); cr_gid := s_session_gid (sec st); cr_caps := s_session_caps (sec st) |}.
Definition current_credentials st : Credentials :=
  match task_creds st with Some c => c | None => interactive_credentials st end.
Definition package_credentials (permission : bytes) st : Credentials :=
  {| cr_uid := s_session_uid (sec st); cr_gid := s_session_gid (sec st); cr_caps := caps_for_permission permission |}.

Definition require_admin_account : ST (World W) AccountError unit :=
  λ st, if can_admin (current_credentials st) then (Ok tt, st) else (Err AccPermissionDenied, st).

(** [set_session_from_user], with [scheduler::set_current_credentials]. *)
Definition set_session_from_user {E} (u : UserRecord) : ST (World W) E unit :=
  λ st,
    let c := {| cr_uid := u_uid u; cr_gid := u_gid u; cr_caps := caps_for_role (u_role u) |} in
    (Ok tt, {| sec := with_session (sec st) c;
               task_creds := match task_creds st with Some _ => Some c | None => None end;
               files := files st |}).

(** ** Files *)
Definition persist_users : ST (World W) FsError unit :=
  λ st,
    (attempt (on_files (kfs_create_dir (owners st) (str "/CONFIG"))) ;;!
     on_files (kfs_safe_write (owners st) USERS_PATH (users_text (s_users (sec st))))) st.

Definition ensure_home_dir (u : UserRecord) : ST (World W) FsError unit :=
  λ st,
    if u_uid u =? ROOT_UID then (Ok tt, st) else
    (attempt (E' := FsError) (on_files (kfs_create_dir (owners st) (u_home u))) ;;!
     attempt (E' := FsError) (on_files (kfs_chown (current_credentials st) (u_home u) (u_uid u) (u_gid u))) ;;!
     attempt (E' := FsError) (on_files (kfs_chmod (current_credentials st) (u_home u) 0x1c0)) ;;! ret tt) st.

Definition ensure_home_dirs {E} : ST (World W) E unit :=
  λ st,
    (attempt (on_files (kfs_create_dir (owners st) (str "/Users"))) ;;!
     attempt (on_files (kfs_chown (current_credentials st) (str "/Users") ROOT_UID ROOT_GID)) ;;!
     attempt (on_files (kfs_chmod (current_credentials st) (str "/Users") DEFAULT_DIR_MODE)) ;;!
     attempt (for_each ensure_home_dir (s_users (sec st))) ;;! ret tt) st.

Definition load_users_from_disk : ST (World W) unit (list UserRecord) :=
  let! text := on_files (kfs_read USERS_PATH) in
  lift_option tt (load_users text).

Definition write_first_boot_state (s : FirstBootState) (user device : bytes) : ST (World W) FsError unit :=
  λ st,
    (attempt (on_files (kfs_create_dir (owners st) (str "/CONFIG"))) ;;!
     on_files (kfs_safe_write (owners st) FIRST_BOOT_PATH (first_boot_text s user device))) st.

Definition first_boot_file_state : ST (World W) unit FirstBootState :=
  let! text := on_files (kfs_read FIRST_BOOT_PATH) in
  lift_option tt (parse_first_boot text).

Definition first_run_required st : bool := existsb is_default_admin_password (s_users (sec st)).

Definition first_boot_state : ST (World W) unit FirstBootState :=
  λ st,
    if negb (first_run_required st) then (Ok FbComplete, st) else
    match first_boot_file_state st with
    | (Ok s, st') => (Ok s, st')
    | (Err _, st') => (Ok FbRequired, st')
    end.

Definition mark_first_boot_complete (user device : bytes) : ST (World W) FsError unit :=
  write_first_boot_state FbComplete user device.
Definition mark_first_boot_required : ST (World W) FsError unit := write_first_boot_state FbRequired [] [].
Definition mark_first_boot_in_progress : ST (World W) FsError unit :=
  λ st, if negb (first_run_required st) then mark_first_boot_complete [] [] st
        else write_first_boot_state FbInProgress [] [] st.

(** ** Start *)
Definition init : ST (World W) unit unit :=
  let! r := attempt load_users_from_disk in
  let us := normalize_default_admin (match r with Ok us => us | Err _ => default_users end) in
  let session := default_session_user us in
  (λ st, (Ok tt, {| sec := {| s_users := us; s_groups := default_groups; s_attempts := [];
                              s_session_uid := u_uid session; s_session_gid := u_gid session;
                              s_session_caps := caps_for_role (u_role session); s_umask := 0x12;
                              s_revision := wrapping_add 64 (s_revision (sec st)) 1 |};
                    task_creds := task_creds st; files := files st |})) ;;!
  attempt persist_users ;;!
  ensure_home_dirs.

(** ** Logging in and out *)
Definition has_attempt_name (nm : bytes) (a : LoginAttempt) : bool := eq_ignore_ascii_case (la_name a) nm.

(** [now] is [interrupts::ticks()]. *)
Definition login_locked (now : Z) (nm : bytes) (s : SecurityState) : bool :=
  match List.find (has_attempt_name nm) (s_attempts s) with
  | Some a => now <? la_locked_until a
  | None => false
  end.

Definition fail_attempt (now : Z) (a : LoginAttempt) : LoginAttempt :=
  let failures := if la_locked_until a <=? now then saturating_add 32 (la_failures a) 1 else la_failures a in
  if MAX_LOGIN_FAILURES <=? failures
  then {| la_name := la_name a; la_failures := 0;
          la_locked_until := wrapping_add 64 now (ticks_for_millis LOGIN_LOCKOUT_MS) |}
  else {| la_name := la_name a; la_failures := failures; la_locked_until := la_locked_until a |}.

Definition record_login_failure (now : Z) (nm : bytes) (s : SecurityState) : SecurityState :=
  match position (has_attempt_name nm) (s_attempts s) with
  | None => with_attempts s (s_attempts s ++ [{| la_name := nm; la_failures := 1; la_locked_until := 0 |}])
  | Some i => with_attempts s (alter (fail_attempt now) i (s_attempts s))
  end.

Definition clear_login_failures (nm : bytes) (s : SecurityState) : SecurityState :=
  with_attempts s (List.filter (λ a, negb (has_attempt_name nm a)) (s_attempts s)).

Definition login (now : Z) (nm password : bytes) : ST (World W) AuthError User :=
  let! s := get_sec in
  if login_locked now nm s then throw LoginThrottled else
  match find_user (has_user_name nm) (s_users s) with
  | None => throw NoSuchUser
  | Some u =>
      if negb (u_login_enabled u) then throw LoginDisabled else
      if negb (u_pass_hash u =? password_hash (u_name u) password)
      then put_sec (record_login_failure now (u_name u) s) ;;! throw BadPassword
      else put_sec (clear_login_failures (u_name u) s) ;;!
           set_session_from_user u ;;!
           ret (public_user u)
  end.

Definition logout : ST (World W) unit User :=
  let! s := get_sec in
  let guest := default default_guest_user (find_user (has_uid GUEST_UID) (s_users s)) in
  set_session_from_user guest ;;!
  ret (public_user guest).

Definition set_session_for_test (nm : bytes) : ST (World W) unit bool :=
  let! s := get_sec in
  match find_user (has_user_name nm) (s_users s) with
  | None => ret false
  | Some u => set_session_from_user u ;;! ret true
  end.

Definition set_pass_hash (h : Z) (u : UserRecord) : UserRecord :=
  {| u_name := u_name u; u_role := u_role u; u_uid := u_uid u; u_gid := u_gid u; u_home := u_home u;
     u_pass_hash := h; u_login_enabled := u_login_enabled u |}.
Definition set_enabled (b : bool) (u : UserRecord) : UserRecord :=
  {| u_name := u_name u; u_role := u_role u; u_uid := u_uid u; u_gid := u_gid u; u_home := u_home u;
     u_pass_hash := u_pass_hash u; u_login_enabled := b |}.
Definition set_role (r : bytes) (u : UserRecord) : UserRecord :=
  {| u_name := u_name u; u_role := r; u_uid := u_uid u; u_gid := u_gid u; u_home := u_home u;
     u_pass_hash := u_pass_hash u; u_login_enabled := u_login_enabled u |}.

Definition change_password (old_password new_password : bytes) : ST (World W) AuthError unit :=
  if negb (valid_password new_password) then throw PasswordTooShort else
  let! s := get_sec in
  match find_user (has_uid (s_session_uid s)) (s_users s) with
  | None => throw NoSuchUser
  | Some u =>
      if negb (u_pass_hash u =? password_hash (u_name u) old_password) then throw BadPassword else
      put_sec (commit_users s (update_first (has_uid (s_session_uid s))
        (λ u, set_pass_hash (password_hash (u_name u) new_password) u) (s_users s))) ;;!
      map_err (λ _, AuthIo) persist_users
  end.

(** ** Administration
    [None] as an error: the call does not return. *)
Definition fails {A} (e : AccountError) : ST (World W) (option AccountError) A := throw (Some e).

Definition check_password (password : bytes) : ST (World W) (option AccountError) unit :=
  if valid_password password then ret tt else fails AccPasswordTooShort.

Definition persist_account : ST (World W) (option AccountError) unit := map_err (λ _, Some AccIo) persist_users.

Definition new_account (nm rl password : bytes) (v : Z) : UserRecord :=
  {| u_name := nm; u_role := rl; u_uid := v; u_gid := USER_GID; u_home := user_home nm;
     u_pass_hash := password_hash nm password; u_login_enabled := true |}.

(** The old default administrator is shut off. *)
Definition disable_default (u : UserRecord) : UserRecord :=
  if is_default_admin_password u
  then set_enabled false (set_pass_hash (password_hash (u_name u) (str "disabled")) u) else u.

Definition first_run_root (nm password : bytes) (s : SecurityState) : ST (World W) (option AccountError) UserRecord :=
  match find_user (has_user_name nm) (s_users s) with
  | None => fails AccNoSuchUser
  | Some u =>
      let h := λ u, set_enabled true (set_pass_hash (password_hash (u_name u) password) (set_role (str "admin") u)) in
      put_sec (commit_users s (update_first (has_user_name nm) h (s_users s))) ;;! ret (h u)
  end.

Definition first_run_new (fuel : nat) (nm password : bytes) (s : SecurityState) : ST (World W) (option AccountError) UserRecord :=
  if existsb (has_user_name nm) (s_users s) then fails DuplicateUser else
  match next_available_uid fuel (s_users s) with
  | None => throw None
  | Some v =>
      let u := new_account nm (str "admin") password v in
      put_sec (commit_users s ((disable_default <$> s_users s) ++ [u])) ;;! ret u
  end.

Definition complete_first_run_admin (fuel : nat) (nm password : bytes) : ST (World W) (option AccountError) User :=
  let! nm := map_err Some (lift_result (clean_user_name nm)) in
  if eq_ignore_ascii_case nm (str "guest") then fails ProtectedUser else
  check_password password ;;!
  let! s := get_sec in
  if negb (existsb is_default_admin_password (s_users s)) then fails AlreadyConfigured else
  let! u := (if eq_ignore_ascii_case nm (str "root") then first_run_root nm password s
             else first_run_new fuel nm password s) in
  persist_account ;;!
  ensure_home_dirs ;;!
  attempt (mark_first_boot_complete (u_name u) []) ;;!
  set_session_from_user u ;;!
  ret (public_user u).

Definition require_admin' : ST (World W) (option AccountError) unit := map_err Some require_admin_account.

Definition create_user (fuel : nat) (nm password rl : bytes) : ST (World W) (option AccountError) User :=
  require_admin' ;;!
  let! nm := map_err Some (lift_result (clean_user_name nm)) in
  check_password password ;;!
  let! rl := map_err Some (lift_result (clean_role rl)) in
  let! s := get_sec in
  if existsb (has_user_name nm) (s_users s) then fails DuplicateUser else
  match next_available_uid fuel (s_users s) with
  | None => throw None
  | Some v =>
      let u := new_account nm rl password v in
      put_sec (commit_users s (s_users s ++ [u])) ;;!
      persist_account ;;!
      ensure_home_dirs ;;!
      ret (public_user u)
  end.

(** The user at the index of [nm], or [NoSuchUser]. *)
Definition find_account (nm : bytes) (s : SecurityState) : ST (World W) (option AccountError) (nat * UserRecord) :=
  match user_index (s_users s) nm with
  | Some i => match s_users s !! i with Some u => ret (i, u) | None => fails AccNoSuchUser end
  | None => fails AccNoSuchUser
  end.

Definition set_user_enabled (nm : bytes) (enabled : bool) : ST (World W) (option AccountError) User :=
  require_admin' ;;!
  let! s := get_sec in
  let! (i, u) := find_account nm s in
  if negb enabled && (u_uid u =? s_session_uid s) then fails ProtectedUser else
  if negb enabled && is_admin_record u && (enabled_admin_count (s_users s) <=? 1) then fails LastAdmin else
  put_sec (commit_users s (<[i := set_enabled enabled u]> (s_users s))) ;;!
  persist_account ;;!
  ret (public_user (set_enabled enabled u)).

Definition set_user_role (nm rl : bytes) : ST (World W) (option AccountError) User :=
  require_admin' ;;!
  let! rl := map_err Some (lift_result (clean_role rl)) in
  let! s := get_sec in
  let! (i, u) := find_account nm s in
  if negb (is_admin_role rl) && is_admin_record u && (enabled_admin_count (s_users s) <=? 1) then fails LastAdmin else
  put_sec (commit_users s (<[i := set_role rl u]> (s_users s))) ;;!
  persist_account ;;!
  (if u_uid u =? s_session_uid s then set_session_from_user (set_role rl u) else ret tt) ;;!
  ret (public_user (set_role rl u)).

Definition reset_user_password (nm password : bytes) : ST (World W) (option AccountError) User :=
  require_admin' ;;!
  check_password password ;;!
  let! s := get_sec in
  let! (i, u) := find_account nm s in
  let u := set_pass_hash (password_hash (u_name u) password) u in
  put_sec (clear_login_failures (u_name u) (commit_users s (<[i := u]> (s_users s)))) ;;!
  persist_account ;;!
  ret (public_user u).

Definition delete_user (nm : bytes) : ST (World W) (option AccountError) User :=
  require_admin' ;;!
  let! s := get_sec in
  let! (i, u) := find_account nm s in
  if (u_uid u =? s_session_uid s) || has_user_name (str "root") u || has_user_name (str "guest") u then fails ProtectedUser else
  if is_admin_record u && (enabled_admin_count (s_users s) <=? 1) then fails LastAdmin else
  put_sec (commit_users s (delete i (s_users s))) ;;!
  persist_account ;;!
  ret (public_user u).

(** ** First-boot repair *)
Definition user_record_eqb (a b : UserRecord) : bool :=
  bytes_eqb (u_name a) (u_name b) && bytes_eqb (u_role a) (u_role b) && (u_uid a =? u_uid b) && (u_gid a =? u_gid b) &&
  bytes_eqb (u_home a) (u_home b) && (u_pass_hash a =? u_pass_hash b) && Bool.eqb (u_login_enabled a) (u_login_enabled b).

Definition is_root_account (u : UserRecord) : bool := has_uid USER_UID u || has_user_name (str "root") u.

(** The users after [restore_default_handoff], and whether they changed. *)
Definition restored_users (us : list UserRecord) : list UserRecord * bool :=
  let '(us, changed) :=
    match position is_root_account us with
    | Some i =>
        match us !! i with
        | Some u => if user_record_eqb u default_admin_user then (us, false) else (<[i := default_admin_user]> us, true)
        | None => (us, false)
        end
    | None => (us ++ [default_admin_user], true)
    end in
  if existsb (has_uid GUEST_UID) us then (us, changed) else (us ++ [default_guest_user], true).

Definition restore_default_handoff : ST (World W) (option AccountError) bool :=
  let! s := get_sec in
  let '(us, changed) := restored_users (s_users s) in
  if changed then
    put_sec (commit_users s us) ;;!
    persist_account ;;!
    ensure_home_dirs ;;!
    ret true
  else ret false.

Definition mark_required : ST (World W) (option AccountError) unit := map_err (λ _, Some AccIo) mark_first_boot_required.

Definition reset_first_boot_unchecked : ST (World W) (option AccountError) unit :=
  restore_default_handoff ;;! mark_required.

Definition preferred_admin_name (us : list UserRecord) : bytes :=
  match find_user enabled_admin us with Some u => u_name u | None => str "root" end.

Definition is_complete (r : result unit FirstBootState) : bool :=
  match r with Ok FbComplete => true | _ => false end.

Definition repair_first_boot_unchecked : ST (World W) (option AccountError) unit :=
  let! s := get_sec in
  let first_run := existsb is_default_admin_password (s_users s) in
  let! file_state := attempt first_boot_file_state in
  if enabled_admin_count (s_users s) =? 0 then restore_default_handoff ;;! mark_required
  else if first_run && is_complete file_state then mark_required
  else if negb first_run && negb (is_complete file_state)
  then map_err (λ _, Some AccIo) (mark_first_boot_complete (preferred_admin_name (s_users s)) [])
  else ret tt.

Definition reset_first_boot_admin : ST (World W) (option AccountError) unit := require_admin' ;;! reset_first_boot_unchecked.
Definition repair_first_boot_admin : ST (World W) (option AccountError) unit := require_admin' ;;! repair_first_boot_unchecked.

(** At boot; failures end up in the report only. *)
Definition ensure_first_boot_boot_consistency : ST (World W) unit unit :=
  let! s := get_sec in
  let first_run := existsb is_default_admin_password (s_users s) in
  if negb (existsb enabled_admin (s_users s)) then attempt repair_first_boot_unchecked ;;! ret tt else
  let! file_state := attempt first_boot_file_state in
  if first_run && is_complete file_state then attempt mark_first_boot_required ;;! ret tt
  else if negb first_run && negb (is_complete file_state)
  then attempt (mark_first_boot_complete (preferred_admin_name (s_users s)) []) ;;! ret tt
  else ret tt.

(** ** Queries *)
Definition current_user st : User :=
  match find_user (has_uid (s_session_uid (sec st))) (s_users (sec st)) with
  | Some u => public_user u
  | None => public_user default_admin_user
  end.
Definition user_by_name (nm : bytes) st : option User := public_user <$> find_user (has_user_name nm) (s_users (sec st)).
Definition user_by_uid (v : Z) st : option User := public_user <$> find_user (has_uid v) (s_users (sec st)).

Definition groups_for (nm : bytes) st : option (list GroupRecord) :=
  u ← find_user (has_user_name nm) (s_users (sec st));
  Some (List.filter (λ g, (g_gid g =? u_gid u) || (bytes_eqb (u_role u) (str "admin") && bytes_eqb (g_name g) (str "wheel")))
          (s_groups (sec st))).

Definition set_umask (mask : Z) : ST (World W) unit Z :=
  λ st,
    let s := sec st in
    (Ok (s_umask s),
     {| sec := {| s_users := s_users s; s_groups := s_groups s; s_attempts := s_attempts s; s_session_uid := s_session_uid s;
                  s_session_gid := s_session_gid s; s_session_caps := s_session_caps s; s_umask := set_umask_value mask;
                  s_revision := s_revision s |};
        task_creds := task_creds st; files := files st |}).

(** The first free name "<prefix>1", "<prefix>2", ... *)
Definition suggested_user_name (prefix : bytes) st : bytes :=
  let base := if bytes_eqb prefix [] then str "user" else prefix in
  match List.find (λ i, negb (existsb (has_user_name (push_u32 base i)) (s_users (sec st)))) (seqZ 1 999) with
  | Some i => push_u32 base i
  | None => str "user"
  end.
End accounts.
