(* ===== verification/AccountsInv.v ===== *)
(** * The account database stays consistent

    [accounts_ok] is the invariant of the list of users: names differ without
    regard to case, uids differ, every record can be written to the database
    and read back, root and guest exist and at least one administrator can log
    in.  Here is the invariant and what the helpers of the operations do to it;
    AccountsOps.v proves the operations and AccountsRun.v all sequences of
    them. *)
From S2P Require Import Prelude Text Paths Security Accounts.
Set Warnings "-clear-no-such-hyp".

Local Open Scope Z_scope.
Local Open Scope st_scope.

Implicit Types (us : list UserRecord) (u v : UserRecord) (i j : nat).

Definition folded (u : UserRecord) : bytes := fold_name (u_name u).

(** A record the database can hold. *)
Record storable (u : UserRecord) : Prop := {
  st_name : forallb name_char (u_name u) = true;
  st_name_ne : u_name u ≠ [];
  st_role : u_role u = str "admin" ∨ u_role u = str "user";
  st_home : u_home u = user_home (u_name u);
  st_uid : USER_UID ≤ u_uid u < 2 ^ 32; st_gid : u32 (u_gid u); st_hash : u32 (u_pass_hash u) }.

Record accounts_ok (us : list UserRecord) : Prop := {
  acc_store : Forall storable us;
  acc_names : NoDup (folded <$> us);
  acc_uids : NoDup (u_uid <$> us);
  acc_root : ∃ u, u ∈ us ∧ u_name u = str "root" ∧ u_uid u = USER_UID;
  acc_guest : ∃ u, u ∈ us ∧ u_name u = str "guest" ∧ u_uid u = GUEST_UID;
  acc_admin : ∃ u, u ∈ us ∧ enabled_admin u = true }.

Lemma has_user_name_fold nm u : has_user_name nm u = true ↔ folded u = fold_name nm.
Proof. apply eq_ignore_fold. Qed.

Lemma has_uid_eq (n : Z) u : has_uid n u = true ↔ u_uid u = n.
Proof. apply Z.eqb_eq. Qed.

Lemma password_hash_u32 nm pw : u32 (password_hash nm pw).
Proof.
  unfold password_hash. generalize (nm ++ str ":" ++ pw). intros l.
  assert (u32 0x811c9dc5) as Hh by done. revert Hh. generalize 0x811c9dc5.
  induction l as [|b l IH]; intros h Hh; simpl; [done|]. apply IH. apply Z.mod_pos_bound. done.
Qed.

Lemma default_users_ok : accounts_ok default_users.
Proof.
  split.
  - repeat constructor; try done; try apply password_hash_u32; by (left + right).
  - apply (bool_decide_unpack _). by vm_compute.
  - apply (bool_decide_unpack _). by vm_compute.
  - exists default_admin_user. split; [by left|done].
  - exists default_guest_user. split; [right; by left|done].
  - exists default_admin_user. split; [by left|done].
Qed.

(** ** Changing one record *)
(** [u'] is [u] up to what an administrator can change. *)
Definition same_account (u u' : UserRecord) : Prop :=
  u_name u' = u_name u ∧ u_uid u' = u_uid u ∧ u_gid u' = u_gid u ∧ u_home u' = u_home u.

Lemma storable_same u u' :
  storable u → same_account u u' → u_role u' = str "admin" ∨ u_role u' = str "user" → u32 (u_pass_hash u') → storable u'.
Proof. intros [] (En & Eu & Eg & Eh) Hr Hp. split; rewrite ?En, ?Eu, ?Eg, ?Eh; done. Qed.

Lemma fmap_insert_same {A} (h : UserRecord → A) (us : list UserRecord) (i : nat) u u' :
  us !! i = Some u → h u' = h u → h <$> <[i := u']> us = h <$> us.
Proof. intros Hi Hh. rewrite list_fmap_insert, Hh. apply list_insert_id. by rewrite list_lookup_fmap, Hi. Qed.

Lemma elem_insert_same us i u u' (P : UserRecord → Prop) :
  us !! i = Some u → (P u → P u') → (∃ v, v ∈ us ∧ P v) → ∃ v, v ∈ <[i := u']> us ∧ P v.
Proof.
  intros Hi Hp (v & [j Hj]%list_elem_of_lookup & Hv). destruct (decide (i = j)) as [->|Hne].
  - exists u'. split; [apply list_elem_of_lookup; exists j; apply list_lookup_insert_eq; by eapply lookup_lt_Some|].
    apply Hp. congruence.
  - exists v. split; [|done]. apply list_elem_of_lookup. exists j. by rewrite list_lookup_insert_ne.
Qed.

Lemma accounts_insert us i u u' :
  accounts_ok us → us !! i = Some u → same_account u u' → storable u' →
  (∃ v, v ∈ <[i := u']> us ∧ enabled_admin v = true) → accounts_ok (<[i := u']> us).
Proof.
  intros [] Hi (En & Eu & _) Hs Ha. split.
  - by apply Forall_insert.
  - rewrite (fmap_insert_same folded us i u u' Hi); [done|]. unfold folded. by rewrite En.
  - by rewrite (fmap_insert_same u_uid us i u u' Hi).
  - apply (elem_insert_same us i u u' (λ u, u_name u = str "root" ∧ u_uid u = USER_UID) Hi); [by rewrite En, Eu|done].
  - apply (elem_insert_same us i u u' (λ u, u_name u = str "guest" ∧ u_uid u = GUEST_UID) Hi); [by rewrite En, Eu|done].
  - done.
Qed.

(** ** The last administrator *)
Lemma other_admin us i u :
  us !! i = Some u → 1 < enabled_admin_count us → ∃ j v, j ≠ i ∧ us !! j = Some v ∧ enabled_admin v = true.
Proof.
  intros Hi Hc. unfold enabled_admin_count in Hc. pose proof (take_drop_middle us i u Hi) as E. rewrite <- E in Hc.
  rewrite List.filter_app in Hc. cbn [List.filter] in Hc. rewrite len_app in Hc.
  assert (∃ v, v ∈ take i us ++ drop (S i) us ∧ enabled_admin v = true) as (v & Hv & Ha).
  { destruct (List.filter enabled_admin (take i us ++ drop (S i) us)) as [|v l] eqn:Ef.
    - rewrite List.filter_app in Ef. apply app_eq_nil in Ef as [E1 E2]. rewrite E1, E2 in Hc.
      destruct (enabled_admin u); unfold len in Hc; simpl in Hc; lia.
    - exists v. assert (In v (v :: l)) as Hin by (by left). rewrite <- Ef in Hin. apply filter_In in Hin as [? ?].
      split; [by apply list_elem_of_In|done]. }
  apply elem_of_app in Hv as [[j Hj]%list_elem_of_lookup|[j Hj]%list_elem_of_lookup].
  - exists j, v. rewrite lookup_take_Some in Hj. destruct Hj. split_and!; [lia|done|done].
  - exists (S i + j)%nat, v. rewrite lookup_drop in Hj. split_and!; [lia|done|done].
Qed.

Lemma admin_after_insert us i u u' :
  us !! i = Some u → (∃ v, v ∈ us ∧ enabled_admin v = true) →
  (enabled_admin u = true → enabled_admin u' = true) ∨ 1 < enabled_admin_count us →
  ∃ v, v ∈ <[i := u']> us ∧ enabled_admin v = true.
Proof.
  intros Hi Hex [Hk|Hc]; [by apply (elem_insert_same us i u u' (λ v, enabled_admin v = true) Hi)|].
  destruct (other_admin us i u Hi Hc) as (j & v & Hne & Hj & Ha). exists v. split; [|done].
  apply list_elem_of_lookup. exists j. by rewrite list_lookup_insert_ne.
Qed.

Lemma elem_delete us i u v : us !! i = Some u → v ∈ us → v ≠ u → v ∈ delete i us.
Proof.
  intros Hi Hv Hne. rewrite <- (take_drop_middle us i u Hi) in Hv. rewrite delete_take_drop.
  apply elem_of_app in Hv as [Hv|[->|Hv]%elem_of_cons]; [apply elem_of_app; by left|done|apply elem_of_app; by right].
Qed.

Lemma sublist_fmap_delete {A} (h : UserRecord → A) us i : NoDup (h <$> us) → NoDup (h <$> delete i us).
Proof. intros Hn. eapply sublist_NoDup; [exact Hn|]. apply (fmap_sublist h), sublist_delete. Qed.

Lemma accounts_delete us i u :
  accounts_ok us → us !! i = Some u → has_user_name (str "root") u = false → has_user_name (str "guest") u = false →
  is_admin_record u = false ∨ 1 < enabled_admin_count us → accounts_ok (delete i us).
Proof.
  intros Hok Hi Hr Hg Hadm. pose proof Hok as [Hs Hn Hu (r & Hr1 & Hr2 & Hr3) (g & Hg1 & Hg2 & Hg3) (a & Ha1 & Ha2)]. split.
  - by apply Forall_delete.
  - by apply sublist_fmap_delete.
  - by apply sublist_fmap_delete.
  - exists r. split; [|done]. apply (elem_delete us i u r Hi Hr1). intros ->. unfold has_user_name in Hr. by rewrite Hr2 in Hr.
  - exists g. split; [|done]. apply (elem_delete us i u g Hi Hg1). intros ->. unfold has_user_name in Hg. by rewrite Hg2 in Hg.
  - destruct Hadm as [Hadm|Hc].
    + exists a. split; [|done]. apply (elem_delete us i u a Hi Ha1). intros ->. unfold enabled_admin in Ha2.
      rewrite Hadm, andb_false_r in Ha2. done.
    + destruct (other_admin us i u Hi Hc) as (j & v & Hne & Hj & Hv). exists v. split; [|done].
      apply (elem_delete us i u v Hi); [by eapply list_elem_of_lookup_2|]. intros ->. destruct Hne.
      apply (NoDup_lookup (u_uid <$> us) j i (u_uid u)); [done|..]; rewrite list_lookup_fmap; [by rewrite Hj|by rewrite Hi].
Qed.

(** ** New accounts *)
Lemma accounts_append us u :
  accounts_ok us → storable u → folded u ∉ folded <$> us → u_uid u ∉ u_uid <$> us → accounts_ok (us ++ [u]).
Proof.
  intros [Hs Hn Hu (r & Hr & ?) (g & Hg & ?) (a & Ha & ?)] Hst Hfn Hfu.
  assert (∀ v, v ∈ us → v ∈ us ++ [u]) as Hin by (intros v Hv; apply elem_of_app; by left).
  split; [|rewrite fmap_app; apply NoDup_app..|exists r; split; auto|exists g; split; auto|exists a; split; auto].
  - apply Forall_app. split; [done|]. by apply Forall_singleton.
  - split_and!; [done| |apply NoDup_singleton]. intros x Hx Hx'. csimpl in Hx'. apply list_elem_of_singleton in Hx' as ->. done.
  - split_and!; [done| |apply NoDup_singleton]. intros x Hx Hx'. csimpl in Hx'. apply list_elem_of_singleton in Hx' as ->. done.
Qed.

Lemma next_uid_fresh fuel us (n v : Z) :
  USER_UID ≤ n < 2 ^ 32 → next_uid_loop fuel us n = Some v → USER_UID ≤ v < 2 ^ 32 ∧ v ∉ u_uid <$> us.
Proof.
  revert n. induction fuel as [|fuel IH]; intros n Hn; [done|]. cbn [next_uid_loop].
  destruct (existsb (has_uid n) us) eqn:E.
  - apply IH. unfold saturating_add in *. lia.
  - intros [= <-]. split; [done|]. intros (u & -> & Hu)%list_elem_of_fmap. apply not_true_iff_false in E. destruct E.
    apply existsb_exists. exists u. split; [by apply list_elem_of_In|by apply has_uid_eq].
Qed.

Lemma fold_max_ge (l : list Z) (v : Z) : v ≤ fold_left Z.max l v ∧ ∀ x, x ∈ l → x ≤ fold_left Z.max l v.
Proof.
  revert v. induction l as [|y l IH]; intros v; simpl; [split; [lia|by intros x ?%not_elem_of_nil]|].
  destruct (IH (Z.max v y)) as [H1 H2]. split; [lia|]. intros x [->|Hx]%elem_of_cons; [lia|by apply H2].
Qed.

Lemma fold_max_in (l : list Z) (v : Z) : fold_left Z.max l v ∈ v :: l.
Proof.
  revert v. induction l as [|y l IH]; intros v; simpl; [by left|]. specialize (IH (Z.max v y)).
  apply elem_of_cons in IH as [E|IH]; [|by right; right].
  rewrite E. destruct (Z.max_spec v y) as [[_ ->]|[_ ->]]; [right; by left|by left].
Qed.

(** The uids from [GUEST_UID] on, of which the largest counts. *)
Lemma max_uid_spec us :
  match max_uid us with
  | Some m => m ∈ u_uid <$> us ∧ GUEST_UID ≤ m ∧ ∀ u, u ∈ us → u_uid u ≤ m
  | None => ∀ u, u ∈ us → u_uid u < GUEST_UID
  end.
Proof.
  unfold max_uid. destruct (List.filter _ (u_uid <$> us)) as [|v vs] eqn:Ef.
  - intros u Hu. apply Z.lt_nge. intros Hge.
    assert (In (u_uid u) []) as []. rewrite <- Ef. apply filter_In. split; [|by apply Z.leb_le].
    apply list_elem_of_In. by apply list_elem_of_fmap_2.
  - assert (∀ x, x ∈ v :: vs ↔ x ∈ u_uid <$> us ∧ GUEST_UID ≤ x) as Hin.
    { intros x. rewrite <- Ef, list_elem_of_In, filter_In, <- list_elem_of_In, Z.leb_le. done. }
    destruct (proj1 (Hin _) (fold_max_in vs v)) as [Hm Hg]. split_and!; [done|done|]. intros u Hu.
    destruct (Z.le_gt_cases GUEST_UID (u_uid u)) as [Hge|]; [|lia].
    destruct (fold_max_ge vs v) as [Hv Hvs].
    assert (u_uid u ∈ v :: vs) as [->|?]%elem_of_cons by (apply Hin; split; [by apply list_elem_of_fmap_2|done]); auto.
Qed.

Lemma first_uid_range us : USER_UID ≤ first_uid us < 2 ^ 32.
Proof.
  unfold first_uid, saturating_add. pose proof (max_uid_spec us) as Hm. unfold USER_UID.
  destruct (max_uid us) as [m|]; simpl; [destruct Hm as (_ & Hg & _)|]; unfold GUEST_UID in *; lia.
Qed.

Lemma next_available_fresh fuel us (v : Z) :
  next_available_uid fuel us = Some v → USER_UID ≤ v < 2 ^ 32 ∧ v ∉ u_uid <$> us.
Proof. apply next_uid_fresh, first_uid_range. Qed.

Lemma new_account_storable nm rl pw (v : Z) :
  forallb name_char nm = true → nm ≠ [] → rl = str "admin" ∨ rl = str "user" → USER_UID ≤ v < 2 ^ 32 → storable (new_account nm rl pw v).
Proof. intros. split; try done. apply password_hash_u32. Qed.

Lemma clean_user_name_ok nm x : clean_user_name nm = Ok x → forallb name_char x = true ∧ x ≠ [].
Proof.
  unfold clean_user_name. destruct (_ || _); [done|]. destruct (trim nm) as [|c l] eqn:Et; [done|].
  destruct (negb (is_ascii_alphabetic c)); [done|]. destruct (forallb name_char (c :: l)) eqn:Ef; [|done]. by intros [= <-].
Qed.

Lemma clean_role_ok rl x : clean_role rl = Ok x → x = str "admin" ∨ x = str "user".
Proof.
  unfold clean_role. case_if; [intros [= <-]; by left|]. case_if; [intros [= <-]; by right|done].
Qed.

Lemma no_user_folded us nm : existsb (has_user_name nm) us = false → fold_name nm ∉ folded <$> us.
Proof.
  intros E (u & Eu & Hu)%list_elem_of_fmap. apply not_true_iff_false in E. destruct E. apply existsb_exists.
  exists u. split; [by apply list_elem_of_In|]. by apply has_user_name_fold.
Qed.

(** ** The first match *)
Lemma update_first_insert (p : UserRecord → bool) h us u :
  find_user p us = Some u → ∃ i, us !! i = Some u ∧ p u = true ∧ update_first p h us = <[i := h u]> us.
Proof.
  unfold find_user. induction us as [|v us IH]; simpl; [done|]. destruct (p v) eqn:E.
  - intros [= ->]. by exists 0%nat.
  - intros Hf. destruct (IH Hf) as (i & Hi & Hp & Hu). exists (S i). split_and!; [done|done|]. simpl. by rewrite Hu.
Qed.

Lemma disable_default_same u : same_account u (disable_default u).
Proof. unfold disable_default. by case_if. Qed.

Lemma disable_default_storable u : storable u → storable (disable_default u).
Proof.
  intros Hs. unfold disable_default. case_if; [|done].
  apply (storable_same u); [done|done|apply Hs|apply password_hash_u32].
Qed.

Lemma accounts_first_run us u :
  accounts_ok us → storable u → folded u ∉ folded <$> us → u_uid u ∉ u_uid <$> us → enabled_admin u = true →
  accounts_ok ((disable_default <$> us) ++ [u]).
Proof.
  intros [Hs Hn Hu (r & Hr & Er & Eru) (g & Hg & Eg & Egu) _] Hst Hfn Hfu Ha.
  assert (folded <$> (disable_default <$> us) = folded <$> us) as En.
  { rewrite <- list_fmap_compose. apply list_fmap_ext. intros i v _. unfold folded, compose. by rewrite (proj1 (disable_default_same v)). }
  assert (u_uid <$> (disable_default <$> us) = u_uid <$> us) as Eu.
  { rewrite <- list_fmap_compose. apply list_fmap_ext. intros i v _. unfold compose. apply (disable_default_same v). }
  assert (∀ v, v ∈ us → disable_default v ∈ (disable_default <$> us) ++ [u]) as Hin.
  { intros v Hv. apply elem_of_app. left. by apply list_elem_of_fmap_2. }
  split.
  - apply Forall_app. split; [|by apply Forall_singleton]. apply Forall_fmap. eapply Forall_impl; [exact Hs|]. apply disable_default_storable.
  - rewrite fmap_app, En. apply NoDup_app. split_and!; [done| |apply NoDup_singleton]. intros x Hx Hx'.
    csimpl in Hx'. apply list_elem_of_singleton in Hx' as ->. done.
  - rewrite fmap_app, Eu. apply NoDup_app. split_and!; [done| |apply NoDup_singleton]. intros x Hx Hx'.
    csimpl in Hx'. apply list_elem_of_singleton in Hx' as ->. done.
  - exists (disable_default r). split; [by apply Hin|]. destruct (disable_default_same r) as (-> & -> & _). done.
  - exists (disable_default g). split; [by apply Hin|]. destruct (disable_default_same g) as (-> & -> & _). done.
  - exists u. split; [|done]. apply elem_of_app. right. by left.
Qed.

(** ** Restoring the default administrator *)
Lemma unique_root us i u :
  accounts_ok us → us !! i = Some u → is_root_account u = true → u_name u = str "root" ∧ u_uid u = USER_UID.
Proof.
  intros Hok Hi Hr. destruct (acc_root us Hok) as (r & [j Hj]%list_elem_of_lookup & En & Eu).
  assert (i = j) as ->; [|rewrite Hi in Hj; by injection Hj as ->]. apply orb_true_iff in Hr as [Hr%has_uid_eq|Hr%has_user_name_fold].
  - apply (NoDup_lookup (u_uid <$> us) i j USER_UID); [apply Hok|..]; rewrite list_lookup_fmap; [by rewrite Hi, <- Hr|by rewrite Hj, <- Eu].
  - apply (NoDup_lookup (folded <$> us) i j (folded r)); [apply Hok|..]; rewrite list_lookup_fmap; [|by rewrite Hj].
    rewrite Hi. simpl. f_equal. rewrite Hr. unfold folded. by rewrite En.
Qed.

Lemma guest_exists us : accounts_ok us → existsb (has_uid GUEST_UID) us = true.
Proof.
  intros [_ _ _ _ (g & Hg & _ & Eg) _]. apply existsb_exists. exists g. split; [by apply list_elem_of_In|by apply has_uid_eq].
Qed.

Lemma restored_users_ok us : accounts_ok us → accounts_ok (fst (restored_users us)).
Proof.
  intros Hok. unfold restored_users.
  destruct (position is_root_account us) as [i|] eqn:Ep.
  2: { destruct (acc_root us Hok) as (r & Hr & _ & Eu). rewrite position_None in Ep. specialize (Ep r Hr).
       unfold is_root_account in Ep. simpl in Ep. by rewrite (proj2 (has_uid_eq _ _) Eu) in Ep. }
  apply position_Some in Ep as (u & Hi & Hu & _). rewrite Hi. simpl. destruct (unique_root us i u Hok Hi Hu) as [En Eu].
  assert (storable default_admin_user) as Hd by (by pose proof (acc_store _ default_users_ok) as [? _]%Forall_cons).
  assert (accounts_ok (<[i := default_admin_user]> us)) as Hok'.
  { pose proof (proj1 (Forall_lookup _ _) (acc_store us Hok) i u Hi) as Hsu.
    destruct Hok as [Hs Hn Hus Hr Hg Ha]. split.
    - by apply Forall_insert.
    - rewrite (fmap_insert_same folded us i u default_admin_user Hi); [done|]. unfold folded. by rewrite En.
    - rewrite (fmap_insert_same u_uid us i u default_admin_user Hi); [done|]. by rewrite Eu.
    - apply (elem_insert_same us i u _ (λ u, u_name u = str "root" ∧ u_uid u = USER_UID) Hi); done.
    - apply (elem_insert_same us i u _ (λ u, u_name u = str "guest" ∧ u_uid u = GUEST_UID) Hi); [|done].
      intros [_ Eg]. by rewrite Eg in Eu.
    - exists default_admin_user. split; [|done]. apply list_elem_of_lookup. exists i.
      apply list_lookup_insert_eq. by eapply lookup_lt_Some. }
  destruct (user_record_eqb u default_admin_user); simpl.
  - by rewrite guest_exists.
  - rewrite guest_exists by done. done.
Qed.
