(* ===== verification/AccountsDb.v ===== *)
(** * The account database file

    What [users_text] writes, [load_users] reads back. *)
From S2P Require Import Prelude Text Paths Security Accounts AccountsInv.

Local Open Scope Z_scope.

Implicit Types (u : UserRecord) (us : list UserRecord).

(** A field of a line: printable, without a colon. *)
Definition field (l : bytes) : Prop := Forall (λ c, visible c ∧ c ≠ COLON) l.

(** The line of one user, without the line end. *)
Definition user_fields (u : UserRecord) : list bytes :=
  [u_name u; push_u32 [] (u_uid u); push_u32 [] (u_gid u); u_role u; u_home u; push_u32 [] (u_pass_hash u);
   if u_login_enabled u then str "enabled" else str "disabled"].

Fixpoint join (d : Z) (ls : list bytes) : bytes :=
  match ls with [] => [] | [l] => l | l :: ls => l ++ d :: join d ls end.

Lemma user_line_join out u : user_line out u = out ++ join COLON (user_fields u) ++ [NEWLINE].
Proof.
  unfold user_line, user_fields. cbn [join]. rewrite (push_u32_app (_ ++ _) (u_pass_hash u)), (push_u32_app (_ ++ _) (u_gid u)),
    (push_u32_app (_ ++ _) (u_uid u)).
  repeat (rewrite <- app_assoc || rewrite <- app_comm_cons || cbn [app]). done.
Qed.

Lemma users_text_join us out :
  fold_left user_line us out = out ++ concat ((λ u, join COLON (user_fields u) ++ [NEWLINE]) <$> us).
Proof.
  revert out. induction us as [|u us IH]; intros out; simpl; [by rewrite app_nil_r|].
  by rewrite IH, user_line_join, <- app_assoc.
Qed.

(** ** The fields *)
Lemma name_char_field l : forallb name_char l = true → field l.
Proof.
  intros Hl%Is_true_true%forallb_True. unfold field. eapply Forall_impl; [exact Hl|]. intros c Hc. apply Is_true_true in Hc.
  unfold name_char, is_ascii_alphanumeric, is_ascii_alphabetic, is_ascii_digit, visible, COLON in *. lia.
Qed.

Lemma number_field (v : Z) : field (push_u32 [] v).
Proof. eapply Forall_impl; [apply push_u32_digit|]. unfold visible, COLON. simpl. intros. lia. Qed.

Lemma fields_ok u : storable u → Forall field (user_fields u).
Proof.
  intros [Hn _ Hr Hh _ _ _]. apply name_char_field in Hn.
  assert (∀ s, forallb (λ c, (33 <=? c) && (c <? 127) && negb (c =? 58)) (str s) = true → field (str s)) as Hs.
  { intros s Hs%Is_true_true%forallb_True. eapply Forall_impl; [exact Hs|]. intros c Hc%Is_true_true. unfold visible, COLON. lia. }
  repeat constructor; [done|apply number_field..| | |apply number_field|].
  - destruct Hr as [-> | ->]; by apply Hs.
  - rewrite Hh. unfold user_home. apply Forall_app. split; [by apply Hs|done].
  - destruct (u_login_enabled u); by apply Hs.
Qed.

Lemma field_visible l : field l → Forall visible l.
Proof. intros Hl. eapply Forall_impl; [exact Hl|]. by intros c [? _]. Qed.

Lemma split_join ls : ls ≠ [] → Forall field ls → split_on COLON (join COLON ls) = ls.
Proof.
  intros Hne Hl. induction Hl as [|l ls Hf Hl IH]; [done|].
  assert (split_on COLON l = [l]) as Es by (apply split_on_none; eapply Forall_impl; [exact Hf|]; by intros c [_ ?]).
  destruct ls as [|l' ls]; [done|]. change (join COLON (l :: l' :: ls)) with (l ++ COLON :: join COLON (l' :: ls)). rewrite split_on_app, Es, IH by done. done.
Qed.

Lemma trim_fields ls : Forall field ls → trim <$> ls = ls.
Proof. induction 1 as [|l ls Hf Hl IH]; [done|]. csimpl. rewrite IH, trim_visible_all; [done|]. by apply field_visible. Qed.

Lemma join_visible ls : Forall field ls → Forall visible (join COLON ls).
Proof.
  induction 1 as [|l ls Hf Hl IH]; [done|]. apply field_visible in Hf. destruct ls as [|l' ls]; [done|].
  apply Forall_app. split; [done|]. constructor; [done|]. apply IH.
Qed.

Lemma parse_user_line u : storable u → parse_user_record (join COLON (user_fields u)) = Some u.
Proof.
  intros Hu. pose proof (fields_ok u Hu) as Hf. unfold parse_user_record.
  rewrite split_join, trim_fields by done. unfold user_fields. destruct Hu as [Hn Hne Hr Hh Hui Hg Hp].
  rewrite !parse_push_u32 by (unfold USER_UID, u32 in *; lia). cbn [mbind option_bind].
  assert (∀ b : bool, (if bytes_eqb (if b then str "enabled" else str "disabled") (str "enabled") then Some true
    else if bytes_eqb (if b then str "enabled" else str "disabled") (str "disabled") then Some false else None) = Some b) as ->
    by (by intros []). cbn [mbind option_bind].
  assert (bytes_eqb (u_name u) [] = false) as -> by (by apply not_true_iff_false; rewrite bytes_eqb_eq).
  assert (bytes_eqb (u_role u) [] = false) as -> by (destruct Hr as [-> | ->]; done).
  rewrite Hh at 1. cbn. by destruct u.
Qed.

(** ** The lines *)
Lemma split_lines (ls : list bytes) :
  Forall (λ l, Forall (λ c, c ≠ NEWLINE) l) ls → split_on NEWLINE (concat ((λ l, l ++ [NEWLINE]) <$> ls)) = ls ++ [[]].
Proof.
  induction 1 as [|l ls Hl _ IH]; [done|]. csimpl. rewrite <- app_assoc. cbn [app].
  rewrite split_on_app, IH, split_on_none by done. done.
Qed.

Lemma strip_cr_id l : Forall (λ c, c ≠ 13) l → strip_cr l = l.
Proof.
  intros Hl. unfold strip_cr. destruct (last l) as [c|] eqn:E; [|done]. apply last_Some_elem_of in E.
  rewrite Forall_forall in Hl. specialize (Hl c E). by rewrite (proj2 (Z.eqb_neq _ _) Hl).
Qed.

Lemma lines_concat (ls : list bytes) :
  Forall (λ l, Forall (λ c, 32 ≤ c) l) ls → lines (concat ((λ l, l ++ [NEWLINE]) <$> ls)) = ls.
Proof.
  intros Hl. unfold lines. rewrite split_lines.
  2: { eapply Forall_impl; [exact Hl|]. intros l Hc. eapply Forall_impl; [exact Hc|]. unfold NEWLINE. simpl. intros. lia. }
  rewrite rev_app_distr. cbn [rev app]. rewrite rev_involutive, app_nil_r.
  induction Hl as [|l ls Hl _ IH]; [done|]. csimpl. rewrite IH, strip_cr_id; [done|].
  eapply Forall_impl; [exact Hl|]. intros. simpl in *. lia.
Qed.

Definition header_line : bytes := str "# coolOS users v1: name:uid:gid:role:home:passhash:login".

Lemma users_text_lines us : users_text us = concat ((λ l, l ++ [NEWLINE]) <$> header_line :: ((λ u, join COLON (user_fields u)) <$> us)).
Proof.
  unfold users_text. rewrite users_text_join. csimpl. f_equal. by rewrite <- list_fmap_compose.
Qed.

Lemma omap_fmap_id {A B} (h : A → option B) (g : B → A) (l : list B) :
  Forall (λ x, h (g x) = Some x) l → omap h (g <$> l) = l.
Proof. induction 1 as [|x l Hx _ IH]; [done|]. csimpl. by rewrite Hx, IH. Qed.

Lemma line_used u :
  storable u → bytes_eqb (join COLON (user_fields u)) [] || starts_with (str "#") (join COLON (user_fields u)) = false.
Proof.
  intros [Hn Hne _ _ _ _ _]. destruct (u_name u) as [|c nm] eqn:En; [done|].
  assert (∃ l, join COLON (user_fields u) = c :: l) as [l ->] by (unfold user_fields; rewrite En; by eexists).
  apply andb_true_iff in Hn as [Hc _]. apply orb_false_iff. split; [apply not_true_iff_false; by rewrite bytes_eqb_eq|].
  cbn. rewrite andb_true_r. apply Z.eqb_neq. intros <-. done.
Qed.

Lemma parse_users_text us : Forall storable us → parse_users (users_text us) = us.
Proof.
  intros Hus. unfold parse_users. rewrite users_text_lines, lines_concat.
  - apply omap_fmap_id. eapply Forall_impl; [exact Hus|]. intros u Hu. cbv beta.
    rewrite trim_visible_all by (by apply join_visible, fields_ok). by rewrite line_used, parse_user_line.
  - constructor; [by repeat constructor|]. apply Forall_fmap. eapply Forall_impl; [exact Hus|]. intros u Hu.
    eapply Forall_impl; [apply join_visible, fields_ok, Hu|]. unfold visible. intros. lia.
Qed.

Lemma users_text_ascii us : Forall storable us → Forall (λ c, 0 ≤ c < 0x80) (users_text us).
Proof.
  intros Hus. rewrite users_text_lines. apply Forall_concat, Forall_fmap. constructor; [by repeat constructor|].
  apply Forall_fmap. eapply Forall_impl; [exact Hus|]. intros u Hu. apply Forall_app. split; [|by repeat constructor].
  eapply Forall_impl; [apply join_visible, fields_ok, Hu|]. unfold visible. intros. lia.
Qed.

Lemma load_users_text us : accounts_ok us → load_users (users_text us) = Some us.
Proof.
  intros Hok. unfold load_users. rewrite utf8_valid_ascii; [rewrite parse_users_text by apply Hok|].
  - destruct (acc_root us Hok) as (r & Hr & _ & Er). rewrite guest_exists by done.
    replace (existsb (has_uid USER_UID) us) with true; [done|]. symmetry. apply existsb_exists. exists r.
    split; [by apply list_elem_of_In|by apply has_uid_eq].
  - eapply Forall_impl; [apply users_text_ascii, Hok|]. simpl. intros. lia.
Qed.

(** ** Starting again *)
Lemma filter_all {A} (p : A → bool) (l : list A) : Forall (λ x, p x = true) l → List.filter p l = l.
Proof. induction 1 as [|x l Hx _ IH]; simpl; [done|]. by rewrite Hx, IH. Qed.

Lemma normalize_ok us : accounts_ok us → normalize_default_admin us = us.
Proof.
  intros Hok. unfold normalize_default_admin. rewrite filter_all.
  - destruct (acc_root us Hok) as (r & Hr%list_elem_of_In & En & Er). 
    assert (∀ p, p r = true → existsb p us = true) as Hex by (intros p Hp; apply existsb_exists; by exists r).
    rewrite (Hex (λ u, has_uid USER_UID u && has_user_name (str "root") u)).
    2: { apply andb_true_iff. split; [by apply has_uid_eq|]. unfold has_user_name. by rewrite En. }
    rewrite (Hex (has_uid USER_UID)) by (by apply has_uid_eq). by rewrite guest_exists.
  - eapply Forall_impl; [apply (acc_store us Hok)|]. intros u Hu. simpl. apply negb_true_iff.
    pose proof (st_uid u Hu). unfold has_uid. by replace (u_uid u =? ROOT_UID) with false by (unfold USER_UID, ROOT_UID in *; lia).
Qed.

(** The database text of any consistent list of users is well-formed UTF-8
    and loading it gives back exactly these users, in order. *)
Theorem users_roundtrip us : accounts_ok us → utf8_valid (users_text us) = true ∧ load_users (users_text us) = Some us.
Proof.
  intros Hok. split; [|by apply load_users_text]. apply utf8_valid_ascii. eapply Forall_impl; [apply users_text_ascii, Hok|].
  simpl. intros. lia.
Qed.

Lemma users_roundtrip_witness : load_users (users_text default_users) = Some default_users.
Proof. apply (users_roundtrip default_users), default_users_ok. Defined.
