(* ===== verification/AccountsOps.v ===== *)
(** * What the operations on accounts do

    [effect] lists every change an operation can make to the users and to the
    session, with the condition under which it makes it.  Each operation of
    [Accounts] is shown to have one of these effects and to keep the database
    file up to date, against what [KernelFsSpec] says of the files; the
    properties of the account system follow from the list. *)
From S2P Require Import Prelude Text Paths Security Accounts AccountsInv AccountsDb.
Set Warnings "-clear-no-such-hyp".

Local Open Scope Z_scope.
Local Open Scope st_scope.

(** ** What the accounts rely on of the files *)
Definition config_files : list bytes := [USERS_PATH; FIRST_BOOT_PATH].
Definition owner_ok (own : bytes → option (Z * Z)) : Prop := ∀ p v g, own p = Some (v, g) → u32 v ∧ u32 g.

Definition kfs_content {W} `{KernelFs W} (w : W) (p : bytes) : option bytes := result_option (fst (kfs_read p w)).
Definition kfs_same {W} `{KernelFs W} (w w' : W) : Prop := ∀ q, q ∈ config_files → kfs_content w' q = kfs_content w q.

(** Only [safe_write] changes a configuration file, and when it fails it does not. *)
Class KernelFsSpec (W : Type) `{KernelFs W} := {
  kfs_ok : W → Prop;
  kfs_create_dir_spec own p w :
    owner_ok own → kfs_ok w → let w' := snd (kfs_create_dir own p w) in kfs_ok w' ∧ kfs_same w w';
  kfs_chown_spec c p v g w :
    u32 v → u32 g → kfs_ok w → let w' := snd (kfs_chown c p v g w) in kfs_ok w' ∧ kfs_same w w';
  kfs_chmod_spec c p mode w :
    0 ≤ mode → kfs_ok w → let w' := snd (kfs_chmod c p mode w) in kfs_ok w' ∧ kfs_same w w';
  kfs_read_spec p w :
    p ∈ config_files → kfs_ok w → let w' := snd (kfs_read p w) in kfs_ok w' ∧ kfs_same w w';
  kfs_safe_write_spec own p data w :
    owner_ok own → p ∈ config_files → Forall is_byte data → kfs_ok w →
    let '(r, w') := kfs_safe_write own p data w in
    kfs_ok w' ∧ (∀ q, q ∈ config_files → q ≠ p → kfs_content w' q = kfs_content w q) ∧
    kfs_content w' p = match r with Ok _ => Some data | Err _ => kfs_content w p end }.

(** ** Reasoning about a run *)
Definition wp {S E A} (m : ST S E A) (Q : result E A → S → Prop) (s : S) : Prop := Q (fst (m s)) (snd (m s)).

Lemma wp_bind {S E A B} (m : ST S E A) (k : A → ST S E B) Q s :
  wp m (λ r s', match r with Ok a => wp (k a) Q s' | Err e => Q (Err e) s' end) s → wp (bind m k) Q s.
Proof. unfold wp, bind. destruct (m s) as [[a|e] s']; done. Qed.

Lemma wp_map_err {S E E' A} (h : E → E') (m : ST S E A) Q s :
  wp m (λ r s', Q (match r with Ok a => Ok a | Err e => Err (h e) end) s') s → wp (map_err h m) Q s.
Proof. unfold wp, map_err. destruct (m s) as [[a|e] s']; done. Qed.

Lemma wp_attempt {S E E' A} (m : ST S E A) (Q : result E' (result E A) → S → Prop) s :
  wp m (λ r s', Q (Ok r) s') s → wp (attempt m) Q s.
Proof. unfold wp, attempt. destruct (m s) as [r s']; done. Qed.

Lemma wp_impl {S E A} (m : ST S E A) (P Q : result E A → S → Prop) s :
  wp m P s → (∀ r s', P r s' → Q r s') → wp m Q s.
Proof. unfold wp. auto. Qed.

(** In whose name an operation asks for a change. *)
Inductive authority := ByCaller | ByPassword (old new : bytes) | ByFirstRun | ByRecovery.

Section effects.
Context {W : Type} `{KernelFs W} (auth : authority).
Implicit Types (st : World W) (u : UserRecord) (us : list UserRecord) (c : Credentials).

(** ** The effects *)
Definition session_of st : Credentials := interactive_credentials st.
Definition creds_of u : Credentials :=
  {| cr_uid := u_uid u; cr_gid := u_gid u; cr_caps := caps_for_role (u_role u) |}.

Definition is_admin_now st : Prop := can_admin (current_credentials st) = true.

(** The first administrator when it keeps the name root. *)
Definition claimed_root (password : bytes) u : UserRecord :=
  set_enabled true (set_pass_hash (password_hash (u_name u) password) (set_role (str "admin") u)).

(** [effect st io us c]: the users and the session may become [us] and [c];
    [io] says that the operation ended with an input/output error. *)
Inductive effect st (io : bool) : list UserRecord → Credentials → Prop :=
| eff_none : effect st io (s_users (sec st)) (session_of st)
| eff_session u :
    u ∈ s_users (sec st) → effect st io (s_users (sec st)) (creds_of u)
| eff_password i u old new :
    auth = ByPassword old new → s_users (sec st) !! i = Some u → u_uid u = s_session_uid (sec st) → u_pass_hash u = password_hash (u_name u) old →
    effect st io (<[i := set_pass_hash (password_hash (u_name u) new) u]> (s_users (sec st))) (session_of st)
| eff_first_root i u password :
    auth = ByFirstRun → first_run_required st = true → s_users (sec st) !! i = Some u → has_user_name (str "root") u = true →
    effect st io (<[i := claimed_root password u]> (s_users (sec st)))
      (if io then session_of st else creds_of (claimed_root password u))
| eff_first_new raw nm password (v : Z) :
    auth = ByFirstRun → first_run_required st = true → clean_user_name raw = Ok nm → existsb (has_user_name nm) (s_users (sec st)) = false →
    USER_UID ≤ v < 2 ^ 32 → v ∉ u_uid <$> s_users (sec st) →
    effect st io ((disable_default <$> s_users (sec st)) ++ [new_account nm (str "admin") password v])
      (if io then session_of st else creds_of (new_account nm (str "admin") password v))
| eff_create raw nm password raw_role rl (v : Z) :
    is_admin_now st → clean_user_name raw = Ok nm → clean_role raw_role = Ok rl → existsb (has_user_name nm) (s_users (sec st)) = false →
    USER_UID ≤ v < 2 ^ 32 → v ∉ u_uid <$> s_users (sec st) →
    effect st io (s_users (sec st) ++ [new_account nm rl password v]) (session_of st)
| eff_enable i u enabled :
    is_admin_now st → s_users (sec st) !! i = Some u →
    enabled = true ∨ (u_uid u ≠ s_session_uid (sec st) ∧ (is_admin_record u = false ∨ 1 < enabled_admin_count (s_users (sec st)))) →
    effect st io (<[i := set_enabled enabled u]> (s_users (sec st))) (session_of st)
| eff_role i u raw_role rl :
    is_admin_now st → s_users (sec st) !! i = Some u → clean_role raw_role = Ok rl →
    is_admin_role rl = true ∨ is_admin_record u = false ∨ 1 < enabled_admin_count (s_users (sec st)) →
    effect st io (<[i := set_role rl u]> (s_users (sec st)))
      (if decide (u_uid u = s_session_uid (sec st) ∧ io = false) then creds_of (set_role rl u) else session_of st)
| eff_reset i u password :
    is_admin_now st → s_users (sec st) !! i = Some u →
    effect st io (<[i := set_pass_hash (password_hash (u_name u) password) u]> (s_users (sec st))) (session_of st)
| eff_delete i u :
    is_admin_now st → s_users (sec st) !! i = Some u → u_uid u ≠ s_session_uid (sec st) →
    has_user_name (str "root") u = false → has_user_name (str "guest") u = false →
    is_admin_record u = false ∨ 1 < enabled_admin_count (s_users (sec st)) →
    effect st io (delete i (s_users (sec st))) (session_of st)
| eff_restore :
    is_admin_now st ∨ auth = ByRecovery → effect st io (fst (restored_users (s_users (sec st)))) (session_of st).

(** ** The effects keep the database consistent *)
Lemma role_kept u u' : u_login_enabled u' = u_login_enabled u → u_role u' = u_role u → enabled_admin u = true → enabled_admin u' = true.
Proof. unfold enabled_admin, is_admin_record. by intros -> ->. Qed.

Lemma effect_accounts st io us c : accounts_ok (s_users (sec st)) → effect st io us c → accounts_ok us.
Proof.
  intros Hok He. pose proof (acc_admin _ Hok) as Hadm.
  assert (∀ i u, s_users (sec st) !! i = Some u → storable u) as Hst.
  { intros i u Hi. apply (proj1 (Forall_lookup _ _) (acc_store _ Hok) i u Hi). }
  assert (∀ i u u', s_users (sec st) !! i = Some u → same_account u u' → u_role u' = str "admin" ∨ u_role u' = str "user" →
    u32 (u_pass_hash u') → (enabled_admin u = true → enabled_admin u' = true) ∨ 1 < enabled_admin_count (s_users (sec st)) →
    accounts_ok (<[i := u']> (s_users (sec st)))) as Hins.
  { intros i u u' Hi Hsame Hr Hp Ha. apply (accounts_insert _ i u); [done..| |by apply (admin_after_insert _ i u)].
    apply (storable_same u); [by apply (Hst i)|done..]. }
  destruct He as [|u _|i u old new _ Hi _ _|i u pw _ _ Hi _|raw nm pw v _ _ Hn Hd Hv Hf|raw nm pw raw' rl v _ Hn Hr Hd Hv Hf|
    i u en _ Hi Hen|i u raw rl _ Hi Hr Hen|i u pw _ Hi|i u _ Hi _ Hr Hg Ha|_]; try done.
  - apply (Hins i u); [done|done|apply (Hst i u Hi)|apply password_hash_u32|]. left. by apply role_kept.
  - apply (Hins i u); [done|done|by left|apply password_hash_u32|by left].
  - destruct (clean_user_name_ok _ _ Hn) as [Hc Hne]. apply accounts_first_run; [done|..|done|done].
    + apply new_account_storable; auto.
    + by apply no_user_folded.
  - destruct (clean_user_name_ok _ _ Hn) as [Hc Hne]. apply accounts_append; [done|..|done].
    + apply new_account_storable; [done|done| |done]. by eapply clean_role_ok.
    + by apply no_user_folded.
  - apply (Hins i u); [done|done|apply (Hst i u Hi)|apply (Hst i u Hi)|].
    destruct Hen as [->|[_ [Hn|Hc]]]; [left|left|by right]; unfold enabled_admin; [by intros [_ ?]%andb_true_iff|by rewrite Hn, andb_false_r].
  - apply (Hins i u); [done|done|by eapply clean_role_ok|apply (Hst i u Hi)|].
    destruct Hen as [Ha|[Hn|Hc]]; [left|left|by right]; unfold enabled_admin.
    + intros [He _]%andb_true_iff. simpl. rewrite He. done.
    + by rewrite Hn, andb_false_r.
  - apply (Hins i u); [done|done|apply (Hst i u Hi)|apply password_hash_u32|]. left. by apply role_kept.
  - by apply (accounts_delete _ i u).
  - by apply restored_users_ok.
Qed.
End effects.

(** ** Operations on the files only *)
Section ops.
Context {W : Type} `{KernelFsSpec W} (auth : authority).
Abbreviation effect := (effect auth).
Implicit Types (st : World W) (u : UserRecord) (us : list UserRecord) (c : Credentials).

Definition good st : Prop := accounts_ok (s_users (sec st)) ∧ kfs_ok (files st).

(** The text of the database. *)
Definition db st : option bytes := kfs_content (files st) USERS_PATH.

Record kept st st' : Prop := {
  k_sec : sec st' = sec st; k_task : task_creds st' = task_creds st; k_ok : kfs_ok (files st'); k_db : db st' = db st }.

Definition files_only {E A} (m : ST (World W) E A) : Prop := ∀ st, good st → wp m (λ _, kept st) st.

Lemma kept_trans st1 st2 st3 : kept st1 st2 → kept st2 st3 → kept st1 st3.
Proof. intros [] []. split; congruence. Qed.

Lemma kept_good st st' : good st → kept st st' → good st'.
Proof. intros [Ha _] [Es _ Hk _]. split; [by rewrite Es|done]. Qed.

Lemma kept_refl st : good st → kept st st.
Proof. intros [_ ?]. done. Qed.

Lemma wp_files {E A} (m : ST (World W) E A) Q st :
  files_only m → good st → (∀ r st', kept st st' → Q r st') → wp m Q st.
Proof. intros Hm Hg HQ. eapply wp_impl; [by apply Hm|]. simpl. auto. Qed.

Lemma fo_at {E A} (m : ST (World W) E A) st : files_only m → good st → kept st (snd (m st)).
Proof. intros Hm. apply Hm. Qed.

Lemma fo_ret {E A} (a : A) : files_only (E := E) (ret a).
Proof. intros st. apply kept_refl. Qed.
Lemma fo_bind {E A B} (m : ST (World W) E A) (k : A → ST (World W) E B) :
  files_only m → (∀ a, files_only (k a)) → files_only (bind m k).
Proof.
  intros Hm Hk st Hg. apply wp_bind, wp_files; [done|done|]. intros [a|e] st' Hs; [|done].
  apply wp_files; [apply Hk|by eapply kept_good|]. intros _ st2 Hs2. by apply (kept_trans _ st').
Qed.
Lemma fo_attempt {E E' A} (m : ST (World W) E A) : files_only m → files_only (attempt (E' := E') m).
Proof. intros Hm st Hg. by apply wp_attempt, Hm. Qed.
Lemma fo_map_err {E E' A} (h : E → E') (m : ST (World W) E A) : files_only m → files_only (map_err h m).
Proof. intros Hm st Hg. by apply wp_map_err, Hm. Qed.
Lemma fo_for_each {E A} (k : A → ST (World W) E unit) l : (∀ a, a ∈ l → files_only (k a)) → files_only (for_each k l).
Proof.
  induction l as [|a l IH]; intros Hk; [apply fo_ret|]. apply fo_bind; [apply Hk; by left|]. intros _. apply IH.
  intros b Hb. apply Hk. by right.
Qed.
Lemma fo_lift_option {E A} (e : E) (o : option A) : files_only (lift_option e o).
Proof. intros st. destruct o; apply kept_refl. Qed.

Lemma fo_on_files {E A} (m : ST W E A) :
  (∀ w, kfs_ok w → kfs_ok (snd (m w)) ∧ kfs_same w (snd (m w))) → files_only (on_files m).
Proof.
  intros Hm st [_ Hk]. destruct (Hm _ Hk) as [Hk' Hs]. unfold wp, on_files. destruct (m (files st)) as [r w]. simpl in *.
  split; [done|done|done|]. apply Hs. by left.
Qed.

Lemma fo_create_dir own p : owner_ok own → files_only (on_files (kfs_create_dir own p)).
Proof. intros Ho. apply fo_on_files. intros w Hw. by apply (kfs_create_dir_spec own p w). Qed.
Lemma fo_chown c p v g : u32 v → u32 g → files_only (on_files (kfs_chown c p v g)).
Proof. intros Hv Hg. apply fo_on_files. intros w Hw. by apply (kfs_chown_spec c p v g w). Qed.
Lemma fo_chmod c p mode : 0 ≤ mode → files_only (on_files (kfs_chmod c p mode)).
Proof. intros Hm. apply fo_on_files. intros w Hw. by apply (kfs_chmod_spec c p mode w). Qed.
Lemma fo_read p : p ∈ config_files → files_only (on_files (kfs_read p)).
Proof. intros Hp. apply fo_on_files. intros w Hw. by apply (kfs_read_spec p w). Qed.

Lemma owners_ok st : good st → owner_ok (owners st).
Proof.
  intros [Hok _] p v g. unfold owners, home_owner_for_path. case_if; [by intros [= <- <-]|].
  destruct (strip_prefix _ p) as [rest|]; [|done]. case_if; [by intros [= <- <-]|].
  destruct (find_user _ _) as [u|] eqn:Ef; [|done]. intros [= <- <-]. apply find_some in Ef as [Hin%list_elem_of_In _].
  pose proof (proj1 (Forall_forall _ _) (acc_store _ Hok) u Hin) as [_ _ _ _ Hu Hg _]. unfold u32, USER_UID in *. lia.
Qed.

Create HintDb files_only.
#[local] Hint Resolve fo_ret fo_bind fo_attempt fo_map_err fo_lift_option owners_ok : files_only.
#[local] Hint Resolve fo_create_dir fo_chown fo_chmod fo_read : files_only.

Lemma fo_ensure_home_dir u : storable u → files_only (ensure_home_dir u).
Proof.
  intros [_ _ _ _ Hu Hg _] st Hst. unfold wp, ensure_home_dir. case_if; [by apply kept_refl|]. apply fo_at; [|done].
  assert (u32 (u_uid u)) by (unfold u32, USER_UID in *; lia). assert (0 ≤ 0x1c0) by lia. auto 12 with files_only.
Qed.

Lemma fo_ensure_home_dirs {E} : files_only (E := E) ensure_home_dirs.
Proof.
  intros st Hst. unfold wp, ensure_home_dirs. apply fo_at; [|done].
  assert (files_only (for_each ensure_home_dir (s_users (sec st)))).
  { apply fo_for_each. intros u Hu. apply fo_ensure_home_dir. by apply (proj1 (Forall_forall _ _) (acc_store _ (proj1 Hst))). }
  assert (u32 ROOT_UID) by done. assert (u32 ROOT_GID) by done. assert (0 ≤ DEFAULT_DIR_MODE) by done. auto 12 with files_only.
Qed.

Lemma fo_first_boot_file_state : files_only first_boot_file_state.
Proof. unfold first_boot_file_state. apply fo_bind; [apply fo_read; right; by left|auto with files_only]. Qed.

Lemma fo_load_users : files_only load_users_from_disk.
Proof. unfold load_users_from_disk. apply fo_bind; [apply fo_read; by left|auto with files_only]. Qed.
#[local] Hint Resolve fo_ensure_home_dirs fo_first_boot_file_state fo_load_users : files_only.

(** ** Writing the first-boot file and the database *)
Lemma Forall_filter_bool {A} (P : A → Prop) (p : A → bool) l : Forall P l → Forall P (List.filter p l).
Proof. induction 1; simpl; [constructor|]. case_if; [by constructor|done]. Qed.

Lemma config_line_bytes key value : Forall is_byte key → Forall is_byte value → Forall is_byte (config_line key value).
Proof.
  intros Hk Hv. unfold config_line, push_safe_config_value. case_if; [constructor|]. 
  repeat apply Forall_app_2; [done| |by repeat constructor]. by apply Forall_filter_bool, Forall_trim.
Qed.

Lemma first_boot_text_bytes s user device :
  Forall is_byte user → Forall is_byte device → Forall is_byte (first_boot_text s user device).
Proof.
  intros Hu Hd. unfold first_boot_text.
  repeat apply Forall_app_2; try (by apply config_line_bytes; [repeat constructor|]); [by repeat constructor..| |by repeat constructor].
  by destruct s; repeat constructor.
Qed.

Lemma wp_safe_write own p data Q st :
  good st → owner_ok own → p ∈ config_files → Forall is_byte data →
  (∀ r st', sec st' = sec st → task_creds st' = task_creds st → kfs_ok (files st') →
    (p ≠ USERS_PATH → db st' = db st) →
    (p = USERS_PATH → db st' = match r with Ok _ => Some data | Err _ => db st end) → Q r st') →
  wp (on_files (kfs_safe_write own p data)) Q st.
Proof.
  intros [_ Hk] Ho Hp Hd HQ. pose proof (kfs_safe_write_spec own p data _ Ho Hp Hd Hk) as Hs.
  unfold wp, on_files. destruct (kfs_safe_write own p data (files st)) as [r w]. destruct Hs as (Hk' & Hoth & Hc).
  apply HQ; [done|done|done|..].
  - intros Hne. apply Hoth; [by left|done].
  - intros ->. exact Hc.
Qed.

Lemma fo_write_first_boot_state s user device :
  Forall is_byte user → Forall is_byte device → files_only (write_first_boot_state s user device).
Proof.
  intros Hu Hd st Hg. change (wp (attempt (E' := FsError) (on_files (kfs_create_dir (owners st) (str "/CONFIG"))) ;;!
    on_files (kfs_safe_write (owners st) FIRST_BOOT_PATH (first_boot_text s user device))) (λ _, kept st) st).
  pose proof (owners_ok st Hg) as Ho. apply wp_bind, wp_files; [auto with files_only|done|]. intros [r|e] st1 Hk1; [|done].
  apply wp_safe_write; [by eapply kept_good|done|right; by left|by apply first_boot_text_bytes|].
  intros r' st2 Es Et Hk Hdb _. destruct Hk1. split; [congruence|congruence|done|]. rewrite Hdb; done.
Qed.

Lemma fo_mark_required : files_only mark_required.
Proof. apply fo_map_err, fo_write_first_boot_state; constructor. Qed.

Lemma users_text_bytes us : accounts_ok us → Forall is_byte (users_text us).
Proof. intros Hok. eapply Forall_impl; [apply users_text_ascii, Hok|]. unfold is_byte. simpl. intros. lia. Qed.

(** Writing the database leaves the old one when it fails. *)
Record saved st st' (new : bool) : Prop := {
  sv_sec : sec st' = sec st; sv_task : task_creds st' = task_creds st; sv_ok : kfs_ok (files st');
  sv_db : db st' = if new then Some (users_text (s_users (sec st))) else db st }.

Lemma wp_persist_users (Q : result FsError unit → World W → Prop) st :
  good st → (∀ st', saved st st' true → Q (Ok tt) st') → (∀ e st', saved st st' false → Q (Err e) st') → wp persist_users Q st.
Proof.
  intros Hg Ho He. change (wp (attempt (E' := FsError) (on_files (kfs_create_dir (owners st) (str "/CONFIG"))) ;;!
    on_files (kfs_safe_write (owners st) USERS_PATH (users_text (s_users (sec st))))) Q st).
  pose proof (owners_ok st Hg) as How. apply wp_bind. unfold wp at 1.
  pose proof (fo_at (attempt (E' := FsError) (on_files (kfs_create_dir (owners st) (str "/CONFIG")))) st
    ltac:(auto with files_only) Hg) as Hk1.
  assert (∃ r, fst (attempt (E' := FsError) (on_files (kfs_create_dir (owners st) (str "/CONFIG"))) st) = Ok r) as [r ->]
    by (unfold attempt; destruct (on_files _ _); by eexists).
  apply wp_safe_write; [by eapply kept_good|done|by left|by apply users_text_bytes, Hg|].
  intros [[]|e] st2 Es Et Hk _ Hdb; destruct Hk1; [apply Ho|apply He]; split; try congruence; rewrite Hdb; done.
Qed.

Lemma wp_home_dirs {E} (Q : result E unit → World W → Prop) st :
  good st → (∀ st', kept st st' → Q (Ok tt) st') → wp ensure_home_dirs Q st.
Proof.
  intros Hg HQ. assert (fst (ensure_home_dirs (E := E) st) = Ok tt) as Er.
  { unfold ensure_home_dirs, bind, attempt. by repeat (case_match; simplify_eq/=). }
  unfold wp. rewrite Er. by apply HQ, (fo_ensure_home_dirs (E := E) st).
Qed.

(** ** Each operation has one of the effects *)
Definition failed {E A} (is_io : E → bool) (r : result E A) : Prop :=
  match r with Ok _ => False | Err e => is_io e = true end.

(** The users on disk are the old ones, which only happens when they did not
    change or the operation says that it failed, or the new ones. *)
Definition db_outcome st (io : bool) st' : Prop :=
  (db st' = db st ∧ (s_users (sec st') = s_users (sec st) ∨ io = true)) ∨ db st' = Some (users_text (s_users (sec st'))).

Definition outcome {E A} (is_io : E → bool) st (r : result E A) st' : Prop :=
  ∃ io, effect st io (s_users (sec st')) (session_of st') ∧ (io = true → failed is_io r) ∧
    kfs_ok (files st') ∧ db_outcome st io st'.
Definition causes {E A} (is_io : E → bool) (m : ST (World W) E A) : Prop := ∀ st, good st → wp m (outcome is_io st) st.

Lemma outcome_kept {E A} (is_io : E → bool) st (r : result E A) st' : kept st st' → outcome is_io st r st'.
Proof.
  intros [Es _ Hk Hd]. exists false. unfold db_outcome, session_of, interactive_credentials. rewrite Es.
  split_and!; [apply eff_none|done|done|]. left. split; [done|]. by left.
Qed.

Lemma outcome_none {E A} (is_io : E → bool) st (r : result E A) : good st → outcome is_io st r st.
Proof. intros Hg. by apply outcome_kept, kept_refl. Qed.

Lemma fo_causes {E A} (is_io : E → bool) (m : ST (World W) E A) : files_only m → causes is_io m.
Proof. intros Hm st Hg. apply wp_files; [done|done|]. intros. by apply outcome_kept. Qed.

Lemma wp_get {E} (Q : result E SecurityState → World W → Prop) st : Q (Ok (sec st)) st → wp get_sec Q st.
Proof. done. Qed.

Lemma wp_lift_result {E A} (r : result E A) (Q : result E A → World W → Prop) st : Q r st → wp (lift_result r) Q st.
Proof. done. Qed.

Lemma wp_require_admin {A} (k : ST (World W) (option AccountError) A) is_io st :
  good st → (is_admin_now st → wp k (outcome is_io st) st) → wp (require_admin' ;;! k) (outcome is_io st) st.
Proof.
  intros Hg Hk. apply wp_bind, wp_map_err. unfold wp, require_admin_account.
  destruct (can_admin _) eqn:Ea; [by apply Hk|by apply outcome_none].
Qed.

Lemma wp_find_account nm Q st :
  (∀ i u, s_users (sec st) !! i = Some u → has_user_name nm u = true → Q (Ok (i, u)) st) → Q (Err (Some AccNoSuchUser)) st →
  wp (find_account nm (sec st)) Q st.
Proof.
  intros Hs Hn. unfold find_account, user_index. destruct (position _ _) as [i|] eqn:Ep; [|done].
  apply position_Some in Ep as (u & Hi & Hu & _). rewrite Hi. by apply Hs.
Qed.

Definition acc_io (e : option AccountError) : bool := match e with Some AccIo => true | _ => false end.
Definition auth_io (e : AuthError) : bool := match e with AuthIo => true | _ => false end.

(** A step that ends without touching the files. *)
Lemma outcome_memory {E A} (is_io : E → bool) st (r : result E A) st' :
  good st → files st' = files st → s_users (sec st') = s_users (sec st) → effect st false (s_users (sec st')) (session_of st') →
  outcome is_io st r st'.
Proof.
  intros [_ Hk] Ef Eu He. exists false. split_and!; [done|done|by rewrite Ef|]. left. unfold db. rewrite Ef. split; [done|by left].
Qed.

(** The users change in memory ([s]), are written, and what follows only works on files. *)
Lemma wp_commit {A} (k : ST (World W) (option AccountError) A) st s :
  good st → (∀ io, effect st io (s_users s) (session_of {| sec := s; task_creds := task_creds st; files := files st |})) →
  files_only k → wp (put_sec s ;;! persist_account ;;! k) (outcome acc_io st) st.
Proof.
  intros Hg He Hk. apply wp_bind. unfold wp at 1. cbn [put_sec fst snd].
  set (st1 := {| sec := s; task_creds := task_creds st; files := files st |}).
  assert (good st1) as Hg1 by (split; [by apply (effect_accounts auth st false _ (session_of st1)); [apply Hg|apply He]|apply Hg]).
  apply wp_bind, wp_map_err, wp_persist_users; [done|..].
  - intros st2 [Es _ Hok Hdb]. apply wp_files; [done|split; [rewrite Es; apply Hg1|done]|].
    intros r st3 [Es3 _ Hok3 Hdb3]. exists false. unfold db_outcome, session_of, interactive_credentials. rewrite Es3, Es.
    split_and!; [apply (He false)|done|done|]. right. rewrite Hdb3, Hdb. done.
  - intros e st2 [Es _ Hok Hdb]. exists true. unfold db_outcome, session_of, interactive_credentials. rewrite Es.
    split_and!; [apply (He true)|done|done|]. left. split; [exact Hdb|by right].
Qed.

Lemma login_causes now nm password : causes auth_io (login now nm password).
Proof.
  intros st Hg. unfold login. apply wp_bind, wp_get. simpl. case_if; [by apply outcome_none|].
  destruct (find_user _ _) as [u|] eqn:Ef; [|by apply outcome_none]. case_if; [by apply outcome_none|].
  case_if; apply wp_bind.
  - assert (∀ s n, s_users (record_login_failure now n s) = s_users s ∧ s_session_uid (record_login_failure now n s) = s_session_uid s ∧
      s_session_gid (record_login_failure now n s) = s_session_gid s ∧ s_session_caps (record_login_failure now n s) = s_session_caps s) as Hr.
    { intros s n. unfold record_login_failure. by destruct (position _ _). }
    destruct (Hr (sec st) (u_name u)) as (E1 & E2 & E3 & E4).
    apply outcome_memory; [done|done|exact E1|]. unfold session_of, interactive_credentials. simpl.
    rewrite E1, E2, E3, E4. apply eff_none.
  - apply outcome_memory; [done|done|done|]. apply (eff_session auth st false u). apply find_some in Ef as [Hin _]. by apply list_elem_of_In.
Qed.

Lemma logout_causes : causes (λ _, false) logout.
Proof.
  intros st Hg. unfold logout. apply wp_bind, wp_get. apply outcome_memory; [done|done|done|].
  destruct (acc_guest _ (proj1 Hg)) as (g & Hin & _ & Eg). destruct (find_user (has_uid GUEST_UID) (s_users (sec st))) as [u|] eqn:Ef.
  - apply (eff_session auth st false u). apply find_some in Ef as [Hu _]. by apply list_elem_of_In.
  - apply list_elem_of_In in Hin. pose proof (find_none _ _ Ef g Hin) as Hn. by rewrite (proj2 (has_uid_eq _ _) Eg) in Hn.
Qed.

Lemma change_password_causes old new : auth = ByPassword old new → causes auth_io (change_password old new).
Proof.
  intros Hau st Hg. unfold change_password. case_if; [by apply outcome_none|]. apply wp_bind, wp_get. simpl.
  destruct (find_user _ _) as [u|] eqn:Ef; [|by apply outcome_none]. case_if as Ep; [by apply outcome_none|].
  apply negb_false_iff, Z.eqb_eq in Ep.
  destruct (update_first_insert _ (λ u, set_pass_hash (password_hash (u_name u) new) u) _ _ Ef) as (i & Hi & Hu & ->).
  apply has_uid_eq in Hu. pose proof (λ io, eff_password auth st io i u old new Hau Hi Hu Ep) as He.
  apply wp_bind, wp_map_err, wp_persist_users; [split; [by apply (effect_accounts auth st false _ (session_of st)); [apply Hg|apply He]|apply Hg]|..].
  - intros st' [Es _ Hok Hdb]. exists false. unfold db_outcome, session_of, interactive_credentials. rewrite Es.
    split_and!; [apply (He false)|done|done|by right].
  - intros e st' [Es _ Hok Hdb]. exists true. unfold db_outcome, session_of, interactive_credentials. rewrite Es.
    split_and!; [apply (He true)|done|done|]. left. split; [exact Hdb|by right].
Qed.

Lemma create_user_causes fuel nm password rl : causes acc_io (create_user fuel nm password rl).
Proof.
  intros st Hg. unfold create_user. apply wp_require_admin; [done|]. intros Ha.
  apply wp_bind, wp_map_err, wp_lift_result. destruct (clean_user_name nm) as [nm'|] eqn:En; [|by apply outcome_none].
  unfold check_password. apply wp_bind. case_if; [|by apply outcome_none].
  apply wp_bind, wp_map_err, wp_lift_result. destruct (clean_role rl) as [rl'|] eqn:Er; [|by apply outcome_none].
  apply wp_bind, wp_get. case_if as Ed; [by apply outcome_none|].
  destruct (next_available_uid fuel _) as [v|] eqn:Ev; [|by apply outcome_none]. apply next_available_fresh in Ev as [Hv Hf].
  apply wp_commit; [done| |auto with files_only]. intros io. by apply (eff_create auth st io nm nm' password rl rl' v).
Qed.

Lemma set_user_enabled_causes nm enabled : causes acc_io (set_user_enabled nm enabled).
Proof.
  intros st Hg. unfold set_user_enabled. apply wp_require_admin; [done|]. intros Ha. apply wp_bind, wp_get.
  apply wp_bind, wp_find_account; [|by apply outcome_none]. intros i u Hi Hu. simpl.
  case_if as Es; [by apply outcome_none|]. case_if as El; [by apply outcome_none|].
  apply wp_commit; [done| |apply fo_ret]. intros io. apply (eff_enable auth st io i u enabled Ha Hi).
  destruct enabled; [by left|right]. simpl in Es, El. apply Z.eqb_neq in Es.
  split; [done|]. apply andb_false_iff in El as [El|El]; [by left|right]. by apply Z.leb_gt in El.
Qed.

Lemma reset_user_password_causes nm password : causes acc_io (reset_user_password nm password).
Proof.
  intros st Hg. unfold reset_user_password. apply wp_require_admin; [done|]. intros Ha.
  unfold check_password. apply wp_bind. case_if; [|by apply outcome_none].
  apply wp_bind, wp_get. apply wp_bind, wp_find_account; [|by apply outcome_none]. intros i u Hi Hu.
  apply wp_commit; [done| |apply fo_ret]. intros io. apply (eff_reset auth st io i u password Ha Hi).
Qed.

Lemma delete_user_causes nm : causes acc_io (delete_user nm).
Proof.
  intros st Hg. unfold delete_user. apply wp_require_admin; [done|]. intros Ha. apply wp_bind, wp_get.
  apply wp_bind, wp_find_account; [|by apply outcome_none]. intros i u Hi Hu. simpl.
  case_if as Es; [by apply outcome_none|]. case_if as El; [by apply outcome_none|].
  apply orb_false_iff in Es as [[Es%Z.eqb_neq Er]%orb_false_iff Eg].
  apply wp_commit; [done| |apply fo_ret]. intros io. apply (eff_delete auth st io i u Ha Hi Es Er Eg). by rewrite andb_false_iff, Z.leb_gt in El.
Qed.

(** As [wp_commit], when the session may change after the files. *)
Lemma wp_commit_session {A} (k : ST (World W) (option AccountError) A) st s :
  good st → effect st true (s_users s) (session_of {| sec := s; task_creds := task_creds st; files := files st |}) →
  (∀ st', good st' → sec st' = s → wp k (λ r st'', s_users (sec st'') = s_users s ∧ kfs_ok (files st'') ∧ db st'' = db st' ∧
     effect st false (s_users s) (session_of st'')) st') →
  wp (put_sec s ;;! persist_account ;;! k) (outcome acc_io st) st.
Proof.
  intros Hg He Hk. apply wp_bind. unfold wp at 1. cbn [put_sec fst snd].
  set (st1 := {| sec := s; task_creds := task_creds st; files := files st |}).
  assert (good st1) as Hg1 by (split; [by apply (effect_accounts auth st true _ (session_of st1)); [apply Hg|apply He]|apply Hg]).
  apply wp_bind, wp_map_err, wp_persist_users; [done|..].
  - intros st2 [Es _ Hok Hdb]. eapply wp_impl; [apply Hk; [split; [rewrite Es; apply Hg1|done]|done]|].
    intros r st3 (Eu & Hok3 & Hdb3 & He3). exists false. unfold db_outcome. rewrite Eu.
    split_and!; [exact He3|done|done|]. right. rewrite Hdb3, Hdb. done.
  - intros e st2 [Es _ Hok Hdb]. exists true. unfold db_outcome, session_of, interactive_credentials. rewrite Es.
    split_and!; [exact He|done|done|]. left. split; [exact Hdb|by right].
Qed.

Lemma set_user_role_causes nm rl : causes acc_io (set_user_role nm rl).
Proof.
  intros st Hg. unfold set_user_role. apply wp_require_admin; [done|]. intros Ha.
  apply wp_bind, wp_map_err, wp_lift_result. destruct (clean_role rl) as [rl'|] eqn:Er; [|by apply outcome_none].
  apply wp_bind, wp_get. apply wp_bind, wp_find_account; [|by apply outcome_none]. intros i u Hi Hu. simpl.
  case_if as El; [by apply outcome_none|].
  assert (∀ io, effect st io (<[i := set_role rl' u]> (s_users (sec st)))
    (if decide (u_uid u = s_session_uid (sec st) ∧ io = false) then creds_of (set_role rl' u) else session_of st)) as He.
  { intros io. apply (eff_role auth st io i u rl rl' Ha Hi Er). rewrite !andb_false_iff, negb_false_iff, Z.leb_gt in El. tauto. }
  apply wp_commit_session; [done|..].
  - specialize (He true). by rewrite decide_False in He by (intros [_ ?]; done).
  - intros st' Hg' Es'. specialize (He false). apply wp_bind. case_if as Eu.
    + apply Z.eqb_eq in Eu. rewrite decide_True in He by done. unfold wp. simpl. rewrite Es'. split_and!; [done|apply Hg'|done|exact He].
    + apply Z.eqb_neq in Eu. rewrite decide_False in He by tauto. unfold wp, session_of, interactive_credentials. simpl. rewrite Es'.
      split_and!; [done|apply Hg'|done|exact He].
Qed.

(** The end of the first-run setup, once the new administrator [u] is in memory. *)
Definition first_run_end u : ST (World W) (option AccountError) User :=
  ensure_home_dirs ;;! attempt (mark_first_boot_complete (u_name u) []) ;;! set_session_from_user u ;;! ret (public_user u).

Lemma wp_first_run_end st s u :
  good st → Forall is_byte (u_name u) →
  (∀ io, effect st io (s_users s) (if io then session_of st else creds_of u)) →
  session_of {| sec := s; task_creds := task_creds st; files := files st |} = session_of st →
  wp (put_sec s ;;! persist_account ;;! first_run_end u) (outcome acc_io st) st.
Proof.
  intros Hg Hb He Es. apply wp_commit_session; [done|rewrite Es; apply (He true)|]. intros st1 Hg1 E1.
  apply wp_bind, wp_home_dirs; [done|]. intros st2 Hk2.
  apply wp_bind, wp_attempt, wp_files; [by apply fo_write_first_boot_state|by eapply kept_good|]. intros r st3 Hk3.
  destruct (kept_trans _ _ _ Hk2 Hk3) as [E3 _ Hok Hdb]. unfold wp. simpl. rewrite E3, E1. split_and!; [done|done|exact Hdb|apply (He false)].
Qed.

Lemma name_bytes l : field l → Forall is_byte l.
Proof. intros Hf. eapply Forall_impl; [apply field_visible, Hf|]. unfold visible, is_byte. intros. lia. Qed.

Lemma complete_first_run_causes fuel nm password : auth = ByFirstRun → causes acc_io (complete_first_run_admin fuel nm password).
Proof.
  intros Hau st Hg. unfold complete_first_run_admin.
  apply wp_bind, wp_map_err, wp_lift_result. destruct (clean_user_name nm) as [nm'|] eqn:En; [|by apply outcome_none].
  case_if; [by apply outcome_none|]. unfold check_password. apply wp_bind. case_if; [|by apply outcome_none].
  apply wp_bind, wp_get. case_if as Ef; [by apply outcome_none|]. apply negb_false_iff in Ef. case_if as Er.
  - unfold first_run_root. simpl. destruct (find_user _ _) as [u|] eqn:Eu; [|by apply outcome_none].
    destruct (update_first_insert _ (claimed_root password) _ _ Eu) as (i & Hi & Hu & Eus). unfold claimed_root at 1 in Eus.
    rewrite Eus. apply (wp_first_run_end st _ (claimed_root password u)); [done| | |done].
    + apply name_bytes, name_char_field. apply (proj1 (Forall_lookup _ _) (acc_store _ (proj1 Hg)) i u Hi).
    + intros io. apply (eff_first_root auth st io i u password Hau Ef Hi).
      apply has_user_name_fold in Hu. apply has_user_name_fold. apply eq_ignore_fold in Er. congruence.
  - unfold first_run_new. simpl. case_if as Ed; [by apply outcome_none|].
    destruct (next_available_uid fuel _) as [v|] eqn:Ev; [|by apply outcome_none]. apply next_available_fresh in Ev as [Hv Hf].
    apply (wp_first_run_end st _ (new_account nm' (str "admin") password v)); [done| | |done].
    + apply name_bytes, name_char_field. apply (clean_user_name_ok _ _ En).
    + intros io. by apply (eff_first_new auth st io nm nm' password v).
Qed.

Lemma outcome_bind_files {E A B} (is_io : E → bool) st (m : ST (World W) E A) (k : A → ST (World W) E B) :
  good st → wp m (outcome is_io st) st → (∀ a, files_only (k a)) → wp (bind m k) (outcome is_io st) st.
Proof.
  intros Hg Hm Hk. apply wp_bind. eapply wp_impl; [exact Hm|]. intros [a|e] st1 (io & He & Hio & Hok & Hdb); [|by exists io].
  assert (good st1) as Hg1 by (split; [by apply (effect_accounts auth st io _ _ (proj1 Hg) He)|done]).
  apply wp_files; [apply Hk|done|]. intros r st2 [Es _ Hok2 Hdb2]. destruct io; [by destruct (Hio eq_refl)|].
  exists false. unfold db_outcome, session_of, interactive_credentials. rewrite Es, Hdb2. by split_and!.
Qed.

Lemma restore_causes st : good st → is_admin_now st ∨ auth = ByRecovery → wp restore_default_handoff (outcome acc_io st) st.
Proof.
  intros Hg Ha. unfold restore_default_handoff. apply wp_bind, wp_get. pose proof (λ io, eff_restore auth st io Ha) as He.
  destruct (restored_users (s_users (sec st))) as [us []]; [|by apply outcome_none].
  apply wp_commit; [done|exact He|auto with files_only].
Qed.

Lemma reset_first_boot_causes : causes acc_io reset_first_boot_admin.
Proof.
  intros st Hg. unfold reset_first_boot_admin. apply wp_require_admin; [done|]. intros Ha.
  apply outcome_bind_files; [done|by apply restore_causes; [|left]|]. intros. apply fo_mark_required.
Qed.

Lemma reset_recovery_causes : auth = ByRecovery → causes acc_io reset_first_boot_unchecked.
Proof.
  intros Ha st Hg. apply outcome_bind_files; [done|by apply restore_causes; [|right]|]. intros. apply fo_mark_required.
Qed.

Lemma admin_counted us : accounts_ok us → 0 < enabled_admin_count us.
Proof.
  intros [_ _ _ _ _ (u & Hu & Ha)]. unfold enabled_admin_count, len.
  destruct (List.filter enabled_admin us) as [|v l] eqn:Ef; [|simpl; lia].
  assert (In u []) as []. rewrite <- Ef. apply filter_In. split; [by apply list_elem_of_In|done].
Qed.

Lemma preferred_bytes us : accounts_ok us → Forall is_byte (preferred_admin_name us).
Proof.
  intros Hok. unfold preferred_admin_name. destruct (find_user _ _) as [u|] eqn:Ef; [|by repeat constructor].
  apply find_some in Ef as [Hin%list_elem_of_In _]. apply name_bytes, name_char_field.
  apply (proj1 (Forall_forall _ _) (acc_store _ Hok) u Hin).
Qed.

Lemma repair_causes : causes acc_io repair_first_boot_unchecked.
Proof.
  intros st Hg. unfold repair_first_boot_unchecked. apply wp_bind, wp_get.
  pose proof (admin_counted _ (proj1 Hg)). replace (enabled_admin_count (s_users (sec st)) =? 0) with false by (symmetry; apply Z.eqb_neq; lia).
  pose proof (preferred_bytes _ (proj1 Hg)).
  apply (fo_causes acc_io); [|done]. apply fo_bind; [auto with files_only|]. intros a.
  case_if; [apply fo_mark_required|]. case_if; [|apply fo_ret]. by apply fo_map_err, fo_write_first_boot_state.
Qed.

Lemma repair_first_boot_causes : causes acc_io repair_first_boot_admin.
Proof. intros st Hg. unfold repair_first_boot_admin. apply wp_require_admin; [done|]. intros _. by apply repair_causes. Qed.

Lemma boot_consistency_causes : causes (λ _, false) ensure_first_boot_boot_consistency.
Proof.
  intros st Hg. unfold ensure_first_boot_boot_consistency. apply wp_bind, wp_get.
  assert (existsb enabled_admin (s_users (sec st)) = true) as ->.
  { apply existsb_exists. destruct (acc_admin _ (proj1 Hg)) as (u & Hu & Ha). exists u. split; [by apply list_elem_of_In|done]. }
  pose proof (preferred_bytes _ (proj1 Hg)).
  assert (∀ s n, Forall is_byte n → files_only (E := unit) (attempt (write_first_boot_state s n []) ;;! ret tt)) as Hw.
  { intros s n Hn. apply fo_bind; [|intros; apply fo_ret]. apply fo_attempt. by apply fo_write_first_boot_state. }
  apply (fo_causes (λ _, false)); [|done]. apply fo_bind; [auto with files_only|]. intros a.
  case_if; [by apply Hw|]. case_if; [by apply Hw|apply fo_ret].
Qed.

Lemma mark_complete_causes user device : causes (λ _, false) (mark_first_boot_complete (str user) (str device)).
Proof. apply fo_causes, fo_write_first_boot_state; apply str_is_byte. Qed.

Lemma mark_in_progress_causes : causes (λ _, false) mark_first_boot_in_progress.
Proof.
  intros st Hg. unfold wp, mark_first_boot_in_progress.
  case_if; [apply (fo_causes (λ _, false) (mark_first_boot_complete [] []))|apply (fo_causes (λ _, false) (write_first_boot_state FbInProgress [] []))];
    first [done | by apply fo_write_first_boot_state].
Qed.

Lemma test_session_causes nm : causes (λ _, false) (set_session_for_test nm).
Proof.
  intros st Hg. unfold set_session_for_test. apply wp_bind, wp_get. destruct (find_user _ _) as [u|] eqn:Ef; [|by apply outcome_none].
  apply outcome_memory; [done|done|done|]. apply (eff_session auth st false u). apply find_some in Ef as [Hu _]. by apply list_elem_of_In.
Qed.

Lemma set_umask_causes mask : causes (λ _, false) (set_umask mask).
Proof. intros st Hg. apply outcome_memory; [done..|]. apply (eff_none auth st). Qed.

(** ** Starting *)
(** The database is one the system wrote, or there is none. *)
Definition db_ok (d : option bytes) : Prop := ∀ text, d = Some text → ∃ us, accounts_ok us ∧ text = users_text us.

(** The users after a start. *)
Definition started (d : option bytes) us : Prop :=
  match d with Some text => accounts_ok us ∧ text = users_text us | None => us = default_users end.

Lemma load_users_spec st :
  kfs_ok (files st) → db_ok (db st) →
  wp load_users_from_disk (λ r st', kfs_ok (files st') ∧ db st' = db st ∧ task_creds st' = task_creds st ∧ sec st' = sec st ∧
    started (db st) (normalize_default_admin (match r with Ok us => us | Err _ => default_users end))) st.
Proof.
  intros Hok Hdb. unfold load_users_from_disk. apply wp_bind.
  destruct (kfs_read_spec USERS_PATH (files st)) as [Hok' Hs]; [by left|done|]. specialize (Hs USERS_PATH ltac:(by left)).
  unfold wp at 1. unfold on_files. unfold db, kfs_content in *. destruct (kfs_read USERS_PATH (files st)) as [r w] eqn:Er.
  simpl in *. destruct r as [text|[]]; simpl in *.
  - destruct (Hdb text eq_refl) as (us & Hus & ->). unfold wp, lift_option. rewrite load_users_text by done. simpl.
    rewrite normalize_ok by done. by split_and!.
  - by split_and!.
Qed.
End ops.
