(* ===== verification/AccountsRun.v ===== *)
(** * The account system over time

    Any sequence of operations and restarts: the database stays consistent and
    equal to the users in memory, users change only with authority, and the
    session never has more capabilities than the role of its account. *)
From S2P Require Import Prelude Text Paths Security Accounts AccountsInv AccountsDb AccountsOps.
Set Warnings "-clear-no-such-hyp".

Local Open Scope Z_scope.
Local Open Scope st_scope.

(** ** Operations and runs *)
Inductive acc_error := EAuth (e : AuthError) | EAccount (e : option AccountError).
Definition error_io (e : acc_error) : bool := match e with EAuth e => auth_io e | EAccount e => acc_io e end.

(** Every function of security.rs that changes the accounts, the session, the
    record of failed logins or the files of the account system; [OpTask] lets
    another task, with its credentials, or none run. *)
Inductive acc_op :=
| OpTask (c : option Credentials) | OpRestart
| OpLogin (now : Z) (nm password : bytes) | OpLogout | OpChangePassword (old new : bytes)
| OpFirstRun (fuel : nat) (nm password : bytes) | OpCreate (fuel : nat) (nm password rl : bytes)
| OpEnable (nm : bytes) (enabled : bool) | OpRole (nm rl : bytes) | OpReset (nm password : bytes) | OpDelete (nm : bytes)
| OpResetFirstBoot | OpRepairFirstBoot | OpRecoveryReset | OpRecoveryRepair | OpBootConsistency
| OpMarkInProgress | OpMarkComplete (user device : string) | OpTestSession (nm : bytes) | OpUmask (mask : Z).

Section run.
Context {W : Type} `{KernelFs W}.
Implicit Types (st : World W).

(** The result without its value, the error in one type. *)
Definition plain {E A} (h : E → acc_error) (m : ST (World W) E A) : ST (World W) acc_error unit :=
  map_err h m ;;! ret tt.

(** The recovery functions report an error as a line of text; here it is the result. *)
Definition acc_exec (op : acc_op) : ST (World W) acc_error unit :=
  match op with
  | OpTask c => λ st, (Ok tt, {| sec := sec st; task_creds := c; files := files st |})
  | OpRestart => attempt init ;;! ret tt
  | OpLogin now nm password => plain EAuth (login now nm password)
  | OpLogout => attempt logout ;;! ret tt
  | OpChangePassword old new => plain EAuth (change_password old new)
  | OpFirstRun fuel nm password => plain EAccount (complete_first_run_admin fuel nm password)
  | OpCreate fuel nm password rl => plain EAccount (create_user fuel nm password rl)
  | OpEnable nm enabled => plain EAccount (set_user_enabled nm enabled)
  | OpRole nm rl => plain EAccount (set_user_role nm rl)
  | OpReset nm password => plain EAccount (reset_user_password nm password)
  | OpDelete nm => plain EAccount (delete_user nm)
  | OpResetFirstBoot => plain EAccount reset_first_boot_admin
  | OpRepairFirstBoot => plain EAccount repair_first_boot_admin
  | OpRecoveryReset => plain EAccount reset_first_boot_unchecked
  | OpRecoveryRepair => plain EAccount repair_first_boot_unchecked
  | OpBootConsistency => attempt ensure_first_boot_boot_consistency ;;! ret tt
  | OpMarkInProgress => attempt mark_first_boot_in_progress ;;! ret tt
  | OpMarkComplete user device => attempt (mark_first_boot_complete (str user) (str device)) ;;! ret tt
  | OpTestSession nm => attempt (set_session_for_test nm) ;;! ret tt
  | OpUmask mask => attempt (set_umask mask) ;;! ret tt
  end.

Fixpoint acc_run (ops : list acc_op) st : World W :=
  match ops with [] => st | op :: ops => acc_run ops (snd (acc_exec op st)) end.

Definition authority_of (op : acc_op) : authority :=
  match op with OpChangePassword old new => ByPassword old new | OpFirstRun _ _ _ => ByFirstRun | OpRecoveryReset => ByRecovery | _ => ByCaller end.

(** No operation of the run reports an input/output error. *)
Fixpoint quiet (ops : list acc_op) st : Prop :=
  match ops with
  | [] => True
  | op :: ops => ¬ failed error_io (fst (acc_exec op st)) ∧ quiet ops (snd (acc_exec op st))
  end.
End run.

Section claims.
Context {W : Type} `{KernelFsSpec W}.
Implicit Types (st : World W) (u : UserRecord) (us : list UserRecord).

(** ** One step *)
Lemma restart_or_not op : op = OpRestart ∨ op ≠ OpRestart.
Proof. destruct op; (by left) || (by right). Qed.

Lemma plain_causes {E A} auth (is_io : E → bool) (h : E → acc_error) (m : ST (World W) E A) :
  (∀ e, error_io (h e) = is_io e) → causes auth is_io m → causes auth error_io (plain h m).
Proof.
  intros Hh Hm st Hg. apply wp_bind, wp_map_err. eapply wp_impl; [by apply Hm|].
  intros [a|e] st' (io & He & Hio & Hr); exists io; (split; [done|split; [|done]]); simpl in *; [done|]. by rewrite Hh.
Qed.

Lemma attempt_causes {E A} auth (m : ST (World W) E A) : causes auth (λ _, false) m → causes auth error_io (attempt m ;;! ret tt).
Proof.
  intros Hm st Hg. apply wp_bind, wp_attempt. eapply wp_impl; [by apply Hm|].
  intros r st' (io & He & Hio & Hr). exists io. split; [done|split; [|done]]. intros ->. specialize (Hio eq_refl). by destruct r.
Qed.

Lemma exec_causes op st : op ≠ OpRestart → good st → wp (acc_exec op) (outcome (authority_of op) error_io st) st.
Proof.
  intros Hop Hg.
  pose proof (λ A a m, plain_causes (A := A) a auth_io EAuth m (λ _, eq_refl)) as Hau.
  pose proof (λ A a m, plain_causes (A := A) a acc_io EAccount m (λ _, eq_refl)) as Hac.
  destruct op; [|done|..].
  - apply outcome_memory; [done..|]. apply (eff_none ByCaller st).
  - by apply Hau, Hg; apply login_causes.
  - by apply attempt_causes, Hg; apply logout_causes.
  - by apply Hau, Hg; apply change_password_causes.
  - by apply Hac, Hg; apply complete_first_run_causes.
  - by apply Hac, Hg; apply create_user_causes.
  - by apply Hac, Hg; apply set_user_enabled_causes.
  - by apply Hac, Hg; apply set_user_role_causes.
  - by apply Hac, Hg; apply reset_user_password_causes.
  - by apply Hac, Hg; apply delete_user_causes.
  - by apply Hac, Hg; apply reset_first_boot_causes.
  - by apply Hac, Hg; apply repair_first_boot_causes.
  - by apply Hac, Hg; apply reset_recovery_causes.
  - by apply Hac, Hg; apply repair_causes.
  - by apply attempt_causes, Hg; apply boot_consistency_causes.
  - by apply attempt_causes, Hg; apply mark_in_progress_causes.
  - by apply attempt_causes, Hg; apply mark_complete_causes.
  - by apply attempt_causes, Hg; apply test_session_causes.
  - by apply attempt_causes, Hg; apply set_umask_causes.
Qed.

(** ** Starting *)
Lemma init_spec st :
  kfs_ok (files st) → db_ok (db st) →
  wp init (λ _ st', good st' ∧ db_ok (db st') ∧ started (db st) (s_users (sec st')) ∧
    session_of st' = creds_of (default_session_user (s_users (sec st'))) ∧
    (db st ≠ None → db st' = Some (users_text (s_users (sec st'))))) st.
Proof.
  intros Hok Hdb. apply wp_bind, wp_attempt. eapply wp_impl; [by apply load_users_spec|].
  intros r st1 (Hok1 & Hdb1 & Et & Es & Hus). cbv beta iota.
  set (us := normalize_default_admin _) in *. apply wp_bind. unfold wp at 1. cbn [fst snd].
  set (s := {| s_users := us |}). set (st2 := {| sec := s; task_creds := task_creds st1; files := files st1 |}).
  assert (accounts_ok us) as Hus'.
  { unfold started in Hus. destruct (db st) as [text|]; [by destruct Hus|]. rewrite Hus. apply default_users_ok. }
  assert (good st2) as Hg2 by (by split).
  assert (∀ st', good st' → sec st' = s → db st' = db st1 ∨ db st' = Some (users_text us) →
    good st' ∧ db_ok (db st') ∧ started (db st) (s_users (sec st')) ∧
    session_of st' = creds_of (default_session_user (s_users (sec st'))) ∧
    (db st ≠ None → db st' = Some (users_text (s_users (sec st'))))) as Hend.
  { intros st' Hg' E' Hd. unfold session_of, interactive_credentials. rewrite E'. split_and!; [done| |done|done|].
    - intros text Htext. destruct Hd as [Hd|Hd]; [apply Hdb; congruence|]. exists us. split; [done|congruence].
    - intros Hne. destruct Hd as [Hd|Hd]; [|done]. rewrite Hd, Hdb1. unfold started in Hus. simpl.
      destruct (db st) as [text|]; [|done]. by destruct Hus as [_ ->]. }
  apply wp_bind, wp_attempt, wp_persist_users; [done|..].
  - intros st3 [E3 _ Hok3 Hdb3]. apply wp_home_dirs; [split; [rewrite E3; apply Hg2|done]|]. intros st4 [E4 _ Hok4 Hdb4].
    apply Hend; [split; [rewrite E4, E3; apply Hg2|done]|by rewrite E4, E3|right; by rewrite Hdb4, Hdb3].
  - intros e st3 [E3 _ Hok3 Hdb3]. apply wp_home_dirs; [split; [rewrite E3; apply Hg2|done]|]. intros st4 [E4 _ Hok4 Hdb4].
    apply Hend; [split; [rewrite E4, E3; apply Hg2|done]|by rewrite E4, E3|left; by rewrite Hdb4, Hdb3].
Qed.

(** ** The invariant *)
Lemma db_ok_outcome st io st' :
  accounts_ok (s_users (sec st')) → db_ok (db st) → db_outcome st io st' → db_ok (db st').
Proof.
  intros Ha Hd [[E _]|E] text Et; [apply Hd; congruence|]. exists (s_users (sec st')). split; [done|congruence].
Qed.

Definition consistent st : Prop := good st ∧ db_ok (db st).

Lemma exec_consistent op st : consistent st → consistent (snd (acc_exec op st)).
Proof.
  intros [Hg Hd]. destruct (restart_or_not op) as [->|Hop].
  - destruct (init_spec st (proj2 Hg) Hd) as (Hg' & Hd' & _). cbn [acc_exec]. unfold bind, attempt.
    destruct (init st) as [r st']. by split.
  - destruct (exec_causes op st Hop Hg) as (io & He & _ & Hok & Hdb).
    pose proof (effect_accounts _ st io _ _ (proj1 Hg) He) as Ha. split; [done|]. by eapply db_ok_outcome.
Qed.

Lemma run_consistent ops st : consistent st → consistent (acc_run ops st).
Proof. revert st. induction ops as [|op ops IH]; intros st Hst; [done|]. by apply IH, exec_consistent. Qed.

Lemma init_consistent st : kfs_ok (files st) → db_ok (db st) → consistent (snd (init st)).
Proof. intros Hok Hd. destruct (init_spec st Hok Hd) as (Hg' & Hd' & _). by split. Qed.

(** C34: However the account operations, of administrators, users and programs
    alike, follow each other, with restarts in between and with files that may
    fail, the database stays consistent: names differ (without regard to case)
    and so do uids, every record can be stored and read back, root and guest
    exist and at least one administrator can log in; and what is on disk is
    always a consistent database too. *)
Theorem accounts_invariant ops st :
  kfs_ok (files st) → db_ok (db st) →
  let st' := acc_run ops (snd (init st)) in accounts_ok (s_users (sec st')) ∧ db_ok (db st').
Proof. intros Hok Hd. destruct (run_consistent ops _ (init_consistent st Hok Hd)) as [[Ha _] Hd']. done. Qed.

(** ** Durability *)
Definition synced st : Prop := db st = Some (users_text (s_users (sec st))).

Lemma users_text_inj us us' : accounts_ok us → accounts_ok us' → users_text us = users_text us' → us = us'.
Proof. intros Ha Ha' E. apply load_users_text in Ha, Ha'. rewrite E in Ha. congruence. Qed.

Lemma restart_synced st :
  consistent st → synced st → let st' := snd (init st) in s_users (sec st') = s_users (sec st) ∧ synced st'.
Proof.
  intros [Hg Hd] Hs. destruct (init_spec st (proj2 Hg) Hd) as (_ & _ & Hst & _ & Hdb). unfold synced, started in *.
  rewrite Hs in Hst, Hdb. destruct Hst as [Ha E]. split; [|by apply Hdb]. symmetry. apply users_text_inj; [apply Hg|done|done].
Qed.

Lemma exec_synced op st :
  consistent st → synced st → ¬ failed error_io (fst (acc_exec op st)) → synced (snd (acc_exec op st)).
Proof.
  intros Hc Hs Hf. destruct (restart_or_not op) as [->|Hop].
  - destruct (restart_synced st Hc Hs) as [_ Hs']. cbn [acc_exec]. unfold bind, attempt. by destruct (init st).
  - destruct (exec_causes op st Hop (proj1 Hc)) as (io & _ & Hio & _ & [[Ed [Eu|Ei]]|Hdb]); [|destruct Hf; auto|done].
    unfold synced. by rewrite Ed, Hs, Eu.
Qed.

Lemma run_synced ops st : consistent st → synced st → quiet ops st → synced (acc_run ops st).
Proof.
  revert st. induction ops as [|op ops IH]; intros st Hc Hs Hq; [done|]. destruct Hq as [Hf Hq].
  apply IH; [by apply exec_consistent|by apply exec_synced|done].
Qed.

(** C36: On a machine that starts with a stored database, and as long as no
    operation reports an input/output error, nothing that was
    done to the accounts is lost: starting the system again, after any such
    sequence of operations, brings back exactly the users it had. *)
Theorem accounts_durable ops st :
  kfs_ok (files st) → db_ok (db st) → db st ≠ None → quiet ops (snd (init st)) →
  let st' := acc_run ops (snd (init st)) in s_users (sec (snd (init st'))) = s_users (sec st').
Proof.
  intros Hok Hd Hne Hq. pose proof (init_consistent st Hok Hd) as Hc. apply restart_synced; [by apply run_consistent|].
  apply run_synced; [done| |done]. by destruct (init_spec st Hok Hd) as (_ & _ & _ & _ & Hdb); apply Hdb.
Qed.

(** ** Authority *)
(** [u] is the account of the session, [old] its password. *)
Definition own_account st u (old : bytes) : Prop :=
  u_uid u = s_session_uid (sec st) ∧ u_pass_hash u = password_hash (u_name u) old.

Definition change_allowed st (op : acc_op) us' : Prop :=
  can_admin (current_credentials st) = true ∨
  match op with
  | OpChangePassword old new =>
      ∃ i u, s_users (sec st) !! i = Some u ∧ own_account st u old ∧
        us' = <[i := set_pass_hash (password_hash (u_name u) new) u]> (s_users (sec st))
  | OpFirstRun _ _ _ => first_run_required st = true
  | OpRecoveryReset => us' = fst (restored_users (s_users (sec st)))
  | _ => False
  end.

(** C35: An operation changes the users only when the caller is an
    administrator, when it replaces the password of the account that is logged
    in and the old password was given (and then it changes nothing but that
    password), when it is the first-run setup and the default administrator
    still has the default password, or when it is the reset of the recovery
    console, which asks for no authority and makes root the default administrator
    again, with every other account as it was.  A restart, which loads the users
    from disk, is not such an operation. *)
Theorem account_changes_authorised op st :
  op ≠ OpRestart → accounts_ok (s_users (sec st)) → kfs_ok (files st) →
  let us' := s_users (sec (snd (acc_exec op st))) in us' = s_users (sec st) ∨ change_allowed st op us'.
Proof.
  intros Hop Ha Hk. destruct (exec_causes op st Hop (conj Ha Hk)) as (io & He & _).
  set (us' := s_users (sec (snd (acc_exec op st)))) in *. clearbody us'. revert He. generalize (session_of (snd (acc_exec op st))).
  intros c He. unfold change_allowed, own_account. destruct He as [| | | | | | | | | |[Hadm|Hrec]]; try (by left); try (by right; left).
  all: destruct op; try done; simplify_eq/=; right; right; eauto 10.
Qed.

(** ** The session *)
(** The session is that of an account, with the capabilities of its role or
    those of a plain user. *)
Definition session_ok us (c : Credentials) : Prop :=
  ∃ u, u ∈ us ∧ u_uid u = cr_uid c ∧ (cr_caps c = caps_for_role (u_role u) ∨ cr_caps c = CAP_INTERACTIVE_USER).

Lemma session_creds us u : u ∈ us → session_ok us (creds_of u).
Proof. intros Hu. exists u. split_and!; [done|done|by left]. Qed.

Lemma session_mono us us' c :
  (∀ u, u ∈ us → u_uid u = cr_uid c → ∃ u', u' ∈ us' ∧ u_uid u' = u_uid u ∧ caps_for_role (u_role u') = caps_for_role (u_role u)) →
  session_ok us c → session_ok us' c.
Proof.
  intros Hm (u & Hu & Eu & Hc). destruct (Hm u Hu Eu) as (u' & Hu' & E' & Er). exists u'. rewrite E', Er. done.
Qed.

Lemma session_insert us i u u' c :
  us !! i = Some u → u_uid u' = u_uid u → (u_uid u = cr_uid c → u_role u' = u_role u) → session_ok us c → session_ok (<[i := u']> us) c.
Proof.
  intros Hi Eu Er. apply session_mono. intros v [j Hj]%list_elem_of_lookup Hv. destruct (decide (i = j)) as [->|Hne].
  - exists u'. assert (u = v) as <- by congruence. split_and!; [|done|by rewrite Er]. apply list_elem_of_lookup. exists j.
    apply list_lookup_insert_eq. by eapply lookup_lt_Some.
  - exists v. split_and!; [|done|done]. apply list_elem_of_lookup. exists j. by rewrite list_lookup_insert_ne.
Qed.

Lemma disable_default_role u : u_uid (disable_default u) = u_uid u ∧ u_role (disable_default u) = u_role u.
Proof. unfold disable_default. by case_if. Qed.

(** Restoring the default administrator makes it an administrator again. *)
Lemma session_restore us c : accounts_ok us → session_ok us c → session_ok (fst (restored_users us)) c.
Proof.
  intros Hok Hs. unfold restored_users. destruct (position is_root_account us) as [i|] eqn:Ep.
  2: { destruct (acc_root us Hok) as (r & Hr & _ & Eu). rewrite position_None in Ep. specialize (Ep r Hr).
       unfold is_root_account in Ep. by rewrite (proj2 (has_uid_eq _ _) Eu) in Ep. }
  apply position_Some in Ep as (u & Hi & Hu & _). rewrite Hi. destruct (unique_root us i u Hok Hi Hu) as [_ Eu].
  assert (session_ok (<[i := default_admin_user]> us) c) as Hs'.
  { destruct Hs as (v & [j Hj]%list_elem_of_lookup & Ev & Hc). destruct (decide (i = j)) as [->|Hne].
    - exists default_admin_user. assert (u = v) as <- by congruence. split_and!.
      + apply list_elem_of_lookup. exists j. apply list_lookup_insert_eq. by eapply lookup_lt_Some.
      + by rewrite <- Ev, Eu.
      + destruct Hc as [Hc|Hc]; [|by right]. destruct (st_role u) as [Er|Er]; [by apply (proj1 (Forall_lookup _ _) (acc_store us Hok) j)|..];
          rewrite Er in Hc; [by left|by right].
    - exists v. split_and!; [|done|done]. apply list_elem_of_lookup. exists j. by rewrite list_lookup_insert_ne. }
  assert (∀ us, session_ok us c → session_ok (fst (if existsb (has_uid GUEST_UID) us then (us, true) else (us ++ [default_guest_user], true))) c) as Hg.
  { intros us' H'. case_if; [done|]. revert H'. apply session_mono. intros v Hv _. exists v. split_and!; [|done|done].
    apply elem_of_app. by left. }
  case_if; [|by apply Hg]. specialize (Hg us Hs). by case_if.
Qed.

Lemma effect_session auth st us c :
  accounts_ok (s_users (sec st)) → effect auth st false us c → session_ok (s_users (sec st)) (session_of st) → session_ok us c.
Proof.
  intros Hok He Hs. destruct He as [|u Hu|i u old new _ Hi _ _|i u pw _ _ Hi _|raw nm pw v _ _ Hn Hd Hv Hf|raw nm pw raw' rl v _ Hn Hr Hd Hv Hf|
    i u en _ Hi Hen|i u raw rl _ Hi Hr Hen|i u pw _ Hi|i u _ Hi Hne _ _ _|_]; [done|by apply session_creds|..].
  - by apply (session_insert _ i u).
  - apply session_creds. apply list_elem_of_lookup. exists i. apply list_lookup_insert_eq. by eapply lookup_lt_Some.
  - apply session_creds, elem_of_app. right. by left.
  - revert Hs. apply session_mono. intros u Hu _. exists u. split_and!; [|done|done]. apply elem_of_app. by left.
  - by apply (session_insert _ i u).
  - case_decide as Ed; [|by apply (session_insert _ i u); [done|done|intros E; destruct Ed|done]].
    apply session_creds. apply list_elem_of_lookup. exists i. apply list_lookup_insert_eq. by eapply lookup_lt_Some.
  - by apply (session_insert _ i u).
  - revert Hs. apply session_mono. intros v Hv Ev. exists v. split_and!; [|done|done]. apply (elem_delete _ i u); [done|done|].
    intros ->. by destruct Hne.
  - by apply session_restore.
Qed.

Lemma default_session_in us : accounts_ok us → default_session_user us ∈ us.
Proof.
  intros Hok. unfold default_session_user.
  assert (∀ p u, find_user p us = Some u → u ∈ us) as Hin by (intros p u [Hu _]%find_some; by apply list_elem_of_In).
  destruct (find_user _ us) eqn:E; [by eapply Hin|]. destruct (find_user enabled_admin us) eqn:E'; [by eapply Hin|].
  destruct (acc_admin us Hok) as (u & Hu & Ha). apply list_elem_of_In in Hu. pose proof (find_none _ _ E' u Hu). congruence.
Qed.

Lemma exec_session op st :
  consistent st → session_ok (s_users (sec st)) (session_of st) → ¬ failed error_io (fst (acc_exec op st)) →
  let st' := snd (acc_exec op st) in session_ok (s_users (sec st')) (session_of st').
Proof.
  intros [Hg Hd] Hs Hf. destruct (restart_or_not op) as [->|Hop].
  - destruct (init_spec st (proj2 Hg) Hd) as ([Ha _] & _ & _ & Es & _). cbn [acc_exec]. unfold bind, attempt.
    destruct (init st) as [r st']. simpl in *. rewrite Es. by apply session_creds, default_session_in.
  - destruct (exec_causes op st Hop Hg) as ([] & He & Hio & _); [by destruct Hf; apply Hio|]. by eapply effect_session; [apply Hg|..].
Qed.

Lemma run_session ops st :
  consistent st → session_ok (s_users (sec st)) (session_of st) → quiet ops st →
  session_ok (s_users (sec (acc_run ops st))) (session_of (acc_run ops st)).
Proof.
  revert st. induction ops as [|op ops IH]; intros st Hc Hs Hq; [done|]. destruct Hq as [Hf Hq].
  apply IH; [by apply exec_consistent|by apply exec_session|done].
Qed.

(** As long as no operation reports an input/output error, the interactive
    session never keeps a privilege its account has lost: whenever it may
    administrate, the account it belongs to exists and has the administrator
    role. *)
Theorem session_within_role ops st :
  kfs_ok (files st) → db_ok (db st) → quiet ops (snd (init st)) →
  let st' := acc_run ops (snd (init st)) in
  can_admin (interactive_credentials st') = true →
  ∃ u, u ∈ s_users (sec st') ∧ u_uid u = s_session_uid (sec st') ∧ is_admin_record u = true.
Proof.
  intros Hok Hd Hq st' Hadm. pose proof (init_consistent st Hok Hd) as Hc. 
  destruct (init_spec st Hok Hd) as ([Ha0 _] & _ & _ & Es & _).
  destruct (run_session ops _ Hc ltac:(rewrite Es; by apply session_creds, default_session_in) Hq) as (u & Hu & Eu & Hcaps).
  fold st' in Hu, Eu, Hcaps. exists u. split_and!; [done|exact Eu|].
  destruct (run_consistent ops _ Hc) as [[Ha _] _]. fold st' in Ha.
  pose proof (st_uid u (proj1 (Forall_forall _ _) (acc_store _ Ha) u Hu)) as Huid.
  unfold can_admin, is_root, has_cap in Hadm. change (interactive_credentials st') with (session_of st') in Hadm.
  rewrite <- Eu in Hadm. replace (u_uid u =? ROOT_UID) with false in Hadm by (unfold USER_UID, ROOT_UID in *; lia).
  unfold caps_for_role, is_admin_record in *. destruct (is_admin_role (u_role u)); [done|].
  destruct Hcaps as [E|E]; rewrite E in Hadm; vm_compute in Hadm; discriminate.
Qed.
End claims.
