(* ===== verification/AccountsLogin.v ===== *)
(** * Logging in

    Wrong passwords are rate limited; a new account and a reset password work;
    the search for a free uid. *)
From S2P Require Import Prelude Text Clock Paths Security Accounts AccountsInv AccountsDb AccountsOps AccountsRun.
Set Warnings "-clear-no-such-hyp".

Local Open Scope Z_scope.
Local Open Scope st_scope.

Section login.
Context {W : Type} `{KernelFs W}.
Implicit Types (st : World W) (u : UserRecord) (us : list UserRecord) (la : LoginAttempt).

(** ** The record of failed logins *)
Definition attempt_of (nm : bytes) (s : SecurityState) : option LoginAttempt := List.find (has_attempt_name nm) (s_attempts s).

Lemma find_app {A} (p : A → bool) l k : List.find p (l ++ k) = match List.find p l with Some x => Some x | None => List.find p k end.
Proof. induction l as [|x l IH]; simpl; [done|]. by destruct (p x). Qed.

Lemma find_position {A} (p : A → bool) (l : list A) :
  List.find p l = match position p l with Some i => l !! i | None => None end.
Proof. induction l as [|x l IH]; simpl; [done|]. destruct (p x); [done|]. rewrite IH. by destruct (position p l). Qed.

Lemma find_alter {A} (p q : A → bool) (h : A → A) (l : list A) i x :
  (∀ x, p (h x) = p x) → (∀ x, q (h x) = q x) → position q l = Some i → l !! i = Some x →
  List.find p (alter h i l) = if p x && bool_decide (position p l = Some i) then Some (h x) else List.find p l.
Proof.
  intros Hp Hq. revert i. induction l as [|y l IH]; intros i; [done|]. simpl. destruct (q y).
  - intros [= <-] [= ->]. simpl. rewrite Hp. by destruct (p x).
  - destruct (position q l) as [j|] eqn:Eq; [|done]. intros [= <-]. simpl. intros Hx. destruct (p y) eqn:Ey.
    + by rewrite andb_false_r.
    + etransitivity; [by apply (IH j)|]. destruct (position p l) as [k|]; simpl; [|done].
      by rewrite (bool_decide_ext (Some (S k) = Some (S j)) (Some k = Some j)) by (split; congruence).
Qed.

Lemma same_attempt_name nm nm' la : fold_name nm = fold_name nm' → has_attempt_name nm la = has_attempt_name nm' la.
Proof.
  intros E. apply eq_bool_prop_intro. unfold has_attempt_name. rewrite !Is_true_true, !eq_ignore_fold. by rewrite E.
Qed.

Lemma fail_attempt_name now nm la : has_attempt_name nm (fail_attempt now la) = has_attempt_name nm la.
Proof. unfold fail_attempt. by case_if. Qed.

(** A failure counts for the name it was recorded under, and for no other. *)
Lemma record_failure now nm nm' s :
  attempt_of nm' (record_login_failure now nm s) =
  if eq_ignore_ascii_case nm nm'
  then Some (match attempt_of nm s with Some la => fail_attempt now la | None => {| la_name := nm; la_failures := 1; la_locked_until := 0 |} end)
  else attempt_of nm' s.
Proof.
  unfold attempt_of, record_login_failure. destruct (position _ _) as [i|] eqn:Ep.
  - pose proof (position_Some _ _ _ Ep) as (la & Hi & Hla & _). cbn [s_attempts with_attempts].
    rewrite (find_alter _ (has_attempt_name nm) _ _ i la) by (done || apply fail_attempt_name).
    rewrite (find_position (has_attempt_name nm)), Ep, Hi. destruct (eq_ignore_ascii_case nm nm') eqn:En.
    + apply eq_ignore_fold in En. rewrite <- (same_attempt_name nm nm' la En), Hla.
      assert (position (has_attempt_name nm') (s_attempts s) = Some i) as ->; [|by rewrite bool_decide_true].
      rewrite <- Ep. clear -En. induction (s_attempts s) as [|b l IH]; simpl; [done|]. rewrite IH.
      by rewrite (same_attempt_name nm nm' b En).
    + replace (has_attempt_name nm' la) with false; [done|]. symmetry. apply not_true_iff_false. unfold has_attempt_name in *.
      rewrite eq_ignore_fold in *. apply not_true_iff_false in En. rewrite eq_ignore_fold in En. congruence.
  - cbn [s_attempts with_attempts]. rewrite find_app, (find_position (has_attempt_name nm)), Ep. cbn [List.find].
    assert (has_attempt_name nm' {| la_name := nm; la_failures := 1; la_locked_until := 0 |} = eq_ignore_ascii_case nm nm') as -> by done.
    destruct (eq_ignore_ascii_case nm nm') eqn:En; [|by destruct (List.find _ _)].
    apply eq_ignore_fold in En. destruct (List.find _ _) as [la|] eqn:Ef; [|done]. apply find_some in Ef as [Hin Hla].
    apply list_elem_of_In in Hin. rewrite position_None in Ep. specialize (Ep la Hin). by rewrite (same_attempt_name nm nm' la En), Hla in Ep.
Qed.

Lemma clear_failures nm nm' s :
  attempt_of nm' (clear_login_failures nm s) = if eq_ignore_ascii_case nm nm' then None else attempt_of nm' s.
Proof.
  unfold attempt_of, clear_login_failures. cbn [s_attempts with_attempts]. induction (s_attempts s) as [|la l IH]; [by case_if|].
  simpl. destruct (has_attempt_name nm la) eqn:E; simpl; rewrite IH; destruct (eq_ignore_ascii_case nm nm') eqn:En.
  - done.
  - replace (has_attempt_name nm' la) with false; [done|]. symmetry. apply not_true_iff_false. unfold has_attempt_name in *.
    rewrite eq_ignore_fold in *. apply not_true_iff_false in En. rewrite eq_ignore_fold in En. congruence.
  - apply eq_ignore_fold in En. by rewrite <- (same_attempt_name nm nm' la En), E.
  - done.
Qed.

(** ** Operations that leave the record alone
    [still a m]: the record is [a] after [m] when it was [a] before. *)
Definition still {E A} (a : list LoginAttempt) (m : ST (World W) E A) : Prop :=
  ∀ st, s_attempts (sec st) = a → s_attempts (sec (snd (m st))) = a.

Lemma still_ret {E A} a (x : A) : still (E := E) a (ret x).
Proof. by intros st. Qed.
Lemma still_throw {E A} a (e : E) : still (A := A) a (throw e).
Proof. by intros st. Qed.
Lemma still_fails {A} a e : still (A := A) a (fails e).
Proof. by intros st. Qed.
Lemma still_bind {E A B} a (m : ST (World W) E A) (k : A → ST (World W) E B) : still a m → (∀ x, still a (k x)) → still a (bind m k).
Proof. intros Hm Hk st Ha. unfold bind. specialize (Hm st Ha). destruct (m st) as [[x|e] st']; [by apply Hk|done]. Qed.
Lemma still_get {E B} a (k : SecurityState → ST (World W) E B) : (∀ s, s_attempts s = a → still a (k s)) → still a (bind get_sec k).
Proof. intros Hk st Ha. by apply Hk. Qed.
Lemma still_put {E} a s : s_attempts s = a → still (E := E) a (put_sec s).
Proof. by intros Hs st. Qed.
Lemma still_attempt {E E' A} a (m : ST (World W) E A) : still a m → still a (attempt (E' := E') m).
Proof. intros Hm st Ha. specialize (Hm st Ha). unfold attempt. by destruct (m st) as [[]]. Qed.
Lemma still_map_err {E E' A} a (h : E → E') (m : ST (World W) E A) : still a m → still a (map_err h m).
Proof. intros Hm st Ha. specialize (Hm st Ha). unfold map_err. by destruct (m st) as [[]]. Qed.
Lemma still_lift {E A} a (r : result E A) : still a (lift_result r).
Proof. by intros st. Qed.
Lemma still_option {E A} a (e : E) (o : option A) : still a (lift_option e o).
Proof. destruct o; by intros st. Qed.
Lemma still_files {E A} a (m : ST W E A) : still a (on_files m).
Proof. intros st Ha. unfold on_files. by destruct (m (files st)). Qed.
Lemma still_session {E} a u : still (E := E) a (set_session_from_user u).
Proof. by intros st. Qed.
Lemma still_for_each {E A} a (h : A → ST (World W) E unit) l : (∀ x, still a (h x)) → still a (for_each h l).
Proof. intros Hh. induction l as [|x l IH]; [apply still_ret|]. apply still_bind; [apply Hh|]. intros _. exact IH. Qed.
(** What an operation does may depend on the state it starts in. *)
Lemma still_here {E A} a (m : World W → ST (World W) E A) : (∀ st, still a (m st)) → still a (λ st, m st st).
Proof. intros Hm st Ha. by apply Hm. Qed.
End login.

Create HintDb still.
#[export] Hint Resolve still_ret still_throw still_fails still_put still_attempt still_map_err still_lift still_option still_files still_session : still.

(** Follows the structure of an operation. *)
Ltac still :=
  repeat first
    [ progress intros | by eauto with still | apply still_get | apply still_bind | apply still_attempt | apply still_map_err | case_match ].

Section record.
Context {W : Type} `{KernelFs W}.
Implicit Types (st : World W) (u : UserRecord) (us : list UserRecord) (la : LoginAttempt).

Lemma still_persist a : still a (persist_users (W := W)).
Proof.
  apply (still_here a (λ st, attempt (on_files (kfs_create_dir (owners st) (str "/CONFIG"))) ;;!
    on_files (kfs_safe_write (owners st) USERS_PATH (users_text (s_users (sec st)))))). still.
Qed.

Lemma still_home_dirs {E} a : still a (ensure_home_dirs (W := W) (E := E)).
Proof.
  assert (∀ u, still a (ensure_home_dir (W := W) u)) as Hd.
  { intros u st Ha. unfold ensure_home_dir. case_if; [done|]. revert st Ha. apply (still_here a (λ st,
      attempt (E' := FsError) (on_files (kfs_create_dir (owners st) (u_home u))) ;;!
      attempt (E' := FsError) (on_files (kfs_chown (current_credentials st) (u_home u) (u_uid u) (u_gid u))) ;;!
      attempt (E' := FsError) (on_files (kfs_chmod (current_credentials st) (u_home u) 0x1c0)) ;;! ret tt)). still. }
  apply (still_here a (λ st, attempt (on_files (kfs_create_dir (owners st) (str "/Users"))) ;;!
     attempt (on_files (kfs_chown (current_credentials st) (str "/Users") ROOT_UID ROOT_GID)) ;;!
     attempt (on_files (kfs_chmod (current_credentials st) (str "/Users") DEFAULT_DIR_MODE)) ;;!
     attempt (for_each ensure_home_dir (s_users (sec st))) ;;! ret tt)).
  intros st. still. by apply still_for_each.
Qed.

Lemma still_write_state a s user device : still a (write_first_boot_state (W := W) s user device).
Proof.
  apply (still_here a (λ st, attempt (on_files (kfs_create_dir (owners st) (str "/CONFIG"))) ;;!
     on_files (kfs_safe_write (owners st) FIRST_BOOT_PATH (first_boot_text s user device)))). still.
Qed.

Lemma still_admin a : still a (require_admin_account (W := W)).
Proof. intros st Ha. unfold require_admin_account. by case_if. Qed.
End record.

#[export] Hint Resolve still_persist still_home_dirs still_write_state still_admin : still.

Section login.
Context {W : Type} `{KernelFs W}.
Implicit Types (st : World W) (u : UserRecord) (us : list UserRecord) (la : LoginAttempt).

Lemma still_account a nm s : still a (find_account (W := W) nm s).
Proof. unfold find_account. still. Qed.
Lemma still_restore a : still a (restore_default_handoff (W := W)).
Proof. unfold restore_default_handoff, persist_account. still. Qed.
Lemma still_repair a : still a (repair_first_boot_unchecked (W := W)).
Proof.
  pose proof (still_restore a). unfold repair_first_boot_unchecked, mark_required, mark_first_boot_required, mark_first_boot_complete, first_boot_file_state. still.
Qed.
Hint Resolve still_account still_restore still_repair : still.

(** The operations that touch the record of failed logins. *)
Definition touches (op : acc_op) : bool :=
  match op with OpRestart | OpLogin _ _ _ | OpReset _ _ => true | _ => false end.

Lemma exec_still a op : touches op = false → still a (acc_exec (W := W) op).
Proof.
  intros Ht. destruct op; try discriminate Ht; cbn [acc_exec];
    try (by intros st); apply still_bind; try (by intros; apply still_ret); try apply still_map_err; try apply still_attempt.
  - unfold change_password. still.
  - unfold complete_first_run_admin, check_password, first_run_root, first_run_new, persist_account, mark_first_boot_complete. still.
  - unfold create_user, check_password, persist_account. still.
  - unfold set_user_enabled, persist_account. still.
  - unfold set_user_role, persist_account. still.
  - unfold delete_user, persist_account. still.
  - unfold reset_first_boot_admin, reset_first_boot_unchecked, mark_required, mark_first_boot_required. still.
  - unfold repair_first_boot_admin. still.
  - unfold reset_first_boot_unchecked, mark_required, mark_first_boot_required. still.
  - still.
  - unfold ensure_first_boot_boot_consistency, first_boot_file_state, mark_first_boot_required, mark_first_boot_complete. still.
  - intros st Ha. unfold mark_first_boot_in_progress, mark_first_boot_complete. case_if; by apply still_write_state.
  - unfold mark_first_boot_complete. still.
  - unfold set_session_for_test. still.
Qed.

(** ** Guessing *)
Definition is_wrong (r : result AuthError User) : bool := match r with Err BadPassword => true | _ => false end.

(** A login that compared a wrong password with the one of [nm]. *)
Definition wrong_login (nm : bytes) (op : acc_op) st : bool :=
  match op with OpLogin now u password => eq_ignore_ascii_case u nm && is_wrong (fst (login now u password st)) | _ => false end.
Fixpoint wrong_logins (nm : bytes) (ops : list acc_op) st : Z :=
  match ops with
  | [] => 0
  | op :: ops => (if wrong_login nm op st then 1 else 0) + wrong_logins nm ops (snd (acc_exec op st))
  end.

(** An operation after which the failures of [nm] are forgotten: a login to that
    account, a new password an administrator gives it, a restart. *)
Definition forgives (nm : bytes) (op : acc_op) st : bool :=
  match op with
  | OpRestart => true
  | OpLogin now u password => eq_ignore_ascii_case u nm && is_ok (fst (login now u password st))
  | OpReset u _ => eq_ignore_ascii_case u nm
  | _ => false
  end.
Fixpoint unforgiven (nm : bytes) (ops : list acc_op) st : Prop :=
  match ops with [] => True | op :: ops => forgives nm op st = false ∧ unforgiven nm ops (snd (acc_exec op st)) end.

Definition LOCKOUT_TICKS : Z := ticks_for_millis LOGIN_LOCKOUT_MS.

(** The failures a name may still have before the end of a window. *)
Definition allowance (until : Z) (o : option LoginAttempt) : Z :=
  match o with
  | None => MAX_LOGIN_FAILURES
  | Some la => if until <=? la_locked_until la then 0 else MAX_LOGIN_FAILURES - la_failures la
  end.

(** The logins among the operations happen in the [LOCKOUT_TICKS] from [T] on. *)
Definition in_window (T : Z) (op : acc_op) : Prop :=
  match op with OpLogin now _ _ => T ≤ now < T + LOCKOUT_TICKS | _ => True end.

Definition attempt_ok (o : option LoginAttempt) : Prop :=
  match o with Some la => 0 ≤ la_failures la < MAX_LOGIN_FAILURES | None => True end.

Lemma fail_attempt_ok now la : 0 ≤ la_failures la < MAX_LOGIN_FAILURES → 0 ≤ la_failures (fail_attempt now la) < MAX_LOGIN_FAILURES.
Proof.
  unfold fail_attempt, saturating_add, MAX_LOGIN_FAILURES. intros. case_if; case_if; simpl; zbool; lia.
Qed.

(** What one login does to the records. *)
Lemma login_attempt now user password st :
  let (r, st') := login now user password st in
  sec st' = sec st ∧ is_wrong r = false ∧ is_ok r = false ∨
  (∃ nm', fold_name nm' = fold_name user ∧
     (is_wrong r = true ∧ login_locked now user (sec st) = false ∧ sec st' = record_login_failure now nm' (sec st)
      ∨ is_ok r = true ∧ s_attempts (sec st') = s_attempts (clear_login_failures nm' (sec st)))).
Proof.
  unfold login, bind, get_sec. destruct (login_locked _ _ _) eqn:El; [by left|].
  destruct (find_user _ _) as [u|] eqn:Ef; [|by left]. destruct (negb (u_login_enabled u)); [by left|].
  apply find_some in Ef as [_ Hu%has_user_name_fold].
  destruct (negb _); right; exists (u_name u); (split; [exact Hu|]); [left; by split_and!|by right].
Qed.

Lemma attempt_of_fold nm nm' s : fold_name nm = fold_name nm' → attempt_of nm s = attempt_of nm' s.
Proof.
  intros E. unfold attempt_of. induction (s_attempts s) as [|la l IH]; simpl; [done|]. by rewrite IH, (same_attempt_name nm nm' la E).
Qed.

(** A failed login, seen in the record of its name. *)
Definition failed_once (now : Z) (o o' : option LoginAttempt) : Prop :=
  match o with
  | Some la => (now <? la_locked_until la) = false ∧ o' = Some (fail_attempt now la)
  | None => ∃ nm, o' = Some {| la_name := nm; la_failures := 1; la_locked_until := 0 |}
  end.

Lemma login_record now user password st nm :
  let (r, st') := login now user password st in
  let o := attempt_of nm (sec st) in
  let o' := attempt_of nm (sec st') in
  let same := eq_ignore_ascii_case user nm in
  (o' = o ∧ same && is_wrong r = false) ∨ (same = true ∧ is_ok r = true ∧ is_wrong r = false ∧ o' = None) ∨
  (same = true ∧ is_wrong r = true ∧ failed_once now o o').
Proof.
  pose proof (login_attempt now user password st) as Hl. destruct (login now user password st) as [r st']. cbv zeta.
  destruct Hl as [(E & Hw & _)|(nm' & En & Hl)]; [left; by rewrite E, Hw, andb_false_r|].
  assert (eq_ignore_ascii_case nm' nm = eq_ignore_ascii_case user nm) as Hn.
  { apply eq_bool_prop_intro. by rewrite !Is_true_true, !eq_ignore_fold, En. }
  destruct Hl as [(Hw & Hl & E)|[Ho E]].
  - rewrite E, record_failure, Hn. destruct (eq_ignore_ascii_case user nm) eqn:Es; [|by left]. right; right. split_and!; [done|done|].
    apply eq_ignore_fold in Es. rewrite (attempt_of_fold nm' nm) by congruence. unfold login_locked in Hl.
    change (List.find (has_attempt_name user) (s_attempts (sec st))) with (attempt_of user (sec st)) in Hl.
    rewrite (attempt_of_fold _ nm _ Es) in Hl. unfold failed_once. destruct (attempt_of nm (sec st)); [done|]. by eexists.
  - assert (attempt_of nm (sec st') = attempt_of nm (clear_login_failures nm' (sec st))) as -> by (unfold attempt_of; by rewrite E).
    rewrite clear_failures, Hn. destruct (eq_ignore_ascii_case user nm); [right; left; by destruct r|by left].
Qed.

(** A reset clears the failures of the account it is for, if anything. *)
Lemma reset_record user password st nm :
  let st' := snd (acc_exec (OpReset user password) st) in
  attempt_of nm (sec st') = attempt_of nm (sec st) ∨
  (eq_ignore_ascii_case user nm = true ∧ attempt_of nm (sec st') = None).
Proof.
  cbv zeta. change (wp (acc_exec (OpReset user password)) (λ _ st', attempt_of nm (sec st') = attempt_of nm (sec st) ∨
    (eq_ignore_ascii_case user nm = true ∧ attempt_of nm (sec st') = None)) st).
  cbn [acc_exec]. apply wp_bind, wp_map_err. unfold reset_user_password, require_admin'. apply wp_bind, wp_map_err.
  unfold wp at 1, require_admin_account. destruct (can_admin _); [|by left]. cbn [fst snd].
  unfold check_password. apply wp_bind. destruct (valid_password password); [|by left].
  apply wp_bind, wp_get. apply wp_bind, wp_find_account; [|by left]. intros i u Hi Hu.
  apply wp_bind. unfold wp at 1. cbn [put_sec fst snd]. set (s' := clear_login_failures _ _).
  assert (∀ st2, s_attempts (sec st2) = s_attempts s' → attempt_of nm (sec st2) = attempt_of nm (sec st) ∨
    (eq_ignore_ascii_case user nm = true ∧ attempt_of nm (sec st2) = None)) as Hend.
  { intros st2 Ha. assert (attempt_of nm (sec st2) = attempt_of nm s') as -> by (unfold attempt_of; by rewrite Ha).
    unfold s'. rewrite clear_failures. cbn [u_name set_pass_hash]. apply has_user_name_fold in Hu. unfold folded in Hu.
    assert (eq_ignore_ascii_case (u_name u) nm = eq_ignore_ascii_case user nm) as ->
      by (apply eq_bool_prop_intro; by rewrite !Is_true_true, !eq_ignore_fold, Hu).
    destruct (eq_ignore_ascii_case user nm); [right|left]; done. }
  apply wp_bind. unfold wp at 1. match goal with |- context [persist_account ?st1] =>
    pose proof (still_map_err _ (λ _, Some AccIo) _ (still_persist (s_attempts s')) st1 eq_refl) as Hp;
    change (map_err _ persist_users st1) with (persist_account st1) in Hp; destruct (persist_account st1) as [[] st2] end;
    simpl in Hp; by apply Hend.
Qed.

Lemma init_record st : s_attempts (sec (snd (init st))) = [].
Proof.
  change (wp init (λ _ st', s_attempts (sec st') = []) st). unfold init. apply wp_bind, wp_attempt. unfold wp at 1.
  apply wp_bind. unfold wp at 1. cbn [fst snd].
  match goal with |- wp ?m _ ?st1 => assert (still [] m) as Hm by still; apply (Hm st1 eq_refl) end.
Qed.

(** What one operation does to the record of a name. *)
Lemma exec_record op st nm :
  let o := attempt_of nm (sec st) in
  let o' := attempt_of nm (sec (snd (acc_exec op st))) in
  (o' = o ∧ wrong_login nm op st = false) ∨ (forgives nm op st = true ∧ wrong_login nm op st = false ∧ attempt_ok o') ∨
  (wrong_login nm op st = true ∧ ∃ now user password, op = OpLogin now user password ∧ failed_once now o o').
Proof.
  destruct (touches op) eqn:Ht.
  2: { left. split; [|by destruct op]. unfold attempt_of. by rewrite (exec_still (s_attempts (sec st)) op Ht). }
  destruct op as [| |now user password| | | | | | |user password| | | | | | | | | |]; try discriminate Ht; cbn [wrong_login forgives].
  - right; left. split_and!; [done|done|]. cbn [acc_exec]. unfold bind at 1, attempt at 1.
    pose proof (init_record st) as E. unfold attempt_of.
    destruct (init st) as [[]]; simpl in *; by rewrite E.
  - pose proof (login_record now user password st nm) as Hr. cbn [acc_exec]. unfold plain, bind, map_err.
    destruct (login now user password st) as [r st']. cbn [fst] in *.
    assert (snd (match (match r with Ok a => (Ok a, st') | Err e => (Err (EAuth e), st') end) with
                 | (Ok x, s') => ret tt s' | (Err e, s') => (Err e, s') end) = st') as -> by (by destruct r).
    destruct Hr as [[E Hw]|[(Es & Ho & Hw & E)|(Es & Hw & Hf)]]; [by left|right; left|right; right].
    + rewrite Es, Ho, Hw, E. done.
    + rewrite Es, Hw. split; [done|]. by exists now, user, password.
  - destruct (reset_record user password st nm) as [E|[Es E]]; [by left|]. right; left. by rewrite E.
Qed.

Lemma exec_attempt_ok op st nm : attempt_ok (attempt_of nm (sec st)) → attempt_ok (attempt_of nm (sec (snd (acc_exec op st)))).
Proof.
  intros Hok. destruct (exec_record op st nm) as [[-> _]|[(_ & _ & ?)|(_ & now & user & password & _ & Hf)]]; [done|done|].
  unfold failed_once in Hf. destruct (attempt_of nm (sec st)) as [la|]; [|by destruct Hf as [? ->]].
  destruct Hf as [_ ->]. by apply fail_attempt_ok.
Qed.

Lemma run_attempt_ok ops st nm : attempt_ok (attempt_of nm (sec st)) → attempt_ok (attempt_of nm (sec (acc_run ops st))).
Proof. revert st. induction ops as [|op ops IH]; intros st Hok; [done|]. by apply IH, exec_attempt_ok. Qed.

(** One wrong password uses up one of the failures a window allows. *)
Lemma allowance_failed T now o o' :
  0 ≤ T → T ≤ now < T + LOCKOUT_TICKS → T + 2 * LOCKOUT_TICKS ≤ 2 ^ 64 → attempt_ok o → failed_once now o o' →
  1 + allowance (T + LOCKOUT_TICKS) o' ≤ allowance (T + LOCKOUT_TICKS) o.
Proof.
  intros HT Hnow Hmax Hok Hf. assert (LOCKOUT_TICKS = 1440) as EL by reflexivity. unfold failed_once in Hf.
  destruct o as [la|]; [|destruct Hf as [nm ->]; simpl; unfold MAX_LOGIN_FAILURES; case_if; zbool; lia].
  destruct Hf as [Hl ->]. zbool. simpl in Hok. unfold MAX_LOGIN_FAILURES in *.
  unfold allowance. rewrite (proj2 (Z.leb_gt (T + LOCKOUT_TICKS) (la_locked_until la))) by lia.
  unfold fail_attempt. rewrite (proj2 (Z.leb_le (la_locked_until la) now)) by lia. unfold saturating_add, MAX_LOGIN_FAILURES.
  destruct (3 <=? _) eqn:E3; zbool; cbn [la_failures la_locked_until].
  - change (ticks_for_millis LOGIN_LOCKOUT_MS) with LOCKOUT_TICKS. unfold wrapping_add. rewrite Z.mod_small by lia.
    rewrite (proj2 (Z.leb_le (T + LOCKOUT_TICKS) (now + LOCKOUT_TICKS))) by lia. lia.
  - rewrite (proj2 (Z.leb_gt (T + LOCKOUT_TICKS) (la_locked_until la))) by lia. lia.
Qed.

Lemma allowance_bounds T o : attempt_ok o → 0 ≤ allowance T o ≤ MAX_LOGIN_FAILURES.
Proof. unfold allowance, attempt_ok, MAX_LOGIN_FAILURES. destruct o; [case_if|]; lia. Qed.

Lemma wrong_logins_bound T nm ops st :
  0 ≤ T → T + 2 * LOCKOUT_TICKS ≤ 2 ^ 64 → Forall (in_window T) ops →
  attempt_ok (attempt_of nm (sec st)) → unforgiven nm ops st →
  wrong_logins nm ops st ≤ allowance (T + LOCKOUT_TICKS) (attempt_of nm (sec st)).
Proof.
  intros HT Hmax Hl. revert st. induction Hl as [|op ops Hg _ IH]; intros st Hok Hu; [apply allowance_bounds, Hok|].
  cbn [wrong_logins unforgiven] in *. destruct Hu as [Hs Hu]. specialize (IH _ (exec_attempt_ok op st nm Hok) Hu).
  destruct (exec_record op st nm) as [[E ->]|[(Hf & _)|(Hw & now & user & password & -> & Hf)]].
  - rewrite E in IH. lia.
  - congruence.
  - rewrite Hw. pose proof (allowance_failed T _ _ _ HT Hg Hmax Hok Hf). lia.
Qed.


(** [change_password] leaves the record of failed logins as it is, however often
    the old password is wrong. *)
Theorem change_password_not_limited old new st :
  s_attempts (sec (snd (change_password old new st))) = s_attempts (sec st).
Proof. assert (still (s_attempts (sec st)) (change_password (W := W) old new)) as Hs by (unfold change_password; still). by apply Hs. Qed.
End login.

Section access.
Context {W : Type} `{KernelFsSpec W}.
Implicit Types (st : World W) (u : UserRecord) (us : list UserRecord).

(** ** The right password *)
Lemma find_user_last us u nm :
  accounts_ok us → u ∈ us → fold_name nm = folded u → find_user (has_user_name nm) us = Some u.
Proof.
  intros Hok Hu En. unfold find_user. destruct (List.find _ us) as [v|] eqn:Ef.
  - apply find_some in Ef as [Hv%list_elem_of_In Hn%has_user_name_fold]. f_equal.
    apply list_elem_of_lookup in Hu as [i Hi]. apply list_elem_of_lookup in Hv as [j Hj].
    assert (i = j) as ->; [|congruence].
    apply (NoDup_lookup (folded <$> us) i j (folded u)); [apply Hok|..]; rewrite list_lookup_fmap; [by rewrite Hi|].
    rewrite Hj. simpl. congruence.
  - apply list_elem_of_In in Hu. pose proof (find_none _ _ Ef u Hu) as Hn. by rewrite (proj2 (has_user_name_fold _ _) (eq_sym En)) in Hn.
Qed.

(** The account that has just been stored can log in. *)
Lemma login_ok now nm password st u :
  accounts_ok (s_users (sec st)) → u ∈ s_users (sec st) → fold_name nm = folded u → u_login_enabled u = true →
  u_pass_hash u = password_hash (u_name u) password → login_locked now nm (sec st) = false →
  ∃ st', login now nm password st = (Ok (public_user u), st') ∧ interactive_credentials st' = creds_of u.
Proof.
  intros Hok Hu En He Hp Hl. unfold login, bind, get_sec. rewrite Hl, (find_user_last _ u nm) by done. rewrite He. cbn [negb].
  rewrite Hp, Z.eqb_refl. cbn [negb]. by eexists.
Qed.

(** After the users in memory became those of [s]: what follows leaves [s] alone. *)
Lemma wp_committed {A} (k : ST (World W) (option AccountError) A) (x : A) st s Q :
  accounts_ok (s_users s) → kfs_ok (files st) → files_only k → (∀ st1 y st2, k st1 = (Ok y, st2) → y = x) →
  (∀ st', sec st' = s → Q (Ok x) st') → (∀ e st', Q (Err e) st') →
  wp (put_sec s ;;! persist_account ;;! k) Q st.
Proof.
  intros Ha Hk Hf Hx HQ He. apply wp_bind. unfold wp at 1. cbn [put_sec fst snd]. apply wp_bind, wp_map_err, wp_persist_users; [by split| |intros; apply He].
  intros st2 [Es _ Hok _]. pose proof (fo_at k st2 Hf) as Hs. specialize (Hx st2). unfold wp. destruct (k st2) as [[y|e] st3]; [|apply He].
  destruct Hs as [Es3 _ _ _]; [by split; [rewrite Es|]|]. cbn [fst snd] in *. rewrite (Hx _ _ eq_refl). apply HQ. by rewrite Es3, Es.
Qed.

(** An account with this name and password that can log in. *)
Definition usable (usr : User) (password : bytes) us : Prop :=
  accounts_ok us ∧ ∃ u, u ∈ us ∧ usr = public_user u ∧ u_pass_hash u = password_hash (u_name u) password.

Lemma create_user_ok fuel nm password rl st :
  good st → wp (create_user fuel nm password rl) (λ r st', ∀ usr, r = Ok usr →
    usable usr password (s_users (sec st')) ∧ login_enabled usr = true) st.
Proof.
  intros Hg. unfold create_user, require_admin'. apply wp_bind, wp_map_err. unfold wp at 1, require_admin_account.
  destruct (can_admin _) eqn:Ha; [|done]. cbn [fst snd].
  apply wp_bind, wp_map_err, wp_lift_result. destruct (clean_user_name nm) as [nm'|] eqn:En; [|done].
  unfold check_password. apply wp_bind. destruct (valid_password password); [|done].
  apply wp_bind, wp_map_err, wp_lift_result. destruct (clean_role rl) as [rl'|] eqn:Er; [|done].
  apply wp_bind, wp_get. destruct (existsb _ _) eqn:Ed; [done|].
  destruct (next_available_uid fuel _) as [v|] eqn:Ev; [|done]. apply next_available_fresh in Ev as [Hv Hf].
  set (u := new_account nm' rl' password v).
  assert (accounts_ok (s_users (sec st) ++ [u])) as Hok.
  { apply (effect_accounts ByCaller st false _ (session_of st) (proj1 Hg)). by apply (eff_create ByCaller st false nm nm' password rl rl' v). }
  apply (wp_committed _ (public_user u)); [done|apply Hg| | | |done].
  - apply fo_bind; [apply fo_ensure_home_dirs|]. intros _. apply fo_ret.
  - intros st1 y st2. unfold bind. destruct (ensure_home_dirs st1) as [[] ?]; [|done]. intros [= <-]. done.
  - intros st' -> usr [= <-]. split; [|done]. split; [done|]. exists u. split_and!; [|done|done]. apply elem_of_app. right. by left.
Qed.

Lemma reset_user_password_ok nm password st :
  good st → wp (reset_user_password nm password) (λ r st', ∀ usr, r = Ok usr →
    usable usr password (s_users (sec st')) ∧ attempt_of (name usr) (sec st') = None) st.
Proof.
  intros Hg. unfold reset_user_password, require_admin'. apply wp_bind, wp_map_err. unfold wp at 1, require_admin_account.
  destruct (can_admin _) eqn:Ha; [|done]. cbn [fst snd].
  unfold check_password. apply wp_bind. destruct (valid_password password); [|done].
  apply wp_bind, wp_get. apply wp_bind, wp_find_account; [|done]. intros i u Hi Hu.
  set (u' := set_pass_hash (password_hash (u_name u) password) u).
  assert (accounts_ok (<[i := u']> (s_users (sec st)))) as Hok.
  { apply (effect_accounts ByCaller st false _ (session_of st) (proj1 Hg)). by apply (eff_reset ByCaller st false i u password). }
  apply (wp_committed _ (public_user u')); [done|apply Hg|apply fo_ret| | |done].
  - by intros st1 y st2 [= <-].
  - intros st' -> usr [= <-]. split.
    + split; [done|]. exists u'. split_and!; [|done|done]. apply list_elem_of_lookup. exists i. apply list_lookup_insert_eq. by eapply lookup_lt_Some.
    + rewrite clear_failures. cbn [name public_user u_name u' set_pass_hash].
      by rewrite (proj2 (eq_ignore_fold (u_name u) (u_name u)) eq_refl).
Qed.

(** The session of [usr]: its ids, and the capabilities of its role. *)
Definition session_for (usr : User) : Credentials :=
  {| cr_uid := uid usr; cr_gid := gid usr; cr_caps := caps_for_role (role usr) |}.

Lemma usable_login now nm password usr st :
  usable usr password (s_users (sec st)) → login_enabled usr = true → fold_name nm = fold_name (name usr) →
  login_locked now (name usr) (sec st) = false →
  ∃ st', login now nm password st = (Ok usr, st') ∧ interactive_credentials st' = session_for usr.
Proof.
  intros (Hok & u & Hu & -> & Hp) He En Hl. apply (login_ok now nm password st u); try done.
  assert (attempt_of nm (sec st) = attempt_of (name (public_user u)) (sec st)) as E by (by apply attempt_of_fold).
  unfold login_locked, attempt_of in *. by rewrite E.
Qed.

(** An account an administrator creates works: when [create_user] succeeds,
    logging in with that name, in any case, and that password succeeds at any
    time the name is not locked, and the session has the ids of the account and
    the capabilities of its role. *)
Theorem create_user_login fuel nm password rl st usr st1 now nm' :
  accounts_ok (s_users (sec st)) → kfs_ok (files st) → create_user fuel nm password rl st = (Ok usr, st1) →
  fold_name nm' = fold_name (name usr) → login_locked now (name usr) (sec st1) = false →
  ∃ st2, login now nm' password st1 = (Ok usr, st2) ∧ interactive_credentials st2 = session_for usr.
Proof.
  intros Ha Hk Ec En Hl. pose proof (create_user_ok fuel nm password rl st (conj Ha Hk)) as Hc. unfold wp in Hc. rewrite Ec in Hc.
  destruct (Hc usr eq_refl) as [Hu He]. by apply usable_login.
Qed.

(** A password an administrator resets works at once: when
    [reset_user_password] succeeds on an enabled account, logging in with the
    new password succeeds at any time, also when the name was locked. *)
Theorem reset_password_login nm password st usr st1 now nm' :
  accounts_ok (s_users (sec st)) → kfs_ok (files st) → reset_user_password nm password st = (Ok usr, st1) →
  login_enabled usr = true → fold_name nm' = fold_name (name usr) →
  ∃ st2, login now nm' password st1 = (Ok usr, st2) ∧ interactive_credentials st2 = session_for usr.
Proof.
  intros Ha Hk Ec He En. pose proof (reset_user_password_ok nm password st (conj Ha Hk)) as Hc. unfold wp in Hc. rewrite Ec in Hc.
  destruct (Hc usr eq_refl) as [Hu Hl]. apply usable_login; [done..|]. unfold login_locked. unfold attempt_of in Hl. cbn [snd] in Hl.
  by rewrite Hl.
Qed.
End access.

(** ** The search for a uid *)
Lemma first_uid_free us : Forall storable us → (∀ u, u ∈ us → u_uid u ≠ 2 ^ 32 - 1) → existsb (has_uid (first_uid us)) us = false.
Proof.
  intros Hs Hne. apply not_true_iff_false. intros (u & Hu%list_elem_of_In & E%has_uid_eq)%existsb_exists.
  pose proof (max_uid_spec us) as Hm. unfold first_uid, saturating_add in E. specialize (Hne u Hu).
  pose proof (st_uid u (proj1 (Forall_forall _ _) Hs u Hu)). unfold USER_UID, GUEST_UID in *.
  destruct (max_uid us) as [m|]; simpl in E; [destruct Hm as (_ & _ & Hm)|]; specialize (Hm u Hu); lia.
Qed.

Lemma uid_search_stuck us fuel : (∃ u, u ∈ us ∧ u_uid u = 2 ^ 32 - 1) → next_uid_loop fuel us (2 ^ 32 - 1) = None.
Proof.
  intros (u & Hu & E). induction fuel as [|fuel IH]; [done|]. cbn [next_uid_loop].
  replace (existsb (has_uid (2 ^ 32 - 1)) us) with true; [exact IH|]. symmetry. apply existsb_exists. exists u.
  split; [by apply list_elem_of_In|by apply has_uid_eq].
Qed.

(** The search for a free uid ends, after its first look at the accounts,
    exactly when no account has the largest uid; when one has, it never ends,
    and [create_user] with it. *)
Theorem uid_search_ends us :
  accounts_ok us →
  if existsb (has_uid (2 ^ 32 - 1)) us then ∀ fuel, next_available_uid fuel us = None
  else next_available_uid 1 us = Some (first_uid us).
Proof.
  intros Hok. destruct (existsb _ us) eqn:E.
  - apply existsb_exists in E as (u & Hu%list_elem_of_In & Eu%has_uid_eq). intros fuel. unfold next_available_uid.
    assert (first_uid us = 2 ^ 32 - 1) as ->; [|apply uid_search_stuck; by exists u].
    unfold first_uid, saturating_add. pose proof (max_uid_spec us) as Hm. destruct (max_uid us) as [m|]; simpl.
    + destruct Hm as (_ & _ & Hm). specialize (Hm u Hu). lia.
    + specialize (Hm u Hu). unfold GUEST_UID in *. lia.
  - unfold next_available_uid. cbn [next_uid_loop]. rewrite first_uid_free; [done|apply Hok|]. intros u Hu Eu.
    apply not_true_iff_false in E. destruct E. apply existsb_exists. exists u. split; [by apply list_elem_of_In|by apply has_uid_eq].
Qed.
