(* ===== verification/AccountsVfs.v ===== *)
(** * The accounts on the virtual file system

    [KernelFs] is implemented by the kernel operations of [Vfs]; on a mounted
    CoolFS volume they satisfy [KernelFsSpec], so that everything proved of the
    account system holds on it. *)
From S2P Require Import Prelude DiskLayout Storage Text Clock Paths Security BlockCache CoolImage CoolMem CoolFile CoolContent CoolFs CoolDir CoolTree CoolMount CoolQuery CoolSafe Vfs VfsAccess VfsOps Accounts AccountsInv AccountsDb AccountsOps AccountsRun AccountsLogin.
Set Warnings "-clear-no-such-hyp".

Local Open Scope Z_scope.
Local Open Scope st_scope.

#[export] Instance vfs_kernel_fs {V F} `{SectorStore V} `{Fat32 F} : KernelFs (Fs V F) := {
  kfs_create_dir own p := vfs_kernel_create_dir own p;
  kfs_safe_write own p data := vfs_kernel_safe_write_file own p data;
  kfs_read p := vfs_kernel_read_file p;
  kfs_chown c p v g := vfs_chown c p v g;
  kfs_chmod c p mode := vfs_chmod c p mode }.

Section spec.
Context {V F : Type} `{ReliableStore V} `{Fat32Bytes F}.
Context (Hwindow : TOTAL_BLOCKS * SECTORS_PER_BLOCK ≤ swindow).
Context (sb : Superblock) (Hwf : sb_wf sb).
Implicit Types (f g : mem) (w : Fs V F).
Abbreviation tree := (tree sb).

Definition on_volume w : Prop := ∃ f, mounted sb (cool w) f.

(** The contents of the file at a path. *)
Definition file_data (o : option node) : option bytes :=
  match o with Some n => if is_file_node n then Some (n_data n) else None | None => None end.

Lemma config_parts q :
  q ∈ config_files → ∃ nm, normalize_path q = render_path [str "CONFIG"; nm] ∧ Forall part_ok [str "CONFIG"; nm] ∧
    fat_parts [str "CONFIG"; nm] = false ∧ fold_name nm ≠ fold_name (str "CWTMP.TMP") ∧ components q = [str "CONFIG"; nm] ∧
    split_parent_and_name (render_path [str "CONFIG"; nm]) = Ok (str "/CONFIG", nm).
Proof.
  intros [->|[->|[]%not_elem_of_nil]%elem_of_cons]%elem_of_cons.
  - exists (str "USERS.DB"). split_and!; try done. by repeat constructor.
  - exists (str "FIRSTBOOT.CFG"). split_and!; try done. by repeat constructor.
Qed.

Lemma content_tree w f q :
  mounted sb (cool w) f → q ∈ config_files → kfs_content w q = file_data (tree f (components q)).
Proof.
  intros Hm Hq. destruct (config_parts q Hq) as (nm & En & Hps & Hfat & _ & Ec & _). rewrite Ec.
  unfold kfs_content. cbn [kfs_read vfs_kernel_fs]. unfold vfs_kernel_read_file. rewrite En.
  destruct (vs_read Hwindow sb Hwf f _ Hps w Hm) as (r & w' & g & -> & _ & _ & _ & Hr). cbn [fst]. rewrite Hr by done.
  unfold file_data. destruct (tree f _) as [n|]; [|done]. by destruct (is_file_node n).
Qed.

(** An operation whose changes of the tree leave the contents of files alone. *)
Lemma vsafe_same {E A} (m : ST (Fs V F) E A) w :
  (∀ f, vsafe sb m f (λ _ g, ∀ q, file_data (tree g q) = file_data (tree f q))) → on_volume w →
  on_volume (snd (m w)) ∧ kfs_same w (snd (m w)).
Proof.
  intros Hm [f Hf]. destruct (Hm f w Hf) as (r & w' & g & -> & Hg & Hs). split; [by exists g|]. intros q Hq. cbn [snd].
  by rewrite (content_tree w' g), (content_tree w f), Hs.
Qed.

Lemma default_owner_ok own path v k : owner_ok own → default_owner_for_path own path = (v, k) → u32 v ∧ u32 k.
Proof.
  intros Ho. unfold default_owner_for_path. destruct (own path) as [[]|] eqn:E; [intros [= <- <-]; by eapply Ho|]. case_if; by intros [= <- <-].
Qed.

Lemma create_dir_same own p w :
  owner_ok own → on_volume w → let w' := snd (kfs_create_dir own p w) in on_volume w' ∧ kfs_same w w'.
Proof.
  intros Ho. cbn [kfs_create_dir vfs_kernel_fs]. apply vsafe_same. intros f. unfold vfs_kernel_create_dir.
  rewrite normalize_path_render. set (ps := path_parts p). assert (Forall part_ok ps) as Hps by apply path_parts_ok.
  destruct (default_owner_for_path own (render_path ps)) as [v k] eqn:Eo. destruct (default_owner_ok _ _ _ _ Ho Eo) as [Hv Hk].
  unfold create_dir_for, create_dir_with_metadata. eapply vsafe_conseq; [apply (vs_create Hwindow sb f KIND_DIR); [done|by right|done|done|]|].
  { unfold default_mode_for_path. by repeat case_if. }
  intros r g' _ [Hfat Hr] q. destruct (fat_parts ps); [by rewrite Hfat|]. destruct r; [|by rewrite Hr].
  destruct (Hr eq_refl) as [En Ht]. rewrite Ht. unfold tree_set. case_decide as Eq; [|done]. by rewrite (tree_fold sb f q ps Eq), En.
Qed.

Lemma update_same f ps (op : ST (CoolFs V) FsError unit) (h : node → node) :
  Forall part_ok ps → (∀ n, file_data (Some (h n)) = file_data (Some n)) →
  (∀ c, mounted sb c f → ∃ r c' g, op c = (r, c') ∧ mounted sb c' g ∧ update_spec (render_path ps) h (tree f) r (tree g)) →
  vsafe sb (dispatch (F := F) (render_path ps) (λ _, throw UnsupportedName) op) f (λ _ g, ∀ q, file_data (tree g q) = file_data (tree f q)).
Proof.
  intros Hps Hh Hop. eapply vsafe_conseq; [by apply (vs_update sb f ps op h)|]. intros r g _ Hg q.
  destruct Hg as [Hg|(_ & n & Hn & Hg)]; rewrite Hg; [done|]. unfold tree_set. case_decide as Eq; [|done].
  rewrite (tree_fold sb f q ps Eq), Hn. apply Hh.
Qed.

Lemma chown_same c p v (k : Z) w :
  u32 v → u32 k → on_volume w → let w' := snd (kfs_chown c p v k w) in on_volume w' ∧ kfs_same w w'.
Proof.
  intros Hv Hg. cbn [kfs_chown vfs_kernel_fs]. apply vsafe_same. intros f. unfold vfs_chown. rewrite normalize_path_render.
  case_if; [by apply vsafe_throw|]. apply (update_same f _ _ (node_owner v k)); [apply path_parts_ok|done|].
  intros co Hc. destruct (chown_refines Hwindow sb co f (render_path (path_parts p)) v k Hc Hv Hg) as (r & c' & g' & ? & ? & _ & ?).
  by exists r, c', g'.
Qed.

Lemma chmod_same c p mode w :
  0 ≤ mode → on_volume w → let w' := snd (kfs_chmod c p mode w) in on_volume w' ∧ kfs_same w w'.
Proof.
  intros Hmode. cbn [kfs_chmod vfs_kernel_fs]. apply vsafe_same. intros f. unfold vfs_chmod. rewrite normalize_path_render.
  apply vsafe_bind. eapply vsafe_conseq; [apply (vs_metadata_ok Hwindow sb Hwf), path_parts_ok|]. intros [m|e] g _ [-> _]; [|done].
  case_if; [by apply vsafe_throw|]. apply (update_same f _ _ (node_mode mode)); [apply path_parts_ok|done|].
  intros co Hc. destruct (chmod_refines Hwindow sb co f (render_path (path_parts p)) mode Hc Hmode) as (r & c' & g' & ? & ? & _ & ?).
  by exists r, c', g'.
Qed.

Lemma config_read_same p w : on_volume w → let w' := snd (kfs_read p w) in on_volume w' ∧ kfs_same w w'.
Proof.
  cbn [kfs_read vfs_kernel_fs]. apply vsafe_same. intros f. unfold vfs_kernel_read_file. rewrite normalize_path_render.
  eapply vsafe_conseq; [apply (vs_read Hwindow sb Hwf), path_parts_ok|]. by intros r g _ [-> _].
Qed.

(** ** Replacing a configuration file *)
Lemma config_apart q q' :
  q ∈ config_files → q' ∈ config_files → q' ≠ q → fold_path (components q') ≠ fold_path (components q).
Proof.
  intros [->|[->|[]%not_elem_of_nil]%elem_of_cons]%elem_of_cons [->|[->|[]%not_elem_of_nil]%elem_of_cons]%elem_of_cons Hne E; by vm_compute in E.
Qed.

Lemma config_not_temporary q : q ∈ config_files → fold_path (components q) ≠ fold_path (components (tmp_path (str "/CONFIG"))).
Proof. intros [->|[->|[]%not_elem_of_nil]%elem_of_cons]%elem_of_cons E; by vm_compute in E. Qed.

Lemma safe_write_for_config f q data v k mode :
  q ∈ config_files → Forall is_byte data → u32 v → u32 k → 0 ≤ mode →
  vsafe sb (safe_write_file_for (F := F) (normalize_path q) data v k mode) f (λ r g,
    (∀ q', q' ∈ config_files → q' ≠ q → tree g (components q') = tree f (components q')) ∧
    file_data (tree g (components q)) = match r with Ok _ => Some data | Err _ => file_data (tree f (components q)) end).
Proof.
  intros Hq Hby Hv Hk Hm. destruct (config_parts q Hq) as (nm & -> & Hps & Hfat & Htmp & Ec & Hsp).
  apply vsafe_dispatch; [done|by rewrite Hfat|]. intros _. apply vsafe_on_cool. intros c Hc.
  destruct (safe_write_refines Hwindow sb Hwf c f (render_path [str "CONFIG"; nm]) data v k mode Hc Hby Hv Hk Hm)
    as (r & c' & g & E' & Hc' & Hspec). rewrite Hsp, components_render, <- Ec in Hspec by done. destruct Hspec as (Hoth & _ & Hrep).
  exists r, c', g. split_and!; [done|done|..].
  - intros q' Hq' Hne. apply Hoth; [by apply config_apart|by apply config_not_temporary].
  - destruct (Hrep (not_eq_sym Htmp)) as [_ Hr]. destruct r; [destruct Hr as [-> _]; done|by rewrite Hr].
Qed.

Lemma safe_write_same own q data w :
  owner_ok own → q ∈ config_files → Forall is_byte data → on_volume w →
  let '(r, w') := kfs_safe_write own q data w in
  on_volume w' ∧ (∀ q', q' ∈ config_files → q' ≠ q → kfs_content w' q' = kfs_content w q') ∧
  kfs_content w' q = match r with Ok _ => Some data | Err _ => kfs_content w q end.
Proof.
  intros Ho Hq Hby [f Hf]. cbn [kfs_safe_write vfs_kernel_fs]. pose proof (config_parts q Hq) as (nm & En & Hps & Hfat & _ & Ec & _).
  assert (vsafe sb (vfs_kernel_safe_write_file own q data) f (λ r g,
    (∀ q', q' ∈ config_files → q' ≠ q → tree g (components q') = tree f (components q')) ∧
    file_data (tree g (components q)) = match r with Ok _ => Some data | Err _ => file_data (tree f (components q)) end)) as Hs.
  { unfold vfs_kernel_safe_write_file. apply vsafe_volume. intros Hvol. apply vsafe_bind, vsafe_attempt. rewrite En at 1.
    eapply vsafe_conseq; [by apply (vs_metadata Hwindow sb Hwf)|]. intros r g _ [-> Hr]. specialize (Hr Hfat). destruct r as [m|e].
    - destruct (tree f _) as [n|] eqn:Et; [|done]. destruct Hr as (m' & [= <-] & Eu & Eg & Em & _).
      destruct (tree_owner sb Hwf f _ n Hvol Et) as (Hu & Hg & Hmo). rewrite Eu, Eg, Em. by apply safe_write_for_config.
    - destruct (default_owner_for_path own (normalize_path q)) as [v k] eqn:Eo. destruct (default_owner_ok _ _ _ _ Ho Eo) as [Hv Hk].
      apply safe_write_for_config; [done..|]. unfold default_mode_for_path. by repeat case_if. }
  destruct (Hs w Hf) as (r & w' & g & -> & Hg & Hoth & Hd). split_and!; [by exists g|..].
  - intros q' Hq' Hne. by rewrite (content_tree w' g), (content_tree w f), Hoth.
  - rewrite (content_tree w' g), (content_tree w f) by done. done.
Qed.

Definition vfs_kernel_spec : KernelFsSpec (Fs V F) := {|
  kfs_ok := on_volume;
  kfs_create_dir_spec := create_dir_same;
  kfs_chown_spec := chown_same;
  kfs_chmod_spec := chmod_same;
  kfs_read_spec p w _ := config_read_same p w;
  kfs_safe_write_spec := safe_write_same |}.
End spec.

(** ** On a volume in memory *)
Lemma pair_fst {A B} (p : A * B) a : fst p = a → p = (a, snd p).
Proof. destruct p. by intros <-. Qed.

Lemma db_ok_text us : accounts_ok us → db_ok (Some (users_text us)).
Proof. intros Hok text [= <-]. by exists us. Qed.

Section demo.
Import RamDisk NoFat.

Definition demo_spec : KernelFsSpec (Fs (Storage ramdisk) unit) := vfs_kernel_spec window_ok Superblock_new Superblock_new_wf.
#[local] Existing Instance demo_spec.

(** A machine with an empty volume. *)
Definition boot : World (Fs (Storage ramdisk) unit) :=
  {| sec := SecurityState_empty; task_creds := None; files := {| cool := formatted; fat := tt |} |}.

Lemma boot_ok : kfs_ok (files boot).
Proof. destruct formatted_mounted as (f & Hf & _). by exists f. Qed.

Lemma boot_db : db_ok (db boot).
Proof. intros text. assert (db boot = None) as -> by (vm_compute; reflexivity). discriminate. Qed.

Definition alice : bytes := str "alice".
Definition secret : bytes := str "wonderland".

(** Alice becomes the administrator, makes an account for bob, guest looks around. *)
Definition first_day : list acc_op :=
  [OpFirstRun 1 alice secret; OpCreate 1 (str "bob") (str "builder99") (str "user"); OpLogout;
   OpCreate 1 (str "eve") (str "evilevil") (str "admin"); OpLogin 10 (str "BOB") (str "builder99");
   OpChangePassword (str "builder99") (str "fixit1234"); OpRestart; OpLogin 20 alice secret; OpRole (str "bob") (str "admin");
   OpDelete (str "root"); OpDelete alice; OpBootConsistency].

Lemma accounts_invariant_witness :
  let st := acc_run first_day (snd (init boot)) in accounts_ok (s_users (sec st)) ∧ db_ok (db st).
Proof. apply (accounts_invariant first_day boot); [apply boot_ok|apply boot_db]. Defined.

(** The default accounts, the session of root, nothing on disk. *)
Definition lobby : World (Fs (Storage ramdisk) unit) :=
  {| sec := with_users SecurityState_empty default_users; task_creds := None; files := files boot |}.

Definition hire : acc_op := OpCreate 1 (str "bob") (str "builder99") (str "user").

Lemma account_changes_authorised_witness :
  change_allowed lobby hire (s_users (sec (snd (acc_exec hire lobby)))).
Proof.
  destruct (account_changes_authorised hire lobby) as [E|Ha]; [done|apply default_users_ok|apply boot_ok| |exact Ha].
  assert ((length (s_users (sec (snd (acc_exec hire lobby)))) =? 2)%nat = false) as Hn by (vm_compute; reflexivity).
  rewrite E in Hn. discriminate.
Defined.
End demo.

(** ** On files in memory *)
(** Files as an association list, the newest first. *)
Module MemFiles.
Definition file_map : Type := list (bytes * bytes).
Definition get (w : file_map) (p : bytes) : option bytes :=
  snd <$> List.find (λ e, bytes_eqb (fst e) p) w.

#[export] Instance mem_files : KernelFs file_map := {
  kfs_create_dir _ _ := ret tt;
  kfs_safe_write _ p data := λ w, (Ok tt, (p, data) :: w);
  kfs_read p := λ w, (of_option tt (get w p), w);
  kfs_chown _ _ _ _ := ret tt;
  kfs_chmod _ _ _ := ret tt }.

Lemma content_get (w : file_map) p : kfs_content w p = get w p.
Proof. unfold kfs_content. cbn [kfs_read mem_files fst]. by destruct (get w p). Qed.

#[export] Instance mem_files_spec : KernelFsSpec file_map.
Proof.
  refine {| kfs_ok _ := True |}; try done.
  intros own p data w _ _ _ _. cbn [kfs_safe_write mem_files]. split; [done|]. split; [|rewrite content_get].
  - intros q _ Hne. rewrite !content_get. unfold get. cbn [List.find fst].
    destruct (bytes_eqb p q) eqn:E; [|done]. apply bytes_eqb_eq in E. congruence.
  - unfold get. cbn [List.find fst]. by rewrite (proj2 (bytes_eqb_eq p p) eq_refl).
Defined.
End MemFiles.

Section light.
Import MemFiles.

(** The same machine, before and after its first start. *)
Definition boot' : World file_map := {| sec := SecurityState_empty; task_creds := None; files := [] |}.
Definition running : World file_map := snd (init boot').

Lemma running_db : db_ok (db running).
Proof.
  assert (db running = Some (users_text default_users)) as -> by (vm_compute; reflexivity). apply db_ok_text, default_users_ok.
Qed.

Lemma session_within_role_witness :
  let st := acc_run [OpLogout; OpLogin 10 (str "ROOT") (str "cool")] (snd (init boot')) in
  ∃ u, u ∈ s_users (sec st) ∧ u_uid u = s_session_uid (sec st) ∧ is_admin_record u = true.
Proof.
  apply (session_within_role [OpLogout; OpLogin 10 (str "ROOT") (str "cool")] boot'); [done|done|..].
  - vm_compute. tauto.
  - vm_compute. reflexivity.
Defined.

Lemma accounts_durable_witness :
  let st := acc_run [hire] (snd (init running)) in s_users (sec (snd (init st))) = s_users (sec st).
Proof.
  apply (accounts_durable [hire] running); [done|apply running_db|..].
  - assert (match db running with Some _ => true | None => false end = true) as Hd by (vm_compute; reflexivity).
    intros E. rewrite E in Hd. discriminate Hd.
  - vm_compute. tauto.
Defined.

(** After the first day bob, a plain user, resets the first boot from the recovery
    console and logs in as root with the default password: the reset asks for no
    authority. *)
Theorem recovery_reset_unchecked :
  let st := acc_run [OpFirstRun 1 alice secret; hire; OpLogin 10 (str "bob") (str "builder99")] running in
  can_admin (current_credentials st) = false ∧
  can_admin (current_credentials (acc_run [OpLogin 20 (str "root") (str "cool")] st)) = false ∧
  can_admin (current_credentials (acc_run [OpRecoveryReset; OpLogin 20 (str "root") (str "cool")] st)) = true.
Proof. vm_compute. done. Qed.

(** Guest's password is guessed five times within a second. *)
Definition guess_at (t : Z) (password : bytes) : acc_op := OpLogin t (str "Guest") password.
Definition attack : list acc_op :=
  [guess_at 100 (str "password"); guess_at 150 (str "qwerty"); OpUmask 0x3f; guess_at 200 (str "letmein"); OpRecoveryRepair; guess_at 250 (str "guest");
   guess_at 300 (str "guest")].


Definition bob : User :=
  {| name := str "bob"; role := str "user"; uid := 1002; gid := USER_GID; home := str "/Users/bob"; login_enabled := true |}.

Lemma create_user_login_witness :
  ∃ st, login 77 (str "Bob") (str "builder99") (snd (create_user 1 (str "bob") (str "builder99") (str "user") running)) = (Ok bob, st) ∧
    interactive_credentials st = session_for bob.
Proof.
  apply (create_user_login 1 (str "bob") (str "builder99") (str "user") running bob); [|done| |done|].
  - replace (s_users (sec running)) with default_users by (vm_compute; reflexivity). apply default_users_ok.
  - apply pair_fst. vm_compute. reflexivity.
  - vm_compute. reflexivity.
Defined.

(** Guest is locked out, and gets a new password. *)
Lemma reset_password_login_witness :
  let st := snd (reset_user_password (str "guest") (str "welcome1") (acc_run attack running)) in
  ∃ st', login 301 (str "guest") (str "welcome1") st = (Ok (public_user default_guest_user), st') ∧
    interactive_credentials st' = session_for (public_user default_guest_user).
Proof.
  apply (reset_password_login (str "guest") (str "welcome1") (acc_run attack running) (public_user default_guest_user));
    [| |apply pair_fst|..].
  - replace (s_users (sec (acc_run attack running))) with default_users by (vm_compute; reflexivity). apply default_users_ok.
  - done.
  - vm_compute. reflexivity.
  - done.
  - done.
Defined.

Lemma uid_search_ends_witness : next_available_uid 1 default_users = Some 1002.
Proof. apply (uid_search_ends default_users), default_users_ok. Defined.

(** ** Two weaknesses *)
(** The password "disabled" that the first-run setup gives to the default
    administrator is one anybody can type: when the account is enabled again,
    it opens a session with all rights. *)
Theorem root_placeholder_password :
  let st := acc_run [OpFirstRun 1 alice secret; OpEnable (str "root") true; OpLogout; OpLogin 9 (str "root") (str "disabled")] running in
  s_session_uid (sec st) = USER_UID ∧ can_admin (interactive_credentials st) = true.
Proof. vm_compute. split; reflexivity. Qed.
End light.

(** A disk that cannot be written. *)
Section broken.
#[local] Instance broken_disk : KernelFs unit := {
  kfs_create_dir _ _ := throw Io; kfs_safe_write _ _ _ := throw Io; kfs_read _ := throw tt;
  kfs_chown _ _ _ _ := throw Io; kfs_chmod _ _ _ := throw Io }.

Definition broken : World unit := {| sec := with_users SecurityState_empty default_users; task_creds := None; files := tt |}.

(** An operation that reports an input/output error has done half of its
    work: with a disk that cannot be written, an administrator who gives up the
    role loses it, but the session stays an administrator's. *)
Theorem demoted_session_stays_admin :
  let st := acc_run [OpCreate 1 alice secret (str "admin"); OpRole (str "root") (str "user")] broken in
  u_role <$> find_user (has_uid USER_UID) (s_users (sec st)) = Some (str "user") ∧
  s_session_uid (sec st) = USER_UID ∧ can_admin (interactive_credentials st) = true.
Proof. vm_compute. split_and!; reflexivity. Qed.
End broken.
