(* ===== verification/Process.v ===== *)
(** * Tasks, scheduling and signals (src/src/scheduler.rs, src/src/process_model.rs)

    The task table with every operation of the scheduler, the futex waiters
    (src/src/futex.rs) and the descriptor tables the scheduler calls into.
    System calls run with interrupts disabled, and so does the timer handler:
    each operation is one atomic change of [Kernel].  What the code asks of
    other parts is an argument: the time, whether and where the allocator
    provides a kernel stack, the page counts of an address space.  Freeing an
    address space is recorded in [k_freed]; notifications, profiling and crash
    reports are left out. *)
From stdpp Require Import gmap.
From S2P Require Import Prelude UserLayout Security Pipe FdTable.

Local Open Scope Z_scope.
Local Open Scope st_scope.

(** ** Signals *)
Inductive Signal := Term | Int | User1 | Stop | Continue.

#[export] Instance Signal_eq_dec : EqDecision Signal.
Proof. solve_decision. Defined.

Definition any_of (l : list bytes) (x : bytes) : bool := existsb (bytes_eqb x) l.
Definition Signal_parse (nm : bytes) : option Signal :=
  if any_of [str "term"; str "TERM"; str "sigterm"] nm then Some Term else
  if any_of [str "int"; str "INT"; str "sigint"] nm then Some Int else
  if any_of [str "usr1"; str "USR1"; str "user1"] nm then Some User1 else
  if any_of [str "stop"; str "STOP"; str "sigstop"] nm then Some Stop else
  if any_of [str "cont"; str "CONT"; str "continue"; str "sigcont"] nm then Some Continue else None.

Definition Signal_from_code (code : Z) : option Signal :=
  if code =? 2 then Some Int else if code =? 10 then Some User1 else if code =? 15 then Some Term else
  if code =? 18 then Some Continue else if code =? 19 then Some Stop else None.
Definition Signal_code (s : Signal) : Z :=
  match s with Int => 2 | User1 => 10 | Term => 15 | Continue => 18 | Stop => 19 end.
Definition Signal_exit_code (s : Signal) : option Z :=
  match s with Term => Some 143 | Int => Some 130 | _ => None end.
Definition Signal_label (s : Signal) : bytes :=
  match s with
  | Term => str "TERM" | Int => str "INT" | User1 => str "USR1" | Stop => str "STOP" | Continue => str "CONT"
  end.

(** ** Tasks *)
Inductive TaskStatus := Ready | Running | Blocked | Stopped | Exited | Reaped.

#[export] Instance TaskStatus_eq_dec : EqDecision TaskStatus.
Proof. solve_decision. Defined.

Definition is_status (s t : TaskStatus) : bool :=
  match s, t with
  | Ready, Ready | Running, Running | Blocked, Blocked | Stopped, Stopped | Exited, Exited | Reaped, Reaped => true
  | _, _ => false
  end.

(** The kernel stack is its address, [None] when the vector is empty. *)
Record Task := {
  t_name : bytes; t_stack : option Z; t_syscall_stack_top : Z; t_stack_ptr : Z; t_status : TaskStatus;
  t_exit_code : option Z; t_parent : option nat; t_process_group : nat; t_tty : option Z;
  t_pending_signal : option Signal; t_wake_tick : option Z; t_credentials : Credentials; t_cwd : bytes;
  t_thread_group : nat; t_user_stack_bottom : option Z; t_tls_base : Z; t_pml4 : option Z }.

Record Scheduler := { tasks : list Task; current : nat }.
Definition Scheduler_empty : Scheduler := {| tasks := []; current := 0 |}.

Inductive KillError :=
| CannotKillIdle | CannotKillCurrent | KillInvalidTask | KillAlreadyExited | KillAlreadyReaped | KillNotChild | KillPermissionDenied.
Inductive WaitError := WaitInvalidTask | NotChild | NotExited | WaitAlreadyReaped.
Inductive SignalError :=
| SigInvalidTask | InvalidGroup | CannotSignalIdle | SigPermissionDenied | SigAlreadyExited | SigAlreadyReaped.
Inductive ProcessGroupStatus := PgEmpty | PgRunning | PgStopped | PgExited.

(** Field updates. *)
Definition set_status (s : TaskStatus) (t : Task) : Task :=
  {| t_name := t_name t; t_stack := t_stack t; t_syscall_stack_top := t_syscall_stack_top t; t_stack_ptr := t_stack_ptr t;
     t_status := s; t_exit_code := t_exit_code t; t_parent := t_parent t; t_process_group := t_process_group t; t_tty := t_tty t;
     t_pending_signal := t_pending_signal t; t_wake_tick := t_wake_tick t; t_credentials := t_credentials t; t_cwd := t_cwd t;
     t_thread_group := t_thread_group t; t_user_stack_bottom := t_user_stack_bottom t; t_tls_base := t_tls_base t; t_pml4 := t_pml4 t |}.
Definition set_wake_tick (w : option Z) (t : Task) : Task :=
  {| t_name := t_name t; t_stack := t_stack t; t_syscall_stack_top := t_syscall_stack_top t; t_stack_ptr := t_stack_ptr t;
     t_status := t_status t; t_exit_code := t_exit_code t; t_parent := t_parent t; t_process_group := t_process_group t; t_tty := t_tty t;
     t_pending_signal := t_pending_signal t; t_wake_tick := w; t_credentials := t_credentials t; t_cwd := t_cwd t;
     t_thread_group := t_thread_group t; t_user_stack_bottom := t_user_stack_bottom t; t_tls_base := t_tls_base t; t_pml4 := t_pml4 t |}.
Definition set_pending (s : option Signal) (t : Task) : Task :=
  {| t_name := t_name t; t_stack := t_stack t; t_syscall_stack_top := t_syscall_stack_top t; t_stack_ptr := t_stack_ptr t;
     t_status := t_status t; t_exit_code := t_exit_code t; t_parent := t_parent t; t_process_group := t_process_group t; t_tty := t_tty t;
     t_pending_signal := s; t_wake_tick := t_wake_tick t; t_credentials := t_credentials t; t_cwd := t_cwd t;
     t_thread_group := t_thread_group t; t_user_stack_bottom := t_user_stack_bottom t; t_tls_base := t_tls_base t; t_pml4 := t_pml4 t |}.
Definition set_exit_code (c : option Z) (t : Task) : Task :=
  {| t_name := t_name t; t_stack := t_stack t; t_syscall_stack_top := t_syscall_stack_top t; t_stack_ptr := t_stack_ptr t;
     t_status := t_status t; t_exit_code := c; t_parent := t_parent t; t_process_group := t_process_group t; t_tty := t_tty t;
     t_pending_signal := t_pending_signal t; t_wake_tick := t_wake_tick t; t_credentials := t_credentials t; t_cwd := t_cwd t;
     t_thread_group := t_thread_group t; t_user_stack_bottom := t_user_stack_bottom t; t_tls_base := t_tls_base t; t_pml4 := t_pml4 t |}.
Definition set_stack_ptr (p : Z) (t : Task) : Task :=
  {| t_name := t_name t; t_stack := t_stack t; t_syscall_stack_top := t_syscall_stack_top t; t_stack_ptr := p;
     t_status := t_status t; t_exit_code := t_exit_code t; t_parent := t_parent t; t_process_group := t_process_group t; t_tty := t_tty t;
     t_pending_signal := t_pending_signal t; t_wake_tick := t_wake_tick t; t_credentials := t_credentials t; t_cwd := t_cwd t;
     t_thread_group := t_thread_group t; t_user_stack_bottom := t_user_stack_bottom t; t_tls_base := t_tls_base t; t_pml4 := t_pml4 t |}.
Definition set_pml4 (p : option Z) (t : Task) : Task :=
  {| t_name := t_name t; t_stack := t_stack t; t_syscall_stack_top := t_syscall_stack_top t; t_stack_ptr := t_stack_ptr t;
     t_status := t_status t; t_exit_code := t_exit_code t; t_parent := t_parent t; t_process_group := t_process_group t; t_tty := t_tty t;
     t_pending_signal := t_pending_signal t; t_wake_tick := t_wake_tick t; t_credentials := t_credentials t; t_cwd := t_cwd t;
     t_thread_group := t_thread_group t; t_user_stack_bottom := t_user_stack_bottom t; t_tls_base := t_tls_base t; t_pml4 := p |}.
Definition set_tls (b : Z) (t : Task) : Task :=
  {| t_name := t_name t; t_stack := t_stack t; t_syscall_stack_top := t_syscall_stack_top t; t_stack_ptr := t_stack_ptr t;
     t_status := t_status t; t_exit_code := t_exit_code t; t_parent := t_parent t; t_process_group := t_process_group t; t_tty := t_tty t;
     t_pending_signal := t_pending_signal t; t_wake_tick := t_wake_tick t; t_credentials := t_credentials t; t_cwd := t_cwd t;
     t_thread_group := t_thread_group t; t_user_stack_bottom := t_user_stack_bottom t; t_tls_base := b; t_pml4 := t_pml4 t |}.
Definition set_creds (c : Credentials) (t : Task) : Task :=
  {| t_name := t_name t; t_stack := t_stack t; t_syscall_stack_top := t_syscall_stack_top t; t_stack_ptr := t_stack_ptr t;
     t_status := t_status t; t_exit_code := t_exit_code t; t_parent := t_parent t; t_process_group := t_process_group t; t_tty := t_tty t;
     t_pending_signal := t_pending_signal t; t_wake_tick := t_wake_tick t; t_credentials := c; t_cwd := t_cwd t;
     t_thread_group := t_thread_group t; t_user_stack_bottom := t_user_stack_bottom t; t_tls_base := t_tls_base t; t_pml4 := t_pml4 t |}.
Definition set_cwd (p : bytes) (t : Task) : Task :=
  {| t_name := t_name t; t_stack := t_stack t; t_syscall_stack_top := t_syscall_stack_top t; t_stack_ptr := t_stack_ptr t;
     t_status := t_status t; t_exit_code := t_exit_code t; t_parent := t_parent t; t_process_group := t_process_group t; t_tty := t_tty t;
     t_pending_signal := t_pending_signal t; t_wake_tick := t_wake_tick t; t_credentials := t_credentials t; t_cwd := p;
     t_thread_group := t_thread_group t; t_user_stack_bottom := t_user_stack_bottom t; t_tls_base := t_tls_base t; t_pml4 := t_pml4 t |}.
Definition set_group (g : nat) (t : Task) : Task :=
  {| t_name := t_name t; t_stack := t_stack t; t_syscall_stack_top := t_syscall_stack_top t; t_stack_ptr := t_stack_ptr t;
     t_status := t_status t; t_exit_code := t_exit_code t; t_parent := t_parent t; t_process_group := g; t_tty := t_tty t;
     t_pending_signal := t_pending_signal t; t_wake_tick := t_wake_tick t; t_credentials := t_credentials t; t_cwd := t_cwd t;
     t_thread_group := t_thread_group t; t_user_stack_bottom := t_user_stack_bottom t; t_tls_base := t_tls_base t; t_pml4 := t_pml4 t |}.
Definition set_tty (y : option Z) (t : Task) : Task :=
  {| t_name := t_name t; t_stack := t_stack t; t_syscall_stack_top := t_syscall_stack_top t; t_stack_ptr := t_stack_ptr t;
     t_status := t_status t; t_exit_code := t_exit_code t; t_parent := t_parent t; t_process_group := t_process_group t; t_tty := y;
     t_pending_signal := t_pending_signal t; t_wake_tick := t_wake_tick t; t_credentials := t_credentials t; t_cwd := t_cwd t;
     t_thread_group := t_thread_group t; t_user_stack_bottom := t_user_stack_bottom t; t_tls_base := t_tls_base t; t_pml4 := t_pml4 t |}.
Definition set_user_stack (tg : nat) (b : option Z) (t : Task) : Task :=
  {| t_name := t_name t; t_stack := t_stack t; t_syscall_stack_top := t_syscall_stack_top t; t_stack_ptr := t_stack_ptr t;
     t_status := t_status t; t_exit_code := t_exit_code t; t_parent := t_parent t; t_process_group := t_process_group t; t_tty := t_tty t;
     t_pending_signal := t_pending_signal t; t_wake_tick := t_wake_tick t; t_credentials := t_credentials t; t_cwd := t_cwd t;
     t_thread_group := tg; t_user_stack_bottom := b; t_tls_base := t_tls_base t; t_pml4 := t_pml4 t |}.
Definition drop_stack (t : Task) : Task :=
  {| t_name := t_name t; t_stack := None; t_syscall_stack_top := 0; t_stack_ptr := 0;
     t_status := t_status t; t_exit_code := t_exit_code t; t_parent := t_parent t; t_process_group := t_process_group t; t_tty := t_tty t;
     t_pending_signal := t_pending_signal t; t_wake_tick := t_wake_tick t; t_credentials := t_credentials t; t_cwd := t_cwd t;
     t_thread_group := t_thread_group t; t_user_stack_bottom := t_user_stack_bottom t; t_tls_base := t_tls_base t; t_pml4 := t_pml4 t |}.

(** ** Kernel state *)
Record FutexWaiter := { fw_addr : Z; fw_task : nat }.
Record FutexStats := {
  fs_waits : Z; fs_wakes : Z; fs_mismatches : Z; fs_timeouts : Z; fs_interrupted : Z; fs_dropped : Z;
  fs_last_addr : Z; fs_last_task : nat; fs_max_waiters : nat }.
Record FutexState := { fx_waiters : list FutexWaiter; fx_stats : FutexStats }.
Record ChildPollWaiter := { cw_parent : nat; cw_child : nat; cw_waiter : nat }.

(** What the CPU runs with: CR3 ([None] is the boot page table), the FS base,
    the system call stack and the TSS privilege stack. *)
Record Cpu := { cpu_cr3 : option Z; cpu_fs_base : Z; cpu_syscall_top : Z; cpu_privilege_top : Z }.

(** [k_words] holds the words written to kernel stacks, [k_freed] the address
    spaces given back, [k_commits] the files committed on a last close. *)
Record Kernel := {
  k_sched : Scheduler; k_vfs : VfsState; k_futex : FutexState; k_child_waiters : list ChildPollWaiter;
  k_cpu : Cpu; k_words : gmap Z Z; k_freed : list Z; k_commits : list (bytes * bytes) }.

Definition set_sched (s : Scheduler) (k : Kernel) : Kernel :=
  {| k_sched := s; k_vfs := k_vfs k; k_futex := k_futex k; k_child_waiters := k_child_waiters k;
     k_cpu := k_cpu k; k_words := k_words k; k_freed := k_freed k; k_commits := k_commits k |}.
Definition set_tasks (ts : list Task) (k : Kernel) : Kernel :=
  set_sched {| tasks := ts; current := current (k_sched k) |} k.
Definition set_vfs (st : VfsState) (k : Kernel) : Kernel :=
  {| k_sched := k_sched k; k_vfs := st; k_futex := k_futex k; k_child_waiters := k_child_waiters k;
     k_cpu := k_cpu k; k_words := k_words k; k_freed := k_freed k; k_commits := k_commits k |}.
Definition set_futex (fx : FutexState) (k : Kernel) : Kernel :=
  {| k_sched := k_sched k; k_vfs := k_vfs k; k_futex := fx; k_child_waiters := k_child_waiters k;
     k_cpu := k_cpu k; k_words := k_words k; k_freed := k_freed k; k_commits := k_commits k |}.
Definition set_child_waiters (ws : list ChildPollWaiter) (k : Kernel) : Kernel :=
  {| k_sched := k_sched k; k_vfs := k_vfs k; k_futex := k_futex k; k_child_waiters := ws;
     k_cpu := k_cpu k; k_words := k_words k; k_freed := k_freed k; k_commits := k_commits k |}.
Definition set_cpu (c : Cpu) (k : Kernel) : Kernel :=
  {| k_sched := k_sched k; k_vfs := k_vfs k; k_futex := k_futex k; k_child_waiters := k_child_waiters k;
     k_cpu := c; k_words := k_words k; k_freed := k_freed k; k_commits := k_commits k |}.
Definition set_words (m : gmap Z Z) (k : Kernel) : Kernel :=
  {| k_sched := k_sched k; k_vfs := k_vfs k; k_futex := k_futex k; k_child_waiters := k_child_waiters k;
     k_cpu := k_cpu k; k_words := m; k_freed := k_freed k; k_commits := k_commits k |}.
Definition free_address_spaces (ps : list Z) (k : Kernel) : Kernel :=
  {| k_sched := k_sched k; k_vfs := k_vfs k; k_futex := k_futex k; k_child_waiters := k_child_waiters k;
     k_cpu := k_cpu k; k_words := k_words k; k_freed := k_freed k ++ ps; k_commits := k_commits k |}.
Definition log_commits (cs : list (bytes * bytes)) (k : Kernel) : Kernel :=
  {| k_sched := k_sched k; k_vfs := k_vfs k; k_futex := k_futex k; k_child_waiters := k_child_waiters k;
     k_cpu := k_cpu k; k_words := k_words k; k_freed := k_freed k; k_commits := k_commits k ++ cs |}.

Abbreviation k_tasks k := (tasks (k_sched k)).
Abbreviation k_current k := (current (k_sched k)).

Definition get_task (id : nat) (k : Kernel) : option Task := k_tasks k !! id.
Definition upd_task (id : nat) (f : Task → Task) (k : Kernel) : Kernel := set_tasks (alter f id (k_tasks k)) k.
Definition frees (p : option Z) (k : Kernel) : Kernel :=
  match p with Some p => free_address_spaces [p] k | None => k end.

(** ** Futex waiters (src/src/futex.rs): what the end of a task needs *)
Definition drop_task_waiters (task : nat) (fx : FutexState) : FutexState :=
  let ws := List.filter (λ w, negb (fw_task w =? task)%nat) (fx_waiters fx) in
  let dropped := (length (fx_waiters fx) - length ws)%nat in
  let s := fx_stats fx in
  {| fx_waiters := ws;
     fx_stats := if (0 <? dropped)%nat
       then {| fs_waits := fs_waits s; fs_wakes := fs_wakes s; fs_mismatches := fs_mismatches s; fs_timeouts := fs_timeouts s;
               fs_interrupted := fs_interrupted s; fs_dropped := saturating_add 64 (fs_dropped s) (Z.of_nat dropped);
               fs_last_addr := fs_last_addr s; fs_last_task := task; fs_max_waiters := fs_max_waiters s |}
       else s |}.

(** ** Blocking *)
Definition current_task (k : Kernel) : option Task := get_task (k_current k) k.
Definition current_task_blocked (k : Kernel) : bool :=
  match current_task k with Some t => is_status (t_status t) Blocked | None => false end.
Definition current_has_pending_signal (k : Kernel) : bool :=
  match current_task k with Some t => bool_decide (is_Some (t_pending_signal t)) | None => false end.
Definition block_current (k : Kernel) : Kernel := upd_task (k_current k) (set_status Blocked) k.
Definition block_current_until (wake : Z) (k : Kernel) : Kernel :=
  upd_task (k_current k) (λ t, set_wake_tick (Some wake) (set_status Blocked t)) k.

Definition unblock_task (t : Task) : Task :=
  if is_status (t_status t) Blocked then set_status Ready (set_wake_tick None t) else t.
Definition unblock (id : nat) (k : Kernel) : Kernel := upd_task id unblock_task k.
Definition wake_tasks (ids : list nat) (k : Kernel) : Kernel := fold_left (λ k id, unblock id k) ids k.

(** ** Waiting for children *)
Definition is_child_waiter (parent child : nat) (w : ChildPollWaiter) : bool :=
  (cw_parent w =? parent)%nat && (cw_child w =? child)%nat.
Definition wake_child_poll_waiters (parent child : nat) (k : Kernel) : Kernel :=
  let woken := map cw_waiter (List.filter (is_child_waiter parent child) (k_child_waiters k)) in
  wake_tasks woken (set_child_waiters (List.filter (λ w, negb (is_child_waiter parent child w)) (k_child_waiters k)) k).
Definition wake_waiting_parent (parent : option nat) (child : nat) (k : Kernel) : Kernel :=
  match parent with Some p => wake_child_poll_waiters p child (unblock p k) | None => k end.

Definition is_parent (parent : nat) (t : Task) : bool :=
  bool_decide (t_parent t = Some parent) || (parent =? 0)%nat.
Definition EVENT_CHILD : Z := 16.
Definition child_exit_revents (parent child : nat) (k : Kernel) : Z :=
  if (child =? 0)%nat then EVENT_ERROR else
  match get_task child k with
  | None => EVENT_ERROR
  | Some t =>
      if negb (is_parent parent t) then EVENT_ERROR else
      match t_status t with Exited => Z.lor EVENT_READ EVENT_CHILD | Reaped => EVENT_HANGUP | _ => 0 end
  end.
Definition register_child_waiter (parent child waiter : nat) (k : Kernel) : bool * Kernel :=
  if (child =? 0)%nat then (false, k) else
  match get_task child k with
  | None => (false, k)
  | Some t =>
      if negb (is_parent parent t) then (false, k) else
      if is_status (t_status t) Reaped then (false, k) else
      if existsb (λ w, is_child_waiter parent child w && (cw_waiter w =? waiter)%nat) (k_child_waiters k) then (true, k)
      else (true, set_child_waiters (k_child_waiters k ++ [{| cw_parent := parent; cw_child := child; cw_waiter := waiter |}]) k)
  end.
Definition unregister_child_waiter (parent child waiter : nat) (k : Kernel) : Kernel :=
  set_child_waiters (List.filter (λ w, negb (is_child_waiter parent child w && (cw_waiter w =? waiter)%nat)) (k_child_waiters k)) k.

(** ** The end of a task *)
(** [vfs::drop_task]: the descriptors, then the commits, then the wake-ups. *)
Definition vfs_drop_task (id : nat) (k : Kernel) : Kernel :=
  let '(wake, commits, _, st) := drop_task id (k_vfs k) in
  wake_tasks wake (log_commits commits (set_vfs st k)).
Definition cleanup_task_resources (id : nat) (k : Kernel) : Kernel :=
  vfs_drop_task id (set_futex (drop_task_waiters id (k_futex k)) k).

Definition parent_of (id : nat) (k : Kernel) : option nat := get_task id k ≫= t_parent.
Definition mark_exited (code : Z) (t : Task) : Task := set_wake_tick None (set_exit_code (Some code) (set_status Exited t)).

Definition exit_current (code : Z) (k : Kernel) : Kernel :=
  let id := k_current k in
  let parent := parent_of id k in
  wake_waiting_parent parent id (upd_task id (mark_exited code) (cleanup_task_resources id k)).

Definition can_control_task_locked (actor target : nat) (k : Kernel) : bool :=
  if (actor =? target)%nat then true else
  match get_task actor k, get_task target k with
  | Some a, Some t =>
      can_admin (t_credentials a) || bool_decide (t_parent t = Some actor) || (cr_uid (t_credentials a) =? cr_uid (t_credentials t))
  | _, _ => false
  end.

(** The checks of [kill_task] and, in a second critical section, its effect. *)
Definition kill_check (id : nat) (k : Kernel) : result KillError unit :=
  if (id =? 0)%nat then Err CannotKillIdle else
  if (id =? k_current k)%nat then Err CannotKillCurrent else
  match get_task id k with
  | None => Err KillInvalidTask
  | Some t =>
      if negb (can_control_task_locked (k_current k) id k) then Err KillPermissionDenied else
      if is_status (t_status t) Exited then Err KillAlreadyExited else
      if is_status (t_status t) Reaped then Err KillAlreadyReaped else Ok tt
  end.
Definition kill_effect (id : nat) (code : Z) : ST Kernel KillError unit := λ k,
  match get_task id k with
  | None => (Err KillInvalidTask, k)
  | Some t =>
      (Ok tt, cleanup_task_resources id (wake_waiting_parent (t_parent t) id (upd_task id (mark_exited code) k)))
  end.
Definition kill_task (id : nat) (code : Z) : ST Kernel KillError unit := λ k,
  match kill_check id k with Err e => (Err e, k) | Ok _ => kill_effect id code k end.

Definition fault_current (code : Z) (k : Kernel) : nat * Kernel :=
  let id := k_current k in
  let parent := parent_of id k in
  (id, cleanup_task_resources id (wake_waiting_parent parent id
         (upd_task id (λ t, set_exit_code (Some code) (set_status Exited t)) k))).

(** ** Signals to tasks and groups *)
Definition signal_error_from_kill (e : KillError) : SignalError :=
  match e with
  | CannotKillIdle => CannotSignalIdle | KillInvalidTask => SigInvalidTask | KillAlreadyExited => SigAlreadyExited
  | KillAlreadyReaped => SigAlreadyReaped | KillPermissionDenied => SigPermissionDenied
  | CannotKillCurrent | KillNotChild => SigInvalidTask
  end.

(** The guards shared by [send_signal], [set_task_tty_as] and
    [set_process_group_as]: the target exists, may be controlled and is alive. *)
Definition controlled_task (actor id : nat) (k : Kernel) : result SignalError Task :=
  match get_task id k with
  | None => Err SigInvalidTask
  | Some t =>
      if negb (can_control_task_locked actor id k) then Err SigPermissionDenied else
      if is_status (t_status t) Exited then Err SigAlreadyExited else
      if is_status (t_status t) Reaped then Err SigAlreadyReaped else Ok t
  end.

Definition receive_signal (s : Signal) (t : Task) : Task :=
  match s with
  | User1 => unblock_task (set_pending (Some User1) t)
  | Stop => set_status Stopped (set_wake_tick None (set_pending None t))
  | Continue =>
      let t := set_pending None t in
      if is_status (t_status t) Stopped then set_status Ready t else t
  | Term | Int => t
  end.

Definition send_signal (id : nat) (s : Signal) : ST Kernel SignalError unit := λ k,
  if (id =? 0)%nat then (Err CannotSignalIdle, k) else
  match Signal_exit_code s with
  | Some code =>
      if (id =? k_current k)%nat then (Ok tt, exit_current code k)
      else map_err signal_error_from_kill (kill_task id code) k
  | None =>
      match controlled_task (k_current k) id k with
      | Err e => (Err e, k)
      | Ok _ => (Ok tt, upd_task id (receive_signal s) k)
      end
  end.

Definition enumerate {A} (l : list A) : list (nat * A) := zip (seq 0 (length l)) l.
Definition ends (s : TaskStatus) : bool := is_status s Exited || is_status s Reaped.

Definition group_members (group : nat) (k : Kernel) : list nat :=
  map fst (List.filter (λ '(id, t),
    negb (id =? 0)%nat && (t_process_group t =? group)%nat && negb (ends (t_status t)) &&
    can_control_task_locked (k_current k) id k) (enumerate (k_tasks k))).

(** Signal the members one by one, counting the deliveries. *)
Fixpoint deliver_all (ids : list nat) (s : Signal) (k : Kernel) : nat * Kernel :=
  match ids with
  | [] => (0%nat, k)
  | id :: ids =>
      let (r, k) := send_signal id s k in
      let (n, k) := deliver_all ids s k in
      ((match r with Ok _ => 1 | Err _ => 0 end + n)%nat, k)
  end.
Definition send_signal_to_group (group : nat) (s : Signal) : ST Kernel SignalError nat := λ k,
  match group_members group k with
  | [] => (Err InvalidGroup, k)
  | ids =>
      let (delivered, k) := deliver_all ids s k in
      if (delivered =? 0)%nat then (Err SigPermissionDenied, k) else (Ok delivered, k)
  end.

Definition set_task_tty_as (actor id : nat) (y : option Z) : ST Kernel SignalError unit := λ k,
  if (id =? 0)%nat then (Err CannotSignalIdle, k) else
  match controlled_task actor id k with Err e => (Err e, k) | Ok _ => (Ok tt, upd_task id (set_tty y) k) end.
Definition set_process_group_as (actor id group : nat) : ST Kernel SignalError unit := λ k,
  if (id =? 0)%nat then (Err CannotSignalIdle, k) else
  match controlled_task actor id k with Err e => (Err e, k) | Ok _ => (Ok tt, upd_task id (set_group group) k) end.
Definition get_process_group (id : nat) (k : Kernel) : result SignalError nat :=
  match get_task id k with
  | None => Err SigInvalidTask
  | Some t => if is_status (t_status t) Reaped then Err SigAlreadyReaped else Ok (t_process_group t)
  end.

Definition process_group_status (group : nat) (k : Kernel) : ProcessGroupStatus :=
  let members := map snd (List.filter (λ '(id, t), negb (id =? 0)%nat && (t_process_group t =? group)%nat) (enumerate (k_tasks k))) in
  let has f := existsb (λ t, f (t_status t)) members in
  if has (λ s, is_status s Ready || is_status s Running || is_status s Blocked) then PgRunning else
  if has (λ s, is_status s Stopped) then PgStopped else
  if has ends then PgExited else PgEmpty.
Definition process_group_exit_code (group : nat) (k : Kernel) : option Z :=
  List.find (λ t, (t_process_group t =? group)%nat && ends (t_status t)) (k_tasks k) ≫= t_exit_code.

(** ** Reaping *)
Definition release_task_stack (t : Task) : Task := drop_stack t.

Definition uses_space (p : Z) (t : Task) : bool := bool_decide (t_pml4 t = Some p) && negb (is_status (t_status t) Reaped).
Definition take_reap_pml4_locked (id : nat) (ts : list Task) : option Z * list Task :=
  match ts !! id with
  | Some t =>
      match t_pml4 t with
      | Some p =>
          let still_live := existsb (λ '(i, u), negb (i =? id)%nat && uses_space p u) (enumerate ts) in
          if still_live then (None, ts) else (Some p, alter (set_pml4 None) id ts)
      | None => (None, ts)
      end
  | None => (None, ts)
  end.

(** Mark [id] reaped, give up its stack, and its address space if it was the last user. *)
Definition reap_locked (id : nat) (f : Task → Task) (ts : list Task) : option Z * list Task :=
  take_reap_pml4_locked id (alter (λ t, release_task_stack (f (set_status Reaped t))) id ts).

Definition force_reclaim_task (id : nat) (code : Z) : ST Kernel KillError unit := λ k,
  if (id =? 0)%nat then (Err CannotKillIdle, k) else
  if (id =? k_current k)%nat then (Err CannotKillCurrent, k) else
  match get_task id k with
  | None => (Err KillInvalidTask, k)
  | Some t =>
      if is_status (t_status t) Exited then (Err KillAlreadyExited, k) else
      if is_status (t_status t) Reaped then (Err KillAlreadyReaped, k) else
      let (p, ts) := reap_locked id (λ t, set_wake_tick None (set_exit_code (Some code) t)) (k_tasks k) in
      (Ok tt, frees p (cleanup_task_resources id (wake_waiting_parent (t_parent t) id (set_tasks ts k))))
  end.

Definition waitpid (parent id : nat) : ST Kernel WaitError Z := λ k,
  if (id =? 0)%nat then (Err WaitInvalidTask, k) else
  match get_task id k with
  | None => (Err WaitInvalidTask, k)
  | Some t =>
      if negb (is_parent parent t) then (Err NotChild, k) else
      match t_status t with
      | Exited =>
          let (p, ts) := reap_locked id (λ t, t) (k_tasks k) in
          (Ok (default 0 (t_exit_code t)), frees p (set_tasks ts k))
      | Reaped => (Err WaitAlreadyReaped, k)
      | _ => (Err NotExited, k)
      end
  end.

Fixpoint reap_loop (parent : nat) (ids : list nat) (ts : list Task) : nat * list Z * list Task :=
  match ids with
  | [] => (0%nat, [], ts)
  | id :: ids =>
      let should_reap := match ts !! id with
        | Some t => is_status (t_status t) Exited && is_parent parent t
        | None => false end in
      if (id =? 0)%nat || negb should_reap then reap_loop parent ids ts else
      let (p, ts) := reap_locked id (λ t, t) ts in
      let '(count, ps, ts) := reap_loop parent ids ts in
      (S count, option_list p ++ ps, ts)
  end.
Definition reap_all_exited (parent : nat) (k : Kernel) : nat * Kernel :=
  let '(count, ps, ts) := reap_loop parent (seq 0 (length (k_tasks k))) (k_tasks k) in
  (count, free_address_spaces ps (set_tasks ts k)).

(** ** Spawning *)
Definition STACK_SIZE : Z := 64 * 1024.
Definition MAX_ACTIVE_TASKS : nat := 64.
Definition stack_in_use (p bottom : Z) (t : Task) : bool :=
  bool_decide (t_pml4 t = Some p) && bool_decide (t_user_stack_bottom t = Some bottom).
Definition next_thread_stack_slot_for (p : Z) (k : Kernel) : option nat :=
  List.find (λ slot,
    match user_thread_stack_range slot with
    | Some (bottom, _) => negb (existsb (stack_in_use p bottom) (k_tasks k))
    | None => false
    end) (seq 0 USER_THREAD_STACK_SLOTS).

Definition active_task_count (k : Kernel) : nat :=
  length (List.filter (λ '(id, t), negb (id =? 0)%nat && negb (is_status (t_status t) Reaped)) (enumerate (k_tasks k))).

(** [x & !0xf] on a 64-bit address *)
Definition align16 (x : Z) : Z := Z.land x (2 ^ 64 - 16).
Definition stack_top_of (addr : Z) : Z := align16 (addr + STACK_SIZE).

(** The context block of a new task, lowest address first. *)
Definition initial_frame (rip cs rsp ss rdi rsi : Z) : list Z :=
  <[10%nat:=rsi]> (<[9%nat:=rdi]> (replicate 15 0)) ++ [rip; cs; 0x202; rsp; ss].

Fixpoint write_words (addr : Z) (ws : list Z) (m : gmap Z Z) : gmap Z Z :=
  match ws with [] => m | w :: ws => write_words (addr + 8) ws (<[addr:=w]> m) end.

(** Where the new task runs: its registers, page table and thread-local base. *)
Record Context := {
  cx_rip : Z; cx_cs : Z; cx_rsp : option Z; cx_ss : Z; cx_pml4 : option Z; cx_rdi : Z; cx_rsi : Z; cx_tls : Z }.

(** [alloc] is the address of the new stack, [None] when the memory reserve or
    the allocator refuses it. *)
Definition spawn_context (alloc : option Z) (idle_creds : Credentials) (nm : bytes) (cx : Context) (k : Kernel) : option nat * Kernel :=
  match alloc with
  | None => (None, k)
  | Some addr =>
      let top := stack_top_of addr in
      let ptr := top - 20 * 8 in
      let frame := initial_frame (cx_rip cx) (cx_cs cx) (default (top - 8) (cx_rsp cx)) (cx_ss cx) (cx_rdi cx) (cx_rsi cx) in
      let id := length (k_tasks k) in
      let parent := if (id =? 0)%nat then None else Some (k_current k) in
      let ptask := parent ≫= λ p, get_task p k in
      let t := {| t_name := nm; t_stack := Some addr; t_syscall_stack_top := top; t_stack_ptr := ptr; t_status := Ready;
                  t_exit_code := None; t_parent := parent; t_process_group := from_option t_process_group id ptask;
                  t_tty := ptask ≫= t_tty; t_pending_signal := None; t_wake_tick := None;
                  t_credentials := from_option t_credentials idle_creds ptask; t_cwd := from_option t_cwd (str "/") ptask;
                  t_thread_group := id; t_user_stack_bottom := None; t_tls_base := cx_tls cx; t_pml4 := cx_pml4 cx |} in
      let k := set_tasks (k_tasks k ++ [t]) (set_words (write_words ptr frame (k_words k)) k) in
      (Some id, set_vfs (init_task id (k_vfs k)) k)
  end.

(** Ring-3 selectors, from the descriptor table. *)
Record Selectors := { user_cs : Z; user_ss : Z }.

Definition pop_task (k : Kernel) : Kernel := set_tasks (removelast (k_tasks k)) k.

Definition spawn_user_with_fds_and_credentials (sel : Selectors) (alloc : option Z) (idle_creds : Credentials) (nm : bytes)
    (entry user_rsp pml4 : Z) (inherited : list (nat * nat)) (creds : option Credentials) (k : Kernel) : bool * Kernel :=
  if (MAX_ACTIVE_TASKS <=? active_task_count k)%nat then (false, free_address_spaces [pml4] k) else
  let parent := k_current k in
  let cx := {| cx_rip := entry; cx_cs := user_cs sel; cx_rsp := Some user_rsp; cx_ss := user_ss sel; cx_pml4 := Some pml4;
               cx_rdi := 0; cx_rsi := 0; cx_tls := 0 |} in
  match spawn_context alloc idle_creds nm cx k with
  | (None, k) => (false, free_address_spaces [pml4] k)
  | (Some id, k) =>
      let k := match creds with Some c => upd_task id (set_creds c) k | None => k end in
      let k := upd_task id (λ t, set_user_stack (t_thread_group t) (Some USER_STACK_BOTTOM) t) k in
      let (installed, st) := inherit_fds parent id inherited (k_vfs k) in
      let k := set_vfs st k in
      if installed then (true, k) else (false, free_address_spaces [pml4] (pop_task (vfs_drop_task id k)))
  end.

Definition spawn_user_thread (sel : Selectors) (alloc : option Z) (idle_creds : Credentials)
    (entry user_rsp arg stack_bottom tls : Z) (k : Kernel) : option nat * Kernel :=
  if (MAX_ACTIVE_TASKS <=? active_task_count k)%nat then (None, k) else
  let parent := k_current k in
  match get_task parent k with
  | None => (None, k)
  | Some pt =>
      match t_pml4 pt with
      | None => (None, k)
      | Some p =>
          let cx := {| cx_rip := entry; cx_cs := user_cs sel; cx_rsp := Some user_rsp; cx_ss := user_ss sel; cx_pml4 := Some p;
                       cx_rdi := arg; cx_rsi := 0; cx_tls := tls |} in
          match spawn_context alloc idle_creds (str "user-thread") cx k with
          | (None, k) => (None, k)
          | (Some id, k) =>
              let k := upd_task id (set_user_stack (t_thread_group pt) (Some stack_bottom)) k in
              let (installed, st) := inherit_all_fds parent id (k_vfs k) in
              let k := set_vfs st k in
              if installed then (Some id, k) else (None, pop_task (vfs_drop_task id k))
          end
      end
  end.

(** ** The idle task and the scheduling decision *)
Section Schedule.
Variable default_privilege_stack_top : Z.

Definition add_idle (idle_creds : Credentials) (k : Kernel) : Kernel :=
  let t := {| t_name := str "idle"; t_stack := None; t_syscall_stack_top := 0; t_stack_ptr := 0; t_status := Running;
              t_exit_code := None; t_parent := None; t_process_group := 0%nat; t_tty := None; t_pending_signal := None;
              t_wake_tick := None; t_credentials := idle_creds; t_cwd := str "/"; t_thread_group := 0%nat;
              t_user_stack_bottom := None; t_tls_base := 0; t_pml4 := None |} in
  let k := set_tasks (k_tasks k ++ [t]) k in
  set_cpu {| cpu_cr3 := cpu_cr3 (k_cpu k); cpu_fs_base := cpu_fs_base (k_cpu k); cpu_syscall_top := 0;
             cpu_privilege_top := default_privilege_stack_top |} (set_vfs (init_task 0 (k_vfs k)) k).

(** Save the interrupted task. *)
Definition save_current (rsp : Z) (t : Task) : Task :=
  let t := set_stack_ptr rsp t in if is_status (t_status t) Running then set_status Ready t else t.

(** Wake a sleeper whose time has come, then deliver the pending signal. *)
Definition wake_sleeper (now : Z) (t : Task) : Task :=
  if is_status (t_status t) Blocked && match t_wake_tick t with Some w => w <=? now | None => false end
  then set_status Ready (set_wake_tick None t) else t.
Definition deliver_pending (id : nat) (t : Task) : Task :=
  let t' := set_pending None t in
  match t_pending_signal t with
  | None => t
  | Some User1 =>
      let t' := set_wake_tick None t' in
      if is_status (t_status t') Blocked then set_status Ready t' else t'
  | Some Stop => if negb (id =? 0)%nat && negb (ends (t_status t')) then set_wake_tick None (set_status Stopped t') else t'
  | Some Continue => if is_status (t_status t') Stopped then set_status Ready t' else t'
  | Some (Term | Int) => t'
  end.
Definition tick_task (now : Z) (id : nat) (t : Task) : Task := deliver_pending id (wake_sleeper now t).

(** The first ready task from [next] on, looking at [fuel] tasks. *)
Fixpoint find_ready (fuel next : nat) (ts : list Task) : option nat :=
  match fuel with
  | O => None
  | S fuel =>
      match ts !! next with
      | Some t => if is_status (t_status t) Ready then Some next else find_ready fuel ((next + 1) mod length ts)%nat ts
      | None => None
      end
  end.

Definition activate (next : nat) (ts : list Task) (k : Kernel) : Kernel :=
  let ts := alter (set_status Running) next ts in
  let k := set_sched {| tasks := ts; current := next |} k in
  match ts !! next with
  | Some t =>
      set_cpu {| cpu_cr3 := t_pml4 t; cpu_fs_base := t_tls_base t; cpu_syscall_top := t_syscall_stack_top t;
                 cpu_privilege_top := if t_syscall_stack_top t =? 0 then default_privilege_stack_top else t_syscall_stack_top t |} k
  | None => k
  end.

Definition schedule (now rsp : Z) (k : Kernel) : Z * Kernel :=
  if (length (k_tasks k) =? 0)%nat then (rsp, k) else
  let cur := k_current k in
  let ts := imap (tick_task now) (alter (save_current rsp) cur (k_tasks k)) in
  let n := length ts in
  let next := default 0%nat (find_ready n ((cur + 1) mod n)%nat ts) in
  let k := activate next ts k in
  (from_option t_stack_ptr rsp (get_task next k), k).

(** [locked]: the interrupted code holds the scheduler's lock. *)
Definition timer_schedule (locked : bool) (now rsp : Z) (k : Kernel) : Z * Kernel :=
  if locked then (rsp, k) else if (length (k_tasks k) =? 0)%nat then (rsp, k) else schedule now rsp k.
End Schedule.

(** ** The current task's own attributes *)
Definition set_current_tls_base (base : Z) (k : Kernel) : bool * Kernel :=
  match current_task k with
  | Some t =>
      if bool_decide (t_pml4 t = None) then (false, k) else
      let k := upd_task (k_current k) (set_tls base) k in
      (true, set_cpu {| cpu_cr3 := cpu_cr3 (k_cpu k); cpu_fs_base := base; cpu_syscall_top := cpu_syscall_top (k_cpu k);
                        cpu_privilege_top := cpu_privilege_top (k_cpu k) |} k)
  | None => (false, k)
  end.
Definition set_current_cwd (path : bytes) (k : Kernel) : Kernel := upd_task (k_current k) (set_cwd path) k.
Definition set_current_credentials (c : Credentials) (k : Kernel) : Kernel := upd_task (k_current k) (set_creds c) k.

(** [sys_exec] once the new image is loaded: replace the address space, enter
    it, drop the shared memory of the old one and free it. *)
Definition exec_replace (pml4 : Z) (k : Kernel) : Kernel :=
  let cur := k_current k in
  let old := current_task k ≫= t_pml4 in
  let k := upd_task cur (λ t, set_tls 0 (set_pml4 (Some pml4) t)) k in
  let k := set_cpu {| cpu_cr3 := Some pml4; cpu_fs_base := cpu_fs_base (k_cpu k); cpu_syscall_top := cpu_syscall_top (k_cpu k);
                      cpu_privilege_top := cpu_privilege_top (k_cpu k) |} k in
  let k := snd (set_current_tls_base 0 k) in
  frees old (set_vfs (snd (drop_task_shmem_refs cur (k_vfs k))) k).

(** ** Resource accounting *)
Record SchedulerResourceStats := {
  active_tasks : nat; max_active_tasks : nat; task_slots : nat; reaped_tasks : nat; user_tasks : nat; user_threads : nat; tls_threads : nat }.
Definition live_user (t : Task) : bool := negb (bool_decide (t_pml4 t = None)) && negb (is_status (t_status t) Reaped).
Definition resource_stats (k : Kernel) : SchedulerResourceStats :=
  {| active_tasks := active_task_count k; max_active_tasks := MAX_ACTIVE_TASKS; task_slots := length (k_tasks k);
     reaped_tasks := length (List.filter (λ t, is_status (t_status t) Reaped) (k_tasks k));
     user_tasks := length (List.filter live_user (k_tasks k));
     user_threads := length (List.filter (λ '(id, t), live_user t && negb (id =? t_thread_group t)%nat) (enumerate (k_tasks k)));
     tls_threads := length (List.filter (λ t, live_user t && negb (t_tls_base t =? 0)) (k_tasks k)) |}.

(** What other parts report of a task: the pages of its address space, of its
    shared memory, and its sockets. *)
Record Usage := { owned_leaf_pages : Z → Z; task_shmem_pages : nat → Z; owner_socket_count : nat → Z }.
Record TaskMemoryStats := {
  tm_pid : nat; tm_name : bytes; tm_status : TaskStatus; tm_thread_group : nat; tm_address_space_threads : nat; tm_tls_base : Z;
  tm_user_pages : Z; tm_shmem_pages : Z; tm_kernel_stack_bytes : Z; tm_open_fds : Z; tm_sockets : Z; tm_estimated_bytes : Z }.
Definition estimate (pages shmem kstack fds socks : Z) : Z :=
  let add := saturating_add 64 in
  let mul := saturating_mul 64 in
  add (add (add (mul (add pages shmem) 4096) kstack) (mul fds 64)) (mul socks 1024).

(** Pages are charged to the first task of each address space. *)
Fixpoint memory_stats_loop (u : Usage) (k : Kernel) (seeds : list (nat * Task)) (seen : list Z) : list TaskMemoryStats :=
  match seeds with
  | [] => []
  | (pid, t) :: seeds =>
      let '(pages, seen) := match t_pml4 t with
        | Some p => if bool_decide (p ∈ seen) then (0, seen) else (owned_leaf_pages u p, seen ++ [p])
        | None => (0, seen) end in
      let kstack := match t_stack t with Some _ => STACK_SIZE | None => 0 end in
      let fds := Z.of_nat (task_open_fd_count pid (k_vfs k)) in
      {| tm_pid := pid; tm_name := t_name t; tm_status := t_status t; tm_thread_group := t_thread_group t;
         tm_address_space_threads := match t_pml4 t with Some p => length (List.filter (uses_space p) (k_tasks k)) | None => 0%nat end;
         tm_tls_base := t_tls_base t; tm_user_pages := pages; tm_shmem_pages := task_shmem_pages u pid; tm_kernel_stack_bytes := kstack;
         tm_open_fds := fds; tm_sockets := owner_socket_count u pid;
         tm_estimated_bytes := estimate pages (task_shmem_pages u pid) kstack fds (owner_socket_count u pid) |}
      :: memory_stats_loop u k seeds seen
  end.
Definition task_memory_stats (u : Usage) (k : Kernel) : list TaskMemoryStats :=
  memory_stats_loop u k (List.filter (λ '(pid, t), negb (pid =? 0)%nat && negb (is_status (t_status t) Reaped)) (enumerate (k_tasks k))) [].

(** [Iterator::max_by_key]: the last of the maxima. *)
Definition max_by_key {A} (f : A → Z) (l : list A) : option A :=
  fold_left (λ best x, match best with Some b => if f b <=? f x then Some x else Some b | None => Some x end) l None.

Record ReclaimedTask := { rc_pid : nat; rc_estimated_bytes : Z }.
Definition is_victim (cur : nat) (m : TaskMemoryStats) : bool :=
  negb (tm_pid m =? cur)%nat && (0 <? tm_user_pages m) &&
  (is_status (tm_status m) Ready || is_status (tm_status m) Running || is_status (tm_status m) Blocked || is_status (tm_status m) Stopped).
Definition reclaim_largest_user_task (u : Usage) (code : Z) (k : Kernel) : option ReclaimedTask * Kernel :=
  match max_by_key tm_estimated_bytes (List.filter (is_victim (k_current k)) (task_memory_stats u k)) with
  | None => (None, k)
  | Some m =>
      match force_reclaim_task (tm_pid m) code k with
      | (Ok _, k) => (Some {| rc_pid := tm_pid m; rc_estimated_bytes := tm_estimated_bytes m |}, k)
      | (Err _, k) => (None, k)
      end
  end.
