(* ===== verification/MemoryPressure.v ===== *)
(** * Memory pressure: admission of allocations and recovery

    [memory_pressure.rs].  The kernel heap is not part of the kernel state of
    this development: what [allocator::heap_snapshot] reports at each of the
    points where the code asks is an argument.  Opening a file and creating
    a pipe ask [admit_allocation], which under critical pressure ends the user
    task that holds most memory, whoever owns it. *)
From stdpp Require Import gmap.
From S2P Require Import Prelude Security Pipe FdTable Process.

Local Open Scope Z_scope.

Definition HEAP_LOW_FREE_BYTES : Z := 16 * 1024 * 1024.
Definition HEAP_CRITICAL_FREE_BYTES : Z := 8 * 1024 * 1024.
Definition HEAP_ADMISSION_RESERVE_BYTES : Z := 4 * 1024 * 1024.
Definition HEAP_LOW_USED_PCT : Z := 85.
Definition HEAP_CRITICAL_USED_PCT : Z := 92.
Definition OOM_EXIT_CODE : Z := 137.

Inductive PressureLevel := Normal | Low | Critical.

Definition pressure_level (free_bytes total_bytes : Z) : PressureLevel :=
  let used_bytes := saturating_sub total_bytes free_bytes in
  let used_pct := if total_bytes =? 0 then 100 else saturating_mul 64 used_bytes 100 / total_bytes in
  if (free_bytes <=? HEAP_CRITICAL_FREE_BYTES) || (HEAP_CRITICAL_USED_PCT <=? used_pct) then Critical
  else if (free_bytes <=? HEAP_LOW_FREE_BYTES) || (HEAP_LOW_USED_PCT <=? used_pct) then Low
  else Normal.

Definition is_critical (l : PressureLevel) : bool := match l with Critical => true | _ => false end.

(** What [heap_snapshot] reports. *)
Record HeapSnapshot := { heap_free : Z; heap_total : Z }.
Definition level (h : HeapSnapshot) : PressureLevel := pressure_level (heap_free h) (heap_total h).
(** The snapshots taken by one call of [admit_allocation]: on entry, after the
    caches were trimmed (or not, when the pressure was normal), and at the end. *)
Record HeapReadings := { hr_entry : HeapSnapshot; hr_trimmed : HeapSnapshot; hr_after : HeapSnapshot }.

Definition has_reserve (h : HeapSnapshot) (bytes : Z) : bool :=
  HEAP_ADMISSION_RESERVE_BYTES <=? saturating_sub (heap_free h) bytes.

Definition check_and_recover (h : HeapReadings) (u : Usage) (k : Kernel) : HeapSnapshot * Kernel :=
  (hr_after h, if is_critical (level (hr_trimmed h)) then (reclaim_largest_user_task u OOM_EXIT_CODE k).2 else k).

Definition admit_allocation (bytes : Z) (h : HeapReadings) (u : Usage) (k : Kernel) : bool * Kernel :=
  if bytes =? 0 then (true, k) else
  if has_reserve (hr_entry h) bytes then (true, k) else
  let (after, k) := check_and_recover h u k in (has_reserve after bytes, k).

(** Whether an admission ends a task. *)
Definition recovers (bytes : Z) (h : HeapReadings) : bool :=
  negb (bytes =? 0) && negb (has_reserve (hr_entry h) bytes) && is_critical (level (hr_trimmed h)).

Lemma admit_kernel bytes h u k :
  (admit_allocation bytes h u k).2 = if recovers bytes h then (reclaim_largest_user_task u OOM_EXIT_CODE k).2 else k.
Proof. unfold admit_allocation, recovers. destruct (bytes =? 0); [done|]. destruct (has_reserve _ _); [done|]. simpl. by destruct (is_critical _). Qed.

(** No task is ended while the heap keeps its reserve: with the request granted
    on entry, or outside critical pressure. *)
Lemma recovers_critical bytes h :
  recovers bytes h = true →
  0 < HEAP_ADMISSION_RESERVE_BYTES - saturating_sub (heap_free (hr_entry h)) bytes ∧ level (hr_trimmed h) = Critical.
Proof.
  unfold recovers, has_reserve. rewrite !andb_true_iff, !negb_true_iff, Z.leb_gt. intros [[_ ?] Hc].
  split; [lia|]. by destruct (level (hr_trimmed h)).
Qed.
