(* ===== verification/ProcessInv.v ===== *)
(** * What the operations of the scheduler do to each task

    Every operation is described task by task: [evolves R] relates two kernel
    states with the same tasks, each changed as [R] says, and the same running
    task, CPU state, stack contents and freed address spaces.  Reaping, spawning
    and the scheduling decision have their own descriptions.  The wake-ups that
    accompany the end of a task change nothing but [Blocked] into [Ready]. *)
From stdpp Require Import gmap.
From S2P Require Import Prelude UserLayout Security Pipe FdTable Process.

Local Open Scope Z_scope.

Record evolves (R : nat → Task → Task → Prop) (k k' : Kernel) : Prop := {
  ev_length : length (k_tasks k') = length (k_tasks k);
  ev_current : k_current k' = k_current k;
  ev_cpu : k_cpu k' = k_cpu k;
  ev_words : k_words k' = k_words k;
  ev_freed : k_freed k' = k_freed k;
  ev_tasks : ∀ i t, get_task i k = Some t → ∃ t', get_task i k' = Some t' ∧ R i t t' }.

Definition unchanged (i : nat) (t t' : Task) : Prop := t' = t.
Definition woken (i : nat) (t t' : Task) : Prop := t' = t ∨ t' = unblock_task t.
(** Task [id] becomes [f t], the others are at most woken. *)
Definition becomes (id : nat) (f : Task → Task) (i : nat) (t t' : Task) : Prop :=
  if (i =? id)%nat then t' = f t else woken i t t'.

Lemma get_task_back R k k' i t' :
  evolves R k k' → get_task i k' = Some t' → ∃ t, get_task i k = Some t ∧ R i t t'.
Proof.
  intros He Hi. destruct (get_task i k) as [t|] eqn:Ht.
  - destruct (ev_tasks _ _ _ He i t Ht) as (u & Hu & HR). exists t. by simplify_eq.
  - unfold get_task in *. apply lookup_lt_Some in Hi. rewrite (ev_length _ _ _ He) in Hi.
    apply lookup_ge_None in Ht. lia.
Qed.

Lemma evolves_impl (R S : nat → Task → Task → Prop) k k' :
  (∀ i t t', get_task i k = Some t → R i t t' → S i t t') → evolves R k k' → evolves S k k'.
Proof. intros HRS [????? Ht]. split; try done. intros i t Hi. destruct (Ht i t Hi) as (t' & ? & ?). eauto. Qed.

Lemma evolves_refl R k : (∀ i t, R i t t) → evolves R k k.
Proof. intros HR. by split; eauto. Qed.

Lemma evolves_trans (R S T : nat → Task → Task → Prop) k1 k2 k3 :
  (∀ i t1 t2 t3, R i t1 t2 → S i t2 t3 → T i t1 t3) → evolves R k1 k2 → evolves S k2 k3 → evolves T k1 k3.
Proof.
  intros HT [????? H1] [????? H2]. split; try congruence. intros i t Hi.
  destruct (H1 i t Hi) as (t' & Hi' & ?). destruct (H2 i t' Hi') as (t'' & ? & ?). eauto.
Qed.

(** States that agree on all an [evolves] talks about. *)
Lemma evolves_same R k1 k2 k' :
  k_sched k2 = k_sched k1 → k_cpu k2 = k_cpu k1 → k_words k2 = k_words k1 → k_freed k2 = k_freed k1 →
  evolves R k2 k' → evolves R k1 k'.
Proof. intros Hs Hc Hw Hf [??? ??]. unfold get_task in *. split; unfold get_task; by rewrite <- ?Hs, <- ?Hc, <- ?Hw, <- ?Hf. Qed.

Lemma get_upd_task i id f k : get_task i (upd_task id f k) = (if (i =? id)%nat then f <$> get_task i k else get_task i k).
Proof.
  unfold get_task, upd_task. simpl. destruct (Nat.eqb_spec i id) as [->|Hn]; [apply list_lookup_alter_eq|].
  by apply list_lookup_alter_ne.
Qed.

Lemma upd_task_evolves id f k : evolves (λ i t t', t' = if (i =? id)%nat then f t else t) k (upd_task id f k).
Proof.
  split; try done; simpl; [apply length_alter|]. intros i t Hi. rewrite get_upd_task, Hi. simpl. case_match; eauto.
Qed.

Lemma unblock_task_idem t : unblock_task (unblock_task t) = unblock_task t.
Proof. unfold unblock_task. destruct (is_status (t_status t) Blocked) eqn:E; simpl; [done|by rewrite E]. Qed.

Lemma woken_trans i t1 t2 t3 : woken i t1 t2 → woken i t2 t3 → woken i t1 t3.
Proof. intros [->| ->] [->| ->]; unfold woken; rewrite ?unblock_task_idem; auto. Qed.
Lemma woken_refl i t : woken i t t.
Proof. by left. Qed.

Lemma unblock_evolves id k : evolves woken k (unblock id k).
Proof. eapply evolves_impl, upd_task_evolves. intros i t t' _ ->. unfold woken. case_match; auto. Qed.

Lemma wake_tasks_evolves ids k : evolves woken k (wake_tasks ids k).
Proof.
  unfold wake_tasks. revert k. induction ids as [|id ids IH]; intros k; simpl; [apply evolves_refl, woken_refl|].
  eapply evolves_trans; [apply woken_trans|apply unblock_evolves|apply IH].
Qed.

Lemma wake_waiting_parent_evolves p c k : evolves woken k (wake_waiting_parent p c k).
Proof.
  destruct p as [p|]; simpl; [|apply evolves_refl, woken_refl].
  eapply evolves_trans; [apply woken_trans|apply unblock_evolves|]. unfold wake_child_poll_waiters.
  eapply evolves_same, wake_tasks_evolves; done.
Qed.

Lemma vfs_drop_task_evolves id k : evolves woken k (vfs_drop_task id k).
Proof.
  unfold vfs_drop_task. destruct (drop_task id (k_vfs k)) as [[[w c] s] st].
  eapply evolves_same, wake_tasks_evolves; done.
Qed.

Lemma cleanup_evolves id k : evolves woken k (cleanup_task_resources id k).
Proof. unfold cleanup_task_resources. eapply evolves_same, vfs_drop_task_evolves; done. Qed.

(** ** The end of a task *)
Lemma becomes_then id f i t1 t2 t3 :
  (∀ t, unblock_task (f t) = f t) → becomes id f i t1 t2 → woken i t2 t3 → becomes id f i t1 t3.
Proof.
  intros Hf. unfold becomes. case_match; [|apply woken_trans]. intros -> [->| ->]; [done|]. apply Hf.
Qed.

Lemma becomes_upd id f k : evolves (becomes id f) k (upd_task id f k).
Proof. eapply evolves_impl, upd_task_evolves. intros i t t' _ ->. unfold becomes. case_match; [done|by left]. Qed.

Lemma becomes_wake id f k k1 k2 :
  (∀ t, unblock_task (f t) = f t) → evolves (becomes id f) k k1 → evolves woken k1 k2 → evolves (becomes id f) k k2.
Proof. intros Hf. apply evolves_trans. intros i t1 t2 t3. by apply becomes_then. Qed.

Lemma mark_exited_unblock code t : unblock_task (mark_exited code t) = mark_exited code t.
Proof. done. Qed.
Lemma unblock_mark_exited code t : mark_exited code (unblock_task t) = mark_exited code t.
Proof. unfold unblock_task. by case_match. Qed.

Lemma exit_current_evolves code k : evolves (becomes (k_current k) (mark_exited code)) k (exit_current code k).
Proof.
  unfold exit_current. eapply becomes_wake; [done| |apply wake_waiting_parent_evolves].
  eapply evolves_trans; [|apply cleanup_evolves|apply upd_task_evolves].
  intros i t1 t2 t3 Hw ->. unfold becomes. case_match; [|done]. destruct Hw as [->| ->]; [done|apply unblock_mark_exited].
Qed.

Lemma kill_effect_evolves id code k k' :
  kill_effect id code k = (Ok tt, k') → evolves (becomes id (mark_exited code)) k k'.
Proof.
  unfold kill_effect. destruct (get_task id k) as [t|]; [|done]. intros [= <-].
  eapply becomes_wake; [done| |apply cleanup_evolves]. eapply becomes_wake; [done| |apply wake_waiting_parent_evolves].
  apply becomes_upd.
Qed.

Definition mark_faulted (code : Z) (t : Task) : Task := set_exit_code (Some code) (set_status Exited t).
Lemma fault_current_evolves code k : evolves (becomes (k_current k) (mark_faulted code)) k (fault_current code k).2.
Proof.
  unfold fault_current. cbn [snd]. eapply becomes_wake; [done| |apply cleanup_evolves].
  eapply becomes_wake; [done|apply becomes_upd|apply wake_waiting_parent_evolves].
Qed.

(** What [kill_task] requires of its target. *)
Record killable (id : nat) (k : Kernel) (t : Task) : Prop := {
  ka_not_idle : id ≠ 0%nat;
  ka_not_current : id ≠ k_current k;
  ka_task : get_task id k = Some t;
  ka_control : can_control_task_locked (k_current k) id k = true;
  ka_alive : ends (t_status t) = false }.

Lemma is_status_spec s t : is_status s t = true ↔ s = t.
Proof. by destruct s, t. Qed.
Lemma is_status_false s t : is_status s t = false ↔ s ≠ t.
Proof. by destruct s, t. Qed.
Lemma ends_spec s : ends s = true ↔ s = Exited ∨ s = Reaped.
Proof. unfold ends. by rewrite orb_true_iff, !is_status_spec. Qed.

Lemma kill_check_spec id k :
  match kill_check id k with Ok _ => ∃ t, killable id k t | Err _ => ∀ t, ¬ killable id k t end.
Proof.
  unfold kill_check. destruct (Nat.eqb_spec id 0) as [->|H0]; [by intros t []|].
  destruct (Nat.eqb_spec id (k_current k)) as [->|Hc]; [by intros t []|].
  destruct (get_task id k) as [t|] eqn:Ht; [|intros t []; congruence].
  destruct (can_control_task_locked _ _ _) eqn:Ha; simpl; [|intros u []; congruence].
  assert (∀ s, ends s = is_status s Exited || is_status s Reaped) as He by done.
  destruct (is_status (t_status t) Exited) eqn:H1; [intros u [??? ? Hu]; simplify_eq; by rewrite He, H1 in Hu|].
  destruct (is_status (t_status t) Reaped) eqn:H2; [intros u [??? ? Hu]; simplify_eq; by rewrite He, H1, H2 in Hu|].
  exists t. split; [done..|]. by rewrite He, H1, H2.
Qed.

(** A call of [kill_task] that fails changes nothing; one that succeeds ends
    its target, which the caller controls. *)
Lemma kill_task_spec id code k r k' :
  kill_task id code k = (r, k') →
  match r with
  | Ok _ => (∃ t, killable id k t) ∧ evolves (becomes id (mark_exited code)) k k'
  | Err _ => k' = k
  end.
Proof.
  unfold kill_task. pose proof (kill_check_spec id k) as Hc. destruct (kill_check id k) as [[]|e]; [|by intros [= <- <-]].
  destruct Hc as [t Ht]. unfold kill_effect. rewrite (ka_task _ _ _ Ht). intros [= <- <-].
  split; [by exists t|]. apply (kill_effect_evolves id code). unfold kill_effect. by rewrite (ka_task _ _ _ Ht).
Qed.

(** ** Signals *)
Lemma controlled_task_ok actor id k t :
  controlled_task actor id k = Ok t →
  get_task id k = Some t ∧ can_control_task_locked actor id k = true ∧ ends (t_status t) = false.
Proof.
  unfold controlled_task. destruct (get_task id k) as [u|]; [|done].
  destruct (can_control_task_locked _ _ _); simpl; [|done]. unfold ends.
  destruct (is_status (t_status u) Exited) eqn:H1; [done|]. destruct (is_status (t_status u) Reaped) eqn:H2; [done|].
  intros [= ->]. by rewrite H1, H2.
Qed.

(** One controlled task changes by [f], the others are at most woken. *)
Definition acts_on (id : nat) (f : Task → Task) (k k' : Kernel) : Prop :=
  id ≠ 0%nat ∧ (∃ t, get_task id k = Some t ∧ ends (t_status t) = false) ∧
  can_control_task_locked (k_current k) id k = true ∧ evolves (becomes id f) k k'.

Lemma set_process_group_spec id g k r k' :
  set_process_group_as (k_current k) id g k = (r, k') →
  match r with Ok _ => acts_on id (set_group g) k k' | Err _ => k' = k end.
Proof.
  unfold set_process_group_as. destruct (Nat.eqb_spec id 0) as [->|H0]; [by intros [= <- <-]|].
  destruct (controlled_task _ _ _) as [t|] eqn:Hc; intros [= <- <-]; [|done].
  apply controlled_task_ok in Hc as (Ht & Ha & He). repeat split; [done|by exists t|done|..]; apply becomes_upd.
Qed.

Lemma set_task_tty_spec id y k r k' :
  set_task_tty_as (k_current k) id y k = (r, k') →
  match r with Ok _ => acts_on id (set_tty y) k k' | Err _ => k' = k end.
Proof.
  unfold set_task_tty_as. destruct (Nat.eqb_spec id 0) as [->|H0]; [by intros [= <- <-]|].
  destruct (controlled_task _ _ _) as [t|] eqn:Hc; intros [= <- <-]; [|done].
  apply controlled_task_ok in Hc as (Ht & Ha & He). repeat split; [done|by exists t|done|..]; apply becomes_upd.
Qed.

(** The effect of a signal on its target. *)
Definition signalled (s : Signal) : Task → Task :=
  match Signal_exit_code s with Some code => mark_exited code | None => receive_signal s end.

Lemma send_signal_spec id s k r k' :
  send_signal id s k = (r, k') →
  match r with
  | Ok _ => id ≠ 0%nat ∧ can_control_task_locked (k_current k) id k = true ∧ evolves (becomes id (signalled s)) k k'
  | Err _ => k' = k
  end.
Proof.
  unfold send_signal, signalled. destruct (Nat.eqb_spec id 0) as [->|H0]; [by intros [= <- <-]|].
  destruct (Signal_exit_code s) as [code|].
  - destruct (Nat.eqb_spec id (k_current k)) as [->|Hc].
    + intros [= <- <-]. split_and!; [done|unfold can_control_task_locked; by rewrite Nat.eqb_refl|apply exit_current_evolves].
    + unfold map_err. destruct (kill_task id code k) as [r' k1] eqn:Hk. apply kill_task_spec in Hk.
      destruct r' as [[]|e]; intros [= <- <-]; [|done]. destruct Hk as [[t Ht] He]. by destruct Ht.
  - destruct (controlled_task _ _ _) as [t|] eqn:Hc; intros [= <- <-]; [|done].
    apply controlled_task_ok in Hc as (Ht & Ha & He). split_and!; [done..|]. apply becomes_upd.
Qed.

(** ** What no signal, wake-up or exit changes *)
(** The kernel stack, page table, parent, credentials and the like stay; no
    task starts running or blocks, a task is reaped after if and only if before,
    and no stop signal is left pending. *)
Definition identity (t : Task) :=
  (t_name t, t_stack t, t_syscall_stack_top t, t_stack_ptr t, t_parent t, t_credentials t, t_cwd t, t_thread_group t,
   (t_user_stack_bottom t, t_tls_base t, t_pml4 t)).
Record keeps (t t' : Task) : Prop := {
  kp_identity : identity t' = identity t;
  kp_running : t_status t' = Running → t_status t = Running;
  kp_blocked : t_status t' = Blocked → t_status t = Blocked;
  kp_pending : t_pending_signal t' = Some Stop → t_pending_signal t = Some Stop;
  kp_exited : t_status t = Exited → t_status t' = Exited;
  kp_reaped : t_status t' = Reaped ↔ t_status t = Reaped }.

Lemma keeps_refl t : keeps t t.
Proof. by split. Qed.
Lemma keeps_trans t1 t2 t3 : keeps t1 t2 → keeps t2 t3 → keeps t1 t3.
Proof. intros [I1 R1 B1 S1 E1 P1] [I2 R2 B2 S2 E2 P2]. split; [congruence|auto..|by rewrite P2]. Qed.

Section KeepsFields.
Context (t t' : Task) (Hk : keeps t t').
Lemma keeps_stack : t_stack t' = t_stack t.
Proof. pose proof (kp_identity _ _ Hk). unfold identity in *. congruence. Qed.
Lemma keeps_top : t_syscall_stack_top t' = t_syscall_stack_top t.
Proof. pose proof (kp_identity _ _ Hk). unfold identity in *. congruence. Qed.
Lemma keeps_parent : t_parent t' = t_parent t.
Proof. pose proof (kp_identity _ _ Hk). unfold identity in *. congruence. Qed.
Lemma keeps_creds : t_credentials t' = t_credentials t.
Proof. pose proof (kp_identity _ _ Hk). unfold identity in *. congruence. Qed.
Lemma keeps_tls : t_tls_base t' = t_tls_base t.
Proof. pose proof (kp_identity _ _ Hk). unfold identity in *. congruence. Qed.
Lemma keeps_pml4 : t_pml4 t' = t_pml4 t.
Proof. pose proof (kp_identity _ _ Hk). unfold identity in *. congruence. Qed.
End KeepsFields.

Ltac keeps_solver := split; [done|by simpl|by simpl|by simpl|simpl; congruence|simpl; split; congruence].

Lemma keeps_unblock t : keeps t (unblock_task t).
Proof. unfold unblock_task. destruct (is_status _ _) eqn:E; [|apply keeps_refl]. apply is_status_spec in E. keeps_solver. Qed.
Lemma keeps_woken i t t' : woken i t t' → keeps t t'.
Proof. intros [->| ->]; [apply keeps_refl|apply keeps_unblock]. Qed.
Lemma keeps_mark_exited code t : t_status t ≠ Reaped → keeps t (mark_exited code t).
Proof. intros Hr. keeps_solver. Qed.
Lemma keeps_mark_faulted code t : t_status t ≠ Reaped → keeps t (mark_faulted code t).
Proof. intros Hr. keeps_solver. Qed.
Lemma keeps_receive s t : ends (t_status t) = false → keeps t (receive_signal s t).
Proof.
  intros Ha. assert (t_status t ≠ Reaped ∧ t_status t ≠ Exited) as [Hr Hx] by (split; intros Hs; by rewrite Hs in Ha).
  destruct s; simpl; try apply keeps_refl.
  - eapply keeps_trans, keeps_unblock. keeps_solver.
  - keeps_solver.
  - destruct (is_status _ _) eqn:E; [apply is_status_spec in E|]; keeps_solver.
Qed.
Lemma keeps_signalled s t :
  t_status t ≠ Reaped → (Signal_exit_code s = None → ends (t_status t) = false) → keeps t (signalled s t).
Proof. intros Hr Ha. unfold signalled. destruct (Signal_exit_code s); [by apply keeps_mark_exited|apply keeps_receive; auto]. Qed.
Lemma keeps_becomes id f i t t' : (i = id → keeps t (f t)) → becomes id f i t t' → keeps t t'.
Proof.
  unfold becomes. destruct (Nat.eqb_spec i id) as [->|Hn]; [intros H ->; auto|]. intros _. apply keeps_woken.
Qed.

(** [evolves] with [keeps], where moreover only tasks in [C] are more than woken. *)
Definition only (C : nat → Prop) (i : nat) (t t' : Task) : Prop := keeps t t' ∧ (¬ C i → woken i t t').

Lemma only_trans C i t1 t2 t3 : only C i t1 t2 → only C i t2 t3 → only C i t1 t3.
Proof. intros [H1 W1] [H2 W2]. split; [by eapply keeps_trans|]. intros Hn. eapply woken_trans; auto. Qed.
Lemma only_refl C i t : only C i t t.
Proof. split; [apply keeps_refl|]. intros _. by left. Qed.
Lemma only_mono (C D : nat → Prop) i t t' : (C i → D i) → only C i t t' → only D i t t'.
Proof. intros Hi [H W]. split; auto. Qed.

Lemma becomes_only id f (C : nat → Prop) k k' :
  C id → (∀ t, get_task id k = Some t → keeps t (f t)) → evolves (becomes id f) k k' → evolves (only C) k k'.
Proof.
  intros HC Hf. apply evolves_impl. intros i t t' Hi Hb. split.
  - eapply keeps_becomes; [|exact Hb]. intros ->. auto.
  - intros Hn. unfold becomes in Hb. destruct (Nat.eqb_spec i id) as [->|Hne]; done.
Qed.
Lemma woken_only C k k' : evolves woken k k' → evolves (only C) k k'.
Proof. apply evolves_impl. intros i t t' _ Hw. split; [by eapply keeps_woken|done]. Qed.

(** The running task exists and is not reaped. *)
Definition current_live (k : Kernel) : Prop := ∃ t, get_task (k_current k) k = Some t ∧ t_status t ≠ Reaped.

Lemma current_live_only C k k' : current_live k → evolves (only C) k k' → current_live k'.
Proof.
  intros (t & Ht & Hr) He. destruct (ev_tasks _ _ _ He _ _ Ht) as (t' & Ht' & Hk & _).
  exists t'. rewrite (ev_current _ _ _ He). split; [done|]. by rewrite (kp_reaped _ _ Hk).
Qed.

Lemma can_control_only C k k' a i :
  evolves (only C) k k' → can_control_task_locked a i k' = can_control_task_locked a i k.
Proof.
  intros He. unfold can_control_task_locked. case_match; [done|].
  assert (∀ j, (t_credentials <$> get_task j k') = (t_credentials <$> get_task j k) ∧ (t_parent <$> get_task j k') = (t_parent <$> get_task j k)) as Hj.
  { intros j. destruct (get_task j k) as [t|] eqn:Ht.
    - destruct (ev_tasks _ _ _ He _ _ Ht) as (t' & -> & Hk & _). simpl.
      by rewrite (keeps_creds _ _ Hk), (keeps_parent _ _ Hk).
    - destruct (get_task j k') as [t'|] eqn:Ht'; [|done]. destruct (get_task_back _ _ _ _ _ He Ht') as (? & ? & _). congruence. }
  destruct (Hj a) as [Ha _], (Hj i) as [Hi Hp].
  destruct (get_task a k) as [ta|], (get_task a k') as [ta'|]; try done.
  destruct (get_task i k) as [ti|], (get_task i k') as [ti'|]; try done.
  injection Ha as Ha. injection Hi as Hi. injection Hp as Hp. by rewrite Ha, Hi, Hp.
Qed.

Lemma send_signal_only id s k r k' :
  current_live k → send_signal id s k = (r, k') →
  evolves (only (λ i, i ≠ 0%nat ∧ can_control_task_locked (k_current k) i k = true)) k k'.
Proof.
  intros Hl Hs. pose proof (send_signal_spec _ _ _ _ _ Hs) as H. destruct r as [[]|]; [|subst; apply evolves_refl, only_refl].
  destruct H as (H0 & Hc & He). eapply becomes_only; [|  |exact He]; [done|]. intros t Ht.
  unfold send_signal in Hs. destruct (Nat.eqb_spec id 0) as [|_]; [done|]. destruct (Signal_exit_code s) eqn:Hcode.
  - apply keeps_signalled; [|congruence]. destruct (Nat.eqb_spec id (k_current k)) as [->|Hne]; [destruct Hl as (u & Hu & ?); congruence|].
    unfold map_err in Hs. destruct (kill_task id z k) as [r1 k1] eqn:Hk. apply kill_task_spec in Hk.
    destruct r1 as [[]|]; [|done]. destruct Hk as [[u [_ _ Hu _ Hal]] _]. assert (u = t) as -> by congruence.
    intros Hr. by rewrite Hr in Hal.
  - destruct (controlled_task _ _ _) as [u|] eqn:Hct; [|done]. apply controlled_task_ok in Hct as (Hu & _ & Hal).
    assert (u = t) as -> by congruence. apply keeps_signalled; [|done]. intros Hr. by rewrite Hr in Hal.
Qed.

Lemma deliver_all_only ids s k n k' :
  current_live k → deliver_all ids s k = (n, k') →
  evolves (only (λ i, i ≠ 0%nat ∧ can_control_task_locked (k_current k) i k = true)) k k'.
Proof.
  revert k n. induction ids as [|id ids IH]; intros k n Hl; simpl; [intros [= _ <-]; apply evolves_refl, only_refl|].
  destruct (send_signal id s k) as [r k1] eqn:Hs. destruct (deliver_all ids s k1) as [m k2] eqn:Hd. intros [= _ <-].
  apply send_signal_only in Hs; [|done]. pose proof (current_live_only _ _ _ Hl Hs) as Hl1. specialize (IH _ _ Hl1 Hd).
  eapply evolves_trans; [apply only_trans|exact Hs|]. eapply evolves_impl, IH. intros i t t' _.
  apply only_mono. rewrite (ev_current _ _ _ Hs). by rewrite (can_control_only _ _ _ _ _ Hs).
Qed.

Lemma send_group_only g s k r k' :
  current_live k → send_signal_to_group g s k = (r, k') →
  evolves (only (λ i, i ≠ 0%nat ∧ can_control_task_locked (k_current k) i k = true)) k k'.
Proof.
  intros Hl. unfold send_signal_to_group. destruct (group_members g k) as [|id ids]; [intros [= _ <-]; apply evolves_refl, only_refl|].
  destruct (deliver_all (id :: ids) s k) as [n k1] eqn:Hd. apply deliver_all_only in Hd; [|done].
  by case_match; intros [= _ <-].
Qed.

(** ** Reaping and address spaces *)
Lemma enumerate_elem {A} (l : list A) i x : (i, x) ∈ enumerate l ↔ l !! i = Some x.
Proof.
  unfold enumerate. rewrite list_elem_of_lookup. split.
  - intros [j Hj]. rewrite lookup_zip_with in Hj. apply bind_Some in Hj as (a & Ha & (b & Hb & [= <- <-])%bind_Some).
    apply lookup_seq in Ha as [-> _]. done.
  - intros Hi. exists i. rewrite lookup_zip_with. pose proof (lookup_lt_Some _ _ _ Hi).
    rewrite (proj2 (lookup_seq 0 (length l) i i)) by lia. simpl. by rewrite Hi.
Qed.

Lemma existsb_enumerate {A} (f : nat → A → bool) l :
  existsb (λ '(i, x), f i x) (enumerate l) = true ↔ ∃ i x, l !! i = Some x ∧ f i x = true.
Proof.
  rewrite existsb_exists. split.
  - intros [[i x] [Hin Hf]]. apply list_elem_of_In, enumerate_elem in Hin. eauto.
  - intros (i & x & Hi & Hf). exists (i, x). split; [|done]. by apply list_elem_of_In, enumerate_elem.
Qed.

(** The address space [p] is in use by a task that is not reaped. *)
Definition live_space (ts : list Task) (p : Z) : Prop := ∃ i t, ts !! i = Some t ∧ uses_space p t = true.

Lemma uses_space_spec p t : uses_space p t = true ↔ t_pml4 t = Some p ∧ t_status t ≠ Reaped.
Proof. unfold uses_space. by rewrite andb_true_iff, negb_true_iff, bool_decide_eq_true, is_status_false. Qed.

(** A reaped task: no stack, perhaps no address space, the rest as [f] left it. *)
Record reaped_from (t t' : Task) : Prop := {
  rp_status : t_status t' = Reaped;
  rp_stack : t_stack t' = None;
  rp_parent : t_parent t' = t_parent t;
  rp_creds : t_credentials t' = t_credentials t;
  rp_pending : t_pending_signal t' = Some Stop → t_pending_signal t = Some Stop }.
Definition harmless (f : Task → Task) : Prop :=
  ∀ t, t_pml4 (f t) = t_pml4 t ∧ t_status (f t) = t_status t ∧ t_parent (f t) = t_parent t ∧ t_credentials (f t) = t_credentials t ∧
    t_pending_signal (f t) = t_pending_signal t.

(** Of the spaces in use before, the ones in [ps] were freed and the others are in use. *)
Record accounts (ts : list Task) (ps : list Z) (ts' : list Task) : Prop := {
  ac_live : ∀ q, live_space ts q ↔ live_space ts' q ∨ q ∈ ps;
  ac_freed : ∀ q, q ∈ ps → ¬ live_space ts' q;
  ac_nodup : NoDup ps }.

Lemma accounts_refl ts : accounts ts [] ts.
Proof. split; [|set_solver|apply NoDup_nil_2]. intros q. split; [auto|]. intros [?|Hq]; [done|]. by apply elem_of_nil in Hq. Qed.
Lemma accounts_trans ts1 ts2 ts3 ps qs : accounts ts1 ps ts2 → accounts ts2 qs ts3 → accounts ts1 (ps ++ qs) ts3.
Proof.
  intros [L1 F1 N1] [L2 F2 N2]. assert (∀ q, q ∈ ps → q ∉ qs) as Hd.
  { intros q Hp Hq. apply (F1 q Hp). apply L2. by right. }
  split.
  - intros q. rewrite L1, L2, elem_of_app. tauto.
  - intros q [Hq|Hq]%elem_of_app; [|auto]. intros Hl. apply (F1 q Hq), L2. by left.
  - apply NoDup_app. split_and!; done.
Qed.

(** The spaces in use when task [id] does not count. *)
Definition used_beside (id : nat) (ts : list Task) (q : Z) : Prop :=
  ∃ i u, i ≠ id ∧ ts !! i = Some u ∧ uses_space q u = true.

Lemma live_space_beside id ts q t :
  ts !! id = Some t → live_space ts q ↔ used_beside id ts q ∨ uses_space q t = true.
Proof.
  intros Hid. unfold live_space, used_beside. split.
  - intros (i & u & Hi & Hu). destruct (decide (i = id)) as [->|Hn]; [right; congruence|left; eauto].
  - intros [(i & u & _ & Hi & Hu)|Hu]; eauto.
Qed.
Lemma used_beside_same id ts ts' q : (∀ i, i ≠ id → ts' !! i = ts !! i) → used_beside id ts' q ↔ used_beside id ts q.
Proof. intros Hs. unfold used_beside. split; intros (i & u & Hn & Hi & Hu); exists i, u; rewrite ?Hs in * by done; done. Qed.

Lemma still_live_spec id ts q :
  existsb (λ '(i, u), negb (i =? id)%nat && uses_space q u) (enumerate ts) = true ↔ used_beside id ts q.
Proof.
  rewrite (existsb_enumerate (λ i u, negb (i =? id)%nat && uses_space q u)). unfold used_beside.
  split; intros (i & u & H); exists i, u; rewrite andb_true_iff, negb_true_iff, Nat.eqb_neq in *; tauto.
Qed.
Lemma used_beside_dec id ts q : used_beside id ts q ∨ ¬ used_beside id ts q.
Proof. rewrite <- still_live_spec. destruct (existsb _ _); auto. Qed.

Lemma take_reap_spec id ts t p ts' :
  ts !! id = Some t → t_status t = Reaped → take_reap_pml4_locked id ts = (p, ts') →
  length ts' = length ts ∧ (∀ i, i ≠ id → ts' !! i = ts !! i) ∧
  ts' !! id = Some (match p with Some _ => set_pml4 None t | None => t end) ∧
  (∀ q, p = Some q ↔ t_pml4 t = Some q ∧ ¬ used_beside id ts q).
Proof.
  intros Hid Hst. unfold take_reap_pml4_locked. rewrite Hid. destruct (t_pml4 t) as [q0|]; [|intros [= <- <-]; split_and!; try done; by intros q; split; [|intros [? _]]].
  destruct (existsb _ _) eqn:He; intros [= <- <-].
  - apply still_live_spec in He. split_and!; [done..|]. intros q. split; [done|]. by intros [[= ->] Hn].
  - split_and!; [apply length_alter|by intros; apply list_lookup_alter_ne|by rewrite list_lookup_alter_eq, Hid|].
    intros q. split; [|by intros [? _]]. intros [= ->]. split; [done|]. rewrite <- still_live_spec. by rewrite He.
Qed.

Lemma elem_of_option_list {A} (p : option A) q : q ∈ option_list p ↔ p = Some q.
Proof. destruct p; simpl; [rewrite list_elem_of_singleton|rewrite elem_of_nil]; naive_solver. Qed.

Lemma reap_locked_spec id f ts t p ts' :
  harmless f → ts !! id = Some t → t_status t ≠ Reaped → reap_locked id f ts = (p, ts') →
  length ts' = length ts ∧ (∀ i, i ≠ id → ts' !! i = ts !! i) ∧
  (∃ t', ts' !! id = Some t' ∧ reaped_from t t') ∧ accounts ts (option_list p) ts'.
Proof.
  intros Hf Hid Hst Hr. unfold reap_locked in Hr. set (g := λ t, release_task_stack (f (set_status Reaped t))) in *.
  destruct (Hf (set_status Reaped t)) as (Hf1 & Hf2 & Hf3 & Hf4 & Hf5). simpl in Hf3, Hf4, Hf5.
  assert (alter g id ts !! id = Some (g t)) as Hg by by rewrite list_lookup_alter_eq, Hid.
  destruct (take_reap_spec _ _ _ _ _ Hg Hf2 Hr) as (Hl & Ho & Ht & Hp). rewrite length_alter in Hl.
  assert (∀ i, i ≠ id → alter g id ts !! i = ts !! i) as Ha by (intros; by apply list_lookup_alter_ne).
  assert (∀ i, i ≠ id → ts' !! i = ts !! i) as Hts by (intros i Hi; by rewrite Ho, Ha).
  assert (∀ q, live_space ts' q ↔ used_beside id ts q) as Hlive.
  { intros q. rewrite (live_space_beside id _ _ _ Ht), (used_beside_same _ _ _ _ Hts).
    split; [|by left]. intros [?|Hu]; [done|]. apply uses_space_spec in Hu as [_ Hu]. by destruct p. }
  assert (∀ q, p = Some q ↔ t_pml4 t = Some q ∧ ¬ used_beside id ts q) as Hp'.
  { intros q. rewrite Hp, (used_beside_same _ _ _ _ Ha). unfold g. simpl. by rewrite Hf1. }
  split_and!; [done|done|eexists; split; [exact Ht|]; destruct p; split; simpl; try congruence; done|]. split.
  - intros q. rewrite Hlive, (live_space_beside id ts q t Hid), uses_space_spec.
    rewrite elem_of_option_list, Hp'. destruct (used_beside_dec id ts q); tauto.
  - intros q Hq%elem_of_option_list. rewrite Hlive. by apply Hp'.
  - destruct p; [apply NoDup_singleton|apply NoDup_nil_2].
Qed.

(** An operation that ends, wakes, signals or reaps tasks: each task keeps its
    identity or is reaped, and exactly the spaces [ps] that went out of use are freed. *)
Definition settled (cur i : nat) (t t' : Task) : Prop :=
  keeps t t' ∨ i ≠ 0%nat ∧ i ≠ cur ∧ t_status t ≠ Reaped ∧ reaped_from t t'.
Record settles (ps : list Z) (k k' : Kernel) : Prop := {
  se_length : length (k_tasks k') = length (k_tasks k);
  se_current : k_current k' = k_current k;
  se_cpu : k_cpu k' = k_cpu k;
  se_words : k_words k' = k_words k;
  se_freed : k_freed k' = k_freed k ++ ps;
  se_accounts : accounts (k_tasks k) ps (k_tasks k');
  se_tasks : ∀ i t, get_task i k = Some t → ∃ t', get_task i k' = Some t' ∧ settled (k_current k) i t t' }.

Lemma keeps_uses q t t' : keeps t t' → uses_space q t' = uses_space q t.
Proof.
  intros Hk. apply eq_bool_prop_intro. rewrite !Is_true_true, !uses_space_spec, (keeps_pml4 _ _ Hk).
  by rewrite (kp_reaped _ _ Hk).
Qed.

Lemma evolves_settles C k k' : evolves (only C) k k' → settles [] k k'.
Proof.
  intros He. pose proof He as [Hl Hc Hcpu Hw Hf Ht]. split; try done.
  - by rewrite app_nil_r.
  - assert (∀ q, live_space (k_tasks k) q ↔ live_space (k_tasks k') q) as Hq.
    { intros q. split; intros (i & t & Hi & Hu).
      - destruct (Ht i t Hi) as (t' & Hi' & Hk & _). exists i, t'. split; [done|]. by rewrite (keeps_uses _ _ _ Hk).
      - destruct (get_task_back _ _ _ i t He Hi) as (t0 & Hi0 & Hk & _). exists i, t0. split; [done|].
        by rewrite <- (keeps_uses _ _ _ Hk). }
    split; [|intros q Hin; by apply elem_of_nil in Hin|apply NoDup_nil_2].
    intros q. rewrite elem_of_nil, Hq. tauto.
  - intros i t Hi. destruct (Ht i t Hi) as (t' & Hi' & Hk & _). exists t'. split; [done|by left].
Qed.

Lemma settled_trans cur i t1 t2 t3 : settled cur i t1 t2 → settled cur i t2 t3 → settled cur i t1 t3.
Proof.
  intros [K1|(H0 & H1 & R1 & P1)] [K2|(H0' & H1' & R2 & P2)].
  - left. by eapply keeps_trans.
  - right. split_and!; [done..| |].
    + by rewrite <- (kp_reaped _ _ K1).
    + destruct P2. split; [done..| | |]; rewrite ?(keeps_parent _ _ K1), ?(keeps_creds _ _ K1) in *; try done.
      intros Hp. apply K1. auto.
  - right. split_and!; [done..|]. destruct P1. split.
    + by apply (kp_reaped _ _ K2).
    + by rewrite (keeps_stack _ _ K2).
    + by rewrite (keeps_parent _ _ K2).
    + by rewrite (keeps_creds _ _ K2).
    + intros Hp. apply (kp_pending _ _ K2) in Hp. auto.
  - destruct R2. apply P1.
Qed.

Lemma settles_trans ps qs k1 k2 k3 : settles ps k1 k2 → settles qs k2 k3 → settles (ps ++ qs) k1 k3.
Proof.
  intros [?? ? ? F1 A1 T1] [?? ? ? F2 A2 T2]. split; try congruence.
  - rewrite F2, F1. by rewrite app_assoc.
  - by eapply accounts_trans.
  - intros i t Hi. destruct (T1 i t Hi) as (t' & Hi' & S1). destruct (T2 i t' Hi') as (t'' & Hi'' & S2).
    exists t''. split; [done|]. eapply settled_trans; [done|]. congruence.
Qed.

(** Reaping [id], as [waitpid], [reap_all_exited] and [force_reclaim_task] do. *)
Lemma reap_settles id f k t p ts' :
  harmless f → id ≠ 0%nat → id ≠ k_current k → get_task id k = Some t → t_status t ≠ Reaped →
  reap_locked id f (k_tasks k) = (p, ts') → settles (option_list p) k (frees p (set_tasks ts' k)).
Proof.
  intros Hf H0 Hc Ht Hs Hr. destruct (reap_locked_spec _ _ _ _ _ _ Hf Ht Hs Hr) as (Hl & Ho & (t' & Ht' & Hrf) & Ha).
  assert (k_tasks (frees p (set_tasks ts' k)) = ts') as Hts by by destruct p.
  split; rewrite ?Hts; try (by destruct p); [by destruct p; simpl; rewrite ?app_nil_r|].
  intros i u Hi. unfold get_task. rewrite Hts. destruct (decide (i = id)) as [->|Hn].
  - exists t'. split; [done|]. right. simplify_eq. done.
  - exists u. rewrite Ho by done. split; [done|]. left. apply keeps_refl.
Qed.

Lemma harmless_id : harmless (λ t, t).
Proof. by intros t. Qed.

Lemma waitpid_settles id k r k' :
  (∀ t, get_task id k = Some t → t_parent t ≠ Some id) →
  waitpid (k_current k) id k = (r, k') → ∃ ps, settles ps k k'.
Proof.
  intros Hp. assert (∃ ps, settles ps k k) as Hsame by (exists []; eapply (evolves_settles (λ _, True)), evolves_refl, only_refl).
  unfold waitpid. destruct (Nat.eqb_spec id 0) as [->|H0]; [by intros [= _ <-]|].
  destruct (get_task id k) as [t|] eqn:Ht; [|by intros [= _ <-]].
  destruct (is_parent (k_current k) t) eqn:Hpar; simpl; [|by intros [= _ <-]].
  destruct (t_status t) eqn:Hs; try (by intros [= _ <-]).
  destruct (reap_locked id _ (k_tasks k)) as [p ts] eqn:Hr. intros [= _ <-]. exists (option_list p).
  eapply reap_settles; [apply harmless_id|done| |done|congruence|done].
  intros ->. unfold is_parent in Hpar. apply orb_true_iff in Hpar as [Hpar|Hpar].
  - apply bool_decide_eq_true in Hpar. by apply (Hp t).
  - by apply Nat.eqb_eq in Hpar.
Qed.

(** No task is its own parent. *)
Definition no_self_parent (k : Kernel) : Prop := ∀ id t, get_task id k = Some t → t_parent t ≠ Some id.

Lemma settled_parent cur i t t' : settled cur i t t' → t_parent t' = t_parent t.
Proof. intros [Hk|(_ & _ & _ & Hr)]; [by apply keeps_parent|apply Hr]. Qed.
Lemma settles_back ps k k' i t' :
  settles ps k k' → get_task i k' = Some t' → ∃ t, get_task i k = Some t ∧ settled (k_current k) i t t'.
Proof.
  intros Hs Hi. destruct (get_task i k) as [t|] eqn:Ht.
  - destruct (se_tasks _ _ _ Hs i t Ht) as (u & Hu & HR). exists t. by simplify_eq.
  - unfold get_task in *. apply lookup_lt_Some in Hi. rewrite (se_length _ _ _ Hs) in Hi. apply lookup_ge_None in Ht. lia.
Qed.
Lemma settles_no_self ps k k' : settles ps k k' → no_self_parent k → no_self_parent k'.
Proof.
  intros Hs Hn i t' Hi. destruct (settles_back _ _ _ _ _ Hs Hi) as (t & Ht & Hset).
  rewrite (settled_parent _ _ _ _ Hset). by apply Hn.
Qed.
Lemma settles_refl k : settles [] k k.
Proof. eapply (evolves_settles (λ _, True)), evolves_refl, only_refl. Qed.

Lemma reap_loop_settles ids k n ps ts' :
  no_self_parent k → reap_loop (k_current k) ids (k_tasks k) = (n, ps, ts') →
  settles ps k (free_address_spaces ps (set_tasks ts' k)).
Proof.
  revert k n ps. induction ids as [|id ids IH]; intros k n ps Hn; simpl.
  { intros [= <- <- <-]. destruct k as [[]]. unfold free_address_spaces. simpl. rewrite app_nil_r. apply settles_refl. }
  destruct ((id =? 0)%nat || _) eqn:Hskip; [by apply IH|]. apply orb_false_iff in Hskip as [H0%Nat.eqb_neq Hre].
  apply negb_false_iff in Hre. destruct (k_tasks k !! id) as [t|] eqn:Ht; [|done].
  apply andb_true_iff in Hre as [Hex%is_status_spec Hpar].
  destruct (reap_locked id _ (k_tasks k)) as [p ts1] eqn:Hr. destruct (reap_loop _ ids ts1) as [[n1 ps1] ts2] eqn:Hl.
  intros [= <- <- <-]. assert (id ≠ k_current k) as Hc.
  { intros ->. unfold is_parent in Hpar. apply orb_true_iff in Hpar as [Hpar%bool_decide_eq_true|Hpar%Nat.eqb_eq]; [|done].
    by apply (Hn _ _ Ht). }
  pose proof (reap_settles id (λ t, t) k t p ts1 harmless_id H0 Hc Ht ltac:(congruence) Hr) as S1.
  set (k1 := frees p (set_tasks ts1 k)) in *. assert (k_current k1 = k_current k ∧ k_tasks k1 = ts1) as [Hc1 Ht1] by by destruct p.
  assert (free_address_spaces (option_list p ++ ps1) (set_tasks ts2 k) = free_address_spaces ps1 (set_tasks ts2 k1)) as ->.
  { subst k1. destruct p; unfold free_address_spaces, set_tasks, set_sched; simpl; by rewrite <- ?app_assoc. }
  eapply settles_trans; [exact S1|]. eapply (IH _ n1); [by eapply settles_no_self|]. by rewrite Hc1, Ht1.
Qed.

Lemma reap_all_settles k n k' : no_self_parent k → reap_all_exited (k_current k) k = (n, k') → ∃ ps, settles ps k k'.
Proof.
  intros Hn. unfold reap_all_exited. destruct (reap_loop _ _ _) as [[c ps] ts] eqn:Hl. intros [= _ <-].
  exists ps. by eapply reap_loop_settles.
Qed.

Lemma force_reclaim_settles id code k r k' : force_reclaim_task id code k = (r, k') → ∃ ps, settles ps k k'.
Proof.
  assert (∃ ps, settles ps k k) as Hsame by (exists []; apply settles_refl).
  unfold force_reclaim_task. destruct (Nat.eqb_spec id 0) as [->|H0]; [by intros [= _ <-]|].
  destruct (Nat.eqb_spec id (k_current k)) as [->|Hc]; [by intros [= _ <-]|].
  destruct (get_task id k) as [t|] eqn:Ht; [|by intros [= _ <-]].
  destruct (is_status (t_status t) Exited) eqn:H1; [by intros [= _ <-]|].
  destruct (is_status (t_status t) Reaped) eqn:H2; [by intros [= _ <-]|].
  destruct (reap_locked id _ (k_tasks k)) as [p ts] eqn:Hr. intros [= _ <-]. exists (option_list p ++ []).
  assert (t_status t ≠ Reaped) as Hnr by (intros Hx; by rewrite Hx in H2).
  assert (harmless (λ t, set_wake_tick None (set_exit_code (Some code) t))) as Hh by by intros u.
  pose proof (reap_settles id _ k t p ts Hh H0 Hc Ht Hnr Hr) as S1.
  assert (evolves woken (set_tasks ts k) (cleanup_task_resources id (wake_waiting_parent (t_parent t) id (set_tasks ts k)))) as W.
  { eapply evolves_trans; [apply woken_trans|apply wake_waiting_parent_evolves|apply cleanup_evolves]. }
  eapply settles_trans; [exact S1|]. apply (woken_only (λ _, True)), evolves_settles in W.
  destruct p as [p|]; simpl; [|done]. destruct W as [???? Wf W1 W2]. split; try done.
  simpl. rewrite Wf. simpl. by rewrite !app_nil_r.
Qed.

Lemma reclaim_settles u code k r k' : reclaim_largest_user_task u code k = (r, k') → ∃ ps, settles ps k k'.
Proof.
  unfold reclaim_largest_user_task. destruct (max_by_key _ _) as [m|]; [|intros [= _ <-]; exists []; apply settles_refl].
  destruct (force_reclaim_task (tm_pid m) code k) as [r1 k1] eqn:Hf. apply force_reclaim_settles in Hf.
  by destruct r1; intros [= _ <-].
Qed.

(** ** Spawning *)
#[local] Opaque stack_top_of write_words initial_frame.

(** What a new task looks like. *)
Record fresh_task (addr : Z) (pml4 : option Z) (tls : Z) (k : Kernel) (t : Task) : Prop := {
  ft_status : t_status t = Ready;
  ft_stack : t_stack t = Some addr;
  ft_top : t_syscall_stack_top t = stack_top_of addr;
  ft_ptr : t_stack_ptr t = stack_top_of addr - 160;
  ft_parent : t_parent t = Some (k_current k);
  ft_pml4 : t_pml4 t = pml4;
  ft_tls : t_tls_base t = tls;
  ft_wake : t_wake_tick t = None;
  ft_pending : t_pending_signal t = None;
  ft_exit : t_exit_code t = None }.

(** [k'] is [k] with the new task [t] at the end, its frame on its stack. *)
Record spawned (addr : Z) (frame : list Z) (t : Task) (k k' : Kernel) : Prop := {
  sp_tasks : k_tasks k' = k_tasks k ++ [t];
  sp_current : k_current k' = k_current k;
  sp_cpu : k_cpu k' = k_cpu k;
  sp_words : k_words k' = write_words (stack_top_of addr - 160) frame (k_words k);
  sp_freed : k_freed k' = k_freed k }.

Lemma spawn_context_spec alloc ic nm cx k r k' :
  k_tasks k ≠ [] → spawn_context alloc ic nm cx k = (r, k') →
  match r with
  | None => k' = k ∧ alloc = None
  | Some id => ∃ addr t, alloc = Some addr ∧ id = length (k_tasks k) ∧ fresh_task addr (cx_pml4 cx) (cx_tls cx) k t ∧
      spawned addr (initial_frame (cx_rip cx) (cx_cs cx) (default (stack_top_of addr - 8) (cx_rsp cx)) (cx_ss cx) (cx_rdi cx) (cx_rsi cx)) t k k'
  end.
Proof.
  intros Hne. unfold spawn_context. destruct alloc as [addr|]; [|by intros [= <- <-]].
  intros [<- <-]%pair_equal_spec. eexists addr, _. split_and!; [done|done| |split; reflexivity].
  assert ((length (k_tasks k) =? 0)%nat = false) as -> by (apply Nat.eqb_neq; by destruct (k_tasks k)). by split.
Qed.

Lemma spawned_upd addr frame t f k k' :
  spawned addr frame t k k' → spawned addr frame (f t) k (upd_task (length (k_tasks k)) f k').
Proof.
  intros [Ht ????]. split; try done. simpl. rewrite Ht. apply list_eq. intros i.
  destruct (decide (i = length (k_tasks k))) as [->|Hn].
  - rewrite list_lookup_alter_eq, !list_lookup_middle; done.
  - rewrite list_lookup_alter_ne by done. destruct (decide (i < length (k_tasks k))%nat).
    + by rewrite !lookup_app_l.
    + rewrite !lookup_ge_None_2; [done|..]; rewrite length_app; simpl; lia.
Qed.
Lemma spawned_vfs addr frame t st k k' : spawned addr frame t k k' → spawned addr frame t k (set_vfs st k').
Proof. by intros []. Qed.

(** A spawn that is undone leaves the old tasks, at most woken. *)
Lemma spawn_undone addr frame t id k k1 :
  spawned addr frame t k k1 → evolves woken k (set_words (k_words k) (pop_task (vfs_drop_task id k1))).
Proof.
  intros [Ht Hc Hcpu Hw Hf]. pose proof (vfs_drop_task_evolves id k1) as W. set (k2 := vfs_drop_task id k1) in *.
  pose proof W as [Wl Wc Wcpu Ww Wf Wt]. assert (length (k_tasks k2) = S (length (k_tasks k))) as Hl2.
  { rewrite Wl, Ht, length_app. simpl. lia. }
  assert (removelast (k_tasks k2) = take (length (k_tasks k)) (k_tasks k2)) as Hr.
  { destruct (exists_last (l := k_tasks k2)) as (l & x & Hx); [intros Hx; by rewrite Hx in Hl2|].
    rewrite Hx, removelast_last, length_app in *. simpl in Hl2. rewrite take_app_length'; [done|lia]. }
  split; simpl; try congruence.
  - rewrite Hr, length_take. lia.
  - intros i u Hi. unfold get_task in *. simpl. pose proof (lookup_lt_Some _ _ _ Hi) as Hlt.
    rewrite Hr, lookup_take_lt by done. apply Wt. unfold get_task. rewrite Ht. by apply lookup_app_l_Some.
Qed.

(** The frame a ring-3 task starts from. *)
Definition user_frame (sel : Selectors) (entry rsp rdi : Z) : list Z :=
  initial_frame entry (user_cs sel) rsp (user_ss sel) rdi 0.

Lemma spawn_user_spec sel alloc ic nm entry rsp pml4 fds creds k b k' :
  k_tasks k ≠ [] → spawn_user_with_fds_and_credentials sel alloc ic nm entry rsp pml4 fds creds k = (b, k') →
  if b then ∃ addr t, alloc = Some addr ∧ fresh_task addr (Some pml4) 0 k t ∧ spawned addr (user_frame sel entry rsp 0) t k k' ∧
              (active_task_count k < MAX_ACTIVE_TASKS)%nat
  else ∃ k1, evolves woken k (set_words (k_words k) k1) ∧ k' = free_address_spaces [pml4] k1.
Proof.
  intros Hne. unfold spawn_user_with_fds_and_credentials.
  assert (evolves woken k (set_words (k_words k) k)) as Hsame by (destruct k; apply evolves_refl, woken_refl).
  destruct (Nat.leb_spec MAX_ACTIVE_TASKS (active_task_count k)) as [|Hlt]; [intros [= <- <-]; by exists k|].
  destruct (spawn_context _ _ _ _ k) as [r k1] eqn:Hs. apply spawn_context_spec in Hs; [|done].
  destruct r as [id|]; [|destruct Hs as [-> _]; intros [= <- <-]; by exists k].
  destruct Hs as (addr & t & -> & -> & Hft & Hsp). cbn [cx_rip cx_cs cx_rsp cx_ss cx_pml4 cx_rdi cx_rsi cx_tls default] in *.
  set (k2 := match creds with Some _ => _ | None => _ end).
  assert (∃ t2, fresh_task addr (Some pml4) 0 k t2 ∧ spawned addr (user_frame sel entry rsp 0) t2 k k2) as (t2 & Hft2 & Hsp2).
  { subst k2. destruct creds as [c|]; [|by exists t]. exists (set_creds c t). split; [by destruct Hft|by apply spawned_upd]. }
  set (f := λ t, set_user_stack (t_thread_group t) (Some USER_STACK_BOTTOM) t).
  apply (spawned_upd _ _ _ f) in Hsp2. destruct (inherit_fds _ _ _ _) as [ok st].
  apply (spawned_vfs _ _ _ st) in Hsp2. destruct ok; intros [<- <-]%pair_equal_spec.
  - exists addr, (f t2). split_and!; [done|by destruct Hft2|done|done].
  - eexists. split; [by eapply spawn_undone|done].
Qed.

Lemma spawn_thread_spec sel alloc ic entry rsp arg bottom tls k r k' :
  spawn_user_thread sel alloc ic entry rsp arg bottom tls k = (r, k') →
  match r with
  | Some id => ∃ addr pt p t, alloc = Some addr ∧ id = length (k_tasks k) ∧ current_task k = Some pt ∧ t_pml4 pt = Some p ∧
      fresh_task addr (Some p) tls k t ∧ t_user_stack_bottom t = Some bottom ∧ t_thread_group t = t_thread_group pt ∧
      spawned addr (user_frame sel entry rsp arg) t k k' ∧ (active_task_count k < MAX_ACTIVE_TASKS)%nat
  | None => evolves woken k (set_words (k_words k) k')
  end.
Proof.
  unfold spawn_user_thread. assert (evolves woken k (set_words (k_words k) k)) as Hsame by (destruct k; apply evolves_refl, woken_refl).
  destruct (Nat.leb_spec MAX_ACTIVE_TASKS (active_task_count k)) as [|Hlt]; [by intros [= <- <-]|].
  destruct (get_task (k_current k) k) as [pt|] eqn:Hpt; [|by intros [= <- <-]].
  destruct (t_pml4 pt) as [p|] eqn:Hp; [|by intros [= <- <-]].
  assert (k_tasks k ≠ []) as Hne by (intros Hn; unfold get_task in Hpt; by rewrite Hn in Hpt).
  destruct (spawn_context _ _ _ _ k) as [r1 k1] eqn:Hs. apply spawn_context_spec in Hs; [|done].
  destruct r1 as [id|]; [|destruct Hs as [-> _]; by intros [= <- <-]].
  destruct Hs as (addr & t & -> & -> & Hft & Hsp). cbn [cx_rip cx_cs cx_rsp cx_ss cx_pml4 cx_rdi cx_rsi cx_tls default] in *.
  set (f := set_user_stack (t_thread_group pt) (Some bottom)). apply (spawned_upd _ _ _ f) in Hsp.
  destruct (inherit_all_fds _ _ _) as [ok st]. apply (spawned_vfs _ _ _ st) in Hsp.
  destruct ok; intros [<- <-]%pair_equal_spec; [|by eapply spawn_undone].
  exists addr, pt, p, (f t). split_and!; try done. by destruct Hft.
Qed.
