(* ===== verification/ProcessRun.v ===== *)
(** * The scheduler as a transition system

    Any sequence of timer interrupts, system calls of the running task, page
    faults, wake-ups and memory reclaims.  The invariant [sched_ok] holds in
    every state: there is one running task at most, it still has its kernel
    stack and page table, and the CPU runs with that task's page table, stacks
    and thread-local base.  Address spaces are freed exactly when their last
    task is reaped, ready tasks run in turn, and a parent that waits for
    a child is woken when the child ends. *)
From stdpp Require Import gmap.
From S2P Require Import Prelude Security Pipe FdTable FdInv Process MemoryPressure ProcessInv.

Local Open Scope Z_scope.

(** ** The scheduling decision *)
Definition ready (ts : list Task) (i : nat) : bool :=
  match ts !! i with Some t => is_status (t_status t) Ready | None => false end.

Lemma find_ready_spec fuel start ts :
  (start < length ts)%nat →
  match find_ready fuel start ts with
  | Some j => ∃ d, (d < fuel)%nat ∧ j = ((start + d) mod length ts)%nat ∧ ready ts j = true ∧
                ∀ e, (e < d)%nat → ready ts ((start + e) mod length ts) = false
  | None => ∀ e, (e < fuel)%nat → ready ts ((start + e) mod length ts) = false
  end.
Proof.
  revert start. induction fuel as [|fuel IH]; intros start Hs; simpl; [lia|].
  destruct (lookup_lt_is_Some_2 ts start Hs) as [t Ht]. rewrite Ht.
  assert (ready ts start = is_status (t_status t) Ready) as Hr by (unfold ready; by rewrite Ht).
  assert ((start + 0) mod length ts = start)%nat as H0 by (rewrite Nat.add_0_r; by apply Nat.mod_small).
  destruct (is_status (t_status t) Ready).
  { exists 0%nat. split_and!; [lia|done|done|lia]. }
  assert (∀ e, ((start + 1) mod length ts + e) mod length ts = (start + S e) mod length ts)%nat as Hshift.
  { intros e. rewrite Nat.Div0.add_mod_idemp_l. f_equal. lia. }
  assert ((start + 1) mod length ts < length ts)%nat as Hs' by (apply Nat.mod_upper_bound; lia).
  specialize (IH _ Hs'). destruct (find_ready fuel _ ts) as [j|].
  - destruct IH as (d & Hd & -> & Hj & Hbefore). exists (S d). rewrite Hshift in *. split_and!; [lia|done|done|].
    intros [|e] He; [by rewrite H0|]. rewrite <- Hshift. apply Hbefore. lia.
  - intros [|e] He; [by rewrite H0|]. rewrite <- Hshift. apply IH. lia.
Qed.

(** What a tick leaves alone in a task. *)
Definition core (t : Task) :=
  (t_stack t, t_syscall_stack_top t, t_parent t, t_credentials t, t_tls_base t, t_pml4 t, (t_user_stack_bottom t, t_thread_group t, t_exit_code t)).

Lemma core_save rsp t : core (save_current rsp t) = core t.
Proof. unfold save_current. by case_match. Qed.
Lemma core_tick now i t : core (tick_task now i t) = core t.
Proof.
  unfold tick_task. transitivity (core (wake_sleeper now t)).
  - unfold deliver_pending. destruct (t_pending_signal _) as [[]|]; try done; by case_match.
  - unfold wake_sleeper. by case_match.
Qed.
Lemma core_settled cur i t t' : settled cur i t t' → t_parent t' = t_parent t ∧ t_credentials t' = t_credentials t.
Proof. intros [Hk|(_ & _ & _ & Hr)]; [by rewrite (keeps_parent _ _ Hk), (keeps_creds _ _ Hk)|]. by destruct Hr. Qed.

(** The status of a task after a tick, before the next one is chosen. *)
Lemma save_not_running rsp t : t_status (save_current rsp t) ≠ Running.
Proof. unfold save_current. simpl. destruct (is_status _ _) eqn:E; [done|]. by apply is_status_false in E. Qed.
Lemma save_status rsp t : t_status t ≠ Running → t_status (save_current rsp t) = t_status t.
Proof. intros Hr. unfold save_current. simpl. apply is_status_false in Hr. by rewrite Hr. Qed.

Lemma tick_not_running now i t : t_status t ≠ Running → t_status (tick_task now i t) ≠ Running.
Proof.
  intros Hr. unfold tick_task. assert (t_status (wake_sleeper now t) ≠ Running) as Hw by (unfold wake_sleeper; by case_match).
  unfold deliver_pending. destruct (t_pending_signal _) as [[]|]; try done; simpl; by case_match.
Qed.
Lemma wake_reaped now t : t_status (wake_sleeper now t) = Reaped ↔ t_status t = Reaped.
Proof.
  unfold wake_sleeper. destruct (is_status _ _ && _) eqn:E; [|done].
  apply andb_true_iff in E as [E%is_status_spec _]. rewrite E. by split.
Qed.
Lemma deliver_reaped i u : t_status (deliver_pending i u) = Reaped ↔ t_status u = Reaped.
Proof.
  unfold deliver_pending, ends. destruct (t_pending_signal u) as [[]|]; simpl; try done;
    destruct (t_status u) eqn:Hu; simpl; rewrite ?Hu; try (by split); destruct (i =? 0)%nat; simpl; rewrite ?Hu; by split.
Qed.
Lemma tick_reaped now i t : t_status (tick_task now i t) = Reaped ↔ t_status t = Reaped.
Proof. unfold tick_task. by rewrite deliver_reaped, wake_reaped. Qed.

(** ** The invariant *)
(** A kernel stack the allocator may return. *)
Definition stack_addr_ok (addr : Z) : Prop := 0 < addr ∧ addr + STACK_SIZE < 2 ^ 64.

Lemma align16_mod x : 0 ≤ x < 2 ^ 64 → align16 x = x - x mod 16.
Proof.
  intros Hx. unfold align16. replace (2 ^ 64 - 16) with (Z.ldiff (Z.ones 64) (Z.ones 4)) by reflexivity.
  rewrite Z.ldiff_land, Z.land_assoc, <- Z.ldiff_land, Z.land_ones, Z.mod_small, Z.ldiff_ones_r by lia.
  rewrite Z.shiftr_div_pow2, Z.shiftl_mul_pow2 by lia. change (2 ^ 4) with 16. pose proof (Z.div_mod x 16). lia.
Qed.
Lemma stack_top_bounds addr :
  stack_addr_ok addr → addr + STACK_SIZE - 16 < stack_top_of addr ≤ addr + STACK_SIZE ∧ stack_top_of addr mod 16 = 0.
Proof.
  unfold stack_addr_ok, stack_top_of, STACK_SIZE. intros [Ha Hb]. rewrite align16_mod by lia.
  pose proof (Z.mod_pos_bound (addr + 64 * 1024) 16 ltac:(lia)). split; [lia|].
  rewrite Zminus_mod, Z.mod_mod, Z.sub_diag by lia. done.
Qed.
Lemma stack_top_pos addr : stack_addr_ok addr → 0 < stack_top_of addr.
Proof. intros Ha. pose proof (stack_top_bounds addr Ha). unfold stack_addr_ok, STACK_SIZE in *. lia. Qed.

Section Run.
Variable default_privilege_stack_top : Z.
Local Abbreviation schedule := (schedule default_privilege_stack_top).
Local Abbreviation timer_schedule := (timer_schedule default_privilege_stack_top).
Local Abbreviation activate := (activate default_privilege_stack_top).

(** The CPU runs with the state of task [t]. *)
Definition cpu_of (t : Task) : Cpu :=
  {| cpu_cr3 := t_pml4 t; cpu_fs_base := t_tls_base t; cpu_syscall_top := t_syscall_stack_top t;
     cpu_privilege_top := if t_syscall_stack_top t =? 0 then default_privilege_stack_top else t_syscall_stack_top t |}.

(** Its own kernel stack for every task but the idle one, until it is reaped;
    a kill that comes late can mark a reaped task exited again. *)
Definition stack_ok (i : nat) (t : Task) : Prop :=
  if (i =? 0)%nat then t_stack t = None ∧ t_syscall_stack_top t = 0 ∧ t_pml4 t = None ∧ t_status t ≠ Reaped
  else ends (t_status t) = true ∧ t_stack t = None ∨
       t_status t ≠ Reaped ∧ ∃ addr, t_stack t = Some addr ∧ stack_addr_ok addr ∧ t_syscall_stack_top t = stack_top_of addr.

Record sched_ok (k : Kernel) : Prop := {
  so_current : ∃ t, get_task (k_current k) k = Some t ∧ t_status t ≠ Reaped ∧ k_cpu k = cpu_of t;
  so_own : ∀ t, get_task (k_current k) k = Some t → k_current k ≠ 0%nat → is_Some (t_stack t);
  so_running : ∀ i t, get_task i k = Some t → t_status t = Running → i = k_current k;
  so_idle : (0 < length (k_tasks k))%nat;
  so_stack : ∀ i t, get_task i k = Some t → stack_ok i t;
  so_parent : ∀ i t p, get_task i k = Some t → t_parent t = Some p → (p < i)%nat }.

Lemma so_no_self k : sched_ok k → no_self_parent k.
Proof. intros Hok i t Hi Hp. pose proof (so_parent _ Hok _ _ _ Hi Hp). lia. Qed.
Lemma so_live k : sched_ok k → current_live k.
Proof. intros Hok. destruct (so_current _ Hok) as (t & Ht & Hr & _). by exists t. Qed.

Lemma stack_ok_ext i t t' :
  t_stack t' = t_stack t → t_syscall_stack_top t' = t_syscall_stack_top t → t_pml4 t' = t_pml4 t →
  (t_status t' = Reaped ↔ t_status t = Reaped) → (t_status t = Exited → t_status t' = Exited) → stack_ok i t → stack_ok i t'.
Proof.
  intros Hs Ht Hp Hr Hx. unfold stack_ok. rewrite Hs, Ht, Hp. destruct (i =? 0)%nat; rewrite Hr; [done|].
  intros [[He Hn]|?]; [left|by right]. split; [|done]. apply ends_spec in He as [He|He]; apply ends_spec; [left; auto|right; tauto].
Qed.

Lemma settles_ok ps k k' : sched_ok k → settles ps k k' → sched_ok k'.
Proof.
  intros Hok Hs. pose proof Hs as [Hl Hc Hcpu Hw Hf _ Ht]. split.
  - destruct (so_current _ Hok) as (t & Hcur & Hr & Hcp). destruct (Ht _ _ Hcur) as (t' & Hcur' & [Hk|(_ & ? & _)]); [|done].
    exists t'. rewrite Hc, Hcpu, Hcp. split_and!; [done|by rewrite (kp_reaped _ _ Hk)|].
    unfold cpu_of. by rewrite (keeps_pml4 _ _ Hk), (keeps_tls _ _ Hk), (keeps_top _ _ Hk).
  - rewrite Hc. intros t' Hi H0. destruct (settles_back _ _ _ _ _ Hs Hi) as (t & Hi0 & [Hk|(_ & ? & _)]); [|done].
    rewrite (keeps_stack _ _ Hk). by apply (so_own _ Hok).
  - intros i t' Hi Hr. rewrite Hc. destruct (settles_back _ _ _ _ _ Hs Hi) as (t & Hi0 & [Hk|(_ & _ & _ & Hrf)]).
    + eapply (so_running _ Hok); [done|]. by apply Hk.
    + by rewrite (rp_status _ _ Hrf) in Hr.
  - rewrite Hl. apply Hok.
  - intros i t' Hi. destruct (settles_back _ _ _ _ _ Hs Hi) as (t & Hi0 & [Hk|(H0 & _ & _ & Hrf)]).
    + eapply stack_ok_ext; [by apply keeps_stack|by apply keeps_top|by apply keeps_pml4|apply Hk|apply Hk|]. by apply (so_stack _ Hok).
    + unfold stack_ok. apply Nat.eqb_neq in H0. rewrite H0. left. split; [|apply Hrf]. apply ends_spec. right. apply Hrf.
  - intros i t' p Hi Hp. destruct (settles_back _ _ _ _ _ Hs Hi) as (t & Hi0 & Hset).
    rewrite (settled_parent _ _ _ _ Hset) in Hp. by eapply (so_parent _ Hok).
Qed.

(** ** A timer interrupt *)
Definition ticked (now rsp : Z) (cur i : nat) (t : Task) : Task :=
  tick_task now i (if (i =? cur)%nat then save_current rsp t else t).
Definition ticked_tasks (now rsp : Z) (k : Kernel) : list Task :=
  imap (tick_task now) (alter (save_current rsp) (k_current k) (k_tasks k)).

Lemma ticked_lookup now rsp k i : ticked_tasks now rsp k !! i = ticked now rsp (k_current k) i <$> get_task i k.
Proof.
  unfold ticked_tasks, ticked, get_task. rewrite list_lookup_imap. destruct (Nat.eqb_spec i (k_current k)) as [->|Hn].
  - rewrite list_lookup_alter_eq. by destruct (k_tasks k !! k_current k).
  - by rewrite list_lookup_alter_ne.
Qed.
Lemma ticked_length now rsp k : length (ticked_tasks now rsp k) = length (k_tasks k).
Proof. unfold ticked_tasks. by rewrite length_imap, length_alter. Qed.
Lemma ticked_core now rsp cur i t : core (ticked now rsp cur i t) = core t.
Proof. unfold ticked. rewrite core_tick. case_match; [apply core_save|done]. Qed.
Lemma ticked_reaped now rsp cur i t : t_status (ticked now rsp cur i t) = Reaped ↔ t_status t = Reaped.
Proof.
  unfold ticked. rewrite tick_reaped. case_match; [|done]. unfold save_current. simpl.
  destruct (is_status (t_status t) Running) eqn:E; [|done]. apply is_status_spec in E. simpl. rewrite E. by split.
Qed.

(** The task chosen: the first ready one after the current, or the idle task. *)
Definition next_task (now rsp : Z) (k : Kernel) : nat :=
  let ts := ticked_tasks now rsp k in
  default 0%nat (find_ready (length ts) ((k_current k + 1) mod length ts)%nat ts).

Record scheduled (now rsp : Z) (k k' : Kernel) : Prop := {
  sc_current : k_current k' = next_task now rsp k;
  sc_length : length (k_tasks k') = length (k_tasks k);
  sc_freed : k_freed k' = k_freed k;
  sc_words : k_words k' = k_words k;
  sc_vfs : k_vfs k' = k_vfs k;
  sc_futex : k_futex k' = k_futex k;
  sc_tasks : ∀ i, get_task i k' =
    (λ t, (if (i =? next_task now rsp k)%nat then set_status Running else id) (ticked now rsp (k_current k) i t)) <$> get_task i k }.

Lemma next_task_spec now rsp k :
  sched_ok k → ∃ t, get_task (next_task now rsp k) k = Some t ∧
    (t_status (ticked now rsp (k_current k) (next_task now rsp k) t) = Ready ∨ next_task now rsp k = 0%nat).
Proof.
  intros Hok. pose proof (so_idle _ Hok) as H0. unfold next_task. set (ts := ticked_tasks now rsp k).
  assert (length ts = length (k_tasks k)) as Hl by apply ticked_length.
  pose proof (find_ready_spec (length ts) ((k_current k + 1) mod length ts) ts ltac:(apply Nat.mod_upper_bound; lia)) as Hf.
  destruct (find_ready _ _ ts) as [j|]; simpl.
  - destruct Hf as (d & _ & _ & Hj & _). unfold ready in Hj. destruct (ts !! j) as [u|] eqn:Hu; [|done].
    apply is_status_spec in Hj. subst ts. rewrite ticked_lookup in Hu.
    destruct (get_task j k) as [t|]; [|done]. exists t. split; [done|]. left. by injection Hu as ->.
  - destruct (lookup_lt_is_Some_2 (k_tasks k) 0 H0) as [t Ht]. exists t. by split; [|right].
Qed.

Lemma schedule_scheduled now rsp k ptr k' :
  sched_ok k → schedule now rsp k = (ptr, k') →
  scheduled now rsp k k' ∧
  ∃ t, get_task (k_current k') k' = Some t ∧ t_status t = Running ∧ k_cpu k' = cpu_of t ∧ ptr = t_stack_ptr t.
Proof.
  intros Hok. pose proof (so_idle _ Hok) as H0. unfold Process.schedule.
  destruct (Nat.eqb_spec (length (k_tasks k)) 0); [lia|]. cbv zeta.
  change (imap (tick_task now) (alter (save_current rsp) (k_current k) (k_tasks k))) with (ticked_tasks now rsp k).
  change (default 0%nat _) with (next_task now rsp k). intros [<- <-]%pair_equal_spec.
  destruct (next_task_spec now rsp k Hok) as (t & Ht & _). set (next := next_task now rsp k) in *.
  assert (alter (set_status Running) next (ticked_tasks now rsp k) !! next = Some (set_status Running (ticked now rsp (k_current k) next t))) as Hn
    by by rewrite list_lookup_alter_eq, ticked_lookup, Ht.
  unfold Process.activate. rewrite Hn. split.
  - split; try done; simpl; [by rewrite length_alter, ticked_length|]. intros i. unfold get_task at 1. simpl.
    change (next_task now rsp k) with next. destruct (Nat.eqb_spec i next) as [->|Hne].
    + by rewrite Hn, Ht.
    + rewrite list_lookup_alter_ne, ticked_lookup by done. by destruct (get_task i k).
  - unfold get_task. simpl. rewrite Hn. simpl. eexists. split_and!; done.
Qed.

Lemma ticked_exited now rsp cur i t : t_status t = Exited → t_status (ticked now rsp cur i t) = Exited.
Proof.
  intros He. unfold ticked, tick_task. set (u := if (i =? cur)%nat then _ else _).
  assert (t_status u = Exited) as Hu by (subst u; case_match; [|done]; unfold save_current; simpl; by rewrite He).
  unfold wake_sleeper. rewrite Hu. simpl. unfold deliver_pending. destruct (t_pending_signal u) as [[]|]; simpl; rewrite ?Hu; simpl; try done.
  unfold ends. simpl. rewrite andb_false_r. done.
Qed.

(** The task a tick chooses is the idle task or has its stack. *)
Lemma next_has_stack now rsp k t :
  sched_ok k → get_task (next_task now rsp k) k = Some t → next_task now rsp k ≠ 0%nat →
  t_status t ≠ Reaped ∧ t_status t ≠ Exited ∧ is_Some (t_stack t).
Proof.
  intros Hok Ht H0. destruct (next_task_spec now rsp k Hok) as (u & Hu & [Hready|?]); [|done]. simplify_eq.
  assert (t_status t ≠ Reaped) as Hr.
  { intros Hr. apply (ticked_reaped now rsp (k_current k) (next_task now rsp k)) in Hr. congruence. }
  assert (t_status t ≠ Exited) as Hx.
  { intros Hx. apply (ticked_exited now rsp (k_current k) (next_task now rsp k)) in Hx. congruence. }
  split_and!; [done..|]. pose proof (so_stack _ Hok _ _ Ht) as Hst. unfold stack_ok in Hst. apply Nat.eqb_neq in H0. rewrite H0 in Hst.
  destruct Hst as [[[?|?]%ends_spec _]|(_ & addr & -> & _)]; [done..|by eexists].
Qed.
Lemma next_not_reaped now rsp k t : sched_ok k → get_task (next_task now rsp k) k = Some t → t_status t ≠ Reaped.
Proof.
  intros Hok Ht. destruct (decide (next_task now rsp k = 0%nat)) as [Hz|Hn]; [|by eapply next_has_stack].
  pose proof (so_stack _ Hok _ _ Ht) as Hst. rewrite Hz in Hst. unfold stack_ok in Hst. simpl in Hst. tauto.
Qed.

Lemma schedule_ok now rsp k ptr k' : sched_ok k → schedule now rsp k = (ptr, k') → sched_ok k'.
Proof.
  intros Hok Hs. destruct (schedule_scheduled _ _ _ _ _ Hok Hs) as ([Hc Hl Hf Hw _ _ Ht] & t & Hcur & Hrun & Hcpu & _).
  set (nx := next_task now rsp k) in *.
  assert (∀ i u', get_task i k' = Some u' → ∃ u, get_task i k = Some u ∧ core u' = core u ∧
    (t_status u' = Running → i = nx) ∧ (i ≠ nx → u' = ticked now rsp (k_current k) i u)) as Hback.
  { intros i u'. rewrite Ht. destruct (get_task i k) as [u|] eqn:Hi; [|done]. intros [= <-]. exists u.
    destruct (Nat.eqb_spec i nx) as [->|Hne]; simpl.
    - split_and!; try done. apply (ticked_core now rsp (k_current k)).
    - rewrite ticked_core. split_and!; try done. intros Hr. exfalso. revert Hr. apply tick_not_running.
      destruct (Nat.eqb_spec i (k_current k)); [apply save_not_running|]. intros Hr. by pose proof (so_running _ Hok _ _ Hi Hr). }
  split.
  - exists t. by rewrite Hrun.
  - intros u' Hi H0. destruct (Hback _ u' Hi) as (u & Hu & Hcore & _). unfold core in Hcore. rewrite Hc in *.
    assert (t_stack u' = t_stack u) as -> by congruence. by eapply (next_has_stack now rsp).
  - intros i u' Hi Hr. destruct (Hback i u' Hi) as (u & _ & _ & ? & _). rewrite Hc. auto.
  - rewrite Hl. apply Hok.
  - intros i u' Hi. destruct (Hback i u' Hi) as (u & Hu & Hcore & _ & Hother). unfold core in Hcore.
    destruct (decide (i = nx)) as [->|Hn].
    + rewrite <- Hc in Hi. assert (u' = t) as -> by congruence. pose proof (next_not_reaped now rsp k u Hok Hu) as Hnr.
      pose proof (so_stack _ Hok _ _ Hu) as Hst. destruct (decide (nx = 0%nat)) as [Hz|Hn].
      { rewrite Hz in *. unfold stack_ok in *. simpl in *. rewrite Hrun. destruct Hst as (? & ? & ? & _). split_and!; congruence. }
      apply (stack_ok_ext nx u); [congruence..| | |done]; [by rewrite Hrun|]. by destruct (next_has_stack now rsp k u Hok Hu Hn) as (_ & ? & _).
    + apply (stack_ok_ext i u); [congruence..| | |by apply (so_stack _ Hok)]; rewrite (Hother Hn);
        [apply ticked_reaped|apply ticked_exited].
  - intros i u' p Hi Hp. destruct (Hback i u' Hi) as (u & Hu & Hcore & _). unfold core in Hcore.
    apply (so_parent _ Hok i u p Hu). congruence.
Qed.

(** ** Operations *)
Inductive kop :=
  | KTick (locked : bool) (now rsp : Z)
  | KWake (ids : list nat)
  | KFault (code : Z)
  | KReclaim (u : Usage) (code : Z)
  | KBlock
  | KBlockUntil (wake : Z)
  | KExit (code : Z)
  | KKill (id : nat) (code : Z)
  | KSignal (id : nat) (s : Signal)
  | KSignalGroup (group : nat) (s : Signal)
  | KSetTty (id : nat) (y : option Z)
  | KSetGroup (id group : nat)
  | KWaitpid (id : nat)
  | KReapAll
  | KChildWait (child waiter : nat)
  | KChildUnwait (child waiter : nat)
  | KSpawn (sel : Selectors) (alloc : option Z) (ic : Credentials) (nm : bytes) (entry rsp pml4 : Z) (fds : list (nat * nat)) (creds : option Credentials)
  | KThread (sel : Selectors) (alloc : option Z) (ic : Credentials) (entry rsp arg bottom tls : Z)
  | KExec (pml4 : Z)
  | KTls (base : Z)
  | KCwd (path : bytes)
  | KCreds (c : Credentials)
  | KFd (op : fd_op)
  | KKillLate (id : nat) (code : Z)
  | KOpenFile (h : HeapReadings) (u : Usage) (data : bytes)
  | KMakePipe (h : HeapReadings) (u : Usage).

Definition fd_exec (op : fd_op) (k : Kernel) : Kernel :=
  let '(wake, commits, st) := exec op (k_vfs k) in wake_tasks wake (log_commits commits (set_vfs st k)).

(** [vfs_open] and [vfs_pipe] ask for the memory first, which may end another task. *)
Definition with_admission (bytes : Z) (h : HeapReadings) (u : Usage) (op : bool → nat → fd_op) (k : Kernel) : Kernel :=
  let (ok, k) := admit_allocation bytes h u k in fd_exec (op ok (k_current k)) k.

(** The running task is the actor.  System calls run with interrupts disabled,
    so that [KKill] is one step; the desktop, which the idle task runs, is
    interruptible, and [KKillLate] is the second half of a [kill_task] it began
    before other steps: the effect without the check. *)
Definition kexec (op : kop) (k : Kernel) : Kernel :=
  match op with
  | KTick locked now rsp => (timer_schedule locked now rsp k).2
  | KWake ids => wake_tasks ids k
  | KFault code => (fault_current code k).2
  | KReclaim u code => (reclaim_largest_user_task u code k).2
  | KBlock => block_current k
  | KBlockUntil wake => block_current_until wake k
  | KExit code => exit_current code k
  | KKill id code => (kill_task id code k).2
  | KSignal id s => (send_signal id s k).2
  | KSignalGroup g s => (send_signal_to_group g s k).2
  | KSetTty id y => (set_task_tty_as (k_current k) id y k).2
  | KSetGroup id g => (set_process_group_as (k_current k) id g k).2
  | KWaitpid id => (waitpid (k_current k) id k).2
  | KReapAll => (reap_all_exited (k_current k) k).2
  | KChildWait child w => (register_child_waiter (k_current k) child w k).2
  | KChildUnwait child w => unregister_child_waiter (k_current k) child w k
  | KSpawn sel alloc ic nm entry rsp pml4 fds creds =>
      (spawn_user_with_fds_and_credentials sel alloc ic nm entry rsp pml4 fds creds k).2
  | KThread sel alloc ic entry rsp arg bottom tls => (spawn_user_thread sel alloc ic entry rsp arg bottom tls k).2
  | KExec pml4 => exec_replace pml4 k
  | KTls base => (set_current_tls_base base k).2
  | KCwd path => set_current_cwd path k
  | KCreds c => set_current_credentials c k
  | KFd op => fd_exec op k
  | KKillLate id code => (kill_effect id code k).2
  | KOpenFile h u data => with_admission (len data) h u (λ ok task, OpOpenRead task ok data) k
  | KMakePipe h u => with_admission PIPE_SIZE h u (λ ok task, OpPipe task ok) k
  end.

(** A stack the allocator returns does not overlap one in use. *)
Definition apart (a b : Z) : Prop := a + STACK_SIZE ≤ b ∨ b + STACK_SIZE ≤ a.
Definition alloc_ok (alloc : option Z) (k : Kernel) : Prop :=
  match alloc with
  | Some a => stack_addr_ok a ∧ Forall (λ t, match t_stack t with Some b => apart a b | None => True end) (k_tasks k)
  | None => True
  end.
(** A new page table is none of the allocated ones; only ring-3 code calls
    [exec]; only the desktop is interrupted within [kill_task]. *)
Definition kenabled (op : kop) (k : Kernel) (owned : gset Z) : Prop :=
  match op with
  | KSpawn _ alloc _ _ _ _ pml4 _ _ => alloc_ok alloc k ∧ (pml4 ∉ owned)
  | KThread _ alloc _ _ _ _ _ _ => alloc_ok alloc k
  | KExec pml4 => (pml4 ∉ owned) ∧ is_Some (current_task k ≫= t_pml4)
  | KKillLate id _ => k_current k = 0%nat ∧ id ≠ 0%nat
  | _ => True
  end.

Definition new_space (op : kop) : list Z :=
  match op with KSpawn _ _ _ _ _ _ pml4 _ _ | KExec pml4 => [pml4] | _ => [] end.
Definition freed_by (op : kop) (k : Kernel) : list Z := drop (length (k_freed k)) (k_freed (kexec op k)).
(** The address spaces allocated and not freed. *)
Definition owned_after (op : kop) (k : Kernel) (owned : gset Z) : gset Z :=
  (owned ∪ list_to_set (new_space op)) ∖ list_to_set (freed_by op k).

#[global] Instance apart_dec a b : Decision (apart a b).
Proof. unfold apart. apply _. Defined.
#[global] Instance alloc_ok_dec alloc k : Decision (alloc_ok alloc k).
Proof. unfold alloc_ok, stack_addr_ok. destruct alloc; apply _ || (apply and_dec; [apply _|]; apply Forall_dec; intros t; destruct (t_stack t); apply _). Defined.
#[global] Instance kenabled_dec op k owned : Decision (kenabled op k owned).
Proof. destruct op; simpl; apply _. Defined.

Fixpoint krun (ops : list kop) (k : Kernel) (owned : gset Z) : option (Kernel * gset Z) :=
  match ops with
  | [] => Some (k, owned)
  | op :: ops => if decide (kenabled op k owned) then krun ops (kexec op k) (owned_after op k owned) else None
  end.

Lemma upd_current_evolves f k :
  (∀ t, get_task (k_current k) k = Some t → keeps t (f t)) → evolves (only (λ i, i = k_current k)) k (upd_task (k_current k) f k).
Proof. intros Hf. eapply becomes_only; [|  |apply becomes_upd]; done. Qed.

Lemma evolves_ok C k k' : sched_ok k → evolves (only C) k k' → sched_ok k'.
Proof. intros Hok He. eapply settles_ok; [done|]. by eapply evolves_settles. Qed.

Lemma sched_ok_same k k' : k_sched k' = k_sched k → k_cpu k' = k_cpu k → sched_ok k → sched_ok k'.
Proof. intros Hs Hc [????]. split; unfold get_task in *; by rewrite ?Hs, ?Hc. Qed.

(** ** Every operation keeps the invariant *)
Lemma spawned_ok addr frame t pml4 tls k k' :
  sched_ok k → stack_addr_ok addr → fresh_task addr pml4 tls k t → spawned addr frame t k k' → sched_ok k'.
Proof.
  intros Hok Ha Hft [Ht Hc Hcpu Hw Hf]. pose proof (so_idle _ Hok) as H0.
  assert (∀ i u, get_task i k' = Some u → get_task i k = Some u ∨ i = length (k_tasks k) ∧ u = t) as Hback.
  { intros i u. unfold get_task. rewrite Ht. intros Hi. apply lookup_app_Some in Hi as [?|[Hge Hi]]; [by left|].
    right. apply list_lookup_singleton_Some in Hi as [? <-]. split; [lia|done]. }
  assert (k_current k < length (k_tasks k))%nat as Hlt.
  { destruct (so_current _ Hok) as (u & Hu & _). by eapply lookup_lt_Some. }
  split.
  - destruct (so_current _ Hok) as (u & Hu & Hr & Hcp). exists u. rewrite Hc, Hcpu. split; [|done].
    unfold get_task. rewrite Ht. by apply lookup_app_l_Some.
  - rewrite Hc. intros u Hi. destruct (Hback _ u Hi) as [Hi'|[? _]]; [by apply (so_own _ Hok)|lia].
  - intros i u Hi Hr. rewrite Hc. destruct (Hback i u Hi) as [Hi'|[-> ->]]; [by eapply (so_running _ Hok)|].
    by rewrite (ft_status _ _ _ _ _ Hft) in Hr.
  - rewrite Ht, length_app. lia.
  - intros i u Hi. destruct (Hback i u Hi) as [Hi'|[-> ->]]; [by apply (so_stack _ Hok)|].
    unfold stack_ok. destruct (Nat.eqb_spec (length (k_tasks k)) 0); [lia|]. right. rewrite (ft_status _ _ _ _ _ Hft).
    split; [done|]. exists addr. split_and!; [apply Hft|done|apply Hft].
  - intros i u p Hi Hp. destruct (Hback i u Hi) as [Hi'|[-> ->]]; [by eapply (so_parent _ Hok)|].
    rewrite (ft_parent _ _ _ _ _ Hft) in Hp. by injection Hp as <-.
Qed.

(** Changes of the running task's attributes, with the CPU kept in step. *)
Lemma upd_current_ok f k k' :
  sched_ok k → k_sched k' = k_sched (upd_task (k_current k) f k) →
  (∀ t, get_task (k_current k) k = Some t →
    t_stack (f t) = t_stack t ∧ t_syscall_stack_top (f t) = t_syscall_stack_top t ∧ t_parent (f t) = t_parent t ∧
    (t_status (f t) = Reaped ↔ t_status t = Reaped) ∧ (k_current k = 0%nat → t_pml4 (f t) = t_pml4 t) ∧ k_cpu k' = cpu_of (f t)) →
  sched_ok k'.
Proof.
  intros Hok Hs Hf. destruct (so_current _ Hok) as (t & Ht & Hr & Hcpu). destruct (Hf t Ht) as (F1 & F2 & F3 & F4 & F5 & F6).
  assert (k_current k' = k_current k) as Hc by by rewrite Hs.
  assert (∀ i, get_task i k' = if (i =? k_current k)%nat then f <$> get_task i k else get_task i k) as Hget.
  { intros i. rewrite <- get_upd_task. unfold get_task. by rewrite Hs. }
  split.
  - exists (f t). rewrite Hget, Hc, Nat.eqb_refl, Ht, F4. done.
  - rewrite Hget, Hc, Nat.eqb_refl, Ht. intros u [= <-]. rewrite F1. by apply (so_own _ Hok).
  - intros i u. rewrite Hget, Hc. destruct (Nat.eqb_spec i (k_current k)) as [->|Hn]; [done|]. by apply (so_running _ Hok).
  - rewrite Hs. simpl. rewrite length_alter. apply Hok.
  - intros i u. rewrite Hget. destruct (Nat.eqb_spec i (k_current k)) as [->|Hn]; [|by apply (so_stack _ Hok)].
    rewrite Ht. intros [= <-]. pose proof (so_stack _ Hok _ _ Ht) as Hst. unfold stack_ok in *. rewrite F1, F2.
    destruct (Nat.eqb_spec (k_current k) 0) as [Hz|Hn]; [rewrite F5 by done; by rewrite F4|]. right. rewrite F4.
    destruct (so_own _ Hok t Ht Hn) as [addr Ha]. destruct Hst as [[_ ?]|?]; [congruence|done].
  - intros i u p. rewrite Hget. destruct (Nat.eqb_spec i (k_current k)) as [->|Hn]; [|by apply (so_parent _ Hok)].
    rewrite Ht. intros [= <-]. rewrite F3. by apply (so_parent _ Hok).
Qed.

Lemma set_tls_ok base k : sched_ok k → sched_ok (set_current_tls_base base k).2.
Proof.
  intros Hok. destruct (so_current _ Hok) as (t & Ht & Hr & Hcpu). unfold set_current_tls_base, current_task. rewrite Ht.
  case_bool_decide; [done|]. eapply (upd_current_ok (set_tls base)); [done|done|]. intros u Hu. simplify_eq.
  simpl. rewrite Hcpu. done.
Qed.

Lemma exec_replace_sched pml4 k t :
  get_task (k_current k) k = Some t →
  k_sched (exec_replace pml4 k) = k_sched (upd_task (k_current k) (λ t, set_tls 0 (set_pml4 (Some pml4) t)) k) ∧
  k_cpu (exec_replace pml4 k) = {| cpu_cr3 := Some pml4; cpu_fs_base := 0; cpu_syscall_top := cpu_syscall_top (k_cpu k); cpu_privilege_top := cpu_privilege_top (k_cpu k) |} ∧
  k_freed (exec_replace pml4 k) = k_freed k ++ option_list (t_pml4 t) ∧ k_words (exec_replace pml4 k) = k_words k.
Proof.
  intros Ht. unfold exec_replace, set_current_tls_base, current_task. rewrite Ht. simpl.
  assert (alter (λ u, set_tls 0 (set_pml4 (Some pml4) u)) (k_current k) (k_tasks k) !! k_current k = Some (set_tls 0 (set_pml4 (Some pml4) t))) as Ha
    by (rewrite list_lookup_alter_eq; unfold get_task in Ht; by rewrite Ht).
  unfold get_task. simpl. rewrite Ha. simpl. destruct (t_pml4 t); simpl; rewrite ?app_nil_r; split_and!; try done.
  all: unfold set_tasks, set_sched; simpl; f_equal; apply list_eq; intros i;
    (destruct (decide (i = k_current k)) as [->|Hn]; [rewrite list_lookup_alter_eq, Ha; done|by rewrite !list_lookup_alter_ne]).
Qed.

Lemma exec_replace_ok pml4 k : sched_ok k → is_Some (current_task k ≫= t_pml4) → sched_ok (exec_replace pml4 k).
Proof.
  intros Hok [p Hp]. destruct (so_current _ Hok) as (t & Ht & Hr & Hcpu). unfold current_task in Hp. rewrite Ht in Hp. simpl in Hp.
  destruct (exec_replace_sched pml4 k t Ht) as (Hs & Hc & _ & _).
  eapply upd_current_ok; [exact Hok|exact Hs|]. intros u Hu. simplify_eq. simpl. split_and!; try done.
  - intros Hz. pose proof (so_stack _ Hok _ _ Ht) as Hst. rewrite Hz in Hst. unfold stack_ok in Hst. simpl in Hst. destruct Hst as (_ & _ & Hst & _). congruence.
  - by rewrite Hc, Hcpu.
Qed.

Lemma fd_exec_evolves op k : evolves woken k (fd_exec op k).
Proof. unfold fd_exec. destruct (exec op (k_vfs k)) as [[w c] st]. eapply evolves_same, wake_tasks_evolves; done. Qed.

Lemma block_ok f k :
  sched_ok k → (∀ t, identity (f t) = identity t ∧ t_status (f t) = Blocked) → sched_ok (upd_task (k_current k) f k).
Proof.
  intros Hok Hf. destruct (so_current _ Hok) as (t & Ht & Hr & Hcpu). eapply (upd_current_ok f); [done|done|].
  intros u Hu. simplify_eq. destruct (Hf t) as [Hi Hs]. unfold identity in Hi.
  split_and!; try congruence; [rewrite Hs; by split|]. simpl. rewrite Hcpu. unfold cpu_of.
  by injection Hi as _ _ -> _ _ _ _ _ _ -> ->.
Qed.
Lemma exit_only code k : sched_ok k → evolves (only (λ i, i = k_current k)) k (exit_current code k).
Proof.
  intros Hok. destruct (so_live _ Hok) as (t & Ht & Hr). eapply becomes_only; [| |apply exit_current_evolves]; [done|].
  intros u Hu. simplify_eq. by apply keeps_mark_exited.
Qed.
Lemma fault_only code k : sched_ok k → evolves (only (λ i, i = k_current k)) k (fault_current code k).2.
Proof.
  intros Hok. destruct (so_live _ Hok) as (t & Ht & Hr). eapply becomes_only; [| |apply fault_current_evolves]; [done|].
  intros u Hu. simplify_eq. by apply keeps_mark_faulted.
Qed.

(** The tasks the running task may control. *)
Definition controls (k : Kernel) (i : nat) : Prop := can_control_task_locked (k_current k) i k = true.

Lemma same_only C k : evolves (only C) k k.
Proof. apply evolves_refl, only_refl. Qed.

Lemma kill_only id code k : evolves (only (controls k)) k (kill_task id code k).2.
Proof.
  destruct (kill_task id code k) as [r k'] eqn:Hk. apply kill_task_spec in Hk. simpl. destruct r as [[]|]; [|subst; apply same_only].
  destruct Hk as [[t [_ _ Ht Hc Hal]] He]. eapply becomes_only; [exact Hc| |exact He].
  intros u Hu. simplify_eq. apply keeps_mark_exited. intros Hr. by rewrite Hr in Hal.
Qed.
Lemma acts_only id f k k' : (∀ t, keeps t (f t)) → acts_on id f k k' → evolves (only (controls k)) k k'.
Proof. intros Hf (_ & _ & Hc & He). eapply becomes_only; [exact Hc|by intros|exact He]. Qed.
Lemma set_tty_only id y k : evolves (only (controls k)) k (set_task_tty_as (k_current k) id y k).2.
Proof.
  destruct (set_task_tty_as _ _ _ _) as [r k'] eqn:Hk. apply set_task_tty_spec in Hk. simpl.
  destruct r as [[]|]; [|subst; apply same_only]. by eapply acts_only, Hk; intros t; keeps_solver.
Qed.
Lemma set_group_only id g k : evolves (only (controls k)) k (set_process_group_as (k_current k) id g k).2.
Proof.
  destruct (set_process_group_as _ _ _ _) as [r k'] eqn:Hk. apply set_process_group_spec in Hk. simpl.
  destruct r as [[]|]; [|subst; apply same_only]. by eapply acts_only, Hk; intros t; keeps_solver.
Qed.

Lemma child_wait_only C child w k : evolves (only C) k (register_child_waiter (k_current k) child w k).2.
Proof.
  eapply evolves_same; [..|apply same_only]; unfold register_child_waiter; repeat case_match; done.
Qed.

(** The operations that only end, wake, signal or reap tasks. *)
Definition settling (op : kop) : bool :=
  match op with KTick _ _ _ | KBlock | KBlockUntil _ | KSpawn _ _ _ _ _ _ _ _ _ | KThread _ _ _ _ _ _ _ _ | KExec _ | KTls _ | KCwd _ | KCreds _ | KKillLate _ _ => false | _ => true end.

Lemma only_some C k k' : evolves (only C) k k' → ∃ ps, settles ps k k'.
Proof. intros He. exists []. by eapply evolves_settles. Qed.

Lemma with_admission_cases bytes h u op k :
  ∃ ok, let k1 := if recovers bytes h then (reclaim_largest_user_task u OOM_EXIT_CODE k).2 else k in
    with_admission bytes h u op k = fd_exec (op ok (k_current k1)) k1.
Proof.
  exists (admit_allocation bytes h u k).1. unfold with_admission. rewrite <- (admit_kernel bytes h u k).
  by destruct (admit_allocation bytes h u k).
Qed.
Lemma recover_settles (b : bool) u code k : ∃ ps, settles ps k (if b then (reclaim_largest_user_task u code k).2 else k).
Proof.
  destruct b; [|exists []; apply settles_refl]. destruct (reclaim_largest_user_task u code k) eqn:E. by eapply reclaim_settles.
Qed.
Lemma with_admission_settles bytes h u op k : ∃ ps, settles ps k (with_admission bytes h u op k).
Proof.
  destruct (with_admission_cases bytes h u op k) as [ok ->]. cbv zeta.
  destruct (recover_settles (recovers bytes h) u OOM_EXIT_CODE k) as [ps Hs]. exists (ps ++ []). eapply settles_trans; [exact Hs|].
  eapply (evolves_settles (λ _, True)), woken_only, fd_exec_evolves.
Qed.

(** What the second half of a kill does to the tasks. *)
Lemma late_becomes id code k : evolves (becomes id (mark_exited code)) k (kill_effect id code k).2.
Proof.
  destruct (get_task id k) as [t|] eqn:Ht.
  - destruct (kill_effect id code k) as [r k'] eqn:E. assert (r = Ok tt) as -> by (unfold kill_effect in E; rewrite Ht in E; by simplify_eq).
    by apply kill_effect_evolves.
  - unfold kill_effect. rewrite Ht. split; try done. intros i t Hi. exists t. split; [done|]. unfold becomes.
    destruct (Nat.eqb_spec i id); [congruence|by left].
Qed.
Lemma late_ok id code k : sched_ok k → k_current k = 0%nat → id ≠ 0%nat → sched_ok (kill_effect id code k).2.
Proof.
  intros Hok Hcur Hid. pose proof (late_becomes id code k) as He. set (k' := (kill_effect id code k).2) in *.
  assert (∀ i t', get_task i k' = Some t' → ∃ t, get_task i k = Some t ∧ (i ≠ id ∧ keeps t t' ∨ i = id ∧ t' = mark_exited code t)) as Hback.
  { intros i t' Hi. destruct (get_task_back _ _ _ _ _ He Hi) as (t & Ht & Hb). exists t. split; [done|]. unfold becomes in Hb.
    destruct (Nat.eqb_spec i id); [by right|left]. split; [done|by eapply keeps_woken]. }
  split.
  - destruct (so_current _ Hok) as (t & Ht & Hr & Hcpu). destruct (ev_tasks _ _ _ He _ _ Ht) as (t' & Ht' & _). exists t'.
    rewrite (ev_current _ _ _ He), (ev_cpu _ _ _ He), Hcpu. destruct (Hback _ _ Ht') as (u & Hu & [[_ Hk]|[? _]]); [|congruence].
    simplify_eq. split_and!; [done|by rewrite (kp_reaped _ _ Hk)|]. unfold cpu_of.
    by rewrite (keeps_pml4 _ _ Hk), (keeps_tls _ _ Hk), (keeps_top _ _ Hk).
  - by rewrite (ev_current _ _ _ He).
  - intros i t' Hi Hr. rewrite (ev_current _ _ _ He). destruct (Hback _ _ Hi) as (t & Ht & [[_ Hk]|[_ ->]]); [|done].
    eapply (so_running _ Hok); [done|]. by apply Hk.
  - rewrite (ev_length _ _ _ He). apply Hok.
  - intros i t' Hi. destruct (Hback _ _ Hi) as (t & Ht & [[_ Hk]|[-> ->]]); pose proof (so_stack _ Hok _ _ Ht) as Hst.
    + eapply stack_ok_ext; [by apply keeps_stack|by apply keeps_top|by apply keeps_pml4|apply Hk|apply Hk|done].
    + unfold stack_ok in *. apply Nat.eqb_neq in Hid. rewrite Hid in Hst |- *. simpl. destruct Hst as [[_ ?]|[_ ?]]; [by left|by right].
  - intros i t' p Hi. destruct (Hback _ _ Hi) as (t & Ht & [[_ Hk]|[_ ->]]); [rewrite (keeps_parent _ _ Hk)|]; apply (so_parent _ Hok _ _ _ Ht).
Qed.

(** The check of a kill still holds when the kill takes effect. *)
Definition kill_fresh (op : kop) (k : Kernel) : Prop :=
  match op with KKillLate id _ => kill_check id k = Ok tt | _ => True end.
Lemma fresh_kill id code k : kill_fresh (KKillLate id code) k → kexec (KKillLate id code) k = kexec (KKill id code) k.
Proof. simpl. unfold kill_task. by intros ->. Qed.

Lemma kexec_settles op k : sched_ok k → settling op = true → ∃ ps, settles ps k (kexec op k).
Proof.
  intros Hok Hop. destruct op; simpl in Hop |- *; try done.
  - eapply (only_some (λ _, True)), woken_only, wake_tasks_evolves.
  - by eapply only_some, fault_only.
  - destruct (reclaim_largest_user_task u code k) eqn:E. by eapply reclaim_settles.
  - by eapply only_some, exit_only.
  - by eapply only_some, kill_only.
  - destruct (send_signal id s k) eqn:E. eapply only_some, send_signal_only; [by apply so_live|done].
  - destruct (send_signal_to_group group s k) eqn:E. eapply only_some, send_group_only; [by apply so_live|done].
  - eapply only_some, set_tty_only.
  - eapply only_some, set_group_only.
  - destruct (waitpid (k_current k) id k) eqn:E. eapply waitpid_settles; [|done]. intros t. by apply so_no_self.
  - destruct (reap_all_exited (k_current k) k) eqn:E. eapply reap_all_settles; [by apply so_no_self|done].
  - eapply (only_some (λ _, True)), child_wait_only.
  - eapply (only_some (λ _, True)), evolves_same, same_only; done.
  - eapply (only_some (λ _, True)), woken_only, fd_exec_evolves.
  - apply with_admission_settles.
  - apply with_admission_settles.
Qed.

Lemma timer_schedule_cases locked now rsp k :
  timer_schedule locked now rsp k = (rsp, k) ∨ timer_schedule locked now rsp k = schedule now rsp k.
Proof. unfold Process.timer_schedule. destruct locked; [by left|]. case_match; [by left|by right]. Qed.

Lemma kexec_ok op k owned : sched_ok k → kenabled op k owned → sched_ok (kexec op k).
Proof.
  intros Hok Hen. destruct (settling op) eqn:Hop.
  { destruct (kexec_settles op k Hok Hop) as [ps Hs]. by eapply settles_ok. }
  assert (k_tasks k ≠ []) as Hne by (intros Hn; pose proof (so_idle _ Hok) as H0; by rewrite Hn in H0; simpl in H0; lia).
  destruct op; simpl in Hop, Hen |- *; try done.
  - destruct (timer_schedule_cases locked now rsp k) as [->| ->]; [done|].
    destruct (schedule now rsp k) eqn:E. by eapply schedule_ok.
  - by apply block_ok.
  - by apply block_ok.
  - destruct Hen as [Ha _]. destruct (spawn_user_with_fds_and_credentials _ _ _ _ _ _ _ _ _ _) as [b k'] eqn:E.
    apply spawn_user_spec in E; [|done]. destruct b.
    + destruct E as (addr & t & -> & Hft & Hsp & _). eapply spawned_ok; [done|apply Ha|done|done].
    + destruct E as (k1 & He & ->). eapply sched_ok_same; [| |eapply (evolves_ok (λ _, True)), woken_only, He]; done.
  - destruct (spawn_user_thread _ _ _ _ _ _ _ _ _) as [r k'] eqn:E. apply spawn_thread_spec in E. destruct r.
    + destruct E as (addr & pt & q & t & -> & _ & _ & _ & Hft & _ & _ & Hsp & _). eapply spawned_ok; [done|apply Hen|done|done].
    + eapply sched_ok_same; [| |eapply (evolves_ok (λ _, True)), woken_only, E]; done.
  - apply exec_replace_ok; [done|apply Hen].
  - by apply set_tls_ok.
  - eapply (upd_current_ok (set_cwd path)); [done|done|]. intros t Ht.
    destruct (so_current _ Hok) as (u & Hu & _ & Hcpu). simplify_eq. split_and!; [done..|exact Hcpu].
  - eapply (upd_current_ok (set_creds c)); [done|done|]. intros t Ht.
    destruct (so_current _ Hok) as (u & Hu & _ & Hcpu). simplify_eq. split_and!; [done..|exact Hcpu].
  - destruct Hen. by apply late_ok.
Qed.

Lemma krun_ok ops k owned k' owned' : sched_ok k → krun ops k owned = Some (k', owned') → sched_ok k'.
Proof.
  revert k owned. induction ops as [|op ops IH]; intros k owned Hok; simpl; [by intros [= <- _]|].
  case_decide as Hen; [|done]. apply IH. by eapply kexec_ok.
Qed.

(** ** Address spaces *)
(** The address space a task keeps alive. *)
Definition space_of (t : Task) : option Z := if is_status (t_status t) Reaped then None else t_pml4 t.

Lemma space_of_uses q t : space_of t = Some q ↔ uses_space q t = true.
Proof.
  rewrite uses_space_spec. unfold space_of. destruct (is_status (t_status t) Reaped) eqn:E.
  - apply is_status_spec in E. split; [done|by intros [_ ?]].
  - apply is_status_false in E. split; [done|by intros [-> _]].
Qed.
Lemma live_space_of ts q : live_space ts q ↔ ∃ i t, ts !! i = Some t ∧ space_of t = Some q.
Proof. unfold live_space. split; intros (i & t & Hi & Hu); exists i, t; (split; [done|]); by apply space_of_uses. Qed.
Lemma live_space_ext ts ts' :
  (∀ i, (space_of <$> ts' !! i) = (space_of <$> ts !! i)) → ∀ q, live_space ts' q ↔ live_space ts q.
Proof.
  intros Hs q. rewrite !live_space_of. split; intros (i & t & Hi & Hu); exists i; specialize (Hs i); rewrite Hi in Hs; simpl in Hs.
  - destruct (ts !! i) as [u|]; [|done]. exists u. split; [done|]. simpl in Hs. congruence.
  - destruct (ts' !! i) as [u|]; [|done]. exists u. split; [done|]. simpl in Hs. congruence.
Qed.
Lemma live_space_app ts t q : live_space (ts ++ [t]) q ↔ live_space ts q ∨ space_of t = Some q.
Proof.
  rewrite !live_space_of. split.
  - intros (i & u & [Hi|[Hge Hi]]%lookup_app_Some & Hu); [left; eauto|].
    apply list_lookup_singleton_Some in Hi as [_ <-]. by right.
  - intros [(i & u & Hi & Hu)|Hu].
    + exists i, u. split; [by apply lookup_app_l_Some|done].
    + exists (length ts), t. split; [by rewrite list_lookup_middle|done].
Qed.

(** What an operation does to the address spaces: [new] came in, [ps] are freed. *)
Record space_change (k : Kernel) (new ps : list Z) (k' : Kernel) : Prop := {
  sg_freed : k_freed k' = k_freed k ++ ps;
  sg_live : ∀ q, live_space (k_tasks k) q ∨ q ∈ new ↔ live_space (k_tasks k') q ∨ q ∈ ps;
  sg_unused : ∀ q, q ∈ ps → ¬ live_space (k_tasks k') q;
  sg_once : NoDup ps }.

Lemma settles_space ps k k' : settles ps k k' → space_change k [] ps k'.
Proof. intros [_ _ _ _ Hf [Hl Hu Hn] _]. split; [done| |done|done]. intros q. rewrite <- Hl, elem_of_nil. tauto. Qed.

Lemma same_space k k' :
  k_freed k' = k_freed k → (∀ q, live_space (k_tasks k') q ↔ live_space (k_tasks k) q) → space_change k [] [] k'.
Proof.
  intros Hf Hl. split; [by rewrite app_nil_r| |intros q Hq; by apply elem_of_nil in Hq|apply NoDup_nil_2].
  intros q. by rewrite Hl.
Qed.

Lemma tick_space now rsp k ptr k' : sched_ok k → schedule now rsp k = (ptr, k') → space_change k [] [] k'.
Proof.
  intros Hok Hs. destruct (schedule_scheduled _ _ _ _ _ Hok Hs) as ([Hc Hl Hf Hw _ _ Ht] & _).
  apply same_space; [done|]. apply live_space_ext. intros i. unfold get_task in Ht. rewrite Ht.
  destruct (k_tasks k !! i) as [t|] eqn:Hi; [|done]. simpl. f_equal. pose proof (ticked_core now rsp (k_current k) i t) as Hcore.
  assert (t_pml4 (ticked now rsp (k_current k) i t) = t_pml4 t) as Hp by (unfold core in Hcore; congruence).
  pose proof (ticked_reaped now rsp (k_current k) i t) as Hre. unfold space_of.
  destruct (Nat.eqb_spec i (next_task now rsp k)) as [->|Hne]; simpl.
  - rewrite Hp. destruct (is_status (t_status t) Reaped) eqn:E; [|done]. apply is_status_spec in E.
    destruct (next_task_spec now rsp k Hok) as (u & Hu & [Hr|Hz]); unfold get_task in Hu; simplify_eq.
    + apply Hre in E. congruence.
    + pose proof (so_stack _ Hok _ _ Hi) as Hst. rewrite Hz in Hst. unfold stack_ok in Hst. simpl in Hst. tauto.
  - rewrite Hp. destruct (is_status (t_status t) Reaped) eqn:E.
    + apply is_status_spec, Hre in E. by rewrite E.
    + apply is_status_false in E. assert (t_status (ticked now rsp (k_current k) i t) ≠ Reaped) as Hn by tauto.
      apply is_status_false in Hn. by rewrite Hn.
Qed.

Lemma spawned_space addr frame t pml4 tls k k' :
  fresh_task addr (Some pml4) tls k t → spawned addr frame t k k' →
  k_freed k' = k_freed k ∧ ∀ q, live_space (k_tasks k') q ↔ live_space (k_tasks k) q ∨ q = pml4.
Proof.
  intros Hft [Ht Hc Hcpu Hw Hf]. split; [done|]. intros q. rewrite Ht, live_space_app. unfold space_of.
  rewrite (ft_status _ _ _ _ _ Hft), (ft_pml4 _ _ _ _ _ Hft). simpl. split; (intros [?|H]; [by left|right]); congruence.
Qed.

(** The page table of [exec]'s caller is used by no other task. *)
Definition exec_alone (op : kop) (k : Kernel) : Prop :=
  match op with
  | KExec _ => match current_task k ≫= t_pml4 with Some p => ¬ used_beside (k_current k) (k_tasks k) p | None => True end
  | _ => True
  end.

Lemma exec_space pml4 k :
  sched_ok k → is_Some (current_task k ≫= t_pml4) → exec_alone (KExec pml4) k → ¬ live_space (k_tasks k) pml4 →
  ∃ ps, space_change k [pml4] ps (exec_replace pml4 k).
Proof.
  intros Hok [p Hp] Ha Hnew. destruct (so_current _ Hok) as (t & Ht & Hr & _). simpl in Ha. rewrite Hp in Ha.
  unfold current_task in Hp. rewrite Ht in Hp. simpl in Hp.
  destruct (exec_replace_sched pml4 k t Ht) as (Hs & _ & Hf & _). rewrite Hp in Hf. simpl in Hf. exists [p].
  set (f := λ t, set_tls 0 (set_pml4 (Some pml4) t)) in *.
  assert (k_tasks (exec_replace pml4 k) = alter f (k_current k) (k_tasks k)) as Hts by by rewrite Hs.
  assert (k_tasks (exec_replace pml4 k) !! k_current k = Some (f t)) as Hcur
    by (rewrite Hts, list_lookup_alter_eq; unfold get_task in Ht; by rewrite Ht).
  assert (∀ i, i ≠ k_current k → k_tasks (exec_replace pml4 k) !! i = k_tasks k !! i) as Hother
    by (intros i Hi; rewrite Hts; by apply list_lookup_alter_ne).
  assert (∀ q, live_space (k_tasks (exec_replace pml4 k)) q ↔ used_beside (k_current k) (k_tasks k) q ∨ q = pml4) as Hl.
  { intros q. rewrite (live_space_beside _ _ _ _ Hcur), (used_beside_same _ _ _ _ Hother), uses_space_spec. simpl.
    assert (Some pml4 = Some q ∧ t_status t ≠ Reaped ↔ q = pml4) as -> by (split; [by intros [[= ->] _]|by intros ->]). done. }
  split; [done| | |apply NoDup_singleton].
  - intros q. rewrite Hl, (live_space_beside _ _ _ _ Ht), uses_space_spec, !list_elem_of_singleton, Hp.
    assert (Some p = Some q ∧ t_status t ≠ Reaped ↔ q = p) as -> by (split; [by intros [[= ->] _]|by intros ->]). tauto.
  - intros q ->%list_elem_of_singleton. rewrite Hl. intros [?| ->]; [done|]. apply Hnew.
    rewrite (live_space_beside _ _ _ _ Ht), uses_space_spec. by right.
Qed.

Lemma live_space_alter f id ts :
  (∀ t, ts !! id = Some t → space_of (f t) = space_of t) → ∀ q, live_space (alter f id ts) q ↔ live_space ts q.
Proof.
  intros Hf. apply live_space_ext. intros i. destruct (decide (i = id)) as [->|Hn]; [|by rewrite list_lookup_alter_ne].
  rewrite list_lookup_alter_eq. destruct (ts !! id); simpl; by rewrite ?Hf.
Qed.
Lemma block_space f k :
  sched_ok k → (∀ t, t_pml4 (f t) = t_pml4 t ∧ t_status (f t) = Blocked) → space_change k [] [] (upd_task (k_current k) f k).
Proof.
  intros Hok Hf. apply same_space; [done|]. apply live_space_alter. intros t Ht. destruct (so_live _ Hok) as (u & Hu & Hr).
  unfold get_task in Hu. simplify_eq. destruct (Hf t) as [Hp Hs]. unfold space_of. apply is_status_false in Hr. by rewrite Hp, Hs, Hr.
Qed.

(** The two things the code does not ensure of an operation: an [exec] frees
    a page table that only its caller uses, and a kill finds its target alive. *)
Definition space_safe (op : kop) (k : Kernel) : Prop := exec_alone op k ∧ kill_fresh op k.

Lemma kexec_space op k owned :
  sched_ok k → kenabled op k owned → space_safe op k → (∀ q, q ∈ owned ↔ live_space (k_tasks k) q) →
  ∃ ps, space_change k (new_space op) ps (kexec op k).
Proof.
  intros Hok Hen [Ha Hkf] How. destruct (settling op) eqn:Hop.
  { destruct (kexec_settles op k Hok Hop) as [ps Hs]. exists ps. destruct op; try done; by apply settles_space. }
  assert (k_tasks k ≠ []) as Hne by (intros Hn; pose proof (so_idle _ Hok) as H0; by rewrite Hn in H0; simpl in H0; lia).
  destruct op; simpl in Hop, Hen |- *; try done.
  - exists []. destruct (timer_schedule_cases locked now rsp k) as [->| ->]; [by apply same_space|].
    destruct (schedule now rsp k) eqn:E. by eapply tick_space.
  - exists []. by apply block_space.
  - exists []. by apply block_space.
  - destruct Hen as [_ Hq]. rewrite How in Hq.
    destruct (spawn_user_with_fds_and_credentials _ _ _ _ _ _ _ _ _ _) as [b k'] eqn:E.
    apply spawn_user_spec in E; [|done]. destruct b.
    + destruct E as (addr & t & -> & Hft & Hsp & _). destruct (spawned_space _ _ _ _ _ _ _ Hft Hsp) as [Hf Hl]. exists [].
      split; [by rewrite app_nil_r| |intros q Hin; by apply elem_of_nil in Hin|apply NoDup_nil_2].
      intros q. rewrite Hl, list_elem_of_singleton, elem_of_nil. tauto.
    + destruct E as (k1 & He & ->). apply (woken_only (λ _, True)), evolves_settles, settles_space in He as [Hf Hl _ _].
      simpl in Hf, Hl. assert (∀ q, live_space (k_tasks k1) q ↔ live_space (k_tasks k) q) as Hlive.
      { intros q. specialize (Hl q). rewrite elem_of_nil in Hl. tauto. }
      exists [pml4]. split; [simpl; by rewrite Hf, app_nil_r|intros q; simpl; by rewrite Hlive| |apply NoDup_singleton].
      intros q ->%list_elem_of_singleton. simpl. by rewrite Hlive.
  - exists []. destruct (spawn_user_thread _ _ _ _ _ _ _ _ _) as [r k'] eqn:E. apply spawn_thread_spec in E. destruct r.
    + destruct E as (addr & pt & q & t & -> & _ & Hpt & Hq & Hft & _ & _ & Hsp & _).
      destruct (spawned_space _ _ _ _ _ _ _ Hft Hsp) as [Hf Hl]. apply same_space; [done|]. intros q'. rewrite Hl.
      split; [|by left]. intros [?| ->]; [done|]. exists (k_current k), pt. split; [done|]. apply uses_space_spec. split; [done|].
      destruct (so_live _ Hok) as (u & Hu & Hr). unfold current_task in Hpt. congruence.
    + apply (woken_only (λ _, True)), evolves_settles, settles_space in E as [Hf Hl Hu Hn]. by split.
  - destruct Hen as [Hq Hsome]. rewrite How in Hq. by apply exec_space.
  - exists []. unfold set_current_tls_base. destruct (current_task k) as [t|]; [|by apply same_space].
    case_bool_decide; [by apply same_space|]. apply same_space; [done|]. by apply live_space_alter.
  - exists []. apply same_space; [done|]. by apply live_space_alter.
  - exists []. apply same_space; [done|]. by apply live_space_alter.
  - destruct (kexec_settles (KKill id code) k Hok eq_refl) as [ps Hs]. exists ps. apply settles_space.
    change (settles ps k (kexec (KKillLate id code) k)). by rewrite fresh_kill.
Qed.

(** [P] holds of every operation of a run, in the state it starts from. *)
Fixpoint along (P : kop → Kernel → Prop) (ops : list kop) (k : Kernel) : Prop :=
  match ops with [] => True | op :: ops => P op k ∧ along P ops (kexec op k) end.

Lemma owned_after_spec op k owned ps :
  (∀ q, q ∈ owned ↔ live_space (k_tasks k) q) → space_change k (new_space op) ps (kexec op k) →
  freed_by op k = ps ∧ ∀ q, q ∈ owned_after op k owned ↔ live_space (k_tasks (kexec op k)) q.
Proof.
  intros How [Hf Hl Hu Hn]. assert (freed_by op k = ps) as Hfb by (unfold freed_by; by rewrite Hf, drop_app_length).
  split; [done|]. intros q. unfold owned_after. rewrite Hfb, elem_of_difference, elem_of_union, !elem_of_list_to_set, How, Hl.
  specialize (Hu q). tauto.
Qed.

Lemma krun_space ops k owned k' owned' :
  sched_ok k → (∀ q, q ∈ owned ↔ live_space (k_tasks k) q) → along space_safe ops k → krun ops k owned = Some (k', owned') →
  ∀ q, q ∈ owned' ↔ live_space (k_tasks k') q.
Proof.
  revert k owned. induction ops as [|op ops IH]; intros k owned Hok How; simpl; [by intros _ [= <- <-]|].
  intros [Ha Hal]. case_decide as Hen; [|done]. destruct (kexec_space op k owned Hok Hen Ha How) as [ps Hsp].
  destruct (owned_after_spec op k owned ps How Hsp) as [_ How']. apply IH; [by eapply kexec_ok|done|done].
Qed.

(** ** From boot *)
Definition kernel_empty : Kernel :=
  {| k_sched := Scheduler_empty; k_vfs := VfsState_new;
     k_futex := {| fx_waiters := []; fx_stats := {| fs_waits := 0; fs_wakes := 0; fs_mismatches := 0; fs_timeouts := 0;
       fs_interrupted := 0; fs_dropped := 0; fs_last_addr := 0; fs_last_task := 0; fs_max_waiters := 0 |} |};
     k_child_waiters := []; k_cpu := {| cpu_cr3 := None; cpu_fs_base := 0; cpu_syscall_top := 0; cpu_privilege_top := 0 |};
     k_words := ∅; k_freed := []; k_commits := [] |}.
Definition boot (ic : Credentials) : Kernel := add_idle default_privilege_stack_top ic kernel_empty.

Lemma boot_task ic i t : get_task i (boot ic) = Some t → i = 0%nat ∧ t_parent t = None ∧ t_pml4 t = None ∧ t_status t = Running ∧ t_stack t = None ∧ t_syscall_stack_top t = 0.
Proof. intros Hi. destruct i; [|done]. by injection Hi as <-. Qed.
Lemma kernel_boot_ok ic : sched_ok (boot ic).
Proof.
  split.
  - by eexists.
  - done.
  - intros i t Hi _. by apply boot_task in Hi as [-> _].
  - simpl. lia.
  - intros i t Hi. apply boot_task in Hi as (-> & _ & Hp & Hst & Hs & Ht). unfold stack_ok. simpl. by rewrite Hst.
  - intros i t p Hi Hp. apply boot_task in Hi as (_ & Hn & _). congruence.
Qed.
Lemma boot_space ic q : q ∈ (∅ : gset Z) ↔ live_space (k_tasks (boot ic)) q.
Proof.
  split; [set_solver|]. intros (i & t & Hi & Hu). apply uses_space_spec in Hu as [Hu _].
  apply boot_task in Hi as (_ & _ & Hp & _). congruence.
Qed.

(** C10: the running task is sound.  After any sequence of timer interrupts,
    system calls, faults, wake-ups and reclaims since boot, the running task
    exists and is not reaped; the CPU runs with exactly that task's page table,
    thread-local base, system call stack and privilege stack; unless it is the
    idle task its kernel stack is allocated and these stack pointers lie in it,
    16-byte aligned; no other task is marked running; and a task's parent was
    created before it. *)
Theorem scheduler_invariant ic ops k owned :
  krun ops (boot ic) ∅ = Some (k, owned) →
  (∃ t, get_task (k_current k) k = Some t ∧ t_status t ≠ Reaped ∧ k_cpu k = cpu_of t ∧
     (k_current k ≠ 0%nat → ∃ addr, t_stack t = Some addr ∧ cpu_syscall_top (k_cpu k) mod 16 = 0 ∧
        cpu_privilege_top (k_cpu k) = cpu_syscall_top (k_cpu k) ∧ addr + 160 < cpu_syscall_top (k_cpu k) ≤ addr + STACK_SIZE)) ∧
  (∀ i t, get_task i k = Some t → t_status t = Running → i = k_current k) ∧
  (∀ i t p, get_task i k = Some t → t_parent t = Some p → (p < i)%nat).
Proof.
  intros Hrun. pose proof (krun_ok _ _ _ _ _ (kernel_boot_ok ic) Hrun) as Hok. split_and!; [|apply Hok..].
  destruct (so_current _ Hok) as (t & Ht & Hr & Hc). exists t. split_and!; [done..|]. intros H0.
  pose proof (so_stack _ Hok _ _ Ht) as Hst. unfold stack_ok in Hst. pose proof H0 as H0'. apply Nat.eqb_neq in H0. rewrite H0 in Hst.
  destruct (so_own _ Hok t Ht H0') as [a' Ha'].
  destruct Hst as [[_ ?]|(_ & addr & Hs & Ha & Htop)]; [congruence|]. exists addr. pose proof (stack_top_bounds addr Ha) as [Hb Hm].
  pose proof (stack_top_pos addr Ha). rewrite Hc. simpl. rewrite Htop. destruct (Z.eqb_spec (stack_top_of addr) 0); [lia|].
  unfold STACK_SIZE in *. split_and!; [done..|lia|lia].
Qed.

(** C11: address spaces are neither leaked nor freed in use nor freed twice.
    In every state reached since boot the page tables allocated and not yet
    freed are exactly those of the tasks that are not reaped, and whatever
    happens next frees each page table at most once, only one that was allocated,
    and none that a remaining task uses.  This is under two conditions on the
    operations, which the code does not ensure ([space_safe]): no thread calls
    [exec] while another thread shares its page table, and a kill by the desktop,
    when it was interrupted between its check and its effect, finds the check
    still valid, so that its target was not reaped meanwhile. *)
Theorem address_spaces_exact ic ops k owned op :
  krun ops (boot ic) ∅ = Some (k, owned) → along space_safe ops (boot ic) →
  kenabled op k owned → space_safe op k →
  (∀ p, p ∈ owned ↔ ∃ i t, get_task i k = Some t ∧ t_pml4 t = Some p ∧ t_status t ≠ Reaped) ∧
  NoDup (freed_by op k) ∧
  ∀ p, p ∈ freed_by op k → (p ∈ owned ∨ p ∈ new_space op) ∧
    ∀ i t, get_task i (kexec op k) = Some t → t_pml4 t = Some p → t_status t = Reaped.
Proof.
  intros Hrun Hal Hen Ha. pose proof (krun_ok _ _ _ _ _ (kernel_boot_ok ic) Hrun) as Hok.
  pose proof (krun_space _ _ _ _ _ (kernel_boot_ok ic) (boot_space ic) Hal Hrun) as How.
  destruct (kexec_space op k owned Hok Hen Ha How) as [ps Hsp].
  destruct (owned_after_spec op k owned ps How Hsp) as [-> _]. split_and!.
  - intros p. rewrite How. unfold live_space. by setoid_rewrite uses_space_spec.
  - apply Hsp.
  - intros p Hp. split; [rewrite How; apply (sg_live _ _ _ _ Hsp); by right|].
    intros i t Hi Ht. destruct (decide (t_status t = Reaped)) as [|Hn]; [done|]. destruct (sg_unused _ _ _ _ Hsp p Hp).
    exists i, t. split; [done|]. by apply uses_space_spec.
Qed.
End Run.
