(* ===== verification/ProcessLife.v ===== *)
(** * Fairness of the scheduler

    What each operation of ProcessRun.v does to a task that is not running, and
    the theorem that a ready task runs within as many ticks as there are tasks. *)
From stdpp Require Import gmap.
From S2P Require Import Prelude Security Pipe FdTable FdInv Process MemoryPressure ProcessInv ProcessRun.

Local Open Scope Z_scope.

Section Life.
Context (dps : Z).
Local Abbreviation kexec := (kexec dps).
Local Abbreviation krun := (krun dps).
Local Abbreviation boot := (boot dps).
Local Abbreviation sched_ok := (sched_ok dps).
Local Abbreviation schedule := (schedule dps).

(** ** Runs *)
Lemma krun_app ops1 ops2 k owned :
  krun (ops1 ++ ops2) k owned = (krun ops1 k owned ≫= λ '(k1, o1), krun ops2 k1 o1).
Proof. revert k owned. induction ops1 as [|op ops IH]; intros k owned; simpl; [done|]. case_decide; [apply IH|done]. Qed.

Definition is_tick (op : kop) : bool := match op with KTick false _ _ => true | _ => false end.
Definition blocks (op : kop) : bool := match op with KBlock | KBlockUntil _ => true | _ => false end.
Lemma is_tick_inv op : is_tick op = true → ∃ now rsp, op = KTick false now rsp.
Proof. destruct op; try done. destruct locked; [done|]. eauto. Qed.
Lemma tick_is_schedule now rsp k : sched_ok k → ∃ ptr, schedule now rsp k = (ptr, kexec (KTick false now rsp) k).
Proof.
  intros Hok. assert (timer_schedule dps false now rsp k = schedule now rsp k) as Hs.
  { unfold timer_schedule. pose proof (so_idle _ _ Hok). destruct (Nat.eqb_spec (length (k_tasks k)) 0); [lia|done]. }
  change (kexec (KTick false now rsp) k) with (timer_schedule dps false now rsp k).2. rewrite Hs.
  exists (schedule now rsp k).1. by destruct (schedule now rsp k).
Qed.
Definition ticks (ops : list kop) : nat := length (List.filter is_tick ops).

(** ** Four kinds of operations beside the tick *)
(** One that adds a task, or fails to: the old tasks are at most woken. *)
Record grows (k k' : Kernel) : Prop := {
  gr_current : k_current k' = k_current k;
  gr_length : (length (k_tasks k) ≤ length (k_tasks k'))%nat;
  gr_old : ∀ i t, get_task i k = Some t → ∃ t', get_task i k' = Some t' ∧ woken i t t';
  gr_new : ∀ i t', get_task i k' = Some t' → is_Some (get_task i k) ∨ t_status t' = Ready ∧ t_pending_signal t' = None }.
(** One that changes attributes of the running task, or blocks it. *)
Record adjusts (op : kop) (f : Task → Task) : Prop := {
  ad_pending : ∀ t, t_pending_signal (f t) = t_pending_signal t;
  ad_parent : ∀ t, t_parent (f t) = t_parent t;
  ad_status : ∀ t, t_status (f t) = if blocks op then Blocked else t_status t }.

Definition spawning (op : kop) : bool :=
  match op with KSpawn _ _ _ _ _ _ _ _ _ | KThread _ _ _ _ _ _ _ _ => true | _ => false end.

Inductive op_kind (op : kop) (k k' : Kernel) : Prop :=
  | kind_settles ps : settling op = true → settles ps k k' → op_kind op k k'
  | kind_grows : spawning op = true → grows k k' → op_kind op k k'
  | kind_late id code : op = KKillLate id code → evolves (becomes id (mark_exited code)) k k' → op_kind op k k'
  | kind_adjusts f : settling op || spawning op = false → adjusts op f → k_sched k' = k_sched (upd_task (k_current k) f k) → op_kind op k k'.

Lemma spawned_grows addr frame pml4 tls t k k' : fresh_task addr pml4 tls k t → spawned addr frame t k k' → grows k k'.
Proof.
  intros Hft [Ht Hc _ _ _]. split; [done|rewrite Ht, length_app; lia|..].
  - intros i u Hi. exists u. split; [|by left]. unfold get_task. rewrite Ht. by apply lookup_app_l_Some.
  - intros i u. unfold get_task. rewrite Ht. intros [Hi|[_ Hi]]%lookup_app_Some; [by left; eexists|].
    apply list_lookup_singleton_Some in Hi as [_ <-]. right. split; apply Hft.
Qed.
Lemma woken_grows k k1 k' : evolves woken k k1 → k_sched k' = k_sched k1 → grows k k'.
Proof.
  intros He Hs. split; unfold get_task; rewrite ?Hs; [apply He|by rewrite (ev_length _ _ _ He)|apply He|].
  intros i t' Hi. left. destruct (get_task_back _ _ _ _ _ He Hi) as (t & Ht & _). by exists t.
Qed.

Lemma adjusts_nothing op k : settling op || spawning op = false → blocks op = false → op_kind op k k.
Proof.
  intros Hp Hb. apply (kind_adjusts _ _ _ (λ t, t)); [done|split; by rewrite ?Hb|]. destruct k as [[ts cur]]. simpl. f_equal. symmetry.
  apply list_eq. intros i. destruct (decide (i = cur)) as [->|Hn]; [|by apply list_lookup_alter_ne].
  rewrite list_lookup_alter_eq. by destruct (ts !! cur).
Qed.

Lemma kexec_kind op k : sched_ok k → is_tick op = false → op_kind op k (kexec op k).
Proof.
  intros Hok Htick. destruct (settling op) eqn:Hop.
  { destruct (kexec_settles dps op k Hok Hop) as [ps Hs]. by eapply kind_settles. }
  assert (k_tasks k ≠ []) as Hne by (intros Hn; pose proof (so_idle _ _ Hok) as H0; rewrite Hn in H0; simpl in H0; lia).
  destruct op; simpl in Hop, Htick |- *; try done.
  - destruct locked; [by apply adjusts_nothing|done].
  - by eapply (kind_adjusts _ _ _ (set_status Blocked)).
  - by eapply (kind_adjusts _ _ _ (λ t, set_wake_tick (Some wake) (set_status Blocked t))).
  - apply kind_grows; [done|]. destruct (spawn_user_with_fds_and_credentials _ _ _ _ _ _ _ _ _ _) as [b k'] eqn:E.
    apply spawn_user_spec in E; [|done]. destruct b.
    + destruct E as (addr & t & _ & Hft & Hsp & _). by eapply spawned_grows.
    + destruct E as (k1 & He & ->). by eapply woken_grows.
  - apply kind_grows; [done|]. destruct (spawn_user_thread _ _ _ _ _ _ _ _ _) as [r k'] eqn:E. apply spawn_thread_spec in E. destruct r.
    + destruct E as (addr & pt & q & t & _ & _ & _ & _ & Hft & _ & _ & Hsp & _). by eapply spawned_grows.
    + by eapply woken_grows.
  - destruct (so_live _ _ Hok) as (t & Ht & _). destruct (exec_replace_sched pml4 k t Ht) as (Hs & _). by eapply kind_adjusts, Hs.
  - unfold set_current_tls_base. destruct (current_task k); [|by apply adjusts_nothing].
    case_bool_decide; [by apply adjusts_nothing|]. by eapply (kind_adjusts _ _ _ (set_tls base)).
  - by eapply (kind_adjusts _ _ _ (set_cwd path)).
  - by eapply (kind_adjusts _ _ _ (set_creds c)).
  - eapply kind_late; [done|apply late_becomes].
Qed.

(** Operations other than the tick leave the running task alone, and none removes a task. *)
Lemma kexec_shape op k :
  sched_ok k →
  (length (k_tasks k) ≤ length (k_tasks (kexec op k)))%nat ∧ (is_tick op = false → k_current (kexec op k) = k_current k).
Proof.
  intros Hok. destruct (is_tick op) eqn:Htick.
  - apply is_tick_inv in Htick as (now & rsp & ->). split; [|done].
    destruct (tick_is_schedule now rsp k Hok) as (ptr & Hs). destruct (schedule_scheduled dps _ _ _ _ _ Hok Hs) as ([] & _). lia.
  - destruct (kexec_kind op k Hok Htick) as [ps _ Hs|_ Hg|id code _ He|f _ _ Hs].
    + rewrite (se_length _ _ _ Hs), (se_current _ _ _ Hs). done.
    + split; [|intros _]; apply Hg.
    + by rewrite (ev_length _ _ _ He), (ev_current _ _ _ He).
    + rewrite Hs. simpl. by rewrite length_alter.
Qed.

Lemma krun_length ops k owned k' owned' :
  sched_ok k → krun ops k owned = Some (k', owned') → (length (k_tasks k) ≤ length (k_tasks k'))%nat.
Proof.
  revert k owned. induction ops as [|op ops IH]; intros k owned Hok; simpl; [by intros [= <- _]|].
  case_decide as Hen; [|done]. intros Hr. destruct (kexec_shape op k Hok) as [Hl _].
  etransitivity; [exact Hl|]. eapply IH; [by eapply kexec_ok|done].
Qed.

(** ** What becomes of a task that is not running *)
Lemma woken_settled cur i t t' : woken i t t' → settled cur i t t'.
Proof. intros Hw. left. by eapply keeps_woken. Qed.
Lemma kexec_other op k i t :
  sched_ok k → is_tick op = false → i ≠ k_current k → get_task i k = Some t →
  ∃ t', get_task i (kexec op k) = Some t' ∧ (settled (k_current k) i t t' ∨ ∃ code, op = KKillLate i code ∧ t' = mark_exited code t).
Proof.
  intros Hok Htick Hi Ht. destruct (kexec_kind op k Hok Htick) as [ps _ Hs|_ Hg|id code -> He|f _ _ Hs].
  - destruct (se_tasks _ _ _ Hs i t Ht) as (t' & Ht' & Hset). eauto.
  - destruct (gr_old _ _ Hg i t Ht) as (t' & Ht' & Hw). exists t'. split; [done|left; by apply woken_settled].
  - destruct (ev_tasks _ _ _ He i t Ht) as (t' & Ht' & Hb). exists t'. split; [done|]. unfold becomes in Hb.
    destruct (Nat.eqb_spec i id) as [->|Hn]; [right; by exists code|left; by apply woken_settled].
  - exists t. split; [|left; left; apply keeps_refl]. unfold get_task. rewrite Hs.
    change (get_task i (upd_task (k_current k) f k) = Some t). rewrite get_upd_task. apply Nat.eqb_neq in Hi. by rewrite Hi.
Qed.

(** No stop signal is ever pending: [send_signal] stops its target at once. *)
Definition pend_ok (k : Kernel) : Prop := ∀ i t, get_task i k = Some t → t_pending_signal t ≠ Some Stop.

Lemma ticked_pending now rsp cur i t : t_pending_signal (ticked now rsp cur i t) = None.
Proof.
  unfold ticked, tick_task. set (u := wake_sleeper _ _). unfold deliver_pending.
  destruct (t_pending_signal u) as [[]|] eqn:Hu; try done; by case_match.
Qed.

Lemma kexec_pend op k : sched_ok k → pend_ok k → pend_ok (kexec op k).
Proof.
  intros Hok Hp i t' Hi Hst. destruct (is_tick op) eqn:Htick.
  { apply is_tick_inv in Htick as (now & rsp & ->). destruct (tick_is_schedule now rsp k Hok) as (ptr & Hs).
    destruct (schedule_scheduled dps _ _ _ _ _ Hok Hs) as ([_ _ _ _ _ _ Ht] & _). rewrite Ht in Hi.
    destruct (get_task i k); [|done]. injection Hi as <-. revert Hst. case_match; simpl; by rewrite ticked_pending. }
  destruct (kexec_kind op k Hok Htick) as [ps _ Hs|_ Hg|id code _ He|f _ Hf Hs].
  - destruct (settles_back _ _ _ _ _ Hs Hi) as (t & Ht & [Hk|(_ & _ & _ & Hr)]); [by apply (Hp i t Ht), Hk|by apply (Hp i t Ht), Hr].
  - destruct (gr_new _ _ Hg i t' Hi) as [[t Ht]|[_ Hn]]; [|congruence].
    destruct (gr_old _ _ Hg i t Ht) as (u & Hu & Hw). simplify_eq. by apply (Hp i t Ht), (keeps_woken _ _ _ Hw).
  - destruct (get_task_back _ _ _ _ _ He Hi) as (t & Ht & Hb). apply (Hp i t Ht). unfold becomes in Hb.
    destruct (Nat.eqb_spec i id); [by subst|by apply (keeps_woken _ _ _ Hb)].
  - unfold get_task in Hi. rewrite Hs in Hi. change (get_task i (upd_task (k_current k) f k) = Some t') in Hi.
    rewrite get_upd_task in Hi. destruct (get_task i k) as [t|] eqn:Ht; [|by case_match].
    apply (Hp i t Ht). revert Hi. case_match; intros [= <-]; [|done]. by rewrite (ad_pending _ _ Hf) in Hst.
Qed.

(** ** Fairness *)
(** How far [j] is ahead of the running task, with [n] tasks. *)
Definition rank (n cur j : nat) : nat := if (cur <? j)%nat then (j - cur)%nat else (n - cur + j)%nat.

Lemma rank_step n N cur j d next :
  (cur < n)%nat → (j < n)%nat → (n ≤ N)%nat → (d < n)%nat → next = (((cur + 1) mod n + d) mod n)%nat →
  (∀ e, (e < d)%nat → (((cur + 1) mod n + e) mod n ≠ j)%nat) → next ≠ j → (rank N next j < rank N cur j)%nat.
Proof.
  intros Hc Hj HN Hd Hnext Hbefore Hne. rewrite Nat.Div0.add_mod_idemp_l in Hnext.
  assert (∀ e, (e < d)%nat → ((cur + 1 + e) mod n ≠ j)%nat) as Hb.
  { intros e He. rewrite <- Nat.Div0.add_mod_idemp_l. by apply Hbefore. }
  assert (∀ x, (x < n)%nat → (x mod n = x)%nat) as Hsmall by (intros; by apply Nat.mod_small).
  assert (∀ x, (n ≤ x < 2 * n)%nat → (x mod n = x - n)%nat) as Hbig.
  { intros x Hx. replace x with ((x - n) + 1 * n)%nat at 1 by lia. rewrite Nat.Div0.mod_add. apply Nat.mod_small. lia. }
  unfold rank. destruct (Nat.ltb_spec cur j) as [Hlt|Hge].
  - assert (d < j - cur - 1)%nat as Hdj.
    { destruct (Nat.lt_ge_cases d (j - cur - 1)) as [|Hge]; [done|]. exfalso.
      destruct (decide (d = j - cur - 1)%nat) as [->|Hn].
      - apply Hne. rewrite Hnext, Hsmall; lia.
      - apply (Hb (j - cur - 1)%nat); [lia|]. rewrite Hsmall; lia. }
    rewrite Hsmall in Hnext by lia. subst next. destruct (Nat.ltb_spec (cur + 1 + d) j); lia.
  - assert (d < n - cur - 1 + j)%nat as Hdj.
    { destruct (Nat.lt_ge_cases d (n - cur - 1 + j)) as [|Hged]; [done|]. exfalso.
      assert ((cur + 1 + (n - cur - 1 + j)) mod n = j)%nat as Hjm by (rewrite Hbig; lia).
      destruct (decide (d = n - cur - 1 + j)%nat) as [->|Hn]; [by apply Hne; rewrite Hnext|].
      apply (Hb (n - cur - 1 + j)%nat); [lia|done]. }
    destruct (Nat.lt_ge_cases (cur + 1 + d) n) as [Hw|Hw].
    + rewrite Hsmall in Hnext by lia. destruct (Nat.ltb_spec next j); lia.
    + rewrite Hbig in Hnext by lia. destruct (Nat.ltb_spec next j); lia.
Qed.

Lemma ticked_ready now rsp cur i t :
  t_status t = Ready → t_pending_signal t ≠ Some Stop → t_status (ticked now rsp cur i t) = Ready.
Proof.
  intros Hs Hp. unfold ticked, tick_task.
  set (u := if (i =? cur)%nat then _ else _). assert (t_status u = Ready ∧ t_pending_signal u = t_pending_signal t) as [Hu Hup].
  { subst u. case_match; [|done]. unfold save_current. simpl. by rewrite Hs. }
  unfold wake_sleeper. rewrite Hu. simpl. unfold deliver_pending. rewrite Hup.
  destruct (t_pending_signal t) as [[]|]; simpl; rewrite ?Hu; done.
Qed.

(** A ready task is passed over only for one that is closer behind the running task. *)
Lemma tick_progress now rsp k ptr k' j t N :
  sched_ok k → pend_ok k → schedule now rsp k = (ptr, k') → get_task j k = Some t → t_status t = Ready →
  (length (k_tasks k) ≤ N)%nat →
  k_current k' = j ∨ (rank N (k_current k') j < rank N (k_current k) j)%nat ∧ ∃ t', get_task j k' = Some t' ∧ t_status t' = Ready.
Proof.
  intros Hok Hp Hs Hj Hr HN. destruct (schedule_scheduled dps _ _ _ _ _ Hok Hs) as ([Hc _ _ _ _ _ Ht] & _).
  destruct (decide (next_task now rsp k = j)) as [<-|Hne]; [by left|right].
  pose proof (ticked_ready now rsp (k_current k) j t Hr (Hp j t Hj)) as Hrt. split.
  - rewrite Hc. pose proof (lookup_lt_Some _ _ _ Hj) as Hjlt. destruct (so_live _ _ Hok) as (u & Hu & _).
    pose proof (lookup_lt_Some _ _ _ Hu) as Hclt. set (ts := ticked_tasks now rsp k). pose proof (ticked_length now rsp k) as Hl.
    fold ts in Hl. assert (ready ts j = true) as Hrj by (unfold ready, ts; rewrite ticked_lookup, Hj; simpl; by rewrite Hrt).
    pose proof (find_ready_spec (length ts) ((k_current k + 1) mod length ts) ts ltac:(apply Nat.mod_upper_bound; lia)) as Hf.
    unfold next_task in *. fold ts in Hne |- *. destruct (find_ready _ _ ts) as [x|]; simpl in *.
    + destruct Hf as (d & Hd & Hx & _ & Hbefore). rewrite Hl in *. eapply rank_step; try done. intros e He Hej.
      specialize (Hbefore e He). rewrite Hej in Hbefore. congruence.
    + exfalso. set (e := (if k_current k <? j then j - k_current k - 1 else length ts - k_current k - 1 + j)%nat).
      assert (((k_current k + 1) mod length ts + e) mod length ts = j)%nat as He.
      { rewrite Nat.Div0.add_mod_idemp_l. subst e. destruct (Nat.ltb_spec (k_current k) j).
        - rewrite Nat.mod_small; lia.
        - replace (k_current k + 1 + (length ts - k_current k - 1 + j))%nat with (j + 1 * length ts)%nat by lia.
          rewrite Nat.Div0.mod_add. apply Nat.mod_small. lia. }
      specialize (Hf e). rewrite He in Hf. rewrite Hf in Hrj; [done|]. subst e. destruct (Nat.ltb_spec (k_current k) j); lia.
  - rewrite Ht, Hj. simpl. apply Nat.eqb_neq in Hne. rewrite Nat.eqb_sym, Hne. eexists. split; [done|exact Hrt].
Qed.

(** What a ready task can become without running: it is stopped, ended or reclaimed. *)
Definition taken_out (j : nat) (k : Kernel) : Prop :=
  ∃ t, get_task j k = Some t ∧ (t_status t = Stopped ∨ t_status t = Exited ∨ t_status t = Reaped).

Lemma ready_step op k j t :
  sched_ok k → pend_ok k → get_task j k = Some t → t_status t = Ready → j ≠ k_current k →
  k_current (kexec op k) = j ∨ taken_out j (kexec op k) ∨ ∃ t', get_task j (kexec op k) = Some t' ∧ t_status t' = Ready.
Proof.
  intros Hok Hp Ht Hr Hj. destruct (is_tick op) eqn:Htick.
  - apply is_tick_inv in Htick as (now & rsp & ->). destruct (tick_is_schedule now rsp k Hok) as (ptr & Hs).
    destruct (tick_progress now rsp k ptr _ j t _ Hok Hp Hs Ht Hr (Nat.le_refl _)) as [?|[_ ?]]; auto.
  - destruct (kexec_other op k j t Hok Htick Hj Ht) as (t' & Ht' & Hset). right.
    destruct (t_status t') eqn:Hst; [right; by exists t'| | |left; exists t'; split; [done|]; rewrite Hst; auto..];
      (destruct Hset as [[Hk|(_ & _ & _ & [Hx _ _ _ _])]|(code & _ & ->)]; [apply Hk in Hst; congruence|congruence|done]).
Qed.

Lemma rank_bounds N cur j : (cur < N)%nat → (j < N)%nat → (1 ≤ rank N cur j ≤ N)%nat.
Proof. intros. unfold rank. destruct (Nat.ltb_spec cur j); lia. Qed.

Lemma so_current_lt k : sched_ok k → (k_current k < length (k_tasks k))%nat.
Proof. intros Hok. destruct (so_live _ _ Hok) as (u & Hu & _). by eapply lookup_lt_Some. Qed.

Lemma rank_drop op k j t N :
  sched_ok k → pend_ok k → get_task j k = Some t → t_status t = Ready →
  (length (k_tasks k) ≤ N)%nat → k_current (kexec op k) ≠ j →
  (rank N (k_current (kexec op k)) j + (if is_tick op then 1 else 0) ≤ rank N (k_current k) j)%nat.
Proof.
  intros Hok Hp Ht Hr HN Hnj. destruct (is_tick op) eqn:Htick.
  - apply is_tick_inv in Htick as (now & rsp & ->). destruct (tick_is_schedule now rsp k Hok) as (ptr & Hs).
    destruct (tick_progress now rsp k ptr _ j t N Hok Hp Hs Ht Hr HN) as [?|[? _]]; [done|lia].
  - destruct (kexec_shape op k Hok) as [_ Hc]. rewrite Hc by done. lia.
Qed.

Lemma fair_run ops k owned k' owned' j t :
  sched_ok k → pend_ok k → get_task j k = Some t → t_status t = Ready → krun ops k owned = Some (k', owned') →
  (rank (length (k_tasks k')) (k_current k) j ≤ ticks ops)%nat →
  ∃ ops1 ops2 k1 o1, ops = ops1 ++ ops2 ∧ krun ops1 k owned = Some (k1, o1) ∧ (k_current k1 = j ∨ taken_out j k1).
Proof.
  revert k owned t. induction ops as [|op ops IH]; intros k owned t Hok Hp Ht Hr Hrun Hticks.
  - destruct (decide (k_current k = j)) as [<-|Hne]; [by exists [], [], k, owned; auto|]. simpl in Hrun. simplify_eq.
    pose proof (rank_bounds _ _ _ (so_current_lt _ Hok) (lookup_lt_Some _ _ _ Ht)). unfold ticks in Hticks. simpl in Hticks. lia.
  - destruct (decide (k_current k = j)) as [<-|Hne]; [by exists [], (op :: ops), k, owned; auto|].
    pose proof (krun_length _ _ _ _ _ Hok Hrun) as Hlen. cbn [ProcessRun.krun] in Hrun. case_decide as Hen; [|done].
    assert (krun [op] k owned = Some (kexec op k, owned_after dps op k owned)) as H1 by (simpl; by rewrite decide_True).
    destruct (ready_step op k j t Hok Hp Ht Hr (not_eq_sym Hne)) as [Hc|[Hout|(t' & Ht' & Hr')]];
      [by exists [op], ops, (kexec op k), (owned_after dps op k owned); auto..|].
    destruct (decide (k_current (kexec op k) = j)) as [Hc|Hnj]; [by exists [op], ops, (kexec op k), (owned_after dps op k owned); auto|].
    pose proof (rank_drop op k j t _ Hok Hp Ht Hr Hlen Hnj) as Hdrop.
    assert (ticks (op :: ops) = (if is_tick op then 1 else 0) + ticks ops)%nat as Hcons by (unfold ticks; simpl; by destruct (is_tick op)).
    destruct (IH (kexec op k) (owned_after dps op k owned) t') as (ops1 & ops2 & k1 & o1 & -> & Hr1 & Hd);
      [by eapply kexec_ok|by eapply kexec_pend|done|done|done|lia|].
    exists (op :: ops1), ops2, k1, o1. split_and!; [done| |done]. cbn [ProcessRun.krun]. by rewrite decide_True.
Qed.

Lemma boot_pend ic : pend_ok (boot ic).
Proof. intros i t Hi. destruct i; [|done]. by injection Hi as <-. Qed.
Lemma krun_pend ops k owned k' owned' : sched_ok k → pend_ok k → krun ops k owned = Some (k', owned') → pend_ok k'.
Proof.
  revert k owned. induction ops as [|op ops IH]; intros k owned Hok Hp; simpl; [by intros [= <- _]|].
  case_decide as Hen; [|done]. apply IH; [by eapply kexec_ok|by eapply kexec_pend].
Qed.

(** C12: round robin is fair.  A task that is ready, in a state reached since
    boot, becomes the running task within as many timer interrupts as there are
    tasks, whatever else happens in between, new tasks and wake-ups included;
    otherwise some operation stopped, ended or reclaimed it meanwhile.  (A tick
    that finds the scheduler locked does not count.) *)
Theorem ready_task_runs ic before k owned j t ops k' owned' :
  krun before (boot ic) ∅ = Some (k, owned) → get_task j k = Some t → t_status t = Ready →
  krun ops k owned = Some (k', owned') → (length (k_tasks k') ≤ ticks ops)%nat →
  ∃ ops1 ops2 k1 o1, ops = ops1 ++ ops2 ∧ krun ops1 k owned = Some (k1, o1) ∧ (k_current k1 = j ∨ taken_out j k1).
Proof.
  intros Hb Ht Hr Hrun Hticks. pose proof (krun_ok dps _ _ _ _ _ (kernel_boot_ok dps ic) Hb) as Hok.
  pose proof (krun_pend _ _ _ _ _ (kernel_boot_ok dps ic) (boot_pend ic) Hb) as Hp.
  eapply fair_run; try done. pose proof (krun_length _ _ _ _ _ Hok Hrun) as Hlen.
  pose proof (so_current_lt _ Hok). pose proof (lookup_lt_Some _ _ _ Ht).
  pose proof (rank_bounds (length (k_tasks k')) (k_current k) j). lia.
Qed.

End Life.
