(* ===== verification/ProcessWait.v ===== *)
(** * Waiting, authority and the start of tasks

    A parent blocked in [waitpid] is woken by the end of its child and gets its
    exit code once; a task changes another one only where
    [can_control_task_locked] allows it, or to reclaim memory; a new task starts
    from the frame written for it; the number of tasks is bounded.  The runs that
    show limits of the code are in ProcessCases. *)
From stdpp Require Import gmap.
From S2P Require Import Prelude Security Pipe FdTable FdInv Process MemoryPressure ProcessInv ProcessRun ProcessLife.

Local Open Scope Z_scope.

Section Wait.
Context (dps : Z).
Local Abbreviation kexec := (kexec dps).
Local Abbreviation krun := (krun dps).
Local Abbreviation boot := (boot dps).
Local Abbreviation sched_ok := (sched_ok dps).
Local Abbreviation schedule := (schedule dps).

(** ** Waiting for a child *)
(** An exited task other than the running one is left as it is. *)
Definition frozen (cur i : nat) (t t' : Task) : Prop := i ≠ cur → t_status t = Exited → t' = t.
Lemma frozen_trans cur i t1 t2 t3 : frozen cur i t1 t2 → frozen cur i t2 t3 → frozen cur i t1 t3.
Proof. intros H1 H2 Hi He. rewrite (H1 Hi He) in *. auto. Qed.
Lemma woken_exited i t t' : woken i t t' → t_status t = Exited → t' = t.
Proof. intros [->| ->] He; [done|]. unfold unblock_task. by rewrite He. Qed.
Lemma becomes_frozen id f k k' :
  (id = k_current k ∨ ∃ t, get_task id k = Some t ∧ t_status t ≠ Exited) → evolves (becomes id f) k k' → evolves (frozen (k_current k)) k k'.
Proof.
  intros Hid. apply evolves_impl. intros i t t' Hi Hb Hc He. unfold becomes in Hb. destruct (Nat.eqb_spec i id) as [->|Hn].
  - destruct Hid as [->|(u & Hu & Hne)]; [done|congruence].
  - by eapply woken_exited.
Qed.
Lemma woken_frozen k k' : evolves woken k k' → evolves (frozen (k_current k)) k k'.
Proof. apply evolves_impl. intros i t t' _ Hw _. by eapply woken_exited. Qed.
Lemma ends_not_exited s : ends s = false → s ≠ Exited.
Proof. by intros H ->. Qed.

Lemma send_signal_frozen id s k r k' : send_signal id s k = (r, k') → evolves (frozen (k_current k)) k k'.
Proof.
  intros Hs. pose proof (send_signal_spec _ _ _ _ _ Hs) as H. destruct r as [[]|]; [|subst; by apply evolves_refl].
  destruct H as (H0 & Hc & He). eapply becomes_frozen, He. unfold send_signal in Hs.
  destruct (Nat.eqb_spec id 0) as [|_]; [done|]. destruct (Signal_exit_code s) as [code|].
  - destruct (Nat.eqb_spec id (k_current k)) as [->|Hne]; [by left|]. right.
    unfold map_err in Hs. destruct (kill_task id code k) as [r1 k1] eqn:Hk. apply kill_task_spec in Hk.
    destruct r1 as [[]|]; [|done]. destruct Hk as [[u [_ _ Hu _ Hal]] _]. exists u. split; [done|by apply ends_not_exited].
  - right. destruct (controlled_task _ _ _) as [u|] eqn:Hct; [|done]. apply controlled_task_ok in Hct as (Hu & _ & Hal).
    exists u. split; [done|by apply ends_not_exited].
Qed.
Lemma deliver_all_frozen ids s k n k' : deliver_all ids s k = (n, k') → evolves (frozen (k_current k)) k k'.
Proof.
  revert k n. induction ids as [|id ids IH]; intros k n; simpl; [intros [= _ <-]; by apply evolves_refl|].
  destruct (send_signal id s k) as [r k1] eqn:Hs. destruct (deliver_all ids s k1) as [m k2] eqn:Hd. intros [= _ <-].
  apply send_signal_frozen in Hs. eapply evolves_trans; [apply frozen_trans|exact Hs|].
  rewrite <- (ev_current _ _ _ Hs). by eapply IH.
Qed.

(** Reaping, seen from one task: only exited children of the caller, and for
    the idle task any exited task. *)
Definition reaped_child (cur : nat) (t t' : Task) : Prop :=
  t_status t = Exited ∧ is_parent cur t = true ∧ reaped_from t t' ∧ t_exit_code t' = t_exit_code t.
Definition reaps (k k' : Kernel) : Prop :=
  ∀ i t, get_task i k = Some t → get_task i k' = Some t ∨ ∃ t', get_task i k' = Some t' ∧ reaped_child (k_current k) t t'.

Lemma reap_locked_task id ts t p ts' :
  ts !! id = Some t → t_status t = Exited → reap_locked id (λ t, t) ts = (p, ts') →
  (∀ i, i ≠ id → ts' !! i = ts !! i) ∧ ∃ t', ts' !! id = Some t' ∧ reaped_from t t' ∧ t_exit_code t' = t_exit_code t.
Proof.
  intros Hid Hst Hr. destruct (reap_locked_spec _ _ _ _ _ _ harmless_id Hid ltac:(congruence) Hr) as (_ & Ho & (t' & Ht' & Hrf) & _).
  split; [done|]. exists t'. split_and!; [done..|]. unfold reap_locked in Hr.
  eapply take_reap_spec in Hr; [|by rewrite list_lookup_alter_eq, Hid|done]. destruct Hr as (_ & _ & Hl & _).
  rewrite Ht' in Hl. injection Hl as ->. by destruct p.
Qed.

Lemma reap_loop_reaps ids parent ts n ps ts' :
  reap_loop parent ids ts = (n, ps, ts') →
  ∀ i t, ts !! i = Some t → ts' !! i = Some t ∨ ∃ t', ts' !! i = Some t' ∧ reaped_child parent t t'.
Proof.
  revert ts n ps. induction ids as [|id ids IH]; intros ts n ps; simpl; [intros [= _ _ <-]; auto|].
  destruct ((id =? 0)%nat || _) eqn:Hskip; [by apply IH|]. apply orb_false_iff in Hskip as [_ Hre].
  apply negb_false_iff in Hre. destruct (ts !! id) as [t|] eqn:Ht; [|done]. apply andb_true_iff in Hre as [Hex%is_status_spec Hpar].
  destruct (reap_locked id _ ts) as [p ts1] eqn:Hr. destruct (reap_loop _ ids ts1) as [[n1 ps1] ts2] eqn:Hl. intros [= _ _ <-].
  destruct (reap_locked_task _ _ _ _ _ Ht Hex Hr) as (Ho & t' & Ht' & Hrf & Hcode). intros i u Hi.
  destruct (decide (i = id)) as [->|Hn]; [|apply (IH _ _ _ Hl); by rewrite Ho]. simplify_eq. right.
  destruct (IH _ _ _ Hl id t' Ht') as [?|(t'' & _ & Hbad & _)]; [by exists t'|]. by rewrite (rp_status _ _ Hrf) in Hbad.
Qed.

Lemma reap_all_reaps k n k' : reap_all_exited (k_current k) k = (n, k') → reaps k k'.
Proof.
  unfold reap_all_exited. destruct (reap_loop _ _ _) as [[c ps] ts] eqn:Hl. intros [= _ <-]. intros i t. by apply (reap_loop_reaps _ _ _ _ _ _ Hl).
Qed.

(** [waitpid] succeeds exactly on an exited child, and then returns its exit code. *)
Lemma waitpid_spec parent id k r k' :
  waitpid parent id k = (r, k') →
  match r with
  | Ok code => id ≠ 0%nat ∧ ∃ t t', get_task id k = Some t ∧ t_status t = Exited ∧ is_parent parent t = true ∧
      code = default 0 (t_exit_code t) ∧ get_task id k' = Some t' ∧ reaped_from t t' ∧ t_exit_code t' = t_exit_code t ∧
      ∀ i, i ≠ id → get_task i k' = get_task i k
  | Err e => k' = k
  end.
Proof.
  unfold waitpid. destruct (Nat.eqb_spec id 0) as [->|H0]; [by intros [= <- <-]|].
  destruct (get_task id k) as [t|] eqn:Ht; [|by intros [= <- <-]].
  destruct (is_parent parent t) eqn:Hpar; simpl; [|by intros [= <- <-]].
  destruct (t_status t) eqn:Hs; try (by intros [= <- <-]).
  destruct (reap_locked id _ (k_tasks k)) as [p ts] eqn:Hr. intros [= <- <-].
  destruct (reap_locked_task _ _ _ _ _ Ht Hs Hr) as (Ho & t' & Ht' & Hrf & Hcode).
  assert (k_tasks (frees p (set_tasks ts k)) = ts) as Hts by by destruct p.
  split; [done|]. exists t, t'. unfold get_task. rewrite Hts. split_and!; done.
Qed.
Lemma waitpid_reaps id k r k' : waitpid (k_current k) id k = (r, k') → reaps k k'.
Proof.
  intros Hw. apply waitpid_spec in Hw. destruct r; [|subst; by left].
  destruct Hw as (_ & t & t' & Ht & Hs & Hpar & _ & Ht' & Hrf & Hcode & Ho). intros i u Hi.
  destruct (decide (i = id)) as [->|Hn]; [right; exists t'; split; [done|]; simplify_eq; done|left]. by rewrite Ho.
Qed.

(** Whenever a live task ends, its parent is not left blocked. *)
Definition wakes (k k' : Kernel) : Prop :=
  ∀ c t t' p u, get_task c k = Some t → ends (t_status t) = false → get_task c k' = Some t' → ends (t_status t') = true →
    t_parent t = Some p → get_task p k' = Some u → t_status u ≠ Blocked.

Lemma woken_ends i t t' : woken i t t' → ends (t_status t') = ends (t_status t).
Proof. intros [->| ->]; [done|]. unfold unblock_task. destruct (is_status (t_status t) Blocked) eqn:E; [|done]. apply is_status_spec in E. by rewrite E. Qed.
Lemma woken_blocked i t t' : woken i t t' → t_status t' = Blocked → t_status t = Blocked.
Proof. intros Hw. apply (keeps_woken _ _ _ Hw). Qed.

Lemma unblock_not_blocked p k u : get_task p (unblock p k) = Some u → t_status u ≠ Blocked.
Proof.
  unfold unblock. rewrite get_upd_task, Nat.eqb_refl. destruct (get_task p k) as [t|]; [|done]. intros [= <-].
  unfold unblock_task. destruct (is_status (t_status t) Blocked) eqn:E; [done|]. by apply is_status_false in E.
Qed.
Lemma not_blocked_woken p k k' :
  (∀ u, get_task p k = Some u → t_status u ≠ Blocked) → evolves woken k k' → ∀ u, get_task p k' = Some u → t_status u ≠ Blocked.
Proof. intros Hn He u Hu Hb. destruct (get_task_back _ _ _ _ _ He Hu) as (t & Ht & Hw). apply (Hn t Ht). by eapply woken_blocked. Qed.
Lemma wake_parent_not_blocked p c k u : get_task p (wake_waiting_parent (Some p) c k) = Some u → t_status u ≠ Blocked.
Proof.
  revert u. simpl. eapply not_blocked_woken; [apply unblock_not_blocked|].
  unfold wake_child_poll_waiters. eapply evolves_same, wake_tasks_evolves; done.
Qed.

Lemma wakes_becomes id f k k' :
  evolves (becomes id f) k k' → (∀ p u, parent_of id k = Some p → get_task p k' = Some u → t_status u ≠ Blocked) → wakes k k'.
Proof.
  intros He Hp c t t' p u Hc Hal Hc' Hend Hpar Hu. destruct (ev_tasks _ _ _ He _ _ Hc) as (t1 & Hc1 & Hb). simplify_eq.
  unfold becomes in Hb. destruct (Nat.eqb_spec c id) as [->|Hn].
  - apply (Hp p); [|done]. unfold parent_of. by rewrite Hc.
  - apply woken_ends in Hb. congruence.
Qed.
Lemma wakes_same k k' :
  (∀ i t t', get_task i k = Some t → get_task i k' = Some t' → ends (t_status t) = false → ends (t_status t') = false) → wakes k k'.
Proof. intros Hs c t t' p u Hc Hal Hc' Hend. rewrite (Hs c t t') in Hend; done. Qed.
Lemma wakes_refl k : wakes k k.
Proof. apply wakes_same. intros i t t'. congruence. Qed.
Lemma wakes_woken k k' : evolves woken k k' → wakes k k'.
Proof.
  intros He. apply wakes_same. intros i t t' Hi Hi' Hal. destruct (ev_tasks _ _ _ He _ _ Hi) as (u & Hu & Hw). simplify_eq.
  by rewrite (woken_ends _ _ _ Hw).
Qed.
Lemma wakes_reaps k k' : reaps k k' → wakes k k'.
Proof.
  intros Hr. apply wakes_same. intros i t t' Hi Hi' Hal. destruct (Hr i t Hi) as [?|(u & _ & He & _)]; [by simplify_eq|].
  by rewrite He in Hal.
Qed.

Lemma exit_wakes code k : wakes k (exit_current code k).
Proof.
  eapply wakes_becomes; [apply exit_current_evolves|]. intros p u Hp. unfold exit_current. rewrite Hp. apply wake_parent_not_blocked.
Qed.
Lemma kill_effect_wakes id code k k' : kill_effect id code k = (Ok tt, k') → wakes k k'.
Proof.
  intros Hk. eapply wakes_becomes; [by eapply kill_effect_evolves|]. intros p u. unfold kill_effect in Hk. unfold parent_of.
  destruct (get_task id k) as [t|]; [|done]. injection Hk as <-. simpl. intros ->. revert u.
  eapply not_blocked_woken; [apply wake_parent_not_blocked|apply cleanup_evolves].
Qed.
Lemma kill_wakes id code k r k' : kill_task id code k = (r, k') → wakes k k'.
Proof.
  unfold kill_task. destruct (kill_check id k); [|intros [= _ <-]; by apply wakes_refl].
  intros Hk. destruct r as [[]|]; [by eapply kill_effect_wakes|]. unfold kill_effect in Hk. destruct (get_task id k); simplify_eq.
  by apply wakes_refl.
Qed.
Lemma fault_wakes code k : wakes k (fault_current code k).2.
Proof.
  eapply wakes_becomes; [apply fault_current_evolves|]. intros p u Hp. unfold fault_current. cbn [snd]. rewrite Hp. revert u.
  eapply not_blocked_woken; [apply wake_parent_not_blocked|apply cleanup_evolves].
Qed.

Lemma receive_alive s t : ends (t_status t) = false → ends (t_status (receive_signal s t)) = false.
Proof.
  intros Ht. destruct s; simpl; try done.
  - assert (ends (t_status (unblock_task (set_pending (Some User1) t))) = ends (t_status t)) as ->; [|done].
    exact (woken_ends 0 _ _ (or_intror eq_refl)).
  - by case_match.
Qed.
Lemma send_signal_wakes id s k r k' : send_signal id s k = (r, k') → wakes k k'.
Proof.
  pose proof (wakes_refl k) as Hsame.
  unfold send_signal. case_match; [by intros [= _ <-]|]. destruct (Signal_exit_code s) as [code|].
  - case_match; [intros [= _ <-]; apply exit_wakes|]. unfold map_err. destruct (kill_task id code k) as [r1 k1] eqn:Hk.
    destruct r1; intros [= _ <-]; by eapply kill_wakes.
  - case_match; intros [= _ <-]; [|done]. apply wakes_same. intros i t t' Hi. rewrite get_upd_task, Hi.
    case_match; intros [= <-]; [|done]. apply receive_alive.
Qed.

(** Several ends in a row: none of the later ones blocks anybody. *)
Lemma wakes_trans C k1 k2 k3 : evolves (only C) k1 k2 → evolves (only C) k2 k3 → wakes k1 k2 → wakes k2 k3 → wakes k1 k3.
Proof.
  intros E1 E2 W1 W2 c t t' p u Hc Hal Hc' Hend Hp Hu. destruct (ev_tasks _ _ _ E1 _ _ Hc) as (t2 & Hc2 & K2 & _).
  destruct (ends (t_status t2)) eqn:He2.
  - destruct (get_task_back _ _ _ _ _ E2 Hu) as (u2 & Hu2 & Ku & _). intros Hb. apply (kp_blocked _ _ Ku) in Hb.
    by apply (W1 c t t2 p u2).
  - apply (W2 c t2 t' p u); try done. by rewrite (keeps_parent _ _ K2).
Qed.
Lemma deliver_all_wakes ids s k n k' : current_live k → deliver_all ids s k = (n, k') → wakes k k'.
Proof.
  revert k n. induction ids as [|id ids IH]; intros k n Hl; simpl; [intros [= _ <-]; apply wakes_refl|].
  destruct (send_signal id s k) as [r k1] eqn:Hs. destruct (deliver_all ids s k1) as [m k2] eqn:Hd. intros [= _ <-].
  pose proof (send_signal_only _ _ _ _ _ Hl Hs) as E1. pose proof (current_live_only _ _ _ Hl E1) as Hl1.
  pose proof (deliver_all_only _ _ _ _ _ Hl1 Hd) as E2. eapply (wakes_trans (λ _, True)).
  - eapply evolves_impl, E1. intros i t t' _. by apply only_mono.
  - eapply evolves_impl, E2. intros i t t' _. by apply only_mono.
  - by eapply send_signal_wakes.
  - by eapply IH.
Qed.
Lemma force_reclaim_wakes id code k r k' : force_reclaim_task id code k = (r, k') → wakes k k'.
Proof.
  pose proof (wakes_refl k) as Hsame.
  unfold force_reclaim_task. destruct (id =? 0)%nat; [by intros [= _ <-]|]. destruct (id =? k_current k)%nat; [by intros [= _ <-]|].
  destruct (get_task id k) as [t|] eqn:Ht; [|by intros [= _ <-]]. destruct (is_status (t_status t) Exited); [by intros [= _ <-]|].
  destruct (is_status (t_status t) Reaped) eqn:Hnr; [by intros [= _ <-]|]. apply is_status_false in Hnr.
  destruct (reap_locked id _ (k_tasks k)) as [p ts] eqn:Hr. intros [= _ <-].
  assert (harmless (λ t, set_wake_tick None (set_exit_code (Some code) t))) as Hh by by intros u.
  destruct (reap_locked_spec _ _ _ _ _ _ Hh Ht Hnr Hr) as (_ & Ho & _ & _).
  set (k1 := set_tasks ts k). set (k2 := wake_waiting_parent (t_parent t) id k1).
  assert (evolves woken k1 (cleanup_task_resources id k2)) as W.
  { eapply evolves_trans; [apply woken_trans|apply wake_waiting_parent_evolves|apply cleanup_evolves]. }
  assert (∀ i, get_task i (frees p (cleanup_task_resources id k2)) = get_task i (cleanup_task_resources id k2)) as Hfr by by destruct p.
  intros c t0 t' q u Hc Hal Hc' Hend Hq Hu. rewrite Hfr in *. destruct (decide (c = id)) as [->|Hn].
  - simplify_eq. revert u Hu. eapply not_blocked_woken; [|apply cleanup_evolves]. subst k2. rewrite Hq. apply wake_parent_not_blocked.
  - assert (get_task c k1 = Some t0) as Hc1 by (unfold get_task; simpl; by rewrite Ho).
    destruct (ev_tasks _ _ _ W _ _ Hc1) as (t1 & Ht1 & Hw). simplify_eq. apply woken_ends in Hw. congruence.
Qed.

Lemma ticked_alive now rsp cur i t : ends (t_status t) = false → ends (t_status (ticked now rsp cur i t)) = false.
Proof.
  intros Ht. unfold ticked, tick_task. set (u := if (i =? cur)%nat then _ else _).
  assert (ends (t_status u) = false) as Hu by (subst u; case_match; [|done]; unfold save_current; by case_match).
  set (v := wake_sleeper now u). assert (ends (t_status v) = false) as Hv by (subst v; unfold wake_sleeper; by case_match).
  unfold deliver_pending. destruct (t_pending_signal v) as [[]|]; try done; by case_match.
Qed.

Lemma reclaim_wakes u code k : wakes k (reclaim_largest_user_task u code k).2.
Proof.
  unfold reclaim_largest_user_task. destruct (max_by_key _ _) as [m|]; [|apply wakes_refl].
  destruct (force_reclaim_task (tm_pid m) code k) as [[] k1] eqn:E; by eapply force_reclaim_wakes.
Qed.
Lemma signal_group_wakes g s k : current_live k → wakes k (send_signal_to_group g s k).2.
Proof.
  intros Hl. unfold send_signal_to_group. destruct (group_members g k); [apply wakes_refl|].
  destruct (deliver_all _ s k) eqn:E. case_match; by eapply deliver_all_wakes.
Qed.
Lemma wakes_upd i f k : (∀ t, ends (t_status t) = false → ends (t_status (f t)) = false) → wakes k (upd_task i f k).
Proof. intros Hf. apply wakes_same. intros j t t' Hj. rewrite get_upd_task, Hj. case_match; intros [= <-]; auto. Qed.
Lemma wakes_sched k k1 k2 : k_sched k2 = k_sched k1 → wakes k k1 → wakes k k2.
Proof. intros Hs Hw c t t' p u. unfold get_task. rewrite Hs. apply Hw. Qed.
Lemma wakes_grows k k' : grows k k' → wakes k k'.
Proof.
  intros Hg. apply wakes_same. intros i t t' Hi Hi' Hal. destruct (gr_old _ _ Hg i t Hi) as (u & Hu & Hw). simplify_eq.
  by rewrite (woken_ends _ _ _ Hw).
Qed.
Lemma tick_wakes now rsp k : sched_ok k → wakes k (kexec (KTick false now rsp) k).
Proof.
  intros Hok. destruct (tick_is_schedule dps now rsp k Hok) as (ptr & Hs). destruct (schedule_scheduled dps _ _ _ _ _ Hok Hs) as ([_ _ _ _ _ _ Ht] & _).
  apply wakes_same. intros i t t' Hi. rewrite Ht, Hi. intros [= <-] Hal. case_match; [done|]. by apply ticked_alive.
Qed.

(** Waking further tasks after that does no harm. *)
Lemma wakes_then_woken k1 k2 k3 : wakes k1 k2 → evolves woken k2 k3 → wakes k1 k3.
Proof.
  intros W He c t t' p u Hc Hal Hc' Hend Hp Hu Hb. destruct (get_task_back _ _ _ _ _ He Hc') as (t2 & Hc2 & Hw2).
  destruct (get_task_back _ _ _ _ _ He Hu) as (u2 & Hu2 & Hwu). apply (W c t t2 p u2); try done.
  - by rewrite <- (woken_ends _ _ _ Hw2).
  - by eapply woken_blocked.
Qed.
Lemma with_admission_wakes bytes h u op k : wakes k (with_admission bytes h u op k).
Proof.
  destruct (with_admission_cases bytes h u op k) as [ok ->]. eapply wakes_then_woken, fd_exec_evolves.
  destruct (recovers bytes h); [apply reclaim_wakes|apply wakes_refl].
Qed.

Lemma settling_wakes op k : sched_ok k → settling op = true → wakes k (kexec op k).
Proof.
  intros Hok Hop. pose proof (so_live _ _ Hok) as Hlive. destruct op; simpl in Hop |- *; try done.
  - apply wakes_woken, wake_tasks_evolves.
  - apply fault_wakes.
  - apply reclaim_wakes.
  - apply exit_wakes.
  - destruct (kill_task id code k) eqn:E. by eapply kill_wakes.
  - destruct (send_signal id s k) eqn:E. by eapply send_signal_wakes.
  - by apply signal_group_wakes.
  - unfold set_task_tty_as. repeat case_match; try apply wakes_refl. by apply wakes_upd.
  - unfold set_process_group_as. repeat case_match; try apply wakes_refl. by apply wakes_upd.
  - destruct (waitpid (k_current k) id k) eqn:E. by eapply wakes_reaps, waitpid_reaps.
  - destruct (reap_all_exited (k_current k) k) eqn:E. by eapply wakes_reaps, reap_all_reaps.
  - unfold register_child_waiter. repeat case_match; try apply wakes_refl. by eapply wakes_sched, wakes_refl.
  - by eapply wakes_sched, wakes_refl.
  - apply wakes_woken, fd_exec_evolves.
  - apply with_admission_wakes.
  - apply with_admission_wakes.
Qed.

Lemma kexec_wakes op k : sched_ok k → wakes k (kexec op k).
Proof.
  intros Hok. destruct (is_tick op) eqn:Htick; [apply is_tick_inv in Htick as (now & rsp & ->); by apply tick_wakes|].
  destruct (kexec_kind dps op k Hok Htick) as [ps Hop _|_ Hg|id code -> _|f _ Hf Hs].
  - by apply settling_wakes.
  - by apply wakes_grows.
  - simpl. destruct (kill_effect id code k) as [r k'] eqn:E. destruct r as [[]|]; [by eapply kill_effect_wakes|].
    unfold kill_effect in E. destruct (get_task id k); simplify_eq. apply wakes_refl.
  - eapply wakes_sched; [exact Hs|]. apply wakes_upd. intros t Ht. rewrite (ad_status _ _ Hf). by case_match.
Qed.

Lemma ticked_blocked now rsp cur i t : t_status (ticked now rsp cur i t) = Blocked → t_status t = Blocked.
Proof.
  unfold ticked, tick_task. set (u := if (i =? cur)%nat then _ else _).
  assert (t_status u = Blocked → t_status t = Blocked) as Hu by (subst u; case_match; [|done]; unfold save_current; by case_match).
  set (v := wake_sleeper now u). assert (t_status v = Blocked → t_status u = Blocked) as Hv by (subst v; unfold wake_sleeper; by case_match).
  unfold deliver_pending. destruct (t_pending_signal v) as [[]|]; simpl; try case_match; simpl; auto; done.
Qed.

(** Only [block_current] blocks, and only the running task. *)
Lemma blocked_back op k i t t' :
  sched_ok k → (i = k_current k → blocks op = false) →
  get_task i k = Some t → get_task i (kexec op k) = Some t' → t_status t' = Blocked → t_status t = Blocked.
Proof.
  intros Hok Hb Hi Hi' Hbl. destruct (is_tick op) eqn:Htick.
  { apply is_tick_inv in Htick as (now & rsp & ->). destruct (tick_is_schedule dps now rsp k Hok) as (ptr & Hs).
    destruct (schedule_scheduled dps _ _ _ _ _ Hok Hs) as ([_ _ _ _ _ _ Ht] & _).
    rewrite Ht, Hi in Hi'. injection Hi' as <-. revert Hbl. case_match; [done|]. by apply ticked_blocked. }
  destruct (kexec_kind dps op k Hok Htick) as [ps _ Hs|_ Hg|id code _ He|f _ Hf Hs].
  - destruct (se_tasks _ _ _ Hs _ _ Hi) as (u & Hu & [Hk|(_ & _ & _ & Hr)]); simplify_eq; [by apply Hk|].
    by rewrite (rp_status _ _ Hr) in Hbl.
  - destruct (gr_old _ _ Hg i t Hi) as (u & Hu & Hw). simplify_eq. by eapply woken_blocked.
  - destruct (ev_tasks _ _ _ He _ _ Hi) as (u & Hu & Hw). simplify_eq. unfold becomes in Hw. destruct (i =? id)%nat; [by subst|].
    by eapply woken_blocked.
  - unfold get_task in Hi'. rewrite Hs in Hi'. change (get_task i (upd_task (k_current k) f k) = Some t') in Hi'.
    rewrite get_upd_task, Hi in Hi'. destruct (Nat.eqb_spec i (k_current k)) as [->|Hn]; injection Hi' as <-; [|done].
    rewrite (ad_status _ _ Hf), Hb in Hbl; done.
Qed.

Lemma kexec_parent op k i t t' :
  sched_ok k → get_task i k = Some t → get_task i (kexec op k) = Some t' → t_parent t' = t_parent t.
Proof.
  intros Hok Hi Hi'. destruct (is_tick op) eqn:Htick.
  { apply is_tick_inv in Htick as (now & rsp & ->). destruct (tick_is_schedule dps now rsp k Hok) as (ptr & Hs).
    destruct (schedule_scheduled dps _ _ _ _ _ Hok Hs) as ([_ _ _ _ _ _ Ht] & _). rewrite Ht, Hi in Hi'. injection Hi' as <-.
    pose proof (ticked_core now rsp (k_current k) i t) as Hc. unfold core in Hc. case_match; simpl; congruence. }
  destruct (kexec_kind dps op k Hok Htick) as [ps _ Hs|_ Hg|id code _ He|f _ Hf Hs].
  - destruct (se_tasks _ _ _ Hs _ _ Hi) as (u & Hu & Hset). simplify_eq. by eapply settled_parent.
  - destruct (gr_old _ _ Hg i t Hi) as (u & Hu & Hw). simplify_eq. by apply keeps_parent, (keeps_woken i).
  - destruct (ev_tasks _ _ _ He _ _ Hi) as (u & Hu & Hw). simplify_eq. unfold becomes in Hw. destruct (i =? id)%nat; [by subst|].
    by apply keeps_parent, (keeps_woken i).
  - unfold get_task in Hi'. rewrite Hs in Hi'. change (get_task i (upd_task (k_current k) f k) = Some t') in Hi'.
    rewrite get_upd_task, Hi in Hi'. revert Hi'. case_match; intros [= <-]; [apply Hf|done].
Qed.
Lemma kexec_keeps_task op k i t : sched_ok k → get_task i k = Some t → is_Some (get_task i (kexec op k)).
Proof.
  intros Hok Hi. destruct (kexec_shape dps op k Hok) as [Hl _]. apply lookup_lt_is_Some_2. pose proof (lookup_lt_Some _ _ _ Hi). lia.
Qed.

(** While task [p] is blocked, its child [c] is alive. *)
Definition awaits (p c : nat) (k : Kernel) : Prop :=
  ∃ u t, get_task p k = Some u ∧ get_task c k = Some t ∧ t_parent t = Some p ∧ (t_status u = Blocked → ends (t_status t) = false).

Lemma awaits_step op k p c :
  sched_ok k → (k_current k = p → blocks op = false) → awaits p c k → awaits p c (kexec op k).
Proof.
  intros Hok Hb (u & t & Hu & Ht & Hp & Haw). destruct (kexec_keeps_task op k p u Hok Hu) as [u' Hu'].
  destruct (kexec_keeps_task op k c t Hok Ht) as [t' Ht']. exists u', t'. split_and!; [done..| |].
  - by rewrite (kexec_parent op k c t t').
  - intros Hbl. assert (t_status u = Blocked) as Hbl0 by (eapply blocked_back; eauto; intros ->; auto).
    destruct (ends (t_status t')) eqn:He; [|done]. destruct (kexec_wakes op k Hok c t t' p u'); auto.
Qed.
Lemma awaits_run ops k owned k' owned' p c :
  sched_ok k → awaits p c k → along dps (λ op k1, k_current k1 = p → blocks op = false) ops k →
  krun ops k owned = Some (k', owned') → awaits p c k'.
Proof.
  revert k owned. induction ops as [|op ops IH]; intros k owned Hok Ha; simpl; [by intros _ [= <- _]|].
  intros [Hb Hal]. case_decide as Hen; [|done]. apply IH; [by eapply kexec_ok|by apply awaits_step|done].
Qed.


(** ** Exit is final *)
Definition interrupt (op : kop) : bool := match op with KTick _ _ _ | KWake _ | KReclaim _ _ => true | _ => false end.
(** [t'] is [t] or what reaping leaves of it. *)
Definition laid_to_rest (t t' : Task) : Prop :=
  t_exit_code t' = t_exit_code t ∧ (t_status t' = Exited ∨ t_status t' = Reaped).

Lemma frozen_rest i t k k' :
  evolves (frozen (k_current k)) k k' → i ≠ k_current k → get_task i k = Some t → t_status t = Exited →
  ∃ t', get_task i k' = Some t' ∧ laid_to_rest t t'.
Proof.
  intros He Hi Ht Hex. destruct (ev_tasks _ _ _ He _ _ Ht) as (t' & Ht' & Hf). rewrite (Hf Hi Hex) in Ht'.
  exists t. split; [done|]. split; auto.
Qed.
Lemma woken_rest i t k k' :
  evolves woken k k' → get_task i k = Some t → t_status t = Exited → ∃ t', get_task i k' = Some t' ∧ laid_to_rest t t'.
Proof.
  intros He Ht Hex. destruct (ev_tasks _ _ _ He _ _ Ht) as (t' & Ht' & Hw). rewrite (woken_exited _ _ _ Hw Hex) in Ht'.
  exists t. split; [done|]. split; auto.
Qed.
Lemma reaps_rest i t k k' : reaps k k' → get_task i k = Some t → t_status t = Exited → ∃ t', get_task i k' = Some t' ∧ laid_to_rest t t'.
Proof.
  intros Hr Ht Hex. destruct (Hr i t Ht) as [?|(t' & Ht' & _ & _ & Hrf & Hc)]; [exists t; split; [done|]; split; auto|].
  exists t'. split; [done|]. split; [done|right; apply Hrf].
Qed.
Lemma reclaim_rest i t u code k :
  get_task i k = Some t → t_status t = Exited →
  ∃ t', get_task i (reclaim_largest_user_task u code k).2 = Some t' ∧ laid_to_rest t t'.
Proof.
  intros Ht Hex. assert (∃ t', get_task i k = Some t' ∧ laid_to_rest t t') as Hsame by (exists t; split; [done|]; split; auto).
  unfold reclaim_largest_user_task. destruct (max_by_key _ _) as [m|]; [|done]. set (id := tm_pid m).
  assert (∃ t', get_task i (force_reclaim_task id code k).2 = Some t' ∧ laid_to_rest t t') as Hf;
    [|by destruct (force_reclaim_task id code k) as [[] ?]]. unfold force_reclaim_task.
  destruct (id =? 0)%nat; [done|]. destruct (id =? k_current k)%nat; [done|]. destruct (get_task id k) as [v|] eqn:Hv; [|done].
  destruct (is_status (t_status v) Exited) eqn:H1; [done|]. destruct (is_status (t_status v) Reaped) eqn:H2; [done|].
  destruct (reap_locked id _ (k_tasks k)) as [p ts] eqn:Hr.
  assert (harmless (λ t, set_wake_tick None (set_exit_code (Some code) t))) as Hh by by intros w.
  apply is_status_false in H1, H2. destruct (reap_locked_spec _ _ _ _ _ _ Hh Hv H2 Hr) as (_ & Ho & _ & _).
  assert (i ≠ id) as Hne by congruence. cbn [snd].
  assert (evolves woken (set_tasks ts k) (cleanup_task_resources id (wake_waiting_parent (t_parent v) id (set_tasks ts k)))) as W.
  { eapply evolves_trans; [apply woken_trans|apply wake_waiting_parent_evolves|apply cleanup_evolves]. }
  destruct (woken_rest i t _ _ W) as (t' & Ht' & Hlr); [by unfold get_task; simpl; rewrite Ho|done|]. exists t'. by destruct p.
Qed.

Lemma with_admission_rest bytes h u op k i t :
  get_task i k = Some t → t_status t = Exited → ∃ t', get_task i (with_admission bytes h u op k) = Some t' ∧ laid_to_rest t t'.
Proof.
  intros Ht Hex. destruct (with_admission_cases bytes h u op k) as [ok ->]. cbv zeta. set (k1 := if recovers bytes h then _ else k).
  assert (∃ t1, get_task i k1 = Some t1 ∧ laid_to_rest t t1) as (t1 & Ht1 & Hc1 & Hs1).
  { subst k1. destruct (recovers bytes h); [by apply reclaim_rest|]. exists t. split; [done|]. split; auto. }
  destruct (ev_tasks _ _ _ (fd_exec_evolves (op ok (k_current k1)) k1) _ _ Ht1) as (t' & Ht' & Hw). exists t'. split; [done|].
  assert (t' = t1) as ->; [|by split]. destruct Hw as [->| ->]; [done|]. unfold unblock_task. by destruct Hs1 as [-> | ->].
Qed.

Lemma settling_rest op k i t :
  sched_ok k → settling op = true → (k_current k = i → interrupt op = true) → get_task i k = Some t → t_status t = Exited →
  ∃ t', get_task i (kexec op k) = Some t' ∧ laid_to_rest t t'.
Proof.
  intros Hok Hop Hint Ht Hex.
  assert (∃ t', get_task i k = Some t' ∧ laid_to_rest t t') as Hsame by (exists t; split; [done|]; split; auto).
  assert (interrupt op = false → i ≠ k_current k) as Hn by (intros Hf Heq; rewrite Hint in Hf; done).
  assert (∀ id f, id ≠ i → get_task i (upd_task id f k) = Some t) as Hupd.
  { intros id f Hid. rewrite get_upd_task. destruct (Nat.eqb_spec i id); congruence. }
  destruct op; simpl in Hop, Hn |- *; try done; try specialize (Hn eq_refl).
  - eapply woken_rest; [apply wake_tasks_evolves|done|done].
  - exact (frozen_rest i t k _ (becomes_frozen _ _ k _ (or_introl eq_refl) (fault_current_evolves code k)) Hn Ht Hex).
  - by apply reclaim_rest.
  - exact (frozen_rest i t k _ (becomes_frozen _ _ k _ (or_introl eq_refl) (exit_current_evolves code k)) Hn Ht Hex).
  - destruct (kill_task id code k) as [r k'] eqn:E. apply kill_task_spec in E. destruct r as [[]|]; [|by subst].
    destruct E as [[u [_ _ Hu _ Hal]] He]. eapply frozen_rest; [eapply becomes_frozen, He|done..]. right. exists u. split; [done|].
    by apply ends_not_exited.
  - destruct (send_signal id s k) eqn:E. eapply frozen_rest; [by eapply send_signal_frozen|done..].
  - unfold send_signal_to_group. destruct (group_members group k); [done|]. destruct (deliver_all _ s k) eqn:E.
    assert (evolves (frozen (k_current k)) k k0) as He by by eapply deliver_all_frozen.
    case_match; by eapply frozen_rest.
  - unfold set_task_tty_as. case_match; [done|]. destruct (controlled_task _ _ _) as [u|] eqn:Hct; [|done].
    apply controlled_task_ok in Hct as (Hu & _ & Hal%ends_not_exited). exists t. split; [|split; auto]. apply Hupd. congruence.
  - unfold set_process_group_as. case_match; [done|]. destruct (controlled_task _ _ _) as [u|] eqn:Hct; [|done].
    apply controlled_task_ok in Hct as (Hu & _ & Hal%ends_not_exited). exists t. split; [|split; auto]. apply Hupd. congruence.
  - destruct (waitpid (k_current k) id k) eqn:E. eapply reaps_rest; [by eapply waitpid_reaps|done..].
  - destruct (reap_all_exited (k_current k) k) eqn:E. eapply reaps_rest; [by eapply reap_all_reaps|done..].
  - unfold register_child_waiter. repeat case_match; done.
  - eapply woken_rest; [apply fd_exec_evolves|done..].
  - by apply with_admission_rest.
  - by apply with_admission_rest.
Qed.

Lemma rest_step op k i t :
  sched_ok k → i ≠ 0%nat → (k_current k = i → interrupt op = true) → kill_fresh op k → get_task i k = Some t → t_status t = Exited →
  ∃ t', get_task i (kexec op k) = Some t' ∧ laid_to_rest t t'.
Proof.
  intros Hok H0 Hint Hkf Ht Hex. destruct (is_tick op) eqn:Htick.
  { apply is_tick_inv in Htick as (now & rsp & ->). destruct (tick_is_schedule dps now rsp k Hok) as (ptr & Hs).
    destruct (schedule_scheduled dps _ _ _ _ _ Hok Hs) as ([_ _ _ _ _ _ Hts] & _). rewrite Hts, Ht. simpl.
    pose proof (ticked_core now rsp (k_current k) i t) as Hc. pose proof (ticked_exited now rsp (k_current k) i t Hex) as He.
    assert (i ≠ next_task now rsp k) as Hn.
    { intros Hi. destruct (next_task_spec dps now rsp k Hok) as (u & Hu & [Hr|Hz]); [|congruence].
      rewrite <- Hi in Hu, Hr. simplify_eq. congruence. }
    apply Nat.eqb_neq in Hn. rewrite Hn. eexists. split; [done|]. split; [unfold core in Hc; simpl; congruence|by left]. }
  destruct (settling op) eqn:Hop; [by apply settling_rest|].
  destruct (decide (k_current k = i)) as [<-|Hn].
  { assert (kexec op k = k) as -> by (destruct op; try done; try (by specialize (Hint eq_refl)); by destruct locked).
    exists t. split; [done|]. split; auto. }
  destruct (kexec_kind dps op k Hok Htick) as [ps Hx _|_ Hg|id code -> _|f _ Hf Hs]; [congruence|..].
  - destruct (gr_old _ _ Hg i t Ht) as (t' & Ht' & Hw). rewrite (woken_exited _ _ _ Hw Hex) in Ht'. exists t. split; [done|]. split; auto.
  - rewrite (fresh_kill dps) by done. by apply settling_rest.
  - exists t. split; [|split; auto]. unfold get_task. rewrite Hs. change (get_task i (upd_task (k_current k) f k) = Some t).
    rewrite get_upd_task. apply not_eq_sym, Nat.eqb_neq in Hn. by rewrite Hn.
Qed.

Lemma kexec_reaped op k i t :
  sched_ok k → kill_fresh op k → get_task i k = Some t → t_status t = Reaped → ∃ t', get_task i (kexec op k) = Some t' ∧ t_status t' = Reaped.
Proof.
  intros Hok Hkf Ht Hr. destruct (kexec_keeps_task op k i t Hok Ht) as [t' Ht']. exists t'. split; [done|].
  destruct (is_tick op) eqn:Htick.
  { apply is_tick_inv in Htick as (now & rsp & ->). destruct (tick_is_schedule dps now rsp k Hok) as (ptr & Hs).
    destruct (schedule_scheduled dps _ _ _ _ _ Hok Hs) as ([_ _ _ _ _ _ Hts] & _). rewrite Hts, Ht in Ht'. injection Ht' as <-.
    destruct (Nat.eqb_spec i (next_task now rsp k)) as [->|Hn]; [exfalso|by apply ticked_reaped].
    destruct (next_task_spec dps now rsp k Hok) as (u & Hu & [Hrd|Hz]); assert (u = t) as -> by congruence.
    - apply (ticked_reaped now rsp (k_current k) (next_task now rsp k)) in Hr. congruence.
    - pose proof (so_stack _ _ Hok _ _ Hu) as Hst. rewrite Hz in Hst. unfold stack_ok in Hst. simpl in Hst. tauto. }
  destruct (kexec_kind dps op k Hok Htick) as [ps _ Hs|_ Hg|id code -> He|f _ Hf Hs].
  - destruct (se_tasks _ _ _ Hs _ _ Ht) as (u & Hu & [Hk|(_ & _ & ? & _)]); [|done]. simplify_eq. by apply Hk.
  - destruct (gr_old _ _ Hg i t Ht) as (u & Hu & Hw). simplify_eq. by apply (kp_reaped _ _ (keeps_woken _ _ _ Hw)).
  - destruct (ev_tasks _ _ _ He _ _ Ht) as (u & Hu & Hw). simplify_eq. unfold becomes in Hw.
    destruct (Nat.eqb_spec i id) as [->|Hn]; [|by apply (kp_reaped _ _ (keeps_woken _ _ _ Hw))].
    pose proof (kill_check_spec id k) as Hc. simpl in Hkf. rewrite Hkf in Hc. destruct Hc as [v [_ _ Hv _ Hal]]. simplify_eq. by rewrite Hr in Hal.
  - unfold get_task in Ht'. rewrite Hs in Ht'. change (get_task i (upd_task (k_current k) f k) = Some t') in Ht'.
    rewrite get_upd_task, Ht in Ht'. destruct (Nat.eqb_spec i (k_current k)) as [->|Hn]; [|congruence].
    destruct (so_live _ _ Hok) as (u & Hu & ?). congruence.
Qed.


(** ** Authority over other tasks *)
Lemma only_woken (C : nat → Prop) k k' i t :
  evolves (only C) k k' → ¬ C i → get_task i k = Some t → ∃ t', get_task i k' = Some t' ∧ woken i t t'.
Proof. intros He Hn Ht. destruct (ev_tasks _ _ _ He _ _ Ht) as (t' & Ht' & _ & Hw). eauto. Qed.

Definition reaping (op : kop) : bool := match op with KWaitpid _ | KReapAll => true | _ => false end.

(** The task [reclaim_largest_user_task] ends, and the one an operation ends to recover memory. *)
Definition largest_user_task (u : Usage) (k : Kernel) : option nat :=
  tm_pid <$> max_by_key tm_estimated_bytes (List.filter (is_victim (k_current k)) (task_memory_stats u k)).
Definition victim (op : kop) (k : Kernel) : option nat :=
  match op with
  | KReclaim u _ => largest_user_task u k
  | KOpenFile h u data => if recovers (len data) h then largest_user_task u k else None
  | KMakePipe h u => if recovers PIPE_SIZE h then largest_user_task u k else None
  | _ => None
  end.

Lemma reclaim_foreign u code k i t :
  (largest_user_task u k = Some i → i = k_current k) → get_task i k = Some t →
  ∃ t', get_task i (reclaim_largest_user_task u code k).2 = Some t' ∧ woken i t t'.
Proof.
  intros Hv Ht. assert (∃ t', get_task i k = Some t' ∧ woken i t t') as Hsame by (exists t; split; [done|by left]).
  unfold reclaim_largest_user_task. unfold largest_user_task in Hv. destruct (max_by_key _ _) as [m|]; [|done]. simpl in Hv. set (id := tm_pid m) in *.
  assert (∃ t', get_task i (force_reclaim_task id code k).2 = Some t' ∧ woken i t t') as Hf;
    [|by destruct (force_reclaim_task id code k) as [[] ?]]. unfold force_reclaim_task.
  destruct (id =? 0)%nat; [done|]. destruct (Nat.eqb_spec id (k_current k)) as [|Hnc]; [done|]. destruct (get_task id k) as [v|] eqn:Hvt; [|done].
  destruct (is_status (t_status v) Exited); [done|]. destruct (is_status (t_status v) Reaped) eqn:H2; [done|].
  destruct (reap_locked id _ (k_tasks k)) as [p ts] eqn:Hr.
  assert (harmless (λ t, set_wake_tick None (set_exit_code (Some code) t))) as Hh by by intros w.
  apply is_status_false in H2. destruct (reap_locked_spec _ _ _ _ _ _ Hh Hvt H2 Hr) as (_ & Ho & _ & _). cbn [snd].
  assert (evolves woken (set_tasks ts k) (cleanup_task_resources id (wake_waiting_parent (t_parent v) id (set_tasks ts k)))) as W.
  { eapply evolves_trans; [apply woken_trans|apply wake_waiting_parent_evolves|apply cleanup_evolves]. }
  destruct (ev_tasks _ _ _ W i t) as (t' & Ht' & Hw); [unfold get_task; simpl; rewrite Ho; [exact Ht|]; intros ->; auto|]. exists t'. by destruct p.
Qed.
Lemma with_admission_foreign bytes h u op k i t :
  (if recovers bytes h then largest_user_task u k else None) ≠ Some i → get_task i k = Some t →
  ∃ t', get_task i (with_admission bytes h u op k) = Some t' ∧ woken i t t'.
Proof.
  intros Hv Ht. destruct (with_admission_cases bytes h u op k) as [ok ->]. cbv zeta. set (k1 := if recovers bytes h then _ else k).
  assert (∃ t1, get_task i k1 = Some t1 ∧ woken i t t1) as (t1 & Ht1 & Hw1).
  { subst k1. destruct (recovers bytes h); [apply reclaim_foreign; [by intros ?|done]|]. exists t. split; [done|by left]. }
  destruct (ev_tasks _ _ _ (fd_exec_evolves (op ok (k_current k1)) k1) _ _ Ht1) as (t' & Ht' & Hw). exists t'. split; [done|].
  by eapply woken_trans.
Qed.

Lemma settling_foreign op k i t :
  sched_ok k → settling op = true → victim op k ≠ Some i → (k_current k = 0%nat → reaping op = false) →
  ¬ controls k i → get_task i k = Some t → ∃ t', get_task i (kexec op k) = Some t' ∧ woken i t t'.
Proof.
  intros Hok Hop Hv Hreap Hc Ht. assert (i ≠ k_current k) as Hn.
  { intros ->. apply Hc. unfold controls, can_control_task_locked. by rewrite Nat.eqb_refl. }
  assert (∀ k', reaps k k' → (k_current k ≠ 0%nat) → ∃ t', get_task i k' = Some t' ∧ woken i t t') as Hr.
  { intros k' Hr Hz. destruct (Hr i t Ht) as [?|(t' & _ & _ & Hp & _)]; [exists t; split; [done|by left]|]. destruct Hc.
    unfold is_parent in Hp. apply orb_true_iff in Hp as [Hp|Hp%Nat.eqb_eq]; [|done]. destruct (so_live _ _ Hok) as (a & Ha & _).
    unfold controls, can_control_task_locked. rewrite Ha, Ht, Hp, orb_true_r. by case_match. }
  destruct op; simpl in Hop, Hv, Hreap |- *; try done.
  - apply (ev_tasks _ _ _ (wake_tasks_evolves ids k) _ _ Ht).
  - by eapply only_woken; [by apply (fault_only dps)|..].
  - apply reclaim_foreign; [by intros ?|done].
  - by eapply only_woken; [by apply (exit_only dps)|..].
  - by eapply only_woken; [apply kill_only|..].
  - destruct (send_signal id s k) eqn:E. eapply only_woken; [eapply send_signal_only; [by eapply so_live|done]| |done]. by intros [_ ?].
  - destruct (send_signal_to_group group s k) eqn:E. eapply only_woken; [eapply send_group_only; [by eapply so_live|done]| |done]. by intros [_ ?].
  - by eapply only_woken; [apply set_tty_only|..].
  - by eapply only_woken; [apply set_group_only|..].
  - destruct (waitpid (k_current k) id k) eqn:E. apply Hr; [by eapply waitpid_reaps|]. intros Hz. by specialize (Hreap Hz).
  - destruct (reap_all_exited (k_current k) k) eqn:E. apply Hr; [by eapply reap_all_reaps|]. intros Hz. by specialize (Hreap Hz).
  - by eapply only_woken; [apply child_wait_only|..].
  - exists t. split; [done|by left].
  - apply (ev_tasks _ _ _ (fd_exec_evolves op k) _ _ Ht).
  - by apply with_admission_foreign.
  - by apply with_admission_foreign.
Qed.

(** C13: no process interferes with another one it has no authority over,
    unless memory runs out.  Whatever system call the running task makes (kill,
    signals to a task or a group, terminal and process group changes, waiting and
    reaping, exit, spawn, exec, opening files and pipes, other descriptor
    operations), a task that is not its child and belongs to another user is
    untouched, unless the caller has administrator rights; at most it is woken if
    it was blocked.  The one exception is the recovery of memory that opening
    a file or a pipe starts under critical pressure: it ends the user task that
    holds most memory, whoever owns it, and no other.  Only the idle task, which
    runs the desktop, may reap other tasks' exited children, and its kills are
    taken with their check still valid when they take effect. *)
Theorem process_control_authorised ic before k owned op i t a :
  krun before (boot ic) ∅ = Some (k, owned) → is_tick op = false → kill_fresh op k → (k_current k = 0%nat → reaping op = false) →
  get_task (k_current k) k = Some a → get_task i k = Some t → i ≠ k_current k →
  can_admin (t_credentials a) = false → cr_uid (t_credentials a) ≠ cr_uid (t_credentials t) → t_parent t ≠ Some (k_current k) →
  ∃ t', get_task i (kexec op k) = Some t' ∧
    (t' = t ∨ t_status t = Blocked ∧ t' = set_status Ready (set_wake_tick None t) ∨ victim op k = Some i).
Proof.
  intros Hb Htick Hkf Hreap Ha Ht Hn Hadm Huid Hpar. pose proof (krun_ok dps _ _ _ _ _ (kernel_boot_ok dps ic) Hb) as Hok.
  destruct (decide (victim op k = Some i)) as [Hv|Hv].
  { destruct (kexec_keeps_task op k i t Hok Ht) as [t' Ht']. exists t'. auto. }
  assert (¬ controls k i) as Hc.
  { unfold controls, can_control_task_locked. apply not_eq_sym, Nat.eqb_neq in Hn. rewrite Hn, Ha, Ht, Hadm. apply Z.eqb_neq in Huid.
    rewrite Huid, bool_decide_eq_false_2; done. }
  assert (∃ t', get_task i (kexec op k) = Some t' ∧ woken i t t') as (t' & Ht' & Hw).
  { destruct (kexec_kind dps op k Hok Htick) as [ps Hop _|_ Hg|id code -> _|f _ Hf Hs].
    - by apply settling_foreign.
    - by apply (gr_old _ _ Hg).
    - rewrite (fresh_kill dps) by done. by apply settling_foreign.
    - exists t. split; [|by left]. unfold get_task. rewrite Hs. change (get_task i (upd_task (k_current k) f k) = Some t).
      rewrite get_upd_task. apply Nat.eqb_neq in Hn. by rewrite Hn. }
  exists t'. split; [done|]. destruct Hw as [->| ->]; [by left|]. unfold unblock_task.
  destruct (is_status (t_status t) Blocked) eqn:E; [right; left; by apply is_status_spec in E|by left].
Qed.

(** ** The first instruction of a task *)
Lemma write_words_other a ws m x :
  (x < a ∨ a + 8 * len ws ≤ x) → write_words a ws m !! x = m !! x.
Proof.
  revert a m. induction ws as [|w ws IH]; intros a m Hx; simpl; [done|]. rewrite len_cons in Hx.
  pose proof (len_nonneg ws). rewrite IH by lia. rewrite lookup_insert_ne; [done|lia].
Qed.
Lemma write_words_at a ws m i w : ws !! i = Some w → write_words a ws m !! (a + 8 * Z.of_nat i) = Some w.
Proof.
  revert a m i. induction ws as [|w0 ws IH]; intros a m i; [done|]. destruct i as [|i]; simpl.
  - intros [= ->]. rewrite Z.add_0_r, write_words_other by lia. apply lookup_insert_eq.
  - intros Hi. replace (a + 8 * Z.of_nat (S i)) with (a + 8 + 8 * Z.of_nat i) by lia. by apply IH.
Qed.

(** The words at the stack pointer of a task that has not run yet. *)
Definition holds_frame (addr : Z) (frame : list Z) (k : Kernel) : Prop :=
  ∀ i w, frame !! i = Some w → k_words k !! (stack_top_of addr - 160 + 8 * Z.of_nat i) = Some w.

Definition alloc_of (op : kop) : option Z :=
  match op with KSpawn _ alloc _ _ _ _ _ _ _ | KThread _ alloc _ _ _ _ _ _ => alloc | _ => None end.

Lemma vfs_drop_words id k : k_words (vfs_drop_task id k) = k_words k.
Proof. apply (ev_words _ _ _ (vfs_drop_task_evolves id k)). Qed.
Lemma spawn_context_words alloc ic nm cx k :
  k_words (spawn_context alloc ic nm cx k).2 = k_words k ∨
  ∃ addr frame, alloc = Some addr ∧ length frame = 20%nat ∧
    k_words (spawn_context alloc ic nm cx k).2 = write_words (stack_top_of addr - 160) frame (k_words k).
Proof. destruct alloc as [addr|]; [right|by left]. eexists addr, _. split_and!; [done| |reflexivity]. done. Qed.

Lemma kexec_words op k :
  sched_ok k →
  k_words (kexec op k) = k_words k ∨
  ∃ addr frame, alloc_of op = Some addr ∧ length frame = 20%nat ∧
    k_words (kexec op k) = write_words (stack_top_of addr - 160) frame (k_words k).
Proof.
  intros Hok. destruct (is_tick op) eqn:Htick.
  { apply is_tick_inv in Htick as (now & rsp & ->). destruct (tick_is_schedule dps now rsp k Hok) as (ptr & Hs).
    destruct (schedule_scheduled dps _ _ _ _ _ Hok Hs) as ([] & _). by left. }
  destruct (settling op) eqn:Hop.
  { left. destruct (kexec_settles dps op k Hok Hop) as [ps Hs]. apply Hs. }
  destruct op; simpl in Hop, Htick |- *; try done; try (by left).
  - left. by destruct locked.
  - unfold spawn_user_with_fds_and_credentials. case_match; [by left|].
    set (cx := {| cx_rip := entry |}). pose proof (spawn_context_words alloc ic nm cx k) as Hw.
    destruct (spawn_context alloc ic nm cx k) as [[id|] k1]; [|exact Hw]. destruct (inherit_fds _ _ _ _) as [[] st]; simpl.
    + by destruct creds.
    + rewrite vfs_drop_words. by destruct creds.
  - unfold spawn_user_thread. case_match; [by left|]. destruct (get_task (k_current k) k) as [pt|]; [|by left].
    destruct (t_pml4 pt) as [q|]; [|by left]. set (cx := {| cx_rip := entry |}).
    pose proof (spawn_context_words alloc ic (str "user-thread") cx k) as Hw.
    destruct (spawn_context alloc ic (str "user-thread") cx k) as [[id|] k1]; [|exact Hw]. destruct (inherit_all_fds _ _ _) as [[] st]; simpl; [done|].
    by rewrite vfs_drop_words.
  - left. destruct (so_live _ _ Hok) as (u & Hu & _). by destruct (exec_replace_sched pml4 k u Hu) as (_ & _ & _ & ?).
  - left. unfold set_current_tls_base. destruct (current_task k); [|done]. by case_bool_decide.
  - left. apply (ev_words _ _ _ (late_becomes id code k)).
Qed.

(** A task without a stack never runs again. *)
Definition buried (t : Task) : Prop := ends (t_status t) = true ∧ t_stack t = None.
Lemma buried_step op k id t :
  sched_ok k → k_current k ≠ id → id ≠ 0%nat → get_task id k = Some t → buried t → ∃ t', get_task id (kexec op k) = Some t' ∧ buried t'.
Proof.
  intros Hok Hid%not_eq_sym H0 Ht [He Hs]. destruct (is_tick op) eqn:Htick.
  - apply is_tick_inv in Htick as (now & rsp & ->). destruct (tick_is_schedule dps now rsp k Hok) as (ptr & Hsc).
    destruct (schedule_scheduled dps _ _ _ _ _ Hok Hsc) as ([_ _ _ _ _ _ Hts] & _). rewrite Hts, Ht. eexists. split; [done|].
    destruct (Nat.eqb_spec id (next_task now rsp k)) as [->|Hn].
    { destruct (next_has_stack dps now rsp k t Hok Ht H0) as (_ & _ & [a Ha]). congruence. }
    pose proof (ticked_core now rsp (k_current k) id t) as Hc. unfold core in Hc. split; [|simpl; congruence].
    apply ends_spec. apply ends_spec in He as [He|He]; [left; by apply ticked_exited|right; by apply ticked_reaped].
  - destruct (kexec_other dps op k id t Hok Htick Hid Ht) as (t' & Ht' & [[Hk|(_ & _ & _ & Hr)]|(code & _ & ->)]); (eexists; split; [exact Ht'|]).
    + split; [|by rewrite (keeps_stack _ _ Hk)]. apply ends_spec. apply ends_spec in He as [He|He]; [left|right]; by apply Hk.
    + split; [apply ends_spec; right|]; apply Hr.
    + by split.
Qed.

(** Task [id] has not run and keeps its stack: its frame is still in place. *)
Definition pristine (id : nat) (addr pml4 : Z) (frame : list Z) (k : Kernel) : Prop :=
  ∃ t, get_task id k = Some t ∧ (buried t ∨
    t_pml4 t = Some pml4 ∧ t_stack t = Some addr ∧ t_stack_ptr t = stack_top_of addr - 160 ∧ holds_frame addr frame k).

Lemma ticked_ptr now rsp cur i t : i ≠ cur → t_stack_ptr (ticked now rsp cur i t) = t_stack_ptr t.
Proof.
  intros Hn. unfold ticked, tick_task. apply Nat.eqb_neq in Hn. rewrite Hn. transitivity (t_stack_ptr (wake_sleeper now t)).
  - unfold deliver_pending. destruct (t_pending_signal _) as [[]|]; try done; by case_match.
  - unfold wake_sleeper. by case_match.
Qed.

Lemma holds_frame_step op k owned id t addr frame :
  sched_ok k → kenabled op k owned → get_task id k = Some t → t_stack t = Some addr → stack_addr_ok addr → length frame = 20%nat →
  holds_frame addr frame k → holds_frame addr frame (kexec op k).
Proof.
  intros Hok Hen Ht Hst Ha Hlen Hf i w Hi. destruct (kexec_words op k Hok) as [->|(a & fr & Hal & Hl & ->)]; [by apply Hf|].
  assert (alloc_ok (Some a) k) as [Ha' Hap] by (destruct op; simpl in Hal, Hen; try done; subst; apply Hen).
  rewrite Forall_forall in Hap. specialize (Hap t (list_elem_of_lookup_2 _ _ _ Ht)). rewrite Hst in Hap.
  pose proof (stack_top_bounds addr Ha) as [Hb _]. pose proof (stack_top_bounds a Ha') as [Hb' _].
  apply lookup_lt_Some in Hi as Hlt. rewrite write_words_other; [by apply Hf|]. unfold len. rewrite Hl. unfold apart, STACK_SIZE in *.
  unfold holds_frame in *. lia.
Qed.

Lemma pristine_step op k owned id addr pml4 frame :
  sched_ok k → kenabled op k owned → k_current k ≠ id → id ≠ 0%nat → stack_addr_ok addr → length frame = 20%nat →
  pristine id addr pml4 frame k → pristine id addr pml4 frame (kexec op k).
Proof.
  intros Hok Hen Hid%not_eq_sym H0 Ha Hlen (t & Ht & [Hr|(Hpm & Hst & Hptr & Hf)]).
  { destruct (buried_step op k id t Hok (not_eq_sym Hid) H0 Ht Hr) as (t' & ? & ?). exists t'. auto. }
  pose proof (holds_frame_step op k owned id t addr frame Hok Hen Ht Hst Ha Hlen Hf) as Hf'. destruct (is_tick op) eqn:Htick.
  - apply is_tick_inv in Htick as (now & rsp & ->). destruct (tick_is_schedule dps now rsp k Hok) as (ptr & Hs).
    destruct (schedule_scheduled dps _ _ _ _ _ Hok Hs) as ([_ _ _ _ _ _ Hts] & _). eexists. rewrite Hts, Ht. split; [done|]. right.
    pose proof (ticked_core now rsp (k_current k) id t) as Hc. pose proof (ticked_ptr now rsp (k_current k) id t Hid) as Hp.
    unfold core in Hc. split_and!; [..|rewrite <- Hptr, <- Hp; by case_match|done]; case_match; simpl; congruence.
  - destruct (kexec_other dps op k id t Hok Htick Hid Ht) as (t' & Ht' & [[Hk|(_ & _ & _ & Hr)]|(code & _ & ->)]); (eexists; split; [exact Ht'|]).
    + right. pose proof (kp_identity _ _ Hk) as Hi. unfold identity in Hi. split_and!; [congruence..|done].
    + left. split; [apply ends_spec; right|]; apply Hr.
    + by right.
Qed.
Lemma pristine_run ops k owned k' owned' id addr pml4 frame :
  sched_ok k → id ≠ 0%nat → stack_addr_ok addr → length frame = 20%nat → pristine id addr pml4 frame k →
  krun ops k owned = Some (k', owned') → along dps (λ op k1, k_current k1 ≠ id) ops k → pristine id addr pml4 frame k'.
Proof.
  intros Hok H0 Ha Hlen. revert k owned Hok. induction ops as [|op ops IH]; intros k owned Hok Hpr; simpl; [by intros [= <- _] _|].
  case_decide as Hen; [|done]. intros Hrun [Hcur Hal]. eapply (IH _ _ (kexec_ok dps _ _ _ Hok Hen)); [|done..].
  by eapply pristine_step.
Qed.

(** The tick that chooses a task returns its stack pointer and loads its page table. *)
Lemma pristine_chosen now rsp k ptr k' id addr pml4 frame :
  sched_ok k → id ≠ 0%nat → pristine id addr pml4 frame k → k_current k ≠ id → schedule now rsp k = (ptr, k') → k_current k' = id →
  ptr = stack_top_of addr - 160 ∧ holds_frame addr frame k' ∧ cpu_cr3 (k_cpu k') = Some pml4.
Proof.
  intros Hok H0 (t & Ht & Hp) Hn%not_eq_sym Hs Hc. destruct (schedule_scheduled dps _ _ _ _ _ Hok Hs) as ([Hcu _ _ Hw _ _ Hts] & t' & Ht' & Hr & Hcpu & ->).
  rewrite Hc, Hts, Ht in Ht'. injection Ht' as <-. destruct Hp as [Hre|(Hpm & _ & Hptr & Hfr)].
  - exfalso. destruct Hre as [_ Hre]. rewrite Hcu in Hc. subst id. destruct (next_has_stack dps now rsp k t Hok Ht H0) as (_ & _ & [a Ha]). congruence.
  - pose proof (ticked_core now rsp (k_current k) id t) as Hcore. unfold core in Hcore. split_and!.
    + rewrite <- Hptr, <- (ticked_ptr now rsp (k_current k) id t Hn). by case_match.
    + intros i w Hi. rewrite Hw. by apply Hfr.
    + rewrite Hcpu. simpl. case_match; simpl; congruence.
Qed.

(** A new process starts at its entry point.  When [spawn_user] has added
    a task, then whatever happens until the task runs for the first time, the
    timer interrupt that chooses it returns a stack pointer in the task's own
    kernel stack, 16-byte aligned, at which lie 15 zero registers, the entry
    point, the user code selector, flags with interrupts enabled, the user stack
    pointer and the user stack selector, and CR3 holds its page table. *)
Theorem new_task_starts ic before k owned sel alloc nm entry rsp pml4 fds creds k1 ops k2 owned2 now cur_rsp ptr k3 :
  krun before (boot ic) ∅ = Some (k, owned) →
  kenabled (KSpawn sel alloc ic nm entry rsp pml4 fds creds) k owned →
  spawn_user_with_fds_and_credentials sel alloc ic nm entry rsp pml4 fds creds k = (true, k1) →
  krun ops k1 (owned_after dps (KSpawn sel alloc ic nm entry rsp pml4 fds creds) k owned) = Some (k2, owned2) →
  along dps (λ op k', k_current k' ≠ length (k_tasks k)) ops k1 → k_current k2 ≠ length (k_tasks k) →
  schedule now cur_rsp k2 = (ptr, k3) → k_current k3 = length (k_tasks k) →
  cpu_cr3 (k_cpu k3) = Some pml4 ∧
  ∃ addr, alloc = Some addr ∧ ptr mod 16 = 0 ∧ addr ≤ ptr ∧ ptr + 160 ≤ addr + STACK_SIZE ∧
    ∀ i w, (replicate 15 0 ++ [entry; user_cs sel; 0x202; rsp; user_ss sel]) !! i = Some w → k_words k3 !! (ptr + 8 * Z.of_nat i) = Some w.
Proof.
  intros Hb Hen Hsp Hrun Hal Hc2 Hs Hc3. pose proof (krun_ok dps _ _ _ _ _ (kernel_boot_ok dps ic) Hb) as Hok.
  set (id := length (k_tasks k)) in *. set (frame := replicate 15 0 ++ _).
  assert (kexec (KSpawn sel alloc ic nm entry rsp pml4 fds creds) k = k1) as Hk1 by (simpl; by rewrite Hsp).
  pose proof (kexec_ok dps _ _ _ Hok Hen) as Hok1. rewrite Hk1 in Hok1.
  assert (k_tasks k ≠ []) as Hne by (intros Hn; pose proof (so_idle _ _ Hok) as H0; rewrite Hn in H0; simpl in H0; lia).
  apply spawn_user_spec in Hsp as (addr & t & -> & Hft & [Hts _ _ Hw _] & _); [|done]. destruct Hen as [[Ha _] _].
  assert (pristine id addr pml4 frame k1) as Hpr.
  { exists t. unfold get_task. rewrite Hts. split; [by apply list_lookup_middle|]. right. split_and!; [apply Hft..|].
    intros i w Hi. rewrite Hw. by apply write_words_at. }
  assert (id ≠ 0%nat) as H0 by (pose proof (so_idle _ _ Hok); subst id; lia).
  destruct (pristine_chosen now cur_rsp k2 ptr k3 id addr pml4 frame) as (-> & Hfr & Hcr); try done.
  - by eapply (krun_ok dps).
  - by eapply pristine_run.
  - split; [done|]. exists addr. pose proof (stack_top_bounds addr Ha) as [Hbnd Hmod]. unfold STACK_SIZE in *.
    split_and!; [done|by rewrite Zminus_mod, Hmod|lia|lia|exact Hfr].
Qed.

(** ** The number of tasks *)
Lemma filter_zip_le {A} (f : nat * A → bool) n (l l' : list A) :
  length l' = length l → (∀ i x x', l !! i = Some x → l' !! i = Some x' → f ((n + i)%nat, x') = true → f ((n + i)%nat, x) = true) →
  (length (List.filter f (zip (seq n (length l')) l')) ≤ length (List.filter f (zip (seq n (length l)) l)))%nat.
Proof.
  revert n l. induction l' as [|x' l' IH]; intros n [|x l] Hl Hf; try done; simpl in *.
  assert (length (List.filter f (zip (seq (S n) (length l')) l')) ≤ length (List.filter f (zip (seq (S n) (length l)) l)))%nat as IH'.
  { apply IH; [lia|]. intros i y y' Hi Hi'. replace (S n + i)%nat with (n + S i)%nat by lia. by apply Hf. }
  specialize (Hf 0%nat x x' eq_refl eq_refl). rewrite Nat.add_0_r in Hf.
  destruct (f (n, x')); [rewrite Hf by done; simpl; lia|]. destruct (f (n, x)); simpl; lia.
Qed.

Lemma active_le k k' :
  length (k_tasks k') = length (k_tasks k) →
  (∀ i t t', get_task i k = Some t → get_task i k' = Some t' → t_status t = Reaped → t_status t' = Reaped) →
  (active_task_count k' ≤ active_task_count k)%nat.
Proof.
  intros Hl Hr. apply filter_zip_le; [done|]. intros i t t' Ht Ht' [Hi Hn]%andb_true_iff. apply andb_true_iff. split; [done|].
  apply negb_true_iff, is_status_false. apply negb_true_iff, is_status_false in Hn. intros He. apply Hn. by eapply Hr.
Qed.
Lemma active_app k k' t : k_tasks k' = k_tasks k ++ [t] → (active_task_count k' ≤ S (active_task_count k))%nat.
Proof.
  intros Ht. unfold active_task_count, enumerate. rewrite Ht, length_app. simpl. rewrite Nat.add_1_r, seq_S, Nat.add_0_l.
  rewrite zip_with_app by apply length_seq. rewrite List.filter_app, length_app. simpl. case_match; simpl; lia.
Qed.

Lemma kexec_active op k : sched_ok k → kill_fresh op k → (active_task_count k ≤ MAX_ACTIVE_TASKS)%nat → (active_task_count (kexec op k) ≤ MAX_ACTIVE_TASKS)%nat.
Proof.
  intros Hok Hkf Hle. assert (length (k_tasks (kexec op k)) = length (k_tasks k) → (active_task_count (kexec op k) ≤ MAX_ACTIVE_TASKS)%nat) as Hsame.
  { intros Hl. etransitivity; [|exact Hle]. apply active_le; [done|]. intros i t t' Ht Ht' Hr.
    destruct (kexec_reaped op k i t Hok Hkf Ht Hr) as (u & ? & ?). congruence. }
  assert (k_tasks k ≠ []) as Hne by (intros Hn; pose proof (so_idle _ _ Hok) as H0; rewrite Hn in H0; simpl in H0; lia).
  destruct (is_tick op) eqn:Htick.
  { apply Hsame. apply is_tick_inv in Htick as (now & rsp & ->). destruct (tick_is_schedule dps now rsp k Hok) as (ptr & Hs).
    by destruct (schedule_scheduled dps _ _ _ _ _ Hok Hs) as ([] & _). }
  destruct (kexec_kind dps op k Hok Htick) as [ps _ Hs|Hsp _|id code _ He|f _ _ Hs];
    [apply Hsame, Hs| |apply Hsame, He|apply Hsame; rewrite Hs; simpl; by rewrite length_alter].
  destruct op; simpl in *; try done.
  - destruct (spawn_user_with_fds_and_credentials _ _ _ _ _ _ _ _ _ _) as [b k'] eqn:E. apply spawn_user_spec in E; [|done]. simpl in *. destruct b.
    + destruct E as (addr & t & _ & _ & [Ht _ _ _ _] & Hlt). apply active_app in Ht. lia.
    + destruct E as (k1 & [Hl _ _ _ _ _] & ->). apply Hsame. exact Hl.
  - destruct (spawn_user_thread _ _ _ _ _ _ _ _ _) as [r k'] eqn:E. apply spawn_thread_spec in E. simpl in *. destruct r.
    + destruct E as (addr & pt & q & t & _ & _ & _ & _ & _ & _ & _ & [Ht _ _ _ _] & Hlt). apply active_app in Ht. lia.
    + apply Hsame. apply E.
Qed.

(** At most [MAX_ACTIVE_TASKS] tasks beside the idle one are not reaped, in
    every state reached since boot without a kill that came too late. *)
Theorem task_limit ic ops k owned :
  along dps kill_fresh ops (boot ic) → krun ops (boot ic) ∅ = Some (k, owned) → (active_task_count k ≤ MAX_ACTIVE_TASKS)%nat.
Proof.
  pose proof (kernel_boot_ok dps ic) as Hok. assert (active_task_count (boot ic) ≤ MAX_ACTIVE_TASKS)%nat as Hle by (vm_compute; lia).
  revert Hok Hle. generalize (boot ic) as k0. generalize (∅ : gset Z) as o. induction ops as [|op ops IH]; intros o k0 Hok Hle; simpl; [by intros _ [= <- _]|].
  intros [Hkf Hal]. case_decide as Hen; [|done]. apply IH; [by eapply kexec_ok|by apply kexec_active|done].
Qed.
End Wait.
