(* ===== verification/ProcessCases.v ===== *)
(** * Runs of the scheduler

    Concrete runs at which the theorems of ProcessRun, ProcessLife and
    ProcessWait apply, and runs that show limits of the code: [exec] of
    a process with threads frees a page table in use, a system call after
    [exit] brings the task back, a kill can end a task a second time and free its
    page table twice, a pipe can cost another user a process, reclaiming
    a process with threads frees none of its pages, stack slots of threads are
    not given back, and a signal does not interrupt a wait. *)
From stdpp Require Import gmap.
From S2P Require Import Prelude Security Pipe FdTable FdInv Process MemoryPressure ProcessInv ProcessRun ProcessLife ProcessWait.

Local Open Scope Z_scope.

Definition dps : Z := 0x9000.
Definition desktop : Credentials := {| cr_uid := USER_UID; cr_gid := USER_GID; cr_caps := CAP_INTERACTIVE_USER |}.
Definition sel : Selectors := {| user_cs := 0x23; user_ss := 0x1b |}.
(** A process with page table [pml4] and kernel stack [addr]; a thread of the running task. *)
Definition process (addr pml4 : Z) (creds : option Credentials) : kop :=
  KSpawn sel (Some addr) desktop (str "app") 0x400000 0x7fff000ffff8 pml4 [] creds.
Definition thread (addr bottom : Z) : kop := KThread sel (Some addr) desktop 0x401000 (bottom + 65528) 7 bottom 0.
Definition tick (now : Z) : kop := KTick false now 0x5000.

Definition start : Kernel := boot dps desktop.
Definition after (ops : list kop) : Kernel := match krun dps ops start ∅ with Some (k, _) => k | None => start end.
Definition owned_of (ops : list kop) : gset Z := match krun dps ops start ∅ with Some (_, o) => o | None => ∅ end.

(** ** Instances *)
(** Two processes; the first runs, starts a third one and waits for it. *)
Definition two : list kop := [process 0x100000 100 None; process 0x200000 200 None; tick 1].
Definition parent_child : list kop := two ++ [process 0x300000 300 None].
Definition child_ends : list kop := [tick 2; tick 3; KExit 5].
Definition waited : list kop := parent_child ++ KBlock :: child_ends.

Lemma after_two : krun dps two start ∅ = Some (after two, owned_of two).
Proof. vm_compute. reflexivity. Qed.
Lemma after_parent_child : krun dps parent_child start ∅ = Some (after parent_child, owned_of parent_child).
Proof. vm_compute. reflexivity. Qed.

Lemma scheduler_invariant_witness :
  (∃ t, get_task (k_current (after two)) (after two) = Some t ∧ t_status t ≠ Reaped ∧ k_cpu (after two) = cpu_of dps t ∧
     (k_current (after two) ≠ 0%nat → ∃ addr, t_stack t = Some addr ∧ cpu_syscall_top (k_cpu (after two)) mod 16 = 0 ∧
        cpu_privilege_top (k_cpu (after two)) = cpu_syscall_top (k_cpu (after two)) ∧
        addr + 160 < cpu_syscall_top (k_cpu (after two)) ≤ addr + STACK_SIZE)) ∧
  (∀ i t, get_task i (after two) = Some t → t_status t = Running → i = k_current (after two)) ∧
  (∀ i t p, get_task i (after two) = Some t → t_parent t = Some p → (p < i)%nat).
Proof. exact (scheduler_invariant dps desktop two (after two) (owned_of two) after_two). Defined.

Lemma address_spaces_exact_witness :
  (∀ p, p ∈ owned_of two ↔ ∃ i t, get_task i (after two) = Some t ∧ t_pml4 t = Some p ∧ t_status t ≠ Reaped) ∧
  NoDup (freed_by dps (KExec 300) (after two)) ∧
  ∀ p, p ∈ freed_by dps (KExec 300) (after two) → (p ∈ owned_of two ∨ p ∈ new_space (KExec 300)) ∧
    ∀ i t, get_task i (kexec dps (KExec 300) (after two)) = Some t → t_pml4 t = Some p → t_status t = Reaped.
Proof.
  apply (address_spaces_exact dps desktop two (after two) (owned_of two) (KExec 300) after_two).
  - repeat split.
  - split; [apply (bool_decide_eq_true_1 (300 ∉ owned_of two)); vm_compute; reflexivity|by eexists; vm_compute].
  - split; [|done]. unfold exec_alone. assert ((current_task (after two) ≫= t_pml4) = Some 100) as -> by (vm_compute; reflexivity).
    intros Hu. apply still_live_spec in Hu. revert Hu. vm_compute. discriminate.
Defined.

Lemma ready_task_runs_witness :
  ∃ ops1 ops2 k1 o1, [tick 2; KWake [1%nat]; tick 3; tick 4] = ops1 ++ ops2 ∧
    krun dps ops1 (after two) (owned_of two) = Some (k1, o1) ∧ (k_current k1 = 0%nat ∨ taken_out 0 k1).
Proof.
  eapply (ready_task_runs dps desktop two (after two) (owned_of two) 0 _ [tick 2; KWake [1%nat]; tick 3; tick 4] _ _ after_two);
    [vm_compute; reflexivity|reflexivity|vm_compute; reflexivity|vm_compute; lia].
Defined.


(** Task 3 has exited and still holds the CPU; the next ticks leave it alone. *)
Lemma after_waited : krun dps waited start ∅ = Some (after waited, owned_of waited).
Proof. vm_compute. reflexivity. Qed.
Definition later : list kop := [tick 5; KWake [3%nat]; tick 6].

(** A guest and a process of the desktop user. *)
Definition guest : Credentials := {| cr_uid := GUEST_UID; cr_gid := USER_GID; cr_caps := CAP_INTERACTIVE_USER |}.
Definition with_guest : list kop := [process 0x100000 100 (Some guest); process 0x200000 200 None; tick 1].
Lemma after_guest : krun dps with_guest start ∅ = Some (after with_guest, owned_of with_guest).
Proof. vm_compute. reflexivity. Qed.
Lemma process_control_authorised_witness :
  ∃ t, get_task 2 (after with_guest) = Some t ∧ ∃ t', get_task 2 (kexec dps (KKill 2 9) (after with_guest)) = Some t' ∧
    (t' = t ∨ t_status t = Blocked ∧ t' = set_status Ready (set_wake_tick None t) ∨ victim (KKill 2 9) (after with_guest) = Some 2%nat).
Proof.
  eexists. split; [vm_compute; reflexivity|].
  eapply (process_control_authorised dps desktop with_guest (after with_guest) (owned_of with_guest) (KKill 2 9) 2 _ _ after_guest);
    [reflexivity|exact I|vm_compute; discriminate|vm_compute; reflexivity|vm_compute; reflexivity|vm_compute; discriminate|reflexivity|vm_compute; discriminate..].
Defined.

Definition spawn_third : kop := process 0x300000 300 None.
Lemma new_task_starts_witness :
  cpu_cr3 (k_cpu (kexec dps (tick 3) (after (parent_child ++ [tick 2])))) = Some 300 ∧
  ∃ addr, Some 0x300000 = Some addr ∧ (stack_top_of 0x300000 - 160) mod 16 = 0 ∧ addr ≤ stack_top_of 0x300000 - 160 ∧
    stack_top_of 0x300000 - 160 + 160 ≤ addr + STACK_SIZE ∧
    ∀ i w, (replicate 15 0 ++ [0x400000; 0x23; 0x202; 0x7fff000ffff8; 0x1b]) !! i = Some w →
      k_words (kexec dps (tick 3) (after (parent_child ++ [tick 2]))) !! (stack_top_of 0x300000 - 160 + 8 * Z.of_nat i) = Some w.
Proof.
  eapply (new_task_starts dps desktop two (after two) (owned_of two) sel (Some 0x300000) (str "app") 0x400000 0x7fff000ffff8 300 [] None
    (after parent_child) [tick 2] (after (parent_child ++ [tick 2])) _ 3 0x5000 _ _ after_two).
  - apply (bool_decide_eq_true_1 (kenabled spawn_third (after two) (owned_of two))). vm_compute. reflexivity.
  - vm_compute. reflexivity.
  - vm_compute. reflexivity.
  - split; [vm_compute; discriminate|done].
  - vm_compute. discriminate.
  - vm_compute. reflexivity.
  - vm_compute. reflexivity.
Defined.

Lemma task_limit_witness : (active_task_count (after parent_child) ≤ MAX_ACTIVE_TASKS)%nat.
Proof. exact (task_limit dps desktop parent_child (after parent_child) (owned_of parent_child) ltac:(by repeat split) after_parent_child). Defined.

(** ** Limits of the code *)
Definition summary (k : Kernel) : nat * list TaskStatus * list Z := (k_current k, map t_status (k_tasks k), k_freed k).

(** A process with a second thread calls [exec]: the page table that both use
    is freed, and the next timer interrupt runs the thread on it. *)
Theorem exec_frees_shared_space :
  let k := after [process 0x100000 100 None; tick 1; thread 0x200000 0x7fff00200000; KExec 300; tick 2] in
  k_freed k = [100] ∧ k_current k = 2%nat ∧ cpu_cr3 (k_cpu k) = Some 100.
Proof. vm_compute. done. Qed.

(** A task that has exited still runs until the next timer interrupt.  When it
    calls [sleep] in that time it is marked blocked, and the scheduler runs it
    again once the sleep is over, although its exit was reported. *)
Theorem exited_task_returns :
  let k := after [process 0x100000 100 None; tick 1; KExit 5] in
  let k' := after [process 0x100000 100 None; tick 1; KExit 5; KBlockUntil 3; tick 2; tick 3] in
  summary k = (1%nat, [Ready; Exited], []) ∧ summary k' = (1%nat, [Ready; Running], []) ∧
  (t_exit_code <$> get_task 1 k') = Some (Some 5).
Proof. vm_compute. done. Qed.

(** The stack slot of a thread that ended and was joined stays taken. *)
Theorem thread_stack_not_reused :
  let k := after [process 0x100000 100 None; tick 1; thread 0x200000 0x7fff00200000; tick 2; KExit 0; tick 3; tick 4; KWaitpid 2] in
  summary k = (1%nat, [Ready; Running; Reaped], []) ∧ next_thread_stack_slot_for 100 k = Some 1%nat.
Proof. vm_compute. done. Qed.

(** Every tick discards the pending signals of all tasks before any of them
    runs, so a task woken from a wait by a signal never sees it pending: the
    interrupted result of [sys_waitpid], [sys_futex_wait] and [sys_sleep_ms] is
    not returned. *)
Theorem tick_discards_signals ic ops k owned now rsp ptr k' :
  krun dps ops (boot dps ic) ∅ = Some (k, owned) → schedule dps now rsp k = (ptr, k') → current_has_pending_signal k' = false.
Proof.
  intros Hrun Hs. pose proof (krun_ok dps _ _ _ _ _ (kernel_boot_ok dps ic) Hrun) as Hok.
  destruct (schedule_scheduled dps _ _ _ _ _ Hok Hs) as ([_ _ _ _ _ _ Ht] & t & Hcur & _).
  unfold current_has_pending_signal, current_task. rewrite Hcur. apply bool_decide_eq_false_2. rewrite Ht in Hcur.
  destruct (get_task (k_current k') k); [|done]. injection Hcur as <-. case_match; simpl; rewrite ticked_pending; by intros [].
Qed.

(** Memory pressure picks the process with the most pages, ends one of its two
    threads and reports its pages as reclaimed, but frees none of them. *)
Definition usage : Usage := {| owned_leaf_pages := λ _, 50; task_shmem_pages := λ _, 0; owner_socket_count := λ _, 0 |}.
Theorem reclaim_frees_no_pages :
  let k := after [process 0x100000 100 None; tick 1; thread 0x200000 0x7fff00200000; tick 2; tick 3] in
  let (r, k') := reclaim_largest_user_task usage 137 k in
  summary k = (0%nat, [Running; Ready; Ready], []) ∧ summary k' = (0%nat, [Running; Reaped; Ready], []) ∧
  rc_estimated_bytes <$> r = Some (50 * 4096 + STACK_SIZE).
Proof. vm_compute. done. Qed.

(** [kill_task] checks its target in one critical section and ends it in
    another.  The desktop calls it with interrupts enabled: when the target ends
    and is reaped in between, it is marked exited again, and a second [waitpid]
    reports the code of the kill after a first one reported that of the exit. *)
Theorem kill_ends_twice :
  let checked := parent_child ++ [tick 2; tick 3; tick 4] in
  let reaped := checked ++ [tick 5; tick 6; tick 7; KExit 5; tick 8; tick 9; KWaitpid 3] in
  let marked := after (reaped ++ [tick 10; tick 11; KKillLate 3 9]) in
  k_current (after checked) = 0%nat ∧ kill_check 3 (after checked) = Ok tt ∧
  summary (after reaped) = (1%nat, [Ready; Running; Ready; Reaped], [300]) ∧
  summary marked = (0%nat, [Running; Ready; Ready; Exited], [300]) ∧ (waitpid 1 3 marked).1 = Ok 9.
Proof. vm_compute. done. Qed.

(** When the target was a thread, reaped before the last thread of its process,
    the late kill makes it use the freed page table again, and reaping it
    frees that page table a second time. *)
Theorem late_kill_frees_twice :
  let checked := [process 0x100000 100 None; tick 1; thread 0x200000 0x7fff00200000; tick 2; tick 3] in
  let gone := checked ++ [tick 4; tick 5; KExit 0; tick 6; tick 7; KWaitpid 2; KExit 0; tick 8; KReapAll] in
  k_current (after checked) = 0%nat ∧ kill_check 2 (after checked) = Ok tt ∧
  summary (after gone) = (0%nat, [Running; Reaped; Reaped], [100]) ∧
  summary (after (gone ++ [KKillLate 2 9; KReapAll])) = (0%nat, [Running; Reaped; Reaped], [100; 100]).
Proof. vm_compute. done. Qed.

(** A guest creates a pipe while memory is critically low: the process of the
    desktop user, over which the guest has no authority, is ended. *)
Definition exhausted : HeapReadings :=
  let h := {| heap_free := 1024; heap_total := 64 * 1024 * 1024 |} in {| hr_entry := h; hr_trimmed := h; hr_after := h |}.
Theorem pipe_ends_other_process :
  let k := after with_guest in
  summary k = (1%nat, [Ready; Running; Ready], []) ∧ can_control_task_locked 1 2 k = false ∧
  summary (kexec dps (KMakePipe exhausted usage) k) = (1%nat, [Ready; Running; Reaped], [200]) ∧
  victim (KMakePipe exhausted usage) k = Some 2%nat.
Proof. vm_compute. done. Qed.
