(* ===== verification/ProcessFds.v ===== *)
(** * Tasks and their descriptors

    The scheduler sets up, hands down and drops the descriptor tables of
    FdTable.v.  Every kernel operation drives that layer through its own
    operations, in states where they are allowed, so that the theorems of
    FdInv.v and FdWake.v hold in every kernel state, and a task that has ended
    holds no descriptor. *)
From stdpp Require Import gmap.
From S2P Require Import Prelude Security Pipe FdTable FdInv FdWake Process MemoryPressure ProcessInv ProcessRun ProcessLife ProcessWait ProcessCases.

Local Open Scope Z_scope.

(** Task [i] has no open descriptor. *)
Definition no_fds (i : nat) (st : VfsState) : Prop := ∀ fd, current_entry i fd st = None.

Lemma no_fds_count i st : no_fds i st → task_open_fd_count i st = O.
Proof.
  intros Hn. unfold task_open_fd_count, open_count. destruct (task_fds st !! i) as [t|] eqn:Ht; [|done].
  destruct (List.filter is_used t) as [|s l] eqn:E; [done|]. exfalso.
  assert (In s (List.filter is_used t)) as [Hs Hu]%filter_In by (rewrite E; by left).
  apply list_elem_of_In, list_elem_of_lookup in Hs as [fd Hs]. specialize (Hn fd). unfold current_entry in Hn. rewrite Ht in Hn.
  change TaskFdTable with (list (option LocalFd)) in Hn. rewrite Hs in Hn. simpl in Hn. by subst.
Qed.

Lemma steps_app st1 ops1 w1 c1 st2 ops2 w2 c2 st3 :
  steps st1 ops1 w1 c1 st2 → steps st2 ops2 w2 c2 st3 → steps st1 (ops1 ++ ops2) (w1 ++ w2) (c1 ++ c2) st3.
Proof.
  induction 1 as [|op ops st st1 st2 w1 w2' c1 c2' He Hx _ IH]; intros H2; [done|]. simpl. rewrite <- !app_assoc.
  econstructor; [done|done|by apply IH].
Qed.
Lemma reachable_exec op st : reachable st → enabled op st → reachable (exec op st).2.
Proof.
  intros (ops & w & c & Hs) He. destruct (exec op st) as [[w1 c1] st1] eqn:Hx. eexists (ops ++ [op]), _, _.
  eapply steps_app; [exact Hs|]. econstructor; [done|exact Hx|constructor].
Qed.
Lemma no_fds_foreign i op st : foreign i op → no_fds i st → no_fds i (exec op st).2.
Proof.
  intros Hf Hn fd. destruct (exec op st) as [[w c] st'] eqn:Hx. simpl. rewrite (exec_kept _ _ _ _ _ _ Hf Hx fd). apply Hn.
Qed.

(** Dropping a task closes all its descriptors, and adds none to any task. *)
Lemma take_entry_none task fd st o st' :
  take_entry task fd st = (o, st') →
  current_entry task fd st' = None ∧ ∀ i fd', current_entry i fd' st = None → current_entry i fd' st' = None.
Proof.
  unfold take_entry. destruct (task_fds st !! task) as [t|] eqn:Ht.
  2: { intros [= <- <-]. split; [|done]. unfold current_entry. by rewrite Ht. }
  destruct (t !! fd) as [[e|]|] eqn:Hf; intros [= <- <-].
  2: { split; [|done]. unfold current_entry. rewrite Ht. simpl. change TaskFdTable with (list (option LocalFd)) in Hf |- *. by rewrite Hf. }
  2: { split; [|done]. unfold current_entry. rewrite Ht. simpl. change TaskFdTable with (list (option LocalFd)) in Hf |- *. by rewrite Hf. }
  pose proof (lookup_lt_Some _ _ _ Ht) as Hlt. pose proof (lookup_lt_Some _ _ _ Hf) as Hlf.
  assert (∀ fd', current_entry task fd' (set_table task (<[fd:=None]> t) st) = default None (<[fd:=None]> t !! fd')) as Hcur.
  { intros fd'. unfold current_entry, set_table. cbn [with_tables task_fds]. by rewrite list_lookup_insert_eq. }
  change TaskFdTable with (list (option LocalFd)) in Hcur, Hf, Hlf. split; [by rewrite Hcur, list_lookup_insert_eq|].
  intros i fd' Hn. destruct (decide (i = task)) as [->|Hi]; [|by rewrite kept_set_table].
  rewrite Hcur. destruct (decide (fd' = fd)) as [->|Hne]; [by rewrite list_lookup_insert_eq|].
  rewrite list_lookup_insert_ne by done. unfold current_entry in Hn. rewrite Ht in Hn. done.
Qed.
Lemma close_fds_none task fds st w c st' :
  close_fds task fds st = (w, c, st') →
  (∀ fd, fd ∈ fds → current_entry task fd st' = None) ∧ ∀ i fd, current_entry i fd st = None → current_entry i fd st' = None.
Proof.
  revert st w c. induction fds as [|fd fds IH]; intros st w c; simpl; [intros [= _ _ <-]; split; [intros ? []%elem_of_nil|done]|].
  destruct (take_entry task fd st) as [o st1] eqn:Htk. destruct (take_entry_none _ _ _ _ _ Htk) as [H1 H2].
  assert (∀ st2 w2 c2, close_fds task fds st2 = (w2, c2, st') → task_fds st2 = task_fds st1 →
    (∀ fd0, fd0 ∈ fd :: fds → current_entry task fd0 st' = None) ∧ ∀ i fd0, current_entry i fd0 st = None → current_entry i fd0 st' = None) as Hgo.
  { intros st2 w2 c2 Hc Ht. destruct (IH _ _ _ Hc) as [I1 I2]. split.
    - intros fd0 [->|Hin]%elem_of_cons; [|by apply I1]. apply I2. by rewrite (current_entry_fds _ _ _ _ Ht).
    - intros i fd0 Hn. apply I2. rewrite (current_entry_fds _ _ _ _ Ht). by apply H2. }
  destruct o as [e|].
  - destruct (release_fd e st1) as [ev st2] eqn:Er. destruct (close_fds task fds st2) as [[w2 c2] st3] eqn:Ec. intros [= _ _ <-].
    eapply Hgo; [exact Ec|]. pose proof (release_fds e st1) as Hrf. by rewrite Er in Hrf.
  - intros Hc. eapply Hgo; [exact Hc|done].
Qed.

Lemma drop_task_none task st :
  reachable st →
  no_fds task (exec (OpDropTask task) st).2 ∧ ∀ i, no_fds i st → no_fds i (exec (OpDropTask task) st).2.
Proof.
  intros Hr. pose proof (reachable_inv _ (reachable_exec (OpDropTask task) st Hr I)) as Hinv'.
  destruct (drop_task task st) as [[[w c] s] st'] eqn:Hd. assert ((exec (OpDropTask task) st).2 = st') as He by (unfold exec; by rewrite Hd).
  rewrite He in *. clear He. unfold drop_task in Hd. destruct (Nat.leb_spec (length (task_fds st)) task) as [Hge|Hlt].
  { injection Hd as <- <- <- <-. split; [|done]. intros fd. unfold current_entry. by rewrite lookup_ge_None_2. }
  destruct (close_fds task (seq 0 MAX_FDS) st) as [[w1 c1] st1] eqn:Hc. apply pair_equal_spec in Hd as [_ <-].
  destruct (close_fds_none _ _ _ _ _ _ Hc) as [H1 H2]. clear Hc.
  split; [|intros i Hn fd; by apply H2]. intros fd. change (current_entry task fd st1 = None).
  destruct (decide (fd < MAX_FDS)%nat) as [Hfd|Hfd]; [apply H1, elem_of_seq; lia|].
  unfold current_entry. destruct (task_fds st1 !! task) as [t|] eqn:Ht; [|done].
  assert (length t = MAX_FDS) as Hl by (by eapply (table_length _ _ _ task t Hinv')).
  change TaskFdTable with (list (option LocalFd)) in t, Hl |- *. by rewrite lookup_ge_None_2 by lia.
Qed.

(** ** The invariant *)
(** Descriptor tables exist for tasks that are there and have not ended. *)
Record fds_ok (k : Kernel) : Prop := {
  fo_reachable : reachable (k_vfs k);
  fo_fresh : ∀ i, (length (k_tasks k) ≤ i)%nat → no_fds i (k_vfs k);
  fo_ended : ∀ i t, get_task i k = Some t → ends (t_status t) = true → no_fds i (k_vfs k) }.

(** Operations that open nothing and clean up after the tasks they end. *)
Record tidy (k k' : Kernel) : Prop := {
  td_reachable : reachable (k_vfs k) → reachable (k_vfs k');
  td_none : reachable (k_vfs k) → ∀ i, no_fds i (k_vfs k) → no_fds i (k_vfs k');
  td_length : length (k_tasks k') = length (k_tasks k);
  td_ended : reachable (k_vfs k) → ∀ i t t', get_task i k = Some t → get_task i k' = Some t' → ends (t_status t') = true →
    ends (t_status t) = true ∨ no_fds i (k_vfs k') }.

Lemma get_task_old i k k' t' : length (k_tasks k') = length (k_tasks k) → get_task i k' = Some t' → ∃ t, get_task i k = Some t.
Proof. intros Hl Hi. apply lookup_lt_is_Some_2. rewrite <- Hl. by eapply lookup_lt_Some. Qed.

Lemma tidy_ok k k' : fds_ok k → tidy k k' → fds_ok k'.
Proof.
  intros [Hr Hf He] [Tr Tn Tl Te]. split; [auto|intros i; rewrite Tl; auto|]. intros i t' Hi Hend.
  destruct (get_task_old _ _ _ _ Tl Hi) as [t Ht]. destruct (Te Hr i t t' Ht Hi Hend) as [Hx|?]; [|done]. eauto.
Qed.
Lemma tidy_trans k1 k2 k3 : tidy k1 k2 → tidy k2 k3 → tidy k1 k3.
Proof.
  intros [R1 N1 L1 E1] [R2 N2 L2 E2]. split; [auto|auto|congruence|]. intros Hr i t1 t3 Ht1 Ht3 Hend.
  destruct (get_task_old _ _ _ _ L2 Ht3) as [t2 Ht2]. destruct (E2 (R1 Hr) i t2 t3 Ht2 Ht3 Hend) as [Hx|?]; [|by right].
  destruct (E1 Hr i t1 t2 Ht1 Ht2 Hx) as [?|Hn]; [by left|right]. auto.
Qed.
Lemma tidy_alive k k' :
  k_vfs k' = k_vfs k → length (k_tasks k') = length (k_tasks k) →
  (∀ i t t', get_task i k = Some t → get_task i k' = Some t' → ends (t_status t') = true → ends (t_status t) = true) → tidy k k'.
Proof. intros Hv Hl He. split; rewrite ?Hv; auto. intros _ i t t' Hi Hi' Hend. left. eauto. Qed.
Lemma tidy_refl k : tidy k k.
Proof. apply tidy_alive; [done..|]. intros i t t'. congruence. Qed.
Lemma tidy_evolves k k' : k_vfs k' = k_vfs k → evolves woken k k' → tidy k k'.
Proof.
  intros Hv He. apply tidy_alive; [done|apply He|]. intros i t t' Hi Hi' Hend.
  destruct (ev_tasks _ _ _ He _ _ Hi) as (u & Hu & Hw). simplify_eq. by rewrite <- (woken_ends _ _ _ Hw).
Qed.

Lemma wake_tasks_vfs ids k : k_vfs (wake_tasks ids k) = k_vfs k.
Proof. unfold wake_tasks. revert k. induction ids as [|id ids IH]; intros k; simpl; [done|]. by rewrite IH. Qed.
Lemma wake_parent_vfs p c k : k_vfs (wake_waiting_parent p c k) = k_vfs k.
Proof. destruct p as [p|]; [|done]. simpl. unfold wake_child_poll_waiters. by rewrite wake_tasks_vfs. Qed.
Lemma cleanup_vfs id k : k_vfs (cleanup_task_resources id k) = (exec (OpDropTask id) (k_vfs k)).2.
Proof.
  unfold cleanup_task_resources, vfs_drop_task, exec. change (k_vfs (set_futex _ k)) with (k_vfs k).
  destruct (drop_task id (k_vfs k)) as [[[w c] s] st]. rewrite wake_tasks_vfs. done.
Qed.

(** The end of task [id], with its cleanup. *)
Lemma tidy_becomes id f k k' :
  evolves (becomes id f) k k' → k_vfs k' = (exec (OpDropTask id) (k_vfs k)).2 → tidy k k'.
Proof.
  intros He Hv. split; [|rewrite Hv; intros Hr; exact (proj2 (drop_task_none id (k_vfs k) Hr))|apply He|].
  - rewrite Hv. intros Hr. by apply (reachable_exec (OpDropTask id)).
  - intros Hr i t t' Hi Hi' Hend. destruct (ev_tasks _ _ _ He _ _ Hi) as (u & Hu & Hb). simplify_eq. unfold becomes in Hb.
    destruct (Nat.eqb_spec i id) as [->|Hn]; [right; rewrite Hv; exact (proj1 (drop_task_none id (k_vfs k) Hr))|left]. by rewrite <- (woken_ends _ _ _ Hb).
Qed.

Lemma exit_tidy code k : tidy k (exit_current code k).
Proof. eapply tidy_becomes; [apply exit_current_evolves|]. unfold exit_current. rewrite wake_parent_vfs. apply cleanup_vfs. Qed.
Lemma fault_tidy code k : tidy k (fault_current code k).2.
Proof.
  eapply tidy_becomes; [apply fault_current_evolves|]. unfold fault_current. cbn [snd]. rewrite cleanup_vfs, wake_parent_vfs. done.
Qed.
Lemma kill_effect_tidy id code k r k' : kill_effect id code k = (r, k') → tidy k k'.
Proof.
  intros Hk. destruct r as [[]|]; [|unfold kill_effect in Hk; destruct (get_task id k); simplify_eq; apply tidy_refl].
  eapply tidy_becomes; [by eapply kill_effect_evolves|]. unfold kill_effect in Hk. destruct (get_task id k); [|done]. injection Hk as <-.
  rewrite cleanup_vfs, wake_parent_vfs. done.
Qed.
Lemma kill_tidy id code k r k' : kill_task id code k = (r, k') → tidy k k'.
Proof. unfold kill_task. destruct (kill_check id k); [apply kill_effect_tidy|intros [= _ <-]; apply tidy_refl]. Qed.
Lemma tidy_upd id f k : (∀ t, ends (t_status (f t)) = true → ends (t_status t) = true) → tidy k (upd_task id f k).
Proof.
  intros Hf. apply tidy_alive; [done|apply length_alter|]. intros i t t' Hi. rewrite get_upd_task, Hi.
  case_match; intros [= <-]; auto.
Qed.
Lemma receive_ends s t : ends (t_status (receive_signal s t)) = true → ends (t_status t) = true.
Proof.
  destruct s; simpl; try done.
  - rewrite (woken_ends 0 (set_pending (Some User1) t)); [done|by right].
  - by case_match.
Qed.
Lemma send_signal_tidy id s k r k' : send_signal id s k = (r, k') → tidy k k'.
Proof.
  unfold send_signal. case_match; [intros [= _ <-]; apply tidy_refl|]. destruct (Signal_exit_code s) as [code|].
  - case_match; [intros [= _ <-]; apply exit_tidy|]. unfold map_err. destruct (kill_task id code k) as [r1 k1] eqn:Hk.
    destruct r1; intros [= _ <-]; by eapply kill_tidy.
  - case_match; intros [= _ <-]; [|apply tidy_refl]. apply tidy_upd. intros t. apply receive_ends.
Qed.
Lemma deliver_all_tidy ids s k n k' : deliver_all ids s k = (n, k') → tidy k k'.
Proof.
  revert k n. induction ids as [|id ids IH]; intros k n; simpl; [intros [= _ <-]; apply tidy_refl|].
  destruct (send_signal id s k) as [r k1] eqn:Hs. destruct (deliver_all ids s k1) as [m k2] eqn:Hd. intros [= _ <-].
  eapply tidy_trans; [by eapply send_signal_tidy|by eapply IH].
Qed.
Lemma tidy_reaps k k' : k_vfs k' = k_vfs k → length (k_tasks k') = length (k_tasks k) → reaps k k' → tidy k k'.
Proof.
  intros Hv Hl Hr. apply tidy_alive; [done..|]. intros i t t' Hi Hi' Hend.
  destruct (Hr i t Hi) as [?|(u & _ & Hex & _)]; [by simplify_eq|]. by rewrite Hex.
Qed.
Lemma force_reclaim_tidy id code k r k' : force_reclaim_task id code k = (r, k') → tidy k k'.
Proof.
  unfold force_reclaim_task. destruct (id =? 0)%nat; [intros [= _ <-]; apply tidy_refl|].
  destruct (id =? k_current k)%nat; [intros [= _ <-]; apply tidy_refl|]. destruct (get_task id k) as [t|] eqn:Ht; [|intros [= _ <-]; apply tidy_refl].
  destruct (is_status (t_status t) Exited); [intros [= _ <-]; apply tidy_refl|].
  destruct (is_status (t_status t) Reaped) eqn:Hnr; [intros [= _ <-]; apply tidy_refl|]. apply is_status_false in Hnr.
  destruct (reap_locked id _ (k_tasks k)) as [p ts] eqn:Hr. intros [= _ <-].
  assert (harmless (λ t, set_wake_tick None (set_exit_code (Some code) t))) as Hh by by intros u.
  destruct (reap_locked_spec _ _ _ _ _ _ Hh Ht Hnr Hr) as (Hl & Ho & _ & _).
  set (k1 := set_tasks ts k). set (k2 := cleanup_task_resources id (wake_waiting_parent (t_parent t) id k1)).
  assert (evolves woken k1 k2) as W by (eapply evolves_trans; [apply woken_trans|apply wake_waiting_parent_evolves|apply cleanup_evolves]).
  assert (k_vfs k2 = (exec (OpDropTask id) (k_vfs k)).2) as Hv by (subst k2; rewrite cleanup_vfs, wake_parent_vfs; done).
  assert (tidy k k2) as [T1 T2 T3 T4]; [|by destruct p]. split; rewrite ?Hv.
  - intros Hreach. by apply (reachable_exec (OpDropTask id)).
  - intros Hreach. exact (proj2 (drop_task_none id (k_vfs k) Hreach)).
  - rewrite (ev_length _ _ _ W). exact Hl.
  - intros Hreach i u u' Hi Hi' Hend. destruct (decide (i = id)) as [->|Hn]; [right; exact (proj1 (drop_task_none id (k_vfs k) Hreach))|left].
    assert (get_task i k1 = Some u) as Hi1 by (unfold get_task; simpl; by rewrite Ho).
    destruct (ev_tasks _ _ _ W _ _ Hi1) as (v & Hv' & Hw). simplify_eq. by rewrite <- (woken_ends _ _ _ Hw).
Qed.

(** ** Every operation *)
Section Kernel.
Context (dps : Z).
Local Abbreviation kexec := (kexec dps).
Local Abbreviation krun := (krun dps).
Local Abbreviation boot := (boot dps).
Local Abbreviation sched_ok := (sched_ok dps).

(** The task whose descriptors an operation of the VFS layer changes. *)
Definition fd_caller (op : fd_op) : option nat :=
  match op with
  | OpOpenRead task _ _ | OpOpenWrite task _ | OpPipe task _ | OpClose task _ | OpDup task _ | OpRead task _ _
  | OpReadBlocking task _ _ | OpWrite _ task _ _ | OpRegister task _ _ _ => Some task
  | _ => None
  end.
(** Descriptor operations are called by the running task, which has not
    exited, and a spawn names each descriptor of the child once. *)
Definition fds_sane (op : kop) (k : Kernel) : Prop :=
  match op with
  | KFd op => enabled op (k_vfs k) ∧ fd_caller op = Some (k_current k) ∧
      match current_task k with Some t => ends (t_status t) = false | None => False end
  | KOpenFile _ _ _ | KMakePipe _ _ => match current_task k with Some t => ends (t_status t) = false | None => False end
  | KSpawn _ _ _ _ _ _ _ fds _ => NoDup fds.*2
  | _ => True
  end.

Lemma reclaim_tidy u code k : tidy k (reclaim_largest_user_task u code k).2.
Proof.
  unfold reclaim_largest_user_task. destruct (max_by_key _ _) as [m|]; [|apply tidy_refl].
  destruct (force_reclaim_task (tm_pid m) code k) as [[] k1] eqn:E; by eapply force_reclaim_tidy.
Qed.
Lemma settling_tidy op k : sched_ok k → settling op = true → match op with KFd _ | KOpenFile _ _ _ | KMakePipe _ _ => False | _ => True end → tidy k (kexec op k).
Proof.
  intros Hok Hop Hfd. destruct op; simpl in Hop, Hfd |- *; try done.
  - apply tidy_evolves; [apply wake_tasks_vfs|apply wake_tasks_evolves].
  - apply fault_tidy.
  - apply reclaim_tidy.
  - apply exit_tidy.
  - destruct (kill_task id code k) eqn:E. by eapply kill_tidy.
  - destruct (send_signal id s k) eqn:E. by eapply send_signal_tidy.
  - unfold send_signal_to_group. destruct (group_members group k); [apply tidy_refl|]. destruct (deliver_all _ s k) eqn:E.
    case_match; by eapply deliver_all_tidy.
  - unfold set_task_tty_as. repeat case_match; try apply tidy_refl. by apply tidy_upd.
  - unfold set_process_group_as. repeat case_match; try apply tidy_refl. by apply tidy_upd.
  - destruct (waitpid (k_current k) id k) as [r k'] eqn:E. pose proof (waitpid_reaps _ _ _ _ E) as Hr. destruct (kexec_settles dps (KWaitpid id) k Hok eq_refl) as [ps Hs].
    simpl in Hs. rewrite E in Hs. apply tidy_reaps; [|apply Hs|done]. simpl. unfold waitpid in E.
    repeat case_match; simplify_eq; try done. by destruct o.
  - destruct (reap_all_exited (k_current k) k) as [n k'] eqn:E. pose proof (reap_all_reaps _ _ _ E) as Hr. destruct (kexec_settles dps KReapAll k Hok eq_refl) as [ps Hs].
    simpl in Hs. rewrite E in Hs. apply tidy_reaps; [|apply Hs|done]. simpl. unfold reap_all_exited in E.
    destruct (reap_loop _ _ _) as [[c qs] ts]. by injection E as _ <-.
  - unfold register_child_waiter. repeat case_match; try apply tidy_refl. by apply tidy_evolves; [|eapply evolves_same, evolves_refl, woken_refl].
  - by apply tidy_evolves; [|eapply evolves_same, evolves_refl, woken_refl].
Qed.

Lemma init_task_none task st : no_fds task (exec (OpInitTask task) st).2.
Proof.
  intros fd. unfold exec, init_task, current_entry. cbn [fst snd task_fds]. destruct (_ !! task) as [t|] eqn:Ht; [|done].
  apply list_lookup_insert_Some in Ht as [(_ & <- & _)|(? & _)]; [|done].
  change (default None (replicate MAX_FDS (None : option LocalFd) !! fd) = None).
  destruct (replicate MAX_FDS (None : option LocalFd) !! fd) as [o|] eqn:Ho; [|done]. by apply lookup_replicate in Ho as [-> _].
Qed.

(** The descriptors of a new task: a fresh table, the inherited entries, and
    nothing of them when the spawn is undone. *)
Definition set_up (id : nat) (inherit : fd_op) (kept : bool) (st : VfsState) : VfsState :=
  let st := (exec inherit (exec (OpInitTask id) st).2).2 in
  if kept then st else (exec (OpDropTask id) st).2.

Lemma spawn_context_vfs alloc ic nm cx k id k1 :
  spawn_context alloc ic nm cx k = (Some id, k1) → id = length (k_tasks k) ∧ k_vfs k1 = (exec (OpInitTask id) (k_vfs k)).2.
Proof. unfold spawn_context. destruct alloc; [|done]. intros [[= <-] <-]%pair_equal_spec. done. Qed.
Lemma spawn_context_none alloc ic nm cx k k1 : spawn_context alloc ic nm cx k = (None, k1) → k1 = k.
Proof. unfold spawn_context. destruct alloc; [|by intros [= <-]]. by intros [? _]%pair_equal_spec. Qed.
Lemma vfs_drop_task_vfs id k : k_vfs (vfs_drop_task id k) = (exec (OpDropTask id) (k_vfs k)).2.
Proof. unfold vfs_drop_task, exec. destruct (drop_task id (k_vfs k)) as [[[w c] s] st]. by rewrite wake_tasks_vfs. Qed.

Lemma spawn_user_vfs sel alloc ic nm entry rsp pml4 fds creds k b k' :
  spawn_user_with_fds_and_credentials sel alloc ic nm entry rsp pml4 fds creds k = (b, k') →
  b = false ∧ k_vfs k' = k_vfs k ∨ k_vfs k' = set_up (length (k_tasks k)) (OpInherit (k_current k) (length (k_tasks k)) fds) b (k_vfs k).
Proof.
  unfold spawn_user_with_fds_and_credentials. case_match; [intros [= <- <-]; by left|].
  destruct (spawn_context _ _ _ _ k) as [[id|] k1] eqn:Hs.
  2: { apply spawn_context_none in Hs as ->. intros [= <- <-]. by left. }
  apply spawn_context_vfs in Hs as [-> Hv]. unfold set_up.
  set (k2 := match creds with Some _ => _ | None => _ end). assert (k_vfs k2 = k_vfs k1) as Hv2 by (subst k2; by destruct creds).
  change (k_vfs (upd_task _ _ k2)) with (k_vfs k2). rewrite Hv2, Hv. cbn [exec fst snd].
  destruct (inherit_fds _ _ _ _) as [[] st]; intros [<- <-]%pair_equal_spec; right; [done|].
  exact (vfs_drop_task_vfs _ _).
Qed.
Lemma spawn_thread_vfs sel alloc ic entry rsp arg bottom tls k r k' :
  spawn_user_thread sel alloc ic entry rsp arg bottom tls k = (r, k') →
  r = None ∧ k_vfs k' = k_vfs k ∨
  k_vfs k' = set_up (length (k_tasks k)) (OpInheritAll (k_current k) (length (k_tasks k))) (match r with Some _ => true | None => false end) (k_vfs k).
Proof.
  unfold spawn_user_thread. case_match; [intros [= <- <-]; by left|]. destruct (get_task (k_current k) k) as [pt|]; [|intros [= <- <-]; by left].
  destruct (t_pml4 pt) as [p|]; [|intros [= <- <-]; by left]. destruct (spawn_context _ _ _ _ k) as [[id|] k1] eqn:Hs.
  2: { apply spawn_context_none in Hs as ->. intros [= <- <-]. by left. }
  apply spawn_context_vfs in Hs as [-> Hv]. unfold set_up. change (k_vfs (upd_task _ _ k1)) with (k_vfs k1). rewrite Hv. cbn [exec fst snd].
  destruct (inherit_all_fds _ _ _) as [[] st]; intros [<- <-]%pair_equal_spec; right; [done|].
  exact (vfs_drop_task_vfs _ _).
Qed.

Lemma set_up_reachable id inherit kept st :
  reachable st → no_fds id st → enabled inherit (exec (OpInitTask id) st).2 → (∀ i, i ≠ id → foreign i inherit) →
  reachable (set_up id inherit kept st) ∧ (∀ i, i ≠ id → no_fds i st → no_fds i (set_up id inherit kept st)) ∧
  (kept = false → no_fds id (set_up id inherit kept st)).
Proof.
  intros Hr Hn Hen Hf. unfold set_up. assert (reachable (exec (OpInitTask id) st).2) as Hr1 by (by apply reachable_exec, no_fds_count).
  assert (reachable (exec inherit (exec (OpInitTask id) st).2).2) as Hr2 by by apply reachable_exec.
  assert (∀ i, i ≠ id → no_fds i st → no_fds i (exec inherit (exec (OpInitTask id) st).2).2) as Hk.
  { intros i Hi Hni. apply no_fds_foreign; [by apply Hf|]. apply no_fds_foreign; [|done]. split; [by apply not_eq_sym|done]. }
  destruct kept; [done|]. destruct (drop_task_none id _ Hr2) as [D1 D2]. split_and!; [by apply reachable_exec|auto|auto].
Qed.

Lemma set_up_ok id inherit kept k k' :
  fds_ok k → id = length (k_tasks k) → enabled inherit (exec (OpInitTask id) (k_vfs k)).2 → (∀ i, i ≠ id → foreign i inherit) →
  k_vfs k' = set_up id inherit kept (k_vfs k) → grows k k' → length (k_tasks k') = (if kept then S id else id) → fds_ok k'.
Proof.
  intros [Hr Hfr He] -> Hen Hf Hv Hg Hl. set (id := length (k_tasks k)) in *. assert (no_fds id (k_vfs k)) as Hid by (by apply Hfr).
  destruct (set_up_reachable id inherit kept (k_vfs k) Hr Hid Hen Hf) as (S1 & S2 & S3). split; rewrite Hv; [done|..].
  - intros i Hi. destruct (decide (i = id)) as [->|Hn]; [apply S3; destruct kept; [lia|done]|]. apply S2; [done|]. apply Hfr.
    destruct kept; unfold id in *; lia.
  - intros i t' Hi Hend. destruct (gr_new _ _ Hg i t' Hi) as [[t Ht]|[Hrd _]]; [|by rewrite Hrd in Hend].
    destruct (gr_old _ _ Hg i t Ht) as (u & Hu & Hw). simplify_eq. rewrite (woken_ends _ _ _ Hw) in Hend.
    apply S2; [|by eapply He]. pose proof (lookup_lt_Some _ _ _ Ht). unfold id. lia.
Qed.

Lemma fd_exec_vfs op k : k_vfs (fd_exec op k) = (exec op (k_vfs k)).2.
Proof. unfold fd_exec. destruct (exec op (k_vfs k)) as [[w c] st]. by rewrite wake_tasks_vfs. Qed.
Lemma caller_foreign op t i : fd_caller op = Some t → t ≠ i → foreign i op.
Proof. destruct op; simpl; try done; intros [= ->] Hn; by split. Qed.

Lemma fd_exec_ok op k : fds_ok k → sched_ok k → fds_sane (KFd op) k → fds_ok (fd_exec op k).
Proof.
  intros [Hr Hf He] Hok (Hen & Hc & Hal). pose proof (fd_exec_evolves op k) as Hev.
  assert (∀ i, i ≠ k_current k → no_fds i (k_vfs k) → no_fds i (k_vfs (fd_exec op k))) as Hk.
  { intros i Hi Hn. rewrite fd_exec_vfs. apply no_fds_foreign; [|done]. eapply caller_foreign; [exact Hc|by apply not_eq_sym]. }
  destruct (so_live _ _ Hok) as (u & Hu & _). unfold current_task in Hal. rewrite Hu in Hal. split.
  - rewrite fd_exec_vfs. by apply reachable_exec.
  - intros i. rewrite (ev_length _ _ _ Hev). intros Hi. apply Hk; [|auto]. apply lookup_lt_Some in Hu. lia.
  - intros i t' Hi Hend. destruct (get_task_back _ _ _ _ _ Hev Hi) as (t & Ht & Hw). rewrite (woken_ends _ _ _ Hw) in Hend.
    apply Hk; [|by eapply He]. intros ->. simplify_eq. congruence.
Qed.

(** The admission that precedes an open or a pipe ends some other task at most. *)
Lemma with_admission_ok bytes h u op k :
  (∀ ok task st, enabled (op ok task) st ∧ fd_caller (op ok task) = Some task) →
  match current_task k with Some t => ends (t_status t) = false | None => False end →
  sched_ok k → fds_ok k → fds_ok (with_admission bytes h u op k).
Proof.
  intros Hop Hal Hok Hfd. destruct (with_admission_cases bytes h u op k) as [ok ->]. cbv zeta. set (k1 := if recovers bytes h then _ else k).
  destruct (recover_settles (recovers bytes h) u OOM_EXIT_CODE k) as [ps Hs]. fold k1 in Hs.
  assert (fds_ok k1) as Hfd1 by (subst k1; destruct (recovers bytes h); [eapply tidy_ok; [done|apply reclaim_tidy]|done]).
  apply fd_exec_ok; [done|by eapply settles_ok|]. destruct (Hop ok (k_current k1) (k_vfs k1)) as [Hen Hc]. split_and!; [done..|].
  unfold current_task in *. rewrite (se_current _ _ _ Hs). destruct (get_task (k_current k) k) as [t|] eqn:Ht; [|done].
  assert (∃ t1, get_task (k_current k) k1 = Some t1 ∧ woken (k_current k) t t1) as (t1 & -> & Hw).
  { subst k1. destruct (recovers bytes h); [by apply reclaim_foreign|]. exists t. split; [done|by left]. }
  by rewrite (woken_ends _ _ _ Hw).
Qed.

Lemma grows_tidy k k' : k_vfs k' = k_vfs k → length (k_tasks k') = length (k_tasks k) → grows k k' → tidy k k'.
Proof.
  intros Hv Hl Hg. apply tidy_alive; [done..|]. intros i t t' Hi Hi' Hend. destruct (gr_old _ _ Hg i t Hi) as (u & Hu & Hw). simplify_eq.
  by rewrite <- (woken_ends _ _ _ Hw).
Qed.
Lemma adjusts_tidy op f k k' :
  adjusts op f → k_sched k' = k_sched (upd_task (k_current k) f k) → k_vfs k' = k_vfs k → tidy k k'.
Proof.
  intros Hf Hs Hv. assert (tidy k (upd_task (k_current k) f k)) as [T1 T2 T3 T4].
  { apply tidy_upd. intros t. rewrite (ad_status _ _ Hf). by case_match. }
  split; unfold get_task; rewrite ?Hs, ?Hv; done.
Qed.

Lemma spawn_user_ok sel alloc ic nm entry rsp pml4 fds creds k b k' :
  fds_ok k → k_tasks k ≠ [] → NoDup fds.*2 → grows k k' →
  spawn_user_with_fds_and_credentials sel alloc ic nm entry rsp pml4 fds creds k = (b, k') → fds_ok k'.
Proof.
  intros Hfd Hne Hnd Hg E. pose proof (spawn_user_spec _ _ _ _ _ _ _ _ _ _ _ _ Hne E) as Hspec.
  assert (length (k_tasks k') = if b then S (length (k_tasks k)) else length (k_tasks k)) as Hl.
  { destruct b; [destruct Hspec as (addr & t & _ & _ & [Hts _ _ _ _] & _); rewrite Hts, length_app; simpl; lia|].
    destruct Hspec as (k1 & He & ->). apply (ev_length _ _ _ He). }
  apply spawn_user_vfs in E as [[-> Hv]|Hv]; [eapply tidy_ok, grows_tidy; done|].
  eapply (set_up_ok _ _ b _ _ Hfd eq_refl); [| |exact Hv|done|done].
  - split; [done|]. apply Forall_forall. intros fd _. apply init_task_none.
  - intros i Hi. split; [by apply not_eq_sym|done].
Qed.
Lemma spawn_thread_ok sel alloc ic entry rsp arg bottom tls k r k' :
  fds_ok k → grows k k' → spawn_user_thread sel alloc ic entry rsp arg bottom tls k = (r, k') → fds_ok k'.
Proof.
  intros Hfd Hg E. pose proof (spawn_thread_spec _ _ _ _ _ _ _ _ _ _ _ E) as Hspec.
  assert (length (k_tasks k') = if match r with Some _ => true | None => false end then S (length (k_tasks k)) else length (k_tasks k)) as Hl.
  { destruct r; [destruct Hspec as (addr & pt & q & t & _ & _ & _ & _ & _ & _ & _ & [Hts _ _ _ _] & _); rewrite Hts, length_app; simpl; lia|].
    apply (ev_length _ _ _ Hspec). }
  apply spawn_thread_vfs in E as [[-> Hv]|Hv]; [eapply tidy_ok, grows_tidy; done|].
  eapply (set_up_ok _ _ _ _ _ Hfd eq_refl); [| |exact Hv|done|done].
  - apply no_fds_count, init_task_none.
  - intros i Hi. split; [by apply not_eq_sym|done].
Qed.

Lemma frees_vfs p k : k_vfs (frees p k) = k_vfs k.
Proof. by destruct p. Qed.
Lemma tls_vfs base k : k_vfs (set_current_tls_base base k).2 = k_vfs k.
Proof. unfold set_current_tls_base. destruct (current_task k); [|done]. by case_bool_decide. Qed.
Lemma exec_replace_fds pml4 f k :
  fds_ok k → sched_ok k → adjusts (KExec pml4) f → k_sched (exec_replace pml4 k) = k_sched (upd_task (k_current k) f k) →
  fds_ok (exec_replace pml4 k).
Proof.
  intros Hfd Hok Hf Hs. assert (k_vfs (exec_replace pml4 k) = (exec (OpDropShmem (k_current k)) (k_vfs k)).2) as Hv.
  { unfold exec_replace. rewrite frees_vfs. cbn [set_vfs k_vfs]. by rewrite tls_vfs. }
  assert (fds_ok (set_vfs (k_vfs k) (exec_replace pml4 k))) as [Hr Hfr He] by (eapply tidy_ok; [done|by eapply adjusts_tidy]).
  simpl in Hr, Hfr, He. assert (∀ i, no_fds i (k_vfs k) → no_fds i (k_vfs (exec_replace pml4 k))) as Hn.
  { intros i Hn fd. rewrite Hv. rewrite (kept_fds i (k_vfs k)); [apply Hn|done]. }
  split; [rewrite Hv; by apply reachable_exec|auto|]. intros i t Hi Hend. apply Hn. by eapply He.
Qed.

Lemma kexec_fds op k : sched_ok k → fds_sane op k → fds_ok k → fds_ok (kexec op k).
Proof.
  intros Hok Hsane Hfd. destruct (is_tick op) eqn:Htick.
  { apply is_tick_inv in Htick as (now & rsp & ->). destruct (tick_is_schedule dps now rsp k Hok) as (ptr & Hs).
    destruct (schedule_scheduled dps _ _ _ _ _ Hok Hs) as ([_ Hl _ _ Hv _ Ht] & _). eapply tidy_ok; [done|].
    apply tidy_alive; [done..|]. intros i u u' Hi Hi' Hend. rewrite Ht, Hi in Hi'. injection Hi' as <-.
    destruct (ends (t_status u)) eqn:Hu; [done|]. revert Hend. case_match; simpl; [done|]. by rewrite ticked_alive. }
  assert (k_tasks k ≠ []) as Hne by (intros Hn; pose proof (so_idle _ _ Hok) as H0; rewrite Hn in H0; simpl in H0; lia).
  destruct (kexec_kind dps op k Hok Htick) as [ps Hop _|Hsp Hg|id code -> _|f Hpl Hf Hs].
  - destruct op; try (eapply tidy_ok; [done|by apply settling_tidy]); [by apply fd_exec_ok|by apply with_admission_ok..].
  - destruct op; try done; simpl in *.
    + destruct (spawn_user_with_fds_and_credentials _ _ _ _ _ _ _ _ _ _) as [b k'] eqn:E. by eapply spawn_user_ok.
    + destruct (spawn_user_thread _ _ _ _ _ _ _ _ _) as [r k'] eqn:E. by eapply spawn_thread_ok.
  - eapply tidy_ok; [done|]. simpl. destruct (kill_effect id code k) as [r k'] eqn:E. by eapply kill_effect_tidy.
  - destruct op; try done; try (eapply tidy_ok; [done|]; refine (adjusts_tidy _ _ _ _ Hf Hs _); reflexivity).
    + eapply tidy_ok; [done|]. refine (adjusts_tidy _ _ _ _ Hf Hs _). by destruct locked.
    + by eapply exec_replace_fds.
    + eapply tidy_ok; [done|]. refine (adjusts_tidy _ _ _ _ Hf Hs _). apply tls_vfs.
    + eapply tidy_ok; [done|]. simpl. destruct (kill_effect id code k) as [r k'] eqn:E. by eapply kill_effect_tidy.
Qed.

Lemma boot_fds ic : fds_ok (boot ic).
Proof.
  assert (reachable (k_vfs (boot ic))) as Hr.
  { change (k_vfs (boot ic)) with (exec (OpInitTask 0) VfsState_new).2. apply reachable_exec; [|done]. eexists [], _, _. constructor. }
  split; [done|..].
  - intros [|i] Hi; simpl in Hi; [lia|]. intros fd. done.
  - intros i t Hi Hend. apply boot_task in Hi as (_ & _ & _ & Hs & _). by rewrite Hs in Hend.
Qed.

End Kernel.

(** The desktop makes a pipe and hands the write end to a process, which
    opens a file and exits without closing anything. *)
Definition piped : list kop :=
  [KFd (OpPipe 0 true); KSpawn sel (Some 0x100000) desktop (str "app") 0x400000 0x7fff000ffff8 100 [(4, 1)]%nat None; tick 1;
   KFd (OpOpenWrite 1 (str "/a")); KExit 0].
Lemma after_piped : krun dps piped start ∅ = Some (after piped, owned_of piped).
Proof. vm_compute. reflexivity. Qed.
