(* ===== verification/Futex.v ===== *)
(** * Futexes (src/src/futex.rs, src/src/syscall/core.rs)

    The table of waiting threads and the two system calls on it.  [sys_futex_wait]
    runs with interrupts disabled up to the point where the caller blocks:
    [futex_wait_enter]; what follows when the caller runs again is
    [futex_wait_resume].  User memory is an argument: the word at an address,
    [None] where the address is not accessible. *)
From stdpp Require Import gmap.
From S2P Require Import Prelude Clock UserLayout Security Pipe FdTable Process.

Local Open Scope Z_scope.

Definition MAX_FUTEX_WAITERS : nat := 128.
Definition MAX_FUTEX_WAKE_COUNT : Z := 64.
Definition FUTEX_WAIT_MISMATCH : Z := 1.
Definition FUTEX_WAIT_TIMEOUT : Z := 2.
Definition U64_MAX : Z := 2 ^ 64 - 1.
Definition TIMEOUT_FOREVER : Z := U64_MAX.

(** ** The table *)
Definition waits_at (addr : Z) (task : nat) (w : FutexWaiter) : bool := (fw_addr w =? addr) && (fw_task w =? task)%nat.
(** The statistics with a counter changed and the last address and task noted. *)
Definition note (addr : Z) (task : nat) (waits wakes mismatches timeouts interrupted : Z) (max_waiters : nat) (s : FutexStats) : FutexStats :=
  {| fs_waits := waits; fs_wakes := wakes; fs_mismatches := mismatches; fs_timeouts := timeouts; fs_interrupted := interrupted;
     fs_dropped := fs_dropped s; fs_last_addr := addr; fs_last_task := task; fs_max_waiters := max_waiters |}.

Definition register_waiter (addr : Z) (task : nat) (fx : FutexState) : bool * FutexState :=
  if existsb (waits_at addr task) (fx_waiters fx) then (true, fx) else
  if (MAX_FUTEX_WAITERS <=? length (fx_waiters fx))%nat then (false, fx) else
  let ws := fx_waiters fx ++ [{| fw_addr := addr; fw_task := task |}] in
  let s := fx_stats fx in
  (true, {| fx_waiters := ws;
            fx_stats := note addr task (saturating_add 64 (fs_waits s) 1) (fs_wakes s) (fs_mismatches s) (fs_timeouts s) (fs_interrupted s)
                             (Nat.max (fs_max_waiters s) (length ws)) s |}).

Definition unregister_waiter (addr : Z) (task : nat) (fx : FutexState) : bool * FutexState :=
  let ws := List.filter (λ w, negb (waits_at addr task w)) (fx_waiters fx) in
  (negb (length (fx_waiters fx) =? length ws)%nat, {| fx_waiters := ws; fx_stats := fx_stats fx |}).

(** The first [count] waiters at [addr], and the others. *)
Fixpoint take_waiters (addr : Z) (count : nat) (ws : list FutexWaiter) : list nat * list FutexWaiter :=
  match ws with
  | [] => ([], [])
  | w :: ws =>
      if (fw_addr w =? addr) && (0 <? count)%nat
      then let (woken, kept) := take_waiters addr (count - 1) ws in (fw_task w :: woken, kept)
      else let (woken, kept) := take_waiters addr count ws in (woken, w :: kept)
  end.
Definition wake (addr : Z) (count : nat) (fx : FutexState) : list nat * FutexState :=
  if (count =? 0)%nat then ([], fx) else
  let (woken, ws) := take_waiters addr count (fx_waiters fx) in
  let s := fx_stats fx in
  (woken, {| fx_waiters := ws;
             fx_stats := note addr (default (fs_last_task s) (last woken)) (fs_waits s)
                              (saturating_add 64 (fs_wakes s) (Z.of_nat (length woken))) (fs_mismatches s) (fs_timeouts s) (fs_interrupted s)
                              (fs_max_waiters s) s |}).

Definition record_mismatch (addr : Z) (task : nat) (fx : FutexState) : FutexState :=
  let s := fx_stats fx in
  {| fx_waiters := fx_waiters fx;
     fx_stats := note addr task (fs_waits s) (fs_wakes s) (saturating_add 64 (fs_mismatches s) 1) (fs_timeouts s) (fs_interrupted s) (fs_max_waiters s) s |}.
Definition record_timeout (addr : Z) (task : nat) (fx : FutexState) : FutexState :=
  let s := fx_stats fx in
  {| fx_waiters := fx_waiters fx;
     fx_stats := note addr task (fs_waits s) (fs_wakes s) (fs_mismatches s) (saturating_add 64 (fs_timeouts s) 1) (fs_interrupted s) (fs_max_waiters s) s |}.
Definition record_interrupted (addr : Z) (task : nat) (fx : FutexState) : FutexState :=
  let s := fx_stats fx in
  {| fx_waiters := fx_waiters fx;
     fx_stats := note addr task (fs_waits s) (fs_wakes s) (fs_mismatches s) (fs_timeouts s) (saturating_add 64 (fs_interrupted s) 1) (fs_max_waiters s) s |}.

(** ** System calls *)
(** [mem] answers [user_range_accessible] and the read at once. *)
Definition validate_user_range (mem : Z → option Z) (ptr len max_len : Z) : bool :=
  valid_user_address_range ptr len max_len && bool_decide (mem ptr ≠ None).
Definition read_user_futex (mem : Z → option Z) (addr : Z) : option Z :=
  if negb (Z.land addr 7 =? 0) || negb (validate_user_range mem addr 8 8) then None else mem addr.

Definition futex_deadline (now timeout_ms : Z) : option Z :=
  if timeout_ms =? TIMEOUT_FOREVER then None else Some (wrapping_add 64 now (ticks_for_millis (Z.max timeout_ms 1))).
Definition futex_deadline_expired (now : Z) (deadline : option Z) : bool :=
  match deadline with Some d => d <=? now | None => false end.

(** The table's part of a wait: a result, or [None] when the caller is to block. *)
Definition futex_admit (mem : Z → option Z) (addr expected timeout_ms : Z) (task : nat) (fx : FutexState) : option Z * FutexState :=
  match read_user_futex mem addr with
  | None => (Some U64_MAX, fx)
  | Some value =>
      if negb (value =? expected) then (Some FUTEX_WAIT_MISMATCH, record_mismatch addr task fx) else
      if timeout_ms =? 0 then (Some FUTEX_WAIT_TIMEOUT, record_timeout addr task fx) else
      match register_waiter addr task fx with
      | (false, fx) => (Some U64_MAX, fx)
      | (true, fx) =>
          if negb (default U64_MAX (read_user_futex mem addr) =? expected)
          then (Some FUTEX_WAIT_MISMATCH, record_mismatch addr task (unregister_waiter addr task fx).2)
          else (None, fx)
      end
  end.

Definition futex_wait_enter (mem : Z → option Z) (now addr expected timeout_ms : Z) (k : Kernel) : option Z * Kernel :=
  let (r, fx) := futex_admit mem addr expected timeout_ms (k_current k) (k_futex k) in
  let k := set_futex fx k in
  match r with
  | Some code => (Some code, k)
  | None => (None, match futex_deadline now timeout_ms with Some w => block_current_until w k | None => block_current k end)
  end.

(** After the wait: [pending] is [current_has_pending_signal], [now] the time. *)
Definition futex_settle (pending : bool) (now addr : Z) (deadline : option Z) (task : nat) (fx : FutexState) : Z * FutexState :=
  let (still_waiting, fx) := unregister_waiter addr task fx in
  if pending then (U64_MAX, if still_waiting then record_interrupted addr task fx else fx) else
  if still_waiting && futex_deadline_expired now deadline then (FUTEX_WAIT_TIMEOUT, record_timeout addr task fx) else (0, fx).
Definition futex_wait_resume (now addr : Z) (deadline : option Z) (k : Kernel) : Z * Kernel :=
  let (r, fx) := futex_settle (current_has_pending_signal k) now addr deadline (k_current k) (k_futex k) in (r, set_futex fx k).

(** The table's part of a wake: the tasks to unblock. *)
Definition futex_release (mem : Z → option Z) (addr count flags : Z) (fx : FutexState) : option (list nat * FutexState) :=
  if negb (flags =? 0) || (MAX_FUTEX_WAKE_COUNT <? count) || negb (validate_user_range mem addr 8 8) || negb (Z.land addr 7 =? 0)
  then None else Some (wake addr (Z.to_nat count) fx).
Definition sys_futex_wake (mem : Z → option Z) (addr count flags : Z) (k : Kernel) : Z * Kernel :=
  match futex_release mem addr count flags (k_futex k) with
  | None => (U64_MAX, k)
  | Some (tasks, fx) => (Z.of_nat (length tasks), wake_tasks tasks (set_futex fx k))
  end.

(** ** The table as a set of waiting threads *)
Abbreviation waiter a t := {| fw_addr := a; fw_task := t |}.
Definition registered (a : Z) (t : nat) (fx : FutexState) : Prop := waiter a t ∈ fx_waiters fx.

Lemma waits_at_spec a t w : waits_at a t w = true ↔ w = waiter a t.
Proof.
  destruct w as [a' t']. unfold waits_at. simpl. rewrite andb_true_iff, Z.eqb_eq, Nat.eqb_eq.
  split; [intros [-> ->]; done|intros [= -> ->]; done].
Qed.

Lemma registered_unregister a t a' t' fx :
  registered a' t' (unregister_waiter a t fx).2 ↔ registered a' t' fx ∧ waiter a' t' ≠ waiter a t.
Proof.
  unfold registered, unregister_waiter. simpl. rewrite !list_elem_of_In, filter_In, negb_true_iff, <-not_true_iff_false, waits_at_spec. done.
Qed.

Lemma registered_register a t fx b fx' : register_waiter a t fx = (b, fx') →
  if b then ∀ a' t', registered a' t' fx' ↔ registered a' t' fx ∨ waiter a' t' = waiter a t
  else fx' = fx ∧ ¬ registered a t fx ∧ (MAX_FUTEX_WAITERS ≤ length (fx_waiters fx))%nat.
Proof.
  unfold register_waiter, registered. destruct (existsb _ _) eqn:E.
  - intros [= <- <-] a' t'. apply existsb_exists in E as (w & Hw & ->%waits_at_spec). apply list_elem_of_In in Hw.
    split; [auto|]. intros [?|[= -> ->]]; done.
  - destruct (Nat.leb_spec MAX_FUTEX_WAITERS (length (fx_waiters fx))) as [L|L]; intros [= <- <-]; cbn [fx_waiters].
    + split_and!; [done| |done]. intros H%list_elem_of_In. apply not_true_iff_false in E. apply E, existsb_exists. eexists. by rewrite waits_at_spec.
    + intros a' t'. rewrite elem_of_app, list_elem_of_singleton. done.
Qed.

Lemma NoDup_unregister a t fx : NoDup (fx_waiters fx) → NoDup (fx_waiters (unregister_waiter a t fx).2).
Proof. rewrite !NoDup_ListNoDup. apply List.NoDup_filter. Qed.
Lemma NoDup_register a t fx : NoDup (fx_waiters fx) → NoDup (fx_waiters (register_waiter a t fx).2).
Proof.
  unfold register_waiter. intros H. destruct (existsb _ _) eqn:E; [done|]. case_match; [done|]. cbn [fx_waiters snd].
  apply NoDup_app. split_and!; [done| |apply NoDup_singleton]. intros w Hw ->%list_elem_of_singleton.
  apply not_true_iff_false in E. apply E, existsb_exists. eexists. split; [by apply list_elem_of_In|by apply waits_at_spec].
Qed.

(** [take_waiters] splits the table: it takes waiters at [a] only, and leaves one
    at [a] only when it took all it was asked for. *)
Lemma take_waiters_spec a n ws woken kept : take_waiters a n ws = (woken, kept) →
  ws ≡ₚ map (λ t, waiter a t) woken ++ kept ∧ (length woken ≤ n)%nat ∧ (∀ t, waiter a t ∈ kept → length woken = n).
Proof.
  revert n woken kept. induction ws as [|[b t] ws IH]; intros n woken kept; simpl.
  - intros [= <- <-]. split_and!; [done|simpl; lia|]. intros t H. by apply elem_of_nil in H.
  - destruct (Z.eqb_spec b a) as [->|Hb]; simpl; [destruct (Nat.ltb_spec 0 n) as [Hn|Hn]|].
    + destruct (take_waiters a (n - 1) ws) as [wo ke] eqn:E. intros [= <- <-]. destruct (IH _ _ _ E) as (IP & IL & IK). simpl.
      split_and!; [by rewrite IP|lia|]. intros t' H. apply IK in H. lia.
    + destruct (take_waiters a n ws) as [wo ke] eqn:E. intros [= <- <-]. destruct (IH _ _ _ E) as (IP & IL & IK).
      split_and!; [by rewrite IP, Permutation_middle|lia|intros; lia].
    + destruct (take_waiters a n ws) as [wo ke] eqn:E. intros [= <- <-]. destruct (IH _ _ _ E) as (IP & IL & IK).
      split_and!; [by rewrite IP, Permutation_middle|lia|]. intros t' [[= ? ?]|H]%elem_of_cons; [congruence|by apply IK in H].
Qed.

(** What a wake-up does to a table without duplicates. *)
Record released (a : Z) (n : nat) (fx : FutexState) (woken : list nat) (fx' : FutexState) : Prop := {
  rel_dup : NoDup (fx_waiters fx');
  rel_woken_dup : NoDup woken;
  rel_len : (length woken ≤ n)%nat;
  rel_from : ∀ t, t ∈ woken → registered a t fx ∧ ¬ registered a t fx';
  rel_left : ∀ a' t, registered a' t fx' → registered a' t fx ∧ (a' = a → length woken = n);
  rel_all : ∀ a' t, registered a' t fx → registered a' t fx' ∨ (a' = a ∧ t ∈ woken) }.

Lemma wake_released a n fx : NoDup (fx_waiters fx) → released a n fx (wake a n fx).1 (wake a n fx).2.
Proof.
  intros HN. unfold wake. destruct (Nat.eqb_spec n 0) as [->|Hn].
  - split; simpl; try done; [apply NoDup_nil_2|by intros t ?%elem_of_nil|auto].
  - destruct (take_waiters a n (fx_waiters fx)) as [woken kept] eqn:E. destruct (take_waiters_spec _ _ _ _ _ E) as (P & L & K).
    rewrite P in HN. apply NoDup_app in HN as (N1 & N2 & N3).
    assert (Hin : ∀ a' t, registered a' t fx ↔ (a' = a ∧ t ∈ woken) ∨ waiter a' t ∈ kept).
    { intros a' t. unfold registered. rewrite P, elem_of_app, list_elem_of_fmap. split.
      - intros [(t' & [= -> ->] & ?)|?]; auto. 
      - intros [[-> ?]|?]; eauto. }
    split; unfold registered; cbn [fx_waiters fst snd]; try done.
    + by apply NoDup_fmap_1 in N1.
    + intros t Ht. split; [apply Hin; auto|]. apply N2, list_elem_of_fmap. eauto.
    + intros a' t Ht. split; [apply Hin; auto|intros ->; eauto].
    + intros a' t Ht%Hin. tauto.
Qed.

(** A waiter is woken when the call is for as many threads as wait there, or
    for one thread and it waits first. *)
Lemma released_some a n fx woken fx' t : released a n fx woken fx' → (0 < n)%nat → registered a t fx → ∃ t', t' ∈ woken.
Proof.
  intros R Hn Ht. destruct (rel_all _ _ _ _ _ R a t Ht) as [H|[_ ?]]; [|eauto].
  apply (rel_left _ _ _ _ _ R) in H as [_ H]. specialize (H eq_refl). destruct woken as [|x]; simpl in *; [lia|]. exists x. left.
Qed.
Lemma released_every a n fx woken fx' (X : gset nat) : released a n fx woken fx' → (size X ≤ n)%nat →
  (∀ t, registered a t fx → t ∈ X) → ∀ t, registered a t fx → t ∈ woken.
Proof.
  intros R HX HS t Ht. destruct (rel_all _ _ _ _ _ R a t Ht) as [H|[_ ?]]; [exfalso|done].
  pose proof (proj2 (rel_left _ _ _ _ _ R _ _ H) eq_refl) as HL.
  assert (t ∉ woken) by (intros ?; by apply (rel_from _ _ _ _ _ R t)).
  assert (S (length woken) ≤ size X)%nat; [|lia].
  change (S (length woken)) with (length (t :: woken)). rewrite <-(size_list_to_set (C := gset nat) (t :: woken));
    [|apply NoDup_cons; split; [done|apply (rel_woken_dup _ _ _ _ _ R)]].
  apply subseteq_size. intros x. rewrite elem_of_list_to_set, elem_of_cons. intros [->|Hx]; apply HS; [done|by apply (rel_from _ _ _ _ _ R)].
Qed.

(** What a wait does to the table: it returns at once and the table's waiters are
    those it had, or the word has the expected value and the caller is registered. *)
Record admitted (mem : Z → option Z) (a e : Z) (t : nat) (fx : FutexState) (r : option Z) (fx' : FutexState) : Prop := {
  adm_dup : NoDup (fx_waiters fx) → NoDup (fx_waiters fx');
  adm_reg : match r with
            | Some _ => ¬ registered a t fx → ∀ a' t', registered a' t' fx' ↔ registered a' t' fx
            | None => ∀ a' t', registered a' t' fx' ↔ registered a' t' fx ∨ waiter a' t' = waiter a t end;
  adm_val : r = None → mem a = Some e }.

Lemma read_user_futex_Some mem a v : read_user_futex mem a = Some v → mem a = Some v.
Proof. unfold read_user_futex. by case_match. Qed.

Lemma futex_admitted mem a e ms t fx : admitted mem a e t fx (futex_admit mem a e ms t fx).1 (futex_admit mem a e ms t fx).2.
Proof.
  unfold futex_admit. destruct (read_user_futex mem a) as [v|] eqn:Ev; [|by split].
  destruct (Z.eqb_spec v e) as [->|]; simpl; [|by split]. case_match; [by split|].
  destruct (register_waiter a t fx) as [[] fx'] eqn:E; pose proof (registered_register _ _ _ _ _ E) as HR; simpl in HR.
  2:{ destruct HR as (-> & _). by split. }
  pose proof (NoDup_register a t fx) as ND. rewrite E in ND. rewrite Z.eqb_refl. simpl.
  split; simpl; [done|done|]. intros _. by apply read_user_futex_Some.
Qed.
