(* ===== verification/Threads.v ===== *)
(** * Threads over futexes (userspace/libcool/src/thread.rs)

    A process's threads share words of memory and the kernel's futex table.  A
    library routine is a control-flow graph: at each point one atomic memory
    operation, one futex call, or the client's choice of what to call next.
    [tstep] runs one of them, every interleaving being a list of events; other
    processes use the table in between, and a sleeping thread may be woken for no
    reason of its own.  The system call's own code is that of [Futex]. *)
From stdpp Require Import gmap functions.
From S2P Require Import Prelude UserLayout Security Pipe FdTable Process Futex.

Local Open Scope Z_scope.

Inductive instr (PC : Type) : Type :=
| Client (entries : PC → bool)
| Atomic (a : Z) (f : Z → Z * PC)
| FWait (a expected : Z) (ret : Z → PC)
| FWake (a count : Z) (ret : PC).
Arguments Client {PC} entries.
Arguments Atomic {PC} a f.
Arguments FWait {PC} a expected ret.
Arguments FWake {PC} a count ret.

Inductive tstate (PC : Type) : Type :=
| Run (p : PC)
| Waiting (p : PC) (asleep : bool).
Arguments Run {PC} p.
Arguments Waiting {PC} p asleep.

Record Sys (PC : Type) := { s_mem : Z → Z; s_futex : FutexState; s_threads : gmap nat (tstate PC) }.
Arguments Build_Sys {PC} s_mem s_futex s_threads.
Arguments s_mem {PC} _.
Arguments s_futex {PC} _.
Arguments s_threads {PC} _.

(** What tasks of other processes do to the table. *)
Inductive foreign_op :=
| ORegister (a : Z) (t : nat)
| OUnregister (a : Z) (t : nat)
| OWake (a : Z) (count : nat)
| ODrop (t : nat).

Inductive tevent (PC : Type) : Type :=
| EStep (t : nat)
| ECall (t : nat) (p : PC)
| ESettle (t : nat) (pending : bool) (now : Z)
| ESpurious (t : nat)
| EOther (o : foreign_op).
Arguments EStep {PC} t.
Arguments ECall {PC} t p.
Arguments ESettle {PC} t pending now.
Arguments ESpurious {PC} t.
Arguments EOther {PC} o.

Definition foreign (o : foreign_op) (fx : FutexState) : FutexState :=
  match o with
  | ORegister a t => (register_waiter a t fx).2
  | OUnregister a t => (unregister_waiter a t fx).2
  | OWake a n => (wake a n fx).2
  | ODrop t => drop_task_waiters t fx
  end.

Section Threads.
Context {PC : Type} (code : PC → instr PC) (own : Z → bool).

(** Other processes use other addresses than the ones in [own]. *)
Definition foreign_ok (o : foreign_op) (threads : gmap nat (tstate PC)) : bool :=
  match o with
  | ORegister a t | OUnregister a t => negb (own a) && bool_decide (threads !! t = None)
  | OWake a n => negb (own a)
  | ODrop t => bool_decide (threads !! t = None)
  end.

Definition awaken1 (st : tstate PC) : tstate PC :=
  match st with Waiting p _ => Waiting p false | Run p => Run p end.
Definition awaken (ts : list nat) (threads : gmap nat (tstate PC)) : gmap nat (tstate PC) :=
  map_imap (λ t st, Some (if bool_decide (t ∈ ts) then awaken1 st else st)) threads.

Definition user_mem (mem : Z → Z) (a : Z) : option Z := Some (mem a).
Definition set_thread (t : nat) (st : tstate PC) (s : Sys PC) : Sys PC := Build_Sys (s_mem s) (s_futex s) (<[t := st]> (s_threads s)).

Definition run_instr (t : nat) (p : PC) (s : Sys PC) : option (Sys PC) :=
  match code p with
  | Client _ => None
  | Atomic a f => let (v, p') := f (s_mem s a) in Some (Build_Sys (<[a := v]> (s_mem s)) (s_futex s) (<[t := Run p']> (s_threads s)))
  | FWait a e ret =>
      let (r, fx) := futex_admit (user_mem (s_mem s)) a e TIMEOUT_FOREVER t (s_futex s) in
      Some (Build_Sys (s_mem s) fx (<[t := match r with Some r => Run (ret r) | None => Waiting p true end]> (s_threads s)))
  | FWake a n p' =>
      match futex_release (user_mem (s_mem s)) a n 0 (s_futex s) with
      | None => Some (set_thread t (Run p') s)
      | Some (ts, fx) => Some (Build_Sys (s_mem s) fx (<[t := Run p']> (awaken ts (s_threads s))))
      end
  end.

Definition tstep (ev : tevent PC) (s : Sys PC) : option (Sys PC) :=
  match ev with
  | EStep t => match s_threads s !! t with Some (Run p) => run_instr t p s | _ => None end
  | ECall t p' =>
      match s_threads s !! t with
      | Some (Run p) => match code p with
                        | Client entries => if entries p' then Some (set_thread t (Run p') s) else None
                        | _ => None end
      | _ => None
      end
  | ESettle t pending now =>
      match s_threads s !! t with
      | Some (Waiting p asleep) =>
          match code p with
          | FWait a _ ret =>
              if asleep && negb pending then None else
              let (r, fx) := futex_settle pending now a None t (s_futex s) in
              Some (Build_Sys (s_mem s) fx (<[t := Run (ret r)]> (s_threads s)))
          | _ => None
          end
      | _ => None
      end
  | ESpurious t =>
      match s_threads s !! t with
      | Some (Waiting p true) => Some (set_thread t (Waiting p false) s)
      | _ => None
      end
  | EOther o => if foreign_ok o (s_threads s) then Some (Build_Sys (s_mem s) (foreign o (s_futex s)) (s_threads s)) else None
  end.

Fixpoint trun (evs : list (tevent PC)) (s : Sys PC) : option (Sys PC) :=
  match evs with [] => Some s | ev :: evs => match tstep ev s with Some s => trun evs s | None => None end end.

(** ** What the table and the threads say of each other *)
Definition sleeps (t : nat) (s : Sys PC) : Prop := ∃ p, s_threads s !! t = Some (Waiting p true).
Record table_ok (s : Sys PC) : Prop := {
  tk_dup : NoDup (fx_waiters (s_futex s));
  tk_asleep : ∀ t p, s_threads s !! t = Some (Waiting p true) → ∃ a e k, code p = FWait a e k ∧ registered a t (s_futex s);
  tk_reg : ∀ a t, own a = true → registered a t (s_futex s) → ∃ p b e k, s_threads s !! t = Some (Waiting p b) ∧ code p = FWait a e k }.

(** The moves, without the table. *)
Inductive tmove : Sys PC → Sys PC → Prop :=
| mv_call s t p entries p' fx : s_threads s !! t = Some (Run p) → code p = Client entries → entries p' = true →
    tmove s (Build_Sys (s_mem s) fx (<[t := Run p']> (s_threads s)))
| mv_atomic s t p a f v p' fx : s_threads s !! t = Some (Run p) → code p = Atomic a f → f (s_mem s a) = (v, p') →
    tmove s (Build_Sys (<[a := v]> (s_mem s)) fx (<[t := Run p']> (s_threads s)))
| mv_refused s t p a e k r fx : s_threads s !! t = Some (Run p) → code p = FWait a e k →
    tmove s (Build_Sys (s_mem s) fx (<[t := Run (k r)]> (s_threads s)))
| mv_sleep s t p a e k fx : s_threads s !! t = Some (Run p) → code p = FWait a e k → s_mem s a = e →
    tmove s (Build_Sys (s_mem s) fx (<[t := Waiting p true]> (s_threads s)))
| mv_settle s t p b a e k r fx : s_threads s !! t = Some (Waiting p b) → code p = FWait a e k →
    tmove s (Build_Sys (s_mem s) fx (<[t := Run (k r)]> (s_threads s)))
| mv_wake s t p a n p' ts fx : s_threads s !! t = Some (Run p) → code p = FWake a n p' →
    (∀ u q, s_threads s !! u = Some (Waiting q true) → (∃ e k, code q = FWait a e k) → 0 < n →
       ∃ u' q' b e' k', u' ∈ ts ∧ s_threads s !! u' = Some (Waiting q' b) ∧ code q' = FWait a e' k') →
    (Z.of_nat (size (dom (s_threads s))) ≤ n → ∀ u q, s_threads s !! u = Some (Waiting q true) → (∃ e k, code q = FWait a e k) → u ∈ ts) →
    tmove s (Build_Sys (s_mem s) fx (<[t := Run p']> (awaken ts (s_threads s))))
| mv_spurious s t p fx : s_threads s !! t = Some (Waiting p true) →
    tmove s (Build_Sys (s_mem s) fx (<[t := Waiting p false]> (s_threads s)))
| mv_other s fx : tmove s (Build_Sys (s_mem s) fx (s_threads s)).

(** The words waited on are the process's own, and the calls name valid words. *)
Definition word_addr (a : Z) : bool := (Z.land a 7 =? 0) && valid_user_address_range a 8 8.
Hypothesis code_own : ∀ p a e k, code p = FWait a e k → own a = true.
Hypothesis code_wake : ∀ p a n k, code p = FWake a n k → word_addr a = true ∧ own a = true ∧ 0 ≤ n ≤ MAX_FUTEX_WAKE_COUNT.

Lemma lookup_awaken ts th u : awaken ts th !! u = (λ st, if bool_decide (u ∈ ts) then awaken1 st else st) <$> th !! u.
Proof. unfold awaken. rewrite map_lookup_imap. by destruct (th !! u). Qed.

Lemma dom_insert_some (th : gmap nat (tstate PC)) t st st' : th !! t = Some st → dom (<[t := st']> th) = dom th.
Proof. intros H. apply set_eq. intros u. rewrite dom_insert, elem_of_union, elem_of_singleton. split; [|auto]. intros [->|?]; [|done]. apply elem_of_dom. eauto. Qed.
Lemma dom_awaken ts (th : gmap nat (tstate PC)) : dom (awaken ts th) = dom th.
Proof. apply set_eq. intros u. by rewrite !elem_of_dom, lookup_awaken, fmap_is_Some. Qed.

Lemma release_some mem a n fx : word_addr a = true → 0 ≤ n ≤ MAX_FUTEX_WAKE_COUNT →
  futex_release (user_mem mem) a n 0 fx = Some (wake a (Z.to_nat n) fx).
Proof.
  unfold word_addr, futex_release. intros [H1 H2]%andb_true_iff Hn. rewrite H1. unfold validate_user_range. rewrite H2.
  rewrite bool_decide_eq_true_2 by done. destruct (Z.ltb_spec MAX_FUTEX_WAKE_COUNT n); [lia|done].
Qed.

(** A thread that goes on running, and is registered at no word of its own any
    more, leaves the table and the other threads in agreement. *)
Lemma table_ok_run s t st p mem fx :
  table_ok s → s_threads s !! t = Some st → NoDup (fx_waiters fx) →
  (∀ a u, u ≠ t → registered a u fx ↔ registered a u (s_futex s)) → (∀ a, own a = true → ¬ registered a t fx) →
  table_ok (Build_Sys mem fx (<[t := Run p]> (s_threads s))).
Proof.
  intros [D A R] Ht HD Hu Hn. split; simpl; [done| |].
  - intros u q. destruct (decide (u = t)) as [->|Hut]; [by rewrite lookup_insert_eq|rewrite lookup_insert_ne by done].
    intros (a & e & k & ? & ?)%A. exists a, e, k. split; [done|by apply Hu].
  - intros a u Ho. destruct (decide (u = t)) as [->|Hut]; [by intros ?%Hn|rewrite lookup_insert_ne by done]. intros ?%Hu; eauto.
Qed.
(** A running thread is registered at none of the process's words. *)
Lemma running_unregistered s t p : table_ok s → s_threads s !! t = Some (Run p) → ∀ a, own a = true → ¬ registered a t (s_futex s).
Proof. intros [_ _ R] Ht a Ho H. destruct (R a t Ho H) as (? & ? & ? & ? & ? & ?). congruence. Qed.
Lemma waiting_registered s t p b a e k : table_ok s → s_threads s !! t = Some (Waiting p b) → code p = FWait a e k →
  ∀ a', own a' = true → registered a' t (s_futex s) → a' = a.
Proof. intros [_ _ R] Ht Hp a' Ho H. destruct (R a' t Ho H) as (? & ? & ? & ? & ? & ?). congruence. Qed.

Lemma step_wait s t p a e k r fx :
  table_ok s → s_threads s !! t = Some (Run p) → code p = FWait a e k →
  futex_admit (user_mem (s_mem s)) a e TIMEOUT_FOREVER t (s_futex s) = (r, fx) →
  let s' := Build_Sys (s_mem s) fx (<[t := match r with Some r => Run (k r) | None => Waiting p true end]> (s_threads s)) in
  table_ok s' ∧ tmove s s'.
Proof.
  intros K Ht Hp E. pose proof (futex_admitted (user_mem (s_mem s)) a e TIMEOUT_FOREVER t (s_futex s)) as [D G V]. rewrite E in D, G, V.
  simpl in D, G, V. pose proof (running_unregistered _ _ _ K Ht) as N. pose proof (code_own _ _ _ _ Hp) as O. destruct r as [r|]; simpl.
  - split; [|by eapply mv_refused]. specialize (G (N a O)). eapply table_ok_run; [done|done|apply D, K|by intros|].
    intros a' O' ?%G. by apply (N a').
  - specialize (V eq_refl). injection V as V. split; [|by eapply mv_sleep]. destruct K as [KD KA KR]. split; simpl; [by apply D| |].
    + intros u q. destruct (decide (u = t)) as [->|Hut].
      * rewrite lookup_insert_eq. intros [= <-]. exists a, e, k. split; [done|]. apply G. by right.
      * rewrite lookup_insert_ne by done. intros (a' & e' & k' & ? & ?)%KA. exists a', e', k'. split; [done|apply G; by left].
    + intros a' u O' [H|[= -> ->]]%G.
      * destruct (decide (u = t)) as [->|Hut]; [by apply N in H|rewrite lookup_insert_ne by done; eauto].
      * rewrite lookup_insert_eq. eauto 6.
Qed.

Lemma step_wake s t p a n p' :
  table_ok s → s_threads s !! t = Some (Run p) → code p = FWake a n p' →
  let s' := Build_Sys (s_mem s) (wake a (Z.to_nat n) (s_futex s)).2 (<[t := Run p']> (awaken (wake a (Z.to_nat n) (s_futex s)).1 (s_threads s))) in
  table_ok s' ∧ tmove s s'.
Proof.
  intros K Ht Hp. pose proof (wake_released a (Z.to_nat n) (s_futex s) (tk_dup _ K)) as W.
  destruct (wake a (Z.to_nat n) (s_futex s)) as [ts fx]. simpl in *. destruct (code_wake _ _ _ _ Hp) as (_ & O & Hn).
  pose proof (running_unregistered _ _ _ K Ht) as N. destruct K as [KD KA KR].
  assert (Hreg : ∀ u, registered a u (s_futex s) → ∃ q b e k, s_threads s !! u = Some (Waiting q b) ∧ code q = FWait a e k) by (intros u; apply (KR a u O)).
  assert (Hs : ∀ u q, s_threads s !! u = Some (Waiting q true) → (∃ e k, code q = FWait a e k) → registered a u (s_futex s)).
  { intros u q Hu (e & k & Hq). destruct (KA _ _ Hu) as (? & ? & ? & ? & ?). congruence. }
  split; [split; simpl; [apply W| |]|].
  - intros u q. destruct (decide (u = t)) as [->|Hut]; [by rewrite lookup_insert_eq|rewrite lookup_insert_ne by done]. rewrite lookup_awaken.
    intros (st & Hu & E)%fmap_Some. case_bool_decide; [by destruct st|subst st]. destruct (KA _ _ Hu) as (a' & e & k & Hq & Hr).
    exists a', e, k. split; [done|]. destruct (rel_all _ _ _ _ _ W _ _ Hr) as [?|[_ ?]]; [done|tauto].
  - intros a' u O' Hr. apply (rel_left _ _ _ _ _ W) in Hr as [Hr _]. destruct (KR _ _ O' Hr) as (q & b & e & k & Hu & Hq).
    destruct (decide (u = t)) as [->|Hut]; [congruence|]. rewrite lookup_insert_ne, lookup_awaken, Hu by done. simpl.
    case_bool_decide; simpl; eauto 6.
  - apply mv_wake with p a n; [done|done| |].
    + intros u q Hu Hq Hpos. destruct (released_some _ _ _ _ _ u W) as [u' Hu']; [lia|by eapply Hs|].
      destruct (Hreg u') as (q' & b & e & k & ? & ?); [by apply (rel_from _ _ _ _ _ W)|]. eauto 10.
    + intros Hsz u q Hu Hq. eapply (released_every _ _ _ _ _ (dom (s_threads s)) W); [lia|intros v Hv|by eapply Hs].
      destruct (Hreg v Hv) as (? & ? & ? & ? & ? & _). apply elem_of_dom. eauto.
Qed.

Lemma step_settle s t p b a e k pending now r fx :
  table_ok s → s_threads s !! t = Some (Waiting p b) → code p = FWait a e k → futex_settle pending now a None t (s_futex s) = (r, fx) →
  let s' := Build_Sys (s_mem s) fx (<[t := Run (k r)]> (s_threads s)) in table_ok s' ∧ tmove s s'.
Proof.
  intros K Ht Hp E. split; [|by eapply mv_settle].
  assert (F : fx_waiters fx = fx_waiters (unregister_waiter a t (s_futex s)).2).
  { unfold futex_settle in E. destruct (unregister_waiter a t (s_futex s)) as [w fx0]. destruct pending; [|destruct (w && _)]; injection E as <- <-; [by destruct w|done|done]. }
  assert (G : ∀ a' u, registered a' u fx ↔ registered a' u (s_futex s) ∧ waiter a' u ≠ waiter a t).
  { intros a' u. rewrite <-registered_unregister. unfold registered. by rewrite F. }
  eapply table_ok_run; [done|done|rewrite F; apply NoDup_unregister, K| |].
  - intros a' u Hu. rewrite G. split; [tauto|]. intros ?. split; [done|]. by intros [= -> ->].
  - intros a' O' [H H']%G. apply H'. by rewrite (waiting_registered _ _ _ _ _ _ _ K Ht Hp _ O' H).
Qed.

Lemma foreign_registered o s : table_ok s → foreign_ok o (s_threads s) = true →
  NoDup (fx_waiters (foreign o (s_futex s))) ∧
  ∀ a t, own a = true → registered a t (foreign o (s_futex s)) ↔ registered a t (s_futex s).
Proof.
  intros K. destruct o as [b u|b u|b n|u]; cbn [foreign foreign_ok]; intros Ho.
  - apply andb_true_iff in Ho as [Hb _]. split; [apply NoDup_register, K|]. intros a t Ha. destruct (register_waiter b u (s_futex s)) as [[] fx] eqn:E;
      apply registered_register in E; simpl in *; [|by destruct E as [-> _]]. rewrite E. split; [|auto]. intros [?|[= -> ->]]; [done|]. by rewrite Ha in Hb.
  - apply andb_true_iff in Ho as [Hb _]. split; [apply NoDup_unregister, K|]. intros a t Ha. rewrite registered_unregister. split; [tauto|].
    intros H. split; [done|]. intros [= -> ->]. by rewrite Ha in Hb.
  - pose proof (wake_released b n (s_futex s) (tk_dup _ K)) as W. split; [apply W|]. intros a t Ha. split.
    + by intros [? _]%(rel_left _ _ _ _ _ W).
    + intros [?|[-> _]]%(rel_all _ _ _ _ _ W); [done|]. by rewrite Ha in Ho.
  - apply bool_decide_eq_true in Ho. unfold registered, drop_task_waiters. cbn [fx_waiters]. split.
    { rewrite NoDup_ListNoDup. apply List.NoDup_filter. rewrite <-NoDup_ListNoDup. apply K. }
    intros a t Ha. rewrite !list_elem_of_In, filter_In, negb_true_iff, Nat.eqb_neq. split; [tauto|]. intros H. split; [done|]. simpl. intros ->.
    apply list_elem_of_In in H. destruct (tk_reg _ K a u Ha H) as (? & ? & ? & ? & ? & _). congruence.
Qed.

(** Every event is a move, and keeps the table and the threads in agreement. *)
Lemma tstep_ok ev s s' : table_ok s → tstep ev s = Some s' → table_ok s' ∧ tmove s s'.
Proof.
  intros K. destruct ev as [t|t p'|t pending now|t|o]; simpl.
  - destruct (s_threads s !! t) as [[p|]|] eqn:Ht; [|done|done]. unfold run_instr. destruct (code p) as [|a f|a e k|a n p'] eqn:Hp; [done| | |].
    + destruct (f (s_mem s a)) as [v p'] eqn:Hf. intros [= <-]. split; [|by eapply mv_atomic].
      eapply table_ok_run; [done|done|apply K|done|by apply (running_unregistered _ _ _ K Ht)].
    + destruct (futex_admit _ _ _ _ _ _) as [r fx] eqn:E. intros [= <-]. by eapply step_wait.
    + destruct (code_wake _ _ _ _ Hp) as (Hw & _ & Hn). rewrite (release_some _ _ _ _ Hw Hn).
      pose proof (step_wake _ _ _ _ _ _ K Ht Hp) as S. destruct (wake a (Z.to_nat n) (s_futex s)). by intros [= <-].
  - destruct (s_threads s !! t) as [[p|]|] eqn:Ht; [|done|done]. destruct (code p) as [entries| | |] eqn:Hp; try done.
    destruct (entries p') eqn:He; [|done]. intros [= <-]. split; [|by eapply mv_call].
    eapply table_ok_run; [done|done|apply K|done|by apply (running_unregistered _ _ _ K Ht)].
  - destruct (s_threads s !! t) as [[|p b]|] eqn:Ht; [done| |done]. destruct (code p) as [| |a e k|] eqn:Hp; try done.
    destruct (b && negb pending); [done|]. destruct (futex_settle _ _ _ _ _ _) as [r fx] eqn:E. intros [= <-]. by eapply step_settle.
  - destruct (s_threads s !! t) as [[|p []]|] eqn:Ht; try done. intros [= <-]. split; [|by eapply mv_spurious]. destruct K as [KD KA KR].
    split; simpl; [done| |].
    + intros u q. destruct (decide (u = t)) as [->|Hut]; [by rewrite lookup_insert_eq|rewrite lookup_insert_ne by done]. apply KA.
    + intros a u O H. destruct (KR a u O H) as (q & b & e & k & Hu & Hq).
      destruct (decide (u = t)) as [->|Hut]; [rewrite lookup_insert_eq; simplify_eq; eauto 6|rewrite lookup_insert_ne by done; eauto 6].
  - destruct (foreign_ok o (s_threads s)) eqn:Ho; [|done]. intros [= <-]. split; [|apply mv_other]. destruct (foreign_registered _ _ K Ho) as [D G].
    split; simpl; [done| |].
    + intros t p (a & e & k & Hp & H)%(tk_asleep _ K). exists a, e, k. split; [done|]. apply G; [by eapply code_own|done].
    + intros a t O H%G; [|done]. by apply (tk_reg _ K).
Qed.

(** An invariant of the moves holds after every run. *)
Lemma trun_invariant (I : Sys PC → Prop) evs s s' :
  (∀ s1 s2, I s1 → tmove s1 s2 → I s2) → table_ok s → I s → trun evs s = Some s' → table_ok s' ∧ I s'.
Proof.
  intros HI. revert s. induction evs as [|ev evs IH]; intros s K Hs; simpl; [by intros [= <-]|].
  destruct (tstep ev s) as [s1|] eqn:E; [|done]. destruct (tstep_ok _ _ _ K E). eauto.
Qed.
End Threads.
