(* ===== verification/Pthread.v ===== *)
(** * Mutexes and condition variables (userspace/libcool/src/thread.rs)

    [PThreadMutex] and [PThreadCondvar] as the control-flow graph of a thread that
    locks, unlocks, waits and notifies as its client likes; [m] is the mutex's
    word and [c] the condition variable's. *)
From stdpp Require Import gmap functions.
From S2P Require Import Prelude Security Pipe FdTable Process Futex Threads.

Local Open Scope Z_scope.

(** [Lock*] and [Crit] carry what the [futex_wait] of [PThreadCondvar::wait]
    returned (0 after a plain [lock]); [Unlock] the value the wait observed,
    [None] for a plain [unlock]; [Notify*] whether all are notified and whether
    the caller holds the mutex. *)
Inductive sync_pc :=
| Idle
| Lock1 (waited : Z)
| Lock2 (waited : Z)
| LockWait (waited : Z)
| Crit (waited : Z)
| CvLoad
| Unlock (observed : option Z)
| UnlockWake (observed : option Z)
| CvWait (observed : Z)
| NotifyAdd (all held : bool)
| NotifyWake (all held : bool).

(** [one]: whether the client uses [notify_one] as well as [notify_all]. *)
Definition notify_entry (one held : bool) (p : sync_pc) : bool :=
  match p with NotifyAdd all h => (all || one) && Bool.eqb h held | _ => false end.
Definition after_unlock (observed : option Z) : sync_pc := match observed with Some v => CvWait v | None => Idle end.

(** The result of [PThreadCondvar::wait]: [futex_wait] and its match. *)
Inductive FutexWait := Woken | Mismatch | Timeout.
Definition futex_wait (ret : Z) : option FutexWait :=
  if ret =? U64_MAX then None else
  if ret =? 0 then Some Woken else if ret =? FUTEX_WAIT_MISMATCH then Some Mismatch else
  if ret =? FUTEX_WAIT_TIMEOUT then Some Timeout else None.
Definition wait_result (ret : Z) : bool := match futex_wait ret with Some Woken | Some Mismatch => true | _ => false end.

Section Pthread.
Context (m c : Z) (one : bool).

Definition sync_code (p : sync_pc) : instr sync_pc :=
  match p with
  | Idle => Client (λ q, match q with Lock1 w => w =? 0 | _ => notify_entry one false q end)
  | Lock1 w => Atomic m (λ v, if v =? 0 then (1, Crit w) else (v, Lock2 w))
  | Lock2 w => Atomic m (λ v, (2, if v =? 0 then Crit w else LockWait w))
  | LockWait w => FWait m 2 (λ _, Lock2 w)
  | Crit _ => Client (λ q, match q with Unlock None | CvLoad => true | _ => notify_entry one true q end)
  | CvLoad => Atomic c (λ v, (v, Unlock (Some v)))
  | Unlock o => Atomic m (λ v, (0, if v =? 2 then UnlockWake o else after_unlock o))
  | UnlockWake o => FWake m 1 (after_unlock o)
  | CvWait v => FWait c v (λ r, Lock1 r)
  | NotifyAdd all h => Atomic c (λ v, ((v + 1) mod 2 ^ 64, NotifyWake all h))
  | NotifyWake all h => FWake c (if all then 64 else 1) (if h then Crit 0 else Idle)
  end.
Definition sync_own (a : Z) : bool := (a =? m) || (a =? c).

(** The mutex is held from the return of [lock] to the exchange in [unlock]. *)
Definition holds (p : sync_pc) : bool :=
  match p with Crit _ | CvLoad | Unlock _ | NotifyAdd _ true | NotifyWake _ true => true | _ => false end.
Definition holder (st : tstate sync_pc) : bool := match st with Run p => holds p | Waiting _ _ => false end.
(** Inside [lock]. *)
Definition contends (st : tstate sync_pc) : bool :=
  match st with Run (Lock1 _ | Lock2 _ | LockWait _) | Waiting (LockWait _) _ => true | _ => false end.
(** Awake, and about to take the mutex or to wake a thread that will. *)
Definition helper (st : tstate sync_pc) : bool :=
  match st with Run (UnlockWake _ | Lock2 _ | LockWait _) | Waiting (LockWait _) false => true | _ => false end.
#[local] Abbreviation tstep := (tstep sync_code sync_own).
#[local] Abbreviation trun := (trun sync_code sync_own).
#[local] Abbreviation table_ok := (table_ok sync_code sync_own).
Definition boot_threads (n : nat) : Sys sync_pc :=
  Build_Sys (λ _, 0) {| fx_waiters := []; fx_stats := {| fs_waits := 0; fs_wakes := 0; fs_mismatches := 0; fs_timeouts := 0; fs_interrupted := 0;
    fs_dropped := 0; fs_last_addr := 0; fs_last_task := 0; fs_max_waiters := 0 |} |}
    (list_to_map ((λ t, (t, Run Idle)) <$> seq 0 n)).

(** ** The invariant *)
Record mutex_ok (s : Sys sync_pc) : Prop := {
  mo_free : s_mem s m = 0 → ∀ t st, s_threads s !! t = Some st → holder st = false;
  mo_held : s_mem s m ≠ 0 → ∃ t st, s_threads s !! t = Some st ∧ holder st = true;
  mo_one : ∀ t u st st', s_threads s !! t = Some st → s_threads s !! u = Some st' → holder st = true → holder st' = true → t = u;
  mo_wait : ∀ t p b, s_threads s !! t = Some (Waiting p b) → (∃ w, p = LockWait w) ∨ (∃ v, p = CvWait v);
  mo_sleep : ∀ t w, s_threads s !! t = Some (Waiting (LockWait w) true) → s_mem s m = 2 ∨ ∃ u st, s_threads s !! u = Some st ∧ helper st = true }.
Hypothesis m_addr : word_addr m = true.
Hypothesis c_addr : word_addr c = true.
Hypothesis m_c : m ≠ c.

Lemma sync_own_ok p a e k : sync_code p = FWait a e k → sync_own a = true.
Proof. destruct p; simpl; intros [= <- <- _]; unfold sync_own; rewrite Z.eqb_refl; [done|by rewrite orb_true_r]. Qed.
Lemma sync_wake_ok p a n k : sync_code p = FWake a n k → word_addr a = true ∧ sync_own a = true ∧ 0 ≤ n ≤ MAX_FUTEX_WAKE_COUNT.
Proof.
  unfold MAX_FUTEX_WAKE_COUNT. destruct p as [| | | | | | | | | |all h]; simpl; try done; intros [= <- <- _]; unfold sync_own; rewrite Z.eqb_refl, ?orb_true_r;
    (split_and!; [done|done| |]); try destruct all; lia.
Qed.

(** One thread changes, and the mutex's word goes from [v] to [v']. *)
Definition hold_change (v v' : Z) (st st' : tstate sync_pc) : Prop :=
  match holder st, holder st' with
  | true, true | false, false => v' = 0 ↔ v = 0
  | false, true => v = 0 ∧ v' ≠ 0
  | true, false => v' = 0
  end.
Definition help_change (s : Sys sync_pc) (t : nat) (v' : Z) (st st' : tstate sync_pc) : Prop :=
  helper st' = true ∨ v' = 2 ∨ (helper st = false ∧ (s_mem s m = 2 → v' = 2)) ∨
  (∀ u w, s_threads s !! u = Some (Waiting (LockWait w) true) → ∃ h sh, h ≠ t ∧ s_threads s !! h = Some sh ∧ helper sh = true).

Lemma mutex_ok_change s t st st' mem fx :
  mutex_ok s → s_threads s !! t = Some st → hold_change (s_mem s m) (mem m) st st' → help_change s t (mem m) st st' →
  (∀ w, st' = Waiting (LockWait w) true → mem m = 2) → (∀ p b, st' = Waiting p b → (∃ w, p = LockWait w) ∨ ∃ v, p = CvWait v) →
  mutex_ok (Build_Sys mem fx (<[t := st']> (s_threads s))).
Proof.
  intros [F H O W S] Ht Hh Hs Hw Hp. unfold hold_change in Hh.
  assert (Hz : s_mem s m = 0 ∨ s_mem s m ≠ 0) by lia. split; simpl.
  - intros E u su. destruct (decide (u = t)) as [->|Hut]; [rewrite lookup_insert_eq|rewrite lookup_insert_ne by done].
    + intros [= <-]. destruct (holder st) eqn:E1, (holder st') eqn:E2; try done; [|lia]. rewrite (F (proj1 Hh E) t st Ht) in E1. done.
    + intros Hu. destruct (holder su) eqn:E0; [|done]. destruct (holder st) eqn:E1; [by destruct (Hut (O u t su st Hu Ht E0 E1))|].
      destruct (holder st'); [lia|]. by rewrite (F (proj1 Hh E) u su Hu) in E0.
  - intros E. destruct (holder st') eqn:E2; [exists t, st'; by rewrite lookup_insert_eq|].
    destruct (holder st) eqn:E1; [done|]. destruct H as (u & su & Hu & Eu); [tauto|]. exists u, su.
    rewrite lookup_insert_ne; [done|]. intros ->. congruence.
  - intros u1 u2 s1 s2. destruct (decide (u1 = t)) as [->|H1], (decide (u2 = t)) as [->|H2]; rewrite ?lookup_insert_eq, ?lookup_insert_ne by done; [done| | |eauto].
    + intros [= <-] Hu E1 E2. destruct (holder st) eqn:E0; [by eapply O|]. rewrite E1 in Hh. rewrite (F (proj1 Hh) _ _ Hu) in E2. done.
    + intros Hu [= <-] E2 E1. destruct (holder st) eqn:E0; [by eapply O|]. rewrite E1 in Hh. rewrite (F (proj1 Hh) _ _ Hu) in E2. done.
  - intros u p b. destruct (decide (u = t)) as [->|Hut]; [rewrite lookup_insert_eq|rewrite lookup_insert_ne by done; eauto]. intros [= ->]. eauto.
  - intros u w. destruct (decide (u = t)) as [->|Hut]; [rewrite lookup_insert_eq; intros [= ->]; eauto|rewrite lookup_insert_ne by done].
    intros Hu. destruct Hs as [?|[?|[[E1 E2]|Hs]]]; [|by left| |].
    + right. exists t, st'. by rewrite lookup_insert_eq.
    + destruct (S u w Hu) as [?|(h & sh & Hh' & Eh)]; [auto|]. right. exists h, sh. rewrite lookup_insert_ne; [done|]. intros ->. congruence.
    + destruct (Hs u w Hu) as (h & sh & ? & ? & ?). right. exists h, sh. by rewrite lookup_insert_ne.
Qed.

Lemma awaken1_holder st : holder (awaken1 st) = holder st.
Proof. by destruct st. Qed.
Lemma awaken1_helper st : helper st = true → helper (awaken1 st) = true.
Proof. destruct st as [|[] []]; done. Qed.

Lemma mutex_ok_awaken s ts fx : mutex_ok s → mutex_ok (Build_Sys (s_mem s) fx (awaken ts (s_threads s))).
Proof.
  intros [F H O W S].
  assert (Hup : ∀ u st, s_threads s !! u = Some st → ∃ st', awaken ts (s_threads s) !! u = Some st' ∧ holder st' = holder st ∧ (helper st = true → helper st' = true)).
  { intros u st Hu. rewrite lookup_awaken, Hu. eexists. split; [done|]. case_bool_decide; [|done]. split; [apply awaken1_holder|apply awaken1_helper]. }
  assert (Hdown : ∀ u st, awaken ts (s_threads s) !! u = Some st → ∃ st', s_threads s !! u = Some st' ∧ holder st' = holder st ∧
      (∀ p b, st = Waiting p b → ∃ b', st' = Waiting p b' ∧ (b = true → b' = true))).
  { intros u st. rewrite lookup_awaken. intros (st' & Hu & ->)%fmap_Some. exists st'. split; [done|]. case_bool_decide; [|naive_solver].
    split; [by rewrite awaken1_holder|]. destruct st'; [done|]. intros p' b' [= <- <-]. by eexists. }
  split; simpl.
  - intros E u st (st' & Hu & <- & _)%Hdown. eauto.
  - intros (u & st & Hu & E)%H. destruct (Hup _ _ Hu) as (st' & ? & ? & _). exists u, st'. split; [done|congruence].
  - intros t u s1 s2 (s1' & H1 & <- & _)%Hdown (s2' & H2 & <- & _)%Hdown. eauto.
  - intros t p b (st' & Hu & _ & Hw)%Hdown. destruct (Hw p b eq_refl) as (b' & -> & _). eauto.
  - intros t w (st' & Hu & _ & Hw)%Hdown. destruct (Hw _ _ eq_refl) as (b' & -> & Hb). rewrite Hb in Hu by done.
    destruct (S _ _ Hu) as [?|(h & sh & Hh & E)]; [auto|]. right. destruct (Hup _ _ Hh) as (sh' & ? & _ & ?). exists h, sh'. auto.
Qed.

Ltac change_by Hm Ht :=
  eapply (mutex_ok_change _ _ _ _ _ _ Hm Ht); unfold hold_change, help_change; simpl; [..|done|done].
Ltac change_done := first [tauto|lia|split; lia|right; right; left; split; [done|lia]|destruct_match]
with destruct_match := case_match; simplify_eq/=; change_done.

Lemma mutex_atomic s t p a f v p' fx : mutex_ok s → s_threads s !! t = Some (Run p) → sync_code p = Atomic a f → f (s_mem s a) = (v, p') →
  mutex_ok (Build_Sys (<[a := v]> (s_mem s)) fx (<[t := Run p']> (s_threads s))).
Proof.
  intros Hm Ht Hp Hf. destruct p as [|w|w| | | |o| | |all h|]; simpl in Hp; try done; injection Hp as <- <-; simpl in Hf.
  - destruct (Z.eqb_spec (s_mem s m) 0); injection Hf as <- <-; change_by Hm Ht; rewrite fn_lookup_insert; change_done.
  - destruct (Z.eqb_spec (s_mem s m) 0); injection Hf as <- <-; change_by Hm Ht; rewrite fn_lookup_insert; change_done.
  - injection Hf as <- <-; change_by Hm Ht; rewrite fn_lookup_insert_ne by congruence; change_done.
  - destruct (Z.eqb_spec (s_mem s m) 2); [|destruct o]; injection Hf as <- <-; change_by Hm Ht; rewrite fn_lookup_insert; change_done.
  - destruct h; injection Hf as <- <-; change_by Hm Ht; rewrite fn_lookup_insert_ne by congruence; change_done.
Qed.

(** The mutex's waker hands the rôle of helper to the thread it wakes. *)
Lemma mutex_wake s t p a n p' ts fx : mutex_ok s → s_threads s !! t = Some (Run p) → sync_code p = FWake a n p' →
  (∀ u q, s_threads s !! u = Some (Waiting q true) → (∃ e k, sync_code q = FWait a e k) → 0 < n →
       ∃ u' q' b e' k', u' ∈ ts ∧ s_threads s !! u' = Some (Waiting q' b) ∧ sync_code q' = FWait a e' k') →
  mutex_ok (Build_Sys (s_mem s) fx (<[t := Run p']> (awaken ts (s_threads s)))).
Proof.
  intros Hm Ht Hp Hw. pose proof (mutex_ok_awaken s ts fx Hm) as Hm'.
  assert (Ht' : s_threads (Build_Sys (s_mem s) fx (awaken ts (s_threads s))) !! t = Some (Run p)).
  { simpl. rewrite lookup_awaken, Ht. simpl. by case_bool_decide. }
  destruct p as [| | | | | | |o| | |all h]; simpl in Hp; try done; injection Hp as <- <- <-.
  - eapply (mutex_ok_change _ _ _ _ (s_mem s) fx Hm' Ht'); unfold hold_change, help_change; simpl; [by destruct o| |done|done].
    right. right. right. intros u w Hu. rewrite lookup_awaken in Hu. apply fmap_Some in Hu as (st & Hu & E).
    case_bool_decide; [by destruct st|subst st]. destruct (Hw u _ Hu) as (u' & q' & b & e & k & Hin & Hu' & Hq); [by eexists _, _|lia|].
    exists u', (Waiting q' false). split_and!; [congruence|rewrite lookup_awaken, Hu'; simpl; by rewrite bool_decide_eq_true_2|].
    by destruct (mo_wait _ Hm _ _ _ Hu') as [[w' ->]|[v' ->]]; simpl in Hq; [|congruence].
  - destruct h; eapply (mutex_ok_change _ _ _ _ (s_mem s) fx Hm' Ht'); unfold hold_change, help_change; simpl; auto; done.
Qed.

Lemma mutex_move s s' : mutex_ok s → tmove sync_code s s' → mutex_ok s'.
Proof.
  intros Hm Hv. destruct Hv as [s t p en p' fx Ht Hp He|s t p a f v p' fx Ht Hp Hf|s t p a e k r fx Ht Hp|s t p a e k fx Ht Hp Hv|
      s t p b a e k r fx Ht Hp|s t p a n p' ts fx Ht Hp Hw1 Hw2|s t p fx Ht|s fx].
  - destruct p; simpl in Hp; try done; injection Hp as <-; destruct p'; simpl in He; try done; change_by Hm Ht; change_done.
  - by eapply mutex_atomic.
  - destruct p; simpl in Hp; try done; injection Hp as <- <- <-; change_by Hm Ht; change_done.
  - destruct p; simpl in Hp; try done; injection Hp as <- <- <-; eapply (mutex_ok_change _ _ _ _ _ _ Hm Ht); unfold hold_change, help_change; simpl; auto; naive_solver.
  - destruct p; simpl in Hp; try done; injection Hp as <- <- <-; change_by Hm Ht; change_done.
  - by eapply mutex_wake.
  - pose proof (mo_wait _ Hm _ _ _ Ht) as [[w ->]|[v ->]]; eapply (mutex_ok_change _ _ _ _ _ _ Hm Ht); unfold hold_change, help_change; simpl; auto; naive_solver.
  - by destruct Hm; split.
Qed.

Lemma boot_table n : table_ok (boot_threads n).
Proof.
  split; simpl; [apply NoDup_nil_2| |by intros ? ? _ ?%elem_of_nil].
  by intros t p (u & ? & _)%elem_of_list_to_map_2%list_elem_of_fmap.
Qed.
Lemma boot_idle n t st : s_threads (boot_threads n) !! t = Some st → st = Run Idle.
Proof. by intros (u & [= <- ?] & _)%elem_of_list_to_map_2%list_elem_of_fmap. Qed.
Lemma boot_mutex n : mutex_ok (boot_threads n).
Proof.
  split; simpl; [|done| | |].
  - by intros _ t st ->%boot_idle.
  - by intros t u st st' ->%boot_idle.
  - by intros t p b ?%boot_idle.
  - by intros t w ?%boot_idle.
Qed.

Lemma run_mutex n evs s : trun evs (boot_threads n) = Some s → table_ok s ∧ mutex_ok s.
Proof.
  apply trun_invariant; [apply sync_own_ok|apply sync_wake_ok|apply mutex_move|apply boot_table|apply boot_mutex].
Qed.

(** ** Progress *)
(** Steps of threads inside the library: no new calls, no chance wake-ups. *)
Definition internal (ev : tevent sync_pc) : bool := match ev with EStep _ | ESettle _ false _ => true | _ => false end.
Definition takes (k : nat) (u : nat) (s : Sys sync_pc) : Prop :=
  ∃ evs s' w, length evs = k ∧ forallb internal evs = true ∧ trun evs s = Some s' ∧ s_threads s' !! u = Some (Run (Crit w)).
Lemma takes_step ev k u s s' : internal ev = true → tstep ev s = Some s' → takes k u s' → takes (S k) u s.
Proof. intros Hi Hs (evs & s'' & w & <- & Hf & Hr & Hu). exists (ev :: evs), s'', w. simpl. by rewrite Hi, Hs. Qed.

Lemma takes_lock2 u w s : s_mem s m = 0 → s_threads s !! u = Some (Run (Lock2 w)) → takes 1 u s.
Proof.
  intros Hm Hu. eexists [EStep u], _, w. split_and!; [done|done|simpl; rewrite Hu; unfold run_instr; simpl; by rewrite Hm|simpl].
  by rewrite lookup_insert_eq.
Qed.
Lemma takes_lock1 u w s : s_mem s m = 0 → s_threads s !! u = Some (Run (Lock1 w)) → takes 1 u s.
Proof.
  intros Hm Hu. eexists [EStep u], _, w. split_and!; [done|done|simpl; rewrite Hu; unfold run_instr; simpl; by rewrite Hm|simpl].
  by rewrite lookup_insert_eq.
Qed.
Lemma takes_woken u w s : s_mem s m = 0 → s_threads s !! u = Some (Waiting (LockWait w) false) → takes 2 u s.
Proof.
  intros Hm Hu. destruct (futex_settle false 0 m None u (s_futex s)) as [r fx] eqn:E.
  eapply (takes_step (ESettle u false 0)); [done|simpl; rewrite Hu; simpl; by rewrite E|].
  eapply takes_lock2; [done|simpl; by rewrite lookup_insert_eq].
Qed.
Lemma takes_wait u w s : s_mem s m = 0 → s_threads s !! u = Some (Run (LockWait w)) → takes 2 u s.
Proof.
  intros Hm Hu. eapply (takes_step (EStep u)); [done| |].
  - simpl. rewrite Hu. unfold run_instr. simpl. unfold futex_admit, read_user_futex, validate_user_range, user_mem.
    apply andb_true_iff in m_addr as [-> ->]. rewrite bool_decide_eq_true_2 by done. simpl. rewrite Hm. done.
  - eapply takes_lock2; [done|simpl; by rewrite lookup_insert_eq].
Qed.
Lemma takes_waker h o s t w : table_ok s → mutex_ok s → s_mem s m = 0 → s_threads s !! h = Some (Run (UnlockWake o)) →
  s_threads s !! t = Some (Waiting (LockWait w) true) → ∃ u su, s_threads s !! u = Some su ∧ contends su = true ∧ takes 3 u s.
Proof.
  intros K M Hm Hh Ht. pose proof (wake_released m 1 (s_futex s) (tk_dup _ _ _ K)) as W.
  destruct (tk_asleep _ _ _ K t _ Ht) as (a & e & k & [= <- _ _] & Hr).
  destruct (released_some _ _ _ _ _ t W) as [u Hu]; [lia|done|].
  assert (Hou : sync_own m = true) by (unfold sync_own; by rewrite Z.eqb_refl).
  destruct (tk_reg _ _ _ K m u Hou (proj1 (rel_from _ _ _ _ _ W u Hu))) as (q & b & e' & k' & Hq & Hc).
  destruct (mo_wait _ M _ _ _ Hq) as [[w' ->]|[v ->]]; simpl in Hc; [|congruence].
  exists u, (Waiting (LockWait w') b). split_and!; [done|done|]. eapply (takes_step (EStep h)); [done| |].
  - simpl. rewrite Hh. unfold run_instr. simpl. rewrite release_some; [|done|unfold MAX_FUTEX_WAKE_COUNT; lia].
    change (Z.to_nat 1) with 1%nat. by rewrite (surjective_pairing (wake m 1 (s_futex s))).
  - eapply takes_woken; [done|]. simpl. rewrite lookup_insert_ne by congruence. rewrite lookup_awaken, Hq. simpl. by rewrite bool_decide_eq_true_2.
Qed.

(** C17: Mutual exclusion.  However the threads of a process interleave, with each
    other, with chance wake-ups and with other processes' futex calls on other
    addresses, at most one of them is between [lock] and [unlock], and the mutex's word is 0 exactly when
    none is. *)
Theorem mutex_exclusion n evs s : trun evs (boot_threads n) = Some s →
  (∀ t u st st', s_threads s !! t = Some st → s_threads s !! u = Some st' → holder st = true → holder st' = true → t = u) ∧
  (s_mem s m = 0 ↔ ∀ t st, s_threads s !! t = Some st → holder st = false).
Proof.
  intros [_ M]%run_mutex. split; [apply (mo_one _ M)|]. split; [apply (mo_free _ M)|]. intros H.
  destruct (decide (s_mem s m = 0)) as [|Hn]; [done|]. destruct (mo_held _ M Hn) as (t & st & Ht & E). rewrite (H t st Ht) in E. done.
Qed.

(** C18: No lost wake-up.  In every reachable state in which the mutex is free and
    a thread is inside [lock], asleep or not, at most three steps of threads that
    are already inside the library give the mutex to such a thread: none is left
    asleep on a free mutex with nobody about to wake it.  The other processes of the
    run use other futex addresses ([foreign_ok]): the kernel keys the sleepers by
    address alone, so that one that uses the same address can take the wake-up. *)
Theorem mutex_progress n evs s t st : trun evs (boot_threads n) = Some s →
  s_mem s m = 0 → s_threads s !! t = Some st → contends st = true →
  ∃ u su k, s_threads s !! u = Some su ∧ contends su = true ∧ (k ≤ 3)%nat ∧ takes k u s.
Proof.
  intros [K M]%run_mutex Hm Ht Hc.
  assert (Hgo : ∀ u su k, s_threads s !! u = Some su → contends su = true → takes k u s → (k ≤ 3)%nat →
    ∃ u su k, s_threads s !! u = Some su ∧ contends su = true ∧ (k ≤ 3)%nat ∧ takes k u s) by eauto 10.
  destruct st as [[]|[] []]; simpl in Hc; try done.
  - eapply Hgo; [done|done|by eapply takes_lock1|lia].
  - eapply Hgo; [done|done|by eapply takes_lock2|lia].
  - eapply Hgo; [done|done|by eapply takes_wait|lia].
  - destruct (mo_sleep _ M _ _ Ht) as [?|(h & sh & Hh & E)]; [lia|]. destruct sh as [[]|[] []]; simpl in E; try done.
    + eapply Hgo; [done|done|by eapply takes_lock2|lia].
    + eapply Hgo; [done|done|by eapply takes_wait|lia].
    + destruct (takes_waker _ _ _ _ _ K M Hm Hh Ht) as (u & su & Hu & Ec & Hk). by eapply Hgo.
    + eapply Hgo; [done|done|by eapply takes_woken|lia].
  - eapply Hgo; [done|done|by eapply takes_woken|lia].
Qed.

(** ** Condition variables *)
Definition notifying (st : tstate sync_pc) : bool := match st with Run (NotifyWake _ _) => true | _ => false end.
Definition notify_all_only (st : tstate sync_pc) : bool := match st with Run (NotifyAdd false _ | NotifyWake false _) => false | _ => true end.
Record cv_ok (s : Sys sync_pc) : Prop := {
  cv_size : (size (dom (s_threads s)) ≤ 64)%nat;
  cv_all : ∀ t st, s_threads s !! t = Some st → notify_all_only st = true;
  cv_wait : ∀ t p b, s_threads s !! t = Some (Waiting p b) → (∃ w, p = LockWait w) ∨ (∃ v, p = CvWait v);
  cv_seen : ∀ t v, s_threads s !! t = Some (Waiting (CvWait v) true) → s_mem s c = v ∨ ∃ h st, s_threads s !! h = Some st ∧ notifying st = true }.
Hypothesis only_all : one = false.

Lemma cv_ok_change s t st st' mem fx :
  cv_ok s → s_threads s !! t = Some st → notify_all_only st' = true →
  (∀ p b, st' = Waiting p b → (∃ w, p = LockWait w) ∨ ∃ v, p = CvWait v) → (∀ v, st' = Waiting (CvWait v) true → mem c = v) →
  notifying st' = true ∨ (notifying st = false ∧ mem c = s_mem s c) ∨ (∀ u v, s_threads s !! u ≠ Some (Waiting (CvWait v) true)) →
  cv_ok (Build_Sys mem fx (<[t := st']> (s_threads s))).
Proof.
  intros [Z A W S] Ht Ha Hw Hv Hn. split; simpl.
  - by erewrite dom_insert_some.
  - intros u su. destruct (decide (u = t)) as [->|Hut]; [rewrite lookup_insert_eq; by intros [= <-]|rewrite lookup_insert_ne by done; eauto].
  - intros u p b. destruct (decide (u = t)) as [->|Hut]; [rewrite lookup_insert_eq; intros [= ->]; eauto|rewrite lookup_insert_ne by done; eauto].
  - intros u v. destruct (decide (u = t)) as [->|Hut]; [rewrite lookup_insert_eq; intros [= ->]; eauto|rewrite lookup_insert_ne by done].
    intros Hu. destruct Hn as [?|[[E ->]|Hn]]; [right; exists t, st'; by rewrite lookup_insert_eq| |by destruct (Hn u v)].
    destruct (S u v Hu) as [?|(h & sh & ? & ?)]; [auto|]. right. exists h, sh. rewrite lookup_insert_ne; [done|]. intros ->. congruence.
Qed.

Lemma cv_ok_awaken s ts fx : cv_ok s → cv_ok (Build_Sys (s_mem s) fx (awaken ts (s_threads s))).
Proof.
  intros [Z A W S]. split; simpl; [by rewrite dom_awaken|..].
  - intros t st. rewrite lookup_awaken. intros (st' & Hu & ->)%fmap_Some. case_bool_decide; [|eauto]. by destruct st' as [q|q b]; [apply (A t (Run q))|].
  - intros t p b. rewrite lookup_awaken. intros (st' & Hu & E)%fmap_Some. case_bool_decide; [|subst; eauto]. destruct st'; [done|]. injection E as -> _. eauto.
  - intros t v. rewrite lookup_awaken. intros (st' & Hu & E)%fmap_Some. case_bool_decide; [by destruct st'|subst st'].
    destruct (S t v Hu) as [?|(h & sh & Hh & En)]; [auto|]. right. exists h, sh. rewrite lookup_awaken, Hh. destruct sh; [|done]. simpl. by case_bool_decide.
Qed.

Lemma cv_atomic s t p a f v p' fx : cv_ok s → s_threads s !! t = Some (Run p) → sync_code p = Atomic a f → f (s_mem s a) = (v, p') →
  cv_ok (Build_Sys (<[a := v]> (s_mem s)) fx (<[t := Run p']> (s_threads s))).
Proof.
  intros C Ht Hp Hf. destruct p as [|w|w| | | |o| | |all h|]; simpl in Hp; try done; injection Hp as <- <-; simpl in Hf.
  - destruct (s_mem s m =? 0); injection Hf as <- <-; eapply (cv_ok_change _ _ _ _ _ _ C Ht); try done; right; left; by rewrite fn_lookup_insert_ne.
  - injection Hf as <- <-. eapply (cv_ok_change _ _ _ _ _ _ C Ht); [by destruct (_ =? _)|done|done|]; right; left; by rewrite fn_lookup_insert_ne.
  - injection Hf as <- <-. eapply (cv_ok_change _ _ _ _ _ _ C Ht); try done; right; left. by rewrite fn_lookup_insert.
  - injection Hf as <- <-. eapply (cv_ok_change _ _ _ _ _ _ C Ht); [by destruct (_ =? _), o|done|done|]; right; left; by rewrite fn_lookup_insert_ne.
  - injection Hf as <- <-. pose proof (cv_all _ C _ _ Ht). eapply (cv_ok_change _ _ _ _ _ _ C Ht); [done|done|done|by left].
Qed.

Lemma cv_wake s t p a n p' ts fx : cv_ok s → s_threads s !! t = Some (Run p) → sync_code p = FWake a n p' →
  (Z.of_nat (size (dom (s_threads s))) ≤ n → ∀ u q, s_threads s !! u = Some (Waiting q true) → (∃ e k, sync_code q = FWait a e k) → u ∈ ts) →
  cv_ok (Build_Sys (s_mem s) fx (<[t := Run p']> (awaken ts (s_threads s)))).
Proof.
  intros C Ht Hp Hw. pose proof (cv_ok_awaken s ts fx C) as C'.
  assert (Ht' : s_threads (Build_Sys (s_mem s) fx (awaken ts (s_threads s))) !! t = Some (Run p)).
  { simpl. rewrite lookup_awaken, Ht. simpl. by case_bool_decide. }
  pose proof (cv_all _ C _ _ Ht) as Ha.
  destruct p as [| | | | | | |o| | |all h]; simpl in Hp; try done; injection Hp as <- <- <-.
  - eapply (cv_ok_change _ _ _ _ (s_mem s) fx C' Ht'); [by destruct o|done|done|auto].
  - destruct all; [|done]. eapply (cv_ok_change _ _ _ _ (s_mem s) fx C' Ht'); [by destruct h|done|done|]. right. right.
    intros u v. simpl. rewrite lookup_awaken. intros (st & Hu & E)%fmap_Some. case_bool_decide as Hin; [by destruct st|subst st].
    destruct Hin. eapply Hw; [|done|by eexists _, _]. pose proof (cv_size _ C). lia.
Qed.

Lemma cv_move s s' : cv_ok s → tmove sync_code s s' → cv_ok s'.
Proof.
  intros C Hv. destruct Hv as [s t p en p' fx Ht Hp He|s t p a f v p' fx Ht Hp Hf|s t p a e k r fx Ht Hp|s t p a e k fx Ht Hp Hv|
      s t p b a e k r fx Ht Hp|s t p a n p' ts fx Ht Hp Hw1 Hw2|s t p fx Ht|s fx].
  - eapply (cv_ok_change _ _ _ _ _ _ C Ht); [|done|done|]; destruct p; simpl in Hp; try done; injection Hp as <-; auto;
      destruct p' as [| | | | | | | | |[]|[]]; simpl in He; rewrite ?only_all in He; done.
  - by eapply cv_atomic.
  - destruct p; simpl in Hp; try done; injection Hp as <- <- <-; eapply (cv_ok_change _ _ _ _ _ _ C Ht); auto; done.
  - destruct p; simpl in Hp; try done; injection Hp as <- <- <-; eapply (cv_ok_change _ _ _ _ _ _ C Ht); auto; naive_solver.
  - destruct p; simpl in Hp; try done; injection Hp as <- <- <-; eapply (cv_ok_change _ _ _ _ _ _ C Ht); auto; done.
  - by eapply cv_wake.
  - pose proof (cv_wait _ C _ _ _ Ht) as Hw. eapply (cv_ok_change _ _ _ _ _ _ C Ht); auto; naive_solver.
  - by destruct C; split.
Qed.

(** C19: No lost notification.  Where the clients notify with [notify_all], and the
    process has at most 64 threads (the number of tasks the kernel admits), a
    thread asleep in [PThreadCondvar::wait] in a reachable state has seen the
    latest value of the sequence number, so no [notify_all] has been missed, or a
    notifier is about to wake it.  Clients that call [notify_one] are not covered
    ([only_all]), nor other processes that use the same futex address
    ([foreign_ok]). *)
Theorem condvar_no_lost_notify n evs s t v : (n ≤ 64)%nat → trun evs (boot_threads n) = Some s →
  s_threads s !! t = Some (Waiting (CvWait v) true) →
  s_mem s c = v ∨ ∃ h held, s_threads s !! h = Some (Run (NotifyWake true held)).
Proof.
  intros Hn Hr Ht. assert (C0 : cv_ok (boot_threads n)).
  { split; [|by intros ? ? ->%boot_idle|by intros ? ? ? ?%boot_idle|by intros ? ? ?%boot_idle]. simpl.
    rewrite dom_list_to_map_L, <-list_fmap_compose. rewrite size_list_to_set by (apply NoDup_fmap_2, NoDup_seq; intros ? ?; done).
    by rewrite length_fmap, length_seq. }
  eapply trun_invariant in Hr as [_ C]; [|apply sync_own_ok|apply sync_wake_ok|apply cv_move|apply boot_table|done].
  destruct (cv_seen _ C _ _ Ht) as [?|(h & st & Hh & E)]; [auto|right]. pose proof (cv_all _ C _ _ Hh).
  destruct st as [[| | | | | | | | | |[] held]|]; try done. eauto.
Qed.
End Pthread.
