(* ===== verification/Once.v ===== *)
(** * One-time initialisation (userspace/libcool/src/thread.rs)

    [PThreadOnce] as a control-flow graph: [o] is its word.  The initialiser is
    the client's; a word [g] apart from [o] counts how often it ran. *)
From stdpp Require Import gmap functions.
From S2P Require Import Prelude Security Pipe FdTable Process Futex Threads Pthread.

Local Open Scope Z_scope.

Module Once.
Inductive once_pc :=
| Idle
| Load
| Cas
| Init
| Store
| Wake
| Wait
| Done (ok : bool).

Section Once.
Context (o g : Z).

(** [call_once_with]: one turn of its loop. *)
Definition once_code (p : once_pc) : instr once_pc :=
  match p with
  | Idle | Done _ => Client (λ q, match q with Load => true | _ => false end)
  | Load => Atomic o (λ v, (v, if v =? 2 then Done true else if v =? 0 then Cas else if v =? 1 then Wait else Done false))
  | Cas => Atomic o (λ v, if v =? 0 then (1, Init) else (v, Load))
  | Init => Atomic g (λ v, (v + 1, Store))
  | Store => Atomic o (λ _, (2, Wake))
  | Wake => FWake o 64 (Done true)
  | Wait => FWait o 1 (λ r, match futex_wait r with Some Woken | Some Mismatch => Load | _ => Done false end)
  end.
Definition once_own (a : Z) : bool := a =? o.
Definition boot_once (n : nat) : Sys once_pc :=
  Build_Sys (λ _, 0) (s_futex (boot_threads 0)) (list_to_map ((λ t, (t, Run Idle)) <$> seq 0 n)).

(** The thread that won the race, and how far it is. *)
Definition initialising (st : tstate once_pc) : bool := match st with Run (Init | Store) => true | _ => false end.
Definition waking (st : tstate once_pc) : bool := match st with Run Wake => true | _ => false end.
(** What the words are while a thread is in state [st]. *)
Definition once_state (mem : Z → Z) (st : tstate once_pc) : Prop :=
  match st with
  | Run Init => mem o = 1 ∧ mem g = 0
  | Run Store => mem o = 1 ∧ mem g = 1
  | Run Wake | Run (Done true) => mem o = 2
  | Waiting p _ => p = Wait
  | _ => True
  end.
Record once_ok (s : Sys once_pc) : Prop := {
  on_size : (size (dom (s_threads s)) ≤ 64)%nat;
  on_word : (s_mem s o = 0 ∧ s_mem s g = 0) ∨ s_mem s o = 1 ∨ (s_mem s o = 2 ∧ s_mem s g = 1);
  on_state : ∀ t st, s_threads s !! t = Some st → once_state (s_mem s) st;
  on_busy : s_mem s o = 1 → ∃ t st, s_threads s !! t = Some st ∧ initialising st = true;
  on_one : ∀ t u st st', s_threads s !! t = Some st → s_threads s !! u = Some st' → initialising st = true → initialising st' = true → t = u;
  on_sleep : ∀ t, s_threads s !! t = Some (Waiting Wait true) → s_mem s o = 1 ∨ ∃ h st, s_threads s !! h = Some st ∧ waking st = true }.

Hypothesis o_addr : word_addr o = true.
Hypothesis o_g : o ≠ g.

Lemma once_code_own p a e k : once_code p = FWait a e k → once_own a = true.
Proof. destruct p; simpl; intros [= <- <- _]; unfold once_own; by rewrite Z.eqb_refl. Qed.
Lemma once_code_wake p a n k : once_code p = FWake a n k → word_addr a = true ∧ once_own a = true ∧ 0 ≤ n ≤ MAX_FUTEX_WAKE_COUNT.
Proof. destruct p; simpl; intros [= <- <- _]; unfold once_own, MAX_FUTEX_WAKE_COUNT; rewrite Z.eqb_refl; split_and!; [done|done|lia|lia]. Qed.

(** A thread moves that neither starts nor ends an initialisation. *)
Lemma once_quiet s t st st' fx : once_ok s → s_threads s !! t = Some st → initialising st = false → initialising st' = false →
  waking st = false → once_state (s_mem s) st' → (∀ b, st' = Waiting Wait b → b = true → s_mem s o = 1) →
  once_ok (Build_Sys (s_mem s) fx (<[t := st']> (s_threads s))).
Proof.
  intros [Z W S B O P] Ht I1 I2 K Hs Hp. split; simpl.
  - by erewrite dom_insert_some.
  - done.
  - intros u su. destruct (decide (u = t)) as [->|Hut]; [rewrite lookup_insert_eq; by intros [= <-]|rewrite lookup_insert_ne by done; eauto].
  - intros (u & su & Hu & E)%B. exists u, su. rewrite lookup_insert_ne; [done|]. intros ->. congruence.
  - intros u1 u2 s1 s2. destruct (decide (u1 = t)) as [->|H1], (decide (u2 = t)) as [->|H2]; rewrite ?lookup_insert_eq, ?lookup_insert_ne by done;
      [done| | |eauto]; [intros [= <-] _|intros _ [= <-] _]; congruence.
  - intros u. destruct (decide (u = t)) as [->|Hut]; [rewrite lookup_insert_eq; intros [= ->]; left; by eapply Hp|rewrite lookup_insert_ne by done].
    intros [?|(h & sh & Hh & E)]%P; [auto|]. right. exists h, sh. rewrite lookup_insert_ne; [done|]. intros ->. congruence.
Qed.

(** The initialising thread moves, or a thread becomes it. *)
Lemma once_turn s t st st' mem fx : once_ok s → s_threads s !! t = Some st →
  (∀ u su, u ≠ t → s_threads s !! u = Some su → initialising su = false ∧ once_state mem su) → once_state mem st' →
  (mem o = 1 ∧ initialising st' = true) ∨ (mem o = 2 ∧ mem g = 1 ∧ waking st' = true) → (∀ b, st' ≠ Waiting Wait b) →
  once_ok (Build_Sys mem fx (<[t := st']> (s_threads s))).
Proof.
  intros [Z W S B O P] Ht Hu Hs Hc Hw. split; simpl.
  - by erewrite dom_insert_some.
  - lia.
  - intros u su. destruct (decide (u = t)) as [->|Hut]; [rewrite lookup_insert_eq; by intros [= <-]|rewrite lookup_insert_ne by done].
    intros H. by apply (Hu u su).
  - intros Ho. exists t, st'. rewrite lookup_insert_eq. split; [done|]. destruct Hc as [[_ ?]|[? _]]; [done|lia].
  - intros u1 u2 s1 s2. destruct (decide (u1 = t)) as [->|H1], (decide (u2 = t)) as [->|H2]; rewrite ?lookup_insert_eq, ?lookup_insert_ne by done;
      [done|intros _ H|intros H|intros H _]; apply Hu in H as [? _]; [congruence|done|congruence|done|congruence|done].
  - intros u. destruct (decide (u = t)) as [->|Hut]; [rewrite lookup_insert_eq; intros [= ->]; by destruct (Hw true)|].
    intros _. destruct Hc as [[? _]|(_ & _ & ?)]; [auto|]. right. exists t, st'. by rewrite lookup_insert_eq.
Qed.

(** While a thread initialises, or none has begun, no other thread is doing so,
    and the others do not mind the word's going on. *)
Lemma once_others s t st mem : once_ok s → s_threads s !! t = Some st → initialising st = true ∨ s_mem s o = 0 →
  s_mem s o ≠ 2 ∨ mem o = 2 →
  ∀ u su, u ≠ t → s_threads s !! u = Some su → initialising su = false ∧ once_state mem su.
Proof.
  intros K Ht Hi Hm u su Hut Hu. pose proof (on_state _ K _ _ Hu) as H.
  assert (Hn : initialising su = false).
  { destruct (initialising su) eqn:E; [|done]. destruct Hi as [Hi|Hi]; [by destruct (Hut (on_one _ K _ _ _ _ Hu Ht E Hi))|].
    destruct su as [[]|]; simpl in *; try done; lia. }
  split; [done|]. destruct su as [[| | | | | | |[]]|]; simpl in *; try done; lia.
Qed.

(** A read leaves the words as they are. *)
Lemma once_reread s t st st' fx : once_ok s → s_threads s !! t = Some st → initialising st = false → initialising st' = false →
  waking st = false → once_state (s_mem s) st' → (∀ b, st' = Waiting Wait b → b = true → s_mem s o = 1) →
  once_ok (Build_Sys (<[o := s_mem s o]> (s_mem s)) fx (<[t := st']> (s_threads s))).
Proof.
  intros K Ht H1 H2 H3 H4 H5. pose proof (once_quiet s t _ st' fx K Ht H1 H2 H3 H4 H5) as [? ? S ? ? ?]. simpl in *.
  assert (E : ∀ b, (<[o := s_mem s o]> (s_mem s)) b = s_mem s b).
  { intros b. destruct (decide (b = o)) as [->|]; [by rewrite fn_lookup_insert|by rewrite fn_lookup_insert_ne]. }
  split; simpl; rewrite ?E; try done. intros u su Hu. specialize (S u su Hu). unfold once_state in *. by rewrite !E.
Qed.

Lemma once_atomic s t p a f v p' fx : once_ok s → s_threads s !! t = Some (Run p) → once_code p = Atomic a f → f (s_mem s a) = (v, p') →
  once_ok (Build_Sys (<[a := v]> (s_mem s)) fx (<[t := Run p']> (s_threads s))).
Proof.
  intros K Ht Hp Hf. pose proof (on_state _ K _ _ Ht) as Hs.
  assert (Hq := λ p'', once_reread s t (Run p) (Run p'') fx K Ht).
  destruct p; simpl in Hp; try done; injection Hp as <- <-; simpl in Hf.
  - injection Hf as <- <-. destruct (Z.eqb_spec (s_mem s o) 2); [by apply Hq|]. destruct (_ =? 0); [by apply Hq|]. destruct (_ =? 1); by apply Hq.
  - destruct (Z.eqb_spec (s_mem s o) 0) as [E|]; injection Hf as <- <-; [|by apply Hq].
    assert (g0 : s_mem s g = 0) by (destruct (on_word _ K); lia).
    eapply (once_turn _ _ _ _ _ _ K Ht); simpl; rewrite ?fn_lookup_insert, ?fn_lookup_insert_ne by done; [|done|auto|done].
    apply (once_others _ _ _ _ K Ht); [by right|lia].
  - destruct Hs as [Ho Hg]. injection Hf as <- <-. eapply (once_turn _ _ _ _ _ _ K Ht); simpl; rewrite ?fn_lookup_insert, ?fn_lookup_insert_ne by done; [|lia|auto|done].
    apply (once_others _ _ _ _ K Ht); [by left|rewrite fn_lookup_insert_ne by done; lia].
  - destruct Hs as [Ho Hg]. injection Hf as <- <-. eapply (once_turn _ _ _ _ _ _ K Ht); simpl; rewrite ?fn_lookup_insert, ?fn_lookup_insert_ne by done; [|lia|auto|done].
    apply (once_others _ _ _ _ K Ht); [by left|lia].
Qed.

Lemma once_awaken s ts fx : once_ok s → once_ok (Build_Sys (s_mem s) fx (awaken ts (s_threads s))).
Proof.
  intros [Z W S B O P].
  assert (Hup : ∀ u st, s_threads s !! u = Some st → ∃ st', awaken ts (s_threads s) !! u = Some st' ∧ initialising st' = initialising st ∧ waking st' = waking st).
  { intros u st Hu. rewrite lookup_awaken, Hu. eexists. split; [done|]. case_bool_decide; [by destruct st|done]. }
  assert (Hdown : ∀ u st, awaken ts (s_threads s) !! u = Some st → ∃ st', s_threads s !! u = Some st' ∧ initialising st' = initialising st ∧
      (once_state (s_mem s) st' → once_state (s_mem s) st) ∧ (st = Waiting Wait true → st' = st)).
  { intros u st. rewrite lookup_awaken. intros (st' & Hu & ->)%fmap_Some. exists st'. split; [done|]. case_bool_decide; [by destruct st'|done]. }
  split; simpl; [by rewrite dom_awaken|done|..].
  - intros u st (st' & Hu & _ & H & _)%Hdown. eauto.
  - intros (u & st & Hu & E)%B. destruct (Hup _ _ Hu) as (st' & ? & ? & _). exists u, st'. split; [done|congruence].
  - intros t u s1 s2 (s1' & H1 & <- & _)%Hdown (s2' & H2 & <- & _)%Hdown. eauto.
  - intros t (st' & Hu & _ & _ & E)%Hdown. rewrite E in Hu by done. apply P in Hu as [?|(h & sh & Hh & ?)]; [auto|].
    right. destruct (Hup _ _ Hh) as (sh' & ? & _ & ?). exists h, sh'. split; [done|congruence].
Qed.

Lemma once_wake s t p a n p' ts fx : once_ok s → s_threads s !! t = Some (Run p) → once_code p = FWake a n p' →
  (Z.of_nat (size (dom (s_threads s))) ≤ n → ∀ u q, s_threads s !! u = Some (Waiting q true) → (∃ e k, once_code q = FWait a e k) → u ∈ ts) →
  once_ok (Build_Sys (s_mem s) fx (<[t := Run p']> (awaken ts (s_threads s)))).
Proof.
  intros K Ht Hp Hw. destruct p; simpl in Hp; try done; injection Hp as <- <- <-. pose proof (on_state _ K _ _ Ht) as Ho. simpl in Ho.
  assert (Hns : ∀ u, awaken ts (s_threads s) !! u ≠ Some (Waiting Wait true)).
  { intros u. rewrite lookup_awaken. intros (st & Hu & E)%fmap_Some. case_bool_decide as Hin; [by destruct st|subst st].
    destruct Hin. eapply Hw; [|done|by eexists _, _]. pose proof (on_size _ K). lia. }
  destruct (once_awaken s ts fx K) as [Z W S B O P]. simpl in *.
  assert (Ht' : awaken ts (s_threads s) !! t = Some (Run Wake)) by (rewrite lookup_awaken, Ht; simpl; by case_bool_decide).
  split; simpl.
  - by erewrite dom_insert_some.
  - done.
  - intros u su. destruct (decide (u = t)) as [->|Hut]; [rewrite lookup_insert_eq; by intros [= <-]|rewrite lookup_insert_ne by done; eauto].
  - lia.
  - intros u1 u2 s1 s2. destruct (decide (u1 = t)) as [->|H1], (decide (u2 = t)) as [->|H2]; rewrite ?lookup_insert_eq, ?lookup_insert_ne by done;
      [done| | |eauto]; [intros [= <-] _|intros _ [= <-] _]; done.
  - intros u. destruct (decide (u = t)) as [->|Hut]; [by rewrite lookup_insert_eq|rewrite lookup_insert_ne by done]. by intros ?%Hns.
Qed.

Lemma once_move s s' : once_ok s → tmove once_code s s' → once_ok s'.
Proof.
  intros K Hv. destruct Hv as [s t p en p' fx Ht Hp He|s t p a f v p' fx Ht Hp Hf|s t p a e k r fx Ht Hp|s t p a e k fx Ht Hp Hv|
      s t p b a e k r fx Ht Hp|s t p a n p' ts fx Ht Hp Hw1 Hw2|s t p fx Ht|s fx].
  - destruct p; simpl in Hp; try done; injection Hp as <-; destruct p'; try done; by eapply once_quiet.
  - by eapply once_atomic.
  - destruct p; simpl in Hp; try done; injection Hp as <- <- <-. eapply once_quiet; eauto; by destruct (futex_wait r) as [[]|].
  - destruct p; simpl in Hp; try done; injection Hp as <- <- <-. by eapply once_quiet.
  - destruct p; simpl in Hp; try done; injection Hp as <- <- <-. eapply once_quiet; eauto; by destruct (futex_wait r) as [[]|].
  - by eapply once_wake.
  - pose proof (on_state _ K _ _ Ht) as E. simpl in E. subst p. eapply once_quiet; eauto; [done|]. by intros b [= <-].
  - by destruct K; split.
Qed.
Lemma once_boot_idle n t st : s_threads (boot_once n) !! t = Some st → st = Run Idle.
Proof. by intros (u & [= <- ?] & _)%elem_of_list_to_map_2%list_elem_of_fmap. Qed.
Lemma run_once n evs s : (n ≤ 64)%nat → trun once_code once_own evs (boot_once n) = Some s → once_ok s.
Proof.
  intros Hn Hr. eapply (trun_invariant once_code once_own once_code_own once_code_wake once_ok) in Hr as [_ K]; [done|apply once_move| |].
  - split; [apply NoDup_nil_2|by intros t p ?%once_boot_idle|by intros ? ? _ ?%elem_of_nil].
  - split; [|by left|by intros ? ? ->%once_boot_idle|done|by intros ? ? ? ? ->%once_boot_idle|by intros ? ?%once_boot_idle].
    simpl. rewrite dom_list_to_map_L, <-list_fmap_compose. rewrite size_list_to_set by (apply NoDup_fmap_2, NoDup_seq; intros ? ?; done).
    by rewrite length_fmap, length_seq.
Qed.

(** C20: Initialisation happens once.  In every interleaving of at most 64 threads
    (the number of tasks the kernel admits) calling [call_once], the initialiser
    runs at most once; a call that has returned [Ok] did so after the initialiser
    ran; and a thread asleep waiting for it has another thread, awake, that is
    initialising or about to wake every sleeper. *)
Theorem once_initialises n evs s : (n ≤ 64)%nat → trun once_code once_own evs (boot_once n) = Some s →
  0 ≤ s_mem s g ≤ 1 ∧
  (∀ t, s_threads s !! t = Some (Run (Done true)) → s_mem s g = 1) ∧
  (∀ t, sleeps t s → ∃ h st, s_threads s !! h = Some st ∧ (initialising st || waking st) = true).
Proof.
  intros Hn K%run_once; [|done]. split; [|split].
  - destruct (on_word _ K) as [?|[Ho|?]]; [lia| |lia]. destruct (on_busy _ K Ho) as (t & st & Ht & E).
    pose proof (on_state _ K _ _ Ht). destruct st as [[]|]; simpl in *; try done; lia.
  - intros t Ht%(on_state _ K). simpl in Ht. destruct (on_word _ K); lia.
  - intros t [p Ht]. pose proof (on_state _ K _ _ Ht) as E. simpl in E. subst p. destruct (on_sleep _ K _ Ht) as [Ho|(h & st & ? & E)].
    + destruct (on_busy _ K Ho) as (h & st & ? & E). exists h, st. by rewrite E.
    + exists h, st. by rewrite E, orb_true_r.
Qed.
End Once.
End Once.
