(* ===== verification/PthreadCases.v ===== *)
(** * Runs of the thread library

    Concrete interleavings on which the theorems of [Pthread] and [Once] apply, and
    one where two processes use the same address. *)
From stdpp Require Import gmap functions.
From S2P Require Import Prelude Security Pipe FdTable Process Futex Threads Pthread Once.

Local Open Scope Z_scope.

Definition m0 : Z := 0x600000.
Definition c0 : Z := 0x600008.

(** Thread 0 takes the mutex; thread 1 finds it taken and falls asleep. *)
Definition contended : list (tevent sync_pc) :=
  [ECall 0 (Lock1 0); EStep 0; ECall 1 (Lock1 0); EStep 1; EStep 1; EStep 1].
(** Thread 0 then unlocks, up to its call of [futex_wake]. *)
Definition unlocking : list (tevent sync_pc) := contended ++ [ECall 0 (Unlock None); EStep 0].

Lemma mutex_exclusion_witness :
  match trun (sync_code m0 c0 true) (sync_own m0 c0) contended (boot_threads 2) with
  | Some s => s_mem s m0 = 2 ∧ s_threads s !! 0%nat = Some (Run (Crit 0)) ∧ s_threads s !! 1%nat = Some (Waiting (LockWait 0) true) ∧
      (∀ t u st st', s_threads s !! t = Some st → s_threads s !! u = Some st' → holder st = true → holder st' = true → t = u)
  | None => False
  end.
Proof.
  destruct (trun (sync_code m0 c0 true) (sync_own m0 c0) contended (boot_threads 2)) as [s|] eqn:E; [|by vm_compute in E].
  pose proof (mutex_exclusion m0 c0 true eq_refl eq_refl ltac:(done) 2 contended s E) as [H _].
  split_and!; [..|exact H]; apply (f_equal (λ o, o ≫= λ s, Some (s_mem s m0, s_threads s !! 0%nat, s_threads s !! 1%nat))) in E;
    vm_compute in E; injection E as E1 E2 E3; by symmetry.
Defined.

Lemma mutex_progress_witness :
  match trun (sync_code m0 c0 true) (sync_own m0 c0) unlocking (boot_threads 2) with
  | Some s => s_mem s m0 = 0 ∧ s_threads s !! 1%nat = Some (Waiting (LockWait 0) true) ∧
      ∃ u su k, s_threads s !! u = Some su ∧ contends su = true ∧ (k ≤ 3)%nat ∧ takes m0 c0 true k u s
  | None => False
  end.
Proof.
  destruct (trun (sync_code m0 c0 true) (sync_own m0 c0) unlocking (boot_threads 2)) as [s|] eqn:E; [|by vm_compute in E].
  assert (Hm : s_mem s m0 = 0 ∧ s_threads s !! 1%nat = Some (Waiting (LockWait 0) true)).
  { apply (f_equal (λ o, o ≫= λ s, Some (s_mem s m0, s_threads s !! 1%nat))) in E. vm_compute in E. injection E as E1 E2. split; by symmetry. }
  destruct Hm as [Hm Ht]. split_and!; [done|done|].
  exact (mutex_progress m0 c0 true eq_refl eq_refl ltac:(done) 2 unlocking s 1 _ E Hm Ht eq_refl).
Defined.

(** Thread 1 waits on the condition; thread 0 has notified all but not yet woken. *)
Definition waiting_cv : list (tevent sync_pc) :=
  [ECall 1 (Lock1 0); EStep 1; ECall 1 CvLoad; EStep 1; EStep 1; EStep 1; ECall 0 (NotifyAdd true false); EStep 0].
Lemma condvar_no_lost_notify_witness :
  match trun (sync_code m0 c0 false) (sync_own m0 c0) waiting_cv (boot_threads 2) with
  | Some s => s_threads s !! 1%nat = Some (Waiting (CvWait 0) true) ∧ s_mem s c0 = 1 ∧
      (s_mem s c0 = 0 ∨ ∃ h held, s_threads s !! h = Some (Run (NotifyWake true held)))
  | None => False
  end.
Proof.
  destruct (trun (sync_code m0 c0 false) (sync_own m0 c0) waiting_cv (boot_threads 2)) as [s|] eqn:E; [|by vm_compute in E].
  assert (Ht : s_threads s !! 1%nat = Some (Waiting (CvWait 0) true) ∧ s_mem s c0 = 1).
  { apply (f_equal (λ o, o ≫= λ s, Some (s_mem s c0, s_threads s !! 1%nat))) in E. vm_compute in E. injection E as E1 E2. split; by symmetry. }
  destruct Ht as [Ht Hc]. split_and!; [done|done|].
  exact (condvar_no_lost_notify m0 c0 false eq_refl eq_refl ltac:(done) eq_refl 2 waiting_cv s 1 0 ltac:(lia) E Ht).
Defined.

(** Thread 1 sleeps while thread 0 initialises. *)
Definition once_race : list (tevent Once.once_pc) :=
  [ECall 0 Once.Load; EStep 0; EStep 0; ECall 1 Once.Load; EStep 1; EStep 1; EStep 0; EStep 0; EStep 0; ESettle 1 false 0; EStep 1].
Lemma once_initialises_witness :
  match trun (Once.once_code m0 c0) (Once.once_own m0) once_race (Once.boot_once 2) with
  | Some s => s_threads s !! 0%nat = Some (Run (Once.Done true)) ∧ s_threads s !! 1%nat = Some (Run (Once.Done true)) ∧ s_mem s c0 = 1
  | None => False
  end.
Proof.
  destruct (trun (Once.once_code m0 c0) (Once.once_own m0) once_race (Once.boot_once 2)) as [s|] eqn:E; [|by vm_compute in E].
  assert (Ht : s_threads s !! 0%nat = Some (Run (Once.Done true)) ∧ s_threads s !! 1%nat = Some (Run (Once.Done true))).
  { apply (f_equal (λ o, o ≫= λ s, Some (s_threads s !! 0%nat, s_threads s !! 1%nat))) in E. vm_compute in E. injection E as E1 E2. split; by symmetry. }
  destruct Ht as [H0 H1]. split_and!; [done|done|].
  destruct (Once.once_initialises m0 c0 eq_refl ltac:(done) 2 once_race s ltac:(lia) E) as (_ & H & _). by apply (H 0%nat).
Defined.

(** A task of another process waits at the same virtual address, before thread 1
    does; when thread 0 unlocks, its one wake-up goes to that task. *)
Definition clash : list (tevent sync_pc) :=
  [ECall 0 (Lock1 0); EStep 0; EOther (ORegister m0 9); ECall 1 (Lock1 0); EStep 1; EStep 1; EStep 1; ECall 0 (Unlock None); EStep 0; EStep 0].

(** The futex table knows an address and a task but no address space.  Where
    another process waits at the same virtual address, [unlock] may wake its task
    instead: thread 1 stays asleep on a mutex that is free and that no thread is
    going to touch. *)
Theorem futex_address_clash :
  match trun (sync_code m0 c0 true) (λ _, false) clash (boot_threads 2) with
  | Some s => s_mem s m0 = 0 ∧ s_threads s !! 0%nat = Some (Run Idle) ∧ s_threads s !! 1%nat = Some (Waiting (LockWait 0) true)
  | None => False
  end.
Proof. vm_compute. done. Qed.
