(* ===== verification/System.v ===== *)
(** * Scheduler and memory together

    The tasks of Process.v over the memory of Vmm.v: creating a task loads a
    program, and when the scheduler loads or frees a page table, CR3 is loaded
    ([switch_to], [switch_to_boot]) or the address space is freed
    ([free_address_space]).  The address spaces that exist are those of the tasks,
    and the running task sees its own memory. *)
From stdpp Require Import gmap functions relations.
From S2P Require Import Prelude UserLayout FrameAlloc Vmm VmmMem VmmInv VmmMap VmmOps VmmAccess VmmSpaces VmmBoot UserMem Mmap MmapOps Elf ElfLoad ElfStack ElfImage VmmRun VmmClaims Security FdTable Process ProcessInv ProcessRun.
Set Warnings "-clear-no-such-hyp".

Local Open Scope Z_scope.

Record Machine := { m_kernel : Kernel; m_sys : Sys }.
Definition m_vmm (m : Machine) : Vmm := sy_v (m_sys m).
Definition spaces (v : Vmm) : gset Z := list_to_set (map as_pml4 (v_spaces v)).

(** The step is none of creating, freeing and switching address spaces. *)
Definition same_spaces (v v' : Vmm) : Prop := spaces v' = spaces v ∧ v_cr3 v' = v_cr3 v ∧ v_boot v' = v_boot v.

Section System.
(** The stack for interrupts of tasks without one of their own. *)
Context (dps : Z).

(** What the scheduler does to the memory in one operation: the page table of the
    task that runs now, then the page tables it frees. *)
Definition load_cr3 (k : Kernel) (v : Vmm) : Vmm := match cpu_cr3 (k_cpu k) with Some p => switch_to p v | None => switch_to_boot v end.
Definition settle (op : kop) (k : Kernel) (v : Vmm) : Vmm := fold_left (λ v p, free_address_space p v) (freed_by dps op k) (load_cr3 (kexec dps op k) v).
Definition advance (op : kop) (v : Vmm) (m : Machine) : Machine :=
  {| m_kernel := kexec dps op (m_kernel m); m_sys := set_v (settle op (m_kernel m) v) (m_sys m) |}.

Context {MP : Mapper} {MS : MapperSpec} (Q : Z → Prop).

Inductive mstep (m : Machine) : Machine → Prop :=
| ms_kernel op : new_space op = [] → kenabled op (m_kernel m) (spaces (m_vmm m)) → space_safe op (m_kernel m) → mstep m (advance op (m_vmm m) m)
| ms_spawn path args image li v sel alloc ic nm fds creds : image_safe Q image → args_ok (path :: args) →
    load_image path args image (m_vmm m) = (Ok li, v) → alloc_ok alloc (m_kernel m) →
    mstep m (advance (KSpawn sel alloc ic nm (li_entry li) (li_user_rsp li) (li_pml4 li) fds creds) v m)
| ms_exec path image li v : image_safe Q image → args_ok [path] → load_image path [] image (m_vmm m) = (Ok li, v) →
    is_Some (current_task (m_kernel m) ≫= t_pml4) → exec_alone (KExec (li_pml4 li)) (m_kernel m) →
    mstep m (advance (KExec (li_pml4 li)) v m)
| ms_load_error path args image e v : image_safe Q image → args_ok (path :: args) → load_image path args image (m_vmm m) = (Err e, v) →
    mstep m {| m_kernel := m_kernel m; m_sys := set_v v (m_sys m) |}
| ms_memory s : vstep Q (m_sys m) s → same_spaces (m_vmm m) (sy_v s) → mstep m {| m_kernel := m_kernel m; m_sys := s |}.

(** The page tables are those of the tasks, and CR3 is that of the running one. *)
Record mach_ok (all : list Z) (m : Machine) (g : ghost) : Prop := {
  mo_sched : sched_ok dps (m_kernel m);
  mo_sys : sys_inv Q all (m_sys m) g;
  mo_spaces : ∀ p, live p (m_vmm m) ↔ live_space (k_tasks (m_kernel m)) p;
  mo_cr3 : v_cr3 (m_vmm m) = default (page_down (v_boot (m_vmm m))) (cpu_cr3 (k_cpu (m_kernel m))) }.

Lemma elem_of_spaces p v : p ∈ spaces v ↔ live p v.
Proof.
  unfold spaces, live. rewrite elem_of_list_to_set, list_elem_of_fmap. split; intros (s & H1 & H2); exists s; by split.
Qed.
Lemma current_space k p : sched_ok dps k → cpu_cr3 (k_cpu k) = Some p → live_space (k_tasks k) p.
Proof.
  intros Hok Hc. destruct (so_current _ _ Hok) as (t & Ht & Hr & E). rewrite E in Hc. exists (k_current k), t. split; [done|]. by apply uses_space_spec.
Qed.

(** Freeing a list of spaces that are not in use. *)
Lemma free_spaces all s g ps : sys_inv Q all s g → NoDup ps → (∀ p, p ∈ ps → live p (sy_v s) ∧ p ≠ v_cr3 (sy_v s)) →
  let v := fold_left (λ v p, free_address_space p v) ps (sy_v s) in
  ∃ g', sys_inv Q all (set_v v s) g' ∧ v_cr3 v = v_cr3 (sy_v s) ∧ v_boot v = v_boot (sy_v s) ∧ ∀ q, live q v ↔ live q (sy_v s) ∧ q ∉ ps.
Proof.
  revert s g. induction ps as [|p ps IH]; intros s g I N Hp; cbn zeta; cbn [fold_left].
  - exists g. split_and!; [by destruct I, s|done|done|]. intros q. split; [intros HL; split; [done|apply not_elem_of_nil]|by intros [? _]].
  - apply NoDup_cons in N as [Hn N]. destruct (Hp p ltac:(left)) as [HL Hc]. destruct (inv_free Q all s g p I) as (g1 & I1).
    destruct (free_address_space_ok (sy_v s) g p (si_ok _ _ _ _ I) HL (not_eq_sym Hc)) as (x & a' & Hx & Ex & HPm & Ef & _ & H1). set (v1 := free_address_space p (sy_v s)) in *.
    assert (HL1 : ∀ q, live q v1 ↔ live q (sy_v s) ∧ q ≠ p).
    { intros q. split.
      - intros HLq. split.
        + destruct HLq as (y & Hy & Ey). exists y. split; [|done]. rewrite HPm. by right.
        + intros ->. pose proof (live_root v1 (without p g) p H1 HLq) as Ho. by apply without_own in Ho as [_ ?].
      - intros [(y & Hy & Ey) Hq]. exists y. split; [|done]. rewrite HPm in Hy. apply elem_of_cons in Hy as [->|?]; [congruence|done]. }
    assert (Er : v_cr3 v1 = v_cr3 (sy_v s) ∧ v_boot v1 = v_boot (sy_v s)) by (by rewrite Ef). destruct Er as [Ec Eb].
    destruct (IH (set_v v1 s) g1 I1 N) as (g2 & I2 & E1 & E2 & HL2).
    { intros q Hq. cbn [sy_v set_v]. rewrite HL1, Ec. destruct (Hp q ltac:(by right)) as [? ?]. split_and!; [done| |done]. intros ->. done. }
    cbn [sy_v set_v] in *. exists g2. split_and!; [by destruct s|congruence|congruence|]. intros q. rewrite HL2, HL1, not_elem_of_cons. tauto.
Qed.
Lemma live_not_boot v g p : vmm_ok v g → live p v → p ≠ page_down (v_boot v).
Proof.
  intros H (x & Hx & <-) E. assert (Hb : is_at v g (as_pml4 x) Boot) by (by apply is_at_spec).
  assert (Hr : is_at v g (as_pml4 x) (Root (as_pml4 x))) by (apply is_at_spec; eauto). by pose proof (is_at_unique _ _ _ _ _ H Hb Hr).
Qed.
Lemma load_cr3_ok all s g k : sys_inv Q all s g → (∀ p, cpu_cr3 (k_cpu k) = Some p → live p (sy_v s)) →
  let v := load_cr3 k (sy_v s) in sys_inv Q all (set_v v s) g ∧ v_spaces v = v_spaces (sy_v s) ∧ v_boot v = v_boot (sy_v s) ∧
    v_cr3 v = default (page_down (v_boot v)) (cpu_cr3 (k_cpu k)).
Proof.
  intros I Hc. unfold load_cr3, switch_to_boot. destruct (cpu_cr3 (k_cpu k)) as [p|]; (split; [apply inv_switch; [done|auto]|done]).
Qed.

(** One operation of the scheduler with its effect on the memory. *)
Lemma advance_ok all m g op v g1 : mach_ok all m g → sys_inv Q all (set_v v (m_sys m)) g1 →
  (∀ q, live q v ↔ live_space (k_tasks (m_kernel m)) q ∨ q ∈ new_space op) →
  kenabled op (m_kernel m) (spaces (m_vmm m)) → space_safe op (m_kernel m) → ∃ g', mach_ok all (advance op v m) g'.
Proof.
  intros [Hok I HS _] I1 HL Hen Ha. set (k := m_kernel m) in *.
  assert (How : ∀ q, q ∈ spaces (m_vmm m) ↔ live_space (k_tasks k) q) by (intros q; by rewrite elem_of_spaces, HS).
  pose proof (kexec_ok dps op k _ Hok Hen) as Hok'. destruct (kexec_space dps op k _ Hok Hen Ha How) as [ps Hsp].
  destruct (owned_after_spec dps op k _ ps How Hsp) as [Hfr _]. destruct Hsp as [_ Hl Hu Hn]. set (k' := kexec dps op k) in *.
  destruct (load_cr3_ok all (set_v v (m_sys m)) g1 k' I1) as (I2 & E1 & E2 & E3).
  { intros p Hp. cbn [sy_v set_v]. apply HL, Hl. left. by apply (current_space k'). }
  cbn [sy_v set_v] in *. set (v2 := load_cr3 k' v) in *. assert (HL2 : ∀ q, live q v2 ↔ live q v) by (intros q; unfold live; by rewrite E1).
  destruct (free_spaces all (set_v v2 (m_sys m)) g1 ps I2 Hn) as (g3 & I3 & E4 & E5 & HL3).
  { intros p Hp. cbn [sy_v set_v]. assert (HLp : live p v2) by (apply HL2, HL, Hl; auto). split; [done|]. rewrite E3.
    destruct (cpu_cr3 (k_cpu k')) as [c|] eqn:Ec; simpl; [|eapply live_not_boot; [apply (si_ok _ _ _ _ I2)|done]].
    intros ->. apply (Hu c Hp). by apply (current_space k'). }
  cbn [sy_v set_v] in *. exists g3. unfold advance, settle. fold k. rewrite Hfr. fold k' v2. split; cbn [m_kernel m_sys m_vmm sy_v set_v].
  - done.
  - exact I3.
  - intros p. unfold m_vmm. cbn [m_sys sy_v set_v]. rewrite HL3, HL2, HL, Hl. specialize (Hu p). tauto.
  - unfold m_vmm. cbn [m_sys sy_v set_v]. by rewrite E4, E5, E3.
Qed.

Hypothesis Q_wx : ∀ fl, wx_ok fl → Q fl.

Lemma load_spaces all s g path args image li v : sys_inv Q all s g → image_safe Q image → args_ok (path :: args) → load_image path args image (sy_v s) = (Ok li, v) →
  ¬ live (li_pml4 li) (sy_v s) ∧ ∀ q, live q v ↔ live q (sy_v s) ∨ q = li_pml4 li.
Proof.
  intros I HI [Ha1 Ha2] E. destruct (load_image_ok path args image (sy_v s) g (Ok li) v (si_ok _ _ _ _ I) (si_cr3 _ _ _ _ I) (image_safe_ok Q all Q_wx s g image I HI) Ha1 Ha2 E)
    as (g' & h & _ & [_ _ _ (sp & L4 & Lp) L5 _ _ _ _ _] & _). split; [done|]. intros q. unfold live. rewrite L4. setoid_rewrite elem_of_app. setoid_rewrite list_elem_of_singleton. split.
  - intros (x & [Hx| ->] & Ex); [left; eauto|right; congruence].
  - intros [(x & Hx & Ex)| ->]; [exists x; auto|exists sp; auto].
Qed.

Lemma mstep_ok all m g m' : mach_ok all m g → mstep m m' → ∃ g', mach_ok all m' g'.
Proof.
  intros HM Hs. pose proof HM as [Hok I HS HC]. destruct Hs as [op Hn Hen Ha|path args image li v sel alloc ic nm fds creds HI Ha E Hal|path image li v HI Ha E Hc Hal|path args image e v HI Ha E|s Hst (Hsp & Hcr & Hbo)].
  - apply (advance_ok all m g op (m_vmm m) g); [done| | |done|done].
    + unfold m_vmm. by destruct I, m as [k [v p sh]].
    + intros q. rewrite HS, Hn. split; [by left|]. intros [?|?%elem_of_nil]; done.
  - destruct (inv_exec Q all Q_wx (m_sys m) g path args image (Ok li) v I HI Ha E) as (g1 & I1). destruct (load_spaces all (m_sys m) g path args image li v I HI Ha E) as [Hnew HL].
    eapply (advance_ok all m g _ v g1); [done|done| |split; [done|]|by split].
    + intros q. cbn [new_space]. rewrite HL, list_elem_of_singleton. by rewrite <-HS.
    + by rewrite elem_of_spaces.
  - destruct (inv_exec Q all Q_wx (m_sys m) g path [] image (Ok li) v I HI Ha E) as (g1 & I1). destruct (load_spaces all (m_sys m) g path [] image li v I HI Ha E) as [Hnew HL].
    eapply (advance_ok all m g _ v g1); [done|done| |split; [|done]|by split].
    + intros q. cbn [new_space]. rewrite HL, list_elem_of_singleton. by rewrite <-HS.
    + by rewrite elem_of_spaces.
  - destruct (inv_exec Q all Q_wx (m_sys m) g path args image (Err e) v I HI Ha E) as (g1 & I1). exists g1.
    destruct Ha as [Ha1 Ha2].
    destruct (load_image_ok path args image (m_vmm m) g (Err e) v (si_ok _ _ _ _ I) (si_cr3 _ _ _ _ I) (image_safe_ok Q all Q_wx _ g image I HI) Ha1 Ha2 E) as (g' & [_ _ [L3 [L3' _]] L4 _ _ _]).
    split; [done|done| |].
    + intros p. rewrite <-HS. unfold m_vmm. cbn [m_sys sy_v set_v]. unfold live. by setoid_rewrite L4.
    + unfold m_vmm in *. cbn [m_sys sy_v set_v m_kernel]. by rewrite L3', L3.
  - destruct (vstep_inv Q all Q_wx (m_sys m) g s I Hst) as (g1 & I1). exists g1. split; [done|done| |].
    + intros p. rewrite <-HS. unfold m_vmm in *. cbn [m_sys]. by rewrite <-!elem_of_spaces, Hsp.
    + unfold m_vmm in *. cbn [m_sys m_kernel]. by rewrite Hcr, HC, Hbo.
Qed.
Lemma mrun_ok all m g m' : mach_ok all m g → rtc mstep m m' → ∃ g', mach_ok all m' g'.
Proof. intros I Hr. revert g I. induction Hr as [m|m m1 m2 Hs _ IH]; intros g I; [eauto|]. destruct (mstep_ok all m g m1 I Hs) as (g1 & I1). by apply (IH g1). Qed.

Definition machine_boot (ic : Credentials) (m : Mem) (cr3 : Z) (a : FrameAlloc) : Machine := {| m_kernel := boot dps ic; m_sys := sys_boot m cr3 a |}.
Lemma machine_boot_ok ic m cr3 a : boot_ok m cr3 a → ∃ g, mach_ok (available a ++ [cr3]) (machine_boot ic m cr3 a) g.
Proof.
  intros HB. eexists. split; [apply kernel_boot_ok|by apply boot_sys_inv| |].
  - intros p. rewrite <-(boot_space dps ic p). split; [|set_solver]. intros (x & Hx & _). by apply elem_of_nil in Hx.
  - unfold m_vmm, machine_boot. cbn. destruct HB as [_ _ HB]. symmetry. apply page_down_aligned, frame_ok_aligned. rewrite Forall_app, Forall_singleton in HB. apply HB.
Qed.

(** C6: Tasks are isolated.  After any sequence of interrupts, system calls, loads
    and stores from boot: the address spaces that exist are exactly those of the
    tasks that are not reaped; the running task runs in its own, where it can access
    frames that its address space owns and frames the kernel shares, and nothing
    else; a kernel task gives user code no access at all; and two tasks with
    different address spaces meet in shared memory only.  The steps ([mstep]) are
    under these conditions: a program is loaded from an image whose loadable
    segments lie below the two user entries of the top table ([image_safe], which the
    loader does not check), with arguments that fit the stack page or that the loader
    refuses ([args_ok]); a task replaces its program by [exec] only while no other
    task uses its address space, and a kill by the desktop finds its target still
    alive ([space_safe]); a frame the kernel shares is not released. *)
Theorem task_isolation ic m0 cr3 a m : boot_ok m0 cr3 a → rtc mstep (machine_boot ic m0 cr3 a) m →
  let k := m_kernel m in let v := m_vmm m in
  (∀ p, live p v ↔ ∃ i t, get_task i k = Some t ∧ t_pml4 t = Some p ∧ t_status t ≠ Reaped) ∧
  (∃ t, get_task (k_current k) k = Some t ∧
    match t_pml4 t with
    | Some p => v_cr3 v = p ∧ live p v ∧ ∀ va w pa, user_access (v_cr3 v) va w (v_mem v) = Some pa → owns p (page_down pa) v ∨ page_down pa ∈ sy_shared (m_sys m)
    | None => ∀ va w, user_access (v_cr3 v) va w (v_mem v) = None
    end) ∧
  ∀ i j t u p q va vb w w' pa, get_task i k = Some t → get_task j k = Some u → t_status t ≠ Reaped → t_status u ≠ Reaped →
    t_pml4 t = Some p → t_pml4 u = Some q → p ≠ q → 0 ≤ va < 2 ^ 48 → 0 ≤ vb < 2 ^ 48 →
    user_access p va w (v_mem v) = Some pa → user_access q vb w' (v_mem v) = Some pa → page_down pa ∈ sy_shared (m_sys m).
Proof.
  intros HB HR k v. destruct (machine_boot_ok ic m0 cr3 a HB) as (g0 & H0). destruct (mrun_ok _ _ g0 m H0 HR) as (g & [Hok I HS HC]).
  destruct (inv_isolated Q _ _ g I) as (H1 & H2 & H3). split_and!.
  - intros p. unfold v. rewrite HS. unfold live_space. setoid_rewrite uses_space_spec. done.
  - destruct (so_current _ _ Hok) as (t & Ht & Hr & Ec). exists t. split; [done|]. fold v k in HC. fold k in Ec. rewrite Ec in HC. cbn [cpu_of cpu_cr3] in HC. destruct (t_pml4 t) as [p|] eqn:Ep; simpl in HC.
    + assert (HL : live p v) by (apply HS; exists (k_current k), t; split; [done|by apply uses_space_spec]). split_and!; [done|done|]. rewrite HC. intros va w pa E. by eapply H1.
    + rewrite HC. intros va w. apply closed_access. apply (si_boot _ _ _ _ I).
  - intros i j t u p q va vb w w' pa Hi Hj Hti Htj Hp Hq Hne Ha Hb Ea Eb.
    destruct (H2 p q va vb w w' pa) as [[? _]|?]; [apply HS; exists i, t; split; [done|by apply uses_space_spec]|apply HS; exists j, u; split; [done|by apply uses_space_spec]|done..].
Qed.
End System.
