(* ===== verification/SystemCases.v ===== *)
(** * A task on the machine

    The program of VmmCases.v started as a task, and scheduled. *)
From stdpp Require Import gmap functions relations.
From S2P Require Import Prelude UserLayout FrameAlloc Vmm VmmMem VmmInv VmmMap VmmOps UserMem Mmap Elf VmmRun VmmClaims VmmCases Security FdTable Process ProcessInv ProcessRun System.

Local Open Scope Z_scope.
#[local] Existing Instance walk_mapper.
#[local] Existing Instance walk_spec.
Local Strategy 1000 [load_image].

Definition nobody : Credentials := {| cr_uid := USER_UID; cr_gid := USER_GID; cr_caps := CAP_INTERACTIVE_USER |}.
Definition demo_sel : Selectors := {| user_cs := 0x23; user_ss := 0x1b |}.
Definition demo_start : Machine := machine_boot 0x9000 nobody demo_mem demo_cr3 demo_frames.
Definition demo_spawn : kop := KSpawn demo_sel (Some 0x700000) nobody (str "app") 0x7fff00000000 0x7fff000fffc0 0x1000 [] None.
Definition demo_spawned : Machine := advance 0x9000 demo_spawn (snd demo_load) demo_start.
Definition demo_running : Machine := advance 0x9000 (KTick false 1 0x5000) (m_vmm demo_spawned) demo_spawned.

Lemma demo_alloc : alloc_ok (Some 0x700000) (m_kernel demo_start).
Proof. apply (bool_decide_eq_true_1 (alloc_ok _ _)). vm_compute. reflexivity. Qed.
Lemma demo_running_reached : rtc (mstep 0x9000 wx_ok) demo_start demo_running.
Proof.
  eapply rtc_l.
  - exact (ms_spawn 0x9000 wx_ok demo_start (str "/a") [str "b"] demo_image _ (snd demo_load) demo_sel (Some 0x700000) nobody (str "app") [] None demo_image_safe demo_args_ok demo_load_ok demo_alloc).
  - apply rtc_once. exact (ms_kernel 0x9000 wx_ok demo_spawned (KTick false 1 0x5000) eq_refl I (conj I I)).
Qed.
Lemma demo_runs : k_current (m_kernel demo_running) = 1%nat ∧ (t_pml4 <$> get_task 1 (m_kernel demo_running)) = Some (Some 0x1000).
Proof. split; vm_compute; reflexivity. Qed.
Lemma task_isolation_witness : v_cr3 (m_vmm demo_running) = 0x1000 ∧ live 0x1000 (m_vmm demo_running) ∧
  ∀ va w pa, user_access (v_cr3 (m_vmm demo_running)) va w (v_mem (m_vmm demo_running)) = Some pa → owns 0x1000 (page_down pa) (m_vmm demo_running) ∨ page_down pa ∈ sy_shared (m_sys demo_running).
Proof.
  destruct (task_isolation 0x9000 wx_ok wx_id nobody demo_mem demo_cr3 demo_frames demo_running demo_boot_ok demo_running_reached) as (_ & (t & Ht & Hm) & _).
  destruct demo_runs as [E1 E2]. rewrite E1 in Ht. rewrite Ht in E2. cbn [fmap option_fmap option_map] in E2. injection E2 as E2. rewrite E2 in Hm. exact Hm.
Defined.
